(* ===== verification/_CoqProject ===== *)
-Q . S2P
Prelude.v
ListHead.v
HList.v
Pmu.v
ProbeUtil.v
Evsel.v
Evlist.v
Profile.v
Threads.v
ToolBase.v
FuncMap.v
Report.v
Typed.v
Count.v
Tools.v
Pipeline.v
CodeRange.v
CodeRangeTree.v
CodeRangeMap.v
RTLock.v
RTThread.v
RTCommon.v
RTMemEmu.v
RTLinux.v
RTHeap.v
RTMaps.v
RTInit.v
InfHeap.v
InfHeapOk.v
InfHeapProc.v
BinHeap.v
BinHeapOk.v
BinImage.v
BinRealloc.v
TrapMap.v
TrapMapOk.v
TrapFlush.v
TrapProc.v
TrapProcess.v
TrapStatic.v
CodeGen.v
CodeTracker.v
CodeBuffer.v
CodeGenOk.v
CodeBufferOk.v
CodeLayout.v
CodeBuild.v
RelocPatch.v
CodeInsnOk.v
RelocPatchOk.v
CodeTrackerOk.v
CodeTrace.v
RelocFlow.v
RelocBlock.v
RelocBlockOk.v
RelocMove.v
Springboard.v
SpringboardOk.v
SpringboardGen.v
SpringboardBin.v
SpringboardFunc.v
Relocate.v
RelocateGen.v
RelocateBin.v
RelocateOk.v
RelocateMap.v
RelocateMem.v
RelocateDemo.v
