(* ===== verification/Prelude.v ===== *)
(** * lprofile: a function profiler and the runtime that carries it

    ** The program

    lprofile instruments a binary with the Dyninst toolkit so that every function
    calls a probe on entry and on exit.  The probe library (src/probe) opens
    hardware counters through perf_event_open, keeps one list of counters and one
    record file per thread, reads the counters at every probe without a system
    call, and writes fixed-size records.  The probes run inside the instrumented
    process next to the Dyninst runtime library
    (src/Dyninst-8.2.1/dyninstAPI_RT), which gives them thread indices, locks,
    memory near the code, address translation, and the events through which the
    process talks to the mutator.  The command-line tools (src/utils, C++) number
    the functions of a binary, choose the ones to profile, instrument them and
    print the records.  All three are modelled here, and of the mutator inside
    Dyninst (src/Dyninst-8.2.1/dyninstAPI) the parts that share data with the
    runtime or place instrumentation: the memory of the mutatee, the memory of a
    rewritten binary, the tree of address ranges, the trap table, and the engine that
    moves code to make room for the probes.

    How the parts use each other: profile.c owns the thread table and calls
    evlist.c for the counters of a thread; evlist.c links counters with list.h
    and calls evsel.c for each; evsel.c finds the event in the table of pmu.c and
    talks to the kernel; util.h, array.c and threadmap.c are helpers.  In the
    runtime, the lock of RTthread-x86-64.c protects the thread table of
    RTthread.c and the event variables of RTcommon.c; RTlinux.c keeps the trap
    tables of rewritten libraries and uses the trap search of RTcommon.c;
    RTmemEmulator.c reports through RTcommon.c; RTheap.c hands out memory; the
    initialisers of RTcommon.c and RTposix.c start them all.  Among the tools,
    main() of test.cc runs one command; prof.cc, wrap.cc, replace.cc and tracer.cc
    use count.cc, which asks funcmap.cc for the number of every function; the
    probes that count.cc inserts carry these numbers to profile.c, which stores
    them in the records report.cc prints.  In the mutator, addressSpace.C hands
    out memory of the mutatee; dynProcess.C grows this heap by calls of RTheap.c
    inside the process, binaryEdit.C grows it above the image of a binary and
    keeps the bytes in a tree of codeRange.C; trampTrapMappings of addressSpace.C
    writes the table that the trap handlers of RTcommon.c and RTlinux.c search.  Code
    that gets probes is moved (Relocation): CodeMover.C lets every block of
    RelocBlock.C add its instructions and its control flow to the buffer of
    CodeBuffer.C, which lays it out with the x86 generators of codegen-x86.C until no
    address changes, and hands the origin of every byte to CodeTracker.C.  Springboard.C
    then overwrites the original code with jumps to the moved blocks, or with traps
    that go into the trap table.

    ** Files

    - Prelude: machine integers as [Z] with explicit wrap-around ([u32], [s64],
      ...), the state-and-fault monad [M] of all stateful code, list and bit
      lemmas, the tactics [zbool], [minv] and [keeps_step], the invariants
      [keeps] and [yields] of stateful code, the hint database [lprofile].  The
      classes [Embed] and [EmbedLaws] run code written for a component in any
      state that contains it; every component gives instances.
    - ListHead: probe/list.h.  Nodes live in a store of next and prev pointers;
      every list_head operation and the iterator macros.  [is_list] relates the
      store to a sequence.
    - HList: the hlists of probe/list.h, over a store of heads and nodes whose
      back pointer is the address of the pointer to them; [is_htable] relates the
      store to a table of sequences.
    - Pmu: probe/pmu.c.  The event table; the constants of linux/perf_event.h
      are the class [PerfAbi], their documented properties [PerfAbiOk].
    - ProbeUtil: probe/util.h, array.c, threadmap.c.
    - Evsel: probe/evsel.c, inst.h.  One counter: its record, open, enable,
      disable, close, parsing and reading.  The kernel is the class [Kernel],
      whose answers may depend on the trace of calls so far; the mapped counter
      page is a sequence of versions, one per read.
    - Evlist: probe/evlist.c.  A heap of counters and lists, linked through
      ListHead; allocation failures come from the class [Allocator].
    - Profile: probe/profile.c, emptyprobe.c.  Thread table, start-up, probes,
      record cache and files, tear-down; the rest of the environment is [Env].
    - Threads: several profiled threads, whose probes come in any order.
    - ToolBase: what the C++ tools use of the C and C++ libraries (texts, files,
      getopt), and of Dyninst: objects, functions and the calls that change the
      mutatee.  The class [Dyninst] answers every call from the trace of the calls
      before it, the class [System] says which files and directories can be made.
    - FuncMap: utils/funcmap.cc, the function map, its cache file, the wrapper
      library.
    - Report: utils/report.cc, with struct prof_record as bytes.
    - Typed: the widths of what the probe stores.
    - Count: utils/count.cc, choosing and instrumenting the targets.
    - Tools: utils/prof.cc, wrap.cc, replace.cc, tracer.cc, simple.cc,
      funcmaptest.cc and test.cc, the commands.
    - Pipeline: the way of a function from its number to its line in the report.
    - RTLock: the runtime's lock, as sequential code and as a step relation in
      which any number of threads interleave between its memory accesses.
    - RTThread: RTthread.c, the hash table from thread identifiers to indices.
    - RTCommon: RTcommon.c, events, the call-target cache, stopping a thread,
      the searches over code ranges and traps, the trampoline guards.
    - RTMemEmu: RTmemEmulator.c, address translation under concurrent updates.
    - RTLinux: RTlinux.c, identities, static heaps, the registry of rewritten
      libraries and the trap handler.
    - RTHeap: RTheap.c with the parts of RTheap-linux.c and RTposix.c it calls:
      the search for address space, allocation, release.
    - RTMaps: RTheap-linux.c, reading and parsing /proc/self/maps.
    - RTInit: RTcommon.c, RTposix.c and RTsignal.c, the start of the runtime, the
      protection of the trap signal, the socket to the mutator.

    - CodeRange: dyninstAPI/codeRange.C, the red-black tree of address ranges over
      a store of nodes; the class [RangeOf] gives address and size of a range.
      CodeRangeTree relates the store to a tree, CodeRangeMap to a finite map.
    - InfHeap: the heap of addressSpace.C and infHeap.C with the process of
      dynProcess.C and linux.C that grows it; the class [Mutatee] answers the remote
      calls.  InfHeapOk holds the invariant of the heap (counting the owners of every
      address), InfHeapProc the theorems on a process.
    - BinHeap: the memory of a rewritten binary, binaryEdit.C: the same heap, and a
      tree of CodeRange over objects that hold the bytes.  BinHeapOk holds reading,
      writing and the invariant, BinImage allocation and the refinement, BinRealloc
      resizing.
    - TrapMap: trampTrapMappings of addressSpace.C over the class [Space], what the
      trap table asks of an address space.  TrapMapOk holds the invariant and the
      plan of a flush, TrapFlush the bytes in the memory of a [Space] that has the
      [SpaceLaws], TrapProc the theorem on a process.  TrapProcess gives the
      instances for the process of InfHeap, TrapStatic for the binary of BinHeap,
      with the theorem on rewritten binaries.
    - CodeGen: codegen.C and codegen-x86.C, the buffer of bytes and the generators of
      jumps, calls and rewritten instructions.  CodeGenOk and CodeInsnOk hold the bytes
      they generate, RelocFlow what the processor does with them.
    - CodeBuffer: Relocation/CodeBuffer.C over the class [Patch] of code that depends
      on its address.  CodeBufferOk proves the rounds of generation against the
      class [PatchLaws], CodeLayout and CodeBuild relate the buffer to the pieces a
      client adds to it ([laid]).
    - CodeTracker: Relocation/CodeTracker.C and IntervalTree.h, with CodeTrackerOk on
      merging and lookup; CodeTrace joins it with the layout.
    - RelocPatch: the patches of CFWidget.C, CFWidget-x86.C and RelDataWidget.C and the
      targets of RelocTarget.C; RelocPatchOk gives the instance of [PatchLaws].
    - RelocBlock: RelocBlock.C, the widgets and CodeMover.C; RelocBlockOk and RelocMove
      hold the theorem on a whole graph of blocks.
    - Springboard: Relocation/Springboard.C with patchCode of addressSpace.C, over the
      class [Parse] (what the parser knows of a function) and the class [CodeSpace]
      (the virtual methods of an address space).  SpringboardOk holds the ranges,
      SpringboardGen the batch against the laws [CodeSpaceLaws], SpringboardFunc adding
      functions; SpringboardBin gives the instances for a rewritten binary.
    - Relocate: CodeMover.C, RelocGraph.C and the linking of RelocBlock.C, over the
      class [Cfg] of the control flow graph, and generateCode and relocateInt of
      addressSpace.C over the class [CodeAlloc] of its allocator.  RelocateGen holds the
      loop that allocates, against the laws [CodeAllocLaws], RelocateBin the instances
      for a rewritten binary.
      RelocateOk holds the graph, stated by the edges of [Cfg], and the priorities, RelocateMap the requests,
      RelocateMem the theorem on moved functions in memory, RelocateDemo a function of
      a binary for the witnesses.

    A C function [f] is the definition [f]; a loop is a [Fixpoint] named after it
    where it needs one.  Undefined behaviour, failed assertions and abort() end in
    a [Fault]; reads and writes out of range are [FBounds], dereferences of null
    [FNull].  Logging and debugging output has no effect and is left out.

    ** What is proved

    - Representation: the list operations refine operations on sequences, those
      on hlists refine operations on a table of sequences, the iterators visit the
      ring, cutting and splicing are inverse; the thread table
      refines a finite map; each set of the call-target cache is a least-recently-
      used cache of two; the linked list of heaps refines a list; the red-black tree
      of address ranges refines a finite map, stays balanced and finds the covering
      range.
    - End to end: when a chosen, instrumented program runs, every probe it hits is
      a record whose number names the very function, and the report reads back as
      these records.
    - The tools: the function map numbers every name once, by first occurrence,
      and is the same after it was written to its cache and read again; the
      targets are exactly the numbered functions that match the pattern, object
      by object; a successful run of prof made exactly the calls of Dyninst it
      should, in order, with the initialiser before and the exit hook after the
      probes; the generated wrapper source is the expected file, line by line, with one
      wrapper per function.
    - The profiler: whatever the order of the probes of several threads, every
      thread's file holds its own records, complete and in order, and the exit of
      the process releases everything; all stored data fits its type, whatever
      the calls; a session of a running thread records every probe hit
      completely and in order, through cache flushes and exit; registration keeps
      the thread table consistent; start-up succeeds or fails as described;
      starting a list of counters is all or nothing; deleting it releases every
      descriptor; no sequence of calls on a counter that does not open it twice leaks a
      descriptor or a page;
      an event text adds its events in order.
    - Concurrency: mutual exclusion of the lock under every interleaving, and from
      every reachable state every waiting thread can get it; a count
      read from the mapped page is a snapshot of one kernel update; an address is
      looked up in one version of the translation table.
    - Searches: trap translation, code ranges, address translation, bit masks and
      thread maps return exactly the right element or report that there is none.
    - Static traps end to end: whatever libraries were loaded or unloaded, a trap
      is sent to its relocated target, and the registry is in step with the loaded
      libraries again: each table is relocated once, however many traps follow.
    - Traps, from the mutator to the handler: after any batch of trap mappings was
      flushed, the handler inside a process translates every address as the
      mutator's map does; and in a program that loads a rewritten binary, at any
      address and among any other libraries, the handler finds every trap the
      rewriter entered, in any sequence of traps of its threads.
    - Moved code: blocks moved to any address keep their control flow, stated by the
      kinds of their edges ([takes], [falls]): every edge
      goes to the moved block or to the address it names, and a jump is left out only
      when its target follows; generation ends, with every patch generated for the
      final addresses; every byte of moved code leads back to the instruction it came
      from, however its trackers were merged; a generated jump reaches its target
      except over the five lowest distances.
    - Moved functions: whatever the graph of some functions, their copies mirror it
      ([reflected]): every edge leads to the copy of its target or to the target itself;
      memory is found that their code fits in; after they were moved the code is there, every block goes where its
      edges go, and control that comes to an entry or to another block at which the edges
      of the graph require it ([caught]) goes to the moved
      block; nothing else changes.  Springboards of a batch do not overlap, are all
      that was asked for where it is required, and a refused batch changes nothing.
    - Memory of the mutatee: whatever a client allocates, releases and resizes, the
      ranges it was promised, by its own account of the answers ([ledger]), never
      overlap and lie in memory the process gave, and so do the live blocks; an allocation keeps
      its bounds and fails only when nothing fits; compaction loses no byte.  The
      memory of a rewritten binary behaves as separate byte arrays, and the sections
      of the image stay as they are.
    - Memory of the runtime: no address offered to mmap at a fixed place overlaps a mapping, and
      the search fails only when every place was refused; a memory map printed with addresses of any number
      of digits is read back exactly, however the kernel serves it.
    - Start and socket: the start of the runtime establishes the invariants the
      other theorems assume; the mutatee cannot take the trap signal away; the
      socket to the mutator neither leaks nor closes another descriptor.
    - Termination: the retry loops end once the other side is quiet; every other
      loop is shown to return within its fuel.
    - Behaviour that differs from what the code says it does is stated as it is:
      a disabled counter that stays marked as enabled, events added twice after a
      trailing comma, a slot freed twice, a version that overflows, a shift read
      too late, long names that shift the numbers in the cache, a report mode that
      cannot be used, a rejected command line that frees an unset pointer, a grown
      block whose growth is forgotten, springboards forgotten when a function is added
      again, a read that runs over its buffer, traps lost
      on fork.

    ** Bounds and fuel

    Fuel is the number of rounds a loop may take.  For loops over a list or a table
    it is the length plus one or two ([loop_fuel], [mm_find] with 1025 for a table
    of 1024 entries, 513 for the 512 places of the registry), and the theorems show
    it is enough; for the retry loops it is a parameter, and the theorems say how
    much suffices.  [prof_evsel__open] needs no more than three rounds.  Walks in the
    range tree have the number of nodes plus one; the attempts of the two
    [inferiorMalloc] are the constants of the code; a write into a rewritten binary
    has one round per byte and one more.  Generation of a buffer needs at most
    [2 * total + 2] rounds, where [total] bounds the size of the generated code: in
    every second round at the latest a size grows.  The loop that allocates ends within
    [total + 1] attempts, since a failed one means that the code has outgrown what was
    allocated; each attempt takes new label numbers, and [layable] bounds them all.  Moved code stays below 2 GB, the
    width of the code's offsets and label numbers ([buildable]).  The bounds below 2 GB in the theorems on
    the heaps are the width of the code's int counters.

    ** What is not modelled

    The rest of the Dyninst libraries, which are answers of the class [Dyninst]
    to the tools, and of the classes [Mutatee], [Space] and [RangeOf] to the parts of
    the mutator; the memory emulator of the mutator, without which no allocated
    region is recorded in it; of the code mover, late patches and register spaces of
    the code generator, jumps through the procedure linkage table, the widgets of
    instrumentation and of memory emulation, the decoding of a block, the
    transformers of the graph (instrumentation, sensitivity to the program counter),
    the program counters of stopped threads, breakpoints of a process as springboards, and the copy of a
    tracker on fork; the runtime
    for other systems and processors; dlopen;
    restoring and starting rewritten binaries; the body of the command simple, whose
    start never succeeds; usage texts and logging.  The growth of the trap table by
    the factor 1.5, a floating-point product in the code, is the integer quotient
    3 n / 2.  The memory of a running process is a map of bytes to which the writes
    of the mutator go.
    Within the probe, calls of several threads are interleaved whole: the mutex of
    the thread table makes registration atomic, and torn reads of the table
    without it are not modelled.  A snippet Dyninst inserted is taken to run
    whenever control passes its point, with its constant arguments. *)
From stdpp Require Import base gmap list list_numbers strings.
From Stdlib Require Import ZArith Lia.

Global Open Scope Z_scope.

(** ** Machine integers

    C integers are kept as [Z]; a conversion to a [w]-bit unsigned type is a
    reduction modulo [2^w], a conversion to a signed type re-centres it. *)
Definition uwrap (w x : Z) : Z := x mod 2 ^ w.
Definition swrap (w x : Z) : Z := (x + 2 ^ (w - 1)) mod 2 ^ w - 2 ^ (w - 1).

Abbreviation u8 := (uwrap 8).
Abbreviation u16 := (uwrap 16).
Abbreviation u32 := (uwrap 32).
Abbreviation u64 := (uwrap 64).
Abbreviation s32 := (swrap 32).
Abbreviation s64 := (swrap 64).

Definition UINT_MAX : Z := 2 ^ 32 - 1.
Definition UINT32_MAX : Z := UINT_MAX.
Definition UINT64_MAX : Z := 2 ^ 64 - 1.
Definition NULL : Z := 0.

Definition urange (w x : Z) : Prop := 0 <= x < 2 ^ w.
Definition srange (w x : Z) : Prop := - 2 ^ (w - 1) <= x < 2 ^ (w - 1).

Lemma uwrap_range w x : 0 <= w -> urange w (uwrap w x).
Proof. intros. unfold urange, uwrap. apply Z.mod_pos_bound. lia. Qed.

Lemma uwrap_id w x : urange w x -> uwrap w x = x.
Proof. apply Z.mod_small. Qed.

Lemma uwrap_idemp w x : 0 <= w -> uwrap w (uwrap w x) = uwrap w x.
Proof. intros. by apply uwrap_id, uwrap_range. Qed.

Lemma swrap_range w x : 1 <= w -> srange w (swrap w x).
Proof.
  intros. unfold srange, swrap.
  pose proof (Z.mod_pos_bound (x + 2 ^ (w - 1)) (2 ^ w) ltac:(lia)).
  assert (2 ^ w = 2 * 2 ^ (w - 1)) by (rewrite <- Z.pow_succ_r by lia; f_equal; lia).
  lia.
Qed.

Lemma swrap_id w x : 1 <= w -> srange w x -> swrap w x = x.
Proof.
  intros ? [? ?]. unfold swrap.
  assert (2 ^ w = 2 * 2 ^ (w - 1)) by (rewrite <- Z.pow_succ_r by lia; f_equal; lia).
  rewrite Z.mod_small; lia.
Qed.

Lemma s32_id x : - 2 ^ 31 <= x < 2 ^ 31 -> s32 x = x.
Proof. intros Hx. apply swrap_id; [lia|]. unfold srange. simpl. lia. Qed.
Lemma u32_id x : 0 <= x < 2 ^ 32 -> u32 x = x.
Proof. intros Hx. by apply uwrap_id. Qed.
Lemma u64_id x : 0 <= x < 2 ^ 64 -> u64 x = x.
Proof. intros Hx. by apply uwrap_id. Qed.

(** Or-ing a shifted field above an [n]-bit value adds it. *)
Lemma lor_add_disjoint n a b : 0 <= n -> 0 <= a < 2 ^ n -> Z.lor a (b * 2 ^ n) = a + b * 2 ^ n.
Proof.
  intros Hn Ha. pose proof (Z.add_lor_land a (b * 2 ^ n)) as E.
  enough (Z.land a (b * 2 ^ n) = 0) by lia. clear E.
  rewrite <- Z.shiftl_mul_pow2 by lia. apply Z.bits_inj'. intros i Hi.
  rewrite Z.land_spec, Z.bits_0. destruct (Z.lt_ge_cases i n).
  - by rewrite Z.shiftl_spec_low, andb_false_r.
  - rewrite <- (Z.mod_small a (2 ^ n)) by done. by rewrite Z.mod_pow2_bits_high.
Qed.

(** Clearing the low bits rounds down to a multiple of a power of two. *)
Lemma land_lnot_pow2 k x : 0 <= k -> Z.land x (Z.lnot (2 ^ k - 1)) = x - x mod 2 ^ k.
Proof.
  intros Hk. replace (2 ^ k - 1) with (Z.ones k) by (rewrite Z.ones_equiv; lia).
  rewrite <- Z.ldiff_land, Z.ldiff_ones_r, Z.shiftr_div_pow2, Z.shiftl_mul_pow2 by lia.
  pose proof (Z.div_mod x (2 ^ k)). lia.
Qed.

(** ** Little-endian integers *)
Fixpoint le_enc (n : nat) (x : Z) : list Z :=
  match n with
  | O => []
  | S n' => x mod 256 :: le_enc n' (x / 256)
  end.

Fixpoint le_dec (bs : list Z) : Z :=
  match bs with
  | [] => 0
  | b :: bs' => b + 256 * le_dec bs'
  end.

Lemma length_le_enc n x : length (le_enc n x) = n.
Proof. revert x. induction n; simpl; auto. Qed.

Lemma le_dec_enc n x : 0 <= x < 256 ^ Z.of_nat n -> le_dec (le_enc n x) = x.
Proof.
  revert x. induction n as [|n IH]; intros x Hx; simpl.
  - change (256 ^ Z.of_nat 0) with 1 in Hx. lia.
  - rewrite Nat2Z.inj_succ, Z.pow_succ_r in Hx by lia. rewrite IH.
    + pose proof (Z.div_mod x 256). lia.
    + split; [apply Z.div_pos; lia|apply Z.div_lt_upper_bound; lia].
Qed.

Lemma le_enc_bytes n x : Forall (fun b => 0 <= b < 256) (le_enc n x).
Proof.
  revert x. induction n; intros x; simpl; constructor; auto. apply Z.mod_pos_bound. lia.
Qed.

(** ** Lists *)
Lemma NoDup_list_prod {A B} (l : list A) (k : list B) : NoDup l -> NoDup k -> NoDup (list_prod l k).
Proof.
  intros Hl Hk. induction Hl as [|x l Hx Hl IH]; simpl; [apply NoDup_nil; done|].
  apply NoDup_app. split_and!; [|intros y (z & -> & _)%list_elem_of_fmap|done].
  - apply NoDup_fmap_2_strong; [|done]. by intros a b _ _ [= ->].
  - rewrite list_elem_of_In, in_prod_iff, <- !list_elem_of_In. tauto.
Qed.

Lemma filter_all {A} (P : A -> Prop) `{!forall x, Decision (P x)} (l : list A) : Forall P l -> filter P l = l.
Proof. induction 1 as [|x l Hx _ IH]; [done|]. by rewrite filter_cons_True, IH. Qed.

(** Sums over lists. *)
Definition zsum {A} (f : A -> Z) (l : list A) : Z := foldr (fun x n => f x + n) 0 l.
#[global] Arguments zsum : simpl never.

Lemma zsum_app {A} (f : A -> Z) l1 l2 : zsum f (l1 ++ l2) = zsum f l1 + zsum f l2.
Proof. induction l1 as [|x l1 IH]; simpl; [done|]. unfold zsum in *. simpl. lia. Qed.
Lemma zsum_cons {A} (f : A -> Z) x l : zsum f (x :: l) = f x + zsum f l.
Proof. done. Qed.
Lemma zsum_nil {A} (f : A -> Z) : zsum f [] = 0.
Proof. done. Qed.
#[export] Instance zsum_perm {A} (f : A -> Z) : Proper ((≡ₚ) ==> (=)) (zsum f).
Proof. intros l1 l2 HP. induction HP; rewrite ?zsum_cons in *; lia. Qed.
Lemma zsum_nonneg {A} (f : A -> Z) l : (forall x, x ∈ l -> 0 <= f x) -> 0 <= zsum f l.
Proof.
  induction l as [|x l IH]; intros Hf; [done|]. rewrite zsum_cons. specialize (IH ltac:(intros y Hy; apply Hf; by right)).
  specialize (Hf x ltac:(by left)). lia.
Qed.

(** ** Partial, stateful code

    A C function that may run into undefined behaviour, fail an assertion or
    call [abort] is a state transformer that may end in a [Fault]; a loop whose
    number of iterations the environment controls carries fuel and ends in
    [Fault FFuel] when it runs out, which the termination theorems exclude. *)
Inductive fault : Type :=
| FNull      (* dereference of a null pointer *)
| FBadPtr    (* access to an address that holds no live object *)
| FBounds    (* access past the end of an array *)
| FAssert    (* failed assert() *)
| FAbort     (* abort() *)
| FShift     (* shift by at least the width of the operand *)
| FFuel.     (* the model ran out of fuel *)

Inductive res (A : Type) : Type :=
| Ret (a : A)
| Fault (f : fault).
Arguments Ret {A} a.
Arguments Fault {A} f.

Definition M (S A : Type) : Type := S -> res (A * S).

#[global] Instance M_ret (S : Type) : MRet (M S) := fun A a s => Ret (a, s).
#[global] Instance M_bind (S : Type) : MBind (M S) := fun A B f m s =>
  match m s with
  | Ret (a, s') => f a s'
  | Fault e => Fault e
  end.

Definition fail {S A} (e : fault) : M S A := fun _ => Fault e.
Definition get {S} : M S S := fun s => Ret (s, s).
Definition put {S} (s : S) : M S unit := fun _ => Ret (tt, s).
Definition gets {S A} (f : S -> A) : M S A := fun s => Ret (f s, s).
Definition modify {S} (f : S -> S) : M S unit := fun s => Ret (tt, f s).
Definition assertM {S} (b : bool) : M S unit := fun s => if b then Ret (tt, s) else Fault FAssert.

Lemma bind_ret {S A B} (m : M S A) (k : A -> M S B) s a s' :
  m s = Ret (a, s') -> (m ≫= k) s = k a s'.
Proof. intros H. unfold mbind, M_bind. by rewrite H. Qed.

Lemma bind_fault {S A B} (m : M S A) (k : A -> M S B) s e :
  m s = Fault e -> (m ≫= k) s = Fault e.
Proof. intros H. unfold mbind, M_bind. by rewrite H. Qed.

Lemma bind_gets {S A B} (f : S -> A) (k : A -> M S B) s : (gets f ≫= k) s = k (f s) s.
Proof. done. Qed.
Lemma bind_assoc {S A B C} (m : M S A) (f : A -> M S B) (g : B -> M S C) s :
  ((m ≫= f) ≫= g) s = (m ≫= (fun a => f a ≫= g)) s.
Proof. unfold mbind, M_bind. by destruct (m s) as [[]|]. Qed.
Lemma bind_mret {S A B} (a : A) (k : A -> M S B) s : (mret a ≫= k) s = k a s.
Proof. done. Qed.

Lemma bind_inv {S A B} (m : M S A) (k : A -> M S B) s b s'' :
  (m ≫= k) s = Ret (b, s'') -> exists a s', m s = Ret (a, s') /\ k a s' = Ret (b, s'').
Proof.
  unfold mbind, M_bind. destruct (m s) as [[a s']|e] eqn:E; [|done]. eauto.
Qed.

(** Running a body over the elements of a list, in order. *)
Fixpoint forM {S A} (l : list A) (body : A -> M S unit) : M S unit :=
  match l with
  | [] => mret tt
  | x :: l' => body x ;; forM l' body
  end.

(** ** Components of a state

    [Embed S T]: a state [S] contains a component [T], on which code written for
    [T] alone can be run. *)
Class Embed (S T : Type) := {
  eget : S -> T;
  eput : T -> S -> S
}.

Definition lift {S T A} `{Embed S T} (m : M T A) : M S A := fun s =>
  match m (eget s) with
  | Ret (a, t) => Ret (a, eput t s)
  | Fault e => Fault e
  end.

Class EmbedLaws (S T : Type) `{Embed S T} : Prop := {
  eput_eget : forall s : S, eput (eget s) s = s;
  eget_eput : forall (t : T) (s : S), eget (eput t s) = t
}.

(** ** Invariants of stateful code

    [keeps P m]: whenever [m] returns, it leaves a state with [P] when started in
    one. *)
Definition keeps {S A} (P : S -> Prop) (m : M S A) : Prop :=
  forall s a s', P s -> m s = Ret (a, s') -> P s'.

Lemma keeps_ret {S A} (P : S -> Prop) (a : A) : keeps P (mret a : M S A).
Proof. by intros s b s' HP [= <- <-]. Qed.
Lemma keeps_get {S} (P : S -> Prop) : keeps P get.
Proof. by intros s b s' HP [= <- <-]. Qed.
Lemma keeps_gets {S A} (P : S -> Prop) (f : S -> A) : keeps P (gets f).
Proof. by intros s b s' HP [= <- <-]. Qed.
Lemma keeps_fail {S A} (P : S -> Prop) e : keeps P (fail e : M S A).
Proof. by intros s b s' HP [=]. Qed.
Lemma keeps_modify {S} (P : S -> Prop) f : (forall s, P s -> P (f s)) -> keeps P (modify f).
Proof. intros Hf s b s' HP [= <- <-]. auto. Qed.
Lemma keeps_bind {S A B} (P : S -> Prop) (m : M S A) (k : A -> M S B) :
  keeps P m -> (forall a, keeps P (k a)) -> keeps P (m ≫= k).
Proof.
  intros Hm Hk s b s' HP H. unfold mbind, M_bind in H. destruct (m s) as [[a s1]|e] eqn:E; [|done].
  exact (Hk a s1 b s' (Hm s a s1 HP E) H).
Qed.
Lemma keeps_forM {S A} (P : S -> Prop) (l : list A) (body : A -> M S unit) :
  (forall x, x ∈ l -> keeps P (body x)) -> keeps P (forM l body).
Proof.
  induction l as [|x l IH]; intros Hb; simpl; [apply keeps_ret|].
  apply keeps_bind; [apply Hb; by left|]. intros _. apply IH. intros y Hy. apply Hb. by right.
Qed.
(** Code on a component keeps what does not depend on that component. *)
Lemma keeps_lift {S T A} `{Embed S T} (P : S -> Prop) (m : M T A) :
  (forall s t, P s -> P (eput t s)) -> keeps P (lift m).
Proof.
  intros HP s a s' HPs. unfold lift. destruct (m (eget s)) as [[b t]|e]; [|done]. intros [= <- <-]. auto.
Qed.

(** [yields P Q m]: moreover, what it returns satisfies [Q]. *)
Definition yields {S A} (P : S -> Prop) (Q : A -> Prop) (m : M S A) : Prop :=
  forall s a s', P s -> m s = Ret (a, s') -> P s' /\ Q a.

Lemma yields_keeps {S A} (P : S -> Prop) (Q : A -> Prop) (m : M S A) : yields P Q m -> keeps P m.
Proof. intros Hy s a s' HP H. exact (proj1 (Hy s a s' HP H)). Qed.
Lemma keeps_bind_yields {S A B} (P : S -> Prop) (Q : A -> Prop) (m : M S A) (k : A -> M S B) :
  yields P Q m -> (forall a, Q a -> keeps P (k a)) -> keeps P (m ≫= k).
Proof.
  intros Hm Hk s b s' HP H. apply bind_inv in H as (a & s1 & H1 & H2). destruct (Hm s a s1 HP H1) as [HP1 HQ].
  exact (Hk a HQ s1 b s' HP1 H2).
Qed.

(** ** Automation *)
Create HintDb lprofile.
#[export] Hint Resolve uwrap_range swrap_range : lprofile.
#[export] Hint Resolve keeps_ret keeps_get keeps_gets keeps_fail : lprofile.

(** Walks a [keeps] goal through binds, tests and matches. *)
Ltac keeps_step :=
  match goal with
  | |- keeps _ (_ ≫= _) => apply keeps_bind; [|intros ?]
  | |- keeps _ (lift _) => apply keeps_lift
  | |- keeps _ (forM _ _) => apply keeps_forM; intros ? ?
  | |- keeps _ (modify _) => apply keeps_modify
  | |- keeps _ (match ?x with _ => _ end) => destruct x
  | |- keeps _ _ => solve [eauto with lprofile]
  end.

Ltac zbool :=
  repeat match goal with
  | H : (_ =? _) = true |- _ => apply Z.eqb_eq in H
  | H : (_ =? _) = false |- _ => apply Z.eqb_neq in H
  | H : (_ <? _) = true |- _ => apply Z.ltb_lt in H
  | H : (_ <? _) = false |- _ => apply Z.ltb_ge in H
  | H : (_ <=? _) = true |- _ => apply Z.leb_le in H
  | H : (_ <=? _) = false |- _ => apply Z.leb_gt in H
  | H : _ && _ = true |- _ => apply andb_prop in H; destruct H
  | H : _ || _ = false |- _ => apply orb_false_elim in H; destruct H
  end.

(** Peels the monadic binds of a hypothesis [(m ≫= k) s = Ret _]. *)
Ltac minv H :=
  apply bind_inv in H;
  let a := fresh "a" in let s := fresh "s" in let H1 := fresh "Hm" in
  destruct H as (a & s & H1 & H).
