(* ===== verification/ListHead.v ===== *)
(** * The intrusive lists of probe/list.h

    [struct list_head] nodes live in a store from addresses to nodes; every
    operation of the header is the sequence of field writes the source makes.
    [is_list h hd ps] says that, in the store [h], the ring that starts at the
    head [hd] visits exactly the nodes [ps]; each operation is proved to act
    on rings as the corresponding operation on sequences. *)
From stdpp Require Import base gmap list.
From S2P Require Import Prelude.

Record list_head : Type := mk_list_head { lh_next : Z; lh_prev : Z }.

Abbreviation lstore := (gmap Z list_head).

(** ** Field accesses *)

Definition rd_next (p : Z) : M lstore Z := fun h =>
  match h !! p with Some n => Ret (lh_next n, h) | None => Fault FBadPtr end.
Definition rd_prev (p : Z) : M lstore Z := fun h =>
  match h !! p with Some n => Ret (lh_prev n, h) | None => Fault FBadPtr end.
Definition wr_next (p v : Z) : M lstore unit := fun h =>
  match h !! p with
  | Some n => Ret (tt, <[p := mk_list_head v (lh_prev n)]> h)
  | None => Fault FBadPtr
  end.
Definition wr_prev (p v : Z) : M lstore unit := fun h =>
  match h !! p with
  | Some n => Ret (tt, <[p := mk_list_head (lh_next n) v]> h)
  | None => Fault FBadPtr
  end.

(** ** The operations, as the header writes them *)

Definition INIT_LIST_HEAD (l : Z) : M lstore unit :=
  wr_next l l ;; wr_prev l l.

Definition __list_add (new prev next : Z) : M lstore unit :=
  wr_prev next new ;;
  wr_next new next ;;
  wr_prev new prev ;;
  wr_next prev new.

Definition list_add (new head : Z) : M lstore unit :=
  n ← rd_next head ; __list_add new head n.

Definition list_add_tail (new head : Z) : M lstore unit :=
  p ← rd_prev head ; __list_add new p head.

Definition __list_del (prev next : Z) : M lstore unit :=
  wr_prev next prev ;; wr_next prev next.

Definition __list_del_entry (entry : Z) : M lstore unit :=
  p ← rd_prev entry ; n ← rd_next entry ; __list_del p n.

Definition list_del (entry : Z) : M lstore unit :=
  p ← rd_prev entry ; n ← rd_next entry ;
  __list_del p n ;;
  wr_next entry NULL ;;
  wr_prev entry NULL.

Definition list_replace (old new : Z) : M lstore unit :=
  on ← rd_next old ; wr_next new on ;;
  nn ← rd_next new ; wr_prev nn new ;;
  op ← rd_prev old ; wr_prev new op ;;
  np ← rd_prev new ; wr_next np new.

Definition list_replace_init (old new : Z) : M lstore unit :=
  list_replace old new ;; INIT_LIST_HEAD old.

Definition list_del_init (entry : Z) : M lstore unit :=
  __list_del_entry entry ;; INIT_LIST_HEAD entry.

Definition list_move (l head : Z) : M lstore unit :=
  __list_del_entry l ;; list_add l head.

Definition list_move_tail (l head : Z) : M lstore unit :=
  __list_del_entry l ;; list_add_tail l head.

Definition list_is_last (l head : Z) : M lstore bool :=
  n ← rd_next l ; mret (n =? head).

Definition list_empty (head : Z) : M lstore bool :=
  n ← rd_next head ; mret (n =? head).

Definition list_empty_careful (head : Z) : M lstore bool :=
  n ← rd_next head ;
  if n =? head then p ← rd_prev head ; mret (n =? p) else mret false.

Definition list_rotate_left (head : Z) : M lstore unit :=
  e ← list_empty head ;
  if (negb e : bool) then first ← rd_next head ; list_move_tail first head else mret tt.

Definition list_is_singular (head : Z) : M lstore bool :=
  e ← list_empty head ;
  if (negb e : bool) then n ← rd_next head ; p ← rd_prev head ; mret (n =? p) else mret false.

Definition __list_cut_position (l head entry : Z) : M lstore unit :=
  new_first ← rd_next entry ;
  hn ← rd_next head ; wr_next l hn ;;
  ln ← rd_next l ; wr_prev ln l ;;
  wr_prev l entry ;;
  wr_next entry l ;;
  wr_next head new_first ;;
  wr_prev new_first head.

Definition list_cut_position (l head entry : Z) : M lstore unit :=
  e ← list_empty head ;
  if (e : bool) then mret tt else
  sing ← list_is_singular head ;
  hn ← rd_next head ;
  if sing && (negb (hn =? entry) && negb (head =? entry)) then mret tt else
  if entry =? head then INIT_LIST_HEAD l else __list_cut_position l head entry.

Definition __list_splice (l prev next : Z) : M lstore unit :=
  first ← rd_next l ;
  last ← rd_prev l ;
  wr_prev first prev ;;
  wr_next prev first ;;
  wr_next last next ;;
  wr_prev next last.

Definition list_splice (l head : Z) : M lstore unit :=
  e ← list_empty l ;
  if (negb e : bool) then n ← rd_next head ; __list_splice l head n else mret tt.

Definition list_splice_tail (l head : Z) : M lstore unit :=
  e ← list_empty l ;
  if (negb e : bool) then p ← rd_prev head ; __list_splice l p head else mret tt.

Definition list_splice_init (l head : Z) : M lstore unit :=
  e ← list_empty l ;
  if (negb e : bool) then n ← rd_next head ; __list_splice l head n ;; INIT_LIST_HEAD l
  else mret tt.

Definition list_splice_tail_init (l head : Z) : M lstore unit :=
  e ← list_empty l ;
  if (negb e : bool) then p ← rd_prev head ; __list_splice l p head ;; INIT_LIST_HEAD l
  else mret tt.

(** ** The iterators

    The macros are loops over a cursor.  The body runs in a state that embeds
    the list store ([Sto]); [container_of] is the identity because every list
    node of the program is the first member of its structure.  [n] is fuel:
    the iteration over a ring of [k] nodes needs [k + 1]. *)
Section Iterators.
Context {S : Type} `{EmS : Embed S lstore}.

(** [list_for_each] and [list_for_each_entry], from a cursor [pos]. *)
Fixpoint for_each_from (n : nat) (pos head : Z) (body : Z -> M S unit) : M S unit :=
  match n with
  | O => fail FFuel
  | Datatypes.S n' =>
      if pos =? head then mret tt
      else body pos ;; nxt ← lift (rd_next pos) ; for_each_from n' nxt head body
  end.

Definition list_for_each_entry (n : nat) (head : Z) (body : Z -> M S unit) : M S unit :=
  pos ← lift (rd_next head) ; for_each_from n pos head body.

(** [list_for_each_entry_continue]: start after [pos]. *)
Definition list_for_each_entry_continue (n : nat) (pos head : Z) (body : Z -> M S unit) : M S unit :=
  nxt ← lift (rd_next pos) ; for_each_from n nxt head body.

(** [list_for_each_prev] and [list_for_each_entry_reverse]. *)
Fixpoint for_each_prev_from (n : nat) (pos head : Z) (body : Z -> M S unit) : M S unit :=
  match n with
  | O => fail FFuel
  | Datatypes.S n' =>
      if pos =? head then mret tt
      else body pos ;; prv ← lift (rd_prev pos) ; for_each_prev_from n' prv head body
  end.

Definition list_for_each_entry_reverse (n : nat) (head : Z) (body : Z -> M S unit) : M S unit :=
  pos ← lift (rd_prev head) ; for_each_prev_from n pos head body.

(** [list_for_each_entry_safe]: the successor is read before the body runs. *)
Fixpoint for_each_safe_from (n : nat) (pos nx head : Z) (body : Z -> M S unit) : M S unit :=
  match n with
  | O => fail FFuel
  | Datatypes.S n' =>
      if pos =? head then mret tt
      else body pos ;; nx' ← lift (rd_next nx) ; for_each_safe_from n' nx nx' head body
  end.

Definition list_for_each_entry_safe (n : nat) (head : Z) (body : Z -> M S unit) : M S unit :=
  pos ← lift (rd_next head) ;
  nx ← lift (rd_next pos) ;
  for_each_safe_from n pos nx head body.

Definition list_for_each_entry_from (n : nat) (pos head : Z) (body : Z -> M S unit) : M S unit :=
  for_each_from n pos head body.

Definition list_for_each_entry_continue_reverse (n : nat) (pos head : Z) (body : Z -> M S unit) : M S unit :=
  prv ← lift (rd_prev pos) ; for_each_prev_from n prv head body.

Definition list_for_each_entry_safe_continue (n : nat) (pos head : Z) (body : Z -> M S unit) : M S unit :=
  pos' ← lift (rd_next pos) ;
  nx ← lift (rd_next pos') ;
  for_each_safe_from n pos' nx head body.

Definition list_for_each_entry_safe_from (n : nat) (pos head : Z) (body : Z -> M S unit) : M S unit :=
  nx ← lift (rd_next pos) ; for_each_safe_from n pos nx head body.

(** [list_for_each_prev_safe] and [list_for_each_entry_safe_reverse]. *)
Fixpoint for_each_prev_safe_from (n : nat) (pos nx head : Z) (body : Z -> M S unit) : M S unit :=
  match n with
  | O => fail FFuel
  | Datatypes.S n' =>
      if pos =? head then mret tt
      else body pos ;; nx' ← lift (rd_prev nx) ; for_each_prev_safe_from n' nx nx' head body
  end.

Definition list_for_each_entry_safe_reverse (n : nat) (head : Z) (body : Z -> M S unit) : M S unit :=
  pos ← lift (rd_prev head) ;
  nx ← lift (rd_prev pos) ;
  for_each_prev_safe_from n pos nx head body.
End Iterators.

(** *** Entries *)

Definition list_first_entry (ptr : Z) : M lstore Z := rd_next ptr.
Definition list_last_entry (ptr : Z) : M lstore Z := rd_prev ptr.
Definition list_first_entry_or_null (ptr : Z) : M lstore Z :=
  e ← list_empty ptr ; if (negb e : bool) then list_first_entry ptr else mret NULL.
Definition list_next_entry (pos : Z) : M lstore Z := rd_next pos.
Definition list_prev_entry (pos : Z) : M lstore Z := rd_prev pos.
Definition list_prepare_entry (pos head : Z) : Z := if negb (pos =? NULL) then pos else head.
Definition list_safe_reset_next (pos : Z) : M lstore Z := list_next_entry pos.

(** ** The ring a head represents *)

Definition nxt (h : lstore) (p : Z) : option Z := lh_next <$> h !! p.
Definition prv (h : lstore) (p : Z) : option Z := lh_prev <$> h !! p.
Definition has (h : lstore) (p : Z) : Prop := is_Some (h !! p).

Definition link (h : lstore) (a b : Z) : Prop := nxt h a = Some b /\ prv h b = Some a.

(** Consecutive elements of [l] are linked both ways. *)
Fixpoint path (h : lstore) (l : list Z) : Prop :=
  match l with
  | a :: ((b :: _) as r) => link h a b /\ path h r
  | _ => True
  end.

Definition is_list (h : lstore) (hd : Z) (ps : list Z) : Prop :=
  path h (hd :: ps ++ [hd]) /\ NoDup (hd :: ps).

(** Two stores that differ at most at the addresses [X]. *)
Definition same_outside (X : list Z) (h h' : lstore) : Prop :=
  forall p, p ∉ X -> h' !! p = h !! p.

(** First and last node of a ring, the head itself when it is empty. *)
Definition hd_of (ps : list Z) (hd : Z) : Z := match ps with [] => hd | x :: _ => x end.
Definition last_of (ps : list Z) (hd : Z) : Z := default hd (last ps).

(** *** Stores after a field write *)

Definition set_next (h : lstore) (p v : Z) : lstore :=
  alter (fun n => mk_list_head v (lh_prev n)) p h.
Definition set_prev (h : lstore) (p v : Z) : lstore :=
  alter (fun n => mk_list_head (lh_next n) v) p h.

Lemma has_set_next h p v q : has (set_next h p v) q <-> has h q.
Proof. unfold has, set_next. rewrite lookup_alter. case_decide; subst; by rewrite ?fmap_is_Some. Qed.
Lemma has_set_prev h p v q : has (set_prev h p v) q <-> has h q.
Proof. unfold has, set_prev. rewrite lookup_alter. case_decide; subst; by rewrite ?fmap_is_Some. Qed.

Lemma wr_next_ok h p v : has h p -> wr_next p v h = Ret (tt, set_next h p v).
Proof.
  intros [n Hn]. unfold wr_next, set_next. rewrite Hn. do 2 f_equal.
  apply map_eq; intros i. rewrite lookup_insert, lookup_alter.
  case_decide; subst; by rewrite ?Hn.
Qed.
Lemma wr_prev_ok h p v : has h p -> wr_prev p v h = Ret (tt, set_prev h p v).
Proof.
  intros [n Hn]. unfold wr_prev, set_prev. rewrite Hn. do 2 f_equal.
  apply map_eq; intros i. rewrite lookup_insert, lookup_alter.
  case_decide; subst; by rewrite ?Hn.
Qed.
Lemma rd_next_ok h p v : nxt h p = Some v -> rd_next p h = Ret (v, h).
Proof. unfold nxt, rd_next. destruct (h !! p); simpl; congruence. Qed.
Lemma rd_prev_ok h p v : prv h p = Some v -> rd_prev p h = Ret (v, h).
Proof. unfold prv, rd_prev. destruct (h !! p); simpl; congruence. Qed.

Lemma nxt_set_next_eq h p v : has h p -> nxt (set_next h p v) p = Some v.
Proof. intros [n Hn]. unfold nxt, set_next. by rewrite lookup_alter_eq, Hn. Qed.
Lemma nxt_set_next_ne h p v q : q <> p -> nxt (set_next h p v) q = nxt h q.
Proof. intros. unfold nxt, set_next. by rewrite lookup_alter_ne by done. Qed.
Lemma prv_set_next h p v q : prv (set_next h p v) q = prv h q.
Proof.
  unfold prv, set_next. rewrite lookup_alter. case_decide; subst; [|done].
  by destruct (h !! q).
Qed.
Lemma prv_set_prev_eq h p v : has h p -> prv (set_prev h p v) p = Some v.
Proof. intros [n Hn]. unfold prv, set_prev. by rewrite lookup_alter_eq, Hn. Qed.
Lemma prv_set_prev_ne h p v q : q <> p -> prv (set_prev h p v) q = prv h q.
Proof. intros. unfold prv, set_prev. by rewrite lookup_alter_ne by done. Qed.
Lemma nxt_set_prev h p v q : nxt (set_prev h p v) q = nxt h q.
Proof.
  unfold nxt, set_prev. rewrite lookup_alter. case_decide; subst; [|done].
  by destruct (h !! q).
Qed.

Lemma nxt_has h p v : nxt h p = Some v -> has h p.
Proof. unfold nxt, has. destruct (h !! p); simpl; [eauto|done]. Qed.
Lemma prv_has h p v : prv h p = Some v -> has h p.
Proof. unfold prv, has. destruct (h !! p); simpl; [eauto|done]. Qed.

Lemma set_next_outside X h h0 p v :
  p ∈ X -> same_outside X h0 h -> same_outside X h0 (set_next h p v).
Proof.
  intros Hp Hs q Hq. unfold set_next. rewrite lookup_alter_ne by set_solver. by apply Hs.
Qed.
Lemma set_prev_outside X h h0 p v :
  p ∈ X -> same_outside X h0 h -> same_outside X h0 (set_prev h p v).
Proof.
  intros Hp Hs q Hq. unfold set_prev. rewrite lookup_alter_ne by set_solver. by apply Hs.
Qed.
Lemma same_outside_refl X h : same_outside X h h.
Proof. done. Qed.
Lemma same_outside_trans X h1 h2 h3 :
  same_outside X h1 h2 -> same_outside X h2 h3 -> same_outside X h1 h3.
Proof. intros H1 H2 p Hp. by rewrite H2, H1. Qed.
Lemma same_outside_mono X Y h h' :
  (forall p, p ∈ X -> p ∈ Y) -> same_outside X h h' -> same_outside Y h h'.
Proof. intros HXY H p Hp. apply H. set_solver. Qed.

Create Rewrite HintDb lstore.
#[export] Hint Rewrite has_set_next has_set_prev nxt_set_prev prv_set_next : lstore.
#[export] Hint Resolve nxt_has prv_has : lprofile.
#[export] Hint Resolve set_next_outside set_prev_outside same_outside_refl : lprofile.

(** Executes the reads and writes at the head of a monadic goal. *)
Ltac lhas := autorewrite with lstore; eauto with lprofile.
Ltac lnext :=
  repeat first
    [ rewrite nxt_set_next_eq by (by lhas)
    | rewrite nxt_set_next_ne by congruence
    | rewrite nxt_set_prev ].
Ltac lprev :=
  repeat first
    [ rewrite prv_set_prev_eq by (by lhas)
    | rewrite prv_set_prev_ne by congruence
    | rewrite prv_set_next ].
Ltac lstep :=
  match goal with
  | |- context [(wr_next ?p ?v ≫= _) ?h] =>
      rewrite (bind_ret _ _ _ _ _ (wr_next_ok h p v ltac:(by lhas)))
  | |- context [(wr_prev ?p ?v ≫= _) ?h] =>
      rewrite (bind_ret _ _ _ _ _ (wr_prev_ok h p v ltac:(by lhas)))
  | |- context [(rd_next ?p ≫= _) ?h] =>
      erewrite (bind_ret (rd_next p)) by (apply rd_next_ok; lnext; by eauto)
  | |- context [(rd_prev ?p ≫= _) ?h] =>
      erewrite (bind_ret (rd_prev p)) by (apply rd_prev_ok; lprev; by eauto)
  | |- context [wr_next ?p ?v ?h] => rewrite (wr_next_ok h p v) by (by lhas)
  | |- context [wr_prev ?p ?v ?h] => rewrite (wr_prev_ok h p v) by (by lhas)
  end.

(** *** Paths *)

Lemma path_app h l1 a l2 : path h (l1 ++ a :: l2) <-> path h (l1 ++ [a]) /\ path h (a :: l2).
Proof.
  induction l1 as [|x l1 IH]; simpl; [tauto|].
  destruct l1 as [|y l1]; simpl in *; [tauto|]. rewrite IH. tauto.
Qed.

Lemma path_link h l1 a b l2 : path h (l1 ++ a :: b :: l2) -> link h a b.
Proof. rewrite path_app. simpl. tauto. Qed.

(** A path survives a change of the store that keeps the forward pointers of
    all but its last node and the backward pointers of all but its first. *)
Lemma path_frame h h' l :
  (forall x, x ∈ removelast l -> nxt h' x = nxt h x) ->
  (forall x, x ∈ tail l -> prv h' x = prv h x) ->
  path h l -> path h' l.
Proof.
  induction l as [|a l IH]; [done|]. destruct l as [|b l]; [done|].
  intros Hn Hp [[L1 L2] Hr]. split.
  - split; [rewrite Hn|rewrite Hp]; auto; simpl; apply list_elem_of_here.
  - apply IH; auto.
    + intros x Hx. apply Hn. simpl. by apply list_elem_of_further.
    + intros x Hx. apply Hp. simpl. apply list_elem_of_further, Hx.
Qed.

Lemma path_has h l x : (2 <= length l)%nat -> path h l -> x ∈ l -> has h x.
Proof.
  induction l as [|a l IH]; simpl; [lia|]. destruct l as [|b l]; [simpl; lia|].
  intros _ [[L1 L2] Hr] [->|Hx]%elem_of_cons; [eauto with lprofile|].
  destruct l as [|c l]; [|apply IH; [simpl; lia|done|done]].
  apply list_elem_of_singleton in Hx as ->. eauto with lprofile.
Qed.

Lemma elem_removelast {A} (x : A) l : x ∈ removelast l -> x ∈ l.
Proof.
  induction l as [|a l IH]; [done|]. destruct l as [|b l]; [simpl; set_solver|].
  change (removelast (a :: b :: l)) with (a :: removelast (b :: l)). set_solver.
Qed.
Lemma elem_tail {A} (x : A) l : x ∈ tail l -> x ∈ l.
Proof. destruct l; simpl; set_solver. Qed.
Lemma removelast_snoc {A} (l : list A) a : removelast (l ++ [a]) = l.
Proof. rewrite List.removelast_app by done. simpl. by rewrite app_nil_r. Qed.

(** *** Rings: closed paths whose only repetition is the head at both ends *)

Definition ring (h : lstore) (l : list Z) : Prop :=
  path h l /\ NoDup (removelast l) /\ NoDup (tail l).

Lemma is_list_ring h hd ps : is_list h hd ps <-> ring h (hd :: ps ++ [hd]).
Proof.
  unfold is_list, ring. rewrite app_comm_cons, removelast_snoc. simpl.
  split; [intros [? Hd]; split_and!; auto|tauto].
  rewrite Permutation_app_comm. done.
Qed.

Lemma NoDup_mid {A} (l1 l2 : list A) x : NoDup (l1 ++ x :: l2) -> x ∉ l1 /\ x ∉ l2.
Proof. rewrite NoDup_app, NoDup_cons. set_solver. Qed.

(** The facts about a consecutive pair [p], [n] of a ring that locality of the
    pointer updates rests on. *)
Lemma ring_pair h r p n t :
  ring h (r ++ p :: n :: t) ->
  link h p n /\ path h (r ++ [p]) /\ path h (n :: t) /\
  (p ∉ r /\ p ∉ removelast (n :: t)) /\ (n ∉ tail (r ++ [p]) /\ n ∉ t).
Proof.
  intros (Hp & Hr & Ht). pose proof (path_link _ _ _ _ _ Hp).
  rewrite path_app in Hp. destruct Hp as [Hp1 [_ Hp2]].
  rewrite List.removelast_app in Hr by done.
  change (removelast (p :: n :: t)) with (p :: removelast (n :: t)) in Hr.
  apply NoDup_mid in Hr.
  assert (tail (r ++ p :: n :: t) = tail (r ++ [p]) ++ n :: t) as E
    by (destruct r; simpl; by rewrite <- ?app_assoc).
  rewrite E in Ht. apply NoDup_mid in Ht. done.
Qed.

Lemma ring_insert h r p n t new :
  ring h (r ++ p :: n :: t) -> new ∉ r ++ p :: n :: t -> has h new ->
  exists h', __list_add new p n h = Ret (tt, h') /\
    path h' (r ++ p :: new :: n :: t) /\ same_outside [new; p; n] h h'.
Proof.
  intros HR Hnew Hhas.
  destruct (ring_pair _ _ _ _ _ HR) as ([L1 L2] & P1 & P2 & [Q1 Q2] & [Q3 Q4]).
  assert (new <> p /\ new <> n /\ new ∉ r /\ new ∉ t) as (N1 & N2 & N3 & N4) by set_solver.
  eexists; split; [unfold __list_add; repeat lstep; done|]. split.
  - rewrite path_app. split; [|split; [|split]]; try split.
    + eapply path_frame; [| |exact P1]; intros x Hx.
      * rewrite removelast_snoc in Hx. assert (x <> p /\ x <> new) as [? ?] by set_solver. by lnext.
      * assert (x <> n) by set_solver. assert (x <> new) by (apply elem_tail in Hx; set_solver).
        by lprev.
    + by lnext.
    + by lprev.
    + by lnext.
    + by lprev.
    + eapply path_frame; [| |exact P2]; intros x Hx.
      * assert (x <> p) by set_solver. assert (x <> new) by (apply elem_removelast in Hx; set_solver).
        by lnext.
      * simpl in Hx. assert (x <> n /\ x <> new) as [? ?] by set_solver. by lprev.
  - eauto 10 using list_elem_of_here, list_elem_of_further with lprofile.
Qed.

Lemma ring_delete h r p e n t :
  ring h (r ++ p :: e :: n :: t) ->
  exists h', __list_del p n h = Ret (tt, h') /\
    path h' (r ++ p :: n :: t) /\ same_outside [p; n] h h' /\ (e <> p -> nxt h' e = Some n) /\ (e <> n -> prv h' e = Some p).
Proof.
  intros HR.
  destruct (ring_pair _ _ _ _ _ HR) as ([L1 L2] & P1 & P2 & [Q1 Q2] & [Q3 Q4]).
  replace (r ++ p :: e :: n :: t) with ((r ++ [p]) ++ e :: n :: t) in HR by (by rewrite <- app_assoc).
  destruct (ring_pair _ _ _ _ _ HR) as ([M1 M2] & _ & P3 & [_ Q5] & [Q6 Q7]).
  eexists; split; [unfold __list_del; repeat lstep; done|]. split_and!.
  - rewrite path_app. split; [|split]; [|split|].
    + eapply path_frame; [| |exact P1]; intros x Hx.
      * rewrite removelast_snoc in Hx. assert (x <> p) by set_solver. by lnext.
      * assert (x <> n); [|by lprev]. intros ->. apply Q6.
        destruct r; simpl in *; [set_solver|]. set_solver.
    + by lnext.
    + by lprev.
    + eapply path_frame; [| |exact P3]; intros x Hx.
      * assert (x <> p); [|by lnext]. intros ->. apply Q2.
        change (removelast (e :: n :: t)) with (e :: removelast (n :: t)). set_solver.
      * simpl in Hx. assert (x <> n) by set_solver. by lprev.
  - eauto 10 using list_elem_of_here, list_elem_of_further with lprofile.
  - intros. by lnext.
  - intros. by lprev.
Qed.

(** *** The operations on rings *)

Lemma is_list_first h hd ps :
  is_list h hd ps -> nxt h hd = Some (hd_of ps hd) /\ prv h (hd_of ps hd) = Some hd.
Proof. intros [Hp _]. destruct ps as [|x ps]; simpl in *; apply Hp. Qed.

Lemma is_list_last h hd ps :
  is_list h hd ps ->
  exists r p, hd :: ps = r ++ [p] /\ link h p hd /\ p = last_of ps hd.
Proof.
  intros [Hp _]. destruct ps as [|x ps] using rev_ind.
  - exists [], hd. simpl in *. unfold last_of. simpl. tauto.
  - exists (hd :: ps), x. split_and!; [done| |unfold last_of; by rewrite last_snoc].
    rewrite <- app_assoc in Hp. change (hd :: ps ++ [x] ++ [hd]) with ((hd :: ps) ++ x :: hd :: []) in Hp.
    by apply path_link in Hp.
Qed.

Lemma is_list_has h hd ps x : is_list h hd ps -> x ∈ hd :: ps -> has h x.
Proof.
  intros [Hp _] Hx. eapply path_has; [|exact Hp|]; [simpl; rewrite length_app; simpl; lia|set_solver].
Qed.

Lemma is_list_frame h h' X hd ps :
  same_outside X h h' -> (forall x, x ∈ hd :: ps -> x ∉ X) -> is_list h hd ps -> is_list h' hd ps.
Proof.
  intros Hs Hd [Hp Hn]. split; [|done]. eapply path_frame; [| |exact Hp]; intros x Hx.
  - unfold nxt. rewrite Hs; [done|]. apply elem_removelast in Hx. set_solver.
  - unfold prv. rewrite Hs; [done|]. apply elem_tail in Hx. set_solver.
Qed.

Lemma INIT_LIST_HEAD_spec h l :
  has h l -> exists h', INIT_LIST_HEAD l h = Ret (tt, h') /\ is_list h' l [] /\ same_outside [l] h h'.
Proof.
  intros Hl. eexists; split; [unfold INIT_LIST_HEAD; repeat lstep; done|]. split.
  - split; [|apply NoDup_singleton]. simpl. repeat split; by lnext; lprev.
  - eauto 10 using list_elem_of_here with lprofile.
Qed.

Lemma list_add_spec h hd ps new :
  is_list h hd ps -> new ∉ hd :: ps -> has h new ->
  exists h', list_add new hd h = Ret (tt, h') /\ is_list h' hd (new :: ps) /\
    same_outside (new :: hd :: ps) h h'.
Proof.
  intros HL Hnew Hhas. destruct (is_list_first _ _ _ HL) as [F1 F2].
  pose proof (proj1 (is_list_ring _ _ _) HL) as HR. destruct HL as [_ Hnd].
  set (n := hd_of ps hd) in *.
  assert (exists t, ps ++ [hd] = n :: t) as [t Ht] by (destruct ps; simpl; eauto).
  rewrite Ht in HR. destruct (ring_insert h [] hd n t new) as (h' & E & P & O); [done| |done|].
  { simpl. rewrite <- Ht. set_solver. }
  exists h'. split_and!.
  - unfold list_add. by lstep.
  - split; [simpl; by rewrite Ht|]. apply NoDup_cons; split; [|apply NoDup_cons; split].
    all: apply NoDup_cons in Hnd as [? ?]; set_solver.
  - eapply same_outside_mono; [|exact O]. intros x. subst n. destruct ps; simpl; set_solver.
Qed.

Lemma list_add_tail_spec h hd ps new :
  is_list h hd ps -> new ∉ hd :: ps -> has h new ->
  exists h', list_add_tail new hd h = Ret (tt, h') /\ is_list h' hd (ps ++ [new]) /\
    same_outside (new :: hd :: ps) h h'.
Proof.
  intros HL Hnew Hhas. destruct (is_list_last _ _ _ HL) as (r & p & E & L & _).
  pose proof (proj1 (is_list_ring _ _ _) HL) as HR. destruct HL as [_ Hnd].
  assert (forall t, hd :: ps ++ t = r ++ p :: t) as E' by (intros t; rewrite app_comm_cons, E, <- app_assoc; done).
  rewrite E' in HR. destruct (ring_insert h r p hd [] new) as (h' & Ex & P & O); [done| |done|].
  { rewrite <- E'. set_solver. }
  exists h'. destruct L. split_and!.
  - unfold list_add_tail. by lstep.
  - split; [rewrite <- app_assoc, E'; exact P|].
    rewrite app_comm_cons. apply NoDup_app. split_and!; [done|set_solver|apply NoDup_singleton].
  - eapply same_outside_mono; [|exact O]. intros x Hx. assert (p ∈ hd :: ps) by (rewrite E; set_solver).
    set_solver.
Qed.

(** Unlinking an entry [e] of a ring; [e] keeps its own two pointers. *)
Lemma list_del_entry_spec h hd l1 e l2 :
  is_list h hd (l1 ++ e :: l2) ->
  exists h', __list_del_entry e h = Ret (tt, h') /\ is_list h' hd (l1 ++ l2) /\
    same_outside (hd :: l1 ++ l2) h h' /\ has h' e.
Proof.
  intros HL. pose proof HL as [_ Hnd]. pose proof (is_list_has _ _ _ e HL ltac:(set_solver)) as He.
  apply is_list_ring in HL as HR.
  destruct (exists_last (l := hd :: l1)) as (r & p & E); [done|].
  assert (exists n t, l2 ++ [hd] = n :: t) as (n & t & Ht) by (destruct l2; simpl; eauto).
  replace (hd :: (l1 ++ e :: l2) ++ [hd]) with (r ++ p :: e :: n :: t) in HR.
  2:{ rewrite <- app_assoc. simpl. rewrite Ht. rewrite app_comm_cons, E, <- app_assoc. done. }
  assert (link h p e /\ link h e n) as [[_ L1] [L2 _]].
  { destruct HR as [HP _]. split; [by apply path_link in HP|].
    replace (r ++ p :: e :: n :: t) with ((r ++ [p]) ++ e :: n :: t) in HP by (by rewrite <- app_assoc).
    by apply path_link in HP. }
  destruct (ring_delete _ _ _ _ _ _ HR) as (h' & Ex & P & O & _).
  exists h'. split_and!.
  - unfold __list_del_entry. do 2 lstep. done.
  - split.
    + rewrite <- app_assoc, Ht, app_comm_cons, E, <- app_assoc. exact P.
    + rewrite app_comm_cons in Hnd |- *. apply NoDup_app in Hnd as (? & ? & [? ?]%NoDup_cons).
      apply NoDup_app. set_solver.
  - eapply same_outside_mono; [|exact O]. intros x Hx.
    assert (p ∈ hd :: l1) by (rewrite E; set_solver).
    assert (n ∈ l2 ++ [hd]) by (rewrite Ht; set_solver). set_solver.
  - unfold has. rewrite O; [done|]. intros Hin.
    assert (p ∈ hd :: l1) by (rewrite E; set_solver).
    assert (n ∈ l2 ++ [hd]) by (rewrite Ht; set_solver).
    rewrite app_comm_cons in Hnd. apply NoDup_mid in Hnd. set_solver.
Qed.

Lemma list_del_init_spec h hd l1 e l2 :
  is_list h hd (l1 ++ e :: l2) ->
  exists h', list_del_init e h = Ret (tt, h') /\ is_list h' hd (l1 ++ l2) /\ is_list h' e [] /\
    same_outside (hd :: l1 ++ e :: l2) h h'.
Proof.
  intros HL. pose proof HL as [_ Hnd]. rewrite app_comm_cons in Hnd. apply NoDup_mid in Hnd.
  destruct (list_del_entry_spec _ _ _ _ _ HL) as (h1 & E1 & HL1 & O1 & He).
  destruct (INIT_LIST_HEAD_spec _ _ He) as (h2 & E2 & HL2 & O2).
  exists h2. split_and!; [unfold list_del_init; by rewrite (bind_ret _ _ _ _ _ E1)| |done|].
  - eapply is_list_frame; [exact O2| |exact HL1]. set_solver.
  - eapply same_outside_trans; eapply same_outside_mono; [|exact O1| |exact O2]; set_solver.
Qed.

Lemma list_move_tail_spec h hd l1 e l2 :
  is_list h hd (l1 ++ e :: l2) ->
  exists h', list_move_tail e hd h = Ret (tt, h') /\ is_list h' hd (l1 ++ l2 ++ [e]) /\
    same_outside (hd :: l1 ++ e :: l2) h h'.
Proof.
  intros HL. pose proof HL as [_ Hnd]. rewrite app_comm_cons in Hnd. apply NoDup_mid in Hnd.
  destruct (list_del_entry_spec _ _ _ _ _ HL) as (h1 & E1 & HL1 & O1 & He).
  destruct (list_add_tail_spec h1 hd (l1 ++ l2) e) as (h2 & E2 & HL2 & O2); [done|set_solver|done|].
  exists h2. split_and!; [unfold list_move_tail; by rewrite (bind_ret _ _ _ _ _ E1)| |].
  - by rewrite app_assoc.
  - eapply same_outside_trans; eapply same_outside_mono; [|exact O1| |exact O2]; set_solver.
Qed.

Lemma list_move_spec h hd l1 e l2 :
  is_list h hd (l1 ++ e :: l2) ->
  exists h', list_move e hd h = Ret (tt, h') /\ is_list h' hd (e :: l1 ++ l2) /\
    same_outside (hd :: l1 ++ e :: l2) h h'.
Proof.
  intros HL. pose proof HL as [_ Hnd]. rewrite app_comm_cons in Hnd. apply NoDup_mid in Hnd.
  destruct (list_del_entry_spec _ _ _ _ _ HL) as (h1 & E1 & HL1 & O1 & He).
  destruct (list_add_spec h1 hd (l1 ++ l2) e) as (h2 & E2 & HL2 & O2); [done|set_solver|done|].
  exists h2. split_and!; [unfold list_move; by rewrite (bind_ret _ _ _ _ _ E1)|done|].
  eapply same_outside_trans; eapply same_outside_mono; [|exact O1| |exact O2]; set_solver.
Qed.

Lemma list_empty_spec h hd ps : is_list h hd ps -> list_empty hd h = Ret (bool_decide (ps = []), h).
Proof.
  intros HL. destruct (is_list_first _ _ _ HL) as [F _]. unfold list_empty. lstep.
  unfold mret, M_ret. do 2 f_equal. destruct HL as [_ [Hx _]%NoDup_cons].
  destruct ps as [|x ps]; simpl; [by rewrite Z.eqb_refl|].
  apply Z.eqb_neq. set_solver.
Qed.

Lemma list_rotate_left_spec h hd ps :
  is_list h hd ps ->
  exists h', list_rotate_left hd h = Ret (tt, h') /\
    is_list h' hd (match ps with [] => [] | x :: r => r ++ [x] end) /\
    same_outside (hd :: ps) h h'.
Proof.
  intros HL. unfold list_rotate_left. rewrite (bind_ret _ _ _ _ _ (list_empty_spec _ _ _ HL)).
  destruct ps as [|x ps]; simpl; [exists h; by split_and!|].
  destruct (is_list_first _ _ _ HL) as [F _]. lstep.
  destruct (list_move_tail_spec h hd [] x ps HL) as (h' & E & HL' & O). eauto.
Qed.

Lemma last_of_elem ps hd : ps <> [] -> last_of ps hd ∈ ps.
Proof.
  intros Hne. destruct (exists_last Hne) as (r & p & ->). unfold last_of. rewrite last_snoc. set_solver.
Qed.

Lemma list_is_singular_spec h hd ps :
  is_list h hd ps -> list_is_singular hd h = Ret (bool_decide (length ps = 1%nat), h).
Proof.
  intros HL. unfold list_is_singular. rewrite (bind_ret _ _ _ _ _ (list_empty_spec _ _ _ HL)).
  destruct (is_list_first _ _ _ HL) as [F _].
  destruct (is_list_last _ _ _ HL) as (r & p & E & [_ L] & Ep).
  destruct ps as [|x ps]; [done|]. simpl. do 2 lstep. unfold mret, M_ret. do 2 f_equal.
  simpl. destruct ps as [|y ps]; [subst p; by rewrite Z.eqb_refl|].
  apply Z.eqb_neq. destruct HL as [_ Hn]. subst p.
  assert (last_of (x :: y :: ps) hd = last_of (y :: ps) hd) as -> by done.
  pose proof (last_of_elem (y :: ps) hd ltac:(done)).
  apply NoDup_cons in Hn as [_ [Hn _]%NoDup_cons]. congruence.
Qed.

Lemma NoDup_swap {A} (l1 l2 : list A) x y :
  NoDup (l1 ++ x :: l2) -> y ∉ l1 ++ x :: l2 -> NoDup (l1 ++ y :: l2).
Proof.
  intros (H1 & H2 & [H3 H4]%NoDup_cons)%NoDup_app Hy. apply NoDup_app. split_and!; [done| |].
  - intros z Hz. rewrite elem_of_cons. intros [->|Hz']; [|apply (H2 z Hz)]; set_solver.
  - apply NoDup_cons. set_solver.
Qed.

(** Replacing an entry by a node outside of the ring. *)
Lemma list_replace_spec h hd l1 old l2 new :
  is_list h hd (l1 ++ old :: l2) -> new ∉ hd :: l1 ++ old :: l2 -> has h new ->
  exists h', list_replace old new h = Ret (tt, h') /\ is_list h' hd (l1 ++ new :: l2) /\
    same_outside (new :: hd :: l1 ++ l2) h h'.
Proof.
  intros HL Hnew Hhas. pose proof HL as [_ Hnd]. apply is_list_ring in HL as HR.
  destruct (exists_last (l := hd :: l1)) as (r & p & E); [done|].
  assert (exists n t, l2 ++ [hd] = n :: t) as (n & t & Ht) by (destruct l2; simpl; eauto).
  assert (forall x, hd :: (l1 ++ x :: l2) ++ [hd] = r ++ p :: x :: n :: t) as Eq.
  { intros x. rewrite <- app_assoc. simpl. rewrite Ht. rewrite app_comm_cons, E, <- app_assoc. done. }
  rewrite Eq in HR. assert (p ∈ hd :: l1) as Hpin by (rewrite E; set_solver).
  assert (n ∈ l2 ++ [hd]) as Hnin by (rewrite Ht; set_solver).
  assert (new ∉ r ++ p :: old :: n :: t) as Hnew' by (rewrite <- Eq; set_solver).
  destruct (ring_pair _ _ _ _ _ HR) as ([L1 L2] & P1 & P2 & [Q1 Q2] & [Q3 Q4]).
  replace (r ++ p :: old :: n :: t) with ((r ++ [p]) ++ old :: n :: t) in HR by (by rewrite <- app_assoc).
  destruct (ring_pair _ _ _ _ _ HR) as ([M1 M2] & _ & P3 & [Q5 Q6] & [Q7 Q8]).
  assert (new <> p /\ new <> n /\ new <> old /\ new ∉ r /\ new ∉ t) as (N1 & N2 & N3 & N4 & N5) by set_solver.
  assert (old <> n /\ old <> p) as [O1 O2].
  { rewrite app_comm_cons in Hnd. apply NoDup_mid in Hnd. set_solver. }
  eexists; split; [unfold list_replace; repeat lstep; done|]. split.
  - split.
    + rewrite Eq, path_app. split; [|split; [split|split; [split|]]].
      * eapply path_frame; [| |exact P1]; intros x Hx.
        -- rewrite removelast_snoc in Hx. assert (x <> p /\ x <> new) as [? ?] by set_solver. by lnext.
        -- assert (x <> n); [intros ->; apply Q7; destruct r; simpl in *; set_solver|].
           assert (x <> new) by (apply elem_tail in Hx; set_solver). by lprev.
      * by lnext.
      * by lprev.
      * by lnext.
      * by lprev.
      * eapply path_frame; [| |exact P3]; intros x Hx.
        -- assert (x <> p).
           { intros ->. apply Q2. change (removelast (old :: n :: t)) with (old :: removelast (n :: t)). set_solver. }
           assert (x <> new) by (apply elem_removelast in Hx; set_solver). by lnext.
        -- simpl in Hx. assert (x <> n /\ x <> new) as [? ?] by set_solver. by lprev.
    + rewrite app_comm_cons in Hnd, Hnew |- *. by eapply NoDup_swap.
  - assert (p ∈ new :: hd :: l1 ++ l2 /\ n ∈ new :: hd :: l1 ++ l2) as [? ?] by set_solver.
    eauto 10 using list_elem_of_here with lprofile.
Qed.

(** Splicing the nodes [xs] of a ring headed by [l] between two neighbours. *)
Lemma ring_splice h l xs r p n t :
  is_list h l xs -> xs <> [] -> ring h (r ++ p :: n :: t) ->
  (forall x, x ∈ l :: xs -> x ∉ r ++ p :: n :: t) ->
  exists h', __list_splice l p n h = Ret (tt, h') /\ path h' (r ++ p :: xs ++ n :: t) /\
    same_outside (p :: n :: xs) h h' /\ has h' l.
Proof.
  intros HL Hne HR Hdis.
  pose proof (is_list_has _ _ _ l HL (list_elem_of_here _ _)) as Hl.
  destruct (is_list_first _ _ _ HL) as [F1 F2].
  destruct (is_list_last _ _ _ HL) as (_ & z & _ & [Z1 Z2] & Ez).
  destruct (exists_last Hne) as (ys & z' & Exs).
  assert (z' = z) as -> by (subst z; rewrite Exs; unfold last_of; by rewrite last_snoc).
  destruct HL as [HP Hnd].
  assert (path h xs) as Pxs.
  { replace (l :: xs ++ [l]) with ((l :: ys) ++ z :: [l]) in HP by (by rewrite Exs, <- app_assoc).
    rewrite path_app in HP. destruct HP as [HP _]. rewrite Exs. destruct ys; simpl in *; tauto. }
  assert (exists f xs', xs = f :: xs') as (f & xs' & Ef) by (destruct xs; [done|eauto]).
  assert (f ∈ xs /\ z ∈ xs) as [Hf Hz] by (split; [rewrite Ef|rewrite Exs]; set_solver).
  replace (hd_of xs l) with f in * by (by rewrite Ef).
  destruct (ring_pair _ _ _ _ _ HR) as ([L1 L2] & P1 & P2 & [Q1 Q2] & [Q3 Q4]).
  assert (f ∉ xs') by (rewrite Ef in Hnd; by apply NoDup_cons in Hnd as [_ [? _]%NoDup_cons]).
  assert (z ∉ ys) by (rewrite Exs in Hnd; apply NoDup_cons in Hnd as [_ Hnd]; apply NoDup_mid in Hnd; tauto).
  assert (forall x, x ∈ xs -> x <> p /\ x <> n /\ x ∉ r /\ x ∉ t) as Hsep.
  { intros x Hx. specialize (Hdis x). clear -Hdis Hx. set_solver. }
  destruct (Hsep z Hz) as (Zp & Zn & Zr & Zt). destruct (Hsep f Hf) as (Fp & Fn & Fr & Ft).
  eexists; split; [unfold __list_splice; repeat lstep; done|]. split_and!.
  - rewrite path_app. split.
    + eapply path_frame; [| |exact P1]; intros x Hx.
      * rewrite removelast_snoc in Hx. assert (x <> p /\ x <> z) as [? ?] by (split; congruence). by lnext.
      * assert (x <> n) by congruence. apply elem_tail, elem_of_app in Hx.
        assert (x <> f) by (destruct Hx as [Hx|Hx%list_elem_of_singleton]; congruence). by lprev.
    + rewrite Ef. change (p :: (f :: xs') ++ n :: t) with (p :: f :: (xs' ++ n :: t)).
      split; [split; [by lnext|by lprev]|].
      rewrite app_comm_cons, <- Ef, Exs, <- app_assoc. simpl. rewrite path_app.
      split; [|split; [split; [by lnext|by lprev]|]].
      * rewrite <- Exs. eapply path_frame; [| |exact Pxs]; intros x Hx.
        -- destruct (Hsep x) as (? & ? & _); [by apply elem_removelast|].
           rewrite Exs, removelast_snoc in Hx. assert (x <> z) by congruence. by lnext.
        -- destruct (Hsep x) as (? & ? & _); [by apply elem_tail|].
           rewrite Ef in Hx. simpl in Hx. assert (x <> f) by congruence. by lprev.
      * eapply path_frame; [| |exact P2]; intros x Hx.
        -- assert (x <> p) by congruence. apply elem_removelast, elem_of_cons in Hx.
           assert (x <> z) by (destruct Hx; congruence). by lnext.
        -- simpl in Hx. assert (x <> n /\ x <> f) as [? ?] by (split; congruence). by lprev.
  - assert (f ∈ p :: n :: xs /\ z ∈ p :: n :: xs) as [? ?] by (clear -Hf Hz; set_solver).
    eauto 10 using list_elem_of_here, list_elem_of_further with lprofile.
  - lhas.
Qed.

Lemma is_list_app_NoDup h hd ps l xs :
  is_list h hd ps -> is_list h l xs -> (forall x, x ∈ l :: xs -> x ∉ hd :: ps) ->
  NoDup (hd :: xs ++ ps) /\ NoDup (hd :: ps ++ xs).
Proof.
  intros [_ [H1 H2]%NoDup_cons] [_ [H3 H4]%NoDup_cons] Hd.
  rewrite !NoDup_cons, !NoDup_app. set_solver.
Qed.

Lemma list_splice_init_spec h hd ps l xs :
  is_list h hd ps -> is_list h l xs -> (forall x, x ∈ l :: xs -> x ∉ hd :: ps) ->
  exists h', list_splice_init l hd h = Ret (tt, h') /\
    is_list h' hd (xs ++ ps) /\ is_list h' l [] /\ same_outside (l :: xs ++ hd :: ps) h h'.
Proof.
  intros HL HX Hd. unfold list_splice_init. rewrite (bind_ret _ _ _ _ _ (list_empty_spec _ _ _ HX)).
  destruct (decide (xs = [])) as [->|Hne]; [rewrite bool_decide_true by done; exists h; by split_and!|].
  rewrite bool_decide_false by done. simpl (negb _). cbv beta iota.
  destruct (is_list_first _ _ _ HL) as [F _]. lstep.
  destruct (is_list_app_NoDup _ _ _ _ _ HL HX Hd) as [Hnd _].
  apply is_list_ring in HL as HR.
  assert (exists t, ps ++ [hd] = hd_of ps hd :: t) as [t Ht] by (destruct ps; simpl; eauto).
  rewrite Ht in HR.
  destruct (ring_splice h l xs [] hd (hd_of ps hd) t) as (h1 & E1 & P1 & O1 & Hl); [done|done|done| |].
  { simpl. rewrite <- Ht. set_solver. }
  rewrite (bind_ret _ _ _ _ _ E1).
  destruct (INIT_LIST_HEAD_spec _ _ Hl) as (h2 & E2 & HL2 & O2). exists h2.
  assert (hd_of ps hd ∈ hd :: ps) by (destruct ps; simpl; set_solver).
  split_and!; [done| |done|].
  - apply (is_list_frame h1 h2 [l]); [done| |].
    + intros x Hx. apply is_list_ring in HX as [_ [HX _]]. rewrite app_comm_cons, removelast_snoc in HX.
      apply NoDup_cons in HX as [? ?]. set_solver.
    + split; [|done]. simpl. rewrite <- app_assoc, Ht. exact P1.
  - eapply same_outside_trans; eapply same_outside_mono; [|exact O1| |exact O2]; set_solver.
Qed.

Lemma list_splice_tail_init_spec h hd ps l xs :
  is_list h hd ps -> is_list h l xs -> (forall x, x ∈ l :: xs -> x ∉ hd :: ps) ->
  exists h', list_splice_tail_init l hd h = Ret (tt, h') /\
    is_list h' hd (ps ++ xs) /\ is_list h' l [] /\ same_outside (l :: xs ++ hd :: ps) h h'.
Proof.
  intros HL HX Hd. unfold list_splice_tail_init. rewrite (bind_ret _ _ _ _ _ (list_empty_spec _ _ _ HX)).
  destruct (decide (xs = [])) as [->|Hne].
  { rewrite bool_decide_true by done. exists h. rewrite app_nil_r. by split_and!. }
  rewrite bool_decide_false by done. simpl (negb _). cbv beta iota.
  destruct (is_list_last _ _ _ HL) as (r & p & E & [L1 L2] & _). lstep.
  destruct (is_list_app_NoDup _ _ _ _ _ HL HX Hd) as [_ Hnd].
  assert (forall t, hd :: ps ++ t = r ++ p :: t) as E' by (intros t; rewrite app_comm_cons, E, <- app_assoc; done).
  apply is_list_ring in HL as HR. rewrite E' in HR.
  destruct (ring_splice h l xs r p hd []) as (h1 & E1 & P1 & O1 & Hl); [done|done|done| |].
  { rewrite <- E'. set_solver. }
  rewrite (bind_ret _ _ _ _ _ E1).
  destruct (INIT_LIST_HEAD_spec _ _ Hl) as (h2 & E2 & HL2 & O2). exists h2.
  assert (p ∈ hd :: ps) by (rewrite E; set_solver).
  split_and!; [done| |done|].
  - apply (is_list_frame h1 h2 [l]); [done| |].
    + intros x Hx. destruct HX as [_ [? ?]%NoDup_cons]. set_solver.
    + split; [|done]. rewrite <- app_assoc, E'. exact P1.
  - eapply same_outside_trans; eapply same_outside_mono; [|exact O1| |exact O2]; set_solver.
Qed.

(** The separation facts behind cutting the ring [hd :: l1 ++ e :: l2] after
    [e]; [f :: t1] is the part cut off, [n :: t] the rest with the head. *)
Lemma cut_facts (hd e l f n : Z) l1 l2 t t1 :
  NoDup (hd :: l1 ++ e :: l2) -> l ∉ hd :: l1 ++ e :: l2 ->
  l1 ++ [e] = f :: t1 -> l2 ++ [hd] = n :: t ->
  NoDup (l :: l1 ++ [e]) /\ NoDup (hd :: l2) /\
  (forall x, x ∈ f :: t1 -> x <> hd /\ x <> n /\ x <> l) /\
  (forall x, x ∈ l2 -> x <> hd /\ x <> e /\ x <> l /\ x <> f) /\
  e ∉ l1 /\ f ∉ t1 /\ n ∉ t /\ n <> l /\ hd <> l /\ e <> hd.
Proof.
  intros Hnd Hl Hf Hn. apply NoDup_cons in Hnd as [H1 Hnd].
  rewrite cons_middle, app_assoc in Hnd. apply NoDup_app in Hnd as (D1 & D2 & D3).
  assert (e ∉ l1) by (apply NoDup_mid in D1; tauto).
  rewrite Hf in D1, D2. apply NoDup_cons in D1 as [D1 D4].
  assert (NoDup (n :: t)) as [D5 D6]%NoDup_cons.
  { rewrite <- Hn. apply NoDup_app. split_and!; [done|set_solver|apply NoDup_singleton]. }
  assert (forall x, x ∈ f :: t1 <-> x ∈ l1 ++ [e]) as Ex by (by rewrite Hf).
  assert (n ∈ l2 ++ [hd]) as Hn' by (rewrite Hn; apply list_elem_of_here).
  split_and!; try done.
  - rewrite NoDup_cons, Hf, NoDup_cons. rewrite Ex. set_solver -D2 D5 D6 Hn'.
  - apply NoDup_cons. set_solver.
  - intros x Hx. split_and!; intros ->.
    + apply H1. apply Ex in Hx. set_solver -D2 Hn'.
    + apply elem_of_app in Hn' as [Hn'|Hn']; [by eapply D2|].
      apply list_elem_of_singleton in Hn' as ->. apply H1. apply Ex in Hx. set_solver -D2.
    + apply Hl. apply Ex in Hx. set_solver -D2 Hn'.
  - intros x Hx. split_and!; intros ->; [set_solver -D2 Hn'| |set_solver -D2 Hn'|].
    + apply (D2 e); [apply Ex; set_solver|done].
    + apply (D2 f); [apply list_elem_of_here|done].
  - intros ->. apply Hl. clear -Hn'. set_solver.
  - intros ->. apply Hl. apply list_elem_of_here.
  - intros ->. apply H1. clear. set_solver.
Qed.

(** Cutting a ring after [e]: the prefix moves to the ring headed by [l]. *)
Lemma cut_ring h hd l1 e l2 l :
  is_list h hd (l1 ++ e :: l2) -> l ∉ hd :: l1 ++ e :: l2 -> has h l ->
  exists h', __list_cut_position l hd e h = Ret (tt, h') /\
    is_list h' l (l1 ++ [e]) /\ is_list h' hd l2 /\
    same_outside (l :: hd :: l1 ++ e :: l2) h h'.
Proof.
  intros HL Hl Hhas. destruct (is_list_first _ _ _ HL) as [F1 F2].
  apply is_list_ring in HL as HR. destruct HL as [_ Hnd].
  assert (exists t, l2 ++ [hd] = hd_of l2 hd :: t) as [t Ht] by (destruct l2; simpl; eauto).
  assert (exists t1, l1 ++ [e] = hd_of (l1 ++ e :: l2) hd :: t1) as [t1 Ht1] by (destruct l1; simpl; eauto).
  set (f := hd_of (l1 ++ e :: l2) hd) in *. set (n := hd_of l2 hd) in *.
  replace (hd :: (l1 ++ e :: l2) ++ [hd]) with ((hd :: l1) ++ e :: n :: t) in HR
    by (rewrite <- app_assoc; simpl; by rewrite Ht).
  destruct (ring_pair _ _ _ _ _ HR) as ([L1 L2] & P1 & P2 & _). simpl in P1. rewrite Ht1 in P1.
  assert (path h (f :: t1)) as P1' by (destruct P1; done). clear P1.
  destruct (cut_facts hd e l f n l1 l2 t t1 Hnd Hl Ht1 Ht) as
    (D1 & D2 & HA & HB & Hel1 & Hft & Hnt & Nnl & Nhl & Neh).
  destruct (HA f) as (Nfh & Nfn & Nfl); [apply list_elem_of_here|].
  destruct (HA e) as (_ & Nen & Nel); [rewrite <- Ht1; clear; set_solver|].
  assert (removelast (n :: t) = l2) as Hrl by (by rewrite <- Ht, removelast_snoc).
  eexists; split; [unfold __list_cut_position; repeat lstep; done|]. split_and!.
  - split; [|done]. rewrite Ht1. change (l :: (f :: t1) ++ [l]) with (l :: f :: (t1 ++ [l])).
    split; [split; [by lnext|by lprev]|].
    replace (f :: t1 ++ [l]) with (l1 ++ e :: [l]) by (rewrite app_comm_cons, <- Ht1, <- app_assoc; done).
    rewrite path_app. split; [|split; [|done]; split; [by lnext|by lprev]].
    rewrite Ht1. eapply path_frame; [| |exact P1']; intros x Hx.
    + destruct (HA x) as (? & ? & ?); [by apply elem_removelast|].
      rewrite <- Ht1, removelast_snoc in Hx. assert (x <> e) by congruence. by lnext.
    + destruct (HA x) as (? & ? & ?); [by apply elem_tail|]. simpl in Hx.
      assert (x <> f) by congruence. by lprev.
  - split; [|done]. rewrite Ht. split; [split; [by lnext|by lprev]|].
    eapply path_frame; [| |exact P2]; intros x Hx.
    + rewrite Hrl in Hx. destruct (HB x Hx) as (? & ? & ? & ?). by lnext.
    + simpl in Hx. assert (x <> n) by congruence.
      assert (x ∈ l2 ++ [hd]) as Hx2 by (rewrite Ht; by apply list_elem_of_further).
      apply elem_of_app in Hx2. rewrite list_elem_of_singleton in Hx2.
      assert (x <> l /\ x <> f) as [? ?] by (destruct Hx2 as [?%HB| ->]; [tauto|split; congruence]).
      by lprev.
  - assert (f ∈ l1 ++ [e] /\ n ∈ l2 ++ [hd]) as [Hf Hn] by (rewrite Ht1, Ht; split; apply list_elem_of_here).
    assert (f ∈ l :: hd :: l1 ++ e :: l2 /\ n ∈ l :: hd :: l1 ++ e :: l2 /\ e ∈ l :: hd :: l1 ++ e :: l2)
      as (? & ? & ?) by (clear -Hf Hn; set_solver).
    eauto 20 using list_elem_of_here, list_elem_of_further with lprofile.
Qed.

Lemma list_cut_position_spec h hd l1 e l2 l :
  is_list h hd (l1 ++ e :: l2) -> l ∉ hd :: l1 ++ e :: l2 -> has h l ->
  exists h', list_cut_position l hd e h = Ret (tt, h') /\
    is_list h' l (l1 ++ [e]) /\ is_list h' hd l2 /\
    same_outside (l :: hd :: l1 ++ e :: l2) h h'.
Proof.
  intros HL Hl Hhas.
  assert (e <> hd) as Ehd by (destruct HL as [_ [? _]%NoDup_cons]; clear Hl; set_solver).
  unfold list_cut_position. rewrite (bind_ret _ _ _ _ _ (list_empty_spec _ _ _ HL)).
  rewrite bool_decide_false by (by destruct l1). cbv beta iota.
  rewrite (bind_ret _ _ _ _ _ (list_is_singular_spec _ _ _ HL)).
  destruct (is_list_first _ _ _ HL) as [F1 _]. lstep.
  rewrite (proj2 (Z.eqb_neq e hd) Ehd).
  rewrite andb_lazy_alt. case_bool_decide as Hlen; [|by apply cut_ring].
  rewrite length_app in Hlen. simpl in Hlen. destruct l1; [|simpl in Hlen; lia].
  simpl hd_of. rewrite Z.eqb_refl. by apply (cut_ring h hd [] e l2 l).
Qed.

(** Deleting an entry also clears its own links. *)
Lemma list_del_spec h hd l1 e l2 :
  is_list h hd (l1 ++ e :: l2) ->
  exists h', list_del e h = Ret (tt, h') /\ is_list h' hd (l1 ++ l2) /\
    h' !! e = Some (mk_list_head NULL NULL) /\ same_outside (hd :: l1 ++ e :: l2) h h'.
Proof.
  intros HL. pose proof HL as [_ Hnd]. rewrite app_comm_cons in Hnd. apply NoDup_mid in Hnd.
  destruct (list_del_entry_spec _ _ _ _ _ HL) as (h1 & E1 & HL1 & O1 & He).
  exists (set_prev (set_next h1 e NULL) e NULL). split_and!.
  - unfold list_del. unfold __list_del_entry in E1. minv E1. minv E1.
    rewrite (bind_ret _ _ _ _ _ Hm), (bind_ret _ _ _ _ _ Hm0), (bind_ret _ _ _ _ _ E1).
    by repeat lstep.
  - apply (is_list_frame h1 _ [e]); [eauto using list_elem_of_here with lprofile| |exact HL1].
    clear -Hnd. set_solver.
  - destruct He as [m Hm]. unfold set_prev, set_next. by rewrite !lookup_alter_eq, Hm.
  - assert (e ∈ hd :: l1 ++ e :: l2) by (clear; set_solver).
    apply set_prev_outside, set_next_outside; [done|done|].
    eapply same_outside_mono; [|exact O1]. clear. set_solver.
Qed.

Lemma list_empty_careful_spec h hd ps :
  is_list h hd ps -> list_empty_careful hd h = Ret (bool_decide (ps = []), h).
Proof.
  intros HL. destruct (is_list_first _ _ _ HL) as [F _].
  destruct (is_list_last _ _ _ HL) as (r & p & _ & [_ L] & Ep).
  unfold list_empty_careful. lstep. destruct HL as [_ [Hx _]%NoDup_cons].
  destruct ps as [|x ps]; simpl.
  - rewrite Z.eqb_refl. lstep. subst p. unfold last_of. simpl. by rewrite Z.eqb_refl.
  - rewrite (proj2 (Z.eqb_neq x hd)) by set_solver. done.
Qed.

Lemma list_is_last_spec h hd l1 x l2 :
  is_list h hd (l1 ++ x :: l2) -> list_is_last x hd h = Ret (bool_decide (l2 = []), h).
Proof.
  intros HL. assert (nxt h x = Some (hd_of l2 hd)) as Hn.
  { destruct HL as [HP _]. rewrite <- app_assoc in HP. simpl in HP.
    assert (exists t, l2 ++ [hd] = hd_of l2 hd :: t) as [t Ht] by (destruct l2; simpl; eauto).
    rewrite Ht in HP. apply (path_link h (hd :: l1)) in HP. apply HP. }
  unfold list_is_last. lstep. unfold mret, M_ret. do 2 f_equal.
  destruct HL as [_ [Hx _]%NoDup_cons].
  destruct l2; simpl; [by rewrite Z.eqb_refl|]. apply Z.eqb_neq. set_solver.
Qed.

(** ** Iteration

    The loops visit the nodes of the ring in order, whatever the body does to
    the rest of the state, as long as it keeps the ring. *)
Section IterationTheory.
Context {S : Type} `{EmS : Embed S lstore} `{EmL : !EmbedLaws S lstore}.
Implicit Types (s : S) (body : Z -> M S unit).

Lemma lift_rd_next s p v : nxt (eget s) p = Some v -> lift (rd_next p) s = Ret (v, s).
Proof. intros H. unfold lift. by rewrite (rd_next_ok _ _ _ H), eput_eget. Qed.
Lemma lift_rd_prev s p v : prv (eget s) p = Some v -> lift (rd_prev p) s = Ret (v, s).
Proof. intros H. unfold lift. by rewrite (rd_prev_ok _ _ _ H), eput_eget. Qed.

Lemma is_list_next_of h hd l1 x l2 :
  is_list h hd (l1 ++ x :: l2) -> nxt h x = Some (hd_of l2 hd).
Proof.
  intros [HP _]. rewrite <- app_assoc in HP. simpl in HP.
  assert (exists t, l2 ++ [hd] = hd_of l2 hd :: t) as [t Ht] by (destruct l2; simpl; eauto).
  rewrite Ht in HP. apply (path_link h (hd :: l1)) in HP. apply HP.
Qed.

Lemma is_list_prev_of h hd l1 x l2 :
  is_list h hd (l1 ++ x :: l2) -> prv h x = Some (last_of l1 hd).
Proof.
  intros [HP _]. rewrite <- app_assoc in HP. simpl in HP.
  destruct l1 as [|y l1] using rev_ind; [apply HP|].
  rewrite <- app_assoc in HP. simpl in HP. unfold last_of. rewrite last_snoc.
  apply (path_link h (hd :: l1)) in HP. apply HP.
Qed.

(** A body that keeps the ring [ps] of [hd] at every node. *)
Definition keeps_ring (hd : Z) (ps : list Z) (body : Z -> M S unit) : Prop :=
  forall x s u s', x ∈ ps -> is_list (eget s) hd ps -> body x s = Ret (u, s') -> is_list (eget s') hd ps.

Lemma for_each_from_spec hd ps body n l1 l2 s :
  keeps_ring hd ps body -> is_list (eget s) hd ps -> ps = l1 ++ l2 -> (length l2 < n)%nat ->
  for_each_from n (hd_of l2 hd) hd body s = forM l2 body s.
Proof.
  intros HK. revert l1 l2 s. induction n as [|n IH]; intros l1 l2 s HL E Hn; [lia|].
  destruct l2 as [|x l2]; simpl; [by rewrite Z.eqb_refl|].
  rewrite (proj2 (Z.eqb_neq x hd)).
  2:{ destruct HL as [_ [Hx _]%NoDup_cons]. set_solver. }
  destruct (body x s) as [[[] s']|e] eqn:Eb.
  - rewrite !(bind_ret _ _ _ _ _ Eb).
    assert (is_list (eget s') hd ps) as HL' by (eapply (HK x); [set_solver|exact HL|exact Eb]).
    rewrite (bind_ret _ _ _ _ _ (lift_rd_next s' x (hd_of l2 hd)
      ltac:(rewrite E in HL'; by apply is_list_next_of in HL'))).
    apply (IH (l1 ++ [x])); [done|by rewrite <- app_assoc|simpl in Hn; lia].
  - by rewrite !(bind_fault _ _ _ _ Eb).
Qed.

Lemma list_for_each_entry_spec hd ps body n s :
  keeps_ring hd ps body -> is_list (eget s) hd ps -> (length ps < n)%nat ->
  list_for_each_entry n hd body s = forM ps body s.
Proof.
  intros HK HL Hn. unfold list_for_each_entry. destruct (is_list_first _ _ _ HL) as [F _].
  rewrite (bind_ret _ _ _ _ _ (lift_rd_next _ _ _ F)). by apply (for_each_from_spec hd ps body n []).
Qed.

Lemma for_each_prev_from_spec hd ps body n l1 l2 s :
  keeps_ring hd ps body -> is_list (eget s) hd ps -> ps = l1 ++ l2 -> (length l1 < n)%nat ->
  for_each_prev_from n (last_of l1 hd) hd body s = forM (rev l1) body s.
Proof.
  intros HK. revert l1 l2 s. induction n as [|n IH]; intros l1 l2 s HL E Hn; [lia|].
  destruct l1 as [|x l1 _] using rev_ind; simpl; [by rewrite Z.eqb_refl|].
  unfold last_of. rewrite last_snoc, rev_unit. simpl. rewrite <- app_assoc in E. simpl in E.
  rewrite (proj2 (Z.eqb_neq x hd)).
  2:{ destruct HL as [_ [Hx _]%NoDup_cons]. set_solver. }
  destruct (body x s) as [[[] s']|e] eqn:Eb.
  - rewrite !(bind_ret _ _ _ _ _ Eb).
    assert (is_list (eget s') hd ps) as HL' by (eapply (HK x); [set_solver|exact HL|exact Eb]).
    rewrite (bind_ret _ _ _ _ _ (lift_rd_prev s' x (last_of l1 hd)
      ltac:(rewrite E in HL'; by apply is_list_prev_of in HL'))).
    apply (IH l1 (x :: l2)); [done|done|rewrite length_app in Hn; simpl in Hn; lia].
  - by rewrite !(bind_fault _ _ _ _ Eb).
Qed.

Lemma list_for_each_entry_reverse_spec hd ps body n s :
  keeps_ring hd ps body -> is_list (eget s) hd ps -> (length ps < n)%nat ->
  list_for_each_entry_reverse n hd body s = forM (rev ps) body s.
Proof.
  intros HK HL Hn. unfold list_for_each_entry_reverse.
  assert (prv (eget s) hd = Some (last_of ps hd)) as F.
  { destruct (is_list_last _ _ _ HL) as (_ & p & _ & [_ L] & ->). done. }
  rewrite (bind_ret _ _ _ _ _ (lift_rd_prev _ _ _ F)).
  apply (for_each_prev_from_spec hd ps body n ps []); by rewrite ?app_nil_r.
Qed.

(** A body that unlinks the first node of the ring behind [l1] and nothing else. *)
Definition drains_behind (hd : Z) (l1 : list Z) (body : Z -> M S unit) : Prop :=
  forall x ps s u s', is_list (eget s) hd (l1 ++ x :: ps) -> body x s = Ret (u, s') ->
  is_list (eget s') hd (l1 ++ ps).
Definition drains (hd : Z) : (Z -> M S unit) -> Prop := drains_behind hd [].

(** And one that unlinks the last node. *)
Definition drains_back (hd : Z) (body : Z -> M S unit) : Prop :=
  forall x ps s u s', is_list (eget s) hd (ps ++ [x]) -> body x s = Ret (u, s') -> is_list (eget s') hd ps.

Lemma lift_rd_next_in hd ps p (s : S) :
  is_list (eget s) hd ps -> p ∈ hd :: ps ->
  exists v, nxt (eget s) p = Some v /\ lift (rd_next p) s = Ret (v, s).
Proof.
  intros HL Hp. destruct (is_list_has _ _ _ _ HL Hp) as [m Hm]. exists (lh_next m).
  assert (nxt (eget s) p = Some (lh_next m)) as E by (unfold nxt; by rewrite Hm).
  split; [done|by apply lift_rd_next].
Qed.
Lemma lift_rd_prev_in hd ps p (s : S) :
  is_list (eget s) hd ps -> p ∈ hd :: ps ->
  exists v, prv (eget s) p = Some v /\ lift (rd_prev p) s = Ret (v, s).
Proof.
  intros HL Hp. destruct (is_list_has _ _ _ _ HL Hp) as [m Hm]. exists (lh_prev m).
  assert (prv (eget s) p = Some (lh_prev m)) as E by (unfold prv; by rewrite Hm).
  split; [done|by apply lift_rd_prev].
Qed.

Lemma hd_of_in hd l1 l2 : hd_of l2 hd ∈ hd :: l1 ++ l2.
Proof. destruct l2; simpl; set_solver. Qed.
Lemma last_of_in hd l1 : last_of l1 hd ∈ hd :: l1.
Proof.
  unfold last_of. destruct (last l1) eqn:E; simpl; [|set_solver]. apply last_Some in E as [l ->]. set_solver.
Qed.

Lemma for_each_safe_from_spec hd l1 body n ps s nx :
  drains_behind hd l1 body -> is_list (eget s) hd (l1 ++ ps) -> nxt (eget s) (hd_of ps hd) = Some nx ->
  (length ps < n)%nat ->
  for_each_safe_from n (hd_of ps hd) nx hd body s = forM ps body s.
Proof.
  intros HK. revert ps s nx. induction n as [|n IH]; intros ps s nx HL Hnx Hn; [lia|].
  destruct ps as [|x ps]; simpl; [by rewrite Z.eqb_refl|].
  rewrite (proj2 (Z.eqb_neq x hd)).
  2:{ destruct HL as [_ [Hx _]%NoDup_cons]. set_solver. }
  simpl in Hnx. pose proof (is_list_next_of _ _ _ _ _ HL) as Hnx'.
  assert (nx = hd_of ps hd) as -> by congruence.
  destruct (body x s) as [[[] s']|e] eqn:Eb; [|by rewrite !(bind_fault _ _ _ _ Eb)].
  rewrite !(bind_ret _ _ _ _ _ Eb). pose proof (HK _ _ _ _ _ HL Eb) as HL'.
  destruct (lift_rd_next_in _ _ _ _ HL' (hd_of_in hd l1 ps)) as (v & Ev & El).
  rewrite (bind_ret _ _ _ _ _ El). apply IH; [done|done|simpl in Hn; lia].
Qed.

Lemma for_each_prev_safe_from_spec hd body n ps s nx :
  drains_back hd body -> is_list (eget s) hd ps -> prv (eget s) (last_of ps hd) = Some nx -> (length ps < n)%nat ->
  for_each_prev_safe_from n (last_of ps hd) nx hd body s = forM (rev ps) body s.
Proof.
  intros HK. revert ps s nx. induction n as [|n IH]; intros ps s nx HL Hnx Hn; [lia|].
  destruct ps as [|x ps _] using rev_ind; simpl; [by rewrite Z.eqb_refl|].
  unfold last_of in *. rewrite last_snoc in *. rewrite rev_unit. simpl in *.
  rewrite (proj2 (Z.eqb_neq x hd)).
  2:{ destruct HL as [_ [Hx _]%NoDup_cons]. set_solver. }
  pose proof (is_list_prev_of _ _ _ _ _ HL) as Hnx'. assert (nx = last_of ps hd) as -> by congruence.
  destruct (body x s) as [[[] s']|e] eqn:Eb; [|by rewrite !(bind_fault _ _ _ _ Eb)].
  rewrite !(bind_ret _ _ _ _ _ Eb). pose proof (HK _ _ _ _ _ HL Eb) as HL'.
  destruct (lift_rd_prev_in _ _ _ _ HL' (last_of_in hd ps)) as (v & Ev & El).
  rewrite (bind_ret _ _ _ _ _ El). apply IH; [done|done|rewrite length_app in Hn; simpl in Hn; lia].
Qed.

Lemma list_for_each_entry_safe_spec hd body n ps s :
  drains hd body -> is_list (eget s) hd ps -> (length ps < n)%nat ->
  list_for_each_entry_safe n hd body s = forM ps body s.
Proof.
  intros HK HL Hn. unfold list_for_each_entry_safe. destruct (is_list_first _ _ _ HL) as [F _].
  rewrite (bind_ret _ _ _ _ _ (lift_rd_next _ _ _ F)).
  destruct (lift_rd_next_in _ _ _ _ HL (hd_of_in hd [] ps)) as (v & Ev & El). rewrite (bind_ret _ _ _ _ _ El).
  by apply (for_each_safe_from_spec hd []).
Qed.

Lemma list_for_each_entry_safe_reverse_spec hd body n ps s :
  drains_back hd body -> is_list (eget s) hd ps -> (length ps < n)%nat ->
  list_for_each_entry_safe_reverse n hd body s = forM (rev ps) body s.
Proof.
  intros HK HL Hn. unfold list_for_each_entry_safe_reverse.
  assert (prv (eget s) hd = Some (last_of ps hd)) as F.
  { destruct (is_list_last _ _ _ HL) as (_ & p & _ & [_ L] & ->). done. }
  rewrite (bind_ret _ _ _ _ _ (lift_rd_prev _ _ _ F)).
  destruct (lift_rd_prev_in _ _ _ _ HL (last_of_in hd ps)) as (v & Ev & El). rewrite (bind_ret _ _ _ _ _ El).
  by apply for_each_prev_safe_from_spec.
Qed.
End IterationTheory.

(** ** Programs over one ring

    A client works on a ring through the operations below; [abs_lop] is what
    each promises on the sequence of nodes, [None] when its precondition (an
    entry to be in the ring, a new node to be outside) does not hold. *)
Inductive lop : Type :=
| OpAdd (x : Z)
| OpAddTail (x : Z)
| OpDelInit (x : Z)
| OpMove (x : Z)
| OpMoveTail (x : Z)
| OpReplace (old new : Z)
| OpRotate.

Definition run_lop (hd : Z) (op : lop) : M lstore unit :=
  match op with
  | OpAdd x => list_add x hd
  | OpAddTail x => list_add_tail x hd
  | OpDelInit x => list_del_init x
  | OpMove x => list_move x hd
  | OpMoveTail x => list_move_tail x hd
  | OpReplace old new => list_replace old new
  | OpRotate => list_rotate_left hd
  end.

Definition run_lops (hd : Z) (ops : list lop) : M lstore unit := forM ops (run_lop hd).

(** Splits a sequence at the first occurrence of [x]. *)
Fixpoint split_at (x : Z) (ps : list Z) : option (list Z * list Z) :=
  match ps with
  | [] => None
  | y :: r =>
      if y =? x then Some ([], r)
      else match split_at x r with Some (a, b) => Some (y :: a, b) | None => None end
  end.

Definition fresh_for (hd : Z) (ps : list Z) (x : Z) : bool := bool_decide (x ∉ hd :: ps).

Definition abs_lop (hd : Z) (op : lop) (ps : list Z) : option (list Z) :=
  match op with
  | OpAdd x => if fresh_for hd ps x then Some (x :: ps) else None
  | OpAddTail x => if fresh_for hd ps x then Some (ps ++ [x]) else None
  | OpDelInit x => '(a, b) ← split_at x ps; Some (a ++ b)
  | OpMove x => '(a, b) ← split_at x ps; Some (x :: a ++ b)
  | OpMoveTail x => '(a, b) ← split_at x ps; Some (a ++ b ++ [x])
  | OpReplace old new =>
      if fresh_for hd ps new then '(a, b) ← split_at old ps; Some (a ++ new :: b) else None
  | OpRotate => Some (match ps with [] => [] | x :: r => r ++ [x] end)
  end.

Fixpoint abs_lops (hd : Z) (ops : list lop) (ps : list Z) : option (list Z) :=
  match ops with
  | [] => Some ps
  | op :: ops' => ps' ← abs_lop hd op ps; abs_lops hd ops' ps'
  end.

(** The nodes an operation links into the ring. *)
Definition lop_new (op : lop) : list Z :=
  match op with
  | OpAdd x | OpAddTail x => [x]
  | OpReplace _ new => [new]
  | _ => []
  end.

Lemma split_at_spec x ps a b : split_at x ps = Some (a, b) -> ps = a ++ x :: b.
Proof.
  revert a b. induction ps as [|y r IH]; simpl; [done|]. intros a b.
  destruct (y =? x) eqn:E; [intros [= <- <-]; zbool; by subst|].
  destruct (split_at x r) as [[a' b']|]; [|done]. intros [= <- <-]. simpl. f_equal. by apply IH.
Qed.

(** Operations never allocate or release nodes. *)
Definition keeps_nodes {A} (m : M lstore A) : Prop :=
  forall h a h', m h = Ret (a, h') -> forall p, has h' p <-> has h p.

Lemma keeps_nodes_bind {A B} (m : M lstore A) (k : A -> M lstore B) :
  keeps_nodes m -> (forall a, keeps_nodes (k a)) -> keeps_nodes (m ≫= k).
Proof.
  intros H1 H2 h b h' H p. minv H. rewrite (H2 _ _ _ _ H p). by apply (H1 _ _ _ Hm).
Qed.
Lemma keeps_nodes_ret {A} (a : A) : keeps_nodes (mret a).
Proof. intros h x h' [= _ <-]. done. Qed.
Lemma keeps_nodes_rd_next p : keeps_nodes (rd_next p).
Proof. intros h a h'. unfold rd_next. destruct (h !! p); [|done]. by intros [= _ <-]. Qed.
Lemma keeps_nodes_rd_prev p : keeps_nodes (rd_prev p).
Proof. intros h a h'. unfold rd_prev. destruct (h !! p); [|done]. by intros [= _ <-]. Qed.
Lemma keeps_nodes_wr_next p v : keeps_nodes (wr_next p v).
Proof.
  intros h a h'. unfold wr_next. destruct (h !! p) eqn:E; [|done]. intros [= _ <-] q.
  unfold has. rewrite lookup_insert. case_decide; [subst; rewrite E; by split; eauto|done].
Qed.
Lemma keeps_nodes_wr_prev p v : keeps_nodes (wr_prev p v).
Proof.
  intros h a h'. unfold wr_prev. destruct (h !! p) eqn:E; [|done]. intros [= _ <-] q.
  unfold has. rewrite lookup_insert. case_decide; [subst; rewrite E; by split; eauto|done].
Qed.
Create HintDb keeps_nodes.
#[export] Hint Resolve keeps_nodes_bind keeps_nodes_ret keeps_nodes_rd_next keeps_nodes_rd_prev
  keeps_nodes_wr_next keeps_nodes_wr_prev : keeps_nodes.

Ltac keeps_nodes :=
  repeat first [ apply keeps_nodes_bind; [|intros ?] | progress eauto 2 with keeps_nodes | case_match ].

Lemma keeps_nodes_lop hd op : keeps_nodes (run_lop hd op).
Proof.
  destruct op; simpl; unfold list_add, list_add_tail, list_del_init, list_move, list_move_tail,
    list_replace, list_rotate_left, list_empty, list_move_tail, list_add, list_add_tail, __list_del_entry,
    __list_del, __list_add, INIT_LIST_HEAD; keeps_nodes.
Qed.

Lemma lop_refines h hd ps op ps' :
  is_list h hd ps -> abs_lop hd op ps = Some ps' -> (forall x, x ∈ lop_new op -> has h x) ->
  exists h', run_lop hd op h = Ret (tt, h') /\ is_list h' hd ps'.
Proof.
  intros HL HA Hhas. destruct op; simpl in *; unfold fresh_for in HA;
    repeat (case_bool_decide; [|done]);
    try (destruct (split_at _ ps) as [[a b]|] eqn:E; [|done]; simpl in HA;
         apply split_at_spec in E; subst ps);
    injection HA as <-; try (assert (has h x) by set_solver); try (assert (has h new) by set_solver).
  - destruct (list_add_spec h hd ps x) as (h' & ? & ? & _); eauto.
  - destruct (list_add_tail_spec h hd ps x) as (h' & ? & ? & _); eauto.
  - destruct (list_del_init_spec h hd a x b) as (h' & ? & ? & _); eauto.
  - destruct (list_move_spec h hd a x b) as (h' & ? & ? & _); eauto.
  - destruct (list_move_tail_spec h hd a x b) as (h' & ? & ? & _); eauto.
  - destruct (list_replace_spec h hd a old b new) as (h' & ? & ? & _); eauto.
  - destruct (list_rotate_left_spec h hd ps) as (h' & ? & ? & _); eauto.
Qed.

(** C25: every sequence of list operations whose preconditions hold on the
    abstract sequence runs on the store without a fault and ends in the ring
    of exactly the sequence the abstract operations compute. *)
Theorem list_ops_refine_sequence h hd ps ops ps' :
  is_list h hd ps -> abs_lops hd ops ps = Some ps' ->
  (forall op x, op ∈ ops -> x ∈ lop_new op -> has h x) ->
  exists h', run_lops hd ops h = Ret (tt, h') /\ is_list h' hd ps'.
Proof.
  revert h ps. induction ops as [|op ops IH]; simpl; intros h ps HL HA Hhas.
  - injection HA as <-. by exists h.
  - destruct (abs_lop hd op ps) as [ps1|] eqn:E; [|done]. simpl in HA.
    destruct (lop_refines h hd ps op ps1 HL E) as (h1 & E1 & HL1); [set_solver|].
    destruct (IH h1 ps1 HL1 HA) as (h2 & E2 & HL2).
    { intros o x Ho Hx. apply (keeps_nodes_lop _ _ _ _ _ E1). eapply Hhas; [|done]. set_solver. }
    exists h2. split; [|done]. unfold run_lops. simpl. by rewrite (bind_ret _ _ _ _ _ E1).
Qed.

Definition ex_store : lstore :=
  list_to_map [(1, mk_list_head 1 1); (2, mk_list_head 0 0); (3, mk_list_head 0 0); (4, mk_list_head 0 0)].

Lemma ex_store_ring : is_list ex_store 1 [].
Proof. split; [vm_compute; tauto|apply NoDup_singleton]. Qed.

Lemma list_ops_refine_sequence_witness :
  exists h', run_lops 1 [OpAddTail 2; OpAdd 3; OpRotate; OpReplace 2 4; OpDelInit 3] ex_store = Ret (tt, h')
    /\ is_list h' 1 [4].
Proof.
  apply (list_ops_refine_sequence ex_store 1 []); [apply ex_store_ring|vm_compute; reflexivity|].
  intros op x Hop Hx. repeat (apply elem_of_cons in Hop as [->|Hop]; [simpl in Hx|]);
    try by apply elem_of_nil in Hop.
  all: repeat (apply elem_of_cons in Hx as [->|Hx]); try by apply elem_of_nil in Hx.
  all: vm_compute; eauto.
Defined.

(** Cutting a ring after an entry and splicing the cut part back at the
    front restores the ring and leaves the second head empty. *)
Theorem list_cut_splice_roundtrip h hd l1 e l2 l :
  is_list h hd (l1 ++ e :: l2) -> l ∉ hd :: l1 ++ e :: l2 -> has h l ->
  exists h', (list_cut_position l hd e ;; list_splice_init l hd) h = Ret (tt, h') /\
    is_list h' hd (l1 ++ e :: l2) /\ is_list h' l [].
Proof.
  intros HL Hl Hhas. pose proof HL as [_ Hnd].
  destruct (list_cut_position_spec _ _ _ _ _ _ HL Hl Hhas) as (h1 & E1 & HL1 & HL2 & _).
  destruct (list_splice_init_spec h1 hd l2 l (l1 ++ [e])) as (h2 & E2 & HL3 & HL4 & _); [done|done| |].
  - intros x Hx Hx2. apply NoDup_cons in Hnd as [Hh Hnd]. rewrite cons_middle, app_assoc in Hnd.
    apply NoDup_app in Hnd as (_ & Hd & _). specialize (Hd x). clear HL HL1 HL2. set_solver.
  - exists h2. rewrite (bind_ret _ _ _ _ _ E1). split_and!; [done| |done].
    by rewrite <- app_assoc in HL3.
Qed.

Lemma list_cut_splice_roundtrip_witness :
  exists h h', (list_cut_position 4 1 2 ;; list_splice_init 4 1) h = Ret (tt, h') /\
    is_list h' 1 [2; 3] /\ is_list h' 4 [].
Proof.
  exists (list_to_map [(1, mk_list_head 2 3); (2, mk_list_head 3 1); (3, mk_list_head 1 2);
                       (4, mk_list_head 4 4)]).
  apply (list_cut_splice_roundtrip _ 1 [] 2 [3] 4).
  - split; [vm_compute; tauto|]. apply (bool_decide_unpack _). vm_compute. exact I.
  - apply (bool_decide_unpack _). vm_compute. exact I.
  - vm_compute. eauto.
Defined.

(** The forward, backward and removal-safe iterators run their body once
    for every node of the ring, in ring order, reverse order and ring order,
    and stop: [length ps + 1] rounds suffice. *)
Theorem list_iterators_visit_ring {S} `{Embed S lstore, !EmbedLaws S lstore} (hd : Z) ps (s : S) body safe_body n :
  is_list (eget s) hd ps -> (length ps < n)%nat -> keeps_ring hd ps body -> drains hd safe_body ->
  list_for_each_entry n hd body s = forM ps body s /\
  list_for_each_entry_reverse n hd body s = forM (rev ps) body s /\
  list_for_each_entry_safe n hd safe_body s = forM ps safe_body s.
Proof.
  intros HL Hn HK HD. split_and!.
  - by apply list_for_each_entry_spec.
  - by apply list_for_each_entry_reverse_spec.
  - by apply list_for_each_entry_safe_spec.
Qed.

(** A store together with the list of the nodes a loop visited. *)
Definition logged : Type := lstore * list Z.
#[export] Instance logged_embed : Embed logged lstore := {| eget := fst; eput := fun t s => (t, snd s) |}.
#[export] Instance logged_laws : EmbedLaws logged lstore.
Proof. split; [by intros []|done]. Qed.

Definition visit (x : Z) : M logged unit := modify (fun s => (s.1, s.2 ++ [x])).
Definition visit_del (x : Z) : M logged unit := lift (list_del_init x) ;; visit x.

Lemma visit_keeps hd ps : keeps_ring hd ps visit.
Proof. intros x s u s' _ HL [= _ <-]. done. Qed.

Lemma visit_del_drains_behind hd l1 : drains_behind hd l1 visit_del.
Proof.
  intros x ps s u s' HL H. unfold visit_del in H. minv H. injection H as _ <-.
  destruct (list_del_init_spec _ hd l1 x ps HL) as (h' & E & HL' & _).
  unfold lift in Hm. rewrite E in Hm. by injection Hm as _ <-.
Qed.

Lemma list_iterators_visit_ring_witness :
  exists h, list_for_each_entry 3 1 visit (h, []) = Ret (tt, (h, [2; 3])) /\
    list_for_each_entry_reverse 3 1 visit (h, []) = Ret (tt, (h, [3; 2])) /\
    list_for_each_entry_safe 3 1 visit_del (h, []) = forM [2; 3] visit_del (h, []).
Proof.
  exists (list_to_map [(1, mk_list_head 2 3); (2, mk_list_head 3 1); (3, mk_list_head 1 2)]).
  apply (list_iterators_visit_ring 1 [2; 3] (_, []) visit visit_del 3).
  - split; [vm_compute; tauto|]. apply (bool_decide_unpack _). vm_compute. exact I.
  - simpl. lia.
  - apply visit_keeps.
  - apply visit_del_drains_behind.
Defined.

(** The iterators that start in the middle of a ring visit exactly the rest of
    it in their direction, and the ones safe against removal survive a body that
    unlinks the node it is given; the backward one takes the ring off from its end. *)
Theorem list_iterators_from_middle {S} `{Embed S lstore, !EmbedLaws S lstore} (hd : Z) l1 x l2 (s : S)
    body safe_body back_body n :
  is_list (eget s) hd (l1 ++ x :: l2) -> (length (l1 ++ x :: l2) < n)%nat ->
  keeps_ring hd (l1 ++ x :: l2) body ->
  drains_behind hd l1 safe_body -> drains_behind hd (l1 ++ [x]) safe_body -> drains_back hd back_body ->
  list_for_each_entry_continue n x hd body s = forM l2 body s /\
  list_for_each_entry_from n x hd body s = forM (x :: l2) body s /\
  list_for_each_entry_continue_reverse n x hd body s = forM (rev l1) body s /\
  list_for_each_entry_safe_continue n x hd safe_body s = forM l2 safe_body s /\
  list_for_each_entry_safe_from n x hd safe_body s = forM (x :: l2) safe_body s /\
  list_for_each_entry_safe_reverse n hd back_body s = forM (rev (l1 ++ x :: l2)) back_body s.
Proof.
  intros HL Hn HK HD1 HD2 HB. pose proof HL as HLx.
  replace (l1 ++ x :: l2) with ((l1 ++ [x]) ++ l2) in HLx by (by rewrite <- app_assoc).
  pose proof (is_list_next_of _ _ _ _ _ HL) as Nx. pose proof (is_list_prev_of _ _ _ _ _ HL) as Px.
  pose proof (lift_rd_next s x _ Nx) as Lx. pose proof (lift_rd_prev s x _ Px) as Lp.
  pose proof Hn as Hn'. rewrite length_app in Hn'. simpl in Hn'. split_and!.
  - unfold list_for_each_entry_continue. rewrite (bind_ret _ _ _ _ _ Lx).
    eapply (for_each_from_spec hd _ body n (l1 ++ [x]) l2); [exact HK|done|by rewrite <- app_assoc|lia].
  - apply (for_each_from_spec hd (l1 ++ x :: l2) body n l1 (x :: l2)); [done|done|done|simpl; lia].
  - unfold list_for_each_entry_continue_reverse. rewrite (bind_ret _ _ _ _ _ Lp).
    apply (for_each_prev_from_spec hd (l1 ++ x :: l2) body n l1 (x :: l2)); [done|done|done|lia].
  - unfold list_for_each_entry_safe_continue. rewrite (bind_ret _ _ _ _ _ Lx).
    destruct (lift_rd_next_in _ _ _ _ HLx (hd_of_in hd _ l2)) as (v & Ev & El). rewrite (bind_ret _ _ _ _ _ El).
    apply (for_each_safe_from_spec hd (l1 ++ [x])); [done|done|done|lia].
  - unfold list_for_each_entry_safe_from. rewrite (bind_ret _ _ _ _ _ Lx).
    apply (for_each_safe_from_spec hd l1 safe_body n (x :: l2)); [done|done|done|simpl; lia].
  - by apply list_for_each_entry_safe_reverse_spec.
Qed.

Lemma list_iterators_from_middle_witness :
  exists h : lstore,
    list_for_each_entry_continue 4 3 1 visit (h, []) = Ret (tt, (h, [4])) /\
    list_for_each_entry_from 4 3 1 visit (h, []) = Ret (tt, (h, [3; 4])) /\
    list_for_each_entry_continue_reverse 4 3 1 visit (h, []) = Ret (tt, (h, [2])) /\
    list_for_each_entry_safe_continue 4 3 1 visit_del (h, []) = forM [4] visit_del (h, []) /\
    list_for_each_entry_safe_from 4 3 1 visit_del (h, []) = forM [3; 4] visit_del (h, []) /\
    list_for_each_entry_safe_reverse 4 1 visit_del (h, []) = forM [4; 3; 2] visit_del (h, []).
Proof.
  exists (list_to_map [(1, mk_list_head 2 4); (2, mk_list_head 3 1); (3, mk_list_head 4 2); (4, mk_list_head 1 3)]).
  apply (list_iterators_from_middle 1 [2] 3 [4] (_, []) visit visit_del visit_del 4).
  - split; [vm_compute; tauto|]. apply (bool_decide_unpack _). vm_compute. exact I.
  - simpl. lia.
  - apply visit_keeps.
  - apply visit_del_drains_behind.
  - apply visit_del_drains_behind.
  - intros x ps s u s' HL H. pose proof (visit_del_drains_behind 1 ps x [] s u s' HL H) as HL'.
    by rewrite app_nil_r in HL'.
Defined.

(** The entry macros: the ends of a ring, [NULL] on an empty one where the
    macro says so, and the neighbours of a node, the head past either end. *)
Theorem list_entries_spec h hd l1 x l2 :
  is_list h hd (l1 ++ x :: l2) -> x <> NULL ->
  list_first_entry hd h = Ret (hd_of (l1 ++ [x]) hd, h) /\
  list_first_entry_or_null hd h = Ret (hd_of (l1 ++ [x]) hd, h) /\
  list_last_entry hd h = Ret (last_of (x :: l2) hd, h) /\
  list_next_entry x h = Ret (hd_of l2 hd, h) /\ list_safe_reset_next x h = Ret (hd_of l2 hd, h) /\
  list_prev_entry x h = Ret (last_of l1 hd, h) /\ list_prepare_entry x hd = x.
Proof.
  intros HL Hx. destruct (is_list_first _ _ _ HL) as [F _].
  assert (hd_of (l1 ++ x :: l2) hd = hd_of (l1 ++ [x]) hd) as Eh by (by destruct l1).
  rewrite Eh in F. pose proof (rd_next_ok _ _ _ F) as Rf.
  pose proof (rd_next_ok _ _ _ (is_list_next_of _ _ _ _ _ HL)) as Rn.
  pose proof (rd_prev_ok _ _ _ (is_list_prev_of _ _ _ _ _ HL)) as Rp. split_and!; try done.
  - unfold list_first_entry_or_null, list_empty. unfold mbind at 1, M_bind at 1.
    rewrite (bind_ret _ _ _ _ _ Rf). unfold mret, M_ret. rewrite (proj2 (Z.eqb_neq _ hd)); [done|].
    destruct HL as [_ [Hh _]%NoDup_cons]. destruct l1; simpl; set_solver.
  - destruct (is_list_last _ _ _ HL) as (_ & p & _ & [_ L] & Ep). rewrite Ep in L.
    replace (last_of (l1 ++ x :: l2) hd) with (last_of (x :: l2) hd) in L.
    2:{ unfold last_of. rewrite last_app. rewrite !last_cons. by destruct (last l2). }
    by apply rd_prev_ok.
  - unfold list_prepare_entry. by rewrite (proj2 (Z.eqb_neq x NULL) Hx).
Qed.

Lemma list_entries_spec_witness :
  exists h : lstore, list_first_entry 1 h = Ret (2, h) /\ list_first_entry_or_null 1 h = Ret (2, h) /\
    list_last_entry 1 h = Ret (4, h) /\ list_next_entry 3 h = Ret (4, h) /\ list_safe_reset_next 3 h = Ret (4, h) /\
    list_prev_entry 3 h = Ret (2, h) /\ list_prepare_entry 3 1 = 3.
Proof.
  exists (list_to_map [(1, mk_list_head 2 4); (2, mk_list_head 3 1); (3, mk_list_head 4 2); (4, mk_list_head 1 3)]).
  apply (list_entries_spec _ 1 [2] 3 [4]); [|done].
  split; [vm_compute; tauto|]. apply (bool_decide_unpack _). vm_compute. exact I.
Defined.
