(* ===== verification/HList.v ===== *)
(** * The single-headed lists of probe/list.h

    An hlist has a head of one pointer; a node points to its successor and, with
    [pprev], to the pointer that points to it: the [first] of the head or the
    [next] of its predecessor.  Both are the first member of their structure, so
    the address of that pointer is the address of the object that holds it.  The
    store maps addresses to heads and nodes; [is_htable h T] says that the heads
    of [T] carry exactly the sequences [T] gives them and that every other node
    is unhashed.  All operations are proved to act on such a table of sequences. *)
From stdpp Require Import base gmap list.
From S2P Require Import Prelude ListHead.

Record hlist_node : Type := mk_hlist_node { hn_next : Z; hn_pprev : Z }.
Record hlist_head : Type := mk_hlist_head { hh_first : Z }.

Inductive hobj : Type :=
| OHead (o : hlist_head)
| ONode (o : hlist_node).

Abbreviation hstore := (gmap Z hobj).

(** ** Field accesses *)

Definition rd_first (p : Z) : M hstore Z := fun h =>
  match h !! p with Some (OHead o) => Ret (hh_first o, h) | _ => Fault FBadPtr end.
Definition rd_hnext (p : Z) : M hstore Z := fun h =>
  match h !! p with Some (ONode o) => Ret (hn_next o, h) | _ => Fault FBadPtr end.
Definition rd_pprev (p : Z) : M hstore Z := fun h =>
  match h !! p with Some (ONode o) => Ret (hn_pprev o, h) | _ => Fault FBadPtr end.
Definition wr_first (p v : Z) : M hstore unit := fun h =>
  match h !! p with
  | Some (OHead o) => Ret (tt, <[p := OHead (mk_hlist_head v)]> h)
  | _ => Fault FBadPtr
  end.
Definition wr_hnext (p v : Z) : M hstore unit := fun h =>
  match h !! p with
  | Some (ONode o) => Ret (tt, <[p := ONode (mk_hlist_node v (hn_pprev o))]> h)
  | _ => Fault FBadPtr
  end.
Definition wr_pprev (p v : Z) : M hstore unit := fun h =>
  match h !! p with
  | Some (ONode o) => Ret (tt, <[p := ONode (mk_hlist_node (hn_next o) v)]> h)
  | _ => Fault FBadPtr
  end.
(** [*pp = v] for a [struct hlist_node **pp]. *)
Definition wr_slot (pp v : Z) : M hstore unit := fun h =>
  match h !! pp with
  | Some (OHead o) => Ret (tt, <[pp := OHead (mk_hlist_head v)]> h)
  | Some (ONode o) => Ret (tt, <[pp := ONode (mk_hlist_node v (hn_pprev o))]> h)
  | None => Fault FBadPtr
  end.

(** ** The operations, as the header writes them *)

Definition INIT_HLIST_HEAD (p : Z) : M hstore unit := wr_first p NULL.

Definition INIT_HLIST_NODE (h : Z) : M hstore unit :=
  wr_hnext h NULL ;; wr_pprev h NULL.

Definition hlist_unhashed (h : Z) : M hstore bool :=
  p ← rd_pprev h ; mret (p =? NULL).

Definition hlist_empty (h : Z) : M hstore bool :=
  f ← rd_first h ; mret (f =? NULL).

Definition __hlist_del (n : Z) : M hstore unit :=
  next ← rd_hnext n ;
  pprev ← rd_pprev n ;
  wr_slot pprev next ;;
  if negb (next =? NULL) then wr_pprev next pprev else mret tt.

Definition hlist_del (n : Z) : M hstore unit :=
  __hlist_del n ;; wr_hnext n NULL ;; wr_pprev n NULL.

Definition hlist_del_init (n : Z) : M hstore unit :=
  u ← hlist_unhashed n ;
  if negb u then __hlist_del n ;; INIT_HLIST_NODE n else mret tt.

Definition hlist_add_head (n h : Z) : M hstore unit :=
  first ← rd_first h ;
  wr_hnext n first ;;
  (if negb (first =? NULL) then wr_pprev first n else mret tt) ;;
  wr_first h n ;;
  wr_pprev n h.

Definition hlist_add_before (n next : Z) : M hstore unit :=
  pp ← rd_pprev next ; wr_pprev n pp ;;
  wr_hnext n next ;;
  wr_pprev next n ;;
  np ← rd_pprev n ; wr_slot np n.

Definition hlist_add_behind (n prev : Z) : M hstore unit :=
  pn ← rd_hnext prev ; wr_hnext n pn ;;
  wr_hnext prev n ;;
  wr_pprev n prev ;;
  nn ← rd_hnext n ;
  if negb (nn =? NULL) then nn' ← rd_hnext n ; wr_pprev nn' n else mret tt.

Definition hlist_add_fake (n : Z) : M hstore unit := wr_pprev n n.

Definition hlist_fake (h : Z) : M hstore bool :=
  p ← rd_pprev h ; mret (p =? h).

Definition hlist_move_list (old new : Z) : M hstore unit :=
  f ← rd_first old ; wr_first new f ;;
  nf ← rd_first new ;
  (if negb (nf =? NULL) then nf' ← rd_first new ; wr_pprev nf' new else mret tt) ;;
  wr_first old NULL.

(** ** The iterators

    [container_of] is the identity, as for list_head; [n] is fuel. *)
Section Iterators.
Context {S : Type} `{EmS : Embed S hstore}.

(** [hlist_for_each] from a cursor, which is [hlist_for_each_entry_from]. *)
Fixpoint hlist_for_each_entry_from (n : nat) (pos : Z) (body : Z -> M S unit) : M S unit :=
  match n with
  | O => fail FFuel
  | Datatypes.S n' =>
      if pos =? NULL then mret tt
      else body pos ;; nx ← lift (rd_hnext pos) ; hlist_for_each_entry_from n' nx body
  end.

Definition hlist_for_each_entry (n : nat) (head : Z) (body : Z -> M S unit) : M S unit :=
  pos ← lift (rd_first head) ; hlist_for_each_entry_from n pos body.

Definition hlist_for_each_entry_continue (n : nat) (pos : Z) (body : Z -> M S unit) : M S unit :=
  nx ← lift (rd_hnext pos) ; hlist_for_each_entry_from n nx body.

(** The successor is read in the condition, before the body runs. *)
Fixpoint hfor_each_safe_from (n : nat) (pos : Z) (body : Z -> M S unit) : M S unit :=
  match n with
  | O => fail FFuel
  | Datatypes.S n' =>
      if pos =? NULL then mret tt
      else nx ← lift (rd_hnext pos) ; body pos ;; hfor_each_safe_from n' nx body
  end.

Definition hlist_for_each_entry_safe (n : nat) (head : Z) (body : Z -> M S unit) : M S unit :=
  pos ← lift (rd_first head) ; hfor_each_safe_from n pos body.
End Iterators.

(** ** What a store holds *)

(** The pointer an object starts with, and the back pointer of a node. *)
Definition slot (h : hstore) (p : Z) : option Z :=
  (fun o => match o with OHead o => hh_first o | ONode o => hn_next o end) <$> h !! p.
Definition pprv (h : hstore) (p : Z) : option Z :=
  match h !! p with Some (ONode o) => Some (hn_pprev o) | _ => None end.

Definition is_node (h : hstore) (p : Z) : Prop := is_Some (pprv h p).
Definition is_head (h : hstore) (p : Z) : Prop := is_Some (slot h p) /\ pprv h p = None.

Definition hset_slot (h : hstore) (p v : Z) : hstore :=
  alter (fun o => match o with
                  | OHead _ => OHead (mk_hlist_head v)
                  | ONode o => ONode (mk_hlist_node v (hn_pprev o)) end) p h.
Definition hset_pprev (h : hstore) (p v : Z) : hstore :=
  alter (fun o => match o with
                  | OHead _ => o
                  | ONode o => ONode (mk_hlist_node (hn_next o) v) end) p h.

(** The pointers from the object [p] through [ps]; the last one holds [v]. *)
Fixpoint hseg (h : hstore) (p : Z) (ps : list Z) (v : Z) : Prop :=
  match ps with
  | [] => slot h p = Some v
  | x :: r => slot h p = Some x /\ pprv h x = Some p /\ hseg h x r v
  end.

Definition is_hlist (h : hstore) (hd : Z) (ps : list Z) : Prop :=
  is_head h hd /\ NoDup ps /\ hseg h hd ps NULL.

Definition in_table (T : gmap Z (list Z)) (x : Z) : Prop := exists hd ps, T !! hd = Some ps /\ x ∈ ps.

Definition is_htable (h : hstore) (T : gmap Z (list Z)) : Prop :=
  h !! NULL = None /\
  (forall hd ps, T !! hd = Some ps -> is_hlist h hd ps) /\
  (forall x, is_node h x -> ~ in_table T x -> slot h x = Some NULL /\ pprv h x = Some NULL).

(** *** Accesses as changes of the store *)

Ltac hcase := repeat (case_match; simplify_eq/=; try done).

Lemma slot_set_slot h p v q :
  slot (hset_slot h p v) q = if decide (p = q) then (fun _ => v) <$> slot h q else slot h q.
Proof.
  unfold slot, hset_slot. rewrite lookup_alter. case_decide; subst; [|done].
  by destruct (h !! q) as [[]|].
Qed.
Lemma pprv_set_slot h p v q : pprv (hset_slot h p v) q = pprv h q.
Proof.
  unfold pprv, hset_slot. rewrite lookup_alter. case_decide; subst; [|done].
  by destruct (h !! q) as [[]|].
Qed.
Lemma slot_set_pprev h p v q : slot (hset_pprev h p v) q = slot h q.
Proof.
  unfold slot, hset_pprev. rewrite lookup_alter. case_decide; subst; [|done].
  by destruct (h !! q) as [[]|].
Qed.
Lemma pprv_set_pprev h p v q :
  pprv (hset_pprev h p v) q = if decide (p = q) then (fun _ => v) <$> pprv h q else pprv h q.
Proof.
  unfold pprv, hset_pprev. rewrite lookup_alter. case_decide; subst; [|done].
  by destruct (h !! q) as [[]|].
Qed.
Lemma node_set_slot h p v q : is_node (hset_slot h p v) q <-> is_node h q.
Proof. unfold is_node. by rewrite pprv_set_slot. Qed.
Lemma node_set_pprev h p v q : is_node (hset_pprev h p v) q <-> is_node h q.
Proof. unfold is_node. rewrite pprv_set_pprev. case_decide; [|done]. by rewrite fmap_is_Some. Qed.
Lemma has_slot_set_slot h p v q : is_Some (slot (hset_slot h p v) q) <-> is_Some (slot h q).
Proof. rewrite slot_set_slot. case_decide; [|done]. by rewrite fmap_is_Some. Qed.

Lemma node_pprv h x v : pprv h x = Some v -> is_node h x.
Proof. unfold is_node. eauto. Qed.
Lemma node_slot h x : is_node h x -> is_Some (slot h x).
Proof. unfold is_node, pprv, slot. destruct (h !! x) as [[]|]; simpl; eauto. Qed.
Lemma head_slot h x : is_head h x -> is_Some (slot h x).
Proof. by intros []. Qed.
Lemma head_not_node h x : is_head h x -> ~ is_node h x.
Proof. intros [_ E] H. unfold is_node in H. rewrite E in H. by destruct H. Qed.
Lemma head_set_slot h p v q : is_head (hset_slot h p v) q <-> is_head h q.
Proof. unfold is_head. by rewrite has_slot_set_slot, pprv_set_slot. Qed.
Lemma head_set_pprev h p v q : is_head (hset_pprev h p v) q <-> is_head h q.
Proof.
  unfold is_head. rewrite slot_set_pprev, pprv_set_pprev. case_decide; [|done].
  by rewrite fmap_None.
Qed.

Create Rewrite HintDb hstore.
#[export] Hint Rewrite slot_set_slot pprv_set_slot slot_set_pprev pprv_set_pprev
  node_set_slot node_set_pprev head_set_slot head_set_pprev : hstore.
#[export] Hint Resolve node_pprv node_slot head_slot : lprofile.

Lemma insert_alter_id {A} (h : gmap Z A) p (f : A -> A) o y :
  h !! p = Some o -> f o = y -> <[p := y]> h = alter f p h.
Proof.
  intros E <-. apply map_eq. intros i. rewrite lookup_insert, lookup_alter.
  case_decide; subst; [by rewrite E|done].
Qed.

Lemma rd_first_ok h p v : is_head h p -> slot h p = Some v -> rd_first p h = Ret (v, h).
Proof. unfold is_head, slot, pprv, rd_first. intros [_ ?] ?. hcase. Qed.
Lemma rd_hnext_ok h p v : is_node h p -> slot h p = Some v -> rd_hnext p h = Ret (v, h).
Proof. unfold is_node, slot, pprv, rd_hnext. intros [? ?] ?. hcase. Qed.
Lemma rd_pprev_ok h p v : pprv h p = Some v -> rd_pprev p h = Ret (v, h).
Proof. unfold pprv, rd_pprev. intros ?. hcase. Qed.
Lemma wr_first_ok h p v : is_head h p -> wr_first p v h = Ret (tt, hset_slot h p v).
Proof.
  unfold is_head, slot, pprv, wr_first. intros [[? Hs] ?]. destruct (h !! p) as [[o|o]|] eqn:E; [|done|done].
  unfold hset_slot. by erewrite insert_alter_id.
Qed.
Lemma wr_hnext_ok h p v : is_node h p -> wr_hnext p v h = Ret (tt, hset_slot h p v).
Proof.
  unfold is_node, pprv, wr_hnext. intros [? Hs]. destruct (h !! p) as [[o|o]|] eqn:E; [done| |done].
  unfold hset_slot. by erewrite insert_alter_id.
Qed.
Lemma wr_slot_ok h p v : is_Some (slot h p) -> wr_slot p v h = Ret (tt, hset_slot h p v).
Proof.
  unfold slot, wr_slot. intros [? Hs]. destruct (h !! p) as [[o|o]|] eqn:E; [| |done];
  unfold hset_slot; by erewrite insert_alter_id.
Qed.
Lemma wr_pprev_ok h p v : is_node h p -> wr_pprev p v h = Ret (tt, hset_pprev h p v).
Proof.
  unfold is_node, pprv, wr_pprev. intros [? Hs]. destruct (h !! p) as [[o|o]|] eqn:E; [done| |done].
  unfold hset_pprev. by erewrite insert_alter_id.
Qed.

(** Discharges a side condition on a store after some writes. *)
Ltac hval :=
  autorewrite with hstore; rewrite ?has_slot_set_slot, ?slot_set_pprev;
  repeat case_decide; simplify_eq/=; eauto with lprofile;
  repeat match goal with H : slot _ _ = Some _ |- _ => rewrite H | H : pprv _ _ = Some _ |- _ => rewrite H end;
  simpl; eauto with lprofile; try congruence.

(** Executes the access at the head of a monadic goal. *)
Ltac hstep :=
  match goal with
  | |- context [(wr_first ?p ?v ≫= _) ?h] => rewrite (bind_ret _ _ _ _ _ (wr_first_ok h p v ltac:(by hval)))
  | |- context [(wr_hnext ?p ?v ≫= _) ?h] => rewrite (bind_ret _ _ _ _ _ (wr_hnext_ok h p v ltac:(by hval)))
  | |- context [(wr_pprev ?p ?v ≫= _) ?h] => rewrite (bind_ret _ _ _ _ _ (wr_pprev_ok h p v ltac:(by hval)))
  | |- context [(wr_slot ?p ?v ≫= _) ?h] => rewrite (bind_ret _ _ _ _ _ (wr_slot_ok h p v ltac:(by hval)))
  | |- context [(rd_first ?p ≫= _) ?h] => erewrite (bind_ret (rd_first p)) by (apply rd_first_ok; [by hval|by hval])
  | |- context [(rd_hnext ?p ≫= _) ?h] => erewrite (bind_ret (rd_hnext p)) by (apply rd_hnext_ok; [by hval|by hval])
  | |- context [(rd_pprev ?p ≫= _) ?h] => erewrite (bind_ret (rd_pprev p)) by (apply rd_pprev_ok; by hval)
  | |- context [wr_first ?p ?v ?h] => rewrite (wr_first_ok h p v) by (by hval)
  | |- context [wr_hnext ?p ?v ?h] => rewrite (wr_hnext_ok h p v) by (by hval)
  | |- context [wr_pprev ?p ?v ?h] => rewrite (wr_pprev_ok h p v) by (by hval)
  | |- context [wr_slot ?p ?v ?h] => rewrite (wr_slot_ok h p v) by (by hval)
  end.

(** *** Segments *)

Lemma hseg_app h p a x b v :
  hseg h p (a ++ x :: b) v <-> hseg h p a x /\ pprv h x = Some (last_of a p) /\ hseg h x b v.
Proof.
  revert p. induction a as [|y a IH]; intros p; simpl; [done|].
  rewrite IH. unfold last_of. rewrite last_cons. destruct (last a); simpl; tauto.
Qed.

Lemma hseg_slot h p a v : hseg h p a v -> slot h (last_of a p) = Some v.
Proof.
  revert p. induction a as [|y a IH]; intros p; simpl; [done|]. intros (_ & _ & H).
  apply IH in H. unfold last_of in *. rewrite last_cons. by destruct (last a).
Qed.

(** A segment ends where it is made to; the rest of the store may change elsewhere. *)
Lemma hseg_frame h h' p ps v w :
  (forall y, y ∈ p :: ps -> y <> last_of ps p -> slot h' y = slot h y) ->
  (forall y, y ∈ ps -> pprv h' y = pprv h y) ->
  slot h' (last_of ps p) = Some w -> NoDup (p :: ps) ->
  hseg h p ps v -> hseg h' p ps w.
Proof.
  revert p. induction ps as [|x ps IH]; intros p Hs Hp Hl Hnd; simpl; [done|]. intros (H1 & H2 & H3).
  apply NoDup_cons in Hnd as [Hpx Hnd].
  assert (last_of (x :: ps) p = last_of ps x) as El.
  { unfold last_of. rewrite last_cons. by destruct (last ps). }
  rewrite El in Hs, Hl.
  pose proof (last_of_in x ps) as Hin.
  split_and!.
  - rewrite Hs; [done|set_solver|]. intros ->. by apply Hpx.
  - rewrite Hp; [done|set_solver].
  - apply IH; [|set_solver|done|done|done]. intros y Hy. apply Hs. set_solver.
Qed.

Lemma hseg_nodes h p ps v x : hseg h p ps v -> x ∈ ps -> is_node h x.
Proof.
  revert p. induction ps as [|y ps IH]; intros p; simpl; [set_solver|].
  intros (_ & H & Hr) [->|Hx]%elem_of_cons; eauto with lprofile.
Qed.

Lemma hlist_nodup h hd ps : is_hlist h hd ps -> NoDup (hd :: ps).
Proof.
  intros (Hh & Hnd & Hs). apply NoDup_cons. split; [|done]. intros Hin.
  eapply head_not_node; [exact Hh|]. by eapply hseg_nodes.
Qed.

(** *** Linking and unlinking

    What the three insertions have in common: [x] comes between the pointer at
    [q] and the object [v] it pointed to. *)
Definition linked (h h' : hstore) (q x v : Z) : Prop :=
  slot h' x = Some v /\ slot h' q = Some x /\ pprv h' x = Some q /\ (v <> NULL -> pprv h' v = Some x) /\
  (forall y, y <> x -> y <> q -> slot h' y = slot h y) /\
  (forall y, y <> x -> y <> v -> pprv h' y = pprv h y).

(** And the deletions: the pointer at [q] skips [x], which ends unhashed. *)
Definition unlinked (h h' : hstore) (q x v : Z) : Prop :=
  slot h' x = Some NULL /\ slot h' q = Some v /\ pprv h' x = Some NULL /\ (v <> NULL -> pprv h' v = Some q) /\
  (forall y, y <> x -> y <> q -> slot h' y = slot h y) /\
  (forall y, y <> x -> y <> v -> pprv h' y = pprv h y).

(** Operations change pointers, never what kind of object an address holds. *)
Definition same_kinds (h h' : hstore) : Prop :=
  (forall y, is_node h' y <-> is_node h y) /\ (forall y, is_head h' y <-> is_head h y) /\
  (h !! NULL = None -> h' !! NULL = None).

Lemma same_kinds_refl h : same_kinds h h.
Proof. split_and!; done. Qed.
Lemma same_kinds_slot h h' p v : same_kinds h h' -> same_kinds h (hset_slot h' p v).
Proof.
  intros (Hn & Hh & H0). split_and!.
  - intros y. by autorewrite with hstore.
  - intros y. by autorewrite with hstore.
  - intros E. unfold hset_slot. rewrite lookup_alter. destruct (decide (p = NULL)); subst; by rewrite (H0 E).
Qed.
Lemma same_kinds_pprev h h' p v : same_kinds h h' -> same_kinds h (hset_pprev h' p v).
Proof.
  intros (Hn & Hh & H0). split_and!.
  - intros y. by autorewrite with hstore.
  - intros y. by autorewrite with hstore.
  - intros E. unfold hset_pprev. rewrite lookup_alter. destruct (decide (p = NULL)); subst; by rewrite (H0 E).
Qed.
#[export] Hint Resolve same_kinds_refl same_kinds_slot same_kinds_pprev : lprofile.

(** Closes a goal on the final store of an operation. *)
Ltac hdone := split_and!; intros; hval; eauto with lprofile.

Lemma hlist_add_head_spec h n hd v :
  is_node h n -> is_head h hd -> slot h hd = Some v -> v <> n -> n <> hd -> (v <> NULL -> is_node h v) ->
  exists h', hlist_add_head n hd h = Ret (tt, h') /\ linked h h' hd n v /\ same_kinds h h'.
Proof.
  intros Hn Hh Hs Hv Hnh Hvn. pose proof (node_slot _ _ Hn) as [s0 Es]. destruct Hn as [p0 Ep].
  unfold hlist_add_head. do 2 hstep. destruct (Z.eqb_spec v NULL) as [->|Hv0]; simpl.
  - unfold mbind at 1, M_bind at 1. simpl. do 2 hstep. eexists. split; [done|]. unfold linked. hdone.
  - destruct (Hvn Hv0) as [pv Epv]. do 3 hstep. eexists. split; [done|]. unfold linked. hdone.
Qed.

Lemma hlist_add_before_spec h n nx q :
  is_node h n -> pprv h nx = Some q -> is_Some (slot h q) -> n <> nx -> n <> q ->
  exists h', hlist_add_before n nx h = Ret (tt, h') /\ linked h h' q n nx /\ same_kinds h h'.
Proof.
  intros Hn Hp Hq Hne Hnq. pose proof (node_slot _ _ Hn) as [s0 Es]. destruct Hn as [p0 Ep], Hq as [sq Eq].
  unfold hlist_add_before. do 6 hstep. eexists. split; [done|]. unfold linked. hdone.
Qed.

Lemma hlist_add_behind_spec h n q v :
  is_node h n -> is_node h q -> slot h q = Some v -> v <> n -> n <> q -> (v <> NULL -> is_node h v) ->
  exists h', hlist_add_behind n q h = Ret (tt, h') /\ linked h h' q n v /\ same_kinds h h'.
Proof.
  intros Hn [pq Eq] Hs Hv Hnq Hvn. pose proof (node_slot _ _ Hn) as [s0 Es]. destruct Hn as [p0 Ep].
  unfold hlist_add_behind. do 5 hstep. destruct (Z.eqb_spec v NULL) as [->|Hv0]; simpl.
  - eexists. split; [done|]. unfold linked. hdone.
  - destruct (Hvn Hv0) as [pv Epv]. do 2 hstep. eexists. split; [done|]. unfold linked. hdone.
Qed.

(** The common part of both deletions, for a node that is on a list. *)
Lemma hlist_unlink_spec h n q v :
  slot h n = Some v -> pprv h n = Some q -> is_Some (slot h q) -> v <> n -> n <> q ->
  (v <> NULL -> is_node h v) ->
  exists h', (__hlist_del n ;; INIT_HLIST_NODE n) h = Ret (tt, h') /\ unlinked h h' q n v /\ same_kinds h h'.
Proof.
  intros Es Ep [sq Eq] Hvn Hnq Hv. unfold __hlist_del, INIT_HLIST_NODE.
  unfold mbind at 1, M_bind at 1. do 3 hstep. destruct (Z.eqb_spec v NULL) as [->|Hv0]; simpl.
  - do 2 hstep. eexists. split; [done|]. unfold unlinked. hdone.
  - destruct (Hv Hv0) as [pv Epv]. do 3 hstep. eexists. split; [done|]. unfold unlinked. hdone.
Qed.

(** *** Tables of lists *)

(** Two heads never share a node: the back pointers lead to one head only. *)
Lemma hseg_head_unique h d1 d2 a1 a2 x v1 v2 :
  is_head h d1 -> is_head h d2 -> hseg h d1 (a1 ++ [x]) v1 -> hseg h d2 (a2 ++ [x]) v2 -> d1 = d2.
Proof.
  intros H1 H2. revert a2 x v1 v2. induction a1 as [|y1 a1 IH] using rev_ind; intros a2 x v1 v2 S1 S2;
    apply hseg_app in S1 as (S1 & P1 & _); apply hseg_app in S2 as (S2 & P2 & _); rewrite P1 in P2;
    destruct a2 as [|y2 a2 _] using rev_ind; unfold last_of in P2; rewrite ?last_snoc in P2;
    injection P2 as P2; simpl in P2; subst.
  - done.
  - exfalso. eapply head_not_node; [exact H1|]. eapply hseg_nodes; [exact S2|]. set_solver.
  - exfalso. eapply head_not_node; [exact H2|]. eapply hseg_nodes; [exact S1|]. set_solver.
  - by eapply IH.
Qed.

Lemma hseg_prefix h p a x b v : hseg h p (a ++ x :: b) v -> exists w, hseg h p (a ++ [x]) w.
Proof.
  rewrite hseg_app. intros (S1 & P & S2). destruct b as [|y b]; simpl in S2; eexists; apply hseg_app; simpl;
    split_and!; try done; by destruct S2.
Qed.

Lemma table_owner h T d1 d2 p1 p2 x :
  is_htable h T -> T !! d1 = Some p1 -> T !! d2 = Some p2 -> x ∈ p1 -> x ∈ p2 -> d1 = d2.
Proof.
  intros (_ & HT & _) E1 E2 (a1 & b1 & ->)%list_elem_of_split (a2 & b2 & ->)%list_elem_of_split.
  destruct (HT _ _ E1) as (K1 & _ & S1), (HT _ _ E2) as (K2 & _ & S2).
  apply hseg_prefix in S1 as [w1 S1], S2 as [w2 S2]. by eapply hseg_head_unique.
Qed.

Lemma table_node h T hd ps x : is_htable h T -> T !! hd = Some ps -> x ∈ ps -> is_node h x.
Proof. intros (_ & HT & _) E Hx. destruct (HT _ _ E) as (_ & _ & S). by eapply hseg_nodes. Qed.
Lemma table_head h T hd ps : is_htable h T -> T !! hd = Some ps -> is_head h hd.
Proof. intros (_ & HT & _) E. by destruct (HT _ _ E). Qed.
Lemma node_not_null h T x : is_htable h T -> is_node h x -> x <> NULL.
Proof. intros (H0 & _) Hx ->. unfold is_node, pprv in Hx. rewrite H0 in Hx. by destruct Hx. Qed.

(** A list none of whose pointers changed is still there. *)
Lemma hlist_frame h h' hd ps :
  same_kinds h h' -> (forall y, y ∈ hd :: ps -> slot h' y = slot h y) ->
  (forall y, y ∈ ps -> pprv h' y = pprv h y) -> is_hlist h hd ps -> is_hlist h' hd ps.
Proof.
  intros (_ & Hk & _) Hs Hp HL. pose proof (hlist_nodup _ _ _ HL) as Hnd. destruct HL as (Hh & Hn & S).
  split_and!; [by apply Hk|done|]. eapply (hseg_frame h); [| |rewrite Hs|done|exact S]; auto.
  - by apply hseg_slot.
  - apply last_of_in.
Qed.

(** The lists of the heads other than [hd] survive a change that touches only
    pointers of the list of [hd] and of the node [x] outside all others. *)
Lemma table_update h h' T hd ps ps' x q v :
  is_htable h T -> same_kinds h h' -> T !! hd = Some ps -> is_hlist h' hd ps' ->
  is_node h x -> (forall d l, T !! d = Some l -> d <> hd -> x ∉ l) ->
  q ∈ hd :: ps -> (v = NULL \/ v ∈ ps) ->
  (forall y, y <> x -> y <> q -> slot h' y = slot h y) ->
  (forall y, y <> x -> y <> v -> pprv h' y = pprv h y) ->
  (forall y, y ∈ ps -> y <> x -> y ∈ ps') ->
  (x ∉ ps' -> slot h' x = Some NULL /\ pprv h' x = Some NULL) ->
  is_htable h' (<[hd := ps']> T).
Proof.
  intros HT HK E HL Hx Hfr Hq Hv Hs Hp Hkeep Hout. pose proof HT as (H0 & HTl & HTn). split_and!.
  - by apply HK.
  - intros d l. rewrite lookup_insert. destruct (decide (hd = d)) as [->|Hne]; [by intros [= <-]|]. intros Ed.
    assert (x ∉ l) as Hxl by eauto. assert (is_head h d) as Hd by eauto using table_head.
    assert (is_head h hd) as Hhd by eauto using table_head.
    apply (hlist_frame h); [done| | |by apply HTl].
    + intros y Hy. apply Hs; intros ->.
      * apply elem_of_cons in Hy as [->|]; [exact (head_not_node h d Hd Hx)|done].
      * apply elem_of_cons in Hy, Hq. destruct Hy as [Ey|Hy], Hq as [Eq|Hq].
        -- congruence.
        -- subst q. exact (head_not_node h d Hd (table_node _ _ _ _ _ HT E Hq)).
        -- subst q. exact (head_not_node h hd Hhd (table_node _ _ _ _ _ HT Ed Hy)).
        -- by apply Hne, (table_owner h T hd d ps l q).
    + intros y Hy. apply Hp; [by intros ->|]. intros ->. destruct Hv as [->|Hv].
      * by eapply node_not_null; [|eapply table_node|].
      * by apply Hne, (table_owner h T hd d ps l v).
  - intros y Hy Hny. assert (y ∉ ps') as Hyp.
    { intros Hin. apply Hny. exists hd, ps'. by rewrite lookup_insert_eq. }
    apply (proj1 HK) in Hy. destruct (decide (y = x)) as [->|Hyx]; [by apply Hout|].
    assert (y ∉ ps) as Hyps by (intros ?; apply Hyp; auto).
    assert (y <> q).
    { intros ->. apply elem_of_cons in Hq as [->|]; [|done]. eapply head_not_node; [|exact Hy]. by eapply table_head. }
    assert (y <> v). { intros ->. destruct Hv as [->|]; [|done]. by eapply node_not_null. }
    rewrite Hs, Hp by done. apply HTn; [done|]. intros (d & l & Ed & Hl). apply Hny. exists d, l.
    split; [|done]. rewrite lookup_insert_ne; [done|]. intros ->. congruence.
Qed.

Lemma hseg_split h p a b : hseg h p (a ++ b) NULL -> hseg h p a (hd_of b NULL).
Proof. destruct b as [|y b]; [by rewrite app_nil_r|]. rewrite hseg_app. tauto. Qed.

(** The rest of a list, when its pointers did not change. *)
Lemma hseg_tail h h' p y b :
  hseg h y b NULL -> NoDup (y :: b) -> (forall z, z ∈ y :: b -> slot h' z = slot h z) ->
  (forall z, z ∈ b -> pprv h' z = pprv h z) -> slot h' p = Some y -> pprv h' y = Some p ->
  hseg h' p (y :: b) NULL.
Proof.
  intros S Hnd Hs Hp E1 E2. split_and!; [done|done|].
  eapply (hseg_frame h); [| |rewrite Hs|done|exact S]; auto; [by apply hseg_slot|apply last_of_in].
Qed.

(** The pieces of a list around a place. *)
Lemma nodup_pieces {A} (hd : A) a b :
  NoDup (hd :: a ++ b) -> NoDup (hd :: a) /\ NoDup b /\ (forall y, y ∈ b -> y ∉ hd :: a).
Proof. rewrite app_comm_cons, NoDup_app. intros (H1 & H2 & H3). split_and!; [done|done|]. intros y Hb Ha. by apply (H2 y). Qed.

Lemma link_hlist h h' hd a x b :
  is_hlist h hd (a ++ b) -> is_node h x -> same_kinds h h' -> x ∉ a ++ b -> h !! NULL = None ->
  linked h h' (last_of a hd) x (hd_of b NULL) -> is_hlist h' hd (a ++ x :: b).
Proof.
  intros HL Hn HK Hx H0 (Lx & Lq & Px & Pv & Fs & Fp). pose proof (hlist_nodup _ _ _ HL) as Hnd.
  destruct HL as (Hh & _ & S). assert (x <> hd) by (intros ->; by eapply (head_not_node h hd)).
  apply nodup_pieces in Hnd as (Na & Nb & Hd). pose proof (last_of_in hd a) as Hla.
  assert (forall y, y ∈ a ++ b -> y <> NULL) as Hnn.
  { intros y Hy ->. destruct (hseg_nodes _ _ _ _ _ S Hy) as [w E]. unfold pprv in E. by rewrite H0 in E. }
  split_and!; [by apply HK| |].
  { apply NoDup_app. apply NoDup_cons in Na as [? ?]. split_and!; [done|set_solver|apply NoDup_cons; set_solver]. }
  apply hseg_app. split_and!; [|done|].
  - apply (hseg_frame h _ _ _ (hd_of b NULL)); [| |done|done|by apply hseg_split].
    + intros y Hy Hyl. apply Fs; [set_solver|done].
    + intros y Hy. apply Fp; [set_solver|]. intros ->. destruct b as [|y b]; simpl in Hy.
      * apply (Hnn NULL); [set_solver|done].
      * apply (Hd y); set_solver.
  - destruct b as [|y b]; [done|]. apply hseg_app in S as (_ & _ & S).
    apply (hseg_tail h); [done|done| | |done|by apply Pv, Hnn; set_solver].
    + intros z Hz. apply Fs; [set_solver|]. intros ->. by apply (Hd _ Hz).
    + intros z Hz. apply Fp; [set_solver|]. intros ->. apply NoDup_cons in Nb as [? ?]. done.
Qed.

Lemma unlink_hlist h h' hd a x b :
  is_hlist h hd (a ++ x :: b) -> same_kinds h h' -> h !! NULL = None ->
  unlinked h h' (last_of a hd) x (hd_of b NULL) -> is_hlist h' hd (a ++ b).
Proof.
  intros HL HK H0 (Lx & Lq & Px & Pv & Fs & Fp). pose proof (hlist_nodup _ _ _ HL) as Hnd.
  destruct HL as (Hh & _ & S). apply nodup_pieces in Hnd as (Na & Nb & Hd). pose proof (last_of_in hd a) as Hla.
  assert (forall y, y ∈ a ++ x :: b -> y <> NULL) as Hnn.
  { intros y Hy ->. destruct (hseg_nodes _ _ _ _ _ S Hy) as [w E]. unfold pprv in E. by rewrite H0 in E. }
  assert (x ∉ hd :: a) as Hxa by (apply Hd; set_solver). apply NoDup_cons in Nb as [Hxb Nb].
  apply hseg_app in S as (Sa & _ & Sb). split_and!; [by apply HK| |].
  { apply NoDup_app. apply NoDup_cons in Na as [? ?]. split_and!; [done|set_solver|done]. }
  assert (hseg h' hd a (hd_of b NULL)) as Sa'.
  { apply (hseg_frame h _ _ _ x); [| |done|done|done].
    - intros y Hy Hyl. apply Fs; [set_solver|done].
    - intros y Hy. apply Fp; [set_solver|]. intros ->. destruct b as [|y b]; simpl in Hy.
      + apply (Hnn NULL); [set_solver|done].
      + apply (Hd y); set_solver. }
  destruct b as [|y b]; [by rewrite app_nil_r|]. apply hseg_app. destruct Sb as (_ & _ & Sb).
  assert (pprv h' y = Some (last_of a hd)) as Py by (apply Pv, Hnn; set_solver).
  split_and!; [done|done|]. apply (hseg_tail h h' (last_of a hd)); [done|done| | |done|done].
  - intros z Hz. apply Fs; [set_solver|]. intros ->. eapply (Hd (last_of a hd)); [set_solver|done].
  - intros z Hz. apply NoDup_cons in Nb as [? ?]. apply Fp; [set_solver|]. intros ->. done.
Qed.

Lemma hd_of_elem b : hd_of b NULL = NULL \/ hd_of b NULL ∈ b.
Proof. destruct b; simpl; [by left|right; set_solver]. Qed.

(** Linking and unlinking on a whole table. *)
Lemma link_table h h' T hd a x b :
  is_htable h T -> T !! hd = Some (a ++ b) -> ~ in_table T x -> is_node h x -> same_kinds h h' ->
  linked h h' (last_of a hd) x (hd_of b NULL) -> is_htable h' (<[hd := a ++ x :: b]> T).
Proof.
  intros HT E Hx Hn HK HLn. assert (x ∉ a ++ b) as Hxab by (intros ?; apply Hx; by exists hd, (a ++ b)).
  pose proof HT as (H0 & HTl & _). pose proof HLn as (_ & _ & _ & _ & Fs & Fp).
  eapply (table_update h h' T hd (a ++ b) _ x); [done|done|done| |done| | | |exact Fs|exact Fp| |].
  - by eapply link_hlist; eauto.
  - intros d l Ed _ Hl. apply Hx. by exists d, l.
  - pose proof (last_of_in hd a). set_solver.
  - destruct (hd_of_elem b); [by left|right]. set_solver.
  - set_solver.
  - set_solver.
Qed.

Lemma unlink_table h h' T hd a x b :
  is_htable h T -> T !! hd = Some (a ++ x :: b) -> same_kinds h h' ->
  unlinked h h' (last_of a hd) x (hd_of b NULL) -> is_htable h' (<[hd := a ++ b]> T).
Proof.
  intros HT E HK HLn. pose proof HT as (H0 & HTl & _). pose proof HLn as (Lx & _ & Px & _ & Fs & Fp).
  eapply (table_update h h' T hd (a ++ x :: b) _ x); [done|done|done| | | | | |exact Fs|exact Fp| |].
  - by eapply unlink_hlist; eauto.
  - eapply table_node; [done|exact E|set_solver].
  - intros d l Ed Hne Hl. apply Hne. eapply (table_owner h T d hd); eauto. set_solver.
  - pose proof (last_of_in hd a). set_solver.
  - destruct (hd_of_elem b); [by left|right]. set_solver.
  - set_solver.
  - done.
Qed.

(** What a table says about the pointers around a place of a list. *)
Lemma table_place h T hd a b :
  is_htable h T -> T !! hd = Some (a ++ b) ->
  slot h (last_of a hd) = Some (hd_of b NULL) /\ (hd_of b NULL <> NULL -> is_node h (hd_of b NULL)) /\
  (hd_of b NULL <> NULL -> pprv h (hd_of b NULL) = Some (last_of a hd)).
Proof.
  intros HT E. pose proof HT as (_ & HTl & _). destruct (HTl _ _ E) as (_ & _ & S). split_and!.
  - by apply hseg_slot, hseg_split.
  - destruct b as [|y b]; simpl; [done|]. intros _. eapply table_node; [done|exact E|set_solver].
  - destruct b as [|y b]; simpl; [done|]. intros _. by apply hseg_app in S as (_ & ? & _).
Qed.

(** ** Programs over a table of lists

    [abs_hop] is what an operation promises on the table of sequences, [None]
    when its precondition does not hold. *)
Inductive hop : Type :=
| HAddHead (x hd : Z)
| HAddBefore (x y : Z)
| HAddBehind (x y : Z)
| HDel (x : Z)
| HDelInit (x : Z)
| HMove (old new : Z).

Definition run_hop (op : hop) : M hstore unit :=
  match op with
  | HAddHead x hd => hlist_add_head x hd
  | HAddBefore x y => hlist_add_before x y
  | HAddBehind x y => hlist_add_behind x y
  | HDel x => hlist_del x
  | HDelInit x => hlist_del_init x
  | HMove old new => hlist_move_list old new
  end.

Definition run_hops (ops : list hop) : M hstore unit := forM ops run_hop.

Definition ins_before (x y : Z) (ps : list Z) : list Z :=
  match split_at y ps with Some (a, b) => a ++ x :: y :: b | None => ps end.
Definition ins_behind (x y : Z) (ps : list Z) : list Z :=
  match split_at y ps with Some (a, b) => a ++ y :: x :: b | None => ps end.
Definition remove1 (x : Z) (ps : list Z) : list Z :=
  match split_at x ps with Some (a, b) => a ++ b | None => ps end.

Definition outside (T : gmap Z (list Z)) (x : Z) : bool := bool_decide (map_Forall (fun _ ps => x ∉ ps) T).

Definition abs_hop (op : hop) (T : gmap Z (list Z)) : option (gmap Z (list Z)) :=
  match op with
  | HAddHead x hd => if outside T x then ps ← T !! hd; Some (<[hd := x :: ps]> T) else None
  | HAddBefore x y => if outside T x && negb (outside T y) then Some (ins_before x y <$> T) else None
  | HAddBehind x y => if outside T x && negb (outside T y) then Some (ins_behind x y <$> T) else None
  | HDel x => if negb (outside T x) then Some (remove1 x <$> T) else None
  | HDelInit x => Some (remove1 x <$> T)
  | HMove old new =>
      ps ← T !! old; qs ← T !! new;
      if negb (old =? new) && bool_decide (qs = []) then Some (<[new := ps]> (<[old := []]> T)) else None
  end.

Fixpoint abs_hops (ops : list hop) (T : gmap Z (list Z)) : option (gmap Z (list Z)) :=
  match ops with
  | [] => Some T
  | op :: ops' => T' ← abs_hop op T; abs_hops ops' T'
  end.

(** The address an operation takes to be a node. *)
Definition hop_node (op : hop) : list Z :=
  match op with
  | HAddHead x _ | HAddBefore x _ | HAddBehind x _ | HDel x | HDelInit x => [x]
  | HMove _ _ => []
  end.

Lemma outside_spec T x : if outside T x then ~ in_table T x else in_table T x.
Proof.
  unfold outside. case_bool_decide as H.
  - intros (hd & ps & E & Hx). by apply (H hd ps E).
  - apply map_not_Forall in H as (hd & ps & E & Hx); [|intros; apply _]. exists hd, ps. split; [done|].
    by destruct (decide (x ∈ ps)).
Qed.

Lemma split_at_None x ps : split_at x ps = None -> x ∉ ps.
Proof.
  induction ps as [|y r IH]; simpl; [set_solver|]. destruct (y =? x) eqn:E; [done|]. zbool.
  destruct (split_at x r) as [[]|]; [done|]. set_solver.
Qed.
Lemma split_at_notin x ps : x ∉ ps -> split_at x ps = None.
Proof.
  destruct (split_at x ps) as [[a b]|] eqn:E; [|done]. apply split_at_spec in E as ->. set_solver.
Qed.

(** A function on sequences that changes only those with [y], applied to all. *)
Lemma table_fmap_at h T hd a b y f ps' :
  is_htable h T -> T !! hd = Some (a ++ y :: b) -> (forall ps, y ∉ ps -> f ps = ps) -> f (a ++ y :: b) = ps' ->
  f <$> T = <[hd := ps']> T.
Proof.
  intros HT E Hf <-. apply map_eq. intros d. rewrite lookup_fmap, lookup_insert.
  destruct (decide (hd = d)) as [->|Hne]; [by rewrite E|]. destruct (T !! d) as [l|] eqn:Ed; simpl; [|done].
  f_equal. apply Hf. intros Hl. apply Hne. eapply (table_owner h T hd d); eauto. set_solver.
Qed.

(** An element of the table, with its place. *)
Lemma in_table_split T x :
  in_table T x -> exists hd a b, T !! hd = Some (a ++ x :: b) /\ split_at x (a ++ x :: b) = Some (a, b).
Proof.
  intros (hd & ps & E & Hx). destruct (split_at x ps) as [[a b]|] eqn:Es; [|by apply split_at_None in Es].
  pose proof (split_at_spec _ _ _ _ Es) as ->. by exists hd, a, b.
Qed.
Lemma fmap_outside T x f : ~ in_table T x -> (forall ps, x ∉ ps -> f ps = ps) -> f <$> T = T.
Proof.
  intros Hx Hf. apply map_eq. intros d. rewrite lookup_fmap. destruct (T !! d) as [l|] eqn:E; simpl; [|done].
  f_equal. apply Hf. intros ?. apply Hx. by exists d, l.
Qed.
Lemma remove1_id x ps : x ∉ ps -> remove1 x ps = ps.
Proof. intros. unfold remove1. by rewrite split_at_notin. Qed.

(** Places of a table are not the node that is being added. *)
Lemma place_ne h T hd a b x :
  is_htable h T -> T !! hd = Some (a ++ b) -> is_node h x -> ~ in_table T x ->
  x <> last_of a hd /\ hd_of b NULL <> x.
Proof.
  intros HT E Hn Hx. assert (x ∉ a ++ b) as Hab by (intros ?; apply Hx; by exists hd, (a ++ b)). split.
  - intros ->. pose proof (last_of_in hd a) as [Eq|?]%elem_of_cons; [|set_solver].
    rewrite Eq in Hn. eapply head_not_node; [eapply table_head; done|exact Hn].
  - intros <-. destruct b; simpl in *; [by eapply node_not_null|set_solver].
Qed.

(** *** Each operation on a table *)

Lemma hop_add_head h T x hd ps :
  is_htable h T -> ~ in_table T x -> is_node h x -> T !! hd = Some ps ->
  exists h', hlist_add_head x hd h = Ret (tt, h') /\ is_htable h' (<[hd := x :: ps]> T) /\ same_kinds h h'.
Proof.
  intros HT Hx Hn E. destruct (table_place h T hd [] ps HT E) as (Es & Hv & _).
  destruct (place_ne h T hd [] ps x HT E Hn Hx) as [N1 N2].
  destruct (hlist_add_head_spec h x hd (hd_of ps NULL)) as (h' & Er & HL & HK); eauto using table_head.
  exists h'. split_and!; [done| |done]. by apply (link_table h h' T hd [] x ps).
Qed.

Lemma hop_add_before h T x y :
  is_htable h T -> ~ in_table T x -> is_node h x -> in_table T y ->
  exists h', hlist_add_before x y h = Ret (tt, h') /\ is_htable h' (ins_before x y <$> T) /\ same_kinds h h'.
Proof.
  intros HT Hx Hn Hy. destruct (in_table_split _ _ Hy) as (hd & a & b & E & Es).
  destruct (place_ne h T hd a (y :: b) x HT E Hn Hx) as [N1 N2]. simpl in N2.
  destruct (table_place h T hd a (y :: b) HT E) as (Sq & _ & Py). simpl in *.
  assert (is_node h y) as Hny by (eapply table_node; [done|exact E|set_solver]).
  destruct (hlist_add_before_spec h x y (last_of a hd)) as (h' & Er & HL & HK); eauto using node_not_null.
  exists h'. split_and!; [done| |done].
  rewrite (table_fmap_at h T hd a b y _ (a ++ x :: y :: b)); [|done|done| |].
  - by apply (link_table h h' T hd a x (y :: b)).
  - intros ps Hps. unfold ins_before. by rewrite split_at_notin.
  - unfold ins_before. by rewrite Es.
Qed.

Lemma hop_add_behind h T x y :
  is_htable h T -> ~ in_table T x -> is_node h x -> in_table T y ->
  exists h', hlist_add_behind x y h = Ret (tt, h') /\ is_htable h' (ins_behind x y <$> T) /\ same_kinds h h'.
Proof.
  intros HT Hx Hn Hy. destruct (in_table_split _ _ Hy) as (hd & a & b & E & Es).
  pose proof E as E'. replace (a ++ y :: b) with ((a ++ [y]) ++ b) in E' by (by rewrite <- app_assoc).
  destruct (place_ne h T hd (a ++ [y]) b x HT E' Hn Hx) as [N1 N2].
  destruct (table_place h T hd (a ++ [y]) b HT E') as (Sq & Hv & _).
  pose proof (fun h' => link_table h h' T hd (a ++ [y]) x b HT E' Hx Hn) as HLt.
  unfold last_of in N1, Sq, HLt. rewrite last_snoc in N1, Sq, HLt. simpl in *.
  assert (is_node h y) as Hny by (eapply table_node; [done|exact E|set_solver]).
  destruct (hlist_add_behind_spec h x y (hd_of b NULL)) as (h' & Er & HL & HK); eauto.
  exists h'. split_and!; [done| |done].
  rewrite (table_fmap_at h T hd a b y _ (a ++ y :: x :: b)); [|done|done| |].
  - replace (a ++ y :: x :: b) with ((a ++ [y]) ++ x :: b) by (by rewrite <- app_assoc). by apply HLt.
  - intros ps Hps. unfold ins_behind. by rewrite split_at_notin.
  - unfold ins_behind. by rewrite Es.
Qed.

Lemma hop_unlink h T x :
  is_htable h T -> in_table T x ->
  exists h', (__hlist_del x ;; INIT_HLIST_NODE x) h = Ret (tt, h') /\ is_htable h' (remove1 x <$> T) /\ same_kinds h h'.
Proof.
  intros HT Hx. destruct (in_table_split _ _ Hx) as (hd & a & b & E & Es).
  assert (is_node h x) as Hn by (eapply table_node; [done|exact E|set_solver]).
  destruct (table_place h T hd a (x :: b) HT E) as (Sq & _ & Px). simpl in *.
  specialize (Px (node_not_null _ _ _ HT Hn)).
  pose proof E as E'. replace (a ++ x :: b) with ((a ++ [x]) ++ b) in E' by (by rewrite <- app_assoc).
  destruct (table_place h T hd (a ++ [x]) b HT E') as (Sx & Hv & _).
  unfold last_of at 1 in Sx. rewrite last_snoc in Sx. simpl in Sx.
  assert (NoDup (hd :: a ++ x :: b)) as (_ & Nb & Hd)%nodup_pieces by (eapply hlist_nodup, HT, E).
  destruct (hlist_unlink_spec h x (last_of a hd) (hd_of b NULL)) as (h' & Er & HL & HK); [done|done|eauto| | |done|].
  - apply NoDup_cons in Nb as [Hxb _]. destruct b; simpl; [intros <-; by eapply node_not_null|set_solver].
  - intros Exq. apply (Hd x); [set_solver|]. rewrite Exq. apply last_of_in.
  - exists h'. split_and!; [done| |done].
    rewrite (table_fmap_at h T hd a b x _ (a ++ b)); [by eapply unlink_table|done|done|apply remove1_id|].
    unfold remove1. by rewrite Es.
Qed.

(** [hlist_unhashed] tells exactly whether a node is on no list of the table. *)
Lemma hlist_unhashed_spec h T x :
  is_htable h T -> is_node h x -> hlist_unhashed x h = Ret (outside T x, h).
Proof.
  intros HT [p Ep]. unfold hlist_unhashed. hstep. pose proof (outside_spec T x) as Ho.
  enough ((p =? NULL) = outside T x) as -> by done. destruct (outside T x).
  - destruct HT as (_ & _ & HTn). destruct (HTn x) as [_ E]; [by eexists|done|]. rewrite E in Ep. injection Ep as <-. done.
  - destruct (in_table_split _ _ Ho) as (hd & a & b & E & _).
    destruct (table_place h T hd a (x :: b) HT E) as (Sq & _ & Px). simpl in Px.
    rewrite Px in Ep by (eapply node_not_null; [done|by eexists]). injection Ep as <-. apply Z.eqb_neq. intros E0.
    rewrite E0 in Sq. destruct HT as (H0 & _). unfold slot in Sq. by rewrite H0 in Sq.
Qed.

Lemma hop_del_init h T x :
  is_htable h T -> is_node h x ->
  exists h', hlist_del_init x h = Ret (tt, h') /\ is_htable h' (remove1 x <$> T) /\ same_kinds h h'.
Proof.
  intros HT Hn. unfold hlist_del_init. rewrite (bind_ret _ _ _ _ _ (hlist_unhashed_spec _ _ _ HT Hn)).
  pose proof (outside_spec T x) as Ho. destruct (outside T x); simpl; [|by apply hop_unlink].
  exists h. split_and!; [done| |apply same_kinds_refl]. by rewrite (fmap_outside T x) by (done || apply remove1_id).
Qed.

(** What moving a list does to the pointers; [v] is the first node. *)
Definition moved (h h' : hstore) (old new v : Z) : Prop :=
  slot h' old = Some NULL /\ slot h' new = Some v /\ (v <> NULL -> pprv h' v = Some new) /\
  (forall y, y <> old -> y <> new -> slot h' y = slot h y) /\
  (forall y, y <> v -> pprv h' y = pprv h y).

Lemma hlist_move_list_spec h old new v :
  is_head h old -> is_head h new -> old <> new -> slot h old = Some v -> (v <> NULL -> is_node h v) ->
  exists h', hlist_move_list old new h = Ret (tt, h') /\ moved h h' old new v /\ same_kinds h h'.
Proof.
  intros Ho Hn Hne So Hv. pose proof (head_slot _ _ Hn) as [sn En]. unfold hlist_move_list. do 3 hstep.
  destruct (Z.eqb_spec v NULL) as [->|E0]; simpl.
  - unfold mbind at 1, M_bind at 1. simpl. hstep. eexists. split; [done|]. unfold moved. hdone.
  - destruct (Hv E0) as [pv Epv]. unfold mbind at 1, M_bind at 1. do 3 hstep. eexists. split; [done|].
    unfold moved. hdone.
Qed.

Lemma hop_move h T old new ps :
  is_htable h T -> T !! old = Some ps -> T !! new = Some [] -> old <> new ->
  exists h', hlist_move_list old new h = Ret (tt, h') /\
    is_htable h' (<[new := ps]> (<[old := []]> T)) /\ same_kinds h h'.
Proof.
  intros HT Eo En Hne. pose proof HT as (H0 & HTl & HTn).
  pose proof (table_head _ _ _ _ HT Eo) as Ho. pose proof (table_head _ _ _ _ HT En) as Hn.
  destruct (table_place h T old [] ps HT Eo) as (So & Hv & _). change (last_of [] old) with old in So.
  destruct (hlist_move_list_spec h old new (hd_of ps NULL)) as (h' & Er & (S1 & S2 & P1 & Fs & Fp) & HK); [done..|].
  exists h'. split_and!; [done| |done].
  assert (forall y, is_node h y -> slot h' y = slot h y) as Fn.
  { intros y Hy. apply Fs; intros ->; revert Hy; by apply head_not_node. }
  split_and!; [by apply HK| |].
  - intros d l. rewrite !lookup_insert. destruct (decide (new = d)) as [<-|Nn].
    + intros [= <-]. destruct (HTl _ _ Eo) as (_ & Nps & S). split_and!; [by apply HK|done|].
      destruct ps as [|y b]; [done|]. assert (is_node h y) by (eapply table_node; [done|exact Eo|set_solver]).
      apply (hseg_tail h); [by destruct S as (_ & _ & S)|done| | |done|by apply P1; eapply node_not_null].
      * intros z Hz. apply Fn. exact (table_node _ _ _ _ _ HT Eo Hz).
      * intros z Hz. apply Fp. apply NoDup_cons in Nps as [? _]. simpl. by intros ->.
    + destruct (decide (old = d)) as [<-|No].
      { intros [= <-]. split_and!; [by apply HK|constructor|done]. }
      intros Ed. apply (hlist_frame h); [done| | |by apply HTl].
      * intros y [->|Hy]%elem_of_cons; [by apply Fs|]. apply Fn. exact (table_node _ _ _ _ _ HT Ed Hy).
      * intros y Hy. apply Fp. intros ->. destruct (hd_of_elem ps) as [E|Hp].
        -- exact (node_not_null _ _ _ HT (table_node _ _ _ _ _ HT Ed Hy) E).
        -- by apply No, (table_owner h T old d ps l (hd_of ps NULL)).
  - intros y Hy Hny. apply (proj1 HK) in Hy. assert (~ in_table T y) as Hy'.
    { intros (d & l & Ed & Hl). apply Hny. destruct (decide (d = old)) as [->|No].
      - exists new, ps. rewrite lookup_insert_eq. split; [done|congruence].
      - exists d, l. rewrite !lookup_insert_ne; [done|done|]. intros ->. simplify_eq. set_solver. }
    rewrite Fn, Fp; auto. intros ->. destruct (hd_of_elem ps); [by eapply node_not_null|].
    apply Hy'. by exists old, ps.
Qed.

(** ** The theorems *)

Lemma hop_refines h T op T' :
  is_htable h T -> abs_hop op T = Some T' -> (forall x, x ∈ hop_node op -> is_node h x) ->
  exists h', run_hop op h = Ret (tt, h') /\ is_htable h' T' /\ same_kinds h h'.
Proof.
  intros HT HA Hn. destruct op as [x hd|x y|x y|x|x|old new]; simpl in *;
    try (pose proof (outside_spec T x) as Hx; assert (is_node h x) by set_solver).
  - destruct (outside T x); [|done]. destruct (T !! hd) as [ps|] eqn:E; [|done]. injection HA as <-.
    by apply hop_add_head.
  - pose proof (outside_spec T y) as Hy. destruct (outside T x), (outside T y); try done. injection HA as <-.
    by apply hop_add_before.
  - pose proof (outside_spec T y) as Hy. destruct (outside T x), (outside T y); try done. injection HA as <-.
    by apply hop_add_behind.
  - destruct (outside T x); [done|]. injection HA as <-. by apply hop_unlink.
  - injection HA as <-. by apply hop_del_init.
  - destruct (T !! old) as [ps|] eqn:Eo; [|done]. destruct (T !! new) as [qs|] eqn:En; [|done]. simpl in HA.
    destruct (Z.eqb_spec old new); [done|]. case_bool_decide; [|done]. subst. injection HA as <-.
    by apply hop_move.
Qed.

(** C38: Every sequence of hlist operations whose preconditions hold on the table of
    sequences runs on the store without a fault and ends in exactly the table
    the abstract operations compute; nodes on no list stay unhashed. *)
Theorem hlist_ops_refine_table h T ops T' :
  is_htable h T -> abs_hops ops T = Some T' ->
  (forall op x, op ∈ ops -> x ∈ hop_node op -> is_node h x) ->
  exists h', run_hops ops h = Ret (tt, h') /\ is_htable h' T' /\
    forall x, is_node h x -> hlist_unhashed x h' = Ret (outside T' x, h').
Proof.
  revert h T. induction ops as [|op ops IH]; simpl; intros h T HT HA Hn.
  - injection HA as <-. exists h. split_and!; [done|done|]. intros x Hx. by apply hlist_unhashed_spec.
  - destruct (abs_hop op T) as [T1|] eqn:E; [|done]. simpl in HA.
    destruct (hop_refines h T op T1 HT E) as (h1 & E1 & HT1 & (HK & _)); [set_solver|].
    destruct (IH h1 T1 HT1 HA) as (h2 & E2 & HT2 & HU).
    { intros o x Ho Hx. apply HK. eapply Hn; [|done]. set_solver. }
    exists h2. split_and!; [|done|intros x Hx; by apply HU, HK].
    unfold run_hops. simpl. by rewrite (bind_ret _ _ _ _ _ E1).
Qed.

(** Two empty buckets and three fresh nodes. *)
Definition ex_hstore : hstore :=
  list_to_map [(1, OHead (mk_hlist_head 0)); (2, OHead (mk_hlist_head 0)); (3, ONode (mk_hlist_node 0 0));
               (4, ONode (mk_hlist_node 0 0)); (5, ONode (mk_hlist_node 0 0))].
Definition ex_table : gmap Z (list Z) := list_to_map [(1, []); (2, [])].

Lemma ex_htable : is_htable ex_hstore ex_table.
Proof.
  split_and!; [done| |].
  - intros hd ps E. apply elem_of_list_to_map in E; [|apply (bool_decide_unpack _); vm_compute; exact I].
    assert (ps = [] /\ (hd = 1 \/ hd = 2)) as [-> Hd] by set_solver.
    destruct Hd as [-> | ->]; (split_and!; [split; vm_compute; eauto|constructor|vm_compute; reflexivity]).
  - intros x Hx _. unfold is_node, pprv, slot in *. destruct (ex_hstore !! x) as [o|] eqn:E; [|by destruct Hx].
    apply elem_of_list_to_map in E; [|apply (bool_decide_unpack _); vm_compute; exact I].
    assert (o = OHead (mk_hlist_head 0) \/ o = ONode (mk_hlist_node 0 0)) as [-> | ->] by set_solver;
      [by destruct Hx|done].
Qed.

Lemma hlist_ops_refine_table_witness :
  exists h', run_hops [HAddHead 3 1; HAddBehind 4 3; HAddBefore 5 4; HDel 3; HDelInit 3; HMove 1 2] ex_hstore
      = Ret (tt, h') /\
    is_htable h' (list_to_map [(1, []); (2, [5; 4])]) /\
    forall x, is_node ex_hstore x -> hlist_unhashed x h' = Ret (outside (list_to_map [(1, []); (2, [5; 4])]) x, h').
Proof.
  apply (hlist_ops_refine_table ex_hstore ex_table); [apply ex_htable|vm_compute; reflexivity|].
  intros op x Hop Hx. repeat (apply elem_of_cons in Hop as [->|Hop]; [simpl in Hx|]);
    try by apply elem_of_nil in Hop.
  all: repeat (apply elem_of_cons in Hx as [->|Hx]); try by apply elem_of_nil in Hx.
  all: vm_compute; eauto.
Defined.

Lemma hlist_empty_spec h T hd ps :
  is_htable h T -> T !! hd = Some ps -> hlist_empty hd h = Ret (bool_decide (ps = []), h).
Proof.
  intros HT E. destruct (table_place h T hd [] ps HT E) as (Es & Hv & _). pose proof (table_head _ _ _ _ HT E) as Hh.
  unfold hlist_empty. erewrite (bind_ret (rd_first hd)) by (by apply rd_first_ok).
  enough ((hd_of ps NULL =? NULL) = bool_decide (ps = [])) as -> by done.
  destruct ps as [|x ps]; [done|]. simpl. apply Z.eqb_neq.
  eapply node_not_null; [exact HT|]. eapply table_node; [exact HT|exact E|set_solver].
Qed.

(** A head that is initialised becomes an empty list of the table. *)
Lemma INIT_HLIST_HEAD_spec h T hd :
  is_htable h T -> is_head h hd -> T !! hd = None ->
  exists h', INIT_HLIST_HEAD hd h = Ret (tt, h') /\ is_htable h' (<[hd := []]> T).
Proof.
  intros HT Hh E. pose proof HT as (H0 & HTl & HTn). unfold INIT_HLIST_HEAD. hstep. eexists. split; [done|].
  assert (same_kinds h (hset_slot h hd NULL)) as HK by eauto with lprofile. split_and!; [by apply HK| |].
  - intros d l. rewrite lookup_insert. destruct (decide (hd = d)) as [<-|Hne].
    + intros [= <-]. split_and!; [by apply HK|constructor|]. simpl. destruct Hh as [[v Ev] _]. hval.
    + intros Ed. apply (hlist_frame h); [done| | |by apply HTl]; intros y Hy; autorewrite with hstore; [|done].
      case_decide; [subst y|done]. apply elem_of_cons in Hy as [->|Hy]; [done|].
      by destruct (head_not_node _ _ Hh (table_node _ _ _ _ _ HT Ed Hy)).
  - intros x Hx Hout. apply (proj1 HK) in Hx. autorewrite with hstore.
    case_decide; [subst x; by destruct (head_not_node _ _ Hh Hx)|]. apply HTn; [done|].
    intros (d & l & Ed & Hl). apply Hout. exists d, l. split; [|done]. rewrite lookup_insert_ne; [done|congruence].
Qed.

(** A node on no list looks hashed after [hlist_add_fake], and
    [hlist_del_init] takes it back to where it was. *)
Theorem hlist_fake_roundtrip h T x :
  is_htable h T -> is_node h x -> ~ in_table T x ->
  exists h1 h2, hlist_add_fake x h = Ret (tt, h1) /\ hlist_fake x h1 = Ret (true, h1) /\
    hlist_unhashed x h1 = Ret (false, h1) /\ hlist_del_init x h1 = Ret (tt, h2) /\ h2 = h.
Proof.
  intros HT Hn Hx. pose proof (node_not_null _ _ _ HT Hn) as H0. destruct HT as (_ & _ & HTn).
  destruct (HTn x Hn Hx) as [Es Ep]. unfold hlist_add_fake. rewrite (wr_pprev_ok _ _ _ Hn).
  set (h1 := hset_pprev h x x). assert (pprv h1 x = Some x) as E1 by (unfold h1; hval).
  assert (slot h1 x = Some NULL) as E2 by (unfold h1; by rewrite slot_set_pprev).
  assert (hlist_unhashed x h1 = Ret (false, h1)) as Eu.
  { unfold hlist_unhashed. hstep. by rewrite (proj2 (Z.eqb_neq x NULL) H0). }
  exists h1, (hset_pprev (hset_slot (hset_slot h1 x NULL) x NULL) x NULL). split_and!; [done| |done| |].
  - unfold hlist_fake. hstep. by rewrite Z.eqb_refl.
  - unfold hlist_del_init. rewrite (bind_ret _ _ _ _ _ Eu). simpl. unfold __hlist_del, INIT_HLIST_NODE.
    unfold mbind at 1, M_bind at 1. do 3 hstep. simpl. unfold mret, M_ret.
    do 2 hstep. done.
  - clear E1 E2 Eu HTn. apply map_eq. intros y. unfold h1, hset_pprev, hset_slot, slot, pprv in *.
    destruct (decide (x = y)) as [<-|]; [|by rewrite !lookup_alter_ne by done].
    rewrite !lookup_alter_eq. destruct (h !! x) as [[[]|[]]|]; by simplify_eq/=.
Qed.

Lemma hlist_fake_roundtrip_witness :
  exists h1 h2, hlist_add_fake 3 ex_hstore = Ret (tt, h1) /\ hlist_fake 3 h1 = Ret (true, h1) /\
    hlist_unhashed 3 h1 = Ret (false, h1) /\ hlist_del_init 3 h1 = Ret (tt, h2) /\ h2 = ex_hstore.
Proof.
  apply (hlist_fake_roundtrip ex_hstore ex_table); [apply ex_htable|vm_compute; eauto|].
  pose proof (outside_spec ex_table 3) as H. exact H.
Defined.

(** *** Iteration *)
Section IterationTheory.
Context {S : Type} `{EmS : Embed S hstore} `{!EmbedLaws S hstore}.

Lemma lift_rd_first (s : S) p v :
  is_head (eget s) p -> slot (eget s) p = Some v -> lift (rd_first p) s = Ret (v, s).
Proof. intros H1 H2. unfold lift. rewrite (rd_first_ok _ _ _ H1 H2). by rewrite eput_eget. Qed.
Lemma lift_rd_hnext (s : S) p v :
  is_node (eget s) p -> slot (eget s) p = Some v -> lift (rd_hnext p) s = Ret (v, s).
Proof. intros H1 H2. unfold lift. rewrite (rd_hnext_ok _ _ _ H1 H2). by rewrite eput_eget. Qed.

Definition keeps_hlist (hd : Z) (ps : list Z) (body : Z -> M S unit) : Prop :=
  forall x s u s', x ∈ ps -> is_hlist (eget s) hd ps -> (eget s) !! NULL = None -> body x s = Ret (u, s') ->
  is_hlist (eget s') hd ps /\ (eget s') !! NULL = None.

Definition hdrains (hd : Z) (body : Z -> M S unit) : Prop :=
  forall x ps s u s', is_hlist (eget s) hd (x :: ps) -> (eget s) !! NULL = None -> body x s = Ret (u, s') ->
  is_hlist (eget s') hd ps /\ (eget s') !! NULL = None.

Lemma hlist_at h hd a x b :
  is_hlist h hd (a ++ x :: b) -> h !! NULL = None ->
  x <> NULL /\ is_node h x /\ slot h x = Some (hd_of b NULL).
Proof.
  intros (_ & _ & S1) H0. assert (is_node h x) as Hn by (eapply hseg_nodes; [exact S1|set_solver]).
  split_and!; [|done|].
  - intros ->. destruct Hn as [? E]. unfold pprv in E. by rewrite H0 in E.
  - apply hseg_app in S1 as (_ & _ & S1). by apply (hseg_slot h x []), (hseg_split h x [] b).
Qed.

Lemma hlist_for_each_entry_from_spec hd ps body n a b s :
  keeps_hlist hd ps body -> is_hlist (eget s) hd ps -> (eget s) !! NULL = None -> ps = a ++ b ->
  (length b < n)%nat ->
  hlist_for_each_entry_from n (hd_of b NULL) body s = forM b body s.
Proof.
  intros HK. revert a b s. induction n as [|n IH]; intros a b s HL H0 E Hn; [lia|].
  destruct b as [|x b]; simpl; [done|]. rewrite E in HL.
  destruct (hlist_at _ _ _ _ _ HL H0) as (Hx & _ & _). rewrite (proj2 (Z.eqb_neq x NULL) Hx).
  destruct (body x s) as [[[] s']|e] eqn:Eb; [|by rewrite !(bind_fault _ _ _ _ Eb)].
  rewrite !(bind_ret _ _ _ _ _ Eb). rewrite <- E in HL.
  destruct (HK x s tt s') as [HL' H0']; [set_solver|done..|].
  pose proof HL' as HL2. rewrite E in HL2. destruct (hlist_at _ _ _ _ _ HL2 H0') as (_ & Hn' & Es).
  rewrite (bind_ret _ _ _ _ _ (lift_rd_hnext _ _ _ Hn' Es)).
  apply (IH (a ++ [x]) b); [done|done|by rewrite <- app_assoc|simpl in Hn; lia].
Qed.

Lemma hfor_each_safe_from_spec hd body n ps s :
  hdrains hd body -> is_hlist (eget s) hd ps -> (eget s) !! NULL = None -> (length ps < n)%nat ->
  hfor_each_safe_from n (hd_of ps NULL) body s = forM ps body s.
Proof.
  intros HK. revert ps s. induction n as [|n IH]; intros ps s HL H0 Hn; [lia|].
  destruct ps as [|x ps]; simpl; [done|].
  destruct (hlist_at _ _ [] _ _ HL H0) as (Hx & Hn' & Es). rewrite (proj2 (Z.eqb_neq x NULL) Hx).
  rewrite (bind_ret _ _ _ _ _ (lift_rd_hnext _ _ _ Hn' Es)).
  destruct (body x s) as [[[] s']|e] eqn:Eb; [|by rewrite !(bind_fault _ _ _ _ Eb)].
  rewrite !(bind_ret _ _ _ _ _ Eb). destruct (HK _ _ _ _ _ HL H0 Eb) as [HL' H0'].
  apply IH; [done|done|simpl in Hn; lia].
Qed.
End IterationTheory.

(** The iterators run their body once for every node of a list, in its order,
    from the head, after a node, or while the body takes the nodes off. *)
Theorem hlist_iterators_visit {S} `{Embed S hstore, !EmbedLaws S hstore} hd a x b (s : S) body safe_body n :
  is_hlist (eget s) hd (a ++ x :: b) -> (eget s) !! NULL = None -> (length (a ++ x :: b) < n)%nat ->
  keeps_hlist hd (a ++ x :: b) body -> hdrains hd safe_body ->
  hlist_for_each_entry n hd body s = forM (a ++ x :: b) body s /\
  hlist_for_each_entry_continue n x body s = forM b body s /\
  hlist_for_each_entry_from n x body s = forM (x :: b) body s /\
  hlist_for_each_entry_safe n hd safe_body s = forM (a ++ x :: b) safe_body s.
Proof.
  intros HL H0 Hn HK HD. pose proof HL as (Hh & _ & S1). rewrite length_app in Hn. simpl in Hn.
  pose proof (hseg_slot _ _ [] _ (hseg_split _ _ [] _ S1)) as Ef.
  pose proof (hlist_at _ _ _ _ _ HL H0) as (_ & Hx & Es).
  pose proof (fun a' b' => hlist_for_each_entry_from_spec hd _ body n a' b' s HK HL H0) as Hf. split_and!.
  - unfold hlist_for_each_entry. rewrite (bind_ret _ _ _ _ _ (lift_rd_first _ _ _ Hh Ef)).
    apply (Hf []); [done|rewrite length_app; simpl; lia].
  - unfold hlist_for_each_entry_continue. rewrite (bind_ret _ _ _ _ _ (lift_rd_hnext _ _ _ Hx Es)).
    apply (Hf (a ++ [x])); [by rewrite <- app_assoc|lia].
  - apply (Hf a (x :: b)); [done|simpl; lia].
  - unfold hlist_for_each_entry_safe. rewrite (bind_ret _ _ _ _ _ (lift_rd_first _ _ _ Hh Ef)).
    apply (hfor_each_safe_from_spec hd); [done|done|done|rewrite length_app; simpl; lia].
Qed.
