(* ===== verification/Pmu.v ===== *)
(** * The event table: probe/pmu.c and probe/pmu.h

    The event names a user may ask for, each with the [type] and [config] that
    perf_event_open(2) expects.  The numbers behind the PERF_ names come from
    the kernel header <linux/perf_event.h>, which is not part of the sources:
    they are the fields of [PerfAbi], and what the table relies on (the cache
    identifiers, operations and results fit in their byte and are distinct) is
    the class [PerfAbiOk]. *)
From stdpp Require Import base gmap list strings.
From Stdlib Require Import Ascii.
From S2P Require Import Prelude.

Class PerfAbi : Type := {
  PERF_TYPE_HARDWARE : Z;
  PERF_TYPE_HW_CACHE : Z;
  PERF_COUNT_HW_CPU_CYCLES : Z;
  PERF_COUNT_HW_INSTRUCTIONS : Z;
  PERF_COUNT_HW_CACHE_REFERENCES : Z;
  PERF_COUNT_HW_CACHE_MISSES : Z;
  PERF_COUNT_HW_BUS_CYCLES : Z;
  PERF_COUNT_HW_BRANCH_INSTRUCTIONS : Z;
  PERF_COUNT_HW_BRANCH_MISSES : Z;
  PERF_COUNT_HW_CACHE_L1D : Z;
  PERF_COUNT_HW_CACHE_L1I : Z;
  PERF_COUNT_HW_CACHE_LL : Z;
  PERF_COUNT_HW_CACHE_DTLB : Z;
  PERF_COUNT_HW_CACHE_ITLB : Z;
  PERF_COUNT_HW_CACHE_OP_READ : Z;
  PERF_COUNT_HW_CACHE_OP_WRITE : Z;
  PERF_COUNT_HW_CACHE_OP_PREFETCH : Z;
  PERF_COUNT_HW_CACHE_RESULT_ACCESS : Z;
  PERF_COUNT_HW_CACHE_RESULT_MISS : Z;
  sizeof_perf_event_attr : Z
}.

(** struct prof_pmu; [is_support] is never written by the initialisers. *)
Record prof_pmu : Type := mk_pmu {
  pmu_name : string;
  pmu_type : Z;
  pmu_config : Z;
  pmu_is_support : bool
}.

#[global] Instance prof_pmu_eq_dec : EqDecision prof_pmu.
Proof. solve_decision. Defined.

Section Table.
Context `{abi : PerfAbi}.

(** The initialiser of one entry; members that are not named are zero. *)
Definition pmu_entry (name : string) (type config : Z) : prof_pmu := mk_pmu name type config false.

Local Notation "a .| b" := (Z.lor a b) (at level 50, left associativity).
Local Notation "a .<< n" := (Z.shiftl a n) (at level 45, left associativity).

Definition pmu_list_HW : list prof_pmu := [
  (* PROF_PMU_CPU_CYCLES *)
  pmu_entry "cpu-cycles" PERF_TYPE_HARDWARE
    (PERF_COUNT_HW_CPU_CYCLES);
  (* PROF_PMU_INSTRUCTIONS *)
  pmu_entry "instructions" PERF_TYPE_HARDWARE
    (PERF_COUNT_HW_INSTRUCTIONS);
  (* PROF_PMU_CACHE_REFERENCES *)
  pmu_entry "cache-references" PERF_TYPE_HARDWARE
    (PERF_COUNT_HW_CACHE_REFERENCES);
  (* PROF_PMU_CACHE_MISSES *)
  pmu_entry "cache-misses" PERF_TYPE_HARDWARE
    (PERF_COUNT_HW_CACHE_MISSES);
  (* PROF_PMU_BUS_CYCLES *)
  pmu_entry "bus-cycles" PERF_TYPE_HARDWARE
    (PERF_COUNT_HW_BUS_CYCLES);
  (* PROF_PMU_BRANCH_INSTRUCTIONS *)
  pmu_entry "branch-instructions" PERF_TYPE_HARDWARE
    (PERF_COUNT_HW_BRANCH_INSTRUCTIONS);
  (* PROF_PMU_BRANCH_MISSES *)
  pmu_entry "branch-misses" PERF_TYPE_HARDWARE
    (PERF_COUNT_HW_BRANCH_MISSES)
].

Definition pmu_list_L1D : list prof_pmu := [
  (* PROF_PMU_L1D_READ_REFERENCES *)
  pmu_entry "l1d-read" PERF_TYPE_HW_CACHE
    (PERF_COUNT_HW_CACHE_L1D .| (PERF_COUNT_HW_CACHE_OP_READ .<< 8) .| (PERF_COUNT_HW_CACHE_RESULT_ACCESS .<< 16));
  (* PROF_PMU_L1D_READ_MISSES *)
  pmu_entry "l1d-read-misses" PERF_TYPE_HW_CACHE
    (PERF_COUNT_HW_CACHE_L1D .| (PERF_COUNT_HW_CACHE_OP_READ .<< 8) .| (PERF_COUNT_HW_CACHE_RESULT_MISS .<< 16));
  (* PROF_PMU_L1D_WRITE_REFERENCES *)
  pmu_entry "l1d-write" PERF_TYPE_HW_CACHE
    (PERF_COUNT_HW_CACHE_L1D .| (PERF_COUNT_HW_CACHE_OP_WRITE .<< 8) .| (PERF_COUNT_HW_CACHE_RESULT_ACCESS .<< 16));
  (* PROF_PMU_L1D_WRITE_MISSES *)
  pmu_entry "l1d-write-misses" PERF_TYPE_HW_CACHE
    (PERF_COUNT_HW_CACHE_L1D .| (PERF_COUNT_HW_CACHE_OP_WRITE .<< 8) .| (PERF_COUNT_HW_CACHE_RESULT_MISS .<< 16));
  (* PROF_PMU_L1D_PREFETCH_REFERENCES *)
  pmu_entry "l1d-prefetch" PERF_TYPE_HW_CACHE
    (PERF_COUNT_HW_CACHE_L1D .| (PERF_COUNT_HW_CACHE_OP_PREFETCH .<< 8) .| (PERF_COUNT_HW_CACHE_RESULT_ACCESS .<< 16));
  (* PROF_PMU_L1D_PREFETCH_MISSES *)
  pmu_entry "l1d-prefetch-misses" PERF_TYPE_HW_CACHE
    (PERF_COUNT_HW_CACHE_L1D .| (PERF_COUNT_HW_CACHE_OP_PREFETCH .<< 8) .| (PERF_COUNT_HW_CACHE_RESULT_MISS .<< 16))
].

Definition pmu_list_L1I : list prof_pmu := [
  (* PROF_PMU_L1I_READ_REFERENCES *)
  pmu_entry "l1i-read" PERF_TYPE_HW_CACHE
    (PERF_COUNT_HW_CACHE_L1I .| (PERF_COUNT_HW_CACHE_OP_READ .<< 8) .| (PERF_COUNT_HW_CACHE_RESULT_ACCESS .<< 16));
  (* PROF_PMU_L1I_READ_MISSES *)
  pmu_entry "l1i-read-misses" PERF_TYPE_HW_CACHE
    (PERF_COUNT_HW_CACHE_L1I .| (PERF_COUNT_HW_CACHE_OP_READ .<< 8) .| (PERF_COUNT_HW_CACHE_RESULT_MISS .<< 16));
  (* PROF_PMU_L1I_WRITE_REFERENCES *)
  pmu_entry "l1i-write" PERF_TYPE_HW_CACHE
    (PERF_COUNT_HW_CACHE_L1I .| (PERF_COUNT_HW_CACHE_OP_WRITE .<< 8) .| (PERF_COUNT_HW_CACHE_RESULT_ACCESS .<< 16));
  (* PROF_PMU_L1I_WRITE_MISSES *)
  pmu_entry "l1i-write-misses" PERF_TYPE_HW_CACHE
    (PERF_COUNT_HW_CACHE_L1I .| (PERF_COUNT_HW_CACHE_OP_WRITE .<< 8) .| (PERF_COUNT_HW_CACHE_RESULT_MISS .<< 16));
  (* PROF_PMU_L1I_PREFETCH_REFERENCES *)
  pmu_entry "l1i-prefetch" PERF_TYPE_HW_CACHE
    (PERF_COUNT_HW_CACHE_L1I .| (PERF_COUNT_HW_CACHE_OP_PREFETCH .<< 8) .| (PERF_COUNT_HW_CACHE_RESULT_ACCESS .<< 16));
  (* PROF_PMU_L1I_PREFETCH_MISSES *)
  pmu_entry "l1i-prefetch-misses" PERF_TYPE_HW_CACHE
    (PERF_COUNT_HW_CACHE_L1I .| (PERF_COUNT_HW_CACHE_OP_PREFETCH .<< 8) .| (PERF_COUNT_HW_CACHE_RESULT_MISS .<< 16))
].

Definition pmu_list_LL : list prof_pmu := [
  (* PROF_PMU_LL_READ_REFERENCES *)
  pmu_entry "ll-read" PERF_TYPE_HW_CACHE
    (PERF_COUNT_HW_CACHE_LL .| (PERF_COUNT_HW_CACHE_OP_READ .<< 8) .| (PERF_COUNT_HW_CACHE_RESULT_ACCESS .<< 16));
  (* PROF_PMU_LL_READ_MISSES *)
  pmu_entry "ll-read-misses" PERF_TYPE_HW_CACHE
    (PERF_COUNT_HW_CACHE_LL .| (PERF_COUNT_HW_CACHE_OP_READ .<< 8) .| (PERF_COUNT_HW_CACHE_RESULT_MISS .<< 16));
  (* PROF_PMU_LL_WRITE_REFERENCES *)
  pmu_entry "ll-write" PERF_TYPE_HW_CACHE
    (PERF_COUNT_HW_CACHE_LL .| (PERF_COUNT_HW_CACHE_OP_WRITE .<< 8) .| (PERF_COUNT_HW_CACHE_RESULT_ACCESS .<< 16));
  (* PROF_PMU_LL_WRITE_MISSES *)
  pmu_entry "ll-write-misses" PERF_TYPE_HW_CACHE
    (PERF_COUNT_HW_CACHE_LL .| (PERF_COUNT_HW_CACHE_OP_WRITE .<< 8) .| (PERF_COUNT_HW_CACHE_RESULT_MISS .<< 16));
  (* PROF_PMU_LL_PREFETCH_REFERENCES *)
  pmu_entry "ll-prefetch" PERF_TYPE_HW_CACHE
    (PERF_COUNT_HW_CACHE_LL .| (PERF_COUNT_HW_CACHE_OP_PREFETCH .<< 8) .| (PERF_COUNT_HW_CACHE_RESULT_ACCESS .<< 16));
  (* PROF_PMU_LL_PREFETCH_MISSES *)
  pmu_entry "ll-prefetch-misses" PERF_TYPE_HW_CACHE
    (PERF_COUNT_HW_CACHE_LL .| (PERF_COUNT_HW_CACHE_OP_PREFETCH .<< 8) .| (PERF_COUNT_HW_CACHE_RESULT_MISS .<< 16))
].

Definition pmu_list_DTLB : list prof_pmu := [
  (* PROF_PMU_DTLB_READ_REFERENCES *)
  pmu_entry "dtlb-read" PERF_TYPE_HW_CACHE
    (PERF_COUNT_HW_CACHE_DTLB .| (PERF_COUNT_HW_CACHE_OP_READ .<< 8) .| (PERF_COUNT_HW_CACHE_RESULT_ACCESS .<< 16));
  (* PROF_PMU_DTLB_READ_MISSES *)
  pmu_entry "dtlb-read-misses" PERF_TYPE_HW_CACHE
    (PERF_COUNT_HW_CACHE_DTLB .| (PERF_COUNT_HW_CACHE_OP_READ .<< 8) .| (PERF_COUNT_HW_CACHE_RESULT_MISS .<< 16));
  (* PROF_PMU_DTLB_WRITE_REFERENCES *)
  pmu_entry "dtlb-write" PERF_TYPE_HW_CACHE
    (PERF_COUNT_HW_CACHE_DTLB .| (PERF_COUNT_HW_CACHE_OP_WRITE .<< 8) .| (PERF_COUNT_HW_CACHE_RESULT_ACCESS .<< 16));
  (* PROF_PMU_DTLB_WRITE_MISSES *)
  pmu_entry "dtlb-write-misses" PERF_TYPE_HW_CACHE
    (PERF_COUNT_HW_CACHE_DTLB .| (PERF_COUNT_HW_CACHE_OP_WRITE .<< 8) .| (PERF_COUNT_HW_CACHE_RESULT_MISS .<< 16));
  (* PROF_PMU_DTLB_PREFETCH_REFERENCES *)
  pmu_entry "dtlb-prefetch" PERF_TYPE_HW_CACHE
    (PERF_COUNT_HW_CACHE_DTLB .| (PERF_COUNT_HW_CACHE_OP_PREFETCH .<< 8) .| (PERF_COUNT_HW_CACHE_RESULT_ACCESS .<< 16));
  (* PROF_PMU_DTLB_PREFETCH_MISSES *)
  pmu_entry "dtlb-prefetch-misses" PERF_TYPE_HW_CACHE
    (PERF_COUNT_HW_CACHE_DTLB .| (PERF_COUNT_HW_CACHE_OP_PREFETCH .<< 8) .| (PERF_COUNT_HW_CACHE_RESULT_MISS .<< 16))
].

Definition pmu_list_ITLB : list prof_pmu := [
  (* PROF_PMU_ITLB_READ_REFERENCES *)
  pmu_entry "itlb-read" PERF_TYPE_HW_CACHE
    (PERF_COUNT_HW_CACHE_ITLB .| (PERF_COUNT_HW_CACHE_OP_READ .<< 8) .| (PERF_COUNT_HW_CACHE_RESULT_ACCESS .<< 16));
  (* PROF_PMU_ITLB_READ_MISSES *)
  pmu_entry "itlb-read-misses" PERF_TYPE_HW_CACHE
    (PERF_COUNT_HW_CACHE_ITLB .| (PERF_COUNT_HW_CACHE_OP_READ .<< 8) .| (PERF_COUNT_HW_CACHE_RESULT_MISS .<< 16));
  (* PROF_PMU_ITLB_WRITE_REFERENCES *)
  pmu_entry "itlb-write" PERF_TYPE_HW_CACHE
    (PERF_COUNT_HW_CACHE_ITLB .| (PERF_COUNT_HW_CACHE_OP_WRITE .<< 8) .| (PERF_COUNT_HW_CACHE_RESULT_ACCESS .<< 16));
  (* PROF_PMU_ITLB_WRITE_MISSES *)
  pmu_entry "itlb-write-misses" PERF_TYPE_HW_CACHE
    (PERF_COUNT_HW_CACHE_ITLB .| (PERF_COUNT_HW_CACHE_OP_WRITE .<< 8) .| (PERF_COUNT_HW_CACHE_RESULT_MISS .<< 16));
  (* PROF_PMU_ITLB_PREFETCH_REFERENCES *)
  pmu_entry "itlb-prefetch" PERF_TYPE_HW_CACHE
    (PERF_COUNT_HW_CACHE_ITLB .| (PERF_COUNT_HW_CACHE_OP_PREFETCH .<< 8) .| (PERF_COUNT_HW_CACHE_RESULT_ACCESS .<< 16));
  (* PROF_PMU_ITLB_PREFETCH_MISSES *)
  pmu_entry "itlb-prefetch-misses" PERF_TYPE_HW_CACHE
    (PERF_COUNT_HW_CACHE_ITLB .| (PERF_COUNT_HW_CACHE_OP_PREFETCH .<< 8) .| (PERF_COUNT_HW_CACHE_RESULT_MISS .<< 16))
].

Definition pmu_list : list prof_pmu :=
  pmu_list_HW ++ pmu_list_L1D ++ pmu_list_L1I ++ pmu_list_LL ++ pmu_list_DTLB ++ pmu_list_ITLB.

(** [pmu_is_init], the module's only variable. *)
Definition pmu_state : Type := bool.

Definition __pmu__init : M pmu_state unit := put true.

(** The loop over the table compares [str] with each name in turn. *)
Fixpoint find_from (str : string) (l : list prof_pmu) : option prof_pmu :=
  match l with
  | [] => None
  | pmu :: l' => if bool_decide (str = pmu_name pmu) then Some pmu else find_from str l'
  end.

Definition prof_pmu__find (str : string) : M pmu_state (option prof_pmu) :=
  is_init ← get ;
  (if (negb is_init : bool) then __pmu__init else mret tt) ;;
  mret (find_from str pmu_list).

(** The lines [prof_pmu__dump] logs. *)
Definition prof_pmu__dump : M pmu_state (list string) :=
  is_init ← get ;
  (if (negb is_init : bool) then __pmu__init else mret tt) ;;
  mret (flat_map (fun pmu =>
    if pmu_is_support pmu then
      if pmu_type pmu =? PERF_TYPE_HARDWARE then [pmu_name pmu +:+ " [HARDWARE]"]
      else if pmu_type pmu =? PERF_TYPE_HW_CACHE then [pmu_name pmu +:+ " [HARDWARE CACHE]"]
      else []
    else []) pmu_list).
End Table.

(** What the documentation of perf_event_open(2) says of the constants. *)
Definition cache_ids `{PerfAbi} : list Z :=
  [PERF_COUNT_HW_CACHE_L1D; PERF_COUNT_HW_CACHE_L1I; PERF_COUNT_HW_CACHE_LL;
   PERF_COUNT_HW_CACHE_DTLB; PERF_COUNT_HW_CACHE_ITLB].
Definition cache_ops `{PerfAbi} : list Z :=
  [PERF_COUNT_HW_CACHE_OP_READ; PERF_COUNT_HW_CACHE_OP_WRITE; PERF_COUNT_HW_CACHE_OP_PREFETCH].
Definition cache_results `{PerfAbi} : list Z :=
  [PERF_COUNT_HW_CACHE_RESULT_ACCESS; PERF_COUNT_HW_CACHE_RESULT_MISS].
Definition hw_ids `{PerfAbi} : list Z :=
  [PERF_COUNT_HW_CPU_CYCLES; PERF_COUNT_HW_INSTRUCTIONS; PERF_COUNT_HW_CACHE_REFERENCES;
   PERF_COUNT_HW_CACHE_MISSES; PERF_COUNT_HW_BUS_CYCLES; PERF_COUNT_HW_BRANCH_INSTRUCTIONS;
   PERF_COUNT_HW_BRANCH_MISSES].

Class PerfAbiOk `{PerfAbi} : Prop := {
  abi_types : PERF_TYPE_HARDWARE <> PERF_TYPE_HW_CACHE;
  abi_hw : NoDup hw_ids;
  abi_ids : NoDup cache_ids;
  abi_ops : NoDup cache_ops;
  abi_results : NoDup cache_results;
  abi_bytes : Forall (fun x => 0 <= x < 256) (cache_ids ++ cache_ops ++ cache_results)
}.

(** The values of the Linux header, used to evaluate the model. *)
Definition linux_abi : PerfAbi := {|
  PERF_TYPE_HARDWARE := 0; PERF_TYPE_HW_CACHE := 3;
  PERF_COUNT_HW_CPU_CYCLES := 0; PERF_COUNT_HW_INSTRUCTIONS := 1;
  PERF_COUNT_HW_CACHE_REFERENCES := 2; PERF_COUNT_HW_CACHE_MISSES := 3;
  PERF_COUNT_HW_BUS_CYCLES := 6; PERF_COUNT_HW_BRANCH_INSTRUCTIONS := 4;
  PERF_COUNT_HW_BRANCH_MISSES := 5;
  PERF_COUNT_HW_CACHE_L1D := 0; PERF_COUNT_HW_CACHE_L1I := 1; PERF_COUNT_HW_CACHE_LL := 2;
  PERF_COUNT_HW_CACHE_DTLB := 3; PERF_COUNT_HW_CACHE_ITLB := 4;
  PERF_COUNT_HW_CACHE_OP_READ := 0; PERF_COUNT_HW_CACHE_OP_WRITE := 1;
  PERF_COUNT_HW_CACHE_OP_PREFETCH := 2;
  PERF_COUNT_HW_CACHE_RESULT_ACCESS := 0; PERF_COUNT_HW_CACHE_RESULT_MISS := 1;
  sizeof_perf_event_attr := 136
|}.

Lemma linux_abi_ok : @PerfAbiOk linux_abi.
Proof.
  split; [vm_compute; congruence|..]; try (apply (bool_decide_unpack _); vm_compute; exact I).
Qed.

(** ** Lookup *)
Section Lookup.
Context `{abi : PerfAbi}.

Lemma find_from_Some str l p :
  find_from str l = Some p -> p ∈ l /\ pmu_name p = str.
Proof.
  induction l as [|q l IH]; simpl; [done|]. case_bool_decide; [intros [= <-]; set_solver|].
  intros ?%IH. set_solver.
Qed.

Lemma find_from_complete l p :
  NoDup (map pmu_name l) -> p ∈ l -> find_from (pmu_name p) l = Some p.
Proof.
  induction l as [|q l IH]; simpl; [set_solver|]. intros [Hq Hnd]%NoDup_cons [->|Hp]%elem_of_cons.
  - by rewrite bool_decide_true.
  - rewrite bool_decide_false; [by apply IH|]. intros E. apply Hq. rewrite <- E.
    apply list_elem_of_fmap. eauto.
Qed.

Lemma pmu_names_NoDup : NoDup (map pmu_name pmu_list).
Proof. apply (bool_decide_unpack _). vm_compute. exact I. Qed.

Lemma pmu_names_plain :
  Forall (fun p => (String.length (pmu_name p) < 30)%nat /\
                   ~ In ":"%char (String.list_ascii_of_string (pmu_name p)) /\
                   ~ In ","%char (String.list_ascii_of_string (pmu_name p))) pmu_list.
Proof.
  unfold pmu_list. repeat (apply Forall_app; split);
  repeat (apply List.Forall_cons; [split_and!; [vm_compute; lia|vm_compute; intuition discriminate..]|]);
  apply List.Forall_nil.
Qed.

(** Prof_pmu__find returns an entry exactly when the table has one of that
    name, the entry it returns is that one, and it leaves the module
    initialised. *)
Theorem pmu_find_correct (str : string) (st : pmu_state) :
  exists r, prof_pmu__find str st = Ret (r, true) /\
    forall p, r = Some p <-> p ∈ pmu_list /\ pmu_name p = str.
Proof.
  exists (find_from str pmu_list). split; [by destruct st|]. intros p. split.
  - apply find_from_Some.
  - intros [Hp <-]. by apply find_from_complete; [apply pmu_names_NoDup|].
Qed.

(** The table fits the name buffers of struct prof_pmu (30 bytes with the
    terminating zero) and no name holds one of the characters the event-list
    syntax uses as a separator. *)
Theorem pmu_names_wellformed :
  Forall (fun p => (String.length (pmu_name p) < 30)%nat /\
                   ~ In ":"%char (String.list_ascii_of_string (pmu_name p)) /\
                   ~ In ","%char (String.list_ascii_of_string (pmu_name p))) pmu_list.
Proof. apply pmu_names_plain. Qed.
End Lookup.

(** The bytes of a cache event's [config]. *)
Lemma cache_config_bytes id op rs :
  0 <= id < 256 -> 0 <= op < 256 -> 0 <= rs < 256 ->
  let c := Z.lor (Z.lor id (Z.shiftl op 8)) (Z.shiftl rs 16) in
  c mod 256 = id /\ (c / 256) mod 256 = op /\ c / 65536 = rs.
Proof.
  intros H1 H2 H3 c.
  assert (c = id + op * 256 + rs * 65536) as ->; [|split_and!; Z.to_euclidean_division_equations; lia].
  unfold c. rewrite !Z.shiftl_mul_pow2 by lia.
  rewrite (lor_add_disjoint 8 id op) by lia. rewrite (lor_add_disjoint 16 _ rs) by lia. lia.
Qed.

Definition cache_config (id op rs : Z) : Z := Z.lor (Z.lor id (Z.shiftl op 8)) (Z.shiftl rs 16).

(** The table is the seven hardware events followed by all combinations of
    cache, operation and result, in this order. *)
Lemma pmu_list_shape `{PerfAbi} :
  map (fun p => (pmu_type p, pmu_config p)) pmu_list =
  map (fun c => (PERF_TYPE_HARDWARE, c)) hw_ids ++
  map (fun t => (PERF_TYPE_HW_CACHE, cache_config t.1.1 t.1.2 t.2))
    (list_prod (list_prod cache_ids cache_ops) cache_results).
Proof. reflexivity. Qed.

Lemma cache_triples `{PerfAbiOk} t :
  t ∈ list_prod (list_prod cache_ids cache_ops) cache_results ->
  0 <= t.1.1 < 256 /\ 0 <= t.1.2 < 256 /\ 0 <= t.2 < 256.
Proof.
  destruct t as [[id op] rs]. rewrite list_elem_of_In, !in_prod_iff, <- !list_elem_of_In.
  intros [[Hi Ho] Hr]. pose proof abi_bytes as HF. rewrite Forall_forall in HF.
  split_and!; apply HF; set_solver.
Qed.

(** Under the documented properties of the kernel's constants, no two
    entries of the table ask perf_event_open for the same counter. *)
Theorem pmu_events_distinct `{PerfAbiOk} :
  NoDup (map (fun p => (pmu_type p, pmu_config p)) pmu_list).
Proof.
  rewrite pmu_list_shape. apply NoDup_app. split_and!.
  - apply NoDup_fmap_2_strong; [|apply abi_hw]. by intros x y _ _ [= ->].
  - intros x (a & -> & _)%list_elem_of_fmap (b & E & _)%list_elem_of_fmap. by injection E as E%abi_types.
  - apply NoDup_fmap_2_strong.
    + intros [[i1 o1] r1] [[i2 o2] r2] H1%cache_triples H2%cache_triples [= E]. simpl in *.
      destruct (cache_config_bytes i1 o1 r1) as (A1 & A2 & A3); [tauto..|].
      destruct (cache_config_bytes i2 o2 r2) as (B1 & B2 & B3); [tauto..|].
      unfold cache_config in E. rewrite E in A1, A2, A3. congruence.
    + repeat apply NoDup_list_prod; [apply abi_ids|apply abi_ops|apply abi_results].
Qed.

Lemma pmu_events_distinct_witness :
  NoDup (map (fun p => (pmu_type p, pmu_config p)) (@pmu_list linux_abi)).
Proof. apply (@pmu_events_distinct linux_abi linux_abi_ok). Defined.
