(* ===== verification/ProbeUtil.v ===== *)
(** * Small utilities of the probe library

    probe/util.h ([zalloc], [__roundup_2], [readn]), probe/array.[ch] and
    probe/threadmap.[ch].  malloc, read(2) and scandir(3) are the environment:
    the replies they give are arguments of the definitions that call them. *)
From stdpp Require Import base gmap list strings.
From Stdlib Require Import Ascii.
From S2P Require Import Prelude.

(** ** Allocation *)

(** [malloc_ok] tells whether malloc returned memory; [zalloc] clears it. *)
Definition zalloc (malloc_ok : bool) (size : Z) : option (list Z) :=
  if malloc_ok then Some (replicate (Z.to_nat size) 0) else None.

(** ** Rounding up to a power of two *)

Definition __roundup_2 (num : Z) : Z :=
  let num := u32 (num - 1) in
  let num := Z.lor num (Z.shiftr num 1) in
  let num := Z.lor num (Z.shiftr num 2) in
  let num := Z.lor num (Z.shiftr num 4) in
  let num := Z.lor num (Z.shiftr num 8) in
  let num := Z.lor num (Z.shiftr num 16) in
  u32 (num + 1).

(** ** Reading exactly [n] bytes *)

Inductive read_reply : Type :=
| RdErr (eintr : bool)          (* read() < 0; errno == EINTR or another error *)
| RdData (bytes : list Z).      (* the bytes transferred, none at end of file *)

(** The loop: the replies of successive read() calls, the bytes still wanted
    and the bytes stored so far.  The answer is the value returned, [-1] when
    the last read() failed; a read() never transfers more than it is asked for. *)
Fixpoint readn_loop (replies : list read_reply) (n left : nat) (buf : list Z) : res (Z * list Z) :=
  match left with
  | O => Ret (Z.of_nat n, buf)
  | _ =>
      match replies with
      | [] => Fault FFuel
      | RdErr true :: rs => readn_loop rs n left buf
      | RdErr false :: _ => Ret (-1, buf)
      | RdData bs :: rs =>
          let bs := take left bs in
          if (length bs =? 0)%nat then Ret (0, buf)
          else readn_loop rs n (left - length bs)%nat (buf ++ bs)
      end
  end.

Definition readn (replies : list read_reply) (n : nat) : res (Z * list Z) :=
  readn_loop replies n n [].

(** ** Arrays of fixed-size elements *)

Record array : Type := mk_array { arr_elem_num : Z; arr_elem_size : Z; arr_bytes : Z }.

(** sizeof(struct array): two uint32_t and a flexible member. *)
Definition sizeof_array : Z := 8.

(** [arr_bytes] records how many bytes of [contents] the allocation has; the
    product is computed in uint32_t before it is added to the size_t. *)
Definition array__new (malloc_ok : bool) (elem_num elem_size : Z) : option array :=
  match zalloc malloc_ok (u64 (sizeof_array + u32 (elem_num * elem_size))) with
  | None => None
  | Some mem => Some (mk_array elem_num elem_size (Z.of_nat (length mem) - sizeof_array))
  end.

(** The offset of element [idx] in [contents], [None] for the null pointer. *)
Definition array__entry (arr : array) (idx : Z) : option Z :=
  if arr_elem_num arr <=? idx then None else Some (u32 (idx * arr_elem_size arr)).

(** ** Thread maps *)

Record thread_map : Type := mk_thread_map { tm_nr : Z; tm_pid : list Z }.

(** [filter]: scandir keeps the names that do not start with a dot. *)
Definition tm_filter (name : string) : bool :=
  match name with String c _ => negb (Ascii.eqb c "."%char) | EmptyString => true end.

Definition digit_of (c : ascii) : option Z :=
  let n := Z.of_nat (nat_of_ascii c) in
  if (48 <=? n) && (n <=? 57) then Some (n - 48) else None.

Fixpoint atoi_digits (acc : Z) (s : string) : Z :=
  match s with
  | String c s' => match digit_of c with Some d => atoi_digits (acc * 10 + d) s' | None => acc end
  | EmptyString => acc
  end.

Definition is_space (c : ascii) : bool :=
  let n := nat_of_ascii c in ((9 <=? n) && (n <=? 13) || (n =? 32))%nat.

(** atoi(3), for values that fit an int. *)
Fixpoint atoi (s : string) : Z :=
  match s with
  | String c s' =>
      if is_space c then atoi s'
      else if Ascii.eqb c "-"%char then - atoi_digits 0 s'
      else if Ascii.eqb c "+"%char then atoi_digits 0 s'
      else atoi_digits 0 s
  | EmptyString => 0
  end.

(** The pid slots come cleared from [zalloc]. *)
Definition _thread_map__alloc (malloc_ok : bool) (nr : Z) : option thread_map :=
  match zalloc malloc_ok (4 + 4 * nr) with
  | None => None
  | Some _ => Some (mk_thread_map 0 (replicate (Z.to_nat nr) 0))
  end.

Definition thread_map__new_dummy (malloc_ok : bool) : option thread_map :=
  match _thread_map__alloc malloc_ok 1 with
  | None => None
  | Some map => Some (mk_thread_map 1 (<[0%nat := -1]> (tm_pid map)))
  end.

(** The stores [PID(map, i) = atoi(namelist[i]->d_name)] for successive [i]. *)
Fixpoint tm_fill (i : nat) (names : list string) (pids : list Z) : list Z :=
  match names with
  | [] => pids
  | nm :: names' => tm_fill (S i) names' (<[i := atoi nm]> pids)
  end.

(** [scan] is what scandir finds under /proc/PID/task, [None] when it fails. *)
Definition thread_map__new (malloc_ok : bool) (scan : option (list string)) : option thread_map :=
  match scan with
  | None => None
  | Some names =>
      let namelist := List.filter tm_filter names in
      let items := Z.of_nat (length namelist) in
      if items <=? 0 then None
      else match _thread_map__alloc malloc_ok items with
           | None => None
           | Some map => Some (mk_thread_map items (tm_fill 0 namelist (tm_pid map)))
           end
  end.

Definition thread_map__nr (map : option thread_map) : Z :=
  match map with Some m => tm_nr m | None => 1 end.

Definition PID (map : option thread_map) (i : Z) : res Z :=
  match map with
  | None => Fault FNull
  | Some m => match tm_pid m !! Z.to_nat i with Some p => Ret p | None => Fault FBounds end
  end.

(** The index search; [fuel] counts the remaining slots. *)
Fixpoint getindex_loop (map : option thread_map) (pid i : Z) (fuel : nat) : res Z :=
  match fuel with
  | O => Ret (-1)
  | S fuel' =>
      match PID map i with
      | Fault e => Fault e
      | Ret p => if pid =? p then Ret i else getindex_loop map pid (i + 1) fuel'
      end
  end.

Definition thread_map__getindex (map : option thread_map) (pid : Z) : res Z :=
  getindex_loop map pid 0 (Z.to_nat (thread_map__nr map)).

(** The pids [thread_map__dump] logs. *)
Fixpoint dump_loop (map : option thread_map) (i : Z) (fuel : nat) : res (list Z) :=
  match fuel with
  | O => Ret []
  | S fuel' =>
      match PID map i with
      | Fault e => Fault e
      | Ret p => match dump_loop map (i + 1) fuel' with Ret l => Ret (p :: l) | Fault e => Fault e end
      end
  end.

Definition thread_map__dump (map : option thread_map) : res (list Z) :=
  dump_loop map 0 (Z.to_nat (thread_map__nr map)).

(** ** Theorems *)

(** *** Bit smearing *)

(** [y] has bit [i] set exactly when [x] has one of the bits [i .. i+d-1]. *)
Definition smeared (d x y : Z) : Prop :=
  forall i, 0 <= i -> (Z.testbit y i = true <-> exists k, 0 <= k < d /\ Z.testbit x (i + k) = true).

Lemma smeared_1 x : smeared 1 x x.
Proof.
  intros i Hi. split.
  - intros H. exists 0. rewrite Z.add_0_r. split; [lia|done].
  - intros (k & Hk & H). by replace (i + k) with i in H by lia.
Qed.

Lemma smeared_double d x y : 0 < d -> smeared d x y -> smeared (2 * d) x (Z.lor y (Z.shiftr y d)).
Proof.
  intros Hd HS i Hi. rewrite Z.lor_spec, orb_true_iff, Z.shiftr_spec, (HS i), (HS (i + d)) by lia. split.
  - intros [(k & Hk & H)|(k & Hk & H)]; [exists k|exists (d + k)]; (split; [lia|]).
    + done.
    + by rewrite Z.add_assoc.
  - intros (k & Hk & H). destruct (Z.lt_ge_cases k d); [left; exists k|right; exists (k - d)]; (split; [lia|]).
    + done.
    + by replace (i + d + (k - d)) with (i + k) by lia.
Qed.

Lemma smeared_ones x y :
  0 < x < 2 ^ 32 -> 0 <= y -> smeared 32 x y -> y = 2 ^ (Z.log2 x + 1) - 1.
Proof.
  intros Hx Hy HS. assert (Z.log2 x < 32) as HL by (apply Z.log2_lt_pow2; lia).
  pose proof (Z.log2_nonneg x).
  replace (2 ^ (Z.log2 x + 1) - 1) with (Z.ones (Z.log2 x + 1)) by (rewrite Z.ones_equiv; lia).
  apply Z.bits_inj'. intros i Hi. rewrite Z.testbit_ones_nonneg by lia.
  destruct (i <? Z.log2 x + 1) eqn:E; zbool.
  - apply HS; [done|]. exists (Z.log2 x - i). split; [lia|].
    replace (i + (Z.log2 x - i)) with (Z.log2 x) by lia. apply Z.bit_log2. lia.
  - apply not_true_is_false. intros (k & Hk & Hb)%HS; [|done].
    rewrite Z.bits_above_log2 in Hb by lia. done.
Qed.

Definition smear (x : Z) : Z :=
  let x := Z.lor x (Z.shiftr x 1) in
  let x := Z.lor x (Z.shiftr x 2) in
  let x := Z.lor x (Z.shiftr x 4) in
  let x := Z.lor x (Z.shiftr x 8) in
  Z.lor x (Z.shiftr x 16).

Lemma smear_spec x : 0 < x < 2 ^ 32 -> smear x = 2 ^ (Z.log2 x + 1) - 1.
Proof.
  intros Hx. apply smeared_ones; [done| |].
  - unfold smear. cbv zeta.
    repeat match goal with
    | |- 0 <= Z.lor _ _ => apply Z.lor_nonneg; split
    | |- 0 <= Z.shiftr _ _ => apply Z.shiftr_nonneg
    end; lia.
  - unfold smear. cbv zeta.
    change 32 with (2 * 16) at 1. apply smeared_double; [lia|].
    change 16 with (2 * 8) at 1. apply smeared_double; [lia|].
    change 8 with (2 * 4) at 1. apply smeared_double; [lia|].
    change 4 with (2 * 2) at 1. apply smeared_double; [lia|].
    change 2 with (2 * 1) at 1. apply smeared_double; [lia|]. apply smeared_1.
Qed.

(** __roundup_2 rounds every value from 1 to 2^31 up to the next power of
    two, and wraps to 0 on the values that have no such 32-bit power (0 and
    everything above 2^31). *)
Theorem roundup_2_correct n :
  0 <= n < 2 ^ 32 ->
  __roundup_2 n = if (1 <=? n) && (n <=? 2 ^ 31) then 2 ^ Z.log2_up n else 0.
Proof.
  intros Hn. unfold __roundup_2. cbv zeta.
  change (u32 (smear (u32 (n - 1)) + 1) = if (1 <=? n) && (n <=? 2 ^ 31) then 2 ^ Z.log2_up n else 0).
  destruct (Z.eq_dec n 0) as [->|H0]; [vm_compute; done|].
  destruct (Z.eq_dec n 1) as [->|H1]; [vm_compute; done|].
  rewrite (uwrap_id 32 (n - 1)) by (unfold urange; lia).
  rewrite smear_spec by lia. replace (2 ^ (Z.log2 (n - 1) + 1) - 1 + 1) with (2 ^ (Z.log2 (n - 1) + 1)) by lia.
  rewrite (proj2 (Z.leb_le 1 n)) by lia. simpl andb.
  pose proof (Z.log2_nonneg (n - 1)) as L0.
  destruct (n <=? 2 ^ 31) eqn:E; zbool.
  - unfold Z.log2_up.
    rewrite (proj2 (Z.compare_lt_iff 1 n)) by lia. replace (Z.pred n) with (n - 1) by lia.
    rewrite Z.add_1_r. apply uwrap_id. unfold urange. split; [lia|].
    apply Z.pow_lt_mono_r; [lia|lia|].
    assert (Z.log2 (n - 1) < 31) by (apply Z.log2_lt_pow2; lia). lia.
  - assert (Z.log2 (n - 1) = 31) as ->; [|vm_compute; done].
    apply Z.log2_unique; lia.
Qed.

Lemma roundup_2_correct_witness : __roundup_2 1000 = 1024.
Proof. rewrite (roundup_2_correct 1000); [reflexivity|lia]. Defined.

(** *** readn *)

(** The bytes a list of replies transfers in all. *)
Definition reply_data (r : read_reply) : list Z := match r with RdErr _ => [] | RdData bs => bs end.
Definition data_of (rs : list read_reply) : list Z := concat (map reply_data rs).

(** An interrupted read, or one that made progress. *)
Definition live_reply (r : read_reply) : Prop :=
  match r with RdErr b => b = true | RdData bs => bs <> [] end.

Lemma readn_loop_complete rs n left buf :
  Forall live_reply rs -> (left <= length (data_of rs))%nat ->
  readn_loop rs n left buf = Ret (Z.of_nat n, buf ++ take left (data_of rs)).
Proof.
  intros HF. revert left buf. induction HF as [|r rs Hr HF IH]; intros left buf Hl.
  - unfold data_of in *. simpl in Hl. destruct left; [|simpl in *; lia]. simpl. by rewrite app_nil_r.
  - destruct left as [|left]; [simpl; by rewrite app_nil_r|].
    destruct r as [b|bs]; simpl in Hr.
    + subst b. simpl. by rewrite IH.
    + unfold data_of in *. cbn [map concat reply_data readn_loop] in *. rewrite length_app in Hl.
      assert (0 < length bs)%nat by (destruct bs; simpl; [done|lia]).
      rewrite (proj2 (Nat.eqb_neq _ _)) by (rewrite length_take; lia).
      rewrite IH by (rewrite length_take; lia).
      rewrite take_app, <- app_assoc, length_take. do 5 f_equal. lia.
Qed.

(** When every read either is interrupted or makes progress and together
    they transfer at least [n] bytes, readn returns [n] and stores exactly the
    first [n] bytes of the stream, however the reads were split. *)
Theorem readn_reads_exactly_n rs n :
  Forall live_reply rs -> (n <= length (data_of rs))%nat ->
  readn rs n = Ret (Z.of_nat n, take n (data_of rs)).
Proof. intros. unfold readn. by rewrite readn_loop_complete. Qed.

Lemma readn_reads_exactly_n_witness :
  readn [RdErr true; RdData [1; 2; 3]; RdErr true; RdData [4; 5; 6; 7; 8; 9]] 8 = Ret (8, [1; 2; 3; 4; 5; 6; 7; 8]).
Proof.
  refine (readn_reads_exactly_n [RdErr true; RdData [1; 2; 3]; RdErr true; RdData [4; 5; 6; 7; 8; 9]] 8 _ _).
  - repeat constructor; discriminate.
  - vm_compute; lia.
Defined.

(** *** Arrays *)

(** When the byte size of the elements does not overflow uint32_t, every
    index below [elem_num] has an entry that lies inside the allocation, entries
    of different indices do not overlap, and larger indices get the null
    pointer. *)
Theorem array_entries_in_bounds arr elem_num elem_size :
  0 <= elem_num -> 0 <= elem_size -> elem_num * elem_size < 2 ^ 32 ->
  array__new true elem_num elem_size = Some arr ->
  arr_bytes arr = elem_num * elem_size /\
  (forall i, 0 <= i < elem_num -> exists off, array__entry arr i = Some off /\
     0 <= off /\ off + elem_size <= arr_bytes arr) /\
  (forall i j oi oj, 0 <= i < j -> array__entry arr i = Some oi -> array__entry arr j = Some oj ->
     oi + elem_size <= oj) /\
  (forall i, elem_num <= i -> array__entry arr i = None).
Proof.
  intros Hn Hs Hp. unfold array__new, zalloc, sizeof_array.
  rewrite (uwrap_id 32) by (unfold urange; nia). rewrite (uwrap_id 64) by (unfold urange; nia).
  rewrite length_replicate. intros [= <-]. unfold array__entry. cbn [arr_elem_num arr_elem_size arr_bytes].
  split_and!.
  - nia.
  - intros i Hi. rewrite (proj2 (Z.leb_gt _ _)) by lia. eexists. split; [done|].
    rewrite uwrap_id by (unfold urange; nia). nia.
  - intros i j oi oj Hij. destruct (elem_num <=? i) eqn:E1; [done|]. destruct (elem_num <=? j) eqn:E2; [done|].
    zbool. intros [= <-] [= <-]. rewrite !uwrap_id by (unfold urange; nia). nia.
  - intros i Hi. by rewrite (proj2 (Z.leb_le _ _)).
Qed.

Lemma array_entries_in_bounds_witness :
  exists arr, array__new true 3 16 = Some arr /\ array__entry arr 3 = None.
Proof.
  exists (mk_array 3 16 48). split; [reflexivity|].
  refine (proj2 (proj2 (proj2 (array_entries_in_bounds (mk_array 3 16 48) 3 16 _ _ _ eq_refl))) 3 _); lia.
Defined.

(** The 32-bit product can wrap: the allocation is then smaller than the
    elements [array__entry] hands out. *)
Lemma array_new_overflow :
  exists arr, array__new true 65537 65536 = Some arr /\ arr_bytes arr = 65536 /\ array__entry arr 2 = Some 131072.
Proof.
  eexists. split; [unfold array__new, zalloc; reflexivity|].
  cbn [arr_bytes]. rewrite length_replicate. split; vm_compute; reflexivity.
Qed.

(** *** Thread maps *)

Lemma tm_fill_spec i names pids :
  length pids = (i + length names)%nat ->
  tm_fill i names pids = take i pids ++ map atoi names.
Proof.
  revert i pids. induction names as [|nm names IH]; intros i pids Hl; simpl in *.
  - rewrite app_nil_r, take_ge; [done|lia].
  - rewrite IH by (rewrite length_insert; lia).
    rewrite (take_S_r _ _ (atoi nm)) by (apply list_lookup_insert_eq; lia).
    rewrite take_insert_ge by lia. by rewrite <- app_assoc.
Qed.

Lemma thread_map_new_pids names :
  List.filter tm_filter names <> [] ->
  thread_map__new true (Some names) =
    Some (mk_thread_map (Z.of_nat (length (List.filter tm_filter names))) (map atoi (List.filter tm_filter names))).
Proof.
  intros Hne. unfold thread_map__new. set (nl := List.filter tm_filter names) in *.
  rewrite (proj2 (Z.leb_gt _ _)) by (destruct nl; simpl; [done|lia]).
  unfold _thread_map__alloc, zalloc. do 2 f_equal. cbn [tm_pid].
  rewrite Nat2Z.id. rewrite tm_fill_spec by (by rewrite length_replicate). by rewrite take_0.
Qed.

Lemma getindex_loop_spec m pid i fuel :
  length (tm_pid m) = (i + fuel)%nat ->
  getindex_loop (Some m) pid (Z.of_nat i) fuel =
  Ret (match list_find (fun p => pid = p) (drop i (tm_pid m)) with Some (k, _) => Z.of_nat (i + k) | None => -1 end).
Proof.
  revert i. induction fuel as [|fuel IH]; intros i Hl; simpl.
  - rewrite drop_ge by lia. done.
  - rewrite Nat2Z.id. destruct (lookup_lt_is_Some_2 (tm_pid m) i) as [p Hp]; [lia|].
    rewrite Hp. rewrite (drop_S _ _ _ Hp). simpl. destruct (pid =? p) eqn:E; zbool.
    + rewrite decide_True by done. do 2 f_equal. lia.
    + rewrite decide_False by done. replace (Z.of_nat i + 1) with (Z.of_nat (S i)) by lia.
      rewrite IH by lia. destruct (list_find _ _) as [[k q]|]; simpl; do 2 f_equal; lia.
Qed.

(** On the map built from a task directory, thread_map__getindex returns
    the index of the first directory entry (hidden ones skipped) whose number
    is the pid asked for, and -1 when there is none. *)
Theorem thread_map_getindex_correct names pid :
  List.filter tm_filter names <> [] ->
  exists m, thread_map__new true (Some names) = Some m /\
    thread_map__nr (Some m) = Z.of_nat (length (List.filter tm_filter names)) /\
    thread_map__getindex (Some m) pid =
      Ret (match list_find (fun p => pid = p) (map atoi (List.filter tm_filter names)) with
           | Some (k, _) => Z.of_nat k
           | None => -1
           end).
Proof.
  intros Hne. eexists. split; [by apply thread_map_new_pids|]. split; [done|].
  unfold thread_map__getindex. cbn [thread_map__nr tm_nr]. rewrite Nat2Z.id.
  rewrite (getindex_loop_spec _ _ 0) by (simpl; by rewrite length_map). done.
Qed.

Lemma thread_map_getindex_correct_witness :
  exists m, thread_map__new true (Some ["."; ".."; "4711"; "4712"]) = Some m /\
    thread_map__getindex (Some m) 4712 = Ret 1.
Proof.
  destruct (thread_map_getindex_correct ["."; ".."; "4711"; "4712"] 4712) as (m & H1 & _ & H2).
  - vm_compute. discriminate.
  - exists m. split; [exact H1|]. rewrite H2. vm_compute. reflexivity.
Defined.
