(* ===== verification/Evsel.v ===== *)
(** * One performance event: probe/evsel.c and probe/evsel.h

    [struct prof_evsel] and every operation on it.  The kernel is the
    environment: the class [Kernel] gives its reply to a call from the history
    of the calls made so far, and each operation appends to that history
    ([trace], newest first), so that a theorem can say which system calls an
    operation issues and which descriptors and mappings are live after it. *)
From stdpp Require Import base gmap list strings.
From Stdlib Require Import Ascii.
From S2P Require Import Prelude Pmu ProbeUtil.

(** The members of struct perf_event_attr that the program writes; all others
    are cleared by memset. *)
Record perf_event_attr : Type := mk_attr {
  at_type : Z;
  at_size : Z;
  at_config : Z;
  at_disabled : bool;
  at_inherit : bool;
  at_exclude_user : bool;
  at_exclude_kernel : bool
}.

(** The members of struct perf_event_mmap_page that the program reads. *)
Record mmap_page : Type := mk_page {
  pc_lock : Z;
  pc_index : Z;
  pc_offset : Z;
  pc_time_enabled : Z;
  pc_time_running : Z;
  pc_cap_user_rdpmc : bool;
  pc_cap_user_time : bool;
  pc_pmc_width : Z;
  pc_time_shift : Z;
  pc_time_mult : Z;
  pc_time_offset : Z
}.

(** System calls with the reply they got. *)
Inductive event : Type :=
| EOpen (attr : perf_event_attr) (pid r : Z)       (* r < 0: failed with errno -r *)
| EIoctlEnable (fd : Z)
| EIoctlDisable (fd : Z)
| EMmap (fd r : Z)                                 (* r < 0: MAP_FAILED *)
| EMunmap (addr : Z)
| EClose (fd : Z)
| EGetrlimit (r : option Z)                        (* the hard limit *)
| ESetrlimit (cur max : Z) (ok : bool).

Abbreviation trace := (list event).

Class Kernel : Type := {
  k_open : trace -> perf_event_attr -> Z -> Z;
  k_mmap : trace -> Z -> Z;
  k_getrlimit : trace -> option Z;
  k_setrlimit : trace -> Z -> Z -> bool;
  (* the page mapped at an address, as it is after the calls made so far *)
  k_page : trace -> Z -> mmap_page
}.

Definition EMFILE : Z := 24.

Record prof_evsel : Type := mk_evsel {
  ev_evlist : Z;
  ev_attr : perf_event_attr;
  ev_fd : Z;
  ev_hwc_index : Z;
  ev_mm_page : Z;
  ev_is_open : bool;
  ev_is_enable : bool;
  ev_idx : Z;
  ev_name : option string
}.

Definition set_fd (e : prof_evsel) (x : Z) : prof_evsel :=
  mk_evsel (ev_evlist e) (ev_attr e) x (ev_hwc_index e) (ev_mm_page e) (ev_is_open e) (ev_is_enable e) (ev_idx e) (ev_name e).
Definition set_hwc_index (e : prof_evsel) (x : Z) : prof_evsel :=
  mk_evsel (ev_evlist e) (ev_attr e) (ev_fd e) x (ev_mm_page e) (ev_is_open e) (ev_is_enable e) (ev_idx e) (ev_name e).
Definition set_mm_page (e : prof_evsel) (x : Z) : prof_evsel :=
  mk_evsel (ev_evlist e) (ev_attr e) (ev_fd e) (ev_hwc_index e) x (ev_is_open e) (ev_is_enable e) (ev_idx e) (ev_name e).
Definition set_is_open (e : prof_evsel) (x : bool) : prof_evsel :=
  mk_evsel (ev_evlist e) (ev_attr e) (ev_fd e) (ev_hwc_index e) (ev_mm_page e) x (ev_is_enable e) (ev_idx e) (ev_name e).
Definition set_is_enable (e : prof_evsel) (x : bool) : prof_evsel :=
  mk_evsel (ev_evlist e) (ev_attr e) (ev_fd e) (ev_hwc_index e) (ev_mm_page e) (ev_is_open e) x (ev_idx e) (ev_name e).
Definition set_evlist (e : prof_evsel) (x : Z) : prof_evsel :=
  mk_evsel x (ev_attr e) (ev_fd e) (ev_hwc_index e) (ev_mm_page e) (ev_is_open e) (ev_is_enable e) (ev_idx e) (ev_name e).

Definition zero_attr : perf_event_attr := mk_attr 0 0 0 false false false false.

(** What zalloc leaves in a new structure. *)
Definition zero_evsel : prof_evsel := mk_evsel NULL zero_attr 0 0 NULL false false 0 None.

(** ** Construction *)

(** The field writes of [prof_evsel__init]; the list node it initialises too
    is a separate object of the store (see Evlist). *)
Definition prof_evsel__init_fields (evsel : prof_evsel) (attr : perf_event_attr) (idx : Z) : prof_evsel :=
  mk_evsel NULL attr (ev_fd evsel) (ev_hwc_index evsel) (ev_mm_page evsel) false (ev_is_enable evsel) idx (ev_name evsel).

(** [malloc_ok] is the outcome of the allocation, [dup_ok] of strdup(). *)
Definition prof_evsel__new (malloc_ok dup_ok : bool) (attr : option perf_event_attr) (name : string) : option prof_evsel :=
  if malloc_ok then
    let evsel := mk_evsel NULL zero_attr 0 0 NULL false false 0 (if dup_ok then Some name else None) in
    Some (match attr with Some a => prof_evsel__init_fields evsel a 0 | None => evsel end)
  else None.

(** ** Life cycle *)
Section LifeCycle.
Context `{K : Kernel}.

Definition sys_open (attr : perf_event_attr) (pid : Z) : M trace Z := fun t =>
  let r := k_open t attr pid in Ret (r, EOpen attr pid r :: t).
Definition ioctl_enable (fd : Z) : M trace unit := modify (cons (EIoctlEnable fd)).
Definition ioctl_disable (fd : Z) : M trace unit := modify (cons (EIoctlDisable fd)).
Definition sys_mmap (fd : Z) : M trace Z := fun t =>
  let r := k_mmap t fd in Ret (r, EMmap fd r :: t).
Definition sys_munmap (addr : Z) : M trace unit := modify (cons (EMunmap addr)).
Definition sys_close (fd : Z) : M trace unit := modify (cons (EClose fd)).
Definition sys_getrlimit : M trace (option Z) := fun t =>
  let r := k_getrlimit t in Ret (r, EGetrlimit r :: t).
Definition sys_setrlimit (cur max : Z) : M trace bool := fun t =>
  let r := k_setrlimit t cur max in Ret (r, ESetrlimit cur max r :: t).

Definition prof_evsel__disable (evsel : prof_evsel) : M trace prof_evsel :=
  if negb (ev_is_enable evsel) then mret evsel else
  if ev_fd evsel <? 0 then mret evsel else
  (* unmap *)
  evsel ← (if negb (ev_mm_page evsel =? NULL) then
             sys_munmap (ev_mm_page evsel) ;; mret (set_mm_page evsel NULL)
           else mret evsel) ;
  (* disable event *)
  ioctl_disable (ev_fd evsel) ;;
  mret (set_is_enable evsel true).

Definition prof_evsel__enable (evsel : prof_evsel) : M trace (Z * prof_evsel) :=
  if negb (ev_is_open evsel) then mret (1, evsel) else
  if ev_is_enable evsel then mret (0, evsel) else
  if ev_fd evsel <? 0 then mret (1, evsel) else
  ioctl_enable (ev_fd evsel) ;;
  r ← sys_mmap (ev_fd evsel) ;
  if r <? 0 then
    (* MAP_FAILED: mm_page is reset, so out_failed only disables the event *)
    let evsel := set_mm_page evsel NULL in
    ioctl_disable (ev_fd evsel) ;;
    mret (-1, evsel)
  else
    let evsel := set_mm_page evsel r in
    pc ← gets (fun t => k_page t r) ;
    let evsel := set_hwc_index evsel (pc_index pc) in
    mret (0, set_is_enable evsel true).

Definition prof_evsel__close (evsel : prof_evsel) : M trace prof_evsel :=
  if negb (ev_is_open evsel) then mret evsel else
  evsel ← (if ev_is_enable evsel then prof_evsel__disable evsel else mret evsel) ;
  if ev_fd evsel <? 0 then mret evsel else
  sys_close (ev_fd evsel) ;;
  mret (set_is_open (set_fd evsel (-1)) false).

(** [prof_evsel__delete] up to the two free() calls, which the owner of the
    store makes. *)
Definition prof_evsel__delete_fields (evsel : prof_evsel) : M trace prof_evsel :=
  if ev_is_open evsel then prof_evsel__close evsel else mret evsel.

(** The [set_rlimit] enumeration. *)
Definition NO_CHANGE : Z := 0.
Definition SET_TO_MAX : Z := 1.
Definition INCREASED_MAX : Z := 2.

(** One round from the label [retry_open]; [n] bounds the rounds. *)
Fixpoint open_loop (n : nat) (evsel : prof_evsel) (pid set_rlimit : Z) : M trace (Z * prof_evsel) :=
  match n with
  | O => fail FFuel
  | S n' =>
      r ← sys_open (ev_attr evsel) pid ;
      if 0 <=? r then mret (0, set_is_open (set_fd evsel r) true)
      else
        (* try_fallback *)
        let evsel := set_fd evsel (-1) in
        let err := r in
        let fail_open := mret (err, set_is_open evsel false) in
        if (err =? - EMFILE) && (set_rlimit <? INCREASED_MAX) then
          l ← sys_getrlimit ;
          match l with
          | None => fail_open
          | Some rlim_max =>
              let cur := if set_rlimit =? NO_CHANGE then rlim_max else u64 (rlim_max + 1000) in
              let max := if set_rlimit =? NO_CHANGE then rlim_max else cur in
              ok ← sys_setrlimit cur max ;
              if (ok : bool) then open_loop n' evsel pid (set_rlimit + 1) else fail_open
          end
        else fail_open
  end.

(** Three rounds are enough: each retry raises [set_rlimit]. *)
Definition prof_evsel__open (evsel : prof_evsel) (pid : Z) : M trace (Z * prof_evsel) :=
  open_loop 3 evsel pid NO_CHANGE.
End LifeCycle.

(** ** Event specifications *)

(** strchr(): the text before the first [c] and the text after it. *)
Fixpoint split_char (c : ascii) (s : string) : option (string * string) :=
  match s with
  | EmptyString => None
  | String a s' =>
      if Ascii.eqb a c then Some (EmptyString, s')
      else match split_char c s' with Some (l, r) => Some (String a l, r) | None => None end
  end.

(** The scan of the option letters: whether 'u' and 'k' occur. *)
Fixpoint scan_opt (opt : string) (user kernel : bool) : bool * bool :=
  match opt with
  | EmptyString => (user, kernel)
  | String c opt' =>
      if Ascii.eqb c "u"%char then scan_opt opt' true kernel
      else if Ascii.eqb c "k"%char then scan_opt opt' user true
      else scan_opt opt' user kernel
  end.

Definition __evsel__parse_opt (opt : string) (attr : perf_event_attr) : perf_event_attr :=
  let '(user, kernel) := scan_opt opt false false in
  if user && negb kernel then
    mk_attr (at_type attr) (at_size attr) (at_config attr) (at_disabled attr) (at_inherit attr) (at_exclude_user attr) true
  else if negb user && kernel then
    mk_attr (at_type attr) (at_size attr) (at_config attr) (at_disabled attr) (at_inherit attr) true (at_exclude_kernel attr)
  else attr.

(** The name and attributes of "<event>[:<options>]", [None] for the null
    pointer; the event table is consulted by name.  [dup_ok] is the outcome of
    strdup(), whose result is used unchecked. *)
Definition prof_evsel__parse `{PerfAbi} (dup_ok : bool) (str : string) : M pmu_state (option (string * perf_event_attr)) :=
  if negb dup_ok then fail FNull else
  let '(name, opt) :=
    match split_char ":"%char str with
    | None => (str, None)
    | Some (l, r) => (l, if (0 <? String.length r)%nat then Some r else None)
    end in
  pmu ← prof_pmu__find name ;
  match pmu with
  | None => mret None
  | Some pmu =>
      let attr := mk_attr (pmu_type pmu) sizeof_perf_event_attr (pmu_config pmu) true false false true in
      mret (Some (name, match opt with Some o => __evsel__parse_opt o attr | None => attr end))
  end.

(** ** Reading the counter *)

(** [data] is uninitialised when read() hits the end of the file: [junk] are
    the bytes the stack held. *)
Definition prof_evsel__read (junk : list Z) (replies : list read_reply) (evsel : prof_evsel) : res Z :=
  if negb (ev_is_enable evsel) then Ret 0 else
  if ev_fd evsel <? 0 then Ret UINT64_MAX else
  match readn replies 8 with
  | Fault e => Fault e
  | Ret (r, buf) => if r <? 0 then Ret UINT64_MAX else Ret (le_dec (buf ++ drop (length buf) junk))
  end.

(** Reading the counter from user space.  The kernel may rewrite the page
    between any two of our accesses: [pg] is the page at each access, [tsc] and
    [pmc] the values RDTSC and RDPMC return, all indexed by the number of
    accesses made so far, which is the state. *)
Section MmapRead.
Context (pg : nat -> mmap_page) (tsc : nat -> Z) (pmc : nat -> Z -> Z).

Definition pc_get {A} (f : mmap_page -> A) : M nat A := fun t => Ret (f (pg t), S t).
Definition rdtsc : M nat Z := fun t => Ret (u64 (tsc t), S t).
Definition rdpmc (counter : Z) : M nat Z := fun t => Ret (u64 (pmc t counter), S t).

(** [x <<= 64 - width; x >>= 64 - width] on an int64_t. *)
Definition sext (width x : Z) : Z := Z.shiftr (s64 (Z.shiftl x (64 - width))) (64 - width).

(** The time correction: [delta] is left alone unless the page supports it. *)
Definition mmap_read_delta (enabled running delta : Z) : M nat Z :=
  cap_user_time ← pc_get pc_cap_user_time ;
  if (cap_user_time : bool) && negb (enabled =? running) then
    cyc ← rdtsc ;
    time_offset ← pc_get pc_time_offset ;
    time_mult ← pc_get pc_time_mult ;
    time_shift ← pc_get pc_time_shift ;
    if 64 <=? time_shift then fail FShift else
    let quot := Z.shiftr cyc time_shift in
    let rem := Z.land cyc (u64 (Z.shiftl 1 time_shift - 1)) in
    mret (u64 (time_offset + u64 (quot * time_mult) + Z.shiftr (u64 (rem * time_mult)) time_shift))
  else mret delta.

(** The measurement; [None] is the early return. *)
Definition mmap_read_count : M nat (option Z) :=
  index ← pc_get pc_index ;
  width ← pc_get pc_pmc_width ;
  offset ← pc_get pc_offset ;
  if (width <=? 0) || (64 <? width) then fail FShift else
  let count := sext width (s64 offset) in
  cap_user_rdpmc ← pc_get pc_cap_user_rdpmc ;
  if (cap_user_rdpmc : bool) && negb (index =? 0) then
    v ← rdpmc (u32 (index - 1)) ;
    let p := sext width (s64 v) in
    mret (Some (s64 (count + p)))
  else mret None.

(** One round of the retry loop; the first component is the loop's exit test. *)
Definition mmap_read_round (delta : Z) : M nat (option (bool * Z * Z * Z * Z)) :=
  seq ← pc_get pc_lock ;
  enabled ← pc_get pc_time_enabled ;
  running ← pc_get pc_time_running ;
  delta ← mmap_read_delta enabled running delta ;
  let enabled := u64 (enabled + delta) in
  c ← mmap_read_count ;
  match c with
  | None => mret None
  | Some count =>
      let running := u64 (running + delta) in
      seq' ← pc_get pc_lock ;
      mret (Some (seq =? seq', count, enabled, running, delta))
  end.

(** [n] bounds the rounds; the result is the value returned. *)
Fixpoint mmap_read_self (n : nat) (delta : Z) : M nat Z :=
  match n with
  | O => fail FFuel
  | S n' =>
      r ← mmap_read_round delta ;
      match r with
      | None => mret UINT64_MAX
      | Some (stable, count, _, _, delta) =>
          if (stable : bool) then mret (u64 count) else mmap_read_self n' delta
      end
  end.

Definition prof_evsel__rdpmc (n : nat) (evsel : prof_evsel) : M nat Z :=
  if negb (ev_is_enable evsel) then mret 0
  else if ev_mm_page evsel =? NULL then fail FNull
  else mmap_read_self n 0.
End MmapRead.

(** ** Opening terminates *)

Definition is_open_call (e : event) : bool := match e with EOpen _ _ _ => true | _ => false end.
Definition open_calls (t : trace) : nat := length (List.filter is_open_call t).

Section OpenTheory.
Context `{K : Kernel}.

Lemma open_loop_spec n evsel pid sr t :
  0 <= sr <= INCREASED_MAX -> INCREASED_MAX < sr + Z.of_nat n ->
  exists r ev t', open_loop n evsel pid sr t = Ret ((r, ev), t') /\
    (open_calls t' <= open_calls t + n)%nat /\
    ((r = 0 /\ ev = set_is_open (set_fd evsel (ev_fd ev)) true /\ 0 <= ev_fd ev) \/
     (r < 0 /\ ev = set_is_open (set_fd evsel (-1)) false)).
Proof.
  unfold INCREASED_MAX. revert evsel sr t.
  induction n as [|n IH]; intros evsel sr t Hsr Hn; [lia|]. cbn [open_loop].
  unfold sys_open at 1. unfold mbind at 1, M_bind at 1.
  set (r := k_open t (ev_attr evsel) pid). cbv zeta.
  assert (forall t, open_calls (EOpen (ev_attr evsel) pid r :: t) = S (open_calls t)) as HO by done.
  destruct (0 <=? r) eqn:E0; zbool.
  { do 3 eexists. split; [done|].
    split; [rewrite HO; lia|]. left. split_and!; done || (simpl; lia). }
  assert (forall t', open_calls t' = S (open_calls t) -> exists r' ev t'',
    (mret (r, set_is_open (set_fd evsel (-1)) false) : M trace (Z * prof_evsel)) t' = Ret ((r', ev), t'') /\
    (open_calls t'' <= open_calls t + S n)%nat /\
    ((r' = 0 /\ ev = set_is_open (set_fd evsel (ev_fd ev)) true /\ 0 <= ev_fd ev) \/
     (r' < 0 /\ ev = set_is_open (set_fd evsel (-1)) false))) as Hgive.
  { intros t' Ht'. do 3 eexists. split; [done|]. split; [lia|]. right. split; [lia|done]. }
  destruct ((r =? - EMFILE) && (sr <? INCREASED_MAX)) eqn:E1; [|apply Hgive, HO]. zbool. unfold INCREASED_MAX in *.
  unfold sys_getrlimit at 1. unfold mbind at 1, M_bind at 1. cbv zeta.
  set (l := k_getrlimit _). destruct l as [mx|]; [|apply Hgive; done].
  unfold sys_setrlimit at 1. unfold mbind at 1, M_bind at 1. cbv zeta. fold NO_CHANGE.
  match goal with |- context [k_setrlimit ?a ?b ?c] => destruct (k_setrlimit a b c) end; [|apply Hgive; done].
  match goal with |- context [open_loop n _ _ _ ?tt] => set (t2 := tt) end.
  destruct (IH (set_fd evsel (-1)) (sr + 1) t2) as (r' & ev & t' & E & Hc & Hr); [lia|lia|].
  exists r', ev, t'. split; [done|]. split; [unfold t2 in Hc; unfold open_calls in *; simpl in *; lia|].
  destruct Hr as [(? & ? & ?)|(? & ?)]; [left|right]; done.
Qed.

(** Prof_evsel__open always returns, after at most three attempts; it
    reports 0 with a valid descriptor and the event marked open, or a negative
    error with no descriptor and the event marked closed, and touches no other
    member. *)
Theorem evsel_open_total evsel pid t :
  exists r ev t', prof_evsel__open evsel pid t = Ret ((r, ev), t') /\
    (open_calls t' <= open_calls t + 3)%nat /\
    ((r = 0 /\ ev = set_is_open (set_fd evsel (ev_fd ev)) true /\ 0 <= ev_fd ev) \/
     (r < 0 /\ ev = set_is_open (set_fd evsel (-1)) false)).
Proof. apply open_loop_spec; unfold NO_CHANGE, INCREASED_MAX; lia. Qed.
End OpenTheory.

(** ** Resources

    [live_fds] and [live_maps] replay a trace: the descriptors opened and not
    closed, the pages mapped and not unmapped. *)
Fixpoint live_fds (t : trace) : list Z :=
  match t with
  | [] => []
  | EOpen _ _ r :: t' => if 0 <=? r then r :: live_fds t' else live_fds t'
  | EClose fd :: t' => List.remove Z.eq_dec fd (live_fds t')
  | _ :: t' => live_fds t'
  end.

Fixpoint live_maps (t : trace) : list Z :=
  match t with
  | [] => []
  | EMmap _ r :: t' => if 0 <=? r then r :: live_maps t' else live_maps t'
  | EMunmap a :: t' => List.remove Z.eq_dec a (live_maps t')
  | _ :: t' => live_maps t'
  end.

(** mmap(2) with a null hint never maps the zero page. *)
Class MmapNonNull `{K : Kernel} : Prop := mmap_nonnull : forall t fd, k_mmap t fd <> 0.

Section Resources.
Context `{K : Kernel}.

(** The operations in the order a client may call them: prof_evlist__start
    opens an event only when it is not open. *)
Inductive ev_step : prof_evsel * trace -> prof_evsel * trace -> Prop :=
| step_open ev t pid r ev' t' :
    ev_is_open ev = false -> prof_evsel__open ev pid t = Ret ((r, ev'), t') -> ev_step (ev, t) (ev', t')
| step_enable ev t r ev' t' :
    prof_evsel__enable ev t = Ret ((r, ev'), t') -> ev_step (ev, t) (ev', t')
| step_disable ev t ev' t' :
    prof_evsel__disable ev t = Ret (ev', t') -> ev_step (ev, t) (ev', t')
| step_close ev t ev' t' :
    prof_evsel__close ev t = Ret (ev', t') -> ev_step (ev, t) (ev', t').

Definition resources_ok (s : prof_evsel * trace) : Prop :=
  live_fds s.2 = (if ev_is_open s.1 then [ev_fd s.1] else []) /\
  live_maps s.2 = (if ev_mm_page s.1 =? NULL then [] else [ev_mm_page s.1]) /\
  (ev_is_open s.1 = true -> 0 <= ev_fd s.1) /\
  (ev_mm_page s.1 <> NULL -> ev_is_open s.1 = true /\ ev_is_enable s.1 = true).

Lemma open_loop_fds n ev pid sr t r ev' t' :
  open_loop n ev pid sr t = Ret ((r, ev'), t') ->
  live_fds t' = (if ev_is_open ev' then [ev_fd ev'] else []) ++ live_fds t /\ live_maps t' = live_maps t.
Proof.
  revert ev sr t. induction n as [|n IH]; intros ev sr t; [done|]. cbn [open_loop]. intros H.
  minv H. injection Hm as <- <-. destruct (0 <=? k_open t (ev_attr ev) pid) eqn:E0.
  { injection H as <- <- <-. simpl. by rewrite E0. }
  destruct ((_ =? _) && _); [|injection H as <- <- <-; simpl; by rewrite E0].
  minv H. injection Hm as <- <-. destruct (k_getrlimit _) as [mx|];
    [|injection H as <- <- <-; simpl; by rewrite E0].
  minv H. injection Hm as <- <-.
  match type of H with context [k_setrlimit ?a ?b ?c] => destruct (k_setrlimit a b c) end;
    [|injection H as <- <- <-; simpl; by rewrite E0].
  apply IH in H. simpl in H. by rewrite E0 in H.
Qed.

Lemma disable_resources ev t ev' t' :
  resources_ok (ev, t) -> prof_evsel__disable ev t = Ret (ev', t') ->
  resources_ok (ev', t') /\ ev_is_open ev' = ev_is_open ev /\ ev_fd ev' = ev_fd ev /\
  (ev_is_open ev = true -> ev_is_enable ev = true -> ev_mm_page ev' = NULL).
Proof.
  unfold resources_ok; cbn [fst snd]. intros (HF & HM & HO & HE) H. unfold prof_evsel__disable in H.
  destruct (ev_is_enable ev) eqn:En; simpl in H.
  2:{ injection H as <- <-. rewrite En. split_and!; auto. by intros ? [=]. }
  destruct (ev_fd ev <? 0) eqn:Efd; zbool.
  { injection H as <- <-. rewrite En. split_and!; auto. intros Ho. apply HO in Ho. lia. }
  destruct (ev_mm_page ev =? NULL) eqn:Em; simpl in H.
  - injection H as <- <-. simpl. rewrite Em. zbool. split_and!; auto; done.
  - injection H as <- <-. simpl. rewrite HM. simpl. zbool.
    destruct (Z.eq_dec (ev_mm_page ev) (ev_mm_page ev)); [|done]. split_and!; auto; done.
Qed.

Lemma ev_step_resources s s' : MmapNonNull -> ev_step s s' -> resources_ok s -> resources_ok s'.
Proof.
  intros HNN [ev t pid r ev' t' Hc H|ev t r ev' t' H|ev t ev' t' H|ev t ev' t' H] HR.
  - destruct HR as (HF & HM & HO & HE). cbn [fst snd] in *. rewrite Hc in HF, HE.
    destruct (open_loop_spec 3 ev pid NO_CHANGE t) as (r0 & ev0 & t0 & E & _ & Hev); [done..|].
    unfold prof_evsel__open in H. rewrite E in H.
    injection H as <- <- <-. apply open_loop_fds in E as [EF EM]. rewrite HF, app_nil_r in EF.
    assert (ev_mm_page ev = NULL) as Hmm by (destruct (Z.eq_dec (ev_mm_page ev) NULL) as [|[? _]%HE]; done).
    assert (ev_is_open ev0 = true -> 0 <= ev_fd ev0) by (destruct Hev as [(_ & _ & ?)|(_ & ->)]; done).
    assert (ev_mm_page ev0 = NULL) by (destruct Hev as [(_ & -> & _)|(_ & ->)]; done).
    rewrite Hmm in HM. unfold resources_ok; cbn [fst snd]. split_and!; try done.
    rewrite EM, HM. by replace (ev_mm_page ev0) with NULL.
  - unfold prof_evsel__enable in H. destruct (ev_is_open ev) eqn:Eo; simpl in H; [|by injection H as _ <- <-].
    destruct (ev_is_enable ev) eqn:En; [by injection H as _ <- <-|].
    destruct (ev_fd ev <? 0) eqn:Efd; [by injection H as _ <- <-|].
    destruct HR as (HF & HM & HO & HE). cbn [fst snd] in *.
    assert (ev_mm_page ev = NULL) as Hmm.
    { destruct (Z.eq_dec (ev_mm_page ev) NULL) as [|[_ Hx]%HE]; [done|congruence]. }
    rewrite Hmm, Eo in *. simpl in HM.
    minv H. injection Hm as <- <-. minv H. injection Hm as <- <-.
    pose proof (HNN (EIoctlEnable (ev_fd ev) :: t) (ev_fd ev)) as Hnn.
    set (m := k_mmap _ _) in *. destruct (m <? 0) eqn:E.
    + injection H as _ <- <-. unfold resources_ok. cbn -[m]. rewrite Eo.
      zbool. rewrite (proj2 (Z.leb_gt 0 m)) by lia. split_and!; auto; done.
    + injection H as _ <- <-. unfold resources_ok. cbn -[m]. rewrite Eo. zbool.
      rewrite (proj2 (Z.leb_le 0 m)) by lia. rewrite (proj2 (Z.eqb_neq m NULL)) by done.
      rewrite HM. split_and!; auto.
  - eapply disable_resources in H as [? _]; eauto.
  - unfold prof_evsel__close in H. destruct (ev_is_open ev) eqn:Eo; simpl in H; [|by injection H as <- <-].
    assert (exists ev1 t1, (if ev_is_enable ev then prof_evsel__disable ev else mret ev) t = Ret (ev1, t1) /\
      resources_ok (ev1, t1) /\ ev_is_open ev1 = true /\ ev_mm_page ev1 = NULL) as (ev1 & t1 & E1 & HR1 & Ho1 & Hm1).
    { destruct (ev_is_enable ev) eqn:En.
      - minv H. pose proof Hm as Hm'. eapply disable_resources in Hm as (? & ? & ? & ?); [|exact HR].
        exists a, s0. split_and!; auto; (by rewrite ?H1) || auto.
      - exists ev, t. destruct HR as (? & ? & ? & HE). cbn [fst snd] in *. split_and!; auto.
        + split_and!; auto.
        + destruct (Z.eq_dec (ev_mm_page ev) NULL) as [|[_ Hx]%HE]; [done|congruence]. }
    rewrite (bind_ret _ _ _ _ _ E1) in H. destruct HR1 as (HF & HM & HO & _). cbn [fst snd] in *.
    rewrite Ho1, Hm1 in *. specialize (HO eq_refl). rewrite (proj2 (Z.ltb_ge _ _) HO) in H.
    injection H as <- <-. unfold resources_ok. cbn. rewrite HF, Hm1. simpl.
    destruct (Z.eq_dec (ev_fd ev1) (ev_fd ev1)); [|done]. split_and!; auto; done.
Qed.

(** C37: whatever sequence of open, enable, disable and close calls a client
    makes on a freshly initialised event, as long as it does not open an event
    that is open, the descriptors and mappings that the kernel still holds for it
    are exactly the ones the structure names: one descriptor while it is open,
    none otherwise, and at most one mapping.  A closed event holds nothing.  An
    event that is open and opened again loses its first descriptor: it stays
    open in the kernel, beside the new one.  The kernel is assumed never to map
    the page at address zero. *)
Theorem evsel_resources_invariant (HNN : MmapNonNull) attr idx ev t :
  rtc ev_step (prof_evsel__init_fields zero_evsel attr idx, []) (ev, t) ->
  resources_ok (ev, t) /\ (ev_is_open ev = false -> live_fds t = [] /\ live_maps t = []) /\
  (ev_is_open ev = true -> forall pid r ev' t', prof_evsel__open ev pid t = Ret ((r, ev'), t') ->
     live_fds t' = (if ev_is_open ev' then [ev_fd ev'] else []) ++ [ev_fd ev]).
Proof.
  intros H. assert (resources_ok (ev, t)) as HR.
  { remember (prof_evsel__init_fields zero_evsel attr idx, []) as s0 eqn:E0.
    assert (resources_ok s0) as H0 by (rewrite E0; split_and!; done). clear E0.
    revert H0. induction H as [|s1 s2 s3 Hs _ IH]; [done|]. intros H1. apply IH.
    by eapply ev_step_resources. }
  split; [done|]. destruct HR as (HF & HM & _ & HE). cbn [fst snd] in *. split; intros Ho; rewrite Ho in *.
  - split; [done|]. destruct (Z.eq_dec (ev_mm_page ev) NULL) as [Hz|[? _]%HE]; [|done]. rewrite HM, Hz. done.
  - intros pid r ev' t' [E _]%open_loop_fds. by rewrite E, HF.
Qed.
End Resources.

(** A kernel that grants every request, used to evaluate the model. *)
Definition demo_page : mmap_page := mk_page 2 1 100 5 5 true true 48 10 3 0.
Definition demo_kernel : Kernel := {|
  k_open := fun _ _ _ => 3; k_mmap := fun _ _ => 4096; k_getrlimit := fun _ => Some 1024;
  k_setrlimit := fun _ _ _ => true; k_page := fun _ _ => demo_page
|}.

Lemma evsel_resources_invariant_witness :
  live_fds [EClose 3; EIoctlDisable 3; EMunmap 4096; EMmap 3 4096; EIoctlEnable 3; EOpen zero_attr 0 3] = [] /\
  exists ev, @resources_ok (ev, [EClose 3; EIoctlDisable 3; EMunmap 4096; EMmap 3 4096; EIoctlEnable 3; EOpen zero_attr 0 3]).
Proof.
  split; [reflexivity|]. eexists.
  refine (proj1 (@evsel_resources_invariant demo_kernel (fun _ _ => ltac:(discriminate)) zero_attr 0 _ _ _)).
  eapply rtc_l; [eapply (step_open _ _ 0); [reflexivity|vm_compute; reflexivity]|].
  eapply rtc_l; [eapply step_enable; vm_compute; reflexivity|].
  eapply rtc_l; [eapply step_close; vm_compute; reflexivity|]. apply rtc_refl.
Defined.

(** ** The enabled flag after a disable *)
Section Disable.
Context `{K : Kernel} (pg : nat -> mmap_page) (tsc : nat -> Z) (pmc : nat -> Z -> Z).

(** Prof_evsel__disable leaves is_enable set (it stores 1 where the
    enable function stores 1 too): on an open, enabled event it unmaps the
    counter page, after which prof_evsel__enable reports success without
    issuing a system call and prof_evsel__rdpmc dereferences the null page. *)
Theorem evsel_disable_leaves_enabled (ev : prof_evsel) (t : trace) :
  ev_is_open ev = true -> ev_is_enable ev = true -> 0 <= ev_fd ev ->
  exists ev' t', prof_evsel__disable ev t = Ret (ev', t') /\
    prof_evsel__enable ev' t' = Ret ((0, ev'), t') /\
    forall n u, prof_evsel__rdpmc pg tsc pmc n ev' u = Fault FNull.
Proof.
  intros Ho He Hf. unfold prof_evsel__disable. rewrite He. simpl.
  rewrite (proj2 (Z.ltb_ge _ _) Hf).
  destruct (ev_mm_page ev =? NULL) eqn:Em; do 2 eexists; (split; [reflexivity|]);
    (split; [unfold prof_evsel__enable; simpl; by rewrite Ho|]);
    intros n u; unfold prof_evsel__rdpmc; simpl; by rewrite ?Em.
Qed.
End Disable.

Lemma evsel_disable_leaves_enabled_witness :
  exists ev t, ev_is_enable ev = true /\
  exists ev' t', @prof_evsel__disable ev t = Ret (ev', t') /\
    @prof_evsel__enable demo_kernel ev' t' = Ret ((0, ev'), t') /\
    forall n u, prof_evsel__rdpmc (fun _ => demo_page) (fun _ => 0) (fun _ _ => 0) n ev' u = Fault FNull.
Proof.
  exists (mk_evsel NULL zero_attr 3 1 4096 true true 0 None), []. split; [reflexivity|].
  apply (@evsel_disable_leaves_enabled demo_kernel); [reflexivity|reflexivity|simpl; lia].
Defined.

(** ** Event specifications *)
Lemma split_char_app c l r :
  ~ In c (String.list_ascii_of_string l) -> split_char c (l +:+ String c r) = Some (l, r).
Proof.
  induction l as [|a l IH]; simpl; intros H; [by rewrite Ascii.eqb_refl|].
  rewrite (proj2 (Ascii.eqb_neq a c)) by tauto. by rewrite IH by tauto.
Qed.

Lemma split_char_None c s :
  ~ In c (String.list_ascii_of_string s) -> split_char c s = None.
Proof.
  induction s as [|a s IH]; simpl; intros H; [done|].
  rewrite (proj2 (Ascii.eqb_neq a c)) by tauto. by rewrite IH by tauto.
Qed.

Definition has_char (c : ascii) (s : string) : bool :=
  bool_decide (c ∈ String.list_ascii_of_string s).

Lemma scan_opt_spec opt u k :
  scan_opt opt u k = (u || has_char "u" opt, k || has_char "k" opt).
Proof.
  unfold has_char. revert u k. induction opt as [|c opt IH]; intros u k; simpl.
  - by rewrite !orb_false_r.
  - destruct (Ascii.eqb_spec c "u") as [->|Hu]; [|destruct (Ascii.eqb_spec c "k") as [->|Hk]]; rewrite IH;
      f_equal; repeat case_bool_decide; rewrite ?orb_true_r, ?orb_false_r; try done; set_solver.
Qed.

(** The attributes the parser gives an event of the table. *)
Definition parsed_attr `{PerfAbi} (p : prof_pmu) (exclude_user : bool) : perf_event_attr :=
  mk_attr (pmu_type p) sizeof_perf_event_attr (pmu_config p) true false exclude_user true.

(** For an entry of the event table, "name" and "name:options" parse to
    that entry's type and config, disabled and not inherited; kernel-mode
    counting is excluded whatever the options say, and user-mode counting is
    excluded exactly when 'k' is given without 'u' (so "name:k" excludes both
    modes and "name:uk" counts user mode only).  A name that is not in the
    table is rejected. *)
Theorem evsel_parse_correct `{PerfAbi} (st : pmu_state) (opt : string) :
  (forall p, p ∈ pmu_list ->
    prof_evsel__parse true (pmu_name p) st = Ret (Some (pmu_name p, parsed_attr p false), true) /\
    prof_evsel__parse true (pmu_name p +:+ String ":" opt) st =
      Ret (Some (pmu_name p, parsed_attr p (has_char "k" opt && negb (has_char "u" opt))), true)) /\
  (forall s, ~ In ":"%char (String.list_ascii_of_string s) -> s ∉ map pmu_name pmu_list ->
    prof_evsel__parse true s st = Ret (None, true) /\
    prof_evsel__parse true (s +:+ String ":" opt) st = Ret (None, true)).
Proof.
  assert (forall s, prof_pmu__find s st = Ret (find_from s pmu_list, true)) as Hfind by (intros; by destruct st).
  split.
  - intros p Hp. assert (~ In ":"%char (String.list_ascii_of_string (pmu_name p))) as Hc.
    { apply (proj1 (List.Forall_forall _ _) pmu_names_plain); by apply list_elem_of_In. }
    unfold prof_evsel__parse; cbn [negb]. rewrite (split_char_None _ _ Hc), (split_char_app _ _ _ Hc).
    rewrite !(bind_ret _ _ _ _ _ (Hfind _)), !find_from_complete by auto using pmu_names_NoDup.
    split; [done|]. destruct opt as [|c opt]; [done|].
    change (0 <? String.length (String c opt))%nat with true. cbv iota.
    unfold __evsel__parse_opt. rewrite scan_opt_spec, !orb_false_l.
    by destruct (has_char "u" _), (has_char "k" _).
  - intros s Hc Hs. unfold prof_evsel__parse; cbn [negb]. rewrite (split_char_None _ _ Hc), (split_char_app _ _ _ Hc).
    rewrite !(bind_ret _ _ _ _ _ (Hfind _)).
    destruct (find_from s pmu_list) as [p|] eqn:E; [|done].
    apply find_from_Some in E as [Hp <-]. destruct Hs. by apply list_elem_of_fmap_2.
Qed.

Lemma evsel_parse_correct_witness :
  @prof_evsel__parse linux_abi true "instructions:k" false =
    Ret (Some ("instructions", mk_attr 0 136 1 true false true true), true) /\
  @prof_evsel__parse linux_abi true "bogus:u" false = Ret (None, true).
Proof.
  destruct (@evsel_parse_correct linux_abi false "k") as [H1 _].
  destruct (@evsel_parse_correct linux_abi false "u") as [_ H2]. split.
  - refine (proj2 (H1 (mk_pmu "instructions" 0 1 false) _)). apply (bool_decide_unpack _). vm_compute. exact I.
  - refine (proj2 (H2 "bogus" _ _)); [simpl; intuition discriminate|].
    apply (bool_decide_unpack _). vm_compute. exact I.
Defined.

(** ** Reading the counter without a system call

    The page is a sequence lock: the kernel changes [lock] whenever it rewrites
    the page, so two reads that see the same value enclose no update. *)

(** Sign extension by two shifts is the [width]-bit two's complement value. *)
Lemma sext_swrap width x : 1 <= width <= 64 -> sext width x = swrap width x.
Proof.
  intros Hw. unfold sext, swrap. rewrite Z.shiftl_mul_pow2, Z.shiftr_div_pow2 by lia.
  set (k := 64 - width). set (W := 2 ^ width). set (H := 2 ^ (width - 1)). set (P := 2 ^ k).
  assert (0 < P) by (unfold P; lia). assert (0 < H) by (unfold H; apply Z.pow_pos_nonneg; lia).
  assert (W = 2 * H) as HW by (unfold W, H; rewrite <- Z.pow_succ_r by lia; f_equal; lia).
  assert (2 ^ (64 - 1) = H * P) as E63 by (unfold H, P, k; rewrite <- Z.pow_add_r by lia; f_equal; lia).
  assert (2 ^ 64 = W * P) as E64 by (unfold W, P, k; rewrite <- Z.pow_add_r by lia; f_equal; lia).
  rewrite E63, E64, <- Z.mul_add_distr_r, Z.mul_mod_distr_r, <- Z.mul_sub_distr_r by lia.
  by rewrite Z.div_mul by lia.
Qed.

Section SeqLock.
Context (pg : nat -> mmap_page) (tsc : nat -> Z) (pmc : nat -> Z -> Z).

(** The writer's side of the sequence lock. *)
Definition seq_writer : Prop := forall i j k,
  (i <= k <= j)%nat -> pc_lock (pg i) = pc_lock (pg j) -> pg k = pg i.

(** The shift amounts of the page are in range, as the documentation of
    perf_event_open(2) has them. *)
Definition shifts_ok : Prop := forall i,
  1 <= pc_pmc_width (pg i) <= 64 /\ 0 <= pc_time_shift (pg i) < 64.

(** The counter value for a page and the register it names, at access [k]. *)
Definition page_count (p : mmap_page) (k : nat) : Z :=
  u64 (s64 (swrap (pc_pmc_width p) (s64 (pc_offset p)) +
            swrap (pc_pmc_width p) (s64 (u64 (pmc k (u32 (pc_index p - 1))))))).

Definition readable (cap : bool) (index : Z) : Prop := cap = true /\ index <> 0.

(** What the measurement that starts at access [i] returns. *)
Lemma mmap_read_count_spec i : shifts_ok ->
  exists r t', mmap_read_count pg pmc i = Ret (r, t') /\ (i + 3 < t' <= i + 5)%nat /\
    match r with
    | None => ~ readable (pc_cap_user_rdpmc (pg (3 + i)%nat)) (pc_index (pg i))
    | Some count => (i + 4 < t')%nat /\ readable (pc_cap_user_rdpmc (pg (3 + i)%nat)) (pc_index (pg i)) /\
        count = s64 (swrap (pc_pmc_width (pg (S i))) (s64 (pc_offset (pg (2 + i)%nat))) +
                     swrap (pc_pmc_width (pg (S i))) (s64 (u64 (pmc (4 + i)%nat (u32 (pc_index (pg i) - 1))))))
    end.
Proof.
  intros HS. destruct (HS (S i)) as [Hw _].
  unfold mmap_read_count, pc_get, rdpmc, mbind, M_bind, mret, M_ret.
  rewrite (proj2 (Z.leb_gt _ _)), (proj2 (Z.ltb_ge _ _)) by lia. simpl.
  destruct (pc_cap_user_rdpmc _) eqn:Ec; [destruct (pc_index (pg i) =? 0) eqn:Ei|]; simpl; zbool.
  - exists None, (4 + i)%nat. split_and!; [done|lia|lia|]. by intros [_ ?].
  - do 2 eexists. split; [reflexivity|]. split; [lia|]. split; [lia|]. split; [done|]. by rewrite !sext_swrap by done.
  - exists None, (4 + i)%nat. split_and!; [done|lia|lia|]. by intros [? _].
Qed.

Lemma mmap_read_delta_spec en ru delta t : shifts_ok ->
  exists d t', mmap_read_delta pg tsc en ru delta t = Ret (d, t') /\ (t < t' <= t + 5)%nat.
Proof.
  intros HS. unfold mmap_read_delta, pc_get, rdtsc, mbind, M_bind, mret, M_ret.
  destruct (pc_cap_user_time _ && _); [|exists delta, (1 + t)%nat; split; [done|lia]].
  destruct (HS (4 + t)%nat) as [_ Hs]. rewrite (proj2 (Z.leb_gt 64 _)) by (simpl in *; lia).
  do 2 eexists. split; [reflexivity|]. lia.
Qed.

(** One round from access [t]: its measurement starts at some access [i], and
    the lock is read at [t] and, last, at [e]. *)
Lemma mmap_read_round_spec delta t : shifts_ok ->
  exists r i t', mmap_read_round pg tsc pmc delta t = Ret (r, t') /\ (t < i)%nat /\ (i + 3 < t' <= t + 14)%nat /\
    match r with
    | None => ~ readable (pc_cap_user_rdpmc (pg (3 + i)%nat)) (pc_index (pg i))
    | Some (stable, count, _, _, _) =>
        exists e, t' = S e /\ (i + 4 < e)%nat /\ stable = (pc_lock (pg t) =? pc_lock (pg e)) /\
        readable (pc_cap_user_rdpmc (pg (3 + i)%nat)) (pc_index (pg i)) /\
        count = s64 (swrap (pc_pmc_width (pg (S i))) (s64 (pc_offset (pg (2 + i)%nat))) +
                     swrap (pc_pmc_width (pg (S i))) (s64 (u64 (pmc (4 + i)%nat (u32 (pc_index (pg i) - 1))))))
    end.
Proof.
  intros HS. unfold mmap_read_round.
  do 3 (erewrite bind_ret by reflexivity).
  destruct (mmap_read_delta_spec (pc_time_enabled (pg (1 + t)%nat)) (pc_time_running (pg (2 + t)%nat)) delta (3 + t) HS)
    as (d & i & E & Hi). rewrite (bind_ret _ _ _ _ _ E). cbv zeta.
  destruct (mmap_read_count_spec i HS) as (r & e & Ec & He & Hr). rewrite (bind_ret _ _ _ _ _ Ec).
  destruct r as [count|].
  - erewrite bind_ret by reflexivity. eexists. exists i, (S e). split; [reflexivity|].
    split_and!; [lia|lia|lia|]. exists e. destruct Hr as (? & ? & ?). by split_and!.
  - exists None, i, e. split_and!; [done|lia|lia|lia|done].
Qed.

(** C23: when mmap_read_self returns, the kernel follows the sequence-lock
    protocol (the page does not change between two equal values of its lock) and
    the widths and shifts in the page are in range, the value is the sum, modulo
    2^64, of the kernel's offset and the hardware counter, each first cut to the
    width of the counter and sign-extended from it, with offset, register index
    and width all taken from one state of the page, which lasted from the first
    read of the lock to the last; or it is the all-ones fallback and user-space
    reading was found disabled. *)
Theorem mmap_read_self_snapshot (HS : shifts_ok) (HW : seq_writer) n delta t v t' :
  mmap_read_self pg tsc pmc n delta t = Ret (v, t') ->
  (exists s e k, (t <= s < k)%nat /\ (k < e < t')%nat /\ (forall j, (s <= j <= e)%nat -> pg j = pg s) /\
     readable (pc_cap_user_rdpmc (pg s)) (pc_index (pg s)) /\ v = page_count (pg s) k) \/
  (v = UINT64_MAX /\ exists i j, (t <= i < j)%nat /\ (j < t')%nat /\
     ~ readable (pc_cap_user_rdpmc (pg j)) (pc_index (pg i))).
Proof.
  revert delta t. induction n as [|n IH]; intros delta t; simpl; [done|].
  destruct (mmap_read_round_spec delta t HS) as (r & i & t1 & E & Hi & Ht1 & Hr).
  rewrite (bind_ret _ _ _ _ _ E). destruct r as [[[[[stable count] en] ru] d]|].
  2:{ intros [= <- <-]. right. split; [done|]. exists i, (3 + i)%nat. split_and!; [lia..|done]. }
  destruct Hr as (e & -> & He & Hst & Hrd & ->). destruct stable.
  - intros [= <- <-]. left. symmetry in Hst. zbool.
    assert (forall k, (t <= k <= e)%nat -> pg k = pg t) as Hc by (intros k Hk; by apply (HW t e k)).
    rewrite (Hc (3 + i)%nat), (Hc i) in Hrd by lia. exists t, e, (4 + i)%nat. unfold page_count.
    rewrite (Hc (S (S i))), (Hc (S i)), (Hc i) by lia. destruct Hrd; split_and!; try done; try lia.
  - intros [(s & e' & k & Hs)|(-> & i' & j' & Hs)]%IH; [left|right].
    + exists s, e', k. destruct Hs as (? & ? & ? & ? & ?). split_and!; auto; lia.
    + split; [done|]. exists i', j'. destruct Hs as (? & ? & ?). split_and!; auto; lia.
Qed.

(** The retry loop of mmap_read_self ends: if the kernel stops updating
    the page after access [T], the function returns within [T - t + 1] rounds. *)
Theorem mmap_read_self_terminates (HS : shifts_ok) (T : nat) delta t n :
  (forall i, (T <= i)%nat -> pc_lock (pg i) = pc_lock (pg T)) -> (T - t < n)%nat ->
  exists v t', mmap_read_self pg tsc pmc n delta t = Ret (v, t').
Proof.
  intros HQ. revert delta t. induction n as [|n IH]; intros delta t Hn; [lia|]. simpl.
  destruct (mmap_read_round_spec delta t HS) as (r & i & t1 & E & Hi & Ht1 & Hr).
  rewrite (bind_ret _ _ _ _ _ E). destruct r as [[[[[stable count] en] ru] d]|]; [|eauto].
  destruct Hr as (e & -> & He & Hst & _). destruct stable; [eauto|].
  apply IH. destruct (decide (T <= t)%nat); [|lia]. symmetry in Hst. zbool.
  destruct Hst. rewrite (HQ t), (HQ e) by lia. done.
Qed.

(** A round makes at most 14 accesses.  The kernel leaves time to read: within any [n]
    accesses, some are the first of 28 during which it does not touch the page. *)
Definition pauses (n : nat) : Prop := forall t, exists w, (t <= w < t + n)%nat /\ forall i, (w <= i < w + 28)%nat -> pc_lock (pg i) = pc_lock (pg w).

(** Then the loop ends within [n] rounds. *)
Lemma mmap_read_self_returns (HS : shifts_ok) delta t n : pauses n -> exists v t', mmap_read_self pg tsc pmc n delta t = Ret (v, t').
Proof.
  intros HP. destruct (HP t) as (w & Hw & HQ). clear HP.
  assert (w < t + n /\ t <= w + 13 /\ 1 <= n)%nat as Hn by lia. clear Hw. revert delta t Hn. induction n as [|n IH]; intros delta t Hn; [lia|]. simpl.
  destruct (mmap_read_round_spec delta t HS) as (r & i & t1 & E & Hi & Ht1 & Hr).
  rewrite (bind_ret _ _ _ _ _ E). destruct r as [[[[[stable count] en] ru] d]|]; [|eauto].
  destruct Hr as (e & -> & He & Hst & _). destruct stable; [eauto|].
  destruct (decide (w <= t)%nat); [|apply IH; lia]. symmetry in Hst. zbool. destruct Hst. rewrite (HQ t), (HQ e) by lia. done.
Qed.
End SeqLock.

(** The page of the witnesses: one update, then quiet. *)
Definition demo_pages (i : nat) : mmap_page :=
  if (i <? 5)%nat then mk_page 1 1 7 5 5 true false 48 10 3 0 else mk_page 2 1 100 5 9 true true 48 10 3 0.

Lemma demo_shifts_ok : shifts_ok demo_pages.
Proof. intros i. unfold demo_pages. destruct (i <? 5)%nat; simpl; lia. Qed.

Lemma mmap_read_self_snapshot_witness :
  exists v t', mmap_read_self demo_pages (fun _ => 1000) (fun _ _ => 2 ^ 48 - 1) 2 0 0%nat = Ret (v, t') /\
    ((exists s e k, (0 <= s < k)%nat /\ (k < e < t')%nat /\ (forall j, (s <= j <= e)%nat -> demo_pages j = demo_pages s) /\
    readable (pc_cap_user_rdpmc (demo_pages s)) (pc_index (demo_pages s)) /\
    v = page_count (fun _ _ => 2 ^ 48 - 1) (demo_pages s) k) \/
     (v = UINT64_MAX /\ exists i j, (0 <= i < j)%nat /\ (j < t')%nat /\
    ~ readable (pc_cap_user_rdpmc (demo_pages j)) (pc_index (demo_pages i)))).
Proof.
  exists 99, 24%nat. split; [vm_compute; reflexivity|].
  apply (mmap_read_self_snapshot demo_pages (fun _ => 1000) (fun _ _ => 2 ^ 48 - 1) demo_shifts_ok) with (n := 2%nat) (delta := 0).
  - intros i j k Hk. unfold demo_pages.
    destruct (i <? 5)%nat eqn:Ei, (j <? 5)%nat eqn:Ej, (k <? 5)%nat eqn:Ek; simpl; try done;
      rewrite ?Nat.ltb_lt, ?Nat.ltb_ge in *; lia.
  - vm_compute. reflexivity.
Defined.

Lemma mmap_read_self_terminates_witness :
  exists v t', mmap_read_self demo_pages (fun _ => 1000) (fun _ _ => 2 ^ 48 - 1) 6 0 0%nat = Ret (v, t').
Proof.
  apply (mmap_read_self_terminates demo_pages _ _ demo_shifts_ok 5); [|lia].
  intros i Hi. unfold demo_pages. rewrite (proj2 (Nat.ltb_ge i 5)) by lia. reflexivity.
Defined.
