(* ===== verification/Evlist.v ===== *)
(** * The list of events of one thread: probe/evlist.c and probe/evlist.h

    The state is the memory the code works on: the list nodes of ListHead, the
    event structures, the event lists, the allocator's break and the trace of
    system calls.  An event and its list node share an address ([node] is the
    first member of struct prof_evsel, as [entries] is of struct prof_evlist),
    so container_of is the identity. *)
From stdpp Require Import base gmap list strings.
From Stdlib Require Import Ascii.
From S2P Require Import Prelude ListHead Pmu ProbeUtil Evsel.

Record prof_evlist : Type := mk_evlist {
  el_nr_entries : Z;
  el_pid : Z;
  el_selected : Z
}.

Record pstate : Type := mk_pstate {
  p_nodes : lstore;
  p_evsels : gmap Z prof_evsel;
  p_evlists : gmap Z prof_evlist;
  p_brk : Z;
  p_pmu : pmu_state;
  p_trace : trace
}.

#[global] Instance pstate_nodes : Embed pstate lstore := {|
  eget := p_nodes;
  eput := fun h s => mk_pstate h (p_evsels s) (p_evlists s) (p_brk s) (p_pmu s) (p_trace s)
|}.
#[global] Instance pstate_nodes_laws : EmbedLaws pstate lstore.
Proof. split; [by intros []|done]. Qed.
#[global] Instance pstate_logged_nodes {L} : Embed (pstate * L) lstore := {|
  eget := fun s => p_nodes s.1;
  eput := fun h s => (eput h s.1, s.2)
|}.
#[global] Instance pstate_trace : Embed pstate trace := {|
  eget := p_trace;
  eput := fun t s => mk_pstate (p_nodes s) (p_evsels s) (p_evlists s) (p_brk s) (p_pmu s) t
|}.
#[global] Instance pstate_pmu : Embed pstate pmu_state := {|
  eget := p_pmu;
  eput := fun b s => mk_pstate (p_nodes s) (p_evsels s) (p_evlists s) (p_brk s) b (p_trace s)
|}.

Definition set_evsels (s : pstate) (m : gmap Z prof_evsel) : pstate :=
  mk_pstate (p_nodes s) m (p_evlists s) (p_brk s) (p_pmu s) (p_trace s).
Definition set_evlists (s : pstate) (m : gmap Z prof_evlist) : pstate :=
  mk_pstate (p_nodes s) (p_evsels s) m (p_brk s) (p_pmu s) (p_trace s).
Definition set_nodes (s : pstate) (h : lstore) : pstate :=
  mk_pstate h (p_evsels s) (p_evlists s) (p_brk s) (p_pmu s) (p_trace s).
Definition set_brk (s : pstate) (b : Z) : pstate :=
  mk_pstate (p_nodes s) (p_evsels s) (p_evlists s) b (p_pmu s) (p_trace s).

(** The outcome of the allocation that is made when the break is at [p]. *)
Class Allocator : Type := malloc_ok : Z -> bool.

Section Operations.
Context `{abi : PerfAbi} `{A : Allocator} `{K : Kernel}.

(** ** Memory *)

(** A fresh address, or the null pointer. *)
Definition malloc : M pstate Z := fun s =>
  let p := p_brk s in Ret (if malloc_ok p then p else NULL, set_brk s (p + 1)).

Definition strdup_ok : M pstate bool := p ← malloc ; mret (negb (p =? NULL)).

Definition get_evsel (p : Z) : M pstate prof_evsel := fun s =>
  if p =? NULL then Fault FNull else
  match p_evsels s !! p with Some e => Ret (e, s) | None => Fault FBadPtr end.
Definition put_evsel (p : Z) (e : prof_evsel) : M pstate unit :=
  modify (fun s => set_evsels s (<[p := e]> (p_evsels s))).
Definition get_evlist (p : Z) : M pstate prof_evlist := fun s =>
  if p =? NULL then Fault FNull else
  match p_evlists s !! p with Some e => Ret (e, s) | None => Fault FBadPtr end.
Definition put_evlist (p : Z) (e : prof_evlist) : M pstate unit :=
  modify (fun s => set_evlists s (<[p := e]> (p_evlists s))).

(** An operation of Evsel run on the event at [p]. *)
Definition on_evsel {R} (p : Z) (f : prof_evsel -> M trace (R * prof_evsel)) : M pstate R :=
  e ← get_evsel p ;
  r ← lift (f e) ;
  put_evsel p r.2 ;;
  mret r.1.
Definition on_evsel' (p : Z) (f : prof_evsel -> M trace prof_evsel) : M pstate unit :=
  on_evsel p (fun e => e' ← f e ; mret (tt, e')).

(** A new, zeroed node at [p]. *)
Definition new_node (p : Z) : M pstate unit :=
  modify (fun s => set_nodes s (<[p := mk_list_head NULL NULL]> (p_nodes s))).

(** [prof_evsel__new], in memory. *)
Definition new_evsel (attr : option perf_event_attr) (name : string) : M pstate Z :=
  p ← malloc ;
  if p =? NULL then mret NULL else
  dup ← strdup_ok ;
  new_node p ;;
  match prof_evsel__new true dup attr name with
  | None => mret NULL
  | Some e =>
      put_evsel p e ;;
      (match attr with Some _ => lift (INIT_LIST_HEAD p) | None => mret tt end) ;;
      mret p
  end.

Definition prof_evsel__init (p : Z) (attr : perf_event_attr) (idx : Z) : M pstate unit :=
  if p =? NULL then mret tt else
  e ← get_evsel p ;
  put_evsel p (prof_evsel__init_fields e attr idx) ;;
  lift (INIT_LIST_HEAD p).

Definition free_evsel (p : Z) : M pstate unit :=
  get_evsel p ;;
  modify (fun s => set_nodes (set_evsels s (delete p (p_evsels s))) (delete p (p_nodes s))).
Definition free_evlist (p : Z) : M pstate unit :=
  get_evlist p ;;
  modify (fun s => set_nodes (set_evlists s (delete p (p_evlists s))) (delete p (p_nodes s))).

Definition prof_evsel__delete (p : Z) : M pstate unit :=
  on_evsel' p prof_evsel__delete_fields ;;
  free_evsel p.

(** ** The operations *)

Definition prof_evlist__init (el : Z) : M pstate unit := lift (INIT_LIST_HEAD el).

(** The null pointer is dereferenced when the allocation fails. *)
Definition prof_evlist__new (pid : Z) : M pstate Z :=
  p ← malloc ;
  (if p =? NULL then mret tt
   else new_node p ;; put_evlist p (mk_evlist 0 0 NULL) ;; prof_evlist__init p) ;;
  l ← get_evlist p ;
  put_evlist p (mk_evlist (el_nr_entries l) pid (el_selected l)) ;;
  mret p.

(** One more round than there are nodes is enough for any loop over a ring. *)
Definition loop_fuel (s : pstate) : nat := S (size (p_nodes s)).

Definition evlist__for_each (el : Z) (body : Z -> M pstate unit) : M pstate unit :=
  n ← gets loop_fuel ; list_for_each_entry n el body.
Definition evlist__for_each_reverse (el : Z) (body : Z -> M pstate unit) : M pstate unit :=
  n ← gets loop_fuel ; list_for_each_entry_reverse n el body.
Definition evlist__for_each_safe (el : Z) (body : Z -> M pstate unit) : M pstate unit :=
  n ← gets loop_fuel ; list_for_each_entry_safe n el body.

Definition prof_evlist__first (el : Z) : M pstate Z := lift (rd_next el).

Definition prof_evlist__delete (el : Z) : M pstate unit :=
  evlist__for_each_reverse el (fun evsel => on_evsel' evsel prof_evsel__close) ;;
  evlist__for_each_safe el (fun pos =>
    lift (list_del_init pos) ;;
    e ← get_evsel pos ;
    put_evsel pos (set_evlist e NULL) ;;
    prof_evsel__delete pos) ;;
  l ← get_evlist el ;
  put_evlist el (mk_evlist 0 (el_pid l) (el_selected l)) ;;
  free_evlist el.

Definition __prof_evlist__add (el : Z) (str : string) : M pstate Z :=
  dup ← strdup_ok ;
  r ← lift (prof_evsel__parse dup str) ;
  match r with
  | None => mret 0
  | Some (name, attr) =>
      evsel ← new_evsel None name ;
      if evsel =? NULL then mret 0 else
      l ← get_evlist el ;
      prof_evsel__init evsel attr (el_nr_entries l) ;;
      e ← get_evsel evsel ;
      put_evsel evsel (set_evlist e el) ;;
      lift (list_add_tail evsel el) ;;
      l ← get_evlist el ;
      put_evlist el (mk_evlist (s32 (el_nr_entries l + 1)) (el_pid l) (el_selected l)) ;;
      mret 1
  end.

(** After the loop: [off] is [pcur - tmp]. *)
Definition add_last (el len off : Z) (pcur : string) (added : Z) : M pstate Z :=
  if off <? len - 1 then r ← __prof_evlist__add el pcur ; mret (s32 (added + r))
  else mret added.

(** The loop over the commas; writing the terminator makes [pcur] the token. *)
Fixpoint add_loop (n : nat) (el len off : Z) (pcur : string) (added : Z) : M pstate Z :=
  match n with
  | O => fail FFuel
  | S n' =>
      match split_char ","%char pcur with
      | None => add_last el len off pcur added
      | Some (tok, rest) =>
          let pnext := off + Z.of_nat (String.length tok) in
          r ← __prof_evlist__add el tok ;
          let added := s32 (added + r) in
          if pnext =? len - 1 then add_last el len off tok added
          else add_loop n' el len (pnext + 1) rest added
      end
  end.

Definition EINVAL : Z := 22.

(** [None] is a null string pointer. *)
Definition prof_evlist__add_from_str (el : Z) (str : option string) : M pstate Z :=
  match str with
  | None | Some EmptyString => mret (- EINVAL)
  | Some str =>
      let len := Z.of_nat (String.length str) in
      dup ← strdup_ok ;
      if negb dup then fail FNull else
      add_loop (S (String.length str)) el len 0 str 0
  end.

Definition prof_evlist__enable (el : Z) : M pstate unit :=
  evlist__for_each el (fun evsel => on_evsel evsel prof_evsel__enable ;; mret tt).

(** The first loop of [prof_evlist__start], from a cursor; [false] is the jump
    to [fail_close_evsel]. *)
Fixpoint start_from (n : nat) (pos el : Z) : M pstate bool :=
  match n with
  | O => fail FFuel
  | S n' =>
      if pos =? el then mret true else
      e ← get_evsel pos ;
      r ← (if ev_is_open e then mret 0
           else l ← get_evlist el ; on_evsel pos (fun e => prof_evsel__open e (el_pid l))) ;
      if r <? 0 then mret false
      else nxt ← lift (rd_next pos) ; start_from n' nxt el
  end.

Definition prof_evlist__start (el : Z) : M pstate Z :=
  n ← gets loop_fuel ;
  pos ← lift (rd_next el) ;
  ok ← start_from n pos el ;
  if (ok : bool) then prof_evlist__enable el ;; mret 0
  else
    evlist__for_each el (fun evsel =>
      e ← get_evsel evsel ;
      if ev_is_open e then on_evsel' evsel prof_evsel__close else mret tt) ;;
    mret (-1).

Definition prof_evlist__stop (el : Z) : M pstate unit :=
  evlist__for_each el (fun evsel => on_evsel' evsel prof_evsel__disable).

Definition prof_evlist__counter_nr (el : Z) : M pstate Z :=
  l ← get_evlist el ; mret (el_nr_entries l).

(** The lines [prof_evlist__dump] logs: index, name, type, config. *)
Definition dump_line : Type := Z * option string * Z * Z.

Definition prof_evlist__dump (el : Z) : M (pstate * list dump_line) unit :=
  n ← gets (fun s => loop_fuel s.1) ;
  list_for_each_entry n el (fun evsel s =>
    match get_evsel evsel s.1 with
    | Ret (e, s') => Ret (tt, (s', s.2 ++ [(ev_idx e, ev_name e, at_type (ev_attr e), at_config (ev_attr e))]))
    | Fault f => Fault f
    end).
End Operations.

(** ** The event-list syntax *)

Definition no_comma (s : string) : Prop := ~ In ","%char (String.list_ascii_of_string s).

Fixpoint join (toks : list string) : string :=
  match toks with
  | [] => EmptyString
  | [t] => t
  | t :: r => t +:+ String "," (join r)
  end.

Section Tokens.
Context `{abi : PerfAbi} `{A : Allocator}.

(** Adding the events of a list of tokens, in order. *)
Fixpoint add_all (el : Z) (toks : list string) (added : Z) : M pstate Z :=
  match toks with
  | [] => mret added
  | t :: r => x ← __prof_evlist__add el t ; add_all el r (s32 (added + x))
  end.

Lemma string_length_app s1 s2 : String.length (s1 +:+ s2) = (String.length s1 + String.length s2)%nat.
Proof. induction s1 as [|c s1 IH]; simpl; [done|]. by rewrite IH. Qed.

Lemma join_cons t r : r <> [] -> join (t :: r) = t +:+ String "," (join r).
Proof. by destruct r. Qed.

Lemma length_join_last toks lst : (String.length lst <= String.length (join (toks ++ [lst])))%nat.
Proof.
  induction toks as [|t toks IH]; [done|]. rewrite <- app_comm_cons, join_cons by (by destruct toks).
  rewrite string_length_app. simpl. lia.
Qed.

(** The loop and the code after it, on a text whose last token is [lst]:
    a last token of two characters or more is added once; an empty one, left
    by a trailing comma, repeats the token before it. *)
Lemma add_loop_tokens el toks lst n len off added s :
  Forall no_comma (toks ++ [lst]) -> (String.length (join (toks ++ [lst])) < n)%nat ->
  len = off + Z.of_nat (String.length (join (toks ++ [lst]))) -> (2 <= String.length lst)%nat ->
  add_loop n el len off (join (toks ++ [lst])) added s = add_all el (toks ++ [lst]) added s.
Proof.
  revert n off added s. induction toks as [|t toks IH]; intros n off added s HF Hn Hl Hlast; (destruct n as [|n]; [lia|]).
  - simpl in *. apply Forall_cons in HF as [HF _]. rewrite (split_char_None _ _ HF).
    unfold add_last. rewrite (proj2 (Z.ltb_lt _ _)) by lia. done.
  - simpl in HF. apply Forall_cons in HF as [Ht HF].
    rewrite <- app_comm_cons in *. rewrite join_cons in * by (by destruct toks). rewrite string_length_app in *. simpl in Hn, Hl.
    cbn [add_loop add_all]. rewrite split_char_app by done. cbv zeta.
    pose proof (length_join_last toks lst).
    rewrite (proj2 (Z.eqb_neq _ (len - 1))) by lia.
    unfold mbind, M_bind. destruct (__prof_evlist__add el t s) as [[x s']|]; [|done].
    apply IH; [done|lia|lia|done].
Qed.

Lemma add_loop_trailing el toks lst n len off added s :
  Forall no_comma (toks ++ [lst]) -> (String.length (join (toks ++ [lst; EmptyString])) < n)%nat ->
  len = off + Z.of_nat (String.length (join (toks ++ [lst; EmptyString]))) -> (1 <= String.length lst)%nat ->
  add_loop n el len off (join (toks ++ [lst; EmptyString])) added s = add_all el (toks ++ [lst; lst]) added s.
Proof.
  revert n off added s. induction toks as [|t toks IH]; intros n off added s HF Hn Hl Hlast; (destruct n as [|n]; [lia|]).
  - simpl in *. apply Forall_cons in HF as [HF _]. rewrite split_char_app by done.
    rewrite string_length_app in *. simpl in Hl. rewrite (proj2 (Z.eqb_eq _ (len - 1))) by lia.
    unfold add_last. rewrite (proj2 (Z.ltb_lt _ _)) by lia. done.
  - simpl in HF. apply Forall_cons in HF as [Ht HF].
    rewrite <- !app_comm_cons in *. rewrite join_cons in * by (by destruct toks). rewrite string_length_app in *. simpl in Hn, Hl.
    cbn [add_loop add_all]. rewrite split_char_app by done. cbv zeta.
    pose proof (length_join_last (toks ++ [lst]) EmptyString) as HL.
    assert (String.length (join (toks ++ [lst; ""])) <> 0)%nat.
    { clear -Hlast. destruct toks as [|u toks]; [simpl; rewrite string_length_app; simpl; lia|].
      rewrite <- app_comm_cons, join_cons, string_length_app by (by destruct toks). simpl. lia. }
    rewrite (proj2 (Z.eqb_neq _ (len - 1))) by lia.
    unfold mbind, M_bind. destruct (__prof_evlist__add el t s) as [[x s']|]; [|done].
    apply IH; [done|lia|lia|done].
Qed.

(** Prof_evlist__add_from_str adds the comma-separated events in order,
    once each, when the last one has at least two characters; with a trailing
    comma after it, it adds the last event twice.  An absent or empty text is
    rejected without touching the list. *)
Theorem evlist_add_from_str_tokens el toks lst s :
  Forall no_comma (toks ++ [lst]) -> (2 <= String.length lst)%nat -> malloc_ok (p_brk s) = true -> p_brk s <> NULL ->
  prof_evlist__add_from_str el (Some (join (toks ++ [lst]))) s =
    add_all el (toks ++ [lst]) 0 (set_brk s (p_brk s + 1)) /\
  prof_evlist__add_from_str el (Some (join (toks ++ [lst; EmptyString]))) s =
    add_all el (toks ++ [lst; lst]) 0 (set_brk s (p_brk s + 1)) /\
  prof_evlist__add_from_str el None s = Ret (- EINVAL, s) /\
  prof_evlist__add_from_str el (Some EmptyString) s = Ret (- EINVAL, s).
Proof.
  intros HF HL Hm Hb.
  assert (strdup_ok s = Ret (true, set_brk s (p_brk s + 1))) as Hdup.
  { unfold strdup_ok, malloc, mbind, M_bind. rewrite Hm. by rewrite (proj2 (Z.eqb_neq _ _) Hb). }
  assert (forall str, str <> EmptyString -> prof_evlist__add_from_str el (Some str) s =
    add_loop (S (String.length str)) el (Z.of_nat (String.length str)) 0 str 0 (set_brk s (p_brk s + 1))) as Hrun.
  { intros [|c str] Hs; [done|]. unfold prof_evlist__add_from_str. by rewrite (bind_ret _ _ _ _ _ Hdup). }
  split_and!; [rewrite Hrun; [apply add_loop_tokens|]|rewrite Hrun; [apply add_loop_trailing|]|done|done];
    try done; try lia; intros E; apply (f_equal String.length) in E.
  - pose proof (length_join_last toks lst). simpl in E. lia.
  - destruct toks as [|t toks]; [simpl in E; rewrite string_length_app in E; simpl in E; lia|].
    rewrite <- app_comm_cons, join_cons, string_length_app in E by (by destruct toks). simpl in E. lia.
Qed.
End Tokens.

(** ** Well-formed event lists *)

(** An open event has a valid descriptor. *)
Definition evsel_ok (e : prof_evsel) : Prop := ev_is_open e = true -> 0 <= ev_fd e.

(** The list [el] holds the events [ps]: they form its ring, are numbered in
    order, point back to the list, and the list counts them; every node lies
    below the break. *)
Record evlist_ok (s : pstate) (el : Z) (ps : list Z) : Prop := {
  ok_list : is_list (p_nodes s) el ps;
  ok_el : exists l, p_evlists s !! el = Some l /\ el_nr_entries l = s32 (Z.of_nat (length ps));
  ok_evs : forall i p, ps !! i = Some p -> exists e, p_evsels s !! p = Some e /\
    ev_idx e = s32 (Z.of_nat i) /\ ev_evlist e = el /\ evsel_ok e;
  ok_brk : forall p, has (p_nodes s) p -> 0 < p < p_brk s
}.

Lemma s32_succ n : s32 (s32 n + 1) = s32 (n + 1).
Proof.
  unfold swrap. change (2 ^ 32) with 4294967296. change (2 ^ (32 - 1)) with 2147483648.
  Z.to_euclidean_division_equations. lia.
Qed.

Section Facts.
Context (s : pstate) (el : Z) (ps : list Z) (OK : evlist_ok s el ps).

Lemma evlist_ok_evsel p : p ∈ ps -> exists e, p_evsels s !! p = Some e /\ evsel_ok e.
Proof. intros (i & Hi)%list_elem_of_lookup. destruct (ok_evs _ _ _ OK _ _ Hi) as (e & ? & _ & _ & ?). eauto. Qed.

Lemma evlist_ok_addr p : p ∈ el :: ps -> 0 < p < p_brk s.
Proof. intros Hp. apply (ok_brk _ _ _ OK). eapply is_list_has; [apply OK|done]. Qed.

Lemma get_evsel_run p e : p ∈ ps -> p_evsels s !! p = Some e -> get_evsel p s = Ret (e, s).
Proof.
  intros Hp He. pose proof (evlist_ok_addr p ltac:(set_solver)). unfold get_evsel.
  by rewrite (proj2 (Z.eqb_neq p NULL)), He by (unfold NULL; lia).
Qed.

Lemma get_evlist_run : exists l, p_evlists s !! el = Some l /\
  el_nr_entries l = s32 (Z.of_nat (length ps)) /\ get_evlist el s = Ret (l, s).
Proof.
  destruct (ok_el _ _ _ OK) as (l & Hl & Hn). pose proof (evlist_ok_addr el ltac:(set_solver)).
  exists l. split_and!; [done|done|]. unfold get_evlist.
  by rewrite (proj2 (Z.eqb_neq el NULL)), Hl by (unfold NULL; lia).
Qed.

Lemma evlist_fuel : (length ps < loop_fuel s)%nat.
Proof.
  unfold loop_fuel. destruct OK as [HL _ _ _].
  assert (list_to_set (el :: ps) ⊆ dom (p_nodes s)) as Hsub.
  { intros x. rewrite elem_of_list_to_set, elem_of_dom. by apply is_list_has. }
  apply subseteq_size in Hsub. rewrite size_dom in Hsub. destruct HL as [_ Hnd].
  rewrite size_list_to_set in Hsub by done. simpl in Hsub. lia.
Qed.

(** An event of the list may be replaced by one with the same number and
    owner, and the trace may grow. *)
Lemma evlist_ok_update p e e' (t : trace) :
  p ∈ ps -> p_evsels s !! p = Some e -> ev_idx e' = ev_idx e -> ev_evlist e' = ev_evlist e -> evsel_ok e' ->
  evlist_ok (set_evsels (eput t s) (<[p := e']> (p_evsels s))) el ps.
Proof.
  intros Hp He Hi Hl Hok. destruct OK as [? ? HE ?]. split; [done..| |done].
  intros i q Hq. destruct (HE i q Hq) as (e0 & H0 & ? & ? & ?). simpl.
  destruct (decide (p = q)) as [->|]; [|rewrite lookup_insert_ne by done; eauto].
  rewrite lookup_insert_eq. exists e'. split_and!; [done|congruence|congruence|done].
Qed.
End Facts.

(** *** Loops that run one operation of Evsel on each event *)
Section Loops.
Context (el : Z) (ps : list Z) (body : Z -> M pstate unit)
        (R : trace -> trace -> Prop) `{!PreOrder R} (I P : Z -> prof_evsel -> trace -> Prop).

(** On an event that satisfies [I] the body changes that event only, extends
    the trace along [R], keeps [I] and establishes [P]; later steps keep both. *)
Definition evsel_body : Prop := forall p s e,
  p ∈ ps -> evlist_ok s el ps -> p_evsels s !! p = Some e -> I p e (p_trace s) ->
  exists e' t', body p s = Ret (tt, set_evsels (eput t' s) (<[p := e']> (p_evsels s))) /\
    ev_idx e' = ev_idx e /\ ev_evlist e' = ev_evlist e /\ evsel_ok e' /\ R (p_trace s) t' /\
    I p e' t' /\ P p e' t'.

Definition holds (Q : Z -> prof_evsel -> trace -> Prop) (s : pstate) (l : list Z) : Prop :=
  forall p, p ∈ l -> exists e, p_evsels s !! p = Some e /\ Q p e (p_trace s).

Definition stable (Q : Z -> prof_evsel -> trace -> Prop) : Prop :=
  forall p e t t', R t t' -> Q p e t -> Q p e t'.

Lemma holds_update Q s p e' (t' : trace) l :
  stable Q -> R (p_trace s) t' -> Q p e' t' -> holds Q s l ->
  holds Q (set_evsels (eput t' s) (<[p := e']> (p_evsels s))) l.
Proof.
  intros HQ HR Hp Hs q Hq. destruct (Hs q Hq) as (e & He & HQe). simpl.
  destruct (decide (p = q)) as [->|]; [rewrite lookup_insert_eq|rewrite lookup_insert_ne by done]; eauto.
Qed.

Hypothesis Hbody : evsel_body.
Hypothesis HstI : stable I.
Hypothesis HstP : stable P.

Lemma forM_evsels l s :
  (forall p, p ∈ l -> p ∈ ps) -> evlist_ok s el ps -> holds I s ps ->
  exists s', forM l body s = Ret (tt, s') /\ evlist_ok s' el ps /\ R (p_trace s) (p_trace s') /\
    p_nodes s' = p_nodes s /\ p_evlists s' = p_evlists s /\ p_brk s' = p_brk s /\
    (forall q, q ∉ l -> p_evsels s' !! q = p_evsels s !! q) /\ holds I s' ps /\ holds P s' l.
Proof.
  revert s. induction l as [|p l IH]; intros s Hl OK HI; simpl.
  { exists s. split_and!; try done. intros p Hp. by apply elem_of_nil in Hp. }
  destruct (HI p) as (e & He & HIe); [apply Hl; by left|].
  destruct (Hbody p s e) as (e' & t' & E & Hi & Hv & Hok & HR & HI' & HP); [apply Hl; by left|done..|].
  rewrite (bind_ret _ _ _ _ _ E).
  pose proof (evlist_ok_update _ _ _ OK p e e' t' ltac:(apply Hl; by left) He Hi Hv Hok) as OK'.
  destruct (IH _ ltac:(intros q Hq; apply Hl; by right) OK') as (s' & E' & OKs & HRs & Hn & Hel & Hb & Hfr & HIs & HPs).
  { by apply holds_update. }
  simpl in *. exists s'. split_and!; try done.
  - by etrans.
  - intros q [? ?]%not_elem_of_cons. rewrite Hfr by done. by rewrite lookup_insert_ne.
  - intros q [->|Hq]%elem_of_cons; [|by apply HPs]. destruct (decide (p ∈ l)) as [Hin|Hout]; [by apply HPs|].
    rewrite Hfr by done. rewrite lookup_insert_eq. eauto.
Qed.

Hypothesis Hfix : forall p s u s', body p s = Ret (u, s') -> p_nodes s' = p_nodes s.

Lemma nodes_fixed_keeps : keeps_ring el ps body.
Proof. intros x s u s' _ HL E. simpl in *. by rewrite (Hfix _ _ _ _ E). Qed.

Lemma evlist__for_each_run s : evlist_ok s el ps -> evlist__for_each el body s = forM ps body s.
Proof.
  intros OK. unfold evlist__for_each. erewrite bind_ret by reflexivity.
  apply list_for_each_entry_spec; [apply nodes_fixed_keeps|apply OK|by apply evlist_fuel with el].
Qed.

Lemma evlist__for_each_reverse_run s : evlist_ok s el ps -> evlist__for_each_reverse el body s = forM (rev ps) body s.
Proof.
  intros OK. unfold evlist__for_each_reverse. erewrite bind_ret by reflexivity.
  apply list_for_each_entry_reverse_spec; [apply nodes_fixed_keeps|apply OK|by apply evlist_fuel with el].
Qed.
End Loops.

Lemma on_evsel_nodes {B} p (f : prof_evsel -> M trace (B * prof_evsel)) s r s' :
  on_evsel p f s = Ret (r, s') -> p_nodes s' = p_nodes s.
Proof.
  intros H. unfold on_evsel in H. minv H. unfold get_evsel in Hm.
  destruct (p =? NULL); [done|]. destruct (p_evsels s !! p); [|done]. injection Hm as <- <-.
  minv H. unfold lift in Hm. destruct (f _ _) as [[[b e'] t']|]; [|done]. injection Hm as <- <-.
  minv H. injection Hm as <- <-. by injection H as <- <-.
Qed.

Lemma on_evsel_run {B} s el ps p e (f : prof_evsel -> M trace (B * prof_evsel)) b e' t' :
  evlist_ok s el ps -> p ∈ ps -> p_evsels s !! p = Some e -> f e (p_trace s) = Ret ((b, e'), t') ->
  on_evsel p f s = Ret (b, set_evsels (eput t' s) (<[p := e']> (p_evsels s))).
Proof.
  intros OK Hp He Hf. unfold on_evsel. rewrite (bind_ret _ _ _ _ _ (get_evsel_run _ _ _ OK p e Hp He)).
  unfold lift at 1. unfold mbind at 1, M_bind at 1. simpl eget. by rewrite Hf.
Qed.

(** *** The operations of Evsel return *)
Section EvselTotal.
Context `{K : Kernel}.

Definition same_id (e e' : prof_evsel) : Prop := ev_idx e' = ev_idx e /\ ev_evlist e' = ev_evlist e.

Lemma disable_total e t : exists e' t', prof_evsel__disable e t = Ret (e', t') /\ same_id e e' /\
  ev_is_open e' = ev_is_open e /\ ev_fd e' = ev_fd e /\ live_fds t' = live_fds t.
Proof.
  unfold prof_evsel__disable. destruct (ev_is_enable e); simpl; [|by repeat econstructor].
  destruct (ev_fd e <? 0); [by repeat econstructor|].
  destruct (ev_mm_page e =? NULL); by repeat econstructor.
Qed.

Lemma close_total e t : evsel_ok e -> exists e' t', prof_evsel__close e t = Ret (e', t') /\ same_id e e' /\
  ev_is_open e' = false /\ live_fds t' = (if ev_is_open e then List.remove Z.eq_dec (ev_fd e) (live_fds t) else live_fds t).
Proof.
  intros Hok. unfold prof_evsel__close. destruct (ev_is_open e) eqn:Ho; simpl; [|by repeat econstructor].
  assert (exists e1 t1, (if ev_is_enable e then prof_evsel__disable e else mret e) t = Ret (e1, t1) /\ same_id e e1 /\
  ev_fd e1 = ev_fd e /\ live_fds t1 = live_fds t) as (e1 & t1 & E1 & Hid & Hfd & Ht).
  { destruct (ev_is_enable e); [|by repeat econstructor].
    destruct (disable_total e t) as (e1 & t1 & ? & ? & ? & ? & ?). eauto 10. }
  rewrite (bind_ret _ _ _ _ _ E1). rewrite Hfd, (proj2 (Z.ltb_ge _ _) (Hok Ho)).
  do 2 eexists. split; [reflexivity|]. split; [exact Hid|]. split; [done|]. simpl. by rewrite Ht.
Qed.

Lemma enable_total e t : exists r e' t', prof_evsel__enable e t = Ret ((r, e'), t') /\ same_id e e' /\
  ev_is_open e' = ev_is_open e /\ ev_fd e' = ev_fd e /\ live_fds t' = live_fds t.
Proof.
  unfold prof_evsel__enable. destruct (ev_is_open e) eqn:Ho; simpl; [|by repeat econstructor].
  destruct (ev_is_enable e) eqn:He; [by repeat econstructor|].
  destruct (ev_fd e <? 0) eqn:Ef; [by repeat econstructor|].
  do 2 (erewrite bind_ret by reflexivity). destruct (k_mmap _ _ <? 0); by repeat econstructor.
Qed.

Lemma open_total e pid t : exists r e' t', prof_evsel__open e pid t = Ret ((r, e'), t') /\ same_id e e' /\
  ev_is_open e' = negb (r <? 0) /\ evsel_ok e'.
Proof.
  destruct (open_loop_spec 3 e pid NO_CHANGE t) as (r & e' & t' & E & _ & Hr);
    [unfold NO_CHANGE, INCREASED_MAX; lia..|].
  exists r, e', t'. split; [done|]. unfold evsel_ok, same_id.
  destruct Hr as [(-> & He & Hf)|(Hr & ->)].
  - rewrite He; simpl. done.
  - simpl. by rewrite (proj2 (Z.ltb_lt _ _) Hr).
Qed.
End EvselTotal.

(** ** Starting and stopping *)
Lemma read_next_run (s : pstate) p v : nxt (p_nodes s) p = Some v -> lift (rd_next p) s = Ret (v, s).
Proof. apply (@lift_rd_next pstate pstate_nodes pstate_nodes_laws). Qed.

Section Start.
Context `{K : Kernel}.
Context (el : Z) (ps : list Z).

Definition any_trace (t t' : trace) : Prop := True.
#[global] Instance any_trace_preorder : PreOrder any_trace.
Proof. by split. Qed.

Definition opened (p : Z) (e : prof_evsel) (t : trace) : Prop := ev_is_open e = true.
Definition closed (p : Z) (e : prof_evsel) (t : trace) : Prop := ev_is_open e = false.
Definition anything (p : Z) (e : prof_evsel) (t : trace) : Prop := True.

Lemma opened_stable R : stable R opened.
Proof. by intros p e t t' _ H. Qed.
Lemma closed_stable R : stable R closed.
Proof. by intros p e t t' _ H. Qed.
Lemma anything_stable R : stable R anything.
Proof. done. Qed.

Lemma evlist_ok_anything s : evlist_ok s el ps -> holds anything s ps.
Proof. intros OK p Hp. destruct (evlist_ok_evsel _ _ _ OK p Hp) as (e & ? & _). by exists e. Qed.

Lemma enable_body :
  evsel_body el ps (fun p => on_evsel p prof_evsel__enable ;; mret tt) any_trace opened opened.
Proof.
  intros p s e Hp OK He Ho. destruct (enable_total e (p_trace s)) as (r & e' & t' & E & [? ?] & Ho' & Hf & _).
  exists e', t'. rewrite (bind_ret _ _ _ _ _ (on_evsel_run _ _ _ _ _ _ _ _ _ OK Hp He E)).
  destruct (evlist_ok_evsel _ _ _ OK p Hp) as (e0 & He0 & Hok0). assert (e0 = e) as -> by congruence.
  unfold opened, evsel_ok in *. rewrite Ho', Hf. by split_and!.
Qed.

Lemma close_body R I :
  (forall s e e' t', evsel_ok e -> prof_evsel__close e (p_trace s) = Ret (e', t') -> R (p_trace s) t') ->
  (forall p e e' t t', evsel_ok e -> I p e t -> prof_evsel__close e t = Ret (e', t') -> I p e' t') ->
  evsel_body el ps (fun p => on_evsel' p prof_evsel__close) R I (fun p e t => I p e t /\ closed p e t).
Proof.
  intros HR HIc p s e Hp OK He HI.
  destruct (evlist_ok_evsel _ _ _ OK p Hp) as (e0 & He0 & Hok). assert (e0 = e) as -> by congruence.
  destruct (close_total e (p_trace s) Hok) as (e' & t' & E & [? ?] & Ho & _).
  exists e', t'. split_and!; eauto.
  - eapply on_evsel_run; eauto. by rewrite (bind_ret _ _ _ _ _ E).
  - unfold evsel_ok. by rewrite Ho.
Qed.

Lemma close_if_open_body :
  evsel_body el ps (fun p => e ← get_evsel p ; if ev_is_open e then on_evsel' p prof_evsel__close else mret tt)
    any_trace anything closed.
Proof.
  intros p s e Hp OK He _. rewrite (bind_ret _ _ _ _ _ (get_evsel_run _ _ _ OK p e Hp He)).
  destruct (ev_is_open e) eqn:Ho.
  - destruct (close_body any_trace anything) with (p := p) (s := s) (e := e)
      as (e' & t' & ? & ? & ? & ? & ? & ? & ? & ?); try done. exists e', t'. by split_and!.
  - exists e, (p_trace s). split_and!; try done; [|unfold evsel_ok; congruence].
    destruct s; unfold set_evsels; simpl in *. by rewrite insert_id by done.
Qed.

Lemma start_from_spec n l1 l2 s :
  evlist_ok s el ps -> ps = l1 ++ l2 -> (length l2 < n)%nat -> holds opened s l1 ->
  exists b s', start_from n (hd_of l2 el) el s = Ret (b, s') /\ evlist_ok s' el ps /\
    (b = true -> holds opened s' ps).
Proof.
  revert l1 l2 s. induction n as [|n IH]; intros l1 l2 s OK E Hn Hop; [lia|]. simpl.
  destruct l2 as [|p l2]; simpl.
  { rewrite Z.eqb_refl. exists true, s. rewrite app_nil_r in E. by subst. }
  assert (p ∈ ps) as Hp by (rewrite E; set_solver).
  rewrite (proj2 (Z.eqb_neq p el)).
  2:{ destruct (ok_list _ _ _ OK) as [_ [Hx _]%NoDup_cons]. set_solver. }
  destruct (evlist_ok_evsel _ _ _ OK p Hp) as (e & He & Hok).
  rewrite (bind_ret _ _ _ _ _ (get_evsel_run _ _ _ OK p e Hp He)).
  assert (exists r s1, (if ev_is_open e then mret 0
    else l ← get_evlist el ; on_evsel p (fun e => prof_evsel__open e (el_pid l))) s = Ret (r, s1) /\
    evlist_ok s1 el ps /\ ((r <? 0) = false -> holds opened s1 (l1 ++ [p]))) as (r & s1 & E1 & OK1 & Hr).
  { destruct (ev_is_open e) eqn:Ho.
    - exists 0, s. split_and!; [done..|]. intros _ q [Hq| ->%list_elem_of_singleton]%elem_of_app; [by apply Hop|eauto].
    - destruct (get_evlist_run _ _ _ OK) as (l & _ & _ & El). rewrite (bind_ret _ _ _ _ _ El).
      destruct (open_total e (el_pid l) (p_trace s)) as (r & e' & t' & Eo & [? ?] & Ho' & Hok').
      exists r. eexists. split; [eapply on_evsel_run; eauto|]. split; [by eapply evlist_ok_update|].
      intros Hr. rewrite Hr in Ho'. simpl in Ho'. intros q Hq. simpl.
      destruct (decide (p = q)) as [->|]; [rewrite lookup_insert_eq; eauto|rewrite lookup_insert_ne by done].
      apply elem_of_app in Hq as [Hq| ->%list_elem_of_singleton]; [by apply Hop|done]. }
  rewrite (bind_ret _ _ _ _ _ E1). destruct (r <? 0) eqn:Er; [by exists false, s1|].
  pose proof (ok_list _ _ _ OK1) as HL. rewrite E in HL. apply is_list_next_of in HL.
  rewrite (bind_ret _ _ _ _ _ (read_next_run s1 p _ HL)).
  apply (IH (l1 ++ [p])); [done|by rewrite <- app_assoc|simpl in Hn; lia|auto].
Qed.
End Start.

Lemma evlist_start_run `{K : Kernel} s el ps :
  evlist_ok s el ps ->
  exists r s', prof_evlist__start el s = Ret (r, s') /\ evlist_ok s' el ps /\
    ((r = 0 /\ holds opened s' ps) \/ (r = -1 /\ holds closed s' ps)).
Proof.
  intros OK. unfold prof_evlist__start. erewrite bind_ret by reflexivity.
  destruct (is_list_first _ _ _ (ok_list _ _ _ OK)) as [F _].
  rewrite (bind_ret _ _ _ _ _ (read_next_run s _ _ F)).
  destruct (start_from_spec el ps (loop_fuel s) [] ps s) as (b & s1 & E1 & OK1 & Hb);
    [done|done|by apply evlist_fuel with el|intros p Hp; by apply elem_of_nil in Hp|].
  rewrite (bind_ret _ _ _ _ _ E1). destruct b.
  - destruct (forM_evsels el ps _ any_trace opened opened (enable_body el ps) (opened_stable _) (opened_stable _)) with (l := ps) (s := s1)
      as (s2 & E2 & OK2 & _ & _ & _ & _ & _ & _ & HP); try done; [by apply Hb|].
    exists 0, s2. split; [|by eauto]. unfold prof_evlist__enable.
    erewrite bind_ret; [reflexivity|]. rewrite <- E2. apply (evlist__for_each_run el ps); [|done].
    intros p u v w Hv. minv Hv. injection Hv as <- <-. by eapply on_evsel_nodes.
  - destruct (forM_evsels el ps _ any_trace anything closed (close_if_open_body el ps) (anything_stable _) (closed_stable _)) with (l := ps) (s := s1)
      as (s2 & E2 & OK2 & _ & _ & _ & _ & _ & _ & HP); try done; [by apply evlist_ok_anything with el|].
    exists (-1), s2. split; [|by eauto].
    erewrite bind_ret; [reflexivity|]. rewrite <- E2. apply (evlist__for_each_run el ps); [|done].
    intros p u v w Hv. minv Hv. unfold get_evsel in Hm. destruct (p =? NULL); [done|].
    destruct (p_evsels u !! p); [|done]. injection Hm as <- <-.
    destruct (ev_is_open _); [by eapply on_evsel_nodes|by injection Hv as <- <-].
Qed.

(** C4: prof_evlist__start always returns; on a well-formed list it reports 0
    with every event open, or -1 with every event closed, and the list stays
    well formed. *)
Theorem evlist_start_all_or_nothing `{K : Kernel} s el ps :
  evlist_ok s el ps ->
  exists r s', prof_evlist__start el s = Ret (r, s') /\ evlist_ok s' el ps /\
    ((r = 0 /\ holds opened s' ps) \/ (r = -1 /\ holds closed s' ps)).
Proof. apply evlist_start_run. Qed.

(** ** Deleting a list *)
Section Delete.
Context `{K : Kernel}.

(** The descriptors only shrink. *)
Definition fds_shrink (t t' : trace) : Prop := forall fd, fd ∈ live_fds t' -> fd ∈ live_fds t.
#[global] Instance fds_shrink_preorder : PreOrder fds_shrink.
Proof. split; [by intros t fd|]. intros t1 t2 t3 H1 H2 fd Hfd. by apply H1, H2. Qed.

Lemma elem_remove (x y : Z) l : x ∈ List.remove Z.eq_dec y l -> x ∈ l /\ x <> y.
Proof. rewrite !list_elem_of_In. apply in_remove. Qed.

Lemma elem_of_rev (x : Z) l : x ∈ rev l <-> x ∈ l.
Proof. rewrite !list_elem_of_In. symmetry. apply in_rev. Qed.

(** The descriptor an event had at the start is gone, or is still the event's. *)
Definition fd_tracked (s0 : pstate) (p : Z) (e : prof_evsel) (t : trace) : Prop :=
  forall e0, p_evsels s0 !! p = Some e0 -> ev_is_open e0 = true ->
    ev_fd e0 ∉ live_fds t \/ (ev_is_open e = true /\ ev_fd e = ev_fd e0).

Lemma close_fds_shrink e e' t t' : evsel_ok e -> prof_evsel__close e t = Ret (e', t') -> fds_shrink t t'.
Proof.
  intros Hok H. destruct (close_total e t Hok) as (e1 & t1 & E & _ & _ & Ht). rewrite E in H. injection H as <- <-.
  intros fd. rewrite Ht. destruct (ev_is_open e); [|done]. by intros [? _]%elem_remove.
Qed.

Lemma close_fd_tracked s0 p e e' t t' :
  evsel_ok e -> fd_tracked s0 p e t -> prof_evsel__close e t = Ret (e', t') -> fd_tracked s0 p e' t'.
Proof.
  intros Hok HI H e0 He0 Ho0. left. destruct (close_total e t Hok) as (e1 & t1 & E & _ & _ & Ht).
  rewrite E in H. injection H as <- <-. destruct (HI e0 He0 Ho0) as [Hn|[Ho Hf]].
  - rewrite Ht. destruct (ev_is_open e); [|done]. by intros [? _]%elem_remove.
  - rewrite Ht, Ho, Hf. by intros [_ ?]%elem_remove.
Qed.

Definition delete_body (pos : Z) : M pstate unit :=
  lift (list_del_init pos) ;;
  e ← get_evsel pos ;
  put_evsel pos (set_evlist e NULL) ;;
  prof_evsel__delete pos.

(** One round of the second loop, on a closed event: the event and its node
    are gone, the rest of the ring is linked up, no system call is made. *)
Lemma delete_body_run s el p ps e :
  is_list (p_nodes s) el (p :: ps) -> p <> NULL -> p_evsels s !! p = Some e -> ev_is_open e = false ->
  exists s', delete_body p s = Ret (tt, s') /\ is_list (p_nodes s') el ps /\
    p_evsels s' = delete p (p_evsels s) /\ p_evlists s' = p_evlists s /\ p_trace s' = p_trace s /\
    p_nodes s' !! p = None /\ same_outside (el :: p :: ps) (p_nodes s) (p_nodes s') /\
    p_brk s' = p_brk s.
Proof.
  intros HL Hp He Ho. destruct (list_del_init_spec (p_nodes s) el [] p ps HL) as (h & E & HL' & _ & Hout).
  unfold delete_body. assert (lift (list_del_init p) s = Ret (tt, set_nodes s h)) as E1.
  { unfold lift. simpl eget. by rewrite E. }
  rewrite (bind_ret _ _ _ _ _ E1).
  assert (forall s e, p_evsels s !! p = Some e -> get_evsel p s = Ret (e, s)) as Hget.
  { intros s1 e1 H1. unfold get_evsel. by rewrite (proj2 (Z.eqb_neq p NULL)), H1. }
  rewrite (bind_ret _ _ _ _ _ (Hget (set_nodes s h) e He)). erewrite bind_ret by reflexivity.
  unfold prof_evsel__delete, on_evsel', on_evsel, free_evsel.
  set (s1 := set_evsels _ _). assert (p_evsels s1 !! p = Some (set_evlist e NULL)) as H1 by apply lookup_insert_eq.
  eexists. split.
  { unfold mbind at 1, M_bind at 1. unfold mbind at 1, M_bind at 1. rewrite (Hget _ _ H1).
    unfold prof_evsel__delete_fields. simpl ev_is_open. rewrite Ho.
    unfold mbind, M_bind, lift, mret, M_ret, put_evsel, modify. cbv beta iota. unfold get_evsel.
    rewrite (proj2 (Z.eqb_neq p NULL)) by done. simpl. rewrite lookup_insert_eq. reflexivity. }
  simpl. rewrite !delete_insert_eq. split_and!; try done.
  - eapply is_list_frame; [| |exact HL'].
    + intros q Hq. apply (lookup_delete_ne (M := gmap Z)). intros ->. apply Hq. by left.
    + intros x Hx ->%list_elem_of_singleton. destruct HL as [_ Hnd]. simpl in Hnd.
      apply NoDup_cons in Hnd as [? [? _]%NoDup_cons]. set_solver.
  - apply lookup_delete_eq.
  - intros q Hq. rewrite lookup_delete_ne by set_solver. apply Hout. set_solver.
Qed.

(** Freeing the node of an event that was unlinked keeps the ring. *)
Lemma is_list_delete_node h el p ps : p ∉ el :: ps -> is_list h el ps -> is_list (delete p h) el ps.
Proof.
  intros Hp. eapply is_list_frame with (X := [p]).
  - intros q Hq. apply (lookup_delete_ne (M := gmap Z)). intros ->. apply Hq. by left.
  - by intros x Hx ->%list_elem_of_singleton.
Qed.

Lemma delete_body_drains el : drains el delete_body.
Proof.
  intros p ps s u s' HL H. simpl in *.
  assert (p ∉ el :: ps) as Hp.
  { destruct HL as [_ [? [? _]%NoDup_cons]%NoDup_cons]. set_solver. }
  destruct (list_del_init_spec (p_nodes s) el [] p ps HL) as (h & E & HL' & _ & _). simpl in HL'.
  unfold delete_body in H. minv H. unfold lift in Hm. simpl eget in Hm. rewrite E in Hm. injection Hm as <- <-.
  minv H. unfold get_evsel in Hm. destruct (p =? NULL); [done|].
  destruct (p_evsels _ !! p); [|done]. injection Hm as <- <-.
  minv H. injection Hm as <- <-. unfold prof_evsel__delete in H. minv H.
  apply on_evsel_nodes in Hm. simpl in Hm. unfold free_evsel in H. minv H.
  unfold get_evsel in Hm0. destruct (p =? NULL); [done|]. destruct (p_evsels s0 !! p); [|done].
  injection Hm0 as <- <-. injection H as <- <-. simpl. rewrite Hm. by apply is_list_delete_node.
Qed.

Lemma forM_delete_run ps s el :
  is_list (p_nodes s) el ps -> NULL ∉ ps -> holds closed s ps ->
  exists s', forM ps delete_body s = Ret (tt, s') /\ is_list (p_nodes s') el [] /\
    (forall q, p_evsels s' !! q = if decide (q ∈ ps) then None else p_evsels s !! q) /\
    p_evlists s' = p_evlists s /\ p_trace s' = p_trace s /\
    (forall q, q ∈ ps -> p_nodes s' !! q = None) /\ same_outside (el :: ps) (p_nodes s) (p_nodes s') /\
    p_brk s' = p_brk s.
Proof.
  revert s. induction ps as [|p ps IH]; intros s HL HN HC; simpl.
  { exists s. split_and!; try done. intros q Hq. by apply elem_of_nil in Hq. }
  destruct (HC p) as (e & He & Ho); [by left|].
  destruct (delete_body_run s el p ps e) as (s1 & E1 & HL1 & Hev & Hel & Ht & Hnp & Hout & Hb1); [done|set_solver|done..|].
  assert (p ∉ el :: ps) as Hp.
  { destruct HL as [_ [? [? _]%NoDup_cons]%NoDup_cons]. clear -H H0. set_solver. }
  rewrite (bind_ret _ _ _ _ _ E1).
  destruct (IH s1) as (s2 & E2 & HL2 & Hev2 & Hel2 & Ht2 & Hn2 & Hout2 & Hb2); [done|set_solver|..].
  { intros q Hq. destruct (HC q) as (e' & He' & Ho'); [by right|]. exists e'. split; [|done].
    rewrite Hev, lookup_delete_ne; [done|]. intros ->. set_solver. }
  exists s2. split_and!; [done|done| |congruence|congruence| | |congruence].
  - intros q. rewrite Hev2, Hev. destruct (decide (q = p)) as [->|Hq].
    + rewrite lookup_delete_eq, (decide_True (P := p ∈ p :: ps)) by (by left). by case_decide.
    + rewrite lookup_delete_ne by done. repeat case_decide; try done; clear -H H0 Hq; set_solver.
  - intros q [->|Hq]%elem_of_cons; [|by apply Hn2]. by rewrite Hout2.
  - eapply same_outside_trans; [exact Hout|]. eapply same_outside_mono; [|exact Hout2]. clear. set_solver.
Qed.
End Delete.

Lemma evlist_delete_run s el ps :
  evlist_ok s el ps ->
  exists s', prof_evlist__delete el s = Ret (tt, s') /\
    (forall q, p_evsels s' !! q = if decide (q ∈ ps) then None else p_evsels s !! q) /\
    p_evlists s' = delete el (p_evlists s) /\
    (forall q, p_nodes s' !! q = if decide (q ∈ el :: ps) then None else p_nodes s !! q) /\
    (forall p e, p ∈ ps -> p_evsels s !! p = Some e -> ev_is_open e = true -> ev_fd e ∉ live_fds (p_trace s')) /\
    fds_shrink (p_trace s) (p_trace s') /\ p_brk s' = p_brk s.
Proof.
  intros OK. unfold prof_evlist__delete.
  destruct (forM_evsels el ps _ fds_shrink (fd_tracked s) _
    (close_body el ps fds_shrink (fd_tracked s) (fun s e e' t' => close_fds_shrink e e' (p_trace s) t')
      (close_fd_tracked s))) with (l := rev ps) (s := s)
    as (s1 & E1 & OK1 & Hsh & Hn1 & Hel1 & Hb1 & Hfr & HI1 & HP1).
  { intros p e t t' Ht HI e0 He0 Ho0. destruct (HI e0 He0 Ho0) as [?|?]; [left|by right]. by intros ?%Ht. }
  { intros p e t t' Ht [HI Hc]. split; [|done].
    intros e0 He0 Ho0. destruct (HI e0 He0 Ho0) as [?|?]; [left|by right]. by intros ?%Ht. }
  { intros p. by rewrite elem_of_rev. }
  { done. }
  { intros p Hp. destruct (evlist_ok_evsel _ _ _ OK p Hp) as (e & He & _). exists e. split; [done|].
    intros e0 He0 Ho0. right. by simplify_eq. }
  rewrite (bind_ret _ _ _ _ _ (eq_trans (evlist__for_each_reverse_run el ps _
    (fun p u v w => on_evsel_nodes _ _ u v w) s OK) E1)).
  destruct (forM_delete_run ps s1 el) as (s2 & E2 & HL2 & Hev2 & Hel2 & Ht2 & Hn2 & Hout2 & Hb2); [apply OK1|..].
  { intros H. pose proof (evlist_ok_addr _ _ _ OK1 NULL ltac:(by right)). unfold NULL in *. lia. }
  { intros p Hp. destruct (HP1 p) as (e & ? & _ & ?); [by rewrite elem_of_rev|]. by exists e. }
  assert (evlist__for_each_safe el delete_body s1 = Ret (tt, s2)) as Es.
  { unfold evlist__for_each_safe. erewrite bind_ret by reflexivity. rewrite <- E2.
    apply list_for_each_entry_safe_spec; [apply delete_body_drains|apply OK1|by apply evlist_fuel with el]. }
  unfold delete_body in Es. rewrite (bind_ret _ _ _ _ _ Es).
  destruct (get_evlist_run _ _ _ OK1) as (l & Hl & _ & _).
  pose proof (evlist_ok_addr _ _ _ OK1 el ltac:(by left)) as Hpos.
  assert (forall u m, p_evlists u !! el = Some m -> get_evlist el u = Ret (m, u)) as Hg.
  { intros u m Hm. unfold get_evlist. by rewrite (proj2 (Z.eqb_neq el NULL)), Hm by (unfold NULL; lia). }
  rewrite (bind_ret _ _ _ _ _ (Hg s2 l ltac:(by rewrite Hel2))).
  erewrite bind_ret by reflexivity. unfold free_evlist.
  erewrite bind_ret by (apply Hg, lookup_insert_eq).
  eexists. split; [reflexivity|]. simpl. rewrite delete_insert_eq, Hel2, Hel1, Ht2. split_and!; [|done| | |done|congruence].
  - intros q. rewrite Hev2. case_decide as Hq; [done|]. apply Hfr. by rewrite elem_of_rev.
  - intros q. destruct (decide (q = el)) as [->|Hq].
    { rewrite lookup_delete_eq, decide_True; [done|by left]. }
    rewrite lookup_delete_ne by done. case_decide as Hin.
    + apply Hn2. apply elem_of_cons in Hin as [|]; done.
    + rewrite Hout2, Hn1 by done. done.
  - intros p e Hp He Ho. destruct (HP1 p) as (e1 & He1 & HI & Hc); [by rewrite elem_of_rev|].
    destruct (HI e He Ho) as [?|[Hx _]]; [done|]. unfold closed in Hc. congruence.
Qed.

(** C36: prof_evlist__delete on a well-formed list runs to completion, closes
    every descriptor the list's events held, and frees exactly the list, its
    events and their nodes: every other object is untouched. *)
Theorem evlist_delete_releases s el ps :
  evlist_ok s el ps ->
  exists s', prof_evlist__delete el s = Ret (tt, s') /\
    (forall q, p_evsels s' !! q = if decide (q ∈ ps) then None else p_evsels s !! q) /\
    p_evlists s' = delete el (p_evlists s) /\
    (forall q, p_nodes s' !! q = if decide (q ∈ el :: ps) then None else p_nodes s !! q) /\
    (forall p e, p ∈ ps -> p_evsels s !! p = Some e -> ev_is_open e = true -> ev_fd e ∉ live_fds (p_trace s')) /\
    fds_shrink (p_trace s) (p_trace s').
Proof.
  intros OK. destruct (evlist_delete_run s el ps OK) as (s' & ? & ? & ? & ? & ? & ? & _).
  exists s'. by split_and!.
Qed.

(** ** Building a list *)
Section Add.
Context `{abi : PerfAbi} `{A : Allocator} `{K : Kernel}.

Lemma parse_total str b : exists o, prof_evsel__parse true str b = Ret (o, true).
Proof.
  unfold prof_evsel__parse. simpl. destruct (split_char _ str) as [[l r]|];
    (erewrite bind_ret by (by destruct b)); destruct (find_from _ _); eauto.
Qed.

Lemma malloc_run s : 0 < p_brk s ->
  malloc s = Ret (if malloc_ok (p_brk s) then p_brk s else NULL, set_brk s (p_brk s + 1)) /\
  strdup_ok s = Ret (malloc_ok (p_brk s), set_brk s (p_brk s + 1)).
Proof.
  intros Hb. unfold strdup_ok, malloc, mbind, M_bind. split; [done|].
  destruct (malloc_ok (p_brk s)); [|done]. by rewrite (proj2 (Z.eqb_neq _ NULL)) by (unfold NULL; lia).
Qed.

(** What [__prof_evlist__add] relies on does not depend on the break, the pmu
    flag or a fresh event. *)
Lemma evlist_ok_brk s el ps b pm :
  evlist_ok s el ps -> p_brk s <= b ->
  evlist_ok (mk_pstate (p_nodes s) (p_evsels s) (p_evlists s) b pm (p_trace s)) el ps.
Proof. intros [? ? ? HB] ?. split; try done. intros p Hp. simpl in *. specialize (HB p Hp). lia. Qed.

Definition added_evsel (el : Z) (ps : list Z) (attr : perf_event_attr) (name : option string) : prof_evsel :=
  mk_evsel el attr 0 0 NULL false false (s32 (Z.of_nat (length ps))) name.

(** The state after a new event at [p] was filled in and linked. *)
Lemma evlist_ok_append s el ps p attr name h b pm l :
  evlist_ok s el ps -> p_evlists s !! el = Some l -> p_brk s <= p < b ->
  is_list h el (ps ++ [p]) -> (forall q, has h q -> has (p_nodes s) q \/ q = p) ->
  evlist_ok (mk_pstate h (<[p := added_evsel el ps attr name]> (p_evsels s))
     (<[el := mk_evlist (s32 (Z.of_nat (length ps) + 1)) (el_pid l) (el_selected l)]> (p_evlists s)) b pm (p_trace s))
    el (ps ++ [p]).
Proof.
  intros OK Hl Hb HL Hh. split; simpl; [done| | |].
  - eexists. split; [apply lookup_insert_eq|]. simpl. rewrite length_app. simpl. f_equal. lia.
  - intros i q Hi. apply lookup_app_Some in Hi as [Hi|[Hi Hq]].
    + destruct (ok_evs _ _ _ OK i q Hi) as (e & He & ?). exists e. rewrite lookup_insert_ne; [done|].
      intros <-. pose proof (evlist_ok_addr _ _ _ OK p). apply list_elem_of_lookup_2 in Hi.
      specialize (H0 ltac:(by right)). lia.
    + apply list_lookup_singleton_Some in Hq as [Hi' <-]. rewrite lookup_insert_eq. eexists. split; [done|].
      simpl. split_and!; try done. f_equal. lia.
  - intros q Hq. pose proof (ok_brk _ _ _ OK) as HB. destruct (Hh q Hq) as [?%HB| ->]; [lia|].
    pose proof (evlist_ok_addr _ _ _ OK el ltac:(by left)). lia.
Qed.

(** *** The steps of [__prof_evlist__add] *)

Lemma get_evsel_at u p e : p <> NULL -> p_evsels u !! p = Some e -> get_evsel p u = Ret (e, u).
Proof. intros Hp He. unfold get_evsel. by rewrite (proj2 (Z.eqb_neq p NULL) Hp), He. Qed.

Lemma get_evlist_at u el l : el <> NULL -> p_evlists u !! el = Some l -> get_evlist el u = Ret (l, u).
Proof. intros Hp He. unfold get_evlist. by rewrite (proj2 (Z.eqb_neq el NULL) Hp), He. Qed.

Definition blank_evsel (name : option string) : prof_evsel :=
  mk_evsel NULL zero_attr 0 0 NULL false false 0 name.

Lemma new_evsel_run s name (p := p_brk s) :
  0 < p -> malloc_ok p = true ->
  new_evsel None name s = Ret (p, mk_pstate (<[p := mk_list_head NULL NULL]> (p_nodes s))
    (<[p := blank_evsel (if malloc_ok (p + 1) then Some name else None)]> (p_evsels s))
    (p_evlists s) (p + 1 + 1) (p_pmu s) (p_trace s)).
Proof.
  intros Hp Hm. unfold new_evsel. destruct (malloc_run s Hp) as [Em _]. fold p in Em. rewrite Hm in Em.
  rewrite (bind_ret _ _ _ _ _ Em), (proj2 (Z.eqb_neq p NULL)) by (unfold NULL; lia).
  destruct (malloc_run (set_brk s (p + 1)) ltac:(simpl; lia)) as [_ Ed]. by rewrite (bind_ret _ _ _ _ _ Ed).
Qed.

Lemma new_evsel_fails s name : 0 < p_brk s -> malloc_ok (p_brk s) = false ->
  new_evsel None name s = Ret (NULL, set_brk s (p_brk s + 1)).
Proof.
  intros Hp Hm. unfold new_evsel. destruct (malloc_run s Hp) as [Em _]. rewrite Hm in Em.
  by rewrite (bind_ret _ _ _ _ _ Em).
Qed.

Lemma evsel_init_run s p e attr idx :
  p <> NULL -> p_evsels s !! p = Some e -> has (p_nodes s) p ->
  exists h, prof_evsel__init p attr idx s = Ret (tt, mk_pstate h
      (<[p := prof_evsel__init_fields e attr idx]> (p_evsels s)) (p_evlists s) (p_brk s) (p_pmu s) (p_trace s)) /\
    same_outside [p] (p_nodes s) h /\ forall q, has h q <-> has (p_nodes s) q.
Proof.
  intros Hp He Hh. destruct (INIT_LIST_HEAD_spec (p_nodes s) p Hh) as (h & E & HL & O). exists h.
  unfold prof_evsel__init. rewrite (proj2 (Z.eqb_neq p NULL) Hp), (bind_ret _ _ _ _ _ (get_evsel_at s p e Hp He)).
  erewrite bind_ret by reflexivity. unfold lift. simpl eget. rewrite E. split_and!; [done|done|].
  intros q. destruct (decide (q = p)) as [->|]; [|unfold has; by rewrite O by (by intros ->%list_elem_of_singleton)].
  split; [done|]. intros _. by apply (is_list_has _ _ _ p HL); left.
Qed.

Lemma list_add_tail_dom new hd h u h' q : list_add_tail new hd h = Ret (u, h') -> has h' q -> has h q.
Proof.
  intros E. assert (keeps_nodes (list_add_tail new hd)) as HK.
  { unfold list_add_tail, __list_add. repeat first [apply keeps_nodes_bind; [|intros]|apply keeps_nodes_rd_prev
      |apply keeps_nodes_wr_prev|apply keeps_nodes_wr_next]. }
  by apply (HK _ _ _ E q).
Qed.

(** From the new event to the end of the function. *)
Lemma evlist_link_run s el ps p l attr name b pm
  (s1 := mk_pstate (<[p := mk_list_head NULL NULL]> (p_nodes s)) (<[p := blank_evsel name]> (p_evsels s))
         (p_evlists s) b pm (p_trace s)) :
  evlist_ok s el ps -> p_evlists s !! el = Some l -> p_brk s <= p < b ->
  exists s', (l ← get_evlist el ;
      prof_evsel__init p attr (el_nr_entries l) ;;
      e ← get_evsel p ;
      put_evsel p (set_evlist e el) ;;
      lift (list_add_tail p el) ;;
      l ← get_evlist el ;
      put_evlist el (mk_evlist (s32 (el_nr_entries l + 1)) (el_pid l) (el_selected l)) ;;
      mret 1) s1 = Ret (1, s') /\ p_trace s' = p_trace s /\
    evlist_ok s' el (ps ++ [p]) /\ p_evsels s' = <[p := added_evsel el ps attr name]> (p_evsels s).
Proof.
  intros OK Hl Hb. pose proof (evlist_ok_addr _ _ _ OK el ltac:(by left)) as Hel.
  assert (el <> NULL /\ p <> NULL) as [Hne Hpn] by (unfold NULL; lia).
  assert (el_nr_entries l = s32 (Z.of_nat (length ps))) as Hn.
  { destruct (ok_el _ _ _ OK) as (l0 & Hl0 & Hn). congruence. }
  assert (has (p_nodes s1) p) as Hh1 by (unfold has; simpl; rewrite lookup_insert_eq; eauto).
  rewrite (bind_ret _ _ _ _ _ (get_evlist_at s1 _ _ Hne Hl)).
  destruct (evsel_init_run s1 p _ attr (el_nr_entries l) Hpn (lookup_insert_eq _ _ _) Hh1) as (h & Ei & O & D).
  rewrite (bind_ret _ _ _ _ _ Ei). erewrite bind_ret by (apply get_evsel_at; [done|apply lookup_insert_eq]).
  erewrite bind_ret by reflexivity.
  assert (p ∉ el :: ps) as Hnew by (intros Hx%(evlist_ok_addr _ _ _ OK); lia).
  assert (is_list h el ps) as HL.
  { eapply is_list_frame with (X := [p]); [|by intros x Hx ->%list_elem_of_singleton|apply OK].
    intros q Hq. rewrite O by done. apply (lookup_insert_ne (M := gmap Z)). intros <-. apply Hq. by left. }
  destruct (list_add_tail_spec h el ps p HL Hnew) as (h' & Ea & HL' & _); [by apply D|].
  erewrite bind_ret by (unfold lift; simpl eget; rewrite Ea; reflexivity).
  erewrite bind_ret by (apply get_evlist_at; [done|exact Hl]). erewrite bind_ret by reflexivity.
  eexists. split; [reflexivity|]. unfold set_evlists. simpl. split; [done|].
  rewrite !insert_insert_eq, Hn, s32_succ. split; [|done].
  apply evlist_ok_append; try done.
  intros q Hq%(list_add_tail_dom _ _ _ _ _ _ Ea)%D. unfold has in *. simpl in Hq.
  destruct (decide (q = p)) as [->|]; [by right|left]. by rewrite lookup_insert_ne in Hq.
Qed.

Lemma evlist_add_run s el ps str :
  evlist_ok s el ps -> malloc_ok (p_brk s) = true ->
  exists o r s', prof_evsel__parse true str (p_pmu s) = Ret (o, true) /\
    __prof_evlist__add el str s = Ret (r, s') /\ p_trace s' = p_trace s /\
    match o, malloc_ok (p_brk s + 1) with
    | Some (name, attr), true =>
        r = 1 /\ evlist_ok s' el (ps ++ [p_brk s + 1]) /\
        p_evsels s' = <[p_brk s + 1 := added_evsel el ps attr
          (if malloc_ok (p_brk s + 1 + 1) then Some name else None)]> (p_evsels s)
    | _, _ => r = 0 /\ evlist_ok s' el ps /\ p_evsels s' = p_evsels s
    end.
Proof.
  intros OK Hm. pose proof (evlist_ok_addr _ _ _ OK el ltac:(by left)) as Hel.
  destruct (parse_total str (p_pmu s)) as (o & Eo). exists o.
  unfold __prof_evlist__add. destruct (malloc_run s ltac:(lia)) as [_ Ed]. rewrite Hm in Ed.
  rewrite (bind_ret _ _ _ _ _ Ed).
  set (s1 := mk_pstate (p_nodes s) (p_evsels s) (p_evlists s) (p_brk s + 1) true (p_trace s)).
  assert (lift (prof_evsel__parse true str) (set_brk s (p_brk s + 1)) = Ret (o, s1)) as Ep.
  { unfold lift. simpl eget. by rewrite Eo. }
  rewrite (bind_ret _ _ _ _ _ Ep). destruct o as [[name attr]|].
  2:{ exists 0, s1. split_and!; try done. by apply evlist_ok_brk; [|lia]. }
  destruct (malloc_ok (p_brk s + 1)) eqn:Hm1.
  - rewrite (bind_ret _ _ _ _ _ (new_evsel_run s1 name ltac:(simpl; lia) Hm1)).
    change (p_brk s1) with (p_brk s + 1). rewrite (proj2 (Z.eqb_neq (p_brk s + 1) NULL)) by (unfold NULL; lia).
    destruct (ok_el _ _ _ OK) as (l & Hl & _).
    destruct (evlist_link_run s el ps (p_brk s + 1) l attr (if malloc_ok (p_brk s + 1 + 1) then Some name else None)
      (p_brk s + 1 + 1 + 1) true OK Hl ltac:(lia)) as (s' & E & ? & ? & ?).
    exists 1, s'. split_and!; done.
  - rewrite (bind_ret _ _ _ _ _ (new_evsel_fails s1 name ltac:(simpl; lia) Hm1)).
    do 2 eexists. split_and!; try done. apply (evlist_ok_brk s el ps (p_brk s + 1 + 1) true OK). lia.
Qed.

(** Adding one event to a well-formed list: when the specification names
    an event of the table and memory lasts, the list grows by one event at its
    end, closed, numbered with the old length and carrying the parsed
    attributes; otherwise nothing is added.  Either way the list stays well
    formed and no system call is made. *)
Theorem evlist_add_correct s el ps str :
  evlist_ok s el ps -> malloc_ok (p_brk s) = true ->
  exists o r s', prof_evsel__parse true str (p_pmu s) = Ret (o, true) /\
    __prof_evlist__add el str s = Ret (r, s') /\ p_trace s' = p_trace s /\
    match o, malloc_ok (p_brk s + 1) with
    | Some (name, attr), true =>
        r = 1 /\ evlist_ok s' el (ps ++ [p_brk s + 1]) /\
        p_evsels s' = <[p_brk s + 1 := added_evsel el ps attr
          (if malloc_ok (p_brk s + 1 + 1) then Some name else None)]> (p_evsels s)
    | _, _ => r = 0 /\ evlist_ok s' el ps /\ p_evsels s' = p_evsels s
    end.
Proof. apply evlist_add_run. Qed.
End Add.

(** ** A new list *)
Lemma evlist_new_run `{A : Allocator} s pid (p := p_brk s) :
  (forall q, has (p_nodes s) q -> 0 < q < p) -> 0 < p ->
  if malloc_ok p then
    exists s', prof_evlist__new pid s = Ret (p, s') /\ evlist_ok s' p [] /\
      p_evsels s' = p_evsels s /\ p_evlists s' = <[p := mk_evlist 0 pid NULL]> (p_evlists s)
  else prof_evlist__new pid s = Fault FNull.
Proof.
  intros Hb Hp. destruct (malloc_run s Hp) as [Em _]. fold p in Em. unfold prof_evlist__new.
  rewrite (bind_ret _ _ _ _ _ Em). destruct (malloc_ok p); [|done].
  rewrite (proj2 (Z.eqb_neq p NULL)) by (unfold NULL; lia).
  destruct (INIT_LIST_HEAD_spec (<[p := mk_list_head NULL NULL]> (p_nodes s)) p) as (h & E & HL & O).
  { unfold has. rewrite lookup_insert_eq. eauto. }
  erewrite bind_ret.
  2:{ do 2 (erewrite bind_ret by reflexivity). unfold prof_evlist__init, lift. simpl eget. by rewrite E. }
  erewrite bind_ret by (apply get_evlist_at; [unfold NULL; lia|apply lookup_insert_eq]).
  erewrite bind_ret by reflexivity. eexists. split; [reflexivity|]. unfold set_evlists. simpl.
  rewrite insert_insert_eq. split_and!; try done. split; simpl; try done.
  - eexists. split; [apply lookup_insert_eq|]. done.
  - intros q Hq. destruct (decide (q = p)) as [->|Hne]; [lia|].
    unfold has in Hq. rewrite O in Hq by (by intros ->%list_elem_of_singleton).
    rewrite lookup_insert_ne in Hq by done. specialize (Hb q Hq). lia.
Qed.

(** A list of two events, used to evaluate the model. *)
Definition all_ok : Allocator := fun _ => true.
Definition empty_pstate : pstate := mk_pstate ∅ ∅ ∅ 1 false [].

Definition demo_list : res (Z * pstate) :=
  (el ← @prof_evlist__new all_ok 42 ;
   @prof_evlist__add_from_str linux_abi all_ok el (Some "instructions,cpu-cycles:u") ;;
   mret el) empty_pstate.

Definition demo_pstate : pstate := match demo_list with Ret (_, s) => s | Fault _ => empty_pstate end.

Lemma demo_evlist_ok : evlist_ok demo_pstate 1 [4; 7].
Proof.
  split.
  - split; [vm_compute; tauto|apply (bool_decide_unpack _); vm_compute; exact I].
  - eexists. split; vm_compute; reflexivity.
  - intros [|[|i]] p; [intros [= <-]|intros [= <-]|done]; eexists; (split; [vm_compute; reflexivity|]); done.
  - assert (map_Forall (fun p _ => 0 < p < p_brk demo_pstate) (p_nodes demo_pstate)) as HF.
    { apply (bool_decide_unpack _). vm_compute. exact I. }
    intros p [x Hx]. exact (HF p x Hx).
Qed.

Lemma evlist_add_from_str_tokens_witness :
  @prof_evlist__add_from_str linux_abi all_ok 1 (Some "instructions,cpu-cycles:u,") demo_pstate =
    @add_all linux_abi all_ok 1 ["instructions"; "cpu-cycles:u"; "cpu-cycles:u"] 0
      (set_brk demo_pstate (p_brk demo_pstate + 1)).
Proof.
  refine (proj1 (proj2 (@evlist_add_from_str_tokens linux_abi all_ok 1 ["instructions"] "cpu-cycles:u" demo_pstate _ _ _ _))).
  - repeat constructor; vm_compute; intuition discriminate.
  - vm_compute. lia.
  - reflexivity.
  - vm_compute. discriminate.
Defined.

Lemma evlist_start_all_or_nothing_witness :
  exists r s', @prof_evlist__start demo_kernel 1 demo_pstate = Ret (r, s') /\ evlist_ok s' 1 [4; 7] /\
    ((r = 0 /\ holds opened s' [4; 7]) \/ (r = -1 /\ holds closed s' [4; 7])).
Proof. apply (@evlist_start_all_or_nothing demo_kernel). apply demo_evlist_ok. Defined.

Lemma evlist_delete_releases_witness :
  exists s', @prof_evlist__delete 1 demo_pstate = Ret (tt, s') /\ p_evlists s' = delete 1 (p_evlists demo_pstate).
Proof.
  destruct (evlist_delete_releases demo_pstate 1 [4; 7] demo_evlist_ok) as (s' & E & _ & Hl & _).
  exists s'. split; [exact E|exact Hl].
Defined.

Lemma evlist_add_correct_witness :
  exists r s', @__prof_evlist__add linux_abi all_ok 1 "L1-dcache-loads" demo_pstate = Ret (r, s').
Proof.
  destruct (@evlist_add_correct linux_abi all_ok demo_pstate 1 [4; 7] "L1-dcache-loads" demo_evlist_ok eq_refl)
    as (o & r & s' & _ & E & _). exists r, s'. exact E.
Defined.

(** ** Any event-list text *)
Lemma split_char_length c s l r : split_char c s = Some (l, r) -> (String.length r < String.length s)%nat.
Proof.
  revert l. induction s as [|a s IH]; intros l; simpl; [done|].
  destruct (Ascii.eqb a c); [intros [= _ <-]; lia|].
  destruct (split_char c s) as [[l' r']|]; [|done]. intros [= _ <-]. specialize (IH _ eq_refl). lia.
Qed.

Section FromStr.
Context `{abi : PerfAbi} `{A : Allocator}.
Hypothesis Hmem : forall p, malloc_ok p = true.

(** A list operation that returns, keeps the list well formed and makes no
    system call. *)
Definition list_op (el : Z) (m : M pstate Z) : Prop := forall s ps, evlist_ok s el ps ->
  exists r s' ps', m s = Ret (r, s') /\ evlist_ok s' el ps' /\ p_trace s' = p_trace s.

Lemma list_op_ret el r : list_op el (mret r).
Proof. intros s ps OK. by exists r, s, ps. Qed.

Lemma list_op_bind el m k : list_op el m -> (forall r, list_op el (k r)) -> list_op el (m ≫= k).
Proof.
  intros Hm Hk s ps OK. destruct (Hm s ps OK) as (r & s1 & ps1 & E & OK1 & Ht1).
  rewrite (bind_ret _ _ _ _ _ E). destruct (Hk r s1 ps1 OK1) as (r' & s2 & ps2 & E2 & OK2 & Ht2).
  exists r', s2, ps2. by rewrite Ht2.
Qed.

Lemma list_op_add el str : list_op el (__prof_evlist__add el str).
Proof.
  intros s ps OK. destruct (evlist_add_run s el ps str OK (Hmem _)) as (o & r & s' & _ & E & Ht & Ho).
  exists r, s'. rewrite Hmem in Ho. destruct o as [[? ?]|]; destruct Ho as (_ & OK' & _); eauto.
Qed.

Lemma list_op_last el len off pcur added : list_op el (add_last el len off pcur added).
Proof.
  unfold add_last. destruct (_ <? _); [|apply list_op_ret].
  apply list_op_bind; [apply list_op_add|]. intros r. apply list_op_ret.
Qed.

Lemma list_op_loop n el len off pcur added :
  (String.length pcur < n)%nat -> list_op el (add_loop n el len off pcur added).
Proof.
  revert off pcur added. induction n as [|n IH]; intros off pcur added Hn; [lia|]. cbn [add_loop].
  destruct (split_char "," pcur) as [[tok rest]|] eqn:E; [|apply list_op_last].
  apply list_op_bind; [apply list_op_add|]. intros r.
  destruct (_ =? _); [apply list_op_last|]. apply IH. apply split_char_length in E. lia.
Qed.

Lemma evlist_add_from_str_run el str : list_op el (prof_evlist__add_from_str el str).
Proof.
  destruct str as [[|c str]|]; [apply list_op_ret| |apply list_op_ret].
  intros s ps OK. unfold prof_evlist__add_from_str.
  pose proof (evlist_ok_addr _ _ _ OK el ltac:(by left)) as Hel.
  destruct (malloc_run s ltac:(lia)) as [_ Ed]. rewrite Hmem in Ed. rewrite (bind_ret _ _ _ _ _ Ed).
  refine (list_op_loop (S (String.length (String c str))) el _ 0 _ 0 _ _ ps _); [lia|].
  apply (evlist_ok_brk s el ps (p_brk s + 1) (p_pmu s) OK). lia.
Qed.
End FromStr.
