(* ===== verification/Profile.v ===== *)
(** * The probe runtime: probe/profile.c, profile.h and emptyprobe.c

    The global table of profiled threads, its life cycle (lprobe_init, the
    pthread_create hook, lprobe_exit) and the recording of counter values at
    function entry and exit.  The state [gstate] holds the memory of Evlist, the
    global [prof_info] with its table of 64 threads, the record files and the
    thread-local variables of every thread.  [thread_lock] makes the registering
    functions atomic, so each of them is one step of the state. *)
From stdpp Require Import base gmap list strings.
From Stdlib Require Import Ascii.
From S2P Require Import Prelude ListHead Pmu ProbeUtil Evsel Evlist.

Definition PROF_THREAD_MAX : Z := 64.
Definition PROF_RECORD_CACHE : Z := Z.shiftl 1 16.

Inductive prof_state : Type := PROF_STATE_UNINIT | PROF_STATE_RUNNING | PROF_STATE_ERROR.

Definition PROF_RECORD_POS_PRE : Z := 0.
Definition PROF_RECORD_POS_POST : Z := 1.

Record prof_record : Type := mk_record {
  rec_ts : Z;
  rec_func_idx : Z;
  rec_pos : Z;
  rec_ev_idx : Z;
  rec_count : Z
}.

Definition zero_record : prof_record := mk_record 0 0 0 0 0.

(** [ti_records] holds the slots of the record cache that were written; a
    stream is named by the thread id in its file name. *)
Record prof_tinfo : Type := mk_tinfo {
  ti_tid : Z;
  ti_state : prof_state;
  ti_evlist : Z;
  ti_output_file : option Z;
  ti_nb_record : Z;
  ti_records : gmap Z prof_record
}.

Definition zero_tinfo : prof_tinfo := mk_tinfo 0 PROF_STATE_UNINIT NULL None 0 ∅.

Definition set_tid (t : prof_tinfo) (x : Z) : prof_tinfo :=
  mk_tinfo x (ti_state t) (ti_evlist t) (ti_output_file t) (ti_nb_record t) (ti_records t).
Definition set_state (t : prof_tinfo) (x : prof_state) : prof_tinfo :=
  mk_tinfo (ti_tid t) x (ti_evlist t) (ti_output_file t) (ti_nb_record t) (ti_records t).
Definition set_tevlist (t : prof_tinfo) (x : Z) : prof_tinfo :=
  mk_tinfo (ti_tid t) (ti_state t) x (ti_output_file t) (ti_nb_record t) (ti_records t).
Definition set_output (t : prof_tinfo) (x : option Z) : prof_tinfo :=
  mk_tinfo (ti_tid t) (ti_state t) (ti_evlist t) x (ti_nb_record t) (ti_records t).
Definition set_nb_record (t : prof_tinfo) (x : Z) : prof_tinfo :=
  mk_tinfo (ti_tid t) (ti_state t) (ti_evlist t) (ti_output_file t) x (ti_records t).
Definition set_records (t : prof_tinfo) (x : gmap Z prof_record) : prof_tinfo :=
  mk_tinfo (ti_tid t) (ti_state t) (ti_evlist t) (ti_output_file t) (ti_nb_record t) x.

(** [in_flog] is the log stream, never opened by the code. *)
Record prof_info : Type := mk_info {
  in_evlist_str : option string;
  in_is_error : bool;
  in_min_index : Z;
  in_max_index : Z;
  in_sample_freq : Z;
  in_flog : option Z;
  in_threads : list prof_tinfo;
  in_thread_nb : Z;
  in_thread_nid : Z
}.

(** The initialiser of [globalinfo]. *)
Definition globalinfo : prof_info :=
  mk_info None false UINT_MAX 0 0 None (replicate (Z.to_nat PROF_THREAD_MAX) zero_tinfo) 0 0.

Definition set_threads (i : prof_info) (x : list prof_tinfo) : prof_info :=
  mk_info (in_evlist_str i) (in_is_error i) (in_min_index i) (in_max_index i) (in_sample_freq i) (in_flog i)
    x (in_thread_nb i) (in_thread_nid i).
Definition set_thread_nb (i : prof_info) (x : Z) : prof_info :=
  mk_info (in_evlist_str i) (in_is_error i) (in_min_index i) (in_max_index i) (in_sample_freq i) (in_flog i)
    (in_threads i) x (in_thread_nid i).
Definition set_thread_nid (i : prof_info) (x : Z) : prof_info :=
  mk_info (in_evlist_str i) (in_is_error i) (in_min_index i) (in_max_index i) (in_sample_freq i) (in_flog i)
    (in_threads i) (in_thread_nb i) x.

(** The thread-local variables; [threadinfo] is an index into the table. *)
Record tls : Type := mk_tls { tls_threadinfo : option nat; tls_is_ignore : bool; tls_threadid : Z }.
Definition tls_init : tls := mk_tls None false (-1).

Record gstate : Type := mk_gstate {
  g_mem : pstate;
  g_info : prof_info;
  g_files : gmap Z (list prof_record);
  g_tls : gmap Z tls;
  g_clock : nat
}.

#[global] Instance gstate_mem : Embed gstate pstate := {|
  eget := g_mem;
  eput := fun m g => mk_gstate m (g_info g) (g_files g) (g_tls g) (g_clock g)
|}.
#[global] Instance gstate_clock : Embed gstate nat := {|
  eget := g_clock;
  eput := fun c g => mk_gstate (g_mem g) (g_info g) (g_files g) (g_tls g) c
|}.
(** The loop of [__read_count] carries the event index beside the state. *)
#[global] Instance gloop_nodes : Embed (gstate * Z) lstore := {|
  eget := fun s => p_nodes (g_mem s.1);
  eput := fun h s => (eput (eput h (g_mem s.1)) s.1, s.2)
|}.
#[global] Instance gloop_nodes_laws : EmbedLaws (gstate * Z) lstore.
Proof. split; [by intros [[[] ? ? ? ?] ?]|done]. Qed.

(** The operating system and the hardware as the probe sees them. *)
Class Env : Type := {
  env_fopen : Z -> bool;                  (* the record file of a thread id *)
  env_mutex_init : bool;
  env_page : Z -> nat -> mmap_page;       (* the page at an address, per access *)
  env_tsc : nat -> Z;
  env_pmc : nat -> Z -> Z;
  env_rounds : nat                        (* bound on the retries of one read *)
}.

Section Operations.
Context `{abi : PerfAbi} `{A : Allocator} `{K : Kernel} `{E : Env}.

Definition set_info (g : gstate) (i : prof_info) : gstate :=
  mk_gstate (g_mem g) i (g_files g) (g_tls g) (g_clock g).
Definition set_files (g : gstate) (f : gmap Z (list prof_record)) : gstate :=
  mk_gstate (g_mem g) (g_info g) f (g_tls g) (g_clock g).
Definition set_tls (g : gstate) (me : Z) (t : tls) : gstate :=
  mk_gstate (g_mem g) (g_info g) (g_files g) (<[me := t]> (g_tls g)) (g_clock g).

Definition get_tls (me : Z) : M gstate tls := gets (fun g => default tls_init (g_tls g !! me)).
Definition put_tls (me : Z) (t : tls) : M gstate unit := modify (fun g => set_tls g me t).

(** [info->threads[id]]. *)
Definition get_tinfo (id : Z) : M gstate prof_tinfo := fun g =>
  if id <? 0 then Fault FBounds else
  match in_threads (g_info g) !! Z.to_nat id with Some t => Ret (t, g) | None => Fault FBounds end.
Definition put_tinfo (id : Z) (t : prof_tinfo) : M gstate unit :=
  modify (fun g => set_info g (set_threads (g_info g) (<[Z.to_nat id := t]> (in_threads (g_info g))))).

(** ** The thread table *)

(** The loop of [__update_threadnid] from [i]. *)
Fixpoint nid_loop (n : nat) (cur_id i : Z) (threads : list prof_tinfo) (nid : Z) : Z :=
  match n with
  | O => nid
  | S n' =>
      if i <? PROF_THREAD_MAX then
        let nxt_id := u32 (cur_id + i) mod PROF_THREAD_MAX in
        match threads !! Z.to_nat nxt_id with
        | Some t => if ti_tid t =? 0 then nxt_id else nid_loop n' cur_id (i + 1) threads nid
        | None => nid
        end
      else nid
  end.

Definition __update_threadnid (info : prof_info) : prof_info :=
  let cur_id := in_thread_nid info in
  if PROF_THREAD_MAX <=? in_thread_nb info then set_thread_nid info UINT_MAX
  else set_thread_nid info (nid_loop (Z.to_nat PROF_THREAD_MAX) cur_id 1 (in_threads info) cur_id).

(** The index of the first entry with that tid. *)
Fixpoint find_tinfo_from (pid : Z) (i : nat) (l : list prof_tinfo) : option nat :=
  match l with
  | [] => None
  | t :: l' => if ti_tid t =? pid then Some i else find_tinfo_from pid (S i) l'
  end.
Definition __find_tinfo (pid : Z) : M gstate (option nat) :=
  gets (fun g => find_tinfo_from pid 0 (in_threads (g_info g))).

Definition __create_evlist (id : Z) : M gstate Z :=
  t ← get_tinfo id ;
  evlist ← lift (prof_evlist__new (ti_tid t)) ;
  if evlist =? NULL then mret (-1) else
  str ← gets (fun g => in_evlist_str (g_info g)) ;
  added ← lift (prof_evlist__add_from_str evlist str) ;
  if added <? 0 then lift (prof_evlist__delete evlist) ;; mret (-1) else
  r ← lift (prof_evlist__start evlist) ;
  if r <? 0 then lift (prof_evlist__delete evlist) ;; mret (-1) else
  t ← get_tinfo id ;
  put_tinfo id (set_state (set_tevlist t evlist) PROF_STATE_RUNNING) ;;
  mret 0.

(** fopen() of "prof.<tid>" for writing. *)
Definition fopen_record (tid : Z) : M gstate (option Z) := fun g =>
  if env_fopen tid then Ret (Some (u32 tid), set_files g (<[u32 tid := []]> (g_files g)))
  else Ret (None, g).

Definition __init_thread (id : Z) : M gstate unit :=
  r ← __create_evlist id ;
  (if negb (r =? 0) then t ← get_tinfo id ; put_tinfo id (set_state t PROF_STATE_ERROR) else mret tt) ;;
  t ← get_tinfo id ;
  f ← fopen_record (ti_tid t) ;
  put_tinfo id (set_output t f) ;;
  match f with
  | None => t ← get_tinfo id ; put_tinfo id (set_state t PROF_STATE_ERROR)
  | Some _ => mret tt
  end.

(** The four lines that put a thread into the table, which
    [lprobe_thread_init] and both branches of [__scan_threads] share. *)
Definition take_slot (pid : Z) : M gstate unit :=
  nid ← gets (fun g => in_thread_nid (g_info g)) ;
  t ← get_tinfo nid ;
  put_tinfo nid (set_tid t pid).
Definition count_and_init : M gstate unit :=
  modify (fun g => set_info g (set_thread_nb (g_info g) (u32 (in_thread_nb (g_info g) + 1)))) ;;
  nid ← gets (fun g => in_thread_nid (g_info g)) ;
  __init_thread nid ;;
  modify (fun g => set_info g (__update_threadnid (g_info g))).

(** [pid] is the thread id read from the new thread's descriptor. *)
Definition lprobe_thread_init (pid : Z) : M gstate unit :=
  nid ← gets (fun g => in_thread_nid (g_info g)) ;
  if nid =? UINT32_MAX then mret tt
  else take_slot pid ;; count_and_init.

(** [ret] is what the hooked pthread_create returns. *)
Definition lprobe_pthread_create (ret pid : Z) : M gstate Z :=
  (if ret =? 0 then lprobe_thread_init pid else mret tt) ;;
  mret ret.

Definition __filter (d_name : string) : bool :=
  match d_name with String "." _ => false | _ => true end.

(** [names] is the directory /proc/<pid>/task, [None] when it cannot be read. *)
Definition __scan_threads (pid : Z) (names : option (list string)) : M gstate unit :=
  let namelist := List.filter __filter (default [] names) in
  let items := Z.of_nat (length namelist) in
  if items <=? 0 then take_slot pid ;; count_and_init
  else
    let nb_thread := if PROF_THREAD_MAX <? items then PROF_THREAD_MAX else items in
    forM (take (Z.to_nat nb_thread) namelist) (fun name =>
      take_slot (atoi name) ;;
      if 0 <? atoi name then count_and_init else mret tt).

(** fclose() of the log: the stream was never opened. *)
Definition fclose_log : M gstate unit :=
  f ← gets (fun g => in_flog (g_info g)) ;
  match f with None => fail FNull | Some _ => mret tt end.

Definition lprobe_init (me pid : Z) (names : option (list string)) (evlist_str : string)
    (min_id max_id freq : Z) : M gstate Z :=
  t ← get_tls me ;
  put_tls me (mk_tls (tls_threadinfo t) (tls_is_ignore t) pid) ;;
  dup ← lift strdup_ok ;
  modify (fun g => let i := g_info g in
    set_info g (mk_info (if (dup : bool) then Some evlist_str else None) (in_is_error i) min_id max_id freq
      (in_flog i) (in_threads i) (in_thread_nb i) (in_thread_nid i))) ;;
  let fail_close_log :=
    fclose_log ;;
    modify (fun g => let i := g_info g in
      set_info g (mk_info (in_evlist_str i) true (in_min_index i) (in_max_index i) (in_sample_freq i) None
        (in_threads i) (in_thread_nb i) (in_thread_nid i))) ;;
    mret (-1) in
  if negb env_mutex_init then fail_close_log else
  __scan_threads pid names ;;
  slot ← __find_tinfo pid ;
  t ← get_tls me ;
  put_tls me (mk_tls slot (tls_is_ignore t) (tls_threadid t)) ;;
  match slot with
  | None => fail FNull
  | Some i =>
      t ← get_tinfo (Z.of_nat i) ;
      match ti_state t with
      | PROF_STATE_ERROR => fail_close_log
      | _ => mret 0
      end
  end.

(** ** Recording *)

(** The first [n] slots of the record cache. *)
Definition cached (records : gmap Z prof_record) (n : Z) : list prof_record :=
  map (fun i => default zero_record (records !! i)) (seqZ 0 n).

Definition fwrite_records (t : prof_tinfo) : M gstate unit :=
  match ti_output_file t with
  | None => fail FNull
  | Some f => modify (fun g =>
      set_files g (<[f := default [] (g_files g !! f) ++ cached (ti_records t) (ti_nb_record t)]> (g_files g)))
  end.

Definition read_tsc : M gstate Z := fun g =>
  Ret (u64 (env_tsc (g_clock g)), eput (S (g_clock g)) g).

(** [local->records[local->nb_record] = ...], then the counter and the flush. *)
Definition push_record (id : Z) (r : prof_record) : M gstate unit :=
  t ← get_tinfo id ;
  if PROF_RECORD_CACHE <=? ti_nb_record t then fail FBounds else
  let t := set_records t (<[ti_nb_record t := r]> (ti_records t)) in
  let t := set_nb_record t (u32 (ti_nb_record t + 1)) in
  put_tinfo id t ;;
  if ti_nb_record t =? PROF_RECORD_CACHE then
    fwrite_records t ;; put_tinfo id (set_nb_record t 0)
  else mret tt.

(** One round of the loop of [__read_count]; the second component of the state
    is the uint8_t loop counter. *)
Definition read_one (id func_index is_post cyc evsel : Z) : M (gstate * Z) unit := fun s =>
  match (e ← lift (get_evsel evsel) ;
         count ← lift (prof_evsel__rdpmc (env_page (ev_mm_page e)) env_tsc env_pmc env_rounds e) ;
         push_record id (mk_record cyc (u16 func_index) is_post s.2 count)) s.1 with
  | Ret (_, g) => Ret (tt, (g, u8 (s.2 + 1)))
  | Fault e => Fault e
  end.

(** Runs a loop whose index starts at 0. *)
Definition with_index (m : M (gstate * Z) unit) : M gstate unit := fun g =>
  match m (g, 0) with
  | Ret (_, (g', _)) => Ret (tt, g')
  | Fault e => Fault e
  end.

Definition __read_count (func_index is_post id : Z) : M gstate unit :=
  cyc ← read_tsc ;
  t ← get_tinfo id ;
  if ti_evlist t =? NULL then fail FNull else
  n ← gets (fun g => loop_fuel (g_mem g)) ;
  with_index (list_for_each_entry n (ti_evlist t) (read_one id func_index is_post cyc)).

(** [lprobe_func_entry] and [lprobe_func_exit] on the thread [me] differ in
    [pos] only. *)
Definition func_probe (pos me func_index : Z) : M gstate unit :=
  t ← get_tls me ;
  if tls_is_ignore t then mret tt else
  slot ← (match tls_threadinfo t with
          | Some i => mret (Some i)
          | None =>
              slot ← __find_tinfo me ;
              put_tls me (mk_tls slot (match slot with None => true | Some _ => false end) me) ;;
              mret slot
          end) ;
  match slot with
  | None => mret tt
  | Some i =>
      t ← get_tinfo (Z.of_nat i) ;
      match ti_state t with
      | PROF_STATE_RUNNING => __read_count func_index pos (Z.of_nat i)
      | _ => mret tt
      end
  end.
Definition lprobe_func_entry : Z -> Z -> M gstate unit := func_probe PROF_RECORD_POS_PRE.
Definition lprobe_func_exit : Z -> Z -> M gstate unit := func_probe PROF_RECORD_POS_POST.

(** ** Termination *)
Definition __destroy_tinfo (id : Z) : M gstate unit :=
  t ← get_tinfo id ;
  (match ti_output_file t with
   | None => mret tt
   | Some f =>
       (if 0 <? ti_nb_record t then fwrite_records t ;; put_tinfo id (set_nb_record t 0) else mret tt) ;;
       t ← get_tinfo id ;
       put_tinfo id (set_output t None)
   end) ;;
  t ← get_tinfo id ;
  (if negb (ti_evlist t =? NULL) then
     lift (prof_evlist__delete (ti_evlist t)) ;; put_tinfo id (set_tevlist t NULL)
   else mret tt) ;;
  t ← get_tinfo id ;
  put_tinfo id (set_state (set_tid t (-1)) PROF_STATE_UNINIT).

Definition lprobe_exit : M gstate unit :=
  info ← gets g_info ;
  if in_is_error info then mret tt else
  modify (fun g => let i := g_info g in
    set_info g (mk_info (in_evlist_str i) (in_is_error i) (in_min_index i) (in_max_index i) (in_sample_freq i) None
      (in_threads i) (in_thread_nb i) (in_thread_nid i))) ;;
  forM (seqZ 0 PROF_THREAD_MAX) (fun i =>
    t ← get_tinfo i ;
    if ti_tid t =? -1 then mret tt else
    match ti_state t with
    | PROF_STATE_RUNNING => __destroy_tinfo i
    | _ => mret tt
    end).
End Operations.

(** The probe that records nothing: its state is the caller's [thread_tid]. *)
Definition lprobe_func_entry_empty (func_index : Z) : M Z unit := mret tt.
Definition lprobe_func_exit_empty (func_index : Z) : M Z unit := mret tt.
Definition lprobe_init_empty : M Z Z := mret 0.
Definition lprobe_exit_empty : M Z unit := mret tt.
Definition lprobe_thread_init_empty (pid : Z) : M Z unit := put pid.
Definition lprobe_empty_pthread_create (ret pid : Z) : M Z Z :=
  (if ret =? 0 then lprobe_thread_init_empty pid else mret tt) ;;
  mret ret.

(** ** The thread table *)

(** Every node lies below the break. *)
Definition mem_ok (m : pstate) : Prop := 0 < p_brk m /\ forall q, has (p_nodes m) q -> 0 < q < p_brk m.

Definition used (l : list prof_tinfo) : list prof_tinfo := List.filter (fun t => negb (ti_tid t =? 0)) l.

(** [thread_nb] counts the entries in use, [thread_nid] is a free entry, or
    UINT_MAX when there is none. *)
Record table_ok (i : prof_info) : Prop := {
  tb_len : length (in_threads i) = Z.to_nat PROF_THREAD_MAX;
  tb_nb : in_thread_nb i = Z.of_nat (length (used (in_threads i)));
  tb_nid : (in_thread_nid i = UINT_MAX /\ in_thread_nb i = PROF_THREAD_MAX) \/
    (0 <= in_thread_nid i < PROF_THREAD_MAX /\
     exists t, in_threads i !! Z.to_nat (in_thread_nid i) = Some t /\ ti_tid t = 0)
}.

Lemma length_used_le l : (length (used l) <= length l)%nat.
Proof. apply filter_length_le. Qed.

Lemma used_insert l k t t' :
  l !! k = Some t -> ti_tid t = 0 -> ti_tid t' <> 0 -> length (used (<[k := t']> l)) = S (length (used l)).
Proof.
  revert k. induction l as [|x l IH]; intros [|k] Hk H0 H1; simpl in *; try done.
  - injection Hk as ->. rewrite H0. simpl. by rewrite (proj2 (Z.eqb_neq _ _) H1).
  - destruct (negb (ti_tid x =? 0)); simpl; by rewrite (IH k).
Qed.

Lemma used_insert_same l k t t' :
  l !! k = Some t -> ti_tid t' = ti_tid t -> length (used (<[k := t']> l)) = length (used l).
Proof.
  revert k. induction l as [|x l IH]; intros [|k] Hk H0; simpl in *; try done.
  - injection Hk as ->. rewrite H0. by destruct (negb (ti_tid t =? 0)).
  - destruct (negb (ti_tid x =? 0)); simpl; by rewrite (IH k).
Qed.

Lemma used_free l : (length (used l) < length l)%nat -> exists k t, l !! k = Some t /\ ti_tid t = 0.
Proof.
  induction l as [|x l IH]; simpl; [lia|]. destruct (ti_tid x =? 0) eqn:E; simpl; zbool.
  - intros _. by exists 0%nat, x.
  - intros H. destruct IH as (k & t & ? & ?); [lia|]. by exists (S k), t.
Qed.

(** The circular search finds a free entry when there is one. *)
Lemma nid_loop_finds n cur i k threads nid t :
  0 <= cur < PROF_THREAD_MAX -> length threads = Z.to_nat PROF_THREAD_MAX -> 1 <= i <= k -> k < PROF_THREAD_MAX ->
  PROF_THREAD_MAX <= i + Z.of_nat n ->
  threads !! Z.to_nat ((cur + k) mod PROF_THREAD_MAX) = Some t -> ti_tid t = 0 ->
  exists r t', nid_loop n cur i threads nid = r /\ 0 <= r < PROF_THREAD_MAX /\
    threads !! Z.to_nat r = Some t' /\ ti_tid t' = 0.
Proof.
  unfold PROF_THREAD_MAX. intros Hcur Hlen Hik Hk. revert i Hik.
  induction n as [|n IH]; intros i Hik Hn Hl H0; [lia|]. cbn [nid_loop]. unfold PROF_THREAD_MAX.
  rewrite (proj2 (Z.ltb_lt i 64)) by lia. rewrite (uwrap_id 32 (cur + i)) by (unfold urange; lia).
  pose proof (Z.mod_pos_bound (cur + i) 64 ltac:(lia)).
  destruct (threads !! Z.to_nat ((cur + i) mod 64)) as [x|] eqn:Ex.
  2:{ apply lookup_ge_None in Ex. lia. }
  destruct (ti_tid x =? 0) eqn:E0; zbool; [by exists ((cur + i) mod 64), x|].
  apply IH; [|lia|done|done]. assert (i <> k) by (intros ->; congruence). lia.
Qed.

Lemma update_threadnid_ok i cur :
  length (in_threads i) = Z.to_nat PROF_THREAD_MAX -> in_thread_nb i = Z.of_nat (length (used (in_threads i))) ->
  in_thread_nid i = cur -> 0 <= cur < PROF_THREAD_MAX ->
  (forall t, in_threads i !! Z.to_nat cur = Some t -> ti_tid t <> 0) -> table_ok (__update_threadnid i).
Proof.
  intros Hlen Hnb <- Hcur Hused. set (cur := in_thread_nid i) in *. unfold __update_threadnid. fold cur. pose proof (length_used_le (in_threads i)) as Hle.
  destruct (PROF_THREAD_MAX <=? in_thread_nb i) eqn:E; zbool.
  { split; [done|done|]. left. split; [done|]. simpl. unfold PROF_THREAD_MAX in *. lia. }
  destruct (used_free (in_threads i)) as (k & t & Hk & H0); [unfold PROF_THREAD_MAX in *; lia|].
  assert (k < length (in_threads i))%nat as Hkl by (by eapply lookup_lt_Some).
  assert (Z.of_nat k <> cur) as Hkc by (intros <-; rewrite Nat2Z.id in Hused; by eapply Hused).
  assert ((cur + (Z.of_nat k - cur) mod PROF_THREAD_MAX) mod PROF_THREAD_MAX = Z.of_nat k) as Hmod.
  { rewrite Zplus_mod_idemp_r. replace (cur + (Z.of_nat k - cur)) with (Z.of_nat k) by lia.
    apply Z.mod_small. unfold PROF_THREAD_MAX in *. lia. }
  pose proof (Z.mod_pos_bound (Z.of_nat k - cur) PROF_THREAD_MAX ltac:(unfold PROF_THREAD_MAX; lia)) as Hb.
  assert ((Z.of_nat k - cur) mod PROF_THREAD_MAX <> 0) as Hnz.
  { unfold PROF_THREAD_MAX in *. Z.to_euclidean_division_equations. lia. }
  destruct (nid_loop_finds (Z.to_nat PROF_THREAD_MAX) cur 1 ((Z.of_nat k - cur) mod PROF_THREAD_MAX)
    (in_threads i) cur t) as (r & t' & Er & ? & ? & ?); try done; try (unfold PROF_THREAD_MAX in *; lia).
  { by rewrite Hmod, Nat2Z.id. }
  rewrite Er. split; [done|done|]. right. simpl. eauto.
Qed.

(** *** Putting a thread into the table *)
Section Register.
Context `{abi : PerfAbi} `{A : Allocator} `{K : Kernel} `{E : Env}.
Hypothesis Hmem : forall p, malloc_ok p = true.

Lemma lift_mem_run {B} (m : M pstate B) g a m' :
  m (g_mem g) = Ret (a, m') -> lift m g = Ret (a, eput m' g).
Proof. intros Hm. unfold lift. simpl eget. by rewrite Hm. Qed.

Lemma lift_mem_next {B} (m : M pstate B) g m0 a m' :
  m m0 = Ret (a, m') -> lift m (eput m0 g) = Ret (a, eput m' g).
Proof. intros Hm. unfold lift. simpl eget. by rewrite Hm. Qed.

Lemma get_tinfo_run g id t : 0 <= id -> in_threads (g_info g) !! Z.to_nat id = Some t -> get_tinfo id g = Ret (t, g).
Proof. intros Hid Ht. unfold get_tinfo. by rewrite (proj2 (Z.ltb_ge id 0)), Ht by lia. Qed.

(** The table entry and memory after an initialisation. *)
Definition with_tinfo (g : gstate) (m : pstate) (id : Z) (t : prof_tinfo) (f : gmap Z (list prof_record)) : gstate :=
  mk_gstate m (set_threads (g_info g) (<[Z.to_nat id := t]> (in_threads (g_info g)))) f (g_tls g) (g_clock g).

(** A running thread has a record file and a well-formed event list. *)
Definition tinfo_running (m : pstate) (t : prof_tinfo) : Prop :=
  ti_output_file t = Some (u32 (ti_tid t)) /\ exists ps, evlist_ok m (ti_evlist t) ps.

Lemma mem_ok_evlist m el ps : evlist_ok m el ps -> mem_ok m.
Proof.
  intros OK. split; [|apply OK]. pose proof (evlist_ok_addr _ _ _ OK el ltac:(by left)). lia.
Qed.

Lemma create_evlist_run g id t :
  0 <= id -> in_threads (g_info g) !! Z.to_nat id = Some t -> mem_ok (g_mem g) ->
  exists r m, mem_ok m /\
    ((r = -1 /\ __create_evlist id g = Ret (r, eput m g)) \/
     (r = 0 /\ exists el ps, evlist_ok m el ps /\ __create_evlist id g =
        Ret (r, with_tinfo g m id (set_state (set_tevlist t el) PROF_STATE_RUNNING) (g_files g)))).
Proof.
  intros Hid Ht [Hb Hn]. unfold __create_evlist. rewrite (bind_ret _ _ _ _ _ (get_tinfo_run g id t Hid Ht)).
  pose proof (evlist_new_run (g_mem g) (ti_tid t) Hn Hb) as Hnew. rewrite Hmem in Hnew.
  destruct Hnew as (m1 & E1 & OK1 & _). rewrite (bind_ret _ _ _ _ _ (lift_mem_run _ g _ _ E1)).
  set (el := p_brk (g_mem g)) in *. rewrite (proj2 (Z.eqb_neq el NULL)) by (unfold NULL; lia).
  erewrite bind_ret by reflexivity.
  destruct (evlist_add_from_str_run Hmem el (in_evlist_str (g_info (eput m1 g))) m1 _ OK1) as (r2 & m2 & ps2 & E2 & OK2 & _).
  rewrite (bind_ret _ _ _ _ _ (lift_mem_next _ g _ _ _ E2)).
  assert (forall m ps, evlist_ok m el ps -> exists m', mem_ok m' /\
    (lift (prof_evlist__delete el) ;; mret (-1)) (eput m g) = Ret (-1, eput m' g)) as Hdel.
  { intros m ps OKm. destruct (evlist_delete_run m el ps OKm) as (m' & Ed & _ & _ & Hnd & _ & _ & Hbk).
    exists m'. split.
    - apply mem_ok_evlist in OKm as [? Hq]. split; [by rewrite Hbk|]. intros q [x Hx]. rewrite Hnd in Hx.
      case_decide; [done|]. rewrite Hbk. apply Hq. by exists x.
    - by rewrite (bind_ret _ _ _ _ _ (lift_mem_next _ g _ _ _ Ed)). }
  destruct (r2 <? 0).
  { destruct (Hdel m2 ps2 OK2) as (m' & ? & ?). exists (-1), m'. split; [done|]. by left. }
  destruct (evlist_start_run m2 el ps2 OK2) as (r3 & m3 & E3 & OK3 & _).
  rewrite (bind_ret _ _ _ _ _ (lift_mem_next _ g _ _ _ E3)). destruct (r3 <? 0).
  { destruct (Hdel m3 ps2 OK3) as (m' & ? & ?). exists (-1), m'. split; [done|]. by left. }
  exists 0, m3. split; [by eapply mem_ok_evlist|]. right. split; [done|]. exists el, ps2. split; [done|].
  erewrite bind_ret by (apply get_tinfo_run; [done|exact Ht]). by erewrite bind_ret by reflexivity.
Qed.
(** The entry after [__init_thread]: running, with its file and list, or in
    the error state; the thread id and the record cache are kept. *)
Definition tinfo_inited (m : pstate) (t t' : prof_tinfo) : Prop :=
  ti_tid t' = ti_tid t /\ ti_nb_record t' = ti_nb_record t /\ ti_records t' = ti_records t /\
  ((ti_state t' = PROF_STATE_RUNNING /\ tinfo_running m t') \/ ti_state t' = PROF_STATE_ERROR).

Lemma with_tinfo_twice g m id t f m' t' f' :
  with_tinfo (with_tinfo g m id t f) m' id t' f' = with_tinfo g m' id t' f'.
Proof. unfold with_tinfo, set_threads. simpl. by rewrite list_insert_insert_eq. Qed.

Lemma get_with_tinfo g m id t0 t f :
  0 <= id -> in_threads (g_info g) !! Z.to_nat id = Some t0 ->
  get_tinfo id (with_tinfo g m id t f) = Ret (t, with_tinfo g m id t f).
Proof.
  intros Hid Ht. apply get_tinfo_run; [done|]. apply list_lookup_insert_eq. by eapply lookup_lt_Some.
Qed.

Lemma put_with_tinfo g m id t t' f :
  put_tinfo id t' (with_tinfo g m id t f) = Ret (tt, with_tinfo g m id t' f).
Proof. unfold put_tinfo, modify. do 2 f_equal. apply (with_tinfo_twice g m id t f m t' f). Qed.

Lemma init_thread_run g id t :
  0 <= id -> in_threads (g_info g) !! Z.to_nat id = Some t -> mem_ok (g_mem g) ->
  exists m t' f, __init_thread id g = Ret (tt, with_tinfo g m id t' f) /\ mem_ok m /\ tinfo_inited m t t' /\
    (forall q, q <> u32 (ti_tid t) -> f !! q = g_files g !! q).
Proof.
  intros Hid Ht Hm. destruct (create_evlist_run g id t Hid Ht Hm) as (r & m & Hm' & Hr).
  (* the entry after the creation of the list and the test of its result *)
  assert (exists t1, (r ← __create_evlist id ;
      (if negb (r =? 0) then t ← get_tinfo id ; put_tinfo id (set_state t PROF_STATE_ERROR) else mret tt)) g
      = Ret (tt, with_tinfo g m id t1 (g_files g)) /\
    ti_tid t1 = ti_tid t /\ ti_nb_record t1 = ti_nb_record t /\ ti_records t1 = ti_records t /\
    ((ti_state t1 = PROF_STATE_RUNNING /\ exists ps, evlist_ok m (ti_evlist t1) ps) \/ ti_state t1 = PROF_STATE_ERROR))
    as (t1 & E1 & Htid & Hnb & Hrec & Hst).
  { destruct Hr as [(-> & E0)|(-> & el & ps & OK & E0)].
    - exists (set_state t PROF_STATE_ERROR). rewrite (bind_ret _ _ _ _ _ E0). change (negb (-1 =? 0)) with true. cbv iota.
      erewrite bind_ret by (apply get_tinfo_run; [done|exact Ht]). split_and!; try done. by right.
    - eexists. rewrite (bind_ret _ _ _ _ _ E0). split; [reflexivity|]. split_and!; try done. left. eauto. }
  assert (__init_thread id g = (t ← get_tinfo id ; f ← fopen_record (ti_tid t) ;
    put_tinfo id (set_output t f) ;;
    match f with None => t ← get_tinfo id ; put_tinfo id (set_state t PROF_STATE_ERROR) | Some _ => mret tt end)
    (with_tinfo g m id t1 (g_files g))) as ->.
  { unfold __init_thread. unfold mbind, M_bind in E1 |- *.
    destruct (__create_evlist id g) as [[r0 g0]|]; [|done]. cbv beta in *. by rewrite E1. }
  rewrite (bind_ret _ _ _ _ _ (get_with_tinfo _ _ _ _ _ _ Hid Ht)). unfold fopen_record.
  unfold mbind at 1, M_bind at 1. destruct (env_fopen (ti_tid t1)).
  - match goal with |- context [set_files _ ?f] =>
      change (set_files _ f) with (with_tinfo g m id t1 f) end.
    rewrite (bind_ret (put_tinfo id _) _ _ tt _ (put_with_tinfo _ _ _ _ _ _)).
    exists m, (set_output t1 (Some (u32 (ti_tid t1)))), (<[u32 (ti_tid t1) := []]> (g_files g)).
    split; [done|]. split; [done|]. split.
    + split_and!; try done. destruct Hst as [[? ?]|?]; [left|by right]. by split_and!.
    + intros q Hq. apply lookup_insert_ne. congruence.
  - rewrite (bind_ret _ _ _ _ _ (put_with_tinfo _ _ _ _ _ _)).
    rewrite (bind_ret _ _ _ _ _ (get_with_tinfo _ _ _ _ _ _ Hid Ht)), put_with_tinfo.
    do 3 eexists. split; [reflexivity|]. split; [done|]. split; [|done]. split_and!; try done. by right.
Qed.

(** The members of [prof_info] that registering a thread leaves alone. *)
Definition same_config (i i' : prof_info) : Prop :=
  in_evlist_str i' = in_evlist_str i /\ in_is_error i' = in_is_error i /\ in_min_index i' = in_min_index i /\
  in_max_index i' = in_max_index i /\ in_sample_freq i' = in_sample_freq i /\ in_flog i' = in_flog i.

Lemma register_run g pid (nid := in_thread_nid (g_info g)) :
  table_ok (g_info g) -> mem_ok (g_mem g) -> nid <> UINT_MAX -> pid <> 0 ->
  exists g' t t', (take_slot pid ;; count_and_init) g = Ret (tt, g') /\
    table_ok (g_info g') /\ mem_ok (g_mem g') /\ same_config (g_info g) (g_info g') /\ g_tls g' = g_tls g /\
    in_thread_nb (g_info g') = in_thread_nb (g_info g) + 1 /\
    in_threads (g_info g) !! Z.to_nat nid = Some t /\ ti_tid t = 0 /\
    in_threads (g_info g') = <[Z.to_nat nid := t']> (in_threads (g_info g)) /\
    tinfo_inited (g_mem g') (set_tid t pid) t' /\
    in_thread_nid (g_info g') = in_thread_nid (__update_threadnid (set_thread_nb (set_threads (g_info g)
      (<[Z.to_nat nid := t']> (in_threads (g_info g)))) (in_thread_nb (g_info g) + 1))).
Proof.
  intros [Hlen Hnb Hnid] Hm Hne Hpid. destruct Hnid as [[? _]|[Hr (t & Ht & H0)]]; [done|]. fold nid in Hr, Ht.
  assert (Z.of_nat (length (used (in_threads (g_info g)))) < PROF_THREAD_MAX) as Hlt.
  { pose proof (used_insert _ _ _ (set_tid t pid) Ht H0 Hpid).
    pose proof (length_used_le (<[Z.to_nat nid := set_tid t pid]> (in_threads (g_info g)))) as Hle.
    rewrite length_insert in Hle. unfold PROF_THREAD_MAX in *. lia. }
  set (g1 := set_info (with_tinfo g (g_mem g) nid (set_tid t pid) (g_files g))
    (set_thread_nb (set_threads (g_info g) (<[Z.to_nat nid := set_tid t pid]> (in_threads (g_info g))))
       (in_thread_nb (g_info g) + 1))).
  assert (in_threads (g_info g1) !! Z.to_nat nid = Some (set_tid t pid)) as Ht1.
  { apply list_lookup_insert_eq. by eapply lookup_lt_Some. }
  destruct (init_thread_run g1 nid (set_tid t pid)) as (m & t' & f & Ei & Hm' & Hin & Hf); [lia|done|done|].
  exists (set_info (with_tinfo g1 m nid t' f) (__update_threadnid (g_info (with_tinfo g1 m nid t' f)))), t, t'.
  assert (in_threads (g_info (with_tinfo g1 m nid t' f)) = <[Z.to_nat nid := t']> (in_threads (g_info g))) as Hth.
  { simpl. by rewrite list_insert_insert_eq. }
  assert (forall i, same_config i (__update_threadnid i) /\ in_thread_nb (__update_threadnid i) = in_thread_nb i /\
    in_threads (__update_threadnid i) = in_threads i) as Hupd.
  { intros i. unfold __update_threadnid. by destruct (_ <=? _). }
  split_and!; try done.
  - assert (take_slot pid g = Ret (tt, with_tinfo g (g_mem g) nid (set_tid t pid) (g_files g))) as Es.
    { unfold take_slot. erewrite bind_ret by reflexivity. fold nid.
      by rewrite (bind_ret _ _ _ _ _ (get_tinfo_run g nid t ltac:(lia) Ht)). }
    rewrite (bind_ret _ _ _ _ _ Es).
    unfold count_and_init. do 2 (erewrite bind_ret by reflexivity).
    assert (u32 (in_thread_nb (g_info g) + 1) = in_thread_nb (g_info g) + 1) as Hu.
    { apply uwrap_id. unfold urange, PROF_THREAD_MAX in *. lia. }
    simpl in_thread_nb. rewrite Hu. by rewrite (bind_ret _ _ _ _ _ Ei).
  - apply update_threadnid_ok with nid; [|rewrite Hth|done|done|].
    + rewrite Hth, length_insert. done.
    + erewrite used_insert; [|done|done|]; [simpl; lia|]. destruct Hin as [-> _]. done.
    + rewrite Hth, list_lookup_insert_eq by (by eapply lookup_lt_Some). intros x [= <-]. destruct Hin as [-> _]. done.
  - destruct (Hupd (g_info (with_tinfo g1 m nid t' f))) as [Hs _]. exact Hs.
  - destruct (Hupd (g_info (with_tinfo g1 m nid t' f))) as (_ & Hx & _). etrans; [exact Hx|done].
  - destruct (Hupd (g_info (with_tinfo g1 m nid t' f))) as (_ & _ & Hx). etrans; [exact Hx|done].
  - unfold __update_threadnid. rewrite Hth. simpl. by destruct (_ <=? _).
Qed.
End Register.

(** Registering a thread whose id is not 0.  In a consistent table with a
    free entry, lprobe_thread_init runs to completion, puts the thread into the
    free entry [thread_nid], leaves every other entry alone, and leaves a
    consistent table whose [thread_nid] is free again or UINT_MAX when all 64
    are in use; the thread is running, with its record file open and a
    well-formed event list, or marked as failed.  With a full table it does
    nothing. *)
Theorem thread_init_correct `{PerfAbi, Allocator, Kernel, Env} g pid (nid := in_thread_nid (g_info g)) :
  (forall p, malloc_ok p = true) -> table_ok (g_info g) -> mem_ok (g_mem g) -> pid <> 0 ->
  exists g', lprobe_thread_init pid g = Ret (tt, g') /\ table_ok (g_info g') /\ mem_ok (g_mem g') /\
    (if nid =? UINT_MAX then g' = g
     else in_thread_nb (g_info g') = in_thread_nb (g_info g) + 1 /\
       exists t', in_threads (g_info g') = <[Z.to_nat nid := t']> (in_threads (g_info g)) /\ ti_tid t' = pid /\
         ((ti_state t' = PROF_STATE_RUNNING /\ tinfo_running (g_mem g') t') \/ ti_state t' = PROF_STATE_ERROR)).
Proof.
  intros Hmem Hok Hm Hpid. unfold lprobe_thread_init. erewrite bind_ret by reflexivity. fold nid.
  change UINT32_MAX with UINT_MAX. destruct (nid =? UINT_MAX) eqn:E; zbool; [by exists g|].
  destruct (register_run Hmem g pid Hok Hm E Hpid) as (g' & t & t' & Er & ? & ? & _ & _ & ? & _ & _ & ? & Hin & _).
  exists g'. split_and!; try done. exists t'. destruct Hin as (? & _ & _ & ?). by split_and!.
Qed.

(** ** Scanning the threads of the process *)

(** The table holds [done], in order, in its first entries. *)
Definition scanned (i : prof_info) (done : list Z) : Prop :=
  map ti_tid (in_threads i) = done ++ replicate (Z.to_nat PROF_THREAD_MAX - length done) 0 /\
  (length done <= Z.to_nat PROF_THREAD_MAX)%nat /\
  in_thread_nid i = (if decide (length done = Z.to_nat PROF_THREAD_MAX) then UINT_MAX else Z.of_nat (length done)).

Section Scan.
Context `{abi : PerfAbi} `{A : Allocator} `{K : Kernel} `{E : Env}.
Hypothesis Hmem : forall p, malloc_ok p = true.

Lemma update_threadnid_next i done :
  map ti_tid (in_threads i) = done ++ replicate (Z.to_nat PROF_THREAD_MAX - length done) 0 ->
  (1 <= length done <= Z.to_nat PROF_THREAD_MAX)%nat -> in_thread_nb i = Z.of_nat (length done) ->
  in_thread_nid i = Z.of_nat (length done - 1) ->
  in_thread_nid (__update_threadnid i) =
    (if decide (length done = Z.to_nat PROF_THREAD_MAX) then UINT_MAX else Z.of_nat (length done)).
Proof.
  intros Hmap Hlen Hnb Hnid. unfold __update_threadnid. rewrite Hnb, Hnid.
  destruct (decide _) as [Hfull|Hne].
  { by rewrite (proj2 (Z.leb_le _ _)) by (rewrite Hfull; unfold PROF_THREAD_MAX; lia). }
  rewrite (proj2 (Z.leb_gt _ _)) by (unfold PROF_THREAD_MAX in *; lia).
  assert (u32 (Z.of_nat (length done - 1) + 1) mod PROF_THREAD_MAX = Z.of_nat (length done)) as Hx.
  { rewrite uwrap_id by (unfold urange, PROF_THREAD_MAX in *; lia).
    rewrite Z.mod_small by (unfold PROF_THREAD_MAX in *; lia). lia. }
  change (Z.to_nat PROF_THREAD_MAX) with (S 63) at 1. cbn [nid_loop]. rewrite Hx.
  rewrite (proj2 (Z.ltb_lt 1 PROF_THREAD_MAX)) by (unfold PROF_THREAD_MAX; lia). rewrite Nat2Z.id.
  assert (map ti_tid (in_threads i) !! length done = Some 0) as Hl.
  { rewrite Hmap, lookup_app_r by lia. rewrite Nat.sub_diag. apply lookup_replicate_2. lia. }
  rewrite list_lookup_fmap in Hl. destruct (in_threads i !! length done) as [t|]; [|done].
  injection Hl as ->. done.
Qed.

Lemma scan_step g done pid :
  table_ok (g_info g) -> mem_ok (g_mem g) -> scanned (g_info g) done -> Forall (fun x => x <> 0) done ->
  (length done < Z.to_nat PROF_THREAD_MAX)%nat -> pid <> 0 ->
  exists g', (take_slot pid ;; count_and_init) g = Ret (tt, g') /\ table_ok (g_info g') /\ mem_ok (g_mem g') /\
    same_config (g_info g) (g_info g') /\ g_tls g' = g_tls g /\ scanned (g_info g') (done ++ [pid]) /\
    (exists t', in_threads (g_info g') = <[length done := t']> (in_threads (g_info g)) /\ ti_tid t' = pid /\
       ti_state t' <> PROF_STATE_UNINIT).
Proof.
  intros Hok Hm (Hmap & Hle & Hnid) Hnz Hlt Hpid. rewrite decide_False in Hnid by lia.
  destruct (register_run Hmem g pid) as (g' & t & t' & Er & Hok' & Hm' & Hcfg & Htls & Hnb & Hget & H0 & Hth & Hin & Hn);
    [done|done|rewrite Hnid; unfold UINT_MAX, PROF_THREAD_MAX in *; lia|done|].
  destruct Hin as (Htid & _ & _ & Hst). simpl in Htid. rewrite Hnid, Nat2Z.id in *.
  assert (map ti_tid (in_threads (g_info g')) =
    (done ++ [pid]) ++ replicate (Z.to_nat PROF_THREAD_MAX - length (done ++ [pid])) 0) as Hmap'.
  { rewrite Hth. change (map ti_tid ?l) with (ti_tid <$> l) in *. rewrite list_fmap_insert, Hmap, Htid.
    rewrite insert_app_r_alt, Nat.sub_diag by lia. rewrite length_app, <- app_assoc. simpl. f_equal.
    destruct (Z.to_nat PROF_THREAD_MAX - length done)%nat eqn:El; [lia|]. simpl. f_equal. f_equal. lia. }
  assert (in_thread_nb (g_info g) = Z.of_nat (length done)) as Hnb0.
  { rewrite (tb_nb _ Hok). f_equal. unfold used.
    assert (forall l, length (List.filter (fun t => negb (ti_tid t =? 0)) l) =
      length (List.filter (fun x => negb (x =? 0)) (map ti_tid l))) as Hl.
    { clear. induction l as [|x l IH]; simpl; [done|]. destruct (negb (ti_tid x =? 0)); simpl; by rewrite IH. }
    rewrite Hl, Hmap, List.filter_app, length_app.
    assert (forall n, List.filter (fun x => negb (x =? 0)) (replicate n 0) = []) as -> by (induction n; done).
    rewrite Nat.add_0_r. clear -Hnz. induction Hnz as [|x l Hx _ IH]; simpl; [done|].
    rewrite (proj2 (Z.eqb_neq _ _) Hx). simpl. by rewrite IH. }
  exists g'. split; [done|]. split; [done|]. split; [done|]. split; [done|]. split; [done|]. split.
  2:{ exists t'. split_and!; [done|done|]. destruct Hst as [[-> _]| ->]; done. }
  split_and!; [done|rewrite length_app; simpl; lia|].
  rewrite Hn. apply update_threadnid_next.
  - simpl. by rewrite <- Hth.
  - rewrite length_app. simpl. lia.
  - simpl. rewrite Hnb0, length_app. simpl. lia.
  - simpl. rewrite Hnid, length_app. simpl. f_equal. lia.
Qed.

(** Entries that were initialised. *)
Definition inited (i : prof_info) (n : nat) : Prop :=
  forall k t, (k < n)%nat -> in_threads i !! k = Some t -> ti_state t <> PROF_STATE_UNINIT.

Lemma scan_loop names g done :
  table_ok (g_info g) -> mem_ok (g_mem g) -> scanned (g_info g) done -> Forall (fun x => x <> 0) done ->
  Forall (fun nm => 0 < atoi nm) names -> (length done + length names <= Z.to_nat PROF_THREAD_MAX)%nat ->
  inited (g_info g) (length done) ->
  exists g', forM names (fun name => take_slot (atoi name) ;; if 0 <? atoi name then count_and_init else mret tt) g =
      Ret (tt, g') /\ table_ok (g_info g') /\ mem_ok (g_mem g') /\ same_config (g_info g) (g_info g') /\
    g_tls g' = g_tls g /\ scanned (g_info g') (done ++ map atoi names) /\
    inited (g_info g') (length done + length names).
Proof.
  revert g done. induction names as [|nm names IH]; intros g done Hok Hm Hsc Hnz Hpos Hlen Hin; simpl in *.
  { exists g. rewrite app_nil_r, Nat.add_0_r. by split_and!. }
  apply Forall_cons in Hpos as [Hp Hpos].
  destruct (scan_step g done (atoi nm)) as (g1 & E1 & Hok1 & Hm1 & Hc1 & Ht1 & Hs1 & t1 & Hth & Htid & Hst);
    [done..|lia|lia|].
  rewrite (proj2 (Z.ltb_lt _ _) Hp). rewrite (bind_ret _ _ _ _ _ E1).
  destruct (IH g1 (done ++ [atoi nm])) as (g' & E2 & Hok2 & Hm2 & Hc2 & Ht2 & Hs2 & Hi2); try done.
  - apply Forall_app. split; [done|]. constructor; [lia|done].
  - rewrite length_app. simpl. lia.
  - rewrite length_app. simpl. intros k t Hk. rewrite Hth. destruct (decide (k = length done)) as [->|].
    + rewrite list_lookup_insert_eq; [by intros [= <-]|]. rewrite (tb_len _ Hok). lia.
    + rewrite list_lookup_insert_ne by done. apply Hin. lia.
  - exists g'. rewrite length_app in Hi2. simpl in Hi2. rewrite <- app_assoc in Hs2. simpl in Hs2.
    split_and!; try done; [|congruence|by replace (length done + S (length names))%nat with (length done + 1 + length names)%nat by lia].
    unfold same_config in *. destruct Hc1 as (? & ? & ? & ? & ? & ?), Hc2 as (? & ? & ? & ? & ? & ?).
    split_and!; congruence.
Qed.
End Scan.

(** The state in which lprobe_init scans the threads. *)
Definition configured (g : gstate) (me pid : Z) (evlist_str : string) (min_id max_id freq : Z) : gstate :=
  let m := set_brk (g_mem g) (p_brk (g_mem g) + 1) in
  let t := default tls_init (g_tls g !! me) in
  mk_gstate m (mk_info (Some evlist_str) (in_is_error (g_info g)) min_id max_id freq (in_flog (g_info g))
      (in_threads (g_info g)) (in_thread_nb (g_info g)) (in_thread_nid (g_info g)))
    (g_files g) (<[me := mk_tls (tls_threadinfo t) (tls_is_ignore t) pid]> (g_tls g)) (g_clock g).

Lemma globalinfo_table_ok : table_ok globalinfo.
Proof.
  split; [done|done|]. right. split; [done|]. by exists zero_tinfo.
Qed.

Lemma find_tinfo_from_spec pid k l j :
  find_tinfo_from pid k l = Some j <->
  exists i, j = (k + i)%nat /\ map ti_tid l !! i = Some pid /\ forall i', (i' < i)%nat -> map ti_tid l !! i' <> Some pid.
Proof.
  revert k. induction l as [|t l IH]; intros k; simpl.
  { split; [done|]. intros (i & _ & H & _). done. }
  destruct (ti_tid t =? pid) eqn:E; zbool.
  - split.
    + intros [= <-]. exists 0%nat. split_and!; [lia|simpl; congruence|lia].
    + intros (i & -> & Hi & Hmin). destruct i as [|i]; [f_equal; lia|].
      destruct (Hmin 0%nat ltac:(lia)). simpl. congruence.
  - rewrite IH. split.
    + intros (i & -> & Hi & Hmin). exists (S i). split_and!; [lia|done|].
      intros [|i'] Hlt; simpl; [congruence|apply Hmin; lia].
    + intros (i & -> & Hi & Hmin). destruct i as [|i]; simpl in Hi; [congruence|].
      exists i. split_and!; [lia|done|]. intros i' Hlt. apply (Hmin (S i')). lia.
Qed.

Lemma find_tinfo_from_complete pid l : pid ∈ map ti_tid l -> is_Some (find_tinfo_from pid 0 l).
Proof.
  generalize 0%nat. induction l as [|t l IH]; intros k; simpl; [by intros ?%elem_of_nil|].
  destruct (ti_tid t =? pid) eqn:E; [eauto|]. zbool. intros [->|H]%elem_of_cons; [done|]. by apply IH.
Qed.

(** The scan of a task directory that lists the calling process. *)
Lemma init_scan_run `{PerfAbi, Allocator, Kernel, Env} g me pid names str min_id max_id freq
    (tids := map atoi (take (Z.to_nat PROF_THREAD_MAX) (List.filter __filter names)))
    (g0 := configured g me pid str min_id max_id freq) :
  (forall p, malloc_ok p = true) -> g_info g = globalinfo -> mem_ok (g_mem g) ->
  Forall (fun nm => 0 < atoi nm) (List.filter __filter names) -> pid ∈ tids ->
  exists g1 i t, __scan_threads pid (Some names) g0 = Ret (tt, g1) /\ table_ok (g_info g1) /\
    scanned (g_info g1) tids /\ tids !! i = Some pid /\ in_threads (g_info g1) !! i = Some t /\ ti_tid t = pid /\
    find_tinfo_from pid 0 (in_threads (g_info g1)) = Some i /\ g_tls g1 = g_tls g0 /\
    same_config (g_info g0) (g_info g1) /\ ti_state t <> PROF_STATE_UNINIT.
Proof.
  intros Hmem Hg Hm Hpos Hpid. set (nl := List.filter __filter names) in *.
  assert (mem_ok (g_mem g0)) as Hm0.
  { destruct Hm as [? Hq]. split; simpl; [lia|]. intros q ?%Hq. lia. }
  assert (table_ok (g_info g0) /\ scanned (g_info g0) []) as [Hok0 Hs0].
  { pose proof globalinfo_table_ok as [HA HB HC]. subst g0. unfold configured. rewrite Hg. split; [by split|].
    split; [reflexivity|]. split; [simpl; lia|reflexivity]. }
  assert (nl <> []) as Hnl by (intros E; subst tids; rewrite E in Hpid; by apply elem_of_nil in Hpid).
  destruct (scan_loop Hmem (take (Z.to_nat PROF_THREAD_MAX) nl) g0 []) as (g1 & E1 & Hok1 & _ & Hc1 & Ht1 & Hs1 & Hi1);
    try done; [by apply Forall_take|simpl; rewrite length_take; lia|intros k t Hk; simpl in Hk; lia|].
  assert (__scan_threads pid (Some names) g0 = Ret (tt, g1)) as Escan.
  { unfold __scan_threads. change (default [] (Some names)) with names. fold nl. cbv zeta. rewrite (proj2 (Z.leb_gt _ _)) by (assert (length nl <> 0)%nat by (by intros ?%length_zero_iff_nil); lia).
    rewrite <- E1. f_equal. destruct (_ <? _) eqn:El; zbool; [done|].
    rewrite !take_ge; [done|unfold PROF_THREAD_MAX in *; lia|unfold PROF_THREAD_MAX in *; lia]. }
  simpl in Hs1. fold tids in Hs1. destruct Hs1 as (Hmap & Hs2).
  destruct (find_tinfo_from_complete pid (in_threads (g_info g1))) as [i Hfind].
  { rewrite Hmap. apply elem_of_app. by left. }
  pose proof Hfind as (i' & -> & Hi & Hmin)%find_tinfo_from_spec. simpl in Hfind.
  assert (i' < length tids)%nat as Hlt.
  { destruct (decide (i' < length tids)%nat); [done|]. rewrite Hmap in Hi, Hmin.
    apply list_elem_of_lookup in Hpid as [k Hk]. destruct (Hmin k); [apply lookup_lt_Some in Hk; lia|].
    by apply lookup_app_l_Some. }
  rewrite list_lookup_fmap in Hi. destruct (in_threads (g_info g1) !! i') as [t|] eqn:Ht; [|done].
  injection Hi as Htid. exists g1, i', t. split_and!; try done.
  - assert (map ti_tid (in_threads (g_info g1)) !! i' = Some pid) as Hx by (rewrite list_lookup_fmap, Ht; simpl; congruence).
    by rewrite Hmap, lookup_app_l in Hx.
  - apply (Hi1 i' t); [|done]. simpl. subst tids. rewrite length_map in Hlt. done.
Qed.

(** Lprobe_init on a fresh table, for a process whose task directory lists
    positive thread ids.  The scan registers the first 64 of them, in order,
    and never leaves the table; if the calling process is among them and its
    entry could be set up, lprobe_init returns 0 with the caller's
    [threadinfo] pointing at its running entry.  In every other case it ends in
    the dereference of a null pointer: the error path closes a log file that
    no code opens, so the error value -1 is never returned. *)
Theorem lprobe_init_outcome `{PerfAbi, Allocator, Kernel, Env} g me pid names str min_id max_id freq
    (tids := map atoi (take (Z.to_nat PROF_THREAD_MAX) (List.filter __filter names)))
    (g0 := configured g me pid str min_id max_id freq) :
  (forall p, malloc_ok p = true) -> g_info g = globalinfo -> mem_ok (g_mem g) ->
  Forall (fun nm => 0 < atoi nm) (List.filter __filter names) -> pid ∈ tids ->
  exists g1 i t, __scan_threads pid (Some names) g0 = Ret (tt, g1) /\ table_ok (g_info g1) /\
    scanned (g_info g1) tids /\ tids !! i = Some pid /\ in_threads (g_info g1) !! i = Some t /\ ti_tid t = pid /\
    lprobe_init me pid (Some names) str min_id max_id freq g =
      match env_mutex_init, ti_state t with
      | true, PROF_STATE_RUNNING =>
          Ret (0, set_tls g1 me (mk_tls (Some i) (tls_is_ignore (default tls_init (g_tls g !! me))) pid))
      | _, _ => Fault FNull
      end.
Proof.
  intros Hmem Hg Hm Hpos Hpid.
  destruct (init_scan_run g me pid names str min_id max_id freq Hmem Hg Hm Hpos Hpid)
    as (g1 & i & t & Escan & Hok1 & Hs1 & Hi & Ht & Htid & Hfind & Ht1 & Hc1 & Hst).
  exists g1, i, t. split_and!; try done.
  assert (forall g', in_flog (g_info g') = None -> fclose_log g' = Fault FNull) as Hclose.
  { intros g' Hf. unfold fclose_log. erewrite bind_ret by reflexivity. by rewrite Hf. }
  assert (in_flog (g_info g0) = None) as Hf0 by (simpl; by rewrite Hg).
  unfold lprobe_init. do 2 (erewrite bind_ret by reflexivity).
  destruct (malloc_run (g_mem g) (proj1 Hm)) as [_ Ed]. rewrite Hmem in Ed.
  erewrite bind_ret by (unfold lift; simpl eget; rewrite Ed; reflexivity).
  erewrite bind_ret by reflexivity. fold g0. cbv zeta.
  match goal with |- _ ?s = _ => change s with g0 end.
  destruct env_mutex_init; cbn [negb]; cbv iota.
  2:{ by rewrite (bind_fault _ _ _ _ (Hclose _ Hf0)). }
  rewrite (bind_ret _ _ _ _ _ Escan). erewrite bind_ret by reflexivity. rewrite Hfind.
  do 2 (erewrite bind_ret by reflexivity).
  erewrite bind_ret by (apply get_tinfo_run; [lia|simpl; rewrite Nat2Z.id; exact Ht]).
  rewrite Ht1. simpl g_tls. rewrite lookup_insert_eq. simpl default. simpl tls_is_ignore. simpl tls_threadid.
  destruct (ti_state t); [done|done|].
  apply bind_fault, Hclose. simpl. destruct Hc1 as (_ & _ & _ & _ & _ & ->). done.
Qed.

(** ** Recording *)

(** Everything a thread recorded: what its file holds, then the cache. *)
Definition log_of (g : gstate) (t : prof_tinfo) : list prof_record :=
  match ti_output_file t with
  | Some f => default [] (g_files g !! f)
  | None => []
  end ++ cached (ti_records t) (ti_nb_record t).

Lemma cached_snoc m n r : 0 <= n -> cached (<[n := r]> m) (n + 1) = cached m n ++ [r].
Proof.
  intros Hn. unfold cached. rewrite seqZ_app by lia. rewrite map_app. f_equal.
  2:{ change (seqZ (0 + n) 1) with [0 + (0 + n)]. rewrite !Z.add_0_l. simpl. by rewrite lookup_insert_eq. }
  apply map_ext_in. intros i Hi%list_elem_of_In%elem_of_seqZ. by rewrite lookup_insert_ne by lia.
Qed.

Section Recording.
Context `{E : Env}.
Context (id : Z).

(** The entry [id] is set up for recording and has [log] recorded. *)
Record rec_ok (g : gstate) (m : pstate) (tl : gmap Z tls) (el : Z) (fo : Z) (log : list prof_record) : Prop := {
  ro_mem : g_mem g = m;
  ro_tls : g_tls g = tl;
  ro_t : exists t, in_threads (g_info g) !! Z.to_nat id = Some t /\ ti_evlist t = el /\
    ti_state t = PROF_STATE_RUNNING /\
    0 <= ti_nb_record t < PROF_RECORD_CACHE /\ ti_output_file t = Some fo /\ log_of g t = log
}.

Hypothesis Hid : 0 <= id.

Lemma push_record_run g m tl el fo log r :
  rec_ok g m tl el fo log -> exists g', push_record id r g = Ret (tt, g') /\ rec_ok g' m tl el fo (log ++ [r]) /\
    g_clock g' = g_clock g.
Proof.
  intros [Hmem Htl (t & Ht & Hel & Hst & Hnb & Hf & Hlog)]. unfold push_record.
  rewrite (bind_ret _ _ _ _ _ (get_tinfo_run g id t Hid Ht)).
  assert (PROF_RECORD_CACHE = 65536) as HC by done.
  rewrite (proj2 (Z.leb_gt _ _)) by lia. cbv zeta.
  set (t1 := set_nb_record (set_records t (<[ti_nb_record t := r]> (ti_records t))) (u32 (ti_nb_record t + 1))).
  assert (ti_nb_record t1 = ti_nb_record t + 1) as Hnb1.
  { apply uwrap_id. unfold urange. lia. }
  assert (cached (ti_records t1) (ti_nb_record t1) = cached (ti_records t) (ti_nb_record t) ++ [r]) as Hc1.
  { rewrite Hnb1. simpl. apply cached_snoc. lia. }
  assert (Z.to_nat id < length (in_threads (g_info g)))%nat as Hlt by (by eapply lookup_lt_Some).
  change (set_nb_record _ (u32 (ti_nb_record (set_records _ _) + 1))) with t1.
  erewrite bind_ret by reflexivity.
  destruct (ti_nb_record t1 =? PROF_RECORD_CACHE) eqn:Ec; zbool.
  - assert (ti_output_file t1 = Some fo) as Hf1 by exact Hf.
    erewrite bind_ret by (unfold fwrite_records; rewrite Hf1; reflexivity).
    eexists. split; [reflexivity|]. split; [|done]. split; [done|done|]. simpl. rewrite list_insert_insert_eq.
    eexists. split; [by apply list_lookup_insert_eq|]. simpl. split_and!; try done.
    unfold log_of. simpl. rewrite Hf, lookup_insert_eq. simpl. unfold log_of in Hlog. rewrite Hf in Hlog.
    rewrite app_nil_r. rewrite <- Hlog, <- app_assoc. f_equal. exact Hc1.
  - eexists. split; [reflexivity|]. split; [|done]. split; [done|done|].
    exists t1. split; [by apply list_lookup_insert_eq|]. split_and!; try done; try lia.
    unfold log_of in *. simpl ti_output_file. rewrite Hc1, app_assoc. simpl. by rewrite Hlog.
Qed.

(** The value a read of the event [e] from the access [c] returns. *)
Definition reads (e : prof_evsel) (c : nat) (v : Z) (c' : nat) : Prop :=
  prof_evsel__rdpmc (env_page (ev_mm_page e)) env_tsc env_pmc env_rounds e c = Ret (v, c').

(** Every enabled event of the list has its page, in which the kernel keeps widths and
    shifts in range and which it leaves alone often enough. *)
Definition counters_mapped (m : pstate) (ps : list Z) : Prop :=
  forall p e, p ∈ ps -> p_evsels m !! p = Some e -> ev_is_enable e = true ->
    ev_mm_page e <> NULL /\ shifts_ok (env_page (ev_mm_page e)) /\ pauses (env_page (ev_mm_page e)) env_rounds.

Lemma mapped_reads m ps p e c : counters_mapped m ps -> p ∈ ps -> p_evsels m !! p = Some e -> exists v c', reads e c v c'.
Proof.
  intros HM Hp He. unfold reads, prof_evsel__rdpmc. destruct (ev_is_enable e) eqn:Een; [|by do 2 eexists].
  destruct (HM p e Hp He Een) as (Hn & HS & HP). rewrite (proj2 (Z.eqb_neq _ _) Hn). by apply mmap_read_self_returns.
Qed.

(** The values the events [ps] return when read in turn from access [c]. *)
Fixpoint read_seq (m : pstate) (ps : list Z) (c : nat) (vs : list Z) (c' : nat) : Prop :=
  match ps, vs with
  | [], [] => c' = c
  | p :: ps', v :: vs' => exists e c1, p_evsels m !! p = Some e /\ reads e c v c1 /\ read_seq m ps' c1 vs' c'
  | _, _ => False
  end.

(** The records of one probe: one per event, in the order of the list. *)
Definition probe_records (ts func_index pos : Z) (vs : list Z) : list prof_record :=
  imap (fun i v => mk_record ts (u16 func_index) pos (u8 (Z.of_nat i)) v) vs.

Lemma read_one_run g m tl el fo log ps p i fi pos cyc :
  rec_ok g m tl el fo log -> evlist_ok m el ps -> p ∈ ps -> counters_mapped m ps ->
  exists g' e v c', read_one id fi pos cyc p (g, i) = Ret (tt, (g', u8 (i + 1))) /\
    p_evsels m !! p = Some e /\ reads e (g_clock g) v c' /\ g_clock g' = c' /\
    rec_ok g' m tl el fo (log ++ [mk_record cyc (u16 fi) pos i v]).
Proof.
  intros HR OK Hp Hrd. destruct (evlist_ok_evsel _ _ _ OK p Hp) as (e & He & _).
  destruct (mapped_reads _ _ p e (g_clock g) Hrd Hp He) as (v & c' & Hv). pose proof HR as [Hmem _ _].
  assert (lift (get_evsel p) g = Ret (e, eput m g)) as Hg.
  { unfold lift. simpl eget. rewrite Hmem. by rewrite (get_evsel_run _ _ _ OK p e Hp He). }
  assert (eput m g = g) as Hid' by (destruct g; simpl in *; by subst).
  rewrite Hid' in Hg. set (g1 := eput c' g).
  assert (lift (prof_evsel__rdpmc (env_page (ev_mm_page e)) env_tsc env_pmc env_rounds e) g = Ret (v, g1)) as Hl.
  { unfold lift. simpl eget. by rewrite Hv. }
  destruct (push_record_run g1 m tl el fo log (mk_record cyc (u16 fi) pos i v)) as (g2 & E2 & HR2 & Hc2).
  { destruct HR as [? ? ?]. by split. }
  exists g2, e, v, c'. split_and!; try done.
  unfold read_one. simpl fst. simpl snd. by rewrite (bind_ret _ _ _ _ _ Hg), (bind_ret _ _ _ _ _ Hl), E2.
Qed.

Lemma read_loop_run l g m tl el fo log ps i fi pos cyc :
  rec_ok g m tl el fo log -> evlist_ok m el ps -> (forall p, p ∈ l -> p ∈ ps) -> counters_mapped m ps -> 0 <= i < 256 ->
  exists g' vs c', forM l (read_one id fi pos cyc) (g, i) = Ret (tt, (g', u8 (i + Z.of_nat (length l)))) /\
    read_seq m l (g_clock g) vs c' /\ g_clock g' = c' /\
    rec_ok g' m tl el fo (log ++ imap (fun k v => mk_record cyc (u16 fi) pos (u8 (i + Z.of_nat k)) v) vs).
Proof.
  revert g log i. induction l as [|p l IH]; intros g log i HR OK Hl Hrd Hi; simpl.
  { exists g, [], (g_clock g). rewrite app_nil_r, Z.add_0_r, uwrap_id by (unfold urange; lia). by split_and!. }
  destruct (read_one_run g m tl el fo log ps p i fi pos cyc HR OK (Hl p ltac:(by left)) Hrd)
    as (g1 & e & v & c1 & E1 & He & Hv & Hc & HR1).
  rewrite (bind_ret _ _ _ _ _ E1).
  destruct (IH g1 _ (u8 (i + 1)) HR1 OK (fun q Hq => Hl q (list_elem_of_further _ _ _ Hq)) Hrd) as (g2 & vs & c2 & E2 & Hs & Hc2 & HR2).
  { apply uwrap_range. lia. }
  assert (forall k, u8 (u8 (i + 1) + k) = u8 (i + 1 + k)) as Hw.
  { intros k. unfold uwrap. by rewrite Zplus_mod_idemp_l. }
  exists g2, (v :: vs), c2. split_and!.
  - rewrite E2. do 3 f_equal. rewrite Hw. f_equal. lia.
  - exists e, c1. split_and!; try done. by rewrite <- Hc.
  - done.
  - rewrite <- app_assoc in HR2. simpl in HR2. simpl imap.
    replace (u8 (i + Z.of_nat 0)) with i by (rewrite uwrap_id; unfold urange; lia).
    erewrite imap_ext; [exact HR2|]. intros k x _. simpl. f_equal. rewrite Hw. f_equal. lia.
Qed.

Lemma read_one_nodes fi pos cyc p s u s' :
  read_one id fi pos cyc p s = Ret (u, s') -> p_nodes (g_mem s'.1) = p_nodes (g_mem s.1).
Proof.
  unfold read_one. match goal with |- context [match ?x with _ => _ end] => destruct x as [[[] g']|] eqn:Hm end; [|done]. intros [= <- <-]. simpl.
  minv Hm. unfold lift in Hm0. simpl eget in Hm0. unfold get_evsel in Hm0.
  destruct (p =? NULL); [done|]. destruct (p_evsels (g_mem s.1) !! p); [|done]. injection Hm0 as <- <-.
  minv Hm. unfold lift in Hm0. destruct (prof_evsel__rdpmc _ _ _ _ _ _) as [[v c]|]; [|done]. injection Hm0 as <- <-.
  unfold push_record in Hm. minv Hm. unfold get_tinfo in Hm0.
  destruct (_ <? _); [done|]. destruct (in_threads _ !! _); [|done]. injection Hm0 as <- <-.
  destruct (_ <=? _); [done|]. minv Hm. injection Hm0 as <- <-.
  destruct (_ =? _); [|by injection Hm as <-]. minv Hm. unfold fwrite_records in Hm0.
  destruct (ti_output_file _); [|done]. injection Hm0 as <- <-. by injection Hm as <-.
Qed.

Lemma read_count_run g m tl el fo log ps fi pos (ts := u64 (env_tsc (g_clock g))) :
  rec_ok g m tl el fo log -> evlist_ok m el ps -> counters_mapped m ps ->
  exists g' vs c', __read_count fi pos id g = Ret (tt, g') /\ read_seq m ps (S (g_clock g)) vs c' /\
    rec_ok g' m tl el fo (log ++ probe_records ts fi pos vs).
Proof.
  intros HR OK Hrd. unfold __read_count. erewrite bind_ret by reflexivity. fold ts.
  set (g1 := eput (S (g_clock g)) g). pose proof HR as [Hmem _ (t & Ht & Hel & _)].
  rewrite (bind_ret _ _ _ _ _ (get_tinfo_run g1 id t Hid Ht)), Hel.
  pose proof (evlist_ok_addr _ _ _ OK el ltac:(by left)) as Ha.
  rewrite (proj2 (Z.eqb_neq el NULL)) by (unfold NULL; lia). erewrite bind_ret by reflexivity.
  destruct (read_loop_run ps g1 m tl el fo log ps 0 fi pos ts) as (g2 & vs & c2 & E2 & Hs & _ & HR2); try done; [|].
  { destruct HR as [? ? ?]. by split. }
  exists g2, vs, c2. split_and!; try done. unfold with_index.
  rewrite (list_for_each_entry_spec el ps); [by rewrite E2| | |].
  - intros x s u s' _ HL Hb. simpl in *. by rewrite (read_one_nodes _ _ _ _ _ _ _ Hb).
  - simpl. rewrite Hmem. apply OK.
  - simpl. rewrite Hmem. by apply evlist_fuel with el.
Qed.
(** *** A whole session of a thread *)

(** The thread [me] is not ignored and its entry is [id], cached already or
    found by the first probe. *)
Definition attached (g : gstate) (me : Z) : Prop :=
  let t := default tls_init (g_tls g !! me) in
  tls_is_ignore t = false /\
  match tls_threadinfo t with
  | Some i => Z.of_nat i = id
  | None => find_tinfo_from me 0 (in_threads (g_info g)) = Some (Z.to_nat id)
  end.

Lemma func_probe_run g m tl el fo log ps me pos fi (ts := u64 (env_tsc (g_clock g))) :
  attached g me -> rec_ok g m tl el fo log -> evlist_ok m el ps -> counters_mapped m ps ->
  exists g' vs c' tl', func_probe pos me fi g = Ret (tt, g') /\ read_seq m ps (S (g_clock g)) vs c' /\
    rec_ok g' m tl' el fo (log ++ probe_records ts fi pos vs) /\ attached g' me.
Proof.
  intros [Hig Hat] HR OK Hrd. unfold func_probe. erewrite bind_ret by reflexivity. rewrite Hig.
  assert (exists g1 tl1, (match tls_threadinfo (default tls_init (g_tls g !! me)) with
      | Some i => mret (Some i)
      | None => slot ← __find_tinfo me ;
          put_tls me (mk_tls slot (match slot with None => true | Some _ => false end) me) ;; mret slot
      end) g = Ret (Some (Z.to_nat id), g1) /\ rec_ok g1 m tl1 el fo log /\ g_clock g1 = g_clock g /\
      default tls_init (tl1 !! me) = mk_tls (Some (Z.to_nat id)) false (tls_threadid (default tls_init (tl1 !! me))))
    as (g1 & tl1 & E1 & HR1 & Hc1 & Htl1).
  { destruct (tls_threadinfo _) as [i|] eqn:Eti.
    - exists g, tl. rewrite <- Hat, Nat2Z.id. split_and!; try done.
      destruct HR as [_ Htl _]. rewrite Htl in *. destruct (default _ _). simpl in *. by subst.
    - exists (set_tls g me (mk_tls (Some (Z.to_nat id)) false me)), (<[me := mk_tls (Some (Z.to_nat id)) false me]> tl).
      split_and!; try done.
      + erewrite bind_ret by reflexivity. by rewrite Hat.
      + destruct HR as [? Htl ?]. split; [done|simpl; by rewrite Htl|done].
      + by rewrite lookup_insert_eq. }
  rewrite (bind_ret _ _ _ _ _ E1). rewrite Z2Nat.id by done.
  pose proof HR1 as [_ _ (t & Ht & _ & Hst & _)].
  rewrite (bind_ret _ _ _ _ _ (get_tinfo_run g1 id t Hid Ht)), Hst.
  destruct (read_count_run g1 m tl1 el fo log ps fi pos HR1 OK Hrd) as (g' & vs & c' & E2 & Hs & HR2).
  rewrite Hc1 in *. exists g', vs, c', tl1. split_and!; try done.
  unfold attached. destruct HR2 as [_ -> _]. rewrite Htl1. split; [done|]. simpl. lia.
Qed.

Lemma put_entry_run g t0 t : in_threads (g_info g) !! Z.to_nat id = Some t0 ->
  put_tinfo id t g = Ret (tt, with_tinfo g (g_mem g) id t (g_files g)) /\
  in_threads (g_info (with_tinfo g (g_mem g) id t (g_files g))) !! Z.to_nat id = Some t.
Proof. intros Ht. split; [done|]. apply list_lookup_insert_eq. by eapply lookup_lt_Some. Qed.

(** Flushing and closing the record file. *)
Lemma close_file_run g t f :
  in_threads (g_info g) !! Z.to_nat id = Some t -> ti_output_file t = Some f -> 0 <= ti_nb_record t ->
  exists t' fs, ((if 0 <? ti_nb_record t then fwrite_records t ;; put_tinfo id (set_nb_record t 0) else mret tt) ;;
      t ← get_tinfo id ; put_tinfo id (set_output t None)) g = Ret (tt, with_tinfo g (g_mem g) id t' fs) /\
    ti_evlist t' = ti_evlist t /\ ti_output_file t' = None /\ default [] (fs !! f) = log_of g t /\
    (forall q, q <> f -> fs !! q = g_files g !! q).
Proof.
  intros Ht Hf Hnb. unfold log_of. rewrite Hf. destruct (0 <? ti_nb_record t) eqn:E0; zbool.
  - exists (set_output (set_nb_record t 0) None).
    exists (<[f := default [] (g_files g !! f) ++ cached (ti_records t) (ti_nb_record t)]> (g_files g)).
    split_and!; try done.
    + erewrite bind_ret; [|erewrite bind_ret by (unfold fwrite_records; rewrite Hf; reflexivity); reflexivity].
      erewrite bind_ret by (apply (get_with_tinfo g (g_mem g) id t); done).
      apply put_with_tinfo.
    + by rewrite lookup_insert_eq.
    + intros q Hq. by rewrite lookup_insert_ne.
  - exists (set_output t None), (g_files g). split_and!; try done.
    + erewrite bind_ret by reflexivity. by rewrite (bind_ret _ _ _ _ _ (get_tinfo_run g id t Hid Ht)).
    + replace (ti_nb_record t) with 0 by lia. by rewrite app_nil_r.
Qed.

Lemma destroy_run g m tl el fo log ps :
  rec_ok g m tl el fo log -> evlist_ok m el ps ->
  exists g', __destroy_tinfo id g = Ret (tt, g') /\
    default [] (g_files g' !! fo) = log /\ (forall q, q <> fo -> g_files g' !! q = g_files g !! q) /\
    prof_evlist__delete el m = Ret (tt, g_mem g') /\
    exists t', in_threads (g_info g') = <[Z.to_nat id := t']> (in_threads (g_info g)) /\ ti_tid t' = -1 /\
      ti_state t' = PROF_STATE_UNINIT /\ ti_output_file t' = None /\ ti_evlist t' = NULL.
Proof.
  intros [Hmem Htl (t & Ht & Hel & Hst & Hnb & Hf & Hlog)] OK. unfold __destroy_tinfo.
  rewrite (bind_ret _ _ _ _ _ (get_tinfo_run g id t Hid Ht)), Hf.
  destruct (close_file_run g t fo Ht Hf ltac:(lia)) as (t1 & fs & E1 & Hel1 & Hf1 & Hfs & Hfr).
  rewrite (bind_ret _ _ _ _ _ E1). set (g1 := with_tinfo g (g_mem g) id t1 fs).
  rewrite (bind_ret _ _ _ _ _ (get_with_tinfo g (g_mem g) id t t1 fs Hid Ht)). fold g1.
  rewrite Hel1, Hel. pose proof (evlist_ok_addr _ _ _ OK el ltac:(by left)) as Ha.
  rewrite (proj2 (Z.eqb_neq el NULL)) by (unfold NULL; lia). cbn [negb]. cbv iota.
  destruct (evlist_delete_run m el ps OK) as (m' & Ed & _).
  erewrite bind_ret.
  2:{ erewrite bind_ret by (unfold lift; simpl eget; rewrite Hmem, Ed; reflexivity).
      apply (put_with_tinfo g m' id t1 (set_tevlist t1 NULL) fs). }
  rewrite (bind_ret _ _ _ _ _ (get_with_tinfo _ _ _ _ _ _ Hid Ht)), put_with_tinfo.
  eexists. split; [reflexivity|]. split_and!; try done. { by rewrite <- Hlog. }
  eexists. split; [reflexivity|]. by split_and!.
Qed.

(** The probes of a thread, in the order they are hit. *)
Definition session (me : Z) (calls : list (Z * Z)) : M gstate unit :=
  forM calls (fun c => func_probe c.1 me c.2) ;; __destroy_tinfo id.

(** The records one call leaves: one per event of the list, with the function,
    the position, one time stamp and the values the counters return when they are
    read in turn right after it. *)
Definition call_records (m : pstate) (ps : list Z) (c : Z * Z) (rs : list prof_record) : Prop :=
  exists clk vs clk', rs = probe_records (u64 (env_tsc clk)) c.2 c.1 vs /\ read_seq m ps (S clk) vs clk'.

Lemma read_seq_length m ps c vs c' : read_seq m ps c vs c' -> length vs = length ps.
Proof.
  revert c vs. induction ps as [|p ps IH]; intros c [|v vs]; simpl; try done.
  intros (e & c1 & _ & _ & H). by rewrite (IH _ _ H).
Qed.

Lemma probes_run calls g m tl el fo log ps me :
  attached g me -> rec_ok g m tl el fo log -> evlist_ok m el ps -> counters_mapped m ps ->
  exists g' tl' rss, forM calls (fun c => func_probe c.1 me c.2) g = Ret (tt, g') /\
    rec_ok g' m tl' el fo (log ++ concat rss) /\ Forall2 (call_records m ps) calls rss.
Proof.
  revert g tl log. induction calls as [|c calls IH]; intros g tl log Ha HR OK Hrd; simpl.
  { exists g, tl, []. rewrite app_nil_r. by split_and!. }
  destruct (func_probe_run g m tl el fo log ps me c.1 c.2 Ha HR OK Hrd) as (g1 & vs & c' & tl1 & E1 & Hs & HR1 & Ha1).
  rewrite (bind_ret _ _ _ _ _ E1).
  destruct (IH g1 tl1 _ Ha1 HR1 OK Hrd) as (g2 & tl2 & rss & E2 & HR2 & HF).
  exists g2, tl2, (probe_records (u64 (env_tsc (g_clock g))) c.2 c.1 vs :: rss). split_and!; [done| |].
  - simpl. by rewrite app_assoc.
  - constructor; [|done]. by do 3 eexists.
Qed.
End Recording.

(** C22: a thread that is running and attached records every probe it hits.  Its
    enabled counters are mapped, and the kernel keeps the mapped pages as its
    interface says: widths and shifts in range, and a pause of 28 accesses within
    any [env_rounds] accesses, [env_rounds] being the bound on the rounds of a read.
    Then after any sequence of function entries and exits, of any length, followed by
    the destruction of its entry, nothing faulted (the record cache never
    overflows, whatever the number of records), and its file holds what it held
    before followed by the records of the calls in order, one per event and
    call, each with the function index (16 bits), the position, the event's
    number, the call's time stamp and the value the counter returned. *)
Theorem session_records_complete `{E : Env} id g m tl el fo log ps me calls :
  0 <= id -> attached id g me -> rec_ok id g m tl el fo log -> evlist_ok m el ps -> counters_mapped m ps ->
  exists g' rss, session id me calls g = Ret (tt, g') /\
    default [] (g_files g' !! fo) = log ++ concat rss /\ Forall2 (call_records m ps) calls rss /\
    exists t', in_threads (g_info g') !! Z.to_nat id = Some t' /\ ti_tid t' = -1 /\ ti_state t' = PROF_STATE_UNINIT /\
      ti_output_file t' = None /\ ti_evlist t' = NULL.
Proof.
  intros Hid Ha HR OK Hrd.
  destruct (probes_run id Hid calls g m tl el fo log ps me Ha HR OK Hrd) as (g1 & tl1 & rss & E1 & HR1 & HF).
  destruct (destroy_run id Hid g1 m tl1 el fo _ ps HR1 OK) as (g' & E2 & Hlog & _ & _ & t' & Hth & Ht').
  exists g', rss. split; [unfold session; by rewrite (bind_ret _ _ _ _ _ E1)|]. split_and!; try done.
  exists t'. split; [|done]. rewrite Hth. apply list_lookup_insert_eq.
  destruct HR1 as [_ _ (t & Ht & _)]. by eapply lookup_lt_Some.
Qed.

(** ** Evaluation of the model *)
Definition demo_env : Env := {|
  env_fopen := fun _ => true; env_mutex_init := true; env_page := fun _ _ => demo_page;
  env_tsc := fun c => 1000 + Z.of_nat c; env_pmc := fun _ _ => 5; env_rounds := 1%nat
|}.

Definition start_state : gstate := mk_gstate empty_pstate globalinfo ∅ ∅ 0.

Lemma start_mem_ok : mem_ok (g_mem start_state).
Proof. split; [done|]. by intros q [x Hx]. Qed.

Definition demo_init : res (Z * gstate) :=
  @lprobe_init linux_abi all_ok demo_kernel demo_env 100 100 (Some ["."; ".."; "100"; "101"])
    "instructions,cpu-cycles:u" 0 10 1 start_state.

Definition demo_g : gstate := match demo_init with Ret (_, g) => g | Fault _ => start_state end.

Lemma thread_init_correct_witness :
  exists g', @lprobe_thread_init linux_abi all_ok demo_kernel demo_env 100 start_state = Ret (tt, g') /\
    table_ok (g_info g') /\ in_thread_nb (g_info g') = 1.
Proof.
  destruct (@thread_init_correct linux_abi all_ok demo_kernel demo_env start_state 100) as (g' & E & Hok & _ & Hn).
  - intros p. reflexivity.
  - apply globalinfo_table_ok.
  - apply start_mem_ok.
  - discriminate.
  - exists g'. split; [exact E|]. split; [exact Hok|]. exact (proj1 Hn).
Defined.

Lemma lprobe_init_outcome_witness : exists g, demo_init = Ret (0, g).
Proof.
  destruct (@lprobe_init_outcome linux_abi all_ok demo_kernel demo_env start_state 100 100 ["."; ".."; "100"; "101"]
    "instructions,cpu-cycles:u" 0 10 1) as (g1 & i & t & _ & _ & _ & _ & _ & _ & E).
  - intros p. reflexivity.
  - reflexivity.
  - apply start_mem_ok.
  - repeat constructor.
  - vm_compute. left.
  - unfold demo_init. rewrite E. assert (ti_state t = PROF_STATE_RUNNING) as ->.
    { destruct (ti_state t) eqn:Et; [|reflexivity|]; exfalso; revert E; vm_compute; discriminate. }
    eexists. reflexivity.
Defined.

Lemma demo_g_evlist : evlist_ok (g_mem demo_g) 2 [5; 8].
Proof.
  split.
  - split; [vm_compute; tauto|apply (bool_decide_unpack _); vm_compute; exact I].
  - eexists. split; vm_compute; reflexivity.
  - intros [|[|i]] p; [intros [= <-]|intros [= <-]|done]; eexists; (split; [vm_compute; reflexivity|]); done.
  - assert (map_Forall (fun p _ => 0 < p < p_brk (g_mem demo_g)) (p_nodes (g_mem demo_g))) as HF.
    { apply (bool_decide_unpack _). vm_compute. exact I. }
    intros p [x Hx]. exact (HF p x Hx).
Qed.

Lemma demo_g_rec : @rec_ok 0 demo_g (g_mem demo_g) (g_tls demo_g) 2 100 [].
Proof.
  split; [reflexivity|reflexivity|]. eexists. split; [vm_compute; reflexivity|].
  split_and!; vm_compute; congruence.
Qed.

(** The kernel of the example never touches the pages. *)
Lemma demo_mapped m ps : (forall p e, p ∈ ps -> p_evsels m !! p = Some e -> ev_mm_page e <> NULL) -> @counters_mapped demo_env m ps.
Proof.
  intros HN p e Hp He _. split; [by apply (HN p)|]. split; [intros i; by vm_compute|]. intros t. exists t. split; [simpl; lia|done].
Qed.
Lemma demo_g_readable : @counters_mapped demo_env (g_mem demo_g) [5; 8].
Proof.
  apply demo_mapped. intros p e Hp He. set_unfold in Hp. destruct Hp as [->|[->|[]]]; revert He; vm_compute p_evsels; by intros [= <-].
Qed.

Lemma session_records_complete_witness :
  exists g' rss, @session demo_env 0 100 [(0, 7); (1, 7)] demo_g = Ret (tt, g') /\
    default [] (g_files g' !! 100) = concat rss /\ Forall2 (@call_records demo_env (g_mem demo_g) [5; 8]) [(0, 7); (1, 7)] rss.
Proof.
  destruct (@session_records_complete demo_env 0 demo_g (g_mem demo_g) (g_tls demo_g) 2 100 [] [5; 8] 100 [(0, 7); (1, 7)])
    as (g' & rss & E & Hf & HF & _).
  - lia.
  - split; vm_compute; reflexivity.
  - apply demo_g_rec.
  - apply demo_g_evlist.
  - apply demo_g_readable.
  - exists g', rss. split; [exact E|]. split; [exact Hf|exact HF].
Defined.
