(* ===== verification/Threads.v ===== *)
(** * Several profiled threads: probe/profile.c

    Threads share the table of [prof_info], the memory of the event lists and the
    clock, and each has its own entry, event list, record file and thread-local
    variables.  The probes of different threads may come in any order; a probe
    touches what belongs to its thread only, and lprobe_exit ends them all. *)
From stdpp Require Import base gmap list strings.
From S2P Require Import Prelude ListHead Pmu ProbeUtil Evsel Evlist Profile.

(** ** What a probe touches *)

(** Only the entry [id], the file [fo] and the variables of the thread [me]
    differ, and no thread id changed. *)
Record frame (me id fo : Z) (g g' : gstate) : Prop := {
  fr_tids : map ti_tid (in_threads (g_info g')) = map ti_tid (in_threads (g_info g));
  fr_threads : forall j, j <> Z.to_nat id -> in_threads (g_info g') !! j = in_threads (g_info g) !! j;
  fr_files : forall q, q <> fo -> g_files g' !! q = g_files g !! q;
  fr_tls : forall x, x <> me -> g_tls g' !! x = g_tls g !! x;
  fr_error : in_is_error (g_info g') = in_is_error (g_info g)
}.

#[global] Instance frame_preorder me id fo : PreOrder (frame me id fo).
Proof.
  split; [by intros g; split|]. intros g1 g2 g3 [A1 A2 A3 A4 A5] [B1 B2 B3 B4 B5].
  split; intros; by etrans; [apply B1 || apply B2 || apply B3 || apply B4 || apply B5|
    apply A1 || apply A2 || apply A3 || apply A4 || apply A5].
Qed.

Lemma find_tinfo_tids l l' pid i : map ti_tid l = map ti_tid l' -> find_tinfo_from pid i l = find_tinfo_from pid i l'.
Proof.
  revert l' i. induction l as [|t l IH]; intros [|t' l'] i H; try done.
  injection H as Ht H. simpl. rewrite Ht. destruct (_ =? _); [done|]. by apply IH.
Qed.

Section Frame.
Context `{E : Env} (me id fo : Z) (g0 : gstate).
Hypothesis Hid : 0 <= id.

(** The entry keeps its file. *)
Definition framed (g : gstate) : Prop :=
  frame me id fo g0 g /\ exists t, in_threads (g_info g) !! Z.to_nat id = Some t /\ ti_output_file t = Some fo.

(** Writing the entry with the same thread id and file. *)
Lemma framed_put g t t' fs :
  framed g -> in_threads (g_info g) !! Z.to_nat id = Some t -> ti_tid t' = ti_tid t -> ti_output_file t' = Some fo ->
  (forall q, q <> fo -> fs !! q = g_files g !! q) -> framed (with_tinfo g (g_mem g) id t' fs).
Proof.
  intros [HF _] Ht Htid Hout Hfs. assert (Z.to_nat id < length (in_threads (g_info g)))%nat as Hlt by (by eapply lookup_lt_Some).
  split; [|by exists t'; split; [apply list_lookup_insert_eq|]]. etrans; [exact HF|]. split; try done; simpl.
  - change (map ti_tid (<[Z.to_nat id:=t']> (in_threads (g_info g)))) with (ti_tid <$> <[Z.to_nat id:=t']> (in_threads (g_info g))).
    rewrite list_fmap_insert. apply list_insert_id. by rewrite list_lookup_fmap, Ht, Htid.
  - intros j Hj. by rewrite list_lookup_insert_ne.
Qed.

(** Neither the memory of the lists nor the clock matters. *)
Lemma framed_mem g (m : pstate) : framed g -> framed (eput m g).
Proof. by intros [[] ?]; split. Qed.
Lemma framed_clock g (c : nat) : framed g -> framed (eput c g).
Proof. by intros [[] ?]; split. Qed.

Lemma keeps_get_tinfo P : keeps P (get_tinfo id).
Proof.
  intros g t g' HP. unfold get_tinfo. destruct (_ <? _); [done|]. destruct (_ !! _); [|done]. by intros [= <- <-].
Qed.

Lemma keeps_push_record r : keeps framed (push_record id r).
Proof.
  intros g u g' HP H. unfold push_record in H. minv H. pose proof HP as [_ (t & Ht & Ho)].
  rewrite (get_tinfo_run g id t Hid Ht) in Hm. injection Hm as <- <-. destruct (_ <=? _); [done|].
  minv H. injection Hm as <- <-. set (t1 := set_nb_record (set_records t _) _) in *.
  assert (framed (with_tinfo g (g_mem g) id t1 (g_files g))) as HP1 by (by apply (framed_put g t)).
  destruct (_ =? _); [|by injection H as <- <-]. minv H. unfold fwrite_records in Hm.
  change (ti_output_file t1) with (ti_output_file t) in Hm. rewrite Ho in Hm. injection Hm as <- <-.
  injection H as <- <-.
  match goal with |- framed ?g' => replace g' with (with_tinfo g (g_mem g) id (set_nb_record t1 0)
    (<[fo:=default [] (g_files g !! fo) ++ cached (ti_records t1) (ti_nb_record t1)]> (g_files g))) end.
  - apply (framed_put g t); try done. intros q Hq. by rewrite lookup_insert_ne.
  - symmetry. unfold with_tinfo, set_info, set_files, set_threads. simpl. by rewrite list_insert_insert_eq.
Qed.

Lemma keeps_read_one fi pos cyc p : keeps (fun s => framed s.1) (read_one id fi pos cyc p).
Proof.
  intros s u s' HP H. unfold read_one in H.
  match type of H with match ?x with _ => _ end = _ => destruct x as [[v g']|] eqn:Hm end; [|done].
  injection H as <- <-. simpl. revert HP Hm. generalize (s.1). intros g HP Hm.
  match type of Hm with ?m _ = _ => enough (keeps framed m) as Hk by exact (Hk g v g' HP Hm) end.
  keeps_step; [keeps_step; apply framed_mem|]. keeps_step; [keeps_step; apply framed_clock|].
  apply keeps_push_record.
Qed.

Lemma keeps_for_each n el body :
  (forall p, keeps (fun s : gstate * Z => framed s.1) (body p)) ->
  keeps (fun s : gstate * Z => framed s.1) (list_for_each_entry n el body).
Proof.
  intros Hb. assert (forall p, keeps (fun s : gstate * Z => framed s.1) (lift (rd_next p))) as Hrd.
  { intros p. keeps_step. intros [g i] h. apply framed_mem. }
  unfold list_for_each_entry. keeps_step; [apply Hrd|]. generalize a. induction n as [|n IH]; intros p; cbn [for_each_from].
  - apply keeps_fail.
  - keeps_step; [apply keeps_ret|]. keeps_step; [apply Hb|]. keeps_step; [apply Hrd|]. apply IH.
Qed.

Lemma keeps_read_count fi pos : keeps framed (__read_count fi pos id).
Proof.
  unfold __read_count. keeps_step.
  { intros g u g' HP [= <- <-]. by apply framed_clock. }
  keeps_step; [apply keeps_get_tinfo|]. keeps_step; [apply keeps_fail|]. keeps_step; [apply keeps_gets|].
  intros g u g' HP H. unfold with_index in H.
  match type of H with match ?x with _ => _ end = _ => destruct x as [[v [g1 i]]|] eqn:Hm end; [|done].
  injection H as <- <-. by apply (keeps_for_each _ _ _ (keeps_read_one fi pos a) (g, 0) v (g1, i)) in Hm.
Qed.
End Frame.

(** A probe of a thread attached to an entry touches that thread's part only. *)
Lemma func_probe_frame `{E : Env} me id fo g t pos fi u g' :
  0 <= id -> attached id g me -> in_threads (g_info g) !! Z.to_nat id = Some t -> ti_output_file t = Some fo ->
  func_probe pos me fi g = Ret (u, g') -> frame me id fo g g'.
Proof.
  intros Hid [Hig Hat] Ht Ho H. unfold func_probe in H. minv H. injection Hm as <- <-. rewrite Hig in H. minv H.
  assert (a = Some (Z.to_nat id) /\ framed me id fo g s) as [-> HP].
  { destruct (tls_threadinfo _) as [i|].
    - injection Hm as <- <-. rewrite <- Hat, Nat2Z.id. split; [done|]. split; [reflexivity|]. rewrite Hat. by exists t.
    - minv Hm. injection Hm0 as <- <-. rewrite Hat in Hm. minv Hm. injection Hm0 as <- <-. injection Hm as <- <-.
      split; [done|]. split; [|by exists t]. split; try done. intros x Hx. simpl. by rewrite lookup_insert_ne. }
  rewrite Z2Nat.id in H by done. minv H.
  assert (framed me id fo g s0) as HP0 by (by eapply keeps_get_tinfo).
  destruct (ti_state a); [by injection H as <- <-; destruct HP0| |by injection H as <- <-; destruct HP0].
  by apply (keeps_read_count me id fo g Hid fi pos s0 u g') in H as [? _].
Qed.

(** ** Interleaved probes *)

(** A thread that records: its id, its entry, event list and record file, and the
    events of the list. *)
Record worker : Type := mk_worker { w_me : Z; w_id : Z; w_el : Z; w_fo : Z; w_ps : list Z }.
#[global] Instance worker_eq_dec : EqDecision worker.
Proof. solve_decision. Defined.

(** The probe calls of a thread among those of all threads. *)
Definition calls_of (w : worker) (calls : list (Z * (Z * Z))) : list (Z * Z) :=
  map snd (filter (fun c => c.1 = w_me w) calls).

Section Threads.
Context `{E : Env}.

Definition entry_ok (g : gstate) (w : worker) (log : list prof_record) : Prop :=
  0 <= w_id w /\ rec_ok (w_id w) g (g_mem g) (g_tls g) (w_el w) (w_fo w) log.
Definition recording (g : gstate) (w : worker) (log : list prof_record) : Prop :=
  entry_ok g w log /\ attached (w_id w) g (w_me w).

(** Two workers share nothing. *)
Definition apart (w w' : worker) : Prop :=
  w_me w <> w_me w' /\ w_id w <> w_id w' /\ w_el w <> w_el w' /\ w_fo w <> w_fo w'.

(** The workers of a process: different threads, entries, lists and files, and
    an address that holds a list holds no event. *)
Record workers_ok (m : pstate) (ws : list worker) : Prop := {
  wk_apart : forall w w', w ∈ ws -> w' ∈ ws -> w = w' \/ apart w w';
  wk_list : forall w, w ∈ ws -> evlist_ok m (w_el w) (w_ps w) /\ p_evsels m !! w_el w = None
}.

Lemma entry_frame g g' w w' log :
  frame (w_me w) (w_id w) (w_fo w) g g' -> g_mem g' = g_mem g -> apart w w' -> 0 <= w_id w ->
  entry_ok g w' log -> entry_ok g' w' log.
Proof.
  intros HF Hm (_ & Hi & _ & Hf) H0 [H0' [_ _ (t & Ht & He & Hs & Hn & Ho & Hl)]]. split; [done|].
  split; [done|done|]. exists t. rewrite (fr_threads _ _ _ _ _ HF) by lia. split_and!; try done; try lia.
  rewrite <- Hl. unfold log_of. rewrite Ho, (fr_files _ _ _ _ _ HF); done.
Qed.

Lemma recording_frame g g' w w' log :
  frame (w_me w) (w_id w) (w_fo w) g g' -> g_mem g' = g_mem g -> apart w w' -> 0 <= w_id w ->
  recording g w' log -> recording g' w' log.
Proof.
  intros HF Hm Ha H0 [He [Hig Hat]]. split; [by eapply entry_frame|]. destruct Ha as [Hme _]. unfold attached.
  rewrite (fr_tls _ _ _ _ _ HF) by done. split; [done|]. destruct (tls_threadinfo _); [done|].
  rewrite <- Hat. apply find_tinfo_tids, HF.
Qed.

(** What the probes leave alone beside the recording threads. *)
Record others_same (ws : list worker) (g g' : gstate) : Prop := {
  os_mem : g_mem g' = g_mem g;
  os_threads : forall j, (forall w, w ∈ ws -> j <> Z.to_nat (w_id w)) -> in_threads (g_info g') !! j = in_threads (g_info g) !! j;
  os_tids : map ti_tid (in_threads (g_info g')) = map ti_tid (in_threads (g_info g));
  os_error : in_is_error (g_info g') = in_is_error (g_info g)
}.

Lemma interleaved_run ws m calls g logs :
  workers_ok m ws -> g_mem g = m -> (forall w, w ∈ ws -> counters_mapped m (w_ps w)) ->
  Forall (fun c => exists w, w ∈ ws /\ w_me w = c.1) calls -> (forall w, w ∈ ws -> recording g w (logs w)) ->
  exists g', forM calls (fun c => func_probe c.2.1 c.1 c.2.2) g = Ret (tt, g') /\ others_same ws g g' /\
    forall w, w ∈ ws -> exists rss, Forall2 (call_records m (w_ps w)) (calls_of w calls) rss /\
      recording g' w (logs w ++ concat rss).
Proof.
  intros Hws Hm Hrd HF. revert g logs Hm. induction HF as [|[me [pos fi]] calls (w & Hw & Hme) _ IH]; intros g logs Hm Hrec; simpl in *.
  { exists g. split_and!; [done|done|]. intros w Hw. exists []. split; [constructor|]. rewrite app_nil_r. auto. }
  subst me. destruct (Hrec w Hw) as [[H0 HR] Ha]. destruct (wk_list _ _ Hws w Hw) as [OK _]. rewrite Hm in *.
  destruct (func_probe_run (w_id w) H0 g m (g_tls g) _ _ _ (w_ps w) (w_me w) pos fi Ha HR OK (Hrd w Hw))
    as (g1 & vs & c' & tl' & E1 & Hs & HR1 & Ha1).
  pose proof HR as [_ _ (t & Ht & _ & _ & _ & Ho & _)].
  pose proof (func_probe_frame _ _ _ _ _ _ _ _ _ H0 Ha Ht Ho E1) as Hfr. pose proof HR1 as [Hm1 Htl1 _].
  set (rs := probe_records (u64 (env_tsc (g_clock g))) fi pos vs) in *.
  set (logs1 := fun x => if decide (x = w) then logs w ++ rs else logs x).
  destruct (IH g1 logs1 Hm1) as (g' & E2 & Hos & Hfin).
  { intros x Hx. unfold logs1. case_decide as Ex.
    - subst x. split; [|done]. split; [done|]. by rewrite Htl1, Hm1.
    - destruct (wk_apart _ _ Hws w x Hw Hx) as [->|Hap]; [done|]. apply (recording_frame g g1 w); try done; [congruence|auto]. }
  exists g'. rewrite (bind_ret _ _ _ _ _ E1). split; [done|]. split.
  - destruct Hos as [O1 O2 O3 O4]. split; [congruence| | |].
    + intros j Hj. rewrite O2 by done. apply Hfr. by apply Hj.
    + rewrite O3. apply Hfr.
    + rewrite O4. apply Hfr.
  - intros x Hx. destruct (Hfin x Hx) as (rss & HF2 & Hr2). unfold logs1 in Hr2. unfold calls_of. rewrite filter_cons. simpl.
    case_decide as Ex.
    + subst x. rewrite decide_True by done. exists (rs :: rss). split; [|by rewrite <- app_assoc in Hr2].
      constructor; [|done]. by do 3 eexists.
    + destruct (wk_apart _ _ Hws w x Hw Hx) as [->|[? _]]; [done|]. rewrite decide_False by done. by exists rss.
Qed.

(** ** The end of the process *)

(** Deleting one list leaves the others well formed. *)
Lemma evlist_ok_deleted m m' el ps el' ps' :
  evlist_ok m el ps -> evlist_ok m el' ps' -> el <> el' -> p_evsels m !! el = None -> p_evsels m !! el' = None ->
  prof_evlist__delete el m = Ret (tt, m') ->
  evlist_ok m' el' ps' /\ p_evsels m' !! el' = None.
Proof.
  intros OK OK' Hne Hn Hn' Ed. destruct (evlist_delete_run m el ps OK) as (m1 & Ed1 & Hev & Hel & Hnd & _ & _ & Hb).
  rewrite Ed in Ed1. injection Ed1 as <-.
  assert (forall p, p ∈ el' :: ps' -> p ∉ el :: ps) as Hdis.
  { intros p Hp' Hp. apply elem_of_cons in Hp' as [->|Hp'], Hp as [->|Hp]; [done| | |].
    - destruct (evlist_ok_evsel _ _ _ OK el' Hp) as (e & He & _). congruence.
    - destruct (evlist_ok_evsel _ _ _ OK' el Hp') as (e & He & _). congruence.
    - apply list_elem_of_lookup in Hp as [i Hi], Hp' as [i' Hi'].
      destruct (ok_evs _ _ _ OK i p Hi) as (e & He & _ & Hx & _). destruct (ok_evs _ _ _ OK' i' p Hi') as (e' & He' & _ & Hx' & _).
      congruence. }
  split; [|rewrite Hev; by case_decide]. destruct OK' as [L1 (l & L2 & L2') L3 L4]. split.
  - apply (is_list_frame (p_nodes m) _ (el :: ps)); [|done|done]. intros p Hp. rewrite Hnd. by rewrite decide_False.
  - exists l. by rewrite Hel, lookup_delete_ne.
  - intros i p Hi. destruct (L3 i p Hi) as (e & He & H). exists e. rewrite Hev, decide_False; [done|].
    intros Hp. apply (Hdis p); [by right; eapply list_elem_of_lookup_2|by right].
  - intros p [x Hx]. rewrite Hnd in Hx. case_decide; [done|]. rewrite Hb. apply L4. by exists x.
Qed.

Lemma workers_deleted m m' ws ws' w :
  workers_ok m ws -> w ∈ ws -> (forall x, x ∈ ws' -> x ∈ ws /\ x <> w) -> prof_evlist__delete (w_el w) m = Ret (tt, m') ->
  workers_ok m' ws'.
Proof.
  intros [Hap Hl] Hw Hsub Ed. split.
  - intros x y [Hx _]%Hsub [Hy _]%Hsub. auto.
  - intros x [Hx Hne]%Hsub. destruct (Hap w x Hw Hx) as [->|(_ & _ & He & _)]; [done|].
    destruct (Hl w Hw) as [OK Hn], (Hl x Hx) as [OK' Hn']. exact (evlist_ok_deleted m m' _ _ _ _ OK OK' He Hn Hn' Ed).
Qed.

(** What is left of a worker after lprobe_exit: its records are in the file, its
    entry is cleared, its list and events are freed. *)
Record ended (g : gstate) (w : worker) (log : list prof_record) : Prop := {
  en_file : default [] (g_files g !! w_fo w) = log;
  en_entry : exists t, in_threads (g_info g) !! Z.to_nat (w_id w) = Some t /\ ti_tid t = -1 /\
    ti_state t = PROF_STATE_UNINIT /\ ti_output_file t = None /\ ti_evlist t = NULL;
  en_list : p_evlists (g_mem g) !! w_el w = None;
  en_evsels : forall p, p ∈ w_ps w -> p_evsels (g_mem g) !! p = None
}.

Definition exit_entry (i : Z) : M gstate unit :=
  t ← get_tinfo i ;
  if ti_tid t =? -1 then mret tt else
  match ti_state t with PROF_STATE_RUNNING => __destroy_tinfo i | _ => mret tt end.

(** The entries of the workers, and those of nobody. *)
Definition live_entry (g : gstate) (i : Z) : Prop :=
  exists t, in_threads (g_info g) !! Z.to_nat i = Some t /\ ti_tid t <> -1.
Definition idle_entry (g : gstate) (i : Z) : Prop :=
  exists t, in_threads (g_info g) !! Z.to_nat i = Some t /\ (ti_tid t = -1 \/ ti_state t <> PROF_STATE_RUNNING).

Lemma exit_entry_idle g i : 0 <= i -> idle_entry g i -> exit_entry i g = Ret (tt, g).
Proof.
  intros Hi (t & Ht & H). unfold exit_entry. rewrite (bind_ret _ _ _ _ _ (get_tinfo_run g i t Hi Ht)).
  destruct (ti_tid t =? -1) eqn:Et; zbool; [done|]. destruct H as [|H]; [done|]. by destruct (ti_state t).
Qed.

Lemma exit_entry_worker g w ws log :
  workers_ok (g_mem g) ws -> w ∈ ws -> entry_ok g w log -> live_entry g (w_id w) ->
  exists g', exit_entry (w_id w) g = Ret (tt, g') /\ ended g' w log /\
    prof_evlist__delete (w_el w) (g_mem g) = Ret (tt, g_mem g') /\
    (forall q, q <> w_fo w -> g_files g' !! q = g_files g !! q) /\
    (forall j, j <> Z.to_nat (w_id w) -> in_threads (g_info g') !! j = in_threads (g_info g) !! j).
Proof.
  intros Hws Hw [H0 HR] (t & Ht & Htid). destruct (wk_list _ _ Hws w Hw) as [OK _].
  destruct (destroy_run (w_id w) H0 g _ _ _ _ _ _ HR OK) as (g' & Ed & Hlog & Hfs & Hdel & t' & Hth & Ht').
  exists g'. split.
  { unfold exit_entry. rewrite (bind_ret _ _ _ _ _ (get_tinfo_run g _ t H0 Ht)), (proj2 (Z.eqb_neq _ _) Htid).
    destruct HR as [_ _ (t0 & Ht0 & _ & Hst & _)]. rewrite Ht in Ht0. injection Ht0 as <-. by rewrite Hst. }
  destruct (evlist_delete_run _ _ _ OK) as (m1 & Ed1 & Hev & Hel & _). rewrite Hdel in Ed1. injection Ed1 as <-.
  split_and!; [|done|done|intros j Hj; by rewrite Hth, list_lookup_insert_ne].
  split; [done| |by rewrite Hel, lookup_delete_eq|intros p Hp; by rewrite Hev, decide_True].
  exists t'. rewrite Hth. split; [|done]. apply list_lookup_insert_eq. by eapply lookup_lt_Some.
Qed.

Lemma ended_later g g' w x log :
  apart w x -> 0 <= w_id w -> 0 <= w_id x -> ended g x log ->
  (exists ps, evlist_ok (g_mem g) (w_el w) ps) -> prof_evlist__delete (w_el w) (g_mem g) = Ret (tt, g_mem g') ->
  (forall q, q <> w_fo w -> g_files g' !! q = g_files g !! q) ->
  (forall j, j <> Z.to_nat (w_id w) -> in_threads (g_info g') !! j = in_threads (g_info g) !! j) -> ended g' x log.
Proof.
  intros (_ & Hi & He & Hf) H0 H0' [A1 A2 A3 A4] [ps OK] Hdel Hfs Hth.
  destruct (evlist_delete_run _ _ _ OK) as (m1 & Ed1 & Hev & Hel & _). rewrite Hdel in Ed1. injection Ed1 as <-. split.
  - by rewrite Hfs.
  - rewrite Hth by lia. done.
  - by rewrite Hel, lookup_delete_ne.
  - intros p Hp. rewrite Hev. case_decide; [done|auto].
Qed.

Lemma entry_later g g' x log :
  in_threads (g_info g') !! Z.to_nat (w_id x) = in_threads (g_info g) !! Z.to_nat (w_id x) ->
  g_files g' !! w_fo x = g_files g !! w_fo x -> entry_ok g x log -> entry_ok g' x log.
Proof.
  intros Hth Hf [H0 [_ _ (t & Ht & He & Hs & Hn & Ho & Hl)]]. split; [done|]. split; [done|done|]. exists t. rewrite Hth.
  split_and!; try done; try lia. rewrite <- Hl. unfold log_of. by rewrite Ho, Hf.
Qed.

Lemma exit_loop l pend g logs :
  NoDup l -> Forall (fun i => 0 <= i) l -> workers_ok (g_mem g) pend ->
  (forall w, w ∈ pend -> w_id w ∈ l /\ entry_ok g w (logs w) /\ live_entry g (w_id w)) ->
  (forall i, i ∈ l -> (exists w, w ∈ pend /\ w_id w = i) \/ idle_entry g i) ->
  exists g', forM l exit_entry g = Ret (tt, g') /\ (forall w, w ∈ pend -> ended g' w (logs w)) /\
    forall x log, 0 <= w_id x -> (forall w, w ∈ pend -> apart w x) -> ended g x log -> ended g' x log.
Proof.
  intros HN. revert pend g. induction HN as [|i l Hi _ IH]; intros pend g H0 Hws Hp Hl.
  { exists g. split_and!; [done| |done]. intros w Hw. destruct (Hp w Hw) as [Hx _]. by apply elem_of_nil in Hx. }
  apply Forall_cons in H0 as [H0 HF]. cbn [forM].
  destruct (Hl i ltac:(by left)) as [(w & Hw & <-)|Hidle].
  - destruct (Hp w Hw) as (_ & He & Hlv).
    destruct (exit_entry_worker g w pend (logs w) Hws Hw He Hlv) as (g1 & E1 & Hend & Hdel & Hfs & Hth).
    destruct (IH (filter (fun x => x <> w) pend) g1 HF) as (g' & E2 & Hfin & Hkeep).
    + apply (workers_deleted (g_mem g) _ pend _ w); try done. by intros x [? ?]%list_elem_of_filter.
    + intros x [Hne Hx]%list_elem_of_filter. destruct (Hp x Hx) as (Hin & Hex & (t & Ht & Hlx)).
      destruct (wk_apart _ _ Hws w x Hw Hx) as [->|(_ & Hid & _ & Hfo)]; [done|]. pose proof Hex as [H0x _].
      split_and!; [|apply (entry_later g); [apply Hth; lia|apply Hfs; congruence|done]|exists t; by rewrite Hth by lia].
      apply elem_of_cons in Hin as [Hin|]; [congruence|done].
    + intros j Hj. pose proof (proj1 (Forall_forall _ _) HF j Hj) as Hj0. cbv beta in Hj0. assert (j <> w_id w) as Hjw by (by intros ->).
      destruct (Hl j ltac:(by right)) as [(x & Hx & Hxj)|(t & Ht & Hidle)].
      * left. exists x. split; [|done]. apply list_elem_of_filter. split; [|done]. congruence.
      * right. exists t. by rewrite Hth by lia.
    + exists g'. rewrite (bind_ret _ _ _ _ _ E1). split; [done|]. split.
      * intros x Hx. destruct (decide (x = w)) as [->|Hne]; [|apply Hfin, list_elem_of_filter; done].
        apply Hkeep; [done| |done]. intros y [Hne Hy]%list_elem_of_filter.
        by destruct (wk_apart _ _ Hws y w Hy Hw) as [->|?].
      * intros x log Hx Hap Hx'. apply Hkeep; [done| |].
        { intros y [_ Hy]%list_elem_of_filter. auto. }
        apply (ended_later g g1 w); try done; [auto|]. exists (w_ps w). by apply (wk_list _ _ Hws).
  - destruct (IH pend g HF Hws) as (g' & E2 & Hfin & Hkeep).
    + intros w Hw. destruct (Hp w Hw) as (Hin & He & Hlv). split_and!; try done. apply elem_of_cons in Hin as [<-|]; [|done].
      destruct Hlv as (t & Ht & Hlv), Hidle as (t' & Ht' & Hid), He as [_ [_ _ (t2 & Ht2 & _ & Hs & _)]].
      exfalso. rewrite Ht in Ht', Ht2. injection Ht' as <-. injection Ht2 as <-. by destruct Hid.
    + intros j Hj. apply Hl. by right.
    + exists g'. by rewrite (bind_ret _ _ _ _ _ (exit_entry_idle g i H0 Hidle)).
Qed.

Lemma exit_run ws g logs :
  workers_ok (g_mem g) ws -> in_is_error (g_info g) = false ->
  (forall w, w ∈ ws -> w_id w < PROF_THREAD_MAX /\ entry_ok g w (logs w) /\ live_entry g (w_id w)) ->
  (forall i, 0 <= i < PROF_THREAD_MAX -> (exists w, w ∈ ws /\ w_id w = i) \/ idle_entry g i) ->
  exists g', lprobe_exit g = Ret (tt, g') /\ forall w, w ∈ ws -> ended g' w (logs w).
Proof.
  intros Hws Herr Hw Hidle. unfold lprobe_exit. erewrite bind_ret by reflexivity. rewrite Herr. erewrite bind_ret by reflexivity.
  set (g1 := set_info g _). destruct (exit_loop (seqZ 0 PROF_THREAD_MAX) ws g1 logs) as (g' & E1 & Hend & _).
  - apply NoDup_seqZ.
  - apply Forall_forall. intros i [? _]%elem_of_seqZ. lia.
  - done.
  - intros w Hin. destruct (Hw w Hin) as (Hlt & He & Hlv). split_and!; [|by apply (entry_later g)|done].
    apply elem_of_seqZ. destruct He. lia.
  - intros i [? ?]%elem_of_seqZ. apply Hidle. lia.
  - exists g'. by split.
Qed.
End Threads.

(** An entry is live when its thread id is not -1. *)
Lemma live_tids g g' i :
  map ti_tid (in_threads (g_info g')) = map ti_tid (in_threads (g_info g)) -> live_entry g i -> live_entry g' i.
Proof.
  intros Hm (t & Ht & Hne). assert ((ti_tid <$> in_threads (g_info g')) !! Z.to_nat i = Some (ti_tid t)) as Hl.
  { unfold fmap, list_fmap. fold (map ti_tid (in_threads (g_info g'))). rewrite Hm.
    change (map ti_tid (in_threads (g_info g))) with (ti_tid <$> in_threads (g_info g)). by rewrite list_lookup_fmap, Ht. }
  rewrite list_lookup_fmap in Hl. destruct (in_threads (g_info g') !! Z.to_nat i) as [t'|] eqn:Ht'; [|done].
  injection Hl as Hl. exists t'. split; [done|]. congruence.
Qed.

(** One value for every worker. *)
Lemma choose_logs {B} `{Inhabited B} (ws : list worker) (P : worker -> B -> Prop) :
  (forall w, w ∈ ws -> exists b, P w b) -> exists f, forall w, w ∈ ws -> P w (f w).
Proof.
  induction ws as [|w ws IH]; intros HP; [by exists (fun _ => inhabitant); intros w ?%elem_of_nil|].
  destruct (HP w ltac:(by left)) as [b Hb]. destruct IH as [f Hf]; [intros x Hx; apply HP; by right|].
  exists (fun x => if decide (x = w) then b else f x). intros x Hx. case_decide as Ex; [by subst|].
  apply elem_of_cons in Hx as [->|]; [done|auto].
Qed.

(** C2: several threads.  Let some threads of the process be running and attached,
    each with its own entry, event list and record file, and let every other
    entry of the table be free, failed or ended.  Let the enabled counters of the
    threads be mapped, the mapped pages have widths and shifts in range, and the
    kernel leave a page alone for 28 accesses within any [env_rounds] accesses,
    [env_rounds] being the bound on the rounds of a read.  Whatever the order in which
    the probes of the threads come, nothing faults; when the process then exits,
    the file of every thread holds what it held before followed by the records
    of that thread's own probe calls, in its own order and complete, and every
    thread's entry is cleared and its list and events are freed. *)
Theorem threads_record_independently `{E : Env} ws g logs calls :
  workers_ok (g_mem g) ws -> in_is_error (g_info g) = false -> (forall w, w ∈ ws -> counters_mapped (g_mem g) (w_ps w)) ->
  (forall w, w ∈ ws -> w_id w < PROF_THREAD_MAX /\ recording g w (logs w) /\ live_entry g (w_id w)) ->
  (forall i, 0 <= i < PROF_THREAD_MAX -> (exists w, w ∈ ws /\ w_id w = i) \/ idle_entry g i) ->
  Forall (fun c => exists w, w ∈ ws /\ w_me w = c.1) calls ->
  exists g', (forM calls (fun c => func_probe c.2.1 c.1 c.2.2) ;; lprobe_exit) g = Ret (tt, g') /\
    forall w, w ∈ ws -> exists rss, Forall2 (call_records (g_mem g) (w_ps w)) (calls_of w calls) rss /\
      ended g' w (logs w ++ concat rss).
Proof.
  intros Hws Herr Hrd Hw Hidle HF.
  destruct (interleaved_run ws (g_mem g) calls g logs Hws eq_refl Hrd HF) as (g1 & E1 & [O1 O2 O3 O4] & Hrec).
  { intros w Hin. apply Hw, Hin. }
  (* the records of every worker, by the name of the worker *)
  destruct (choose_logs ws (fun w rss => Forall2 (call_records (g_mem g) (w_ps w)) (calls_of w calls) rss /\
    recording g1 w (logs w ++ concat rss)) Hrec) as [rss Hrss].
  destruct (exit_run ws g1 (fun w => logs w ++ concat (rss w))) as (g' & E2 & Hend).
  - by rewrite O1.
  - by rewrite O4.
  - intros w Hin. destruct (Hw w Hin) as (? & _ & Hlv), (Hrss w Hin) as [_ [? _]]. split_and!; [done|done|].
    by apply (live_tids g).
  - intros i Hi. destruct (Hidle i Hi) as [?|(t & Ht & Hid)]; [by left|].
    destruct (decide (Exists (fun w => w_id w = i) ws)) as [(w & ? & ?)%Exists_exists|Hno]; [left; by exists w|right].
    exists t. rewrite O2; [done|]. intros w Hin Hwi. apply Hno, Exists_exists. exists w. split; [done|].
    destruct (Hw w Hin) as (_ & [[? _] _] & _). lia.
  - exists g'. rewrite (bind_ret _ _ _ _ _ E1). split; [done|]. intros w Hin. exists (rss w).
    destruct (Hrss w Hin) as [? _]. split; [done|auto].
Qed.

(** ** Evaluation of the model *)
Definition demo_main : worker := mk_worker 100 0 2 100 [5; 8].
Definition demo_second : worker := mk_worker 101 1 10 101 [13; 16].

Lemma demo_second_evlist : evlist_ok (g_mem demo_g) 10 [13; 16].
Proof.
  split.
  - split; [vm_compute; tauto|apply (bool_decide_unpack _); vm_compute; exact I].
  - eexists. split; vm_compute; reflexivity.
  - intros [|[|i]] p; [intros [= <-]|intros [= <-]|done]; eexists; (split; [vm_compute; reflexivity|]); done.
  - apply (ok_brk _ _ _ demo_g_evlist).
Qed.

Lemma demo_workers : workers_ok (g_mem demo_g) [demo_main; demo_second].
Proof.
  split.
  - intros w w' Hw Hw'. set_unfold in Hw. set_unfold in Hw'. destruct Hw as [->|[->|[]]], Hw' as [->|[->|[]]];
      first [left; reflexivity|right; unfold apart; simpl; lia].
  - intros w Hw. set_unfold in Hw. destruct Hw as [->|[->|[]]]; (split; [|vm_compute; reflexivity]).
    + apply demo_g_evlist.
    + apply demo_second_evlist.
Qed.

Lemma demo_entry w :
  w ∈ [demo_main; demo_second] -> entry_ok demo_g w [] /\ attached (w_id w) demo_g (w_me w) /\ live_entry demo_g (w_id w).
Proof.
  intros Hw. set_unfold in Hw. destruct Hw as [->|[->|[]]]; split.
  - split; [vm_compute; discriminate|apply demo_g_rec].
  - split; [split; vm_compute; reflexivity|]. eexists. split; [vm_compute; reflexivity|discriminate].
  - split; [vm_compute; discriminate|]. split; [reflexivity|reflexivity|].
    eexists. split; [vm_compute; reflexivity|]. split_and!; vm_compute; congruence.
  - split; [split; vm_compute; reflexivity|]. eexists. split; [vm_compute; reflexivity|discriminate].
Qed.

Lemma demo_recording w :
  w ∈ [demo_main; demo_second] -> w_id w < PROF_THREAD_MAX /\ recording demo_g w [] /\ live_entry demo_g (w_id w).
Proof.
  intros Hw. pose proof (demo_entry w Hw) as (? & ? & ?). split; [|split; [split; assumption|assumption]].
  set_unfold in Hw. destruct Hw as [->|[->|[]]]; reflexivity.
Qed.

Lemma demo_idle i :
  0 <= i < PROF_THREAD_MAX -> (exists w, w ∈ [demo_main; demo_second] /\ w_id w = i) \/ idle_entry demo_g i.
Proof.
  intros Hi. destruct (decide (i = 0)) as [->|]; [left; exists demo_main; by split; [left|]|].
  destruct (decide (i = 1)) as [->|]; [left; exists demo_second; by split; [right; left|]|]. right.
  assert (drop 2 (in_threads (g_info demo_g)) = replicate 62 zero_tinfo) as Hd by (vm_compute; reflexivity).
  exists zero_tinfo. split; [|by right]. unfold PROF_THREAD_MAX in Hi.
  replace (Z.to_nat i) with (2 + (Z.to_nat i - 2))%nat by lia. rewrite <- lookup_drop, Hd. apply lookup_replicate_2. lia.
Qed.

Lemma threads_record_independently_witness :
  exists g' rss, (forM [(100, (0, 7)); (101, (0, 8)); (100, (1, 7)); (101, (1, 8))]
      (fun c => @func_probe demo_env c.2.1 c.1 c.2.2) ;; lprobe_exit) demo_g = Ret (tt, g') /\
    Forall2 (@call_records demo_env (g_mem demo_g) [13; 16]) [(0, 8); (1, 8)] rss /\ ended g' demo_second (concat rss).
Proof.
  destruct (@threads_record_independently demo_env [demo_main; demo_second] demo_g (fun _ => [])
    [(100, (0, 7)); (101, (0, 8)); (100, (1, 7)); (101, (1, 8))]) as (g' & E & Hend).
  - apply demo_workers.
  - reflexivity.
  - intros w Hw. set_unfold in Hw. destruct Hw as [->|[->|[]]]; [apply demo_g_readable|].
    apply demo_mapped. intros p e Hp He. set_unfold in Hp. destruct Hp as [->|[->|[]]]; revert He; vm_compute p_evsels; by intros [= <-].
  - apply demo_recording.
  - apply demo_idle.
  - assert (exists w, w ∈ [demo_main; demo_second] /\ w_me w = 100) by (exists demo_main; by split; [left|]).
    assert (exists w, w ∈ [demo_main; demo_second] /\ w_me w = 101) by (exists demo_second; by split; [right; left|]).
    by repeat constructor.
  - destruct (Hend demo_second) as (rss & HF & He); [right; left|]. exists g', rss. split; [exact E|]. split; [exact HF|exact He].
Defined.
