(* ===== verification/ToolBase.v ===== *)
(** * What the tools of src/utils stand on

    Text (C and C++ strings), the C library functions they call (getopt, fgets,
    the decimal conversions), the file system with its streams, and the part of
    the Dyninst interface they drive.  The file system is the state [tstate];
    whether the operating system grants a request is the class [System].  Dyninst
    is the class [Dyninst]: what it finds in a binary is fixed, what it answers
    to a change of the mutatee may depend on everything done before. *)
From stdpp Require Import base gmap list strings pretty.
From Stdlib Require Import Ascii.
From S2P Require Import Prelude.

(** ** Text *)
Definition NL : ascii := "010"%char.
Definition NULC : ascii := "000"%char.
Definition chr (c : ascii) : string := String c EmptyString.
Definition nl : string := chr NL.
Definition tab : string := chr "009"%char.
Definition dquote : string := chr "034"%char.

Fixpoint has_char (c : ascii) (s : string) : bool :=
  match s with
  | EmptyString => false
  | String a s' => Ascii.eqb a c || has_char c s'
  end.

(** What a C function sees of a character array: the text before the first NUL. *)
Fixpoint c_str (s : string) : string :=
  match s with
  | EmptyString => EmptyString
  | String a s' => if Ascii.eqb a NULC then EmptyString else String a (c_str s')
  end.

(** std::string::find_first_of(c, pos). *)
Fixpoint find_first_of (c : ascii) (s : string) (pos : nat) : option nat :=
  match s with
  | EmptyString => None
  | String a s' =>
      match pos with
      | O => if Ascii.eqb a c then Some O else S <$> find_first_of c s' O
      | S pos' => S <$> find_first_of c s' pos'
      end
  end.

(** std::string::find_last_of(c). *)
Fixpoint find_last_of (c : ascii) (s : string) : option nat :=
  match s with
  | EmptyString => None
  | String a s' =>
      match find_last_of c s' with
      | Some k => Some (S k)
      | None => if Ascii.eqb a c then Some O else None
      end
  end.

Fixpoint drop_str (n : nat) (s : string) : string :=
  match n, s with
  | S n', String _ s' => drop_str n' s'
  | _, _ => s
  end.

Fixpoint take_str (n : nat) (s : string) : string :=
  match n, s with
  | S n', String a s' => String a (take_str n' s')
  | _, _ => EmptyString
  end.

Fixpoint is_prefix (p s : string) : bool :=
  match p, s with
  | EmptyString, _ => true
  | String a p', String b s' => Ascii.eqb a b && is_prefix p' s'
  | String _ _, EmptyString => false
  end.

(** std::string::find(p) != npos. *)
Fixpoint contains (p s : string) : bool :=
  is_prefix p s || match s with EmptyString => false | String _ s' => contains p s' end.

Fixpoint concat_str (l : list string) : string :=
  match l with
  | [] => EmptyString
  | s :: l' => s +:+ concat_str l'
  end.

(** std::to_string and the %u, %lu conversions of a value in range. *)
Definition dec (x : Z) : string := pretty (Z.to_N x).

(** fgets() with a buffer of [S n] bytes on the rest of a stream: what it stores
    ([None] for a null result), what is left, and whether it met the end. *)
Fixpoint fgets_chars (n : nat) (s : string) : string * string * bool :=
  match n with
  | O => (EmptyString, s, false)
  | S n' =>
      match s with
      | EmptyString => (EmptyString, EmptyString, true)
      | String a s' =>
          if Ascii.eqb a NL then (String a EmptyString, s', false)
          else let '(l, r, e) := fgets_chars n' s' in (String a l, r, e)
      end
  end.

Definition fgets (size : Z) (s : string) : option string * string * bool :=
  match s with
  | EmptyString => (None, EmptyString, true)
  | String _ _ => let '(l, r, e) := fgets_chars (Z.to_nat (size - 1)) s in (Some l, r, e)
  end.

(** ** getopt

    The options in the order getopt returns them, each with its argument, and the
    operands left behind [optind]; GNU getopt moves operands behind the options.
    An unknown option or a missing argument is reported as '?'. *)
Fixpoint opt_kind (optstring : string) (c : ascii) : option bool :=
  match optstring with
  | EmptyString => None
  | String a rest =>
      match rest with
      | String b rest' =>
          if Ascii.eqb b ":" then if Ascii.eqb a c then Some true else opt_kind rest' c
          else if Ascii.eqb a c then Some false else opt_kind rest c
      | EmptyString => if Ascii.eqb a c then Some false else None
      end
  end.

(** The letters of one argument; the second component is an option whose argument
    is the next element of argv. *)
Fixpoint opt_cluster (optstring w : string) : list (ascii * option string) * option ascii :=
  match w with
  | EmptyString => ([], None)
  | String c w' =>
      match opt_kind optstring c with
      | Some true => match w' with EmptyString => ([], Some c) | _ => ([(c, Some w')], None) end
      | Some false => let '(es, k) := opt_cluster optstring w' in ((c, None) :: es, k)
      | None => let '(es, k) := opt_cluster optstring w' in (("?"%char, None) :: es, k)
      end
  end.

Fixpoint getopt (optstring : string) (args : list string) {struct args} :
    list (ascii * option string) * list string :=
  match args with
  | [] => ([], [])
  | a :: rest =>
      if String.eqb a "--" then ([], rest) else
      match a with
      | String "-" (String c w) =>
          let '(es, k) := opt_cluster optstring (String c w) in
          match k with
          | None => let '(es', ops) := getopt optstring rest in (es ++ es', ops)
          | Some o =>
              match rest with
              | [] => (es ++ [("?"%char, None)], [])
              | x :: rest' => let '(es', ops) := getopt optstring rest' in (es ++ (o, Some x) :: es', ops)
              end
          end
      | _ => let '(es', ops) := getopt optstring rest in (es', a :: ops)
      end
  end.

(** ** Dyninst

    Objects, modules and functions of the mutatee as the interface hands them out;
    the pointers the source compares are identifiers. *)
Record bobject : Type := mk_bobject {
  ob_id : Z; ob_name : string; ob_pathName : string; ob_isSystemLib : bool }.
Record bmodule : Type := mk_bmodule { mo_id : Z; mo_object : bobject }.
Inductive dataClass : Type := BPatch_dataNullType | BPatch_dataOther.
Record bfunction : Type := mk_bfunction {
  bf_id : Z; bf_name : string; bf_nb_params : Z; bf_returnType : option dataClass; bf_module : bmodule }.
#[global] Instance bobject_eq_dec : EqDecision bobject.
Proof. solve_decision. Defined.
#[global] Instance bmodule_eq_dec : EqDecision bmodule.
Proof. solve_decision. Defined.
#[global] Instance dataClass_eq_dec : EqDecision dataClass.
Proof. solve_decision. Defined.
#[global] Instance bfunction_eq_dec : EqDecision bfunction.
Proof. solve_decision. Defined.
Record bpoint : Type := mk_bpoint { pt_id : Z; pt_called : option Z }.

Inductive procedureLocation : Type := BPatch_entry | BPatch_exit.
#[global] Instance procedureLocation_eq_dec : EqDecision procedureLocation.
Proof. solve_decision. Defined.
Inductive snippet_arg : Type := ConstString (s : string) | ConstUnsigned (n : Z).

(** The calls that change the mutatee. *)
Inductive action : Type :=
| ProcessCreate (bin : string) (argv : list string)
| OpenBinary (bin : string)
| ProcessAttach (pid : Z)
| LoadLibrary (path : string)
| InsertSnippet (f : bfunction) (loc : procedureLocation) (callee : bfunction) (args : list snippet_arg)
| OneTimeCode (callee : bfunction) (args : list snippet_arg)
| InsertInitCallback (m : bmodule) (callee : bfunction) (args : list snippet_arg)
| InsertFiniCallback (m : bmodule) (callee : bfunction)
| WriteVariable (name : string) (v : Z)
| WrapDynFunction (orig wrap : bfunction) (sym : string) (objs : list bobject)
| WrapFunction (orig wrap : bfunction) (sym : string)
| ReplaceFunctionCall (p : bpoint) (callee : bfunction)
| RemoveInstrumentation (f : bfunction)
| ContinueExecution
| StopExecution
| WaitForStatusChange
| WriteFile (path : string)
| Detach.

Class Dyninst : Type := {
  dy_procedures : string -> option (option (list bfunction));  (* openBinary, then getProcedures *)
  dy_modules : bobject -> list (list bfunction);   (* the procedures of each module *)
  dy_objects : list bobject;
  dy_object_find : bobject -> string -> list bfunction;
  dy_image_find : string -> list bfunction;
  dy_has_point : bfunction -> procedureLocation -> bool;
  dy_caller_points : bfunction -> list bpoint;
  dy_call_points : bfunction -> list bpoint;
  dy_hook_symbol : bfunction -> string -> bool;    (* findSymbol in the wrapper's symbol table *)
  dy_pthread_fields : option (option (list (string * Z)));  (* struct pthread: its fields with their sizes *)
  dy_variable : string -> bool;                    (* findVariable in the probe library *)
  dy_library : string -> option bobject;           (* what loadLibrary returns *)
  dy_answer : list action -> action -> Z;          (* the result of a change, 0 for failure or null *)
  dy_terminated : list action -> bool;
  dy_stopped : list action -> bool
}.

(** ** Files

    A file is its text and its time of modification; [ts_streams] counts the open
    streams.  [ts_skiplist] is the static set of funcmap.cc, [ts_trace] what was done
    to the mutatee, oldest first. *)
Record file : Type := mk_file { f_text : string; f_mtime : Z }.

Record tstate : Type := mk_tstate {
  ts_files : gmap string file;
  ts_dirs : gset string;
  ts_streams : Z;
  ts_now : Z;
  ts_skiplist : gset string;
  ts_trace : list action
}.

Definition ts_set_files (s : tstate) (f : gmap string file) : tstate :=
  mk_tstate f (ts_dirs s) (ts_streams s) (ts_now s) (ts_skiplist s) (ts_trace s).
Definition ts_set_dirs (s : tstate) (d : gset string) : tstate :=
  mk_tstate (ts_files s) d (ts_streams s) (ts_now s) (ts_skiplist s) (ts_trace s).
Definition ts_add_streams (s : tstate) (n : Z) : tstate :=
  mk_tstate (ts_files s) (ts_dirs s) (ts_streams s + n) (ts_now s) (ts_skiplist s) (ts_trace s).
Definition ts_set_skiplist (s : tstate) (k : gset string) : tstate :=
  mk_tstate (ts_files s) (ts_dirs s) (ts_streams s) (ts_now s) k (ts_trace s).

Definition ENOENT : Z := 2.

Definition ts_act (a : action) : M tstate unit := modify (fun s =>
  mk_tstate (ts_files s) (ts_dirs s) (ts_streams s) (ts_now s) (ts_skiplist s) (ts_trace s ++ [a])).

(** The decisions of the operating system. *)
Class System : Type := {
  sys_fopen : string -> bool;            (* the path may be opened *)
  sys_stat_err : string -> option Z;     (* stat fails with this errno *)
  sys_mkdir : string -> bool;
  sys_system : string -> Z;              (* exit status of a shell command *)
  sys_exec : string -> bool;             (* access(path, X_OK) == 0 *)
  sys_malloc : bool
}.

Section Files.
Context `{System}.

Definition access_f (path : string) : M tstate bool := fun s =>
  Ret (bool_decide (path ∈ ts_dirs s) || bool_decide (is_Some (ts_files s !! path)), s).

(** mkdir() needs the parent; the parent of a path with one slash is the root. *)
Definition parent (path : string) : string :=
  match find_last_of "/" path with Some k => take_str k path | None => EmptyString end.
Definition mkdir (path : string) : M tstate bool := fun s =>
  if sys_mkdir path && (String.eqb (parent path) "" || bool_decide (parent path ∈ ts_dirs s))
  then Ret (true, ts_set_dirs s ({[path]} ∪ ts_dirs s))
  else Ret (false, s).

Inductive stat_result : Type := StatOk (mtime size : Z) | StatErr (errno : Z).
Definition stat (path : string) : M tstate stat_result := fun s =>
  match sys_stat_err path with
  | Some e => Ret (StatErr e, s)
  | None =>
      match ts_files s !! path with
      | Some f => Ret (StatOk (f_mtime f) (Z.of_nat (String.length (f_text f))), s)
      | None => Ret (StatErr ENOENT, s)
      end
  end.

(** fopen(path, w): the file is emptied; its directory must exist. *)
Definition fopen_w (path : string) : M tstate bool := fun s =>
  if sys_fopen path && (String.eqb (parent path) "" || bool_decide (parent path ∈ ts_dirs s))
  then Ret (true, ts_add_streams (ts_set_files s (<[path := mk_file "" (ts_now s)]> (ts_files s))) 1)
  else Ret (false, s).
(** fopen(path, r): the text of the file. *)
Definition fopen_r (path : string) : M tstate (option string) := fun s =>
  match ts_files s !! path with
  | Some f => if sys_fopen path then Ret (Some (f_text f), ts_add_streams s 1) else Ret (None, s)
  | None => Ret (None, s)
  end.
Definition fclose : M tstate unit := modify (fun s => ts_add_streams s (-1)).
(** fprintf of finished text to a stream open for writing. *)
Definition fputs (path text : string) : M tstate unit := modify (fun s =>
  ts_set_files s (<[path := mk_file (default "" (f_text <$> ts_files s !! path) +:+ text) (ts_now s)]> (ts_files s))).
End Files.

(** ** Lemmas on text *)
Lemma append_assoc (s t u : string) : (s +:+ t) +:+ u = s +:+ (t +:+ u).
Proof. induction s as [|a s IH]; [done|]. change (String a ((s +:+ t) +:+ u) = String a (s +:+ (t +:+ u))). by rewrite IH. Qed.

Lemma append_nil_r (s : string) : s +:+ "" = s.
Proof. induction s as [|a s IH]; [done|]. change (String a (s +:+ "") = String a s). by rewrite IH. Qed.

Lemma append_cons a (s t : string) : String a s +:+ t = String a (s +:+ t).
Proof. done. Qed.

Lemma length_append (s t : string) : String.length (s +:+ t) = (String.length s + String.length t)%nat.
Proof. induction s as [|a s IH]; [done|]. rewrite append_cons. simpl. by rewrite IH. Qed.

Lemma has_char_app c s t : has_char c (s +:+ t) = has_char c s || has_char c t.
Proof. induction s as [|a s IH]; [done|]. rewrite append_cons. simpl. by rewrite IH, orb_assoc. Qed.

Lemma c_str_no_nul s : has_char NULC (c_str s) = false.
Proof. induction s as [|a s IH]; [done|]. simpl. destruct (Ascii.eqb a NULC) eqn:E; [done|]. simpl. by rewrite E. Qed.

Lemma c_str_id s : has_char NULC s = false -> c_str s = s.
Proof.
  induction s as [|a s IH]; [done|]. simpl. intros [E1 E2]%orb_false_elim. by rewrite E1, IH.
Qed.

Lemma take_str_app s t : take_str (String.length s) (s +:+ t) = s.
Proof. induction s as [|a s IH]; [done|]. rewrite append_cons. simpl. by rewrite IH. Qed.

Lemma get_app_last s a : String.get (String.length s) (s +:+ chr a) = Some a.
Proof. induction s as [|b s IH]; [done|]. rewrite append_cons. simpl. done. Qed.

Lemma fgets_chars_line n s rest :
  has_char NL s = false -> (String.length s < n)%nat ->
  fgets_chars n (s +:+ nl +:+ rest) = (s +:+ nl, rest, false).
Proof.
  revert s. induction n as [|n IH]; intros s Hs Hn; [lia|]. destruct s as [|a s]; [done|].
  simpl in Hs, Hn. apply orb_false_elim in Hs as [E1 E2]. rewrite append_cons. cbn [fgets_chars]. rewrite E1.
  rewrite IH by (done || lia). done.
Qed.

(** A line shorter than the buffer is read whole. *)
Lemma fgets_line size s rest :
  has_char NL s = false -> Z.of_nat (String.length s) < size - 1 ->
  fgets size (s +:+ nl +:+ rest) = (Some (s +:+ nl), rest, false).
Proof.
  intros Hs Hn. unfold fgets. rewrite fgets_chars_line by (done || lia).
  destruct s; done.
Qed.

(** ** Splitting a text *)
Fixpoint split_on (c : ascii) (s : string) : list string :=
  match s with
  | EmptyString => [""]
  | String a s' =>
      if Ascii.eqb a c then "" :: split_on c s'
      else match split_on c s' with p :: ps => String a p :: ps | [] => [] end
  end.
Lemma split_on_cons c s : exists p ps, split_on c s = p :: ps.
Proof.
  induction s as [|a s (p & ps & IH)]; simpl; [eauto|]. destruct (Ascii.eqb a c); [eauto|]. rewrite IH. eauto.
Qed.

Lemma split_on_app c a b : has_char c a = false -> split_on c (a +:+ chr c +:+ b) = a :: split_on c b.
Proof.
  induction a as [|x a IH]; intros Ha.
  - change ("" +:+ chr c +:+ b) with (String c b). cbn [split_on]. by rewrite Ascii.eqb_refl.
  - cbn [has_char] in Ha. apply orb_false_elim in Ha as [Hx Ha].
    rewrite append_cons. cbn [split_on]. rewrite Hx, (IH Ha). done.
Qed.

Lemma split_on_none c a : has_char c a = false -> split_on c a = [a].
Proof.
  induction a as [|x a IH]; intros Ha; [done|]. cbn [has_char] in Ha. apply orb_false_elim in Ha as [Hx Ha].
  cbn [split_on]. by rewrite Hx, (IH Ha).
Qed.
