(* ===== verification/FuncMap.v ===== *)
(** * The function map: utils/funcmap.cc and funcmap.h

    The numbering of the functions of a binary that the instrumenter passes to
    the probes.  A [FuncMap] is filled from the binary or from a cache file with
    one name per line; with [is_wrap] it also writes and compiles a C file of
    wrapper functions.  Methods run in the state [tstate * FuncMap]: the tools'
    world and the object. *)
From stdpp Require Import base gmap list strings pretty.
From Stdlib Require Import Ascii.
From S2P Require Import Prelude ToolBase.

Definition FUNCMAP_DIR : string := "/home/jiaru/lprofile/lprofile_cache/funcmap/".
Definition FUNCMAP_PREFIX : string := "LPROFILE_WRAP_".
Definition FUNC_NAME_MAX : Z := 256.
(** count.h *)
Definition FUNC_PRE : string := "lprobe_func_entry".
Definition FUNC_POST : string := "lprobe_func_exit".

Inductive cache_state : Type :=
| FUNCMAP_STATE_CACHED | FUNCMAP_STATE_UPDATE | FUNCMAP_STATE_ENOELF | FUNCMAP_STATE_ECACHE.
Inductive symbol_type : Type := FUNCMAP_SYMBOL_HOOK | FUNCMAP_SYMBOL_WRAP.
Inductive file_type : Type := FUNCMAP_FILE_SRC | FUNCMAP_FILE_LIB.

(** [fm_wrapper] is the path of the wrapper stream while it is open. *)
Record FuncMap : Type := mk_FuncMap {
  fm_elf_name : string;
  fm_elf_path : string;
  fm_obj : option bobject;
  fm_funcs : list string;
  fm_func_indices : gmap string Z;
  fm_wrapper : option string;
  fm_is_wrap : bool
}.

Definition fm_set_funcs (fm : FuncMap) (fs : list string) (ids : gmap string Z) : FuncMap :=
  mk_FuncMap (fm_elf_name fm) (fm_elf_path fm) (fm_obj fm) fs ids (fm_wrapper fm) (fm_is_wrap fm).
Definition fm_set_wrapper (fm : FuncMap) (w : option string) : FuncMap :=
  mk_FuncMap (fm_elf_name fm) (fm_elf_path fm) (fm_obj fm) (fm_funcs fm) (fm_func_indices fm) w (fm_is_wrap fm).

Abbreviation fstate := (tstate * FuncMap)%type.
#[global] Instance fstate_world : Embed fstate tstate := {| eget := fst; eput := fun t s => (t, s.2) |}.
#[global] Instance fstate_world_laws : EmbedLaws fstate tstate.
Proof. split; [by intros []|done]. Qed.

Definition initSkipList : M tstate unit := modify (fun s =>
  if bool_decide (ts_skiplist s = ∅)
  then ts_set_skiplist s {["_init"; "_fini"; "__popcountdi2"; "__do_global_dtors_aux"]}
  else s).

(** The three constructors; the second does not fill the skip list. *)
Definition FuncMap_named (name path : string) (wrap : bool) : M tstate FuncMap :=
  initSkipList ;; mret (mk_FuncMap name path None [] ∅ None wrap).
Definition base_name (path : string) : string :=
  match find_last_of "/" path with None => path | Some pos => drop_str (S pos) path end.
Definition FuncMap_path (path : string) (wrap : bool) : FuncMap :=
  mk_FuncMap (base_name path) path None [] ∅ None wrap.
Definition FuncMap_object (target : bobject) (wrap : bool) : M tstate FuncMap :=
  initSkipList ;; mret (mk_FuncMap (ob_name target) (ob_pathName target) (Some target) [] ∅ None wrap).

Definition FuncMap_destroy : M fstate unit :=
  '(_, fm) ← get ;
  match fm_wrapper fm with
  | Some _ => lift fclose ;; modify (fun s => (s.1, fm_set_wrapper s.2 None))
  | None => mret tt
  end.

Section Methods.
Context `{System} `{Dyninst}.

Definition cache_path (fm : FuncMap) : string := FUNCMAP_DIR +:+ fm_elf_name fm.

Definition checkState : M fstate cache_state :=
  '(_, fm) ← get ;
  r ← lift (stat (fm_elf_path fm)) ;
  match r with
  | StatErr _ => mret FUNCMAP_STATE_ENOELF
  | StatOk last_update _ =>
      r ← lift (stat (cache_path fm)) ;
      match r with
      | StatErr errno => mret (if errno =? ENOENT then FUNCMAP_STATE_UPDATE else FUNCMAP_STATE_ECACHE)
      | StatOk mtime size =>
          mret (if 0 <? last_update - mtime then FUNCMAP_STATE_UPDATE
                else if size =? 0 then FUNCMAP_STATE_UPDATE
                else FUNCMAP_STATE_CACHED)
      end
  end.

Definition addFunction (func : string) : M fstate Z :=
  '(t, fm) ← get ;
  let funcname := c_str func in
  if bool_decide (is_Some (fm_func_indices fm !! funcname)) then mret UINT_MAX else
  if bool_decide (funcname ∈ ts_skiplist t) then mret UINT_MAX else
  let index := u32 (Z.of_nat (length (fm_funcs fm))) in
  put (t, fm_set_funcs fm (fm_funcs fm ++ [funcname]) (<[funcname := index]> (fm_func_indices fm))) ;;
  mret index.

Definition getFunctionID (fm : FuncMap) (func : string) : Z :=
  default UINT_MAX (fm_func_indices fm !! func).

(** ** Wrapper source *)
Definition getWrapFilePath (elf : string) (type : file_type) : string :=
  FUNCMAP_DIR +:+ FUNCMAP_PREFIX +:+ elf +:+
  match type with FUNCMAP_FILE_SRC => ".c" | FUNCMAP_FILE_LIB => ".so" end.

Definition getWrapSymbolName (index : Z) (type : symbol_type) : string :=
  match type with
  | FUNCMAP_SYMBOL_HOOK => "LPROFILE_HOOK_func" +:+ dec index
  | FUNCMAP_SYMBOL_WRAP => "LPROFILE_WRAP_func" +:+ dec index
  end.

Fixpoint wrap_params (is_proto : bool) (i : Z) (n : nat) : string :=
  match n with
  | O => ""
  | S n' =>
      (if 0 <? i then ", " else "") +:+
      (if is_proto then "void *p" else "p") +:+ dec i +:+
      wrap_params is_proto (i + 1) n'
  end.
Definition generateWrapParam (is_proto : bool) (nb_params : Z) : string :=
  "(" +:+ wrap_params is_proto 0 (Z.to_nat nb_params) +:+ ")".

Definition generateWrapDef (index : Z) (type : symbol_type) (is_proto : bool) (nb_params : Z) (has_ret : bool) : string :=
  (if is_proto then if has_ret then "void *" else "void " else "") +:+
  getWrapSymbolName index type +:+ generateWrapParam is_proto nb_params.

Definition wrapper_header : string :=
  "#include <stdio.h>" +:+ nl +:+
  "void " +:+ FUNC_PRE +:+ "(unsigned int);" +:+ nl +:+
  "void " +:+ FUNC_POST +:+ "(unsigned int);" +:+ nl.

Definition has_return (func : bfunction) : bool :=
  match bf_returnType func with
  | None => false
  | Some BPatch_dataNullType => false
  | Some _ => true
  end.

Definition wrapper_text (func : bfunction) (index : Z) : string :=
  let has_ret := has_return func in
  let n := bf_nb_params func in
  generateWrapDef index FUNCMAP_SYMBOL_HOOK true n has_ret +:+ ";" +:+ nl +:+
  generateWrapDef index FUNCMAP_SYMBOL_WRAP true n has_ret +:+ " {" +:+ nl +:+
  (if has_ret then tab +:+ "void *ret;" +:+ nl else "") +:+
  tab +:+ FUNC_PRE +:+ "(" +:+ dec index +:+ ");" +:+ nl +:+
  (if has_ret then tab +:+ "ret = 0;" +:+ nl else "") +:+
  tab +:+ "fprintf(stdout, " +:+ dquote +:+ "wrap func" +:+ dec index +:+ " :" +:+ bf_name func +:+
    "\n" +:+ dquote +:+ ");" +:+ nl +:+
  tab +:+ FUNC_POST +:+ "(" +:+ dec index +:+ ");" +:+ nl +:+
  (if has_ret then tab +:+ "return ret;" +:+ nl else "") +:+
  "}" +:+ nl.

Definition generateWrapper (func : bfunction) (index : Z) : M fstate bool :=
  '(_, fm) ← get ;
  let wrap_file := getWrapFilePath (fm_elf_name fm) FUNCMAP_FILE_SRC in
  opened ← (match fm_wrapper fm with
            | Some _ => mret true
            | None =>
                ok ← lift (fopen_w wrap_file) ;
                if (ok : bool) then
                  modify (fun s : fstate => (s.1, fm_set_wrapper s.2 (Some wrap_file))) ;;
                  lift (fputs wrap_file wrapper_header) ;; mret true
                else mret false
            end) ;
  if (opened : bool) then
    lift (fputs (default wrap_file (fm_wrapper fm)) (c_str (wrapper_text func index))) ;; mret true
  else mret false.

Definition compileWrapper : M fstate bool :=
  '(_, fm) ← get ;
  match fm_wrapper fm with
  | None => mret true
  | Some _ =>
      lift fclose ;; modify (fun s : fstate => (s.1, fm_set_wrapper s.2 None)) ;;
      let srcfile := getWrapFilePath (fm_elf_name fm) FUNCMAP_FILE_SRC in
      let libfile := getWrapFilePath (fm_elf_name fm) FUNCMAP_FILE_LIB in
      let ret := sys_system ("gcc -g -o " +:+ libfile +:+ " -shared -fPIC " +:+ srcfile +:+ " -lprobe") in
      mret (ret =? 0)
  end.

(** ** The cache file *)

(** The loop of [loadFromCache] on the rest of the stream. *)
Fixpoint cache_loop (n : nat) (rest : string) : M fstate unit :=
  match n with
  | O => fail FFuel
  | S n' =>
      let '(line, rest', eof) := fgets FUNC_NAME_MAX rest in
      (match line with
       | None => mret tt
       | Some l =>
           let str := c_str l in
           if String.eqb str "" then fail FBounds        (* str[len - 1] with len = 0 *)
           else
             let len := String.length str in
             let str' := if bool_decide (String.get (len - 1) str = Some NL) then take_str (len - 1) str else str in
             addFunction str' ;; mret tt
       end) ;;
      if (eof : bool) then mret tt else cache_loop n' rest'
  end.

Definition loadFromCache : M fstate bool :=
  '(_, fm) ← get ;
  file ← lift (fopen_r (cache_path fm)) ;
  match file with
  | None => mret false
  | Some text => cache_loop (S (S (String.length text))) text ;; mret true
  end.

(** The loop of [buildDir] from [pos]. *)
Fixpoint dir_loop (n : nat) (path : string) (pos : nat) : M tstate bool :=
  match n with
  | O => fail FFuel
  | S n' =>
      match find_first_of "/" path pos with
      | None => mret true
      | Some O => dir_loop n' path 1
      | Some p =>
          let subpath := take_str p path in
          there ← access_f subpath ;
          made ← (if (there : bool) then mret true else mkdir subpath) ;
          if (made : bool) then dir_loop n' path (S p) else mret false
      end
  end.
Definition buildDir : M tstate bool := dir_loop (S (String.length FUNCMAP_DIR)) FUNCMAP_DIR 0.

Definition updateCache : M fstate bool :=
  '(_, fm) ← get ;
  ok ← lift buildDir ;
  if negb ok then mret false else
  let cachefile := cache_path fm in
  opened ← lift (fopen_w cachefile) ;
  if negb opened then mret false else
  forM (fm_funcs fm) (fun f => lift (fputs cachefile (c_str f +:+ nl))) ;;
  lift fclose ;;
  mret true.

(** ** Loading *)

(** One function of the list, and its wrapper; [false] ends the loading. *)
Definition load_function (func : bfunction) : M fstate bool :=
  func_idx ← addFunction (bf_name func) ;
  '(_, fm) ← get ;
  if fm_is_wrap fm && negb (func_idx =? UINT_MAX) then generateWrapper func func_idx else mret true.

Fixpoint load_functions (l : list bfunction) : M fstate bool :=
  match l with
  | [] => mret true
  | f :: l' => ok ← load_function f ; if (ok : bool) then load_functions l' else mret false
  end.

(** The module loop over an open object: the inner loop runs once per function of
    the module [i], but always takes its [i]-th function. *)
Fixpoint load_modules (i : nat) (mods : list (list bfunction)) : M fstate bool :=
  match mods with
  | [] => mret true
  | tmp_funcs :: mods' =>
      ok ← (match tmp_funcs with
            | [] => mret true
            | _ :: _ =>
                match tmp_funcs !! i with
                | Some f => load_functions (replicate (length tmp_funcs) f)
                | None => fail FBounds
                end
            end) ;
      if (ok : bool) then load_modules (S i) mods' else mret false
  end.

Definition loadFromELF : M fstate bool :=
  '(_, fm) ← get ;
  loaded ← (match fm_obj fm with
            | None =>
                match dy_procedures (fm_elf_path fm) with
                | None => mret false
                | Some None => mret false
                | Some (Some funclist) => load_functions funclist
                end
            | Some obj => load_modules 0 (dy_modules obj)
            end) ;
  if negb loaded then mret false else
  '(_, fm) ← get ;
  compiled ← (if fm_is_wrap fm && (0 <? Z.of_nat (length (fm_funcs fm))) then compileWrapper else mret true) ;
  if negb compiled then mret false else updateCache.

Definition load (force_update : bool) : M fstate bool :=
  if force_update then loadFromELF else
  state ← checkState ;
  match state with
  | FUNCMAP_STATE_CACHED => loadFromCache
  | FUNCMAP_STATE_UPDATE => loadFromELF
  | _ => mret false
  end.
End Methods.

(** ** The numbering *)

(** The map from names to positions of a list of names. *)
Fixpoint index_map (i : Z) (fs : list string) : gmap string Z :=
  match fs with
  | [] => ∅
  | f :: fs' => <[f := u32 i]> (index_map (i + 1) fs')
  end.

Lemma index_map_lookup fs i f n :
  NoDup fs -> index_map i fs !! f = Some n <-> exists k, fs !! k = Some f /\ n = u32 (i + Z.of_nat k).
Proof.
  intros HN. revert i. induction HN as [|g fs Hg HN IH]; intros i; simpl.
  { rewrite lookup_empty. split; [done|]. by intros (k & ? & _). }
  destruct (decide (f = g)) as [->|Hne].
  - rewrite lookup_insert_eq. split.
    + intros [= <-]. exists O. by rewrite Z.add_0_r.
    + intros ([|k] & Hk & ->); simpl in Hk; [by rewrite Z.add_0_r|]. apply list_elem_of_lookup_2 in Hk. done.
  - rewrite lookup_insert_ne, IH by done. split.
    + intros (k & Hk & ->). exists (S k). split; [done|]. f_equal. lia.
    + intros ([|k] & Hk & ->); simpl in Hk; [congruence|]. exists k. split; [done|]. f_equal. lia.
Qed.

Lemma index_map_snoc fs i f :
  f ∉ fs -> index_map i (fs ++ [f]) = <[f := u32 (i + Z.of_nat (length fs))]> (index_map i fs).
Proof.
  revert i. induction fs as [|g fs IH]; intros i Hf; simpl; [by rewrite Z.add_0_r|].
  rewrite IH by set_solver. rewrite insert_insert_ne by set_solver.
  replace (i + 1 + Z.of_nat (length fs)) with (i + Z.of_nat (S (length fs))) by lia. done.
Qed.

Lemma index_map_None fs i f : index_map i fs !! f = None <-> f ∉ fs.
Proof.
  revert i. induction fs as [|g fs IH]; intros i; simpl; [rewrite lookup_empty; set_solver|].
  destruct (decide (f = g)) as [->|]; [rewrite lookup_insert_eq|rewrite lookup_insert_ne, IH by done]; set_solver.
Qed.

(** The names are distinct and the index of each is its position. *)
Definition fm_ok (fm : FuncMap) : Prop :=
  NoDup (fm_funcs fm) /\ fm_func_indices fm = index_map 0 (fm_funcs fm).

(** The list after a name is offered to it. *)
Definition add_name (skip : gset string) (fs : list string) (f : string) : list string :=
  if bool_decide (f ∈ fs) || bool_decide (f ∈ skip) then fs else fs ++ [f].
Definition fm_with (fm : FuncMap) (fs : list string) : FuncMap := fm_set_funcs fm fs (index_map 0 fs).

Lemma addFunction_run t fm f :
  fm_ok fm ->
  let f' := c_str f in let fs := add_name (ts_skiplist t) (fm_funcs fm) f' in
  addFunction f (t, fm) =
    Ret (if bool_decide (f' ∈ fm_funcs fm) || bool_decide (f' ∈ ts_skiplist t) then UINT_MAX
         else u32 (Z.of_nat (length (fm_funcs fm))), (t, fm_with fm fs)) /\ fm_ok (fm_with fm fs).
Proof.
  intros [HN HI] f' fs. unfold addFunction. erewrite bind_ret by reflexivity. cbv zeta. fold f'.
  assert (fm_with fm (fm_funcs fm) = fm) as Hid by (unfold fm_with; rewrite <- HI; by destruct fm).
  unfold fs, add_name.
  destruct (bool_decide_reflect (f' ∈ fm_funcs fm)) as [Hin|Hin]; simpl.
  - rewrite bool_decide_true, Hid; [done|].
    rewrite HI. destruct (index_map 0 (fm_funcs fm) !! f') eqn:E; [done|]. by apply index_map_None in E.
  - rewrite bool_decide_false by (rewrite HI; intros [i Hi]; by rewrite (proj2 (index_map_None _ 0 _)) in Hi).
    destruct (bool_decide_reflect (f' ∈ ts_skiplist t)) as [Hs|Hs]; simpl; [by rewrite Hid|].
    split.
    + unfold put, mbind, M_bind, mret, M_ret. rewrite HI. unfold fm_with. by rewrite index_map_snoc.
    + split; [|done]. simpl. apply NoDup_app. split_and!; [done| |apply NoDup_singleton]. set_solver.
Qed.

(** The list after a sequence of names is offered to it. *)
Definition add_names (skip : gset string) (fs names : list string) : list string := foldl (add_name skip) fs names.

Lemma add_names_NoDup skip fs names : NoDup fs -> NoDup (add_names skip fs names).
Proof.
  revert fs. induction names as [|f names IH]; intros fs HN; [done|]. apply IH. unfold add_name.
  case_bool_decide; [done|]. case_bool_decide; [done|]. simpl.
  apply NoDup_app. split_and!; [done|set_solver|apply NoDup_singleton].
Qed.

(** Distinct names outside the skip list are all kept, in order. *)
Lemma add_names_fresh skip fs names :
  NoDup (fs ++ names) -> Forall (fun f => f ∉ skip) names -> add_names skip fs names = fs ++ names.
Proof.
  revert fs. induction names as [|f names IH]; intros fs HN HF; simpl; [by rewrite app_nil_r|].
  inversion HF as [|? ? Hf HF']; subst.
  assert (add_name skip fs f = fs ++ [f]) as ->.
  { unfold add_name. rewrite !bool_decide_false; [done|done|]. apply NoDup_app in HN. set_solver. }
  rewrite IH; [by rewrite <- app_assoc| |done]. by rewrite <- app_assoc.
Qed.

(** The reference: the first occurrences of the names that are not skipped. *)
Fixpoint first_occurrences (l : list string) : list string :=
  match l with
  | [] => []
  | f :: l' => f :: filter (fun g => g <> f) (first_occurrences l')
  end.

Lemma add_names_reference skip fs names :
  add_names skip fs names =
  fs ++ filter (fun f => f ∉ fs) (first_occurrences (filter (fun f => f ∉ skip) names)).
Proof.
  revert fs. induction names as [|f names IH]; intros fs; simpl; [by rewrite app_nil_r|].
  rewrite IH, filter_cons. unfold add_name.
  destruct (bool_decide_reflect (f ∈ fs)) as [Hf|Hf]; simpl.
  - f_equal. destruct (decide (f ∉ skip)); [|done]. simpl. rewrite filter_cons, decide_False by tauto.
    rewrite list_filter_filter. apply list_filter_iff. intros x. split; [|tauto]. intros Hx. split; [done|]. congruence.
  - destruct (bool_decide_reflect (f ∈ skip)) as [Hs|Hs].
    + by rewrite decide_False by tauto.
    + rewrite decide_True by done. simpl. rewrite filter_cons, decide_True by done. rewrite <- app_assoc. simpl.
      do 2 f_equal. rewrite list_filter_filter. apply list_filter_iff. intros x. set_solver.
Qed.

(** ** Reading a binary *)
Section Loading.
Context `{Sy : System} `{Dy : Dyninst}.

Definition bf_names (l : list bfunction) : list string := map (fun f => c_str (bf_name f)) l.

Lemma fm_with_with fm fs fs' : fm_with (fm_with fm fs) fs' = fm_with fm fs'.
Proof. done. Qed.

Lemma load_functions_run l t fm :
  fm_ok fm -> fm_is_wrap fm = false ->
  load_functions l (t, fm) = Ret (true, (t, fm_with fm (add_names (ts_skiplist t) (fm_funcs fm) (bf_names l)))) /\
  fm_ok (fm_with fm (add_names (ts_skiplist t) (fm_funcs fm) (bf_names l))).
Proof.
  revert fm. induction l as [|f l IH]; intros fm Hok Hw; simpl.
  { destruct Hok as [HN HI]. unfold fm_with. rewrite <- HI. by destruct fm. }
  destruct (addFunction_run t fm (bf_name f) Hok) as [E Hok'].
  destruct (IH _ Hok' Hw) as [E' Hok'']. split; [|done].
  unfold load_function. erewrite bind_ret.
  2:{ rewrite (bind_ret _ _ _ _ _ E). erewrite bind_ret by reflexivity. simpl. rewrite Hw. reflexivity. }
  exact E'.
Qed.

(** The wrapper functions of the names that are new, with their indices. *)
Fixpoint wrap_source (skip : gset string) (fs : list string) (l : list bfunction) : string :=
  match l with
  | [] => ""
  | f :: l' =>
      let n := c_str (bf_name f) in
      if bool_decide (n ∈ fs) || bool_decide (n ∈ skip) then wrap_source skip fs l'
      else c_str (wrapper_text f (u32 (Z.of_nat (length fs)))) +:+ wrap_source skip (fs ++ [n]) l'
  end.

(** Loading with the wrapper stream [w] open: the text is appended to it. *)
Lemma load_wrapped_run l t fm w x :
  fm_ok fm -> fm_is_wrap fm = true -> fm_wrapper fm = Some w ->
  ts_files t !! w = Some (mk_file x (ts_now t)) ->
  Z.of_nat (length (fm_funcs fm) + length l) < UINT_MAX ->
  load_functions l (t, fm) =
    Ret (true, (ts_set_files t (<[w := mk_file (x +:+ wrap_source (ts_skiplist t) (fm_funcs fm) l) (ts_now t)]> (ts_files t)),
      fm_with fm (add_names (ts_skiplist t) (fm_funcs fm) (bf_names l)))).
Proof.
  revert t fm x. induction l as [|f l IH]; intros t fm x Hok Hw Hopen Hx Hlen; simpl.
  { rewrite append_nil_r, insert_id by done. destruct Hok as [_ HI]. unfold fm_with. rewrite <- HI. by destruct t, fm. }
  destruct (addFunction_run t fm (bf_name f) Hok) as [E Hok'].
  set (n := c_str (bf_name f)) in *. set (fm' := fm_with fm (add_name (ts_skiplist t) (fm_funcs fm) n)) in *.
  simpl in Hlen.
  destruct (bool_decide (n ∈ fm_funcs fm) || bool_decide (n ∈ ts_skiplist t)) eqn:Eold.
  - assert (fm_funcs fm' = fm_funcs fm) as Hsame by (simpl; unfold add_name; by rewrite Eold).
    erewrite bind_ret.
    2:{ unfold load_function. rewrite (bind_ret _ _ _ _ _ E). erewrite bind_ret by reflexivity.
        rewrite Z.eqb_refl, andb_false_r. reflexivity. }
    cbv iota beta. rewrite (IH t fm' x) by (done || rewrite Hsame; lia). rewrite Hsame. unfold fm'. rewrite fm_with_with.
    change (add_name (ts_skiplist t) (fm_funcs fm) n) with (fm_funcs fm'). by rewrite Hsame.
  - assert (fm_funcs fm' = fm_funcs fm ++ [n]) as Hnew by (simpl; unfold add_name; by rewrite Eold).
    set (i := u32 (Z.of_nat (length (fm_funcs fm)))) in *.
    assert (i <> UINT_MAX) as Hi by (unfold i, UINT_MAX in *; rewrite uwrap_id; unfold urange; lia).
    set (t1 := ts_set_files t (<[w := mk_file (x +:+ c_str (wrapper_text f i)) (ts_now t)]> (ts_files t))).
    erewrite bind_ret.
    2:{ unfold load_function. rewrite (bind_ret _ _ _ _ _ E). erewrite bind_ret by reflexivity.
        cbv iota beta. change (fm_is_wrap fm') with (fm_is_wrap fm). rewrite Hw, (proj2 (Z.eqb_neq _ _) Hi). cbn [andb negb].
        unfold generateWrapper. erewrite bind_ret by reflexivity. cbv iota beta zeta.
        change (fm_wrapper fm') with (fm_wrapper fm). rewrite Hopen. erewrite bind_ret by reflexivity. cbv iota beta.
        erewrite bind_ret by reflexivity. reflexivity. }
    cbv iota beta. simpl default. rewrite Hx. simpl default.
    match goal with |- load_functions l ?s = _ => change s with (t1, fm') end.
    rewrite (IH t1 fm' (x +:+ c_str (wrapper_text f i))); try done.
    + rewrite Hnew, <- append_assoc. unfold t1. simpl. rewrite insert_insert_eq. do 4 f_equal.
      by rewrite <- Hnew.
    + simpl. by rewrite lookup_insert_eq.
    + rewrite Hnew, length_app. simpl. lia.
Qed.
End Loading.

(** ** The cache directory *)
Section Cache.
Context `{Sy : System} `{Dy : Dyninst}.

(** Creating a chain of directories. *)
Fixpoint build_dirs (l : list string) : M tstate bool :=
  match l with
  | [] => mret true
  | d :: l' =>
      there ← access_f d ;
      made ← (if (there : bool) then mret true else mkdir d) ;
      if (made : bool) then build_dirs l' else mret false
  end.

Definition dir_prefixes : list string :=
  ["/home"; "/home/jiaru"; "/home/jiaru/lprofile"; "/home/jiaru/lprofile/lprofile_cache";
   "/home/jiaru/lprofile/lprofile_cache/funcmap"].

Lemma buildDir_chain s : buildDir s = build_dirs dir_prefixes s.
Proof. reflexivity. Qed.

Fixpoint is_chain (prev : string) (l : list string) : Prop :=
  match l with
  | [] => True
  | d :: l' => parent d = prev /\ is_chain d l'
  end.

Lemma set_dirs_id s : ts_set_dirs s (ts_dirs s) = s.
Proof. by destruct s. Qed.

Lemma build_dirs_run l prev s :
  is_chain prev l -> (prev = "" \/ prev ∈ ts_dirs s) ->
  (forall d, d ∈ l -> sys_mkdir d = true /\ ts_files s !! d = None) ->
  build_dirs l s = Ret (true, ts_set_dirs s (list_to_set l ∪ ts_dirs s)).
Proof.
  revert prev s. induction l as [|d l IH]; intros prev s Hc Hp Hl; simpl.
  { by rewrite (left_id_L ∅ (∪)), set_dirs_id. }
  destruct Hc as [Hpar Hc]. destruct (Hl d) as [Hmk Hfile]; [by left|].
  erewrite bind_ret by reflexivity. rewrite Hfile.
  rewrite (bool_decide_false (is_Some None)) by (by intros []). rewrite orb_false_r.
  destruct (bool_decide_reflect (d ∈ ts_dirs s)) as [Hd|Hd].
  - erewrite bind_ret by reflexivity. cbv iota beta.
    rewrite (IH d s Hc (or_intror Hd)) by (intros x Hx; apply Hl; by right).
    do 3 f_equal. set_solver.
  - erewrite bind_ret.
    2:{ unfold mkdir. rewrite Hmk, Hpar. assert ((prev =? "")%string || bool_decide (prev ∈ ts_dirs s) = true) as ->; [|reflexivity].
        destruct Hp as [->|Hp]; [done|]. by rewrite (bool_decide_true _ Hp), orb_true_r. }
    cbv iota beta. rewrite (IH d); [|done|right; simpl; set_solver|intros x Hx; apply Hl; by right].
    simpl. unfold ts_set_dirs. simpl. do 3 f_equal. set_solver.
Qed.

(** What the code needs of the file system to store a cache. *)
Definition dirs_creatable (s : tstate) : Prop :=
  forall d, d ∈ dir_prefixes -> sys_mkdir d = true /\ ts_files s !! d = None.

Lemma buildDir_run s :
  dirs_creatable s -> buildDir s = Ret (true, ts_set_dirs s (list_to_set dir_prefixes ∪ ts_dirs s)).
Proof. intros H. rewrite buildDir_chain. apply (build_dirs_run _ ""); [done|by left|done]. Qed.

(** ** Writing the cache *)
Definition cache_text (fs : list string) : string := concat_str (map (fun f => c_str f +:+ nl) fs).

Lemma put_lines_run fs p x t fm :
  ts_files t !! p = Some (mk_file x (ts_now t)) ->
  forM fs (fun f => lift (fputs p (c_str f +:+ nl))) (t, fm) =
    Ret (tt, (ts_set_files t (<[p := mk_file (x +:+ cache_text fs) (ts_now t)]> (ts_files t)), fm)).
Proof.
  revert t x. induction fs as [|f fs IH]; intros t x Hx; simpl.
  { rewrite append_nil_r, insert_id by done. by destruct t. }
  set (t1 := ts_set_files t (<[p := mk_file (x +:+ (c_str f +:+ nl)) (ts_now t)]> (ts_files t))).
  assert (lift (fputs p (c_str f +:+ nl)) (t, fm) = Ret (tt, (t1, fm))) as E1.
  { unfold lift, fputs, modify. simpl. by rewrite Hx. }
  rewrite (bind_ret _ _ _ _ _ E1), (IH t1 (x +:+ (c_str f +:+ nl))); [|by simpl; rewrite lookup_insert_eq].
  unfold t1, ts_set_files. cbn [ts_files ts_now]. rewrite insert_insert_eq, append_assoc. done.
Qed.

(** The directory part of the cache's path. *)
Lemma find_last_of_none c s : has_char c s = false -> find_last_of c s = None.
Proof. induction s as [|a s IH]; [done|]. simpl. intros [E1 E2]%orb_false_elim. by rewrite IH, E1. Qed.

Lemma find_last_of_app c s t : has_char c t = false -> find_last_of c (s +:+ chr c +:+ t) = Some (String.length s).
Proof.
  intros Ht. induction s as [|a s IH]; [|rewrite append_cons; simpl; by rewrite IH].
  change (find_last_of c (String c t) = Some O). simpl. by rewrite (find_last_of_none _ _ Ht), Ascii.eqb_refl.
Qed.

(** The name of a map made from a path has no slash. *)
Lemma drop_last_slash s k : find_last_of "/" s = Some k -> has_char "/" (drop_str (S k) s) = false.
Proof.
  revert k. induction s as [|a s IH]; [done|]. intros k. cbn [find_last_of].
  destruct (find_last_of "/" s) as [j|] eqn:E; [intros [= <-]; exact (IH j eq_refl)|].
  destruct (Ascii.eqb a "/"); [|done]. intros [= <-]. cbn [drop_str]. clear IH.
  induction s as [|b s IH]; [done|]. cbn [find_last_of has_char] in *.
  destruct (find_last_of "/" s); [done|]. destruct (Ascii.eqb b "/"); [done|]. by apply IH.
Qed.

Lemma base_name_plain path : has_char "/" (base_name path) = false.
Proof.
  unfold base_name. destruct (find_last_of "/" path) as [k|] eqn:E; [by apply drop_last_slash|].
  induction path as [|a s IH]; [done|]. cbn [find_last_of has_char] in *.
  destruct (find_last_of "/" s); [done|]. destruct (Ascii.eqb a "/"); [done|]. by apply IH.
Qed.

Lemma cache_parent fm : has_char "/" (fm_elf_name fm) = false ->
  parent (cache_path fm) = "/home/jiaru/lprofile/lprofile_cache/funcmap".
Proof.
  intros Hn. unfold parent, cache_path.
  change FUNCMAP_DIR with ("/home/jiaru/lprofile/lprofile_cache/funcmap" +:+ chr "/").
  rewrite append_assoc, find_last_of_app by done. apply take_str_app.
Qed.

Lemma updateCache_run t fm :
  dirs_creatable t -> has_char "/" (fm_elf_name fm) = false -> sys_fopen (cache_path fm) = true ->
  updateCache (t, fm) = Ret (true,
    (ts_set_files (ts_set_dirs t (list_to_set dir_prefixes ∪ ts_dirs t))
       (<[cache_path fm := mk_file (cache_text (fm_funcs fm)) (ts_now t)]> (ts_files t)), fm)).
Proof.
  intros Hd Hn Hf. unfold updateCache. erewrite bind_ret by reflexivity. cbv iota beta.
  erewrite bind_ret by (unfold lift; simpl eget; rewrite (buildDir_run t Hd); reflexivity).
  cbn [negb]. cbv iota zeta. simpl eput. set (t1 := ts_set_dirs t _).
  set (t2 := ts_set_files t1 (<[cache_path fm := mk_file "" (ts_now t)]> (ts_files t))).
  erewrite bind_ret.
  2:{ unfold lift, fopen_w. simpl eget. rewrite Hf, (cache_parent fm Hn). cbn [andb].
      rewrite (bool_decide_true (_ ∈ ts_dirs t1)) by (unfold t1; simpl; set_solver).
      rewrite orb_true_r. reflexivity. }
  cbn [negb]. cbv iota. change (eput _ _) with (ts_add_streams t2 1, fm).
  erewrite bind_ret by (apply (put_lines_run _ _ ""); simpl; by rewrite lookup_insert_eq).
  erewrite bind_ret by reflexivity. unfold mret, M_ret. simpl. unfold ts_add_streams, ts_set_files. simpl.
  do 4 f_equal; [by rewrite insert_insert_eq|lia].
Qed.

(** ** Reading the cache *)

(** Names that fit on a line of the cache and in the buffer it is read with. *)
Definition line_name (f : string) : Prop :=
  has_char NL f = false /\ has_char NULC f = false /\ Z.of_nat (String.length f) < FUNC_NAME_MAX - 1.

Lemma cache_loop_run n names t fm :
  fm_ok fm -> Forall line_name names -> (length names < n)%nat ->
  cache_loop n (cache_text names) (t, fm) =
    Ret (tt, (t, fm_with fm (add_names (ts_skiplist t) (fm_funcs fm) names))).
Proof.
  revert n fm. induction names as [|f names IH]; intros [|n] fm Hok HF Hn; simpl in Hn; try lia.
  { simpl. destruct Hok as [_ HI]. unfold fm_with. rewrite <- HI. by destruct fm. }
  inversion HF as [|? ? (H1 & H2 & H3) HF']; subst.
  cbn [cache_text map concat_str cache_loop]. rewrite (c_str_id f H2), append_assoc, fgets_line by done.
  fold (cache_text names). cbv iota.
  rewrite (c_str_id (f +:+ nl)) by (rewrite has_char_app, H2; done).
  rewrite (proj2 (String.eqb_neq _ _)) by (by destruct f).
  rewrite length_append. replace (String.length f + String.length nl - 1)%nat with (String.length f) by (simpl; lia).
  rewrite bool_decide_true by apply get_app_last. rewrite take_str_app.
  destruct (addFunction_run t fm f Hok) as [E Hok']. rewrite (c_str_id f H2) in *.
  erewrite bind_ret by (rewrite (bind_ret _ _ _ _ _ E); reflexivity).
  rewrite (IH n _ Hok' HF') by lia. done.
Qed.

Lemma cache_text_length names : (length names <= String.length (cache_text names))%nat.
Proof.
  induction names as [|f names IH]; [done|]. cbn [cache_text map concat_str]. fold (cache_text names).
  rewrite !length_append. simpl. lia.
Qed.

(** A cache file written from distinct names outside the skip list is read back
    as the same map; the stream stays open. *)
Lemma loadFromCache_run t fm names mt :
  ts_files t !! cache_path fm = Some (mk_file (cache_text names) mt) -> sys_fopen (cache_path fm) = true ->
  fm_funcs fm = [] -> fm_func_indices fm = ∅ -> NoDup names -> Forall line_name names ->
  Forall (fun f => f ∉ ts_skiplist t) names ->
  loadFromCache (t, fm) = Ret (true, (ts_add_streams t 1, fm_with fm names)).
Proof.
  intros Hf Hop H0 Hi HN HF HS. unfold loadFromCache. erewrite bind_ret by reflexivity. cbv iota beta.
  erewrite bind_ret by (unfold lift, fopen_r; simpl eget; rewrite Hf, Hop; reflexivity).
  cbv iota. simpl f_text. simpl eput.
  erewrite bind_ret.
  2:{ apply cache_loop_run; [|done|pose proof (cache_text_length names); lia].
      split; rewrite H0; [apply NoDup_nil_2|exact Hi]. }
  simpl. rewrite H0, add_names_fresh by done. done.
Qed.

Lemma checkState_cached t fm mt text mc :
  sys_stat_err (fm_elf_path fm) = None -> sys_stat_err (cache_path fm) = None ->
  f_mtime <$> ts_files t !! fm_elf_path fm = Some mt -> ts_files t !! cache_path fm = Some (mk_file text mc) ->
  mt <= mc -> text <> "" ->
  checkState (t, fm) = Ret (FUNCMAP_STATE_CACHED, (t, fm)).
Proof.
  intros H1 H2 H3 H4 Hle Hne. unfold checkState. erewrite bind_ret by reflexivity. cbv iota beta.
  destruct (ts_files t !! fm_elf_path fm) as [fe|] eqn:E; [|done]. injection H3 as <-.
  erewrite bind_ret by (unfold lift, stat; simpl eget; rewrite H1, E; reflexivity). cbv iota.
  erewrite bind_ret by (unfold lift, stat; simpl eget; rewrite H2, H4; reflexivity). cbv iota.
  rewrite (proj2 (Z.ltb_ge _ _)) by (simpl; lia). rewrite (proj2 (Z.eqb_neq _ _)); [done|].
  destruct text; [done|]. simpl. lia.
Qed.
End Cache.

(** ** The theorems *)
Section Theorems.
Context `{Sy : System} `{Dy : Dyninst}.

Abbreviation numbered := (fun s : fstate => fm_ok s.2).

Lemma keeps_addFunction f : keeps numbered (addFunction f).
Proof.
  intros [t fm] i s' Hok. destruct (addFunction_run t fm f Hok) as [-> Hok']. by intros [= <- <-].
Qed.

Lemma fm_ok_set_wrapper fm w : fm_ok fm -> fm_ok (fm_set_wrapper fm w).
Proof. done. Qed.
Hint Resolve keeps_addFunction fm_ok_set_wrapper : lprofile.

Lemma keeps_generateWrapper f i : keeps numbered (generateWrapper f i).
Proof. unfold generateWrapper. repeat (keeps_step || by intros). Qed.
Lemma keeps_compileWrapper : keeps numbered compileWrapper.
Proof. unfold compileWrapper. repeat (keeps_step || by intros). Qed.
Hint Resolve keeps_generateWrapper keeps_compileWrapper : lprofile.

Lemma keeps_load_functions l : keeps numbered (load_functions l).
Proof. induction l; simpl; unfold load_function; repeat (keeps_step || by intros). Qed.
Hint Resolve keeps_load_functions : lprofile.

Lemma keeps_load_modules i mods : keeps numbered (load_modules i mods).
Proof. revert i. induction mods; intros i; simpl; repeat (keeps_step || by intros). Qed.
Hint Resolve keeps_load_modules : lprofile.

Lemma keeps_cache_loop n rest : keeps numbered (cache_loop n rest).
Proof.
  revert rest. induction n; intros rest; simpl; [auto with lprofile|].
  destruct (fgets FUNC_NAME_MAX rest) as [[line rest'] eof]. repeat (keeps_step || by intros).
Qed.
Hint Resolve keeps_cache_loop : lprofile.

Lemma keeps_load b : keeps numbered (load b).
Proof.
  unfold load, loadFromELF, loadFromCache, updateCache, checkState.
  repeat (keeps_step || by intros).
Qed.

(** C9: whatever a load does (from the cache or from the binary, forced or
    not, successful or not), a map in which the names are distinct and numbered
    by position stays one, and then getFunctionID is the inverse of the
    numbering: it returns [k] exactly for the name at position [k], and
    UINT_MAX exactly for names that are not in the map. *)
Theorem funcmap_numbering b t fm r t' fm' :
  fm_ok fm -> load b (t, fm) = Ret (r, (t', fm')) ->
  fm_ok fm' /\
  (Z.of_nat (length (fm_funcs fm')) <= UINT_MAX ->
   forall f, match getFunctionID fm' f with
     | i => (i = UINT_MAX <-> f ∉ fm_funcs fm') /\
            (i <> UINT_MAX -> 0 <= i /\ fm_funcs fm' !! Z.to_nat i = Some f)
     end).
Proof.
  intros Hok E. pose proof (keeps_load b (t, fm) r (t', fm') Hok E) as [HN HI]. simpl in HN, HI. split; [done|].
  intros Hlen f. unfold getFunctionID. rewrite HI. unfold UINT_MAX in *.
  destruct (index_map 0 (fm_funcs fm') !! f) as [n|] eqn:En; simpl.
  - apply index_map_lookup in En as (k & Hk & ->); [|done]. pose proof (lookup_lt_Some _ _ _ Hk).
    rewrite uwrap_id by (unfold urange; lia). rewrite Z.add_0_l, Nat2Z.id. split.
    + split; [lia|]. intros []. by eapply list_elem_of_lookup_2.
    + intros _. split; [lia|done].
  - apply index_map_None in En. split; [done|]. by intros [].
Qed.

Lemma load_elf_run t path l :
  dy_procedures path = Some (Some l) -> dirs_creatable t ->
  let fm := FuncMap_path path false in
  sys_fopen (cache_path fm) = true ->
  let fs := first_occurrences (filter (fun f => f ∉ ts_skiplist t) (bf_names l)) in
  load true (t, fm) = Ret (true,
    (ts_set_files (ts_set_dirs t (list_to_set dir_prefixes ∪ ts_dirs t))
       (<[cache_path fm := mk_file (cache_text fs) (ts_now t)]> (ts_files t)), fm_with fm fs)).
Proof.
  intros Hl Hd fm Hf fs. unfold load, loadFromELF. erewrite bind_ret by reflexivity. cbv iota beta.
  simpl fm_obj. simpl fm_elf_path. rewrite Hl.
  destruct (load_functions_run l t fm ltac:(split; [apply NoDup_nil_2|done]) eq_refl) as [E _].
  rewrite (bind_ret _ _ _ _ _ E). cbn [negb]. cbv iota. erewrite bind_ret by reflexivity. cbv iota beta.
  erewrite bind_ret by reflexivity. cbn [negb]. cbv iota.
  rewrite updateCache_run by (done || apply base_name_plain).
  assert (add_names (ts_skiplist t) (fm_funcs fm) (bf_names l) = fs) as ->; [|done].
  rewrite add_names_reference. simpl. apply filter_all. apply Forall_forall. set_solver.
Qed.

Lemma first_occurrences_elem k f : f ∈ first_occurrences k -> f ∈ k.
Proof.
  induction k as [|g k IH]; [done|]. simpl. rewrite !elem_of_cons, list_elem_of_filter. tauto.
Qed.

Lemma first_occurrences_NoDup k : NoDup (first_occurrences k).
Proof.
  induction k as [|g k IH]; simpl; constructor; [rewrite list_elem_of_filter; tauto|]. by apply NoDup_filter.
Qed.

(** C8: reading a binary into a new map numbers the first occurrences of its
    function names that are not on the skip list, in the order Dyninst lists
    them, and leaves exactly these names, one per line, in the cache file; the
    needed directories are created whatever part of them existed. *)
Theorem load_binary_reference t path l :
  dy_procedures path = Some (Some l) -> dirs_creatable t ->
  let fm := FuncMap_path path false in
  sys_fopen (cache_path fm) = true ->
  let fs := first_occurrences (filter (fun f => f ∉ ts_skiplist t) (bf_names l)) in
  exists t', load true (t, fm) = Ret (true, (t', fm_with fm fs)) /\ NoDup fs /\
    (forall f, f ∈ fs <-> f ∈ bf_names l /\ f ∉ ts_skiplist t) /\
    ts_files t' = <[cache_path fm := mk_file (cache_text fs) (ts_now t)]> (ts_files t) /\
    (forall d, d ∈ dir_prefixes -> d ∈ ts_dirs t') /\ ts_streams t' = ts_streams t.
Proof.
  intros Hl Hd fm Hf fs. eexists. split; [exact (load_elf_run t path l Hl Hd Hf)|].
  split_and!; [apply first_occurrences_NoDup| |done|simpl; set_solver|done].
  intros f. unfold fs. generalize (bf_names l). intros k. split.
  - intros [? ?]%first_occurrences_elem%list_elem_of_filter. done.
  - intros [Hk Hs]. induction k as [|g k IH]; [set_solver|]. rewrite filter_cons.
    apply elem_of_cons in Hk as [<-|Hk]; [rewrite decide_True by done; by left|].
    destruct (decide (g ∉ ts_skiplist t)); [|auto]. simpl. destruct (decide (f = g)) as [->|]; [by left|].
    right. apply list_elem_of_filter. auto.
Qed.

(** C3: the cache is transparent.  Once a map has been read from a binary, a
    new map for the same path, loaded without forcing while the binary is not
    newer than the cache, is taken from the cache and equals the first map: the
    same names with the same numbers.  It needs names that fit on a line and in
    the 256-byte buffer; the stream of the cache file is never closed. *)
Theorem cache_transparent t path l t1 fm1 mt :
  dy_procedures path = Some (Some l) -> dirs_creatable t ->
  let fm := FuncMap_path path false in
  sys_fopen (cache_path fm) = true ->
  sys_stat_err path = None -> sys_stat_err (cache_path fm) = None ->
  path <> cache_path fm -> f_mtime <$> ts_files t !! path = Some mt -> mt <= ts_now t ->
  load true (t, fm) = Ret (true, (t1, fm1)) -> fm_funcs fm1 <> [] -> Forall line_name (fm_funcs fm1) ->
  load false (t1, fm) = Ret (true, (ts_add_streams t1 1, fm1)).
Proof.
  intros Hl Hd fm Hf Hs1 Hs2 Hpc Hmt Hle E Hne HF.
  pose proof (load_elf_run t path l Hl Hd Hf) as E'. cbv zeta in E'. fold fm in E'. rewrite E' in E. clear E'.
  set (fs := first_occurrences (filter (fun f => f ∉ ts_skiplist t) (bf_names l))) in *.
  injection E as <- <-. change (fm_funcs (fm_with fm fs)) with fs in *.
  set (t1 := ts_set_files _ _).
  assert (checkState (t1, fm) = Ret (FUNCMAP_STATE_CACHED, (t1, fm))) as EC.
  { apply (checkState_cached t1 fm mt (cache_text fs) (ts_now t)); try done.
    - simpl. by rewrite lookup_insert_ne.
    - simpl. by rewrite lookup_insert_eq.
    - destruct fs as [|f fs']; [done|]. cbn [cache_text map concat_str]. by destruct (c_str f). }
  unfold load. rewrite (bind_ret _ _ _ _ _ EC).
  rewrite (loadFromCache_run t1 fm fs (ts_now t)); try done.
  - simpl. by rewrite lookup_insert_eq.
  - apply first_occurrences_NoDup.
  - apply Forall_forall. intros f Hin%first_occurrences_elem%list_elem_of_filter. apply Hin.
Qed.
End Theorems.

(** ** Wrappers *)
Section Wrappers.
Context `{Sy : System} `{Dy : Dyninst}.

Definition wrap_path (fm : FuncMap) : string := getWrapFilePath (fm_elf_name fm) FUNCMAP_FILE_SRC.
(** The wrapper file can be created. *)
Definition wrap_writable (t : tstate) (fm : FuncMap) : bool :=
  sys_fopen (wrap_path fm) &&
  ((parent (wrap_path fm) =? "")%string || bool_decide (parent (wrap_path fm) ∈ ts_dirs t)).

(** Offering a name that is known or skipped does nothing. *)
Lemma load_function_old f t fm :
  fm_ok fm -> bool_decide (c_str (bf_name f) ∈ fm_funcs fm) || bool_decide (c_str (bf_name f) ∈ ts_skiplist t) = true ->
  load_function f (t, fm) = Ret (true, (t, fm)).
Proof.
  intros Hok Eold. destruct (addFunction_run t fm (bf_name f) Hok) as [E _]. unfold add_name in E. rewrite Eold in E.
  unfold load_function. rewrite (bind_ret _ _ _ _ _ E). erewrite bind_ret by reflexivity. cbv iota beta.
  rewrite Z.eqb_refl, andb_false_r. destruct Hok as [_ HI]. unfold fm_with. rewrite <- HI. by destruct fm.
Qed.

(** The first new name opens the wrapper file, or ends the loading. *)
Lemma load_function_first f t fm (n := c_str (bf_name f)) (i := u32 (Z.of_nat (length (fm_funcs fm)))) :
  fm_ok fm -> fm_is_wrap fm = true -> fm_wrapper fm = None -> i <> UINT_MAX ->
  bool_decide (n ∈ fm_funcs fm) || bool_decide (n ∈ ts_skiplist t) = false ->
  load_function f (t, fm) =
    if wrap_writable t fm then
      Ret (true, (ts_add_streams (ts_set_files t (<[wrap_path fm := mk_file (wrapper_header +:+ c_str (wrapper_text f i)) (ts_now t)]>
        (ts_files t))) 1, fm_set_wrapper (fm_with fm (fm_funcs fm ++ [n])) (Some (wrap_path fm))))
    else Ret (false, (t, fm_with fm (fm_funcs fm ++ [n]))).
Proof.
  intros Hok Hw Hclosed Hi Enew. destruct (addFunction_run t fm (bf_name f) Hok) as [E _]. unfold add_name in E.
  fold n in E. rewrite Enew in E. fold i in E.
  unfold load_function. rewrite (bind_ret _ _ _ _ _ E). erewrite bind_ret by reflexivity. cbv iota beta.
  set (fm' := fm_with fm (fm_funcs fm ++ [n])). change (fm_is_wrap fm') with (fm_is_wrap fm).
  rewrite Hw, (proj2 (Z.eqb_neq _ _) Hi). cbn [andb negb].
  unfold generateWrapper. erewrite bind_ret by reflexivity. cbv iota beta zeta.
  change (fm_wrapper fm') with (fm_wrapper fm). rewrite Hclosed. simpl default.
  change (getWrapFilePath (fm_elf_name fm') FUNCMAP_FILE_SRC) with (wrap_path fm).
  unfold wrap_writable. destruct (_ && _) eqn:Eopen.
  - erewrite bind_ret.
    2:{ erewrite bind_ret by (unfold lift, fopen_w; simpl eget; rewrite Eopen; reflexivity). cbv iota.
        erewrite bind_ret by reflexivity. erewrite bind_ret by reflexivity. reflexivity. }
    cbv iota. erewrite bind_ret by reflexivity. unfold mret, M_ret.
    unfold ts_add_streams, ts_set_files. cbn [eget eput fstate_world fst snd ts_files ts_dirs ts_streams ts_now ts_skiplist ts_trace].
    rewrite !lookup_insert_eq. simpl default. by rewrite !insert_insert_eq.
  - erewrite bind_ret.
    2:{ erewrite bind_ret by (unfold lift, fopen_w; simpl eget; rewrite Eopen; reflexivity). reflexivity. }
    done.
Qed.

Lemma load_all_wrapped l t fm (fs := add_names (ts_skiplist t) (fm_funcs fm) (bf_names l)) :
  fm_ok fm -> fm_is_wrap fm = true -> fm_wrapper fm = None -> fs <> fm_funcs fm ->
  Z.of_nat (length (fm_funcs fm) + length l) < UINT_MAX ->
  if wrap_writable t fm then
    load_functions l (t, fm) =
      Ret (true, (ts_add_streams (ts_set_files t
        (<[wrap_path fm := mk_file (wrapper_header +:+ wrap_source (ts_skiplist t) (fm_funcs fm) l) (ts_now t)]> (ts_files t))) 1,
        fm_set_wrapper (fm_with fm fs) (Some (wrap_path fm))))
  else exists fm', load_functions l (t, fm) = Ret (false, (t, fm')).
Proof.
  subst fs. intros Hok Hw Hclosed. induction l as [|f l IH]; intros Hne Hlen; [done|].
  simpl in Hlen. cbn [load_functions wrap_source bf_names map] in *. fold (bf_names l) in *.
  set (n := c_str (bf_name f)) in *.
  destruct (bool_decide (n ∈ fm_funcs fm) || bool_decide (n ∈ ts_skiplist t)) eqn:Eold.
  - rewrite (bind_ret _ _ _ _ _ (load_function_old f t fm Hok Eold)). cbv iota.
    assert (add_name (ts_skiplist t) (fm_funcs fm) n = fm_funcs fm) as Ha by (unfold add_name; by rewrite Eold).
    cbn [add_names foldl] in *. rewrite Ha in *. apply IH; [done|lia].
  - assert (add_name (ts_skiplist t) (fm_funcs fm) n = fm_funcs fm ++ [n]) as Ha by (unfold add_name; by rewrite Eold).
    assert (u32 (Z.of_nat (length (fm_funcs fm))) <> UINT_MAX) as Hi.
    { unfold UINT_MAX in *. rewrite uwrap_id; unfold urange; lia. }
    pose proof (load_function_first f t fm Hok Hw Hclosed Hi Eold) as E. fold n in E.
    destruct (wrap_writable t fm).
    2:{ rewrite (bind_ret _ _ _ _ _ E). cbv iota. eexists. reflexivity. }
    rewrite (bind_ret _ _ _ _ _ E). cbv iota.
    set (fm1 := fm_set_wrapper _ _). set (t1 := ts_add_streams _ 1).
    erewrite (load_wrapped_run l t1 fm1 (wrap_path fm)).
    + cbn [add_names foldl]. rewrite Ha.
      unfold t1, ts_add_streams, ts_set_files. cbn [ts_files ts_dirs ts_streams ts_now ts_skiplist ts_trace].
      rewrite insert_insert_eq, append_assoc. done.
    + destruct (addFunction_run t fm (bf_name f) Hok) as [_ Hok']. fold n in Hok'. by rewrite Ha in Hok'.
    + done.
    + done.
    + unfold t1. simpl. by rewrite lookup_insert_eq.
    + simpl. rewrite length_app. simpl. lia.
Qed.

(** The reference: the wrapper file line by line. *)
Definition unlines (l : list string) : string := concat_str (map (fun x => x +:+ nl) l).
Definition sep_by (sep : string) (l : list string) : string :=
  match l with [] => "" | x :: r => x +:+ concat_str (map (fun y => sep +:+ y) r) end.
Definition wrapper_lines (f : bfunction) (i : nat) : list string :=
  let num := dec (Z.of_nat i) in
  let params := "(" +:+ sep_by ", " (map (fun k => "void *p" +:+ dec (Z.of_nat k)) (seq 0 (Z.to_nat (bf_nb_params f)))) +:+ ")" in
  let said := tab +:+ "fprintf(stdout, " +:+ dquote +:+ "wrap func" +:+ num +:+ " :" +:+ bf_name f +:+ "\n" +:+ dquote +:+ ");" in
  match bf_returnType f with
  | None | Some BPatch_dataNullType =>
      ["void LPROFILE_HOOK_func" +:+ num +:+ params +:+ ";";
       "void LPROFILE_WRAP_func" +:+ num +:+ params +:+ " {";
       tab +:+ "lprobe_func_entry(" +:+ num +:+ ");"; said; tab +:+ "lprobe_func_exit(" +:+ num +:+ ");"; "}"]
  | Some _ =>
      ["void *LPROFILE_HOOK_func" +:+ num +:+ params +:+ ";";
       "void *LPROFILE_WRAP_func" +:+ num +:+ params +:+ " {";
       tab +:+ "void *ret;"; tab +:+ "lprobe_func_entry(" +:+ num +:+ ");"; tab +:+ "ret = 0;"; said;
       tab +:+ "lprobe_func_exit(" +:+ num +:+ ");"; tab +:+ "return ret;"; "}"]
  end.
(** Number [i] is that of the first function with the [i]-th name; fprintf stops at a
    terminator. *)
Definition wrapper_of (l : list bfunction) (i : nat) (name : string) : string :=
  match list_find (fun f => c_str (bf_name f) = name) l with
  | Some (_, f) => c_str (unlines (wrapper_lines f i))
  | None => ""
  end.
Definition wrapper_file (l : list bfunction) (names : list string) : string :=
  unlines ["#include <stdio.h>"; "void lprobe_func_entry(unsigned int);"; "void lprobe_func_exit(unsigned int);"] +:+
  concat_str (imap (wrapper_of l) names).

Lemma wrap_params_rest i n : (0 < i)%nat ->
  wrap_params true (Z.of_nat i) n = concat_str (map (fun y => ", " +:+ y) (map (fun k => "void *p" +:+ dec (Z.of_nat k)) (seq i n))).
Proof.
  revert i. induction n as [|n IH]; intros i Hi; [done|]. cbn [wrap_params seq map concat_str]. rewrite (proj2 (Z.ltb_lt _ _)) by lia.
  replace (Z.of_nat i + 1) with (Z.of_nat (S i)) by lia. rewrite IH by lia. by rewrite !append_assoc.
Qed.
Lemma generateWrapParam_lines n :
  generateWrapParam true n = "(" +:+ sep_by ", " (map (fun k => "void *p" +:+ dec (Z.of_nat k)) (seq 0 (Z.to_nat n))) +:+ ")".
Proof.
  unfold generateWrapParam. do 2 f_equal. destruct (Z.to_nat n) as [|m]; [done|]. cbn [wrap_params seq map sep_by]. change (0 <? 0) with false. cbv iota.
  change (0 + 1) with (Z.of_nat 1). rewrite wrap_params_rest by lia. by rewrite !append_assoc.
Qed.
Lemma wrapper_text_lines f i : wrapper_text f (Z.of_nat i) = unlines (wrapper_lines f i).
Proof.
  unfold wrapper_text, wrapper_lines, generateWrapDef, has_return. rewrite !generateWrapParam_lines.
  generalize (sep_by ", " (map (fun k => "void *p" +:+ dec (Z.of_nat k)) (seq 0 (Z.to_nat (bf_nb_params f))))). intros ps.
  unfold getWrapSymbolName. generalize (dec (Z.of_nat i)). intros num. unfold unlines, FUNC_PRE, FUNC_POST.
  destruct (bf_returnType f) as [[]|]; cbn [map concat_str]; rewrite !append_assoc; simpl; rewrite ?append_assoc; reflexivity.
Qed.

Lemma wrapper_of_skip f l i name : c_str (bf_name f) <> name -> wrapper_of (f :: l) i name = wrapper_of l i name.
Proof. intros Hne. unfold wrapper_of. cbn [list_find]. rewrite decide_False by done. by destruct (list_find _ l) as [[]|]. Qed.
Lemma wrap_source_reference skip l : forall fs, Z.of_nat (length fs + length l) < UINT_MAX ->
  wrap_source skip fs l =
    concat_str (imap (fun i => wrapper_of l (length fs + i)) (filter (fun f => f ∉ fs) (first_occurrences (filter (fun f => f ∉ skip) (bf_names l))))).
Proof.
  induction l as [|f l IH]; intros fs Hlen; [done|]. cbn [wrap_source bf_names map length] in *. fold (bf_names l). set (n := c_str (bf_name f)).
  rewrite filter_cons. destruct (decide (n ∉ skip)) as [Hs|Hs%dec_stable].
  2:{ rewrite (bool_decide_true (n ∈ skip) Hs), orb_true_r, IH by lia. f_equal. apply imap_ext. intros i x Hx.
      symmetry. apply wrapper_of_skip. fold n. intros <-. apply list_elem_of_lookup_2 in Hx. apply list_elem_of_filter in Hx as [_ Hx%first_occurrences_elem]. by apply list_elem_of_filter in Hx as [? _]. }
  rewrite (bool_decide_false (n ∈ skip) Hs), orb_false_r. cbn [first_occurrences]. rewrite filter_cons, list_filter_filter.
  destruct (decide (n ∉ fs)) as [Hf|Hf%dec_stable].
  - rewrite (bool_decide_false _ Hf). rewrite IH by (rewrite length_app; simpl; lia). cbn [imap concat_str]. f_equal.
    + unfold wrapper_of. cbn [list_find]. rewrite decide_True by done. by rewrite Nat.add_0_r, <- wrapper_text_lines, u32_id by (unfold UINT_MAX in *; lia).
    + rewrite (list_filter_iff (fun x => x ∉ fs ++ [n]) (fun x => x ∉ fs /\ x <> n)) by set_solver. f_equal. apply imap_ext. intros i x Hx.
      apply list_elem_of_lookup_2, list_elem_of_filter in Hx as [[_ Hx] _]. simpl. rewrite wrapper_of_skip by (fold n; congruence). rewrite length_app. simpl. f_equal. lia.
  - rewrite (bool_decide_true _ Hf), IH by lia. rewrite (list_filter_iff (fun x => x ∉ fs /\ x <> n) (fun x => x ∉ fs)) by set_solver. f_equal. apply imap_ext. intros i x Hx.
    apply list_elem_of_lookup_2, list_elem_of_filter in Hx as [Hx _]. rewrite wrapper_of_skip; [done|]. fold n. by intros ->.
Qed.

(** C35: loading a new map with wrappers.  Unless every name is skipped, the wrapper
    file is written first.  Line by line it holds the declarations of the two probes,
    and then for every numbered name, in order, with its number: the declaration of a
    hook and a wrapper with as many pointer parameters as the function has, returning
    a pointer if the function returns anything; the wrapper calls lprobe_func_entry
    with the number, prints a line with the number and the name, calls
    lprobe_func_exit with the number, and returns 0.  The file is then closed and
    compiled, and only if the compiler succeeds is the cache written and the load
    successful.  The directory of the wrapper file is created only with the cache,
    so where it is missing the load fails and creates nothing. *)
Theorem wrapper_library_source t path l :
  dy_procedures path = Some (Some l) -> dirs_creatable t ->
  let fm := FuncMap_path path true in
  let fs := first_occurrences (filter (fun f => f ∉ ts_skiplist t) (bf_names l)) in
  let src := getWrapFilePath (fm_elf_name fm) FUNCMAP_FILE_SRC in
  let cmd := "gcc -g -o " +:+ getWrapFilePath (fm_elf_name fm) FUNCMAP_FILE_LIB +:+ " -shared -fPIC " +:+ src +:+ " -lprobe" in
  let text := mk_file (wrapper_file l fs) (ts_now t) in
  sys_fopen (cache_path fm) = true ->
  fs <> [] -> Z.of_nat (length l) < UINT_MAX ->
  exists t' fm', load true (t, fm) = Ret (wrap_writable t fm && (sys_system cmd =? 0), (t', fm')) /\
    ts_streams t' = ts_streams t /\
    if wrap_writable t fm then
      fm' = fm_with fm fs /\
      ts_files t' = (if sys_system cmd =? 0 then <[cache_path fm := mk_file (cache_text fs) (ts_now t)]> else id)
                      (<[src := text]> (ts_files t))
    else t' = t.
Proof.
  intros Hl Hd fm fs src cmd text Hf Hne Hlen.
  assert (fm_ok fm) as Hok by (split; [apply NoDup_nil_2|done]).
  pose proof (add_names_reference (ts_skiplist t) [] (bf_names l)) as Efs. simpl in Efs. rewrite filter_all in Efs by (apply Forall_forall; set_solver).
  pose proof (load_all_wrapped l t fm Hok eq_refl eq_refl) as E. change (fm_funcs fm) with (@nil string) in E. rewrite Efs in E. specialize (E Hne Hlen).
  rewrite wrap_source_reference in E by done. rewrite (filter_all (fun f => f ∉ [])) in E by (apply Forall_forall; set_solver).
  fold fs in E. change (wrap_path fm) with src in E. fold text in E.
  unfold load, loadFromELF. erewrite bind_ret by reflexivity. cbv iota beta.
  change (fm_obj fm) with (@None bobject). change (fm_elf_path fm) with path. rewrite Hl.
  destruct (wrap_writable t fm); cbn [andb].
  2:{ destruct E as [fm' E]. rewrite (bind_ret _ _ _ _ _ E). cbn [negb]. cbv iota. by exists t, fm'. }
  rewrite (bind_ret _ _ _ _ _ E). cbn [negb]. cbv iota. erewrite bind_ret by reflexivity. cbv iota beta.
  set (t1 := ts_set_files t (<[src := text]> (ts_files t))) in *. set (fm1 := fm_set_wrapper _ _).
  change (fm_is_wrap fm1) with true. change (fm_funcs fm1) with fs. cbn [andb].
  rewrite (proj2 (Z.ltb_lt _ _)) by (destruct fs; [done|simpl; lia]).
  assert (compileWrapper (ts_add_streams t1 1, fm1) = Ret (sys_system cmd =? 0, (t1, fm_with fm fs))) as EC.
  { unfold compileWrapper. erewrite bind_ret by reflexivity. cbv iota beta. change (fm_wrapper fm1) with (Some src). cbv iota.
    erewrite bind_ret by reflexivity. erewrite bind_ret by reflexivity. cbv zeta. unfold mret, M_ret.
    change (getWrapFilePath (fm_elf_name fm1) FUNCMAP_FILE_SRC) with src.
    change (getWrapFilePath (fm_elf_name fm1) FUNCMAP_FILE_LIB) with (getWrapFilePath (fm_elf_name fm) FUNCMAP_FILE_LIB).
    fold cmd. do 3 f_equal. destruct t1. unfold ts_add_streams. simpl. f_equal. lia. }
  rewrite (bind_ret _ _ _ _ _ EC). destruct (sys_system cmd =? 0); cbn [negb]; cbv iota.
  2:{ exists t1, (fm_with fm fs). done. }
  assert (dirs_creatable t1) as Hd1.
  { intros d Hdp. destruct (Hd d Hdp) as [? Hfd]. split; [done|]. simpl. rewrite lookup_insert_ne; [done|].
    intros Heq. rewrite <- Heq in Hdp. revert Hdp. unfold src, getWrapFilePath, dir_prefixes. clear.
    rewrite !elem_of_cons. intros [?|[?|[?|[?|[?|?]]]]]; try discriminate. by apply elem_of_nil in H. }
  rewrite (updateCache_run t1 (fm_with fm fs) Hd1 (base_name_plain path) Hf). eexists _, _. split; [reflexivity|]. done.
Qed.
End Wrappers.

(** ** Limits of the cache and of the object loader *)
Section Limits.
Context `{Sy : System} `{Dy : Dyninst}.

Lemma fgets_chars_full s rest : has_char NL s = false -> fgets_chars (String.length s) (s +:+ rest) = (s, rest, false).
Proof.
  induction s as [|a s IH]; [by destruct rest|]. simpl. intros [E1 E2]%orb_false_elim.
  change (fgets_chars (S (String.length s)) (String a (s +:+ rest)) = (String a s, rest, false)).
  cbn [fgets_chars]. by rewrite E1, (IH E2).
Qed.

Lemma get_has_char k s c : String.get k s = Some c -> has_char c s = true.
Proof.
  revert k. induction s as [|a s IH]; intros [|k]; simpl; try done.
  - intros [= ->]. by rewrite Ascii.eqb_refl.
  - intros H%IH. by rewrite H, orb_true_r.
Qed.

Lemma fm_ok_add fm f : fm_ok fm -> f ∉ fm_funcs fm -> fm_ok (fm_with fm (fm_funcs fm ++ [f])).
Proof.
  intros [HN _] Hf. split; [|done]. simpl. apply NoDup_app. split_and!; [done|set_solver|apply NoDup_singleton].
Qed.

(** A name of exactly 255 characters fills the buffer without its line end;
    the rest of the line is read as an empty name, which takes a number of its
    own, so that after a reload every later function has a number one higher
    than the one its probes were inserted with. *)
Theorem cache_long_name_shifts t path f rest mt :
  let fm := FuncMap_path path false in
  ts_files t !! cache_path fm = Some (mk_file (cache_text (f :: rest)) mt) -> sys_fopen (cache_path fm) = true ->
  Z.of_nat (String.length f) = FUNC_NAME_MAX - 1 -> has_char NL f = false -> has_char NULC f = false ->
  NoDup ("" :: f :: rest) -> Forall line_name rest -> Forall (fun g => g ∉ ts_skiplist t) ("" :: f :: rest) ->
  loadFromCache (t, fm) = Ret (true, (ts_add_streams t 1, fm_with fm (f :: "" :: rest))).
Proof.
  intros fm Hfile Hop Hlen H1 H2 HN HF HS. unfold loadFromCache. erewrite bind_ret by reflexivity. cbv iota beta.
  erewrite bind_ret by (unfold lift, fopen_r; simpl eget; rewrite Hfile, Hop; reflexivity).
  cbv iota. simpl f_text. simpl eput.
  assert (exists a f', f = String a f') as (a & f' & Ef) by (destruct f; [done|eauto]).
  assert (String.get (String.length f - 1) f <> Some NL) as Hlast by (intros Hg%get_has_char; congruence).
  cbn [cache_text map concat_str]. fold (cache_text rest). rewrite (c_str_id f H2), append_assoc.
  remember (String.length (f +:+ (nl +:+ cache_text rest))) as n eqn:En.
  assert (length rest < n)%nat as Hn.
  { rewrite En, !length_append. pose proof (cache_text_length rest). simpl. lia. }
  assert (fm_ok fm) as Hok by (split; [apply NoDup_nil_2|done]).
  assert (fgets FUNC_NAME_MAX (f +:+ nl +:+ cache_text rest) = (Some f, nl +:+ cache_text rest, false)) as Eg.
  { unfold fgets. replace (Z.to_nat (FUNC_NAME_MAX - 1)) with (String.length f) by lia.
    rewrite fgets_chars_full by done. by rewrite Ef. }
  inversion HS as [|? ? Hs0 HS']; subst x l. inversion HS' as [|? ? Hs1 HS'']; subst x l.
  destruct (addFunction_run t fm f Hok) as [E1 _]. rewrite (c_str_id f H2) in E1.
  assert (add_name (ts_skiplist t) (fm_funcs fm) f = [f]) as Ea by (unfold add_name; by rewrite !bool_decide_false by set_solver).
  rewrite Ea in E1. assert (fm_ok (fm_with fm [f])) as Hok1 by (apply (fm_ok_add fm f); set_solver).
  destruct (addFunction_run (ts_add_streams t 1) (fm_with fm [f]) "" Hok1) as [E2 Hok2].
  assert (add_name (ts_skiplist t) [f] "" = [f; ""]) as Eb.
  { unfold add_name. rewrite !bool_decide_false; [done|done|]. apply NoDup_cons in HN as [Hn0 _]. set_solver. }
  change (fm_funcs (fm_with fm [f])) with [f] in *. change (c_str "") with "" in *.
  change (ts_skiplist (ts_add_streams t 1)) with (ts_skiplist t) in *. rewrite Eb in *.
  erewrite bind_ret; [reflexivity|]. cbn [cache_loop]. rewrite Eg. cbv iota. rewrite (c_str_id f H2).
  rewrite (proj2 (String.eqb_neq _ _)) by (by rewrite Ef). rewrite bool_decide_false by done.
  erewrite bind_ret.
  2:{ destruct (addFunction_run (ts_add_streams t 1) fm f Hok) as [E1' _]. rewrite (c_str_id f H2) in E1'.
      change (ts_skiplist (ts_add_streams t 1)) with (ts_skiplist t) in E1'. rewrite Ea in E1'.
      rewrite (bind_ret _ _ _ _ _ E1'). reflexivity. }
  cbv iota. change (fgets FUNC_NAME_MAX (nl +:+ cache_text rest)) with (Some nl, cache_text rest, false). cbv iota.
  change (c_str nl) with nl. cbn [String.eqb]. rewrite (proj2 (String.eqb_neq _ _)) by done.
  change (bool_decide (String.get (String.length nl - 1) nl = Some NL)) with true.
  change (take_str (String.length nl - 1) nl) with "". cbv iota.
  erewrite bind_ret by (rewrite (bind_ret _ _ _ _ _ E2); reflexivity).
  rewrite (cache_loop_run n rest (ts_add_streams t 1)); [|done|done|lia].
  do 4 f_equal. rewrite add_names_fresh; [done| |done]. simpl fm_funcs.
  apply NoDup_cons in HN as [Hn0 HN]. apply NoDup_cons in HN as [Hn1 HN]. simpl.
  constructor; [set_solver|]. constructor; [set_solver|done].
Qed.

(** The functions the module loop asks for: the [i]-th of the module [i], once per
    function of the module. *)
Fixpoint diagonal (i : nat) (mods : list (list bfunction)) : option (list bfunction) :=
  match mods with
  | [] => Some []
  | [] :: mods' => diagonal (S i) mods'
  | m :: mods' =>
      match m !! i, diagonal (S i) mods' with
      | Some f, Some l => Some (replicate (length m) f ++ l)
      | _, _ => None
      end
  end.

Lemma load_functions_app l1 l2 s : load_functions (l1 ++ l2) s = (ok ← load_functions l1 ; if (ok : bool) then load_functions l2 else mret false) s.
Proof.
  revert s. induction l1 as [|f l1 IH]; intros s; [done|]. cbn [load_functions app]. unfold mbind, M_bind.
  destruct (load_function f s) as [[[] s1]|e]; [|done|done]. rewrite IH. done.
Qed.

Lemma load_modules_diagonal mods i s :
  match diagonal i mods with
  | Some l => load_modules i mods s = load_functions l s
  | None => forall b s', load_modules i mods s = Ret (b, s') -> b = false
  end.
Proof.
  revert i s. induction mods as [|[|f0 m] mods IH]; intros i s; [done| |].
  - cbn [diagonal load_modules]. specialize (IH (S i) s). unfold mbind at 1, M_bind. cbn [mret M_ret].
    destruct (diagonal (S i) mods); [exact IH|]. exact IH.
  - cbn [diagonal load_modules]. destruct ((f0 :: m) !! i) as [f|] eqn:Ef.
    2:{ intros b s'. unfold mbind, M_bind, fail. done. }
    destruct (diagonal (S i) mods) as [l|] eqn:Ed.
    + rewrite load_functions_app. unfold mbind, M_bind.
      destruct (load_functions (replicate (length (f0 :: m)) f) s) as [[[] s1]|]; [|done|done].
      specialize (IH (S i) s1). by rewrite Ed in IH.
    + intros b s'. unfold mbind, M_bind.
      destruct (load_functions (replicate (length (f0 :: m)) f) s) as [[[] s1]|]; [|by intros [= <- <-]|done].
      specialize (IH (S i) s1). rewrite Ed in IH. apply IH.
Qed.
End Limits.

(** ** Evaluation of the model *)
Definition demo_system : System := {|
  sys_fopen := fun _ => true; sys_stat_err := fun _ => None; sys_mkdir := fun _ => true;
  sys_system := fun _ => 0; sys_exec := fun _ => true; sys_malloc := true |}.

Definition demo_object : bobject := mk_bobject 1 "a.out" "/tmp/a.out" false.
Definition demo_function (id : Z) (name : string) : bfunction :=
  mk_bfunction id name 2 (Some BPatch_dataOther) (mk_bmodule 1 demo_object).
Definition demo_functions : list bfunction :=
  [demo_function 10 "main"; demo_function 11 "work"; demo_function 12 "main"; demo_function 13 "_fini"].
Definition demo_find (name : string) : list bfunction :=
  filter (fun f => contains name (bf_name f) = true) demo_functions.

Definition demo_library : bobject := mk_bobject 2 "libprobe.so" "/tmp/libprobe.so" false.
Definition demo_dyninst : Dyninst := {|
  dy_procedures := fun _ => Some (Some demo_functions);
  dy_modules := fun _ => [demo_functions];
  dy_objects := [demo_object];
  dy_object_find := fun o pat => if ob_id o =? 1 then demo_find pat else [demo_function 20 pat];
  dy_image_find := fun pat => demo_find (drop_str 1 pat);
  dy_has_point := fun _ _ => true;
  dy_caller_points := fun _ => [mk_bpoint 1 (Some 10)];
  dy_call_points := fun _ => [mk_bpoint 2 None];
  dy_hook_symbol := fun _ _ => true;
  dy_pthread_fields := Some (Some [("header", 704); ("tid", 4)]);
  dy_variable := fun _ => true;
  dy_library := fun _ => Some demo_library;
  dy_answer := fun _ a => match a with OneTimeCode _ _ => 0 | _ => 1 end;
  dy_terminated := fun tr => bool_decide (10 < length tr)%nat;
  dy_stopped := fun _ => true |}.

(** A binary at /tmp/a.out, a home directory, and an empty skip list. *)
Definition demo_tstate : tstate :=
  mk_tstate {["/tmp/a.out" := mk_file "ELF" 5]} {["/home"; "/home/jiaru"]} 0 9 ∅ [].

Lemma demo_dirs : @dirs_creatable demo_system demo_tstate.
Proof.
  intros d Hd. split; [reflexivity|]. unfold dir_prefixes in Hd. set_unfold in Hd.
  destruct_or! Hd; subst d; reflexivity.
Qed.

Lemma funcmap_numbering_witness :
  exists t' fm', @load demo_system demo_dyninst true (demo_tstate, FuncMap_path "/tmp/a.out" false) = Ret (true, (t', fm')) /\
    fm_ok fm' /\ getFunctionID fm' "work" = 1.
Proof.
  pose proof (@load_elf_run demo_system demo_dyninst demo_tstate "/tmp/a.out" demo_functions
    eq_refl demo_dirs eq_refl) as E. cbv zeta in E.
  eexists _, _. split; [exact E|]. split; [|reflexivity].
  refine (proj1 (@funcmap_numbering demo_system demo_dyninst true demo_tstate (FuncMap_path "/tmp/a.out" false) true _ _ _ E)).
  split; [apply NoDup_nil_2|reflexivity].
Defined.

Lemma load_binary_reference_witness :
  exists t', @load demo_system demo_dyninst true (demo_tstate, FuncMap_path "/tmp/a.out" false) =
    Ret (true, (t', fm_with (FuncMap_path "/tmp/a.out" false) ["main"; "work"; "_fini"])).
Proof.
  destruct (@load_binary_reference demo_system demo_dyninst demo_tstate "/tmp/a.out" demo_functions
    eq_refl demo_dirs eq_refl) as (t' & E & _).
  exists t'. exact E.
Defined.

Lemma cache_transparent_witness :
  exists t1 fm1, @load demo_system demo_dyninst false (t1, FuncMap_path "/tmp/a.out" false) = Ret (true, (ts_add_streams t1 1, fm1)) /\
    fm_funcs fm1 = ["main"; "work"; "_fini"].
Proof.
  pose proof (@load_elf_run demo_system demo_dyninst demo_tstate "/tmp/a.out" demo_functions
    eq_refl demo_dirs eq_refl) as E. cbv zeta in E.
  eexists _, _. split.
  - refine (@cache_transparent demo_system demo_dyninst demo_tstate "/tmp/a.out" demo_functions _ _ 5
      eq_refl demo_dirs eq_refl eq_refl eq_refl _ eq_refl _ E _ _).
    + discriminate.
    + discriminate.
    + discriminate.
    + repeat constructor.
  - reflexivity.
Defined.

(** With the directory of the maps in place, the load succeeds. *)
Definition demo_with_dirs : tstate :=
  mk_tstate (ts_files demo_tstate) ({[parent (wrap_path (FuncMap_path "/tmp/a.out" true))]} ∪ ts_dirs demo_tstate) (ts_streams demo_tstate) (ts_now demo_tstate) (ts_skiplist demo_tstate) (ts_trace demo_tstate).
Lemma wrapper_library_source_witness :
  exists t' fm', @load demo_system demo_dyninst true (demo_with_dirs, FuncMap_path "/tmp/a.out" true) = Ret (true, (t', fm')) /\
    ts_files t' !! getWrapFilePath "a.out" FUNCMAP_FILE_SRC = Some (mk_file (wrapper_file demo_functions ["main"; "work"; "_fini"]) (ts_now demo_with_dirs)).
Proof.
  destruct (@wrapper_library_source demo_system demo_dyninst demo_with_dirs "/tmp/a.out" demo_functions
    eq_refl demo_dirs eq_refl ltac:(vm_compute; discriminate) ltac:(reflexivity)) as (t' & fm' & E & _ & Hw).
  assert (@wrap_writable demo_system demo_with_dirs (FuncMap_path "/tmp/a.out" true) = true) as Ew by (vm_compute; reflexivity).
  rewrite Ew in E, Hw. destruct Hw as [_ Hf]. exists t', fm'. split; [exact E|]. rewrite Hf. cbn [sys_system demo_system Z.eqb].
  rewrite lookup_insert_ne by (vm_compute; discriminate). apply lookup_insert_eq.
Defined.

Fixpoint repeat_char (n : nat) : string := match n with O => "" | S n' => String "a" (repeat_char n') end.

Lemma cache_long_name_shifts_witness :
  exists t fm', @loadFromCache demo_system (t, FuncMap_path "/tmp/a.out" false) = Ret (true, (ts_add_streams t 1, fm')) /\
    getFunctionID fm' "main" = 2.
Proof.
  set (names := [repeat_char 255; "main"]).
  set (t := ts_set_files demo_tstate {[cache_path (FuncMap_path "/tmp/a.out" false) := mk_file (cache_text names) 7]}).
  exists t, (fm_with (FuncMap_path "/tmp/a.out" false) (repeat_char 255 :: "" :: ["main"])). split; [|reflexivity].
  apply (@cache_long_name_shifts demo_system t "/tmp/a.out" (repeat_char 255) ["main"] 7).
  - reflexivity.
  - reflexivity.
  - reflexivity.
  - reflexivity.
  - reflexivity.
  - apply (bool_decide_unpack _). vm_compute. exact I.
  - repeat constructor.
  - repeat constructor; apply not_elem_of_empty.
Defined.
