(* ===== verification/Report.v ===== *)
(** * The report tool: utils/report.cc and report.h

    Reads a record file the probe wrote and prints one line per record.  The file
    is a list of bytes, the object its two members, standard output the text
    printed so far. *)
From stdpp Require Import base gmap list strings pretty.
From Stdlib Require Import Ascii.
From S2P Require Import Prelude ListHead Pmu ProbeUtil Evsel Evlist Profile ToolBase.

(** ** The record format

    struct prof_record on x86-64: 24 bytes with 4 bytes of padding before
    [count].  report.h declares the same structure as profile.h. *)
Definition sizeof_record : nat := 24.

Definition record_bytes (pad : list Z) (r : prof_record) : list Z :=
  le_enc 8 (rec_ts r) ++ le_enc 2 (rec_func_idx r) ++ le_enc 1 (rec_pos r) ++ le_enc 1 (rec_ev_idx r) ++
  pad ++ le_enc 8 (rec_count r).

Definition field (off len : nat) (bs : list Z) : Z := le_dec (take len (drop off bs)).
Definition record_of_bytes (bs : list Z) : prof_record :=
  mk_record (field 0 8 bs) (field 8 2 bs) (field 10 1 bs) (field 11 1 bs) (field 16 8 bs).

(** fread() of one record: the number of items, the bytes left, and whether the
    end of the file was met. *)
Definition fread_record (bs : list Z) : option prof_record * list Z * bool :=
  if bool_decide (sizeof_record <= length bs)%nat
  then (Some (record_of_bytes (take sizeof_record bs)), drop sizeof_record bs, false)
  else (None, [], true).

(** ** The tool *)
Record ReportTest : Type := mk_ReportTest { rp_datafile : string; rp_is_count : bool }.
Definition ReportTest_new : ReportTest := mk_ReportTest "" false.

Definition print (s : string) : M string unit := modify (fun out => out +:+ s).

Definition record_line (r : prof_record) : string :=
  dec (rec_ts r) +:+ " " +:+ dec (rec_func_idx r) +:+ " " +:+ dec (rec_pos r) +:+ " " +:+
  dec (rec_ev_idx r) +:+ " " +:+ dec (rec_count r) +:+ nl.

(** The counting branch, with the stack it finds; the stack is a local array of
    [processRecord], so it is empty at every call. *)
Definition count_record (stack : list prof_record) (record : prof_record) : M string (bool * list prof_record) :=
  if rec_pos record =? PROF_RECORD_POS_PRE then mret (true, stack ++ [record])
  else match last stack with
  | None => mret (false, stack)
  | Some top =>
      (if (rec_func_idx top =? rec_func_idx record) || (rec_pos top =? PROF_RECORD_POS_PRE)
       then print (dec (rec_func_idx record) +:+ " " +:+ dec (u64 (rec_ts record - rec_ts top)) +:+ " " +:+
                   dec (u64 (rec_count record - rec_count top)) +:+ nl)
       else mret tt) ;;
      mret (true, stack)
  end.

Definition processRecord (is_count : bool) (record : prof_record) : M string bool :=
  if is_count then '(ok, _) ← count_record [] record ; mret ok
  else print (record_line record) ;; mret true.

(** The loop of [process]; [rd_err k] says that the [k]-th read fails. *)
Fixpoint process_loop (n : nat) (rd_err : nat -> bool) (is_count : bool) (k : nat) (bs : list Z) : M string unit :=
  match n with
  | O => fail FFuel
  | S n' =>
      if rd_err k then mret tt else
      let '(nread, bs', eof) := fread_record bs in
      match nread with
      | None => mret tt
      | Some record =>
          ok ← processRecord is_count record ;
          if negb ok then mret tt
          else if (eof : bool) then mret tt else process_loop n' rd_err is_count (S k) bs'
      end
  end.

(** [data] is the content of the data file, [None] when it cannot be opened. *)
Definition report_process (rd_err : nat -> bool) (rp : ReportTest) (data : option (list Z)) : M string bool :=
  match data with
  | None => mret false
  | Some bs => process_loop (S (length bs)) rd_err (rp_is_count rp) 0 bs ;; mret true
  end.

(** The options in turn: case 'c' falls through into the default case. *)
Fixpoint report_options (es : list (ascii * option string)) (rp : ReportTest) : M tstate (bool * ReportTest) :=
  match es with
  | [] => mret (true, rp)
  | (c, optarg) :: es' =>
      if Ascii.eqb c "f" then
        there ← access_f (default "" optarg) ;
        if negb there then mret (false, rp)
        else report_options es' (mk_ReportTest (default "" optarg) (rp_is_count rp))
      else mret (false, if Ascii.eqb c "c" then mk_ReportTest (rp_datafile rp) true else rp)
  end.

Definition report_parseArgs (args : list string) (rp : ReportTest) : M tstate (bool * ReportTest) :=
  '(ok, rp) ← report_options (getopt "f:c" args).1 rp ;
  if negb ok then mret (false, rp) else
  if String.eqb (rp_datafile rp) "" then mret (false, rp) else mret (true, rp).

(** ** The format *)

Definition record_ok (r : prof_record) : Prop :=
  urange 64 (rec_ts r) /\ urange 16 (rec_func_idx r) /\ urange 8 (rec_pos r) /\ urange 8 (rec_ev_idx r) /\
  urange 64 (rec_count r).

Lemma length_record_bytes pad r : length pad = 4%nat -> length (record_bytes pad r) = sizeof_record.
Proof. intros Hp. unfold record_bytes. rewrite !length_app, !length_le_enc, Hp. done. Qed.

Lemma field_skip off len a bs : length a = off -> field off len (a ++ bs) = field 0 len bs.
Proof. intros <-. unfold field. by rewrite drop_app_length. Qed.

Lemma field_enc n x bs : 0 <= x < 256 ^ Z.of_nat n -> field 0 n (le_enc n x ++ bs) = x.
Proof.
  intros Hx. unfold field. rewrite drop_0. rewrite <- (length_le_enc n x) at 1. rewrite take_app_length. by apply le_dec_enc.
Qed.

(** Reading the bytes of a record gives the record, whatever the padding. *)
Lemma record_of_bytes_bytes pad r : record_ok r -> length pad = 4%nat -> record_of_bytes (record_bytes pad r) = r.
Proof.
  intros (H1 & H2 & H3 & H4 & H5) Hp. unfold record_of_bytes, record_bytes. destruct r as [ts fi pos ev cnt].
  cbn [rec_ts rec_func_idx rec_pos rec_ev_idx rec_count] in *. f_equal.
  - by apply field_enc.
  - rewrite (field_skip 8 2 (le_enc 8 ts)) by apply length_le_enc. by apply field_enc.
  - rewrite (app_assoc (le_enc 8 ts)).
    rewrite (field_skip 10 1 (le_enc 8 ts ++ le_enc 2 fi)) by (by rewrite length_app, !length_le_enc). by apply (field_enc 1).
  - rewrite (app_assoc (le_enc 8 ts)), (app_assoc (_ ++ _) (le_enc 1 pos)).
    rewrite (field_skip 11 1 ((le_enc 8 ts ++ le_enc 2 fi) ++ le_enc 1 pos)) by (by rewrite !length_app, !length_le_enc).
    by apply (field_enc 1).
  - rewrite (app_assoc (le_enc 8 ts)), (app_assoc (_ ++ _) (le_enc 1 pos)), (app_assoc (_ ++ le_enc 1 pos)), (app_assoc _ pad).
    rewrite (field_skip 16 8 ((((le_enc 8 ts ++ le_enc 2 fi) ++ le_enc 1 pos) ++ le_enc 1 ev) ++ pad))
      by (by rewrite !length_app, !length_le_enc, Hp).
    rewrite <- (app_nil_r (le_enc 8 cnt)). by apply field_enc.
Qed.

Lemma fread_record_bytes pad r bs : record_ok r -> length pad = 4%nat ->
  fread_record (record_bytes pad r ++ bs) = (Some r, bs, false).
Proof.
  intros Hr Hp. pose proof (length_record_bytes pad r Hp) as Hl. unfold fread_record.
  rewrite bool_decide_true by (rewrite length_app, Hl; lia).
  rewrite <- Hl, take_app_length, drop_app_length, record_of_bytes_bytes; done.
Qed.

(** ** Reading the printed text back *)
Definition report_text (rs : list prof_record) : string := concat_str (map record_line rs).

(** A reader of the report: lines of numbers separated by spaces. *)
Definition read_line (line : string) : list Z := map (atoi_digits 0) (split_on " " line).
Definition read_report (text : string) : list (list Z) := map read_line (removelast (split_on NL text)).

(** The columns of the report. *)
Definition columns (r : prof_record) : list Z := [rec_ts r; rec_func_idx r; rec_pos r; rec_ev_idx r; rec_count r].

Lemma pretty_N_go_plain c x s :
  (forall d, pretty_N_char d <> c) -> has_char c s = false -> has_char c (pretty_N_go x s) = false.
Proof.
  intros Hc. revert s. induction (N.lt_wf_0 x) as [x _ IH]; intros s Hs.
  destruct (decide (x = 0)%N) as [->|Hx]; [by rewrite pretty_N_go_0|].
  rewrite pretty_N_go_step by lia. apply IH; [apply N.div_lt; lia|]. simpl. rewrite Hs, orb_false_r.
  apply Ascii.eqb_neq, Hc.
Qed.

Lemma dec_plain c x : (forall d, pretty_N_char d <> c) -> has_char c (dec x) = false.
Proof.
  intros Hc. unfold dec, pretty, pretty_N. destruct (decide (Z.to_N x = 0%N)).
  - cbn [has_char]. rewrite orb_false_r. apply Ascii.eqb_neq. exact (Hc 0%N).
  - by apply pretty_N_go_plain.
Qed.

Lemma digit_not c : (Ascii.nat_of_ascii c < 48)%nat -> forall d, pretty_N_char d <> c.
Proof.
  intros Hc%Nat.ltb_lt d E. subst c. revert Hc. unfold pretty_N_char. repeat case_match; vm_compute; done.
Qed.

Lemma digit_of_char d : (d < 10)%N -> digit_of (pretty_N_char d) = Some (Z.of_N d).
Proof.
  intros Hd. assert (d = 0 \/ d = 1 \/ d = 2 \/ d = 3 \/ d = 4 \/ d = 5 \/ d = 6 \/ d = 7 \/ d = 8 \/ d = 9)%N as H by lia.
  destruct_or! H; subst d; reflexivity.
Qed.

Lemma atoi_digits_go x s : atoi_digits 0 (pretty_N_go x s) = atoi_digits (Z.of_N x) s.
Proof.
  revert s. induction (N.lt_wf_0 x) as [x _ IH]; intros s.
  destruct (decide (x = 0)%N) as [->|Hx]; [by rewrite pretty_N_go_0|].
  rewrite pretty_N_go_step by lia. rewrite IH by (apply N.div_lt; lia). cbn [atoi_digits].
  rewrite digit_of_char by (apply N.mod_lt; lia). f_equal.
  rewrite N2Z.inj_div, N2Z.inj_mod. pose proof (Z.div_mod (Z.of_N x) 10). lia.
Qed.

(** Decimal output is read back. *)
Lemma atoi_digits_dec x : 0 <= x -> atoi_digits 0 (dec x) = x.
Proof.
  intros Hx. unfold dec, pretty, pretty_N. destruct (decide (Z.to_N x = 0%N)) as [H|H]; [change (0 = x); lia|].
  rewrite atoi_digits_go. simpl. lia.
Qed.

Lemma read_line_fields (xs : list Z) x :
  Forall (fun x => 0 <= x) (xs ++ [x]) ->
  read_line (concat_str (map (fun x => dec x +:+ chr " ") xs) +:+ dec x) = xs ++ [x].
Proof.
  induction xs as [|y xs IH]; cbn [app map concat_str]; intros HF; apply Forall_cons in HF as [Hy HF]; unfold read_line.
  - change ("" +:+ dec x) with (dec x). rewrite split_on_none by (by apply dec_plain, digit_not, Nat.ltb_lt). simpl.
    by rewrite atoi_digits_dec.
  - rewrite !append_assoc, split_on_app by (by apply dec_plain, digit_not, Nat.ltb_lt). cbn [map].
    fold (read_line (concat_str (map (fun x => dec x +:+ chr " ") xs) +:+ dec x)). by rewrite (IH HF), atoi_digits_dec.
Qed.

Definition line_text (r : prof_record) : string :=
  concat_str (map (fun x => dec x +:+ chr " ") [rec_ts r; rec_func_idx r; rec_pos r; rec_ev_idx r]) +:+ dec (rec_count r).

Lemma record_line_text r : record_line r = line_text r +:+ chr NL.
Proof. unfold record_line, line_text. cbn [map concat_str]. by rewrite !append_assoc. Qed.

Lemma has_char_append c s t : has_char c (s +:+ t) = has_char c s || has_char c t.
Proof. induction s as [|a s IH]; [done|]. rewrite append_cons. cbn [has_char]. by rewrite IH, orb_assoc. Qed.

Lemma line_text_plain r : has_char NL (line_text r) = false.
Proof.
  unfold line_text. cbn [map concat_str]. rewrite !has_char_append.
  rewrite !(dec_plain NL) by (by apply digit_not, Nat.ltb_lt). done.
Qed.

(** Reading the printed text gives the columns of the records. *)
Lemma read_report_text rs : Forall record_ok rs -> read_report (report_text rs) = map columns rs.
Proof.
  unfold read_report. induction 1 as [|r rs (H1 & H2 & H3 & H4 & H5) _ IH]; [done|]. unfold report_text. cbn [map concat_str].
  rewrite record_line_text, append_assoc, split_on_app by apply line_text_plain. fold (report_text rs).
  destruct (split_on_cons NL (report_text rs)) as (p & ps & E). rewrite E in *.
  change (removelast (line_text r :: p :: ps)) with (line_text r :: removelast (p :: ps)). cbn [map]. rewrite IH. f_equal.
  unfold urange in *. apply read_line_fields. repeat constructor; lia.
Qed.

(** ** What the report prints *)

(** A record file: the records with their padding. *)
Definition file_bytes (prs : list (list Z * prof_record)) : list Z := concat (map (fun pr => record_bytes pr.1 pr.2) prs).
Definition stored_ok (pr : list Z * prof_record) : Prop := length pr.1 = 4%nat /\ record_ok pr.2.

Lemma process_loop_run n prs junk k out :
  Forall stored_ok prs -> (length junk < sizeof_record)%nat -> (length prs < n)%nat ->
  process_loop n (fun _ => false) false k (file_bytes prs ++ junk) out = Ret (tt, out +:+ report_text (map snd prs)).
Proof.
  intros HF Hj. revert n k out. induction HF as [|[pad r] prs [Hp Hr] _ IH]; intros [|n] k out Hn; simpl in Hn; try lia.
  - simpl. unfold fread_record. rewrite bool_decide_false by lia. by rewrite append_nil_r.
  - cbn [file_bytes map concat process_loop]. rewrite <- app_assoc.
    rewrite (fread_record_bytes pad r _ Hr Hp). cbv iota. erewrite bind_ret by reflexivity. cbn [negb]. cbv iota.
    rewrite (IH n (S k)) by lia. unfold report_text. cbn [map concat_str]. by rewrite append_assoc.
Qed.

Lemma length_file_bytes prs : Forall stored_ok prs -> (length prs <= length (file_bytes prs))%nat.
Proof.
  induction 1 as [|[pad r] prs [Hp Hr] _ IH]; [done|]. cbn [file_bytes map concat]. fold (file_bytes prs).
  rewrite length_app. cbn [fst snd]. rewrite length_record_bytes by done. unfold sizeof_record. simpl. lia.
Qed.

Lemma report_process_run prs junk out rp :
  Forall stored_ok prs -> (length junk < sizeof_record)%nat -> rp_is_count rp = false ->
  report_process (fun _ => false) rp (Some (file_bytes prs ++ junk)) out = Ret (true, out +:+ report_text (map snd prs)).
Proof.
  intros HF Hj Hc. unfold report_process. rewrite Hc. pose proof (length_file_bytes prs HF).
  erewrite bind_ret; [reflexivity|]. apply process_loop_run; [done|done|]. rewrite length_app. lia.
Qed.

(** C7: reporting a record file prints one line per complete record, in order, and
    the text can be read back: its lines, read as decimal numbers, are the time
    stamp, function number, position, event number and count of the records of
    the file.  The padding of the records does not matter, and an incomplete
    record at the end of the file is left out. *)
Theorem report_prints_records prs junk rp :
  Forall stored_ok prs -> (length junk < sizeof_record)%nat -> rp_is_count rp = false ->
  exists text, report_process (fun _ => false) rp (Some (file_bytes prs ++ junk)) "" = Ret (true, text) /\
    read_report text = map columns (map snd prs).
Proof.
  intros HF Hj Hc. eexists. split; [by apply report_process_run|]. apply read_report_text, Forall_map.
  eapply Forall_impl; [done|]. by intros pr [_ ?].
Qed.

Lemma process_loop_count n rd_err k bs out :
  (length bs < n)%nat -> process_loop n rd_err true k bs out = Ret (tt, out).
Proof.
  revert k bs. induction n as [|n IH]; intros k bs Hn; [lia|]. cbn [process_loop].
  destruct (rd_err k); [done|]. unfold fread_record. case_bool_decide as Hl; [|done]. cbv iota.
  unfold processRecord, count_record. destruct (rec_pos _ =? PROF_RECORD_POS_PRE); [|done].
  erewrite bind_ret by reflexivity. cbn [negb]. cbv iota. apply IH. rewrite length_drop. unfold sizeof_record in *. lia.
Qed.

(** The counting mode cannot be used.  Whatever follows on the command line,
    the option -c makes parseArgs fail, because its case falls into the default
    case; and the counting mode itself prints nothing for any file and still
    reports success, because the stack it looks for the entry record on is
    local to the processing of one record. *)
Theorem report_count_unusable args rp rd_err bs out s :
  (exists o, ("c"%char, o) ∈ (getopt "f:c" args).1) ->
  (exists rp', report_parseArgs args rp s = Ret ((false, rp'), s)) /\
  report_process rd_err (mk_ReportTest (rp_datafile rp) true) (Some bs) out = Ret (true, out).
Proof.
  intros [o Ho]. split.
  - unfold report_parseArgs. destruct (getopt "f:c" args) as [es ops]. simpl in Ho |- *. clear ops args.
    assert (exists rp', report_options es rp s = Ret ((false, rp'), s)) as [rp' E].
    { revert rp. induction es as [|[c oa] es IH]; intros rp; [by apply elem_of_nil in Ho|]. cbn [report_options].
      destruct (Ascii.eqb c "f") eqn:Ef; [|eexists; reflexivity]. unfold mbind, M_bind, access_f.
      destruct (_ || _); cbn [negb]; cbv iota; [|eexists; reflexivity]. apply IH.
      apply elem_of_cons in Ho as [[= <- _]|]; [done|done]. }
    rewrite (bind_ret _ _ _ _ _ E). cbn [negb]. cbv iota. by exists rp'.
  - unfold report_process. simpl rp_is_count. erewrite bind_ret by (apply process_loop_count; lia). done.
Qed.

Lemma report_prints_records_witness :
  exists text, report_process (fun _ => false) (mk_ReportTest "prof.1" false)
    (Some (file_bytes [([0; 0; 0; 0], mk_record 5 1 0 0 70); ([1; 2; 3; 4], mk_record 9 1 1 0 80)] ++ [7])) "" = Ret (true, text) /\
  read_report text = [[5; 1; 0; 0; 70]; [9; 1; 1; 0; 80]].
Proof.
  apply (report_prints_records [([0; 0; 0; 0], mk_record 5 1 0 0 70); ([1; 2; 3; 4], mk_record 9 1 1 0 80)] [7]
    (mk_ReportTest "prof.1" false)).
  - repeat constructor; unfold urange; simpl; lia.
  - vm_compute. lia.
  - reflexivity.
Defined.

Lemma report_count_unusable_witness :
  report_process (fun _ => false) (mk_ReportTest "" true) (Some (record_bytes [0; 0; 0; 0] (mk_record 9 1 1 0 80))) "" = Ret (true, "").
Proof.
  refine (proj2 (report_count_unusable ["-c"; "-f"; "prof.1"] ReportTest_new (fun _ => false)
    (record_bytes [0; 0; 0; 0] (mk_record 9 1 1 0 80)) "" (mk_tstate ∅ ∅ 0 0 ∅ []) _)).
  exists None. left.
Defined.
