(* ===== verification/Typed.v ===== *)
(** * The types of what the probe stores: probe/profile.c and profile.h

    struct prof_record has fields of 64, 16, 8, 8 and 64 bits, and the record
    cache of a thread has PROF_RECORD_CACHE slots.  [state_typed] says that every
    record in a file or a cache fits its fields and that every thread's counter
    indexes its cache; all entry points of the probe library keep it. *)
From stdpp Require Import base gmap list strings.
From S2P Require Import Prelude ListHead Pmu ProbeUtil Evsel Evlist Profile ToolBase Report.

Definition tinfo_typed (t : prof_tinfo) : Prop :=
  0 <= ti_nb_record t < PROF_RECORD_CACHE /\ map_Forall (fun _ r => record_ok r) (ti_records t).
Record state_typed (g : gstate) : Prop := {
  st_files : map_Forall (fun _ rs => Forall record_ok rs) (g_files g);
  st_threads : Forall tinfo_typed (in_threads (g_info g))
}.

(** The entry points of the library, as the mutatee calls them. *)
Inductive probe_op : Type :=
| OpInit (me pid : Z) (names : option (list string)) (evlist_str : string) (min_id max_id freq : Z)
| OpThreadInit (pid : Z)
| OpPthreadCreate (ret pid : Z)
| OpEntry (me func_index : Z)
| OpExit (me func_index : Z)
| OpEnd.

Section Typed.
Context `{abi : PerfAbi} `{A : Allocator} `{K : Kernel} `{E : Env}.

Definition run_op (op : probe_op) : M gstate unit :=
  match op with
  | OpInit me pid names str mn mx fr => lprobe_init me pid names str mn mx fr ;; mret tt
  | OpThreadInit pid => lprobe_thread_init pid
  | OpPthreadCreate ret pid => lprobe_pthread_create ret pid ;; mret tt
  | OpEntry me fi => lprobe_func_entry me fi
  | OpExit me fi => lprobe_func_exit me fi
  | OpEnd => lprobe_exit
  end.

(** ** The pieces *)

(** Changes of the memory, the clock or the thread-local variables. *)
Lemma typed_mem g (m : pstate) : state_typed g -> state_typed (eput m g).
Proof. by intros []; split. Qed.
Lemma typed_clock g (c : nat) : state_typed g -> state_typed (eput c g).
Proof. by intros []; split. Qed.
Lemma typed_tls g me t : state_typed g -> state_typed (set_tls g me t).
Proof. by intros []; split. Qed.
Lemma typed_info g i : in_threads i = in_threads (g_info g) -> state_typed g -> state_typed (set_info g i).
Proof. intros Hi []; split; [done|]. simpl. by rewrite Hi. Qed.

Lemma yields_get_tinfo id : yields state_typed tinfo_typed (get_tinfo id).
Proof.
  intros g t g' HP H. unfold get_tinfo in H. destruct (_ <? _); [done|]. destruct (_ !! _) as [x|] eqn:Hx; [|done].
  injection H as <- <-. split; [done|]. destruct HP as [_ HF]. exact (proj1 (Forall_lookup _ _) HF _ _ Hx).
Qed.

Lemma keeps_put_tinfo id t : tinfo_typed t -> keeps state_typed (put_tinfo id t).
Proof. intros Ht. apply keeps_modify. intros g [H1 H2]. split; [done|]. by apply Forall_insert. Qed.

Lemma keeps_get_put id (f : prof_tinfo -> prof_tinfo) :
  (forall t, tinfo_typed t -> tinfo_typed (f t)) -> keeps state_typed (t ← get_tinfo id ; put_tinfo id (f t)).
Proof. intros Hf. eapply keeps_bind_yields; [apply yields_get_tinfo|]. intros t Ht. by apply keeps_put_tinfo, Hf. Qed.

Lemma typed_unchanged t t' :
  ti_nb_record t' = ti_nb_record t -> ti_records t' = ti_records t -> tinfo_typed t -> tinfo_typed t'.
Proof. intros H1 H2 [? ?]. split; [by rewrite H1|by rewrite H2]. Qed.

Lemma typed_reset t : tinfo_typed t -> tinfo_typed (set_nb_record t 0).
Proof. intros [_ ?]. by split. Qed.

Lemma cached_typed t : tinfo_typed t -> Forall record_ok (cached (ti_records t) (ti_nb_record t)).
Proof.
  intros [_ HR]. apply Forall_map, Forall_true. intros i. destruct (ti_records t !! i) as [r|] eqn:Hr; [exact (HR i r Hr)|].
  unfold record_ok, urange. simpl. lia.
Qed.

Lemma typed_append g f rs : Forall record_ok rs -> state_typed g ->
  state_typed (set_files g (<[f := default [] (g_files g !! f) ++ rs]> (g_files g))).
Proof.
  intros Hrs [HF HT]. split; [|done]. simpl. apply map_Forall_insert_2; [|done]. apply Forall_app. split; [|done].
  destruct (g_files g !! f) as [l|] eqn:Hl; [exact (HF f l Hl)|constructor].
Qed.

Lemma keeps_fwrite t : tinfo_typed t -> keeps state_typed (fwrite_records t).
Proof.
  intros Ht. unfold fwrite_records. destruct (ti_output_file t); [|apply keeps_fail]. apply keeps_modify.
  intros g. by apply typed_append, cached_typed.
Qed.

(** ** Recording *)

(** Storing a record: the counter reaches the size of the cache only between the
    store and the flush that resets it. *)
Lemma keeps_push_record_typed id r : record_ok r -> keeps state_typed (push_record id r).
Proof.
  intros Hr g u g' HP H. unfold push_record in H. minv H. assert (PROF_RECORD_CACHE = 65536) as HC by done.
  destruct (yields_get_tinfo id g a s HP Hm) as [HPs [Hn HR]]. destruct (_ <=? _) eqn:El; [done|]. zbool.
  minv H. injection Hm0 as <- <-. set (t1 := set_nb_record (set_records a _) _) in *.
  assert (ti_nb_record t1 = ti_nb_record a + 1) as Hn1.
  { apply uwrap_id. unfold urange. simpl. lia. }
  assert (map_Forall (fun _ r => record_ok r) (ti_records t1)) as HR1 by (by apply map_Forall_insert_2).
  destruct (ti_nb_record t1 =? PROF_RECORD_CACHE) eqn:Ec; zbool.
  - minv H. unfold fwrite_records in Hm0. destruct (ti_output_file t1) as [f|]; [|done]. injection Hm0 as <- <-.
    injection H as <- <-. destruct HPs as [HF HT]. split; simpl.
    + assert (Forall record_ok (cached (ti_records t1) (ti_nb_record t1))) as Hc.
      { apply Forall_map, Forall_true. intros i. destruct (ti_records t1 !! i) as [x|] eqn:Hx; [exact (HR1 i x Hx)|].
        unfold record_ok, urange. simpl. lia. }
      apply map_Forall_insert_2; [|done]. apply Forall_app. split; [|exact Hc].
      destruct (g_files s !! f) as [l|] eqn:Hl; [exact (HF f l Hl)|constructor].
    + rewrite list_insert_insert_eq. by apply Forall_insert.
  - injection H as <- <-. destruct HPs as [HF HT]. split; [done|]. apply Forall_insert; [done|]. split; [lia|done].
Qed.
(** Values that were read from counters fit the record. *)
Lemma reads_range e c v c' : reads e c v c' -> urange 64 v.
Proof.
  unfold reads, prof_evsel__rdpmc. destruct (ev_is_enable e); cbn [negb]; [|by intros [= <- _]].
  destruct (ev_mm_page e =? NULL); [done|]. generalize env_rounds, 0. intros n d. revert d c.
  induction n as [|n IH]; intros d c; [done|]. cbn [mmap_read_self]. intros H. minv H.
  destruct a as [[[[[st cnt] en] ru] d']|]; [|by injection H as <- _].
  destruct st; [|by apply IH in H]. injection H as <- _. apply uwrap_range. lia.
Qed.

(** The loop state of [__read_count]. *)
Definition loop_typed (s : gstate * Z) : Prop := state_typed s.1 /\ urange 8 s.2.

Lemma keeps_read_one_typed id fi pos cyc p :
  urange 64 cyc -> urange 8 pos -> keeps loop_typed (read_one id fi pos cyc p).
Proof.
  intros Hc Hp [g i] u s' [HP Hi] H. unfold read_one in H. simpl in HP, Hi.
  match type of H with match ?x with _ => _ end = _ => destruct x as [[v g']|] eqn:Hm end; [|done].
  injection H as <- <-. split; [|apply uwrap_range; lia]. simpl fst in *. simpl snd in *.
  minv Hm. unfold lift in Hm0. destruct (get_evsel p _) as [[e m]|]; [|done]. injection Hm0 as <- <-.
  minv Hm. unfold lift in Hm0. destruct (prof_evsel__rdpmc _ _ _ _ _ _) as [[c k]|] eqn:Hr; [|done]. injection Hm0 as <- <-.
  apply (keeps_push_record_typed id _) in Hm; [done| |by destruct HP; split].
  split_and!; try done; [apply uwrap_range; lia|by eapply reads_range].
Qed.

Lemma keeps_for_each_typed n el body :
  (forall p, keeps loop_typed (body p)) -> keeps loop_typed (list_for_each_entry n el body).
Proof.
  intros Hb. assert (forall p, keeps loop_typed (lift (rd_next p))) as Hrd.
  { intros p. keeps_step. intros [g i] h [H1 H2]. split; [by apply typed_mem|done]. }
  unfold list_for_each_entry. keeps_step; [apply Hrd|]. generalize a. induction n as [|n IH]; intros p; cbn [for_each_from].
  - apply keeps_fail.
  - keeps_step; [apply keeps_ret|]. keeps_step; [apply Hb|]. keeps_step; [apply Hrd|]. apply IH.
Qed.

Lemma keeps_read_count_typed fi pos id : urange 8 pos -> keeps state_typed (__read_count fi pos id).
Proof.
  intros Hp. unfold __read_count. eapply (keeps_bind_yields _ (urange 64)).
  { intros g c g' HP [= <- <-]. split; [by apply typed_clock|]. apply uwrap_range. lia. }
  intros cyc Hc. keeps_step; [eapply yields_keeps, yields_get_tinfo|]. keeps_step; [apply keeps_fail|].
  keeps_step; [apply keeps_gets|]. intros g u g' HP H. unfold with_index in H.
  match type of H with match ?x with _ => _ end = _ => destruct x as [[v [g1 i]]|] eqn:Hm end; [|done].
  injection H as <- <-. apply keeps_for_each_typed in Hm; [by destruct Hm| |].
  - intros p. by apply keeps_read_one_typed.
  - split; [done|]. by vm_compute.
Qed.

Lemma keeps_func_probe_typed pos me fi : urange 8 pos -> keeps state_typed (func_probe pos me fi).
Proof.
  intros Hp. unfold func_probe. keeps_step; [apply keeps_gets|]. keeps_step; [apply keeps_ret|]. keeps_step.
  { keeps_step; [apply keeps_ret|]. keeps_step; [apply keeps_gets|]. keeps_step; [|apply keeps_ret].
    apply keeps_modify. intros g. apply typed_tls. }
  keeps_step; [|apply keeps_ret]. keeps_step; [eapply yields_keeps, yields_get_tinfo|].
  keeps_step; [apply keeps_ret|by apply keeps_read_count_typed|apply keeps_ret].
Qed.

(** ** Registering and ending *)
Lemma keeps_lift_mem {B} (m : M pstate B) : keeps state_typed (lift m).
Proof. apply keeps_lift. intros g t. apply typed_mem. Qed.

Lemma keeps_create_evlist id : keeps state_typed (__create_evlist id).
Proof.
  unfold __create_evlist. keeps_step; [eapply yields_keeps, yields_get_tinfo|]. keeps_step; [apply keeps_lift_mem|].
  keeps_step; [apply keeps_ret|]. keeps_step; [apply keeps_gets|]. keeps_step; [apply keeps_lift_mem|].
  keeps_step; [keeps_step; [apply keeps_lift_mem|apply keeps_ret]|]. keeps_step; [apply keeps_lift_mem|].
  keeps_step; [keeps_step; [apply keeps_lift_mem|apply keeps_ret]|].
  eapply keeps_bind_yields; [apply yields_get_tinfo|]. intros t Ht. keeps_step; [|apply keeps_ret].
  apply keeps_put_tinfo. by apply (typed_unchanged t).
Qed.

Lemma keeps_fopen_record tid : keeps state_typed (fopen_record tid).
Proof.
  intros g f g' [H1 H2] H. unfold fopen_record in H. destruct (env_fopen tid); injection H as <- <-; [|by split].
  split; [|done]. by apply map_Forall_insert_2.
Qed.

Lemma keeps_init_thread id : keeps state_typed (__init_thread id).
Proof.
  unfold __init_thread. keeps_step; [apply keeps_create_evlist|]. keeps_step.
  { keeps_step; [|apply keeps_ret]. apply keeps_get_put. intros t. by apply typed_unchanged. }
  eapply keeps_bind_yields; [apply yields_get_tinfo|]. intros t Ht. keeps_step; [apply keeps_fopen_record|].
  keeps_step; [apply keeps_put_tinfo; by apply (typed_unchanged t)|]. keeps_step; [apply keeps_ret|].
  apply keeps_get_put. intros t'. by apply typed_unchanged.
Qed.

Lemma keeps_take_slot pid : keeps state_typed (take_slot pid).
Proof.
  unfold take_slot. keeps_step; [apply keeps_gets|]. apply (keeps_get_put a (fun t => set_tid t pid)).
  intros t. by apply typed_unchanged.
Qed.

Lemma keeps_count_and_init : keeps state_typed count_and_init.
Proof.
  unfold count_and_init. keeps_step; [apply keeps_modify; intros g; by apply typed_info|]. keeps_step; [apply keeps_gets|].
  keeps_step; [apply keeps_init_thread|]. apply keeps_modify. intros g. apply typed_info. unfold __update_threadnid.
  by destruct (_ <=? _).
Qed.

Lemma keeps_scan pid names : keeps state_typed (__scan_threads pid names).
Proof.
  unfold __scan_threads. cbv zeta. keeps_step; [keeps_step; [apply keeps_take_slot|apply keeps_count_and_init]|].
  keeps_step. keeps_step; [apply keeps_take_slot|]. keeps_step; [apply keeps_count_and_init|apply keeps_ret].
Qed.

Lemma keeps_init me pid names str mn mx fr : keeps state_typed (lprobe_init me pid names str mn mx fr).
Proof.
  assert (keeps state_typed (fclose_log ;;
    modify (fun g => let i := g_info g in
      set_info g (mk_info (in_evlist_str i) true (in_min_index i) (in_max_index i) (in_sample_freq i) None
        (in_threads i) (in_thread_nb i) (in_thread_nid i))) ;; mret (-1))) as Hfail.
  { keeps_step; [unfold fclose_log; keeps_step; [apply keeps_gets|]; keeps_step; [apply keeps_ret|apply keeps_fail]|].
    keeps_step; [|apply keeps_ret]. apply keeps_modify. intros g. by apply typed_info. }
  unfold lprobe_init. cbv zeta in *. keeps_step; [apply keeps_gets|].
  keeps_step; [apply keeps_modify; intros g; apply typed_tls|]. keeps_step; [apply keeps_lift_mem|].
  keeps_step; [apply keeps_modify; intros g; by apply typed_info|]. keeps_step; [exact Hfail|].
  keeps_step; [apply keeps_scan|]. keeps_step; [apply keeps_gets|]. keeps_step; [apply keeps_gets|].
  keeps_step; [apply keeps_modify; intros g; apply typed_tls|]. keeps_step; [|apply keeps_fail].
  keeps_step; [eapply yields_keeps, yields_get_tinfo|]. keeps_step; [apply keeps_ret|apply keeps_ret|exact Hfail].
Qed.

Lemma keeps_thread_init pid : keeps state_typed (lprobe_thread_init pid).
Proof.
  unfold lprobe_thread_init. keeps_step; [apply keeps_gets|]. keeps_step; [apply keeps_ret|].
  keeps_step; [apply keeps_take_slot|apply keeps_count_and_init].
Qed.

Lemma keeps_destroy id : keeps state_typed (__destroy_tinfo id).
Proof.
  unfold __destroy_tinfo. eapply keeps_bind_yields; [apply yields_get_tinfo|]. intros t Ht. keeps_step.
  { keeps_step; [|apply keeps_ret]. keeps_step.
    - keeps_step; [|apply keeps_ret]. keeps_step; [by apply keeps_fwrite|]. by apply keeps_put_tinfo, typed_reset.
    - apply (keeps_get_put id (fun t => set_output t None)). intros t'. by apply typed_unchanged. }
  eapply keeps_bind_yields; [apply yields_get_tinfo|]. intros t2 Ht2. keeps_step.
  { keeps_step; [|apply keeps_ret]. keeps_step; [apply keeps_lift_mem|]. apply keeps_put_tinfo. by apply (typed_unchanged t2). }
  apply (keeps_get_put id (fun t => set_state (set_tid t (-1)) PROF_STATE_UNINIT)). intros t'. by apply typed_unchanged.
Qed.

Lemma keeps_exit : keeps state_typed lprobe_exit.
Proof.
  unfold lprobe_exit. keeps_step; [apply keeps_gets|]. keeps_step; [apply keeps_ret|].
  keeps_step; [apply keeps_modify; intros g; by apply typed_info|]. keeps_step.
  keeps_step; [eapply yields_keeps, yields_get_tinfo|]. keeps_step; [apply keeps_ret|].
  keeps_step; [apply keeps_ret|apply keeps_destroy|apply keeps_ret].
Qed.

Lemma keeps_run_op op : keeps state_typed (run_op op).
Proof.
  destruct op; simpl.
  - keeps_step; [apply keeps_init|apply keeps_ret].
  - apply keeps_thread_init.
  - keeps_step; [|apply keeps_ret]. unfold lprobe_pthread_create. keeps_step; [|apply keeps_ret].
    keeps_step; [apply keeps_thread_init|apply keeps_ret].
  - by apply keeps_func_probe_typed.
  - by apply keeps_func_probe_typed.
  - apply keeps_exit.
Qed.
End Typed.

Lemma start_typed : state_typed start_state.
Proof.
  split; [apply map_Forall_empty|]. apply (Forall_replicate tinfo_typed (Z.to_nat PROF_THREAD_MAX)). split; [by vm_compute|apply map_Forall_empty].
Qed.

(** C10: the types of the stored data.  From the start of the process, whatever
    sequence of entry points of the probe library is called, in any order, by any
    threads and with any arguments, whatever the system and the hardware answer:
    every record in a record file or in a record cache fits the fields of struct
    prof_record, and the counter of every thread stays below the size of its
    cache, so that storing the next record stays inside it. *)
Theorem probe_state_typed `{PerfAbi, Allocator, Kernel, Env} ops g :
  forM ops run_op start_state = Ret (tt, g) ->
  map_Forall (fun _ rs => Forall record_ok rs) (g_files g) /\
  Forall (fun t => 0 <= ti_nb_record t < PROF_RECORD_CACHE /\ map_Forall (fun _ r => record_ok r) (ti_records t))
    (in_threads (g_info g)).
Proof.
  intros HR. assert (state_typed g) as [? ?]; [|by split].
  refine (keeps_forM state_typed ops run_op (fun op _ => keeps_run_op op) start_state tt g start_typed HR).
Qed.

Lemma probe_state_typed_witness :
  exists g, @forM _ _ [OpInit 100 100 (Some ["."; ".."; "100"; "101"]) "instructions,cpu-cycles:u" 0 10 1;
      OpEntry 100 7; OpEntry 101 70000; OpExit 100 7; OpEnd]
      (@run_op linux_abi all_ok demo_kernel demo_env) start_state = Ret (tt, g) /\
    map_Forall (fun _ rs => Forall record_ok rs) (g_files g).
Proof.
  destruct (forM _ (@run_op linux_abi all_ok demo_kernel demo_env) start_state) as [[[] g]|e] eqn:ER;
    [|exfalso; revert ER; vm_compute; discriminate].
  exists g. split; [reflexivity|]. exact (proj1 (@probe_state_typed linux_abi all_ok demo_kernel demo_env _ g ER)).
Defined.
