(* ===== verification/Count.v ===== *)
(** * Choosing and instrumenting functions: utils/count.cc and count.h

    [CountUtil] finds the target functions of the mutatee, gives each the index
    its function map assigns, and inserts calls of the probe functions.  Methods
    run in [tstate * CountUtil]; what is done to the mutatee is the trace in
    [tstate], each call answered by the class [Dyninst]. *)
From stdpp Require Import base gmap list strings pretty.
From Stdlib Require Import Ascii Sorted.
From S2P Require Import Prelude ProbeUtil ToolBase FuncMap.

Definition LIBCNT : string := "/home/jiaru/lprofile/build/probe/libprobe.so".
Definition LIBTIDOFFSET : string := "tid_offset".
Definition FUNC_INIT : string := "lprobe_init".
Definition FUNC_EXIT : string := "lprobe_exit".
Definition WRAP_TINIT : string := "lprobe_pthread_create".
Definition WRAP_TEXIT : string := "lprobe_pthread_exit".
Definition FUNCC_ARG : string := "f:e:l:F:o:".
Definition PATTERN_ALL : string := "(.*)".
Definition EVLIST_DEF : string := "l1d-read-misses".
Definition LOGFILE_DEF : string := "profile.log".
Definition LIBPTHREAD_NAME : string := "libpthread".

Record TargetFunc : Type := mk_TargetFunc {
  tf_func : bfunction; tf_index : Z; tf_elf : string; tf_is_user : bool }.

(** std::map<std::string, vector<size_t>>, sorted by key. *)
Abbreviation elfmap_t := (list (string * list nat)).

Fixpoint elf_push (m : elfmap_t) (key : string) (x : nat) : elfmap_t :=
  match m with
  | [] => [(key, [x])]
  | (k, l) :: m' =>
      if String.eqb k key then (k, l ++ [x]) :: m'
      else if String.ltb key k then (key, [x]) :: m
      else (k, l) :: elf_push m' key x
  end.

(** The probe functions are null until [loadFunctions] found them. *)
Record probe_funcs : Type := mk_probe_funcs {
  pf_pre : option bfunction; pf_post : option bfunction;
  pf_init : option bfunction; pf_tinit : option bfunction;
  pf_exit : option bfunction; pf_texit : option bfunction }.
Definition no_funcs : probe_funcs := mk_probe_funcs None None None None None None.

Record CountUtil : Type := mk_CountUtil {
  cu_pattern : string; cu_output : string; cu_evlist : string; cu_logfile : string;
  cu_freq : Z;
  cu_libcnt : option bobject;
  cu_funcs : probe_funcs;
  cu_range : Z * Z;
  cu_targets : list TargetFunc;
  cu_elf_targets : elfmap_t
}.

(** The constructor sets the pattern only: [freq] and the range hold whatever was
    in memory. *)
Definition CountUtil_new (freq min max : Z) : CountUtil :=
  mk_CountUtil PATTERN_ALL "" "" "" freq None no_funcs (min, max) [] [].

Definition cu_set_pattern (c : CountUtil) (x : string) : CountUtil :=
  mk_CountUtil x (cu_output c) (cu_evlist c) (cu_logfile c) (cu_freq c) (cu_libcnt c) (cu_funcs c) (cu_range c) (cu_targets c) (cu_elf_targets c).
Definition cu_set_output (c : CountUtil) (x : string) : CountUtil :=
  mk_CountUtil (cu_pattern c) x (cu_evlist c) (cu_logfile c) (cu_freq c) (cu_libcnt c) (cu_funcs c) (cu_range c) (cu_targets c) (cu_elf_targets c).
Definition cu_set_evlist (c : CountUtil) (x : string) : CountUtil :=
  mk_CountUtil (cu_pattern c) (cu_output c) x (cu_logfile c) (cu_freq c) (cu_libcnt c) (cu_funcs c) (cu_range c) (cu_targets c) (cu_elf_targets c).
Definition cu_set_logfile (c : CountUtil) (x : string) : CountUtil :=
  mk_CountUtil (cu_pattern c) (cu_output c) (cu_evlist c) x (cu_freq c) (cu_libcnt c) (cu_funcs c) (cu_range c) (cu_targets c) (cu_elf_targets c).
Definition cu_set_freq (c : CountUtil) (x : Z) : CountUtil :=
  mk_CountUtil (cu_pattern c) (cu_output c) (cu_evlist c) (cu_logfile c) x (cu_libcnt c) (cu_funcs c) (cu_range c) (cu_targets c) (cu_elf_targets c).
Definition cu_set_funcs (c : CountUtil) (lib : option bobject) (x : probe_funcs) : CountUtil :=
  mk_CountUtil (cu_pattern c) (cu_output c) (cu_evlist c) (cu_logfile c) (cu_freq c) lib x (cu_range c) (cu_targets c) (cu_elf_targets c).
Definition cu_set_range (c : CountUtil) (x : Z * Z) : CountUtil :=
  mk_CountUtil (cu_pattern c) (cu_output c) (cu_evlist c) (cu_logfile c) (cu_freq c) (cu_libcnt c) (cu_funcs c) x (cu_targets c) (cu_elf_targets c).
Definition cu_set_targets (c : CountUtil) (x : list TargetFunc) (m : elfmap_t) : CountUtil :=
  mk_CountUtil (cu_pattern c) (cu_output c) (cu_evlist c) (cu_logfile c) (cu_freq c) (cu_libcnt c) (cu_funcs c) (cu_range c) x m.

Abbreviation cstate := (tstate * CountUtil)%type.
#[global] Instance cstate_world : Embed cstate tstate := {| eget := fst; eput := fun t s => (t, s.2) |}.
#[global] Instance cstate_count : Embed cstate CountUtil := {| eget := snd; eput := fun c s => (s.1, c) |}.

Definition skiplib : list string := ["libpapi"; "libpfm"].
Definition osprefix : list string := ["/usr/lib64/"; "/lib64/"; "/usr/local/gcc/"].

(** A filtered object: not a system library, not below a system directory, not a
    measuring library. *)
Definition is_user_object (obj : bobject) : bool :=
  negb (ob_isSystemLib obj) &&
  negb (existsb (fun str => is_prefix str (ob_pathName obj)) osprefix) &&
  negb (existsb (fun str => contains str (ob_name obj)) skiplib).

(** parseOption(). *)
Definition parseOption (opt : ascii) (optarg : option string) : M CountUtil bool :=
  let arg := default "" optarg in
  if Ascii.eqb opt "f" then modify (fun c => cu_set_pattern c arg) ;; mret true
  else if Ascii.eqb opt "o" then modify (fun c => cu_set_output c arg) ;; mret true
  else if Ascii.eqb opt "e" then modify (fun c => cu_set_evlist c arg) ;; mret true
  else if Ascii.eqb opt "F" then
    let freq := u32 (atoi arg) in
    modify (fun c => cu_set_freq c freq) ;; mret (negb (freq =? 0))
  else if Ascii.eqb opt "l" then modify (fun c => cu_set_logfile c arg) ;; mret true
  else mret false.

(** The loop of [calculateRange]. *)
Fixpoint range_loop (l : list TargetFunc) (min max : Z) : Z * Z :=
  match l with
  | [] => (min, max)
  | tf :: l' =>
      let idx := tf_index tf in
      if idx =? UINT_MAX then range_loop l' min max
      else range_loop l' (if idx <? min then idx else min) (if max <? idx then idx else max)
  end.
Definition calculateRange : M CountUtil unit :=
  modify (fun c => cu_set_range c (range_loop (cu_targets c) UINT_MAX 0)).

(** The arguments of lprobe_init. *)
Definition buildInitArgs : M CountUtil (list snippet_arg) :=
  modify (fun c => if String.eqb (cu_evlist c) "" then cu_set_evlist c EVLIST_DEF else c) ;;
  modify (fun c => if String.eqb (cu_logfile c) "" then cu_set_logfile c LOGFILE_DEF else c) ;;
  calculateRange ;;
  gets (fun c => [ConstString (c_str (cu_evlist c)); ConstString (c_str (cu_logfile c));
    ConstUnsigned (cu_range c).1; ConstUnsigned (cu_range c).2; ConstUnsigned (cu_freq c)]).

Definition addTargetFunc (func : bfunction) (idx : Z) (obj : string) (user : bool) : M CountUtil unit :=
  modify (fun c => cu_set_targets c (cu_targets c ++ [mk_TargetFunc func idx obj user])
    (elf_push (cu_elf_targets c) obj (length (cu_targets c)))).

Section Methods.
Context `{System} `{Dyninst}.

(** A call that changes the mutatee, and its result. *)
Definition act (a : action) : M tstate Z := fun s =>
  Ret (dy_answer (ts_trace s) a, mk_tstate (ts_files s) (ts_dirs s) (ts_streams s) (ts_now s) (ts_skiplist s) (ts_trace s ++ [a])).

Definition getUserObjs : list bobject := List.filter is_user_object dy_objects.

(** Running a method of a function map that lives during one call. *)
Definition with_fmap {A} (fm : FuncMap) (m : M fstate A) : M tstate (A * FuncMap) := fun t =>
  match m (t, fm) with
  | Ret (a, (t', fm')) => Ret ((a, fm'), t')
  | Fault e => Fault e
  end.

Definition matchFunc (obj : bobject) (fmap : FuncMap) (pattern : string) : M CountUtil unit :=
  forM (dy_object_find obj pattern) (fun f =>
    let index := getFunctionID fmap (bf_name f) in
    if index =? UINT_MAX then mret tt
    else addTargetFunc f index (ob_name obj) true).

(** The loop of [matchFuncs]; [pos] is [None] for npos. *)
Fixpoint match_loop (n : nat) (obj : bobject) (fmap : FuncMap) (pattern : string) (cur : nat) (pos : option nat) :
    M CountUtil unit :=
  match n with
  | O => fail FFuel
  | S n' =>
      let substr := match pos with
                    | Some p => take_str (p - cur) (drop_str cur pattern)
                    | None => drop_str cur pattern
                    end in
      matchFunc obj fmap (c_str substr) ;;
      match pos with
      | None => mret tt
      | Some p =>
          if bool_decide (String.length pattern <= p + 1)%nat then mret tt
          else match_loop n' obj fmap pattern (p + 1) (find_first_of "," pattern (p + 1))
      end
  end.
Definition matchFuncs (obj : bobject) (fmap : FuncMap) (pattern : string) : M CountUtil unit :=
  match_loop (S (String.length pattern)) obj fmap pattern 0 (find_first_of "," pattern 0).

(** One object: its function map lives until the end of the round. *)
Definition target_object (is_wrap : bool) (obj : bobject) : M cstate bool :=
  '(ok, fmap) ← lift (with_fmap (FuncMap_path (c_str (ob_pathName obj)) is_wrap) (load true)) ;
  (if (ok : bool) then
     pattern ← gets (fun s : cstate => cu_pattern s.2) ;
     lift (matchFuncs obj fmap pattern)
   else mret tt) ;;
  lift (with_fmap fmap FuncMap_destroy) ;;
  mret ok.

Fixpoint target_objects (is_wrap : bool) (objs : list bobject) : M cstate bool :=
  match objs with
  | [] => mret true
  | obj :: objs' => ok ← target_object is_wrap obj ; if (ok : bool) then target_objects is_wrap objs' else mret false
  end.

Definition getTargetFuncs (is_wrap : bool) : M cstate bool :=
  ok ← target_objects is_wrap getUserObjs ;
  if negb ok then mret false else
  n ← gets (fun s : cstate => length (cu_targets s.2)) ;
  mret (negb (bool_decide (n = O))).

(** A null probe function is dereferenced when the expression is built. *)
Definition the_func (f : probe_funcs -> option bfunction) : M cstate bfunction :=
  o ← gets (fun s : cstate => f (cu_funcs s.2)) ;
  match o with Some b => mret b | None => fail FNull end.

Definition insert_one (tf : TargetFunc) : M cstate bool :=
  if negb (tf_is_user tf) then mret true else
  if tf_index tf =? UINT_MAX then mret true else
  if negb (dy_has_point (tf_func tf) BPatch_entry) then mret true else
  if negb (dy_has_point (tf_func tf) BPatch_exit) then mret true else
  let cnt_arg := [ConstUnsigned (tf_index tf)] in
  pre ← the_func pf_pre ;
  post ← the_func pf_post ;
  handle ← lift (act (InsertSnippet (tf_func tf) BPatch_entry pre cnt_arg)) ;
  if handle =? 0 then mret false else
  handle ← lift (act (InsertSnippet (tf_func tf) BPatch_exit post cnt_arg)) ;
  mret (negb (handle =? 0)).

Fixpoint insert_loop (l : list TargetFunc) : M cstate bool :=
  match l with
  | [] => mret true
  | tf :: l' => ok ← insert_one tf ; if (ok : bool) then insert_loop l' else mret false
  end.
Definition insertCount : M cstate bool :=
  l ← gets (fun s : cstate => cu_targets s.2) ; insert_loop l.

Definition clearSnippet : M cstate unit :=
  l ← gets (fun s : cstate => cu_targets s.2) ;
  forM l (fun tf => lift (act (RemoveInstrumentation (tf_func tf))) ;; mret tt).

Definition findFunction (obj : bobject) (name : string) : option bfunction := hd_error (dy_object_find obj name).

Definition loadFunctions : M cstate bool :=
  r ← lift (act (LoadLibrary LIBCNT)) ;
  match (if r =? 0 then None else dy_library LIBCNT) with
  | None => modify (fun s : cstate => (s.1, cu_set_funcs s.2 None (cu_funcs s.2))) ;; mret false
  | Some lib =>
      let pre := findFunction lib FUNC_PRE in let post := findFunction lib FUNC_POST in
      let set pf := modify (fun s : cstate => (s.1, cu_set_funcs s.2 (Some lib) (pf (cu_funcs s.2)))) in
      set (fun o => mk_probe_funcs pre post (pf_init o) (pf_tinit o) (pf_exit o) (pf_texit o)) ;;
      if negb (bool_decide (is_Some pre) && bool_decide (is_Some post)) then mret false else
      let init := findFunction lib FUNC_INIT in let tinit := findFunction lib WRAP_TINIT in
      set (fun o => mk_probe_funcs pre post init tinit (pf_exit o) (pf_texit o)) ;;
      if negb (bool_decide (is_Some init) && bool_decide (is_Some tinit)) then mret false else
      let exit := findFunction lib FUNC_EXIT in let texit := findFunction lib WRAP_TEXIT in
      set (fun o => mk_probe_funcs pre post init tinit exit texit) ;;
      mret (bool_decide (is_Some exit) && bool_decide (is_Some texit))
  end.

Definition findHookSymbol (func_wrap : bfunction) (orgname : string) : option string :=
  let symname := "HOOK_" +:+ orgname in
  if dy_hook_symbol func_wrap symname then Some symname else None.

Definition wrapFunction (funcstr : string) (__wrap : option bfunction) : M cstate bool :=
  match hd_error (dy_image_find ("^" +:+ funcstr)) with
  | None => mret false
  | Some func_orig =>
      libcnt ← gets (fun s : cstate => cu_libcnt s.2) ;
      func_wrap ← (match __wrap with
                   | Some w => mret (Some w)
                   | None =>
                       match libcnt with
                       | None => fail FNull
                       | Some lib => mret (hd_error (dy_object_find lib ("^lprobe_" +:+ funcstr)))
                       end
                   end) ;
      match func_wrap with
      | None => mret false
      | Some func_wrap =>
          match findHookSymbol func_wrap funcstr with
          | None => mret false
          | Some hooksym =>
              r ← lift (act (WrapDynFunction func_orig func_wrap hooksym getUserObjs)) ;
              mret (negb (r =? 0))
          end
      end
  end.

(** The sum of the sizes of the fields before "tid". *)
Fixpoint tid_offset_from (fields : list (string * Z)) (offset : Z) : Z :=
  match fields with
  | [] => offset
  | (name, size) :: fields' =>
      if String.eqb name "tid" then offset else tid_offset_from fields' (u32 (offset + size))
  end.
Definition findTIDOffset : Z :=
  if existsb (fun o => is_prefix LIBPTHREAD_NAME (ob_name o)) dy_objects then
    match dy_pthread_fields with
    | Some (Some fields) => tid_offset_from fields 0
    | _ => UINT32_MAX
    end
  else UINT32_MAX.

Definition wrapPthreadFunc : M cstate bool :=
  let offset := findTIDOffset in
  if offset =? UINT32_MAX then mret true else
  if negb (dy_variable LIBTIDOFFSET) then mret false else
  lift (act (WriteVariable LIBTIDOFFSET offset)) ;;
  tinit ← gets (fun s : cstate => pf_tinit (cu_funcs s.2)) ;
  wrapFunction "pthread_create" tinit.
End Methods.

(** ** Patterns *)

(** The reference: the pieces between commas, without an empty one after the last
    comma. *)
Fixpoint drop_last_empty (l : list string) : list string :=
  match l with
  | [] => []
  | [p] => [p]
  | [p; ""] => [p]
  | p :: l' => p :: drop_last_empty l'
  end.
Definition pieces (pattern : string) : list string := drop_last_empty (split_on "," pattern).

Lemma find_first_of_split c s :
  match find_first_of c s 0 with
  | None => split_on c s = [s]
  | Some k => exists a b, s = a +:+ chr c +:+ b /\ String.length a = k /\ split_on c s = a :: split_on c b
  end.
Proof.
  induction s as [|x s IH]; [done|]. cbn [find_first_of split_on]. destruct (Ascii.eqb x c) eqn:E.
  - apply Ascii.eqb_eq in E as ->. exists "", s. done.
  - destruct (find_first_of c s 0) as [k|]; simpl.
    + destruct IH as (a & b & -> & <- & ->). exists (String x a), b. done.
    + by rewrite IH.
Qed.

Lemma find_first_of_skip c s t : find_first_of c (s +:+ t) (String.length s) = (fun k => String.length s + k)%nat <$> find_first_of c t 0.
Proof.
  induction s as [|a s IH]; [change ("" +:+ t) with t; simpl; by destruct (find_first_of c t 0)|].
  rewrite append_cons. simpl. rewrite IH. by destruct (find_first_of c t 0).
Qed.

Lemma drop_str_app s t : drop_str (String.length s) (s +:+ t) = t.
Proof. induction s; [by destruct t|done]. Qed.

Lemma pieces_cons a b : pieces (a +:+ "," +:+ b) = a :: (if String.eqb b "" then [] else pieces b) \/ has_char "," a = true.
Proof.
  destruct (has_char "," a) eqn:Ha; [by right|]. left.
  pose proof (split_on_app "," a b Ha) as E. change (chr ",") with "," in E.
  unfold pieces. rewrite E. destruct b as [|x b]; [done|]. destruct (split_on_cons "," (String x b)) as (p & ps & Eb).
  rewrite Eb. destruct p as [|y p]; [|by destruct ps]. destruct ps as [|q ps]; [|done].
  exfalso. cbn [split_on] in Eb. destruct (Ascii.eqb x ","); [|by destruct (split_on "," b)].
  destruct (split_on_cons "," b) as (? & ? & E'). rewrite E' in Eb. done.
Qed.

Lemma find_first_of_plain c s k : find_first_of c s 0 = Some k -> has_char c (take_str k s) = false.
Proof.
  revert k. induction s as [|a s IH]; intros k; [done|]. cbn [find_first_of]. destruct (Ascii.eqb a c) eqn:E; [by intros [= <-]|].
  destruct (find_first_of c s 0) as [j|]; [|done]. intros [= <-]. simpl. by rewrite E, (IH j).
Qed.

Section Matching.
Context `{Sy : System} `{Dy : Dyninst}.

Lemma match_loop_pieces n obj fm pre rest c :
  (String.length rest < n)%nat ->
  match_loop n obj fm (pre +:+ rest) (String.length pre) (find_first_of "," (pre +:+ rest) (String.length pre)) c =
  forM (pieces rest) (fun p => matchFunc obj fm (c_str p)) c.
Proof.
  revert pre rest c. induction n as [|n IH]; intros pre rest c Hn; [lia|]. cbn [match_loop].
  rewrite find_first_of_skip, drop_str_app.
  pose proof (find_first_of_split "," rest) as Hs. pose proof (find_first_of_plain "," rest) as Hp.
  destruct (find_first_of "," rest 0) as [k|]; cbn [fmap option_fmap option_map].
  - destruct Hs as (a & b & -> & <- & Hs). specialize (Hp _ eq_refl). rewrite take_str_app in Hp.
    replace (String.length pre + String.length a - String.length pre)%nat with (String.length a) by lia.
    rewrite take_str_app. destruct (pieces_cons a b) as [E|E]; [|congruence]. change (chr ",") with "," in *. rewrite E.
    cbn [forM]. unfold mbind, M_bind. destruct (matchFunc obj fm (c_str a) c) as [[[] c1]|e]; [|done].
    rewrite !length_append in *. simpl String.length in *.
    destruct b as [|x b].
    + rewrite bool_decide_true by (simpl; lia). done.
    + rewrite bool_decide_false by (simpl; lia). cbn [String.eqb].
      assert (pre +:+ a +:+ "," +:+ String x b = (pre +:+ a +:+ ",") +:+ String x b) as Es by (by rewrite !append_assoc).
      rewrite Es. replace (String.length pre + String.length a + 1)%nat with (String.length (pre +:+ a +:+ ","))
        by (rewrite !length_append; simpl; lia).
      apply IH. simpl in *. lia.
  - unfold pieces. rewrite Hs. cbn [drop_last_empty forM]. done.
Qed.

Lemma matchFuncs_pieces obj fm pattern c :
  matchFuncs obj fm pattern c = forM (pieces pattern) (fun p => matchFunc obj fm (c_str p)) c.
Proof. apply (match_loop_pieces _ obj fm "" pattern c). lia. Qed.

(** ** Targets *)

(** The targets a pattern yields in an object. *)
Definition found_targets (obj : bobject) (fm : FuncMap) (pat : string) : list TargetFunc :=
  omap (fun f => let i := getFunctionID fm (bf_name f) in
    if i =? UINT_MAX then None else Some (mk_TargetFunc f i (ob_name obj) true)) (dy_object_find obj pat).

Definition push_target (c : CountUtil) (tf : TargetFunc) : CountUtil :=
  cu_set_targets c (cu_targets c ++ [tf]) (elf_push (cu_elf_targets c) (tf_elf tf) (length (cu_targets c))).
Definition push_targets (c : CountUtil) (l : list TargetFunc) : CountUtil := foldl push_target c l.

Lemma push_targets_targets c l : cu_targets (push_targets c l) = cu_targets c ++ l.
Proof.
  revert c. induction l as [|tf l IH]; intros c; simpl; [by rewrite app_nil_r|]. rewrite IH. simpl. by rewrite <- app_assoc.
Qed.

Lemma push_targets_app c l l' : push_targets c (l ++ l') = push_targets (push_targets c l) l'.
Proof. apply foldl_app. Qed.

Lemma matchFunc_run obj fm pat c :
  matchFunc obj fm pat c = Ret (tt, push_targets c (found_targets obj fm pat)).
Proof.
  unfold matchFunc, found_targets. generalize (dy_object_find obj pat). intros l. revert c.
  induction l as [|f l IH]; intros c; [done|]. cbn [forM omap]. simpl.
  destruct (getFunctionID fm (bf_name f) =? UINT_MAX).
  - erewrite bind_ret by reflexivity. apply IH.
  - erewrite bind_ret by reflexivity. rewrite IH. done.
Qed.

Definition object_targets (obj : bobject) (fm : FuncMap) (pattern : string) : list TargetFunc :=
  concat (map (fun p => found_targets obj fm (c_str p)) (pieces pattern)).

Lemma matchFuncs_run obj fm pattern c :
  matchFuncs obj fm pattern c = Ret (tt, push_targets c (object_targets obj fm pattern)).
Proof.
  rewrite matchFuncs_pieces. unfold object_targets. generalize (pieces pattern). intros l. revert c.
  induction l as [|p l IH]; intros c; [done|]. cbn [forM map concat].
  rewrite (bind_ret _ _ _ _ _ (matchFunc_run _ _ _ _)), IH, push_targets_app. done.
Qed.
End Matching.

(** ** The targets by object *)
Fixpoint elf_get (m : elfmap_t) (key : string) : list nat :=
  match m with
  | [] => []
  | (k, l) :: m' => if String.eqb k key then l else elf_get m' key
  end.

Definition keys_sorted (m : elfmap_t) : Prop := StronglySorted (fun a b => String.ltb a b = true) m.*1.

Lemma ltb_trans a b c : String.ltb a b = true -> String.ltb b c = true -> String.ltb a c = true.
Proof.
  unfold String.ltb. revert b c. induction a as [|x a IH]; intros [|y b] [|z c]; simpl; try done.
  destruct (Ascii.compare x y) eqn:Exy; try done; destruct (Ascii.compare y z) eqn:Eyz; try done.
  - apply Ascii.compare_eq_iff in Exy as ->. rewrite Eyz. apply IH.
  - apply Ascii.compare_eq_iff in Exy as ->. by rewrite Eyz.
  - apply Ascii.compare_eq_iff in Eyz as ->. by rewrite Exy.
  - intros _ _. unfold Ascii.compare in *. 
    assert (N_of_ascii x ?= N_of_ascii z = Lt)%N as ->; [|done].
    apply N.compare_lt_iff. apply (N.lt_trans _ (N_of_ascii y)); by apply N.compare_lt_iff.
Qed.

Lemma ltb_irrefl a : String.ltb a a = false.
Proof. induction a as [|x a IH]; [done|]. unfold String.ltb. simpl. unfold Ascii.compare. by rewrite N.compare_refl. Qed.

Lemma ltb_total a b : String.ltb a b = false -> a <> b -> String.ltb b a = true.
Proof.
  unfold String.ltb. intros Hab Hne. rewrite String.compare_antisym. destruct (String.compare a b) eqn:E; try done.
  by apply String.compare_eq_iff in E.
Qed.

Lemma elf_get_lower m key : Forall (fun k => String.ltb key k = true) m.*1 -> elf_get m key = [].
Proof.
  induction m as [|[k l] m IH]; [done|]. intros HF. inversion HF as [|? ? Hk HF']; subst. simpl.
  destruct (String.eqb k key) eqn:E; [|by apply IH]. apply String.eqb_eq in E as ->. by rewrite ltb_irrefl in Hk.
Qed.

Lemma elf_push_spec m key x :
  keys_sorted m ->
  keys_sorted (elf_push m key x) /\
  (forall k, elf_get (elf_push m key x) k = elf_get m k ++ (if String.eqb key k then [x] else [])) /\
  (forall k, k ∈ (elf_push m key x).*1 <-> k = key \/ k ∈ m.*1).
Proof.
  unfold keys_sorted. induction m as [|[k l] m IH]; intros HS.
  { split; [constructor; constructor|]. split; [intros k; simpl; by destruct (String.eqb key k)|].
    intros k. simpl. rewrite list_elem_of_singleton, elem_of_nil. tauto. }
  rewrite fmap_cons in HS. inversion HS as [|? ? HS' HF]; subst. cbn [elf_push fst] in *.
  destruct (String.eqb k key) eqn:E.
  - apply String.eqb_eq in E as ->. split; [done|]. split.
    + intros k. cbn [elf_get]. destruct (String.eqb key k); [done|]. by rewrite app_nil_r.
    + intros k. rewrite !fmap_cons, !elem_of_cons. simpl. tauto.
  - apply String.eqb_neq in E. destruct (String.ltb key k) eqn:El.
    + assert (Forall (fun j => String.ltb key j = true) m.*1) as HF2.
      { eapply Forall_impl; [exact HF|]. intros j Hj. by apply (ltb_trans key k j). }
      split; [constructor; [done|by constructor]|]. split.
      * intros j. cbn [elf_get]. destruct (String.eqb key j) eqn:Ej; [|by rewrite app_nil_r].
        apply String.eqb_eq in Ej as <-. rewrite (proj2 (String.eqb_neq k key) E). by rewrite elf_get_lower.
      * intros j. rewrite !fmap_cons, !elem_of_cons. simpl. tauto.
    + destruct (IH HS') as (HS2 & Hget & Hkeys). split; [|split].
      * rewrite fmap_cons. constructor; [done|]. apply Forall_forall. intros j [->|Hj]%Hkeys.
        -- by apply ltb_total.
        -- by eapply Forall_forall in HF.
      * intros j. cbn [elf_get]. destruct (String.eqb k j) eqn:Ekj; [|apply Hget].
        apply String.eqb_eq in Ekj as <-. rewrite (proj2 (String.eqb_neq key k)) by done. by rewrite app_nil_r.
      * intros j. rewrite !fmap_cons, !elem_of_cons, Hkeys. simpl. tauto.
Qed.

(** The positions of an object's targets. *)
Fixpoint positions (i : nat) (key : string) (l : list TargetFunc) : list nat :=
  match l with
  | [] => []
  | tf :: l' => (if String.eqb (tf_elf tf) key then [i] else []) ++ positions (S i) key l'
  end.

Lemma positions_app i key l l' : positions i key (l ++ l') = positions i key l ++ positions (i + length l) key l'.
Proof.
  revert i. induction l as [|tf l IH]; intros i; simpl; [by rewrite Nat.add_0_r|]. rewrite IH, <- app_assoc.
  by rewrite Nat.add_succ_r.
Qed.

Record targets_ok (c : CountUtil) : Prop := {
  to_sorted : keys_sorted (cu_elf_targets c);
  to_get : forall key, elf_get (cu_elf_targets c) key = positions 0 key (cu_targets c)
}.

Lemma push_targets_ok c l : targets_ok c -> targets_ok (push_targets c l).
Proof.
  revert c. induction l as [|tf l IH]; intros c [HS HG]; [done|]. apply IH.
  destruct (elf_push_spec (cu_elf_targets c) (tf_elf tf) (length (cu_targets c)) HS) as (HS' & HG' & _).
  split; [done|]. intros key. simpl. rewrite HG', HG, positions_app. simpl. by rewrite app_nil_r.
Qed.

(** ** Finding the targets *)
Section Targets.
Context `{Sy : System} `{Dy : Dyninst}.

Definition object_path (obj : bobject) : string := c_str (ob_pathName obj).

(** The names of the functions of an object, numbered by position. *)
Definition object_names (skip : gset string) (obj : bobject) : list string :=
  match dy_procedures (object_path obj) with
  | Some (Some l) => first_occurrences (filter (fun f => f ∉ skip) (bf_names l))
  | _ => []
  end.
Definition object_map (skip : gset string) (obj : bobject) : FuncMap :=
  fm_with (FuncMap_path (object_path obj) false) (object_names skip obj).

(** What Dyninst and the system must provide for an object. *)
Definition loadable (obj : bobject) : Prop :=
  (exists l, dy_procedures (object_path obj) = Some (Some l)) /\
  sys_fopen (cache_path (FuncMap_path (object_path obj) false)) = true.

(** The part of the world the choice of targets depends on. *)
Definition same_world (t t' : tstate) : Prop :=
  ts_skiplist t' = ts_skiplist t /\ ts_trace t' = ts_trace t /\ ts_streams t' = ts_streams t.

Lemma cache_path_not_dir name d : d ∈ dir_prefixes -> FUNCMAP_DIR +:+ name <> d.
Proof.
  unfold dir_prefixes. intros Hd. set_unfold in Hd. destruct_or! Hd; subst d; discriminate.
Qed.

Lemma target_object_run obj t c :
  loadable obj -> dirs_creatable t ->
  exists t', target_object false obj (t, c) =
      Ret (true, (t', push_targets c (object_targets obj (object_map (ts_skiplist t) obj) (cu_pattern c)))) /\
    same_world t t' /\ dirs_creatable t'.
Proof.
  intros [[l Hl] Hf] Hd. unfold target_object.
  pose proof (load_elf_run t (object_path obj) l Hl Hd Hf) as E. cbv zeta in E. fold (object_path obj).
  erewrite bind_ret by (unfold lift, with_fmap; simpl eget; rewrite E; reflexivity). cbv iota.
  set (t1 := ts_set_files _ _). set (fm := fm_with _ _).
  assert (fm = object_map (ts_skiplist t) obj) as Hfm by (unfold fm, object_map, object_names; by rewrite Hl).
  exists t1. split.
  - erewrite bind_ret.
    2:{ erewrite bind_ret by reflexivity. unfold lift. simpl eget. rewrite matchFuncs_run. reflexivity. }
    erewrite bind_ret by reflexivity. rewrite Hfm. done.
  - split; [done|]. intros d Hdp. destruct (Hd d Hdp) as [? Hfd]. split; [done|]. simpl.
    rewrite lookup_insert_ne; [done|]. by apply cache_path_not_dir.
Qed.

Definition all_targets (skip : gset string) (pattern : string) (objs : list bobject) : list TargetFunc :=
  concat (map (fun obj => object_targets obj (object_map skip obj) pattern) objs).

Lemma push_targets_pattern c l : cu_pattern (push_targets c l) = cu_pattern c.
Proof. revert c. induction l as [|tf l IH]; intros c; [done|]. simpl. by rewrite IH. Qed.

Lemma target_objects_run objs t c :
  Forall loadable objs -> dirs_creatable t ->
  exists t', target_objects false objs (t, c) =
      Ret (true, (t', push_targets c (all_targets (ts_skiplist t) (cu_pattern c) objs))) /\
    same_world t t' /\ dirs_creatable t'.
Proof.
  intros HF. revert t c. induction HF as [|obj objs Ho _ IH]; intros t c Hd; [by exists t|].
  destruct (target_object_run obj t c Ho Hd) as (t1 & E1 & (Hs1 & Ht1 & Hn1) & Hd1).
  destruct (IH t1 (push_targets c (object_targets obj (object_map (ts_skiplist t) obj) (cu_pattern c))) Hd1)
    as (t2 & E2 & (Hs2 & Ht2 & Hn2) & Hd2).
  exists t2. split; [|split; [split_and!; congruence|done]].
  cbn [target_objects]. rewrite (bind_ret _ _ _ _ _ E1). cbv iota. rewrite E2, Hs1, push_targets_pattern.
  unfold all_targets. cbn [map concat]. by rewrite push_targets_app.
Qed.

Lemma object_names_NoDup skip obj : NoDup (object_names skip obj).
Proof.
  unfold object_names. destruct (dy_procedures _) as [[l|]|]; try apply NoDup_nil_2. apply first_occurrences_NoDup.
Qed.

(** The number of a function is its position. *)
Lemma getFunctionID_object skip obj f i :
  Z.of_nat (length (object_names skip obj)) < UINT_MAX ->
  (getFunctionID (object_map skip obj) f = i /\ i <> UINT_MAX) <->
  (0 <= i /\ object_names skip obj !! Z.to_nat i = Some f).
Proof.
  intros Hlen. unfold getFunctionID. simpl. pose proof (object_names_NoDup skip obj) as HN. unfold UINT_MAX in *.
  destruct (index_map 0 (object_names skip obj) !! f) as [n|] eqn:Ei; simpl.
  - apply index_map_lookup in Ei as (k & Hk & ->); [|done]. pose proof (lookup_lt_Some _ _ _ Hk).
    rewrite uwrap_id by (unfold urange; lia). rewrite Z.add_0_l. split.
    + intros [<- _]. rewrite Nat2Z.id. split; [lia|done].
    + intros [H0 Hi]. pose proof (NoDup_lookup _ _ _ _ HN Hk Hi). lia.
  - apply index_map_None in Ei. split; [intros [<- ?]; done|]. intros [_ Hk%list_elem_of_lookup_2]. done.
Qed.

Lemma all_targets_elem skip pattern objs tf :
  tf ∈ all_targets skip pattern objs <->
  exists obj p f, obj ∈ objs /\ p ∈ pieces pattern /\ f ∈ dy_object_find obj (c_str p) /\
    getFunctionID (object_map skip obj) (bf_name f) <> UINT_MAX /\
    tf = mk_TargetFunc f (getFunctionID (object_map skip obj) (bf_name f)) (ob_name obj) true.
Proof.
  unfold all_targets, object_targets, found_targets. rewrite list_elem_of_In, in_concat. setoid_rewrite in_map_iff. split.
  - intros (? & (obj & <- & Hobj%list_elem_of_In) & Hin). apply in_concat in Hin as (? & Hp & Hin).
    apply in_map_iff in Hp as (p & <- & Hp%list_elem_of_In). apply list_elem_of_In, list_elem_of_omap in Hin as (f & Hf & E).
    cbv zeta in E. destruct (_ =? _) eqn:Ei; [done|]. zbool. injection E as <-. exists obj, p, f. by split_and!.
  - intros (obj & p & f & Hobj & Hp & Hf & Hi & ->). eexists. split; [exists obj; split; [reflexivity|by apply list_elem_of_In]|].
    apply in_concat. eexists. split; [apply in_map_iff; exists p; split; [reflexivity|by apply list_elem_of_In]|].
    apply list_elem_of_In, list_elem_of_omap. exists f. split; [done|]. cbv zeta. by rewrite (proj2 (Z.eqb_neq _ _) Hi).
Qed.

Lemma getTargetFuncs_run t freq min max pattern :
  Forall loadable getUserObjs -> dirs_creatable t ->
  let c := cu_set_pattern (CountUtil_new freq min max) pattern in
  let c' := push_targets c (all_targets (ts_skiplist t) pattern getUserObjs) in
  cu_targets c' = all_targets (ts_skiplist t) pattern getUserObjs /\
  exists t', getTargetFuncs false (t, c) = Ret (negb (bool_decide (cu_targets c' = [])), (t', c')) /\ same_world t t'.
Proof.
  intros HF Hd c c'. split; [apply push_targets_targets|].
  destruct (target_objects_run getUserObjs t c HF Hd) as (t' & E & Hsw & _). exists t'. split; [|done].
  change (push_targets c _) with c' in E. unfold getTargetFuncs. rewrite (bind_ret _ _ _ _ _ E). cbn [negb]. cbv iota. erewrite bind_ret by reflexivity.
  unfold mret, M_ret. do 3 f_equal. simpl snd. destruct (cu_targets c'); done.
Qed.

(** The reference: the objects that are profiled, and the targets in them, in order. *)
Definition profiled (obj : bobject) : Prop :=
  ob_isSystemLib obj = false /\
  (forall dir rest, dir ∈ ["/usr/lib64/"; "/lib64/"; "/usr/local/gcc/"] -> ob_pathName obj <> dir +:+ rest) /\
  (forall lib a b, lib ∈ ["libpapi"; "libpfm"] -> ob_name obj <> a +:+ lib +:+ b).
Definition position (f : string) (names : list string) : option nat := fst <$> list_find (fun n => n = f) names.
Definition chosen (skip : gset string) (pattern : string) (objs : list bobject) : list TargetFunc :=
  obj ← objs ; p ← pieces pattern ; f ← dy_object_find obj (c_str p) ;
  match position (bf_name f) (object_names skip obj) with
  | Some i => [mk_TargetFunc f (Z.of_nat i) (ob_name obj) true]
  | None => []
  end.

Lemma is_prefix_spec p s : is_prefix p s = true <-> exists r, s = p +:+ r.
Proof.
  revert s. induction p as [|a p IH]; intros s; simpl; [split; [by exists s|done]|]. destruct s as [|b s]; [split; [done|by intros [r [=]]]|].
  rewrite andb_true_iff, Ascii.eqb_eq, IH. split; [intros (-> & r & ->); by exists r|]. intros (r & [= -> ->]). by split; [|exists r].
Qed.
Lemma contains_spec p s : contains p s = true <-> exists a b, s = a +:+ p +:+ b.
Proof.
  induction s as [|x s IH]; cbn [contains]; rewrite orb_true_iff, is_prefix_spec.
  - split; [intros [[r E]|]; [by exists "", r|done]|]. intros (a & b & E). left. destruct a; [by exists b|done].
  - rewrite IH. split.
    + intros [[r E]|(a & b & ->)]; [by exists "", r|by exists (String x a), b].
    + intros (a & b & E). destruct a as [|y a]; [left; by exists b|right]. injection E as -> ->. by exists a, b.
Qed.
Lemma existsb_false {A} (f : A -> bool) l : existsb f l = false <-> forall x, x ∈ l -> f x = false.
Proof.
  rewrite <- not_true_iff_false, existsb_exists. split.
  - intros Hn x Hx. apply not_true_iff_false. intros Hf. apply Hn. exists x. by split; [apply list_elem_of_In|].
  - intros Hl (x & Hx%list_elem_of_In & Hf). by rewrite (Hl x Hx) in Hf.
Qed.
Lemma is_user_profiled obj : is_user_object obj = true <-> profiled obj.
Proof.
  unfold is_user_object, profiled. rewrite !andb_true_iff, !negb_true_iff, !existsb_false. split.
  - intros [[H1 H2] H3]. split_and!; [done| |].
    + intros dir rest Hd E. specialize (H2 dir Hd). apply not_true_iff_false in H2. apply H2, is_prefix_spec. by exists rest.
    + intros lib a b Hl E. specialize (H3 lib Hl). apply not_true_iff_false in H3. apply H3, contains_spec. by exists a, b.
  - intros (H1 & H2 & H3). split_and!; [done| |].
    + intros dir Hd. apply not_true_iff_false. intros [r E]%is_prefix_spec. by apply (H2 dir r Hd).
    + intros lib Hl. apply not_true_iff_false. intros (a & b & E)%contains_spec. by apply (H3 lib a b Hl).
Qed.

#[export] Instance profiled_dec obj : Decision (profiled obj).
Proof. destruct (is_user_object obj) eqn:E; [left; by apply is_user_profiled|right; intros H%is_user_profiled; congruence]. Defined.
Lemma getUserObjs_profiled : getUserObjs = filter profiled dy_objects.
Proof.
  unfold getUserObjs. generalize dy_objects. intros l. induction l as [|obj l IH]; [done|]. cbn [List.filter]. rewrite filter_cons, IH.
  case_decide as Hp; [by rewrite (proj2 (is_user_profiled obj) Hp)|]. destruct (is_user_object obj) eqn:E; [|done]. by destruct Hp; apply is_user_profiled.
Qed.

(** The number of a function is the first position of its name. *)
Lemma getFunctionID_position skip obj f : Z.of_nat (length (object_names skip obj)) < UINT_MAX ->
  getFunctionID (object_map skip obj) f = match position f (object_names skip obj) with Some i => Z.of_nat i | None => UINT_MAX end.
Proof.
  intros Hl. unfold position. destruct (list_find _ (object_names skip obj)) as [[i y]|] eqn:E; simpl.
  - apply list_find_Some in E as (E & -> & _). apply (proj2 (getFunctionID_object skip obj f (Z.of_nat i) Hl)). rewrite Nat2Z.id. split; [lia|done].
  - destruct (decide (getFunctionID (object_map skip obj) f = UINT_MAX)) as [|Hne]; [done|]. exfalso.
    destruct (proj1 (getFunctionID_object skip obj f _ Hl) (conj eq_refl Hne)) as [_ Hk]. apply list_find_None in E.
    rewrite Forall_forall in E. by apply (E f (list_elem_of_lookup_2 _ _ _ Hk)).
Qed.
Lemma all_targets_chosen skip pattern objs :
  Forall (fun obj => Z.of_nat (length (object_names skip obj)) < UINT_MAX) objs -> all_targets skip pattern objs = chosen skip pattern objs.
Proof.
  unfold all_targets, chosen. induction 1 as [|obj objs Hl _ IH]; [done|]. cbn [map concat]. rewrite bind_cons, IH. f_equal.
  unfold object_targets. generalize (pieces pattern). intros l. induction l as [|p l IHl]; [done|]. cbn [map concat]. rewrite bind_cons, IHl. f_equal.
  unfold found_targets. generalize (dy_object_find obj (c_str p)). intros fs. induction fs as [|f fs IHf]; [done|]. rewrite bind_cons. cbn [omap list_omap]. rewrite IHf. cbv zeta.
  rewrite (getFunctionID_position skip obj (bf_name f) Hl). destruct (position _ _) as [i|] eqn:E; [|by rewrite Z.eqb_refl].
  rewrite (proj2 (Z.eqb_neq _ _)); [done|]. unfold position in E. apply fmap_Some in E as ([j y] & [Hj%lookup_lt_Some _]%list_find_Some & ->). simpl. lia.
Qed.

(** C6: choosing the targets, without wrappers.  The objects that are profiled are those
    Dyninst lists that are no system library, do not lie below one of three system
    directories and are no measuring library, in the order of the list.  If all of
    them can be loaded and their cache files and directories made, and none has
    2^32 - 1 names or more, the list of targets is exactly this, in this order:
    object by object, for every piece of the pattern between commas (an empty
    piece after the last comma is dropped), for every function Dyninst finds for
    the piece, one target with the position of the function's name among the
    names of the object; functions whose name has no position are left out.  It
    fails when there is no target at all.  The list kept for each object file name
    holds exactly the positions of its targets. *)
Theorem targets_complete t freq min max pattern :
  Forall loadable getUserObjs -> dirs_creatable t ->
  Forall (fun obj => Z.of_nat (length (object_names (ts_skiplist t) obj)) < UINT_MAX) getUserObjs ->
  exists t' c', getTargetFuncs false (t, cu_set_pattern (CountUtil_new freq min max) pattern) = Ret (negb (bool_decide (cu_targets c' = [])), (t', c')) /\
    cu_targets c' = chosen (ts_skiplist t) pattern (filter profiled dy_objects) /\ targets_ok c' /\ same_world t t'.
Proof.
  intros HF Hd Hlen. destruct (getTargetFuncs_run t freq min max pattern HF Hd) as (Ht & t' & E & Hsw).
  exists t'. eexists. split_and!; [exact E| |apply push_targets_ok; split; [constructor|done]|done].
  by rewrite Ht, all_targets_chosen, getUserObjs_profiled.
Qed.
End Targets.

(** ** Inserting the probes *)
Section Inserting.
Context `{Sy : System} `{Dy : Dyninst}.

Definition with_trace (t : tstate) (tr : list action) : tstate :=
  mk_tstate (ts_files t) (ts_dirs t) (ts_streams t) (ts_now t) (ts_skiplist t) tr.

(** A target that is instrumented, and the calls that do it. *)
Definition eligible (tf : TargetFunc) : bool :=
  tf_is_user tf && negb (tf_index tf =? UINT_MAX) &&
  dy_has_point (tf_func tf) BPatch_entry && dy_has_point (tf_func tf) BPatch_exit.
Definition probe_calls (pre post : bfunction) (tf : TargetFunc) : list action :=
  if eligible tf then
    [InsertSnippet (tf_func tf) BPatch_entry pre [ConstUnsigned (tf_index tf)];
     InsertSnippet (tf_func tf) BPatch_exit post [ConstUnsigned (tf_index tf)]]
  else [].

(** Whether Dyninst accepts a sequence of calls, and the calls made when the first
    refused one is the last. *)
Fixpoint accepted (tr l : list action) : bool :=
  match l with
  | [] => true
  | a :: l' => negb (dy_answer tr a =? 0) && accepted (tr ++ [a]) l'
  end.
Fixpoint attempted (tr l : list action) : list action :=
  match l with
  | [] => []
  | a :: l' => a :: (if dy_answer tr a =? 0 then [] else attempted (tr ++ [a]) l')
  end.

Lemma accepted_app tr l l' : accepted tr (l ++ l') = accepted tr l && accepted (tr ++ l) l'.
Proof.
  revert tr. induction l as [|a l IH]; intros tr; simpl; [by rewrite app_nil_r|]. by rewrite IH, <- app_assoc, andb_assoc.
Qed.

Lemma attempted_app tr l l' :
  attempted tr (l ++ l') = if accepted tr l then l ++ attempted (tr ++ l) l' else attempted tr l.
Proof.
  revert tr. induction l as [|a l IH]; intros tr; simpl; [by rewrite app_nil_r|]. rewrite IH, <- app_assoc.
  destruct (dy_answer tr a =? 0); simpl; [done|]. by destruct (accepted (tr ++ [a]) l).
Qed.

Lemma attempted_accepted tr l : accepted tr l = true -> attempted tr l = l.
Proof.
  revert tr. induction l as [|a l IH]; intros tr; simpl; [done|]. destruct (dy_answer tr a =? 0); simpl; [done|].
  intros H. by rewrite IH.
Qed.

Lemma attempted_prefix tr l : attempted tr l `prefix_of` l.
Proof.
  revert tr. induction l as [|a l IH]; intros tr; simpl; [done|]. apply prefix_cons.
  destruct (dy_answer tr a =? 0); [apply prefix_nil|apply IH].
Qed.

Lemma act_run a t c : (lift (act a) : M cstate Z) (t, c) = Ret (dy_answer (ts_trace t) a, (with_trace t (ts_trace t ++ [a]), c)).
Proof. done. Qed.

Lemma the_func_run f t c b : f (cu_funcs c) = Some b -> the_func f (t, c) = Ret (b, (t, c)).
Proof. intros Hf. unfold the_func, gets, mbind, M_bind. simpl. by rewrite Hf. Qed.

Lemma insert_one_run t c tf pre post :
  pf_pre (cu_funcs c) = Some pre -> pf_post (cu_funcs c) = Some post ->
  insert_one tf (t, c) = Ret (accepted (ts_trace t) (probe_calls pre post tf),
    (with_trace t (ts_trace t ++ attempted (ts_trace t) (probe_calls pre post tf)), c)).
Proof.
  intros Hpre Hpost. unfold insert_one, probe_calls, eligible.
  assert (forall (ok : bool), ok = true -> Ret (true, (t, c)) = Ret (ok, (with_trace t (ts_trace t ++ []), c))) as Hskip.
  { intros ok ->. rewrite app_nil_r. by destruct t. }
  destruct (tf_is_user tf); cbn [negb andb]; [|by apply Hskip].
  destruct (tf_index tf =? UINT_MAX); cbn [negb andb]; [by apply Hskip|].
  destruct (dy_has_point (tf_func tf) BPatch_entry); cbn [negb andb]; [|by apply Hskip].
  destruct (dy_has_point (tf_func tf) BPatch_exit); cbn [negb andb]; [|by apply Hskip]. cbv zeta.
  rewrite (bind_ret _ _ _ _ _ (the_func_run _ _ _ _ Hpre)), (bind_ret _ _ _ _ _ (the_func_run _ _ _ _ Hpost)).
  rewrite (bind_ret _ _ _ _ _ (act_run _ _ _)). cbn [accepted attempted].
  destruct (dy_answer (ts_trace t) _ =? 0); cbn [negb andb]; [done|].
  rewrite (bind_ret _ _ _ _ _ (act_run _ _ _)). unfold mret, M_ret. cbn [with_trace ts_trace].
  rewrite andb_true_r, <- app_assoc. destruct (dy_answer _ _ =? 0); done.
Qed.

Definition all_probe_calls (pre post : bfunction) (l : list TargetFunc) : list action := concat (map (probe_calls pre post) l).

Lemma insert_loop_run l t c pre post :
  pf_pre (cu_funcs c) = Some pre -> pf_post (cu_funcs c) = Some post ->
  insert_loop l (t, c) = Ret (accepted (ts_trace t) (all_probe_calls pre post l),
    (with_trace t (ts_trace t ++ attempted (ts_trace t) (all_probe_calls pre post l)), c)).
Proof.
  intros Hpre Hpost. revert t. induction l as [|tf l IH]; intros t.
  { simpl. rewrite app_nil_r. by destruct t. }
  cbn [insert_loop]. rewrite (bind_ret _ _ _ _ _ (insert_one_run t c tf pre post Hpre Hpost)).
  unfold all_probe_calls. cbn [map concat]. rewrite accepted_app, attempted_app.
  destruct (accepted (ts_trace t) (probe_calls pre post tf)) eqn:Ea; cbn [andb]; [|done]. cbv iota.
  rewrite IH. cbn [with_trace ts_trace]. rewrite (attempted_accepted _ _ Ea), <- app_assoc. done.
Qed.

Lemma insertCount_run t c pre post :
  pf_pre (cu_funcs c) = Some pre -> pf_post (cu_funcs c) = Some post ->
  insertCount (t, c) = Ret (accepted (ts_trace t) (all_probe_calls pre post (cu_targets c)),
    (with_trace t (ts_trace t ++ attempted (ts_trace t) (all_probe_calls pre post (cu_targets c))), c)).
Proof. intros Hpre Hpost. unfold insertCount. erewrite bind_ret by reflexivity. by apply insert_loop_run. Qed.

(** ** The range of indices *)
Definition valid_index (l : list TargetFunc) (i : Z) : Prop := i <> UINT_MAX /\ exists tf, tf ∈ l /\ tf_index tf = i.

Lemma range_loop_spec l min max :
  let r := range_loop l min max in
  r.1 <= min /\ max <= r.2 /\
  (forall i, valid_index l i -> r.1 <= i <= r.2) /\
  (r.1 = min \/ valid_index l r.1) /\ (r.2 = max \/ valid_index l r.2).
Proof.
  assert (forall tf l i, valid_index l i -> valid_index (tf :: l) i) as Hm.
  { intros tf k i (? & x & Hx & ?). split; [done|]. exists x. split; [by right|done]. }
  revert min max. induction l as [|tf l IH]; intros min max; cbn [range_loop].
  { split_and!; simpl; try lia; try (by left). by intros i (_ & ? & []%elem_of_nil & _). }
  destruct (tf_index tf =? UINT_MAX) eqn:E; zbool.
  - destruct (IH min max) as (H1 & H2 & H3 & H4 & H5). split_and!; try done.
    + intros i (Hi & x & [->|Hx]%elem_of_cons & Ei); [congruence|]. apply H3. split; [done|]. by exists x.
    + destruct H4; [by left|right; auto].
    + destruct H5; [by left|right; auto].
  - set (min' := if tf_index tf <? min then tf_index tf else min).
    set (max' := if max <? tf_index tf then tf_index tf else max).
    assert (valid_index (tf :: l) (tf_index tf)) as Hv by (split; [done|]; exists tf; split; [by left|done]).
    destruct (IH min' max') as (H1 & H2 & H3 & H4 & H5).
    assert (min' <= min /\ min' <= tf_index tf /\ (min' = min \/ min' = tf_index tf)) as (? & ? & Hmin)
      by (unfold min'; destruct (Z.ltb_spec (tf_index tf) min); lia).
    assert (max <= max' /\ tf_index tf <= max' /\ (max' = max \/ max' = tf_index tf)) as (? & ? & Hmax)
      by (unfold max'; destruct (Z.ltb_spec max (tf_index tf)); lia).
    split_and!; try lia.
    + intros i (Hi & x & [->|Hx]%elem_of_cons & <-); [lia|]. apply H3. split; [done|]. by exists x.
    + destruct H4 as [->|]; [|right; auto]. destruct Hmin as [->| ->]; [by left|by right].
    + destruct H5 as [->|]; [|right; auto]. destruct Hmax as [->| ->]; [by left|by right].
Qed.

(** An option that was not given has its default. *)
Definition or_default (s d : string) : string := if String.eqb s "" then d else s.

(** The target indices passed to the probe library: all in range, both ends in use. *)
Lemma init_args_run c :
  Forall (fun tf => 0 <= tf_index tf <= UINT_MAX) (cu_targets c) ->
  exists min max c', buildInitArgs c =
      Ret ([ConstString (c_str (or_default (cu_evlist c) EVLIST_DEF)); ConstString (c_str (or_default (cu_logfile c) LOGFILE_DEF)); ConstUnsigned min; ConstUnsigned max; ConstUnsigned (cu_freq c)], c') /\
    cu_targets c' = cu_targets c /\ cu_funcs c' = cu_funcs c /\ cu_libcnt c' = cu_libcnt c /\ cu_elf_targets c' = cu_elf_targets c /\
    (forall i, valid_index (cu_targets c) i -> min <= i <= max) /\
    ((exists i, valid_index (cu_targets c) i) -> valid_index (cu_targets c) min /\ valid_index (cu_targets c) max).
Proof.
  intros HF. destruct (range_loop_spec (cu_targets c) UINT_MAX 0) as (H1 & H2 & H3 & H4 & H5).
  destruct (range_loop (cu_targets c) UINT_MAX 0) as [min max] eqn:Er. cbn [fst snd] in *.
  unfold buildInitArgs, calculateRange.
  do 3 (erewrite bind_ret by reflexivity). unfold gets.
  assert (forall a b : bool, let c1 := if a then cu_set_evlist c EVLIST_DEF else c in
    let c2 := if b then cu_set_logfile c1 LOGFILE_DEF else c1 in
    cu_targets c2 = cu_targets c /\ cu_freq c2 = cu_freq c /\ cu_funcs c2 = cu_funcs c /\ cu_libcnt c2 = cu_libcnt c /\
    cu_elf_targets c2 = cu_elf_targets c) as Hc by (by intros [] []).
  assert (cu_logfile (if String.eqb (cu_evlist c) "" then cu_set_evlist c EVLIST_DEF else c) = cu_logfile c) as Elog by (by destruct (String.eqb _ _)).
  specialize (Hc (String.eqb (cu_evlist c) "")). cbv zeta in Hc. set (c1 := if String.eqb (cu_evlist c) "" then _ else _) in *.
  specialize (Hc (String.eqb (cu_logfile c1) "")).
  assert (cu_evlist (if String.eqb (cu_logfile c1) "" then cu_set_logfile c1 LOGFILE_DEF else c1) = or_default (cu_evlist c) EVLIST_DEF /\
    cu_logfile (if String.eqb (cu_logfile c1) "" then cu_set_logfile c1 LOGFILE_DEF else c1) = or_default (cu_logfile c) LOGFILE_DEF) as [Hev Hlg].
  { unfold or_default. rewrite Elog. unfold c1. split; destruct (String.eqb (cu_evlist c) "") eqn:Ee, (String.eqb (cu_logfile c) "") eqn:El; done. }
  set (c2 := if String.eqb (cu_logfile c1) "" then _ else _) in *.
  destruct Hc as (Ht & Hfr & Hfu & Hlib & Hel). simpl. rewrite Ht, Hfr, Er, Hev, Hlg. do 3 eexists. split; [reflexivity|].
  split_and!; try done. intros (i & Hi & tf & Htf & <-).
  pose proof (proj1 (Forall_forall _ _) HF tf Htf) as Hr. specialize (H3 (tf_index tf) (conj Hi (ex_intro _ tf (conj Htf eq_refl)))).
  unfold UINT_MAX in *. split.
  - destruct H4 as [->|]; [lia|done].
  - cbn [snd] in *. destruct H5 as [->|]; [|done]. split; [unfold UINT_MAX; lia|]. exists tf. split; [done|lia].
Qed.
End Inserting.

(** ** Evaluation of the model *)
Lemma demo_loadable : Forall (@loadable demo_system demo_dyninst) (@getUserObjs demo_dyninst).
Proof. repeat constructor. by eexists. Qed.

Lemma targets_complete_witness :
  exists t' c', @getTargetFuncs demo_system demo_dyninst false (demo_tstate, cu_set_pattern (CountUtil_new 0 0 0) "main,nothing,work,") =
    Ret (true, (t', c')) /\ map tf_index (cu_targets c') = [0; 0; 1].
Proof.
  destruct (@targets_complete demo_system demo_dyninst demo_tstate 0 0 0 "main,nothing,work,") as (t' & c' & E & _).
  - apply demo_loadable.
  - apply demo_dirs.
  - repeat constructor.
  - exists t', c'. assert (c' = push_targets (cu_set_pattern (CountUtil_new 0 0 0) "main,nothing,work,")
      (@all_targets demo_dyninst ∅ "main,nothing,work," [demo_object])) as ->.
    { destruct (@getTargetFuncs_run demo_system demo_dyninst demo_tstate 0 0 0 "main,nothing,work," demo_loadable demo_dirs)
        as (_ & t1 & E1 & _). rewrite E1 in E. by injection E as _ _ <-. }
    split; [exact E|vm_compute; reflexivity].
Defined.
