(* ===== verification/Tools.v ===== *)
(** * The commands: utils/prof.cc, wrap.cc, replace.cc, tracer.cc, simple.cc,
    funcmaptest.cc and test.cc

    Each command is a class with parseArgs, init, process and destroy, which
    main() runs in turn.  [Muttee] holds the members ProfTest, WrapTest and
    ReplaceTest share; the pointer [muttee_argv] is indeterminate until it is
    assigned, and its release then is a [Fault]. *)
From stdpp Require Import base gmap list strings pretty.
From Stdlib Require Import Ascii.
From S2P Require Import Prelude ListHead Pmu ProbeUtil Evsel Evlist Profile ToolBase FuncMap Report Count.

Inductive run_mode : Type := LPROFILE_MODE_PROC | LPROFILE_MODE_EDIT.
Inductive argv_ptr : Type := Indeterminate | NullArgv | Argv (args : list string).

Record Muttee : Type := mk_Muttee {
  mu_mode : run_mode;
  mu_bin : string;
  mu_output : string;
  mu_argv : argv_ptr;
  mu_count : CountUtil
}.

(** The constructors set the mode only. *)
Definition Muttee_new (freq min max : Z) : Muttee :=
  mk_Muttee LPROFILE_MODE_PROC "" "" Indeterminate (CountUtil_new freq min max).

Definition mu_set_edit (m : Muttee) (out : string) : Muttee :=
  mk_Muttee LPROFILE_MODE_EDIT (mu_bin m) out (mu_argv m) (mu_count m).
Definition mu_set_bin (m : Muttee) (bin : string) : Muttee :=
  mk_Muttee (mu_mode m) bin (mu_output m) (mu_argv m) (mu_count m).
Definition mu_set_argv (m : Muttee) (a : argv_ptr) : Muttee :=
  mk_Muttee (mu_mode m) (mu_bin m) (mu_output m) a (mu_count m).
Definition mu_set_count (m : Muttee) (c : CountUtil) : Muttee :=
  mk_Muttee (mu_mode m) (mu_bin m) (mu_output m) (mu_argv m) c.

Abbreviation mstate := (tstate * Muttee)%type.
#[global] Instance mstate_count : Embed mstate cstate := {|
  eget := fun s => (s.1, mu_count s.2); eput := fun c s => (c.1, mu_set_count s.2 c.2) |}.
#[global] Instance mstate_count_laws : EmbedLaws mstate cstate.
Proof. split; [by intros [? []]|by intros []]. Qed.
#[global] Instance mstate_world : Embed mstate tstate := {| eget := fst; eput := fun t s => (t, s.2) |}.
#[global] Instance mstate_util : Embed mstate CountUtil := {|
  eget := fun s => mu_count s.2; eput := fun c s => (s.1, mu_set_count s.2 c) |}.

(** What parseArgs does: it returns, or calls exit(0). *)
Inductive parsed : Type := Parsed (ok : bool) | Exit0.

Definition getOptStr : string := FUNCC_ARG.

(** zfree(). *)
Definition zfree_argv : M mstate unit :=
  '(_, m) ← get ;
  match mu_argv m with
  | Indeterminate => fail FBadPtr
  | NullArgv => mret tt
  | Argv _ => modify (fun s : mstate => (s.1, mu_set_argv s.2 NullArgv))
  end.

Definition ProfTest_destroy : M mstate unit :=
  '(_, m) ← get ;
  match mu_mode m with LPROFILE_MODE_PROC => zfree_argv | LPROFILE_MODE_EDIT => mret tt end.
Definition WrapTest_destroy : M mstate unit := zfree_argv.
Definition ReplaceTest_destroy : M mstate unit := zfree_argv.

Section Commands.
Context `{Sy : System} `{Dy : Dyninst}.

(** ** Arguments *)

(** The option loop of the three parseArgs. *)
Fixpoint muttee_options (es : list (ascii * option string)) : M mstate parsed :=
  match es with
  | [] => mret (Parsed true)
  | (c, optarg) :: es' =>
      if Ascii.eqb c "w" then
        modify (fun s : mstate => (s.1, mu_set_edit s.2 (default "" optarg))) ;; muttee_options es'
      else if Ascii.eqb c "h" then mret Exit0
      else
        ok ← lift (parseOption c optarg) ;
        if (ok : bool) then muttee_options es' else mret (Parsed false)
  end.

(** The operands: the mutatee and its arguments. *)
Definition muttee_operands (argv : list string) : M mstate parsed :=
  match argv with
  | [] => fail FNull                   (* muttee_bin = argv[0] with a null pointer *)
  | bin :: _ =>
      modify (fun s : mstate => (s.1, mu_set_bin s.2 bin)) ;;
      if negb (sys_exec bin) then mret (Parsed false) else
      '(_, m) ← get ;
      match mu_mode m with
      | LPROFILE_MODE_EDIT => modify (fun s : mstate => (s.1, mu_set_argv s.2 NullArgv)) ;; mret (Parsed true)
      | LPROFILE_MODE_PROC =>
          if negb sys_malloc then
            modify (fun s : mstate => (s.1, mu_set_argv s.2 NullArgv)) ;; mret (Parsed false)
          else modify (fun s : mstate => (s.1, mu_set_argv s.2 (Argv argv))) ;; mret (Parsed true)
      end
  end.

(** [check]: ProfTest tests for a missing operand, WrapTest and ReplaceTest do not. *)
Definition muttee_parseArgs (check : bool) (args : list string) : M mstate parsed :=
  let '(es, ops) := getopt (getOptStr +:+ "w:h") args in
  r ← muttee_options es ;
  match r with
  | Parsed true =>
      if check && bool_decide (ops = []) then mret (Parsed false) else muttee_operands ops
  | _ => mret r
  end.
Definition prof_parseArgs : list string -> M mstate parsed := muttee_parseArgs true.
Definition wrap_parseArgs : list string -> M mstate parsed := muttee_parseArgs false.
Definition replace_parseArgs : list string -> M mstate parsed := muttee_parseArgs false.

(** ** Start *)
Definition muttee_init (is_wrap : bool) : M mstate bool :=
  '(_, m) ← get ;
  r ← lift (act (match mu_mode m with
                 | LPROFILE_MODE_PROC =>
                     ProcessCreate (c_str (mu_bin m)) (match mu_argv m with Argv a => a | _ => [] end)
                 | LPROFILE_MODE_EDIT => OpenBinary (c_str (mu_bin m))
                 end)) ;
  if r =? 0 then mret false else lift (getTargetFuncs is_wrap).
Definition prof_init : M mstate bool := muttee_init false.
Definition wrap_init : M mstate bool := muttee_init true.
Definition replace_init : M mstate bool := muttee_init true.

(** ** lprofile prof *)
Definition findMainModule : option bmodule := bf_module <$> hd_error (dy_image_find "^main").

(** The first function of the list whose module satisfies the test gets the
    callback and is added as a target without an index. *)
Fixpoint insert_callback {S} `{Embed S tstate} `{Embed S CountUtil} (test : bmodule -> bool) (mk : bmodule -> action)
    (funcs : list bfunction) : M S bool :=
  match funcs with
  | [] => mret true
  | f :: funcs' =>
      let m := bf_module f in
      if negb (test m) then insert_callback test mk funcs' else
      handle ← lift (act (mk m)) ;
      if handle =? 0 then mret false else
      lift (addTargetFunc f UINT_MAX (c_str (ob_name (mo_object m))) false) ;;
      mret true
  end.

Definition insertExit : M mstate bool :=
  exit ← lift (the_func pf_exit) ;
  '(_, m) ← get ;
  let funcs := dy_image_find "^_fini" in
  match mu_mode m with
  | LPROFILE_MODE_PROC =>
      match findMainModule with
      | None => mret false
      | Some mainmod =>
          insert_callback (fun md => mo_id md =? mo_id mainmod) (fun md => InsertFiniCallback md exit) funcs
      end
  | LPROFILE_MODE_EDIT =>
      let target_elf := base_name (mu_bin m) in
      insert_callback (fun md => String.eqb target_elf (ob_name (mo_object md))) (fun md => InsertFiniCallback md exit) funcs
  end.

Definition insertInit : M mstate bool :=
  init_arg ← lift buildInitArgs ;
  init ← lift (the_func pf_init) ;
  '(_, m) ← get ;
  match mu_mode m with
  | LPROFILE_MODE_PROC =>
      initret ← lift (act (OneTimeCode init init_arg)) ;
      mret (s32 initret =? 0)
  | LPROFILE_MODE_EDIT =>
      match dy_image_find "^_init" with
      | [] => mret false
      | funcs =>
          let target_elf := base_name (mu_bin m) in
          insert_callback (fun md => String.eqb target_elf (ob_name (mo_object md)))
            (fun md => InsertInitCallback md init init_arg) funcs
      end
  end.

(** while (!proc->isTerminated()) bpatch.waitForStatusChange(); *)
Fixpoint wait_loop (n : nat) : M tstate unit :=
  match n with
  | O => fail FFuel
  | S n' =>
      tr ← gets ts_trace ;
      if dy_terminated tr then mret tt else act WaitForStatusChange ;; wait_loop n'
  end.

(** Running the mutatee, or writing the changed binary. *)
Definition run_or_write (n : nat) : M mstate bool :=
  '(_, m) ← get ;
  match mu_mode m with
  | LPROFILE_MODE_PROC => lift (act ContinueExecution) ;; lift (wait_loop n) ;; mret true
  | LPROFILE_MODE_EDIT => r ← lift (act (WriteFile (c_str (mu_output m)))) ; mret (negb (r =? 0))
  end.

Definition prof_process (n : nat) : M mstate bool :=
  ok ← lift loadFunctions ;
  if negb ok then mret false else
  ok ← insertInit ;
  if negb ok then mret false else
  ok ← lift insertCount ;
  if negb ok then mret false else
  ok ← insertExit ;
  if negb ok then mret false else
  ok ← lift wrapPthreadFunc ;
  if negb ok then mret false else
  run_or_write n.

(** ** lprofile wrap and replace *)
Definition wrap_function (libwrap : bobject) (tf : TargetFunc) : M tstate unit :=
  match findFunction libwrap (getWrapSymbolName (tf_index tf) FUNCMAP_SYMBOL_WRAP) with
  | None => mret tt
  | Some func_wrap =>
      let sym := getWrapSymbolName (tf_index tf) FUNCMAP_SYMBOL_HOOK in
      if negb (dy_hook_symbol func_wrap sym) then mret tt
      else act (WrapFunction (tf_func tf) func_wrap sym) ;; mret tt
  end.

(** The calls of the original are redirected one by one until one fails. *)
Fixpoint redirect (points : list bpoint) (callee : bfunction) : M tstate bool :=
  match points with
  | [] => mret true
  | p :: points' =>
      r ← act (ReplaceFunctionCall p callee) ;
      if r =? 0 then mret false else redirect points' callee
  end.
Definition replace_function (libwrap : bobject) (tf : TargetFunc) : M tstate unit :=
  match findFunction libwrap (getWrapSymbolName (tf_index tf) FUNCMAP_SYMBOL_WRAP) with
  | None => mret tt
  | Some func_wrap =>
      ok ← redirect (dy_caller_points (tf_func tf)) func_wrap ;
      if negb ok then mret tt else
      match List.find (fun p => negb (bool_decide (is_Some (pt_called p)))) (dy_call_points func_wrap) with
      | None => mret tt
      | Some hook_point => act (ReplaceFunctionCall hook_point (tf_func tf)) ;; mret tt
      end
  end.

Definition handleElf (one : bobject -> TargetFunc -> M tstate unit) (elf : string) (targets : list nat) : M mstate unit :=
  let wrap_path := c_str (getWrapFilePath elf FUNCMAP_FILE_LIB) in
  r ← lift (act (LoadLibrary wrap_path)) ;
  match (if r =? 0 then None else dy_library wrap_path) with
  | None => mret tt
  | Some libwrap =>
      forM targets (fun i =>
        l ← gets (fun s : mstate => cu_targets (mu_count s.2)) ;
        match l !! i with
        | Some tf => lift (one libwrap tf)
        | None => fail FBounds
        end)
  end.

Definition muttee_process (one : bobject -> TargetFunc -> M tstate unit) (n : nat) : M mstate bool :=
  elfs ← gets (fun s : mstate => cu_elf_targets (mu_count s.2)) ;
  r ← lift (act (LoadLibrary LIBCNT)) ;
  if (r =? 0) || negb (bool_decide (is_Some (dy_library LIBCNT))) then mret false else
  forM elfs (fun e => handleElf one e.1 e.2) ;;
  run_or_write n.
Definition wrap_process : nat -> M mstate bool := muttee_process wrap_function.
Definition replace_process : nat -> M mstate bool := muttee_process replace_function.
End Commands.

(** ** lprofile tracer *)
Record TracerTest : Type := mk_TracerTest { tr_pid : Z; tr_proc : bool; tr_count : CountUtil }.
Definition TracerTest_new (freq min max : Z) : TracerTest := mk_TracerTest (-1) false (CountUtil_new freq min max).

Abbreviation rstate := (tstate * TracerTest)%type.
#[global] Instance rstate_count : Embed rstate cstate := {|
  eget := fun s => (s.1, tr_count s.2); eput := fun c s => (c.1, mk_TracerTest (tr_pid s.2) (tr_proc s.2) c.2) |}.
#[global] Instance rstate_world : Embed rstate tstate := {| eget := fst; eput := fun t s => (t, s.2) |}.
#[global] Instance rstate_util : Embed rstate CountUtil := {|
  eget := fun s => tr_count s.2; eput := fun c s => (s.1, mk_TracerTest (tr_pid s.2) (tr_proc s.2) c) |}.

Section Tracer.
Context `{Sy : System} `{Dy : Dyninst}.

(** The path of the process is built in a buffer of 64 bytes. *)
Fixpoint tracer_options (es : list (ascii * option string)) : M rstate parsed :=
  match es with
  | [] => mret (Parsed true)
  | (c, optarg) :: es' =>
      if Ascii.eqb c "p" then
        let path := "/proc/" +:+ default "" optarg in
        if bool_decide (64 <= String.length path)%nat then fail FBounds else
        there ← lift (access_f path) ;
        if negb there then mret (Parsed false) else
        modify (fun s : rstate => (s.1, mk_TracerTest (atoi (default "" optarg)) (tr_proc s.2) (tr_count s.2))) ;;
        tracer_options es'
      else if Ascii.eqb c "h" then mret Exit0
      else
        ok ← lift (parseOption c optarg) ;
        if (ok : bool) then tracer_options es' else mret (Parsed false)
  end.
Definition tracer_parseArgs (args : list string) : M rstate parsed :=
  r ← tracer_options (getopt (getOptStr +:+ "p:h") args).1 ;
  match r with
  | Parsed true => pid ← gets (fun s : rstate => tr_pid s.2) ; mret (Parsed (negb (pid =? -1)))
  | _ => mret r
  end.

Definition tracer_init : M rstate bool :=
  pid ← gets (fun s : rstate => tr_pid s.2) ;
  r ← lift (act (ProcessAttach pid)) ;
  if r =? 0 then mret false else
  modify (fun s : rstate => (s.1, mk_TracerTest (tr_pid s.2) true (tr_count s.2))) ;;
  lift (getTargetFuncs false).

Definition callInit : M rstate bool :=
  init_arg ← lift buildInitArgs ;
  init ← lift (the_func pf_init) ;
  init_ret ← lift (act (OneTimeCode init init_arg)) ;
  mret (s32 init_ret =? 0).

Definition tracer_insertExit : M rstate bool :=
  exit ← lift (the_func pf_exit) ;
  match findMainModule with
  | None => mret false
  | Some mainmod =>
      insert_callback (fun md => mo_id md =? mo_id mainmod) (fun md => InsertFiniCallback md exit) (dy_image_find "^_fini")
  end.

Definition tracer_process (n : nat) : M rstate bool :=
  ok ← lift loadFunctions ;
  if negb ok then mret false else
  ok ← callInit ;
  if negb ok then mret false else
  ok ← lift insertCount ;
  if negb ok then mret false else
  ok ← tracer_insertExit ;
  if negb ok then mret false else
  r ← lift (act ContinueExecution) ;
  if r =? 0 then mret false else
  lift (wait_loop n) ;;
  mret true.

(** while (!proc->isStopped()) proc->stopExecution(); *)
Fixpoint stop_loop (n : nat) : M tstate unit :=
  match n with
  | O => fail FFuel
  | S n' =>
      tr ← gets ts_trace ;
      if dy_stopped tr then mret tt else act StopExecution ;; stop_loop n'
  end.

Definition clearSnippets (n : nat) : M rstate unit :=
  tr ← gets (fun s : rstate => ts_trace s.1) ;
  if dy_terminated tr then mret tt else
  lift (stop_loop n) ;; lift clearSnippet.

Definition tracer_destroy (n : nat) : M rstate unit :=
  proc ← gets (fun s : rstate => tr_proc s.2) ;
  tr ← gets (fun s : rstate => ts_trace s.1) ;
  if negb proc || dy_terminated tr then mret tt else
  clearSnippets n ;;
  lift (act Detach) ;; mret tt.
End Tracer.

(** ** lprofile funcmap *)
Record FuncMapTest : Type := mk_FuncMapTest { ft_elf_path : string; ft_force_update : bool; ft_funcmap : option FuncMap }.
Definition FuncMapTest_new : FuncMapTest := mk_FuncMapTest "" false None.
Abbreviation ftstate := (tstate * FuncMapTest)%type.
#[global] Instance ftstate_world : Embed ftstate tstate := {| eget := fst; eput := fun t s => (t, s.2) |}.

Section FuncMapCommand.
Context `{Sy : System} `{Dy : Dyninst}.

Fixpoint funcmap_options (es : list (ascii * option string)) : M ftstate parsed :=
  match es with
  | [] => mret (Parsed true)
  | (c, optarg) :: es' =>
      if Ascii.eqb c "e" then
        there ← lift (access_f (default "" optarg)) ;
        if negb there then mret (Parsed false) else
        modify (fun s : ftstate => (s.1, mk_FuncMapTest (default "" optarg) (ft_force_update s.2) (ft_funcmap s.2))) ;;
        funcmap_options es'
      else if Ascii.eqb c "f" then
        modify (fun s : ftstate => (s.1, mk_FuncMapTest (ft_elf_path s.2) true (ft_funcmap s.2))) ;;
        funcmap_options es'
      else mret (Parsed false)
  end.
Definition funcmap_parseArgs (args : list string) : M ftstate parsed :=
  r ← funcmap_options (getopt "e:f" args).1 ;
  match r with
  | Parsed true => p ← gets (fun s : ftstate => ft_elf_path s.2) ; mret (Parsed (negb (String.eqb p "")))
  | _ => mret r
  end.

Definition funcmap_init : M ftstate bool :=
  '(_, f) ← get ;
  '(ok, fmap) ← lift (with_fmap (FuncMap_path (ft_elf_path f) false) (load (ft_force_update f))) ;
  if negb ok then lift (with_fmap fmap FuncMap_destroy) ;; mret false else
  modify (fun s : ftstate => (s.1, mk_FuncMapTest (ft_elf_path s.2) (ft_force_update s.2) (Some fmap))) ;;
  mret true.
Definition funcmap_process : M ftstate bool := mret true.
Definition funcmap_destroy : M ftstate unit :=
  '(_, f) ← get ;
  match ft_funcmap f with
  | None => mret tt
  | Some fmap =>
      lift (with_fmap fmap FuncMap_destroy) ;;
      modify (fun s : ftstate => (s.1, mk_FuncMapTest (ft_elf_path s.2) (ft_force_update s.2) None))
  end.

(** ** lprofile simple

    Nothing is ever added to [targets]: the statement that did is commented out. *)
Definition SIMPLE_MUTTEE : string := "/home/jiaru/vpp/vpp".
Definition SIMPLE_FUNC : string := "acl_in_l2_ip4_node_fn_avx2".
Definition syslib : list string := ["libc.so"; "libdl.so"; "libpthread.so"].
Definition isSystemLib (obj : bobject) : bool :=
  ob_isSystemLib obj || existsb (fun str => is_prefix str (ob_name obj)) syslib.
Definition findTarget (targets : list bfunction) (targ : string) : list bfunction := targets.
Definition findTargets : bool := negb (bool_decide (findTarget [] SIMPLE_FUNC = [])).
Definition simple_init : M tstate bool :=
  r ← act (ProcessCreate SIMPLE_MUTTEE []) ;
  if r =? 0 then mret false else mret findTargets.
End FuncMapCommand.

(** ** main() *)
Inductive test_mode : Type :=
| TEST_MODE_FUNCMAP | TEST_MODE_PROF | TEST_MODE_WRAP | TEST_MODE_REPLACE | TEST_MODE_REPORT
| TEST_MODE_SIMPLE | TEST_MODE_TRACER | TEST_MODE_HELP.

(** The table of commands, in the order of the modes. *)
Definition cmds : list (string * test_mode) :=
  [("funcmap", TEST_MODE_FUNCMAP); ("prof", TEST_MODE_PROF); ("wrap", TEST_MODE_WRAP); ("replace", TEST_MODE_REPLACE);
   ("report", TEST_MODE_REPORT); ("simple", TEST_MODE_SIMPLE); ("tracer", TEST_MODE_TRACER); ("help", TEST_MODE_HELP)].

Fixpoint find_command (cmd : string) (l : list (string * test_mode)) : option test_mode :=
  match l with
  | [] => None
  | (name, mode) :: l' => if String.eqb cmd name then Some mode else find_command cmd l'
  end.

(** The phases of a test; [delete] is its destructor. *)
Definition run_test {S} (parse : M S parsed) (init process : M S bool) (destroy delete : M S unit) : M S Z :=
  r ← parse ;
  match r with
  | Exit0 => mret 0
  | Parsed false => delete ;; mret 1
  | Parsed true =>
      ok ← init ;
      if negb ok then delete ;; mret 1 else
      ok ← process ;
      destroy ;; delete ;;
      mret (if (ok : bool) then 0 else 1)
  end.

(** A test object that lives during main(). *)
Definition with_test {T A} (o : T) (m : M (tstate * T) A) : M tstate A := fun t =>
  match m (t, o) with
  | Ret (a, (t', _)) => Ret (a, t')
  | Fault e => Fault e
  end.
#[global] Instance report_world : Embed (tstate * (ReportTest * string)) tstate := {| eget := fst; eput := fun t s => (t, s.2) |}.
#[global] Instance report_stdout : Embed (tstate * (ReportTest * string)) string := {|
  eget := fun s => s.2.2; eput := fun o s => (s.1, (s.2.1, o)) |}.

Section Main.
Context `{Sy : System} `{Dy : Dyninst}.

(** [garbage] is the content of uninitialised members, [data] the record files,
    [n] bounds the waiting for the mutatee. *)
Definition main (garbage : Z * Z * Z) (data : string -> option (list Z)) (n : nat) (argv : list string) : M tstate Z :=
  let '(freq, min, max) := garbage in
  match argv with
  | [] => mret 1
  | [_] => mret 1
  | _ :: cmd :: args =>
      match find_command cmd cmds with
      | None => mret 1
      | Some TEST_MODE_HELP => mret 0
      | Some TEST_MODE_FUNCMAP =>
          with_test FuncMapTest_new (run_test (funcmap_parseArgs args) funcmap_init funcmap_process funcmap_destroy (mret tt))
      | Some TEST_MODE_PROF =>
          with_test (Muttee_new freq min max)
            (run_test (prof_parseArgs args) prof_init (prof_process n) (mret tt) ProfTest_destroy)
      | Some TEST_MODE_WRAP =>
          with_test (Muttee_new freq min max)
            (run_test (wrap_parseArgs args) wrap_init (wrap_process n) (mret tt) WrapTest_destroy)
      | Some TEST_MODE_REPLACE =>
          with_test (Muttee_new freq min max)
            (run_test (replace_parseArgs args) replace_init (replace_process n) (mret tt) ReplaceTest_destroy)
      | Some TEST_MODE_REPORT =>
          with_test (ReportTest_new, "")
            (run_test
               ('(_, (rp, out)) ← get ;
                '(ok, rp) ← lift (report_parseArgs args rp) ;
                modify (fun s : tstate * (ReportTest * string) => (s.1, (rp, s.2.2))) ;;
                mret (Parsed ok))
               (mret true)
               ('(_, (rp, _)) ← get ; lift (report_process (fun _ => false) rp (data (rp_datafile rp))))
               (mret tt) (mret tt))
      | Some TEST_MODE_SIMPLE =>
          with_test tt (run_test (mret (Parsed true)) (fun s => match simple_init s.1 with Ret (b, t) => Ret (b, (t, tt)) | Fault e => Fault e end)
            (mret true) (mret tt) (mret tt))
      | Some TEST_MODE_TRACER =>
          with_test (TracerTest_new freq min max)
            (run_test (tracer_parseArgs args) tracer_init (tracer_process n) (tracer_destroy n) (mret tt))
      end
  end.
End Main.

(** ** What prof does to the mutatee *)
Section ProfTheory.
Context `{Sy : System} `{Dy : Dyninst}.

(** The trace was extended by actions of one kind. *)
Definition extended (tr0 : list action) (P : action -> Prop) (t : tstate) : Prop :=
  exists tr, ts_trace t = tr0 ++ tr /\ Forall P tr.

Lemma keeps_act tr0 (P : action -> Prop) a : P a -> keeps (extended tr0 P) (act a).
Proof.
  intros Ha s r s' (tr & Htr & HF) [= <- <-]. exists (tr ++ [a]). simpl. rewrite Htr, app_assoc.
  split; [done|]. apply Forall_app. split; [done|by constructor].
Qed.

(** Code on a component keeps what speaks about that component only. *)
Lemma keeps_on {S T A} `{EmbedLaws S T} (Q : T -> Prop) (m : M T A) :
  keeps Q m -> keeps (fun s : S => Q (eget s)) (lift m).
Proof.
  intros Hk s a s' HQ. unfold lift. destruct (m (eget s)) as [[b t]|e] eqn:E; [|done]. intros [= <- <-].
  rewrite eget_eput. by eapply Hk.
Qed.

Definition is_insert (a : action) : bool := match a with InsertSnippet _ _ _ _ => true | _ => false end.
Definition is_continue (a : action) : bool := match a with ContinueExecution => true | _ => false end.
Definition quiet (a : action) : Prop := is_insert a = false /\ is_continue a = false.

Lemma with_trace_trace t tr tr' : with_trace (with_trace t tr) tr' = with_trace t tr'.
Proof. done. Qed.

Lemma loadFunctions_inv t c t' c' :
  loadFunctions (t, c) = Ret (true, (t', c')) ->
  t' = with_trace t (ts_trace t ++ [LoadLibrary LIBCNT]) /\
  (exists lib pre post init tinit exit texit, dy_library LIBCNT = Some lib /\
     findFunction lib FUNC_PRE = Some pre /\ findFunction lib FUNC_POST = Some post /\ findFunction lib FUNC_INIT = Some init /\ cu_funcs c' =
     mk_probe_funcs (Some pre) (Some post) (Some init) (Some tinit) (Some exit) (Some texit)) /\
  cu_targets c' = cu_targets c /\ cu_freq c' = cu_freq c /\ cu_evlist c' = cu_evlist c /\ cu_logfile c' = cu_logfile c.
Proof.
  unfold loadFunctions. rewrite (bind_ret _ _ _ _ _ (act_run _ _ _)).
  destruct (if _ =? 0 then None else dy_library LIBCNT) as [lib|] eqn:Elib; [|by intros [=]]. cbv zeta.
  assert (dy_library LIBCNT = Some lib) as Hlib by (by destruct (_ =? 0)).
  erewrite bind_ret by reflexivity.
  destruct (findFunction lib FUNC_PRE) as [pre|] eqn:Epre, (findFunction lib FUNC_POST) as [post|] eqn:Epost;
    rewrite ?(bool_decide_true (is_Some (Some _))), ?(bool_decide_false (is_Some None)) by (done || by intros []);
    cbn [andb negb]; try by intros [=].
  erewrite bind_ret by reflexivity.
  destruct (findFunction lib FUNC_INIT) as [init|] eqn:Einit, (findFunction lib WRAP_TINIT) as [tinit|];
    rewrite ?(bool_decide_true (is_Some (Some _))), ?(bool_decide_false (is_Some None)) by (done || by intros []);
    cbn [andb negb]; try by intros [=].
  erewrite bind_ret by reflexivity.
  destruct (findFunction lib FUNC_EXIT) as [ex|], (findFunction lib WRAP_TEXIT) as [tex|];
    rewrite ?(bool_decide_true (is_Some (Some _))), ?(bool_decide_false (is_Some None)) by (done || by intros []);
    cbn [andb negb]; try by intros [=].
  intros [= <- <-]. split_and!; try done. exists lib. do 6 eexists. by split_and!.
Qed.

Abbreviation quiet_since tr0 := (fun s : mstate => extended tr0 quiet s.1 /\ mu_mode s.2 = LPROFILE_MODE_PROC).

Lemma keeps_quiet_act tr0 a : quiet a -> keeps (quiet_since tr0) (lift (act a)).
Proof.
  intros Ha s r s' [He Hm]. unfold lift. simpl. intros [= <- <-]. split; [|done].
  exact (keeps_act tr0 quiet a Ha s.1 _ _ He eq_refl).
Qed.

Lemma keeps_quiet_callback tr0 test mk funcs :
  (forall md, quiet (mk md)) -> keeps (quiet_since tr0) (insert_callback test mk funcs).
Proof.
  intros Hq. induction funcs as [|f funcs IH]; simpl; [auto with lprofile|].
  destruct (test (bf_module f)); cbn [negb]; [|done].
  apply keeps_bind; [by apply keeps_quiet_act|]. intros r. destruct (r =? 0); [auto with lprofile|].
  apply keeps_bind; [|auto with lprofile]. apply keeps_lift. by intros s c [? ?].
Qed.

Lemma keeps_quiet_exit tr0 : keeps (quiet_since tr0) insertExit.
Proof.
  unfold insertExit. apply keeps_bind.
  - intros s b s' HQ. unfold lift, the_func, gets, mbind, M_bind. simpl.
    destruct (pf_exit (cu_funcs (mu_count s.2))); [|done]. intros [= <- <-]. by destruct s as [? []].
  - intros ex. apply keeps_bind; [auto with lprofile|]. intros [t m]. destruct (mu_mode m).
    + destruct findMainModule; [|auto with lprofile]. by apply keeps_quiet_callback.
    + by apply keeps_quiet_callback.
Qed.

Lemma keeps_quiet_wrap tr0 : keeps (quiet_since tr0) (lift wrapPthreadFunc).
Proof.
  intros s b s' [He Hm] E.
  assert (keeps (fun c : cstate => extended tr0 quiet c.1) wrapPthreadFunc) as Hk.
  { assert (forall a, quiet a -> keeps (fun c : cstate => extended tr0 quiet c.1) (lift (act a))) as Ha.
    { intros a Hqa c r c' Hc. unfold lift. simpl. intros [= <- <-]. exact (keeps_act tr0 quiet a Hqa c.1 _ _ Hc eq_refl). }
    unfold wrapPthreadFunc, wrapFunction. repeat first [by apply Ha | keeps_step | done]. }
  unfold lift in E. simpl in E. destruct (wrapPthreadFunc _) as [[b' [t1 c1]]|] eqn:E1; [|done]. injection E as <- <-.
  split; [|done]. exact (Hk (s.1, mu_count s.2) _ (t1, c1) He E1).
Qed.

Lemma wait_loop_trace n t u t' :
  wait_loop n t = Ret (u, t') -> exists k, ts_trace t' = ts_trace t ++ replicate k WaitForStatusChange.
Proof.
  revert t. induction n as [|n IH]; intros t; [done|]. cbn [wait_loop]. unfold gets, mbind, M_bind, act.
  destruct (dy_terminated (ts_trace t)); [intros [= <- <-]; exists O; by rewrite app_nil_r|].
  intros (k & E)%IH. exists (S k). rewrite E. simpl. by rewrite <- app_assoc.
Qed.

Lemma prof_process_run n t m t' m' :
  mu_mode m = LPROFILE_MODE_PROC -> let l := cu_targets (mu_count m) in
  Forall (fun tf => 0 <= tf_index tf <= UINT_MAX) l ->
  prof_process n (t, m) = Ret (true, (t', m')) ->
  exists lib pre post init min max rest k,
    dy_library LIBCNT = Some lib /\ findFunction lib FUNC_PRE = Some pre /\ findFunction lib FUNC_POST = Some post /\ findFunction lib FUNC_INIT = Some init /\
    ts_trace t' = ts_trace t ++
      [LoadLibrary LIBCNT;
       OneTimeCode init [ConstString (c_str (or_default (cu_evlist (mu_count m)) EVLIST_DEF));
                         ConstString (c_str (or_default (cu_logfile (mu_count m)) LOGFILE_DEF));
                         ConstUnsigned min; ConstUnsigned max; ConstUnsigned (cu_freq (mu_count m))]] ++
      all_probe_calls pre post l ++ rest ++ ContinueExecution :: replicate k WaitForStatusChange /\
    Forall quiet rest /\
    (forall i, valid_index l i -> min <= i <= max) /\
    ((exists i, valid_index l i) -> valid_index l min /\ valid_index l max).
Proof.
  intros Hmode l HF E. unfold prof_process in E.
  minv E. destruct a; [|done]. unfold lift in Hm. simpl in Hm.
  destruct (loadFunctions (t, mu_count m)) as [[b [t1 c1]]|] eqn:E1; [|done]. injection Hm as -> <-.
  apply loadFunctions_inv in E1 as (-> & (lib & pre & post & init & tinit & ex & tex & Hlib & Hpre & Hpost & Hinit & Hfu) & Htg & Hfr & Hev & Hlg). cbn [negb fst snd] in E.
  minv E. destruct a; [|done]. unfold insertInit in Hm.
  destruct (init_args_run c1) as (min & max & c2 & E2 & Ht2 & Hf2 & _ & _ & Hin & Hends); [by rewrite Htg|].
  erewrite bind_ret in Hm by (unfold lift; simpl eget; rewrite E2; reflexivity).
  erewrite bind_ret in Hm by (unfold lift; simpl eget; rewrite (the_func_run pf_init _ c2 init) by (by rewrite Hf2, Hfu); reflexivity).
  erewrite bind_ret in Hm by reflexivity. simpl in Hm. rewrite Hmode in Hm.
  unfold lift, act, mbind, M_bind in Hm. simpl in Hm. injection Hm as _ <-. rewrite Hfr, Hev, Hlg in E.
  minv E. destruct a; [|done]. unfold lift in Hm. simpl eget in Hm. cbn [negb] in E.
  rewrite (insertCount_run _ _ pre post) in Hm by (simpl; by rewrite Hf2, Hfu). injection Hm as Hacc <-.
  simpl in Hacc. rewrite Ht2, Htg in Hacc. simpl in E. rewrite Ht2, Htg, (attempted_accepted _ _ Hacc) in E.
  set (tr := (_ ++ all_probe_calls pre post (cu_targets (mu_count m)))) in E.
  minv E. destruct a; [|done]. cbn [negb] in E. minv E. destruct a; [|done]. cbn [negb] in E.
  assert (quiet_since tr s0) as [(rest & Hrest & HQ) Hmd].
  { eapply keeps_quiet_wrap; [|exact Hm0]. eapply keeps_quiet_exit; [|exact Hm]. split; [|done].
    exists []. by rewrite app_nil_r. }
  unfold run_or_write in E. destruct s0 as [t5 m5]. simpl in Hrest, Hmd.
  erewrite bind_ret in E by reflexivity. cbv iota beta in E. rewrite Hmd in E. minv E. minv E. injection E as ->.
  unfold lift in Hm1, Hm2. simpl in Hm1, Hm2. injection Hm1 as _ <-. simpl in Hm2.
  destruct (wait_loop n _) as [[u t6]|] eqn:Ew; [|done]. injection Hm2 as _ <- _.
  apply wait_loop_trace in Ew as [k Hk]. simpl in Hk. rewrite Hrest in Hk. unfold tr in Hk.
  exists lib, pre, post, init, min, max, rest, k. split_and!; try done.
  - simpl. rewrite Hk. fold l. rewrite <- !app_assoc. done.
  - rewrite Htg in Hin. exact Hin.
  - rewrite Htg in Hends. exact Hends.
Qed.

(** C5: instrumenting a running mutatee.  Whenever prof succeeds on a process, it
    did exactly this, in this order: load the probe library; run its lprobe_init
    once with the event list, the log file (each the default when the option was
    not given), the range of indices and the frequency; for every instrumentable
    target insert a call of lprobe_func_entry at its entry and one of
    lprobe_func_exit at its exit, each with the target's index; then only calls that insert no probe; then let the
    process run, and wait for its end.  Every index a probe is inserted with
    lies in the range lprobe_init was given, and both ends of the range are indices
    of targets.  The frequency is whatever memory held unless the option -F set it. *)
Theorem prof_process_instruments n t m t' m' :
  mu_mode m = LPROFILE_MODE_PROC -> let l := cu_targets (mu_count m) in
  Forall (fun tf => 0 <= tf_index tf <= UINT_MAX) l ->
  prof_process n (t, m) = Ret (true, (t', m')) ->
  exists lib entry exit init min max rest k,
    dy_library LIBCNT = Some lib /\ findFunction lib "lprobe_func_entry" = Some entry /\ findFunction lib "lprobe_func_exit" = Some exit /\
    findFunction lib "lprobe_init" = Some init /\
    ts_trace t' = ts_trace t ++
      [LoadLibrary LIBCNT;
       OneTimeCode init [ConstString (c_str (or_default (cu_evlist (mu_count m)) "l1d-read-misses"));
                         ConstString (c_str (or_default (cu_logfile (mu_count m)) "profile.log"));
                         ConstUnsigned min; ConstUnsigned max; ConstUnsigned (cu_freq (mu_count m))]] ++
      concat (map (fun tf => if eligible tf then
        [InsertSnippet (tf_func tf) BPatch_entry entry [ConstUnsigned (tf_index tf)];
         InsertSnippet (tf_func tf) BPatch_exit exit [ConstUnsigned (tf_index tf)]] else []) l) ++ rest ++ ContinueExecution :: replicate k WaitForStatusChange /\
    Forall quiet rest /\
    (forall i, valid_index l i -> min <= i <= max) /\
    ((exists i, valid_index l i) -> valid_index l min /\ valid_index l max).
Proof.
  intros Hmode l HF E.
  destruct (prof_process_run n t m t' m' Hmode HF E)
    as (lib & pre & post & init & min & max & rest & k & Hl & Hpre & Hpost & Hinit & Ht & Hq & Hin & Hends).
  exists lib, pre, post, init, min, max, rest, k. by split_and!.
Qed.
End ProfTheory.

(** ** Rejected arguments *)
Section Rejected.
Context `{Sy : System} `{Dy : Dyninst}.

Abbreviation argv_unset := (fun s : mstate => mu_argv s.2 = Indeterminate).

Lemma keeps_options es : keeps argv_unset (muttee_options es).
Proof. induction es as [|[c oa] es IH]; simpl; repeat (keeps_step || by intros). Qed.

(** A rejected command line leaves [muttee_argv] unassigned. *)
Lemma rejected_unset check args t freq min max t' m' :
  sys_malloc = true -> muttee_parseArgs check args (t, Muttee_new freq min max) = Ret (Parsed false, (t', m')) ->
  mu_argv m' = Indeterminate.
Proof.
  intros Hmal. unfold muttee_parseArgs. destruct (getopt _ args) as [es ops]. intros E. minv E.
  pose proof (keeps_options es (t, Muttee_new freq min max) a s eq_refl Hm) as Hs.
  destruct a as [[]|]; [|by injection E as ->|done].
  destruct (check && bool_decide (ops = [])); [by injection E as ->|]. unfold muttee_operands in E.
  destruct ops as [|bin ops]; [done|]. minv E. injection Hm0 as <- <-.
  destruct (sys_exec bin); cbn [negb] in E; [|by injection E as _ <-].
  erewrite bind_ret in E by reflexivity. simpl in E. rewrite Hmal in E. cbn [negb] in E.
  destruct (mu_mode s.2); by minv E.
Qed.

(** C39: a rejected command line crashes the tool.  When parseArgs of prof fails
    before the mutatee's arguments are stored (an unknown option, no mutatee, or
    one that cannot be executed), main() deletes the test, whose destructor
    releases a pointer that was never assigned, unless -w selected the binary
    editor; wrap and replace release it in either mode. *)
Theorem rejected_arguments_fault garbage data n prog args t t' m' :
  sys_malloc = true ->
  let m := Muttee_new garbage.1.1 garbage.1.2 garbage.2 in
  (prof_parseArgs args (t, m) = Ret (Parsed false, (t', m')) ->
   main garbage data n (prog :: "prof" :: args) t =
     match mu_mode m' with LPROFILE_MODE_PROC => Fault FBadPtr | LPROFILE_MODE_EDIT => Ret (1, t') end) /\
  (wrap_parseArgs args (t, m) = Ret (Parsed false, (t', m')) ->
   main garbage data n (prog :: "wrap" :: args) t = Fault FBadPtr /\
   main garbage data n (prog :: "replace" :: args) t = Fault FBadPtr).
Proof.
  intros Hmal m. destruct garbage as [[freq min] max]. simpl in m.
  assert (mu_argv m' = Indeterminate -> zfree_argv (t', m') = Fault FBadPtr) as Hfree.
  { intros Hi. unfold zfree_argv. erewrite bind_ret by reflexivity. simpl. by rewrite Hi. }
  split; intros E; pose proof (rejected_unset _ _ _ _ _ _ _ _ Hmal E) as Hi.
  - unfold main. simpl. unfold with_test, run_test. fold m. rewrite (bind_ret _ _ _ _ _ E). cbv iota.
    unfold ProfTest_destroy. destruct (mu_mode m') eqn:Em.
    + erewrite bind_fault; [done|]. erewrite bind_ret by reflexivity. simpl. rewrite Em. auto.
    + rewrite (bind_ret _ _ _ tt (t', m')); [reflexivity|]. erewrite bind_ret by reflexivity. simpl. by rewrite Em.
  - unfold main. simpl. unfold with_test, run_test. fold m. unfold replace_parseArgs. unfold wrap_parseArgs in E.
    rewrite !(bind_ret _ _ _ _ _ E). cbv iota. split; by rewrite (bind_fault _ _ _ _ (Hfree Hi)).
Qed.

(** simple never gets past its start, whatever Dyninst answers. *)
Lemma simple_never_runs garbage data n prog args t :
  exists t', main garbage data n (prog :: "simple" :: args) t = Ret (1, t').
Proof.
  destruct garbage as [[freq min] max]. unfold main. simpl. unfold with_test, run_test, simple_init, mbind, M_bind, act, mret, M_ret.
  simpl. destruct (dy_answer _ _ =? 0); simpl; eauto.
Qed.

(** A long process id overruns the buffer its path is built in. *)
Lemma tracer_long_pid arg t tr :
  (58 <= String.length arg)%nat -> tracer_parseArgs ["-p"; arg] (t, tr) = Fault FBounds.
Proof.
  intros Hl. unfold tracer_parseArgs. change (getopt (getOptStr +:+ "p:h") ["-p"; arg]) with ([("p"%char, Some arg)], @nil string).
  apply bind_fault. cbn [fst tracer_options]. change (Ascii.eqb "p" "p") with true. cbv iota zeta.
  rewrite bool_decide_true; [done|]. rewrite length_append. simpl. lia.
Qed.
End Rejected.

(** ** Evaluation of the model *)
Definition demo_count : CountUtil :=
  push_targets (CountUtil_new 7 0 0)
    [mk_TargetFunc (demo_function 10 "main") 0 "a.out" true; mk_TargetFunc (demo_function 11 "work") 1 "a.out" true].
Definition demo_muttee : Muttee := mk_Muttee LPROFILE_MODE_PROC "/tmp/a.out" "" (Argv ["/tmp/a.out"]) demo_count.

Lemma prof_process_instruments_witness :
  exists t' m', @prof_process demo_dyninst 20 (demo_tstate, demo_muttee) = Ret (true, (t', m')) /\
    exists tr, ts_trace t' = LoadLibrary LIBCNT :: tr.
Proof.
  destruct (@prof_process demo_dyninst 20 (demo_tstate, demo_muttee)) as [[b [t' m']]|] eqn:E;
    [|exfalso; revert E; vm_compute; discriminate].
  assert (b = true) as ->.
  { destruct b; [reflexivity|]. exfalso. revert E. vm_compute. discriminate. }
  exists t', m'. split; [reflexivity|].
  destruct (@prof_process_instruments demo_dyninst 20 demo_tstate demo_muttee t' m') as (lib & pre & post & init & min & max & rest & k & _ & _ & _ & _ & Ht & _).
  - reflexivity.
  - repeat constructor; vm_compute; discriminate.
  - exact E.
  - rewrite Ht. eexists. reflexivity.
Defined.

Lemma rejected_arguments_fault_witness :
  @main demo_system demo_dyninst (0, 0, 0) (fun _ => None) 5 ["lprofile"; "prof"; "-z"] demo_tstate = Fault FBadPtr.
Proof.
  refine (proj1 (@rejected_arguments_fault demo_system demo_dyninst (0, 0, 0) (fun _ => None) 5 "lprofile" ["-z"] demo_tstate
    demo_tstate (Muttee_new 0 0 0) eq_refl) _).
  vm_compute. reflexivity.
Defined.
