(* ===== verification/Pipeline.v ===== *)
(** * From the instrumenter to the report

    The parts of lprofile meet in the indices: the function map numbers the
    functions (FuncMap), the instrumenter inserts probes with these numbers
    (Count, Tools), the probe stores them in records of 16 bits (Profile), and the
    report prints them (Report).  This file follows a function through all of
    them. *)
From stdpp Require Import base gmap list strings pretty.
From Stdlib Require Import Ascii.
From S2P Require Import Prelude ListHead Pmu ProbeUtil Evsel Evlist Profile ToolBase FuncMap Report Typed Count Tools.

(** ** The instrumented program

    What an inserted snippet does: when control passes the point it was inserted
    at, the call is made with the constant arguments. *)
Definition snippet_call (f : bfunction) (loc : procedureLocation) (a : action) : option (Z * Z) :=
  match a with
  | InsertSnippet g l callee [ConstUnsigned i] =>
      if decide (g = f /\ l = loc) then
        if String.eqb (bf_name callee) FUNC_PRE then Some (PROF_RECORD_POS_PRE, i)
        else if String.eqb (bf_name callee) FUNC_POST then Some (PROF_RECORD_POS_POST, i)
        else None
      else None
  | _ => None
  end.

(** The probe calls made when control passes a point of a function. *)
Definition executes (tr : list action) (f : bfunction) (loc : procedureLocation) : list (Z * Z) :=
  omap (snippet_call f loc) tr.

(** A run of a thread: the points it passes, each with the calls made there. *)
Definition run_hits (tr : list action) (run : list (bfunction * procedureLocation)) : list (bfunction * (Z * Z)) :=
  concat (map (fun e => map (pair e.1) (executes tr e.1 e.2)) run).

Definition pos_of (loc : procedureLocation) : Z :=
  match loc with BPatch_entry => PROF_RECORD_POS_PRE | BPatch_exit => PROF_RECORD_POS_POST end.

Section Executes.
Context `{Dy : Dyninst}.

Lemma omap_none {A B} (f : A -> option B) (l : list A) : Forall (fun x => f x = None) l -> omap f l = [].
Proof. induction 1 as [|x l Hx _ IH]; [done|]. simpl. by rewrite Hx. Qed.

Lemma executes_quiet tr f loc : Forall (fun a => is_insert a = false) tr -> executes tr f loc = [].
Proof. intros HF. apply omap_none. eapply Forall_impl; [exact HF|]. by intros []. Qed.

(** The probes of the instrumentable targets, at both ends. *)
Lemma executes_probes pre post l f loc :
  bf_name pre = FUNC_PRE -> bf_name post = FUNC_POST ->
  executes (all_probe_calls pre post l) f loc =
  map (fun tf => (pos_of loc, tf_index tf)) (filter (fun tf => eligible tf = true /\ tf_func tf = f) l).
Proof.
  intros Hpre Hpost. unfold executes, all_probe_calls. induction l as [|tf l IH]; [done|].
  cbn [map concat]. rewrite omap_app, IH, filter_cons. unfold probe_calls.
  destruct (eligible tf); [|by rewrite decide_False by (by intros [])].
  cbn [omap list_omap snippet_call]. rewrite Hpre, Hpost. cbn [String.eqb].
  destruct (decide (tf_func tf = f)) as [Hf|Hf].
  - rewrite (decide_True (P := true = true /\ tf_func tf = f)) by done. destruct loc.
    + rewrite decide_True by done. rewrite decide_False by (by intros [_ ?]). done.
    + rewrite decide_False by (by intros [_ ?]). rewrite decide_True by done. done.
  - rewrite !decide_False by (by intros [? ?]). done.
Qed.
End Executes.

(** ** The whole way *)
Section Pipeline.
Context `{Sy : System} `{Dy : Dyninst} `{E : Env}.

(** The records of one probe call: one per event of the list, numbered, at the
    right end of the function, under the number that names it. *)
Definition names_function (names : list string) (nev : nat) (hit : bfunction * (Z * Z)) (rs : list prof_record) : Prop :=
  length rs = nev /\
  forall k r, rs !! k = Some r ->
    rec_ev_idx r = u8 (Z.of_nat k) /\ rec_pos r = hit.2.1 /\ rec_func_idx r = hit.2.2 /\
    names !! Z.to_nat (rec_func_idx r) = Some (bf_name hit.1).

Lemma call_records_names m ps names hit rs :
  call_records m ps hit.2 rs -> 0 <= hit.2.2 < 2 ^ 16 -> names !! Z.to_nat hit.2.2 = Some (bf_name hit.1) ->
  names_function names (length ps) hit rs.
Proof.
  intros (clk & vs & clk' & -> & Hl%read_seq_length) Hi Hn. unfold probe_records. split; [by rewrite length_imap|].
  intros k r Hk. rewrite list_lookup_imap in Hk. destruct (vs !! k); [|done]. injection Hk as <-. simpl.
  rewrite (uwrap_id 16) by done. by split_and!.
Qed.

Lemma read_seq_range m ps c vs c' : read_seq m ps c vs c' -> Forall (urange 64) vs.
Proof.
  revert c vs. induction ps as [|p ps IH]; intros c [|v vs]; simpl; try done.
  intros (e & c1 & _ & Hr & H). constructor; [by eapply reads_range|by eapply IH].
Qed.

(** Every record of a call fits the format. *)
Lemma call_records_ok m ps c rs : urange 8 c.1 -> call_records m ps c rs -> Forall record_ok rs.
Proof.
  intros Hc (clk & vs & clk' & -> & HF%read_seq_range). apply Forall_lookup. intros k r Hk. unfold probe_records in Hk.
  rewrite list_lookup_imap in Hk. destruct (vs !! k) as [v|] eqn:Ev; [|done]. injection Hk as <-.
  pose proof (proj1 (Forall_lookup _ _) HF k v Ev). unfold record_ok. simpl.
  split_and!; try done; apply uwrap_range; lia.
Qed.
End Pipeline.

Section EndToEnd.
Context `{Sy : System} `{Dy : Dyninst} `{E : Env}.

(** The probe library answers a search for a probe function with that function. *)
Definition probe_library_ok : Prop :=
  forall lib, dy_library LIBCNT = Some lib ->
    (forall f, findFunction lib FUNC_PRE = Some f -> bf_name f = FUNC_PRE) /\
    (forall f, findFunction lib FUNC_POST = Some f -> bf_name f = FUNC_POST).

(** A target of an object carries the position of its function's name. *)
Lemma object_target_index skip pattern obj tf :
  Z.of_nat (length (object_names skip obj)) <= 2 ^ 16 -> tf ∈ all_targets skip pattern [obj] ->
  0 <= tf_index tf < 2 ^ 16 /\ object_names skip obj !! Z.to_nat (tf_index tf) = Some (bf_name (tf_func tf)).
Proof.
  intros Hlen (obj' & p & f & ->%list_elem_of_singleton & _ & _ & Hi & ->)%all_targets_elem. simpl.
  assert (Z.of_nat (length (object_names skip obj)) < UINT_MAX) as Hl by (unfold UINT_MAX; lia).
  destruct (proj1 (getFunctionID_object skip obj (bf_name f) _ Hl) (conj eq_refl Hi)) as [H0 Hk].
  split; [|done]. pose proof (lookup_lt_Some _ _ _ Hk). lia.
Qed.

(** The calls made at a point of the instrumented process: one per target that is
    that function, with its index. *)
Lemma prof_process_executes n t m t' m' f loc :
  mu_mode m = LPROFILE_MODE_PROC -> Forall (fun tf => 0 <= tf_index tf <= UINT_MAX) (cu_targets (mu_count m)) ->
  Forall (fun a => is_insert a = false) (ts_trace t) -> probe_library_ok ->
  prof_process n (t, m) = Ret (true, (t', m')) ->
  executes (ts_trace t') f loc =
    map (fun tf => (pos_of loc, tf_index tf)) (filter (fun tf => eligible tf = true /\ tf_func tf = f) (cu_targets (mu_count m))).
Proof.
  intros Hmode HF Hq Hlib EP.
  destruct (prof_process_run n t m t' m' Hmode HF EP)
    as (lib & pre & post & init & min & max & rest & k & Hl & Hpre & Hpost & _ & -> & Hrest & _ & _).
  destruct (Hlib lib Hl) as [Hn1 Hn2]. unfold executes. rewrite !omap_app.
  fold (executes (ts_trace t) f loc). fold (executes rest f loc). fold (executes (all_probe_calls pre post (cu_targets (mu_count m))) f loc).
  rewrite (executes_quiet (ts_trace t)) by done.
  rewrite (executes_quiet rest) by (eapply Forall_impl; [exact Hrest|]; by intros a [? _]).
  rewrite (executes_probes pre post _ f loc (Hn1 _ Hpre) (Hn2 _ Hpost)).
  fold (executes (ContinueExecution :: replicate k WaitForStatusChange) f loc).
  rewrite (executes_quiet (_ :: _)) by (constructor; [done|]; by apply Forall_replicate).
  simpl. by rewrite app_nil_r.
Qed.

Lemma stored_zip pads rs :
  Forall (fun p => length p = 4%nat) pads -> Forall record_ok rs -> Forall stored_ok (zip pads rs).
Proof.
  intros Hp. revert rs. induction Hp as [|p pads Hp _ IH]; intros [|r rs] Hr; try constructor.
  - inversion Hr; subst. done.
  - inversion Hr; subst. by apply IH.
Qed.

Lemma zip_snd {A B} (l : list A) (k : list B) : length l = length k -> map snd (zip l k) = k.
Proof. revert k. induction l as [|x l IH]; intros [|y k] H; try done. simpl in *. by rewrite IH by lia. Qed.

Lemma chosen_targets t0 obj freq min max pattern t c :
  getUserObjs = [obj] -> loadable obj -> dirs_creatable t0 ->
  getTargetFuncs false (t0, cu_set_pattern (CountUtil_new freq min max) pattern) = Ret (true, (t, c)) ->
  cu_targets c = all_targets (ts_skiplist t0) pattern [obj] /\ ts_trace t = ts_trace t0.
Proof.
  intros Hobj Hld Hd EG.
  destruct (getTargetFuncs_run t0 freq min max pattern) as (Ht & t1 & ER & Hs & Htr & _); [rewrite Hobj; by constructor|done|].
  rewrite EG in ER. injection ER as _ -> ->. rewrite Ht, Hobj. by split.
Qed.

(** C1: a function followed from the map to the report.  Take a mutatee of one
    user object with at most 65536 functions that Dyninst can load and whose
    cache directories can be made, targets chosen from it by getTargetFuncs with
    any pattern, and a successful run of prof in process mode with these targets
    and the probe library.  Take a thread that is attached and running with an
    empty file, whose enabled counters are mapped, on pages in which the kernel
    keeps widths and shifts in range and which it leaves alone for 28 accesses
    within any [env_rounds] accesses, the bound on the rounds of a read.  When
    the thread passes any sequence of function entries and exits and ends, the
    inserted probes run without fault and its record file holds, for every probe hit in order, one record per event
    of the list, at the right end, whose function number is the position of that
    very function's name in the map of the object; every instrumentable target is
    hit once per pass.  Reporting the file, whatever its padding bytes, prints a
    text that reads back as exactly these records. *)
Theorem profile_end_to_end n t0 t m t' m' obj freq min max pattern run id g mem tl el fo ps me :
  let names := object_names (ts_skiplist t0) obj in
  getUserObjs = [obj] -> loadable obj -> dirs_creatable t0 -> Z.of_nat (length names) <= 2 ^ 16 ->
  Forall (fun a => is_insert a = false) (ts_trace t0) -> probe_library_ok -> mu_mode m = LPROFILE_MODE_PROC ->
  getTargetFuncs false (t0, cu_set_pattern (CountUtil_new freq min max) pattern) = Ret (true, (t, mu_count m)) ->
  prof_process n (t, m) = Ret (true, (t', m')) ->
  0 <= id -> attached id g me -> rec_ok id g mem tl el fo [] -> evlist_ok mem el ps -> counters_mapped mem ps ->
  let hits := run_hits (ts_trace t') run in
  (forall f loc, executes (ts_trace t') f loc =
     map (fun tf => (pos_of loc, tf_index tf)) (filter (fun tf => eligible tf = true /\ tf_func tf = f) (cu_targets (mu_count m)))) /\
  exists g' rss, session id me (map snd hits) g = Ret (tt, g') /\
    default [] (g_files g' !! fo) = concat rss /\
    Forall2 (names_function names (length ps)) hits rss /\
    forall pads, length pads = length (concat rss) -> Forall (fun p => length p = 4%nat) pads ->
      exists text, report_process (fun _ => false) (mk_ReportTest "prof" false) (Some (file_bytes (zip pads (concat rss)))) "" =
        Ret (true, text) /\ read_report text = map columns (concat rss).
Proof.
  intros names Hobj Hld Hd Hlen Hq Hlib Hmode EG EP Hid Ha HR OK Hrd hits.
  destruct (chosen_targets t0 obj freq min max pattern t (mu_count m) Hobj Hld Hd EG) as [Htg Htr].
  assert (forall tf, tf ∈ cu_targets (mu_count m) -> 0 <= tf_index tf < 2 ^ 16 /\
    names !! Z.to_nat (tf_index tf) = Some (bf_name (tf_func tf))) as Hidx.
  { intros tf Htf. rewrite Htg in Htf. by apply (object_target_index _ pattern). }
  assert (forall f loc, executes (ts_trace t') f loc = map (fun tf => (pos_of loc, tf_index tf))
    (filter (fun tf => eligible tf = true /\ tf_func tf = f) (cu_targets (mu_count m)))) as Hex.
  { intros f loc. apply (prof_process_executes n t m t' m'); try done; [|by rewrite Htr].
    apply Forall_forall. intros tf Htf. destruct (Hidx tf Htf). unfold UINT_MAX. lia. }
  split; [done|].
  assert (Forall (fun h => urange 8 h.2.1 /\ 0 <= h.2.2 < 2 ^ 16 /\ names !! Z.to_nat h.2.2 = Some (bf_name h.1)) hits) as Hhits.
  { apply Forall_concat, Forall_map, Forall_true. intros [f loc]. apply Forall_map. rewrite Hex. apply Forall_map.
    apply Forall_forall. intros tf [[_ <-] Htf]%list_elem_of_filter. simpl. split; [destruct loc; by vm_compute|by apply Hidx]. }
  destruct (probes_run id Hid (map snd hits) g mem tl el fo [] ps me Ha HR OK Hrd) as (g1 & tl1 & rss & E1 & HR1 & HF).
  destruct (destroy_run id Hid g1 mem tl1 el fo _ ps HR1 OK) as (g' & E2 & Hlog & _).
  exists g', rss. split; [unfold session; by rewrite (bind_ret _ _ _ _ _ E1)|].
  change (map snd hits) with (snd <$> hits) in HF. rewrite Forall2_fmap_l in HF. split; [done|].
  assert (Forall record_ok (concat rss)) as Hok.
  { apply Forall_concat. eapply Forall2_Forall_r; [exact HF|]. eapply Forall_impl; [exact Hhits|].
    intros h (Hp & _) rs. by apply call_records_ok. }
  split; [|intros pads Hl Hp].
  - apply Forall2_same_length_lookup. split; [by eapply Forall2_length|]. intros k h rs Hh Hrs.
    pose proof (Forall2_lookup_lr _ _ _ _ _ _ HF Hh Hrs) as Hc. destruct (proj1 (Forall_lookup _ _) Hhits k h Hh) as (_ & Hi & Hn).
    by apply (call_records_names mem).
  - eexists. split; [|by apply read_report_text].
    rewrite <- (app_nil_r (file_bytes _)), report_process_run; [|by apply stored_zip|simpl; unfold sizeof_record; lia|done].
    by rewrite zip_snd.
Qed.
End EndToEnd.

(** ** Evaluation of the model *)
Definition demo_chosen : tstate * CountUtil :=
  match @getTargetFuncs demo_system demo_dyninst false (demo_tstate, cu_set_pattern (CountUtil_new 7 0 0) "main,work") with
  | Ret (_, w) => w | Fault _ => (demo_tstate, CountUtil_new 7 0 0)
  end.
Definition demo_chosen_muttee : Muttee := mk_Muttee LPROFILE_MODE_PROC "/tmp/a.out" "" (Argv ["/tmp/a.out"]) demo_chosen.2.
Definition demo_instrumented : tstate * Muttee :=
  match @prof_process demo_dyninst 20 (demo_chosen.1, demo_chosen_muttee) with
  | Ret (_, w) => w | Fault _ => (demo_tstate, demo_chosen_muttee)
  end.
Definition demo_run : list (bfunction * procedureLocation) :=
  [(demo_function 10 "main", BPatch_entry); (demo_function 11 "work", BPatch_entry);
   (demo_function 11 "work", BPatch_exit); (demo_function 10 "main", BPatch_exit)].

Lemma profile_end_to_end_witness :
  exists g' rss,
    @session demo_env 0 100 [(0, 0); (0, 1); (1, 1); (1, 0)] demo_g = Ret (tt, g') /\
    default [] (g_files g' !! 100) = concat rss /\ length rss = 4%nat.
Proof.
  destruct (@profile_end_to_end demo_system demo_dyninst demo_env 20 demo_tstate demo_chosen.1 demo_chosen_muttee
    demo_instrumented.1 demo_instrumented.2 demo_object 7 0 0 "main,work" demo_run
    0 demo_g (g_mem demo_g) (g_tls demo_g) 2 100 [5; 8] 100) as (_ & g' & rss & ES & Hf & HF & _).
  - reflexivity.
  - apply (Forall_inv demo_loadable).
  - apply demo_dirs.
  - vm_compute. discriminate.
  - constructor.
  - intros lib [= <-]. split; intros f [= <-]; reflexivity.
  - reflexivity.
  - unfold demo_chosen_muttee, demo_chosen. simpl mu_count. vm_compute. reflexivity.
  - unfold demo_instrumented. vm_compute. reflexivity.
  - lia.
  - split; vm_compute; reflexivity.
  - apply demo_g_rec.
  - apply demo_g_evlist.
  - apply demo_g_readable.
  - exists g', rss. split; [exact ES|]. split; [exact Hf|]. by apply Forall2_length in HF.
Defined.
