(* ===== verification/CodeRange.v ===== *)
(** * The tree of address ranges (dyninstAPI/src/codeRange.C, codeRange.h)

    Dyninst keeps the ranges of a program by their start addresses in a red-black
    tree with parent pointers and a sentinel [nil].  The store maps addresses to
    entries; every method is the sequence of field accesses the source makes, and
    an access to null or to a deleted entry is a fault.  CodeRangeTree proves what
    the methods do. *)
From stdpp Require Import base gmap list.
From S2P Require Import Prelude.

Module codeRangeTree.

Inductive color_t : Type := TREE_BLACK | TREE_RED.

#[export] Instance color_t_eq_dec : EqDecision color_t.
Proof. solve_decision. Defined.

Record entry : Type := mk_entry {
  en_key : Z;
  en_value : Z;          (* codeRange *value *)
  en_color : color_t;
  en_left : Z;
  en_right : Z;
  en_parent : Z
}.

Record rtree : Type := mk_rtree {
  rt_store : gmap Z entry;
  rt_nil : Z;
  rt_setSize : Z;
  rt_setData : Z;
  rt_brk : Z             (* where the next entry is allocated *)
}.

(** ** Accesses *)

Definition get_entry (p : Z) : M rtree entry := fun s =>
  match rt_store s !! p with
  | Some e => Ret (e, s)
  | None => Fault (if p =? NULL then FNull else FBadPtr)
  end.

Definition set_store (f : gmap Z entry -> gmap Z entry) (s : rtree) : rtree :=
  mk_rtree (f (rt_store s)) (rt_nil s) (rt_setSize s) (rt_setData s) (rt_brk s).
Definition put_entry (p : Z) (e : entry) : M rtree unit := modify (set_store (insert p e)).

Definition set_setData (p : Z) : M rtree unit :=
  modify (fun s => mk_rtree (rt_store s) (rt_nil s) (rt_setSize s) p (rt_brk s)).
Definition add_setSize (d : Z) : M rtree unit :=
  modify (fun s => mk_rtree (rt_store s) (rt_nil s) (s32 (rt_setSize s + d)) (rt_setData s) (rt_brk s)).

Definition rd_key (p : Z) : M rtree Z := e ← get_entry p ; mret (en_key e).
Definition rd_value (p : Z) : M rtree Z := e ← get_entry p ; mret (en_value e).
Definition rd_color (p : Z) : M rtree color_t := e ← get_entry p ; mret (en_color e).
Definition rd_left (p : Z) : M rtree Z := e ← get_entry p ; mret (en_left e).
Definition rd_right (p : Z) : M rtree Z := e ← get_entry p ; mret (en_right e).
Definition rd_parent (p : Z) : M rtree Z := e ← get_entry p ; mret (en_parent e).

Definition wr_key (p k : Z) : M rtree unit := e ← get_entry p ;
  put_entry p (mk_entry k (en_value e) (en_color e) (en_left e) (en_right e) (en_parent e)).
Definition wr_value (p v : Z) : M rtree unit := e ← get_entry p ;
  put_entry p (mk_entry (en_key e) v (en_color e) (en_left e) (en_right e) (en_parent e)).
Definition wr_color (p : Z) (c : color_t) : M rtree unit := e ← get_entry p ;
  put_entry p (mk_entry (en_key e) (en_value e) c (en_left e) (en_right e) (en_parent e)).
Definition wr_left (p q : Z) : M rtree unit := e ← get_entry p ;
  put_entry p (mk_entry (en_key e) (en_value e) (en_color e) q (en_right e) (en_parent e)).
Definition wr_right (p q : Z) : M rtree unit := e ← get_entry p ;
  put_entry p (mk_entry (en_key e) (en_value e) (en_color e) (en_left e) q (en_parent e)).
Definition wr_par (p q : Z) : M rtree unit := e ← get_entry p ;
  put_entry p (mk_entry (en_key e) (en_value e) (en_color e) (en_left e) (en_right e) q).

(** [new entry(key, value, nil)] and [delete]. *)
Definition new_entry (key value nil : Z) : M rtree Z := fun s =>
  let p := rt_brk s in
  Ret (p, mk_rtree (<[p := mk_entry key value TREE_RED nil nil NULL]> (rt_store s))
            (rt_nil s) (rt_setSize s) (rt_setData s) (p + 1)).
Definition delete_entry (p : Z) : M rtree unit := modify (set_store (delete p)).

Definition is_red (c : color_t) : bool := match c with TREE_RED => true | TREE_BLACK => false end.

(** The number of rounds any walk along the tree can take. *)
Definition walk_fuel : M rtree nat := gets (fun s => S (size (rt_store s))).

(** ** Rotations *)

Definition leftRotate (pivot : Z) : M rtree unit :=
  nil ← gets rt_nil ;
  if (pivot =? NULL) || (pivot =? nil) then mret tt else
  y ← rd_right pivot ;
  if y =? nil then mret tt else
  yl ← rd_left y ; wr_right pivot yl ;;
  (yl ← rd_left y ; if negb (yl =? nil) then wr_par yl pivot else mret tt) ;;
  (pp ← rd_parent pivot ; wr_par y pp) ;;
  (pp ← rd_parent pivot ;
   if pp =? NULL then set_setData y
   else ppl ← rd_left pp ; if pivot =? ppl then wr_left pp y else wr_right pp y) ;;
  wr_left y pivot ;;
  wr_par pivot y.

Definition rightRotate (pivot : Z) : M rtree unit :=
  nil ← gets rt_nil ;
  if (pivot =? NULL) || (pivot =? nil) then mret tt else
  x ← rd_left pivot ;
  if x =? nil then mret tt else
  xr ← rd_right x ; wr_left pivot xr ;;
  (xr ← rd_right x ; if negb (xr =? nil) then wr_par xr pivot else mret tt) ;;
  (pp ← rd_parent pivot ; wr_par x pp) ;;
  (pp ← rd_parent pivot ;
   if pp =? NULL then set_setData x
   else ppl ← rd_left pp ; if pivot =? ppl then wr_left pp x else wr_right pp x) ;;
  wr_right x pivot ;;
  wr_par pivot x.

(** ** Searching *)

(** The node with the key, or null. *)
Fixpoint find_loop (n : nat) (x element : Z) : M rtree Z :=
  match n with
  | O => fail FFuel
  | S n' =>
      nil ← gets rt_nil ;
      if x =? nil then mret NULL else
      k ← rd_key x ;
      if element <? k then l ← rd_left x ; find_loop n' l element
      else if k <? element then r ← rd_right x ; find_loop n' r element
      else mret x
  end.

Definition find_internal (element : Z) : M rtree Z :=
  n ← walk_fuel ; x ← gets rt_setData ; find_loop n x element.

(** The leftmost node under [z]. *)
Fixpoint leftmost (n : nat) (z : Z) : M rtree Z :=
  match n with
  | O => fail FFuel
  | S n' =>
      nil ← gets rt_nil ;
      l ← rd_left z ;
      if negb (l =? nil) then leftmost n' l else mret z
  end.

(** Up to the first ancestor of which [x] is not on the right. *)
Fixpoint climb (n : nat) (x y : Z) : M rtree Z :=
  match n with
  | O => fail FFuel
  | S n' =>
      if y =? NULL then mret y else
      r ← rd_right y ;
      if x =? r then p ← rd_parent y ; climb n' y p else mret y
  end.

Definition treeSuccessor (x : Z) : M rtree Z :=
  nil ← gets rt_nil ;
  if (x =? NULL) || (x =? nil) then mret NULL else
  n ← walk_fuel ;
  r ← rd_right x ;
  if negb (r =? nil) then leftmost n r
  else y ← rd_parent x ; climb n x y.

(** The value of the last node with a key of at most [key] on the way down. *)
Fixpoint precessor_loop (n : nat) (x last key : Z) : M rtree (option Z) :=
  match n with
  | O => fail FFuel
  | S n' =>
      nil ← gets rt_nil ;
      if x =? nil then if negb (last =? nil) then v ← rd_value last ; mret (Some v) else mret None
      else
      k ← rd_key x ;
      if k =? key then v ← rd_value x ; mret (Some v)
      else if key <? k then l ← rd_left x ; precessor_loop n' l last key
      else r ← rd_right x ; precessor_loop n' r x key
  end.

Definition precessor (key : Z) : M rtree (option Z) :=
  n ← walk_fuel ; x ← gets rt_setData ; nil ← gets rt_nil ; precessor_loop n x nil key.

Fixpoint successor_loop (n : nat) (x last key : Z) : M rtree (option Z) :=
  match n with
  | O => fail FFuel
  | S n' =>
      nil ← gets rt_nil ;
      if x =? nil then if negb (last =? nil) then v ← rd_value last ; mret (Some v) else mret None
      else
      k ← rd_key x ;
      if k =? key then v ← rd_value x ; mret (Some v)
      else if k <? key then r ← rd_right x ; successor_loop n' r last key
      else l ← rd_left x ; successor_loop n' l x key
  end.

Definition successor (key : Z) : M rtree (option Z) :=
  n ← walk_fuel ; x ← gets rt_setData ; nil ← gets rt_nil ; successor_loop n x nil key.

(** The range a [codeRange] covers: its virtual methods. *)
Class RangeOf : Type := { get_address : Z -> Z; get_size : Z -> Z }.

(** [find]: the range of the predecessor, if [key] is in it. *)
Definition find `{RangeOf} (key : Z) : M rtree (option Z) :=
  v ← precessor key ;
  match v with
  | None => mret None
  | Some value =>
      let a := get_address value in
      if get_size value =? 0
      then if a <? key then mret None else if key <? a then mret None else mret (Some value)
      else if u64 (a + get_size value) <=? key then mret None
      else if key <? a then mret None else mret (Some value)
  end.

(** ** Insertion *)

Fixpoint insert_down (n : nat) (y x key value : Z) : M rtree (option Z) :=
  match n with
  | O => fail FFuel
  | S n' =>
      nil ← gets rt_nil ;
      if x =? nil then mret (Some y) else
      k ← rd_key x ;
      if key <? k then l ← rd_left x ; insert_down n' x l key value
      else if k <? key then r ← rd_right x ; insert_down n' x r key value
      else wr_value x value ;; mret None
  end.

(** [None] when the key is already there, whose value is replaced. *)
Definition treeInsert (key value : Z) : M rtree Z :=
  n ← walk_fuel ; x ← gets rt_setData ;
  r ← insert_down n NULL x key value ;
  match r with
  | None => mret NULL
  | Some y =>
      nil ← gets rt_nil ;
      z ← new_entry key value nil ;
      wr_par z y ;;
      (if y =? NULL then set_setData z
       else k ← rd_key y ;
         if key <? k then wr_left y z else k' ← rd_key y ; if k' <? key then wr_right y z else mret tt) ;;
      add_setSize 1 ;;
      mret z
  end.

(** The loop of [insert]. *)
Fixpoint insert_fixup (n : nat) (x : Z) : M rtree unit :=
  match n with
  | O => fail FFuel
  | S n' =>
      root ← gets rt_setData ;
      if x =? root then mret tt else
      p ← rd_parent x ; pc ← rd_color p ;
      if negb (is_red pc) then mret tt else
      g ← rd_parent p ; gl ← rd_left g ;
      if p =? gl then
        y ← rd_right g ; yc ← rd_color y ;
        if is_red yc then
          wr_color p TREE_BLACK ;; wr_color y TREE_BLACK ;; wr_color g TREE_RED ;;
          insert_fixup n' g
        else
          pr ← rd_right p ;
          x' ← (if x =? pr then leftRotate p ;; mret p else mret x) ;
          p' ← rd_parent x' ; wr_color p' TREE_BLACK ;;
          g' ← rd_parent p' ; wr_color g' TREE_RED ;;
          rightRotate g' ;;
          insert_fixup n' x'
      else
        y ← rd_left g ; yc ← rd_color y ;
        if is_red yc then
          wr_color p TREE_BLACK ;; wr_color y TREE_BLACK ;; wr_color g TREE_RED ;;
          insert_fixup n' g
        else
          pl ← rd_left p ;
          x' ← (if x =? pl then rightRotate p ;; mret p else mret x) ;
          p' ← rd_parent x' ; wr_color p' TREE_BLACK ;;
          g' ← rd_parent p' ; wr_color g' TREE_RED ;;
          leftRotate g' ;;
          insert_fixup n' x'
  end.

Definition insert `{RangeOf} (value : Z) : M rtree unit :=
  x ← treeInsert (get_address value) value ;
  if x =? NULL then
    x ← find_internal (get_address value) ;
    v ← rd_value x ;
    assertM (get_size value =? get_size v)
  else
    wr_color x TREE_RED ;;
    n ← walk_fuel ;
    insert_fixup n x ;;
    root ← gets rt_setData ;
    wr_color root TREE_BLACK.

(** ** Removal *)

Fixpoint deleteFixup_loop (n : nat) (x : Z) : M rtree Z :=
  match n with
  | O => fail FFuel
  | S n' =>
      root ← gets rt_setData ;
      if x =? root then mret x else
      c ← rd_color x ;
      if is_red c then mret x else
      p ← rd_parent x ; pl ← rd_left p ;
      if x =? pl then
        w ← rd_right p ; wc ← rd_color w ;
        w ← (if is_red wc then
               wr_color w TREE_BLACK ;; wr_color p TREE_RED ;; leftRotate p ;;
               p ← rd_parent x ; rd_right p
             else mret w) ;
        wl ← rd_left w ; wlc ← rd_color wl ; wr ← rd_right w ; wrc ← rd_color wr ;
        if negb (is_red wlc) && negb (is_red wrc) then
          wr_color w TREE_RED ;; p ← rd_parent x ; deleteFixup_loop n' p
        else
          w ← (if negb (is_red wrc) then
                 wr_color wl TREE_BLACK ;; wr_color w TREE_RED ;; rightRotate w ;;
                 p ← rd_parent x ; rd_right p
               else mret w) ;
          p ← rd_parent x ; pc ← rd_color p ; wr_color w pc ;;
          wr_color p TREE_BLACK ;;
          wr ← rd_right w ; wr_color wr TREE_BLACK ;;
          leftRotate p ;;
          root ← gets rt_setData ; deleteFixup_loop n' root
      else
        w ← rd_left p ; wc ← rd_color w ;
        w ← (if is_red wc then
               wr_color w TREE_BLACK ;; wr_color p TREE_RED ;; rightRotate p ;;
               p ← rd_parent x ; rd_left p
             else mret w) ;
        wr ← rd_right w ; wrc ← rd_color wr ; wl ← rd_left w ; wlc ← rd_color wl ;
        if negb (is_red wrc) && negb (is_red wlc) then
          wr_color w TREE_RED ;; p ← rd_parent x ; deleteFixup_loop n' p
        else
          w ← (if negb (is_red wlc) then
                 wr_color wr TREE_BLACK ;; wr_color w TREE_RED ;; leftRotate w ;;
                 p ← rd_parent x ; rd_left p
               else mret w) ;
          p ← rd_parent x ; pc ← rd_color p ; wr_color w pc ;;
          wr_color p TREE_BLACK ;;
          wl ← rd_left w ; wr_color wl TREE_BLACK ;;
          rightRotate p ;;
          root ← gets rt_setData ; deleteFixup_loop n' root
  end.

Definition deleteFixup (x : Z) : M rtree unit :=
  n ← walk_fuel ; x ← deleteFixup_loop n x ; wr_color x TREE_BLACK.

Definition remove (key : Z) : M rtree unit :=
  z ← find_internal key ;
  if z =? NULL then mret tt else
  zk ← rd_key z ;
  if negb (zk =? key) then mret tt else
  nil ← gets rt_nil ;
  zl ← rd_left z ; zr ← rd_right z ;
  y ← (if (zl =? nil) || (zr =? nil) then mret z else treeSuccessor z) ;
  yl ← rd_left y ;
  x ← (if negb (yl =? nil) then mret yl else rd_right y) ;
  yp ← rd_parent y ; wr_par x yp ;;
  (if yp =? NULL then set_setData x
   else ypl ← rd_left yp ; if y =? ypl then wr_left yp x else wr_right yp x) ;;
  (if negb (y =? z) then
     yv ← rd_value y ; wr_value z yv ;; yk ← rd_key y ; wr_key z yk
   else mret tt) ;;
  yc ← rd_color y ;
  (if negb (is_red yc) then deleteFixup x else mret tt) ;;
  add_setSize (-1) ;;
  delete_entry y.

(** ** Traversal and the rest *)

(** Values in ascending order of the keys. *)
Fixpoint traverse (n : nat) (node : Z) : M rtree (list Z) :=
  match n with
  | O => fail FFuel
  | S n' =>
      nil ← gets rt_nil ;
      if node =? nil then mret [] else
      l ← rd_left node ;
      ls ← (if negb (l =? nil) then traverse n' l else mret []) ;
      v ← rd_value node ;
      r ← rd_right node ;
      rs ← (if negb (r =? nil) then traverse n' r else mret []) ;
      mret (ls ++ v :: rs)
  end.

Definition elements : M rtree (option (list Z)) :=
  root ← gets rt_setData ; nil ← gets rt_nil ;
  if root =? nil then mret None else
  n ← walk_fuel ; l ← traverse n root ; mret (Some l).

Fixpoint destroy (n : nat) (node : Z) : M rtree unit :=
  match n with
  | O => fail FFuel
  | S n' =>
      nil ← gets rt_nil ;
      if (node =? NULL) || (node =? nil) then mret tt else
      l ← rd_left node ;
      (if negb (l =? nil) then destroy n' l else mret tt) ;;
      r ← rd_right node ;
      (if negb (r =? nil) then destroy n' r else mret tt) ;;
      delete_entry node
  end.

Definition clear : M rtree unit :=
  root ← gets rt_setData ; nil ← gets rt_nil ;
  if root =? nil then mret tt else
  n ← walk_fuel ; destroy n root ;;
  set_setData nil ;;
  modify (fun s => mk_rtree (rt_store s) (rt_nil s) 0 (rt_setData s) (rt_brk s)).

(** The constructor, with the sentinel at address [p]. *)
Definition codeRangeTree_new (p : Z) : rtree :=
  mk_rtree {[ p := mk_entry 0 NULL TREE_BLACK NULL NULL NULL ]} p 0 p (p + 1).

Definition rtree_size : M rtree Z := gets rt_setSize.
Definition rtree_empty : M rtree bool := gets (fun s => rt_setData s =? rt_nil s).

End codeRangeTree.
