(* ===== verification/CodeRangeTree.v ===== *)
(** * What the tree of address ranges does

    A tree of nodes with their addresses represents the store; a context is the
    path from a node to the root, so that the loops of CodeRange, which walk up
    parent pointers, are inductions on a context.  The rotations and recolourings
    are proved once, at the node in focus. *)
From stdpp Require Import base gmap list sorting.
From S2P Require Import Prelude CodeRange.
Import codeRangeTree.

(** ** Trees and contexts *)

Inductive tree : Type :=
| Nil
| Node (c : color_t) (a k v : Z) (l r : tree).

Inductive side : Type := OnLeft | OnRight.

(** A node whose child on one side is missing. *)
Inductive frame : Type := Fr (d : side) (c : color_t) (a k v : Z) (sib : tree).

Abbreviation ctx := (list frame).

Definition fill (f : frame) (t : tree) : tree :=
  match f with
  | Fr OnLeft c a k v sib => Node c a k v t sib
  | Fr OnRight c a k v sib => Node c a k v sib t
  end.

Fixpoint plug (cx : ctx) (t : tree) : tree :=
  match cx with [] => t | f :: cx' => plug cx' (fill f t) end.

Definition root (nil : Z) (t : tree) : Z := match t with Nil => nil | Node _ a _ _ _ _ => a end.
Definition top (cx : ctx) : Z := match cx with [] => NULL | Fr _ _ a _ _ _ :: _ => a end.

Definition colour (t : tree) : color_t := match t with Nil => TREE_BLACK | Node c _ _ _ _ _ => c end.
Definition paint (c : color_t) (t : tree) : tree :=
  match t with Nil => Nil | Node _ a k v l r => Node c a k v l r end.

Fixpoint addrs (t : tree) : list Z :=
  match t with Nil => [] | Node _ a _ _ l r => a :: addrs l ++ addrs r end.
Definition faddrs (f : frame) : list Z := match f with Fr _ _ a _ _ sib => a :: addrs sib end.
Definition caddrs (cx : ctx) : list Z := cx ≫= faddrs.

(** ** Representation *)

Fixpoint rep (h : gmap Z entry) (nil par : Z) (t : tree) : Prop :=
  match t with
  | Nil => True
  | Node c a k v l r =>
      h !! a = Some (mk_entry k v c (root nil l) (root nil r) par) /\ rep h nil a l /\ rep h nil a r
  end.

(** The nodes of a context, around a subtree with root [child]. *)
Fixpoint repc (h : gmap Z entry) (nil rt : Z) (cx : ctx) (child : Z) : Prop :=
  match cx with
  | [] => rt = child
  | Fr d c a k v sib :: cx' =>
      h !! a = Some (match d with
                     | OnLeft => mk_entry k v c child (root nil sib) (top cx')
                     | OnRight => mk_entry k v c (root nil sib) child (top cx') end) /\
      rep h nil a sib /\ repc h nil rt cx' a
  end.

Record is_tree (s : rtree) (t : tree) : Prop := {
  it_rep : rep (rt_store s) (rt_nil s) NULL t;
  it_root : rt_setData s = root (rt_nil s) t;
  it_NoDup : NoDup (NULL :: rt_nil s :: addrs t);
  it_nil : exists p, rt_store s !! rt_nil s = Some (mk_entry 0 NULL TREE_BLACK NULL NULL p);
  it_brk : forall p, p ∈ NULL :: rt_nil s :: addrs t -> p < rt_brk s
}.

(** What the rearrangements leave alone. *)
Definition same_frame (s s' : rtree) : Prop :=
  rt_nil s' = rt_nil s /\ rt_brk s' = rt_brk s /\ rt_setSize s' = rt_setSize s /\
  rt_store s' !! rt_nil s = rt_store s !! rt_nil s /\
  (forall p, is_Some (rt_store s' !! p) <-> is_Some (rt_store s !! p)).

Lemma same_frame_refl s : same_frame s s.
Proof. by split_and!. Qed.
Lemma same_frame_trans s1 s2 s3 : same_frame s1 s2 -> same_frame s2 s3 -> same_frame s1 s3.
Proof.
  intros (A1 & A2 & A3 & A4 & A5) (B1 & B2 & B3 & B4 & B5). split_and!; [congruence..|].
  intros p. by rewrite B5, A5.
Qed.

Lemma same_frame_size s s' : same_frame s s' -> size (rt_store s') = size (rt_store s).
Proof.
  intros (_ & _ & _ & _ & HD). rewrite <- !size_dom. f_equal. apply leibniz_equiv. intros p. by rewrite !elem_of_dom, HD.
Qed.

Lemma plug_app c1 c2 t : plug (c1 ++ c2) t = plug c2 (plug c1 t).
Proof. revert t. induction c1 as [|f c1 IH]; intros t; simpl; [done|apply IH]. Qed.

Lemma fill_addrs f t : addrs (fill f t) ≡ₚ addrs t ++ faddrs f.
Proof. destruct f as [[] c a k v sib]; simpl; solve_Permutation. Qed.

Lemma plug_addrs cx t : addrs (plug cx t) ≡ₚ addrs t ++ caddrs cx.
Proof.
  revert t. induction cx as [|f cx IH]; intros t; simpl; [by rewrite app_nil_r|].
  by rewrite IH, fill_addrs, <- app_assoc.
Qed.

Lemma plug_focus h nil rt cx t :
  rep h nil NULL (plug cx t) /\ rt = root nil (plug cx t) <->
  rep h nil (top cx) t /\ repc h nil rt cx (root nil t).
Proof.
  revert t. induction cx as [|f cx IH]; intros t; simpl; [done|].
  rewrite IH. destruct f as [[] c a k v sib]; simpl; tauto.
Qed.

Lemma rep_frame h h' nil par t :
  (forall x, x ∈ addrs t -> h' !! x = h !! x) -> rep h nil par t -> rep h' nil par t.
Proof.
  revert par. induction t as [|c a k v l IHl r IHr]; intros par Hf; simpl; [done|]. intros (E & Hl & Hr).
  simpl in Hf. split_and!; [rewrite Hf; [done|set_solver]|apply IHl|apply IHr]; auto; intros; apply Hf; set_solver.
Qed.

Lemma repc_frame h h' nil rt cx child :
  (forall x, x ∈ caddrs cx -> h' !! x = h !! x) -> repc h nil rt cx child -> repc h' nil rt cx child.
Proof.
  revert child. induction cx as [|f cx IH]; intros child Hf; simpl; [done|].
  destruct f as [d c a k v sib]. intros (E & Hs & Hc). simpl in Hf. split_and!.
  - rewrite Hf; [done|set_solver].
  - eapply rep_frame; [|done]. intros; apply Hf; set_solver.
  - apply IH; [|done]. intros; apply Hf; set_solver.
Qed.

(** Giving a subtree another parent. *)
Definition entry_of (nil par : Z) (t : tree) : option entry :=
  match t with Nil => None | Node c a k v l r => Some (mk_entry k v c (root nil l) (root nil r) par) end.

Lemma rep_reparent h h' nil par par' t :
  rep h nil par t -> NoDup (addrs t) ->
  (forall e, entry_of nil par' t = Some e -> h' !! root nil t = Some e) ->
  (forall x, x ∈ addrs t -> x <> root nil t -> h' !! x = h !! x) -> rep h' nil par' t.
Proof.
  destruct t as [|c a k v l r]; simpl; [done|]. intros (E & Hl & Hr) Hnd He Hf.
  apply NoDup_cons in Hnd as [Ha Hnd]. split_and!; [by apply He| |].
  - eapply rep_frame; [|done]. intros x Hx. apply Hf; [set_solver|]. intros ->. set_solver.
  - eapply rep_frame; [|done]. intros x Hx. apply Hf; [set_solver|]. intros ->. set_solver.
Qed.

(** *** Accesses at known entries *)

Definition upd (p : Z) (e : entry) (s : rtree) : rtree := set_store <[p := e]> s.

Lemma get_ok s p e : rt_store s !! p = Some e -> get_entry p s = Ret (e, s).
Proof. intros E. unfold get_entry. by rewrite E. Qed.

Section Accesses.
Context (s : rtree) (p k v l r q : Z) (c : color_t) (E : rt_store s !! p = Some (mk_entry k v c l r q)).

Ltac acc := unfold rd_key, rd_value, rd_color, rd_left, rd_right, rd_parent, wr_key, wr_value, wr_color, wr_left,
  wr_right, wr_par; rewrite (bind_ret _ _ _ _ _ (get_ok _ _ _ E)); reflexivity.

Lemma rd_key_ok : rd_key p s = Ret (k, s). Proof. acc. Qed.
Lemma rd_value_ok : rd_value p s = Ret (v, s). Proof. acc. Qed.
Lemma rd_color_ok : rd_color p s = Ret (c, s). Proof. acc. Qed.
Lemma rd_left_ok : rd_left p s = Ret (l, s). Proof. acc. Qed.
Lemma rd_right_ok : rd_right p s = Ret (r, s). Proof. acc. Qed.
Lemma rd_parent_ok : rd_parent p s = Ret (q, s). Proof. acc. Qed.
Lemma wr_key_ok x : wr_key p x s = Ret (tt, upd p (mk_entry x v c l r q) s). Proof. acc. Qed.
Lemma wr_value_ok x : wr_value p x s = Ret (tt, upd p (mk_entry k x c l r q) s). Proof. acc. Qed.
Lemma wr_color_ok x : wr_color p x s = Ret (tt, upd p (mk_entry k v x l r q) s). Proof. acc. Qed.
Lemma wr_left_ok x : wr_left p x s = Ret (tt, upd p (mk_entry k v c x r q) s). Proof. acc. Qed.
Lemma wr_right_ok x : wr_right p x s = Ret (tt, upd p (mk_entry k v c l x q) s). Proof. acc. Qed.
Lemma wr_par_ok x : wr_par p x s = Ret (tt, upd p (mk_entry k v c l r x) s). Proof. acc. Qed.
End Accesses.

Lemma store_upd p e s : rt_store (upd p e s) = <[p := e]> (rt_store s).
Proof. done. Qed.
Lemma nil_upd p e s : rt_nil (upd p e s) = rt_nil s.
Proof. done. Qed.

(** Finds the entry at an address after some writes. *)
Ltac lk :=
  cbn [rt_store rt_nil rt_setData rt_brk rt_setSize upd set_store] in *;
  repeat first [ rewrite lookup_insert_eq | rewrite lookup_insert_ne by congruence ];
  first [ reflexivity | eassumption ].

Ltac acc_step :=
  match goal with
  | |- context [(rd_key ?p ≫= _) ?s] => erewrite (bind_ret (rd_key p)) by (eapply rd_key_ok; lk)
  | |- context [(rd_value ?p ≫= _) ?s] => erewrite (bind_ret (rd_value p)) by (eapply rd_value_ok; lk)
  | |- context [(rd_color ?p ≫= _) ?s] => erewrite (bind_ret (rd_color p)) by (eapply rd_color_ok; lk)
  | |- context [(rd_left ?p ≫= _) ?s] => erewrite (bind_ret (rd_left p)) by (eapply rd_left_ok; lk)
  | |- context [(rd_right ?p ≫= _) ?s] => erewrite (bind_ret (rd_right p)) by (eapply rd_right_ok; lk)
  | |- context [(rd_parent ?p ≫= _) ?s] => erewrite (bind_ret (rd_parent p)) by (eapply rd_parent_ok; lk)
  | |- context [(wr_color ?p ?x ≫= _) ?s] => erewrite (bind_ret (wr_color p x)) by (eapply wr_color_ok; lk)
  | |- context [(wr_left ?p ?x ≫= _) ?s] => erewrite (bind_ret (wr_left p x)) by (eapply wr_left_ok; lk)
  | |- context [(wr_right ?p ?x ≫= _) ?s] => erewrite (bind_ret (wr_right p x)) by (eapply wr_right_ok; lk)
  | |- context [(wr_par ?p ?x ≫= _) ?s] => erewrite (bind_ret (wr_par p x)) by (eapply wr_par_ok; lk)
  | |- context [wr_color ?p ?x ?s] => erewrite (wr_color_ok s p) by lk
  | |- context [wr_left ?p ?x ?s] => erewrite (wr_left_ok s p) by lk
  | |- context [wr_right ?p ?x ?s] => erewrite (wr_right_ok s p) by lk
  | |- context [wr_par ?p ?x ?s] => erewrite (wr_par_ok s p) by lk
  end.

(** *** The tree in focus *)

Lemma is_tree_focus s cx t :
  is_tree s (plug cx t) <->
  rep (rt_store s) (rt_nil s) (top cx) t /\ repc (rt_store s) (rt_nil s) (rt_setData s) cx (root (rt_nil s) t) /\
  NoDup (NULL :: rt_nil s :: addrs t ++ caddrs cx) /\
  (exists p, rt_store s !! rt_nil s = Some (mk_entry 0 NULL TREE_BLACK NULL NULL p)) /\
  (forall p, p ∈ NULL :: rt_nil s :: addrs t ++ caddrs cx -> p < rt_brk s).
Proof.
  pose proof (plug_addrs cx t) as HP. split.
  - intros [R1 R2 R3 R5 R6]. destruct (proj1 (plug_focus _ _ _ _ _) (conj R1 R2)) as [F1 F2]. rewrite HP in R3.
    split_and!; try done. intros p. by rewrite <- HP; apply R6.
  - intros (F1 & F2 & R3 & R5 & R6). destruct (proj2 (plug_focus _ _ _ _ _) (conj F1 F2)) as [R1 R2].
    split; try done; [by rewrite HP|]. intros p. by rewrite HP; apply R6.
Qed.

(** A rearrangement of the subtree in focus. *)
Lemma rearrange s s' cx t t' :
  is_tree s (plug cx t) -> same_frame s s' -> addrs t' ≡ₚ addrs t ->
  rep (rt_store s') (rt_nil s) (top cx) t' -> repc (rt_store s') (rt_nil s) (rt_setData s') cx (root (rt_nil s) t') ->
  is_tree s' (plug cx t').
Proof.
  intros (_ & _ & H3 & H5 & H6)%is_tree_focus (N & B & _ & K & _) HP F1 F2. apply is_tree_focus.
  rewrite N, B, HP. split_and!; try done.
  - destruct H5 as [p Hp]. exists p. by rewrite K.
  - intros p. rewrite HP. apply H6.
Qed.

(** Changing the child a context points to. *)
Lemma repc_child h h' nil rt rt' cx child child' :
  repc h nil rt cx child -> NoDup (caddrs cx) ->
  match cx with
  | [] => rt' = child'
  | Fr d c a k v sib :: cx' => rt' = rt /\
      h' !! a = Some (match d with
                      | OnLeft => mk_entry k v c child' (root nil sib) (top cx')
                      | OnRight => mk_entry k v c (root nil sib) child' (top cx') end) end ->
  (forall x, x ∈ caddrs cx -> x <> top cx -> h' !! x = h !! x) -> repc h' nil rt' cx child'.
Proof.
  destruct cx as [|[d c a k v sib] cx]; simpl; [done|]. intros (_ & Hs & Hc) Hnd (-> & E) Hf.
  apply NoDup_cons in Hnd as [Ha _]. split_and!; [done| |].
  - eapply rep_frame; [|done]. intros x Hx. apply Hf; [set_solver|]. intros ->. set_solver.
  - eapply repc_frame; [|done]. intros x Hx. apply Hf; [set_solver|]. intros ->. set_solver.
Qed.

Lemma is_some_upd p e s x :
  is_Some (rt_store s !! p) -> is_Some (rt_store (upd p e s) !! x) <-> is_Some (rt_store s !! x).
Proof.
  intros Hp. rewrite store_upd, lookup_insert. destruct (decide (p = x)) as [->|]; [|done]. by split; eauto.
Qed.

(** A new key, value or colour for the node in focus. *)
Lemma put_focus s cx c0 a k0 v0 l r c k v :
  is_tree s (plug cx (Node c0 a k0 v0 l r)) ->
  let s' := upd a (mk_entry k v c (root (rt_nil s) l) (root (rt_nil s) r) (top cx)) s in
  is_tree s' (plug cx (Node c a k v l r)) /\ same_frame s s'.
Proof.
  intros HT s'. pose proof HT as ((Ea & Hl & Hr) & Hc & Hnd & _)%is_tree_focus. simpl in Hnd.
  apply NoDup_cons in Hnd as [_ Hnd]. apply NoDup_cons in Hnd as [Hnil Hnd]. apply NoDup_cons in Hnd as [Ha Hnd].
  assert (same_frame s s') as HF.
  { split_and!; try done; [|intros p; apply is_some_upd; eauto].
    unfold s'. rewrite store_upd, lookup_insert_ne; [done|set_solver]. }
  split; [|done]. apply (rearrange s s' cx (Node c0 a k0 v0 l r)); [done|done|done| |].
  - unfold s'. rewrite store_upd. simpl. split_and!; [by rewrite lookup_insert_eq| |];
      (eapply rep_frame; [|done]); intros x Hx; (rewrite lookup_insert_ne; [done|]); intros ->; set_solver.
  - unfold s'. eapply repc_frame; [|exact Hc]. intros x Hx. rewrite store_upd, lookup_insert_ne; [done|].
    intros ->. set_solver.
Qed.

(** *** Rotations *)

(** What the rotations and [remove] do to a subtree and to the context above it. *)
Definition reparent (nil q : Z) (t : tree) (s : rtree) : rtree :=
  match t with
  | Nil => s
  | Node c a k v l r => upd a (mk_entry k v c (root nil l) (root nil r) q) s
  end.

Definition relink (nil : Z) (cx : ctx) (y : Z) (s : rtree) : rtree :=
  match cx with
  | [] => mk_rtree (rt_store s) (rt_nil s) (rt_setSize s) y (rt_brk s)
  | Fr OnLeft c a k v sib :: cx' => upd a (mk_entry k v c y (root nil sib) (top cx')) s
  | Fr OnRight c a k v sib :: cx' => upd a (mk_entry k v c (root nil sib) y (top cx')) s
  end.

Lemma lookup_reparent_ne nil q t s x : x <> root nil t -> rt_store (reparent nil q t s) !! x = rt_store s !! x.
Proof. destruct t; simpl; [done|]. intros. by rewrite lookup_insert_ne. Qed.
Lemma lookup_reparent_eq nil q t s e :
  entry_of nil q t = Some e -> rt_store (reparent nil q t s) !! root nil t = Some e.
Proof. destruct t; simpl; [done|]. intros [= <-]. by rewrite lookup_insert_eq. Qed.
Lemma lookup_relink_ne nil cx y s x : x <> top cx -> rt_store (relink nil cx y s) !! x = rt_store s !! x.
Proof. destruct cx as [|[[] c a k v sib] cx]; simpl; [done| |]; intros; by rewrite lookup_insert_ne. Qed.

Lemma reparent_run nil q t s par :
  rt_nil s = nil -> rep (rt_store s) nil par t -> nil ∉ addrs t ->
  (if negb (root nil t =? nil) then wr_par (root nil t) q else mret tt) s = Ret (tt, reparent nil q t s).
Proof.
  intros <- HR Hn. destruct t as [|c a k v l r]; simpl; [by rewrite Z.eqb_refl|].
  rewrite (proj2 (Z.eqb_neq a (rt_nil s))) by set_solver. cbn [negb]. destruct HR as [E _]. by erewrite wr_par_ok.
Qed.

Lemma relink_run nil cx y s rt child :
  repc (rt_store s) nil rt cx child -> NULL ∉ caddrs cx -> child <> nil -> child ∉ caddrs cx ->
  (if top cx =? NULL then set_setData y
   else ppl ← rd_left (top cx) ; if child =? ppl then wr_left (top cx) y else wr_right (top cx) y) s
  = Ret (tt, relink nil cx y s).
Proof.
  intros HC H0 Hc Hcc. destruct cx as [|[d c a k v sib] cx]; [done|]. simpl in *. destruct HC as (E & Hs & _).
  rewrite (proj2 (Z.eqb_neq a NULL)) by set_solver. destruct d.
  - erewrite (bind_ret (rd_left a)) by (by eapply rd_left_ok). rewrite Z.eqb_refl. by erewrite wr_left_ok.
  - erewrite (bind_ret (rd_left a)) by (by eapply rd_left_ok). rewrite (proj2 (Z.eqb_neq child (root nil sib))).
    2:{ destruct sib; simpl in *; set_solver. }
    by erewrite wr_right_ok.
Qed.

(** The context over the new root of a rotated subtree. *)
Lemma relink_repc h nil s cx rt p y h' :
  repc h nil rt cx p -> NoDup (caddrs cx) -> rt_setData s = rt ->
  (forall x, x ∈ caddrs cx -> x <> top cx -> h' !! x = h !! x) ->
  (forall x, x ∈ caddrs cx -> x = top cx -> h' !! x = rt_store (relink nil cx y s) !! x) ->
  repc h' nil (rt_setData (relink nil cx y s)) cx y.
Proof.
  intros HC Hnd Hrt Hf Ht. eapply repc_child; [exact HC|done| |exact Hf].
  destruct cx as [|[[] c a k v sib] cx]; simpl in *; [done| |]; (split; [done|]);
    (rewrite Ht by set_solver); by rewrite lookup_insert_eq.
Qed.

Lemma is_some_reparent nil q t s par x :
  rep (rt_store s) nil par t -> is_Some (rt_store (reparent nil q t s) !! x) <-> is_Some (rt_store s !! x).
Proof. destruct t; simpl; [done|]. intros [E _]. apply is_some_upd. eauto. Qed.
Lemma is_some_relink nil cx y s x rt p :
  repc (rt_store s) nil rt cx p -> is_Some (rt_store (relink nil cx y s) !! x) <-> is_Some (rt_store s !! x).
Proof. destruct cx as [|[[] c a k v sib] cx]; simpl; [done| |]; intros [E _]; apply is_some_upd; eauto. Qed.

Lemma reparent_fields nil q t s :
  rt_nil (reparent nil q t s) = rt_nil s /\ rt_brk (reparent nil q t s) = rt_brk s /\
  rt_setSize (reparent nil q t s) = rt_setSize s /\ rt_setData (reparent nil q t s) = rt_setData s.
Proof. by destruct t. Qed.
Lemma relink_fields nil cx y s :
  rt_nil (relink nil cx y s) = rt_nil s /\ rt_brk (relink nil cx y s) = rt_brk s /\
  rt_setSize (relink nil cx y s) = rt_setSize s.
Proof. by destruct cx as [|[[] c a k v sib] cx]. Qed.

(** The addresses around a rotation are different. *)
Record apart (nil a y : Z) (B : tree) (cx : ctx) : Prop := {
  ap_an : a <> nil; ap_yn : y <> nil; ap_ay : a <> y;
  ap_nB : nil ∉ addrs B; ap_aB : a ∉ addrs B; ap_yB : y ∉ addrs B;
  ap_nt : nil <> top cx; ap_at : a <> top cx; ap_yt : y <> top cx; ap_rt : root nil B <> top cx;
  ap_ra : root nil B <> a; ap_ry : root nil B <> y;
  ap_cx : forall x, x ∈ caddrs cx -> x <> a /\ x <> y /\ x <> root nil B;
  ap_NB : NoDup (addrs B); ap_Nc : NoDup (caddrs cx);
  ap_Bt : forall x, x ∈ addrs B -> x <> a /\ x <> y /\ x <> top cx;
  ap_0 : a <> NULL; ap_0c : NULL ∉ caddrs cx; ap_ac : a ∉ caddrs cx
}.

Lemma top_elem cx : top cx = NULL \/ top cx ∈ caddrs cx.
Proof. destruct cx as [|[]]; simpl; [by left|right; set_solver]. Qed.
Lemma root_elem nil t : root nil t = nil \/ root nil t ∈ addrs t.
Proof. destruct t; simpl; [by left|right; set_solver]. Qed.

Lemma apart_intro nil a y B cx : NoDup (NULL :: nil :: a :: y :: addrs B ++ caddrs cx) -> apart nil a y B cx.
Proof.
  rewrite !NoDup_cons, NoDup_app, !not_elem_of_cons, !not_elem_of_app.
  intros ((H1 & H2 & H3 & H4 & H5) & (H6 & H7 & H8 & H9) & (H10 & H11 & H12) & (H13 & H14) & NB & HBc & Nc).
  pose proof (top_elem cx) as Ht. pose proof (root_elem nil B) as Hr.
  assert (forall x, x <> NULL -> x ∉ caddrs cx -> x <> top cx) as Htop.
  { intros x X1 X2 ->. destruct Ht as [E|?]; [by rewrite E in X1|done]. }
  split; auto.
  - apply Htop; [|]; destruct Hr as [->|Hr]; auto. intros E. by rewrite E in Hr.
  - destruct Hr as [->|Hr]; [done|]. intros E. by rewrite E in Hr.
  - destruct Hr as [->|Hr]; [done|]. intros E. by rewrite E in Hr.
  - intros x Hx. split_and!; try (intros ->; done). intros ->. destruct Hr as [E|Hr]; [by rewrite E in Hx|].
    by eapply HBc.
  - intros x Hx. split_and!; try (intros ->; done). apply Htop; [by intros ->|]. intros ?. by eapply HBc.
Qed.

(** A rotation that brings [y] above [a]: the middle subtree [B] goes to [a], the
    context points to [y].  [ea] and [ey] are the entries after it. *)
Definition rotated (s : rtree) (cx : ctx) (a y : Z) (B : tree) (ea1 ey1 ea ey : entry) : rtree :=
  upd a ea (upd y ey (relink (rt_nil s) cx y (upd y ey1 (reparent (rt_nil s) a B (upd a ea1 s))))).

Lemma lookup_rotated s cx a y B ea1 ey1 ea ey x :
  x <> a -> x <> y -> x <> root (rt_nil s) B -> x <> top cx ->
  rt_store (rotated s cx a y B ea1 ey1 ea ey) !! x = rt_store s !! x.
Proof.
  intros X1 X2 X3 X4. unfold rotated. rewrite !store_upd, !lookup_insert_ne by done.
  rewrite lookup_relink_ne by done. rewrite store_upd, lookup_insert_ne by done.
  rewrite lookup_reparent_ne by done. by rewrite store_upd, lookup_insert_ne.
Qed.

Lemma rotated_nil s cx a y B ea1 ey1 ea ey :
  apart (rt_nil s) a y B cx -> rt_store (rotated s cx a y B ea1 ey1 ea ey) !! rt_nil s = rt_store s !! rt_nil s.
Proof.
  intros HA. destruct (decide (root (rt_nil s) B = rt_nil s)) as [EB|EB].
  - assert (B = Nil) as ->.
    { destruct B; simpl in *; [done|]. subst. destruct HA. set_solver. }
    destruct HA. unfold rotated. rewrite !store_upd, !lookup_insert_ne by congruence.
    rewrite lookup_relink_ne by congruence. simpl. by rewrite !lookup_insert_ne by congruence.
  - destruct HA. by apply lookup_rotated; congruence.
Qed.

Lemma rotated_B s cx a y B ea1 ey1 ea ey :
  apart (rt_nil s) a y B cx -> rep (rt_store s) (rt_nil s) y B ->
  rep (rt_store (rotated s cx a y B ea1 ey1 ea ey)) (rt_nil s) a B.
Proof.
  intros HA HB. eapply rep_reparent; [exact HB|by destruct HA| |].
  - intros e He. destruct HA. unfold rotated. rewrite !store_upd, !lookup_insert_ne by congruence.
    rewrite lookup_relink_ne by done. rewrite store_upd, lookup_insert_ne by congruence. by apply lookup_reparent_eq.
  - intros x Hx Hr. destruct (ap_Bt _ _ _ _ _ HA x Hx) as (? & ? & ?). by apply lookup_rotated.
Qed.

Lemma rotated_cx s cx a y B ea1 ey1 ea ey :
  apart (rt_nil s) a y B cx -> repc (rt_store s) (rt_nil s) (rt_setData s) cx a ->
  repc (rt_store (rotated s cx a y B ea1 ey1 ea ey)) (rt_nil s) (rt_setData (rotated s cx a y B ea1 ey1 ea ey)) cx y.
Proof.
  intros HA HC. eapply (relink_repc (rt_store s)); [exact HC|by destruct HA| | |].
  - by destruct B.
  - intros x Hx Ht. destruct (ap_cx _ _ _ _ _ HA x Hx) as (? & ? & ?). by apply lookup_rotated.
  - intros x Hx Ht. destruct (ap_cx _ _ _ _ _ HA x Hx) as (? & ? & ?). unfold rotated.
    by rewrite !store_upd, !lookup_insert_ne by congruence.
Qed.

Lemma rotated_dom s cx a y B ea1 ey1 ea ey p :
  apart (rt_nil s) a y B cx -> repc (rt_store s) (rt_nil s) (rt_setData s) cx a ->
  rep (rt_store s) (rt_nil s) y B -> is_Some (rt_store s !! a) -> is_Some (rt_store s !! y) ->
  is_Some (rt_store (rotated s cx a y B ea1 ey1 ea ey) !! p) <-> is_Some (rt_store s !! p).
Proof.
  intros HA HC HB Ha Hy. destruct (decide (p = a)) as [->|Pa].
  { unfold rotated. rewrite store_upd, lookup_insert_eq. by split; eauto. }
  destruct (decide (p = y)) as [->|Py].
  { unfold rotated. rewrite !store_upd, lookup_insert_ne, lookup_insert_eq by congruence. by split; eauto. }
  pose proof (rotated_cx s cx a y B ea1 ey1 ea ey HA HC) as HC'.
  pose proof (rotated_B s cx a y B ea1 ey1 ea ey HA HB) as HB'.
  destruct (decide (p = root (rt_nil s) B)) as [->|PB].
  { destruct B; cbn [rep root] in *; [|destruct HB as [E _], HB' as [E' _]; rewrite E, E'; by split; eauto].
    by rewrite rotated_nil. }
  destruct (decide (p = top cx)) as [->|Pt]; [|by rewrite lookup_rotated].
  destruct cx as [|[[] ? ? ? ? ?]]; cbn [repc top] in *; [|destruct HC as [E _], HC' as [E' _]; rewrite E, E'; by split; eauto..].
  unfold rotated. rewrite !store_upd, !lookup_insert_ne by congruence. simpl.
  rewrite lookup_insert_ne by congruence. rewrite lookup_reparent_ne by congruence. by rewrite store_upd, lookup_insert_ne.
Qed.

Lemma rotate_shape s cx t t' a y B ea1 ey1 ea ey (s' := rotated s cx a y B ea1 ey1 ea ey) :
  is_tree s (plug cx t) -> root (rt_nil s) t = a -> root (rt_nil s) t' = y -> addrs t' ≡ₚ addrs t ->
  is_Some (rt_store s !! a) -> is_Some (rt_store s !! y) -> rep (rt_store s) (rt_nil s) y B ->
  apart (rt_nil s) a y B cx ->
  rep (rt_store s') (rt_nil s) (top cx) t' ->
  same_frame s s' /\ is_tree s' (plug cx t').
Proof.
  intros HT Hr Hr' HP Ha Hy HB HA HR. pose proof HT as (_ & Hc & _)%is_tree_focus. rewrite Hr in Hc.
  assert (same_frame s s') as HF.
  { split_and!; [unfold s', rotated; destruct cx as [|[[] ? ? ? ? ?]], B; reflexivity..| |].
    - by apply rotated_nil.
    - intros p. by apply rotated_dom. }
  split; [done|]. apply (rearrange s s' cx t t'); try done. rewrite Hr'. by apply rotated_cx.
Qed.

(** The part of the code that the rotations share. *)
Lemma rotate_body {X} s cx a y B k v c l r ky vy cy ly ry (K : M rtree X) :
  apart (rt_nil s) a y B cx -> rep (rt_store s) (rt_nil s) y B ->
  repc (rt_store s) (rt_nil s) (rt_setData s) cx a -> rt_store s !! y = Some (mk_entry ky vy cy ly ry a) ->
  ((if negb (root (rt_nil s) B =? rt_nil s) then wr_par (root (rt_nil s) B) a else mret tt) ;;
   (pp ← rd_parent a ; wr_par y pp) ;;
   (pp ← rd_parent a ;
    if pp =? NULL then set_setData y
    else ppl ← rd_left pp ; if a =? ppl then wr_left pp y else wr_right pp y) ;; K)
    (upd a (mk_entry k v c l r (top cx)) s)
  = K (relink (rt_nil s) cx y (upd y (mk_entry ky vy cy ly ry (top cx))
         (reparent (rt_nil s) a B (upd a (mk_entry k v c l r (top cx)) s)))).
Proof.
  intros HA HB HC Ey. pose proof HA as [].
  set (s1 := upd a (mk_entry k v c l r (top cx)) s).
  rewrite (bind_ret _ _ _ _ _ (reparent_run (rt_nil s) a B s1 y eq_refl
    (rep_frame _ _ _ _ _ (fun x Hx => lookup_insert_ne _ _ _ _ (not_eq_sym (proj1 (ap_Bt _ _ _ _ _ HA x Hx)))) HB)
    ap_nB0)).
  set (s2 := reparent (rt_nil s) a B s1).
  assert (rt_store s2 !! a = Some (mk_entry k v c l r (top cx))) as E2.
  { unfold s2. rewrite lookup_reparent_ne by congruence. unfold s1. by rewrite store_upd, lookup_insert_eq. }
  assert (rt_store s2 !! y = Some (mk_entry ky vy cy ly ry a)) as E3.
  { unfold s2. rewrite lookup_reparent_ne by congruence. unfold s1. by rewrite store_upd, lookup_insert_ne. }
  rewrite bind_assoc. acc_step. acc_step. rewrite bind_assoc.
  erewrite (bind_ret (rd_parent a)) by (eapply rd_parent_ok; rewrite store_upd, lookup_insert_ne by congruence; exact E2).
  erewrite bind_ret; [reflexivity|]. apply (relink_run (rt_nil s) cx y _ (rt_setData s)); try done.
  eapply repc_frame; [|exact HC]. intros x Hx. destruct (ap_cx0 x Hx) as (? & ? & ?).
  rewrite store_upd, lookup_insert_ne by done. unfold s2. rewrite lookup_reparent_ne by done. unfold s1.
  by rewrite store_upd, lookup_insert_ne.
Qed.

(** The outer subtrees are not touched. *)
Lemma rotated_outer s cx a y B ea1 ey1 ea ey t par :
  rep (rt_store s) (rt_nil s) par t -> (forall x, x ∈ addrs t -> x <> a /\ x <> y /\ x <> root (rt_nil s) B /\ x <> top cx) ->
  rep (rt_store (rotated s cx a y B ea1 ey1 ea ey)) (rt_nil s) par t.
Proof.
  intros HR Hx. eapply rep_frame; [|exact HR]. intros x (? & ? & ? & ?)%Hx. by apply lookup_rotated.
Qed.

Lemma lookup_rotated_a s cx a y B ea1 ey1 ea ey : rt_store (rotated s cx a y B ea1 ey1 ea ey) !! a = Some ea.
Proof. unfold rotated. by rewrite store_upd, lookup_insert_eq. Qed.
Lemma lookup_rotated_y s cx a y B ea1 ey1 ea ey :
  a <> y -> rt_store (rotated s cx a y B ea1 ey1 ea ey) !! y = Some ey.
Proof. intros. unfold rotated. by rewrite !store_upd, lookup_insert_ne, lookup_insert_eq. Qed.

(** The addresses of a rotated subtree [A a B y C], in any order. *)
Lemma rotate_apart nil cx a y A B C (l : list Z) :
  NoDup (NULL :: nil :: l ++ caddrs cx) -> l ≡ₚ a :: y :: addrs A ++ addrs B ++ addrs C ->
  apart nil a y B cx /\
  (forall t x, t = A \/ t = C -> x ∈ addrs t -> x <> a /\ x <> y /\ x <> root nil B /\ x <> top cx).
Proof.
  intros Hnd HP. rewrite HP in Hnd. clear HP.
  assert (NoDup ((NULL :: nil :: a :: y :: addrs B ++ caddrs cx) ++ addrs A ++ addrs C)) as H'.
  { enough ((NULL :: nil :: a :: y :: addrs B ++ caddrs cx) ++ addrs A ++ addrs C ≡ₚ
      NULL :: nil :: (a :: y :: addrs A ++ addrs B ++ addrs C) ++ caddrs cx) as -> by done. solve_Permutation. }
  apply NoDup_app in H' as (H1 & H2 & _). split; [by apply apart_intro|]. intros t x Ht Hx.
  assert (forall z, z ∈ NULL :: nil :: a :: y :: addrs B ++ caddrs cx -> x <> z) as Hne.
  { intros z Hz ->. apply (H2 z Hz). destruct Ht as [-> | ->]; apply elem_of_app; auto. }
  assert (x <> NULL) by (apply Hne; set_solver). assert (x <> nil) by (apply Hne; set_solver).
  split_and!; [apply Hne; set_solver|apply Hne; set_solver| |].
  - destruct (root_elem nil B) as [-> |?]; [done|apply Hne; set_solver].
  - destruct (top_elem cx) as [-> |?]; [done|apply Hne; set_solver].
Qed.

Lemma leftRotate_run s cx c a k v A cy y ky vy B C :
  is_tree s (plug cx (Node c a k v A (Node cy y ky vy B C))) ->
  exists s', leftRotate a s = Ret (tt, s') /\ same_frame s s' /\
    is_tree s' (plug cx (Node cy y ky vy (Node c a k v A B) C)).
Proof.
  intros HT. pose proof HT as ((Ea & HA & Ey & HB & HC) & Hc & Hnd & _)%is_tree_focus. simpl in Ea.
  destruct (rotate_apart _ cx a y A B C _ Hnd) as [HAp Hout]; [simpl; solve_Permutation|]. pose proof HAp as [].
  eexists. split.
  - unfold leftRotate. rewrite bind_gets.
    rewrite (proj2 (Z.eqb_neq a NULL)), (proj2 (Z.eqb_neq a (rt_nil s))) by done. cbn [orb].
    acc_step. simpl root. rewrite (proj2 (Z.eqb_neq y (rt_nil s))) by done.
    do 2 acc_step. rewrite bind_assoc. acc_step. rewrite (rotate_body s cx a y B _ _ _ _ _ _ _ _ _ _ _ HAp HB Hc Ey).
    erewrite (bind_ret (wr_left y a)).
    2:{ eapply wr_left_ok. rewrite lookup_relink_ne by done. by rewrite store_upd, lookup_insert_eq. }
    erewrite wr_par_ok; [reflexivity|]. rewrite store_upd, lookup_insert_ne by congruence.
    rewrite lookup_relink_ne by done. rewrite store_upd, lookup_insert_ne by congruence.
    rewrite lookup_reparent_ne by congruence. by rewrite store_upd, lookup_insert_eq.
  - eapply (rotate_shape s cx _ _ a y B); try done; [simpl; solve_Permutation|]. cbn [rep root].
    split_and!; [by apply lookup_rotated_y|by apply lookup_rotated_a|..].
    + apply rotated_outer; [done|]. intros x Hx. apply (Hout A); auto.
    + by apply rotated_B.
    + apply rotated_outer; [done|]. intros x Hx. apply (Hout C); auto.
Qed.

Lemma rightRotate_run s cx c a k v cy y ky vy A B C :
  is_tree s (plug cx (Node c a k v (Node cy y ky vy A B) C)) ->
  exists s', rightRotate a s = Ret (tt, s') /\ same_frame s s' /\
    is_tree s' (plug cx (Node cy y ky vy A (Node c a k v B C))).
Proof.
  intros HT. pose proof HT as ((Ea & (Ey & HA & HB) & HC) & Hc & Hnd & _)%is_tree_focus. simpl in Ea.
  destruct (rotate_apart _ cx a y A B C _ Hnd) as [HAp Hout]; [simpl; solve_Permutation|]. pose proof HAp as [].
  eexists. split.
  - unfold rightRotate. rewrite bind_gets.
    rewrite (proj2 (Z.eqb_neq a NULL)), (proj2 (Z.eqb_neq a (rt_nil s))) by done. cbn [orb].
    acc_step. simpl root. rewrite (proj2 (Z.eqb_neq y (rt_nil s))) by done.
    do 2 acc_step. rewrite bind_assoc. acc_step. rewrite (rotate_body s cx a y B _ _ _ _ _ _ _ _ _ _ _ HAp HB Hc Ey).
    erewrite (bind_ret (wr_right y a)).
    2:{ eapply wr_right_ok. rewrite lookup_relink_ne by done. by rewrite store_upd, lookup_insert_eq. }
    erewrite wr_par_ok; [reflexivity|]. rewrite store_upd, lookup_insert_ne by congruence.
    rewrite lookup_relink_ne by done. rewrite store_upd, lookup_insert_ne by congruence.
    rewrite lookup_reparent_ne by congruence. by rewrite store_upd, lookup_insert_eq.
  - eapply (rotate_shape s cx _ _ a y B); try done; [simpl; solve_Permutation|]. cbn [rep root].
    split_and!; [by apply lookup_rotated_y| |by apply lookup_rotated_a|..].
    + apply rotated_outer; [done|]. intros x Hx. apply (Hout A); auto.
    + by apply rotated_B.
    + apply rotated_outer; [done|]. intros x Hx. apply (Hout C); auto.
Qed.

(** *** Reading and painting the node in focus *)

Lemma focus_entry s cx c a k v l r :
  is_tree s (plug cx (Node c a k v l r)) ->
  rt_store s !! a = Some (mk_entry k v c (root (rt_nil s) l) (root (rt_nil s) r) (top cx)).
Proof. by intros ((E & _) & _)%is_tree_focus. Qed.

Lemma focus_colour s cx t : is_tree s (plug cx t) -> rd_color (root (rt_nil s) t) s = Ret (colour t, s).
Proof.
  intros HT. destruct t as [|c a k v l r]; simpl.
  - apply is_tree_focus in HT as (_ & _ & _ & [p E] & _). by erewrite rd_color_ok.
  - apply focus_entry in HT. by erewrite rd_color_ok.
Qed.

Lemma focus_ne s cx c a k v l r : is_tree s (plug cx (Node c a k v l r)) -> a <> NULL /\ a <> rt_nil s.
Proof.
  intros (_ & _ & Hnd & _)%is_tree_focus. simpl in Hnd.
  apply NoDup_cons in Hnd as [H0 Hnd]. apply NoDup_cons in Hnd as [H1 _]. split; intros ->; set_solver.
Qed.

Lemma plug_root_outer nil cx f t : root nil (plug (f :: cx) t) ∈ caddrs (f :: cx).
Proof.
  revert f t. induction cx as [|g cx IH]; intros f t.
  - destruct f as [[] c a k v sib]; simpl; set_solver.
  - specialize (IH g (fill f t)). simpl in *. set_solver.
Qed.

Lemma focus_root s cx t :
  is_tree s (plug cx t) -> (root (rt_nil s) t =? rt_setData s) = match cx with [] => true | _ => false end.
Proof.
  intros HT. destruct cx as [|f cx].
  - simpl in HT. rewrite (it_root _ _ HT). apply Z.eqb_refl.
  - rewrite (it_root _ _ HT). apply Z.eqb_neq. intros E. pose proof (plug_root_outer (rt_nil s) cx f t) as Hin.
    rewrite <- E in Hin. pose proof HT as (_ & _ & Hnd & _)%is_tree_focus.
    apply NoDup_cons in Hnd as [_ Hnd]. apply NoDup_cons in Hnd as [Hn Hnd]. apply NoDup_app in Hnd as (_ & Hd & _).
    destruct (root_elem (rt_nil s) t) as [Er|Ht]; [rewrite Er in Hin; set_solver|by eapply Hd].
Qed.

Lemma focus_root_node s cx c a k v l r :
  is_tree s (plug cx (Node c a k v l r)) -> (a =? rt_setData s) = match cx with [] => true | _ => false end.
Proof. exact (focus_root s cx (Node c a k v l r)). Qed.

Lemma paint_run s cx c0 a k v l r c :
  is_tree s (plug cx (Node c0 a k v l r)) ->
  exists s', wr_color a c s = Ret (tt, s') /\ same_frame s s' /\ is_tree s' (plug cx (Node c a k v l r)).
Proof.
  intros HT. destruct (put_focus _ _ _ _ _ _ _ _ c k v HT) as [HT' HF]. apply focus_entry in HT.
  eexists. split; [by erewrite wr_color_ok|]. done.
Qed.

Lemma nil_same s s' : same_frame s s' -> rt_nil s' = rt_nil s.
Proof. by intros (? & _). Qed.

(** Steps of the fixups, which work on foci known to be in the tree. *)
Ltac foc H := let E := fresh "E" in pose proof (focus_entry _ _ _ _ _ _ _ _ H) as E; cbn [top] in E.

(** Painting, and then what the state that results is known for. *)
Ltac do_paint H cx c :=
  let s' := fresh "s" in let E := fresh "Ep" in let F := fresh "F" in let H' := fresh "HT" in
  destruct (paint_run _ cx _ _ _ _ _ _ c H) as (s' & E & F & H'); rewrite (bind_ret _ _ _ _ _ E); clear E;
  let N := fresh "N" in pose proof (nil_same _ _ F) as N.

(** *** Insertion *)

(** The subtree after the turn at a red parent [a1] with a black uncle [u]. *)
Definition ins_turn (d1 d2 : side) (a1 k1 v1 : Z) (s1 : tree) (a2 k2 v2 : Z) (u t : tree) : tree :=
  match d2, d1, t with
  | OnLeft, OnLeft, _ => Node TREE_BLACK a1 k1 v1 t (Node TREE_RED a2 k2 v2 s1 u)
  | OnLeft, OnRight, Node _ x kx vx tl tr =>
      Node TREE_BLACK x kx vx (Node TREE_RED a1 k1 v1 s1 tl) (Node TREE_RED a2 k2 v2 tr u)
  | OnRight, OnRight, _ => Node TREE_BLACK a1 k1 v1 (Node TREE_RED a2 k2 v2 u s1) t
  | OnRight, OnLeft, Node _ x kx vx tl tr =>
      Node TREE_BLACK x kx vx (Node TREE_RED a2 k2 v2 u tl) (Node TREE_RED a1 k1 v1 tr s1)
  | _, _, Nil => Nil
  end.

(** The tree after the loop of [insert], from the red node [t]. *)
Fixpoint ins_up (cx : ctx) (t : tree) : tree :=
  match cx with
  | Fr d1 TREE_RED a1 k1 v1 s1 :: Fr d2 c2 a2 k2 v2 u :: cx' =>
      if is_red (colour u)
      then ins_up cx' (fill (Fr d2 TREE_RED a2 k2 v2 (paint TREE_BLACK u)) (fill (Fr d1 TREE_BLACK a1 k1 v1 s1) t))
      else plug cx' (ins_turn d1 d2 a1 k1 v1 s1 a2 k2 v2 u t)
  | _ => plug cx t
  end.

Definition fcolour (f : frame) : color_t := match f with Fr _ c _ _ _ _ => c end.
Definition root_black (cx : ctx) : Prop := forall f, last cx = Some f -> fcolour f = TREE_BLACK.

(** Once the parent is black, the loop ends. *)
Lemma insert_fixup_stop n s cx d a1 k1 v1 s1 c x kx vx l r :
  is_tree s (plug (Fr d TREE_BLACK a1 k1 v1 s1 :: cx) (Node c x kx vx l r)) ->
  insert_fixup (S n) x s = Ret (tt, s).
Proof.
  intros HT. pose proof (focus_root_node _ _ _ _ _ _ _ _ HT) as Hr. foc HT. cbn [insert_fixup].
  rewrite bind_gets, Hr. acc_step. cbn [top].
  assert (rd_color a1 s = Ret (TREE_BLACK, s)) as Ec.
  { destruct d; [exact (focus_colour s cx (Node TREE_BLACK a1 k1 v1 _ s1) HT)|
                 exact (focus_colour s cx (Node TREE_BLACK a1 k1 v1 s1 _) HT)]. }
  by rewrite (bind_ret _ _ _ _ _ Ec).
Qed.

Lemma focus_sib_ne s d c1 a1 k1 v1 sib cx c a k v l r :
  is_tree s (plug (Fr d c1 a1 k1 v1 sib :: cx) (Node c a k v l r)) -> a <> root (rt_nil s) sib.
Proof.
  intros HT E. pose proof HT as (_ & _ & Hnd & _)%is_tree_focus. apply focus_ne in HT as [_ Hn].
  do 2 apply NoDup_cons in Hnd as [_ Hnd]. apply NoDup_app in Hnd as (_ & Hd & _).
  destruct (root_elem (rt_nil s) sib) as [E'|Hin]; [congruence|]. apply (Hd a); simpl; set_solver.
Qed.

(** What the loop reads around a red node [x] with a red parent [a1]. *)
Lemma insert_view s d1 a1 k1 v1 s1 d2 c2 a2 k2 v2 u cx c x kx vx l r :
  is_tree s (plug (Fr d1 TREE_RED a1 k1 v1 s1 :: Fr d2 c2 a2 k2 v2 u :: cx) (Node c x kx vx l r)) ->
  let nil := rt_nil s in
  rt_store s !! x = Some (mk_entry kx vx c (root nil l) (root nil r) a1) /\
  rt_store s !! a1 = Some (match d1 with
    | OnLeft => mk_entry k1 v1 TREE_RED x (root nil s1) a2 | OnRight => mk_entry k1 v1 TREE_RED (root nil s1) x a2 end) /\
  rt_store s !! a2 = Some (match d2 with
    | OnLeft => mk_entry k2 v2 c2 a1 (root nil u) (top cx) | OnRight => mk_entry k2 v2 c2 (root nil u) a1 (top cx) end) /\
  rd_color (root nil u) s = Ret (colour u, s) /\
  (x =? rt_setData s) = false /\ x <> root nil s1 /\ a1 <> root nil u.
Proof.
  intros HT nil. pose proof HT as ((Ex & _) & (Ea1 & _ & Ea2 & _) & _)%is_tree_focus. split_and!; try done.
  - destruct d2; [exact (focus_colour _ (Fr OnRight c2 a2 k2 v2 _ :: cx) u HT)|
                  exact (focus_colour _ (Fr OnLeft c2 a2 k2 v2 _ :: cx) u HT)].
  - exact (focus_root_node _ _ _ _ _ _ _ _ HT).
  - exact (focus_sib_ne _ _ _ _ _ _ _ _ _ _ _ _ _ _ HT).
  - destruct d1; exact (focus_sib_ne s d2 c2 a2 k2 v2 u cx _ a1 _ _ _ _ HT).
Qed.

Lemma insert_turn_left n s d1 a1 k1 v1 s1 c2 a2 k2 v2 u cx x kx vx l r :
  let t := Node TREE_RED x kx vx l r in
  is_tree s (plug (Fr d1 TREE_RED a1 k1 v1 s1 :: Fr OnLeft c2 a2 k2 v2 u :: cx) t) -> colour u = TREE_BLACK ->
  exists s', insert_fixup (S (S n)) x s = Ret (tt, s') /\ same_frame s s' /\
    is_tree s' (plug cx (ins_turn d1 OnLeft a1 k1 v1 s1 a2 k2 v2 u t)).
Proof.
  intros t HT Hu. destruct (insert_view _ _ _ _ _ _ _ _ _ _ _ _ _ _ _ _ _ _ _ HT) as (E & E1 & E2 & Cu & Hr & Hx & Hg).
  rewrite Hu in Cu. remember (S n) as m eqn:Em. cbn [insert_fixup]. rewrite bind_gets, Hr. acc_step. subst m.
  destruct d1; cbn [fill] in *; (acc_step; cbn [is_red negb]; do 2 acc_step; rewrite Z.eqb_refl; acc_step;
    rewrite (bind_ret _ _ _ _ _ Cu); cbn [is_red]; acc_step; rewrite ?Z.eqb_refl, ?(proj2 (Z.eqb_neq x (root (rt_nil s) s1)) Hx)); clear E1 E2 Cu.
  - rewrite bind_mret. acc_step. clear E. do_paint HT (Fr OnLeft c2 a2 k2 v2 u :: cx) TREE_BLACK.
    foc HT0. acc_step. clear E.
    do_paint HT0 cx TREE_RED.
    destruct (rightRotate_run _ cx _ _ _ _ _ _ _ _ _ _ _ HT1) as (s3 & Er & Fr3 & HT4).
    rewrite (bind_ret _ _ _ _ _ Er). exists s3. split_and!; [|eauto using same_frame_trans|exact HT4].
    by apply (insert_fixup_stop n s3 cx OnLeft a1 k1 v1 (Node TREE_RED a2 k2 v2 s1 u) TREE_RED x kx vx l r).
  - destruct (leftRotate_run _ (Fr OnLeft c2 a2 k2 v2 u :: cx) _ _ _ _ _ _ _ _ _ _ _ HT) as (s0 & Er & F0 & HT0).
    rewrite bind_assoc, (bind_ret _ _ _ _ _ Er), bind_mret. clear Er E.
    pose proof (focus_entry _ (Fr OnLeft TREE_RED x kx vx r :: Fr OnLeft c2 a2 k2 v2 u :: cx) _ _ _ _ _ _ HT0) as E.
    cbn [top] in E. acc_step. clear E.
    do_paint HT0 (Fr OnLeft c2 a2 k2 v2 u :: cx) TREE_BLACK. foc HT1. acc_step. clear E.
    do_paint HT1 cx TREE_RED.
    destruct (rightRotate_run _ cx _ _ _ _ _ _ _ _ _ _ _ HT2) as (s4 & Er & Fr4 & HT6).
    rewrite (bind_ret _ _ _ _ _ Er). exists s4. split_and!; [|eauto using same_frame_trans|exact HT6].
    by apply (insert_fixup_stop n s4 cx OnLeft x kx vx (Node TREE_RED a2 k2 v2 r u) TREE_RED a1 k1 v1 s1 l).
Qed.

Lemma insert_turn_right n s d1 a1 k1 v1 s1 c2 a2 k2 v2 u cx x kx vx l r :
  let t := Node TREE_RED x kx vx l r in
  is_tree s (plug (Fr d1 TREE_RED a1 k1 v1 s1 :: Fr OnRight c2 a2 k2 v2 u :: cx) t) -> colour u = TREE_BLACK ->
  exists s', insert_fixup (S (S n)) x s = Ret (tt, s') /\ same_frame s s' /\
    is_tree s' (plug cx (ins_turn d1 OnRight a1 k1 v1 s1 a2 k2 v2 u t)).
Proof.
  intros t HT Hu. destruct (insert_view _ _ _ _ _ _ _ _ _ _ _ _ _ _ _ _ _ _ _ HT) as (E & E1 & E2 & Cu & Hr & Hx & Hg).
  rewrite Hu in Cu. remember (S n) as m eqn:Em. cbn [insert_fixup]. rewrite bind_gets, Hr. acc_step. subst m.
  destruct d1; cbn [fill] in *; (acc_step; cbn [is_red negb]; do 2 acc_step; rewrite (proj2 (Z.eqb_neq a1 (root (rt_nil s) u)) Hg); acc_step;
    rewrite (bind_ret _ _ _ _ _ Cu); cbn [is_red]; acc_step; rewrite ?Z.eqb_refl, ?(proj2 (Z.eqb_neq x (root (rt_nil s) s1)) Hx)); clear E1 E2 Cu.
  - destruct (rightRotate_run _ (Fr OnRight c2 a2 k2 v2 u :: cx) _ _ _ _ _ _ _ _ _ _ _ HT) as (s0 & Er & F0 & HT0).
    rewrite bind_assoc, (bind_ret _ _ _ _ _ Er), bind_mret. clear Er E.
    pose proof (focus_entry _ (Fr OnRight TREE_RED x kx vx l :: Fr OnRight c2 a2 k2 v2 u :: cx) _ _ _ _ _ _ HT0) as E.
    cbn [top] in E. acc_step. clear E.
    do_paint HT0 (Fr OnRight c2 a2 k2 v2 u :: cx) TREE_BLACK. foc HT1. acc_step. clear E.
    do_paint HT1 cx TREE_RED.
    destruct (leftRotate_run _ cx _ _ _ _ _ _ _ _ _ _ _ HT2) as (s4 & Er & Fr4 & HT6).
    rewrite (bind_ret _ _ _ _ _ Er). exists s4. split_and!; [|eauto using same_frame_trans|exact HT6].
    by apply (insert_fixup_stop n s4 cx OnRight x kx vx (Node TREE_RED a2 k2 v2 u l) TREE_RED a1 k1 v1 r s1).
  - rewrite bind_mret. acc_step. clear E. do_paint HT (Fr OnRight c2 a2 k2 v2 u :: cx) TREE_BLACK.
    foc HT0. acc_step. clear E.
    do_paint HT0 cx TREE_RED.
    destruct (leftRotate_run _ cx _ _ _ _ _ _ _ _ _ _ _ HT1) as (s3 & Er & Fr3 & HT4).
    rewrite (bind_ret _ _ _ _ _ Er). exists s3. split_and!; [|eauto using same_frame_trans|exact HT4].
    by apply (insert_fixup_stop n s3 cx OnRight a1 k1 v1 (Node TREE_RED a2 k2 v2 u s1) TREE_RED x kx vx l r).
Qed.

Lemma insert_recolour n s d1 a1 k1 v1 s1 d2 c2 a2 k2 v2 u cx x kx vx l r :
  let t := Node TREE_RED x kx vx l r in
  is_tree s (plug (Fr d1 TREE_RED a1 k1 v1 s1 :: Fr d2 c2 a2 k2 v2 u :: cx) t) -> colour u = TREE_RED ->
  exists s', insert_fixup (S n) x s = insert_fixup n a2 s' /\ same_frame s s' /\
    is_tree s' (plug cx (fill (Fr d2 TREE_RED a2 k2 v2 (paint TREE_BLACK u)) (fill (Fr d1 TREE_BLACK a1 k1 v1 s1) t))).
Proof.
  intros t HT Hu. destruct (insert_view _ _ _ _ _ _ _ _ _ _ _ _ _ _ _ _ _ _ _ HT) as (E & E1 & E2 & Cu & Hr & Hx & Hg).
  rewrite Hu in Cu. destruct u as [|cu au ku vu ul ur]; [done|]. simpl in Hu. subst cu. cbn [root] in *.
  assert (exists s1' s2' s3', wr_color a1 TREE_BLACK s = Ret (tt, s1') /\ wr_color au TREE_BLACK s1' = Ret (tt, s2') /\
    wr_color a2 TREE_RED s2' = Ret (tt, s3') /\ same_frame s s3' /\
    is_tree s3' (plug cx (fill (Fr d2 TREE_RED a2 k2 v2 (Node TREE_BLACK au ku vu ul ur))
      (fill (Fr d1 TREE_BLACK a1 k1 v1 s1) t)))) as (q1 & q2 & q3 & W1 & W2 & W3 & F & HT').
  { destruct d1, d2; cbn [fill] in *.
    all: destruct (paint_run s (Fr _ c2 a2 k2 v2 _ :: cx) _ a1 _ _ _ _ TREE_BLACK HT) as (q1 & W1 & F1 & H1).
    1,3: destruct (paint_run q1 (Fr OnRight c2 a2 k2 v2 _ :: cx) _ au _ _ _ _ TREE_BLACK H1) as (q2 & W2 & F2 & H2).
    3,4: destruct (paint_run q1 (Fr OnLeft c2 a2 k2 v2 _ :: cx) _ au _ _ _ _ TREE_BLACK H1) as (q2 & W2 & F2 & H2).
    all: destruct (paint_run q2 cx _ a2 _ _ _ _ TREE_RED H2) as (q3 & W3 & F3 & H3).
    all: exists q1, q2, q3; split_and!; eauto using same_frame_trans. }
  exists q3. split_and!; [|done|done]. cbn [insert_fixup]. rewrite bind_gets, Hr. acc_step.
  destruct d1; (acc_step; cbn [is_red negb]; acc_step; destruct d2;
    (acc_step; rewrite ?Z.eqb_refl, ?(proj2 (Z.eqb_neq a1 au) Hg); acc_step; rewrite (bind_ret _ _ _ _ _ Cu);
     cbn [is_red]; by rewrite (bind_ret _ _ _ _ _ W1), (bind_ret _ _ _ _ _ W2), (bind_ret _ _ _ _ _ W3))).
Qed.

Lemma root_black_tail f g cx : root_black (f :: g :: cx) -> root_black (g :: cx).
Proof. intros H x Hx. apply H. by rewrite last_cons, Hx. Qed.
Lemma root_black_drop f g cx : root_black (f :: g :: cx) -> root_black cx.
Proof. intros H x Hx. apply H. by rewrite !last_cons, Hx. Qed.

Lemma insert_fixup_run n s cx x kx vx l r :
  is_tree s (plug cx (Node TREE_RED x kx vx l r)) -> root_black cx -> (length cx + 2 <= n)%nat ->
  exists s', insert_fixup n x s = Ret (tt, s') /\ same_frame s s' /\ is_tree s' (ins_up cx (Node TREE_RED x kx vx l r)).
Proof.
  revert s cx x kx vx l r. induction n as [n IH] using lt_wf_ind. intros s cx x kx vx l r HT HB Hn.
  destruct n as [|[|n]]; [lia|lia|].
  destruct cx as [|[d1 c1 a1 k1 v1 s1] cx].
  { exists s. split_and!; [|apply same_frame_refl|done]. cbn [insert_fixup]. rewrite bind_gets.
    by rewrite (focus_root_node _ _ _ _ _ _ _ _ HT). }
  destruct c1.
  { exists s. split_and!; [by eapply insert_fixup_stop|apply same_frame_refl|done]. }
  destruct cx as [|[d2 c2 a2 k2 v2 u] cx]; [by specialize (HB _ eq_refl)|]. cbn [ins_up].
  destruct (colour u) eqn:Hu; cbn [is_red].
  - destruct d2; [exact (insert_turn_left _ _ _ _ _ _ _ _ _ _ _ _ _ _ _ _ _ _ HT Hu)|
                 exact (insert_turn_right _ _ _ _ _ _ _ _ _ _ _ _ _ _ _ _ _ _ HT Hu)].
  - destruct (insert_recolour (S n) _ _ _ _ _ _ _ _ _ _ _ _ _ _ _ _ _ _ HT Hu) as (s' & -> & F & HT').
    destruct d2; cbn [fill] in *.
    all: destruct (IH (S n) ltac:(lia) s' cx _ _ _ _ _ HT') as (s'' & -> & F' & HT'');
      [by eapply root_black_drop|simpl in Hn; lia|].
    all: exists s''; split_and!; eauto using same_frame_trans.
Qed.

(** ** Contents and balance *)

Fixpoint items (t : tree) : list (Z * Z) :=
  match t with Nil => [] | Node _ _ k v l r => items l ++ (k, v) :: items r end.

(** What is left and right of a hole. *)
Fixpoint lefts (cx : ctx) : list (Z * Z) :=
  match cx with
  | [] => []
  | Fr OnLeft _ _ _ _ _ :: cx' => lefts cx'
  | Fr OnRight _ _ k v sib :: cx' => lefts cx' ++ items sib ++ [(k, v)]
  end.
Fixpoint rights (cx : ctx) : list (Z * Z) :=
  match cx with
  | [] => []
  | Fr OnLeft _ _ k v sib :: cx' => (k, v) :: items sib ++ rights cx'
  | Fr OnRight _ _ _ _ _ :: cx' => rights cx'
  end.

(** Sequences that are the same up to bracketing. *)
Ltac app_eq := repeat (progress (rewrite <- ?app_assoc; simpl)).

Lemma items_plug cx t : items (plug cx t) = lefts cx ++ items t ++ rights cx.
Proof.
  revert t. induction cx as [|[[] c a k v sib] cx IH]; intros t; simpl; [by rewrite app_nil_r| |];
    rewrite IH; simpl; by app_eq.
Qed.

Lemma items_paint c t : items (paint c t) = items t.
Proof. by destruct t. Qed.

Lemma items_ins_up cx x kx vx l r c :
  items (ins_up cx (Node c x kx vx l r)) = items (plug cx (Node c x kx vx l r)).
Proof.
  remember (length cx) as n eqn:En. revert cx c x kx vx l r En.
  induction n as [n IH] using lt_wf_ind. intros cx c x kx vx l r ->.
  destruct cx as [|[d1 [] a1 k1 v1 s1] [|[d2 c2 a2 k2 v2 u] cx]]; try done. cbn [ins_up].
  destruct (is_red (colour u)).
  - destruct d2; cbn [fill]; (rewrite (IH (length cx)); [|simpl; lia|done]); rewrite !items_plug;
      destruct d1; simpl; rewrite ?items_paint; by app_eq.
  - rewrite !items_plug. destruct d1, d2; simpl; by app_eq.
Qed.

(** Red nodes have black children, and all ways down meet as many black nodes;
    the index is the colour of the parent. *)
Inductive rb : color_t -> nat -> tree -> Prop :=
| rb_Nil p : rb p 0 Nil
| rb_Red n a k v l r : rb TREE_RED n l -> rb TREE_RED n r -> rb TREE_BLACK n (Node TREE_RED a k v l r)
| rb_Black p n a k v l r : rb TREE_BLACK n l -> rb TREE_BLACK n r -> rb p (S n) (Node TREE_BLACK a k v l r).

(** Contexts that give a balanced tree with a black root when their hole, under
    a parent of this colour, is filled by a balanced tree of this height. *)
Inductive rbc : color_t -> nat -> ctx -> Prop :=
| rbc_top n : rbc TREE_RED n []
| rbc_Red n d a k v sib cx : rb TREE_RED n sib -> rbc TREE_BLACK n cx -> rbc TREE_RED n (Fr d TREE_RED a k v sib :: cx)
| rbc_Black p n d a k v sib cx :
    rb TREE_BLACK n sib -> rbc p (S n) cx -> rbc TREE_BLACK n (Fr d TREE_BLACK a k v sib :: cx).

Create HintDb rbt.
#[export] Hint Constructors rb rbc : rbt.

Lemma rb_weaken n t : rb TREE_RED n t -> rb TREE_BLACK n t.
Proof. inversion 1; eauto with rbt. Qed.
Lemma rb_under p n t : rb TREE_RED n t -> rb p n t.
Proof. destruct p; [apply rb_weaken|done]. Qed.
Lemma rb_black_colour p n t : rb p n t -> colour t = TREE_BLACK -> rb TREE_RED n t.
Proof. inversion 1; simpl; eauto with rbt. done. Qed.
Lemma rb_paint p n t : rb p n t -> colour t = TREE_RED -> rb TREE_RED (S n) (paint TREE_BLACK t).
Proof. inversion 1; simpl; try done. eauto using rb_weaken with rbt. Qed.
Lemma rb_red_black n t : rb TREE_RED n t -> paint TREE_BLACK t = t.
Proof. by inversion 1. Qed.
#[export] Hint Resolve rb_weaken rb_under : rbt.

Lemma rbc_plug p n cx t : rbc p n cx -> rb p n t -> exists m, rb TREE_RED m (plug cx t).
Proof.
  intros HC. revert t. induction HC as [n|n d a k v sib cx Hs HC IH|p n d a k v sib cx Hs HC IH]; intros t Ht; simpl; [eauto|..].
  - apply IH. destruct d; simpl; eauto with rbt.
  - apply IH. destruct d; simpl; eauto with rbt.
Qed.

Lemma rb_unplug m cx t : rb TREE_RED m (plug cx t) -> exists p n, rbc p n cx /\ rb p n t.
Proof.
  revert t. induction cx as [|f cx IH]; intros t H; simpl in *; [eauto with rbt|].
  destruct (IH _ H) as (p & n & HC & HR). destruct f as [[] c a k v sib]; simpl in HR; inversion HR; subst; eauto with rbt.
Qed.

Lemma rbc_root_black p n cx : rbc p n cx -> root_black cx.
Proof.
  induction 1 as [n|n d a k v sib cx Hs HC IH|p n d a k v sib cx Hs HC IH]; intros f; simpl; [done| |].
  - destruct cx as [|g cx]; [by inversion HC|]. intros Hf. by apply IH.
  - destruct cx as [|g cx]; [by intros [= <-]|]. intros Hf. by apply IH.
Qed.

Lemma ins_up_rb p n cx x kx vx l r :
  rbc p n cx -> rb TREE_RED n l -> rb TREE_RED n r ->
  exists m, rb TREE_RED m (paint TREE_BLACK (ins_up cx (Node TREE_RED x kx vx l r))).
Proof.
  remember (length cx) as len eqn:En. revert p n cx x kx vx l r En.
  induction len as [len IH] using lt_wf_ind. intros p n cx x kx vx l r -> HC Hl Hr.
  destruct cx as [|[d1 c1 a1 k1 v1 s1] cx]; [simpl; eauto with rbt|]. destruct c1.
  { destruct (rbc_plug p n _ (Node TREE_RED x kx vx l r) HC) as [m Hm]; [inversion HC; subst; eauto with rbt|].
    exists m. cbn [ins_up]. by rewrite (rb_red_black m). }
  inversion HC as [|? ? ? ? ? ? ? Hs HC1|]; subst. destruct cx as [|[d2 c2 a2 k2 v2 u] cx]; [inversion HC1|].
  inversion HC1 as [| |q ? ? ? ? ? ? ? Hu HC2]; subst. cbn [ins_up]. destruct (colour u) eqn:Eu; cbn [is_red].
  - pose proof (rb_black_colour _ _ _ Hu Eu) as Hu'. destruct (rbc_plug _ _ _ (ins_turn d1 d2 a1 k1 v1 s1 a2 k2 v2 u
      (Node TREE_RED x kx vx l r)) HC2) as [m Hm].
    { destruct d1, d2; simpl; eauto 6 with rbt. }
    exists m. by rewrite (rb_red_black m).
  - pose proof (rb_paint _ _ _ Hu Eu) as Hu'.
    destruct d2; cbn [fill]; (eapply (IH (length cx)); [simpl; lia|done|exact HC2| |]);
      try exact Hu'; destruct d1; simpl; eauto with rbt.
Qed.

(** ** Walking down *)

Fixpoint height (t : tree) : nat :=
  match t with Nil => 0%nat | Node _ _ _ _ l r => S (height l `max` height r) end.

Lemma height_addrs t : (height t <= length (addrs t))%nat.
Proof. induction t as [|c a k v l IHl r IHr]; simpl; [lia|]. rewrite length_app. lia. Qed.

Lemma rep_has h nil par t x : rep h nil par t -> x ∈ addrs t -> is_Some (h !! x).
Proof.
  revert par. induction t as [|c a k v l IHl r IHr]; intros par; simpl; [set_solver|].
  intros (E & Hl & Hr) [->|[Hx|Hx]%elem_of_app]%elem_of_cons; eauto.
Qed.

Lemma store_size s t : is_tree s t -> (S (length (addrs t)) <= size (rt_store s))%nat.
Proof.
  intros [HR _ Hnd [p Hp] _]. apply NoDup_cons in Hnd as [_ Hnd]. rewrite <- size_dom.
  replace (S (length (addrs t))) with (size (list_to_set (rt_nil s :: addrs t) : gset Z)) by (by rewrite size_list_to_set).
  apply subseteq_size. intros x. rewrite elem_of_list_to_set, elem_of_dom.
  intros [->|Hx]%elem_of_cons; [eauto|by eapply rep_has].
Qed.

Lemma caddrs_length cx : (length cx <= length (caddrs cx))%nat.
Proof.
  induction cx as [|[d c a k v sib] cx IH]; [done|].
  change (caddrs (Fr d c a k v sib :: cx)) with ((a :: addrs sib) ++ caddrs cx). rewrite length_app. simpl. lia.
Qed.

Lemma plug_length cx t : length (addrs (plug cx t)) = (length (addrs t) + length (caddrs cx))%nat.
Proof. by rewrite plug_addrs, length_app. Qed.

(** The rounds the loops may take are enough for every way through the tree. *)
Definition fuel_of (s : rtree) : nat := S (size (rt_store s)).

Lemma bind_walk_fuel s {X} (k : nat -> M rtree X) : (walk_fuel ≫= k) s = k (fuel_of s) s.
Proof. done. Qed.

Lemma fuel_enough s cx t :
  is_tree s (plug cx t) -> (height t + length cx + 2 <= fuel_of s)%nat /\ (length (addrs (plug cx t)) < fuel_of s)%nat.
Proof.
  intros HT. unfold fuel_of. pose proof (store_size _ _ HT) as Hs. rewrite plug_length in *.
  pose proof (height_addrs t). pose proof (caddrs_length cx). lia.
Qed.

(** Where a key is, or would be. *)
Fixpoint locate (key : Z) (t : tree) (cx : ctx) : ctx * tree :=
  match t with
  | Nil => (cx, Nil)
  | Node c a k v l r =>
      if key <? k then locate key l (Fr OnLeft c a k v r :: cx)
      else if k <? key then locate key r (Fr OnRight c a k v l :: cx)
      else (cx, t)
  end.

Lemma locate_plug key t cx cx' t' : locate key t cx = (cx', t') -> plug cx' t' = plug cx t.
Proof.
  revert cx. induction t as [|c a k v l IHl r IHr]; intros cx; simpl; [by intros [= <- <-]|].
  destruct (key <? k); [intros E; by apply IHl in E|]. destruct (k <? key); [intros E; by apply IHr in E|].
  by intros [= <- <-].
Qed.

Lemma locate_node key t cx cx' c a k v l r : locate key t cx = (cx', Node c a k v l r) -> k = key.
Proof.
  revert cx. induction t as [|c0 a0 k0 v0 l0 IHl r0 IHr]; intros cx; simpl; [done|].
  destruct (Z.ltb_spec key k0); [apply IHl|]. destruct (Z.ltb_spec k0 key); [apply IHr|].
  intros [= _ _ _ E _ _ _]. lia.
Qed.

(** The last turn on the way to a key was to its side. *)
Definition sided (key : Z) (cx : ctx) : Prop :=
  match cx with
  | [] => True
  | Fr OnLeft _ _ k _ _ :: _ => key < k
  | Fr OnRight _ _ k _ _ :: _ => k < key
  end.

Lemma locate_sided key t cx cx' t' : sided key cx -> locate key t cx = (cx', t') -> sided key cx'.
Proof.
  revert cx. induction t as [|c a k v l IHl r IHr]; intros cx Hs; simpl; [by intros [= <- <-]|].
  destruct (Z.ltb_spec key k); [by apply IHl|]. destruct (Z.ltb_spec k key); [by apply IHr|].
  by intros [= <- <-].
Qed.

(** One round of a loop that walks down. *)
Ltac down_step :=
  cbn [find_loop insert_down precessor_loop successor_loop]; rewrite bind_gets.

Lemma nil_test s cx t :
  is_tree s (plug cx t) -> (root (rt_nil s) t =? rt_nil s) = match t with Nil => true | _ => false end.
Proof.
  intros HT. destruct t as [|c a k v l r]; simpl; [apply Z.eqb_refl|]. apply focus_ne in HT as [_ ?].
  by apply Z.eqb_neq.
Qed.

Lemma find_loop_run n s key t cx cx' t' :
  is_tree s (plug cx t) -> (height t < n)%nat -> locate key t cx = (cx', t') ->
  find_loop n (root (rt_nil s) t) key s = Ret (match t' with Nil => NULL | Node _ a _ _ _ _ => a end, s).
Proof.
  revert n cx. induction t as [|c a k v l IHl r IHr]; intros n cx HT Hn HL;
    (destruct n as [|n]; [lia|]); down_step; rewrite (nil_test _ _ _ HT).
  - injection HL as <- <-. done.
  - simpl in Hn, HL. foc HT. cbn [root]. acc_step. destruct (key <? k); [|destruct (k <? key)].
    + acc_step. eapply (IHl n (Fr OnLeft c a k v r :: cx) HT); [lia|done].
    + acc_step. eapply (IHr n (Fr OnRight c a k v l :: cx) HT); [lia|done].
    + by injection HL as <- <-.
Qed.

Lemma find_internal_run s key t cx' t' :
  is_tree s t -> locate key t [] = (cx', t') ->
  find_internal key s = Ret (match t' with Nil => NULL | Node _ a _ _ _ _ => a end, s).
Proof.
  intros HT HL. unfold find_internal. rewrite bind_walk_fuel, bind_gets, (it_root _ _ HT).
  pose proof (fuel_enough s [] t HT). eapply (find_loop_run _ s key t []); eauto. lia.
Qed.

Lemma insert_down_run n s key value t cx cx' t' :
  is_tree s (plug cx t) -> (height t < n)%nat -> locate key t cx = (cx', t') ->
  insert_down n (top cx) (root (rt_nil s) t) key value s =
  match t' with
  | Nil => Ret (Some (top cx'), s)
  | Node c a k v l r => Ret (None, upd a (mk_entry k value c (root (rt_nil s) l) (root (rt_nil s) r) (top cx')) s)
  end.
Proof.
  revert n cx. induction t as [|c a k v l IHl r IHr]; intros n cx HT Hn HL;
    (destruct n as [|n]; [lia|]); down_step; rewrite (nil_test _ _ _ HT).
  - injection HL as <- <-. done.
  - simpl in Hn, HL. foc HT. cbn [root]. acc_step. destruct (key <? k); [|destruct (k <? key)].
    + acc_step. eapply (IHl n (Fr OnLeft c a k v r :: cx) HT); [lia|done].
    + acc_step. eapply (IHr n (Fr OnRight c a k v l :: cx) HT); [lia|done].
    + injection HL as <- <-. by erewrite (bind_ret (wr_value a value)) by (by eapply wr_value_ok).
Qed.

(** ** Insertion of a node *)

Definition set_size (n : Z) (s : rtree) : rtree :=
  mk_rtree (rt_store s) (rt_nil s) n (rt_setData s) (rt_brk s).

Lemma is_tree_size s n t : is_tree s t -> is_tree (set_size n s) t.
Proof. by intros []. Qed.

(** The new leaf under the top of a context. *)
Definition with_leaf (s : rtree) (cx : ctx) (key value : Z) : rtree :=
  let z := rt_brk s in
  relink (rt_nil s) cx z (upd z (mk_entry key value TREE_RED (rt_nil s) (rt_nil s) (top cx))
    (mk_rtree (<[z := mk_entry key value TREE_RED (rt_nil s) (rt_nil s) NULL]> (rt_store s))
       (rt_nil s) (rt_setSize s) (rt_setData s) (z + 1))).

Lemma lookup_with_leaf s cx key value x :
  x <> rt_brk s -> x <> top cx -> rt_store (with_leaf s cx key value) !! x = rt_store s !! x.
Proof.
  intros X1 X2. unfold with_leaf. rewrite lookup_relink_ne by done. rewrite store_upd, lookup_insert_ne by done.
  cbn [rt_store]. by rewrite lookup_insert_ne.
Qed.

Lemma with_leaf_shape s cx key value :
  is_tree s (plug cx Nil) ->
  is_tree (with_leaf s cx key value) (plug cx (Node TREE_RED (rt_brk s) key value Nil Nil)).
Proof.
  intros HT. pose proof HT as (_ & Hc & Hnd & [np En] & Hb)%is_tree_focus. simpl in *.
  assert (rt_brk s ∉ NULL :: rt_nil s :: caddrs cx) as Hz by (intros Hin; specialize (Hb _ Hin); lia).
  rewrite !not_elem_of_cons in Hz. destruct Hz as (Z0 & Zn & Zc).
  rewrite !NoDup_cons, not_elem_of_cons in Hnd. destruct Hnd as ((N0 & N0c) & Nn & Nc).
  assert (top cx <> rt_brk s /\ top cx <> rt_nil s) as (T1 & T2).
  { destruct (top_elem cx) as [->|Ht]; split; try congruence; intros E; by rewrite E in Ht. }
  pose proof (relink_fields (rt_nil s) cx (rt_brk s) (upd (rt_brk s) (mk_entry key value TREE_RED (rt_nil s) (rt_nil s) (top cx))
    (mk_rtree (<[rt_brk s := mk_entry key value TREE_RED (rt_nil s) (rt_nil s) NULL]> (rt_store s))
       (rt_nil s) (rt_setSize s) (rt_setData s) (rt_brk s + 1)))) as (L1 & L2 & L3).
  apply is_tree_focus. fold (with_leaf s cx key value) in *. simpl in L1, L2, L3. rewrite L1, L2. simpl.
  assert (rt_store (with_leaf s cx key value) !! rt_brk s = Some (mk_entry key value TREE_RED (rt_nil s) (rt_nil s) (top cx))) as Ez.
  { unfold with_leaf. rewrite lookup_relink_ne by done. by rewrite store_upd, lookup_insert_eq. }
  assert (repc (rt_store (with_leaf s cx key value)) (rt_nil s) (rt_setData (with_leaf s cx key value)) cx (rt_brk s)) as HC.
  { eapply (relink_repc (rt_store s)); [exact Hc|done|done| |done].
    intros x Hx Ht. apply lookup_with_leaf; [by intros ->|done]. }
  split_and!; [done|done|done|done| | |].
  - rewrite !NoDup_cons, !not_elem_of_cons. split_and!; auto.
  - exists np. by rewrite lookup_with_leaf.
  - intros p Hp. assert (p = rt_brk s \/ p < rt_brk s) as [?|?]; [|lia|lia].
    apply elem_of_cons in Hp as [->|Hp]; [right; apply Hb; set_solver|].
    apply elem_of_cons in Hp as [->|Hp]; [right; apply Hb; set_solver|].
    apply elem_of_cons in Hp as [->|Hp]; [by left|right; apply Hb; set_solver].
Qed.

(** The new leaf and the size after it. *)
Lemma treeInsert_new s t key value cx :
  is_tree s t -> locate key t [] = (cx, Nil) ->
  treeInsert key value s = Ret (rt_brk s, set_size (s32 (rt_setSize s + 1)) (with_leaf s cx key value)).
Proof.
  intros HT HL. pose proof (locate_plug _ _ _ _ _ HL) as HP. simpl in HP.
  pose proof (locate_sided _ _ _ _ _ (I : sided key []) HL) as Hs. unfold treeInsert.
  rewrite bind_walk_fuel, bind_gets, (it_root _ _ HT). pose proof (fuel_enough s [] t HT) as [Hn _].
  rewrite (bind_ret _ _ _ _ _ (insert_down_run (fuel_of s) s key value t [] cx Nil HT ltac:(simpl in Hn; lia) HL)).
  rewrite bind_gets. erewrite (bind_ret (new_entry _ _ _)) by reflexivity.
  rewrite <- HP in HT. pose proof HT as (_ & Hc & Hnd & _ & Hb)%is_tree_focus. simpl in Hc, Hnd, Hb.
  erewrite (bind_ret (wr_par _ _)) by (eapply wr_par_ok; simpl; by rewrite lookup_insert_eq).
  assert (rt_brk s ∉ caddrs cx) as Hz by (intros Hin; specialize (Hb (rt_brk s)); set_solver by lia).
  rewrite !NoDup_cons in Hnd. destruct Hnd as (H0 & _ & Nc).
  erewrite (bind_ret (if top cx =? NULL then _ else _) _ _ tt (with_leaf s cx key value));
    [by destruct cx as [|[[] ? ? ? ? ?] cx]|].
  destruct cx as [|[d c a k v sib] cx]; [done|]. cbn [top]. rewrite (proj2 (Z.eqb_neq a NULL)) by set_solver.
  assert (a <> rt_brk s) as Ha by set_solver.
  destruct Hc as [Ea _]. destruct d; simpl in Hs; (erewrite (bind_ret (rd_key a)) by
    (eapply rd_key_ok; rewrite store_upd, lookup_insert_ne by done; simpl; rewrite lookup_insert_ne by done; exact Ea)).
  - rewrite (proj2 (Z.ltb_lt key k) Hs). unfold with_leaf. simpl. erewrite wr_left_ok; [done|].
    rewrite store_upd, lookup_insert_ne by done. simpl. by rewrite lookup_insert_ne.
  - rewrite (proj2 (Z.ltb_ge key k)) by lia. erewrite (bind_ret (rd_key a)) by
      (eapply rd_key_ok; rewrite store_upd, lookup_insert_ne by done; simpl; rewrite lookup_insert_ne by done; exact Ea).
    rewrite (proj2 (Z.ltb_lt k key) Hs). unfold with_leaf. simpl. erewrite wr_right_ok; [done|].
    rewrite store_upd, lookup_insert_ne by done. simpl. by rewrite lookup_insert_ne.
Qed.

(** Replacing the value of a key. *)
Fixpoint set_value (key value : Z) (t : tree) : tree :=
  match t with
  | Nil => Nil
  | Node c a k v l r =>
      if key <? k then Node c a k v (set_value key value l) r
      else if k <? key then Node c a k v l (set_value key value r)
      else Node c a k value l r
  end.

Lemma locate_set_value key value t cx0 cx c a k v l r :
  locate key t cx0 = (cx, Node c a k v l r) -> locate key (set_value key value t) cx0 = (cx, Node c a k value l r).
Proof.
  revert cx0. induction t as [|c0 a0 k0 v0 l0 IHl r0 IHr]; intros cx0; [done|]. cbn [set_value locate].
  destruct (key <? k0) eqn:E1; [|destruct (k0 <? key) eqn:E2]; intros HL; cbn [locate]; rewrite ?E1, ?E2.
  - by apply IHl.
  - by apply IHr.
  - by injection HL as -> -> -> -> -> -> ->.
Qed.

Section Insert.
Context `{RangeOf}.

Lemma insert_old_run s t value cx c a k v l r :
  is_tree s t -> locate (get_address value) t [] = (cx, Node c a k v l r) ->
  exists s', insert value s = Ret (tt, s') /\ is_tree s' (plug cx (Node c a k value l r)) /\ same_frame s s'.
Proof.
  intros HT HL. pose proof (locate_plug _ _ _ _ _ HL) as HP. simpl in HP. unfold insert.
  pose proof HT as HT0. rewrite <- HP in HT0. destruct (put_focus _ _ _ _ _ _ _ _ c k value HT0) as [HT' HF].
  eexists. split_and!; [|exact HT'|exact HF]. unfold treeInsert. rewrite bind_assoc.
  rewrite bind_walk_fuel, bind_assoc, bind_gets, (it_root _ _ HT), bind_assoc.
  pose proof (fuel_enough s [] t HT) as [Hn _].
  rewrite (bind_ret _ _ _ _ _ (insert_down_run (fuel_of s) s _ value t [] cx _ HT ltac:(simpl in Hn; lia) HL)).
  rewrite bind_mret. cbn [Z.eqb NULL].
  assert (plug cx (Node c a k value l r) = set_value (get_address value) value t) as Ep.
  { apply (locate_plug (get_address value) _ []). by eapply locate_set_value. }
  pose proof HT' as HT2. rewrite Ep in HT2.
  rewrite (bind_ret _ _ _ _ _ (find_internal_run _ _ _ _ _ HT2 (locate_set_value _ value _ _ _ _ _ _ _ _ _ HL))).
  foc HT'. acc_step. unfold assertM. by rewrite Z.eqb_refl.
Qed.

Lemma ins_up_node cx x kx vx l r c : exists c' a k v l' r', ins_up cx (Node c x kx vx l r) = Node c' a k v l' r'.
Proof.
  pose proof (items_ins_up cx x kx vx l r c) as E. rewrite items_plug in E. simpl in E.
  destruct (ins_up _ _); [|by eauto 7]. simpl in E. by destruct (lefts cx), (items l).
Qed.

Lemma insert_new_run s t value cx p n :
  is_tree s t -> locate (get_address value) t [] = (cx, Nil) -> rbc p n cx ->
  exists s', insert value s = Ret (tt, s') /\
    is_tree s' (paint TREE_BLACK (ins_up cx (Node TREE_RED (rt_brk s) (get_address value) value Nil Nil))) /\
    rt_setSize s' = s32 (rt_setSize s + 1) /\ rt_nil s' = rt_nil s /\
    size (rt_store s') = size (rt_store (with_leaf s cx (get_address value) value)).
Proof.
  intros HT HL HC. pose proof (locate_plug _ _ _ _ _ HL) as HP. simpl in HP. unfold insert.
  rewrite (bind_ret _ _ _ _ _ (treeInsert_new _ _ _ _ _ HT HL)).
  assert (rt_brk s <> NULL) as Hz.
  { destruct HT as [_ _ _ _ Hb]. specialize (Hb NULL ltac:(set_solver)). lia. }
  rewrite (proj2 (Z.eqb_neq _ _) Hz). pose proof HT as HT0. rewrite <- HP in HT0.
  pose proof (is_tree_size _ (s32 (rt_setSize s + 1)) _ (with_leaf_shape _ _ (get_address value) value HT0)) as HT1.
  set (s1 := set_size _ _) in *. assert (rt_nil s1 = rt_nil s /\ rt_setSize s1 = s32 (rt_setSize s + 1) /\
    rt_store s1 = rt_store (with_leaf s cx (get_address value) value)) as (N1 & Z1 & S1).
  { split; [|done]. by destruct cx as [|[[] ? ? ? ? ?] cx]. }
  clearbody s1. do_paint HT1 cx TREE_RED.
  rewrite bind_walk_fuel. pose proof (fuel_enough s0 cx _ HT2) as [Hm _].
  destruct (insert_fixup_run (fuel_of s0) s0 cx _ _ _ _ _ HT2 (rbc_root_black _ _ _ HC)) as (s2 & Ef & F2 & HT3); [lia|].
  rewrite (bind_ret _ _ _ _ _ Ef), bind_gets. destruct (ins_up_node cx (rt_brk s) (get_address value) value Nil Nil TREE_RED)
    as (c' & a & k & v & l & r & E). rewrite E in *.
  destruct (paint_run s2 [] _ _ _ _ _ _ TREE_BLACK HT3) as (s3 & Ep & F3 & HT4).
  exists s3. rewrite (it_root _ _ HT3). simpl. split_and!; [done|done|..].
  - destruct F as (_ & _ & A & _), F2 as (_ & _ & B & _), F3 as (_ & _ & C & _). congruence.
  - destruct F as (A & _), F2 as (B & _), F3 as (C & _). congruence.
  - by rewrite (same_frame_size _ _ F3), (same_frame_size _ _ F2), (same_frame_size _ _ F), S1.
Qed.
End Insert.

(** ** Removal *)

(** The parent of the focus, for which the sentinel stands when it is empty. *)
Definition nil_parent (s : rtree) (t : tree) (q : Z) : Prop :=
  t = Nil -> rt_store s !! rt_nil s = Some (mk_entry 0 NULL TREE_BLACK NULL NULL q).

Lemma nil_parent_same s s' t q : same_frame s s' -> nil_parent s t q -> nil_parent s' t q.
Proof. intros (N & _ & _ & K & _) HN E. by rewrite N, K, (HN E). Qed.

Lemma focus_parent s cx t :
  is_tree s (plug cx t) -> nil_parent s t (top cx) -> rd_parent (root (rt_nil s) t) s = Ret (top cx, s).
Proof.
  intros HT HN. destruct t as [|c a k v l r]; simpl.
  - by erewrite rd_parent_ok by (by apply HN).
  - apply focus_entry in HT. by erewrite rd_parent_ok.
Qed.

(** The child on one side, and a node from its two sides. *)
Definition near (d : side) (l r : tree) : tree := match d with OnLeft => l | OnRight => r end.
Definition far (d : side) (l r : tree) : tree := match d with OnLeft => r | OnRight => l end.
Definition mk (d : side) (c : color_t) (a k v : Z) (x y : tree) : tree :=
  match d with OnLeft => Node c a k v x y | OnRight => Node c a k v y x end.

Inductive outcome : Type := Up (t : tree) | Done (t : tree).

(** One round of the loop of [deleteFixup] with a black sibling [w]: the shortage
    moves up, or it ends. *)
Definition del_sib (d : side) (c : color_t) (a k v : Z) (t w : tree) : outcome :=
  match w with
  | Nil => Up Nil
  | Node _ wa wk wv wl wr =>
      if negb (is_red (colour (near d wl wr))) && negb (is_red (colour (far d wl wr)))
      then Up (mk d c a k v t (Node TREE_RED wa wk wv wl wr))
      else if negb (is_red (colour (far d wl wr))) then
        match near d wl wr with
        | Nil => Up Nil
        | Node _ la lk lv ll lr =>
            Done (mk d c la lk lv (mk d TREE_BLACK a k v t (near d ll lr))
                    (mk d TREE_BLACK wa wk wv (far d ll lr) (far d wl wr)))
        end
      else Done (mk d c wa wk wv (mk d TREE_BLACK a k v t (near d wl wr)) (paint TREE_BLACK (far d wl wr)))
  end.

(** The code of a round after the sibling was made black. *)
Definition rest_left (K : Z -> M rtree Z) (x w : Z) : M rtree Z :=
  wl ← rd_left w ; wlc ← rd_color wl ; wr ← rd_right w ; wrc ← rd_color wr ;
  if negb (is_red wlc) && negb (is_red wrc) then
    wr_color w TREE_RED ;; p ← rd_parent x ; K p
  else
    w ← (if negb (is_red wrc) then
           wr_color wl TREE_BLACK ;; wr_color w TREE_RED ;; rightRotate w ;;
           p ← rd_parent x ; rd_right p
         else mret w) ;
    p ← rd_parent x ; pc ← rd_color p ; wr_color w pc ;;
    wr_color p TREE_BLACK ;;
    wr ← rd_right w ; wr_color wr TREE_BLACK ;;
    leftRotate p ;;
    root ← gets rt_setData ; K root.

Definition rest_right (K : Z -> M rtree Z) (x w : Z) : M rtree Z :=
  wr ← rd_right w ; wrc ← rd_color wr ; wl ← rd_left w ; wlc ← rd_color wl ;
  if negb (is_red wrc) && negb (is_red wlc) then
    wr_color w TREE_RED ;; p ← rd_parent x ; K p
  else
    w ← (if negb (is_red wlc) then
           wr_color wr TREE_BLACK ;; wr_color w TREE_RED ;; leftRotate w ;;
           p ← rd_parent x ; rd_left p
         else mret w) ;
    p ← rd_parent x ; pc ← rd_color p ; wr_color w pc ;;
    wr_color p TREE_BLACK ;;
    wl ← rd_left w ; wr_color wl TREE_BLACK ;;
    rightRotate p ;;
    root ← gets rt_setData ; K root.

(** What a round leaves: the next node to look at, and the tree. *)
Definition round_ok (K : Z -> M rtree Z) (m : M rtree Z) (s : rtree) (cx : ctx) (o : outcome) : Prop :=
  exists s', same_frame s s' /\
    match o with
    | Up t' => m s = K (root (rt_nil s) t') s' /\ is_tree s' (plug cx t')
    | Done t' => m s = K (rt_setData s') s' /\ is_tree s' (plug cx t')
    end.

(** Painting, with names for what results. *)
Ltac do_paint2 H cx c s' W F H' := destruct (paint_run _ cx _ _ _ _ _ _ c H) as (s' & W & F & H').

(** The end of a round, once the far child of the sibling is red. *)
Lemma rest_left_end (K : Z -> M rtree Z) s cx c a k v t cw wa wk wv wl rc ra rk rv rl rr :
  let w := Node cw wa wk wv wl (Node rc ra rk rv rl rr) in
  is_tree s (plug (Fr OnLeft c a k v w :: cx) t) -> nil_parent s t a ->
  round_ok K (p ← rd_parent (root (rt_nil s) t) ; pc ← rd_color p ; wr_color wa pc ;; wr_color p TREE_BLACK ;;
      wr ← rd_right wa ; wr_color wr TREE_BLACK ;; leftRotate p ;; root ← gets rt_setData ; K root) s cx
    (Done (Node c wa wk wv (Node TREE_BLACK a k v t wl) (Node TREE_BLACK ra rk rv rl rr))).
Proof.
  intros w HT HN. rewrite <- (eq_refl : top (Fr OnLeft c a k v w :: cx) = a) in HN.
  pose proof (focus_parent _ _ _ HT HN) as Hp. cbn [top] in Hp.
  pose proof (focus_colour s cx (Node c a k v t w) HT) as Hc. cbn [root colour] in Hc.
  do_paint2 HT (Fr OnRight c a k v t :: cx) c s1 W1 F1 HT1.
  do_paint2 HT1 cx TREE_BLACK s2 W2 F2 HT2.
  pose proof (focus_entry _ (Fr OnRight TREE_BLACK a k v t :: cx) _ _ _ _ _ _ HT2) as E2. cbn [root top] in E2.
  do_paint2 HT2 (Fr OnRight c wa wk wv wl :: Fr OnRight TREE_BLACK a k v t :: cx) TREE_BLACK s3 W3 F3 HT3.
  destruct (leftRotate_run s3 cx _ _ _ _ _ _ _ _ _ _ _ HT3) as (s4 & Er & F4 & HT4).
  exists s4. split; [eauto using same_frame_trans|]. split; [|exact HT4].
  rewrite (bind_ret _ _ _ _ _ Hp), (bind_ret _ _ _ _ _ Hc), (bind_ret _ _ _ _ _ W1), (bind_ret _ _ _ _ _ W2).
  acc_step. by rewrite (bind_ret _ _ _ _ _ W3), (bind_ret _ _ _ _ _ Er), bind_gets.
Qed.

Lemma rest_left_run K s cx c a k v t wa wk wv wl wr (w := Node TREE_BLACK wa wk wv wl wr) :
  is_tree s (plug (Fr OnLeft c a k v w :: cx) t) -> nil_parent s t a ->
  round_ok K (rest_left K (root (rt_nil s) t) wa) s cx (del_sib OnLeft c a k v t w).
Proof.
  intros HT HN. pose proof (focus_entry _ (Fr OnRight c a k v t :: cx) _ _ _ _ _ _ HT) as Ew. cbn [top] in Ew.
  pose proof (focus_colour s (Fr OnLeft TREE_BLACK wa wk wv wr :: Fr OnRight c a k v t :: cx) wl HT) as Cl.
  pose proof (focus_colour s (Fr OnRight TREE_BLACK wa wk wv wl :: Fr OnRight c a k v t :: cx) wr HT) as Cr.
  unfold rest_left. cbn [del_sib w near far].
  unfold round_ok. erewrite (bind_ret (rd_left wa)) by (by eapply rd_left_ok). rewrite (bind_ret _ _ _ _ _ Cl).
  erewrite (bind_ret (rd_right wa)) by (by eapply rd_right_ok). rewrite (bind_ret _ _ _ _ _ Cr). clear Cl Cr Ew.
  destruct (is_red (colour wl)) eqn:El, (is_red (colour wr)) eqn:Er; cbn [negb andb].
  - destruct wr as [|[] ra rk rv rl rr]; [done|done|]. rewrite bind_mret. exact (rest_left_end K s cx c a k v t _ _ _ _ _ _ _ _ _ _ _ HT HN).
  - destruct wl as [|[] la lk lv ll lr]; [done|done|]. cbn [root].
    do_paint2 HT (Fr OnLeft TREE_BLACK wa wk wv wr :: Fr OnRight c a k v t :: cx) TREE_BLACK s1 W1 F1 HT1.
    do_paint2 HT1 (Fr OnRight c a k v t :: cx) TREE_RED s2 W2 F2 HT2.
    destruct (rightRotate_run s2 (Fr OnRight c a k v t :: cx) _ _ _ _ _ _ _ _ _ _ _ HT2) as (s3 & Ro & F3 & HT3).
    assert (same_frame s s3) as F by eauto using same_frame_trans.
    pose proof (nil_parent_same _ _ _ _ F HN) as HN3. pose proof (nil_same _ _ F) as Ns.
    assert (rd_parent (root (rt_nil s) t) s3 = Ret (a, s3)) as Hp.
    { rewrite <- Ns. exact (focus_parent s3 (Fr OnLeft c a k v (Node TREE_BLACK la lk lv ll (Node TREE_RED wa wk wv lr wr)) :: cx) t HT3 HN3). }
    pose proof (focus_entry _ cx _ _ _ _ _ _ HT3) as Ea. cbn [root] in Ea.
    destruct (rest_left_end K s3 cx c a k v t _ _ _ _ _ _ _ _ _ _ _ HT3 HN3) as (s4 & F4 & E4 & HT4).
    exists s4. split; [eauto using same_frame_trans|]. split; [|exact HT4]. rewrite Ns in E4. rewrite <- E4.
    rewrite bind_assoc, (bind_ret _ _ _ _ _ W1), bind_assoc, (bind_ret _ _ _ _ _ W2), bind_assoc, (bind_ret _ _ _ _ _ Ro),
      bind_assoc, (bind_ret _ _ _ _ _ Hp). by erewrite (bind_ret (rd_right a)) by (by eapply rd_right_ok).
  - destruct wr as [|[] ra rk rv rl rr]; [done|done|]. rewrite bind_mret. exact (rest_left_end K s cx c a k v t _ _ _ _ _ _ _ _ _ _ _ HT HN).
  - do_paint2 HT (Fr OnRight c a k v t :: cx) TREE_RED s1 W1 F1 HT1.
    exists s1. split; [done|]. split; [|exact HT1]. rewrite (bind_ret _ _ _ _ _ W1).
    pose proof (nil_parent_same _ _ _ _ F1 HN) as HN1. rewrite <- (nil_same _ _ F1).
    by rewrite (bind_ret _ _ _ _ _ (focus_parent s1 (Fr OnLeft c a k v (Node TREE_RED wa wk wv wl wr) :: cx) t HT1 HN1)).
Qed.

Lemma rest_right_end (K : Z -> M rtree Z) s cx c a k v t cw wa wk wv wr rc ra rk rv rl rr :
  let w := Node cw wa wk wv (Node rc ra rk rv rl rr) wr in
  is_tree s (plug (Fr OnRight c a k v w :: cx) t) -> nil_parent s t a ->
  round_ok K (p ← rd_parent (root (rt_nil s) t) ; pc ← rd_color p ; wr_color wa pc ;; wr_color p TREE_BLACK ;;
      wl ← rd_left wa ; wr_color wl TREE_BLACK ;; rightRotate p ;; root ← gets rt_setData ; K root) s cx
    (Done (Node c wa wk wv (Node TREE_BLACK ra rk rv rl rr) (Node TREE_BLACK a k v wr t))).
Proof.
  intros w HT HN. rewrite <- (eq_refl : top (Fr OnRight c a k v w :: cx) = a) in HN.
  pose proof (focus_parent _ _ _ HT HN) as Hp. cbn [top] in Hp.
  pose proof (focus_colour s cx (Node c a k v w t) HT) as Hc. cbn [root colour] in Hc.
  do_paint2 HT (Fr OnLeft c a k v t :: cx) c s1 W1 F1 HT1.
  do_paint2 HT1 cx TREE_BLACK s2 W2 F2 HT2.
  pose proof (focus_entry _ (Fr OnLeft TREE_BLACK a k v t :: cx) _ _ _ _ _ _ HT2) as E2. cbn [root top] in E2.
  do_paint2 HT2 (Fr OnLeft c wa wk wv wr :: Fr OnLeft TREE_BLACK a k v t :: cx) TREE_BLACK s3 W3 F3 HT3.
  destruct (rightRotate_run s3 cx _ _ _ _ _ _ _ _ _ _ _ HT3) as (s4 & Er & F4 & HT4).
  exists s4. split; [eauto using same_frame_trans|]. split; [|exact HT4].
  rewrite (bind_ret _ _ _ _ _ Hp), (bind_ret _ _ _ _ _ Hc), (bind_ret _ _ _ _ _ W1), (bind_ret _ _ _ _ _ W2).
  acc_step. by rewrite (bind_ret _ _ _ _ _ W3), (bind_ret _ _ _ _ _ Er), bind_gets.
Qed.

Lemma rest_right_run K s cx c a k v t wa wk wv wl wr (w := Node TREE_BLACK wa wk wv wl wr) :
  is_tree s (plug (Fr OnRight c a k v w :: cx) t) -> nil_parent s t a ->
  round_ok K (rest_right K (root (rt_nil s) t) wa) s cx (del_sib OnRight c a k v t w).
Proof.
  intros HT HN. pose proof (focus_entry _ (Fr OnLeft c a k v t :: cx) _ _ _ _ _ _ HT) as Ew. cbn [top] in Ew.
  pose proof (focus_colour s (Fr OnLeft TREE_BLACK wa wk wv wr :: Fr OnLeft c a k v t :: cx) wl HT) as Cl.
  pose proof (focus_colour s (Fr OnRight TREE_BLACK wa wk wv wl :: Fr OnLeft c a k v t :: cx) wr HT) as Cr.
  unfold rest_right. cbn [del_sib w near far].
  unfold round_ok. erewrite (bind_ret (rd_right wa)) by (by eapply rd_right_ok). rewrite (bind_ret _ _ _ _ _ Cr).
  erewrite (bind_ret (rd_left wa)) by (by eapply rd_left_ok). rewrite (bind_ret _ _ _ _ _ Cl). clear Cl Cr Ew.
  destruct (is_red (colour wr)) eqn:Er, (is_red (colour wl)) eqn:El; cbn [negb andb].
  - destruct wl as [|[] ra rk rv rl rr]; [done|done|]. rewrite bind_mret.
    exact (rest_right_end K s cx c a k v t _ _ _ _ _ _ _ _ _ _ _ HT HN).
  - destruct wr as [|[] la lk lv ll lr]; [done|done|]. cbn [root].
    do_paint2 HT (Fr OnRight TREE_BLACK wa wk wv wl :: Fr OnLeft c a k v t :: cx) TREE_BLACK s1 W1 F1 HT1.
    do_paint2 HT1 (Fr OnLeft c a k v t :: cx) TREE_RED s2 W2 F2 HT2.
    destruct (leftRotate_run s2 (Fr OnLeft c a k v t :: cx) _ _ _ _ _ _ _ _ _ _ _ HT2) as (s3 & Ro & F3 & HT3).
    assert (same_frame s s3) as F by eauto using same_frame_trans.
    pose proof (nil_parent_same _ _ _ _ F HN) as HN3. pose proof (nil_same _ _ F) as Ns.
    assert (rd_parent (root (rt_nil s) t) s3 = Ret (a, s3)) as Hp.
    { rewrite <- Ns. exact (focus_parent s3 (Fr OnRight c a k v (Node TREE_BLACK la lk lv (Node TREE_RED wa wk wv wl ll) lr) :: cx) t HT3 HN3). }
    pose proof (focus_entry _ cx _ _ _ _ _ _ HT3) as Ea. cbn [root] in Ea.
    destruct (rest_right_end K s3 cx c a k v t _ _ _ _ _ _ _ _ _ _ _ HT3 HN3) as (s4 & F4 & E4 & HT4).
    exists s4. split; [eauto using same_frame_trans|]. split; [|exact HT4]. rewrite Ns in E4. rewrite <- E4.
    rewrite bind_assoc, (bind_ret _ _ _ _ _ W1), bind_assoc, (bind_ret _ _ _ _ _ W2), bind_assoc, (bind_ret _ _ _ _ _ Ro),
      bind_assoc, (bind_ret _ _ _ _ _ Hp). by erewrite (bind_ret (rd_left a)) by (by eapply rd_left_ok).
  - destruct wl as [|[] ra rk rv rl rr]; [done|done|]. rewrite bind_mret.
    exact (rest_right_end K s cx c a k v t _ _ _ _ _ _ _ _ _ _ _ HT HN).
  - do_paint2 HT (Fr OnLeft c a k v t :: cx) TREE_RED s1 W1 F1 HT1.
    exists s1. split; [done|]. split; [|exact HT1]. rewrite (bind_ret _ _ _ _ _ W1).
    pose proof (nil_parent_same _ _ _ _ F1 HN) as HN1. rewrite <- (nil_same _ _ F1).
    by rewrite (bind_ret _ _ _ _ _ (focus_parent s1 (Fr OnRight c a k v (Node TREE_RED wa wk wv wl wr) :: cx) t HT1 HN1)).
Qed.

(** *** The loop *)

Fixpoint del_up (cx : ctx) (t : tree) : tree :=
  if is_red (colour t) then plug cx (paint TREE_BLACK t) else
  match cx with
  | [] => paint TREE_BLACK t
  | Fr d c a k v w :: cx' =>
      match w with
      | Node TREE_RED wa wk wv wl wr =>
          let cx1 := Fr d TREE_BLACK wa wk wv (far d wl wr) :: cx' in
          match del_sib d TREE_RED a k v t (near d wl wr) with
          | Up t' => plug cx1 (paint TREE_BLACK t')
          | Done t' => paint TREE_BLACK (plug cx1 t')
          end
      | _ =>
          match del_sib d c a k v t w with
          | Up t' => del_up cx' t'
          | Done t' => paint TREE_BLACK (plug cx' t')
          end
      end
  end.

(** What the last assignment of [deleteFixup] makes of the result of the loop. *)
Definition fixed (n : nat) (x : Z) (s : rtree) (t' : tree) : Prop :=
  exists y s1 s', deleteFixup_loop n x s = Ret (y, s1) /\ wr_color y TREE_BLACK s1 = Ret (tt, s') /\
    same_frame s s' /\ is_tree s' t'.

(** At the root, or at a red node, the loop ends and paints it. *)
Lemma fixed_end n s cx t :
  is_tree s (plug cx t) -> cx = [] \/ colour t = TREE_RED ->
  fixed (S n) (root (rt_nil s) t) s (plug cx (paint TREE_BLACK t)).
Proof.
  intros HT He. exists (root (rt_nil s) t), s.
  assert (deleteFixup_loop (S n) (root (rt_nil s) t) s = Ret (root (rt_nil s) t, s)) as El.
  { cbn [deleteFixup_loop]. rewrite bind_gets, (focus_root _ _ _ HT). destruct cx as [|f cx]; [done|].
    destruct He as [|Hc]; [done|]. rewrite (bind_ret _ _ _ _ _ (focus_colour _ _ _ HT)), Hc. done. }
  destruct t as [|c a k v l r].
  - pose proof HT as (_ & _ & _ & [q Eq] & _)%is_tree_focus. exists (upd (rt_nil s) (mk_entry 0 NULL TREE_BLACK NULL NULL q) s).
    assert (upd (rt_nil s) (mk_entry 0 NULL TREE_BLACK NULL NULL q) s = s) as ->.
    { destruct s. unfold upd, set_store. simpl in *. f_equal. by apply insert_id. }
    split_and!; [done| |apply same_frame_refl|done]. cbn [root]. erewrite wr_color_ok by done.
    destruct s. unfold upd, set_store. simpl in *. do 3 f_equal. by apply insert_id.
  - do_paint2 HT cx TREE_BLACK s1 W1 F1 HT1. exists s1. by split_and!.
Qed.

(** A round at a black node with a black sibling. *)
Lemma loop_black n s d cx c a k v t wa wk wv wl wr (w := Node TREE_BLACK wa wk wv wl wr) :
  is_tree s (plug (Fr d c a k v w :: cx) t) -> nil_parent s t a -> colour t = TREE_BLACK ->
  round_ok (deleteFixup_loop n) (deleteFixup_loop (S n) (root (rt_nil s) t)) s cx (del_sib d c a k v t w).
Proof.
  intros HT HN Ht. pose proof (focus_root _ _ _ HT) as Hr. pose proof (focus_colour _ _ _ HT) as Hc. rewrite Ht in Hc.
  pose proof (focus_parent _ _ _ HT HN) as Hp. cbn [top] in Hp.
  assert (round_ok (deleteFixup_loop n) (match d with OnLeft => rest_left | OnRight => rest_right end
    (deleteFixup_loop n) (root (rt_nil s) t) wa) s cx (del_sib d c a k v t w)) as HR.
  { destruct d; [by apply rest_left_run|by apply rest_right_run]. }
  unfold round_ok in *. cbn [deleteFixup_loop]. rewrite bind_gets, Hr, (bind_ret _ _ _ _ _ Hc). cbn [is_red].
  rewrite (bind_ret _ _ _ _ _ Hp). destruct d.
  - pose proof (focus_entry s cx _ _ _ _ _ _ HT) as Ea. cbn [root w] in Ea. acc_step. rewrite Z.eqb_refl. acc_step.
    pose proof (focus_colour s (Fr OnRight c a k v t :: cx) w HT) as Cw.
    rewrite (bind_ret _ _ _ _ _ Cw). exact HR.
  - pose proof (focus_entry s cx _ _ _ _ _ _ HT) as Ea. cbn [root w] in Ea. acc_step.
    pose proof (focus_sib_ne s OnLeft c a k v t cx _ _ _ _ _ _ HT) as Hne.
    rewrite (proj2 (Z.eqb_neq _ _)) by congruence. acc_step.
    pose proof (focus_colour s (Fr OnLeft c a k v t :: cx) w HT) as Cw.
    rewrite (bind_ret _ _ _ _ _ Cw). exact HR.
Qed.

(** A red sibling is first rotated above the parent. *)
Lemma loop_red n s d cx c a k v t wa wk wv wl wr na nk nv nl nr :
  is_tree s (plug (Fr d c a k v (Node TREE_RED wa wk wv wl wr) :: cx) t) -> nil_parent s t a -> colour t = TREE_BLACK ->
  near d wl wr = Node TREE_BLACK na nk nv nl nr ->
  round_ok (deleteFixup_loop n) (deleteFixup_loop (S n) (root (rt_nil s) t)) s
    (Fr d TREE_BLACK wa wk wv (far d wl wr) :: cx) (del_sib d TREE_RED a k v t (near d wl wr)).
Proof.
  intros HT HN Ht Hne. pose proof (focus_root _ _ _ HT) as Hr. pose proof (focus_colour _ _ _ HT) as Hc. rewrite Ht in Hc.
  pose proof (focus_parent _ _ _ HT HN) as Hp. cbn [top] in Hp.
  unfold round_ok. cbn [deleteFixup_loop]. rewrite bind_gets, Hr, (bind_ret _ _ _ _ _ Hc). cbn [is_red].
  rewrite (bind_ret _ _ _ _ _ Hp). destruct d; cbn [near far] in *; subst.
  - pose proof (focus_entry s cx _ _ _ _ _ _ HT) as Ea. cbn [root] in Ea. acc_step. rewrite Z.eqb_refl. acc_step.
    pose proof (focus_colour s (Fr OnRight c a k v t :: cx) _ HT) as Cw.
    rewrite (bind_ret _ _ _ _ _ Cw). cbn [colour is_red]. clear Ea Cw.
    do_paint2 HT (Fr OnRight c a k v t :: cx) TREE_BLACK s1 W1 F1 HT1. do_paint2 HT1 cx TREE_RED s2 W2 F2 HT2.
    destruct (leftRotate_run s2 cx _ _ _ _ _ _ _ _ _ _ _ HT2) as (s3 & Ro & F3 & HT3).
    assert (same_frame s s3) as F by eauto using same_frame_trans. pose proof (nil_parent_same _ _ _ _ F HN) as HN3.
    pose proof (nil_same _ _ F) as Ns.
    destruct (rest_left_run (deleteFixup_loop n) s3 (Fr OnLeft TREE_BLACK wa wk wv wr :: cx) _ _ _ _ _ _ _ _ _ _ HT3 HN3)
      as (s4 & F4 & HR).
    pose proof (focus_parent s3 (Fr OnLeft TREE_RED a k v (Node TREE_BLACK na nk nv nl nr) ::
      Fr OnLeft TREE_BLACK wa wk wv wr :: cx) t HT3 HN3) as Hp3. cbn [top] in Hp3.
    pose proof (focus_entry s3 (Fr OnLeft TREE_BLACK wa wk wv wr :: cx) _ _ _ _ _ _ HT3) as Ea3. cbn [root] in Ea3.
    rewrite Ns in HR, Hp3. exists s4. split; [eauto using same_frame_trans|].
    rewrite bind_assoc, (bind_ret _ _ _ _ _ W1), bind_assoc, (bind_ret _ _ _ _ _ W2), bind_assoc, (bind_ret _ _ _ _ _ Ro),
      bind_assoc, (bind_ret _ _ _ _ _ Hp3). erewrite (bind_ret (rd_right a)) by (by eapply rd_right_ok). exact HR.
  - pose proof (focus_entry s cx _ _ _ _ _ _ HT) as Ea. cbn [root] in Ea. acc_step.
    pose proof (focus_sib_ne s OnLeft c a k v t cx _ _ _ _ _ _ HT) as Hne.
    rewrite (proj2 (Z.eqb_neq _ _)) by congruence. acc_step.
    pose proof (focus_colour s (Fr OnLeft c a k v t :: cx) _ HT) as Cw.
    rewrite (bind_ret _ _ _ _ _ Cw). cbn [colour is_red]. clear Ea Cw.
    do_paint2 HT (Fr OnLeft c a k v t :: cx) TREE_BLACK s1 W1 F1 HT1. do_paint2 HT1 cx TREE_RED s2 W2 F2 HT2.
    destruct (rightRotate_run s2 cx _ _ _ _ _ _ _ _ _ _ _ HT2) as (s3 & Ro & F3 & HT3).
    assert (same_frame s s3) as F by eauto using same_frame_trans. pose proof (nil_parent_same _ _ _ _ F HN) as HN3.
    pose proof (nil_same _ _ F) as Ns.
    destruct (rest_right_run (deleteFixup_loop n) s3 (Fr OnRight TREE_BLACK wa wk wv wl :: cx) _ _ _ _ _ _ _ _ _ _ HT3 HN3)
      as (s4 & F4 & HR).
    pose proof (focus_parent s3 (Fr OnRight TREE_RED a k v (Node TREE_BLACK na nk nv nl nr) ::
      Fr OnRight TREE_BLACK wa wk wv wl :: cx) t HT3 HN3) as Hp3. cbn [top] in Hp3.
    pose proof (focus_entry s3 (Fr OnRight TREE_BLACK wa wk wv wl :: cx) _ _ _ _ _ _ HT3) as Ea3. cbn [root] in Ea3.
    rewrite Ns in HR, Hp3. exists s4. split; [eauto using same_frame_trans|].
    rewrite bind_assoc, (bind_ret _ _ _ _ _ W1), bind_assoc, (bind_ret _ _ _ _ _ W2), bind_assoc, (bind_ret _ _ _ _ _ Ro),
      bind_assoc, (bind_ret _ _ _ _ _ Hp3). erewrite (bind_ret (rd_left a)) by (by eapply rd_left_ok). exact HR.
Qed.

Lemma fixed_step n m s s1 x y t' :
  same_frame s s1 -> deleteFixup_loop m x s = deleteFixup_loop n y s1 -> fixed n y s1 t' -> fixed m x s t'.
Proof.
  intros F E (z & s2 & s3 & L & W & F' & HT). exists z, s2, s3. rewrite E. split_and!; eauto using same_frame_trans.
Qed.

(** The end of the loop after its last rotation, which restarts it at the root. *)
Lemma fixed_done n s cx t m x s0 :
  same_frame s0 s -> is_tree s (plug cx t) -> deleteFixup_loop m x s0 = deleteFixup_loop (S n) (rt_setData s) s ->
  fixed m x s0 (paint TREE_BLACK (plug cx t)).
Proof.
  intros F HT E. eapply fixed_step; [done|exact E|]. rewrite (it_root _ _ HT). apply (fixed_end n s []); auto.
Qed.

(** A tree that is one black node short, in a context that wants that one. *)
Lemma deleteFixup_loop_run cx : forall n s t q m,
  is_tree s (plug cx t) -> nil_parent s t (top cx) -> rbc q (S m) cx -> (length cx + 2 <= n)%nat ->
  fixed n (root (rt_nil s) t) s (del_up cx t).
Proof.
  induction cx as [|[d c a k v w] cx IH]; intros n s t q m HT HN HC Hn; (destruct n as [|n]; [simpl in Hn; lia|]).
  - cbn [del_up plug]. replace (if is_red (colour t) then paint TREE_BLACK t else paint TREE_BLACK t)
      with (paint TREE_BLACK t) by (by destruct (is_red _)). apply (fixed_end n s []); auto.
  - cbn [del_up]. destruct (colour t) eqn:Ht; cbn [is_red]; [|apply fixed_end; auto].
    assert (exists p, rb p (S m) w) as [p Hw] by (inversion HC; eauto).
    assert ((exists q', rbc q' (S (S m)) cx) \/ c = TREE_RED) as HC' by (inversion HC; eauto).
    destruct n as [|n]; [simpl in Hn; lia|]. destruct w as [|[] wa wk wv wl wr]; [inversion Hw| |].
    + destruct (loop_black (S n) s d cx c a k v t wa wk wv wl wr HT HN Ht) as (s' & F & HR).
      destruct (del_sib d c a k v t _) as [t'|t'] eqn:Es; destruct HR as [E HT']; [|by eapply fixed_done].
      eapply fixed_step; [done|exact E|]. rewrite <- (nil_same _ _ F).
      assert (exists w', t' = mk d c a k v t w') as [w' ->].
      { cbn [del_sib] in Es. repeat case_match; simplify_eq; eauto. all: destruct (near d wl wr); naive_solver. }
      assert (nil_parent s' (mk d c a k v t w') (top cx)) as HN' by (by destruct d).
      destruct HC' as [[q' HC']| ->]; simpl in Hn; [eapply IH; [done|done|exact HC'|lia]|].
      replace (del_up cx (mk d TREE_RED a k v t w')) with (plug cx (paint TREE_BLACK (mk d TREE_RED a k v t w')))
        by (destruct d, cx; done). apply fixed_end; [done|]. right. by destruct d.
    + assert (rb TREE_RED (S m) (near d wl wr)) as Hl by (inversion Hw; subst; by destruct d).
      destruct (near d wl wr) as [|[] na nk nv nl nr] eqn:Nn; [by inversion Hl| |by inversion Hl].
      destruct (loop_red (S n) s d cx c a k v t wa wk wv wl wr _ _ _ _ _ HT HN Ht Nn) as (s' & F & HR). rewrite Nn in HR.
      destruct (del_sib d TREE_RED a k v t _) as [t'|t'] eqn:Es; destruct HR as [E HT']; [|by eapply fixed_done].
      eapply fixed_step; [done|exact E|]. rewrite <- (nil_same _ _ F). apply fixed_end; [done|right].
      cbn [del_sib] in Es. repeat case_match; simplify_eq; try by destruct d. all: destruct (near d nl nr); naive_solver.
Qed.

(** *** Balance and contents after the loop *)

Ltac rb_solve := repeat first [ assumption | apply rb_Red | apply rb_Black | apply rb_weaken; assumption ].

(** The same contents, at the same addresses. *)
Definition alike (t t' : tree) : Prop := items t = items t' /\ addrs t ≡ₚ addrs t'.

#[export] Instance alike_equiv : Equivalence alike.
Proof.
  split; [by intros t|intros t t' [E P]; by split|]. intros t1 t2 t3 [E1 P1] [E2 P2]. split; [congruence|by etrans].
Qed.

Lemma alike_paint c t : alike (paint c t) t.
Proof. by destruct t. Qed.
#[export] Instance plug_alike cx : Proper (alike ==> alike) (plug cx).
Proof. intros t t' [E P]. split; [by rewrite !items_plug, E|by rewrite !plug_addrs, P]. Qed.

Ltac alike_solve := split; simpl; [by app_eq|solve_Permutation].

(** A black sibling in a balanced context has children of the height of [t]. *)
Lemma del_sib_spec d c a k v t w q m cx :
  rbc q (S m) (Fr d c a k v w :: cx) -> colour w = TREE_BLACK -> rb TREE_RED m t ->
  match del_sib d c a k v t w with
  | Up t' => rb TREE_RED (S m) (paint TREE_BLACK t') /\ colour t' = c
  | Done t' => exists p n, rbc p n cx /\ rb p n t'
  end /\
  forall t', del_sib d c a k v t w = Up t' \/ del_sib d c a k v t w = Done t' -> alike t' (mk d c a k v t w).
Proof.
  intros HC Hw Ht. assert (rb TREE_RED (S m) w) as HW by (inversion HC; subst; eauto using rb_black_colour).
  inversion HW as [| |? ? wa wk wv wl wr Hl Hr]; subst.
  assert (exists p, c = TREE_RED /\ rbc TREE_BLACK (S m) cx \/ c = TREE_BLACK /\ rbc p (S (S m)) cx) as [p HC'].
  { inversion HC; subst; [exists TREE_RED|]; eauto. }
  assert (rb TREE_BLACK m (near d wl wr) /\ rb TREE_BLACK m (far d wl wr)) as [Hn Hf] by (destruct d; done).
  cbn [del_sib]. destruct (colour (near d wl wr)) eqn:En, (colour (far d wl wr)) eqn:Ef; cbn [is_red negb andb].
  - pose proof (rb_black_colour _ _ _ Hn En). pose proof (rb_black_colour _ _ _ Hf Ef).
    split; [|intros t' [[= <-]|]; [by destruct d|done]]. split; [|by destruct d]. destruct d; simpl in *; eauto with rbt.
  - destruct (far d wl wr) as [|? ra rk rv rl rr] eqn:Efr; [done|]. simpl in Ef. subst. inversion Hf; subst.
    split; [|intros t' [|[= <-]]; [done|destruct d; simpl in *; subst; alike_solve]].
    destruct HC' as [[-> HC']|[-> HC']]; eexists _, _; (split; [exact HC'|]); destruct d; simpl in *; subst; rb_solve.
  - destruct (near d wl wr) as [|? na nk nv nl nr] eqn:Enr; [done|]. simpl in En. subst. inversion Hn; subst.
    pose proof (rb_black_colour _ _ _ Hf Ef).
    split; [|intros t' [|[= <-]]; [done|destruct d; simpl in *; subst; alike_solve]].
    destruct HC' as [[-> HC']|[-> HC']]; eexists _, _; (split; [exact HC'|]); destruct d; simpl in *; subst; rb_solve.
  - destruct (far d wl wr) as [|? ra rk rv rl rr] eqn:Efr; [done|]. simpl in Ef. subst. inversion Hf; subst.
    split; [|intros t' [|[= <-]]; [done|destruct d; simpl in *; subst; alike_solve]].
    destruct HC' as [[-> HC']|[-> HC']]; eexists _, _; (split; [exact HC'|]); destruct d; simpl in *; subst; rb_solve.
Qed.

Lemma plug_done p n cx t : rbc p n cx -> rb p n t -> exists m, rb TREE_RED m (paint TREE_BLACK (plug cx t)).
Proof. intros HC HR. destruct (rbc_plug _ _ _ _ HC HR) as [m Hm]. exists m. by rewrite (rb_red_black m). Qed.

(** A red node that is one black node short is painted. *)
Lemma paint_up cx q m t :
  rbc q (S m) cx -> rb TREE_BLACK m t -> colour t = TREE_RED ->
  (exists n, rb TREE_RED n (plug cx (paint TREE_BLACK t))) /\ alike (plug cx (paint TREE_BLACK t)) (plug cx t).
Proof.
  intros HC Ht Hc. split; [eapply rbc_plug; [done|]; by apply rb_under, (rb_paint TREE_BLACK)|].
  by rewrite alike_paint.
Qed.

Lemma del_up_spec cx : forall q m t,
  rbc q (S m) cx -> rb TREE_BLACK m t -> (exists n, rb TREE_RED n (del_up cx t)) /\ alike (del_up cx t) (plug cx t).
Proof.
  induction cx as [|[d c a k v w] cx IH]; intros q m t HC Ht.
  { cbn [del_up plug]. destruct (colour t) eqn:Hc; cbn [is_red].
    - split; [|apply alike_paint]. exists m. rewrite (rb_red_black m); eauto using rb_black_colour.
    - exact (paint_up [] q m t HC Ht Hc). }
  cbn [del_up]. destruct (colour t) eqn:Hc; cbn [is_red]; [|by eapply paint_up].
  pose proof (rb_black_colour _ _ _ Ht Hc) as Ht'.
  assert (plug cx (mk d c a k v t w) = plug (Fr d c a k v w :: cx) t) as Ei by (by destruct d).
  destruct (colour w) eqn:Hw.
  - assert (exists wa wk wv wl wr, w = Node TREE_BLACK wa wk wv wl wr) as (wa & wk & wv & wl & wr & Ew).
    { assert (rb TREE_RED (S m) w) as HW by (inversion HC; subst; eauto using rb_black_colour). inversion HW; subst; eauto 6. }
    destruct (del_sib_spec d c a k v t w q m cx HC Hw Ht') as [HS HI]. subst w.
    destruct (del_sib d c a k v t _) as [t'|t'] eqn:Es.
    + specialize (HI t' (or_introl eq_refl)). rewrite <- Ei, <- HI.
      inversion HC as [|? ? ? ? ? ? ? Hs HC'|p ? ? ? ? ? ? ? Hs HC']; subst; destruct HS as [HS Hct].
      * enough (del_up cx t' = plug cx (paint TREE_BLACK t')) as ->.
        { split; [|by rewrite alike_paint]. eapply rbc_plug; [done|]. by apply rb_under. }
        destruct cx as [|[]]; cbn [del_up]; by rewrite Hct.
      * apply (IH p (S m)); [done|]. apply rb_weaken. by destruct t' as [|[]].
    + specialize (HI t' (or_intror eq_refl)). destruct HS as (p & n & HC' & HR).
      rewrite alike_paint, <- Ei, <- HI. split; [by eapply plug_done|done].
  - destruct w as [|[] wa wk wv wl wr]; [done|done|]. clear Hw.
    inversion HC as [|? ? ? ? ? ? ? Hs HC'|p ? ? ? ? ? ? ? Hs HC']; subst; [inversion Hs|].
    assert (rb TREE_RED (S m) (near d wl wr) /\ rb TREE_RED (S m) (far d wl wr)) as [Hn Hf] by (inversion Hs; subst; by destruct d).
    set (cx1 := Fr d TREE_BLACK wa wk wv (far d wl wr) :: cx) in *.
    assert (rbc TREE_BLACK (S m) cx1) as HC1 by (unfold cx1; eauto with rbt).
    destruct (del_sib_spec d TREE_RED a k v t (near d wl wr) TREE_RED m cx1) as [HS HI]; [eauto with rbt|by inversion Hn|done|].
    assert (forall t', alike t' (mk d TREE_RED a k v t (near d wl wr)) ->
      alike (plug cx1 t') (plug (Fr d TREE_BLACK a k v (Node TREE_RED wa wk wv wl wr) :: cx) t)) as Ej.
    { intros t' ->. unfold cx1. cbn [plug]. apply plug_alike. destruct d; alike_solve. }
    destruct (del_sib d TREE_RED a k v t _) as [t'|t'] eqn:Es.
    + specialize (HI t' (or_introl eq_refl)). destruct HS as [HS _]. split; [|by rewrite <- (Ej t' HI), alike_paint].
      eapply rbc_plug; [done|]. by apply rb_under.
    + specialize (HI t' (or_intror eq_refl)). destruct HS as (p' & n & HC'' & HR). rewrite alike_paint, (Ej t' HI). split; [by eapply plug_done|done].
Qed.

(** *** Splicing a node out *)

(** As [same_frame], but for the parent of the sentinel, which [remove] writes. *)
Definition kept_frame (s s' : rtree) : Prop :=
  rt_nil s' = rt_nil s /\ rt_brk s' = rt_brk s /\ rt_setSize s' = rt_setSize s /\
  (forall p, is_Some (rt_store s' !! p) <-> is_Some (rt_store s !! p)).

Lemma same_frame_kept s s' : same_frame s s' -> kept_frame s s'.
Proof. by intros (? & ? & ? & ? & ?). Qed.
Lemma kept_trans s1 s2 s3 : kept_frame s1 s2 -> kept_frame s2 s3 -> kept_frame s1 s3.
Proof. intros (A1 & A2 & A3 & A4) (B1 & B2 & B3 & B4). split_and!; [congruence..|]. intros p. by rewrite B4, A4. Qed.

(** The only child of a node with at most one. *)
Definition only_child (l r : tree) : tree := match l with Nil => r | _ => l end.

Definition lift_child (nil q : Z) (x : tree) (s : rtree) : rtree :=
  match x with
  | Nil => upd nil (mk_entry 0 NULL TREE_BLACK NULL NULL q) s
  | Node c a k v l r => upd a (mk_entry k v c (root nil l) (root nil r) q) s
  end.

Lemma lookup_lift_ne nil q x s p : p <> root nil x -> rt_store (lift_child nil q x s) !! p = rt_store s !! p.
Proof. destruct x; simpl; intros; by rewrite lookup_insert_ne. Qed.
Lemma lookup_lift_eq nil q x s e :
  entry_of nil q x = Some e -> rt_store (lift_child nil q x s) !! root nil x = Some e.
Proof. destruct x; simpl; [done|]. intros [= <-]. by rewrite lookup_insert_eq. Qed.
Lemma is_some_lift nil q x s par p :
  rep (rt_store s) nil par x -> is_Some (rt_store s !! nil) ->
  is_Some (rt_store (lift_child nil q x s) !! p) <-> is_Some (rt_store s !! p).
Proof. destruct x; simpl; [|intros [E _]]; intros; apply is_some_upd; eauto. Qed.

(** The node [a] with at most one child, in focus. *)
Lemma only_child_focus s cx c a k v l r (x := only_child l r) :
  is_tree s (plug cx (Node c a k v l r)) -> l = Nil \/ r = Nil ->
  rep (rt_store s) (rt_nil s) a x /\ addrs x ≡ₚ addrs l ++ addrs r /\
  NoDup (NULL :: rt_nil s :: a :: addrs x ++ caddrs cx) /\ items x = items l ++ items r /\
  (forall p, p ∈ NULL :: rt_nil s :: addrs x ++ caddrs cx -> p < rt_brk s).
Proof.
  intros ((_ & Hl & Hr) & _ & Hnd & _ & Hb)%is_tree_focus Ho. simpl in Hnd, Hb.
  assert (addrs x ≡ₚ addrs l ++ addrs r) as HP.
  { destruct Ho as [-> | ->]; simpl; [done|]. unfold x. destruct l; simpl; by rewrite ?app_nil_r. }
  assert (items x = items l ++ items r) as HI.
  { destruct Ho as [-> | ->]; simpl; [done|]. unfold x. destruct l; simpl; by rewrite ?app_nil_r. }
  split_and!; try done.
  - destruct Ho as [-> | ->]; [done|]. unfold x. by destruct l.
  - by rewrite HP.
  - intros p. rewrite HP. intros Hp. apply Hb. set_solver.
Qed.

Lemma splice_run s cx c a k v l r (x := only_child l r) :
  is_tree s (plug cx (Node c a k v l r)) -> l = Nil \/ r = Nil ->
  exists s1 s', wr_par (root (rt_nil s) x) (top cx) s = Ret (tt, s1) /\
    (if top cx =? NULL then set_setData (root (rt_nil s) x)
     else ypl ← rd_left (top cx) ; if a =? ypl then wr_left (top cx) (root (rt_nil s) x)
          else wr_right (top cx) (root (rt_nil s) x)) s1 = Ret (tt, s') /\
    kept_frame s s' /\ is_tree s' (plug cx x) /\ nil_parent s' x (top cx) /\ rt_store s' !! a = rt_store s !! a.
Proof.
  intros HT Ho. destruct (only_child_focus _ _ _ _ _ _ _ _ HT Ho) as (HR & HP & Hnd & _ & Hb). fold x in HR, HP, Hnd, Hb.
  pose proof HT as (_ & Hc & _ & [np En] & _)%is_tree_focus. cbn [root] in Hc.
  rewrite !NoDup_cons, !not_elem_of_cons, !not_elem_of_app, NoDup_app in Hnd.
  destruct Hnd as ((N1 & N2 & N3 & N4) & (N5 & N6 & N7) & (N8 & N9) & N10 & N11 & N12).
  set (nil := rt_nil s) in *. set (s1 := lift_child nil (top cx) x s).
  assert (forall p, p ∈ caddrs cx -> p <> root nil x) as Hcx.
  { intros p Hp ->. destruct (root_elem nil x) as [E|Hin]; [by rewrite E in Hp|by eapply N11]. }
  assert (a <> root nil x) as Ha by (destruct (root_elem nil x) as [E|Hin]; congruence).
  assert (top cx <> a /\ top cx <> nil /\ forall p, p ∈ addrs x -> p <> top cx) as (T1 & T2 & T3).
  { destruct (top_elem cx) as [->|Ht]; split_and!; try congruence; intros p Hp ->; by eapply N11. }
  assert (repc (rt_store s1) nil (rt_setData s) cx a) as Hc1.
  { eapply repc_frame; [|exact Hc]. intros p Hp. apply lookup_lift_ne; auto. }
  exists s1, (relink nil cx (root nil x) s1).
  assert (rt_nil s1 = nil /\ rt_brk s1 = rt_brk s /\ rt_setSize s1 = rt_setSize s /\ rt_setData s1 = rt_setData s) as (A1 & A2 & A3 & A4).
  { unfold s1. by destruct x. }
  pose proof (relink_fields nil cx (root nil x) s1) as (B1 & B2 & B3).
  assert (kept_frame s (relink nil cx (root nil x) s1)) as HK.
  { split_and!; [by rewrite B1|by rewrite B2|by rewrite B3|]. intros p. rewrite (is_some_relink _ _ _ _ _ _ _ Hc1). eapply is_some_lift; eauto. }
  assert (forall p, p <> top cx -> rt_store (relink nil cx (root nil x) s1) !! p = rt_store s1 !! p) as Hre.
  { intros p Hp. by apply lookup_relink_ne. }
  assert (nil_parent (relink nil cx (root nil x) s1) x (top cx)) as HN.
  { intros E. rewrite B1, A1, Hre by done. unfold s1. rewrite E. simpl. by rewrite lookup_insert_eq. }
  split_and!; [| |done| |done|].
  - unfold s1. destruct x as [|cx0 ax kx vx lx rx]; cbn [root lift_child]; [by erewrite wr_par_ok|].
    destruct HR as [E _]. by erewrite wr_par_ok.
  - eapply relink_run; [exact Hc1|done|done|done].
  - apply is_tree_focus. rewrite B1, B2, A1, A2. split_and!.
    + eapply rep_reparent; [exact HR|done| |].
      * intros e He. rewrite Hre; [by apply lookup_lift_eq|]. destruct x; [done|]. apply T3. simpl. set_solver.
      * intros p Hp Hr. rewrite Hre by auto. by apply lookup_lift_ne.
    + eapply (relink_repc (rt_store s)); [exact Hc|done|done| |done].
      intros p Hp Ht. rewrite Hre by done. apply lookup_lift_ne; auto.
    + rewrite !NoDup_cons, !not_elem_of_cons, !not_elem_of_app, NoDup_app. split_and!; auto.
    + destruct x as [|cx0 ax kx vx lx rx] eqn:Ex; [exists (top cx); specialize (HN eq_refl); by rewrite B1, A1 in HN|].
      exists np. rewrite Hre by done. unfold s1. rewrite lookup_lift_ne; [done|]. simpl. intros ->. set_solver.
    + done.
  - rewrite Hre by done. unfold s1. by apply lookup_lift_ne.
Qed.

(** *** The successor *)

Lemma leftmost_run n s c a k v l r cx :
  is_tree s (plug cx (Node c a k v l r)) -> (height (Node c a k v l r) <= n)%nat ->
  exists c1 c' a' k' v' r', leftmost n a s = Ret (a', s) /\ Node c a k v l r = plug c1 (Node c' a' k' v' Nil r') /\
    lefts c1 = [].
Proof.
  revert n cx c a k v r. induction l as [|c0 a0 k0 v0 l0 IHl r0 _]; intros n cx c a k v r HT Hn;
    (destruct n as [|n]; [simpl in Hn; lia|]); cbn [leftmost]; rewrite bind_gets; foc HT; acc_step.
  - exists [], c, a, k, v, r. cbn [root]. by rewrite Z.eqb_refl.
  - rewrite (nil_test s (Fr OnLeft c a k v r :: cx) (Node c0 a0 k0 v0 l0 r0) HT). cbn [negb root].
    destruct (IHl n (Fr OnLeft c a k v r :: cx) c0 a0 k0 v0 r0 HT) as (c1 & c' & a' & k' & v' & r' & E' & Ep & El);
      [simpl in *; lia|].
    exists (c1 ++ [Fr OnLeft c a k v r]), c', a', k', v', r'. split_and!; [done| |].
    + rewrite plug_app. simpl. by rewrite <- Ep.
    + clear -El. induction c1 as [|[[] ? ? ? ? ?] c1 IH]; simpl in *; [done|by apply IH|by destruct (lefts c1), (items sib)].
Qed.

(** The node spliced out takes a black node with it unless it is red. *)
Definition short (c : color_t) (p : color_t) (n : nat) (x : tree) : Prop :=
  match c with TREE_RED => rb p n x | TREE_BLACK => exists m, n = S m /\ rb TREE_BLACK m x end.

Lemma rb_short p n c a k v l r : rb p n (Node c a k v l r) -> l = Nil \/ r = Nil -> short c p n (only_child l r).
Proof.
  intros HR Ho. inversion HR; subst; simpl; [|exists n0; split; [done|]].
  all: destruct Ho as [-> | ->]; simpl; auto using rb_weaken; destruct l; auto using rb_weaken.
Qed.

Lemma delete_is_tree s t a :
  is_tree s t -> a <> rt_nil s -> a ∉ addrs t -> is_tree (set_store (delete a) s) t.
Proof.
  intros [R1 R2 R3 [np R4] R5] Hn Ha. split; try done; simpl.
  - eapply rep_frame; [|exact R1]. intros x Hx. rewrite lookup_delete_ne; [done|]. by intros ->.
  - exists np. by rewrite lookup_delete_ne.
Qed.

Lemma kept_size s s' : kept_frame s s' -> size (rt_store s') = size (rt_store s).
Proof.
  intros (_ & _ & _ & HD). rewrite <- !size_dom. f_equal. apply leibniz_equiv. intros p. by rewrite !elem_of_dom, HD.
Qed.

(** What is known of the tree after a node has been taken out. *)
Definition removed (s s' : rtree) (t' : tree) : Prop :=
  is_tree s' t' /\ (exists m, rb TREE_RED m t') /\ rt_nil s' = rt_nil s /\ rt_brk s' = rt_brk s /\
  rt_setSize s' = s32 (rt_setSize s - 1) /\ size (rt_store s) = S (size (rt_store s')).

Lemma remove_tail s cx x a k v c l r q p n :
  is_tree s (plug cx x) -> nil_parent s x (top cx) -> rt_store s !! a = Some (mk_entry k v c l r q) ->
  a <> rt_nil s -> a ∉ addrs (plug cx x) -> rbc p n cx -> short c p n x ->
  exists s' t', (yc ← rd_color a ; (if negb (is_red yc) then deleteFixup (root (rt_nil s) x) else mret tt) ;;
      add_setSize (-1) ;; delete_entry a) s = Ret (tt, s') /\ removed s s' t' /\ items t' = items (plug cx x).
Proof.
  intros HT HN Ea Hn Ha HC HS.
  assert (exists s1 t', (if negb (is_red c) then deleteFixup (root (rt_nil s) x) else mret tt) s = Ret (tt, s1) /\
    same_frame s s1 /\ is_tree s1 t' /\ (exists m, rb TREE_RED m t') /\ alike t' (plug cx x)) as (s1 & t' & E1 & F & HT1 & HB & HA).
  { destruct c; simpl in HS |- *; [|exists s, (plug cx x); split; [done|]; split; [apply same_frame_refl|]; split; [done|]; split; [by eapply rbc_plug|done]].
    destruct HS as (m & -> & HR). destruct (del_up_spec cx _ _ _ HC HR) as [HB HA]. unfold deleteFixup.
    destruct (deleteFixup_loop_run cx (fuel_of s) s x p m HT HN HC) as (y & s1 & s' & EL & EW & F & HT').
    { pose proof (fuel_enough s cx x HT). lia. }
    exists s', (del_up cx x). rewrite bind_walk_fuel, (bind_ret _ _ _ _ _ EL). by split_and!. }
  erewrite (bind_ret (rd_color a)) by (by eapply rd_color_ok). rewrite (bind_ret _ _ _ _ _ E1).
  destruct HA as [HI HP]. pose proof F as (FN & FB & FS & _ & FD).
  exists (set_store (delete a) (set_size (s32 (rt_setSize s1 - 1)) s1)), t'. split_and!; [done| |done].
  split_and!; try done; simpl; [|by rewrite FS|].
  - apply (delete_is_tree (set_size _ s1)); [by apply is_tree_size|simpl; by rewrite FN|by rewrite HP].
  - rewrite map_size_delete. destruct (proj2 (FD a)) as [e ->]; [eauto|].
    rewrite (kept_size s s1) by (by apply same_frame_kept).
    pose proof (map_size_non_empty_iff (rt_store s)). destruct (size (rt_store s)) eqn:Es; [|lia].
    apply map_size_empty_inv in Es. by rewrite Es, lookup_empty in Ea.
Qed.

Lemma rbc_rekey q n c1 d c a k v k' v' sib cx :
  rbc q n (c1 ++ Fr d c a k v sib :: cx) -> rbc q n (c1 ++ Fr d c a k' v' sib :: cx).
Proof.
  revert q n. induction c1 as [|f c1 IH]; intros q n HC; simpl in *; inversion HC; subst; eauto with rbt.
Qed.

Lemma top_rekey c1 d c a k v k' v' sib cx :
  top (c1 ++ Fr d c a k v sib :: cx) = top (c1 ++ Fr d c a k' v' sib :: cx).
Proof. by destruct c1 as [|[]]. Qed.

Lemma spliced_out s cx c a k v l r (x := only_child l r) :
  is_tree s (plug cx (Node c a k v l r)) -> l = Nil \/ r = Nil -> a <> rt_nil s /\ a ∉ addrs (plug cx x).
Proof.
  intros HT Ho. destruct (only_child_focus _ _ _ _ _ _ _ _ HT Ho) as (_ & _ & Hnd & _). fold x in Hnd.
  rewrite plug_addrs. rewrite !NoDup_cons, !not_elem_of_cons in Hnd. naive_solver.
Qed.

(** A node with at most one child is spliced out itself. *)
Lemma remove_simple s cx key c a v l r p n :
  is_tree s (plug cx (Node c a key v l r)) -> l = Nil \/ r = Nil -> rbc p n cx -> rb p n (Node c a key v l r) ->
  find_internal key s = Ret (a, s) ->
  exists s' t', remove key s = Ret (tt, s') /\ removed s s' t' /\ items t' = lefts cx ++ (items l ++ items r) ++ rights cx.
Proof.
  intros HT Ho HC HR EF. destruct (focus_ne _ _ _ _ _ _ _ _ HT) as [Ha0 Han].
  destruct (spliced_out _ _ _ _ _ _ _ _ HT Ho) as [_ Hout].
  destruct (only_child_focus _ _ _ _ _ _ _ _ HT Ho) as (_ & _ & _ & HI & _).
  destruct (splice_run _ _ _ _ _ _ _ _ HT Ho) as (s1 & s2 & W1 & W2 & HK & HT2 & HN & Ea2).
  pose proof (rb_short _ _ _ _ _ _ _ _ HR Ho) as HS. foc HT. rewrite E in Ea2. pose proof HK as (KN & KB & KS & _).
  destruct (remove_tail s2 cx _ a _ _ _ _ _ _ p n HT2 HN Ea2 ltac:(by rewrite KN) Hout HC HS) as (s' & t' & EQ & HRm & HIt).
  exists s', t'. split_and!; [| |by rewrite HIt, items_plug, HI].
  - unfold remove. rewrite (bind_ret _ _ _ _ _ EF), (proj2 (Z.eqb_neq _ _) Ha0). acc_step. rewrite Z.eqb_refl. cbn [negb].
    rewrite bind_gets. do 2 acc_step.
    rewrite (nil_test s (Fr OnLeft c a key v r :: cx) l HT), (nil_test s (Fr OnRight c a key v l :: cx) r HT).
    replace (match l with Nil => true | _ => false end || match r with Nil => true | _ => false end) with true
      by (destruct Ho as [-> | ->]; by destruct l || destruct r). rewrite bind_mret. acc_step.
    rewrite (nil_test s (Fr OnLeft c a key v r :: cx) l HT).
    assert ((if negb (match l with Nil => true | _ => false end) then mret (root (rt_nil s) l) else rd_right a) s
      = Ret (root (rt_nil s) (only_child l r), s)) as EX.
    { destruct l; [|done]. cbn [negb only_child]. by erewrite rd_right_ok. }
    rewrite (bind_ret _ _ _ _ _ EX). acc_step. rewrite (bind_ret _ _ _ _ _ W1), (bind_ret _ _ _ _ _ W2), Z.eqb_refl.
    cbn [negb]. rewrite bind_mret, <- EQ. by rewrite KN.
  - destruct HRm as (R1 & R2 & R3 & R4 & R5 & R6). pose proof (kept_size _ _ HK).
    split_and!; [done|done|congruence|congruence|congruence|congruence].
Qed.

Lemma treeSuccessor_run s cx c a k v l r :
  is_tree s (plug cx (Node c a k v l r)) -> r <> Nil ->
  exists c1 cy ya yk yv yr, treeSuccessor a s = Ret (ya, s) /\ lefts c1 = [] /\ r = plug c1 (Node cy ya yk yv Nil yr) /\
    ya <> a /\ ya <> rt_nil s.
Proof.
  intros HT Hr. destruct (focus_ne _ _ _ _ _ _ _ _ HT) as [Ha0 Han]. pose proof (focus_entry _ _ _ _ _ _ _ _ HT) as Ea.
  destruct r as [|cr ar kr vr lr rr]; [done|]. set (f := Fr OnRight c a k v l).
  destruct (leftmost_run (fuel_of s) s cr ar kr vr lr rr (f :: cx) HT) as (c1 & cy & ya & yk & yv & yr & EL & Ep & El).
  { pose proof (fuel_enough s (f :: cx) _ HT). lia. }
  exists c1, cy, ya, yk, yv, yr. unfold treeSuccessor. rewrite bind_gets, (proj2 (Z.eqb_neq _ _) Ha0), (proj2 (Z.eqb_neq _ _) Han).
  cbn [orb]. rewrite bind_walk_fuel. acc_step. rewrite (nil_test s (f :: cx) _ HT).
  assert (ya ∈ addrs (Node cr ar kr vr lr rr)) as Hin by (rewrite Ep, plug_addrs; simpl; set_solver).
  apply is_tree_focus in HT as (_ & _ & Hnd & _). simpl in Hnd. rewrite !NoDup_cons, !not_elem_of_cons in Hnd.
  destruct Hnd as (_ & (_ & N2) & N3 & _). split_and!; [exact EL|done|done| |].
  - intros ->. apply N3. simpl in Hin. set_solver.
  - intros ->. apply N2. simpl in Hin. set_solver.
Qed.

(** The key and the value of [ya] are copied to [a]. *)
Lemma copy_run {X} s cx c a k v l r ya yk yv cy ly ry py (K : M rtree X) :
  is_tree s (plug cx (Node c a k v l r)) -> rt_store s !! ya = Some (mk_entry yk yv cy ly ry py) -> ya <> a ->
  exists s', (((yv ← rd_value ya ; wr_value a yv ;; yk ← rd_key ya ; wr_key a yk) : M rtree unit) ;; K) s = K s' /\
    same_frame s s' /\ is_tree s' (plug cx (Node c a yk yv l r)) /\ rt_store s' !! ya = rt_store s !! ya.
Proof.
  intros HT Ey Hya. destruct (put_focus _ _ _ _ _ _ _ _ c k yv HT) as [HT1 F1]. pose proof (focus_entry _ _ _ _ _ _ _ _ HT) as Ea.
  set (s1 := upd a _ s) in *. pose proof (focus_entry _ _ _ _ _ _ _ _ HT1) as Ea1.
  destruct (put_focus _ _ _ _ _ _ _ _ c yk yv HT1) as [HT2 F2]. set (s2 := upd a _ s1) in *.
  exists s2. split_and!; [|by eapply same_frame_trans|done|].
  - rewrite bind_assoc. acc_step. rewrite bind_assoc. erewrite (bind_ret (wr_value a yv)) by (by eapply wr_value_ok).
    fold s1. rewrite bind_assoc. erewrite (bind_ret (rd_key ya)).
    2:{ eapply rd_key_ok. unfold s1. by rewrite store_upd, lookup_insert_ne by done. }
    by erewrite (bind_ret (wr_key a yk)) by (by eapply wr_key_ok).
  - unfold s2, s1. by rewrite !store_upd, !lookup_insert_ne by done.
Qed.

(** A node with two children gets the key and value of its successor, which is
    spliced out. *)
Lemma remove_double s cx key c a v l r p n :
  is_tree s (plug cx (Node c a key v l r)) -> l <> Nil -> r <> Nil -> rbc p n cx -> rb p n (Node c a key v l r) ->
  find_internal key s = Ret (a, s) ->
  exists s' t', remove key s = Ret (tt, s') /\ removed s s' t' /\ items t' = lefts cx ++ (items l ++ items r) ++ rights cx.
Proof.
  intros HT Hl Hr HC HR EF. destruct (focus_ne _ _ _ _ _ _ _ _ HT) as [Ha0 Han]. pose proof (focus_entry _ _ _ _ _ _ _ _ HT) as Ea.
  destruct (treeSuccessor_run _ _ _ _ _ _ _ _ HT Hr) as (c1 & cy & ya & yk & yv & yr & ES & El & Ep & Hya & Yn).
  set (f := Fr OnRight c a key v l).
  assert (plug cx (Node c a key v l r) = plug (c1 ++ f :: cx) (Node cy ya yk yv Nil yr)) as Epl
    by (rewrite plug_app; simpl; by rewrite <- Ep).
  pose proof HT as HTy. rewrite Epl in HTy. pose proof (focus_entry _ _ _ _ _ _ _ _ HTy) as Ey. cbn [root] in Ey.
  assert (Nil = Nil \/ yr = Nil) as Ho by auto. destruct (spliced_out _ _ _ _ _ _ _ _ HTy Ho) as [_ Hout].
  destruct (splice_run _ _ _ _ _ _ _ _ HTy Ho) as (s1 & s2 & W1 & W2 & HK & HT2 & HN & Ey2). cbn [only_child] in *.
  destruct (rbc_plug _ _ _ _ HC HR) as [m HB]. rewrite Epl in HB. destruct (rb_unplug _ _ _ HB) as (q & n' & HCy & HRy).
  pose proof (rb_short _ _ _ _ _ _ _ _ HRy Ho) as HS. cbn [only_child] in HS. rewrite plug_app in HT2. rewrite Ey in Ey2.
  destruct (copy_run s2 cx _ _ _ _ _ _ ya yk yv _ _ _ _ (yc ← rd_color ya ;
    (if negb (is_red yc) then deleteFixup (root (rt_nil s) yr) else mret tt) ;; add_setSize (-1) ;; delete_entry ya)
    HT2 Ey2 Hya) as (s4 & EC & F & HT4 & Ey4).
  pose proof HK as (KN & KB & KS & _). pose proof F as (FN & FB & FS & _).
  destruct (remove_tail s4 (c1 ++ Fr OnRight c a yk yv l :: cx) yr ya yk yv cy (rt_nil s) (root (rt_nil s) yr)
    (top (c1 ++ f :: cx)) q n') as (s' & t' & EQ & HRm & HIt);
    [by rewrite plug_app| |by rewrite Ey4|by rewrite FN, KN| |by eapply rbc_rekey|done|].
  { rewrite <- (top_rekey c1 OnRight c a key v). by eapply nil_parent_same. }
  { intros Hin. apply Hout. revert Hin. by rewrite !plug_app, !plug_addrs. }
  exists s', t'. split_and!.
  - unfold remove. rewrite (bind_ret _ _ _ _ _ EF), (proj2 (Z.eqb_neq _ _) Ha0). acc_step. rewrite Z.eqb_refl. cbn [negb].
    rewrite bind_gets. do 2 acc_step. rewrite (nil_test s (Fr OnLeft c a key v _ :: cx) l HT), (nil_test s (f :: cx) r HT).
    replace (match l with Nil => true | _ => false end) with false by (by destruct l).
    replace (match r with Nil => true | _ => false end) with false by (by destruct r). cbn [orb].
    rewrite (bind_ret _ _ _ _ _ ES). acc_step. rewrite Z.eqb_refl. cbn [negb]. do 2 acc_step.
    rewrite (bind_ret _ _ _ _ _ W1), (bind_ret _ _ _ _ _ W2), (proj2 (Z.eqb_neq _ _) Hya). cbn [negb]. rewrite EC, <- EQ.
    by rewrite FN, KN.
  - destruct HRm as (R1 & R2 & R3 & R4 & R5 & R6). pose proof (kept_size _ _ HK). pose proof (kept_size _ _ (same_frame_kept _ _ F)).
    split_and!; [done|done|congruence..].
  - rewrite HIt, plug_app. simpl. rewrite items_plug. simpl. rewrite items_plug.
    assert (items r = (yk, yv) :: items yr ++ rights c1) as -> by (rewrite Ep, items_plug, El; done).
    rewrite El. by app_eq.
Qed.

Lemma remove_run s t key cx c a k v l r n :
  is_tree s t -> rb TREE_RED n t -> locate key t [] = (cx, Node c a k v l r) ->
  exists s' t', remove key s = Ret (tt, s') /\ removed s s' t' /\ items t' = lefts cx ++ (items l ++ items r) ++ rights cx.
Proof.
  intros HT HB HL. pose proof (find_internal_run _ _ _ _ _ HT HL) as EF. pose proof (locate_node _ _ _ _ _ _ _ _ _ _ HL) as ->.
  pose proof (locate_plug _ _ _ _ _ HL) as HP. simpl in HP. rewrite <- HP in HT, HB.
  destruct (rb_unplug _ _ _ HB) as (p & m & HC & HR).
  destruct l as [|cl al kl vl ll rl]; [by eapply remove_simple; eauto|].
  destruct r as [|cr ar kr vr lr rr]; [by eapply remove_simple; eauto|]. by eapply remove_double.
Qed.
