(* ===== verification/CodeRangeMap.v ===== *)
(** * The tree of address ranges is a map ordered by start addresses

    CodeRangeTree says which tree the methods of CodeRange build; here its entries
    in order are the finite map from start addresses to ranges, every method is
    the operation of that map, and a search takes as many rounds as the logarithm
    of the number of ranges. *)
From stdpp Require Import base gmap list sorting.
From S2P Require Import Prelude CodeRange CodeRangeTree.
Import codeRangeTree.

(** ** Sorted associations *)

Definition ordered (l : list (Z * Z)) : Prop := StronglySorted Z.lt l.*1.

Definition below (key : Z) (l : list (Z * Z)) : Prop := forall x, x ∈ l -> x.1 < key.
Definition above (key : Z) (l : list (Z * Z)) : Prop := forall x, x ∈ l -> key < x.1.

Lemma ordered_NoDup l : ordered l -> NoDup l.*1.
Proof.
  unfold ordered. induction l as [|x l IH]; simpl; [constructor|]. rewrite StronglySorted_cons, NoDup_cons, Forall_forall.
  intros [Hx Hl]. split; [|auto]. intros Hin. specialize (Hx _ Hin). lia.
Qed.

Lemma ordered_mid l1 k v l2 : ordered (l1 ++ (k, v) :: l2) <-> ordered (l1 ++ l2) /\ below k l1 /\ above k l2.
Proof.
  unfold ordered, below, above. rewrite !fmap_app, fmap_cons, !StronglySorted_app, StronglySorted_cons, Forall_forall. simpl.
  setoid_rewrite elem_of_cons. split.
  - intros (H1 & H2 & H3 & H4). split_and!; auto.
    + intros x Hx. apply H1; [by apply list_elem_of_fmap_2|auto].
    + intros x Hx. apply H3. by apply list_elem_of_fmap_2.
  - intros ((H1 & H2 & H3) & H4 & H5).
    assert (forall x, x ∈ l1.*1 -> x < k) by (intros x (y & -> & Hy)%list_elem_of_fmap; auto).
    assert (forall x, x ∈ l2.*1 -> k < x) by (intros x (y & -> & Hy)%list_elem_of_fmap; auto).
    split_and!; auto. intros x1 x2 Hx [->|?]; auto.
Qed.

Lemma ordered_sub l1 l l2 : ordered (l1 ++ l ++ l2) -> ordered l.
Proof.
  unfold ordered. rewrite !fmap_app. intros H. eapply StronglySorted_app_1_l, StronglySorted_app_1_r, H.
Qed.

Notation map_of l := (list_to_map l : gmap Z Z).

Lemma map_of_lookup l k v : ordered l -> map_of l !! k = Some v <-> (k, v) ∈ l.
Proof. intros Hl. symmetry. apply elem_of_list_to_map. by apply ordered_NoDup. Qed.

Lemma map_of_none l1 l2 k : below k l1 -> above k l2 -> map_of (l1 ++ l2) !! k = None.
Proof.
  intros H1 H2. apply not_elem_of_list_to_map_1. rewrite fmap_app, elem_of_app.
  intros [([] & -> & Hx)%list_elem_of_fmap|([] & -> & Hx)%list_elem_of_fmap]; [apply H1 in Hx|apply H2 in Hx]; simpl in *; lia.
Qed.

Lemma map_of_mid l1 k v l2 : below k l1 -> map_of (l1 ++ (k, v) :: l2) = <[k := v]> (map_of (l1 ++ l2)).
Proof.
  intros H1. induction l1 as [|[k' v'] l1 IH]; [done|]. simpl.
  rewrite IH by (intros x Hx; apply H1; by right). apply insert_insert_ne.
  specialize (H1 (k', v') ltac:(by left)). simpl in H1. lia.
Qed.

Lemma map_of_delete l1 k v l2 : ordered (l1 ++ (k, v) :: l2) -> map_of (l1 ++ l2) = delete k (map_of (l1 ++ (k, v) :: l2)).
Proof.
  intros (_ & H1 & H2)%ordered_mid. rewrite map_of_mid by done. rewrite delete_insert_id; [done|]. by apply map_of_none.
Qed.

Lemma size_map_of l : ordered l -> size (map_of l) = length l.
Proof. intros. by apply map_size_list_to_map, ordered_NoDup. Qed.

(** ** Where [locate] ends *)

Definition between (key : Z) (cx : ctx) : Prop := below key (lefts cx) /\ above key (rights cx).

Lemma locate_between key t cx cx' t' :
  ordered (items (plug cx t)) -> between key cx -> locate key t cx = (cx', t') -> between key cx'.
Proof.
  revert cx. induction t as [|c a k v l IHl r IHr]; intros cx Ho Hb; simpl; [by intros [= <- <-]|].
  rewrite items_plug in Ho. simpl in Ho.
  replace (lefts cx ++ (items l ++ (k, v) :: items r) ++ rights cx) with
    ((lefts cx ++ items l) ++ (k, v) :: (items r ++ rights cx)) in Ho by (by app_eq).
  pose proof Ho as (_ & H1 & H2)%ordered_mid. destruct Hb as [B1 B2].
  destruct (Z.ltb_spec key k); [|destruct (Z.ltb_spec k key)].
  - apply IHl; [by rewrite items_plug; simpl; revert Ho; app_eq|]. split; [done|]. intros x. simpl.
    rewrite elem_of_cons, elem_of_app. intros [->|[Hx|Hx]]; [done| |by apply B2].
    specialize (H2 x). rewrite elem_of_app in H2. specialize (H2 (or_introl Hx)). lia.
  - apply IHr; [by rewrite items_plug; simpl; revert Ho; app_eq|]. split; [|done]. intros x. simpl.
    rewrite !elem_of_app, list_elem_of_singleton. intros [Hx|[Hx| ->]]; [by apply B1| |done].
    specialize (H1 x). rewrite elem_of_app in H1. specialize (H1 (or_intror Hx)). lia.
  - by intros [= <- <-].
Qed.

Lemma locate_top_between key t cx' t' : ordered (items t) -> locate key t [] = (cx', t') -> between key cx'.
Proof. intros Ho. apply locate_between; [done|]. split; intros x Hx; by apply elem_of_nil in Hx. Qed.

(** ** The map a tree stands for *)

(** The state stands for the map [m]: a balanced tree in order, the count, and no
    entry beyond those of the map and the sentinel. *)
Definition is_range (s : rtree) (m : gmap Z Z) : Prop :=
  exists t n, is_tree s t /\ rb TREE_RED n t /\ ordered (items t) /\ m = map_of (items t) /\
    rt_setSize s = s32 (Z.of_nat (size m)) /\ size (rt_store s) = S (size m).

Lemma codeRangeTree_new_range p : NULL < p -> is_range (codeRangeTree_new p) ∅.
Proof.
  unfold NULL. intros Hp. exists Nil, 0%nat. split_and!; [|constructor|constructor|done|done|].
  - split; simpl; [done|done| |exists NULL; by rewrite lookup_singleton_eq|].
    + repeat constructor; rewrite ?list_elem_of_singleton; [unfold NULL; lia|]. apply not_elem_of_nil.
    + intros q [-> | ->%list_elem_of_singleton]%elem_of_cons; unfold NULL; lia.
  - simpl. apply map_size_singleton.
Qed.

Lemma length_items t : length (items t) = length (addrs t).
Proof. induction t as [|c a k v l IHl r IHr]; simpl; [done|]. rewrite !length_app. simpl. lia. Qed.

(** With that many entries, the store holds the tree and the sentinel only. *)
Lemma is_tree_dom s t :
  is_tree s t -> size (rt_store s) = S (length (items t)) ->
  dom (rt_store s) = list_to_set (rt_nil s :: addrs t).
Proof.
  intros HT Hs. pose proof HT as [HR _ Hnd [p Hp] _]. apply NoDup_cons in Hnd as [_ Hnd]. symmetry.
  apply set_subseteq_size_eq.
  - intros x. rewrite elem_of_list_to_set, elem_of_dom. intros [->|Hx]%elem_of_cons; [eauto|by eapply rep_has].
  - rewrite size_dom, Hs, size_list_to_set by done. simpl. by rewrite length_items.
Qed.

Lemma is_tree_fresh s t :
  is_tree s t -> size (rt_store s) = S (length (items t)) -> rt_store s !! rt_brk s = None.
Proof.
  intros HT Hs. apply not_elem_of_dom. rewrite (is_tree_dom _ _ HT Hs), elem_of_list_to_set. intros Hin.
  pose proof (it_brk _ _ HT (rt_brk s)) as Hb. specialize (Hb ltac:(by right)). lia.
Qed.

Lemma s32_count (n : nat) x d : x = s32 (Z.of_nat n) -> s32 (x + d) = s32 (Z.of_nat n + d).
Proof.
  intros ->. unfold s32, swrap. f_equal.
  replace ((Z.of_nat n + 2 ^ (32 - 1)) mod 2 ^ 32 - 2 ^ (32 - 1) + d + 2 ^ (32 - 1)) with
    ((Z.of_nat n + 2 ^ (32 - 1)) mod 2 ^ 32 + d) by lia.
  rewrite Zplus_mod_idemp_l. f_equal. lia.
Qed.

(** ** Insertion *)

Lemma with_leaf_size s cx key value rt :
  repc (rt_store s) (rt_nil s) rt cx (rt_nil s) -> rt_store s !! rt_brk s = None -> top cx <> rt_brk s ->
  size (rt_store (with_leaf s cx key value)) = S (size (rt_store s)).
Proof.
  intros HC Hf Ht. unfold with_leaf.
  set (s1 := mk_rtree (<[rt_brk s := mk_entry key value TREE_RED (rt_nil s) (rt_nil s) NULL]> (rt_store s))
    (rt_nil s) (rt_setSize s) (rt_setData s) (rt_brk s + 1)).
  assert (size (rt_store (upd (rt_brk s) (mk_entry key value TREE_RED (rt_nil s) (rt_nil s) (top cx)) s1)) = S (size (rt_store s))) as Hs.
  { unfold s1. rewrite store_upd. simpl. rewrite insert_insert_eq. by apply map_size_insert_None. }
  rewrite <- Hs. destruct cx as [|[[] c a k v sib] cx]; simpl in *; [done|..];
    destruct HC as [E _]; apply map_size_insert_Some; rewrite !lookup_insert_ne by done; eauto.
Qed.

Lemma leaf_count s t cx key value :
  is_tree s t -> size (rt_store s) = S (length (items t)) -> locate key t [] = (cx, Nil) ->
  size (rt_store (with_leaf s cx key value)) = S (size (rt_store s)).
Proof.
  intros HT Hs HL. pose proof (locate_plug _ _ _ _ _ HL) as HP. simpl in HP.
  pose proof (is_tree_fresh _ _ HT Hs) as Hf. rewrite <- HP in HT. pose proof HT as (_ & Hc & _ & _ & Hb)%is_tree_focus.
  eapply with_leaf_size; [exact Hc|done|]. intros E. destruct (top_elem cx) as [E'|Hin].
  - specialize (Hb NULL ltac:(by left)). lia.
  - specialize (Hb (top cx)). rewrite E in Hb. simpl in Hb. assert (rt_brk s < rt_brk s); [|lia]. apply Hb.
    rewrite !elem_of_cons. right. right. by rewrite <- E.
Qed.

Lemma is_range_intro s t n :
  is_tree s t -> rb TREE_RED n t -> ordered (items t) -> rt_setSize s = s32 (Z.of_nat (length (items t))) ->
  size (rt_store s) = S (length (items t)) -> is_range s (map_of (items t)).
Proof. intros HT HB Ho Hz Hs. exists t, n. rewrite (size_map_of _ Ho). by split_and!. Qed.

Lemma is_range_elim s m :
  is_range s m -> exists t n, is_tree s t /\ rb TREE_RED n t /\ ordered (items t) /\ m = map_of (items t) /\
    rt_setSize s = s32 (Z.of_nat (length (items t))) /\ size (rt_store s) = S (length (items t)).
Proof. intros (t & n & HT & HB & Ho & -> & Hz & Hs). rewrite (size_map_of _ Ho) in *. exists t, n. by split_and!. Qed.

Section Insert.
Context `{RangeOf}.

Lemma insert_new_range s t n value cx (key := get_address value) :
  is_tree s t -> rb TREE_RED n t -> ordered (items t) -> rt_setSize s = s32 (Z.of_nat (length (items t))) ->
  size (rt_store s) = S (length (items t)) -> locate key t [] = (cx, Nil) ->
  exists s', insert value s = Ret (tt, s') /\ is_range s' (<[key := value]> (map_of (items t))).
Proof.
  intros HT HB Ho Hz Hs HL. pose proof (locate_plug _ _ _ _ _ HL) as HP. simpl in HP.
  destruct (locate_top_between _ _ _ _ Ho HL) as [B1 B2].
  assert (items t = lefts cx ++ rights cx) as Et by (by rewrite <- HP, items_plug). rewrite Et in Ho, Hs, Hz |- *.
  rewrite <- HP in HB. destruct (rb_unplug _ _ _ HB) as (p & m & HC & HR). assert (m = 0%nat) as -> by (by inversion HR).
  destruct (insert_new_run s t value cx p 0 HT HL HC) as (s' & E & HT' & Hz' & Hn & Hsz). exists s'. split; [done|].
  fold key in HT', Hsz. rewrite (leaf_count s t cx key value HT ltac:(by rewrite Et) HL) in Hsz.
  destruct (ins_up_rb _ _ cx (rt_brk s) key value Nil Nil HC (rb_Nil _) (rb_Nil _)) as [m2 HR2].
  set (t2 := paint _ _) in *.
  assert (items t2 = lefts cx ++ (key, value) :: rights cx) as Ei by (unfold t2; by rewrite items_paint, items_ins_up, items_plug).
  rewrite <- map_of_mid, <- Ei by done. rewrite length_app in Hs, Hz.
  apply (is_range_intro s' t2 m2); try done; rewrite Ei; [by apply ordered_mid|..]; rewrite length_app; simpl.
  - rewrite Hz', (s32_count _ _ _ Hz). f_equal. lia.
  - lia.
Qed.

Lemma insert_old_range s t n value cx c a k v l r (key := get_address value) :
  is_tree s t -> rb TREE_RED n t -> ordered (items t) -> rt_setSize s = s32 (Z.of_nat (length (items t))) ->
  size (rt_store s) = S (length (items t)) -> locate key t [] = (cx, Node c a k v l r) ->
  exists s', insert value s = Ret (tt, s') /\ is_range s' (<[key := value]> (map_of (items t))).
Proof.
  intros HT HB Ho Hz Hs HL. pose proof (locate_plug _ _ _ _ _ HL) as HP. simpl in HP.
  pose proof (locate_node _ _ _ _ _ _ _ _ _ _ HL) as ->.
  destruct (insert_old_run s t value cx c a _ v l r HT HL) as (s' & E & HT' & F). exists s'. split; [done|].
  set (L := lefts cx ++ items l). set (R := items r ++ rights cx).
  assert (forall w, items (plug cx (Node c a key w l r)) = L ++ (key, w) :: R) as Ew
    by (intros w; rewrite items_plug; unfold L, R; simpl; by app_eq).
  assert (items t = L ++ (key, v) :: R) as Et by (by rewrite <- HP). rewrite Et in Ho, Hs, Hz |- *.
  pose proof Ho as (Hlr & H1 & H2)%ordered_mid.
  rewrite (map_of_mid _ _ v), insert_insert_eq, <- (map_of_mid _ _ value), <- Ew by done.
  rewrite <- HP in HB. destruct (rb_unplug _ _ _ HB) as (p & m & HC & HR).
  destruct (rbc_plug p m cx (Node c a key value l r) HC) as [m2 HR2]; [inversion HR; subst; by constructor|].
  pose proof (same_frame_size _ _ F) as Fz. destruct F as (_ & _ & FS & _).
  apply (is_range_intro s' _ m2); try done; rewrite Ew; [by apply ordered_mid|..]; rewrite length_app in *; simpl in *; congruence.
Qed.

(** Giving an address its range, which is new or replaces the one there. *)
Lemma insert_range s m value :
  is_range s m -> exists s', insert value s = Ret (tt, s') /\ is_range s' (<[get_address value := value]> m).
Proof.
  intros (t & n & HT & HB & Ho & -> & Hz & Hs)%is_range_elim.
  destruct (locate (get_address value) t []) as [cx [|c a k v l r]] eqn:HL; eauto using insert_new_range, insert_old_range.
Qed.
End Insert.

(** ** Removal *)

Lemma locate_items key t cx c a k v l r :
  locate key t [] = (cx, Node c a k v l r) -> items t = (lefts cx ++ items l) ++ (key, v) :: (items r ++ rights cx).
Proof.
  intros HL. pose proof (locate_node _ _ _ _ _ _ _ _ _ _ HL) as ->. apply locate_plug in HL. simpl in HL.
  rewrite <- HL, items_plug. simpl. by app_eq.
Qed.

Lemma locate_none key t cx : ordered (items t) -> locate key t [] = (cx, Nil) -> map_of (items t) !! key = None.
Proof.
  intros Ho HL. destruct (locate_top_between _ _ _ _ Ho HL) as [B1 B2]. apply locate_plug in HL. simpl in HL.
  rewrite <- HL, items_plug. simpl. by apply map_of_none.
Qed.

Lemma locate_some key t cx c a k v l r :
  ordered (items t) -> locate key t [] = (cx, Node c a k v l r) -> map_of (items t) !! key = Some v.
Proof.
  intros Ho HL. rewrite (locate_items _ _ _ _ _ _ _ _ _ HL) in *. apply map_of_lookup; [done|].
  rewrite elem_of_app, elem_of_cons. auto.
Qed.

Lemma remove_range s m key :
  is_range s m -> exists s', remove key s = Ret (tt, s') /\ is_range s' (delete key m).
Proof.
  intros HM. pose proof HM as (t & n & HT & HB & Ho & -> & Hz & Hs)%is_range_elim.
  destruct (locate key t []) as [cx [|c a k v l r]] eqn:HL.
  - exists s. split; [|rewrite delete_id; eauto using locate_none]. unfold remove.
    by rewrite (bind_ret _ _ _ _ _ (find_internal_run _ _ _ _ _ HT HL)).
  - pose proof (locate_items _ _ _ _ _ _ _ _ _ HL) as Et. rewrite Et in *.
    destruct (remove_run s t key cx c a k v l r n HT HB HL) as (s' & t' & E & (HT' & [n' HB'] & _ & _ & Rz & Rs) & Ei).
    exists s'. split; [done|]. rewrite <- map_of_delete by done. pose proof Ho as (Hlr & _ & _)%ordered_mid.
    assert (items t' = (lefts cx ++ items l) ++ items r ++ rights cx) as Ei' by (rewrite Ei; by app_eq).
    rewrite <- Ei' in Hlr |- *. rewrite length_app in Hs, Hz. simpl in Hs, Hz.
    assert (length (items t') = length (lefts cx ++ items l) + length (items r ++ rights cx))%nat as El by (by rewrite Ei', length_app).
    apply (is_range_intro s' t' n'); try done; rewrite El; [|lia].
    replace (rt_setSize s - 1) with (rt_setSize s + -1) in Rz by lia. rewrite Rz, (s32_count _ _ _ Hz). f_equal. lia.
Qed.

(** ** Searching *)

Lemma find_internal_range s m key :
  is_range s m -> exists p, find_internal key s = Ret (p, s) /\
    match m !! key with Some v => p <> NULL /\ rd_value p s = Ret (v, s) | None => p = NULL end.
Proof.
  intros (t & n & HT & HB & Ho & -> & Hz & Hs)%is_range_elim. destruct (locate key t []) as [cx t'] eqn:HL.
  eexists. split; [by eapply find_internal_run|]. destruct t' as [|c a k v l r].
  - by rewrite (locate_none _ _ _ Ho HL).
  - rewrite (locate_some _ _ _ _ _ _ _ _ _ Ho HL). apply locate_plug in HL. simpl in HL. rewrite <- HL in HT.
    split; [by eapply focus_ne|]. apply focus_entry in HT. by erewrite rd_value_ok.
Qed.

(** *** Nearest addresses *)

(** The last node left of a hole, and the first one right of it. *)
Fixpoint pred_addr (nil : Z) (cx : ctx) : Z :=
  match cx with
  | [] => nil
  | Fr OnRight _ a _ _ _ :: _ => a
  | Fr OnLeft _ _ _ _ _ :: cx' => pred_addr nil cx'
  end.
Fixpoint succ_addr (nil : Z) (cx : ctx) : Z :=
  match cx with
  | [] => nil
  | Fr OnLeft _ a _ _ _ :: _ => a
  | Fr OnRight _ _ _ _ _ :: cx' => succ_addr nil cx'
  end.

(** What the searches return at the node [p], which may be the sentinel. *)
Definition value_at (s : rtree) (p : Z) (o : option (Z * Z)) : Prop :=
  match o with Some (_, v) => p <> rt_nil s /\ rd_value p s = Ret (v, s) | None => p = rt_nil s end.

Lemma value_at_focus s cx c a k v l r : is_tree s (plug cx (Node c a k v l r)) -> value_at s a (Some (k, v)).
Proof. intros HT. split; [by eapply focus_ne|]. apply focus_entry in HT. by erewrite rd_value_ok. Qed.

Lemma pred_addr_value s cx t : is_tree s (plug cx t) -> value_at s (pred_addr (rt_nil s) cx) (last (lefts cx)).
Proof.
  revert t. induction cx as [|[[] c a k v sib] cx IH]; intros t HT; simpl; [done|by eapply IH|].
  rewrite app_assoc, last_snoc. by apply (value_at_focus s cx) in HT.
Qed.

Lemma succ_addr_value s cx t : is_tree s (plug cx t) -> value_at s (succ_addr (rt_nil s) cx) (head (rights cx)).
Proof.
  revert t. induction cx as [|[[] c a k v sib] cx IH]; intros t HT; simpl; [done| |by eapply IH].
  by apply (value_at_focus s cx) in HT.
Qed.

Lemma value_at_run s p o :
  value_at s p o ->
  (if negb (p =? rt_nil s) then v ← rd_value p ; mret (Some v) else mret None) s = Ret (snd <$> o, s).
Proof.
  destruct o as [[k v]|]; simpl; [intros [Hp E]|intros ->; by rewrite Z.eqb_refl].
  rewrite (proj2 (Z.eqb_neq _ _) Hp). cbn [negb]. by rewrite (bind_ret _ _ _ _ _ E).
Qed.

(** What is found where [locate] ends, given what is next to a hole. *)
Definition found (o : option (Z * Z)) (t : tree) : option Z :=
  match t with Nil => snd <$> o | Node _ _ _ v _ _ => Some v end.

Lemma precessor_loop_run n s key t cx cx' t' :
  is_tree s (plug cx t) -> (height t < n)%nat -> locate key t cx = (cx', t') ->
  precessor_loop n (root (rt_nil s) t) (pred_addr (rt_nil s) cx) key s = Ret (found (last (lefts cx')) t', s).
Proof.
  revert n cx. induction t as [|c a k v l IHl r IHr]; intros n cx HT Hn HL;
    (destruct n as [|n]; [lia|]); down_step; rewrite (nil_test _ _ _ HT).
  - injection HL as <- <-. by apply value_at_run, (pred_addr_value s cx Nil).
  - simpl in Hn, HL. foc HT. cbn [root]. acc_step. destruct (Z.ltb_spec key k); [|destruct (Z.ltb_spec k key)].
    + rewrite (proj2 (Z.eqb_neq k key)) by lia. acc_step.
      eapply (IHl n (Fr OnLeft c a k v r :: cx) HT); [lia|done].
    + rewrite (proj2 (Z.eqb_neq k key)) by lia. acc_step.
      eapply (IHr n (Fr OnRight c a k v l :: cx) HT); [lia|done].
    + injection HL as <- <-. rewrite (proj2 (Z.eqb_eq k key)) by lia. by acc_step.
Qed.

Lemma successor_loop_run n s key t cx cx' t' :
  is_tree s (plug cx t) -> (height t < n)%nat -> locate key t cx = (cx', t') ->
  successor_loop n (root (rt_nil s) t) (succ_addr (rt_nil s) cx) key s = Ret (found (head (rights cx')) t', s).
Proof.
  revert n cx. induction t as [|c a k v l IHl r IHr]; intros n cx HT Hn HL;
    (destruct n as [|n]; [lia|]); down_step; rewrite (nil_test _ _ _ HT).
  - injection HL as <- <-. by apply value_at_run, (succ_addr_value s cx Nil).
  - simpl in Hn, HL. foc HT. cbn [root]. acc_step. destruct (Z.ltb_spec key k); [|destruct (Z.ltb_spec k key)].
    + rewrite (proj2 (Z.eqb_neq k key)), (proj2 (Z.ltb_ge k key)) by lia. acc_step.
      eapply (IHl n (Fr OnLeft c a k v r :: cx) HT); [lia|done].
    + rewrite (proj2 (Z.eqb_neq k key)) by lia. acc_step.
      eapply (IHr n (Fr OnRight c a k v l :: cx) HT); [lia|done].
    + injection HL as <- <-. rewrite (proj2 (Z.eqb_eq k key)) by lia. by acc_step.
Qed.

(** The greatest key of at most [key], and the least of at least [key]. *)
Definition is_floor (m : gmap Z Z) (key : Z) (o : option Z) : Prop :=
  match o with
  | Some v => exists k, m !! k = Some v /\ k <= key /\ forall k', is_Some (m !! k') -> k' <= key -> k' <= k
  | None => forall k', is_Some (m !! k') -> key < k'
  end.
Definition is_ceil (m : gmap Z Z) (key : Z) (o : option Z) : Prop :=
  match o with
  | Some v => exists k, m !! k = Some v /\ key <= k /\ forall k', is_Some (m !! k') -> key <= k' -> k <= k'
  | None => forall k', is_Some (m !! k') -> k' < key
  end.

Lemma map_of_is_some l k : ordered l -> is_Some (map_of l !! k) <-> exists v, (k, v) ∈ l.
Proof. intros Ho. unfold is_Some. by setoid_rewrite (map_of_lookup l k _ Ho). Qed.

Lemma ordered_last l1 x l2 y : ordered ((l1 ++ [x]) ++ l2) -> y ∈ l1 -> y.1 < x.1.
Proof.
  destruct x as [k v]. rewrite <- app_assoc. simpl. intros (_ & H & _)%ordered_mid Hy. by apply H.
Qed.
Lemma ordered_head x l2 l1 y : ordered (l1 ++ x :: l2) -> y ∈ l2 -> x.1 < y.1.
Proof. destruct x as [k v]. intros (_ & _ & H)%ordered_mid Hy. by apply H. Qed.

Lemma floor_found l1 l2 key : 
  ordered (l1 ++ l2) -> below key l1 -> above key l2 -> is_floor (map_of (l1 ++ l2)) key (snd <$> last l1).
Proof.
  intros Ho H1 H2. destruct (last l1) as [[k v]|] eqn:El; simpl.
  - apply last_Some in El as [l1' ->]. exists k. rewrite (map_of_lookup _ _ _ Ho). split_and!; [set_solver| |].
    + specialize (H1 (k, v) ltac:(set_solver)). simpl in H1. lia.
    + intros k' [v' Hk]%(map_of_is_some _ _ Ho) Hle. rewrite !elem_of_app in Hk. destruct Hk as [[Hk|Hk]|Hk].
      * apply (ordered_last l1' (k, v) l2 (k', v')) in Hk; [simpl in Hk; lia|done].
      * apply list_elem_of_singleton in Hk. injection Hk as -> ->. lia.
      * apply H2 in Hk. simpl in Hk. lia.
  - apply last_None in El as ->. intros k' [v' Hk]%(map_of_is_some _ _ Ho). by apply H2 in Hk.
Qed.

Lemma ceil_found l1 l2 key :
  ordered (l1 ++ l2) -> below key l1 -> above key l2 -> is_ceil (map_of (l1 ++ l2)) key (snd <$> head l2).
Proof.
  intros Ho H1 H2. destruct l2 as [|[k v] l2]; simpl.
  - intros k' [v' Hk]%(map_of_is_some _ _ Ho). rewrite app_nil_r in Hk. by apply H1 in Hk.
  - exists k. rewrite (map_of_lookup _ _ _ Ho). split_and!; [set_solver| |].
    + specialize (H2 (k, v) ltac:(set_solver)). simpl in H2. lia.
    + intros k' [v' Hk]%(map_of_is_some _ _ Ho) Hle. rewrite elem_of_app, elem_of_cons in Hk. destruct Hk as [Hk|[Hk|Hk]].
      * apply H1 in Hk. simpl in Hk. lia.
      * injection Hk as -> ->. lia.
      * apply (ordered_head (k, v) l2 l1 (k', v')) in Hk; [simpl in Hk; lia|done].
Qed.

Lemma precessor_range s m key :
  is_range s m -> exists o, precessor key s = Ret (o, s) /\ is_floor m key o.
Proof.
  intros (t & n & HT & HB & Ho & -> & Hz & Hs)%is_range_elim. destruct (locate key t []) as [cx t'] eqn:HL.
  eexists. split.
  - unfold precessor. rewrite bind_walk_fuel, !bind_gets, (it_root _ _ HT). pose proof (fuel_enough s [] t HT).
    eapply (precessor_loop_run _ s key t []); eauto. lia.
  - destruct t' as [|c a k v l r]; simpl.
    + destruct (locate_top_between _ _ _ _ Ho HL) as [B1 B2]. apply locate_plug in HL. simpl in HL.
      rewrite <- HL, items_plug in Ho |- *. by apply floor_found.
    + exists key. rewrite (locate_some _ _ _ _ _ _ _ _ _ Ho HL). split_and!; [done|lia|auto].
Qed.

Lemma successor_range s m key :
  is_range s m -> exists o, successor key s = Ret (o, s) /\ is_ceil m key o.
Proof.
  intros (t & n & HT & HB & Ho & -> & Hz & Hs)%is_range_elim. destruct (locate key t []) as [cx t'] eqn:HL.
  eexists. split.
  - unfold successor. rewrite bind_walk_fuel, !bind_gets, (it_root _ _ HT). pose proof (fuel_enough s [] t HT).
    eapply (successor_loop_run _ s key t []); eauto. lia.
  - destruct t' as [|c a k v l r]; simpl.
    + destruct (locate_top_between _ _ _ _ Ho HL) as [B1 B2]. apply locate_plug in HL. simpl in HL.
      rewrite <- HL, items_plug in Ho |- *. by apply ceil_found.
    + exists key. rewrite (locate_some _ _ _ _ _ _ _ _ _ Ho HL). split_and!; [done|lia|auto].
Qed.

(** *** The range that covers an address *)

Section Find.
Context `{RangeOf}.

(** An empty range covers its own address. *)
Definition covers (v key : Z) : Prop :=
  get_address v <= key /\ (key < get_address v + get_size v \/ get_size v = 0 /\ key = get_address v).

(** Ranges keyed by their addresses that do not overlap and do not wrap around. *)
Definition disjoint_ranges (m : gmap Z Z) : Prop :=
  (forall k v, m !! k = Some v -> get_address v = k /\ 0 <= get_size v /\ 0 <= k /\ k + get_size v < 2 ^ 64) /\
  (forall k1 v1 k2 v2, m !! k1 = Some v1 -> m !! k2 = Some v2 -> k1 < k2 -> k1 + get_size v1 <= k2).

Lemma find_range s m key :
  is_range s m -> disjoint_ranges m ->
  exists o, find key s = Ret (o, s) /\ forall v, o = Some v <-> m !! get_address v = Some v /\ covers v key.
Proof.
  intros HM [HW HD]. destruct (precessor_range s m key HM) as (o & E & HF). unfold find. rewrite (bind_ret _ _ _ _ _ E).
  destruct o as [value|]; simpl in HF.
  - destruct HF as (k & Hk & Hle & Hmax). destruct (HW _ _ Hk) as (Ha & Hs & H0 & Hw). rewrite !Ha.
    unfold uwrap. rewrite Z.mod_small by lia.
    assert (forall v, m !! get_address v = Some v /\ covers v key -> v = value) as Huniq.
    { intros v [Hv [C1 C2]]. destruct (HW _ _ Hv) as (_ & Hs' & _). destruct (Z.lt_trichotomy (get_address v) k) as [Hlt|[Heq|Hgt]].
      - specialize (HD _ _ _ _ Hv Hk Hlt). lia.
      - rewrite Heq, Hk in Hv. by injection Hv.
      - specialize (Hmax (get_address v) ltac:(eauto) C1). lia. }
    assert (forall b : bool, (b = true <-> covers value key) -> forall v,
      (if b then Some value else None) = Some v <-> m !! get_address v = Some v /\ covers v key) as Hb.
    { intros b Hb v. split.
      - destruct b; [intros [= <-]|done]. rewrite Ha. split; [done|by apply Hb].
      - intros Hv. pose proof (Huniq v Hv) as ->. destruct b; [done|]. destruct Hv as [_ Hv%Hb]. done. }
    unfold covers in Hb. rewrite Ha in Hb. destruct (Z.eqb_spec (get_size value) 0) as [Ez|Ez].
    + destruct (Z.ltb_spec k key); [|destruct (Z.ltb_spec key k); [lia|]]; eexists; (split; [reflexivity|]).
      * apply (Hb false). split; [done|lia].
      * apply (Hb true). split; [lia|done].
    + destruct (Z.leb_spec (k + get_size value) key); [|destruct (Z.ltb_spec key k); [lia|]]; eexists; (split; [reflexivity|]).
      * apply (Hb false). split; [done|lia].
      * apply (Hb true). split; [lia|done].
  - eexists. split; [reflexivity|]. intros v. split; [done|]. intros [Hv [C1 _]]. specialize (HF _ ltac:(eauto)). lia.
Qed.
End Find.

(** ** Traversal *)

Lemma traverse_run n s t cx :
  is_tree s (plug cx t) -> (height t < n)%nat -> traverse n (root (rt_nil s) t) s = Ret ((items t).*2, s).
Proof.
  revert n cx. induction t as [|c a k v l IHl r IHr]; intros n cx HT Hn;
    (destruct n as [|n]; [lia|]); cbn [traverse]; rewrite bind_gets, (nil_test _ _ _ HT); [done|].
  simpl in Hn. foc HT. cbn [root]. acc_step.
  assert (forall t', (height t' < n)%nat -> traverse n (root (rt_nil s) t') s = Ret ((items t').*2, s) ->
    (if negb (root (rt_nil s) t' =? rt_nil s) then traverse n (root (rt_nil s) t') else mret []) s = Ret ((items t').*2, s)) as Hsub.
  { intros t' _ Ht'. destruct (Z.eqb_spec (root (rt_nil s) t') (rt_nil s)) as [Er|]; cbn [negb]; [|done].
    rewrite Er in Ht'. destruct n; [done|]. simpl in Ht'. rewrite bind_gets, Z.eqb_refl in Ht'. done. }
  rewrite (bind_ret _ _ _ _ _ (Hsub l ltac:(lia) (IHl n (Fr OnLeft c a k v r :: cx) HT ltac:(lia)))). do 2 acc_step.
  rewrite (bind_ret _ _ _ _ _ (Hsub r ltac:(lia) (IHr n (Fr OnRight c a k v l :: cx) HT ltac:(lia)))).
  simpl. by rewrite fmap_app.
Qed.

(** The ranges of a map in the order of their addresses. *)
Definition in_order (m : gmap Z Z) (vs : list Z) : Prop :=
  exists l, ordered l /\ map_to_list m ≡ₚ l /\ vs = l.*2.

Lemma elements_range s m :
  is_range s m -> exists vs, elements s = Ret (if decide (m = ∅) then None else Some vs, s) /\ in_order m vs.
Proof.
  intros (t & n & HT & HB & Ho & -> & Hz & Hs)%is_range_elim. exists (items t).*2. split.
  - unfold elements. rewrite !bind_gets, (it_root _ _ HT), (nil_test s [] t HT). destruct t as [|c a k v l r].
    + by rewrite decide_True.
    + rewrite decide_False.
      * rewrite bind_walk_fuel. pose proof (fuel_enough s [] _ HT).
        rewrite (bind_ret _ _ _ _ _ (traverse_run (fuel_of s) s _ [] HT ltac:(lia))). done.
      * intros E. pose proof (size_map_of _ Ho) as Hsz. rewrite E, map_size_empty in Hsz. simpl in Hsz.
        rewrite length_app in Hsz. simpl in Hsz. lia.
  - exists (items t). split_and!; [done| |done]. apply map_to_list_to_map. by apply ordered_NoDup.
Qed.

(** ** Destruction *)

Definition delete_all (l : list Z) (s : rtree) : rtree := set_store (fun h => foldr delete h l) s.

Lemma lookup_delete_all l s x : x ∉ l -> rt_store (delete_all l s) !! x = rt_store s !! x.
Proof.
  simpl. induction l as [|y l IH]; simpl; [done|]. rewrite not_elem_of_cons. intros [H1 H2].
  rewrite lookup_delete_ne by congruence. auto.
Qed.
Lemma delete_all_in l s x : x ∈ l -> rt_store (delete_all l s) !! x = None.
Proof.
  simpl. induction l as [|y l IH]; simpl; [by intros ?%elem_of_nil|].
  destruct (decide (x = y)) as [->|]; [by rewrite lookup_delete_eq|]. intros [?|?]%elem_of_cons; [done|].
  rewrite lookup_delete_ne by congruence. auto.
Qed.

Lemma set_store_app l1 l2 s : delete_all l1 (delete_all l2 s) = delete_all (l1 ++ l2) s.
Proof. unfold delete_all, set_store. simpl. by rewrite foldr_app. Qed.

(** The nodes in the order they are deleted. *)
Fixpoint post (t : tree) : list Z :=
  match t with Nil => [] | Node _ a _ _ l r => a :: post r ++ post l end.
Lemma post_addrs t : post t ≡ₚ addrs t.
Proof. induction t as [|c a k v l IHl r IHr]; simpl; [done|]. rewrite IHl, IHr. by rewrite Permutation_app_comm. Qed.

Lemma destroy_tree_run n s t par :
  rep (rt_store s) (rt_nil s) par t -> NoDup (NULL :: rt_nil s :: addrs t) -> (height t < n)%nat ->
  destroy n (root (rt_nil s) t) s = Ret (tt, delete_all (post t) s).
Proof.
  revert n s par. induction t as [|c a k v l IHl r IHr]; intros n s par HR Hnd Hn; (destruct n as [|n]; [lia|]);
    cbn [destroy]; rewrite bind_gets.
  { cbn [root]. rewrite Z.eqb_refl, orb_true_r. by destruct s. }
  simpl in Hn. destruct HR as (E & Hl & Hr). simpl in Hnd. rewrite !NoDup_cons, NoDup_app, !not_elem_of_cons, !not_elem_of_app in Hnd.
  destruct Hnd as ((N1 & N2 & N3 & N4) & (N5 & N6 & N7) & (N8 & N9) & N10 & N11 & N12). cbn [root].
  rewrite (proj2 (Z.eqb_neq a NULL)), (proj2 (Z.eqb_neq a (rt_nil s))) by congruence. cbn [orb]. acc_step.
  assert (forall s' t', rt_nil s' = rt_nil s -> destroy n (root (rt_nil s') t') s' = Ret (tt, delete_all (post t') s') -> (height t' < n)%nat ->
    rt_nil s ∉ addrs t' ->
    (if negb (root (rt_nil s) t' =? rt_nil s) then destroy n (root (rt_nil s) t') else mret tt) s' = Ret (tt, delete_all (post t') s')) as Hsub.
  { intros s' t' En Ed _ Hnin. rewrite <- En. destruct t' as [|c' a' k' v' l' r']; cbn [root]; [rewrite Z.eqb_refl; by destruct s'|].
    rewrite (proj2 (Z.eqb_neq _ _)); [done|]. intros Ea. apply Hnin. simpl. rewrite <- En, <- Ea. by left. }
  rewrite (bind_ret _ _ _ _ _ (Hsub s l eq_refl (IHl n s a Hl ltac:(rewrite !NoDup_cons, not_elem_of_cons; auto) ltac:(lia)) ltac:(lia) N6)).
  set (s1 := delete_all (post l) s).
  assert (forall x, x ∉ addrs l -> rt_store s1 !! x = rt_store s !! x) as Hs1.
  { intros x Hx. apply lookup_delete_all. by rewrite post_addrs. }
  erewrite (bind_ret (rd_right a)) by (eapply rd_right_ok; rewrite Hs1 by done; exact E).
  assert (rep (rt_store s1) (rt_nil s) a r) as Hr1.
  { eapply rep_frame; [|exact Hr]. intros x Hx. apply Hs1. intros Hx'. by eapply N11. }
  rewrite (bind_ret _ _ _ _ _ (Hsub s1 r eq_refl (IHr n s1 a Hr1 ltac:(simpl; rewrite !NoDup_cons, not_elem_of_cons; auto) ltac:(lia)) ltac:(lia) N7)).
  unfold s1. by rewrite set_store_app.
Qed.

(** Only the sentinel is left. *)
Lemma delete_all_size s t :
  is_tree s t -> size (rt_store s) = S (length (items t)) -> size (rt_store (delete_all (post t) s)) = 1%nat.
Proof.
  intros HT Hs. pose proof (is_tree_dom _ _ HT Hs) as HD. pose proof (it_NoDup _ _ HT) as Hnd.
  apply NoDup_cons in Hnd as [_ Hnd]. apply NoDup_cons in Hnd as [Hn _]. rewrite <- size_dom.
  assert (dom (rt_store (delete_all (post t) s)) = ({[rt_nil s]} : gset Z)) as ->; [|apply size_singleton].
  apply leibniz_equiv. intros x. rewrite elem_of_singleton, elem_of_dom. split.
  - intros Hx. destruct (decide (x ∈ post t)) as [Hin|Hout]; [by rewrite delete_all_in in Hx; [destruct Hx|]|].
    rewrite lookup_delete_all in Hx by done. apply elem_of_dom in Hx. rewrite HD, elem_of_list_to_set, elem_of_cons in Hx.
    destruct Hx as [?|Hx]; [done|]. by rewrite <- post_addrs in Hx.
  - intros ->. rewrite lookup_delete_all by (by rewrite post_addrs). destruct (it_nil _ _ HT) as [p ->]. eauto.
Qed.

Lemma clear_range s m : is_range s m -> exists s', clear s = Ret (tt, s') /\ is_range s' ∅.
Proof.
  intros (t & n & HT & HB & Ho & -> & Hz & Hs)%is_range_elim. unfold clear.
  rewrite !bind_gets, (it_root _ _ HT), (nil_test s [] t HT). destruct t as [|c a k v l r].
  { exists s. split; [done|]. change ∅ with (map_of (items Nil)). by eapply is_range_intro. }
  set (t := Node c a k v l r) in *. rewrite bind_walk_fuel. pose proof (fuel_enough s [] _ HT).
  rewrite (bind_ret _ _ _ _ _ (destroy_tree_run (fuel_of s) s t NULL (it_rep _ _ HT) (it_NoDup _ _ HT) ltac:(lia))).
  eexists. split; [reflexivity|]. change ∅ with (map_of (items Nil)). apply (is_range_intro _ Nil 0); [|constructor|constructor|done|].
  - destruct HT as [_ _ R3 [p R4] R5]. pose proof R3 as R3'. rewrite !NoDup_cons, not_elem_of_cons in R3'. destruct R3' as (R6 & R7 & _).
    split; simpl; [done|done| |exists p|].
    + by repeat constructor; rewrite ?list_elem_of_singleton; [apply R6|apply not_elem_of_nil].
    + change (rt_store (delete_all (post t) s) !! rt_nil s = Some (mk_entry 0 NULL TREE_BLACK NULL NULL p)).
      rewrite lookup_delete_all; [done|]. by rewrite post_addrs.
    + intros q Hq. apply R5. rewrite !elem_of_cons in *. rewrite elem_of_nil in Hq. tauto.
  - exact (delete_all_size _ _ HT Hs).
Qed.

(** ** Balance *)

Lemma rb_size p n t : rb p n t -> (2 ^ n <= S (length (items t)))%nat.
Proof.
  induction 1 as [p|n a k v l r _ IHl _ IHr|p n a k v l r _ IHl _ IHr]; simpl; [lia| |]; rewrite length_app; simpl in *; lia.
Qed.

Lemma rb_height p n t : rb p n t -> (height t <= 2 * n + (if is_red p then 0 else 1))%nat.
Proof.
  induction 1 as [p|n a k v l r _ IHl _ IHr|p n a k v l r _ IHl _ IHr]; simpl in *; [lia|lia|]; destruct (is_red p); lia.
Qed.

(** As many rounds as twice the logarithm of the number of ranges. *)
Definition depth_bound (m : gmap Z Z) : nat := (2 * Nat.log2 (S (size m)))%nat.

Lemma height_bound n t : ordered (items t) -> rb TREE_RED n t -> (height t <= depth_bound (map_of (items t)))%nat.
Proof.
  intros Ho HB. unfold depth_bound. rewrite (size_map_of _ Ho). pose proof (rb_size _ _ _ HB) as Hs.
  pose proof (rb_height _ _ _ HB) as Hh. simpl in Hh. apply Nat.log2_le_mono in Hs. rewrite Nat.log2_pow2 in Hs; lia.
Qed.

Lemma find_loop_bound s m key :
  is_range s m -> find_loop (S (depth_bound m)) (rt_setData s) key s = find_internal key s.
Proof.
  intros (t & n & HT & HB & Ho & -> & Hz & Hs)%is_range_elim. destruct (locate key t []) as [cx t'] eqn:HL.
  rewrite (find_internal_run _ _ _ _ _ HT HL), (it_root _ _ HT). pose proof (height_bound _ _ Ho HB).
  eapply (find_loop_run _ s key t []); eauto. lia.
Qed.

(** ** Any sequence of operations *)

Section Operations.
Context `{RangeOf}.

Inductive operation : Type :=
| Insert (value : Z) | Remove (key : Z) | Precessor (key : Z) | Successor (key : Z) | Elements | Clear | Size | Empty.

Inductive answer : Type := ANone | AValue (o : option Z) | AList (o : option (list Z)) | ASize (n : Z) | ABool (b : bool).

Definition run_op (o : operation) : M rtree answer :=
  match o with
  | Insert value => insert value ;; mret ANone
  | Remove key => remove key ;; mret ANone
  | Precessor key => v ← precessor key ; mret (AValue v)
  | Successor key => v ← successor key ; mret (AValue v)
  | Elements => l ← elements ; mret (AList l)
  | Clear => clear ;; mret ANone
  | Size => n ← rtree_size ; mret (ASize n)
  | Empty => b ← rtree_empty ; mret (ABool b)
  end.

Fixpoint run_ops (ops : list operation) : M rtree (list answer) :=
  match ops with
  | [] => mret []
  | o :: ops' => a ← run_op o ; l ← run_ops ops' ; mret (a :: l)
  end.

(** The same on finite maps. *)
Definition map_op (m : gmap Z Z) (o : operation) (a : answer) (m' : gmap Z Z) : Prop :=
  match o with
  | Insert value => a = ANone /\ m' = <[get_address value := value]> m
  | Remove key => a = ANone /\ m' = delete key m
  | Precessor key => (exists v, a = AValue v /\ is_floor m key v) /\ m' = m
  | Successor key => (exists v, a = AValue v /\ is_ceil m key v) /\ m' = m
  | Elements => (exists vs, a = AList (if decide (m = ∅) then None else Some vs) /\ in_order m vs) /\ m' = m
  | Clear => a = ANone /\ m' = ∅
  | Size => a = ASize (s32 (Z.of_nat (size m))) /\ m' = m
  | Empty => a = ABool (bool_decide (m = ∅)) /\ m' = m
  end.

Inductive map_ops : gmap Z Z -> list operation -> list answer -> gmap Z Z -> Prop :=
| map_ops_nil m : map_ops m [] [] m
| map_ops_cons m o a m1 ops l m2 : map_op m o a m1 -> map_ops m1 ops l m2 -> map_ops m (o :: ops) (a :: l) m2.

Lemma empty_range s m : is_range s m -> (rt_setData s =? rt_nil s) = bool_decide (m = ∅).
Proof.
  intros (t & n & HT & HB & Ho & -> & Hz & Hs)%is_range_elim. rewrite (it_root _ _ HT), (nil_test s [] t HT).
  symmetry. destruct t as [|c a k v l r]; [by apply bool_decide_eq_true|]. apply bool_decide_eq_false. intros E.
  pose proof (size_map_of _ Ho) as Hsz. rewrite E, map_size_empty in Hsz. simpl in Hsz. rewrite length_app in Hsz. simpl in Hsz. lia.
Qed.

Lemma run_op_range o s m :
  is_range s m -> exists a s' m', run_op o s = Ret (a, s') /\ map_op m o a m' /\ is_range s' m'.
Proof.
  intros HM. destruct o as [v|key|key|key| | | |]; unfold run_op; simpl.
  - destruct (insert_range s m v HM) as (s' & E & HM'). rewrite (bind_ret _ _ _ _ _ E). by eexists _, _, _.
  - destruct (remove_range s m key HM) as (s' & E & HM'). rewrite (bind_ret _ _ _ _ _ E). by eexists _, _, _.
  - destruct (precessor_range s m key HM) as (o & E & HF). rewrite (bind_ret _ _ _ _ _ E). exists (AValue o), s, m. split_and!; eauto.
  - destruct (successor_range s m key HM) as (o & E & HF). rewrite (bind_ret _ _ _ _ _ E). exists (AValue o), s, m. split_and!; eauto.
  - destruct (elements_range s m HM) as (l & E & HF). rewrite (bind_ret _ _ _ _ _ E). exists (AList (if decide (m = ∅) then None else Some l)), s, m. split_and!; eauto.
  - destruct (clear_range s m HM) as (s' & E & HM'). rewrite (bind_ret _ _ _ _ _ E). by eexists _, _, _.
  - pose proof HM as (t & n & _ & _ & _ & _ & Hz & _). exists (ASize (rt_setSize s)), s, m. split; [done|]. by rewrite Hz.
  - exists (ABool (rt_setData s =? rt_nil s)), s, m. split; [done|]. by rewrite (empty_range s m HM).
Qed.

Lemma run_ops_range ops : forall s m,
  is_range s m -> exists l s' m', run_ops ops s = Ret (l, s') /\ map_ops m ops l m' /\ is_range s' m'.
Proof.
  induction ops as [|o ops IH]; intros s m HM; simpl; [by exists [], s, m; eauto using map_ops|].
  destruct (run_op_range o s m HM) as (a & s1 & m1 & E & HO & HM1). destruct (IH s1 m1 HM1) as (l & s2 & m2 & E2 & HO2 & HM2).
  rewrite (bind_ret _ _ _ _ _ E), (bind_ret _ _ _ _ _ E2). eexists _, _, _. split; [done|]. split; [|done]. by econstructor.
Qed.

(** C13: every sequence of insertions, removals, searches, traversals and clearings
    of a new tree runs to the end and answers what a finite map from start
    addresses to ranges answers; the tree is balanced and in order after it, its
    count is the size of the map and no entry is leaked. *)
Theorem codeRangeTree_correct ops p :
  NULL < p ->
  exists l s' m', run_ops ops (codeRangeTree_new p) = Ret (l, s') /\ map_ops ∅ ops l m' /\ is_range s' m'.
Proof. intros Hp. apply run_ops_range. by apply codeRangeTree_new_range. Qed.

(** [find] returns a range exactly when one of the ranges of the tree, which do
    not overlap, covers the address, and changes nothing. *)
Theorem codeRangeTree_find_correct s m key :
  is_range s m -> disjoint_ranges m ->
  exists o, find key s = Ret (o, s) /\ forall v, o = Some v <-> m !! get_address v = Some v /\ covers v key.
Proof. apply find_range. Qed.

(** C33: a search for a key ends within 2 log2 (n + 1) + 1 rounds, with the node of
    the key's range, or null when it has none. *)
Theorem codeRangeTree_search_bound s m key :
  is_range s m -> exists p, find_loop (S (depth_bound m)) (rt_setData s) key s = Ret (p, s) /\
    match m !! key with Some v => p <> NULL /\ rd_value p s = Ret (v, s) | None => p = NULL end.
Proof. intros HM. rewrite (find_loop_bound s m key HM). by apply find_internal_range. Qed.
End Operations.

(** Ranges of eight bytes at their own addresses. *)
Definition eight_bytes : RangeOf := {| get_address := id; get_size := fun _ => 8 |}.

Definition some_ops : list operation :=
  [Insert 64; Insert 16; Insert 32; Insert 8; Remove 32; Precessor 40; Successor 9; Elements; Size; Empty].

Lemma codeRangeTree_correct_witness :
  NULL < 1 /\ exists l s' m', @run_ops eight_bytes some_ops (codeRangeTree_new 1) = Ret (l, s') /\
    @map_ops eight_bytes ∅ some_ops l m' /\ is_range s' m'.
Proof. split; [reflexivity|]. apply (@codeRangeTree_correct eight_bytes some_ops 1). reflexivity. Defined.

Example some_ops_answers :
  (r ← match @run_ops eight_bytes some_ops (codeRangeTree_new 1) with Ret (l, _) => Some l | Fault _ => None end;
   Some (drop 5 r)) = Some [AValue (Some 16); AValue (Some 16); AList (Some [8; 16; 64]); ASize 3; ABool false].
Proof. vm_compute. reflexivity. Qed.

Lemma one_range_disjoint : @disjoint_ranges eight_bytes (<[16 := 16]> ∅).
Proof.
  split.
  - intros k v. rewrite insert_empty, lookup_singleton_Some. intros [<- <-]. unfold eight_bytes, id. simpl. lia.
  - intros k1 v1 k2 v2. rewrite insert_empty, !lookup_singleton_Some. intros [<- <-] [<- <-]. lia.
Qed.

Lemma codeRangeTree_find_correct_witness :
  exists s, is_range s (<[16 := 16]> ∅) /\ exists o, @find eight_bytes 20 s = Ret (o, s) /\
    forall v, o = Some v <-> (<[16 := 16]> ∅ : gmap Z Z) !! @get_address eight_bytes v = Some v /\ @covers eight_bytes v 20.
Proof.
  destruct (@insert_range eight_bytes _ _ 16 (codeRangeTree_new_range 1 eq_refl)) as (s & _ & HM). exists s.
  split; [exact HM|]. apply (@codeRangeTree_find_correct eight_bytes s _ 20 HM one_range_disjoint).
Defined.

Lemma codeRangeTree_search_bound_witness :
  exists s, is_range s (<[16 := 16]> ∅) /\ exists p, find_loop 3 (rt_setData s) 16 s = Ret (p, s) /\
    p <> NULL /\ rd_value p s = Ret (16, s).
Proof.
  destruct (@insert_range eight_bytes _ _ 16 (codeRangeTree_new_range 1 eq_refl)) as (s & _ & HM). exists s.
  split; [exact HM|]. exact (codeRangeTree_search_bound s _ 16 HM).
Defined.
