(* ===== verification/RTLock.v ===== *)
(** * The runtime's spin lock: dyninstAPI_RT/src/RTthread-x86-64.c, RTcommon.c

    [dyninst_lock_t] guards the thread table and the event variables of the
    instrumentation runtime.  The module gives the lock twice: as the functions
    the rest of the runtime calls, run by one thread, and as a step relation in
    which any number of threads interleave their accesses to the two words of
    the lock. *)
From stdpp Require Import base gmap list relations.
From S2P Require Import Prelude.

(** dyninst_lock_t; thread identifiers are 64-bit words. *)
Record dyninst_lock_t : Type := mk_lock { lk_mutex : Z; lk_tid : Z }.

Definition DYNINST_INITIAL_LOCK_PID : Z := u64 (-129).
Definition DYNINST_DEAD_LOCK : Z := -2.

(** DECLARE_DYNINST_LOCK and DECLARE_TC_LOCK. *)
Definition DECLARE_DYNINST_LOCK : dyninst_lock_t := mk_lock 0 DYNINST_INITIAL_LOCK_PID.
Definition DECLARE_TC_LOCK : dyninst_lock_t := mk_lock 0 (u64 (-1)).

(** The exchange of [atomic_set]: the new word and whether it was free. *)
Definition atomic_set (val : Z) : Z * bool := (1, val =? 0).

(** [me] is dyn_pthread_self(); on a lock that another thread holds the loop
    does not end while this thread runs alone. *)
Definition tc_lock_lock (me : Z) : M dyninst_lock_t Z := fun tc =>
  if me =? lk_tid tc then Ret (DYNINST_DEAD_LOCK, tc)
  else
    let '(m, ok) := atomic_set (lk_mutex tc) in
    if (ok : bool) then Ret (0, mk_lock m me) else Fault FFuel.

Definition tc_lock_init : M dyninst_lock_t Z := fun _ => Ret (0, mk_lock 0 DYNINST_INITIAL_LOCK_PID).
Definition tc_lock_unlock : M dyninst_lock_t Z := fun _ => Ret (0, mk_lock 0 DYNINST_INITIAL_LOCK_PID).
Definition tc_lock_destroy : M dyninst_lock_t Z := fun _ => Ret (0, mk_lock 0 DYNINST_INITIAL_LOCK_PID).
Definition dyninst_init_lock : M dyninst_lock_t unit := fun _ => Ret (tt, mk_lock 0 DYNINST_INITIAL_LOCK_PID).
Definition dyninst_free_lock : M dyninst_lock_t unit := mret tt.
Definition dyninst_lock (me : Z) : M dyninst_lock_t Z := tc_lock_lock me.
Definition dyninst_unlock : M dyninst_lock_t unit := tc_lock_unlock ;; mret tt.

(** ** Interleaved threads *)

(** Where a thread is. *)
Inductive lpc : Type :=
| PIdle        (* outside *)
| PCheck       (* tc_lock_lock: about to compare tc->tid with itself *)
| PSpin        (* in the loop on atomic_set *)
| PSetTid      (* the exchange succeeded, tc->tid not yet written *)
| PHeld        (* tc_lock_lock returned 0 *)
| PRecheck     (* a second tc_lock_lock while holding the lock *)
| PStuck       (* spinning on the lock it holds itself *)
| PUnlock.     (* tc_lock_unlock: tc->tid reset, mutex not yet *)

Record lcfg : Type := mk_lcfg { c_lock : dyninst_lock_t; c_pc : gmap Z lpc }.

Definition pc_of (c : lcfg) (t : Z) : lpc := default PIdle (c_pc c !! t).
Definition goto (c : lcfg) (t : Z) (p : lpc) (l : dyninst_lock_t) : lcfg := mk_lcfg l (<[t := p]> (c_pc c)).

(** One access to the lock by the thread [t], with the value [tc_lock_lock]
    returns, if it returns. *)
Inductive lock_step : lcfg -> Z -> option Z -> lcfg -> Prop :=
| ls_call c t : pc_of c t = PIdle -> lock_step c t None (goto c t PCheck (c_lock c))
| ls_check_dead c t : pc_of c t = PCheck -> lk_tid (c_lock c) = t ->
    lock_step c t (Some DYNINST_DEAD_LOCK) (goto c t PIdle (c_lock c))
| ls_check c t : pc_of c t = PCheck -> lk_tid (c_lock c) <> t -> lock_step c t None (goto c t PSpin (c_lock c))
| ls_spin c t m ok : pc_of c t = PSpin -> atomic_set (lk_mutex (c_lock c)) = (m, ok) ->
    lock_step c t None (goto c t (if (ok : bool) then PSetTid else PSpin) (mk_lock m (lk_tid (c_lock c))))
| ls_settid c t : pc_of c t = PSetTid -> lock_step c t (Some 0) (goto c t PHeld (mk_lock (lk_mutex (c_lock c)) t))
| ls_recall c t : pc_of c t = PHeld -> lock_step c t None (goto c t PRecheck (c_lock c))
| ls_recheck_dead c t : pc_of c t = PRecheck -> lk_tid (c_lock c) = t ->
    lock_step c t (Some DYNINST_DEAD_LOCK) (goto c t PHeld (c_lock c))
| ls_recheck c t : pc_of c t = PRecheck -> lk_tid (c_lock c) <> t -> lock_step c t None (goto c t PStuck (c_lock c))
| ls_unlock_tid c t : pc_of c t = PHeld ->
    lock_step c t None (goto c t PUnlock (mk_lock (lk_mutex (c_lock c)) DYNINST_INITIAL_LOCK_PID))
| ls_unlock_mutex c t : pc_of c t = PUnlock -> lock_step c t None (goto c t PIdle (mk_lock 0 (lk_tid (c_lock c)))).

(** No thread has the identifier that marks a free lock. *)
Definition real_step (c c' : lcfg) : Prop :=
  exists t r, t <> DYNINST_INITIAL_LOCK_PID /\ lock_step c t r c'.

Definition owns (p : lpc) : bool :=
  match p with PSetTid | PHeld | PRecheck | PStuck | PUnlock => true | _ => false end.
Definition named (p : lpc) : bool := match p with PHeld | PRecheck => true | _ => false end.

Record lock_inv (c : lcfg) : Prop := {
  li_mutex : forall t, owns (pc_of c t) = true -> lk_mutex (c_lock c) <> 0;
  li_one : forall t u, owns (pc_of c t) = true -> owns (pc_of c u) = true -> t = u;
  li_tid : forall t, t <> DYNINST_INITIAL_LOCK_PID ->
    (lk_tid (c_lock c) = t <-> named (pc_of c t) = true);
  li_stuck : forall t, pc_of c t <> PStuck
}.

Lemma pc_of_goto_eq c t p l : pc_of (goto c t p l) t = p.
Proof. unfold pc_of, goto. simpl. by rewrite lookup_insert_eq. Qed.
Lemma pc_of_goto_ne c t p l u : u <> t -> pc_of (goto c t p l) u = pc_of c u.
Proof. intros H. unfold pc_of, goto. simpl. by rewrite lookup_insert_ne. Qed.

Ltac at_goto u t :=
  destruct (decide (u = t)) as [->|];
  [rewrite ?pc_of_goto_eq in *|repeat rewrite pc_of_goto_ne in * by done].

(** A step that leaves the owner and the two words consistent: [t] goes to [p]
    with the lock [l], the other threads stay. *)
Lemma lock_inv_goto c t p l :
  lock_inv c -> p <> PStuck -> t <> DYNINST_INITIAL_LOCK_PID ->
  (owns p = true -> lk_mutex l <> 0 /\ forall u, u <> t -> owns (pc_of c u) = false) ->
  (lk_mutex (c_lock c) <> 0 -> lk_mutex l <> 0 \/ owns (pc_of c t) = true) ->
  (lk_tid l = t <-> named p = true) ->
  (forall u, u <> t -> u <> DYNINST_INITIAL_LOCK_PID -> lk_tid l = u <-> named (pc_of c u) = true) ->
  lock_inv (goto c t p l).
Proof.
  intros [Hm H1 Ht Hs] Hp Hne Hown Hmut Htid Hoth. split.
  - intros u Hu. at_goto u t; [by apply Hown|]. simpl.
    destruct (Hmut (Hm u Hu)) as [?|Hx]; [done|]. by destruct (H1 u t Hu Hx).
  - intros u v Hu Hv. at_goto u t; at_goto v t; [done| | |by apply H1].
    + destruct (Hown Hu) as [_ Ho]. by rewrite Ho in Hv.
    + destruct (Hown Hv) as [_ Ho]. by rewrite Ho in Hu.
  - intros u Hu. at_goto u t; [done|]. by apply Hoth.
  - intros u. at_goto u t; done.
Qed.

(** The other threads own nothing when [t] does. *)
Lemma lock_inv_alone c t u : lock_inv c -> owns (pc_of c t) = true -> u <> t -> owns (pc_of c u) = false.
Proof. intros HI Ht Hu. destruct (owns (pc_of c u)) eqn:E; [|done]. by destruct Hu; eapply li_one. Qed.

Lemma lock_step_inv c t r c' : t <> DYNINST_INITIAL_LOCK_PID -> lock_step c t r c' -> lock_inv c -> lock_inv c'.
Proof.
  intros Hne Hstep HI. pose proof HI as [Hm H1 Ht Hs].
  assert (forall p, owns p = owns (pc_of c t) -> named p = named (pc_of c t) -> p <> PStuck ->
    lock_inv (goto c t p (c_lock c))) as Hmove.
  { intros p Ho Hn Hp. apply lock_inv_goto; auto.
    - rewrite Ho. intros Hx. split; [by eapply Hm|]. intros u Hu. by eapply lock_inv_alone.
    - rewrite Hn. by apply Ht. }
  destruct Hstep as [c t Hp|c t Hp Hd|c t Hp Hd|c t m ok Hp Hx|c t Hp|c t Hp|c t Hp Hd|c t Hp Hd|c t Hp|c t Hp].
  - by apply Hmove; rewrite ?Hp.
  - by apply Hmove; rewrite ?Hp.
  - by apply Hmove; rewrite ?Hp.
  - injection Hx as <- <-. apply lock_inv_goto; try done; simpl.
    + by destruct (_ =? 0).
    + intros Hown. split; [done|]. intros u Hu. destruct (owns (pc_of c u)) eqn:Eu; [|done].
      apply Hm in Eu. destruct (lk_mutex (c_lock c) =? 0) eqn:E; [by zbool|done].
    + by left.
    + rewrite Ht, Hp by done. by destruct (_ =? 0).
    + intros u Hu Hu'. by apply Ht.
  - apply lock_inv_goto; try done; simpl.
    + intros _. split; [apply (Hm t); by rewrite Hp|]. intros u Hu. eapply lock_inv_alone; [done|by rewrite Hp|done].
    + intros. by left.
    + intros u Hu Hu'. pose proof (lock_inv_alone c t u HI ltac:(by rewrite Hp) Hu) as Ho.
      split; [congruence|]. by destruct (pc_of c u).
  - by apply Hmove; rewrite ?Hp.
  - by apply Hmove; rewrite ?Hp.
  - destruct Hd. apply Ht; [done|]. by rewrite Hp.
  - apply lock_inv_goto; try done; simpl.
    + intros _. split; [apply (Hm t); by rewrite Hp|]. intros u Hu. eapply lock_inv_alone; [done|by rewrite Hp|done].
    + intros. by left.
    + intros u Hu Hu'. split; [congruence|]. intros Hn. apply Ht in Hn; [|done].
      assert (lk_tid (c_lock c) = t) by (apply Ht; [done|by rewrite Hp]). congruence.
  - apply lock_inv_goto; try done; simpl.
    + intros _. right. by rewrite Hp.
    + rewrite Ht, Hp by done. done.
    + intros u Hu Hu'. by apply Ht.
Qed.

Definition lock_start : lcfg := mk_lcfg DECLARE_DYNINST_LOCK ∅.

Lemma lock_start_inv : lock_inv lock_start.
Proof.
  split; unfold pc_of; simpl; done.
Qed.

Lemma lock_reachable_inv c : rtc real_step lock_start c -> lock_inv c.
Proof.
  intros H. remember lock_start as c0 eqn:E0. assert (lock_inv c0) as H0 by (subst; apply lock_start_inv).
  clear E0. induction H as [|c1 c2 c3 (t & r & Hne & Hs) _ IH]; [done|]. apply IH. by eapply lock_step_inv.
Qed.

(** C29: the runtime's lock under any interleaving of any number of threads:
    at most one thread is between the acquisition and the release; DEAD_LOCK is
    returned exactly to a thread that already holds the lock, so a thread never
    spins on its own lock, and a first acquisition is never refused. *)
Theorem lock_mutual_exclusion c :
  rtc real_step lock_start c ->
  (forall t u, owns (pc_of c t) = true -> owns (pc_of c u) = true -> t = u) /\
  (forall t r c', t <> DYNINST_INITIAL_LOCK_PID -> lock_step c t r c' ->
    (r = Some DYNINST_DEAD_LOCK <-> pc_of c t = PRecheck) /\ pc_of c' t <> PStuck).
Proof.
  intros H. apply lock_reachable_inv in H as HI. split; [apply HI|]. intros t r c' Hne Hs.
  split; [|by apply (li_stuck _ (lock_step_inv _ _ _ _ Hne Hs HI))].
  pose proof (li_tid _ HI t Hne) as Ht.
  destruct Hs as [c t Hp|c t Hp Hd|c t Hp Hd|c t m ok Hp Hx|c t Hp|c t Hp|c t Hp Hd|c t Hp Hd|c t Hp|c t Hp];
    rewrite Hp in *; (split; [|try done]); try done.
  - apply Ht in Hd. done.
  - destruct Hd. by apply Ht.
Qed.

(** ** Progress *)
Definition has_owner (c : lcfg) : Prop := exists u, u <> DYNINST_INITIAL_LOCK_PID /\ owns (pc_of c u) = true.

Lemma has_owner_goto c t p l : (owns (pc_of c t) = true -> owns p = true) -> has_owner c -> has_owner (goto c t p l).
Proof. intros Ht (u & Hu & Ho). exists u. split; [done|]. at_goto u t; auto. Qed.

(** A taken lock has an owner. *)
Lemma lock_step_owner c t r c' :
  t <> DYNINST_INITIAL_LOCK_PID -> lock_step c t r c' ->
  (lk_mutex (c_lock c) <> 0 -> has_owner c) -> lk_mutex (c_lock c') <> 0 -> has_owner c'.
Proof.
  intros Hne Hs HO Hm.
  destruct Hs as [c t Hp|c t Hp Hd|c t Hp Hd|c t m ok Hp Hx|c t Hp|c t Hp|c t Hp Hd|c t Hp Hd|c t Hp|c t Hp];
    simpl in Hm; try (apply has_owner_goto; [by rewrite Hp|auto]; fail).
  - injection Hx as <- <-. destruct (lk_mutex (c_lock c) =? 0) eqn:E; zbool.
    + exists t. split; [done|]. by rewrite pc_of_goto_eq.
    + apply has_owner_goto; [by rewrite Hp|auto].
Qed.

Lemma lock_reachable_owner c : rtc real_step lock_start c -> lk_mutex (c_lock c) <> 0 -> has_owner c.
Proof.
  intros H. remember lock_start as c0 eqn:E0.
  assert (lk_mutex (c_lock c0) <> 0 -> has_owner c0) as H0 by (by subst). clear E0.
  induction H as [|c1 c2 c3 (t & r & Hne & Hs) _ IH]; [done|]. apply IH. by eapply lock_step_owner.
Qed.

(** Within [n] steps of [t] alone, the lock becomes as [P] says. *)
Definition reaches (n : nat) (c : lcfg) (t : Z) (P : lcfg -> Prop) : Prop :=
  exists c', bsteps real_step n c c' /\ lock_inv c' /\ P c' /\ forall u, u <> t -> pc_of c' u = pc_of c u.

Lemma reaches_step n c t r p l P :
  lock_inv c -> t <> DYNINST_INITIAL_LOCK_PID -> lock_step c t r (goto c t p l) ->
  (lock_inv (goto c t p l) -> pc_of (goto c t p l) t = p -> reaches n (goto c t p l) t P) -> reaches (S n) c t P.
Proof.
  intros HI Hne Hs Hr. destruct Hr as (c' & Hb & HI' & HP & Ho); [by eapply lock_step_inv|apply pc_of_goto_eq|].
  exists c'. split; [eapply bsteps_l; [by exists t, r|done]|]. split_and!; try done.
  intros u Hu. rewrite Ho by done. by apply pc_of_goto_ne.
Qed.

Lemma reaches_weaken n m c t P : (n <= m)%nat -> reaches n c t P -> reaches m c t P.
Proof. intros Hnm (c' & Hb & H). exists c'. split; [by eapply bsteps_weaken|done]. Qed.

Definition lock_free (c : lcfg) : Prop :=
  lk_mutex (c_lock c) = 0 /\ lk_tid (c_lock c) = DYNINST_INITIAL_LOCK_PID.

(** Nobody is named while the lock is between its two stores of the release. *)
Lemma unlocking_unnamed c t :
  lock_inv c -> pc_of c t = PUnlock -> lk_tid (c_lock c) = DYNINST_INITIAL_LOCK_PID.
Proof.
  intros HI Hp. destruct (decide (lk_tid (c_lock c) = DYNINST_INITIAL_LOCK_PID)) as [|Hne]; [done|]. exfalso.
  assert (named (pc_of c (lk_tid (c_lock c))) = true) as Hn by (by apply (li_tid _ HI)).
  assert (owns (pc_of c (lk_tid (c_lock c))) = true) as Ho by (by destruct (pc_of c (lk_tid (c_lock c)))).
  pose proof (li_one _ HI _ t Ho ltac:(by rewrite Hp)) as Et. rewrite Et, Hp in Hn. done.
Qed.

Lemma unlocked_free c : lock_inv c -> lk_mutex (c_lock c) = 0 -> lock_free c.
Proof.
  intros HI H0. split; [done|]. destruct (decide (lk_tid (c_lock c) = DYNINST_INITIAL_LOCK_PID)) as [|Hne]; [done|].
  assert (named (pc_of c (lk_tid (c_lock c))) = true) as Hn by (by apply (li_tid _ HI)).
  destruct (li_mutex _ HI (lk_tid (c_lock c))); [by destruct (pc_of c (lk_tid (c_lock c)))|done].
Qed.

(** The owner can always release the lock, in at most three steps of its own. *)
Lemma owner_releases c o :
  lock_inv c -> o <> DYNINST_INITIAL_LOCK_PID -> owns (pc_of c o) = true -> reaches 3 c o lock_free.
Proof.
  intros HI Ho Hown.
  assert (forall c, lock_inv c -> pc_of c o = PUnlock -> reaches 1 c o lock_free) as Hun.
  { intros c1 HI1 Hp1. eapply reaches_step; [done|done|by apply ls_unlock_mutex|]. intros HI2 _.
    eexists. split; [apply bsteps_refl|]. split_and!; try done. split; [done|]. by apply (unlocking_unnamed c1 o). }
  assert (forall c, lock_inv c -> pc_of c o = PHeld -> reaches 2 c o lock_free) as Hheld.
  { intros c1 HI1 Hp1. eapply reaches_step; [done|done|by apply ls_unlock_tid|auto]. }
  destruct (pc_of c o) eqn:Hp; try done.
  - eapply reaches_step; [done|done|by apply ls_settid|auto].
  - eapply reaches_weaken; [|by apply Hheld]. lia.
  - eapply reaches_step; [done|done|apply ls_recheck_dead; [done|]|auto]. apply (li_tid _ HI); [done|by rewrite Hp].
  - by destruct (li_stuck _ HI o).
  - eapply reaches_weaken; [|by apply Hun]. lia.
Qed.

(** A waiting thread takes a free lock, in at most three steps of its own. *)
Lemma waiter_acquires c t :
  lock_inv c -> t <> DYNINST_INITIAL_LOCK_PID -> pc_of c t = PCheck \/ pc_of c t = PSpin -> lock_free c ->
  reaches 3 c t (fun c' => pc_of c' t = PHeld).
Proof.
  intros HI Hne Hp [Hm Ht].
  assert (forall c, lock_inv c -> pc_of c t = PSpin -> lk_mutex (c_lock c) = 0 -> reaches 2 c t (fun c' => pc_of c' t = PHeld)) as Hspin.
  { intros c1 HI1 Hp1 Hm1. eapply reaches_step; [done|done|by apply (ls_spin c1 t 1 true); [|unfold atomic_set; rewrite Hm1]|].
    intros HI2 Hp2. eapply reaches_step; [done|done|by apply ls_settid|]. intros HI3 Hp3.
    eexists. by split; [apply bsteps_refl|]. }
  destruct Hp as [Hp|Hp]; [|eapply reaches_weaken; [|by apply Hspin]; lia].
  eapply reaches_step; [done|done|apply ls_check; [done|congruence]|auto].
Qed.

(** C30: no deadlock.  From every reachable configuration, every thread that has
    called tc_lock_lock can come to hold the lock in at most six steps: at most
    three of the thread that owns it, if there is one, and three of its own, with
    no other thread moving. *)
Theorem lock_progress c t :
  rtc real_step lock_start c -> t <> DYNINST_INITIAL_LOCK_PID -> pc_of c t = PCheck \/ pc_of c t = PSpin ->
  exists c', bsteps real_step 6 c c' /\ pc_of c' t = PHeld /\
    forall u, u <> t -> owns (pc_of c u) = false -> pc_of c' u = pc_of c u.
Proof.
  intros Hr Hne Hp. pose proof (lock_reachable_inv c Hr) as HI. pose proof (lock_reachable_owner c Hr) as HO.
  destruct (decide (lk_mutex (c_lock c) = 0)) as [H0|H0].
  - destruct (waiter_acquires c t HI Hne Hp (unlocked_free c HI H0)) as (c' & Hb & _ & Hh & Ho).
    exists c'. split; [eapply bsteps_weaken; [|exact Hb]; lia|]. auto.
  - destruct (HO H0) as (o & Hno & Hown). destruct (owner_releases c o HI Hno Hown) as (c1 & Hb1 & HI1 & Hf & Ho1).
    assert (t <> o) as Hto by (intros ->; by destruct Hp as [Hp|Hp]; rewrite Hp in Hown).
    destruct (waiter_acquires c1 t HI1 Hne) as (c' & Hb2 & _ & Hh & Ho2); [by rewrite Ho1|done|].
    exists c'. split; [exact (bsteps_trans 3 3 _ _ _ Hb1 Hb2)|]. split; [done|]. intros u Hu Huo.
    rewrite Ho2, Ho1; [done|congruence|done].
Qed.

Lemma lock_mutual_exclusion_witness :
  exists c, rtc real_step lock_start c /\ pc_of c 7 = PHeld /\
    (forall t u, owns (pc_of c t) = true -> owns (pc_of c u) = true -> t = u).
Proof.
  assert (rtc real_step lock_start (goto (goto (goto (goto lock_start 7 PCheck DECLARE_DYNINST_LOCK) 7 PSpin
    DECLARE_DYNINST_LOCK) 7 PSetTid (mk_lock 1 DYNINST_INITIAL_LOCK_PID)) 7 PHeld (mk_lock 1 7))) as H.
  { eapply rtc_l; [exists 7, None; split; [vm_compute; discriminate|by apply ls_call]|].
    eapply rtc_l; [exists 7, None; split; [vm_compute; discriminate|apply ls_check; [reflexivity|vm_compute; discriminate]]|].
    eapply rtc_l; [exists 7, None; split; [vm_compute; discriminate|by apply (ls_spin _ 7 1 true)]|].
    eapply rtc_l; [exists 7, (Some 0); split; [vm_compute; discriminate|by apply ls_settid]|]. apply rtc_refl. }
  eexists. split; [exact H|]. split; [reflexivity|]. exact (proj1 (lock_mutual_exclusion _ H)).
Defined.

Lemma lock_progress_witness :
  exists c c', rtc real_step lock_start c /\ pc_of c 7 = PSetTid /\ bsteps real_step 6 c c' /\ pc_of c' 9 = PHeld.
Proof.
  set (l := mk_lock 1 DYNINST_INITIAL_LOCK_PID).
  assert (rtc real_step lock_start (goto (goto (goto (goto lock_start 9 PCheck DECLARE_DYNINST_LOCK) 7 PCheck
    DECLARE_DYNINST_LOCK) 7 PSpin DECLARE_DYNINST_LOCK) 7 PSetTid l)) as H.
  { eapply rtc_l; [exists 9, None; split; [vm_compute; discriminate|by apply ls_call]|].
    eapply rtc_l; [exists 7, None; split; [vm_compute; discriminate|by apply ls_call]|].
    eapply rtc_l; [exists 7, None; split; [vm_compute; discriminate|apply ls_check; [reflexivity|vm_compute; discriminate]]|].
    eapply rtc_l; [exists 7, None; split; [vm_compute; discriminate|by apply (ls_spin _ 7 1 true)]|]. apply rtc_refl. }
  destruct (lock_progress _ 9 H) as (c' & Hb & Hh & _); [vm_compute; discriminate|left; reflexivity|].
  eexists _, c'. split; [exact H|]. split; [reflexivity|]. split; [exact Hb|exact Hh].
Defined.
