(* ===== verification/RTThread.v ===== *)
(** * The thread table of the runtime: dyninstAPI_RT/src/RTthread.c

    An open-addressing hash table from thread identifiers to thread indices,
    split over two arrays.  A slot is live when its index is not IDX_NONE; a
    lookup goes round the whole table, so an entry is found wherever its
    registration left it. *)
From stdpp Require Import base gmap list list_numbers.
From S2P Require Import Prelude ListHead RTLock.

Definition MAX_THREADS : Z := 32.
Definition THREADS_HASH_SIZE : Z := 40.
Definition IDX_NONE : Z := -1.
Definition DYNINST_NOT_IN_HASHTABLE : Z := u32 (-1).
Definition DYNINST_SINGLETHREADED : Z := u64 (-128).

Record htab : Type := mk_htab {
  ht_tids : list Z;
  ht_indices : list Z;
  ht_size : Z;
  ht_max : Z;               (* DYNINST_max_num_threads *)
  ht_num_free : Z;
  ht_init_done : bool;
  ht_lock : dyninst_lock_t  (* DYNINST_index_lock *)
}.

#[global] Instance htab_lock : Embed htab dyninst_lock_t := {|
  eget := ht_lock;
  eput := fun l h => mk_htab (ht_tids h) (ht_indices h) (ht_size h) (ht_max h) (ht_num_free h) (ht_init_done h) l
|}.

Definition DYNINSTthreadCount : M htab Z := gets (fun h => s32 (ht_max h - ht_num_free h)).

(** The arrays from malloc() hold [junk]; the static ones hold zeros. *)
Definition DYNINST_initialize_index_list (malloc_ok : bool) (junk : nat -> Z) : M htab unit := fun h =>
  if ht_init_done h then Ret (tt, h) else
  let max := if ht_max h =? 0 then MAX_THREADS else ht_max h in
  let dflt := max =? MAX_THREADS in
  let size := if dflt then THREADS_HASH_SIZE else s32 (max * 5 / 4) in
  if negb (dflt || malloc_ok) then Fault FAssert else
  let tids := if dflt then replicate (Z.to_nat size) 0 else map junk (seq 0 (Z.to_nat size)) in
  Ret (tt, mk_htab tids (replicate (Z.to_nat size) IDX_NONE) size max max true (ht_lock h)).

(** The loop the three operations share: from [hash_id], one slot after the
    other with wrap-around, until the test holds or [orig] is reached again.
    [n] bounds the rounds. *)
Fixpoint probe_loop (n : nat) (size orig hash_id : Z) (test : Z -> option bool) : res (option Z) :=
  match n with
  | O => Fault FFuel
  | S n' =>
      match test hash_id with
      | None => Fault FBounds
      | Some true => Ret (Some hash_id)
      | Some false =>
          let hash_id := hash_id + 1 in
          let hash_id := if hash_id =? size then 0 else hash_id in
          if orig =? hash_id then Ret None else probe_loop n' size orig hash_id test
      end
  end.

(** One round per slot is enough. *)
Definition probe (h : htab) (tid_val : Z) (test : Z -> option bool) : res (option Z) :=
  if ht_size h =? 0 then Fault FAbort else   (* division by zero *)
  let hash_id := u32 (tid_val mod ht_size h) in
  probe_loop (Z.to_nat (ht_size h)) (ht_size h) hash_id hash_id test.

Definition at_slot {A} (l : list A) (i : Z) : option A := if i <? 0 then None else l !! Z.to_nat i.

(** The slot is live and holds [tid]; [index] is an int. *)
Definition is_entry (h : htab) (tid hash_id : Z) : option bool :=
  index ← at_slot (ht_indices h) hash_id ;
  t ← at_slot (ht_tids h) hash_id ;
  Some (negb (s32 index =? IDX_NONE) && (t =? tid)).
Definition is_free (h : htab) (hash_id : Z) : option bool :=
  index ← at_slot (ht_indices h) hash_id ; Some (index =? IDX_NONE).
Definition holds_tid (h : htab) (tid hash_id : Z) : option bool :=
  t ← at_slot (ht_tids h) hash_id ; Some (t =? tid).

Definition lock_index (me : Z) : M htab Z := lift (tc_lock_lock me).
Definition unlock_index : M htab unit := lift tc_lock_unlock ;; mret tt.

(** [me] is the calling thread. *)
Definition DYNINSTthreadIndexSLOW (me tid : Z) : M htab Z :=
  result ← lock_index me ;
  if result =? DYNINST_DEAD_LOCK then gets ht_max else
  h ← get ;
  if ht_size h =? 0 then unlock_index ;; gets ht_max else
  match probe h tid (is_entry h tid) with
  | Fault e => fail e
  | Ret None => unlock_index ;; mret DYNINST_NOT_IN_HASHTABLE
  | Ret (Some i) => unlock_index ;; mret (u32 (s32 (default 0 (at_slot (ht_indices h) i))))
  end.

Definition set_slot (h : htab) (i index : Z) (tid : option Z) (num_free : Z) : htab :=
  mk_htab (match tid with Some t => <[Z.to_nat i := t]> (ht_tids h) | None => ht_tids h end)
    (<[Z.to_nat i := index]> (ht_indices h)) (ht_size h) (ht_max h) num_free (ht_init_done h) (ht_lock h).

(** The hash is taken from the calling thread, the slot gets [tid]. *)
Definition DYNINSTregisterThread (me tid index : Z) : M htab Z :=
  if me =? 0 then fail FAssert else
  result ← lock_index me ;
  if result =? DYNINST_DEAD_LOCK then mret 0 else
  h ← get ;
  match probe h me (is_free h) with
  | Fault e => fail e
  | Ret None => unlock_index ;; mret 0
  | Ret (Some i) => put (set_slot h i index (Some tid) (s32 (ht_num_free h - 1))) ;; unlock_index ;; mret me
  end.

(** [tid_val] is an unsigned int here. *)
Definition DYNINSTunregisterThread (me tid : Z) : M htab Z :=
  result ← lock_index me ;
  if result =? DYNINST_DEAD_LOCK then mret 0 else
  h ← get ;
  match probe h (u32 tid) (holds_tid h tid) with
  | Fault e => fail e
  | Ret None => unlock_index ;; mret 0
  | Ret (Some i) => put (set_slot h i IDX_NONE None (s32 (ht_num_free h + 1))) ;; unlock_index ;; mret 1
  end.

Definition DYNINSTthreadIndex (initialized : bool) (me : Z) : M htab Z :=
  if negb initialized then mret 0 else
  if me =? DYNINST_SINGLETHREADED then mret 0 else
  curr_index ← DYNINSTthreadIndexSLOW me me ;
  max ← gets ht_max ;
  mret (s32 (if curr_index =? DYNINST_NOT_IN_HASHTABLE then max else curr_index)).

Definition dyninst_threadIndex (initialized : bool) (me : Z) : M htab Z :=
  r ← DYNINSTthreadIndex initialized me ; mret (u32 r).

(** ** The table as a finite map *)

Lemma at_slot_nat {A} (l : list A) (k : nat) : at_slot l (Z.of_nat k) = l !! k.
Proof. unfold at_slot. by rewrite (proj2 (Z.ltb_ge _ _)), Nat2Z.id by lia. Qed.

(** Going round from [orig], the loop has seen the slots [orig], ..., [orig + k - 1]. *)
Lemma probe_loop_spec size orig test n k :
  0 <= orig < size -> (forall i, 0 <= i < size -> is_Some (test i)) ->
  0 <= k -> k + Z.of_nat n = size -> (0 < n)%nat ->
  (forall j, 0 <= j < k -> test ((orig + j) mod size) = Some false) ->
  exists r, probe_loop n size orig ((orig + k) mod size) test = Ret r /\
    match r with
    | Some i => 0 <= i < size /\ test i = Some true
    | None => forall i, 0 <= i < size -> test i = Some false
    end.
Proof.
  intros Ho Htest. revert k. induction n as [|n IH]; intros k Hk Hsum Hn Hseen; [lia|]. simpl.
  pose proof (Z.mod_pos_bound (orig + k) size ltac:(lia)) as Hb.
  destruct (Htest _ Hb) as [[|] Et]; rewrite Et; [by exists (Some ((orig + k) mod size))|].
  assert ((if (orig + k) mod size + 1 =? size then 0 else (orig + k) mod size + 1) = (orig + (k + 1)) mod size) as Hnext.
  { rewrite Z.add_assoc, <- (Zplus_mod_idemp_l (orig + k) 1). destruct (_ =? size) eqn:E; zbool.
    - rewrite E. by rewrite Z_mod_same_full.
    - rewrite (Z.mod_small ((orig + k) mod size + 1)); lia. }
  rewrite Hnext.
  assert (forall j, 0 <= j < k + 1 -> test ((orig + j) mod size) = Some false) as Hseen'.
  { intros j Hj. destruct (decide (j = k)) as [->|]; [done|apply Hseen; lia]. }
  destruct (orig =? (orig + (k + 1)) mod size) eqn:E; zbool.
  - assert (k + 1 = size) as Hfull.
    { destruct (decide (k + 1 = size)) as [|Hne]; [done|]. exfalso.
      destruct (decide (orig + (k + 1) < size)); [rewrite Z.mod_small in E; lia|].
      replace (orig + (k + 1)) with ((orig + (k + 1) - size) + 1 * size) in E by lia.
      rewrite Z_mod_plus_full, Z.mod_small in E; lia. }
    exists None. split; [done|]. intros i Hi. specialize (Hseen' ((i - orig) mod size)).
    rewrite Zplus_mod_idemp_r in Hseen'. replace (orig + (i - orig)) with i in Hseen' by lia.
    rewrite (Z.mod_small i) in Hseen' by lia. apply Hseen'. rewrite Hfull. apply Z.mod_pos_bound. lia.
  - apply IH; [lia|lia| |done]. destruct n; [|lia]. exfalso.
    replace (orig + (k + 1)) with (orig + 1 * size) in E by lia.
    rewrite Z_mod_plus_full, Z.mod_small in E; lia.
Qed.

(** A live slot, and what the table maps [tid] to. *)
Definition live (h : htab) (k : nat) (tid index : Z) : Prop :=
  ht_tids h !! k = Some tid /\ ht_indices h !! k = Some index /\ index <> IDX_NONE.
Definition maps (h : htab) (tid index : Z) : Prop := exists k, live h k tid index.

Record htab_ok (h : htab) : Prop := {
  ok_size : 0 < ht_size h < 2 ^ 31;
  ok_tids : length (ht_tids h) = Z.to_nat (ht_size h);
  ok_indices : length (ht_indices h) = Z.to_nat (ht_size h);
  ok_free : lk_mutex (ht_lock h) = 0;
  ok_range : forall k i, ht_indices h !! k = Some i -> i = IDX_NONE \/ 0 <= i < 2 ^ 31;
  ok_once : forall k k' t i i', live h k t i -> live h k' t i' -> k = k'
}.

(** The finite map the table stands for. *)
Definition represents (h : htab) (m : gmap Z Z) : Prop := forall t i, m !! t = Some i <-> maps h t i.

Definition with_lock (h : htab) (l : dyninst_lock_t) : htab := eput l h.
Definition unlocked (h : htab) : htab := with_lock h (mk_lock 0 DYNINST_INITIAL_LOCK_PID).

Section Facts.
Context (h : htab) (OK : htab_ok h).

Lemma in_table {A} (l : list A) i : length l = Z.to_nat (ht_size h) -> 0 <= i < ht_size h ->
  exists x, at_slot l i = Some x /\ l !! Z.to_nat i = Some x.
Proof.
  intros Hl Hi. destruct (lookup_lt_is_Some_2 l (Z.to_nat i)) as [x Hx]; [lia|]. exists x. split; [|done].
  unfold at_slot. by rewrite (proj2 (Z.ltb_ge _ _)) by lia.
Qed.

Lemma probe_spec v test :
  0 <= v -> (forall i, 0 <= i < ht_size h -> is_Some (test i)) ->
  exists r, probe h v test = Ret r /\
    match r with
    | Some i => 0 <= i < ht_size h /\ test i = Some true
    | None => forall i, 0 <= i < ht_size h -> test i = Some false
    end.
Proof.
  intros Hv Htest. pose proof (ok_size _ OK) as Hs. unfold probe.
  rewrite (proj2 (Z.eqb_neq _ 0)) by lia.
  pose proof (Z.mod_pos_bound v (ht_size h) ltac:(lia)) as Hb.
  rewrite (uwrap_id 32) by (unfold urange; lia).
  destruct (probe_loop_spec (ht_size h) (v mod ht_size h) test (Z.to_nat (ht_size h)) 0) as (r & E & Hr);
    [done|done|lia|lia|lia|intros j Hj; lia|].
  rewrite Z.add_0_r, Z.mod_mod in E by lia. eauto.
Qed.

Lemma lock_run me : me <> lk_tid (ht_lock h) -> lock_index me h = Ret (0, with_lock h (mk_lock 1 me)).
Proof.
  intros Hme. unfold lock_index, lift, tc_lock_lock, atomic_set. simpl eget.
  by rewrite (proj2 (Z.eqb_neq _ _) Hme), (ok_free _ OK).
Qed.

(** The tests, on the table under the lock. *)
Lemma is_entry_spec l tid i : 0 <= i < ht_size h ->
  exists b, is_entry (with_lock h l) tid i = Some b /\ (b = true <-> exists x, live h (Z.to_nat i) tid x).
Proof.
  intros Hi. destruct (in_table (ht_indices h) i (ok_indices _ OK) Hi) as (x & Ex & Ex').
  destruct (in_table (ht_tids h) i (ok_tids _ OK) Hi) as (t & Et & Et').
  unfold is_entry. simpl. rewrite Ex. simpl. rewrite Et. simpl. eexists. split; [done|].
  assert (s32 x = x) as ->.
  { apply swrap_id; [lia|]. destruct (ok_range _ OK _ _ Ex') as [->|?]; unfold srange, IDX_NONE; lia. }
  rewrite andb_true_iff, negb_true_iff, Z.eqb_neq, Z.eqb_eq. unfold live. rewrite Ex', Et'. split.
  - intros [? ->]. exists x. by split_and!.
  - intros (y & [= ->] & [= <-] & ?). done.
Qed.

Lemma is_free_spec l i : 0 <= i < ht_size h ->
  exists b, is_free (with_lock h l) i = Some b /\ (b = true <-> ht_indices h !! Z.to_nat i = Some IDX_NONE).
Proof.
  intros Hi. destruct (in_table (ht_indices h) i (ok_indices _ OK) Hi) as (x & Ex & Ex').
  unfold is_free. simpl. rewrite Ex. simpl. eexists. split; [done|]. rewrite Z.eqb_eq, Ex'. naive_solver.
Qed.

Lemma holds_tid_spec l tid i : 0 <= i < ht_size h ->
  exists b, holds_tid (with_lock h l) tid i = Some b /\ (b = true <-> ht_tids h !! Z.to_nat i = Some tid).
Proof.
  intros Hi. destruct (in_table (ht_tids h) i (ok_tids _ OK) Hi) as (x & Ex & Ex').
  unfold holds_tid. simpl. rewrite Ex. simpl. eexists. split; [done|]. rewrite Z.eqb_eq, Ex'. naive_solver.
Qed.

Lemma live_slot k t i : live h k t i -> 0 <= Z.of_nat k < ht_size h.
Proof. intros (Hk & _). apply lookup_lt_Some in Hk. rewrite (ok_tids _ OK) in Hk. lia. Qed.

Lemma lookup_run me tid m :
  represents h m -> me <> lk_tid (ht_lock h) -> 0 <= tid ->
  DYNINSTthreadIndexSLOW me tid h = Ret (default DYNINST_NOT_IN_HASHTABLE (m !! tid), unlocked h).
Proof.
  intros Hm Hme Htid. unfold DYNINSTthreadIndexSLOW. rewrite (bind_ret _ _ _ _ _ (lock_run me Hme)).
  change (0 =? DYNINST_DEAD_LOCK) with false. cbv iota. erewrite bind_ret by reflexivity.
  set (h1 := with_lock h _). change (ht_size h1) with (ht_size h). pose proof (ok_size _ OK) as Hs.
  rewrite (proj2 (Z.eqb_neq _ 0)) by lia.
  destruct (probe_spec tid (is_entry h1 tid) Htid) as (r & E & Hr).
  { intros i Hi. destruct (is_entry_spec (mk_lock 1 me) tid i Hi) as (b & Eb & _). eauto. }
  change (probe h1) with (probe h). rewrite E. destruct r as [i|].
  - destruct Hr as [Hi Et]. destruct (is_entry_spec (mk_lock 1 me) tid i Hi) as (b & Eb & Hb).
    fold h1 in Eb. rewrite Eb in Et. injection Et as ->. destruct (proj1 Hb eq_refl) as (x & Hl).
    assert (m !! tid = Some x) as -> by (apply Hm; eexists; exact Hl). destruct Hl as (_ & Hx & Hne).
    erewrite bind_ret by reflexivity. unfold at_slot. rewrite (proj2 (Z.ltb_ge _ _)) by lia.
    change (ht_indices h1) with (ht_indices h). rewrite Hx. simpl default.
    destruct (ok_range _ OK _ _ Hx) as [|Hrg]; [done|].
    rewrite swrap_id, uwrap_id by (unfold urange, srange; lia). done.
  - assert (m !! tid = None) as ->; [|by erewrite bind_ret by reflexivity].
    destruct (m !! tid) as [x|] eqn:Ex; [|done]. apply Hm in Ex as [k Hl]. exfalso.
    pose proof (live_slot _ _ _ Hl) as Hk. pose proof (Hr _ Hk) as Hf.
    destruct (is_entry_spec (mk_lock 1 me) tid _ Hk) as (b & Eb & Hb). fold h1 in Eb. rewrite Eb in Hf. injection Hf as ->.
    rewrite Nat2Z.id in Hb. by assert (false = true) by (apply Hb; eauto).
Qed.
End Facts.

(** *** Registration *)
Section Update.
Context (h : htab) (OK : htab_ok h) (m : gmap Z Z) (Hm : represents h m).

(** Filling a free slot with an identifier that is not live. *)
Lemma fill_slot k tid index nf l :
  (k < Z.to_nat (ht_size h))%nat -> ht_indices h !! k = Some IDX_NONE -> 0 <= index < 2 ^ 31 -> m !! tid = None ->
  lk_mutex l = 0 ->
  let h' := with_lock (set_slot h (Z.of_nat k) index (Some tid) nf) l in
  htab_ok h' /\ represents h' (<[tid := index]> m).
Proof.
  intros Hk Hfree Hix Hnew Hl h'. pose proof OK as [Hs Ht Hi _ Hr Ho].
  assert (forall j t i, live h' j t i <-> (j = k /\ t = tid /\ i = index) \/ (j <> k /\ live h j t i)) as Hlive.
  { intros j t i. unfold live, h'. simpl. rewrite Nat2Z.id. destruct (decide (j = k)) as [->|Hne].
    - rewrite !list_lookup_insert_eq by lia. unfold IDX_NONE. split.
      + intros ([= <-] & [= <-] & _). by left.
      + intros [(_ & -> & ->)|[? _]]; [|done]. split_and!; [done..|lia].
    - rewrite !list_lookup_insert_ne by done. naive_solver. }
  assert (forall j i, ~ live h j tid i) as Hnot.
  { intros j i Hj. assert (m !! tid = Some i) by (apply Hm; by exists j). congruence. }
  split.
  - split; simpl; try done; rewrite ?length_insert; try done.
    + intros j i Hj. rewrite Nat2Z.id in Hj. destruct (decide (j = k)) as [->|];
        [rewrite list_lookup_insert_eq in Hj by lia; injection Hj as <-; lia|].
      rewrite list_lookup_insert_ne in Hj by done. eauto.
    + intros j j' t i i' H1%Hlive H2%Hlive.
      destruct H1 as [(-> & H1 & _)|[_ HL]], H2 as [(-> & H2 & _)|[_ HL']]; try done.
      * subst t. by destruct (Hnot _ _ HL').
      * subst t. by destruct (Hnot _ _ HL).
      * by eapply Ho.
  - intros t i. destruct (decide (t = tid)) as [->|Hne].
    + rewrite lookup_insert_eq. split.
      * intros [= <-]. exists k. apply Hlive. by left.
      * intros [j [(_ & _ & ->)|[_ HL]]%Hlive]; [done|]. by destruct (Hnot _ _ HL).
    + rewrite lookup_insert_ne by done. rewrite (Hm t i). split.
      * intros [j HL]. exists j. apply Hlive. right. split; [|done]. intros ->.
        destruct HL as (_ & HL & ?). congruence.
      * intros [j [(_ & ? & _)|[_ HL]]%Hlive]; [done|]. by exists j.
Qed.

(** Clearing the slot of a live identifier. *)
Lemma clear_slot k tid i nf l :
  live h k tid i -> lk_mutex l = 0 ->
  let h' := with_lock (set_slot h (Z.of_nat k) IDX_NONE None nf) l in
  htab_ok h' /\ represents h' (delete tid m).
Proof.
  intros Hk Hl h'. pose proof OK as [Hs Ht Hi _ Hr Ho].
  assert (k < Z.to_nat (ht_size h))%nat as Hlt by (destruct Hk as (Hx & _); apply lookup_lt_Some in Hx; lia).
  assert (forall j t x, live h' j t x <-> j <> k /\ live h j t x) as Hlive.
  { intros j t x. unfold live, h'. simpl. rewrite Nat2Z.id. destruct (decide (j = k)) as [->|Hne].
    - rewrite list_lookup_insert_eq by lia. split; [|by intros [? _]]. intros (_ & [= <-] & ?). done.
    - rewrite list_lookup_insert_ne by done. naive_solver. }
  split.
  - split; simpl; try done; rewrite ?length_insert; try done.
    + intros j x Hj. rewrite Nat2Z.id in Hj. destruct (decide (j = k)) as [->|];
        [rewrite list_lookup_insert_eq in Hj by lia; injection Hj as <-; by left|].
      rewrite list_lookup_insert_ne in Hj by done. eauto.
    + intros j j' t x x' [_ HL]%Hlive [_ HL']%Hlive. by eapply Ho.
  - intros t x. rewrite lookup_delete_Some, (Hm t x). split.
    + intros [Hne [j HL]]. exists j. apply Hlive. split; [|done]. intros ->.
      destruct HL as (HL & _), Hk as (Hk & _). congruence.
    + intros [j [Hne HL]%Hlive]. split; [|by exists j]. intros <-. destruct Hne. by eapply Ho.
Qed.

Lemma table_register_run me tid index :
  0 < me -> me <> lk_tid (ht_lock h) -> 0 <= index < 2 ^ 31 -> m !! tid = None ->
  exists r h', DYNINSTregisterThread me tid index h = Ret (r, h') /\ htab_ok h' /\
    ((r = me /\ represents h' (<[tid := index]> m) /\ ht_num_free h' = s32 (ht_num_free h - 1)) \/
     (r = 0 /\ h' = unlocked h /\ forall k, (k < Z.to_nat (ht_size h))%nat -> exists t i, live h k t i)).
Proof.
  intros Hme Hlk Hix Hnew. unfold DYNINSTregisterThread. rewrite (proj2 (Z.eqb_neq me 0)) by lia.
  rewrite (bind_ret _ _ _ _ _ (lock_run h OK me Hlk)). change (0 =? DYNINST_DEAD_LOCK) with false. cbv iota.
  erewrite bind_ret by reflexivity. set (h1 := with_lock h _).
  destruct (probe_spec h OK me (is_free h1)) as (r & E & Hr); [lia| |].
  { intros i Hi. destruct (is_free_spec h OK (mk_lock 1 me) i Hi) as (b & Eb & _). eauto. }
  change (probe h1) with (probe h). rewrite E. destruct r as [i|].
  - destruct Hr as [Hi Et]. destruct (is_free_spec h OK (mk_lock 1 me) i Hi) as (b & Eb & Hb).
    fold h1 in Eb. rewrite Eb in Et. injection Et as ->.
    do 2 (erewrite bind_ret by reflexivity). do 2 eexists. split; [reflexivity|].
    destruct (fill_slot (Z.to_nat i) tid index (s32 (ht_num_free h - 1)) (mk_lock 0 DYNINST_INITIAL_LOCK_PID))
      as [HOK HR]; [lia|by apply Hb|done|done|done|]. rewrite Z2Nat.id in HOK, HR by lia.
    split; [exact HOK|]. left. by split_and!.
  - do 1 (erewrite bind_ret by reflexivity). exists 0, (unlocked h). split; [reflexivity|].
    split; [destruct OK; by split|]. right. split_and!; try done. intros k Hk.
    destruct (is_free_spec h OK (mk_lock 1 me) (Z.of_nat k) ltac:(lia)) as (b & Eb & Hb). fold h1 in Eb.
    rewrite (Hr (Z.of_nat k)) in Eb by lia. injection Eb as <-. rewrite Nat2Z.id in Hb.
    destruct (lookup_lt_is_Some_2 (ht_indices h) k) as [x Hx]; [rewrite (ok_indices _ OK); lia|].
    destruct (lookup_lt_is_Some_2 (ht_tids h) k) as [t Ht]; [rewrite (ok_tids _ OK); lia|].
    exists t, x. split_and!; try done. intros ->. by assert (false = true) by (by apply Hb).
Qed.

(** No slot still carries the identifier of an entry that was removed. *)
Definition no_stale (tid : Z) : Prop := forall k, ht_tids h !! k = Some tid -> exists i, live h k tid i.

Lemma unregister_run me tid :
  0 <= tid -> me <> lk_tid (ht_lock h) ->
  exists r i, DYNINSTunregisterThread me tid h = Ret r /\
    match i with
    | Some k => r = (1, with_lock (set_slot h (Z.of_nat k) IDX_NONE None (s32 (ht_num_free h + 1)))
          (mk_lock 0 DYNINST_INITIAL_LOCK_PID)) /\ ht_tids h !! k = Some tid
    | None => r = (0, unlocked h) /\ tid ∉ ht_tids h
    end.
Proof.
  intros Htid Hlk. unfold DYNINSTunregisterThread.
  rewrite (bind_ret _ _ _ _ _ (lock_run h OK me Hlk)). change (0 =? DYNINST_DEAD_LOCK) with false. cbv iota.
  erewrite bind_ret by reflexivity. set (h1 := with_lock h _).
  destruct (probe_spec h OK (u32 tid) (holds_tid h1 tid)) as (r & E & Hr); [apply uwrap_range; lia| |].
  { intros i Hi. destruct (holds_tid_spec h OK (mk_lock 1 me) tid i Hi) as (b & Eb & _). eauto. }
  change (probe h1) with (probe h). rewrite E. destruct r as [i|].
  - destruct Hr as [Hi Et]. destruct (holds_tid_spec h OK (mk_lock 1 me) tid i Hi) as (b & Eb & Hb).
    fold h1 in Eb. rewrite Eb in Et. injection Et as ->.
    eexists. exists (Some (Z.to_nat i)). do 2 (erewrite bind_ret by reflexivity). split; [reflexivity|].
    rewrite Z2Nat.id by lia. split; [done|]. by apply Hb.
  - eexists. exists None. erewrite bind_ret by reflexivity. split; [reflexivity|]. split; [done|].
    intros (k & Hk)%list_elem_of_lookup. pose proof (lookup_lt_Some _ _ _ Hk) as Hlt. rewrite (ok_tids _ OK) in Hlt.
    destruct (holds_tid_spec h OK (mk_lock 1 me) tid (Z.of_nat k) ltac:(lia)) as (b & Eb & Hb). fold h1 in Eb.
    rewrite (Hr (Z.of_nat k)) in Eb by lia. injection Eb as <-. rewrite Nat2Z.id in Hb.
    by assert (false = true) by (by apply Hb).
Qed.
End Update.

(** C28: the thread table refines a finite map from thread identifiers to
    indices.  A lookup returns what the map holds, or NOT_IN_HASHTABLE;
    registering an unknown thread adds it, wherever probing finds room, or
    returns 0 and changes nothing when every slot is live; unregistering a
    thread whose identifier is only in live slots removes exactly its entry,
    and an unknown one is reported.  Every operation returns, leaves the lock
    free and the table well formed. *)
Theorem thread_table_refines_map h m me tid index :
  htab_ok h -> represents h m -> 0 < me -> me <> lk_tid (ht_lock h) -> 0 <= tid -> 0 <= index < 2 ^ 31 ->
  DYNINSTthreadIndexSLOW me tid h = Ret (default DYNINST_NOT_IN_HASHTABLE (m !! tid), unlocked h) /\
  (m !! tid = None -> exists r h', DYNINSTregisterThread me tid index h = Ret (r, h') /\ htab_ok h' /\
     ((r = me /\ represents h' (<[tid := index]> m)) \/
      (r = 0 /\ represents h' m /\ forall k, (k < Z.to_nat (ht_size h))%nat -> exists t i, live h k t i))) /\
  (no_stale h tid -> exists r h', DYNINSTunregisterThread me tid h = Ret (r, h') /\ htab_ok h' /\
     represents h' (delete tid m) /\ r = (if decide (is_Some (m !! tid)) then 1 else 0)).
Proof.
  intros OK Hm Hme Hlk Htid Hix. split; [by apply lookup_run|]. split.
  - intros Hnew. destruct (table_register_run h OK m Hm me tid index Hme Hlk Hix Hnew) as (r & h' & E & OK' & Hr).
    exists r, h'. split; [done|]. split; [done|]. destruct Hr as [(? & ? & _)|(? & -> & ?)]; [by left|by right].
  - intros Hst. destruct (unregister_run h OK me tid Htid Hlk) as (r & [k|] & E & Hr).
    + destruct Hr as [-> Hk]. destruct (Hst k Hk) as [i HL]. do 2 eexists. split; [exact E|].
      destruct (clear_slot h OK m Hm k tid i (s32 (ht_num_free h + 1)) (mk_lock 0 DYNINST_INITIAL_LOCK_PID) HL eq_refl)
        as [OK' HR]. split; [done|]. split; [done|]. rewrite decide_True; [done|]. exists i. apply Hm. by exists k.
    + destruct Hr as [-> Hk]. do 2 eexists. split; [exact E|].
      assert (m !! tid = None) as Hn.
      { destruct (m !! tid) as [i|] eqn:Ei; [|done]. apply Hm in Ei as (k & HL & _).
        destruct Hk. by eapply list_elem_of_lookup_2. }
      split; [destruct OK; by split|]. split; [by rewrite delete_id|]. rewrite decide_False; [done|].
      rewrite Hn. by intros [? ?].
Qed.

(** Unregistering does not look at whether the slot it finds is live, and
    leaves the identifier in it: unregistering a thread twice reports success
    twice and counts two freed entries for one thread. *)
Theorem unregister_counts_twice h m me tid i :
  htab_ok h -> represents h m -> 0 < me -> me <> lk_tid (ht_lock h) -> me <> DYNINST_INITIAL_LOCK_PID ->
  0 <= tid -> m !! tid = Some i -> - 2 ^ 31 <= ht_num_free h < 2 ^ 31 - 2 ->
  exists h1 h2, DYNINSTunregisterThread me tid h = Ret (1, h1) /\ DYNINSTunregisterThread me tid h1 = Ret (1, h2) /\
    ht_num_free h2 = ht_num_free h + 2.
Proof.
  intros OK Hm Hme Hlk Hmi Htid Hi Hnf.
  assert (tid ∈ ht_tids h) as Hin by (apply Hm in Hi as (k & HL & _); by eapply list_elem_of_lookup_2).
  assert (forall x, - 2 ^ 31 <= x < 2 ^ 31 -> s32 x = x) as Hw by (intros; apply swrap_id; unfold srange; lia).
  destruct (unregister_run h OK me tid Htid Hlk) as (r & [k|] & E & Hr); [|by destruct Hr].
  destruct Hr as [-> Hk].
  set (h1 := with_lock (set_slot h (Z.of_nat k) IDX_NONE None (s32 (ht_num_free h + 1))) (mk_lock 0 DYNINST_INITIAL_LOCK_PID)) in *.
  assert (htab_ok h1) as OK1.
  { destruct OK as [Hs Ht Hix _ Hr Ho]. split; simpl; rewrite ?length_insert; try done.
    - intros j x Hj. rewrite Nat2Z.id in Hj. destruct (decide (j = k)) as [->|].
      + rewrite list_lookup_insert_eq in Hj; [injection Hj as <-; by left|].
        apply lookup_lt_Some in Hk. lia.
      + rewrite list_lookup_insert_ne in Hj by done. eauto.
    - assert (forall j t x, live h1 j t x -> live h j t x) as Hl.
      { intros j t x (H1 & H2 & H3). split_and!; try done. simpl in H2. rewrite Nat2Z.id in H2.
        destruct (decide (j = k)) as [->|]; [|by rewrite list_lookup_insert_ne in H2].
        rewrite list_lookup_insert_eq in H2; [congruence|]. apply lookup_lt_Some in H1. simpl in H1. lia. }
      intros j j' t x x' ?%Hl ?%Hl. by eapply Ho. }
  destruct (unregister_run h1 OK1 me tid Htid Hmi) as (r & [k'|] & E' & Hr'); [|by destruct Hr'].
  destruct Hr' as [-> _]. do 2 eexists. split; [exact E|]. split; [exact E'|]. simpl. rewrite (Hw (ht_num_free h + 1)) by lia. rewrite Hw; lia.
Qed.

(** A table of the default size. *)
Definition demo_htab : htab :=
  match DYNINST_initialize_index_list true (fun _ => 0) (mk_htab [] [] 0 0 0 false DECLARE_TC_LOCK) with
  | Ret (_, h) => h
  | Fault _ => mk_htab [] [] 0 0 0 false DECLARE_TC_LOCK
  end.

Lemma demo_htab_ok : htab_ok demo_htab /\ represents demo_htab ∅.
Proof.
  assert (forall k t i, ~ live demo_htab k t i) as Hno.
  { intros k t i (_ & Hi & Hne). apply lookup_replicate in Hi as [-> _]. done. }
  split.
  - split; try done.
    + intros k i Hi. apply lookup_replicate in Hi as [-> _]. by left.
    + intros k k' t i i' H. by destruct (Hno k t i).
  - intros t i. split; [done|]. intros [k Hk]. by destruct (Hno k t i).
Qed.

Lemma thread_table_refines_map_witness :
  DYNINSTthreadIndexSLOW 7 9 demo_htab = Ret (DYNINST_NOT_IN_HASHTABLE, unlocked demo_htab) /\
  exists r h', DYNINSTregisterThread 7 9 3 demo_htab = Ret (r, h') /\ htab_ok h'.
Proof.
  destruct demo_htab_ok as [OK Hm].
  destruct (thread_table_refines_map demo_htab ∅ 7 9 3 OK Hm) as (H1 & H2 & _);
    [lia|vm_compute; discriminate|lia|lia|].
  split; [exact H1|]. destruct (H2 eq_refl) as (r & h' & E & OK' & _). exists r, h'. split; [exact E|exact OK'].
Defined.

Definition demo_htab1 : htab :=
  match DYNINSTregisterThread 7 9 3 demo_htab with Ret (_, h) => h | Fault _ => demo_htab end.

Lemma unregister_counts_twice_witness :
  exists h1 h2, DYNINSTunregisterThread 7 9 demo_htab1 = Ret (1, h1) /\
    DYNINSTunregisterThread 7 9 h1 = Ret (1, h2) /\ ht_num_free h2 = 33.
Proof.
  destruct demo_htab_ok as [OK Hm].
  destruct (table_register_run demo_htab OK ∅ Hm 7 9 3) as (r & h' & E & OK' & Hr);
    [lia|vm_compute; discriminate|lia|reflexivity|].
  assert (demo_htab1 = h') as E1 by (unfold demo_htab1; rewrite E; reflexivity).
  assert (represents demo_htab1 (<[9 := 3]> ∅)) as Hm1.
  { rewrite E1. destruct Hr as [(_ & HR & _)|(-> & _)]; [exact HR|]. exfalso. revert E. vm_compute. discriminate. }
  rewrite <- E1 in OK'.
  apply (unregister_counts_twice demo_htab1 (<[9 := 3]> ∅) 7 9 3 OK' Hm1);
    [lia|vm_compute; discriminate|vm_compute; discriminate|lia|reflexivity|vm_compute; split; discriminate || reflexivity].
Defined.
