(* ===== verification/RTCommon.v ===== *)
(** * Events, caches and searches of the runtime: dyninstAPI_RT/src/RTcommon.c

    The event variables through which the runtime reports to the mutator, the
    two-way cache of call targets, the binary searches over code ranges and over
    the trap table, and the trampoline guards. *)
From stdpp Require Import base gmap list list_numbers.
From S2P Require Import Prelude ListHead RTLock RTThread.

(** ** Events *)

Inductive DYNINST_synch_event_t : Type :=
| DSE_undefined | DSE_forkEntry | DSE_forkExit | DSE_execEntry | DSE_execExit | DSE_exitEntry
| DSE_loadLibrary | DSE_lwpExit | DSE_snippetBreakpoint | DSE_stopThread | DSE_userMessage | DSE_dynFuncCall.

(** The three ways the runtime stops itself (RTlinux.c). *)
Inductive stop_kind : Type := StopBreakPoint | StopSafe | StopLinux.

(** What the mutator reads while the process is stopped. *)
Record stop : Type := mk_stop {
  st_kind : stop_kind;
  st_event : DYNINST_synch_event_t;
  st_arg1 : Z;
  st_arg2 : Z;
  st_arg3 : Z
}.

Definition TARGET_CACHE_WIDTH : Z := 128.

Record rt : Type := mk_rt {
  rt_event_id : DYNINST_synch_event_t;
  rt_arg1 : Z;
  rt_arg2 : Z;
  rt_arg3 : Z;
  rt_trace_lock : dyninst_lock_t;
  rt_reentrant : bool;
  rt_target_cache : list (Z * Z);
  rt_cacheLRUflags : list Z;
  rt_staticMode : bool;
  rt_stops : list stop          (* the stops made so far, latest first *)
}.

Definition set_event (id : DYNINST_synch_event_t) (a1 a2 a3 : Z) (s : rt) : rt :=
  mk_rt id a1 a2 a3 (rt_trace_lock s) (rt_reentrant s) (rt_target_cache s) (rt_cacheLRUflags s) (rt_staticMode s) (rt_stops s).
Definition set_reentrant (b : bool) (s : rt) : rt :=
  mk_rt (rt_event_id s) (rt_arg1 s) (rt_arg2 s) (rt_arg3 s) (rt_trace_lock s) b (rt_target_cache s) (rt_cacheLRUflags s)
    (rt_staticMode s) (rt_stops s).
Definition set_cache (c : list (Z * Z)) (f : list Z) (s : rt) : rt :=
  mk_rt (rt_event_id s) (rt_arg1 s) (rt_arg2 s) (rt_arg3 s) (rt_trace_lock s) (rt_reentrant s) c f (rt_staticMode s) (rt_stops s).

#[global] Instance rt_lock_embed : Embed rt dyninst_lock_t := {|
  eget := rt_trace_lock;
  eput := fun l s => mk_rt (rt_event_id s) (rt_arg1 s) (rt_arg2 s) (rt_arg3 s) l (rt_reentrant s) (rt_target_cache s)
    (rt_cacheLRUflags s) (rt_staticMode s) (rt_stops s)
|}.

(** The process stops and the mutator reads the event variables; a statically
    rewritten program has no mutator and goes on.  The loop of
    DYNINSTbreakPoint sends the signal until the mutator resets the flag, which
    is one stop. *)
Definition stop_self (k : stop_kind) : M rt unit := modify (fun s =>
  mk_rt (rt_event_id s) (rt_arg1 s) (rt_arg2 s) (rt_arg3 s) (rt_trace_lock s) (rt_reentrant s) (rt_target_cache s)
    (rt_cacheLRUflags s) (rt_staticMode s)
    (if rt_staticMode s then rt_stops s
     else mk_stop k (rt_event_id s) (rt_arg1 s) (rt_arg2 s) (rt_arg3 s) :: rt_stops s)).
Definition DYNINSTbreakPoint : M rt unit := stop_self StopBreakPoint.
(** [sig_ok]: whether the handler could be read and replaced. *)
Definition DYNINSTlinuxBreakPoint (sig_ok : bool) : M rt unit := if sig_ok then stop_self StopLinux else mret tt.
Definition DYNINSTsafeBreakPoint : M rt unit := stop_self StopSafe.

Definition set_id (id : DYNINST_synch_event_t) : M rt unit :=
  modify (fun s => set_event id (rt_arg1 s) (rt_arg2 s) (rt_arg3 s) s).
Definition set_arg1 (a : Z) : M rt unit := modify (fun s => set_event (rt_event_id s) a (rt_arg2 s) (rt_arg3 s) s).
Definition set_arg2 (a : Z) : M rt unit := modify (fun s => set_event (rt_event_id s) (rt_arg1 s) a (rt_arg3 s) s).
Definition set_arg3 (a : Z) : M rt unit := modify (fun s => set_event (rt_event_id s) (rt_arg1 s) (rt_arg2 s) a s).

(** [me] is the calling thread; the result of the lock is not looked at. *)
Definition lock_trace (me : Z) : M rt unit := lift (tc_lock_lock me) ;; mret tt.
Definition unlock_trace : M rt unit := lift tc_lock_unlock ;; mret tt.

Definition DYNINST_snippetBreakpoint (me : Z) : M rt unit :=
  lock_trace me ;;
  set_id DSE_snippetBreakpoint ;; set_arg1 NULL ;;
  DYNINSTbreakPoint ;;
  set_id DSE_undefined ;;
  unlock_trace.

Definition DYNINST_instForkEntry (me : Z) : M rt unit :=
  lock_trace me ;;
  set_id DSE_forkEntry ;; set_arg1 NULL ;;
  DYNINSTbreakPoint ;;
  set_id DSE_undefined ;; set_arg1 NULL ;;
  unlock_trace.

Definition DYNINST_instForkExit (me arg1 : Z) : M rt unit :=
  lock_trace me ;;
  set_id DSE_forkExit ;; set_arg1 arg1 ;;
  (if arg1 =? 0 then DYNINSTsafeBreakPoint else DYNINSTbreakPoint) ;;
  set_id DSE_undefined ;; set_arg1 NULL ;;
  unlock_trace.

Definition DYNINST_instExecEntry (sig_ok : bool) (me arg1 : Z) : M rt unit :=
  lock_trace me ;;
  set_id DSE_execEntry ;; set_arg1 arg1 ;;
  DYNINSTlinuxBreakPoint sig_ok ;;
  set_id DSE_undefined ;; set_arg1 NULL ;;
  unlock_trace.

Definition DYNINST_instExecExit (me arg1 : Z) : M rt unit :=
  lock_trace me ;;
  set_id DSE_execExit ;; set_arg1 arg1 ;;
  DYNINSTbreakPoint ;;
  set_id DSE_undefined ;; set_arg1 NULL ;;
  unlock_trace.

Definition DYNINST_instExitEntry (me arg1 : Z) : M rt unit :=
  lock_trace me ;;
  set_id DSE_exitEntry ;; set_arg1 arg1 ;;
  DYNINSTbreakPoint ;;
  set_id DSE_undefined ;; set_arg1 NULL ;;
  unlock_trace.

Definition DYNINST_instLoadLibrary (me arg1 : Z) : M rt unit :=
  lock_trace me ;;
  set_id DSE_loadLibrary ;; set_arg1 arg1 ;;
  DYNINSTbreakPoint ;;
  set_id DSE_undefined ;; set_arg1 NULL ;;
  unlock_trace.

Definition DYNINST_instLwpExit (me : Z) : M rt unit :=
  lock_trace me ;;
  set_id DSE_lwpExit ;; set_arg1 NULL ;;
  DYNINSTbreakPoint ;;
  set_id DSE_undefined ;; set_arg1 NULL ;;
  unlock_trace.

Definition DYNINSTasyncDynFuncCall (me call_target call_addr : Z) : M rt Z :=
  sm ← gets rt_staticMode ;
  if (sm : bool) then mret 0 else
  lock_trace me ;;
  set_id DSE_dynFuncCall ;; set_arg1 call_target ;; set_arg2 call_addr ;;
  DYNINSTbreakPoint ;;
  set_id DSE_undefined ;; set_arg1 NULL ;; set_arg2 NULL ;;
  unlock_trace ;;
  mret 0.

Definition DYNINSTuserMessage (me msg msg_size : Z) : M rt Z :=
  sm ← gets rt_staticMode ;
  if (sm : bool) then mret 0 else
  lock_trace me ;;
  set_id DSE_userMessage ;; set_arg1 msg ;; set_arg2 (u64 msg_size) ;;
  DYNINSTbreakPoint ;;
  set_id DSE_undefined ;; set_arg1 NULL ;; set_arg2 NULL ;;
  unlock_trace ;;
  mret 0.

(** ** The cache of call targets *)

(** The two ways of one set with its LRU flag, and whether it was a hit. *)
Definition cache_set_lookup (ways : Z * Z) (flag calculation : Z) : (Z * Z) * Z * bool :=
  if ways.1 =? calculation then (ways, 0, true)
  else if ways.2 =? calculation then (ways, 1, true)
  else if flag =? 0 then ((ways.1, calculation), 1, false)
  else ((calculation, ways.2), 0, false).

Definition cacheLookup (calculation : Z) : M rt bool := fun s =>
  let index := Z.to_nat (u64 calculation mod TARGET_CACHE_WIDTH) in
  match rt_target_cache s !! index, rt_cacheLRUflags s !! index with
  | Some ways, Some flag =>
      let '(ways', flag', hit) := cache_set_lookup ways flag calculation in
      Ret (hit, set_cache (<[index := ways']> (rt_target_cache s)) (<[index := flag']> (rt_cacheLRUflags s)) s)
  | _, _ => Fault FBounds
  end.

(** ** Stopping a thread *)
Definition DYNINST_stopThread (me pointAddr callBackID flags calculation : Z) : M rt unit :=
  re ← gets rt_reentrant ;
  if (re : bool) then mret tt else
  modify (set_reentrant true) ;;
  lock_trace me ;;
  isInCache ← (if negb (Z.land flags 3 =? 0) then cacheLookup calculation else mret false) ;
  (if (Z.land flags 1 =? 0) || negb isInCache then
     set_id DSE_stopThread ;; set_arg1 pointAddr ;; set_arg2 callBackID ;; set_arg3 calculation ;;
     (if negb (Z.land flags 6 =? 0) then a ← gets rt_arg2 ; set_arg2 (u64 (-1 * s64 a)) else mret tt) ;;
     DYNINSTbreakPoint ;;
     set_id DSE_undefined ;; set_arg1 NULL ;; set_arg2 NULL ;; set_arg3 NULL
   else mret tt) ;;
  unlock_trace ;;
  modify (set_reentrant false).

Definition DYNINST_stopInterProc (me pointAddr callBackID flags calculation objStart objEnd : Z) : M rt unit :=
  let flags := if (calculation <? objStart) || (objEnd <=? calculation)
               then u64 (Z.land (u32 flags) 4294967294) else flags in
  DYNINST_stopThread me pointAddr callBackID flags calculation.

(** ** Code ranges *)

Definition read_bound (boundsArray : list Z) (i : Z) : res Z :=
  match at_slot boundsArray i with Some x => Ret x | None => Fault FBounds end.

(** The loop of [DYNINST_boundsCheck]; [n] bounds the rounds. *)
Fixpoint bounds_loop (n : nat) (boundsArray : list Z) (writeTarget lowIdx highIdx idx : Z) : res bool :=
  if lowIdx <? highIdx then
    match n with
    | O => Fault FFuel
    | S n' =>
        match read_bound boundsArray idx with
        | Fault e => Fault e
        | Ret b0 =>
            if writeTarget <? b0 then
              let highIdx := idx in
              bounds_loop n' boundsArray writeTarget lowIdx highIdx (Z.quot (highIdx - lowIdx) 4 * 2 + lowIdx)
            else
              match read_bound boundsArray (idx + 1) with
              | Fault e => Fault e
              | Ret b1 =>
                  if b1 <=? writeTarget then
                    let lowIdx := idx + 2 in
                    bounds_loop n' boundsArray writeTarget lowIdx highIdx (Z.quot (highIdx - lowIdx) 4 * 2 + lowIdx)
                  else Ret true
              end
        end
    end
  else Ret false.

(** [ptr] is the address of the array; the length is a parameter of the call. *)
Definition DYNINST_boundsCheck (ptr : Z) (boundsArray : list Z) (arrayLen writeTarget : Z) : res bool :=
  let idx := Z.quot (s32 arrayLen) 4 * 2 in
  if ptr <? 0x10000000 then Ret false
  else bounds_loop (S (length boundsArray)) boundsArray writeTarget 0 (s32 arrayLen) idx.

(** ** The trap table *)
Record trapMapping_t : Type := mk_trap { tr_source : Z; tr_target : Z }.

Record trap_state : Type := mk_traps {
  tt_used : Z;
  tt_version : Z;
  tt_table : list trapMapping_t;
  tt_sorted : bool
}.

(** The mutator may update the table between any two accesses: [tt] is its
    state at each access, and the number of accesses made is the state. *)
Section TrapTranslate.
Context (tt : nat -> trap_state).

Definition tt_get {A} (f : trap_state -> A) : M nat A := fun t => Ret (f (tt t), S t).
Definition tt_entry (i : Z) : M nat trapMapping_t := fun t =>
  match at_slot (tt_table (tt t)) i with Some e => Ret (e, S t) | None => Fault FBounds end.

(** The binary search. *)
Fixpoint trap_bsearch (n : nat) (source min max prev : Z) : M nat Z :=
  match n with
  | O => fail FFuel
  | S n' =>
      let mid := u32 (min + max) / 2 in
      if mid =? prev then mret NULL else
      e ← tt_entry mid ;
      if tr_source e <? source then trap_bsearch n' source mid max mid
      else
        e' ← tt_entry mid ;
        if source <? tr_source e' then trap_bsearch n' source min mid mid
        else e'' ← tt_entry mid ; mret (tr_target e'')
  end.

(** The linear search, from index [i]. *)
Fixpoint trap_lsearch (n : nat) (source i : Z) : M nat Z :=
  match n with
  | O => fail FFuel
  | S n' =>
      used ← tt_get tt_used ;
      if i <? used then
        e ← tt_entry i ;
        if tr_source e =? source then e' ← tt_entry i ; mret (tr_target e')
        else trap_lsearch n' source (u32 (i + 1))
      else mret NULL
  end.

(** [rounds] bounds the repetitions of the outer loop, [n] those of the inner
    ones; [local_version] is an unsigned int. *)
Fixpoint dyninstTrapTranslate (rounds n : nat) (source : Z) : M nat Z :=
  match rounds with
  | O => fail FFuel
  | S rounds' =>
      v ← tt_get tt_version ;
      let local_version := u32 v in
      is_sorted ← tt_get tt_sorted ;
      target ← (if (is_sorted : bool) then
                  used ← tt_get tt_used ;
                  let max := u32 used in
                  trap_bsearch n source 0 max (u32 (max + 1))
                else trap_lsearch n source 0) ;
      v' ← tt_get tt_version ;
      if local_version =? v' then mret target else dyninstTrapTranslate rounds' n source
  end.
End TrapTranslate.

(** ** Trampoline guards *)

(** The guards are the static array, or one from malloc() that holds [junk]. *)
Definition initTrampGuards (guards : list Z) (junk : nat -> Z) (maxthreads : Z) : list Z :=
  let n := Z.to_nat maxthreads in
  let a := if maxthreads <=? MAX_THREADS then guards else map junk (seq 0 (S n)) in
  replicate n 1 ++ drop n a.

Definition DYNINSTBaseInit_guards (guards : list Z) : list Z :=
  let n := S (Z.to_nat MAX_THREADS) in replicate n 1 ++ drop n guards.

Definition dyninst_maxNumOfThreads (initialized multithread : bool) (max : Z) : Z :=
  if negb initialized then 0 else if negb multithread then 1 else max.

(** The part of [DYNINSTinit] that resets the cache. *)
Definition init_target_cache : M rt unit :=
  modify (set_cache (replicate (Z.to_nat TARGET_CACHE_WIDTH) (0, 0)) (replicate (Z.to_nat TARGET_CACHE_WIDTH) 1)).

(** ** Reporting events *)

Definition free_lock : dyninst_lock_t := mk_lock 0 DYNINST_INITIAL_LOCK_PID.

(** The state after one stop was made and the event variables were cleaned. *)
Definition after_stop (s : rt) (a2 : Z) (st : stop) : rt :=
  mk_rt DSE_undefined NULL a2 (rt_arg3 s) free_lock (rt_reentrant s) (rt_target_cache s) (rt_cacheLRUflags s)
    (rt_staticMode s) (if rt_staticMode s then rt_stops s else st :: rt_stops s).

Lemma lock_trace_run me s : me <> lk_tid (rt_trace_lock s) -> lk_mutex (rt_trace_lock s) = 0 ->
  lock_trace me s = Ret (tt, eput (mk_lock 1 me) s).
Proof.
  intros Hme Hm. unfold lock_trace, lift, tc_lock_lock, atomic_set, mbind, M_bind. simpl eget.
  by rewrite (proj2 (Z.eqb_neq _ _) Hme), Hm.
Qed.

Section Events.
Context (me : Z) (s : rt) (Hme : me <> lk_tid (rt_trace_lock s)) (Hfree : lk_mutex (rt_trace_lock s) = 0).

(** With the trace lock free, a mutator present and the signal handler in
    place, every event function
    stops the process exactly once, and while it is stopped the mutator sees that
    function's event and arguments; afterwards the event is cleared and the lock
    is free again.  In static mode nothing stops, and the two asynchronous
    reports do nothing at all. *)
Theorem events_report_once arg1 call_target call_addr msg msg_size :
  0 <= msg_size < 2 ^ 32 ->
  let one k id a1 := Ret (tt, after_stop s (rt_arg2 s) (mk_stop k id a1 (rt_arg2 s) (rt_arg3 s))) in
  let two id a1 a2 := if rt_staticMode s then Ret (0, s)
    else Ret (0, after_stop s NULL (mk_stop StopBreakPoint id a1 a2 (rt_arg3 s))) in
  DYNINST_snippetBreakpoint me s = one StopBreakPoint DSE_snippetBreakpoint NULL /\
  DYNINST_instForkEntry me s = one StopBreakPoint DSE_forkEntry NULL /\
  DYNINST_instForkExit me arg1 s = one (if arg1 =? 0 then StopSafe else StopBreakPoint) DSE_forkExit arg1 /\
  DYNINST_instExecEntry true me arg1 s = one StopLinux DSE_execEntry arg1 /\
  DYNINST_instExecExit me arg1 s = one StopBreakPoint DSE_execExit arg1 /\
  DYNINST_instExitEntry me arg1 s = one StopBreakPoint DSE_exitEntry arg1 /\
  DYNINST_instLoadLibrary me arg1 s = one StopBreakPoint DSE_loadLibrary arg1 /\
  DYNINST_instLwpExit me s = one StopBreakPoint DSE_lwpExit NULL /\
  DYNINSTasyncDynFuncCall me call_target call_addr s = two DSE_dynFuncCall call_target call_addr /\
  DYNINSTuserMessage me msg msg_size s = two DSE_userMessage msg msg_size.
Proof.
  intros Hsz. cbv zeta.
  assert (forall B (k : M rt B), (lock_trace me ;; k) s = k (eput (mk_lock 1 me) s)) as Hl.
  { intros B k. by rewrite (bind_ret _ _ _ _ _ (lock_trace_run me s Hme Hfree)). }
  repeat split.
  - apply Hl.
  - apply Hl.
  - etrans; [apply Hl|]. by destruct (arg1 =? 0).
  - apply Hl.
  - apply Hl.
  - apply Hl.
  - apply Hl.
  - apply Hl.
  - unfold DYNINSTasyncDynFuncCall. erewrite bind_ret by reflexivity. destruct (rt_staticMode s) eqn:Es; [done|].
    apply Hl.
  - unfold DYNINSTuserMessage. erewrite bind_ret by reflexivity. destruct (rt_staticMode s) eqn:Es; [done|].
    rewrite (uwrap_id 64 msg_size) by (unfold urange; lia). apply Hl.
Qed.
End Events.

Definition demo_rt : rt :=
  mk_rt DSE_undefined 0 0 0 DECLARE_DYNINST_LOCK false (replicate 128 (0, 0)) (replicate 128 1) false [].

Lemma events_report_once_witness :
  DYNINST_instForkExit 7 0 demo_rt = Ret (tt, after_stop demo_rt 0 (mk_stop StopSafe DSE_forkExit 0 0 0)).
Proof.
  refine (proj1 (proj2 (proj2 (events_report_once 7 demo_rt _ _ 0 0 0 0 4 _)))); [vm_compute; discriminate|reflexivity|lia].
Defined.

(** ** The target cache is an LRU cache *)

(** The two most recent distinct addresses of a set, latest first. *)
Definition lru_touch (recent : Z * Z) (a : Z) : (Z * Z) * bool :=
  let '(x, y) := recent in
  if a =? x then ((x, y), true) else ((a, x), a =? y).

(** How the ways and the flag of a set represent them. *)
Definition lru_of (ways : Z * Z) (flag : Z) : Z * Z :=
  if flag =? 0 then (ways.1, ways.2) else (ways.2, ways.1).

Lemma cache_set_lru ways flag a ways' flag' hit :
  cache_set_lookup ways flag a = (ways', flag', hit) ->
  (lru_of ways' flag', hit) = lru_touch (lru_of ways flag) a.
Proof.
  destruct ways as [x y]. unfold cache_set_lookup, lru_of, lru_touch. simpl.
  destruct (x =? a) eqn:Ex, (flag =? 0) eqn:Ef; zbool; subst; simpl.
  - intros [= <- <- <-]. simpl. by rewrite Z.eqb_refl.
  - intros [= <- <- <-]. simpl. rewrite Z.eqb_refl. destruct (a =? y) eqn:E; zbool; by subst.
  - rewrite (Z.eqb_sym a x), (proj2 (Z.eqb_neq x a)) by done. rewrite (Z.eqb_sym a y).
    destruct (y =? a) eqn:Ey; zbool; subst; intros [= <- <- <-]; done.
  - rewrite (Z.eqb_sym a y). destruct (y =? a) eqn:Ey; zbool; subst; intros [= <- <- <-]; simpl; [done|].
    by rewrite (Z.eqb_sym a x), (proj2 (Z.eqb_neq x a)).
Qed.

(** The cache as a family of LRU pairs, one per set. *)
Definition cache_sets (s : rt) (i : nat) : option (Z * Z) :=
  ways ← rt_target_cache s !! i ; flag ← rt_cacheLRUflags s !! i ; Some (lru_of ways flag).

Definition cache_ok (s : rt) : Prop :=
  length (rt_target_cache s) = Z.to_nat TARGET_CACHE_WIDTH /\
  length (rt_cacheLRUflags s) = Z.to_nat TARGET_CACHE_WIDTH.

Definition cache_index (a : Z) : nat := Z.to_nat (u64 a mod TARGET_CACHE_WIDTH).

Lemma cacheLookup_run s a : cache_ok s ->
  exists p s', cache_sets s (cache_index a) = Some p /\
    cacheLookup a s = Ret ((lru_touch p a).2, s') /\ cache_ok s' /\
    cache_sets s' (cache_index a) = Some (lru_touch p a).1 /\
    (forall i, i <> cache_index a -> cache_sets s' i = cache_sets s i) /\
    s' = set_cache (rt_target_cache s') (rt_cacheLRUflags s') s.
Proof.
  intros [Hc Hf]. unfold cacheLookup, cache_sets. fold (cache_index a).
  assert (cache_index a < Z.to_nat TARGET_CACHE_WIDTH)%nat as Hi.
  { unfold cache_index, TARGET_CACHE_WIDTH. pose proof (Z.mod_pos_bound (u64 a) 128 ltac:(lia)). lia. }
  destruct (lookup_lt_is_Some_2 (rt_target_cache s) (cache_index a)) as [ways Hw]; [lia|].
  destruct (lookup_lt_is_Some_2 (rt_cacheLRUflags s) (cache_index a)) as [flag Hfl]; [lia|].
  rewrite Hw, Hfl. simpl. destruct (cache_set_lookup ways flag a) as [[ways' flag'] hit] eqn:E.
  apply cache_set_lru in E. exists (lru_of ways flag).
  eexists. split; [done|]. rewrite <- E. split; [reflexivity|]. simpl. split_and!; try done.
  - unfold cache_ok. simpl. by rewrite !length_insert.
  - rewrite !list_lookup_insert_eq by lia. done.
  - intros i Hne. by rewrite !list_lookup_insert_ne.
Qed.

(** C24: cacheLookup is a two-way LRU cache: each of the 128 sets holds the two
    most recently used distinct addresses that fall into it, a call hits exactly
    when its address is one of them, it makes the address the most recent one of
    its set, and it touches no other set. *)
Theorem target_cache_is_lru s a : cache_ok s ->
  exists p s', cache_sets s (cache_index a) = Some p /\
    cacheLookup a s = Ret ((lru_touch p a).2, s') /\ cache_ok s' /\
    cache_sets s' (cache_index a) = Some (lru_touch p a).1 /\
    (forall i, i <> cache_index a -> cache_sets s' i = cache_sets s i).
Proof.
  intros Hok. destruct (cacheLookup_run s a Hok) as (p & s' & ? & ? & ? & ? & ? & _). exists p, s'. by split_and!.
Qed.

Lemma target_cache_is_lru_witness :
  exists p s', cache_sets demo_rt (cache_index 300) = Some p /\ cacheLookup 300 demo_rt = Ret ((lru_touch p 300).2, s').
Proof.
  destruct (target_cache_is_lru demo_rt 300) as (p & s' & H1 & H2 & _); [split; reflexivity|].
  exists p, s'. split; [exact H1|exact H2].
Defined.

(** ** Stopping a thread *)

(** The state after the report of a stop. *)
Definition after_report (s : rt) (st : stop) : rt :=
  mk_rt DSE_undefined NULL NULL NULL (rt_trace_lock s) (rt_reentrant s) (rt_target_cache s) (rt_cacheLRUflags s)
    (rt_staticMode s) (if rt_staticMode s then rt_stops s else st :: rt_stops s).

Definition callback_id (flags callBackID : Z) : Z :=
  if negb (Z.land flags 6 =? 0) then u64 (-1 * s64 callBackID) else callBackID.

Definition stop_of (pointAddr callBackID flags calculation : Z) : stop :=
  mk_stop StopBreakPoint DSE_stopThread pointAddr (callback_id flags callBackID) calculation.

Lemma report_run s pointAddr callBackID flags calculation :
  (set_id DSE_stopThread ;; set_arg1 pointAddr ;; set_arg2 callBackID ;; set_arg3 calculation ;;
   (if negb (Z.land flags 6 =? 0) then a ← gets rt_arg2 ; set_arg2 (u64 (-1 * s64 a)) else mret tt) ;;
   DYNINSTbreakPoint ;;
   set_id DSE_undefined ;; set_arg1 NULL ;; set_arg2 NULL ;; set_arg3 NULL) s =
  Ret (tt, after_report s (stop_of pointAddr callBackID flags calculation)).
Proof. unfold stop_of, callback_id. by destruct (negb _). Qed.

(** The state after the cache was consulted, if the flags ask for it. *)
Lemma consult_run s flags calculation : cache_ok s ->
  exists p s', cache_sets s (cache_index calculation) = Some p /\
    (if negb (Z.land flags 3 =? 0) then cacheLookup calculation else mret false) s =
      Ret (negb (Z.land flags 3 =? 0) && (lru_touch p calculation).2, s') /\
    cache_sets s' (cache_index calculation) = Some (if negb (Z.land flags 3 =? 0) then (lru_touch p calculation).1 else p) /\
    rt_stops s' = rt_stops s /\ rt_staticMode s' = rt_staticMode s.
Proof.
  intros Hc. destruct (cacheLookup_run s calculation Hc) as (p & s' & Hp & E & _ & Hs & _ & Heq).
  exists p. destruct (negb _).
  - exists s'. split_and!; [exact Hp|exact E|exact Hs|by rewrite Heq|by rewrite Heq].
  - exists s. split_and!; [exact Hp|reflexivity|exact Hp|reflexivity|reflexivity].
Qed.

(** In a process with a mutator, DYNINST_stopThread stops once unless it is entered again
    from within itself, or the cache is to be consulted (bit 0 of the flags) and
    holds the address.  The address enters the cache whenever bit 0 or 1 is set.
    The mutator sees the point, the address, and the callback identifier,
    negated when the value is to be read as a target or return address (bits 1
    and 2). *)
Theorem stopThread_decision me s pointAddr callBackID flags calculation :
  cache_ok s -> rt_reentrant s = false -> me <> lk_tid (rt_trace_lock s) -> lk_mutex (rt_trace_lock s) = 0 ->
  exists s' p, cache_sets s (cache_index calculation) = Some p /\
    let consult := negb (Z.land flags 3 =? 0) in
    let hit := consult && (lru_touch p calculation).2 in
    let id := callback_id flags callBackID in
    DYNINST_stopThread me pointAddr callBackID flags calculation s = Ret (tt, s') /\
    rt_stops s' = (if negb (rt_staticMode s) && ((Z.land flags 1 =? 0) || negb hit)
      then [mk_stop StopBreakPoint DSE_stopThread pointAddr id calculation] else []) ++ rt_stops s /\
    cache_sets s' (cache_index calculation) = Some (if consult then (lru_touch p calculation).1 else p) /\
    rt_reentrant s' = false /\ rt_trace_lock s' = free_lock /\
    DYNINST_stopThread me pointAddr callBackID flags calculation (set_reentrant true s) = Ret (tt, set_reentrant true s).
Proof.
  intros Hc Hre Hme Hfree. set (s1 := eput (mk_lock 1 me) (set_reentrant true s)).
  destruct (consult_run s1 flags calculation Hc) as (p & s2 & Hp & E2 & Hs2 & Hst & Hsm).
  set (hit := negb (Z.land flags 3 =? 0) && (lru_touch p calculation).2) in *.
  set (s3 := if (Z.land flags 1 =? 0) || negb hit
             then after_report s2 (stop_of pointAddr callBackID flags calculation) else s2).
  exists (set_reentrant false (eput free_lock s3)), p. split; [exact Hp|]. cbv zeta. fold hit.
  split; [|split; [|split; [|split; [|split]]]]; try reflexivity.
  - unfold DYNINST_stopThread. erewrite bind_ret by reflexivity. rewrite Hre. erewrite bind_ret by reflexivity.
    rewrite (bind_ret _ _ _ _ _ (lock_trace_run me (set_reentrant true s) Hme Hfree)). fold s1.
    rewrite (bind_ret _ _ _ _ _ E2).
    assert ((if (Z.land flags 1 =? 0) || negb hit then
       set_id DSE_stopThread ;; set_arg1 pointAddr ;; set_arg2 callBackID ;; set_arg3 calculation ;;
       (if negb (Z.land flags 6 =? 0) then a ← gets rt_arg2 ; set_arg2 (u64 (-1 * s64 a)) else mret tt) ;;
       DYNINSTbreakPoint ;;
       set_id DSE_undefined ;; set_arg1 NULL ;; set_arg2 NULL ;; set_arg3 NULL
     else mret tt) s2 = Ret (tt, s3)) as E3.
    { unfold s3. destruct (_ || _); [apply report_run|reflexivity]. }
    rewrite (bind_ret _ _ _ _ _ E3). by erewrite bind_ret by reflexivity.
  - unfold s3. destruct (_ || _); simpl; rewrite ?Hsm, Hst; simpl; by destruct (rt_staticMode s).
  - rewrite <- Hs2. unfold s3. by destruct (_ || _).
Qed.

Lemma stopThread_decision_witness :
  exists s' p, cache_sets demo_rt (cache_index 300) = Some p /\
    DYNINST_stopThread 7 1 2 3 300 demo_rt = Ret (tt, s').
Proof.
  destruct (stopThread_decision 7 demo_rt 1 2 3 300) as (s' & p & Hp & E & _);
    [split; reflexivity|reflexivity|vm_compute; discriminate|reflexivity|].
  exists s', p. split; [exact Hp|exact E].
Defined.

(** ** The search over code ranges *)

Definition flatten (blocks : list (Z * Z)) : list Z := concat (map (fun b => [b.1; b.2]) blocks).

(** The ranges are in order and do not overlap. *)
Definition blocks_sorted (blocks : list (Z * Z)) : Prop :=
  forall i j b c, (i <= j)%nat -> blocks !! i = Some b -> blocks !! j = Some c -> b.1 <= b.2 /\ (i <> j -> b.2 <= c.1).

Lemma length_flatten blocks : length (flatten blocks) = (2 * length blocks)%nat.
Proof. unfold flatten. induction blocks as [|b l IH]; simpl in *; [done|]. rewrite IH. lia. Qed.

Lemma flatten_lookup blocks k b : blocks !! k = Some b ->
  flatten blocks !! (2 * k)%nat = Some b.1 /\ flatten blocks !! (2 * k + 1)%nat = Some b.2.
Proof.
  unfold flatten. revert k. induction blocks as [|c l IH]; intros [|k] Hk; simpl in Hk; try done.
  - by injection Hk as ->.
  - destruct (IH k Hk) as [H1 H2]. replace (2 * S k)%nat with (S (S (2 * k))) by lia. simpl. split; [done|].
    replace (k + S (k + 0) + 1)%nat with (S (2 * k + 1)) by lia. done.
Qed.

Lemma read_flatten blocks k b : blocks !! k = Some b ->
  read_bound (flatten blocks) (2 * Z.of_nat k) = Ret b.1 /\ read_bound (flatten blocks) (2 * Z.of_nat k + 1) = Ret b.2.
Proof.
  intros Hk. destruct (flatten_lookup _ _ _ Hk) as [H1 H2]. unfold read_bound, at_slot.
  rewrite !(proj2 (Z.ltb_ge _ 0)) by lia.
  replace (Z.to_nat (2 * Z.of_nat k)) with (2 * k)%nat by lia.
  replace (Z.to_nat (2 * Z.of_nat k + 1)) with (2 * k + 1)%nat by lia. by rewrite H1, H2.
Qed.

Definition in_blocks (blocks : list (Z * Z)) (w : Z) : bool :=
  existsb (fun b => (b.1 <=? w) && (w <? b.2)) blocks.

Lemma in_blocks_spec blocks w :
  in_blocks blocks w = true <-> exists k b, blocks !! k = Some b /\ b.1 <= w < b.2.
Proof.
  unfold in_blocks. rewrite existsb_exists. split.
  - intros (b & Hin & [? ?]%andb_prop). zbool. apply list_elem_of_In, list_elem_of_lookup in Hin as [k Hk]. eauto.
  - intros (k & b & Hk & Hb). exists b. split; [by eapply list_elem_of_In, list_elem_of_lookup_2|].
    apply andb_true_intro. by rewrite Z.leb_le, Z.ltb_lt.
Qed.

(** [l] and [h] count blocks: those before [l] end at or below the address,
    those from [h] on start above it. *)
Lemma bounds_loop_spec blocks w n (l h : nat) :
  blocks_sorted blocks -> (l <= h <= length blocks)%nat -> (h - l <= n)%nat ->
  (forall k b, (k < l)%nat -> blocks !! k = Some b -> b.2 <= w) ->
  (forall k b, (h <= k)%nat -> blocks !! k = Some b -> w < b.1) ->
  bounds_loop n (flatten blocks) w (2 * Z.of_nat l) (2 * Z.of_nat h) (2 * Z.of_nat (l + (h - l) / 2)) =
    Ret (in_blocks blocks w).
Proof.
  intros Hsort. revert l h. induction n as [|n IH]; intros l h Hlh Hn Hlo Hhi.
  all: assert (l = h -> Ret false = Ret (in_blocks blocks w)) as Hdone
    by (intros ->; f_equal; symmetry; apply not_true_is_false; intros (k & b & Hk & Hb)%in_blocks_spec;
        destruct (decide (k < h)%nat); [specialize (Hlo k b ltac:(lia) Hk); lia|specialize (Hhi k b ltac:(lia) Hk); lia]).
  { simpl. rewrite (proj2 (Z.ltb_ge _ _)) by lia. apply Hdone. lia. }
  destruct (decide (l = h)) as [E|Hne].
  { cbn [bounds_loop]. rewrite (proj2 (Z.ltb_ge _ _)) by lia. by apply Hdone. }
  cbn [bounds_loop]. rewrite (proj2 (Z.ltb_lt _ _)) by lia.
  set (k := (l + (h - l) / 2)%nat).
  assert (l <= k < h)%nat as Hk.
  { unfold k. pose proof (Nat.Div0.div_le_upper_bound (h - l) 2 (h - l - 1)). split; [lia|].
    assert ((h - l) / 2 < h - l)%nat by (apply Nat.div_lt; lia). lia. }
  destruct (lookup_lt_is_Some_2 blocks k) as [b Hb]; [lia|].
  destruct (read_flatten _ _ _ Hb) as [R1 R2]. rewrite R1, R2.
  assert (forall x y : nat, (x <= y)%nat ->
    Z.quot (2 * Z.of_nat y - 2 * Z.of_nat x) 4 * 2 + 2 * Z.of_nat x = 2 * Z.of_nat (x + (y - x) / 2)) as Hidx.
  { intros x y Hxy. rewrite Z.quot_div_nonneg by lia.
    replace (2 * Z.of_nat y - 2 * Z.of_nat x) with (2 * Z.of_nat (y - x)) by lia.
    change 4 with (2 * 2). rewrite Z.div_mul_cancel_l by lia. rewrite Nat2Z.inj_add, Nat2Z.inj_div. lia. }
  destruct (w <? b.1) eqn:E1; zbool.
  - rewrite Hidx by lia. apply IH; [lia|lia|done|].
    intros j c Hj Hc. destruct (Hsort k j b c ltac:(lia) Hb Hc) as [? Hle].
    destruct (decide (k = j)) as [->|]; [congruence|]. specialize (Hle ltac:(done)). lia.
  - destruct (b.2 <=? w) eqn:E2; zbool.
    + replace (2 * Z.of_nat k + 2) with (2 * Z.of_nat (S k)) by lia. rewrite Hidx by lia.
      apply IH; [lia|lia| |done].
      intros j c Hj Hc. destruct (Hsort j k c b ltac:(lia) Hc Hb) as [? Hle].
      destruct (decide (j = k)) as [->|]; [congruence|]. specialize (Hle ltac:(done)).
      destruct (Hsort k k b b ltac:(lia) Hb Hb) as [? _]. lia.
    + f_equal. symmetry. apply in_blocks_spec. exists k, b. split; [done|lia].
Qed.

(** For an array of ordered, disjoint code ranges, DYNINST_boundsCheck
    ends, reads only inside the array, and tells exactly whether the address
    lies in one of the ranges. *)
Theorem boundsCheck_correct ptr blocks w :
  blocks_sorted blocks -> 0x10000000 <= ptr -> 2 * Z.of_nat (length blocks) < 2 ^ 31 ->
  DYNINST_boundsCheck ptr (flatten blocks) (2 * Z.of_nat (length blocks)) w = Ret (in_blocks blocks w).
Proof.
  intros Hs Hp Hl. unfold DYNINST_boundsCheck. rewrite (proj2 (Z.ltb_ge _ _)) by lia.
  rewrite swrap_id by (unfold srange; lia).
  pose proof (bounds_loop_spec blocks w (S (length (flatten blocks))) 0 (length blocks) Hs) as HL.
  rewrite length_flatten in *. change (Z.of_nat 0) with 0 in HL.
  rewrite Z.mul_0_r, Nat.sub_0_r, Nat.add_0_l in HL.
  rewrite <- HL; [|lia|lia|intros; lia|].
  - f_equal. rewrite Z.quot_div_nonneg by lia. change 4 with (2 * 2). rewrite Z.div_mul_cancel_l by lia.
    rewrite Nat2Z.inj_div. lia.
  - intros k b Hk Hb. apply lookup_lt_Some in Hb. lia.
Qed.

Lemma boundsCheck_correct_witness :
  DYNINST_boundsCheck 0x20000000 (flatten [(10, 20); (20, 25); (40, 50)]) 6 24 = Ret true.
Proof.
  refine (boundsCheck_correct 0x20000000 [(10, 20); (20, 25); (40, 50)] 24 _ _ _); [|lia|simpl; lia].
  intros [|[|[|i]]] [|[|[|j]]] b c Hij Hb Hc; simpl in *; simplify_eq; simpl; split; try lia.
Defined.

(** ** The search for a trap *)
Section TrapTheory.
Context (tt : nat -> trap_state) (s : trap_state) (T : nat).
(** From access [T] on, nobody writes the table. *)
Hypothesis Hquiet : forall t, (T <= t)%nat -> tt t = s.

Lemma tt_get_run {A} (f : trap_state -> A) t : (T <= t)%nat -> tt_get tt f t = Ret (f s, S t).
Proof. intros Ht. unfold tt_get. by rewrite Hquiet. Qed.

Lemma tt_entry_run k e t : (T <= t)%nat -> tt_table s !! k = Some e -> tt_entry tt (Z.of_nat k) t = Ret (e, S t).
Proof. intros Ht He. unfold tt_entry. by rewrite Hquiet, at_slot_nat, He. Qed.

(** The target the table gives for [source]. *)
Definition trap_target (l : list trapMapping_t) (source target : Z) : Prop :=
  (exists e, e ∈ l /\ tr_source e = source /\ tr_target e = target) \/
  (target = NULL /\ forall e, e ∈ l -> tr_source e <> source).

Lemma trap_lsearch_run n source (i : nat) t :
  (T <= t)%nat -> tt_used s = Z.of_nat (length (tt_table s)) -> tt_used s < 2 ^ 32 -> (i <= length (tt_table s))%nat ->
  (length (tt_table s) - i < n)%nat ->
  (forall k e, (k < i)%nat -> tt_table s !! k = Some e -> tr_source e <> source) ->
  exists v t', trap_lsearch tt n source (Z.of_nat i) t = Ret (v, t') /\ (t < t')%nat /\ trap_target (tt_table s) source v.
Proof.
  intros Ht Hused Hsz. revert i t Ht. induction n as [|n IH]; intros i t Ht Hi Hn Hseen; [lia|]. simpl.
  rewrite (bind_ret _ _ _ _ _ (tt_get_run _ _ Ht)). destruct (Z.of_nat i <? tt_used s) eqn:E; zbool.
  - destruct (lookup_lt_is_Some_2 (tt_table s) i) as [e He]; [lia|].
    rewrite (bind_ret _ _ _ _ _ (tt_entry_run i e (S t) ltac:(lia) He)).
    destruct (tr_source e =? source) eqn:Es; zbool.
    + rewrite (bind_ret _ _ _ _ _ (tt_entry_run i e (S (S t)) ltac:(lia) He)).
      do 2 eexists. split; [reflexivity|]. split; [lia|]. left. exists e. split_and!; try done. by eapply list_elem_of_lookup_2.
    + rewrite uwrap_id by (unfold urange; lia). replace (Z.of_nat i + 1) with (Z.of_nat (S i)) by lia.
      destruct (IH (S i) (S (S t))) as (v & t' & E' & ? & ?); [lia|lia|lia| |].
      { intros k e' Hk He'. destruct (decide (k = i)) as [->|]; [congruence|]. apply (Hseen k); [lia|done]. }
      exists v, t'. split_and!; try done. lia.
  - do 2 eexists. split; [reflexivity|]. split; [lia|]. right. split; [done|].
    intros e (k & Hk)%list_elem_of_lookup. apply (Hseen k); [|done]. apply lookup_lt_Some in Hk. lia.
Qed.

Definition traps_sorted (l : list trapMapping_t) : Prop :=
  forall i j a b, (i < j)%nat -> l !! i = Some a -> l !! j = Some b -> tr_source a < tr_source b.

Lemma trap_bsearch_run n source (min max : nat) prev t :
  (T <= t)%nat -> Z.of_nat (length (tt_table s)) < 2 ^ 31 -> traps_sorted (tt_table s) ->
  (min <= max <= length (tt_table s))%nat -> (min < length (tt_table s))%nat -> (max - min + 2 <= n)%nat ->
  (forall k e, (k < min)%nat -> tt_table s !! k = Some e -> tr_source e < source) ->
  (forall k e, (max <= k)%nat -> tt_table s !! k = Some e -> source < tr_source e) ->
  (prev = Z.of_nat max + 1 /\ (min < max)%nat) \/ prev = Z.of_nat max \/
  (prev = Z.of_nat min /\ forall e, tt_table s !! min = Some e -> tr_source e < source) ->
  exists v t', trap_bsearch tt n source (Z.of_nat min) (Z.of_nat max) prev t = Ret (v, t') /\ (t <= t')%nat /\
    trap_target (tt_table s) source v.
Proof.
  intros Ht Hsz Hsort. revert min max prev t Ht.
  induction n as [|n IH]; intros min max prev t Ht Hmm Hmin Hn Hlo Hhi Hprev; [lia|]. cbn [trap_bsearch].
  rewrite uwrap_id by (unfold urange; lia).
  replace ((Z.of_nat min + Z.of_nat max) / 2) with (Z.of_nat ((min + max) / 2)) by (rewrite Nat2Z.inj_div; f_equal; lia).
  set (mid := ((min + max) / 2)%nat).
  assert (min <= mid <= max)%nat as Hmid by (unfold mid; pose proof (Nat.div_mod (min + max) 2); pose proof (Nat.mod_upper_bound (min + max) 2); lia).
  assert (min < max -> mid < max)%nat as Hmid' by (unfold mid; pose proof (Nat.div_mod (min + max) 2); pose proof (Nat.mod_upper_bound (min + max) 2); lia).
  assert (mid = min -> max <= min + 1)%nat as Hmid'' by (unfold mid; pose proof (Nat.div_mod (min + max) 2); pose proof (Nat.mod_upper_bound (min + max) 2); lia).
  destruct (Z.of_nat mid =? prev) eqn:Ep; zbool.
  { do 2 eexists. split; [reflexivity|]. split; [lia|]. right. split; [done|].
    intros e (k & Hk)%list_elem_of_lookup.
    destruct (decide (max <= k)%nat); [specialize (Hhi k e ltac:(lia) Hk); lia|].
    destruct (decide (k < min)%nat); [specialize (Hlo k e ltac:(lia) Hk); lia|].
    destruct Hprev as [[? ?]|[?|[? Hpm]]]; [lia|lia|]. assert (k = min) as -> by lia. specialize (Hpm e Hk). lia. }
  assert (min < max)%nat as Hlt by (destruct Hprev as [[? ?]|[?|[? ?]]]; lia). specialize (Hmid' Hlt).
  destruct (lookup_lt_is_Some_2 (tt_table s) mid) as [e He]; [lia|].
  rewrite (bind_ret _ _ _ _ _ (tt_entry_run mid e t Ht He)).
  destruct (tr_source e <? source) eqn:E1; zbool.
  - destruct (decide (mid = min)) as [Em|Hne].
    + (* the interval has one element: the next round ends *)
      destruct n as [|n]; [lia|]. cbn [trap_bsearch]. rewrite uwrap_id by (unfold urange; lia).
      replace ((Z.of_nat mid + Z.of_nat max) / 2) with (Z.of_nat mid).
      2:{ specialize (Hmid'' Em). replace (Z.of_nat max) with (Z.of_nat mid + 1) by lia. Z.to_euclidean_division_equations; lia. }
      rewrite Z.eqb_refl. do 2 eexists. split; [reflexivity|]. split; [lia|]. right. split; [done|].
      intros x (k & Hk)%list_elem_of_lookup.
      destruct (decide (max <= k)%nat); [specialize (Hhi k x ltac:(lia) Hk); lia|].
      destruct (decide (k < min)%nat); [specialize (Hlo k x ltac:(lia) Hk); lia|].
      specialize (Hmid'' Em). assert (k = mid) as -> by lia. assert (x = e) as -> by congruence. lia.
    + destruct (IH mid max (Z.of_nat mid) (S t)) as (v & t' & E & ? & ?); try done; try lia.
      * intros k x Hk Hx. pose proof (Hsort k mid x e Hk Hx He). lia.
      * right. right. split; [done|]. intros x Hx. congruence.
      * exists v, t'. split_and!; try done. lia.
  - rewrite (bind_ret _ _ _ _ _ (tt_entry_run mid e (S t) ltac:(lia) He)).
    destruct (source <? tr_source e) eqn:E2; zbool.
    + destruct (IH min mid (Z.of_nat mid) (S (S t))) as (v & t' & E & ? & ?); try done; try lia.
      * intros k x Hk Hx. destruct (decide (k = mid)) as [->|]; [congruence|].
        pose proof (Hsort mid k e x ltac:(lia) He Hx). lia.
      * exists v, t'. split_and!; try done. lia.
    + rewrite (bind_ret _ _ _ _ _ (tt_entry_run mid e (S (S t)) ltac:(lia) He)).
      do 2 eexists. split; [reflexivity|]. split; [lia|]. left. exists e.
      split_and!; [by eapply list_elem_of_lookup_2|lia|done].
Qed.
(** One pass over the quiet table, in either layout. *)
Lemma trap_pass_run n source t :
  (T <= t)%nat -> tt_used s = Z.of_nat (length (tt_table s)) -> 0 < tt_used s < 2 ^ 31 ->
  (tt_sorted s = true -> traps_sorted (tt_table s)) -> (length (tt_table s) + 2 <= n)%nat ->
  exists v t', (if tt_sorted s then
      used ← tt_get tt tt_used ; let max := u32 used in trap_bsearch tt n source 0 max (u32 (max + 1))
    else trap_lsearch tt n source 0) t = Ret (v, t') /\ (T <= t')%nat /\ trap_target (tt_table s) source v.
Proof.
  intros Ht Hused Hsz Hsort Hn. destruct (tt_sorted s).
  - rewrite (bind_ret _ _ _ _ _ (tt_get_run _ t Ht)). cbv zeta.
    rewrite !uwrap_id by (unfold urange; lia). rewrite Hused.
    destruct (trap_bsearch_run n source 0 (length (tt_table s)) (Z.of_nat (length (tt_table s)) + 1) (S t))
      as (v & t' & E & ? & ?); try done; try lia; [by apply Hsort| |].
    { intros k e Hk He. apply lookup_lt_Some in He. lia. }
    exists v, t'. split_and!; try done. lia.
  - destruct (trap_lsearch_run n source 0 t) as (v & t' & E & ? & ?); try done; try lia.
    exists v, t'. split_and!; try done. lia.
Qed.
End TrapTheory.

(** One pass over a quiet table ends the loop. *)
Lemma translate_quiet_run (s : trap_state) (source : Z) (tt : nat -> trap_state) (t n rounds : nat) :
  (forall i, (t <= i)%nat -> tt i = s) -> tt_used s = Z.of_nat (length (tt_table s)) -> 0 < tt_used s < 2 ^ 31 ->
  0 <= tt_version s < 2 ^ 32 -> (tt_sorted s = true -> traps_sorted (tt_table s)) ->
  (length (tt_table s) + 2 <= n)%nat -> (1 <= rounds)%nat ->
  exists v t', dyninstTrapTranslate tt rounds n source t = Ret (v, t') /\ trap_target (tt_table s) source v.
Proof.
  intros Hq Hused Hsz Hver Hsort Hn Hr. destruct rounds as [|rounds]; [lia|]. cbn [dyninstTrapTranslate].
  rewrite (bind_ret _ _ _ _ _ (tt_get_run tt s t Hq _ t ltac:(lia))). cbv zeta.
  rewrite (bind_ret _ _ _ _ _ (tt_get_run tt s t Hq _ (S t) ltac:(lia))).
  rewrite (uwrap_id 32 (tt_version s)) by (unfold urange; lia).
  destruct (trap_pass_run tt s t Hq n source (S (S t))) as (v & t' & E & Ht' & Hv); try done; [lia|].
  rewrite (bind_ret _ _ _ _ _ E), (bind_ret _ _ _ _ _ (tt_get_run tt s t Hq _ t' Ht')), Z.eqb_refl. eauto.
Qed.

(** On a table that is not being changed, whose version fits 32 bits and
    that is not empty, dyninstTrapTranslate returns after one pass the target
    of the source address, or NULL when the table has no such source; for a
    table marked as sorted this needs the entries to be in increasing order. *)
Theorem trapTranslate_correct (s : trap_state) (source : Z) (tt : nat -> trap_state) (t n rounds : nat) :
  (forall i, (t <= i)%nat -> tt i = s) -> tt_used s = Z.of_nat (length (tt_table s)) -> 0 < tt_used s < 2 ^ 31 ->
  0 <= tt_version s < 2 ^ 32 -> (tt_sorted s = true -> traps_sorted (tt_table s)) ->
  (length (tt_table s) + 2 <= n)%nat -> (1 <= rounds)%nat ->
  exists v t', dyninstTrapTranslate tt rounds n source t = Ret (v, t') /\ trap_target (tt_table s) source v.
Proof. apply translate_quiet_run. Qed.

(** The version is read into an unsigned int and compared with the
    unsigned long it came from, so once the version no longer fits 32 bits the
    loop of dyninstTrapTranslate never ends, although nobody changes the table
    and every pass over it finds its answer: whatever number of rounds it is
    given, it uses them all up. *)
Theorem trapTranslate_version_overflow (s : trap_state) (source : Z) (t n rounds : nat) :
  tt_used s = Z.of_nat (length (tt_table s)) -> 0 < tt_used s < 2 ^ 31 ->
  (tt_sorted s = true -> traps_sorted (tt_table s)) -> (length (tt_table s) + 2 <= n)%nat ->
  2 ^ 32 <= tt_version s -> dyninstTrapTranslate (fun _ => s) rounds n source t = Fault FFuel.
Proof.
  intros Hused Hsz Hsort Hn Hver. revert t. induction rounds as [|r IH]; intros t; [done|].
  cbn [dyninstTrapTranslate]. erewrite bind_ret by reflexivity. cbv zeta. erewrite bind_ret by reflexivity.
  destruct (trap_pass_run (fun _ => s) s 0 (fun _ _ => eq_refl) n source (S (S t))) as (v & t' & E & _ & _); try done; [lia|].
  rewrite (bind_ret _ _ _ _ _ E). erewrite bind_ret by reflexivity.
  rewrite (proj2 (Z.eqb_neq _ _)); [apply IH|].
  pose proof (uwrap_range 32 (tt_version s) ltac:(lia)) as [_ ?]. lia.
Qed.

Definition demo_traps : trap_state := mk_traps 3 5 [mk_trap 10 100; mk_trap 20 200; mk_trap 30 300] true.

Lemma trapTranslate_correct_witness :
  exists v t', dyninstTrapTranslate (fun _ => demo_traps) 1 5 20 0%nat = Ret (v, t') /\
    trap_target (tt_table demo_traps) 20 v.
Proof.
  apply (trapTranslate_correct demo_traps 20 (fun _ => demo_traps) 0 5 1); simpl; try lia; try done.
  intros _ [|[|[|i]]] [|[|[|j]]] a b Hij Ha Hb; simpl in *; simplify_eq; simpl; lia.
Defined.

Lemma trapTranslate_version_overflow_witness :
  dyninstTrapTranslate (fun _ => mk_traps 1 (2 ^ 32) [mk_trap 20 200] false) 7 9 20 0%nat = Fault FFuel.
Proof.
  apply (trapTranslate_version_overflow (mk_traps 1 (2 ^ 32) [mk_trap 20 200] false) 20 0 9 7); simpl; try done; lia.
Defined.

(** ** Trampoline guards *)

(** DYNINSTBaseInit arms every guard, including the one of the error index
    [MAX_THREADS]; initTrampGuards arms the guards of the real threads only and
    leaves the error index as it found it, so after the static array (zeros) it
    stays unarmed. *)
Theorem tramp_guards (junk : nat -> Z) (maxthreads : Z) (k : nat) :
  let zeros := replicate (S (Z.to_nat MAX_THREADS)) 0 in
  ((k <= Z.to_nat MAX_THREADS)%nat -> DYNINSTBaseInit_guards zeros !! k = Some 1) /\
  (0 <= maxthreads -> (k < Z.to_nat maxthreads)%nat -> initTrampGuards zeros junk maxthreads !! k = Some 1) /\
  (0 <= maxthreads -> initTrampGuards zeros junk maxthreads !! Z.to_nat maxthreads =
     Some (if maxthreads <=? MAX_THREADS then 0 else junk (Z.to_nat maxthreads))).
Proof.
  intros zeros. split_and!.
  - intros Hk. unfold DYNINSTBaseInit_guards. rewrite lookup_app_l by (rewrite length_replicate; lia).
    apply lookup_replicate_2. lia.
  - intros H0 Hk. unfold initTrampGuards. rewrite lookup_app_l by (rewrite length_replicate; lia).
    by apply lookup_replicate_2.
  - intros H0. unfold initTrampGuards. rewrite lookup_app_r by (rewrite length_replicate; lia).
    rewrite length_replicate, Nat.sub_diag, lookup_drop, Nat.add_0_r.
    destruct (maxthreads <=? MAX_THREADS) eqn:E; zbool.
    + apply lookup_replicate_2. lia.
    + change (map junk ?l) with (junk <$> l). rewrite list_lookup_fmap, lookup_seq_lt by lia. done.
Qed.

Lemma tramp_guards_witness : initTrampGuards (replicate 33 0) (fun _ => 0) 32 !! 32%nat = Some 0.
Proof.
  destruct (tramp_guards (fun _ => 0) 32 0) as (_ & _ & H). exact (H ltac:(lia)).
Defined.
