(* ===== verification/RTMemEmu.v ===== *)
(** * Memory emulation in the runtime: dyninstAPI_RT/src/RTmemEmulator.c

    Addresses of the program are translated through a table of ranges that the
    mutator replaces while the program runs.  A reader copies nothing: it reads
    [guard2], searches the table in place, and starts again when [guard1] is not
    what [guard2] was.  As in [Evsel], the table is a sequence of versions
    indexed by the reads made so far. *)
From stdpp Require Import base gmap list list_numbers.
From S2P Require Import Prelude ListHead RTLock RTThread RTCommon.

Definition MAX_MEMORY_MAPPER_ELEMENTS : Z := 1024.

Record MemoryMapperElement : Type := mk_element { el_lo : Z; el_hi : Z; el_shift : Z }.

Record MemoryMapper : Type := mk_mapper {
  mm_guard1 : Z;
  mm_guard2 : Z;
  mm_size : Z;
  mm_elements : list MemoryMapperElement
}.

(** ** Operations *)
Section Operations.
Context (RTmemoryMapper : nat -> MemoryMapper).

Definition mm_get {A} (f : MemoryMapper -> A) : M nat A := fun t => Ret (f (RTmemoryMapper t), S t).
Definition mm_element (i : Z) : M nat MemoryMapperElement := fun t =>
  match at_slot (mm_elements (RTmemoryMapper t)) i with Some e => Ret (e, S t) | None => Fault FBounds end.

(** The inner loop; the result is [index], [min] and [max] at its end.  The
    division is C's, which rounds towards zero. *)
Fixpoint mm_search (n : nat) (input min max : Z) : M nat (Z * Z * Z) :=
  match n with
  | O => fail FFuel
  | S n' =>
      let index := min + Z.quot (max - min) 2 in
      let next min max := if min <=? max then mm_search n' input min max else mret (index, min, max) in
      e ← mm_element index ;
      if el_lo e <=? input then
        e ← mm_element index ;
        if input <? el_hi e then mret (index, min, max) else next (index + 1) max
      else next min (index - 1)
  end.

(** The outer loop. *)
Fixpoint mm_find (rounds n : nat) (input : Z) : M nat (Z * Z * Z) :=
  match rounds with
  | O => fail FFuel
  | S rounds' =>
      guard2 ← mm_get mm_guard2 ;
      size ← mm_get mm_size ;
      r ← mm_search n input 0 (size - 1) ;
      guard1 ← mm_get mm_guard1 ;
      if guard2 =? guard1 then mret r else mm_find rounds' n input
  end.

Definition RTtranslateMemory (rounds n : nat) (input : Z) : M nat Z :=
  r ← mm_find rounds n input ;
  let '(index, min, max) := r in
  if min <=? max then
    e ← mm_element index ;
    if el_shift e =? -1 then mret 0
    else e ← mm_element index ; mret (u64 (input + el_shift e))
  else mret input.

Definition RTtranslateMemoryShift (rounds n : nat) (input : Z) : M nat Z :=
  r ← mm_find rounds n input ;
  let '(index, min, max) := r in
  if min <=? max then
    e ← mm_element index ;
    if el_shift e =? -1 then mret (u64 (-1 * input))
    else e ← mm_element index ; mret (u64 (el_shift e))
  else mret 0.
End Operations.

(** Entering and leaving code that works on untranslated addresses:
    [RTuntranslatedEntryCounter] beside the event variables. *)
Record shadow : Type := mk_shadow { sh_counter : Z; sh_rt : rt }.

#[global] Instance shadow_rt : Embed shadow rt := {|
  eget := sh_rt;
  eput := fun r s => mk_shadow (sh_counter s) r
|}.

Definition RThandleShadow (me direction pointAddr callbackID flags : Z) : M shadow unit :=
  let count f := modify (fun s => mk_shadow (f (sh_counter s)) (sh_rt s)) in
  if s32 direction =? 1 then
    c ← gets sh_counter ;
    (if c =? 0 then lift (DYNINST_stopThread me pointAddr callbackID flags 1) else mret tt) ;;
    count (fun c => s32 (c + 1))
  else
    c ← gets sh_counter ;
    (if 0 <? c then count (fun c => c - 1) else mret tt) ;;
    c ← gets sh_counter ;
    if c =? 0 then lift (DYNINST_stopThread me pointAddr callbackID flags 0) else mret tt.

(** ** The table *)

Definition contains (e : MemoryMapperElement) (input : Z) : Prop := el_lo e <= input < el_hi e.

(** A table as the mutator writes it: ranges in increasing order that do not
    overlap, in an array of fixed length. *)
Record mapper_ok (s : MemoryMapper) : Prop := {
  mo_length : Z.of_nat (length (mm_elements s)) = MAX_MEMORY_MAPPER_ELEMENTS;
  mo_size : 0 <= mm_size s <= MAX_MEMORY_MAPPER_ELEMENTS;
  mo_range : forall i e, Z.of_nat i < mm_size s -> mm_elements s !! i = Some e -> el_lo e < el_hi e;
  mo_sorted : forall i j a b, (i < j)%nat -> Z.of_nat j < mm_size s ->
    mm_elements s !! i = Some a -> mm_elements s !! j = Some b -> el_hi a <= el_lo b
}.

(** What the search answers on the table [s]. *)
Definition found (s : MemoryMapper) (input : Z) (r : Z * Z * Z) : Prop :=
  let '(index, min, max) := r in
  if min <=? max
  then 0 <= index < mm_size s /\ exists e, at_slot (mm_elements s) index = Some e /\ contains e input
  else forall i e, Z.of_nat i < mm_size s -> mm_elements s !! i = Some e -> ~ contains e input.

Section Search.
Context (s : MemoryMapper) (Hs : mapper_ok s).

Lemma mm_element_run (i : nat) e t :
  mm_elements s !! i = Some e -> mm_element (fun _ => s) (Z.of_nat i) t = Ret (e, S t).
Proof. intros E. unfold mm_element. by rewrite at_slot_nat, E. Qed.

Lemma mm_search_run n input (min : nat) max t :
  Z.of_nat min <= max < mm_size s -> (Z.to_nat (max - Z.of_nat min) < n)%nat ->
  (forall k e, (k < min)%nat -> mm_elements s !! k = Some e -> el_hi e <= input) ->
  (forall k e, max < Z.of_nat k < mm_size s -> mm_elements s !! k = Some e -> input < el_lo e) ->
  exists r t', mm_search (fun _ => s) n input (Z.of_nat min) max t = Ret (r, t') /\ (t <= t')%nat /\ found s input r.
Proof.
  revert min max t. induction n as [|n IH]; intros min max t Hmm Hn Hlo Hhi; [lia|]. cbn [mm_search]. cbv zeta.
  set (idx := Z.of_nat min + Z.quot (max - Z.of_nat min) 2).
  assert (Z.of_nat min <= idx <= max) as Hidx by (unfold idx; Z.to_euclidean_division_equations; lia).
  destruct (lookup_lt_is_Some_2 (mm_elements s) (Z.to_nat idx)) as [e He].
  { pose proof (mo_length s Hs). pose proof (mo_size s Hs). lia. }
  assert (forall t, mm_element (fun _ => s) idx t = Ret (e, S t)) as Hrun.
  { intros t0. replace idx with (Z.of_nat (Z.to_nat idx)) by lia. by apply mm_element_run. }
  rewrite (bind_ret _ _ _ _ _ (Hrun t)). destruct (el_lo e <=? input) eqn:E1; zbool.
  - rewrite (bind_ret _ _ _ _ _ (Hrun (S t))). destruct (input <? el_hi e) eqn:E2; zbool.
    + do 2 eexists. split; [reflexivity|]. split; [lia|]. unfold found. rewrite (proj2 (Z.leb_le _ _)) by lia.
      split; [lia|]. exists e. split; [|done]. replace idx with (Z.of_nat (Z.to_nat idx)) by lia. by rewrite at_slot_nat.
    + assert (forall k x, (k < Z.to_nat (idx + 1))%nat -> mm_elements s !! k = Some x -> el_hi x <= input) as Hlo'.
      { intros k x Hk Hx. destruct (decide (k = Z.to_nat idx)) as [->|]; [by simplify_eq|].
        pose proof (mo_sorted s Hs k (Z.to_nat idx) x e ltac:(lia) ltac:(lia) Hx He). lia. }
      destruct (idx + 1 <=? max) eqn:E3; zbool.
      * destruct (IH (Z.to_nat (idx + 1)) max (S (S t))) as (r & t' & E & ? & ?); [lia|lia|done|done|].
        replace (Z.of_nat (Z.to_nat (idx + 1))) with (idx + 1) in E by lia. exists r, t'. split_and!; [done|lia|done].
      * do 2 eexists. split; [reflexivity|]. split; [lia|]. unfold found. rewrite (proj2 (Z.leb_gt _ _)) by lia.
        intros i x Hi Hx [? ?]. destruct (decide (i < Z.to_nat (idx + 1))%nat); [specialize (Hlo' i x ltac:(lia) Hx); lia|].
        specialize (Hhi i x ltac:(lia) Hx). lia.
  - assert (forall k x, idx - 1 < Z.of_nat k < mm_size s -> mm_elements s !! k = Some x -> input < el_lo x) as Hhi'.
    { intros k x Hk Hx. destruct (decide (k = Z.to_nat idx)) as [->|]; [by simplify_eq|].
      pose proof (mo_sorted s Hs (Z.to_nat idx) k e x ltac:(lia) ltac:(lia) He Hx).
      pose proof (mo_range s Hs (Z.to_nat idx) e ltac:(lia) He). lia. }
    destruct (Z.of_nat min <=? idx - 1) eqn:E3; zbool.
    + destruct (IH min (idx - 1) (S t)) as (r & t' & E & ? & ?); [lia|lia|done|done|].
      exists r, t'. split_and!; [done|lia|done].
    + do 2 eexists. split; [reflexivity|]. split; [lia|]. unfold found. rewrite (proj2 (Z.leb_gt _ _)) by lia.
      intros i x Hi Hx [? ?]. destruct (decide (i < min)%nat); [specialize (Hlo i x ltac:(lia) Hx); lia|].
      specialize (Hhi' i x ltac:(lia) Hx). lia.
Qed.

(** The search over the whole table; an empty table still has its element 0
    read. *)
Lemma mm_search_all n input t :
  (Z.to_nat (mm_size s) < n)%nat ->
  exists r t', mm_search (fun _ => s) n input 0 (mm_size s - 1) t = Ret (r, t') /\ (t <= t')%nat /\ found s input r.
Proof.
  intros Hn. pose proof (mo_size s Hs). pose proof (mo_length s Hs) as HL. destruct (decide (mm_size s = 0)) as [E0|].
  - destruct n as [|n]; [lia|]. rewrite E0. cbn [mm_search]. cbv zeta. change (0 + Z.quot (0 - 1 - 0) 2) with 0.
    destruct (lookup_lt_is_Some_2 (mm_elements s) 0) as [e He]; [unfold MAX_MEMORY_MAPPER_ELEMENTS in *; lia|].
    pose proof (fun t => mm_element_run 0 e t He) as Hrun. change (Z.of_nat 0) with 0 in Hrun.
    assert (forall a b c, b <=? c = false -> found s input (a, b, c)) as Hf.
    { intros a b c E. unfold found. rewrite E. intros i x Hi. lia. }
    rewrite (bind_ret _ _ _ _ _ (Hrun t)). destruct (el_lo e <=? input).
    + rewrite (bind_ret _ _ _ _ _ (Hrun (S t))). destruct (input <? el_hi e);
        do 2 eexists; (split; [reflexivity|]); (split; [lia|]); by apply Hf.
    + do 2 eexists; (split; [reflexivity|]); (split; [lia|]); by apply Hf.
  - destruct (mm_search_run n input 0 (mm_size s - 1) t) as (r & t' & E & ? & ?); [lia|lia|lia| |eauto].
    intros k e Hk. lia.
Qed.
End Search.

(** ** Concurrent updates *)
Section Concurrent.
Context (mm : nat -> MemoryMapper).

(** The mutator changes [guard1] before it touches the table and [guard2]
    after, and never uses a value again: when [guard2] as read first equals
    [guard1] as read last, the table did not change in between. *)
Definition guarded_writer : Prop :=
  forall i j k, (i <= k <= j)%nat -> mm_guard2 (mm i) = mm_guard1 (mm j) ->
    mm_size (mm k) = mm_size (mm i) /\ mm_elements (mm k) = mm_elements (mm i).

Lemma mm_element_frozen s index t e t' :
  mm_element mm index t = Ret (e, t') ->
  t' = S t /\ (mm_elements (mm t) = mm_elements s -> mm_element (fun _ => s) index t = Ret (e, t')).
Proof.
  unfold mm_element. destruct (at_slot (mm_elements (mm t)) index) eqn:E; [|done]. intros [= <- <-].
  split; [done|]. intros <-. by rewrite E.
Qed.

(** A search during which the table did not change is a search of one table. *)
Lemma mm_search_frozen s n input min max t r t' :
  mm_search mm n input min max t = Ret (r, t') ->
  (t < t')%nat /\ ((forall i, (t <= i < t')%nat -> mm_elements (mm i) = mm_elements s) ->
    mm_search (fun _ => s) n input min max t = Ret (r, t')).
Proof.
  revert min max t. induction n as [|n IH]; intros min max t H; [done|]. cbn [mm_search] in *. cbv zeta in *.
  set (idx := min + Z.quot (max - min) 2) in *.
  assert (forall a b u, (if a <=? b then mm_search mm n input a b else mret (idx, a, b)) u = Ret (r, t') ->
    (u <= t')%nat /\ ((forall i, (u <= i < t')%nat -> mm_elements (mm i) = mm_elements s) ->
      (if a <=? b then mm_search (fun _ => s) n input a b else mret (idx, a, b)) u = Ret (r, t'))) as Hnext.
  { intros a b u Hu. destruct (a <=? b); [apply IH in Hu as [? ?]; split; [lia|done]|].
    injection Hu as <- <-. by split. }
  minv H. apply (mm_element_frozen s) in Hm as [-> Hm]. destruct (el_lo a <=? input) eqn:E1.
  - minv H. apply (mm_element_frozen s) in Hm0 as [-> Hm0]. destruct (input <? el_hi a0) eqn:E2.
    + injection H as <- <-. split; [lia|]. intros Hq. rewrite (bind_ret _ _ _ _ _ (Hm (Hq t ltac:(lia)))), E1.
      by rewrite (bind_ret _ _ _ _ _ (Hm0 (Hq (S t) ltac:(lia)))), E2.
    + apply Hnext in H as [? H]. split; [lia|]. intros Hq. rewrite (bind_ret _ _ _ _ _ (Hm (Hq t ltac:(lia)))), E1.
      rewrite (bind_ret _ _ _ _ _ (Hm0 (Hq (S t) ltac:(lia)))), E2. apply H. intros i Hi. apply Hq. lia.
  - apply Hnext in H as [? H]. split; [lia|]. intros Hq. rewrite (bind_ret _ _ _ _ _ (Hm (Hq t ltac:(lia)))), E1.
    apply H. intros i Hi. apply Hq. lia.
Qed.

(** While the mutator replaces the table, the search that the two
    translation functions share returns only answers that are right for one
    version of the table that was there during the call: an index whose range
    holds the address, or that no range of that version holds it. *)
Theorem mapper_search_snapshot rounds n input t r t' :
  guarded_writer -> (forall i, mapper_ok (mm i)) -> (Z.to_nat MAX_MEMORY_MAPPER_ELEMENTS < n)%nat ->
  mm_find mm rounds n input t = Ret (r, t') -> exists i, (t <= i < t')%nat /\ found (mm i) input r.
Proof.
  intros HW Hok Hn. revert t. induction rounds as [|rounds IH]; intros t H; [done|]. cbn [mm_find] in H.
  minv H. injection Hm as <- <-. minv H. injection Hm as <- <-. minv H. minv H. injection Hm0 as <- <-.
  destruct (mm_search_frozen (mm t) _ _ _ _ _ _ _ Hm) as [Hlt Hfr].
  destruct (mm_guard2 (mm t) =? mm_guard1 (mm s)) eqn:Eg; zbool.
  - injection H as <- <-. exists t. split; [lia|].
    assert (forall k, (t <= k <= s)%nat -> mm_size (mm k) = mm_size (mm t) /\ mm_elements (mm k) = mm_elements (mm t)) as Hq
      by (intros k Hk; by apply (HW t s k)).
    rewrite (proj1 (Hq (S t) ltac:(lia))) in Hfr.
    specialize (Hfr (fun i Hi => proj2 (Hq i ltac:(lia)))).
    destruct (mm_search_all (mm t) (Hok t) n input (S (S t))) as (r' & t'' & E & _ & Hf).
    { pose proof (mo_size _ (Hok t)). lia. }
    rewrite E in Hfr. by injection Hfr as -> _.
  - apply IH in H as (i & Hi & Hf). exists i. split; [lia|done].
Qed.
End Concurrent.

(** The translation the table [s] gives. *)
Definition translated (s : MemoryMapper) (input v : Z) : Prop :=
  (exists i e, Z.of_nat i < mm_size s /\ mm_elements s !! i = Some e /\ contains e input /\
    v = if el_shift e =? -1 then 0 else u64 (input + el_shift e)) \/
  (v = input /\ forall i e, Z.of_nat i < mm_size s -> mm_elements s !! i = Some e -> ~ contains e input).

(** On a table that is not being replaced, RTtranslateMemory returns: the
    address moved by the shift of the range that holds it, 0 when that range is
    marked with -1, the address itself when no range holds it; and
    RTtranslateMemoryShift returns what has to be added to the address to get
    there, modulo 2^64. *)
Theorem translateMemory_correct s rounds n input t :
  mapper_ok s -> mm_guard1 s = mm_guard2 s -> (1 <= rounds)%nat -> (Z.to_nat MAX_MEMORY_MAPPER_ELEMENTS < n)%nat ->
  urange 64 input ->
  exists v d t1 t2, RTtranslateMemory (fun _ => s) rounds n input t = Ret (v, t1) /\
    RTtranslateMemoryShift (fun _ => s) rounds n input t = Ret (d, t2) /\
    translated s input v /\ v = u64 (input + d).
Proof.
  intros Hok Hg Hr Hn Hin. destruct rounds as [|rounds]; [lia|].
  destruct (mm_search_all s Hok n input (S (S t))) as (r & t' & E & _ & Hf); [pose proof (mo_size s Hok); lia|].
  assert (mm_find (fun _ => s) (S rounds) n input t = Ret (r, S t')) as Hfind.
  { cbn [mm_find]. erewrite bind_ret by reflexivity. erewrite bind_ret by reflexivity.
    rewrite (bind_ret _ _ _ _ _ E). erewrite bind_ret by reflexivity. cbv beta. by rewrite Hg, Z.eqb_refl. }
  unfold RTtranslateMemory, RTtranslateMemoryShift. rewrite !(bind_ret _ _ _ _ _ Hfind).
  destruct r as [[idx mn] mx]. unfold found in Hf. destruct (mn <=? mx).
  - destruct Hf as (Hidx & e & He & Hc).
    replace idx with (Z.of_nat (Z.to_nat idx)) in He |- * by lia. rewrite at_slot_nat in He.
    rewrite !(bind_ret _ _ _ _ _ (mm_element_run s _ _ _ He)). destruct (el_shift e =? -1) eqn:Es.
    + do 4 eexists. split; [reflexivity|]. split; [reflexivity|]. split.
      * left. exists (Z.to_nat idx), e. rewrite Es. split_and!; try done. lia.
      * unfold uwrap. rewrite Zplus_mod_idemp_r. by replace (input + -1 * input) with 0 by lia.
    + rewrite !(bind_ret _ _ _ _ _ (mm_element_run s _ _ _ He)).
      do 4 eexists. split; [reflexivity|]. split; [reflexivity|]. split.
      * left. exists (Z.to_nat idx), e. rewrite Es. split_and!; try done. lia.
      * unfold uwrap. by rewrite Zplus_mod_idemp_r.
  - do 4 eexists. split; [reflexivity|]. split; [reflexivity|]. split; [by right|].
    rewrite Z.add_0_r. by rewrite uwrap_id.
Qed.

(** ** Concrete tables *)
Definition table (g : Z) (es : list MemoryMapperElement) : MemoryMapper :=
  mk_mapper g g (Z.of_nat (length es)) (es ++ replicate (1024 - length es) (mk_element 0 0 0)).

Definition wide : MemoryMapper := table 0 [mk_element 100 200 1000; mk_element 300 400 (-1)].
Definition moved : MemoryMapper := table 1 [mk_element 0 50 7].

Lemma wide_ok : mapper_ok wide.
Proof.
  split; [by vm_compute|by vm_compute| |].
  - intros [|[|i]] e Hi He; simpl in Hi, He; simplify_eq; simpl; lia.
  - intros [|[|i]] [|[|j]] a b Hij Hj Ha Hb; simpl in *; simplify_eq; simpl; lia.
Qed.

Lemma moved_ok : mapper_ok moved.
Proof.
  split; [by vm_compute|by vm_compute| |].
  - intros [|i] e Hi He; simpl in Hi, He; simplify_eq; simpl; lia.
  - intros [|i] [|j] a b Hij Hj Ha Hb; simpl in *; simplify_eq; simpl; lia.
Qed.

(** The mutator replaces one table by the other just before read [k]. *)
Definition replaced (k i : nat) : MemoryMapper := if (i <? k)%nat then wide else moved.

Lemma replaced_ok k i : mapper_ok (replaced k i).
Proof. unfold replaced. destruct (i <? k)%nat; [apply wide_ok|apply moved_ok]. Qed.

Lemma replaced_guarded k : guarded_writer (replaced k).
Proof.
  intros a b c Hab. unfold replaced.
  destruct (Nat.ltb_spec a k), (Nat.ltb_spec b k), (Nat.ltb_spec c k); try lia; try done; discriminate.
Qed.

Lemma mapper_search_snapshot_witness :
  mm_find (replaced 3) 2 1025 30 0%nat = Ret ((0, 0, 0), 9%nat) /\
  exists i, (0 <= i < 9)%nat /\ found (replaced 3 i) 30 (0, 0, 0).
Proof.
  assert (mm_find (replaced 3) 2 1025 30 0%nat = Ret ((0, 0, 0), 9%nat)) as E by (vm_compute; reflexivity).
  split; [exact E|].
  apply (mapper_search_snapshot (replaced 3) 2 1025 30 0 (0, 0, 0) 9 (replaced_guarded 3) (replaced_ok 3));
    [vm_compute; lia|exact E].
Defined.

Lemma translateMemory_correct_witness :
  exists v d t1 t2, RTtranslateMemory (fun _ => wide) 1 1025 150 0%nat = Ret (v, t1) /\
    RTtranslateMemoryShift (fun _ => wide) 1 1025 150 0%nat = Ret (d, t2) /\
    translated wide 150 v /\ v = u64 (150 + d).
Proof.
  apply (translateMemory_correct wide 1 1025 150 0 wide_ok); [reflexivity|lia|vm_compute; lia|unfold urange; lia].
Defined.

(** The shift is read after the guards were compared.  A table replaced in
    that moment, by a mutator that keeps to the protocol, makes
    RTtranslateMemory move the address by the shift of an unrelated range: the
    result is the translation of neither the old nor the new table. *)
Theorem translateMemory_torn_shift :
  exists mm input, guarded_writer mm /\ (forall i, mapper_ok (mm i)) /\
    exists v t', RTtranslateMemory mm 1 1025 input 0%nat = Ret (v, t') /\
      forall i, ~ translated (mm i) input v.
Proof.
  exists (replaced 5), 150. split; [apply replaced_guarded|]. split; [apply replaced_ok|].
  exists 157. eexists. split; [vm_compute; reflexivity|]. intros i H. unfold replaced in H.
  destruct (i <? 5)%nat; destruct H as [(k & e & Hk & He & Hc & Hv)|[? _]]; try lia.
  - destruct k as [|[|k]]; simpl in *; simplify_eq; unfold contains in Hc; simpl in *; try lia.
  - destruct k as [|k]; simpl in *; simplify_eq; unfold contains in Hc; simpl in *; lia.
Qed.
