(* ===== verification/RTLinux.v ===== *)
(** * The runtime on Linux: dyninstAPI_RT/src/RTlinux.c

    Signals the runtime sends to itself, the identity of the calling thread, the
    pages of the static heaps, and the traps of statically rewritten programs:
    the registry of the trap tables of all loaded libraries (two bit masks over
    an array of 512 headers), kept in step with the dynamic linker's list, and
    the handler that sends a trap to its target. *)
From stdpp Require Import base gmap list list_numbers.
From S2P Require Import Prelude ListHead RTLock RTThread RTCommon.

(** ** Signals and identities *)

(** What the kernel answers: the result of a system call, or [None] when it has
    no such call (errno is ENOSYS). *)
Class Lwp : Type := {
  sys_tkill : Z -> Z -> option Z;
  sys_kill : Z -> Z -> Z;
  sys_gettid : option Z;
  sys_getpid : Z
}.

Section Signals.
Context `{Lwp}.

(** [has_tkill] is the function's static variable. *)
Definition t_kill (pid sig : Z) : M bool Z := fun has_tkill =>
  let try := if has_tkill then sys_tkill pid sig else None in
  match try with
  | Some result => Ret (Z.b2z (result =? 0), has_tkill)
  | None => Ret (Z.b2z (sys_kill pid sig =? 0), false)
  end.

(** [gettid_not_valid] likewise. *)
Definition dyn_lwp_self : M bool Z := fun gettid_not_valid =>
  if gettid_not_valid then Ret (sys_getpid, true) else
  match sys_gettid with
  | None => Ret (sys_getpid, true)
  | Some result => Ret (result, false)
  end.

Definition DYNINST_am_initial_thread : M bool Z :=
  me ← dyn_lwp_self ;
  mret (Z.b2z (me =? sys_getpid)).
End Signals.

(** [pthread_self] is the C library's function, [mutator_self] the function the
    mutator stored in DYNINST_pthread_self, if any. *)
Definition dyn_pthread_self (staticMode : bool) (pthread_self : Z) (mutator_self : option Z) : Z :=
  if staticMode then pthread_self
  else match mutator_self with None => DYNINST_SINGLETHREADED | Some me => me end.

(** ** The static heaps *)

(** One call of mprotect: the address and the size. *)
Definition heap_pages (pageSize heap size : Z) : Z * Z :=
  let alignedHeapPointer := Z.land heap (Z.lnot (pageSize - 1)) in
  (alignedHeapPointer, u64 (heap - alignedHeapPointer + size)).

Definition mark_heaps_exec (sysconf anyHeap sizeOfAnyHeap1 lowmemHeap sizeOfLowMemHeap1 : Z) : list (Z * Z) :=
  let pageSize := if (sysconf =? 0) || (sysconf =? -1) then 1024 * 16 else sysconf in
  [heap_pages pageSize anyHeap sizeOfAnyHeap1; heap_pages pageSize lowmemHeap sizeOfLowMemHeap1].

(** ** Bit masks *)

Definition NUM_LIBRARIES : Z := 512.
Definition WORD_SIZE : Z := 32.
Definition NUM_LIBRARIES_BITMASK_SIZE : Z := 1 + NUM_LIBRARIES / WORD_SIZE.

Definition set_bit (bit_mask : list Z) (bit : Z) (value : bool) : res (list Z) :=
  if negb (bit <? NUM_LIBRARIES) then Fault FAssert else
  let word := u64 bit / WORD_SIZE in
  let shift := u64 bit mod WORD_SIZE in
  match at_slot bit_mask word with
  | None => Fault FBounds
  | Some w => Ret (<[Z.to_nat word := if value then Z.lor w (Z.shiftl 1 shift)
                                     else Z.land w (u32 (Z.lnot (Z.shiftl 1 shift)))]> bit_mask)
  end.

Definition clear_bitmask (bit_mask : list Z) : list Z :=
  replicate (Z.to_nat NUM_LIBRARIES_BITMASK_SIZE) 0 ++ drop (Z.to_nat NUM_LIBRARIES_BITMASK_SIZE) bit_mask.

(** The inner loop over the bits of the word [w], from bit [j]: [inl] the
    position found, [inr] the start of the next word. *)
Fixpoint scan_word (n : nat) (want : bool) (w j : Z) : res (Z + Z) :=
  match n with
  | O => Fault FFuel
  | S n' =>
      if Bool.eqb (negb (Z.land (Z.shiftl 1 (j mod WORD_SIZE)) w =? 0)) want then Ret (inl j) else
      if (j + 1) mod WORD_SIZE =? 0 then Ret (inr (j + 1)) else scan_word n' want w (j + 1)
  end.

(** The outer loop: [skip] is the value of a word without any wanted bit. *)
Fixpoint next_bit (n : nat) (want : bool) (skip : Z) (bit_mask : list Z) (i j : Z) : res Z :=
  match n with
  | O => Fault FFuel
  | S n' =>
      if negb (j <? NUM_LIBRARIES) then Ret NUM_LIBRARIES else
      match at_slot bit_mask i with
      | None => Fault FBounds
      | Some w =>
          if w =? skip then next_bit n' want skip bit_mask (i + 1) (j + WORD_SIZE) else
          match scan_word (Z.to_nat WORD_SIZE) want w j with
          | Ret (inl j') => Ret j'
          | Ret (inr j') => next_bit n' want skip bit_mask (i + 1) j'
          | Fault e => Fault e
          end
      end
  end.

Definition get_next_free_bitmask (bit_mask : list Z) (last_pos : Z) : res Z :=
  let j := u32 (last_pos + 1) in
  next_bit (Z.to_nat NUM_LIBRARIES_BITMASK_SIZE) false UINT_MAX bit_mask (j / WORD_SIZE) j.
Definition get_next_set_bitmask (bit_mask : list Z) (last_pos : Z) : res Z :=
  let j := u32 (last_pos + 1) in
  next_bit (Z.to_nat NUM_LIBRARIES_BITMASK_SIZE) true 0 bit_mask (j / WORD_SIZE) j.

(** ** The registry of rewritten libraries *)

Definition TRAP_HEADER_SIG : Z := 0x759191D6.
Definition DT_NULL : Z := 0.
Definition DT_DYNINST : Z := 0x6D191957.

Record trap_mapping_header : Type := mk_header {
  h_signature : Z;
  h_num_entries : Z;
  h_pos : Z;
  h_low_entry : Z;
  h_high_entry : Z;
  h_traps : list trapMapping_t
}.

(** An entry of the dynamic linker's list; [l_ld] is the dynamic section as
    (d_tag, d_val) pairs, [None] for a null pointer. *)
Record link_map : Type := mk_link { l_addr : Z; l_ld : option (list (Z * Z)) }.

Record registry : Type := mk_registry {
  rg_all_headers : list Z;
  rg_current : list Z;
  rg_last : list Z;
  rg_headers : gmap Z trap_mapping_header;   (* the headers in memory, by address *)
  rg_lock : dyninst_lock_t
}.

#[global] Instance registry_lock : Embed registry dyninst_lock_t := {|
  eget := rg_lock;
  eput := fun l s => mk_registry (rg_all_headers s) (rg_current s) (rg_last s) (rg_headers s) l
|}.

Definition set_current (m : list Z) (s : registry) : registry :=
  mk_registry (rg_all_headers s) m (rg_last s) (rg_headers s) (rg_lock s).
Definition set_last (m : list Z) (s : registry) : registry :=
  mk_registry (rg_all_headers s) (rg_current s) m (rg_headers s) (rg_lock s).
Definition set_all_headers (m : list Z) (s : registry) : registry :=
  mk_registry m (rg_current s) (rg_last s) (rg_headers s) (rg_lock s).
Definition set_header (p : Z) (h : trap_mapping_header) (s : registry) : registry :=
  mk_registry (rg_all_headers s) (rg_current s) (rg_last s) (<[p := h]> (rg_headers s)) (rg_lock s).

Definition of_res {S A} (r : res A) : M S A := fun s =>
  match r with Ret a => Ret (a, s) | Fault e => Fault e end.

Definition get_header (p : Z) : M registry trap_mapping_header := fun s =>
  match rg_headers s !! p with Some h => Ret (h, s) | None => Fault FBadPtr end.
Definition read_all_headers (i : Z) : M registry Z := fun s =>
  match at_slot (rg_all_headers s) i with Some p => Ret (p, s) | None => Fault FBounds end.
Definition write_all_headers (i p : Z) : M registry unit := fun s =>
  match at_slot (rg_all_headers s) i with
  | Some _ => Ret (tt, set_all_headers (<[Z.to_nat i := p]> (rg_all_headers s)) s)
  | None => Fault FBounds
  end.

Definition PARSED : Z := 0.
Definition NOT_REWRITTEN : Z := 1.
Definition ALREADY_PARSED : Z := 2.
Definition ERROR_INTERNAL : Z := -1.
Definition ERROR_FULL : Z := -2.

(** The walk over the dynamic section to DT_NULL or DT_DYNINST. *)
Fixpoint find_dynamic (dyn : list (Z * Z)) : res (Z * Z) :=
  match dyn with
  | [] => Fault FBounds
  | (tag, val) :: dyn' =>
      if negb (tag =? DT_NULL) && negb (tag =? DT_DYNINST) then find_dynamic dyn' else Ret (tag, val)
  end.

(** Adds the load address to the entries from [i] on and widens the bounds. *)
Fixpoint relocate (n i : nat) (base : Z) (h : trap_mapping_header) : res trap_mapping_header :=
  match n with
  | O => Ret h
  | S n' =>
      match h_traps h !! i with
      | None => Fault FBounds
      | Some e =>
          let source := u64 (tr_source e + base) in
          let target := u64 (tr_target e + base) in
          let low := if (h_low_entry h =? 0) || (source <? h_low_entry h) then source else h_low_entry h in
          let high := if (h_high_entry h =? 0) || (h_high_entry h <? source) then source else h_high_entry h in
          relocate n' (S i) base (mk_header (h_signature h) (h_num_entries h) (h_pos h) low high
            (<[i := mk_trap source target]> (h_traps h)))
      end
  end.

Definition set_pos (h : trap_mapping_header) (pos : Z) : trap_mapping_header :=
  mk_header (h_signature h) (h_num_entries h) pos (h_low_entry h) (h_high_entry h) (h_traps h).

Definition mark_current (pos : Z) : M registry unit :=
  m ← gets rg_current ; m' ← of_res (set_bit m pos true) ; modify (set_current m').
Definition mark_last (pos : Z) : M registry unit :=
  m ← gets rg_last ; m' ← of_res (set_bit m pos true) ; modify (set_last m').

Definition parse_link_map (l : link_map) : M registry Z :=
  match l_ld l with
  | None => mret (-1)
  | Some dyn =>
      d ← of_res (find_dynamic dyn) ;
      if d.1 =? DT_NULL then mret NOT_REWRITTEN else
      let header := u64 (d.2 + l_addr l) in
      h ← get_header header ;
      if negb (h_signature h =? TRAP_HEADER_SIG) then mret ERROR_INTERNAL else
      if negb (h_pos h =? -1) then
        mark_current (h_pos h) ;;
        p ← read_all_headers (h_pos h) ;
        assertM (p =? header) ;;
        mret ALREADY_PARSED
      else
        h ← of_res (relocate (Z.to_nat (h_num_entries h)) 0 (l_addr l) h) ;
        modify (set_header header h) ;;
        last ← gets rg_last ;
        new_pos ← of_res (get_next_free_bitmask last (-1)) ;
        assertM (new_pos <? NUM_LIBRARIES) ;;
        if new_pos =? NUM_LIBRARIES then mret ERROR_FULL else
        modify (set_header header (set_pos h new_pos)) ;;
        write_all_headers new_pos header ;;
        mark_current new_pos ;;
        mark_last new_pos ;;
        mret PARSED
  end.

Definition clear_unloaded_libs : M registry unit := modify (fun s =>
  set_last (take (Z.to_nat NUM_LIBRARIES_BITMASK_SIZE) (rg_current s) ++
            drop (Z.to_nat NUM_LIBRARIES_BITMASK_SIZE) (rg_last s)) s).

(** [r_map] is the dynamic linker's list, empty when it is not set. *)
Definition parse_libs (r_map : list link_map) : M registry Z :=
  match r_map with
  | [] => mret (-1)
  | _ =>
      modify (fun s => set_current (clear_bitmask (rg_current s)) s) ;;
      forM r_map (fun l => parse_link_map l ;; mret tt) ;;
      clear_unloaded_libs ;;
      mret 0
  end.

(** The search for a header that spans [addr], after position [i]. *)
Fixpoint static_loop (n : nat) (addr i : Z) : M registry Z :=
  match n with
  | O => fail FFuel
  | S n' =>
      m ← gets rg_current ;
      i ← of_res (get_next_set_bitmask m i) ;
      assertM ((0 <=? i) && (i <=? NUM_LIBRARIES)) ;;
      if i =? NUM_LIBRARIES then mret NULL else
      p ← read_all_headers i ;
      h ← get_header p ;
      if (h_low_entry h <=? addr) && (addr <=? h_high_entry h) then mret p else static_loop n' addr i
  end.

Definition getStaticTrapMap (me : Z) (r_map : list link_map) (addr : Z) : M registry Z :=
  lift (tc_lock_lock me) ;;
  parse_libs r_map ;;
  header ← static_loop (Z.to_nat NUM_LIBRARIES + 1) addr (-1) ;
  lift tc_lock_unlock ;;
  mret header.

(** The trap state dyninstTrapTranslate sees for a static header: the number of
    entries is read as an unsigned long, so it has the position above it. *)
Definition header_traps (h : trap_mapping_header) : trap_state :=
  mk_traps (h_num_entries h + u32 (h_pos h) * 2 ^ 32) 0 (h_traps h) true.

(** The new program counter; [dynamic] are the tables the mutator keeps, [t]
    the reads of them made so far. *)
Definition dyninstTrapHandler (staticMode : bool) (me : Z) (r_map : list link_map) (dynamic : nat -> trap_state)
    (t rounds n : nat) (orig_ip : Z) : M registry Z :=
  assertM (negb (orig_ip =? 0)) ;;
  if staticMode then
    hdr ← getStaticTrapMap me r_map orig_ip ;
    assertM (negb (hdr =? NULL)) ;;
    h ← get_header hdr ;
    r ← of_res (dyninstTrapTranslate (fun _ => header_traps h) rounds n orig_ip t) ;
    mret r.1
  else
    r ← of_res (dyninstTrapTranslate dynamic rounds n orig_ip t) ;
    mret r.1.

(** ** Bit masks as sets *)

Definition bit (m : list Z) (j : Z) : bool :=
  match at_slot m (j / WORD_SIZE) with Some w => Z.testbit w (j mod WORD_SIZE) | None => false end.

Record mask_ok (m : list Z) : Prop := {
  mk_length : Z.of_nat (length m) = NUM_LIBRARIES_BITMASK_SIZE;
  mk_words : Forall (urange 32) m
}.

Lemma at_slot_lt {A} (l : list A) i : 0 <= i < Z.of_nat (length l) -> exists x, at_slot l i = Some x.
Proof.
  intros Hi. destruct (lookup_lt_is_Some_2 l (Z.to_nat i)) as [x Hx]; [lia|]. exists x.
  unfold at_slot. by rewrite (proj2 (Z.ltb_ge _ _)) by lia.
Qed.

Lemma at_slot_insert {A} (l : list A) i k x :
  0 <= i < Z.of_nat (length l) -> at_slot (<[Z.to_nat i := x]> l) k = if k =? i then Some x else at_slot l k.
Proof.
  intros Hi. unfold at_slot. destruct (k =? i) eqn:E; zbool.
  - subst. rewrite (proj2 (Z.ltb_ge _ _)) by lia. apply list_lookup_insert_eq. lia.
  - destruct (k <? 0) eqn:Ek; zbool; [done|]. apply list_lookup_insert_ne. lia.
Qed.

Lemma land_bit w k : 0 <= k -> negb (Z.land (Z.shiftl 1 k) w =? 0) = Z.testbit w k.
Proof.
  intros Hk. rewrite Z.shiftl_1_l, Z.land_comm. destruct (Z.testbit w k) eqn:E.
  - apply negb_true_iff, Z.eqb_neq. intros H. apply (f_equal (fun x => Z.testbit x k)) in H.
    by rewrite Z.land_spec, E, Z.pow2_bits_true, Z.bits_0 in H.
  - apply negb_false_iff, Z.eqb_eq, Z.bits_inj'. intros i Hi. rewrite Z.land_spec, Z.bits_0.
    destruct (decide (i = k)) as [->|]; [by rewrite E|]. by rewrite Z.pow2_bits_false, andb_false_r by lia.
Qed.

Lemma div_word i j : WORD_SIZE * i <= j < WORD_SIZE * i + WORD_SIZE -> j / WORD_SIZE = i /\ j mod WORD_SIZE = j - WORD_SIZE * i.
Proof. unfold WORD_SIZE. intros. Z.to_euclidean_division_equations. lia. Qed.

Lemma scan_word_spec n want w i j :
  WORD_SIZE * i <= j < WORD_SIZE * i + WORD_SIZE -> WORD_SIZE * i + WORD_SIZE - j <= Z.of_nat n ->
  (exists j', scan_word n want w j = Ret (inl j') /\ j <= j' < WORD_SIZE * i + WORD_SIZE /\
    Z.testbit w (j' mod WORD_SIZE) = want /\ forall k, j <= k < j' -> Z.testbit w (k mod WORD_SIZE) = negb want) \/
  (scan_word n want w j = Ret (inr (WORD_SIZE * i + WORD_SIZE)) /\
    forall k, j <= k < WORD_SIZE * i + WORD_SIZE -> Z.testbit w (k mod WORD_SIZE) = negb want).
Proof.
  revert j. induction n as [|n IH]; intros j Hj Hn; [lia|]. cbn [scan_word].
  rewrite land_bit by (apply Z.mod_pos_bound; by vm_compute).
  destruct (Bool.eqb (Z.testbit w (j mod WORD_SIZE)) want) eqn:E.
  { apply eqb_prop in E. left. exists j. split_and!; try done; [lia|]. intros k Hk. lia. }
  assert (Z.testbit w (j mod WORD_SIZE) = negb want) as E'.
  { destruct (Z.testbit w (j mod WORD_SIZE)), want; done. }
  destruct ((j + 1) mod WORD_SIZE =? 0) eqn:E1; zbool.
  - right. assert (j + 1 = WORD_SIZE * i + WORD_SIZE) as ->.
    { unfold WORD_SIZE in *. Z.to_euclidean_division_equations. lia. }
    split; [done|]. intros k Hk. replace k with j; [done|].
    unfold WORD_SIZE in *. Z.to_euclidean_division_equations. lia.
  - assert (j + 1 < WORD_SIZE * i + WORD_SIZE) as Hj1.
    { destruct (decide (j + 1 = WORD_SIZE * i + WORD_SIZE)) as [Ej|]; [|lia].
      destruct E1. rewrite Ej. unfold WORD_SIZE. Z.to_euclidean_division_equations. lia. }
    destruct (IH (j + 1)) as [(j' & E2 & ? & ? & Hbetween)|(E2 & Hall)]; [lia|lia|left|right].
    + exists j'. split_and!; try done; [lia|lia|]. intros k Hk. destruct (decide (k = j)) as [->|]; [done|]. apply Hbetween. lia.
    + split; [done|]. intros k Hk. destruct (decide (k = j)) as [->|]; [done|]. apply Hall. lia.
Qed.

Lemma next_bit_spec n want skip m i j :
  mask_ok m -> (forall k, 0 <= k < WORD_SIZE -> Z.testbit skip k = negb want) ->
  WORD_SIZE * i <= j < WORD_SIZE * i + WORD_SIZE -> 0 <= i < NUM_LIBRARIES_BITMASK_SIZE ->
  j = WORD_SIZE * i \/ at_slot m i <> Some skip -> NUM_LIBRARIES_BITMASK_SIZE - i <= Z.of_nat n ->
  exists r, next_bit n want skip m i j = Ret r /\
    ((j <= r < NUM_LIBRARIES /\ bit m r = want) \/ r = NUM_LIBRARIES) /\
    forall k, j <= k < r -> bit m k = negb want.
Proof.
  intros Hm Hskip. revert i j. induction n as [|n IH]; intros i j Hj Hi Hstart Hn; [lia|]. cbn [next_bit].
  destruct (negb (j <? NUM_LIBRARIES)) eqn:Ej.
  { apply negb_true_iff, Z.ltb_ge in Ej. exists NUM_LIBRARIES. split_and!; [done|by right|lia]. }
  apply negb_false_iff, Z.ltb_lt in Ej.
  destruct (at_slot_lt m i) as [w Hw]; [rewrite (mk_length m Hm); done|]. rewrite Hw.
  assert (forall k, WORD_SIZE * i <= k < WORD_SIZE * i + WORD_SIZE -> bit m k = Z.testbit w (k mod WORD_SIZE)) as Hbit.
  { intros k Hk. unfold bit. by rewrite (proj1 (div_word i k Hk)), Hw. }
  assert (i < 16) as Hi16 by (unfold NUM_LIBRARIES, WORD_SIZE in *; lia).
  assert (exists r, next_bit n want skip m (i + 1) (WORD_SIZE * i + WORD_SIZE) = Ret r /\
    ((WORD_SIZE * i + WORD_SIZE <= r < NUM_LIBRARIES /\ bit m r = want) \/ r = NUM_LIBRARIES) /\
    forall k, WORD_SIZE * i + WORD_SIZE <= k < r -> bit m k = negb want) as (r & Er & Hr & Hk).
  { change NUM_LIBRARIES_BITMASK_SIZE with 17 in *. apply IH; [..|left|]; unfold NUM_LIBRARIES, WORD_SIZE in *; lia. }
  destruct (w =? skip) eqn:Es; zbool.
  - destruct Hstart as [->|Hne]; [|congruence]. exists r. split; [done|]. split; [destruct Hr as [[? ?]|?]; [left|right]; [|done]|].
    { split; [unfold WORD_SIZE in *; lia|done]. }
    intros k Hk'. destruct (decide (k < WORD_SIZE * i + WORD_SIZE)); [|apply Hk; lia].
    rewrite Hbit by lia. subst w. apply Hskip. apply Z.mod_pos_bound. by vm_compute.
  - destruct (scan_word_spec (Z.to_nat WORD_SIZE) want w i j Hj) as [(j' & E & Hj' & Hb & Hbtw)|(E & Hall)];
      [unfold WORD_SIZE in *; lia| |]; rewrite E.
    + exists j'. split; [done|]. split; [left; rewrite Hbit by lia; split; [unfold NUM_LIBRARIES, WORD_SIZE in *; lia|done]|].
      intros k Hk'. rewrite Hbit by lia. apply Hbtw. lia.
    + exists r. split; [done|]. split; [destruct Hr as [[? ?]|?]; [left|right]; [|done]; split; [lia|done]|].
      intros k Hk'. destruct (decide (k < WORD_SIZE * i + WORD_SIZE)); [rewrite Hbit by lia; apply Hall; lia|apply Hk; lia].
Qed.

Lemma next_free_spec m :
  mask_ok m -> exists r, get_next_free_bitmask m (-1) = Ret r /\
    ((0 <= r < NUM_LIBRARIES /\ bit m r = false) \/ r = NUM_LIBRARIES) /\ forall k, 0 <= k < r -> bit m k = true.
Proof.
  intros Hm. unfold get_next_free_bitmask. change (u32 (-1 + 1)) with 0. cbv zeta. change (0 / WORD_SIZE) with 0.
  apply next_bit_spec; try done; [|left; done].
  intros k Hk. change UINT_MAX with (Z.ones 32). apply Z.ones_spec_low. unfold WORD_SIZE in *; lia.
Qed.

Lemma next_set_spec m last_pos :
  mask_ok m -> last_pos = -1 \/ (0 <= last_pos < NUM_LIBRARIES /\ bit m last_pos = true) ->
  exists r, get_next_set_bitmask m last_pos = Ret r /\
    ((last_pos < r < NUM_LIBRARIES /\ bit m r = true) \/ r = NUM_LIBRARIES) /\
    forall k, last_pos < k < r -> bit m k = false.
Proof.
  intros Hm Hp. unfold get_next_set_bitmask.
  rewrite uwrap_id by (unfold urange, NUM_LIBRARIES in *; destruct Hp as [->|[? _]]; lia). cbv zeta.
  destruct (next_bit_spec (Z.to_nat NUM_LIBRARIES_BITMASK_SIZE) true 0 m ((last_pos + 1) / WORD_SIZE) (last_pos + 1))
    as (r & E & Hr & Hk); try done.
  - intros k Hk. by rewrite Z.bits_0.
  - unfold WORD_SIZE. Z.to_euclidean_division_equations. lia.
  - unfold NUM_LIBRARIES_BITMASK_SIZE, NUM_LIBRARIES, WORD_SIZE in *. destruct Hp as [->|[? _]]; [vm_compute; split; congruence|].
    Z.to_euclidean_division_equations. lia.
  - destruct Hp as [->|[Hp Hb]]; [left; done|].
    destruct (decide ((last_pos + 1) mod WORD_SIZE = 0)); [left; unfold WORD_SIZE in *; Z.to_euclidean_division_equations; lia|].
    right. intros Hw. unfold bit in Hb.
    replace (last_pos / WORD_SIZE) with ((last_pos + 1) / WORD_SIZE) in Hb
      by (unfold WORD_SIZE in *; Z.to_euclidean_division_equations; lia).
    rewrite Hw, Z.bits_0 in Hb. done.
  - destruct Hp as [->|[? _]]; unfold NUM_LIBRARIES_BITMASK_SIZE, NUM_LIBRARIES, WORD_SIZE in *; [vm_compute; congruence|].
    Z.to_euclidean_division_equations. lia.
  - exists r. split; [done|]. split; [destruct Hr as [[? ?]|?]; [left|right]; [split; [lia|done]|done]|].
    intros k ?. apply Hk. lia.
Qed.

Lemma set_bit_spec m b :
  mask_ok m -> 0 <= b < NUM_LIBRARIES ->
  exists m', set_bit m b true = Ret m' /\ mask_ok m' /\ forall k, 0 <= k -> bit m' k = (k =? b) || bit m k.
Proof.
  intros Hm Hb. unfold set_bit. rewrite (proj2 (Z.ltb_lt _ _)) by lia. cbn [negb].
  rewrite uwrap_id by (unfold urange, NUM_LIBRARIES in *; lia).
  assert (0 <= b / WORD_SIZE < Z.of_nat (length m)) as Hw.
  { rewrite (mk_length m Hm). unfold NUM_LIBRARIES_BITMASK_SIZE, NUM_LIBRARIES, WORD_SIZE in *. Z.to_euclidean_division_equations. lia. }
  destruct (at_slot_lt m _ Hw) as [w Hat]. rewrite Hat. eexists. split; [reflexivity|].
  assert (0 <= b mod WORD_SIZE < WORD_SIZE) as Hsh by (apply Z.mod_pos_bound; by vm_compute).
  assert (urange 32 w) as Hr.
  { unfold at_slot in Hat. destruct (_ <? 0); [done|]. by apply (Forall_lookup_1 _ _ _ _ (mk_words m Hm) Hat). }
  split; [split|].
  - rewrite length_insert. apply mk_length, Hm.
  - apply Forall_insert; [apply Hm|]. unfold urange in *.
    split; [apply Z.lor_nonneg; split; [lia|apply Z.shiftl_nonneg; lia]|].
    destruct (Z.eq_dec (Z.lor w (Z.shiftl 1 (b mod WORD_SIZE))) 0) as [->|Hne]; [lia|].
    apply Z.log2_lt_pow2; [assert (0 <= Z.lor w (Z.shiftl 1 (b mod WORD_SIZE))); [apply Z.lor_nonneg; split; [lia|apply Z.shiftl_nonneg; lia]|lia]|].
    rewrite Z.log2_lor, Z.shiftl_1_l, Z.log2_pow2; [|lia|lia|apply Z.shiftl_nonneg; lia].
    apply Z.max_lub_lt; [|unfold WORD_SIZE in *; lia].
    destruct (decide (w = 0)) as [->|]; [done|]. apply Z.log2_lt_pow2; lia.
  - intros k Hk. unfold bit. rewrite at_slot_insert by done.
    destruct (k / WORD_SIZE =? b / WORD_SIZE) eqn:E; zbool.
    + rewrite E, Hat, Z.lor_spec, orb_comm, Z.shiftl_1_l. f_equal.
      destruct (decide (k = b)) as [->|Hne]; [rewrite Z.eqb_refl; by apply Z.pow2_bits_true; lia|].
      rewrite (proj2 (Z.eqb_neq _ _)) by done. apply Z.pow2_bits_false.
      unfold WORD_SIZE in *. Z.to_euclidean_division_equations. lia.
    + rewrite (proj2 (Z.eqb_neq k b)); [done|]. by intros ->.
Qed.

(** ** The registry *)

Definition moved_trap (base : Z) (e : trapMapping_t) : trapMapping_t :=
  mk_trap (u64 (tr_source e + base)) (u64 (tr_target e + base)).

(** The bounds of a header enclose its sources and are sources themselves. *)
Definition spans (h : trap_mapping_header) : Prop :=
  forall e, e ∈ h_traps h -> h_low_entry h <= tr_source e <= h_high_entry h /\
    (exists a, a ∈ h_traps h /\ tr_source a = h_low_entry h) /\
    (exists b, b ∈ h_traps h /\ tr_source b = h_high_entry h).

Lemma relocate_run n i base h :
  (i + n = length (h_traps h))%nat ->
  (forall e, e ∈ drop i (h_traps h) -> u64 (tr_source e + base) <> 0) ->
  (i = 0%nat -> h_low_entry h = 0 /\ h_high_entry h = 0) ->
  ((0 < i)%nat -> h_low_entry h <> 0 /\ h_high_entry h <> 0 /\
    (exists a, a ∈ take i (h_traps h) /\ tr_source a = h_low_entry h) /\
    (exists b, b ∈ take i (h_traps h) /\ tr_source b = h_high_entry h)) ->
  (forall e, e ∈ take i (h_traps h) -> h_low_entry h <= tr_source e <= h_high_entry h) ->
  exists h', relocate n i base h = Ret h' /\ h_signature h' = h_signature h /\ h_num_entries h' = h_num_entries h /\
    h_pos h' = h_pos h /\ h_traps h' = take i (h_traps h) ++ map (moved_trap base) (drop i (h_traps h)) /\ spans h'.
Proof.
  revert i h. induction n as [|n IH]; intros i h Hlen Hnz H0 Hpos Hin; cbn [relocate].
  - exists h. rewrite drop_ge, take_ge in * by lia. rewrite app_nil_r. split_and!; try done.
    intros e He. split; [by apply Hin|]. destruct i as [|i]; [destruct (h_traps h); [set_solver|simpl in Hlen; lia]|].
    by apply Hpos; lia.
  - destruct (lookup_lt_is_Some_2 (h_traps h) i) as [e He]; [lia|]. rewrite He. cbv zeta.
    set (src := u64 (tr_source e + base)). set (tgt := u64 (tr_target e + base)).
    assert (src <> 0) as Hsrc by (apply Hnz; rewrite (drop_S _ _ _ He); set_solver).
    match goal with |- context [mk_header _ _ _ ?lo ?hi (<[i := ?x]> ?ts)] =>
      set (low := lo); set (high := hi); set (ts' := <[i := x]> ts) end.
    assert (take (S i) ts' = take i (h_traps h) ++ [mk_trap src tgt]) as Htake.
    { unfold ts'. rewrite (take_S_r _ _ (mk_trap src tgt)) by (apply list_lookup_insert_eq; lia). by rewrite take_insert_ge by lia. }
    assert (drop (S i) ts' = drop (S i) (h_traps h)) as Hdrop by (unfold ts'; apply drop_insert_lt; lia).
    assert (low <= src /\ src <= high /\ (forall x, x ∈ take i (h_traps h) -> low <= tr_source x <= high) /\
      (low = src \/ low = h_low_entry h /\ (0 < i)%nat) /\ (high = src \/ high = h_high_entry h /\ (0 < i)%nat))
      as (Hl & Hh & Hb & Hlow & Hhigh).
    { destruct i as [|i].
      - destruct (H0 eq_refl) as [E1 E2]. unfold low, high. rewrite E1, E2. simpl. split_and!; try lia. intros x Hx. set_solver.
      - destruct (Hpos ltac:(lia)) as (E1 & E2 & _). unfold low, high.
        rewrite (proj2 (Z.eqb_neq _ _) E1), (proj2 (Z.eqb_neq _ _) E2). cbn [orb].
        destruct (src <? h_low_entry h) eqn:L, (h_high_entry h <? src) eqn:R; zbool;
          split_and!; try lia; intros x Hx; specialize (Hin x Hx); lia. }
    destruct (IH (S i) (mk_header (h_signature h) (h_num_entries h) (h_pos h) low high ts')) as (h' & E & ? & ? & ? & Ht & ?).
    + simpl. unfold ts'. rewrite length_insert. lia.
    + simpl. rewrite Hdrop. intros x Hx. apply Hnz. rewrite (drop_S _ _ _ He). set_solver.
    + done.
    + intros _. simpl. rewrite Htake.
      assert (low <> 0) by (destruct Hlow as [->|[-> Hi]]; [done|by apply Hpos]).
      assert (high <> 0) by (destruct Hhigh as [->|[-> Hi]]; [done|by apply Hpos]).
      split_and!; try done.
      * destruct Hlow as [->|[-> Hi]]; [exists (mk_trap src tgt); split; [set_solver|done]|].
        destruct (Hpos Hi) as (_ & _ & (a & ? & ?) & _). exists a. split; [set_solver|done].
      * destruct Hhigh as [->|[-> Hi]]; [exists (mk_trap src tgt); split; [set_solver|done]|].
        destruct (Hpos Hi) as (_ & _ & _ & (b & ? & ?)). exists b. split; [set_solver|done].
    + simpl. rewrite Htake. intros x [Hx|Hx%list_elem_of_singleton]%elem_of_app; [by apply Hb|subst; simpl; lia].
    + exists h'. split_and!; try done. rewrite Ht. simpl. rewrite Htake, Hdrop, (drop_S _ _ _ He). simpl.
      by rewrite <- app_assoc.
Qed.

Record reg_ok (s : registry) : Prop := {
  ro_current : mask_ok (rg_current s);
  ro_last : mask_ok (rg_last s);
  ro_headers : Z.of_nat (length (rg_all_headers s)) = NUM_LIBRARIES
}.

(** The header at [p] has its place in the registry. *)
Definition placed (s : registry) (p : Z) (h : trap_mapping_header) : Prop :=
  0 <= h_pos h < NUM_LIBRARIES /\ at_slot (rg_all_headers s) (h_pos h) = Some p /\
  bit (rg_last s) (h_pos h) = true /\ spans h.

Definition fresh_header (base : Z) (h : trap_mapping_header) : Prop :=
  h_pos h = -1 /\ h_low_entry h = 0 /\ h_high_entry h = 0 /\
  forall e, e ∈ h_traps h -> u64 (tr_source e + base) <> 0.

(** The traps of a header once it is placed. *)
Definition traps_of (base : Z) (h : trap_mapping_header) : list trapMapping_t :=
  if h_pos h =? -1 then map (moved_trap base) (h_traps h) else h_traps h.

(** The header of a library, [None] if it was not rewritten. *)
Definition lib_header (l : link_map) : option Z :=
  match l_ld l with
  | None => None
  | Some dyn => match find_dynamic dyn with
      | Ret (tag, val) => if tag =? DT_NULL then None else Some (u64 (val + l_addr l))
      | Fault _ => None
      end
  end.

(** A library as the rewriter and the dynamic linker leave it. *)
Record lib_ok (s : registry) (l : link_map) : Prop := {
  lb_dyn : forall dyn, l_ld l = Some dyn -> exists d, find_dynamic dyn = Ret d;
  lb_header : forall p, lib_header l = Some p -> p <> NULL /\
    exists h, rg_headers s !! p = Some h /\ h_signature h = TRAP_HEADER_SIG /\
      h_num_entries h = Z.of_nat (length (h_traps h)) /\ (fresh_header (l_addr l) h \/ placed s p h)
}.

(** What processing the library of header [p] changes. *)
Record placing (p : Z) (h : trap_mapping_header) (base : Z) (s s' : registry) (h' : trap_mapping_header) : Prop := {
  pl_reg : reg_ok s';
  pl_headers : rg_headers s' = <[p := h']> (rg_headers s);
  pl_sig : h_signature h' = h_signature h;
  pl_num : h_num_entries h' = h_num_entries h;
  pl_traps : h_traps h' = traps_of base h;
  pl_placed : placed s' p h';
  pl_current : forall k, 0 <= k -> bit (rg_current s') k = (k =? h_pos h') || bit (rg_current s) k;
  pl_last : forall k, 0 <= k -> bit (rg_last s') k = (k =? h_pos h') || bit (rg_last s) k;
  pl_new : h_pos h = -1 -> bit (rg_last s) (h_pos h') = false;
  pl_old : h_pos h <> -1 -> at_slot (rg_all_headers s) (h_pos h') = Some p /\ bit (rg_last s) (h_pos h') = true;
  pl_slots : forall k, at_slot (rg_all_headers s') k = if k =? h_pos h' then Some p else at_slot (rg_all_headers s) k;
  pl_lock : rg_lock s' = rg_lock s
}.

Lemma of_res_ret {S A} (s : S) (r : res A) a : r = Ret a -> of_res r s = Ret (a, s).
Proof. by intros ->. Qed.

Lemma mark_current_run s pos :
  reg_ok s -> 0 <= pos < NUM_LIBRARIES -> exists m, mark_current pos s = Ret (tt, set_current m s) /\ mask_ok m /\
    forall k, 0 <= k -> bit m k = (k =? pos) || bit (rg_current s) k.
Proof.
  intros Hs Hp. destruct (set_bit_spec (rg_current s) pos (ro_current s Hs) Hp) as (m & E & Hm & Hb).
  exists m. split_and!; try done. unfold mark_current. erewrite bind_ret by reflexivity.
  by rewrite (bind_ret _ _ _ _ _ (of_res_ret s _ _ E)).
Qed.

Lemma mark_last_run s pos :
  reg_ok s -> 0 <= pos < NUM_LIBRARIES -> exists m, mark_last pos s = Ret (tt, set_last m s) /\ mask_ok m /\
    forall k, 0 <= k -> bit m k = (k =? pos) || bit (rg_last s) k.
Proof.
  intros Hs Hp. destruct (set_bit_spec (rg_last s) pos (ro_last s Hs) Hp) as (m & E & Hm & Hb).
  exists m. split_and!; try done. unfold mark_last. erewrite bind_ret by reflexivity.
  by rewrite (bind_ret _ _ _ _ _ (of_res_ret s _ _ E)).
Qed.

Lemma parse_skips s l :
  (forall dyn, l_ld l = Some dyn -> exists d, find_dynamic dyn = Ret d) -> lib_header l = None ->
  exists r, parse_link_map l s = Ret (r, s).
Proof.
  intros Hd Hl. unfold parse_link_map, lib_header in *. destruct (l_ld l) as [dyn|]; [|by eexists].
  destruct (Hd dyn eq_refl) as [[tag val] E]. rewrite E in Hl.
  rewrite (bind_ret _ _ _ _ _ (of_res_ret s _ _ E)). cbn [fst]. destruct (tag =? DT_NULL); [by eexists|done].
Qed.

(** A library seen before is marked as loaded. *)
Lemma parse_known s l p h :
  reg_ok s -> lib_header l = Some p -> rg_headers s !! p = Some h -> h_signature h = TRAP_HEADER_SIG -> placed s p h ->
  exists r s', parse_link_map l s = Ret (r, s') /\ placing p h (l_addr l) s s' h.
Proof.
  intros Hs Hl Hh Hsig (Hp & Hslot & Hbit & Hspan). unfold parse_link_map, lib_header in *.
  destruct (l_ld l) as [dyn|]; [|done]. destruct (find_dynamic dyn) as [[tag val]|] eqn:E; [|done].
  destruct (tag =? DT_NULL) eqn:Et; [done|]. injection Hl as <-.
  erewrite bind_ret by reflexivity. cbn [fst snd]. rewrite Et.
  rewrite (bind_ret _ _ s h s) by (unfold get_header; by rewrite Hh).
  rewrite Hsig, Z.eqb_refl, (proj2 (Z.eqb_neq (h_pos h) _)) by lia. cbn [negb].
  destruct (mark_current_run s _ Hs Hp) as (m & Em & Hm & Hmb). rewrite (bind_ret _ _ _ _ _ Em).
  erewrite bind_ret by (unfold read_all_headers; simpl; rewrite Hslot; reflexivity).
  erewrite bind_ret by (unfold assertM; rewrite Z.eqb_refl; reflexivity).
  do 2 eexists. split; [reflexivity|]. split; try done.
  - split; [done|apply Hs|apply Hs].
  - simpl. by rewrite insert_id.
  - unfold traps_of. by rewrite (proj2 (Z.eqb_neq _ _)) by lia.
  - intros k Hk. simpl. destruct (k =? h_pos h) eqn:Ek; zbool; [by subst|done].
  - intros ?. lia.
  - intros k. simpl. destruct (k =? h_pos h) eqn:Ek; zbool; [by subst|done].
Qed.

(** A new library is relocated and gets the first free place. *)
Lemma parse_fresh s l p h :
  reg_ok s -> lib_header l = Some p -> rg_headers s !! p = Some h -> h_signature h = TRAP_HEADER_SIG ->
  h_num_entries h = Z.of_nat (length (h_traps h)) -> fresh_header (l_addr l) h ->
  (exists k, 0 <= k < NUM_LIBRARIES /\ bit (rg_last s) k = false) ->
  exists r s' h', parse_link_map l s = Ret (r, s') /\ placing p h (l_addr l) s s' h'.
Proof.
  intros Hs Hl Hh Hsig Hnum (Hpos & Hlo & Hhi & Hnz) (kf & Hkf & Hfree). unfold parse_link_map, lib_header in *.
  destruct (l_ld l) as [dyn|]; [|done]. destruct (find_dynamic dyn) as [[tag val]|] eqn:E; [|done].
  destruct (tag =? DT_NULL) eqn:Et; [done|]. injection Hl as Hl.
  erewrite bind_ret by reflexivity. cbn [fst snd]. rewrite Et, Hl.
  rewrite (bind_ret _ _ s h s) by (unfold get_header; by rewrite Hh).
  rewrite Hsig, Z.eqb_refl, Hpos. cbn [negb]. rewrite Z.eqb_refl. cbn [negb]. rewrite Hnum, Nat2Z.id.
  destruct (relocate_run (length (h_traps h)) 0 (l_addr l) h) as (h1 & E1 & Hsig1 & Hnum1 & Hpos1 & Ht1 & Hsp1); try done; try lia.
  { intros e He. set_solver. }
  rewrite (bind_ret _ _ _ _ _ (of_res_ret s _ _ E1)). erewrite bind_ret by reflexivity.
  erewrite bind_ret by reflexivity. cbn [rg_last set_header].
  destruct (next_free_spec (rg_last s) (ro_last s Hs)) as (r & Er & Hr & Hbelow).
  assert (0 <= r < NUM_LIBRARIES /\ bit (rg_last s) r = false) as [Hr1 Hr2].
  { destruct Hr as [?| ->]; [done|]. rewrite (Hbelow kf Hkf) in Hfree. done. }
  rewrite (bind_ret _ _ _ _ _ (of_res_ret _ _ _ Er)).
  erewrite bind_ret by (unfold assertM; rewrite (proj2 (Z.ltb_lt _ _)) by lia; reflexivity).
  rewrite (proj2 (Z.eqb_neq r NUM_LIBRARIES)) by lia. erewrite bind_ret by reflexivity.
  destruct (at_slot_lt (rg_all_headers s) r) as [x Hx]; [rewrite (ro_headers s Hs); done|].
  erewrite bind_ret by (unfold write_all_headers; simpl; rewrite Hx; reflexivity).
  set (s1 := set_all_headers _ _).
  assert (reg_ok s1) as Hs1 by (split; [apply Hs|apply Hs|simpl; rewrite length_insert; apply Hs]).
  destruct (mark_current_run s1 r Hs1 Hr1) as (m & Em & Hm & Hmb). rewrite (bind_ret _ _ _ _ _ Em).
  assert (reg_ok (set_current m s1)) as Hs2 by (split; [done|apply Hs1|apply Hs1]).
  destruct (mark_last_run _ r Hs2 Hr1) as (m2 & Em2 & Hm2 & Hmb2). rewrite (bind_ret _ _ _ _ _ Em2).
  do 2 eexists. exists (set_pos h1 r). split; [reflexivity|].
  assert (forall k, at_slot (<[Z.to_nat r := p]> (rg_all_headers s)) k = if k =? r then Some p else at_slot (rg_all_headers s) k) as Hslots.
  { intros k. apply at_slot_insert. rewrite (ro_headers s Hs). done. }
  split; try done.
  - split; [done|done|apply Hs1].
  - simpl. by rewrite insert_insert_eq.
  - unfold traps_of. rewrite Hpos. simpl. by rewrite Ht1.
  - split_and!; simpl; try done; [lia|lia|rewrite Hslots, Z.eqb_refl; done|rewrite Hmb2, Z.eqb_refl by lia; done].
Qed.

Lemma parse_link_map_run s l p h :
  reg_ok s -> lib_ok s l -> lib_header l = Some p -> rg_headers s !! p = Some h ->
  (h_pos h = -1 -> exists k, 0 <= k < NUM_LIBRARIES /\ bit (rg_last s) k = false) ->
  exists r s' h', parse_link_map l s = Ret (r, s') /\ placing p h (l_addr l) s s' h'.
Proof.
  intros Hs Hl Hp Hh Hfree. destruct (lb_header s l Hl p Hp) as (_ & h0 & Hh0 & Hsig & Hnum & Hcase).
  rewrite Hh in Hh0. injection Hh0 as <-. destruct Hcase as [Hf|Hk].
  - apply parse_fresh; try done. by apply Hfree, Hf.
  - destruct (parse_known s l p h Hs Hp Hh Hsig Hk) as (r & s' & ?). eauto.
Qed.

(** Other headers keep their places. *)
Lemma placing_frame p h base s s' h' q hq :
  placing p h base s s' h' -> q <> p -> placed s q hq -> placed s' q hq.
Proof.
  intros P Hq (Hp & Hslot & Hb & Hsp). split_and!; try done; [lia|lia| |].
  - rewrite (pl_slots _ _ _ _ _ _ P). destruct (h_pos hq =? h_pos h') eqn:E; zbool; [|done].
    destruct (decide (h_pos h = -1)) as [Hn|Hn]; [by rewrite E, (pl_new _ _ _ _ _ _ P Hn) in Hb|].
    pose proof (pl_old _ _ _ _ _ _ P Hn) as [? _]. congruence.
  - rewrite (pl_last _ _ _ _ _ _ P) by lia. by rewrite Hb, orb_true_r.
Qed.

(** ** Capacity *)

Definition free_places (m : list Z) : nat := length (List.filter (fun k => negb (bit m k)) (seqZ 0 NUM_LIBRARIES)).

Definition is_fresh (s : registry) (p : Z) : bool :=
  match rg_headers s !! p with Some h => h_pos h =? -1 | None => false end.
Definition fresh_libs (s : registry) (ps : list Z) : nat := length (List.filter (is_fresh s) ps).

Lemma filter_ext_in_bool {A} (f g : A -> bool) l :
  (forall x, x ∈ l -> f x = g x) -> List.filter f l = List.filter g l.
Proof. intros H. apply List.filter_ext_in. intros x Hx. apply H. by apply list_elem_of_In. Qed.

Lemma filter_remove_one (f g : Z -> bool) l x :
  NoDup l -> x ∈ l -> f x = true -> g x = false -> (forall y, y ∈ l -> y <> x -> g y = f y) ->
  length (List.filter f l) = S (length (List.filter g l)).
Proof.
  intros Hnd. induction Hnd as [|y l Hy Hnd IH]; intros Hx Hf Hg Hext; [set_solver|]. simpl.
  destruct (decide (y = x)) as [->|Hne].
  - rewrite Hf, Hg. simpl. f_equal. f_equal. symmetry. apply filter_ext_in_bool. intros z Hz. apply Hext; [set_solver|].
    intros ->. done.
  - rewrite (Hext y) by (try set_solver; done).
    destruct (f y); simpl; rewrite IH; try done; try set_solver.
Qed.

Lemma free_place_exists m : (0 < free_places m)%nat -> exists k, 0 <= k < NUM_LIBRARIES /\ bit m k = false.
Proof.
  unfold free_places. intros Hn. destruct (List.filter _ _) as [|k l] eqn:E; [simpl in Hn; lia|].
  assert (In k (k :: l)) as Hk by (by left). rewrite <- E in Hk. apply List.filter_In in Hk as [Hk Hb].
  exists k. apply list_elem_of_In, elem_of_seqZ in Hk. split; [lia|]. by apply negb_true_iff.
Qed.

Lemma placing_free p h base s s' h' :
  placing p h base s s' h' ->
  free_places (rg_last s) = (free_places (rg_last s') + Nat.b2n (h_pos h =? -1)%Z)%nat.
Proof.
  intros P. pose proof (pl_placed _ _ _ _ _ _ P) as (Hr & _). unfold free_places.
  destruct (h_pos h =? -1) eqn:E; zbool.
  - rewrite (filter_remove_one _ (fun k => negb (bit (rg_last s') k)) _ (h_pos h')); [by rewrite Nat.add_comm| | | | |].
    + apply NoDup_seqZ.
    + apply elem_of_seqZ. lia.
    + by rewrite (pl_new _ _ _ _ _ _ P E).
    + by rewrite (pl_last _ _ _ _ _ _ P), Z.eqb_refl by lia.
    + intros y Hy Hne. apply elem_of_seqZ in Hy.
      by rewrite (pl_last _ _ _ _ _ _ P), (proj2 (Z.eqb_neq _ _)) by lia.
  - change (Nat.b2n false) with 0%nat. rewrite Nat.add_0_r. f_equal. apply filter_ext_in_bool. intros k Hk. apply elem_of_seqZ in Hk.
    rewrite (pl_last _ _ _ _ _ _ P) by lia. destruct (k =? h_pos h') eqn:Ek; zbool; [|done]. subst k.
    by rewrite (proj2 (pl_old _ _ _ _ _ _ P E)).
Qed.

(** ** All libraries *)

(** The library's header [p] after the walk: placed, marked as loaded, with the
    traps it had, relocated if they were not yet. *)
Definition walked (s s' : registry) (l : link_map) (p : Z) : Prop :=
  exists h h', rg_headers s !! p = Some h /\ rg_headers s' !! p = Some h' /\ placed s' p h' /\
    bit (rg_current s') (h_pos h') = true /\ h_traps h' = traps_of (l_addr l) h /\
    h_num_entries h' = Z.of_nat (length (h_traps h')) /\ h_signature h' = h_signature h.

Definition parse_all (libs : list link_map) : M registry unit := forM libs (fun l => parse_link_map l ;; mret tt).

Record walk (libs : list link_map) (s s' : registry) : Prop := {
  wk_reg : reg_ok s';
  wk_lock : rg_lock s' = rg_lock s;
  wk_libs : forall l p, l ∈ libs -> lib_header l = Some p -> walked s s' l p;
  wk_only : forall k, 0 <= k -> bit (rg_current s') k = true -> bit (rg_current s) k = true \/
    exists l p h, l ∈ libs /\ lib_header l = Some p /\ rg_headers s' !! p = Some h /\ h_pos h = k;
  wk_mono : forall k, 0 <= k -> bit (rg_current s) k = true -> bit (rg_current s') k = true;
  wk_frame : forall q, q ∉ omap lib_header libs -> rg_headers s' !! q = rg_headers s !! q /\
    forall h, placed s q h -> placed s' q h
}.

Lemma length_traps_of base h : length (traps_of base h) = length (h_traps h).
Proof. unfold traps_of. destruct (_ =? _); [by rewrite length_map|done]. Qed.

Lemma lib_ok_frame p h base s s' h' l :
  placing p h base s s' h' -> lib_header l <> Some p -> lib_ok s l -> lib_ok s' l.
Proof.
  intros P Hne [Hd Hh]. split; [done|]. intros q Hq. destruct (Hh q Hq) as (? & h0 & E & Hsig & Hnum & Hc).
  split; [done|]. exists h0. assert (q <> p) by (intros ->; done).
  rewrite (pl_headers _ _ _ _ _ _ P), lookup_insert_ne by done. split_and!; try done.
  destruct Hc as [?|Hc]; [by left|right]. by apply (placing_frame _ _ _ _ _ _ _ _ P).
Qed.

(** The first library placed, then the walk over the others. *)
Lemma walk_cons l libs p h s s1 h1 s' :
  lib_header l = Some p -> p ∉ omap lib_header libs -> rg_headers s !! p = Some h ->
  h_num_entries h = Z.of_nat (length (h_traps h)) ->
  placing p h (l_addr l) s s1 h1 -> walk libs s1 s' -> walk (l :: libs) s s'.
Proof.
  intros Hl Hp Hh Hnum P W. pose proof (wk_frame _ _ _ W p Hp) as [Ep Fp].
  assert (rg_headers s' !! p = Some h1) as Ep' by (rewrite Ep, (pl_headers _ _ _ _ _ _ P); apply lookup_insert_eq).
  pose proof (pl_placed _ _ _ _ _ _ P) as HP1. destruct HP1 as (Hr & _).
  split.
  - apply W.
  - rewrite (wk_lock _ _ _ W). apply P.
  - intros l0 q [->|Hin]%elem_of_cons Hq.
    + rewrite Hl in Hq. injection Hq as <-. exists h, h1. split_and!; try done.
      * apply Fp, P.
      * apply (wk_mono _ _ _ W); [lia|]. rewrite (pl_current _ _ _ _ _ _ P) by lia. by rewrite Z.eqb_refl.
      * apply P.
      * by rewrite (pl_num _ _ _ _ _ _ P), Hnum, (pl_traps _ _ _ _ _ _ P), length_traps_of.
      * apply P.
    + destruct (wk_libs _ _ _ W l0 q Hin Hq) as (a & b & Ha & Hb & Hrest). exists a, b.
      assert (q <> p). { intros ->. destruct Hp. apply list_elem_of_omap. by exists l0. }
      split; [|done]. by rewrite (pl_headers _ _ _ _ _ _ P), lookup_insert_ne in Ha.
  - intros k Hk Hb. destruct (wk_only _ _ _ W k Hk Hb) as [H1|(l0 & q & a & ? & ? & ? & ?)].
    + rewrite (pl_current _ _ _ _ _ _ P) in H1 by done. apply orb_prop in H1 as [Ek|?]; [right|by left].
      apply Z.eqb_eq in Ek. exists l, p, h1. split_and!; try done. set_solver.
    + right. exists l0, q, a. split_and!; try done. set_solver.
  - intros k Hk Hb. apply (wk_mono _ _ _ W); [done|]. rewrite (pl_current _ _ _ _ _ _ P) by done. by rewrite Hb, orb_true_r.
  - simpl. rewrite Hl. intros q [Hqp Hq]%not_elem_of_cons. destruct (wk_frame _ _ _ W q Hq) as [E F]. split.
    + by rewrite E, (pl_headers _ _ _ _ _ _ P), lookup_insert_ne by done.
    + intros a Ha. apply F. by apply (placing_frame _ _ _ _ _ _ _ _ P).
Qed.

Lemma walk_skip l libs s s' : lib_header l = None -> walk libs s s' -> walk (l :: libs) s s'.
Proof.
  intros Hl W. split; try apply W.
  - intros l0 q [->|Hin]%elem_of_cons Hq; [congruence|]. by apply W.
  - intros k Hk Hb. destruct (wk_only _ _ _ W k Hk Hb) as [?|(l0 & q & a & ? & ? & ? & ?)]; [by left|right].
    exists l0, q, a. split_and!; try done. set_solver.
  - simpl. rewrite Hl. apply W.
Qed.

Lemma fresh_libs_frame p h base s s' h' ps :
  placing p h base s s' h' -> p ∉ ps -> fresh_libs s' ps = fresh_libs s ps.
Proof.
  intros P Hp. unfold fresh_libs. f_equal. apply filter_ext_in_bool. intros q Hq. unfold is_fresh.
  rewrite (pl_headers _ _ _ _ _ _ P), lookup_insert_ne; [done|]. by intros ->.
Qed.

Lemma parse_all_run libs s :
  reg_ok s -> (forall l, l ∈ libs -> lib_ok s l) -> NoDup (omap lib_header libs) ->
  (fresh_libs s (omap lib_header libs) <= free_places (rg_last s))%nat ->
  exists s', parse_all libs s = Ret (tt, s') /\ walk libs s s'.
Proof.
  revert s. induction libs as [|l libs IH]; intros s Hs Hok Hnd Hcap.
  { exists s. split; [done|]. split; try done; [|by left]. intros ? ? H. set_solver. }
  assert (lib_ok s l) as Hl by (apply Hok; set_solver). unfold parse_all. cbn [forM].
  simpl in Hnd, Hcap. change (list_omap link_map Z lib_header libs) with (omap lib_header libs) in *.
  destruct (lib_header l) as [p|] eqn:Hp.
  - destruct (lb_header s l Hl p Hp) as (_ & h & Hh & _ & Hnum & Hcase). apply NoDup_cons in Hnd as [Hnotin Hnd].
    unfold fresh_libs in Hcap. cbn [List.filter] in Hcap. unfold is_fresh at 1 in Hcap. rewrite Hh in Hcap.
    destruct (parse_link_map_run s l p h Hs Hl Hp Hh) as (r & s1 & h1 & E1 & P).
    { intros E. rewrite E in Hcap. simpl in Hcap. apply free_place_exists. lia. }
    destruct (IH s1) as (s' & E & W); [apply P| |done| |].
    + intros l0 Hl0. apply (lib_ok_frame _ _ _ _ _ _ _ P); [|apply Hok; set_solver].
      intros Hq. destruct Hnotin. apply list_elem_of_omap. by exists l0.
    + rewrite (fresh_libs_frame _ _ _ _ _ _ _ P Hnotin).
      pose proof (placing_free _ _ _ _ _ _ P). unfold fresh_libs. destruct (h_pos h =? -1); cbn [length Nat.b2n] in *; lia.
    + exists s'. split; [|by apply (walk_cons l libs p h s s1 h1)].
      rewrite (bind_ret _ _ s tt s1); [exact E|]. by rewrite (bind_ret _ _ _ _ _ E1).
  - destruct (parse_skips s l (lb_dyn s l Hl) Hp) as [r E1].
    destruct (IH s) as (s' & E & W); [done|intros; apply Hok; set_solver|done|done|].
    exists s'. split; [|by apply walk_skip]. rewrite (bind_ret _ _ s tt s); [exact E|]. by rewrite (bind_ret _ _ _ _ _ E1).
Qed.

Lemma clear_bitmask_ok m : mask_ok m -> mask_ok (clear_bitmask m) /\ forall k, bit (clear_bitmask m) k = false.
Proof.
  intros Hm. unfold clear_bitmask. rewrite drop_ge, app_nil_r by (rewrite <- (mk_length m Hm); lia). split.
  - split; [by rewrite length_replicate|]. apply Forall_replicate. by unfold urange.
  - intros k. unfold bit, at_slot. destruct (_ <? 0); [done|].
    destruct (replicate _ _ !! _) as [w|] eqn:E; [|done]. apply lookup_replicate in E as [-> _]. apply Z.bits_0.
Qed.

(** The registry in step with the linker's list: every library of the list has a place
    and its relocated traps, the places in use are those of these libraries, and the
    headers of other libraries are as they were. *)
Record in_step (r_map : list link_map) (s s' : registry) : Prop := {
  is_reg : reg_ok s';
  is_libs : forall l p, l ∈ r_map -> lib_header l = Some p -> walked s s' l p;
  is_only : forall k, 0 <= k -> bit (rg_current s') k = true ->
    exists l p h, l ∈ r_map /\ lib_header l = Some p /\ rg_headers s' !! p = Some h /\ h_pos h = k;
  is_last : rg_last s' = rg_current s';
  is_frame : forall q, q ∉ omap lib_header r_map -> rg_headers s' !! q = rg_headers s !! q
}.

Lemma parse_libs_run r_map s :
  r_map <> [] -> reg_ok s -> (forall l, l ∈ r_map -> lib_ok s l) -> NoDup (omap lib_header r_map) ->
  (fresh_libs s (omap lib_header r_map) <= free_places (rg_last s))%nat ->
  exists s', parse_libs r_map s = Ret (0, s') /\ rg_lock s' = rg_lock s /\ in_step r_map s s'.
Proof.
  intros Hne Hs Hok Hnd Hcap. destruct (clear_bitmask_ok (rg_current s) (ro_current s Hs)) as [Hc Hc0].
  set (s0 := set_current (clear_bitmask (rg_current s)) s).
  destruct (parse_all_run r_map s0) as (s1 & E & W); try done.
  { split; [done|apply Hs|apply Hs]. }
  { intros l Hl. destruct (Hok l Hl) as [? ?]. by split. }
  pose proof (wk_reg _ _ _ W) as Hs1.
  set (s2 := set_last (take (Z.to_nat NUM_LIBRARIES_BITMASK_SIZE) (rg_current s1) ++
            drop (Z.to_nat NUM_LIBRARIES_BITMASK_SIZE) (rg_last s1)) s1).
  assert (rg_last s2 = rg_current s1) as Hl2.
  { simpl. rewrite drop_ge, app_nil_r by (rewrite <- (mk_length _ (ro_last _ Hs1)); lia).
    apply take_ge. rewrite <- (mk_length _ (ro_current _ Hs1)). lia. }
  exists s2. split.
  { unfold parse_libs. destruct r_map as [|l r_map]; [done|]. erewrite bind_ret by reflexivity.
    by rewrite (bind_ret _ _ _ _ _ E). }
  split; [apply (wk_lock _ _ _ W)|]. split.
  - split; [apply Hs1|rewrite Hl2; apply Hs1|apply Hs1].
  - intros l p Hl Hp. destruct (wk_libs _ _ _ W l p Hl Hp) as (h & h' & ? & ? & (? & ? & ? & ?) & Hb & ? & ? & ?).
    exists h, h'. split_and!; try done. split_and!; try done; [lia|lia|]. by rewrite Hl2.
  - intros k Hk Hb. destruct (wk_only _ _ _ W k Hk Hb) as [Hb0|?]; [|done]. simpl in Hb0. by rewrite Hc0 in Hb0.
  - by rewrite Hl2.
  - intros q Hq. apply (wk_frame _ _ _ W q Hq).
Qed.

(** The lock is another matter. *)
Lemma in_step_lock r_map s s' k k' : in_step r_map (eput (k : dyninst_lock_t) s) s' -> in_step r_map s (eput (k' : dyninst_lock_t) s').
Proof. intros [[R1 R2 R3] I1 I2 I3 I4]. by split; [split|..]. Qed.

(** Then nothing is left to relocate, and all tables say the same as before. *)
Lemma in_step_header r_map s s' l p h : in_step r_map s s' -> l ∈ r_map -> lib_header l = Some p -> rg_headers s !! p = Some h ->
  exists h', rg_headers s' !! p = Some h' /\ placed s' p h' /\ traps_of (l_addr l) h' = traps_of (l_addr l) h /\ h_traps h' = traps_of (l_addr l) h /\
    h_num_entries h' = Z.of_nat (length (h_traps h')) /\ h_signature h' = h_signature h.
Proof.
  intros I Hl Hp Hh. destruct (is_libs _ _ _ I l p Hl Hp) as (h0 & h' & Hh0 & Hh' & HP & _ & Ht & Hn & Hg). rewrite Hh in Hh0. injection Hh0 as <-.
  exists h'. split_and!; try done. destruct HP as (Hr & _). unfold traps_of at 1. by rewrite (proj2 (Z.eqb_neq _ _)) by lia.
Qed.
Lemma in_step_libs r_map s s' : in_step r_map s s' -> (forall l, l ∈ r_map -> lib_ok s l) -> forall l, l ∈ r_map -> lib_ok s' l.
Proof.
  intros I Hok l Hl. destruct (Hok l Hl) as [Hd Hh]. split; [done|]. intros p Hp. destruct (Hh p Hp) as (Hn & h & E & Hsig & _).
  destruct (in_step_header _ _ _ _ _ _ I Hl Hp E) as (h' & E' & HP & _ & _ & Hnum & Hg). split; [done|]. exists h'. split_and!; try done; [congruence|by right].
Qed.
Lemma in_step_fresh r_map s s' : in_step r_map s s' -> fresh_libs s' (omap lib_header r_map) = 0%nat.
Proof.
  intros I. unfold fresh_libs. rewrite (filter_ext_in_bool _ (fun _ => false)); [by induction (omap lib_header r_map)|].
  intros p (l & Hl & Hp)%list_elem_of_omap. destruct (is_libs _ _ _ I l p Hl Hp) as (_ & h' & _ & Hh' & (Hr & _) & _). unfold is_fresh. rewrite Hh'. apply Z.eqb_neq. lia.
Qed.

Lemma static_loop_run n addr i s :
  reg_ok s ->
  (forall k, 0 <= k -> bit (rg_current s) k = true ->
    exists p h, at_slot (rg_all_headers s) k = Some p /\ rg_headers s !! p = Some h) ->
  i = -1 \/ (0 <= i < NUM_LIBRARIES /\ bit (rg_current s) i = true) -> NUM_LIBRARIES - i <= Z.of_nat n ->
  exists p, static_loop n addr i s = Ret (p, s) /\
    ((p = NULL /\ forall k q h, i < k < NUM_LIBRARIES -> bit (rg_current s) k = true ->
        at_slot (rg_all_headers s) k = Some q -> rg_headers s !! q = Some h -> ~ h_low_entry h <= addr <= h_high_entry h) \/
     exists k h, i < k < NUM_LIBRARIES /\ bit (rg_current s) k = true /\
        at_slot (rg_all_headers s) k = Some p /\ rg_headers s !! p = Some h /\ h_low_entry h <= addr <= h_high_entry h).
Proof.
  intros Hs Hread. revert i. induction n as [|n IH]; intros i Hi Hn; [destruct Hi as [->|[? ?]]; unfold NUM_LIBRARIES in *; lia|].
  cbn [static_loop]. erewrite bind_ret by reflexivity.
  destruct (next_set_spec (rg_current s) i (ro_current s Hs) Hi) as (r & Er & Hr & Hbtw).
  rewrite (bind_ret _ _ _ _ _ (of_res_ret s _ _ Er)).
  assert (0 <= r <= NUM_LIBRARIES) as Hr0 by (destruct Hr as [[? _]| ->]; destruct Hi as [->|[? _]]; unfold NUM_LIBRARIES in *; lia).
  erewrite bind_ret by (unfold assertM; rewrite !(proj2 (Z.leb_le _ _)) by lia; reflexivity).
  destruct (r =? NUM_LIBRARIES) eqn:Ef; zbool.
  - exists NULL. split; [done|]. left. split; [done|]. intros k q h Hk Hb. subst r. by rewrite Hbtw in Hb.
  - destruct Hr as [[Hr Hrb]|]; [|done]. destruct (Hread r ltac:(lia) Hrb) as (p & h & Hp & Hh).
    erewrite bind_ret by (unfold read_all_headers; rewrite Hp; reflexivity).
    erewrite bind_ret by (unfold get_header; rewrite Hh; reflexivity).
    destruct ((h_low_entry h <=? addr) && (addr <=? h_high_entry h)) eqn:Ec.
    + zbool. exists p. split; [done|]. right. exists r, h. split_and!; try done; lia.
    + destruct (IH r) as (p' & E & Hcase); [right; split; [lia|done]|lia|]. exists p'. split; [done|].
      destruct Hcase as [[-> Hno]|(k & h' & ? & ?)]; [left|right; exists k, h'; split; [lia|done]].
      split; [done|]. intros k q h' Hk Hb Hq Hh'. destruct (decide (k < r)); [by rewrite Hbtw in Hb by lia|].
      destruct (decide (k = r)) as [->|]; [|apply (Hno k q); try done; lia]. simplify_eq.
      intros [? ?]. apply andb_false_iff in Ec as [Ec|Ec]; zbool; lia.
Qed.

Section StaticTraps.
Context (me : Z) (r_map : list link_map) (s : registry).
Hypotheses (Hne : r_map <> []) (Hreg : reg_ok s) (Hlibs : forall l, l ∈ r_map -> lib_ok s l)
  (Hnd : NoDup (omap lib_header r_map))
  (Hcap : (fresh_libs s (omap lib_header r_map) <= free_places (rg_last s))%nat)
  (Hme : me <> lk_tid (rg_lock s)) (Hfree : lk_mutex (rg_lock s) = 0).

Lemma static_map_run addr :
  exists p s', getStaticTrapMap me r_map addr s = Ret (p, s') /\
    rg_lock s' = free_lock /\ in_step r_map s s' /\
    ((p = NULL /\ forall l q h, l ∈ r_map -> lib_header l = Some q -> rg_headers s' !! q = Some h ->
        ~ h_low_entry h <= addr <= h_high_entry h) \/
     exists l h, l ∈ r_map /\ lib_header l = Some p /\ rg_headers s' !! p = Some h /\
        h_low_entry h <= addr <= h_high_entry h).
Proof.
  set (s0 := eput (mk_lock 1 me) s : registry).
  assert (lift (tc_lock_lock me) s = Ret (0, s0)) as El.
  { unfold lift, tc_lock_lock, atomic_set. simpl eget. by rewrite (proj2 (Z.eqb_neq _ _) Hme), Hfree. }
  destruct (parse_libs_run r_map s0) as (s1 & E1 & _ & I); try done.
  { split; apply Hreg. }
  { intros l Hl. destruct (Hlibs l Hl) as [? ?]. by split. }
  assert (forall l q h, l ∈ r_map -> lib_header l = Some q -> rg_headers s1 !! q = Some h ->
    0 <= h_pos h < NUM_LIBRARIES /\ bit (rg_current s1) (h_pos h) = true /\ at_slot (rg_all_headers s1) (h_pos h) = Some q) as Hall.
  { intros l q h Hl Hq Hh. destruct (is_libs _ _ _ I l q Hl Hq) as (? & h' & _ & Hh' & (? & ? & ? & ?) & ? & _).
    rewrite Hh in Hh'. injection Hh' as <-. done. }
  assert (forall k q h, 0 <= k -> bit (rg_current s1) k = true -> at_slot (rg_all_headers s1) k = Some q ->
    rg_headers s1 !! q = Some h -> exists l, l ∈ r_map /\ lib_header l = Some q /\ h_pos h = k) as Hback.
  { intros k q h Hk Hb Hq Hh. destruct (is_only _ _ _ I k Hk Hb) as (l & q' & h' & Hl & Hq' & Hh' & <-).
    destruct (Hall l q' h' Hl Hq' Hh') as (_ & _ & E). rewrite Hq in E. injection E as <-.
    rewrite Hh in Hh'. injection Hh' as <-. by exists l. }
  destruct (static_loop_run (Z.to_nat NUM_LIBRARIES + 1) addr (-1) s1 (is_reg _ _ _ I)) as (p & Ep & Hp).
  { intros k Hk Hb. destruct (is_only _ _ _ I k Hk Hb) as (l & q & h & Hl & Hq & Hh & <-). exists q, h.
    split; [by apply (Hall l)|done]. }
  { by left. }
  { unfold NUM_LIBRARIES. lia. }
  exists p. eexists. split.
  { unfold getStaticTrapMap. rewrite (bind_ret _ _ _ _ _ El), (bind_ret _ _ _ _ _ E1), (bind_ret _ _ _ _ _ Ep).
    erewrite bind_ret by reflexivity. reflexivity. }
  split; [done|]. split; [apply (in_step_lock _ _ _ _ _ I)|].
  destruct Hp as [[-> Hno]|(k & h & Hk & Hb & Hslot & Hh & Hin)]; [left|right].
  - split; [done|]. intros l q h Hl Hq Hh. destruct (Hall l q h Hl Hq Hh) as (? & ? & ?). apply (Hno (h_pos h) q); try done. lia.
  - destruct (Hback k p h ltac:(lia) Hb Hslot Hh) as (l & ? & ? & ?). by exists l, h.
Qed.
End StaticTraps.

(** The translation of a trap through a placed header. *)
Lemma translate_header_run h rounds n t e :
  h_num_entries h = Z.of_nat (length (h_traps h)) -> Z.of_nat (length (h_traps h)) < 2 ^ 31 -> traps_sorted (h_traps h) ->
  e ∈ h_traps h -> (1 <= rounds)%nat -> (length (h_traps h) + 2 <= n)%nat ->
  exists t', dyninstTrapTranslate (fun _ => header_traps h) rounds n (tr_source e) t = Ret (tr_target e, t').
Proof.
  intros Hnum Hlen Hsort He Hr Hn. destruct rounds as [|rounds]; [lia|].
  assert (0 < length (h_traps h))%nat as Hpos by (destruct (h_traps h); [set_solver|simpl; lia]).
  destruct (trap_bsearch_run (fun _ => header_traps h) (header_traps h) 0 (fun _ _ => eq_refl) n (tr_source e) 0
    (length (h_traps h)) (Z.of_nat (length (h_traps h)) + 1) (S (S (S t)))) as (v & t' & E & _ & Hv); try done; try lia.
  { simpl. lia. }
  { intros k x Hk Hx. apply lookup_lt_Some in Hx. simpl in Hx. lia. }
  assert (v = tr_target e) as ->.
  { simpl in Hv. destruct Hv as [(e' & He' & Hs & <-)|[_ Hno]]; [|by destruct (Hno e He)]. f_equal.
    apply list_elem_of_lookup in He as [i Hi]. apply list_elem_of_lookup in He' as [j Hj].
    destruct (Nat.lt_trichotomy i j) as [Hij|[->|Hij]]; [|congruence|].
    - pose proof (Hsort i j _ _ Hij Hi Hj). lia.
    - pose proof (Hsort j i _ _ Hij Hj Hi). lia. }
  cbn [dyninstTrapTranslate]. erewrite bind_ret by reflexivity. cbv zeta. erewrite bind_ret by reflexivity.
  simpl tt_sorted. cbv iota. erewrite bind_ret.
  2:{ erewrite bind_ret by reflexivity. simpl tt_used.
      assert (u32 (h_num_entries h + u32 (h_pos h) * 2 ^ 32) = Z.of_nat (length (h_traps h))) as ->.
      { unfold uwrap. rewrite Z.mod_add by done. rewrite Hnum. apply Z.mod_small. lia. }
      rewrite uwrap_id by (unfold urange; lia). exact E. }
  erewrite bind_ret by reflexivity. by eexists.
Qed.

(** ** Properties *)

(** The bit searches of the library registry.  On a mask of the registry,
    get_next_set_bitmask, started before the first bit or at a bit that is set,
    returns the next bit that is set, and 512 when there is none; and
    get_next_free_bitmask from the start returns the first bit that is clear,
    and 512 when there is none. *)
Theorem bitmask_searches m last_pos :
  mask_ok m -> last_pos = -1 \/ (0 <= last_pos < NUM_LIBRARIES /\ bit m last_pos = true) ->
  (exists r, get_next_set_bitmask m last_pos = Ret r /\
    ((last_pos < r < NUM_LIBRARIES /\ bit m r = true) \/ r = NUM_LIBRARIES) /\
    forall k, last_pos < k < r -> bit m k = false) /\
  (exists r, get_next_free_bitmask m (-1) = Ret r /\
    ((0 <= r < NUM_LIBRARIES /\ bit m r = false) \/ r = NUM_LIBRARIES) /\
    forall k, 0 <= k < r -> bit m k = true).
Proof. intros Hm Hp. split; [by apply next_set_spec|by apply next_free_spec]. Qed.

(** No other library has sources on both sides of [addr]. *)
Definition apart (s : registry) (r_map : list link_map) (p addr : Z) : Prop :=
  forall l q h, l ∈ r_map -> lib_header l = Some q -> rg_headers s !! q = Some h -> traps_of (l_addr l) h <> [] /\
    (q <> p -> forall a b, a ∈ traps_of (l_addr l) h -> b ∈ traps_of (l_addr l) h -> ~ tr_source a <= addr <= tr_source b).

(** The dispatch of one trap, through the registry and the table. *)
Lemma static_dispatch_run me r_map s dynamic t rounds n l p h e :
  reg_ok s -> (forall l, l ∈ r_map -> lib_ok s l) -> NoDup (omap lib_header r_map) ->
  (fresh_libs s (omap lib_header r_map) <= free_places (rg_last s))%nat ->
  me <> lk_tid (rg_lock s) -> lk_mutex (rg_lock s) = 0 ->
  l ∈ r_map -> lib_header l = Some p -> rg_headers s !! p = Some h ->
  e ∈ traps_of (l_addr l) h -> tr_source e <> 0 -> traps_sorted (traps_of (l_addr l) h) ->
  Z.of_nat (length (h_traps h)) < 2 ^ 31 -> (length (h_traps h) + 2 <= n)%nat -> (1 <= rounds)%nat ->
  apart s r_map p (tr_source e) ->
  exists s', dyninstTrapHandler true me r_map dynamic t rounds n (tr_source e) s = Ret (tr_target e, s') /\
    rg_lock s' = free_lock /\ in_step r_map s s'.
Proof.
  intros Hs Hok Hnd Hcap Hme Hfree Hl Hp Hh He Hnz Hsort Hlen Hn Hr Hap.
  destruct (static_map_run me r_map s) with (addr := tr_source e) as (q & s' & E & Hlk & HI & Hq); try done.
  { intros ->. set_solver. }
  pose proof (is_libs _ _ _ HI) as Hw. destruct (Hw l p Hl Hp) as (h0 & h1 & Hh0 & Hh1 & (_ & _ & _ & Hsp) & _ & Ht & Hnum & _).
  rewrite Hh in Hh0. injection Hh0 as <-.
  assert (h_low_entry h1 <= tr_source e <= h_high_entry h1) as Hin by (apply Hsp; by rewrite Ht).
  assert (q = p) as ->.
  { destruct Hq as [[-> Hno]|(l' & h' & Hl' & Hq' & Hh' & Hin')]; [by destruct (Hno l p h1 Hl Hp Hh1)|].
    destruct (Hw l' q Hl' Hq') as (a & b & Ha & Hb & (_ & _ & _ & Hspb) & _ & Htb & _).
    rewrite Hh' in Hb. injection Hb as <-. destruct (Hap l' q a Hl' Hq' Ha) as [Hnil Hsep].
    destruct (decide (q = p)) as [|Hqp]; [done|]. destruct (traps_of (l_addr l') a) as [|x xs] eqn:Ex; [done|].
    destruct (Hspb x) as (_ & (y & Hy & Ey) & (z & Hz & Ez)); [rewrite Htb; set_solver|].
    rewrite Htb in Hy, Hz. destruct (Hsep Hqp y z Hy Hz). lia. }
  assert (p <> NULL) as Hpn by apply (lb_header s l (Hok l Hl) p Hp).
  destruct (translate_header_run h1 rounds n t e) as (t' & Et); rewrite ?Ht, ?length_traps_of in *; try done.
  exists s'. split; [|done]. unfold dyninstTrapHandler.
  erewrite bind_ret by (unfold assertM; rewrite (proj2 (Z.eqb_neq _ _) Hnz); reflexivity).
  rewrite (bind_ret _ _ _ _ _ E).
  erewrite bind_ret by (unfold assertM; rewrite (proj2 (Z.eqb_neq _ _) Hpn); reflexivity).
  erewrite bind_ret by (unfold get_header; rewrite Hh1; reflexivity).
  by rewrite (bind_ret _ _ _ _ _ (of_res_ret _ _ _ Et)).
Qed.

(** *** One trap after the other *)

(** The program counters after the traps of some threads at some addresses. *)
Fixpoint trap_all (r_map : list link_map) (dynamic : nat -> trap_state) (t rounds n : nat) (hits : list (Z * Z)) : M registry (list Z) :=
  match hits with
  | [] => mret []
  | (me, addr) :: hits' =>
      pc ← dyninstTrapHandler true me r_map dynamic t rounds n addr ;
      pcs ← trap_all r_map dynamic t rounds n hits' ;
      mret (pc :: pcs)
  end.

Lemma in_step_apart r_map s s' p addr : in_step r_map s s' -> (forall l, l ∈ r_map -> lib_ok s l) -> apart s r_map p addr -> apart s' r_map p addr.
Proof.
  intros I Hok Hap l q h' Hl Hq Hh'. destruct (lb_header _ _ (Hok l Hl) q Hq) as (_ & h & Hh & _).
  destruct (in_step_header _ _ _ _ _ _ I Hl Hq Hh) as (h1 & E1 & _ & Ht & _). rewrite Hh' in E1. injection E1 as <-. rewrite Ht. by apply Hap.
Qed.

Lemma trap_all_run r_map dynamic t rounds n l p es : forall s h,
  reg_ok s -> (forall l, l ∈ r_map -> lib_ok s l) -> NoDup (omap lib_header r_map) ->
  (fresh_libs s (omap lib_header r_map) <= free_places (rg_last s))%nat ->
  lk_mutex (rg_lock s) = 0 -> Forall (fun x => x.1 <> lk_tid (rg_lock s) /\ x.1 <> DYNINST_INITIAL_LOCK_PID) es ->
  l ∈ r_map -> lib_header l = Some p -> rg_headers s !! p = Some h ->
  Forall (fun x => x.2 ∈ traps_of (l_addr l) h /\ tr_source x.2 <> 0 /\ apart s r_map p (tr_source x.2)) es -> traps_sorted (traps_of (l_addr l) h) ->
  Z.of_nat (length (h_traps h)) < 2 ^ 31 -> (length (h_traps h) + 2 <= n)%nat -> (1 <= rounds)%nat ->
  exists s', trap_all r_map dynamic t rounds n (map (fun x => (x.1, tr_source x.2)) es) s = Ret (map (fun x => tr_target x.2) es, s') /\
    (es = [] /\ s' = s \/ rg_lock s' = free_lock /\ reg_ok s' /\ (forall x, x ∈ r_map -> lib_ok s' x) /\
      exists h', rg_headers s' !! p = Some h' /\ placed s' p h' /\ h_traps h' = traps_of (l_addr l) h /\ h_num_entries h' = Z.of_nat (length (h_traps h')) /\ h_signature h' = h_signature h).
Proof.
  induction es as [|[me e] es IH]; intros s h Hs Hok Hnd Hcap Hfree Hme Hl Hp Hh HF Hsort Hlen Hn Hr; [exists s; split; [done|by left]|].
  apply Forall_cons in HF as [(He & Hnz & Hap) HF], Hme as [[Hm1 Hm2] Hme]. simpl in He, Hnz, Hap, Hm1, Hm2.
  destruct (static_dispatch_run me r_map s dynamic t rounds n l p h e) as (s1 & E1 & Hlk & HI); try done.
  destruct (in_step_header _ _ _ _ _ _ HI Hl Hp Hh) as (h1 & Hh1 & HP1 & Ht1 & Ht1' & Hn1 & Hg1).
  assert (length (h_traps h1) = length (h_traps h)) as El by (by rewrite Ht1', length_traps_of).
  destruct (IH s1 h1) as (s' & E' & HR); try done; rewrite ?Ht1, ?El; try done; try apply HI.
  { by apply (in_step_libs r_map s). } { rewrite (in_step_fresh _ _ _ HI). lia. } { by rewrite Hlk. }
  { rewrite Hlk. apply (Forall_impl _ _ _ Hme). intros x [_ Hx]. by split. }
  { apply (Forall_impl _ _ _ HF). intros x (? & ? & ?). split_and!; try done. by apply (in_step_apart r_map s). }
  exists s'. split; [cbn [map trap_all]; by rewrite (bind_ret _ _ _ _ _ E1), (bind_ret _ _ _ _ _ E')|]. right. destruct HR as [[-> ->]|(? & ? & ? & h2 & ? & ? & Ht2 & ? & ?)].
  - split_and!; try done; [apply HI|by apply (in_step_libs r_map s)|]. exists h1. by split_and!.
  - split_and!; try done. exists h2. split_and!; try done; [by rewrite Ht2, Ht1|congruence].
Qed.

(** C27: in a statically rewritten program, a trap goes to its target.  Whatever
    libraries were loaded or unloaded since the last trap: if the registry has a
    place for every new one, the tables are sorted as the rewriter sorts them, no
    table is empty and no other library has traps on both sides of the address,
    dyninstTrapHandler sets the program counter to the target of the entry whose
    source trapped, and the lock is free afterwards.  It brings the registry in step
    with the linker's list: every library of the list has a place and its header
    holds its traps moved to the load address, once (a header that had a place is not
    moved again); the places in use are exactly those of these libraries, so that
    the places of unloaded ones are free; headers of other libraries are untouched;
    and every library is as the next trap needs it. *)
Theorem static_trap_dispatch me r_map s dynamic t rounds n l p h e :
  reg_ok s -> (forall l, l ∈ r_map -> lib_ok s l) -> NoDup (omap lib_header r_map) ->
  (fresh_libs s (omap lib_header r_map) <= free_places (rg_last s))%nat ->
  me <> lk_tid (rg_lock s) -> lk_mutex (rg_lock s) = 0 ->
  l ∈ r_map -> lib_header l = Some p -> rg_headers s !! p = Some h ->
  e ∈ traps_of (l_addr l) h -> tr_source e <> 0 -> traps_sorted (traps_of (l_addr l) h) ->
  Z.of_nat (length (h_traps h)) < 2 ^ 31 -> (length (h_traps h) + 2 <= n)%nat -> (1 <= rounds)%nat ->
  apart s r_map p (tr_source e) ->
  exists s', dyninstTrapHandler true me r_map dynamic t rounds n (tr_source e) s = Ret (tr_target e, s') /\
    rg_lock s' = free_lock /\ reg_ok s' /\ rg_last s' = rg_current s' /\
    (forall x q g, x ∈ r_map -> lib_header x = Some q -> rg_headers s !! q = Some g ->
       exists g', rg_headers s' !! q = Some g' /\ 0 <= h_pos g' < NUM_LIBRARIES /\ at_slot (rg_all_headers s') (h_pos g') = Some q /\
         bit (rg_current s') (h_pos g') = true /\ h_traps g' = if h_pos g =? -1 then map (moved_trap (l_addr x)) (h_traps g) else h_traps g) /\
    (forall k, 0 <= k -> bit (rg_current s') k = true ->
       exists x q g', x ∈ r_map /\ lib_header x = Some q /\ rg_headers s' !! q = Some g' /\ h_pos g' = k) /\
    (forall q, q ∉ omap lib_header r_map -> rg_headers s' !! q = rg_headers s !! q) /\
    (forall x, x ∈ r_map -> lib_ok s' x).
Proof.
  intros Hs Hok Hnd Hcap Hme Hfree Hl Hp Hh He Hnz Hsort Hlen Hn Hr Hap.
  destruct (static_dispatch_run me r_map s dynamic t rounds n l p h e) as (s' & E & Hlk & HI); try done. exists s'. split_and!; try done; try apply HI.
  - intros x q g Hx Hq Hg. destruct (is_libs _ _ _ HI x q Hx Hq) as (g0 & g' & Hg0 & Hg' & (Hpos & Hsl & _) & Hb & Ht & _). rewrite Hg in Hg0. injection Hg0 as <-. exists g'. split_and!; [exact Hg'|lia|lia|exact Hsl|exact Hb|exact Ht].
  - by apply (in_step_libs r_map s).
Qed.

(** Making the static heaps executable covers them whole, from a page boundary. *)
Lemma heap_pages_cover k heap size :
  0 <= k < 64 -> 0 <= heap -> 0 <= size -> heap + size < 2 ^ 64 ->
  let '(start, len) := heap_pages (2 ^ k) heap size in
  (2 ^ k | start) /\ start <= heap < start + 2 ^ k /\ start + len = heap + size.
Proof.
  intros Hk Hh Hsz Hlt. unfold heap_pages.
  rewrite land_lnot_pow2 by lia.
  pose proof (Z.mod_pos_bound heap (2 ^ k) ltac:(lia)). pose proof (Z.mod_le heap (2 ^ k) Hh ltac:(lia)).
  split_and!; try lia.
  - exists (heap / 2 ^ k). pose proof (Z.div_mod heap (2 ^ k)). lia.
  - rewrite uwrap_id by (unfold urange; lia). lia.
Qed.

(** ** Concrete libraries *)

(** One library, loaded at 4096, whose table has two traps. *)
Definition demo_lib : link_map := mk_link 4096 (Some [(5, 77); (DT_DYNINST, 904); (DT_NULL, 0)]).
Definition demo_other : link_map := mk_link 8192 (Some [(5, 77); (DT_NULL, 0)]).
Definition demo_header : trap_mapping_header :=
  mk_header TRAP_HEADER_SIG 2 (-1) 0 0 [mk_trap 16 100; mk_trap 32 200].
Definition demo_registry : registry :=
  mk_registry (replicate 512 0) (replicate 17 0) (replicate 17 0) {[5000 := demo_header]} (mk_lock 0 0).

Lemma demo_mask_ok : mask_ok (replicate 17 0).
Proof. split; [done|]. apply Forall_replicate. by unfold urange. Qed.

Lemma bitmask_searches_witness :
  mask_ok (rg_current demo_registry) /\
  exists r, get_next_set_bitmask (rg_current demo_registry) (-1) = Ret r /\
    ((-1 < r < NUM_LIBRARIES /\ bit (rg_current demo_registry) r = true) \/ r = NUM_LIBRARIES) /\
    forall k, -1 < k < r -> bit (rg_current demo_registry) k = false.
Proof.
  split; [exact demo_mask_ok|]. apply (bitmask_searches (rg_current demo_registry) (-1) demo_mask_ok). by left.
Defined.

Lemma demo_libs_ok l : l ∈ [demo_lib; demo_other] -> lib_ok demo_registry l.
Proof.
  intros [->|[->|[]%not_elem_of_nil]%elem_of_cons]%elem_of_cons; split.
  - intros dyn [= <-]. by eexists.
  - intros p [= <-]. split; [done|]. exists demo_header. split_and!; try done. left. split_and!; try done.
    intros e [->|[->|[]%not_elem_of_nil]%elem_of_cons]%elem_of_cons; by vm_compute.
  - intros dyn [= <-]. by eexists.
  - done.
Qed.

Lemma static_trap_dispatch_witness :
  exists s', dyninstTrapHandler true 7 [demo_lib; demo_other] (fun _ => demo_traps) 0 1 4 4128 demo_registry = Ret (4296, s') /\
    rg_lock s' = free_lock.
Proof.
  enough (exists s', dyninstTrapHandler true 7 [demo_lib; demo_other] (fun _ => demo_traps) 0 1 4 4128 demo_registry = Ret (4296, s') /\
    rg_lock s' = free_lock /\ reg_ok s') as (s' & E & Hl & _) by (exists s'; split; [exact E|exact Hl]).
  edestruct (static_trap_dispatch 7 [demo_lib; demo_other] demo_registry (fun _ => demo_traps) 0 1 4 demo_lib 5000 demo_header
    (mk_trap 4128 4296)) as (s' & E & Hl & Hr & _); [..|exists s'; split; [exact E|split; [exact Hl|exact Hr]]]; try done; try (simpl; lia).
  - split; [exact demo_mask_ok|exact demo_mask_ok|done].
  - exact demo_libs_ok.
  - apply NoDup_singleton.
  - vm_compute. lia.
  - set_solver.
  - change (traps_of (l_addr demo_lib) demo_header) with [mk_trap 4112 4196; mk_trap 4128 4296]. set_solver.
  - change (traps_of (l_addr demo_lib) demo_header) with [mk_trap 4112 4196; mk_trap 4128 4296].
    intros [|[|i]] [|[|j]] a b Hij Ha Hb; simpl in *; simplify_eq; simpl; lia.
  - intros l q h [->|[->|[]%not_elem_of_nil]%elem_of_cons]%elem_of_cons Hq Hh; [|done].
    injection Hq as <-. split; [|done]. injection Hh as <-. done.
Defined.
