(* ===== verification/RTHeap.v ===== *)
(** * Heaps of the runtime: dyninstAPI_RT/src/RTheap.c, RTheap-linux.c, RTposix.c

    Memory for instrumentation must lie within reach of the code it serves, so
    the runtime maps it itself: it reads the memory map of the process, looks for
    a gap inside the bounds the mutator gives, and maps pages there at a fixed
    address.  A mapping at a fixed address replaces whatever is there, so the
    search must never offer an address in use.  The heaps are kept in a doubly
    linked list. *)
From stdpp Require Import base gmap list list_numbers sorting.
From S2P Require Import Prelude ListHead RTLock RTThread.

(** A segment of the address space. *)
Record dyninstmm_t : Type := mk_mm { pr_vaddr : Z; pr_size : Z }.

Definition BEG (m : dyninstmm_t) : Z := pr_vaddr m.
Definition END (m : dyninstmm_t) : Z := u64 (pr_vaddr m + pr_size m).

Inductive heapType_t : Type := HEAP_TYPE_UNKNOWN | HEAP_TYPE_MMAP | HEAP_TYPE_MALLOC.

Record heap_t : Type := mk_heap { hp_ret_addr : Z; hp_addr : Z; hp_len : Z; hp_type : heapType_t }.

Record heapList_t : Type := mk_hnode { hn_heap : heap_t; hn_prev : Z; hn_next : Z }.

(** System calls and C library calls that change the address space. *)
Inductive os_call : Type :=
| CMmap (addr len : Z)
| CMunmap (addr len : Z)
| CMalloc (size : Z)
| CFree (addr : Z).

Record hstate : Type := mk_hstate {
  hs_nodes : gmap Z heapList_t;    (* the nodes in memory, by address *)
  hs_Heaps : Z;
  hs_brk : Z;                      (* the address of the next node *)
  hs_calls : list os_call          (* latest first *)
}.

(** The operating system: each answer may depend on the calls before it. *)
Class Os : Type := {
  os_mmap : list os_call -> Z -> Z -> option Z;   (* [None]: MAP_FAILED *)
  os_munmap : list os_call -> Z -> Z -> bool;
  os_malloc : list os_call -> Z -> Z
}.

(** The constants of RTheap-linux.c for 64-bit programs. *)
Definition DYNINSTheap_align : Z := 4.
Definition DYNINSTheap_loAddr : Z := 0x10000.
Definition DYNINSTheap_hiAddr : Z := UINT64_MAX.
Definition DYNINSTheap_useMalloc (lo hi : Z) : bool := false.

(** [abort()] when two neighbours overlap. *)
Fixpoint heap_checkMappings (maps : list dyninstmm_t) : res unit :=
  match maps with
  | a :: (b :: _) as maps' =>
      if pr_vaddr b <? u64 (pr_vaddr a + pr_size a) then Fault FAbort else heap_checkMappings maps'
  | _ => Ret tt
  end.

Definition heap_alignUp (addr align : Z) : Z :=
  if addr mod align =? 0 then addr else u64 ((addr / align + 1) * align).

Definition heap_memmapCompare (a b : dyninstmm_t) : Z :=
  if pr_vaddr a <? pr_vaddr b then -1 else if pr_vaddr b <? pr_vaddr a then 1 else 0.

Definition mm_le (a b : dyninstmm_t) : Prop := heap_memmapCompare a b <= 0.
#[global] Instance mm_le_dec a b : Decision (mm_le a b).
Proof. unfold mm_le. apply _. Defined.

(** qsort() with that comparison. *)
Definition qsort_maps (maps : list dyninstmm_t) : list dyninstmm_t := merge_sort mm_le maps.

Section Operations.
Context `{Os}.

(** [len] is an int here. *)
Definition map_region (addr len : Z) : M hstate Z := fun s =>
  let len := u64 (s32 len) in
  Ret (match os_mmap (hs_calls s) addr len with None => NULL | Some a => a end,
       mk_hstate (hs_nodes s) (hs_Heaps s) (hs_brk s) (CMmap addr len :: hs_calls s)).
Definition unmap_region (addr len : Z) : M hstate bool := fun s =>
  let len := u64 (s32 len) in
  Ret (os_munmap (hs_calls s) addr len,
       mk_hstate (hs_nodes s) (hs_Heaps s) (hs_brk s) (CMunmap addr len :: hs_calls s)).
Definition libc_malloc (size : Z) : M hstate Z := fun s =>
  Ret (os_malloc (hs_calls s) size,
       mk_hstate (hs_nodes s) (hs_Heaps s) (hs_brk s) (CMalloc size :: hs_calls s)).
Definition libc_free (addr : Z) : M hstate unit := fun s =>
  Ret (tt, mk_hstate (hs_nodes s) (hs_Heaps s) (hs_brk s) (CFree addr :: hs_calls s)).

(** The loop over the pages of the region; [n] bounds its rounds. *)
Fixpoint trymmap_loop (n : nat) (len addr end_ inc : Z) : M hstate Z :=
  match n with
  | O => fail FFuel
  | S n' =>
      if u64 (addr + len) <=? end_ then
        result ← map_region addr len ;
        if negb (result =? NULL) then mret result else trymmap_loop n' len (u64 (addr + inc)) end_ inc
      else mret NULL
  end.
Definition trymmap (len beg end_ inc : Z) : M hstate Z :=
  trymmap_loop (Z.to_nat ((end_ - beg) / inc) + 2) len beg end_ inc.

Definition seg (maps : list dyninstmm_t) (i : Z) : M hstate dyninstmm_t := fun s =>
  match at_slot maps i with Some m => Ret (m, s) | None => Fault FBounds end.

(** The two loops that move the bounds out of the segments; pointers into
    [maps] are indices. *)
Fixpoint shift_lo (n : nat) (maps : list dyninstmm_t) (lo mlo mhi : Z) : M hstate (Z * Z) :=
  match n with
  | O => fail FFuel
  | S n' =>
      if mlo <=? mhi then
        m ← seg maps mlo ;
        if lo <? BEG m then mret (lo, mlo) else
        let lo := if (BEG m <=? lo) && (lo <? END m) then END m else lo in
        shift_lo n' maps lo (mlo + 1) mhi
      else mret (lo, mlo)
  end.
Fixpoint shift_hi (n : nat) (maps : list dyninstmm_t) (hi mlo mhi : Z) : M hstate (Z * Z) :=
  match n with
  | O => fail FFuel
  | S n' =>
      if mlo <=? mhi then
        m ← seg maps mhi ;
        if END m <? hi then mret (hi, mhi) else
        let hi := if (BEG m <=? hi) && (hi <=? END m) then BEG m else hi in
        shift_hi n' maps hi mlo (mhi - 1)
      else mret (hi, mhi)
  end.

(** The gaps between the segments from [p] to [mhi]. *)
Fixpoint try_between (n : nat) (maps : list dyninstmm_t) (len psize p mhi : Z) : M hstate Z :=
  match n with
  | O => fail FFuel
  | S n' =>
      if p <? mhi then
        a ← seg maps p ;
        b ← seg maps (p + 1) ;
        try_ ← trymmap len (END a) (BEG b) psize ;
        if negb (try_ =? NULL) then mret try_ else try_between n' maps len psize (p + 1) mhi
      else mret NULL
  end.

Definition page_floor (psize x : Z) : Z := Z.land x (Z.lnot (psize - 1)).
Definition page_len (psize len : Z) : Z :=
  if len mod psize =? 0 then len else page_floor psize (u64 (len + psize)).

Definition constrained_mmap (psize len lo hi : Z) (maps : list dyninstmm_t) : M hstate Z :=
  let nmaps := Z.of_nat (length maps) in
  let n := S (length maps) in
  if DYNINSTheap_hiAddr <? lo then mret 0 else
  let lo := if lo <? DYNINSTheap_loAddr then DYNINSTheap_loAddr else lo in
  let hi := if DYNINSTheap_hiAddr <? hi then DYNINSTheap_hiAddr else hi in
  let lo := page_floor psize lo in
  let hi := page_floor psize hi in
  let len := page_len psize len in
  assertM (lo <? hi) ;;
  r ← shift_lo n maps lo 0 (nmaps - 1) ;
  let '(lo, mlo) := r in
  r ← shift_hi n maps hi mlo (nmaps - 1) ;
  let '(hi, mhi) := r in
  if hi <=? lo then mret 0 else
  m ← seg maps mlo ;
  outside ← (if hi <=? BEG m then mret true else m' ← seg maps mhi ; mret (END m' <=? lo)) ;
  if (outside : bool) then trymmap len lo hi psize else
  m' ← seg maps mhi ;
  assertM ((lo <? BEG m) && (END m' <? hi)) ;;
  try_ ← trymmap len lo (BEG m) psize ;
  if negb (try_ =? NULL) then mret try_ else
  try_ ← try_between n maps len psize mlo mhi ;
  if negb (try_ =? NULL) then mret try_ else
  trymmap len (END m') hi psize.

(** ** The list of heaps *)

Definition get_hnode (p : Z) : M hstate heapList_t := fun s =>
  if p =? NULL then Fault FNull else
  match hs_nodes s !! p with Some x => Ret (x, s) | None => Fault FBadPtr end.
Definition put_hnode (p : Z) (x : heapList_t) : M hstate unit := modify (fun s =>
  mk_hstate (<[p := x]> (hs_nodes s)) (hs_Heaps s) (hs_brk s) (hs_calls s)).
Definition set_Heaps (p : Z) : M hstate unit := modify (fun s =>
  mk_hstate (hs_nodes s) p (hs_brk s) (hs_calls s)).
(** malloc() and free() of a node. *)
Definition new_hnode : M hstate Z := fun s =>
  Ret (hs_brk s, mk_hstate (<[hs_brk s := mk_hnode (mk_heap 0 0 0 HEAP_TYPE_UNKNOWN) 0 0]> (hs_nodes s)) (hs_Heaps s)
    (hs_brk s + 1) (hs_calls s)).
Definition free_hnode (p : Z) : M hstate unit := modify (fun s =>
  mk_hstate (delete p (hs_nodes s)) (hs_Heaps s) (hs_brk s) (hs_calls s)).

Definition set_hnode_heap (p : Z) (h : heap_t) : M hstate unit :=
  x ← get_hnode p ; put_hnode p (mk_hnode h (hn_prev x) (hn_next x)).
Definition set_hnode_prev (p v : Z) : M hstate unit :=
  x ← get_hnode p ; put_hnode p (mk_hnode (hn_heap x) v (hn_next x)).
Definition set_hnode_next (p v : Z) : M hstate unit :=
  x ← get_hnode p ; put_hnode p (mk_hnode (hn_heap x) (hn_prev x) v).

(** The insertion at the end of DYNINSTos_malloc. *)
Definition heap_insert (node : Z) : M hstate unit :=
  set_hnode_prev node NULL ;;
  head ← gets hs_Heaps ;
  set_hnode_next node head ;;
  (if negb (head =? NULL) then set_hnode_prev head node else mret tt) ;;
  set_Heaps node.

(** [memory_map] is the answer of DYNINSTgetMemoryMap, [fd_ok] whether
    /dev/zero could be opened. *)
Definition DYNINSTos_malloc (psize : Z) (memory_map : option (list dyninstmm_t)) (fd_ok : bool)
    (nbytes lo_addr hi_addr : Z) : M hstate Z :=
  node ← new_hnode ;
  if negb (nbytes mod DYNINSTheap_align =? 0) then free_hnode node ;; mret (u64 (-1)) else
  let finish :=
    heap_insert node ;;
    x ← get_hnode node ;
    mret (hp_ret_addr (hn_heap x)) in
  if DYNINSTheap_useMalloc lo_addr hi_addr then
    let size_heap := s32 (nbytes + DYNINSTheap_align) in
    heap ← libc_malloc (u64 size_heap) ;
    if heap =? NULL then free_hnode node ;; mret NULL else
    let ret_heap := heap_alignUp heap DYNINSTheap_align in
    if (ret_heap <? lo_addr) || (hi_addr <? u64 (ret_heap + nbytes - 1)) then
      libc_free heap ;; free_hnode node ;; mret NULL
    else set_hnode_heap node (mk_heap ret_heap heap (u64 size_heap) HEAP_TYPE_MALLOC) ;; finish
  else if (hi_addr <? DYNINSTheap_loAddr) || (DYNINSTheap_hiAddr <? lo_addr) then free_hnode node ;; mret NULL
  else match memory_map with
  | None => free_hnode node ;; mret NULL
  | Some maps =>
      let maps := qsort_maps maps in
      match heap_checkMappings maps with
      | Fault e => fail e
      | Ret _ =>
          if negb fd_ok then free_hnode node ;; mret NULL else
          heap ← constrained_mmap psize nbytes lo_addr hi_addr maps ;
          if heap =? NULL then free_hnode node ;; mret NULL else
          set_hnode_heap node (mk_heap heap heap nbytes HEAP_TYPE_MMAP) ;; finish
      end
  end.

(** The removal from the list in DYNINSTos_free; [x] is the node at [t]. *)
Definition heap_unlink (t : Z) (x : heapList_t) : M hstate unit :=
  (if negb (hn_next x =? NULL) then set_hnode_prev (hn_next x) (hn_prev x) else mret tt) ;;
  (if negb (hn_prev x =? NULL) then set_hnode_next (hn_prev x) (hn_next x) else mret tt) ;;
  head ← gets hs_Heaps ;
  (if head =? t then set_Heaps (hn_next x) else mret tt).

(** The search and removal of DYNINSTos_free, from node [t]. *)
Fixpoint free_from (n : nat) (buf t : Z) : M hstate Z :=
  match n with
  | O => fail FFuel
  | S n' =>
      if t =? NULL then mret 0 else
      x ← get_hnode t ;
      if negb (hp_ret_addr (hn_heap x) =? buf) then free_from n' buf (hn_next x) else
      heap_unlink t x ;;
      ret ← (match hp_type (hn_heap x) with
             | HEAP_TYPE_MMAP => ok ← unmap_region (hp_addr (hn_heap x)) (hp_len (hn_heap x)) ; mret (if (ok : bool) then 0 else -1)
             | HEAP_TYPE_MALLOC => libc_free (hp_addr (hn_heap x)) ;; mret 0
             | HEAP_TYPE_UNKNOWN => mret (-1)
             end) ;
      free_hnode t ;;
      mret ret
  end.
Definition DYNINSTos_free (buf : Z) : M hstate Z :=
  n ← gets (fun s => S (size (hs_nodes s))) ;
  head ← gets hs_Heaps ;
  free_from n buf head.
End Operations.

(** ** The search for a gap *)

(** The address space map, as the kernel gives it: sorted, without overlaps,
    page by page. *)
Record maps_ok (psize : Z) (maps : list dyninstmm_t) : Prop := {
  mp_seg : forall m, m ∈ maps -> 0 <= pr_vaddr m /\ 0 <= pr_size m /\ pr_vaddr m + pr_size m < 2 ^ 64 /\
    (psize | pr_vaddr m) /\ (psize | pr_size m);
  mp_sorted : forall i j a b, (i < j)%nat -> maps !! i = Some a -> maps !! j = Some b -> pr_vaddr a + pr_size a <= pr_vaddr b
}.

(** [len] bytes at [addr] touch no segment. *)
Definition clear_of (maps : list dyninstmm_t) (len addr : Z) : Prop :=
  forall m, m ∈ maps -> END m <= addr \/ addr + len <= BEG m.

Section Search.
Context `{Os}.

Definition answer (calls : list os_call) (addr len : Z) : Z :=
  match os_mmap calls addr len with None => NULL | Some a => a end.

(** Trying addresses in turn, up to and including the first that the kernel
    accepts: the calls before and after, and the result. *)
Inductive outcome (len : Z) : list os_call -> list Z -> Z -> list os_call -> Prop :=
| out_none c : outcome len c [] NULL c
| out_taken c a : answer c a len <> NULL -> outcome len c [a] (answer c a len) (CMmap a len :: c)
| out_refused c a tried r c' :
    answer c a len = NULL -> outcome len (CMmap a len :: c) tried r c' -> outcome len c (a :: tried) r c'.

Lemma outcome_app len c tried1 c1 tried2 r c2 :
  outcome len c tried1 NULL c1 -> outcome len c1 tried2 r c2 -> outcome len c (tried1 ++ tried2) r c2.
Proof.
  intros H1. remember NULL as z eqn:Ez. revert Ez. induction H1 as [c|c a Ha|c a t r' c' Ha H1 IH]; intros Ez H2; simpl.
  - done.
  - done.
  - apply out_refused; [done|]. by apply IH.
Qed.

Definition with_calls (s : hstate) (c : list os_call) : hstate := mk_hstate (hs_nodes s) (hs_Heaps s) (hs_brk s) c.

Lemma map_region_run addr len s :
  0 <= len < 2 ^ 31 ->
  map_region addr len s = Ret (answer (hs_calls s) addr len, with_calls s (CMmap addr len :: hs_calls s)).
Proof.
  intros Hl. unfold map_region. rewrite swrap_id by (unfold srange; lia). by rewrite uwrap_id by (unfold urange; lia).
Qed.

(** The pages [b], [b + inc], ... where [len] bytes end at [e] or below. *)
Definition on_grid (b e inc len a : Z) : Prop := a + len <= e /\ exists j, 0 <= j /\ a = b + j * inc.

(** What a search over the addresses [P] does: it tries only such addresses and
    gives up only when it has tried them all. *)
Definition searches (len : Z) (P : Z -> Prop) (m : M hstate Z) (s : hstate) : Prop :=
  exists tried r c', m s = Ret (r, with_calls s c') /\ outcome len (hs_calls s) tried r c' /\
    Forall P tried /\ (r = NULL -> forall a, P a -> a ∈ tried).

Lemma trymmap_loop_run n len b e inc s :
  0 < inc -> 0 <= len < 2 ^ 31 -> 0 <= b -> 0 <= e -> e + len + inc < 2 ^ 64 -> b + len < 2 ^ 64 ->
  (1 <= n)%nat -> e - b < (Z.of_nat n - 1) * inc ->
  searches len (on_grid b e inc len) (trymmap_loop n len b e inc) s.
Proof.
  intros Hinc Hl Hb He0 He. revert b s Hb. induction n as [|n IH]; intros b s Hb Hbl Hn1 Hn; [lia|].
  cbn [trymmap_loop]. rewrite (uwrap_id 64 (b + len)) by (unfold urange; lia). destruct (b + len <=? e) eqn:E; zbool.
  - unfold searches. rewrite (bind_ret _ _ _ _ _ (map_region_run b len s Hl)).
    assert (on_grid b e inc len b) as Hg by (split; [lia|exists 0; lia]).
    destruct (answer (hs_calls s) b len =? NULL) eqn:Ea; zbool; cbn [negb].
    + rewrite uwrap_id by (unfold urange; lia).
      destruct (IH (b + inc) (with_calls s (CMmap b len :: hs_calls s))) as (tried & r & c' & Er & Ho & HF & Hall); [lia|lia|nia|nia|].
      exists (b :: tried), r, c'. split_and!; [by rewrite Er|by apply out_refused| |].
      * constructor; [done|]. eapply Forall_impl; [exact HF|]. intros a (? & j & ? & ->). split; [lia|]. exists (j + 1). lia.
      * intros Hr a (Ha & j & Hj & ->). destruct (decide (j = 0)) as [->|]; [rewrite Z.mul_0_l, Z.add_0_r; set_solver|].
        apply elem_of_cons. right. apply Hall; [done|]. split; [lia|]. exists (j - 1). lia.
    + exists [b], (answer (hs_calls s) b len), (CMmap b len :: hs_calls s). split_and!; [done|by apply out_taken| |done].
      by constructor.
  - exists [], NULL, (hs_calls s). split; [by destruct s|]. split; [constructor|]. split; [done|].
    intros _ a (Ha & j & Hj & ->). nia.
Qed.

Lemma trymmap_run len b e inc s :
  0 < inc -> 0 <= len < 2 ^ 31 -> 0 <= b -> 0 <= e -> e + len + inc < 2 ^ 64 -> b + len < 2 ^ 64 ->
  searches len (on_grid b e inc len) (trymmap len b e inc) s.
Proof.
  intros Hinc Hl Hb He0 He Hbl. unfold trymmap. apply trymmap_loop_run; try done; [lia|].
  pose proof (Z.div_mod (e - b) inc ltac:(lia)). pose proof (Z.mod_pos_bound (e - b) inc Hinc). nia.
Qed.

Lemma searches_seq len (P1 P2 P : Z -> Prop) m k s :
  searches len P1 m s -> (forall s', searches len P2 k s') ->
  (forall a, P1 a -> P a) -> (forall a, P2 a -> P a) -> (forall a, P a -> P1 a \/ P2 a) ->
  searches len P (r ← m ; if negb (r =? NULL) then mret r else k) s.
Proof.
  intros (t1 & r1 & c1 & E1 & O1 & F1 & A1) Hk H1 H2 HP. unfold searches. rewrite (bind_ret _ _ _ _ _ E1).
  destruct (r1 =? NULL) eqn:Er; zbool; cbn [negb].
  - subst r1. destruct (Hk (with_calls s c1)) as (t2 & r2 & c2 & E2 & O2 & F2 & A2).
    exists (t1 ++ t2), r2, c2. split_and!; [done|by eapply outcome_app| |].
    + apply Forall_app. split; (eapply Forall_impl; [eassumption|auto]).
    + intros Hr a Ha. apply elem_of_app. destruct (HP a Ha); [left|right]; auto.
  - exists t1, r1, c1. split_and!; [done|done|by eapply Forall_impl; [exact F1|]|done].
Qed.

Lemma searches_iff len P Q m s : (forall a, P a <-> Q a) -> searches len P m s -> searches len Q m s.
Proof.
  intros HPQ (t & r & c & E & O & F & A). exists t, r, c. split_and!; try done.
  - eapply Forall_impl; [exact F|]. intros. by apply HPQ.
  - intros Hr a Ha. apply A; [done|]. by apply HPQ.
Qed.

Lemma searches_bind {A} len P (m : M hstate A) k s a :
  m s = Ret (a, s) -> searches len P (k a) s -> searches len P (m ≫= k) s.
Proof. intros E. unfold searches. by rewrite (bind_ret _ _ _ _ _ E). Qed.

Lemma searches_nothing len P s : (forall a, ~ P a) -> searches len P (mret NULL) s.
Proof.
  intros HP. exists [], NULL, (hs_calls s). split_and!; [by destruct s|constructor|done|]. intros _ a Ha. by destruct (HP a).
Qed.
End Search.

(** ** The bounds of the search *)
Section Bounds.
Context `{Os} (psize len : Z) (maps : list dyninstmm_t).
Hypotheses (Hps : 0 < psize) (Hmaps : maps_ok psize maps) (Hlen : 0 < len < 2 ^ 31).

Lemma END_eq m : m ∈ maps -> END m = pr_vaddr m + pr_size m.
Proof. intros Hm. destruct (mp_seg _ _ Hmaps m Hm) as (? & ? & ? & _). unfold END. apply uwrap_id. unfold urange. lia. Qed.

Lemma END_page m : m ∈ maps -> (psize | END m).
Proof. intros Hm. rewrite (END_eq m Hm). destruct (mp_seg _ _ Hmaps m Hm) as (_ & _ & _ & ? & ?). by apply Z.divide_add_r. Qed.

Lemma BEG_page m : m ∈ maps -> (psize | BEG m).
Proof. intros Hm. by destruct (mp_seg _ _ Hmaps m Hm) as (_ & _ & _ & ? & _). Qed.

Lemma BEG_END m : m ∈ maps -> 0 <= BEG m <= END m /\ END m < 2 ^ 64.
Proof. intros Hm. rewrite (END_eq m Hm). destruct (mp_seg _ _ Hmaps m Hm) as (? & ? & ? & _). unfold BEG. lia. Qed.

Lemma segs_sorted i j a b : (i < j)%nat -> maps !! i = Some a -> maps !! j = Some b -> END a <= BEG b.
Proof.
  intros Hij Ha Hb. rewrite (END_eq a) by (by eapply list_elem_of_lookup_2). by apply (mp_sorted _ _ Hmaps i j).
Qed.

Lemma seg_run (i : nat) m s : maps !! i = Some m -> seg maps (Z.of_nat i) s = Ret (m, s).
Proof. intros E. unfold seg. by rewrite at_slot_nat, E. Qed.

Lemma shift_lo_run n lo (mlo : nat) s :
  (mlo <= length maps)%nat -> (length maps - mlo < n)%nat -> (psize | lo) ->
  (forall i m, (i < mlo)%nat -> maps !! i = Some m -> END m <= lo) ->
  exists lo' mlo' : _, shift_lo n maps lo (Z.of_nat mlo) (Z.of_nat (length maps) - 1) s = Ret ((lo', Z.of_nat mlo'), s) /\
    lo <= lo' /\ (mlo' <= length maps)%nat /\ (psize | lo') /\
    (forall i m, (i < mlo')%nat -> maps !! i = Some m -> END m <= lo') /\
    (forall m, maps !! mlo' = Some m -> lo' < BEG m) /\
    (forall a, lo <= a -> clear_of maps len a -> lo' <= a).
Proof.
  revert lo mlo. induction n as [|n IH]; intros lo mlo Hm Hn Hp Hbelow; [lia|]. cbn [shift_lo].
  destruct (Z.of_nat mlo <=? Z.of_nat (length maps) - 1) eqn:E; zbool.
  - destruct (lookup_lt_is_Some_2 maps mlo) as [m Em]; [lia|]. rewrite (bind_ret _ _ _ _ _ (seg_run mlo m s Em)).
    assert (m ∈ maps) as Hin by (by eapply list_elem_of_lookup_2). pose proof (BEG_END m Hin).
    destruct (lo <? BEG m) eqn:El; zbool.
    { exists lo, mlo. split_and!; try done. intros x Hx. congruence. }
    cbv zeta. match goal with |- context [shift_lo n maps ?x] => set (lo1 := x) end.
    assert (lo <= lo1 /\ END m <= lo1 /\ (psize | lo1) /\ forall a, lo <= a -> clear_of maps len a -> lo1 <= a) as (H1 & H2 & H3 & H4).
    { unfold lo1. destruct ((BEG m <=? lo) && (lo <? END m)) eqn:Ec.
      - zbool. split_and!; [lia|lia|by apply END_page|]. intros a Ha Hc. destruct (Hc m Hin); lia.
      - apply andb_false_iff in Ec as [Ec|Ec]; zbool; [lia|]. split_and!; try done; lia. }
    replace (Z.of_nat mlo + 1) with (Z.of_nat (S mlo)) by lia.
    destruct (IH lo1 (S mlo)) as (lo' & mlo' & E' & ? & ? & ? & ? & ? & Ha); [lia|lia|done| |].
    { intros i x Hi Hx. destruct (decide (i = mlo)) as [->|]; [by simplify_eq|]. etrans; [|exact H1]. apply (Hbelow i); [lia|done]. }
    exists lo', mlo'. split_and!; try done; [lia|]. intros a Hla Hc. apply Ha; auto.
  - exists lo, mlo. split_and!; try done. intros m Em. apply lookup_lt_Some in Em. lia.
Qed.

Lemma shift_hi_run n hi (mlo : nat) (mhi : Z) s :
  -1 <= mhi < Z.of_nat (length maps) -> Z.of_nat mlo - 1 <= mhi -> (Z.to_nat (mhi + 1 - Z.of_nat mlo) < n)%nat -> (psize | hi) ->
  (forall i m, mhi < Z.of_nat i -> maps !! i = Some m -> hi <= BEG m) ->
  exists hi' mhi', shift_hi n maps hi (Z.of_nat mlo) mhi s = Ret ((hi', mhi'), s) /\
    hi' <= hi /\ Z.of_nat mlo - 1 <= mhi' <= mhi /\ (psize | hi') /\
    (forall i m, mhi' < Z.of_nat i -> maps !! i = Some m -> hi' <= BEG m) /\
    (Z.of_nat mlo <= mhi' -> forall m, maps !! Z.to_nat mhi' = Some m -> END m < hi') /\
    (forall a, a + len <= hi -> clear_of maps len a -> a + len <= hi').
Proof.
  revert hi mhi. induction n as [|n IH]; intros hi mhi Hm Hml Hn Hp Habove; [lia|]. cbn [shift_hi].
  destruct (Z.of_nat mlo <=? mhi) eqn:E; zbool.
  - destruct (lookup_lt_is_Some_2 maps (Z.to_nat mhi)) as [m Em]; [lia|].
    pose proof (seg_run (Z.to_nat mhi) m s Em) as Hseg. rewrite Z2Nat.id in Hseg by lia. rewrite (bind_ret _ _ _ _ _ Hseg).
    assert (m ∈ maps) as Hin by (by eapply list_elem_of_lookup_2). pose proof (BEG_END m Hin).
    destruct (END m <? hi) eqn:El; zbool.
    { exists hi, mhi. split_and!; try done. intros _ x Hx. congruence. }
    cbv zeta. match goal with |- context [shift_hi n maps ?x] => set (hi1 := x) end.
    assert (hi1 <= hi /\ hi1 <= BEG m /\ (psize | hi1) /\ forall a, a + len <= hi -> clear_of maps len a -> a + len <= hi1) as (H1 & H2 & H3 & H4).
    { unfold hi1. destruct ((BEG m <=? hi) && (hi <=? END m)) eqn:Ec.
      - zbool. split_and!; [lia|lia|by apply BEG_page|]. intros a Ha Hc. destruct (Hc m Hin); lia.
      - apply andb_false_iff in Ec as [Ec|Ec]; zbool; [|lia]. split_and!; try done; lia. }
    destruct (IH hi1 (mhi - 1)) as (hi' & mhi' & E' & ? & ? & ? & ? & ? & Ha); [lia|lia|lia|done| |].
    { intros i x Hi Hx. destruct (decide (Z.of_nat i = mhi)) as [Ei|].
      - assert (Z.to_nat mhi = i) as Ei' by lia. rewrite Ei' in Em. by simplify_eq.
      - etrans; [exact H1|]. apply (Habove i); [lia|done]. }
    exists hi', mhi'. split_and!; try done; [lia|lia|lia|]. intros a Hla Hc. apply Ha; auto.
  - exists hi, mhi. split_and!; try done. intros ?. lia.
Qed.

(** A page-aligned stretch between two pages. *)
Definition inside (b e a : Z) : Prop := b <= a /\ a + len <= e /\ (psize | a).

Lemma on_grid_inside b e a : (psize | b) -> on_grid b e psize len a <-> inside b e a.
Proof.
  intros [kb Hb]. split.
  - intros (Ha & j & Hj & ->). split_and!; [nia|done|]. exists (kb + j). lia.
  - intros (Hba & Ha & ka & Hka). split; [done|]. exists (ka - kb). nia.
Qed.

Lemma try_gap b e s :
  (psize | b) -> 0 <= b -> 0 <= e -> e + len + psize < 2 ^ 64 -> b + len < 2 ^ 64 -> searches len (inside b e) (trymmap len b e psize) s.
Proof.
  intros Hb ? ? ? ?. apply (searches_iff len (on_grid b e psize len)); [intros a; by apply on_grid_inside|].
  apply trymmap_run; try done; lia.
Qed.

(** Stretches between the segments from [p] to [mhi]. *)
Definition between (p mhi : nat) (a : Z) : Prop :=
  exists i x y, (p <= i < mhi)%nat /\ maps !! i = Some x /\ maps !! S i = Some y /\ inside (END x) (BEG y) a.

Lemma try_between_run n (p mhi : nat) s :
  (mhi < length maps)%nat -> (mhi - p < n)%nat ->
  (forall i m, (i <= mhi)%nat -> maps !! i = Some m -> END m + len + psize < 2 ^ 64) ->
  searches len (between p mhi) (try_between n maps len psize (Z.of_nat p) (Z.of_nat mhi)) s.
Proof.
  intros Hmhi Hn Hend. revert p s Hn. induction n as [|n IH]; intros p s Hn; [lia|]. cbn [try_between].
  destruct (Z.of_nat p <? Z.of_nat mhi) eqn:E; zbool.
  - destruct (lookup_lt_is_Some_2 maps p) as [x Ex]; [lia|]. destruct (lookup_lt_is_Some_2 maps (S p)) as [y Ey]; [lia|].
    unfold searches. rewrite (bind_ret _ _ _ _ _ (seg_run p x s Ex)).
    replace (Z.of_nat p + 1) with (Z.of_nat (S p)) by lia. rewrite (bind_ret _ _ _ _ _ (seg_run (S p) y s Ey)).
    assert (x ∈ maps) as Hx by (by eapply list_elem_of_lookup_2). assert (y ∈ maps) as Hy by (by eapply list_elem_of_lookup_2).
    pose proof (Hend p x ltac:(lia) Ex). pose proof (Hend (S p) y ltac:(lia) Ey).
    pose proof (BEG_END x Hx). pose proof (BEG_END y Hy).
    apply (searches_seq len (inside (END x) (BEG y)) (between (S p) mhi)).
    + apply try_gap; [by apply END_page|lia|lia|lia|lia].
    + intros s'. apply IH. lia.
    + intros a Ha. exists p, x, y. split_and!; try done; lia.
    + intros a (i & x' & y' & ? & ?). exists i, x', y'. split; [lia|done].
    + intros a (i & x' & y' & Hi & Ex' & Ey' & Ha). destruct (decide (i = p)) as [->|]; [left; by simplify_eq|right].
      exists i, x', y'. split_and!; try done; lia.
  - apply searches_nothing. intros a (i & _ & _ & Hi & _). lia.
Qed.
End Bounds.

Lemma page_floor_eq k x : 0 <= k -> page_floor (2 ^ k) x = x - x mod 2 ^ k.
Proof. apply land_lnot_pow2. Qed.

Lemma page_floor_page k x : 0 <= k -> 0 <= x -> (2 ^ k | page_floor (2 ^ k) x) /\ 0 <= page_floor (2 ^ k) x <= x /\
  x < page_floor (2 ^ k) x + 2 ^ k.
Proof.
  intros Hk Hx. rewrite page_floor_eq by done. pose proof (Z.mod_pos_bound x (2 ^ k) ltac:(lia)).
  pose proof (Z.mod_le x (2 ^ k) Hx ltac:(lia)). split; [|lia].
  exists (x / 2 ^ k). pose proof (Z.div_mod x (2 ^ k)). lia.
Qed.

(** Rounding a length up to whole pages. *)
Lemma page_len_page k x : 0 <= k < 64 -> 0 <= x -> x + 2 ^ k < 2 ^ 64 ->
  (2 ^ k | page_len (2 ^ k) x) /\ x <= page_len (2 ^ k) x < x + 2 ^ k.
Proof.
  intros Hk Hx Hlt. unfold page_len. destruct (x mod 2 ^ k =? 0) eqn:E; zbool.
  - split; [|lia]. exists (x / 2 ^ k). pose proof (Z.div_mod x (2 ^ k)). lia.
  - rewrite uwrap_id by (unfold urange; lia). destruct (page_floor_page k (x + 2 ^ k)) as (? & ? & ?); [lia|lia|].
    split; [done|]. split; [lia|]. rewrite page_floor_eq by lia.
    replace (x + 2 ^ k) with (x + 1 * 2 ^ k) at 2 by lia. rewrite Z.mod_add by lia.
    pose proof (Z.mod_pos_bound x (2 ^ k) ltac:(lia)). lia.
Qed.

(** [len] bytes at the page [a], inside the bounds and clear of every segment. *)
Definition available (psize len lo hi : Z) (maps : list dyninstmm_t) (a : Z) : Prop :=
  lo <= a /\ a + len <= hi /\ (psize | a) /\ clear_of maps len a.

Section Gaps.
Context `{Os} (psize len : Z) (maps : list dyninstmm_t).
Hypotheses (Hps : 0 < psize) (Hmaps : maps_ok psize maps) (Hlen : 0 < len < 2 ^ 31).
Context (lo hi : Z) (mlo mhi : nat) (m m' : dyninstmm_t).
Hypotheses (Hm : maps !! mlo = Some m) (Hm' : maps !! mhi = Some m')
  (Hbelow : forall i x, (i < mlo)%nat -> maps !! i = Some x -> END x <= lo)
  (Habove : forall i x, (mhi < i)%nat -> maps !! i = Some x -> hi <= BEG x)
  (Hlo : lo < BEG m) (Hhi : END m' < hi) (Hle : (mlo <= mhi)%nat) (Hlo0 : 0 <= lo) (Hplo : (psize | lo))
  (Htop : hi + len + psize < 2 ^ 64).

(** Inside the bounds, the clear stretches are those in the gaps. *)
Lemma gaps_cover a :
  available psize len lo hi maps a <->
  inside psize len lo (BEG m) a \/ between psize len maps mlo mhi a \/ inside psize len (END m') hi a.
Proof.
  assert (forall i x, maps !! i = Some x -> x ∈ maps) as Hel by (intros i x ?; by eapply list_elem_of_lookup_2).
  split.
  - intros (Ha & He & Hp & Hc). destruct (Hc m (Hel _ _ Hm)) as [Hend|]; [|left; done].
    right. assert (forall d i x, (mhi - i <= d)%nat -> (mlo <= i <= mhi)%nat -> maps !! i = Some x -> END x <= a ->
      between psize len maps mlo mhi a \/ inside psize len (END m') hi a) as Hwalk.
    { induction d as [|d IH]; intros i x Hd Hi Ex Hx.
      - right. assert (i = mhi) as -> by lia. simplify_eq. done.
      - destruct (decide (i = mhi)) as [->|]; [right; simplify_eq; done|].
        destruct (lookup_lt_is_Some_2 maps (S i)) as [y Ey]; [apply lookup_lt_Some in Hm'; lia|].
        destruct (Hc y (Hel _ _ Ey)) as [Hy|Hy]; [apply (IH (S i) y); try done; lia|].
        left. exists i, x, y. split_and!; try done; lia. }
    apply (Hwalk mhi mlo m); try done; lia.
  - assert (forall b e, lo <= b -> e <= hi -> inside psize len b e a ->
      (forall i x, maps !! i = Some x -> END x <= b \/ e <= BEG x) -> available psize len lo hi maps a) as Hgap.
    { intros b e Hb He (Hba & Hae & Hp) Hsep. split_and!; try done; [lia|lia|].
      intros x (i & Ex)%list_elem_of_lookup. destruct (Hsep i x Ex); [left|right]; lia. }
    assert (forall i j x y, maps !! i = Some x -> maps !! j = Some y -> (i < j)%nat -> END x <= BEG y) as Hsort
      by (intros i j x y Ex Ey Hij; by apply (segs_sorted psize maps Hmaps i j)).
    assert (forall i x, maps !! i = Some x -> BEG x <= END x) as Hbe
      by (intros i x Ex; by apply (BEG_END psize maps Hmaps x (Hel _ _ Ex))).
    assert (BEG m <= END m') as Hmm.
    { destruct (decide (mlo = mhi)) as [->|]; [simplify_eq; by apply (Hbe _ _ Hm)|].
      pose proof (Hsort mlo mhi _ _ Hm Hm' ltac:(lia)). pose proof (Hbe _ _ Hm). pose proof (Hbe _ _ Hm'). lia. }
    intros [Hi|[(i & x & y & Hi & Ex & Ey & Hin)|Hi]].
    + apply (Hgap lo (BEG m)); try done; [lia|]. intros j z Ez. destruct (decide (j < mlo)%nat); [left; by eapply Hbelow|right].
      destruct (decide (j = mlo)) as [->|]; [by simplify_eq|]. pose proof (Hsort mlo j _ _ Hm Ez ltac:(lia)). pose proof (Hbe _ _ Hm). lia.
    + pose proof (Hbe _ _ Ex). pose proof (Hbe _ _ Ey). apply (Hgap (END x) (BEG y)); try done.
      * destruct (decide (i = mlo)) as [->|]; [simplify_eq; pose proof (Hbe _ _ Hm); lia|].
        pose proof (Hsort mlo i _ _ Hm Ex ltac:(lia)). pose proof (Hbe _ _ Hm). lia.
      * destruct (decide (S i = mhi)) as [<-|]; [simplify_eq; lia|]. pose proof (Hsort (S i) mhi _ _ Ey Hm' ltac:(lia)). pose proof (Hbe _ _ Hm'). lia.
      * intros j z Ez. destruct (decide (j <= i)%nat); [left|right].
        { destruct (decide (j = i)) as [->|]; [by simplify_eq|]. pose proof (Hsort j i _ _ Ez Ex ltac:(lia)). lia. }
        { destruct (decide (j = S i)) as [->|]; [by simplify_eq|]. pose proof (Hsort (S i) j _ _ Ey Ez ltac:(lia)). lia. }
    + apply (Hgap (END m') hi); try done; [lia|]. intros j z Ez. destruct (decide (mhi < j)%nat); [right; by eapply Habove|left].
      destruct (decide (j = mhi)) as [->|]; [by simplify_eq|]. pose proof (Hsort j mhi _ _ Ez Hm' ltac:(lia)). pose proof (Hbe _ _ Hm'). lia.
Qed.

Lemma try_gaps_run n s :
  (length maps < n)%nat ->
  searches len (available psize len lo hi maps)
    (try_ ← trymmap len lo (BEG m) psize ;
     if negb (try_ =? NULL) then mret try_ else
     try_ ← try_between n maps len psize (Z.of_nat mlo) (Z.of_nat mhi) ;
     if negb (try_ =? NULL) then mret try_ else
     trymmap len (END m') hi psize) s.
Proof.
  intros Hn. assert (m ∈ maps) as Hin by (by eapply list_elem_of_lookup_2). assert (m' ∈ maps) as Hin' by (by eapply list_elem_of_lookup_2).
  pose proof (BEG_END psize maps Hmaps m Hin). pose proof (BEG_END psize maps Hmaps m' Hin').
  assert (forall i x, (i <= mhi)%nat -> maps !! i = Some x -> END x <= END m') as Htops.
  { intros i x Hi Ex. destruct (decide (i = mhi)) as [->|]; [by simplify_eq|].
    pose proof (segs_sorted psize maps Hmaps i mhi x m' ltac:(lia) Ex Hm'). lia. }
  pose proof (Htops mlo m Hle Hm).
  apply (searches_iff len (fun a => inside psize len lo (BEG m) a \/ between psize len maps mlo mhi a \/ inside psize len (END m') hi a)).
  { intros a. symmetry. apply gaps_cover. }
  apply (searches_seq len (inside psize len lo (BEG m)) (fun a => between psize len maps mlo mhi a \/ inside psize len (END m') hi a));
    [|intros s'|tauto|tauto|tauto].
  - apply try_gap; try done; lia.
  - apply (searches_seq len (between psize len maps mlo mhi) (inside psize len (END m') hi)); [|intros s''|tauto|tauto|tauto].
    + pose proof (lookup_lt_Some _ _ _ Hm'). apply try_between_run; try done; [lia|].
      intros i x Hi Ex. pose proof (Htops i x Hi Ex). lia.
    + apply try_gap; try done; [by apply (END_page psize maps)|lia|lia|lia].
Qed.
End Gaps.

(** Moving the bounds out of the segments loses no available address. *)
Lemma available_shift psize len lo hi lo' hi' maps a :
  lo <= lo' -> hi' <= hi ->
  (forall a, lo <= a -> clear_of maps len a -> lo' <= a) -> (forall a, a + len <= hi -> clear_of maps len a -> a + len <= hi') ->
  available psize len lo' hi' maps a <-> available psize len lo hi maps a.
Proof. intros ? ? Hl Hh. split; intros (? & ? & ? & Hc); split_and!; auto; lia. Qed.

(** Without a segment between the bounds, everything between them is clear. *)
Lemma open_gap_available `{Os} psize len lo hi (mlo : nat) m maps a :
  maps_ok psize maps -> maps !! mlo = Some m -> hi <= BEG m ->
  (forall i x, (i < mlo)%nat -> maps !! i = Some x -> END x <= lo) ->
  inside psize len lo hi a <-> available psize len lo hi maps a.
Proof.
  intros Hmaps Em Hhi Hbelow. split; [|by intros (? & ? & ? & _)]. intros (? & ? & ?). split_and!; try done.
  intros x (i & Ex)%list_elem_of_lookup. destruct (decide (i < mlo)%nat); [left; pose proof (Hbelow i x ltac:(lia) Ex); lia|right].
  destruct (decide (i = mlo)) as [->|]; [simplify_eq; lia|].
  pose proof (segs_sorted psize maps Hmaps mlo i m x ltac:(lia) Em Ex).
  pose proof (BEG_END psize maps Hmaps m ltac:(by eapply list_elem_of_lookup_2)). lia.
Qed.

Lemma segs_extent psize maps (i j : nat) a b :
  maps_ok psize maps -> (i <= j)%nat -> maps !! i = Some a -> maps !! j = Some b -> BEG a <= END b.
Proof.
  intros Hmaps Hij Ha Hb.
  pose proof (BEG_END psize maps Hmaps a ltac:(by eapply list_elem_of_lookup_2)).
  pose proof (BEG_END psize maps Hmaps b ltac:(by eapply list_elem_of_lookup_2)).
  destruct (decide (i = j)) as [->|]; [simplify_eq; lia|].
  pose proof (segs_sorted psize maps Hmaps i j a b ltac:(lia) Ha Hb). lia.
Qed.

(** Bounds in disorder. *)
Lemma constrained_mmap_disordered `{Os} k len lo hi maps s : 0 <= k < 31 -> 0 < len -> len + 2 ^ k <= 2 ^ 31 -> 0 <= lo < 2 ^ 64 -> 0 <= hi ->
  hi + page_len (2 ^ k) len + 2 ^ k < 2 ^ 64 -> page_floor (2 ^ k) hi <= page_floor (2 ^ k) (Z.max lo DYNINSTheap_loAddr) ->
  constrained_mmap (2 ^ k) len lo hi maps s = Fault FAssert.
Proof.
  intros Hk Hlen Hlen2 Hlo Hhi Htop Hle. destruct (page_len_page k len) as (_ & Hplen); [lia|lia|lia|].
  unfold constrained_mmap. rewrite (proj2 (Z.ltb_ge DYNINSTheap_hiAddr lo)), (proj2 (Z.ltb_ge DYNINSTheap_hiAddr hi)) by (unfold DYNINSTheap_hiAddr, UINT64_MAX; lia). cbv zeta.
  replace (if lo <? DYNINSTheap_loAddr then DYNINSTheap_loAddr else lo) with (Z.max lo DYNINSTheap_loAddr)
    by (destruct (lo <? DYNINSTheap_loAddr) eqn:E; zbool; lia).
  unfold assertM. by rewrite (proj2 (Z.ltb_ge _ _) Hle).
Qed.

Lemma constrained_mmap_run `{Os} k len lo hi maps s (psize := 2 ^ k)
    (plen := page_len psize len) (plo := page_floor psize (Z.max lo DYNINSTheap_loAddr)) (phi := page_floor psize hi) :
  0 <= k < 31 -> maps_ok psize maps -> 0 < len -> len + psize <= 2 ^ 31 -> 0 <= lo -> 0 <= hi -> plo < phi ->
  hi + plen + psize < 2 ^ 64 -> lo < 2 ^ 64 -> (exists m, last maps = Some m /\ phi <= END m) ->
  searches plen (available psize plen plo phi maps) (constrained_mmap psize len lo hi maps) s.
Proof.
  intros Hk Hmaps Hlen Hlen2 Hlo0 Hhi0 Hlt Htop Hlo64 (mz & Hlast & Hmz).
  assert (2 ^ k < 2 ^ 31) as Hk31 by (apply Z.pow_lt_mono_r; lia).
  assert (0 < psize) as Hps by (unfold psize; lia).
  destruct (page_len_page k len) as (_ & Hplen); [lia|lia|unfold psize in *; lia|].
  change (len <= plen < len + psize) in Hplen.
  destruct (page_floor_page k (Z.max lo DYNINSTheap_loAddr)) as (Hplo1 & Hplo2 & _); [lia|lia|]. change (psize | plo) in Hplo1; change (0 <= plo <= Z.max lo DYNINSTheap_loAddr) in Hplo2.
  destruct (page_floor_page k hi) as (Hphi1 & Hphi2 & _); [lia|lia|]. change (psize | phi) in Hphi1; change (0 <= phi <= hi) in Hphi2.
  unfold constrained_mmap. rewrite (proj2 (Z.ltb_ge DYNINSTheap_hiAddr lo)) by (unfold DYNINSTheap_hiAddr, UINT64_MAX; lia).
  rewrite (proj2 (Z.ltb_ge DYNINSTheap_hiAddr hi)) by (unfold DYNINSTheap_hiAddr, UINT64_MAX; lia). cbv zeta.
  replace (if lo <? DYNINSTheap_loAddr then DYNINSTheap_loAddr else lo) with (Z.max lo DYNINSTheap_loAddr)
    by (destruct (lo <? DYNINSTheap_loAddr) eqn:E; zbool; lia).
  change (page_floor psize (Z.max lo DYNINSTheap_loAddr)) with plo. change (page_floor psize hi) with phi.
  change (page_len psize len) with plen. clearbody plen plo phi psize.
  eapply searches_bind; [unfold assertM; rewrite (proj2 (Z.ltb_lt _ _) Hlt); reflexivity|].
  destruct (shift_lo_run psize plen maps Hps Hmaps ltac:(lia) (S (length maps)) plo 0 s) as
    (lo' & mlo & E1 & Hl1 & Hm1 & Hp1 & Hbelow & Hnext & Hkeep); [lia|lia|done|lia|].
  change (Z.of_nat 0) with 0 in E1. apply (searches_bind _ _ _ _ _ _ E1). cbv beta iota.
  destruct (shift_hi_run psize plen maps Hps Hmaps ltac:(lia) (S (length maps)) phi mlo (Z.of_nat (length maps) - 1) s) as
    (hi' & mhi & E2 & Hh1 & Hm2 & Hp2 & Habove & Hprev & Hkeep'); [lia|lia|lia|done| |].
  { intros i x Hi Ex. apply lookup_lt_Some in Ex. lia. }
  apply (searches_bind _ _ _ _ _ _ E2). cbv beta iota.
  apply (searches_iff plen (available psize plen lo' hi' maps)); [intros a; by apply available_shift|].
  destruct (hi' <=? lo') eqn:Ec; zbool.
  { apply searches_nothing. intros a (? & ? & _). lia. }
  destruct (maps !! mlo) as [m|] eqn:Em.
  2:{ (* every segment lies below the lower bound *)
      apply lookup_ge_None in Em. rewrite last_lookup in Hlast. pose proof (lookup_lt_Some _ _ _ Hlast).
      pose proof (Hbelow (pred (length maps)) mz ltac:(lia) Hlast). lia. }
  pose proof (Hnext m eq_refl) as Hlom.
  apply (searches_bind _ _ _ _ _ _ (seg_run maps mlo m s Em)).
  destruct (hi' <=? BEG m) eqn:Eb; zbool.
  - (* no segment between the bounds *)
    eapply searches_bind; [reflexivity|]. cbv iota.
    apply (searches_iff plen (inside psize plen lo' hi')); [intros a; by apply (open_gap_available psize plen lo' hi' mlo m)|].
    apply try_gap; try done; lia.
  - assert (Z.of_nat mlo <= mhi) as Hle.
    { destruct (decide (Z.of_nat mlo <= mhi)); [done|]. pose proof (Habove mlo m ltac:(lia) Em). lia. }
    destruct (lookup_lt_is_Some_2 maps (Z.to_nat mhi)) as [m' Em']; [lia|].
    pose proof (Hprev Hle m' Em') as Hhim. pose proof (seg_run maps (Z.to_nat mhi) m' s Em') as Hseg.
    rewrite Z2Nat.id in Hseg by lia.
    assert (END m' <=? lo' = false) as Ef.
    { apply Z.leb_gt. pose proof (segs_extent psize maps mlo (Z.to_nat mhi) m m' Hmaps ltac:(lia) Em Em'). lia. }
    eapply searches_bind; [rewrite (bind_ret _ _ _ _ _ Hseg), Ef; reflexivity|]. cbv iota.
    apply (searches_bind _ _ _ _ _ _ Hseg).
    eapply searches_bind; [unfold assertM; rewrite !(proj2 (Z.ltb_lt _ _)) by done; reflexivity|].
    replace mhi with (Z.of_nat (Z.to_nat mhi)) by lia.
    apply (try_gaps_run psize plen maps Hps Hmaps ltac:(lia) lo' hi' mlo (Z.to_nat mhi) m m'); try done; try lia.
    intros i x Hi Ex. apply (Habove i x); [lia|done].
Qed.

(** The check after sorting is what makes the map well formed. *)
Definition seg_ok (psize : Z) (m : dyninstmm_t) : Prop :=
  0 <= pr_vaddr m /\ 0 <= pr_size m /\ pr_vaddr m + pr_size m < 2 ^ 64 /\ (psize | pr_vaddr m) /\ (psize | pr_size m).

Lemma checkMappings_sound psize maps :
  Forall (seg_ok psize) maps -> heap_checkMappings maps = Ret tt -> maps_ok psize maps.
Proof.
  intros HF Hc. split; [intros m Hm; by apply (proj1 (Forall_forall _ _) HF)|].
  revert Hc. induction HF as [|x l Hx HF IH]; intros Hc i j a b Hij Ha Hb; [done|].
  destruct l as [|y l]; [destruct i, j; simpl in *; try lia; done|].
  cbn [heap_checkMappings] in Hc. destruct (pr_vaddr y <? u64 (pr_vaddr x + pr_size x)) eqn:E; [done|]. zbool.
  destruct Hx as (? & ? & ? & _). rewrite uwrap_id in E by (unfold urange; lia). specialize (IH Hc).
  destruct j as [|j]; [lia|]. destruct i as [|i]; [|by apply (IH i j a b); try lia].
  simpl in Ha. injection Ha as <-. destruct j as [|j]; simpl in Hb; [by injection Hb as <-|].
  pose proof (IH 0%nat (S j) y b ltac:(lia) eq_refl Hb). apply Forall_cons in HF as [(? & ? & _) _]. lia.
Qed.

Lemma qsort_maps_Forall (P : dyninstmm_t -> Prop) maps : Forall P maps -> Forall P (qsort_maps maps).
Proof. intros HF. unfold qsort_maps. by rewrite (merge_sort_Permutation mm_le maps). Qed.

(** ** The list of heaps *)

(** The nodes [l] in a row from [p] to [p']: the first points back to [prev],
    the last is [prev'] and points to [p']. *)
Fixpoint chain (nodes : gmap Z heapList_t) (prev p : Z) (l : list (Z * heap_t)) (prev' p' : Z) : Prop :=
  match l with
  | [] => prev' = prev /\ p' = p
  | (q, h) :: l' => p = q /\ q <> NULL /\ exists nxt, nodes !! q = Some (mk_hnode h prev nxt) /\ chain nodes q nxt l' prev' p'
  end.

Record heaps_ok (s : hstate) (l : list (Z * heap_t)) : Prop := {
  ho_chain : exists z, chain (hs_nodes s) NULL (hs_Heaps s) l z NULL;
  ho_NoDup : NoDup l.*1;
  ho_nodes : forall p, is_Some (hs_nodes s !! p) <-> p ∈ l.*1;
  ho_brk : 0 < hs_brk s /\ forall p, p ∈ l.*1 -> p < hs_brk s
}.

Lemma chain_app nodes prev p l1 l2 z e :
  chain nodes prev p (l1 ++ l2) z e <-> exists a b, chain nodes prev p l1 a b /\ chain nodes a b l2 z e.
Proof.
  revert prev p. induction l1 as [|[q h] l1 IH]; intros prev p; simpl.
  - split; [eauto|]. by intros (a & b & [-> ->] & ?).
  - split.
    + intros (-> & Hq & nxt & Hn & (a & b & Hc1 & Hc2)%IH). exists a, b. split; [|done]. eauto.
    + intros (a & b & (-> & Hq & nxt & Hn & Hc1) & Hc2). split; [done|]. split; [done|]. exists nxt. split; [done|]. apply IH. eauto.
Qed.

Lemma chain_frame nodes nodes' prev p l z e :
  (forall q, q ∈ l.*1 -> nodes' !! q = nodes !! q) -> chain nodes prev p l z e -> chain nodes' prev p l z e.
Proof.
  revert prev p. induction l as [|[q h] l IH]; intros prev p Heq Hc; [done|]. destruct Hc as (-> & Hq & nxt & Hn & Hc).
  split; [done|]. split; [done|]. exists nxt. rewrite Heq by (simpl; set_solver). split; [done|].
  apply IH; [|done]. intros x Hx. apply Heq. simpl. set_solver.
Qed.

(** Changing the back pointer of the first node. *)
Lemma chain_set_prev nodes prev prev' p q h l z e :
  q ∉ l.*1 -> chain nodes prev p ((q, h) :: l) z e ->
  exists nxt, nodes !! q = Some (mk_hnode h prev nxt) /\ chain (<[q := mk_hnode h prev' nxt]> nodes) prev' p ((q, h) :: l) z e.
Proof.
  intros Hnot (-> & Hq & nxt & Hn & Hc). exists nxt. split; [done|]. split; [done|]. split; [done|]. exists nxt.
  rewrite lookup_insert_eq. split; [done|]. eapply chain_frame; [|exact Hc]. intros x Hx. apply lookup_insert_ne. by intros ->.
Qed.

(** Changing the forward pointer of the last one. *)
Lemma chain_set_next nodes prev p l a b b' :
  l <> [] -> NoDup l.*1 -> chain nodes prev p l a b ->
  exists h pa, nodes !! a = Some (mk_hnode h pa b) /\ a ∈ l.*1 /\ a <> NULL /\
    chain (<[a := mk_hnode h pa b']> nodes) prev p l a b'.
Proof.
  revert prev p. induction l as [|[q h] l IH]; intros prev p Hne Hnd Hc; [done|].
  destruct Hc as (-> & Hq & nxt & Hn & Hc). simpl in Hnd. apply NoDup_cons in Hnd as [Hnot Hnd]. destruct l as [|x l].
  - destruct Hc as [-> ->]. exists h, prev. split; [done|]. split; [simpl; set_solver|]. split; [done|].
    split; [done|]. split; [done|]. exists b'. rewrite lookup_insert_eq. by split.
  - destruct (IH q nxt) as (ha & pa & Ha & Hin & Hnull & Hc'); [done|done|done|]. exists ha, pa.
    split; [done|]. split; [simpl in *; set_solver|]. split; [done|]. split; [done|]. split; [done|]. exists nxt.
    rewrite lookup_insert_ne by (intros ->; done). split; [done|exact Hc'].
Qed.

(** ** Releasing a heap *)
Section Free.
Context `{Os}.

Definition release_call (h : heap_t) : list os_call :=
  match hp_type h with
  | HEAP_TYPE_MMAP => [CMunmap (hp_addr h) (u64 (s32 (hp_len h)))]
  | HEAP_TYPE_MALLOC => [CFree (hp_addr h)]
  | HEAP_TYPE_UNKNOWN => []
  end.
Definition release_result (calls : list os_call) (h : heap_t) : Z :=
  match hp_type h with
  | HEAP_TYPE_MMAP => if os_munmap calls (hp_addr h) (u64 (s32 (hp_len h))) then 0 else -1
  | HEAP_TYPE_MALLOC => 0
  | HEAP_TYPE_UNKNOWN => -1
  end.

Lemma set_hnode_prev_run p x v s :
  p <> NULL -> hs_nodes s !! p = Some x ->
  set_hnode_prev p v s = Ret (tt, mk_hstate (<[p := mk_hnode (hn_heap x) v (hn_next x)]> (hs_nodes s)) (hs_Heaps s) (hs_brk s) (hs_calls s)).
Proof. intros Hp Hx. unfold set_hnode_prev, get_hnode, mbind, M_bind. by rewrite (proj2 (Z.eqb_neq _ _) Hp), Hx. Qed.

Lemma set_hnode_next_run p x v s :
  p <> NULL -> hs_nodes s !! p = Some x ->
  set_hnode_next p v s = Ret (tt, mk_hstate (<[p := mk_hnode (hn_heap x) (hn_prev x) v]> (hs_nodes s)) (hs_Heaps s) (hs_brk s) (hs_calls s)).
Proof. intros Hp Hx. unfold set_hnode_next, get_hnode, mbind, M_bind. by rewrite (proj2 (Z.eqb_neq _ _) Hp), Hx. Qed.

(** Unlinking the node [q] between [l1] and [l2]. *)
Lemma unlink_run s l1 q h l2 a nxt z :
  NoDup (l1 ++ (q, h) :: l2).*1 -> chain (hs_nodes s) NULL (hs_Heaps s) l1 a q -> q <> NULL ->
  hs_nodes s !! q = Some (mk_hnode h a nxt) -> chain (hs_nodes s) q nxt l2 z NULL ->
  exists nodes', heap_unlink q (mk_hnode h a nxt) s =
      Ret (tt, mk_hstate nodes' (match l1 with [] => nxt | _ => hs_Heaps s end) (hs_brk s) (hs_calls s)) /\
    (exists z', chain nodes' NULL (match l1 with [] => nxt | _ => hs_Heaps s end) (l1 ++ l2) z' NULL) /\
    (forall p, is_Some (nodes' !! p) <-> is_Some (hs_nodes s !! p)) /\ nodes' !! q = hs_nodes s !! q.
Proof.
  intros Hnd Hc1 Hq Hn Hc2. unfold heap_unlink. simpl hn_next. simpl hn_prev. rewrite fmap_app in Hnd. simpl in Hnd. apply NoDup_app in Hnd as (Hnd1 & Hdis & Hnd2).
  apply NoDup_cons in Hnd2 as [Hq2 Hnd2].
  assert (q ∉ l1.*1) as Hq1 by (intros Hin; apply (Hdis q Hin); set_solver).
  (* the successor *)
  assert (exists n1, (if negb (nxt =? NULL) then set_hnode_prev nxt a else mret tt) s =
      Ret (tt, mk_hstate n1 (hs_Heaps s) (hs_brk s) (hs_calls s)) /\ chain n1 a nxt l2 (match l2 with [] => a | _ => z end) NULL /\
      (forall p, p ∉ l2.*1 -> n1 !! p = hs_nodes s !! p) /\ (forall p, is_Some (n1 !! p) <-> is_Some (hs_nodes s !! p))) as (n1 & E1 & Hc2' & Hf1 & Hd1).
  { destruct l2 as [|[q2 h2] l2].
    - destruct Hc2 as [_ <-]. exists (hs_nodes s). split; [by destruct s|]. by split_and!.
    - simpl in Hnd2. apply NoDup_cons in Hnd2 as [Hnot _]. pose proof Hc2 as (-> & Hq2' & _).
      destruct (chain_set_prev _ q a q2 q2 h2 l2 z NULL Hnot Hc2) as (nx & Hx & Hc). eexists. split; [|split; [exact Hc|split]].
      + rewrite (proj2 (Z.eqb_neq _ _) Hq2'). by apply (set_hnode_prev_run _ _ _ _ Hq2' Hx).
      + intros p Hp. apply lookup_insert_ne. intros <-. simpl in Hp. set_solver.
      + intros p. destruct (decide (p = q2)) as [->|]; [rewrite lookup_insert_eq, Hx|rewrite lookup_insert_ne by done]; done. }
  set (s1 := mk_hstate n1 (hs_Heaps s) (hs_brk s) (hs_calls s)) in *.
  rewrite (bind_ret _ _ _ _ _ E1).
  assert (chain n1 NULL (hs_Heaps s) l1 a q) as Hc1'.
  { eapply chain_frame; [|exact Hc1]. intros x Hx. apply Hf1. intros Hin. apply (Hdis x Hx). set_solver. }
  destruct l1 as [|x l1].
  - (* the first node *)
    destruct Hc1' as [-> Hh]. erewrite bind_ret by reflexivity. erewrite bind_ret by reflexivity.
    exists n1. split; [|split; [simpl; eauto|split; [done|by apply Hf1]]].
    simpl. rewrite <- Hh, Z.eqb_refl. reflexivity.
  - destruct (chain_set_next n1 NULL (hs_Heaps s) (x :: l1) a q nxt) as (ha & pa & Ha & Hin & Hnull & Hc); [done|done|done|].
    rewrite (proj2 (Z.eqb_neq _ _) Hnull). cbn [negb].
    rewrite (bind_ret _ _ _ _ _ (set_hnode_next_run a _ nxt s1 Hnull Ha)). erewrite bind_ret by reflexivity.
    match goal with |- context [?x =? q] => change x with (hs_Heaps s) end.
    assert (hs_Heaps s <> q) as Hne.
    { destruct x as [qx hx]. destruct Hc1 as (-> & _). intros ->. apply Hq1. simpl. set_solver. }
    rewrite (proj2 (Z.eqb_neq _ _) Hne). eexists. split; [reflexivity|]. split; [|split].
    + eexists. apply chain_app. exists a, nxt. split; [exact Hc|]. eapply chain_frame; [|exact Hc2'].
      intros p Hp. apply lookup_insert_ne. intros <-. apply (Hdis a Hin). set_solver.
    + intros p. rewrite <- Hd1. destruct (decide (p = a)) as [->|]; [rewrite lookup_insert_eq, Ha|rewrite lookup_insert_ne by done]; done.
    + rewrite lookup_insert_ne by (intros ->; done). by apply Hf1.
Qed.

(** What freeing the address [buf] does to the heaps [l]. *)
Definition released (s : hstate) (l : list (Z * heap_t)) (buf r : Z) (s' : hstate) : Prop :=
  ((forall q h, (q, h) ∈ l -> hp_ret_addr h <> buf) /\ r = 0 /\ s' = s) \/
  exists l1 q h l2, l = l1 ++ (q, h) :: l2 /\ hp_ret_addr h = buf /\ (forall q' h', (q', h') ∈ l1 -> hp_ret_addr h' <> buf) /\
    heaps_ok s' (l1 ++ l2) /\ r = release_result (hs_calls s) h /\ hs_calls s' = release_call h ++ hs_calls s.

Lemma heaps_ok_fuel s l : heaps_ok s l -> (length l <= size (hs_nodes s))%nat.
Proof.
  intros Hok. rewrite <- (length_fmap fst l), <- (size_list_to_set (C := gset Z)) by apply Hok.
  rewrite <- (size_dom (D := gset Z)). apply subseteq_size. intros p Hp%elem_of_list_to_set.
  apply elem_of_dom. by apply (ho_nodes _ _ Hok).
Qed.

Lemma free_from_run n buf s l1 rest a p z :
  heaps_ok s (l1 ++ rest) -> chain (hs_nodes s) NULL (hs_Heaps s) l1 a p -> chain (hs_nodes s) a p rest z NULL ->
  (forall q h, (q, h) ∈ l1 -> hp_ret_addr h <> buf) -> (length rest < n)%nat ->
  exists r s', free_from n buf p s = Ret (r, s') /\ released s (l1 ++ rest) buf r s'.
Proof.
  revert l1 rest a p. induction n as [|n IH]; intros l1 rest a p Hok Hc1 Hc2 Hno Hn; [lia|]. cbn [free_from].
  destruct rest as [|[q h] l2].
  { destruct Hc2 as [_ <-]. exists 0, s. split; [done|]. left. by rewrite app_nil_r. }
  pose proof Hc2 as (-> & Hq & nxt & Hx & Hc3). rewrite (proj2 (Z.eqb_neq _ _) Hq).
  erewrite bind_ret by (unfold get_hnode; rewrite (proj2 (Z.eqb_neq _ _) Hq), Hx; reflexivity). cbn [hn_heap hn_next].
  destruct (hp_ret_addr h =? buf) eqn:Eb; zbool; cbn [negb].
  - destruct (unlink_run s l1 q h l2 a nxt z (ho_NoDup _ _ Hok) Hc1 Hq Hx Hc3) as (nodes' & Eu & (z' & Hc') & Hdom & Hqq).
    rewrite (bind_ret _ _ _ _ _ Eu). set (s1 := mk_hstate nodes' _ _ _).
    assert ((match hp_type h with
             | HEAP_TYPE_MMAP => ok ← unmap_region (hp_addr h) (hp_len h) ; mret (if (ok : bool) then 0 else -1)
             | HEAP_TYPE_MALLOC => libc_free (hp_addr h) ;; mret 0
             | HEAP_TYPE_UNKNOWN => mret (-1)
             end) s1 = Ret (release_result (hs_calls s) h, with_calls s1 (release_call h ++ hs_calls s))) as Er.
    { unfold release_result, release_call. by destruct (hp_type h). }
    rewrite (bind_ret _ _ _ _ _ Er). erewrite bind_ret by reflexivity. do 2 eexists. split; [reflexivity|]. right.
    exists l1, q, h, l2. split_and!; try done.
    pose proof (ho_NoDup _ _ Hok) as Hnd. rewrite fmap_app in Hnd. simpl in Hnd.
    assert (q ∉ (l1 ++ l2).*1 /\ NoDup (l1 ++ l2).*1) as [Hqn Hnd'].
    { rewrite fmap_app. apply NoDup_app in Hnd as (? & Hdis & [? ?]%NoDup_cons). split.
      - intros [Hin|Hin]%elem_of_app; [apply (Hdis q Hin); set_solver|done].
      - apply NoDup_app. split_and!; try done. intros x Hx1 Hx2. apply (Hdis x Hx1). set_solver. }
    assert (forall x, x ∈ (l1 ++ (q, h) :: l2).*1 <-> x = q \/ x ∈ (l1 ++ l2).*1) as Hmem
      by (intros x; rewrite !fmap_app; simpl; set_solver).
    split; simpl.
    + exists z'. eapply chain_frame; [|exact Hc']. intros x Hx'. apply lookup_delete_ne. by intros ->.
    + done.
    + intros x. destruct (decide (x = q)) as [->|]; [rewrite lookup_delete_eq; split; [by intros [? ?]|done]|].
      rewrite lookup_delete_ne by done. rewrite Hdom, (ho_nodes _ _ Hok), Hmem. naive_solver.
    + destruct (ho_brk _ _ Hok) as [Hb0 Hb]. split; [exact Hb0|]. intros x Hx'. apply Hb. rewrite Hmem. by right.
  - replace (l1 ++ (q, h) :: l2) with ((l1 ++ [(q, h)]) ++ l2) in * by (by rewrite <- app_assoc).
    apply (IH (l1 ++ [(q, h)]) l2 q nxt); try done; [|intros q' h' [?|Heq%list_elem_of_singleton]%elem_of_app; [by eapply Hno|by simplify_eq]|simpl in Hn; lia].
    apply chain_app. exists a, q. split; [done|]. split; [done|]. split; [done|]. exists nxt. by split.
Qed.

(** On a well-formed list of heaps, DYNINSTos_free always returns.  An
    address that was not handed out changes nothing and gives 0; otherwise the
    first heap handed out under that address leaves the list, the others stay in
    order, and its memory is released once, with the call that fits how it was
    obtained; the result is that of the release. *)
Theorem os_free_correct s l buf :
  heaps_ok s l -> exists r s', DYNINSTos_free buf s = Ret (r, s') /\ released s l buf r s'.
Proof.
  intros Hok. unfold DYNINSTos_free. erewrite bind_ret by reflexivity. erewrite bind_ret by reflexivity.
  destruct (ho_chain _ _ Hok) as [z Hc]. apply (free_from_run _ buf s [] l NULL (hs_Heaps s) z); try done.
  - intros q h Hin. set_solver.
  - pose proof (heaps_ok_fuel s l Hok). lia.
Qed.
End Free.

(** ** Allocating a heap *)
Section Malloc.
Context `{Os}.

Lemma heaps_brk_fresh s l : heaps_ok s l -> hs_nodes s !! hs_brk s = None.
Proof.
  intros Hok. destruct (hs_nodes s !! hs_brk s) eqn:E; [|done].
  assert (hs_brk s ∈ l.*1) as Hin by (apply (ho_nodes _ _ Hok); eauto). pose proof (proj2 (ho_brk _ _ Hok) _ Hin). lia.
Qed.

(** The state between the allocation of the node and its use. *)
Definition with_node (s : hstate) (x : heapList_t) (c : list os_call) : hstate :=
  mk_hstate (<[hs_brk s := x]> (hs_nodes s)) (hs_Heaps s) (hs_brk s + 1) c.

Lemma set_hnode_heap_run s x c h :
  0 < hs_brk s -> set_hnode_heap (hs_brk s) h (with_node s x c) = Ret (tt, with_node s (mk_hnode h (hn_prev x) (hn_next x)) c).
Proof.
  intros Hb. unfold set_hnode_heap. erewrite bind_ret.
  2:{ unfold get_hnode. simpl. rewrite (proj2 (Z.eqb_neq (hs_brk s) NULL)), lookup_insert_eq by (unfold NULL; lia). reflexivity. }
  unfold put_hnode, modify, with_node. simpl. by rewrite insert_insert_eq.
Qed.

Lemma free_hnode_run s l x c :
  heaps_ok s l -> exists s', free_hnode (hs_brk s) (with_node s x c) = Ret (tt, s') /\ heaps_ok s' l /\ hs_calls s' = c.
Proof.
  intros Hok. eexists. split; [reflexivity|]. split; [|done].
  split; simpl; rewrite ?delete_insert_id by (by eapply heaps_brk_fresh); try apply Hok.
  destruct (ho_brk _ _ Hok) as [? Hb]. split; [lia|]. intros p Hp. specialize (Hb p Hp). lia.
Qed.

Lemma heap_insert_run s l h prev nxt c :
  heaps_ok s l -> exists s', heap_insert (hs_brk s) (with_node s (mk_hnode h prev nxt) c) = Ret (tt, s') /\
    heaps_ok s' ((hs_brk s, h) :: l) /\ hs_calls s' = c /\ hs_nodes s' !! hs_brk s = Some (mk_hnode h NULL (hs_Heaps s)).
Proof.
  intros Hok. destruct (ho_brk _ _ Hok) as [Hb0 Hb]. assert (hs_brk s <> NULL) as Hnn by (unfold NULL; lia).
  assert (hs_brk s ∉ l.*1) as Hnot by (intros Hin; specialize (Hb _ Hin); lia).
  unfold heap_insert.
  rewrite (bind_ret _ _ _ _ _ (set_hnode_prev_run _ (mk_hnode h prev nxt) NULL (with_node s _ c) Hnn (lookup_insert_eq _ _ _))).
  erewrite bind_ret by reflexivity. simpl hs_nodes. simpl hs_Heaps. rewrite insert_insert_eq.
  erewrite bind_ret by (apply set_hnode_next_run; [done|apply lookup_insert_eq]). simpl hs_nodes. simpl hs_Heaps. rewrite insert_insert_eq.
  simpl hn_heap. simpl hn_prev. simpl hn_next.
  destruct (ho_chain _ _ Hok) as [z Hc].
  set (nodes1 := <[hs_brk s := mk_hnode h NULL (hs_Heaps s)]> (hs_nodes s)).
  assert (chain nodes1 NULL (hs_Heaps s) l z NULL) as Hc1.
  { eapply chain_frame; [|exact Hc]. intros x Hx. apply lookup_insert_ne. intros Heq. apply Hnot. by rewrite Heq. }
  assert (exists nodes2, (if negb (hs_Heaps s =? NULL) then set_hnode_prev (hs_Heaps s) (hs_brk s) else mret tt)
      (mk_hstate nodes1 (hs_Heaps s) (hs_brk s + 1) c) = Ret (tt, mk_hstate nodes2 (hs_Heaps s) (hs_brk s + 1) c) /\
      (exists z', chain nodes2 (hs_brk s) (hs_Heaps s) l z' NULL) /\ nodes2 !! hs_brk s = Some (mk_hnode h NULL (hs_Heaps s)) /\
      (forall p, is_Some (nodes2 !! p) <-> is_Some (nodes1 !! p))) as (nodes2 & E2 & (z' & Hc2) & Hn2 & Hd2).
  { destruct l as [|[q hq] l].
    - destruct Hc1 as [_ Hh]. exists nodes1. split; [by rewrite <- Hh|]. split; [by eexists|]. split; [apply lookup_insert_eq|done].
    - simpl in Hnot. pose proof Hc1 as (Hq & Hqn & _). pose proof (ho_NoDup _ _ Hok) as Hnd. simpl in Hnd. apply NoDup_cons in Hnd as [Hqnot _].
      destruct (chain_set_prev nodes1 NULL (hs_brk s) (hs_Heaps s) q hq l z NULL Hqnot Hc1) as (nx & Hx & Hc').
      rewrite Hq in *. rewrite (proj2 (Z.eqb_neq _ _) Hqn). cbn [negb]. eexists. split; [by apply (set_hnode_prev_run q _ (hs_brk s) (mk_hstate nodes1 q (hs_brk s + 1) c) Hqn Hx)|].
      split; [by eexists|]. split; [rewrite lookup_insert_ne; [rewrite <- Hq; apply lookup_insert_eq|intros Heq; apply Hnot; rewrite <- Heq; set_solver]|].
      intros p. destruct (decide (p = q)) as [->|]; [rewrite lookup_insert_eq, Hx|rewrite lookup_insert_ne by done]; done. }
  rewrite (bind_ret _ _ _ _ _ E2). eexists. split; [reflexivity|]. split; [|done]. split; simpl.
  - exists z'. split; [done|]. split; [done|]. exists (hs_Heaps s). by split.
  - apply NoDup_cons. split; [done|apply Hok].
  - intros p. rewrite Hd2. unfold nodes1. destruct (decide (p = hs_brk s)) as [->|].
    + rewrite lookup_insert_eq. split; [set_solver|by eexists].
    + rewrite lookup_insert_ne by done. rewrite (ho_nodes _ _ Hok). set_solver.
  - split; [lia|]. intros p [->|Hp]%elem_of_cons; [lia|]. specialize (Hb p Hp). lia.
Qed.

Lemma outcome_taken len c tried r c' :
  outcome len c tried r c' -> r <> NULL -> exists a c0, a ∈ tried /\ answer c0 a len = r /\ c' = CMmap a len :: c0.
Proof.
  intros Ho Hr. induction Ho as [c|c a Ha|c a tried r c' Ha Ho IH]; [done| |].
  - exists a, c. split; [set_solver|done].
  - destruct (IH Hr) as (x & c0 & ? & ? & ?). exists x, c0. split; [set_solver|done].
Qed.
End Malloc.

(** C26: the search for memory.  Take a sorted, page-aligned address space map
    without overlaps whose last segment reaches the upper bound, pages below 2 GB, a
    length that rounded up stays below 2 GB, and an upper bound that leaves room
    for the length below 2^64.  When the bounds, rounded down to pages, are in order,
    constrained_mmap returns; every address it offers to the kernel is a page
    inside the rounded bounds at which the rounded length touches no segment of
    the map, so that mapping there at a fixed address cannot destroy anything; and
    it gives up only when the kernel has refused every such address.  When they
    are not in order, as with both bounds in one page, it fails an assertion. *)
Theorem constrained_mmap_correct `{Os} k len lo hi maps s (plo := page_floor (2 ^ k) (Z.max lo DYNINSTheap_loAddr)) (phi := page_floor (2 ^ k) hi) :
  0 <= k < 31 -> maps_ok (2 ^ k) maps -> 0 < len -> len + 2 ^ k <= 2 ^ 31 -> 0 <= lo < 2 ^ 64 -> 0 <= hi ->
  hi + page_len (2 ^ k) len + 2 ^ k < 2 ^ 64 ->
  (exists m, last maps = Some m /\ phi <= END m) ->
  (phi <= plo -> constrained_mmap (2 ^ k) len lo hi maps s = Fault FAssert) /\
  (plo < phi -> exists tried r c', constrained_mmap (2 ^ k) len lo hi maps s = Ret (r, with_calls s c') /\
    outcome (page_len (2 ^ k) len) (hs_calls s) tried r c' /\
    (forall a, a ∈ tried -> available (2 ^ k) (page_len (2 ^ k) len) plo phi maps a) /\
    (r = NULL -> forall a, available (2 ^ k) (page_len (2 ^ k) len) plo phi maps a -> a ∈ tried)).
Proof.
  intros Hk Hm Hl Hl2 [Hlo Hlo'] Hhi Htop Hlast. split; intros Hlt.
  - by apply constrained_mmap_disordered.
  - destruct (constrained_mmap_run k len lo hi maps s) as (tried & r & c' & E & Ho & HF & Hall); try done.
    exists tried, r, c'. split_and!; try done. intros a. apply (proj1 (Forall_forall _ _) HF).
Qed.

(** An allocation.  With the memory map of the process (in any order), a
    kernel that maps at the address asked for or fails, and a request of whole
    words, DYNINSTos_malloc either finds that the kernel refuses every available
    place, returns NULL and leaves the list of heaps as it was, without a stray
    node; or returns an available address, which was just mapped, and puts the
    new heap at the front of the list. *)
Theorem os_malloc_correct `{Os} k nbytes lo hi raw s l (psize := 2 ^ k) (maps := qsort_maps raw) :
  (forall c a n r, os_mmap c a n = Some r -> r = a) -> heaps_ok s l ->
  0 <= k < 31 -> Forall (seg_ok psize) raw -> heap_checkMappings maps = Ret tt ->
  nbytes mod DYNINSTheap_align = 0 -> 0 < nbytes -> nbytes + psize <= 2 ^ 31 -> 0 <= lo < 2 ^ 64 ->
  DYNINSTheap_loAddr <= hi ->
  page_floor psize (Z.max lo DYNINSTheap_loAddr) < page_floor psize hi ->
  hi + page_len psize nbytes + psize < 2 ^ 64 -> (exists m, last maps = Some m /\ page_floor psize hi <= END m) ->
  let fits := available psize (page_len psize nbytes) (page_floor psize (Z.max lo DYNINSTheap_loAddr)) (page_floor psize hi) maps in
  exists r s', DYNINSTos_malloc psize (Some raw) true nbytes lo hi s = Ret (r, s') /\
    ((r = NULL /\ heaps_ok s' l /\
      exists tried, outcome (page_len psize nbytes) (hs_calls s) tried NULL (hs_calls s') /\ forall a, fits a -> a ∈ tried) \/
     (fits r /\ heaps_ok s' ((hs_brk s, mk_heap r r nbytes HEAP_TYPE_MMAP) :: l) /\
      exists c, hs_calls s' = CMmap r (page_len psize nbytes) :: c)).
Proof.
  intros Hfix Hok Hk HF Hchk Hal Hn Hn2 [Hlo Hlo'] Hhi Hlt Htop Hlast fits.
  set (s1 := with_node s (mk_hnode (mk_heap 0 0 0 HEAP_TYPE_UNKNOWN) 0 0) (hs_calls s)).
  destruct (constrained_mmap_run k nbytes lo hi maps s1) as (tried & r & c' & E & Ho & HFt & Hall); try done.
  { apply checkMappings_sound; [by apply qsort_maps_Forall|done]. }
  { unfold DYNINSTheap_loAddr in *. lia. }
  unfold DYNINSTos_malloc. rewrite (bind_ret _ _ s (hs_brk s) s1) by reflexivity.
  rewrite Hal. cbn [negb Z.eqb DYNINSTheap_useMalloc].
  rewrite (proj2 (Z.ltb_ge hi _)), (proj2 (Z.ltb_ge _ lo)) by (unfold DYNINSTheap_hiAddr, UINT64_MAX in *; lia). cbn [orb].
  cbv zeta. fold maps. rewrite Hchk, (bind_ret _ _ _ _ _ E). destruct (r =? NULL) eqn:Er; zbool.
  - subst r. destruct (free_hnode_run s l (mk_hnode (mk_heap 0 0 0 HEAP_TYPE_UNKNOWN) 0 0) c' Hok) as (s' & Ef & Hok' & Hc').
    change (with_calls s1 c') with (with_node s (mk_hnode (mk_heap 0 0 0 HEAP_TYPE_UNKNOWN) 0 0) c').
    rewrite (bind_ret _ _ _ _ _ Ef). exists NULL, s'. split; [done|]. left. split_and!; try done.
    exists tried. rewrite Hc'. split; [done|]. intros a Ha. by apply Hall.
  - destruct (outcome_taken _ _ _ _ _ Ho Er) as (a & c0 & Hin & Hans & Hc').
    assert (r = a) as ->.
    { unfold answer in Hans. destruct (os_mmap c0 a _) as [x|] eqn:Ex; [|done]. apply Hfix in Ex. congruence. }
    destruct (heap_insert_run s l (mk_heap a a nbytes HEAP_TYPE_MMAP) 0 0 c' Hok) as (s' & Ei & Hok' & Hcs & Hns).
    destruct (ho_brk _ _ Hok) as [Hb _].
    change (with_calls s1 c') with (with_node s (mk_hnode (mk_heap 0 0 0 HEAP_TYPE_UNKNOWN) 0 0) c').
    rewrite (bind_ret _ _ _ _ _ (set_hnode_heap_run s _ c' _ Hb)). cbn [hn_prev hn_next].
    rewrite (bind_ret _ _ _ _ _ Ei).
    erewrite bind_ret by (unfold get_hnode; rewrite Hns;
      rewrite (proj2 (Z.eqb_neq (hs_brk s) NULL)) by (unfold NULL; lia); reflexivity).
    exists a, s'. split; [done|]. right. split; [by apply (proj1 (Forall_forall _ _) HFt)|]. split; [done|].
    exists c0. by rewrite Hcs.
Qed.

(** When the bounds lie above every segment, the search reads the entry after
    the last one of the map. *)
Lemma constrained_mmap_past_end `{Os} k len lo hi maps s :
  0 <= k < 31 -> maps_ok (2 ^ k) maps -> 0 <= lo < 2 ^ 64 -> 0 <= hi < 2 ^ 64 ->
  page_floor (2 ^ k) (Z.max lo DYNINSTheap_loAddr) < page_floor (2 ^ k) hi ->
  (forall m, m ∈ maps -> END m <= page_floor (2 ^ k) (Z.max lo DYNINSTheap_loAddr)) ->
  constrained_mmap (2 ^ k) len lo hi maps s = Fault FBounds.
Proof.
  intros Hk Hmaps Hlo Hhi Hlt Habove. unfold constrained_mmap.
  rewrite (proj2 (Z.ltb_ge DYNINSTheap_hiAddr lo)), (proj2 (Z.ltb_ge DYNINSTheap_hiAddr hi))
    by (unfold DYNINSTheap_hiAddr, UINT64_MAX; lia). cbv zeta.
  replace (if lo <? DYNINSTheap_loAddr then DYNINSTheap_loAddr else lo) with (Z.max lo DYNINSTheap_loAddr)
    by (destruct (lo <? DYNINSTheap_loAddr) eqn:E; zbool; lia).
  destruct (page_floor_page k (Z.max lo DYNINSTheap_loAddr)) as (Hp & _); [lia|lia|].
  set (plo := page_floor _ (Z.max _ _)) in *. set (phi := page_floor _ hi) in *.
  erewrite bind_ret by (unfold assertM; rewrite (proj2 (Z.ltb_lt _ _) Hlt); reflexivity).
  destruct (shift_lo_run (2 ^ k) 1 maps ltac:(lia) Hmaps ltac:(lia) (S (length maps)) plo 0 s) as
    (lo' & mlo & E1 & Hl1 & Hm1 & _ & _ & Hnext & Hkeep); [lia|lia|done|lia|].
  change (Z.of_nat 0) with 0 in E1. rewrite (bind_ret _ _ _ _ _ E1). cbv beta iota.
  assert (mlo = length maps) as ->.
  { destruct (maps !! mlo) as [m|] eqn:Em; [|apply lookup_ge_None in Em; lia].
    assert (m ∈ maps) as Hin by (by eapply list_elem_of_lookup_2). pose proof (Hnext m eq_refl). pose proof (Habove m Hin).
    pose proof (BEG_END (2 ^ k) maps Hmaps m Hin). lia. }
  erewrite bind_ret.
  2:{ cbn [shift_hi]. rewrite (proj2 (Z.leb_gt (Z.of_nat (length maps)) _)) by lia. reflexivity. }
  cbv beta iota. assert (lo' = plo) as ->.
  { assert (lo' <= plo); [|lia]. apply Hkeep; [lia|]. intros m Hm. left. by apply Habove. }
  rewrite (proj2 (Z.leb_gt _ _)) by lia. apply bind_fault. unfold seg. rewrite at_slot_nat.
  by rewrite (proj2 (lookup_ge_None _ _)).
Qed.

(** ** Concrete heaps *)
#[export] Instance demo_os : Os := {|
  os_mmap := fun c a n => if a <? 0x403000 then None else Some a;
  os_munmap := fun _ _ _ => true;
  os_malloc := fun _ _ => 0
|}.

Definition demo_maps : list dyninstmm_t := [mk_mm 0x10000 0x2000; mk_mm 0x400000 0x3000; mk_mm 0x7000000 0x1000].
Definition demo_raw : list dyninstmm_t := [mk_mm 0x400000 0x3000; mk_mm 0x7000000 0x1000; mk_mm 0x10000 0x2000].
Definition demo_heaps : hstate :=
  mk_hstate {[1 := mk_hnode (mk_heap 0x500000 0x500000 64 HEAP_TYPE_MMAP) 0 0]} 1 2 [].
Definition demo_heap_list : list (Z * heap_t) := [(1, mk_heap 0x500000 0x500000 64 HEAP_TYPE_MMAP)].

Lemma demo_raw_ok : Forall (seg_ok (2 ^ 12)) demo_raw.
Proof.
  unfold seg_ok. repeat constructor; simpl; try lia; apply Z.mod_divide; try lia; reflexivity.
Qed.

Lemma demo_maps_ok : maps_ok (2 ^ 12) demo_maps.
Proof.
  apply checkMappings_sound; [|by vm_compute]. change demo_maps with (qsort_maps demo_raw).
  apply qsort_maps_Forall, demo_raw_ok.
Qed.

Lemma demo_heaps_ok : heaps_ok demo_heaps demo_heap_list.
Proof.
  split.
  - exists 1. split; [done|]. split; [done|]. exists 0. by split.
  - apply NoDup_singleton.
  - intros p. simpl. destruct (decide (p = 1)) as [->|Hp].
    + rewrite lookup_singleton_eq. split; [set_solver|by eexists].
    + rewrite lookup_singleton_ne by done. split; [by intros [? ?]|set_solver].
  - simpl. split; [lia|]. intros p Hp. apply list_elem_of_singleton in Hp. lia.
Qed.

Lemma constrained_mmap_correct_witness :
  exists tried r c', constrained_mmap (2 ^ 12) 5000 0x10100 0x500000 demo_maps demo_heaps = Ret (r, with_calls demo_heaps c') /\
    outcome (page_len (2 ^ 12) 5000) (hs_calls demo_heaps) tried r c' /\
    forall a, a ∈ tried -> available (2 ^ 12) 8192 0x10000 0x500000 demo_maps a.
Proof.
  destruct (constrained_mmap_correct 12 5000 0x10100 0x500000 demo_maps demo_heaps) as [_ HR];
    [lia|exact demo_maps_ok|lia|lia|lia|lia|vm_compute; reflexivity| |].
  - exists (mk_mm 0x7000000 0x1000). split; [reflexivity|vm_compute; discriminate].
  - destruct HR as (tried & r & c' & E & Ho & Ht & _); [vm_compute; reflexivity|].
    exists tried, r, c'. split; [exact E|]. split; [exact Ho|exact Ht].
Defined.

Lemma os_malloc_correct_witness :
  exists r s', DYNINSTos_malloc (2 ^ 12) (Some demo_raw) true 5000 0x10100 0x500000 demo_heaps = Ret (r, s') /\
    (r = NULL \/ heaps_ok s' ((2, mk_heap r r 5000 HEAP_TYPE_MMAP) :: demo_heap_list)).
Proof.
  destruct (os_malloc_correct 12 5000 0x10100 0x500000 demo_raw demo_heaps demo_heap_list) as (r & s' & E & Hr);
    [|exact demo_heaps_ok|lia|exact demo_raw_ok|vm_compute; reflexivity|vm_compute; reflexivity|lia|lia|lia|
     vm_compute; discriminate|vm_compute; reflexivity|vm_compute; reflexivity| |].
  - intros c a n r. simpl. destruct (a <? 0x403000); [done|]. by intros [= ->].
  - exists (mk_mm 0x7000000 0x1000). split; [reflexivity|vm_compute; discriminate].
  - exists r, s'. split; [exact E|]. destruct Hr as [(-> & _)|(_ & ? & _)]; [by left|by right].
Defined.

Lemma os_free_correct_witness :
  exists r s', DYNINSTos_free 0x500000 demo_heaps = Ret (r, s') /\ released demo_heaps demo_heap_list 0x500000 r s'.
Proof. exact (os_free_correct demo_heaps demo_heap_list 0x500000 demo_heaps_ok). Defined.
