(* ===== verification/RTMaps.v ===== *)
(** * Reading the memory map: dyninstAPI_RT/src/RTheap-linux.c

    DYNINSTgetMemoryMap reads /proc/self/maps into a buffer that it doubles until
    the whole text fits, and cuts the start and end address out of every line.
    The text is a list of bytes; strtok() and strtoul() are modelled as far as the
    function uses them. *)
From stdpp Require Import base gmap list list_numbers.
From S2P Require Import Prelude ListHead RTLock RTThread RTHeap.

Definition MAX_MAP_SIZE : Z := 2 ^ 20.

Definition NUL : Z := 0.
Definition NEWLINE : Z := 10.
Definition SPACE : Z := 32.
Definition DASH : Z := 45.

(** What the system answers in each round of the outer loop: whether the buffer
    could be allocated and the file opened, and what read() returns for the k-th
    call with room for so many bytes ([None] for an error). *)
Class ProcMaps : Type := {
  pm_alloc : nat -> bool;
  pm_open : nat -> bool;
  pm_read : nat -> nat -> Z -> option (list Z)
}.

Inductive read_end : Type := ReadDone (text : list Z) | ReadGrow | ReadError.

(** The inner loop. *)
Fixpoint read_loop `{ProcMaps} (n : nat) (round k : nat) (mapSize : Z) (buf : list Z) : res read_end :=
  match n with
  | O => Fault FFuel
  | S n' =>
      match pm_read round k (mapSize - Z.of_nat (length buf)) with
      | None => Ret ReadError
      | Some [] => Ret (ReadDone buf)
      | Some bytes =>
          let buf := buf ++ bytes in
          if mapSize <=? Z.of_nat (length buf) then Ret ReadGrow else read_loop n' round (S k) mapSize buf
      end
  end.

(** The outer loop; the state is the static variable [mapSize]. *)
Fixpoint load_maps `{ProcMaps} (n : nat) (round : nat) : M Z (option (list Z)) := fun mapSize =>
  match n with
  | O => Fault FFuel
  | S n' =>
      if negb (pm_alloc round) then Ret (None, mapSize) else
      if negb (pm_open round) then Ret (None, mapSize) else
      match read_loop (S (Z.to_nat mapSize)) round 0 mapSize [] with
      | Fault e => Fault e
      | Ret ReadError => Ret (None, mapSize)
      | Ret (ReadDone text) => Ret (Some text, mapSize)
      | Ret ReadGrow =>
          let mapSize := u64 (mapSize * 2) in
          if MAX_MAP_SIZE <? mapSize then Ret (None, mapSize) else load_maps n' (S round) mapSize
      end
  end.

(** strtok(_, "\n") over the whole text: the number of tokens, and the text with
    the newline after each token overwritten. *)
Fixpoint mark_lines (in_token : bool) (text : list Z) : nat * list Z :=
  match text with
  | [] => (O, [])
  | c :: text' =>
      if c =? NUL then (O, text)
      else if c =? NEWLINE then
        let '(n, t) := mark_lines false text' in (n, (if in_token then NUL else c) :: t)
      else
        let '(n, t) := mark_lines true text' in ((if in_token then n else S n), c :: t)
  end.

(** The string at the start of a buffer, and what follows its terminator. *)
Fixpoint c_string (buf : list Z) : list Z * list Z :=
  match buf with
  | [] => ([], [])
  | c :: buf' => if c =? NUL then ([], buf') else let '(s, r) := c_string buf' in (c :: s, r)
  end.

(** strtok() with one separator: the token and the rest to continue from. *)
Fixpoint tok_skip (d : Z) (s : list Z) : list Z :=
  match s with c :: s' => if c =? d then tok_skip d s' else s | [] => [] end.
Fixpoint tok_cut (d : Z) (s : list Z) : list Z * list Z :=
  match s with
  | [] => ([], [])
  | c :: s' => if c =? d then ([], s') else let '(t, r) := tok_cut d s' in (c :: t, r)
  end.
Definition strtok (d : Z) (s : list Z) : option (list Z * list Z) :=
  match tok_skip d s with [] => None | s' => Some (tok_cut d s') end.

(** strtoul(_, _, 16). *)
Definition hex_digit (c : Z) : option Z :=
  if (48 <=? c) && (c <=? 57) then Some (c - 48)
  else if (97 <=? c) && (c <=? 102) then Some (c - 87)
  else if (65 <=? c) && (c <=? 70) then Some (c - 55)
  else None.
Fixpoint hex_acc (acc : Z) (s : list Z) : Z :=
  match s with
  | [] => acc
  | c :: s' => match hex_digit c with Some d => hex_acc (acc * 16 + d) s' | None => acc end
  end.
Fixpoint skip_space (s : list Z) : list Z :=
  match s with c :: s' => if (c =? 32) || ((9 <=? c) && (c <=? 13)) then skip_space s' else s | [] => [] end.
Definition strtoul16 (s : list Z) : Z :=
  let s := skip_space s in
  let '(neg, s) := match s with
                   | c :: s' => if c =? 45 then (true, s') else if c =? 43 then (false, s') else (false, s)
                   | [] => (false, [])
                   end in
  let s := match s with
           | z :: x :: d :: s' =>
               if (z =? 48) && ((x =? 120) || (x =? 88)) && (match hex_digit d with Some _ => true | None => false end)
               then d :: s' else s
           | _ => s
           end in
  let v := hex_acc 0 s in
  if UINT64_MAX <? v then UINT64_MAX else if neg then u64 (- v) else v.

(** One line: "saddr-eaddr ...". *)
Definition parse_segment (line : list Z) : option dyninstmm_t :=
  match strtok DASH line with
  | None => None
  | Some (saddr, rest) =>
      match strtok SPACE rest with
      | None => None
      | Some (eaddr, _) => Some (mk_mm (strtoul16 saddr) (u64 (strtoul16 eaddr - strtoul16 saddr)))
      end
  end.

(** The loop over the lines of the marked buffer. *)
Fixpoint parse_segments (num : nat) (buf : list Z) : option (list dyninstmm_t) :=
  match num with
  | O => Some []
  | S num' =>
      let '(line, next) := c_string buf in
      match parse_segment line with
      | None => None
      | Some m => match parse_segments num' next with None => None | Some ms => Some (m :: ms) end
      end
  end.

(** [seg_alloc]: whether the array of segments could be allocated; [rounds]
    bounds the growth of the buffer. *)
Definition DYNINSTgetMemoryMap `{ProcMaps} (rounds : nat) (seg_alloc : bool) : M Z (option (list dyninstmm_t)) :=
  text ← load_maps rounds 0 ;
  match text with
  | None => mret None
  | Some text =>
      let '(num, buf) := mark_lines false text in
      if negb seg_alloc then mret None else mret (parse_segments num buf)
  end.

(** ** Reading *)

(** The kernel serves the text [T]: in every round, each read returns the next
    bytes, at least one while there are any, and no more than there is room
    for. *)
Definition serves `{ProcMaps} (T : list Z) (mapSize : Z) : Prop :=
  forall round k off, (off <= length T)%nat -> Z.of_nat off < mapSize * 2 ^ Z.of_nat round ->
    exists j, pm_read round k (mapSize * 2 ^ Z.of_nat round - Z.of_nat off) = Some (take j (drop off T)) /\
      Z.of_nat j <= mapSize * 2 ^ Z.of_nat round - Z.of_nat off /\ ((off < length T)%nat -> (0 < j)%nat).

Lemma maps_read_loop_run `{ProcMaps} T m0 n round k off (m := m0 * 2 ^ Z.of_nat round) :
  serves T m0 -> (off <= length T)%nat -> Z.of_nat off < m -> (Z.to_nat m - off < n)%nat ->
  read_loop n round k m (take off T) = Ret (if Z.of_nat (length T) <? m then ReadDone T else ReadGrow).
Proof.
  intros HS. revert k off. induction n as [|n IH]; intros k off Hoff Hm Hn; [lia|]. cbn [read_loop].
  destruct (HS round k off Hoff Hm) as (j & Er & Hj & Hpos). fold m in Er, Hj.
  rewrite length_take, Nat.min_l, Er by done. destruct (take j (drop off T)) as [|c bs] eqn:Eb.
  - assert (off = length T) as ->.
    { destruct (decide (off < length T)%nat); [|lia]. apply (f_equal length) in Eb. rewrite length_take, length_drop in Eb. simpl in Eb. lia. }
    rewrite take_ge by lia. by rewrite (proj2 (Z.ltb_lt _ _)).
  - rewrite <- Eb. cbv zeta. pose proof (f_equal length Eb) as Hlen. rewrite length_take, length_drop in Hlen. simpl in Hlen.
    set (off' := Nat.min (off + j) (length T)).
    assert (take off T ++ take j (drop off T) = take off' T) as ->.
    { rewrite take_take_drop. unfold off'. destruct (decide (off + j <= length T)%nat); [f_equal; lia|rewrite !take_ge by lia; done]. }
    rewrite length_take, Nat.min_l by lia. destruct (m <=? Z.of_nat off') eqn:El; zbool.
    + by rewrite (proj2 (Z.ltb_ge _ _)) by lia.
    + apply IH; lia.
Qed.

Lemma load_maps_run `{ProcMaps} T m0 n round :
  serves T m0 -> (forall r, pm_alloc r = true) -> (forall r, pm_open r = true) ->
  0 < m0 -> m0 * 2 ^ Z.of_nat round <= MAX_MAP_SIZE -> Z.of_nat (length T) < MAX_MAP_SIZE -> (exists e, m0 * 2 ^ e = MAX_MAP_SIZE /\ 0 <= e) ->
  MAX_MAP_SIZE < m0 * 2 ^ Z.of_nat (round + n) ->
  exists m, load_maps n round (m0 * 2 ^ Z.of_nat round) = Ret (Some T, m).
Proof.
  intros HS Ha Ho Hm0 Hmax HT (e & He & He0). revert round Hmax. induction n as [|n IH]; intros round Hmax Hn; [rewrite Nat.add_0_r in Hn; lia|].
  cbn [load_maps]. rewrite Ha, Ho. cbn [negb]. set (m := m0 * 2 ^ Z.of_nat round) in *.
  assert (0 < m) by (unfold m; nia).
  pose proof (maps_read_loop_run T m0 (S (Z.to_nat m)) round 0 0 HS ltac:(lia)) as E. fold m in E. change (take 0 T) with (@nil Z) in E. rewrite E by lia.
  destruct (Z.of_nat (length T) <? m) eqn:El; zbool; [by eexists|].
  assert (m * 2 <= MAX_MAP_SIZE) as Hle.
  { assert (Z.of_nat round < e) as Hre.
    { destruct (decide (Z.of_nat round < e)); [done|]. assert (2 ^ e <= 2 ^ Z.of_nat round) by (apply Z.pow_le_mono_r; lia). unfold m in *. nia. }
    assert (2 ^ (Z.of_nat round + 1) <= 2 ^ e) by (apply Z.pow_le_mono_r; lia).
    rewrite Z.pow_add_r in H1 by lia. unfold m. nia. }
  rewrite uwrap_id by (unfold urange, MAX_MAP_SIZE in *; lia). rewrite (proj2 (Z.ltb_ge _ _)) by done.
  assert (m * 2 = m0 * 2 ^ Z.of_nat (S round)) as Em by (unfold m; rewrite Nat2Z.inj_succ, Z.pow_succ_r by lia; lia).
  rewrite Em. apply IH; [lia|]. by replace (S round + n)%nat with (round + S n)%nat by lia.
Qed.

(** ** Parsing *)

(** A line of /proc/self/maps: two addresses in hexadecimal, with zeros in front up to
    [pad] digits (printf's %0*lx; the kernel pads to eight), then anything. *)
Definition hex_char (d : Z) : Z := if d <? 10 then 48 + d else 87 + d.
Fixpoint print_hex (w : nat) (x : Z) : list Z :=
  match w with O => [] | S w' => print_hex w' (x / 16) ++ [hex_char (x mod 16)] end.

Definition hex_len (x : Z) : nat := S (Z.to_nat (Z.log2 x / 4)).
Definition print_addr (pad : nat) (x : Z) : list Z := print_hex (Nat.max pad (hex_len x)) x.

Record map_line : Type := mk_line { ln_start : Z; ln_end : Z; ln_rest : list Z }.

Definition print_line (pad : nat) (l : map_line) : list Z :=
  print_addr pad (ln_start l) ++ DASH :: print_addr pad (ln_end l) ++ SPACE :: ln_rest l.
Definition print_maps (pad : nat) (ls : list map_line) : list Z := concat (map (fun l => print_line pad l ++ [NEWLINE]) ls).

Definition line_ok (l : map_line) : Prop :=
  0 <= ln_start l <= ln_end l /\ ln_end l < 2 ^ 64 /\ NUL ∉ ln_rest l /\ NEWLINE ∉ ln_rest l.

Definition is_hex (c : Z) : Prop := exists d, 0 <= d < 16 /\ c = hex_char d.

Lemma hex_digit_char d : 0 <= d < 16 -> hex_digit (hex_char d) = Some d.
Proof.
  intros Hd. unfold hex_char, hex_digit. destruct (d <? 10) eqn:E; zbool.
  - rewrite !(proj2 (Z.leb_le _ _)) by lia. cbn [andb]. f_equal. lia.
  - rewrite (proj2 (Z.leb_gt (87 + d) 57)), !(proj2 (Z.leb_le _ _)), andb_false_r by lia. cbn [andb]. f_equal. lia.
Qed.

Lemma is_hex_range c : is_hex c -> 48 <= c <= 57 \/ 97 <= c <= 102.
Proof. intros (d & Hd & ->). unfold hex_char. destruct (d <? 10) eqn:E; zbool; lia. Qed.

Lemma print_hex_hex w x : Forall is_hex (print_hex w x).
Proof.
  revert x. induction w as [|w IH]; intros x; simpl; [constructor|]. apply Forall_app. split; [apply IH|].
  constructor; [|constructor]. exists (x mod 16). split; [apply Z.mod_pos_bound; lia|done].
Qed.

Lemma length_print_hex w x : length (print_hex w x) = w.
Proof. revert x. induction w as [|w IH]; intros x; simpl; [done|]. rewrite length_app, IH. simpl. lia. Qed.

Lemma hex_acc_app acc s t : Forall is_hex s -> hex_acc acc (s ++ t) = hex_acc (hex_acc acc s) t.
Proof.
  intros Hs. revert acc. induction Hs as [|c s (d & Hd & ->) Hs IH]; intros acc; [done|]. simpl. rewrite hex_digit_char by done. apply IH.
Qed.

Lemma hex_acc_print w x acc : 0 <= x < 16 ^ Z.of_nat w -> hex_acc acc (print_hex w x) = acc * 16 ^ Z.of_nat w + x.
Proof.
  revert x acc. induction w as [|w IH]; intros x acc Hx.
  - change (16 ^ Z.of_nat 0) with 1 in *. simpl. lia.
  - rewrite Nat2Z.inj_succ, Z.pow_succ_r in * by lia. simpl print_hex. rewrite hex_acc_app by apply print_hex_hex.
    rewrite IH by (split; [apply Z.div_pos; lia|apply Z.div_lt_upper_bound; lia]). simpl.
    rewrite hex_digit_char by (apply Z.mod_pos_bound; lia). pose proof (Z.div_mod x 16). lia.
Qed.

#[local] Opaque print_hex.

(** A string of digits has no blanks, sign or prefix to skip. *)
Lemma strtoul16_hex s : Forall is_hex s -> strtoul16 s = (if UINT64_MAX <? hex_acc 0 s then UINT64_MAX else hex_acc 0 s).
Proof.
  intros Hs. unfold strtoul16.
  assert (skip_space s = s) as ->.
  { destruct Hs as [|c s Hc Hs]; [done|]. apply is_hex_range in Hc. simpl.
    rewrite (proj2 (Z.eqb_neq c 32)), (proj2 (Z.leb_gt c 13)), andb_false_r by lia. done. }
  destruct Hs as [|c s Hc Hs]; [done|]. pose proof (is_hex_range _ Hc).
  rewrite (proj2 (Z.eqb_neq c 45)), (proj2 (Z.eqb_neq c 43)) by lia.
  destruct Hs as [|x s Hx Hs]; [done|]. pose proof (is_hex_range _ Hx).
  destruct Hs as [|y s Hy Hs]; [done|].
  by rewrite (proj2 (Z.eqb_neq x 120)), (proj2 (Z.eqb_neq x 88)), andb_false_r by lia.
Qed.

(** As many digits as the number has suffice. *)
Lemma hex_len_enough x w : 0 <= x -> (hex_len x <= w)%nat -> x < 16 ^ Z.of_nat w.
Proof.
  intros Hx Hw. destruct (decide (x = 0)) as [->|]; [apply Z.pow_pos_nonneg; lia|]. apply Z.lt_le_trans with (2 ^ (Z.log2 x + 1)); [apply Z.log2_spec; lia|].
  change 16 with (2 ^ 4). rewrite <- Z.pow_mul_r by lia. apply Z.pow_le_mono_r; [lia|]. pose proof (Z.log2_nonneg x). unfold hex_len in Hw.
  pose proof (Z.div_mod (Z.log2 x) 4). pose proof (Z.mod_pos_bound (Z.log2 x) 4). pose proof (Z.div_pos (Z.log2 x) 4). lia.
Qed.

Lemma strtoul16_print pad x : 0 <= x < 2 ^ 64 -> strtoul16 (print_addr pad x) = x.
Proof.
  intros Hx. unfold print_addr. rewrite strtoul16_hex by apply print_hex_hex.
  assert (hex_acc 0 (print_hex (Nat.max pad (hex_len x)) x) = x) as ->.
  { rewrite hex_acc_print; [lia|]. split; [lia|]. apply hex_len_enough; lia. }
  by rewrite (proj2 (Z.ltb_ge _ _)) by (unfold UINT64_MAX; lia).
Qed.

Lemma tok_cut_app d s t : d ∉ s -> tok_cut d (s ++ d :: t) = (s, t).
Proof.
  induction s as [|c s IH]; intros Hd; simpl; [by rewrite Z.eqb_refl|].
  rewrite (proj2 (Z.eqb_neq c d)) by set_solver. by rewrite IH by set_solver.
Qed.

Lemma strtok_hex d w x t :
  (0 < w)%nat -> ~ (48 <= d <= 57 \/ 97 <= d <= 102) -> strtok d (print_hex w x ++ d :: t) = Some (print_hex w x, t).
Proof.
  intros Hw Hd. assert (d ∉ print_hex w x) as Hn.
  { intros Hin. apply Hd, is_hex_range. by apply (proj1 (Forall_forall _ _) (print_hex_hex w x)). }
  unfold strtok. destruct (print_hex w x) as [|c s] eqn:E.
  - apply (f_equal length) in E. rewrite length_print_hex in E. simpl in E. lia.
  - assert (tok_skip d ((c :: s) ++ d :: t) = (c :: s) ++ d :: t) as ->
      by (simpl; by rewrite (proj2 (Z.eqb_neq c d)) by set_solver).
    exact (f_equal Some (tok_cut_app d (c :: s) t Hn)).
Qed.

Lemma parse_segment_print pad l :
  line_ok l -> parse_segment (print_line pad l) = Some (mk_mm (ln_start l) (ln_end l - ln_start l)).
Proof.
  intros (Hs & He & _). unfold parse_segment, print_line.
  unfold print_addr at 1. rewrite strtok_hex by (unfold DASH, hex_len; lia). unfold print_addr at 1. rewrite strtok_hex by (unfold SPACE, hex_len; lia).
  fold (print_addr pad (ln_start l)) (print_addr pad (ln_end l)).
  rewrite !strtoul16_print by lia. rewrite uwrap_id by (unfold urange; lia). done.
Qed.

Lemma mark_lines_line s t : NUL ∉ s -> NEWLINE ∉ s ->
  mark_lines true (s ++ NEWLINE :: t) = ((mark_lines false t).1, s ++ NUL :: (mark_lines false t).2).
Proof.
  induction s as [|c s IH]; intros Hn Hl; simpl.
  - destruct (mark_lines false t) eqn:E. done.
  - rewrite (proj2 (Z.eqb_neq c NUL)), (proj2 (Z.eqb_neq c NEWLINE)) by set_solver. by rewrite IH by set_solver.
Qed.

Lemma c_string_app s t : NUL ∉ s -> c_string (s ++ NUL :: t) = (s, t).
Proof.
  induction s as [|c s IH]; intros Hd; simpl; [done|].
  rewrite (proj2 (Z.eqb_neq c NUL)) by set_solver. by rewrite IH by set_solver.
Qed.

Lemma print_line_plain pad l : line_ok l -> NUL ∉ print_line pad l /\ NEWLINE ∉ print_line pad l /\ exists c s, print_line pad l = c :: s.
Proof.
  intros (_ & _ & Hn & Hl).
  assert (forall w x, NUL ∉ print_hex w x /\ NEWLINE ∉ print_hex w x) as Hh.
  { intros w x. split; intros Hin; apply (proj1 (Forall_forall _ _) (print_hex_hex w x)), is_hex_range in Hin; unfold NUL, NEWLINE in Hin; lia. }
  unfold print_line, print_addr. set (w1 := Nat.max pad (hex_len (ln_start l))). set (w2 := Nat.max pad (hex_len (ln_end l))). split_and!.
  - rewrite elem_of_app, elem_of_cons, elem_of_app, elem_of_cons. destruct (Hh w1 (ln_start l)), (Hh w2 (ln_end l)).
    unfold DASH, SPACE, NUL in *. intros [?|[?|[?|[?|?]]]]; try done.
  - rewrite elem_of_app, elem_of_cons, elem_of_app, elem_of_cons. destruct (Hh w1 (ln_start l)), (Hh w2 (ln_end l)).
    unfold DASH, SPACE, NEWLINE in *. intros [?|[?|[?|[?|?]]]]; try done.
  - destruct (print_hex w1 (ln_start l)) as [|c s] eqn:E; [|by eexists _, _].
    apply (f_equal length) in E. rewrite length_print_hex in E. unfold w1, hex_len in E. simpl in E. lia.
Qed.

Lemma parse_print pad ls : Forall line_ok ls ->
  let '(num, buf) := mark_lines false (print_maps pad ls) in
  num = length ls /\ parse_segments num buf = Some (map (fun l => mk_mm (ln_start l) (ln_end l - ln_start l)) ls).
Proof.
  induction 1 as [|l ls Hl Hls IH]; [done|]. unfold print_maps. simpl. fold (print_maps pad ls).
  destruct (print_line_plain pad l Hl) as (Hn & Hnl & c & s & Ec).
  assert (mark_lines false ((print_line pad l ++ [NEWLINE]) ++ print_maps pad ls) =
    (S (mark_lines false (print_maps pad ls)).1, print_line pad l ++ NUL :: (mark_lines false (print_maps pad ls)).2)) as ->.
  { rewrite <- app_assoc. simpl. rewrite Ec in *. simpl.
    rewrite (proj2 (Z.eqb_neq c NUL)), (proj2 (Z.eqb_neq c NEWLINE)) by set_solver. by rewrite mark_lines_line by set_solver. }
  destruct (mark_lines false (print_maps pad ls)) as [num buf]. destruct IH as [-> IH]. simpl. split; [done|].
  rewrite c_string_app by done. by rewrite parse_segment_print, IH.
Qed.

(** C34: reading the memory map.  Take any map printed as the kernel does, an address in
    as many hexadecimal digits as it needs but at least [pad] (eight in the
    kernel), below 2^64, and the rest of a line anything without a line end.  Whatever
    portions the kernel serves the text of /proc/self/maps in, as long as it is
    shorter than 1 MB, memory and file are available and the first buffer is a
    power of two up to 1 MB, DYNINSTgetMemoryMap doubles its buffer until the text
    fits and returns the segments of all lines, in order: the text is read back
    exactly. *)
Theorem memory_map_roundtrip `{ProcMaps} pad ls e rounds :
  Forall line_ok ls -> serves (print_maps pad ls) (2 ^ e) -> (forall r, pm_alloc r = true) -> (forall r, pm_open r = true) ->
  0 <= e <= 20 -> Z.of_nat (length (print_maps pad ls)) < MAX_MAP_SIZE -> 21 - e <= Z.of_nat rounds ->
  exists m, DYNINSTgetMemoryMap rounds true (2 ^ e) =
    Ret (Some (map (fun l => mk_mm (ln_start l) (ln_end l - ln_start l)) ls), m).
Proof.
  intros Hls HS Ha Ho He Hlen Hr.
  destruct (load_maps_run (print_maps pad ls) (2 ^ e) rounds 0 HS Ha Ho) as [m E]; try done.
  - lia.
  - change (2 ^ Z.of_nat 0) with 1. rewrite Z.mul_1_r. unfold MAX_MAP_SIZE. apply Z.pow_le_mono_r; lia.
  - exists (20 - e). rewrite <- Z.pow_add_r by lia. split; [unfold MAX_MAP_SIZE; f_equal; lia|lia].
  - rewrite <- Z.pow_add_r by lia. unfold MAX_MAP_SIZE. apply Z.pow_lt_mono_r; lia.
  - exists m. change (2 ^ Z.of_nat 0) with 1 in E. rewrite Z.mul_1_r in E. unfold DYNINSTgetMemoryMap. rewrite (bind_ret _ _ _ _ _ E).
    pose proof (parse_print pad ls Hls) as Hp. destruct (mark_lines false (print_maps pad ls)) as [num buf]. destruct Hp as [_ ->]. done.
Qed.

(** ** A concrete map, served seven bytes at a time *)
Definition demo_lines : list map_line :=
  [mk_line 0x400000 0x403000 [114; 45; 120; 112]; mk_line 0x7ffff7dd3000 0x7ffff7dfc000 []].

(** The offset is what is missing to the size of the buffer in that round. *)
#[export] Instance demo_proc : ProcMaps := {|
  pm_alloc := fun _ => true;
  pm_open := fun _ => true;
  pm_read := fun round _ room =>
    Some (take (Nat.min 7 (Z.to_nat room)) (drop (Z.to_nat (16 * 2 ^ Z.of_nat round - room)) (print_maps 8 demo_lines)))
|}.

Lemma demo_serves : serves (print_maps 8 demo_lines) (2 ^ 4).
Proof.
  intros round k off Hoff Hm. change (2 ^ 4) with 16 in *. exists (Nat.min 7 (Z.to_nat (16 * 2 ^ Z.of_nat round - Z.of_nat off))).
  split; [|lia]. simpl pm_read. f_equal. f_equal. f_equal. lia.
Qed.

Lemma memory_map_roundtrip_witness :
  exists m, DYNINSTgetMemoryMap 17 true (2 ^ 4) =
    Ret (Some [mk_mm 0x400000 0x3000; mk_mm 0x7ffff7dd3000 0x29000], m).
Proof.
  apply (memory_map_roundtrip 8 demo_lines 4 17); [|exact demo_serves|done|done|lia|vm_compute; reflexivity|lia].
  repeat constructor; simpl; try lia; unfold NUL, NEWLINE; set_solver.
Defined.
