(* ===== verification/RTInit.v ===== *)
(** * Start of the runtime, signals and the mutator's socket:
    dyninstAPI_RT/src/RTcommon.c, RTposix.c and RTsignal.c

    The initialisers put the parts modelled in RTLock, RTThread, RTCommon and
    RTLinux into their first consistent state.  [runtime] is the state of all of
    them together; the socket to the mutator has a state of its own. *)
From stdpp Require Import base gmap list list_numbers strings pretty.
From S2P Require Import Prelude ListHead ToolBase RTLock RTThread RTCommon RTLinux.

(** ** Initialisation *)
Record runtime : Type := mk_runtime {
  r_rt : rt;                       (* event variables, trace lock, target cache *)
  r_htab : htab;                   (* thread table, DYNINST_max_num_threads *)
  r_default_guards : list Z;       (* DYNINST_default_tramp_guards *)
  r_guards : list Z;               (* the array DYNINST_tramp_guards points to *)
  r_hasInitialized : bool;
  r_initCalledOnce : bool;
  r_untranslated : Z;              (* RTuntranslatedEntryCounter *)
  r_fakeTickCount : Z;
  r_mprotects : list (Z * Z);      (* calls of mprotect, latest last *)
  r_handlers : gmap Z Z            (* handlers by signal *)
}.

#[global] Instance runtime_rt : Embed runtime rt := {|
  eget := r_rt;
  eput := fun x r => mk_runtime x (r_htab r) (r_default_guards r) (r_guards r) (r_hasInitialized r) (r_initCalledOnce r)
    (r_untranslated r) (r_fakeTickCount r) (r_mprotects r) (r_handlers r)
|}.
#[global] Instance runtime_htab : Embed runtime htab := {|
  eget := r_htab;
  eput := fun x r => mk_runtime (r_rt r) x (r_default_guards r) (r_guards r) (r_hasInitialized r) (r_initCalledOnce r)
    (r_untranslated r) (r_fakeTickCount r) (r_mprotects r) (r_handlers r)
|}.
#[global] Instance runtime_handlers : Embed runtime (gmap Z Z) := {|
  eget := r_handlers;
  eput := fun x r => mk_runtime (r_rt r) (r_htab r) (r_default_guards r) (r_guards r) (r_hasInitialized r) (r_initCalledOnce r)
    (r_untranslated r) (r_fakeTickCount r) (r_mprotects r) x
|}.

Definition set_max (m : Z) (h : htab) : htab :=
  mk_htab (ht_tids h) (ht_indices h) (ht_size h) m (ht_num_free h) (ht_init_done h) (ht_lock h).
Definition set_guards (dflt cur : list Z) (r : runtime) : runtime :=
  mk_runtime (r_rt r) (r_htab r) dflt cur (r_hasInitialized r) (r_initCalledOnce r) (r_untranslated r) (r_fakeTickCount r)
    (r_mprotects r) (r_handlers r).
Definition set_flags (inited once : bool) (untranslated ticks : Z) (mp : list (Z * Z)) (r : runtime) : runtime :=
  mk_runtime (r_rt r) (r_htab r) (r_default_guards r) (r_guards r) inited once untranslated ticks mp (r_handlers r).

(** What the environment supplies. *)
Class Start : Type := {
  st_malloc : bool;                (* malloc() of the arrays succeeds *)
  st_junk : nat -> Z;              (* and holds this *)
  st_sysconf : Z;
  st_anyHeap : Z * Z;              (* the static heaps and their sizes *)
  st_lowmemHeap : Z * Z;
  st_sigaction : Z -> bool;        (* sigaction() accepts the signal *)
  st_trapHandler : Z               (* the address of dyninstTrapHandler *)
}.

Definition SIGTRAP : Z := 5.
Definition SIG_DFL : Z := 0.
Definition SIG_ERR : Z := -1.

Section Init.
Context `{St : Start}.

(** sigaction(2), as far as the handler is concerned; [None] only asks. *)
Definition sigaction (signum : Z) (act : option Z) : M (gmap Z Z) (Z * Z) := fun hs =>
  let old := default SIG_DFL (hs !! signum) in
  if negb (st_sigaction signum) then Ret ((-1, old), hs)
  else Ret ((0, old), match act with Some h => <[signum := h]> hs | None => hs end).

Definition DYNINSTinitializeTrapHandler : M (gmap Z Z) Z :=
  '(result, _) ← sigaction SIGTRAP (Some st_trapHandler) ;
  mret (if result =? 0 then 1 else 0).

Definition store_guards : M runtime unit := fun r =>
  let maxthreads := ht_max (r_htab r) in
  if (MAX_THREADS <? maxthreads) && negb st_malloc then Fault FNull else
  let g := initTrampGuards (r_default_guards r) st_junk maxthreads in
  Ret (tt, set_guards (if maxthreads <=? MAX_THREADS then g else r_default_guards r) g r).

(** Before [DYNINSTinit], in a rewritten program. *)
Definition DYNINSTBaseInit : M runtime unit :=
  lift (modify (set_max MAX_THREADS)) ;;
  modify (fun r => let g := DYNINSTBaseInit_guards (r_default_guards r) in set_guards g g r) ;;
  lift DYNINSTinitializeTrapHandler ;;
  lift (DYNINST_initialize_index_list st_malloc st_junk) ;;
  modify (fun r => set_flags true (r_initCalledOnce r) 0 (r_fakeTickCount r) (r_mprotects r) r).

Definition DYNINSTinit : M runtime unit :=
  modify (fun r => set_flags (r_hasInitialized r) (r_initCalledOnce r) (r_untranslated r) (r_fakeTickCount r)
    (r_mprotects r ++ mark_heaps_exec st_sysconf st_anyHeap.1 st_anyHeap.2 st_lowmemHeap.1 st_lowmemHeap.2) r) ;;
  lift (lift tc_lock_init : M rt Z) ;;
  lift (modify (fun h => if ht_max h <? MAX_THREADS then set_max MAX_THREADS h else h)) ;;
  modify (fun r => set_flags true (r_initCalledOnce r) (r_untranslated r) (r_fakeTickCount r) (r_mprotects r) r) ;;
  store_guards ;;
  lift (DYNINST_initialize_index_list st_malloc st_junk) ;;
  lift init_target_cache ;;
  modify (fun r => set_flags (r_hasInitialized r) (r_initCalledOnce r) (r_untranslated r) 0 (r_mprotects r) r).

Definition libdyninstAPI_RT_init : M runtime unit :=
  r ← get ;
  if r_initCalledOnce r then mret tt else
  modify (fun r => set_flags (r_hasInitialized r) true (r_untranslated r) (r_fakeTickCount r) (r_mprotects r) r) ;;
  DYNINSTinit.

(** ** The signal functions the mutatee gets instead of the system's *)
Definition dyn_sigaction (signum : Z) (act : option Z) : M (gmap Z Z) (Z * option Z) :=
  if negb (signum =? SIGTRAP) then
    '(r, old) ← sigaction signum act ; mret (r, Some old)
  else mret (0, None).
Definition dyn_signal (signum handler : Z) : M (gmap Z Z) Z :=
  if negb (signum =? SIGTRAP) then
    '(r, old) ← sigaction signum (Some handler) ; mret (if r =? 0 then old else SIG_ERR)
  else mret SIG_DFL.
End Init.

(** *** What the initialisers establish *)
Lemma index_list_run malloc_ok junk h (max := if ht_max h =? 0 then MAX_THREADS else ht_max h) :
  ht_init_done h = false -> 0 <= ht_max h <= 2 ^ 30 -> lk_mutex (ht_lock h) = 0 -> malloc_ok = true \/ max = MAX_THREADS ->
  exists h', DYNINST_initialize_index_list malloc_ok junk h = Ret (tt, h') /\ htab_ok h' /\ represents h' ∅ /\
    ht_max h' = max /\ ht_num_free h' = max /\ ht_init_done h' = true /\ ht_lock h' = ht_lock h.
Proof.
  intros Hi Hmax Hl Hok. unfold DYNINST_initialize_index_list. rewrite Hi. fold max.
  assert (negb ((max =? MAX_THREADS) || malloc_ok) = false) as ->.
  { destruct Hok as [->| ->]; [by rewrite orb_true_r|done]. }
  set (size := if max =? MAX_THREADS then THREADS_HASH_SIZE else s32 (max * 5 / 4)).
  assert (0 < max <= 2 ^ 30) as Hm by (unfold max; destruct (_ =? 0) eqn:E0; zbool; unfold MAX_THREADS; lia).
  clearbody max. assert (0 < size < 2 ^ 31) as Hsize.
  { unfold size. destruct (_ =? _); [by vm_compute|]. assert (0 < max * 5 / 4 < 2 ^ 31) by (Z.to_euclidean_division_equations; lia).
    rewrite swrap_id; [done|lia|]. unfold srange. change (2 ^ (32 - 1)) with (2 ^ 31). lia. }
  assert (forall k t i, ~ live (mk_htab (if max =? MAX_THREADS then replicate (Z.to_nat size) 0 else map junk (seq 0 (Z.to_nat size)))
    (replicate (Z.to_nat size) IDX_NONE) size max max true (ht_lock h)) k t i) as Hlive.
  { intros k t i (_ & Hk & Hne). simpl in Hk. apply lookup_replicate in Hk as [-> _]. done. }
  eexists. split; [reflexivity|]. split_and!; try done.
  - split; try done; simpl.
    + destruct (_ =? _); [by rewrite length_replicate|]. by rewrite length_map, length_seq.
    + by rewrite length_replicate.
    + intros k i Hk. apply lookup_replicate in Hk as [-> _]. by left.
    + intros k k' t i i' Hk. by apply Hlive in Hk.
  - intros t i. split; [done|]. intros [k Hk]. by apply Hlive in Hk.
Qed.

Lemma guards_armed guards junk max k : (k < Z.to_nat max)%nat -> initTrampGuards guards junk max !! k = Some 1.
Proof.
  intros Hk. unfold initTrampGuards. rewrite lookup_app_l by (rewrite length_replicate; lia). by apply lookup_replicate_2.
Qed.

(** The start of the runtime.  On a process in which nothing is initialised,
    libdyninstAPI_RT_init returns with the trace lock free, a well-formed thread
    table that holds no thread and has room for at least MAX_THREADS, an empty
    target cache of the right shape, and the trampoline guard of every thread
    armed; called again it changes nothing. *)
Theorem runtime_init_establishes `{Start} r :
  r_initCalledOnce r = false -> ht_init_done (r_htab r) = false -> 0 <= ht_max (r_htab r) <= 2 ^ 30 ->
  lk_mutex (ht_lock (r_htab r)) = 0 -> st_malloc = true ->
  exists r', libdyninstAPI_RT_init r = Ret (tt, r') /\ libdyninstAPI_RT_init r' = Ret (tt, r') /\
    r_hasInitialized r' = true /\ rt_trace_lock (r_rt r') = DECLARE_DYNINST_LOCK /\
    htab_ok (r_htab r') /\ represents (r_htab r') ∅ /\ ht_max (r_htab r') = Z.max MAX_THREADS (ht_max (r_htab r)) /\
    DYNINSTthreadCount (r_htab r') = Ret (0, r_htab r') /\
    cache_ok (r_rt r') /\ (forall i, (i < Z.to_nat TARGET_CACHE_WIDTH)%nat -> cache_sets (r_rt r') i = Some (0, 0)) /\
    (forall k, (k < Z.to_nat (ht_max (r_htab r')))%nat -> r_guards r' !! k = Some 1).
Proof.
  intros Honce Hdone Hmax Hlock Hmal. unfold libdyninstAPI_RT_init at 1. erewrite bind_ret by reflexivity. rewrite Honce.
  set (h := if ht_max (r_htab r) <? MAX_THREADS then set_max MAX_THREADS (r_htab r) else r_htab r).
  assert (ht_max h = Z.max MAX_THREADS (ht_max (r_htab r))) as Hm.
  { unfold h. destruct (_ <? _) eqn:El; zbool; simpl; lia. }
  destruct (index_list_run st_malloc st_junk h) as (h' & Eh & OK & HR & Hm' & Hnf & Hd' & Hl').
  { unfold h. by destruct (_ <? _). }
  { rewrite Hm. clear -Hmax. unfold MAX_THREADS. lia. }
  { unfold h. by destruct (_ <? _). }
  { by left. }
  rewrite (proj2 (Z.eqb_neq (ht_max h) 0)) in Hm', Hnf by (rewrite Hm; unfold MAX_THREADS; lia).
  erewrite bind_ret by reflexivity. unfold DYNINSTinit. do 4 (erewrite bind_ret by reflexivity).
  erewrite bind_ret by (unfold store_guards; simpl r_htab; fold h; rewrite Hmal, andb_false_r; reflexivity).
  erewrite bind_ret by (unfold lift; simpl eget; fold h; rewrite Eh; reflexivity). erewrite bind_ret by reflexivity.
  eexists. split; [reflexivity|]. split; [reflexivity|].
  split; [reflexivity|]. split; [reflexivity|]. split; [exact OK|]. split; [exact HR|].
  split; [etrans; [exact Hm'|exact Hm]|]. split_and!.
  - unfold DYNINSTthreadCount, gets. do 2 f_equal. cbn [r_htab eput runtime_htab runtime_rt set_flags set_guards].
    rewrite Hm', Hnf, Z.sub_diag. done.
  - done.
  - intros i Hi.
    change (cache_sets _ i) with (ways ← replicate (Z.to_nat TARGET_CACHE_WIDTH) (0, 0) !! i ;
      flag ← replicate (Z.to_nat TARGET_CACHE_WIDTH) 1 !! i ; Some (lru_of ways flag)).
    by rewrite !lookup_replicate_2 by done.
  - intros k Hk. apply guards_armed. revert Hk. cbn [r_htab eput runtime_htab runtime_rt set_flags set_guards]. by rewrite Hm'.
Qed.

(** ** Protection of the trap handler *)
Inductive sig_op : Type := OpSigaction (signum : Z) (act : option Z) | OpSignal (signum handler : Z).
Definition run_sig `{Start} (op : sig_op) : M (gmap Z Z) unit :=
  match op with
  | OpSigaction s act => dyn_sigaction s act ;; mret tt
  | OpSignal s h => dyn_signal s h ;; mret tt
  end.

Lemma run_sig_total `{Start} op hs : exists hs', run_sig op hs = Ret (tt, hs') /\ hs' !! SIGTRAP = hs !! SIGTRAP.
Proof.
  assert (forall s act, s <> SIGTRAP -> exists r old hs', sigaction s act hs = Ret ((r, old), hs') /\ hs' !! SIGTRAP = hs !! SIGTRAP) as Hs.
  { intros s act Hne. unfold sigaction. destruct (negb _); [by do 3 eexists|]. do 3 eexists. split; [reflexivity|].
    destruct act; [by rewrite lookup_insert_ne|done]. }
  destruct op as [s act|s h]; simpl; unfold dyn_sigaction, dyn_signal; destruct (s =? SIGTRAP) eqn:E; cbn [negb]; zbool;
    try (by exists hs).
  - destruct (Hs s act E) as (r & old & hs' & Er & Hk). exists hs'. split; [|done].
    erewrite bind_ret; [reflexivity|]. by rewrite (bind_ret _ _ _ _ _ Er).
  - destruct (Hs s (Some h) E) as (r & old & hs' & Er & Hk). exists hs'. split; [|done].
    erewrite bind_ret; [reflexivity|]. by rewrite (bind_ret _ _ _ _ _ Er).
Qed.

(** The mutatee cannot take the trap signal away.  After DYNINSTBaseInit
    installed its handler, any sequence of the mutatee's calls of sigaction and
    signal, which the rewriter redirects to dyn_sigaction and dyn_signal, returns
    and leaves dyninstTrapHandler as the handler of SIGTRAP. *)
Theorem trap_handler_protected `{Start} r r' ops :
  st_sigaction SIGTRAP = true -> DYNINSTBaseInit r = Ret (tt, r') ->
  exists hs, forM ops run_sig (r_handlers r') = Ret (tt, hs) /\ hs !! SIGTRAP = Some st_trapHandler.
Proof.
  intros Hok E. assert (r_handlers r' !! SIGTRAP = Some st_trapHandler) as Hr.
  { unfold DYNINSTBaseInit in E. minv E. injection Hm as <- <-. minv E. injection Hm as <- <-.
    minv E. unfold lift, DYNINSTinitializeTrapHandler in Hm. simpl eget in Hm.
    erewrite bind_ret in Hm by (unfold sigaction; rewrite Hok; reflexivity). injection Hm as <- <-.
    minv E. unfold lift in Hm. destruct (DYNINST_initialize_index_list _ _ _) as [[[] h]|]; [|done]. injection Hm as <- <-.
    injection E as <-. apply lookup_insert_eq. }
  clear E. revert Hr. generalize (r_handlers r'). induction ops as [|op ops IH]; intros hs Hr; [by exists hs|].
  destruct (run_sig_total op hs) as (hs1 & E1 & Hk). simpl. rewrite (bind_ret _ _ _ _ _ E1). apply IH. congruence.
Qed.

(** ** The socket to the mutator *)

(** [as_fds] are the open descriptors of the process, [as_writes] the number of
    calls of write() so far. *)
Record async : Type := mk_async {
  as_socket : Z;
  as_need : bool;                (* needToDisconnect *)
  as_path : string;
  as_fds : gset Z;
  as_writes : nat
}.

Inductive write_answer : Type := WBytes (n : Z) | WErr (errno : Z).
#[global] Instance write_answer_eq_dec : EqDecision write_answer.
Proof. solve_decision. Defined.
Definition EINTR : Z := 4.
Definition EAGAIN : Z := 11.

Class Sockets : Type := {
  sk_static : bool;              (* DYNINSTstaticMode *)
  sk_pw_name : option string;    (* getpwuid(geteuid()) *)
  sk_tmpdir : string;            (* P_tmpdir *)
  sk_pid : Z;
  sk_socket : gset Z -> Z;       (* socket(), given the open descriptors *)
  sk_connect : string -> Z;
  sk_write : nat -> write_answer
}.

Section Socket.
Context `{Sk : Sockets}.

(** A failing connect() is reported on stderr only.  sun_path has 108 bytes. *)
Definition DYNINSTasyncConnect (pid : Z) : M async Z := fun a =>
  if sk_static then Ret (0, a) else
  match sk_pw_name with
  | None => Fault FAssert
  | Some pw_name =>
      if negb (as_socket a =? -1) then Ret (0, a) else
      let path := take_str 254 (sk_tmpdir +:+ "/dyninstAsync." +:+ pw_name +:+ "." +:+ pretty pid +:+ "." +:+ pretty sk_pid) in
      let sock_fd := sk_socket (as_fds a) in
      if sock_fd <? 0 then Fault FAbort else
      if bool_decide (108 <= String.length path)%nat then Fault FBounds else
      Ret (1, mk_async sock_fd true path ({[sock_fd]} ∪ as_fds a) (as_writes a))
  end.

Definition DYNINSTasyncDisconnect : M async Z := fun a =>
  if sk_static then Ret (0, a) else
  let fds := if as_need a then as_fds a ∖ {[as_socket a]} else as_fds a in
  Ret (0, mk_async (-1) false (as_path a) fds (as_writes a)).

(** The [try_again] loop; [n] bounds the interrupted writes. *)
Fixpoint write_again (n : nat) (sz : Z) : M async Z := fun a =>
  match n with
  | O => Fault FFuel
  | S n' =>
      let a' := mk_async (as_socket a) (as_need a) (as_path a) (as_fds a) (S (as_writes a)) in
      match sk_write (as_writes a) with
      | WErr errno => if (errno =? EINTR) || (errno =? EAGAIN) then write_again n' sz a' else Ret (-1, a')
      | WBytes res => Ret ((if res =? sz then 0 else -1), a')
      end
  end.
Definition DYNINSTwriteEvent (n : nat) (sz : Z) : M async Z := fun a =>
  if sk_static then Ret (0, a)
  else if -1 =? as_socket a then Ret (-1, a)
  else write_again n sz a.

Inductive async_op : Type := OpConnect (pid : Z) | OpDisconnect | OpWrite (n : nat) (sz : Z).
Definition run_async (op : async_op) : M async Z :=
  match op with
  | OpConnect pid => DYNINSTasyncConnect pid
  | OpDisconnect => DYNINSTasyncDisconnect
  | OpWrite n sz => DYNINSTwriteEvent n sz
  end.

Section Owned.
Context (F : gset Z).
Hypothesis Hfresh : forall fds, 0 <= sk_socket fds -> sk_socket fds ∉ fds.

(** Beside the descriptors [F] of the rest of the process, exactly the socket in
    [async_socket] is open. *)
Record socket_owned (a : async) : Prop := {
  so_need : as_need a = negb (as_socket a =? -1);
  so_fds : as_fds a = (if as_socket a =? -1 then ∅ else {[as_socket a]}) ∪ F;
  so_fresh : as_socket a <> -1 -> as_socket a ∉ F
}.

Lemma write_again_owned n sz a r a' : write_again n sz a = Ret (r, a') ->
  as_socket a' = as_socket a /\ as_need a' = as_need a /\ as_fds a' = as_fds a.
Proof.
  revert a. induction n as [|n IH]; intros a; [done|]. cbn [write_again]. destruct (sk_write _) as [res|e].
  - by intros [= <- <-].
  - destruct (_ || _); [|by intros [= <- <-]]. intros H%IH. exact H.
Qed.

Lemma run_async_owned op : keeps socket_owned (run_async op).
Proof.
  intros a r a' HI E. destruct op as [pid| |n sz]; simpl in E.
  - unfold DYNINSTasyncConnect in E. destruct sk_static; [by injection E as <- <-|]. destruct sk_pw_name; [|done].
    destruct (as_socket a =? -1) eqn:Es; cbn [negb] in E; [|by injection E as <- <-]. zbool.
    destruct (_ <? _) eqn:El; [done|]. case_bool_decide; [done|]. injection E as <- <-. zbool. destruct HI as [_ Hf _].
    rewrite Es in Hf. simpl in Hf. pose proof (Hfresh (as_fds a) El) as Hn.
    assert (sk_socket (as_fds a) =? -1 = false) as Hne by (apply Z.eqb_neq; lia).
    split; simpl; rewrite ?Hne; [done|rewrite Hf; set_solver|intros _; rewrite Hf in Hn; set_solver].
  - unfold DYNINSTasyncDisconnect in E. destruct sk_static; [by injection E as <- <-|]. injection E as <- <-.
    destruct HI as [Hn Hf Hfr]. split; simpl; [done| |done]. rewrite Hn. destruct (as_socket a =? -1) eqn:Es; cbn [negb]; zbool.
    + done.
    + rewrite Hf. specialize (Hfr Es). apply set_eq. intros x. set_solver.
  - unfold DYNINSTwriteEvent in E. destruct sk_static; [by injection E as <- <-|].
    destruct (-1 =? as_socket a); [by injection E as <- <-|]. apply write_again_owned in E as (H1 & H2 & H3).
    destruct HI as [A1 A2 A3]. split; rewrite ?H1, ?H2, ?H3; done.
Qed.
End Owned.
End Socket.

(** The socket to the mutator.  Whatever sequence of connects, disconnects and
    event writes runs to its end, beside the descriptors the process had before
    exactly the socket in async_socket is open (no socket leaks, none is closed
    twice, no other descriptor is closed), and after a disconnect none is.  On an
    open socket an event is written again while the write is interrupted, and
    the answer is 0 exactly when the whole event was written. *)
Theorem async_socket_owned `{Sockets} F ops path k0 a :
  (forall fds, 0 <= sk_socket fds -> sk_socket fds ∉ fds) -> sk_static = false ->
  forM ops (fun op => run_async op ;; mret tt) (mk_async (-1) false path F k0) = Ret (tt, a) ->
  socket_owned F a /\
  (exists a', DYNINSTasyncDisconnect a = Ret (0, a') /\ as_fds a' = F) /\
  (as_socket a <> -1 -> forall k n sz last,
     (forall j, (j < k)%nat -> exists e, sk_write (as_writes a + j) = WErr e /\ (e = EINTR \/ e = EAGAIN)) ->
     sk_write (as_writes a + k) = last -> (forall e, last = WErr e -> e <> EINTR /\ e <> EAGAIN) -> (k < n)%nat ->
     exists a', DYNINSTwriteEvent n sz a = Ret ((if decide (last = WBytes sz) then 0 else -1), a')).
Proof.
  intros Hfresh Hst HR. assert (socket_owned F a) as HI.
  { refine (keeps_forM (socket_owned F) ops _ _ _ tt a _ HR); [|split; simpl; [done|set_solver|done]].
    intros op _. apply keeps_bind; [by apply run_async_owned|]. intros x. apply keeps_ret. }
  split; [done|]. split.
  - eexists. unfold DYNINSTasyncDisconnect. rewrite Hst. split; [reflexivity|]. simpl. destruct HI as [Hn Hf Hfr]. rewrite Hn.
    destruct (as_socket a =? -1) eqn:Es; cbn [negb]; zbool; rewrite Hf; [set_solver|]. specialize (Hfr Es). set_solver.
  - intros Hs k n sz last Hk Hl Hne Hkn. unfold DYNINSTwriteEvent. rewrite Hst, (proj2 (Z.eqb_neq _ _)) by congruence. clear HR HI Hs.
    revert a n Hk Hl Hkn. induction k as [|k IH]; intros a [|n] Hk Hl Hkn; try lia; cbn [write_again].
    + rewrite Nat.add_0_r in Hl. rewrite Hl. destruct last as [res|e].
      * eexists. do 2 f_equal. destruct (res =? sz) eqn:E; zbool; [by rewrite decide_True by congruence|by rewrite decide_False by congruence].
      * destruct (Hne e eq_refl) as [H1 H2]. rewrite (proj2 (Z.eqb_neq _ _) H1), (proj2 (Z.eqb_neq _ _) H2). by eexists.
    + destruct (Hk 0%nat ltac:(lia)) as (e & He & Hr). rewrite Nat.add_0_r in He. rewrite He.
      assert ((e =? EINTR) || (e =? EAGAIN) = true) as -> by (by destruct Hr as [-> | ->]).
      apply IH; [|rewrite <- Hl; f_equal; simpl; lia|lia].
      intros j Hj. destruct (Hk (S j) ltac:(lia)) as (e' & He' & Hr'). exists e'. split; [|done].
      rewrite <- He'. f_equal. simpl. lia.
Qed.

(** ** Evaluation of the model *)
Definition demo_start : Start := {|
  st_malloc := true; st_junk := fun n => Z.of_nat n; st_sysconf := 4096; st_anyHeap := (8200, 32768);
  st_lowmemHeap := (81920, 524288); st_sigaction := fun s => negb (s =? 9); st_trapHandler := 4711 |}.
Definition demo_runtime : runtime :=
  mk_runtime (mk_rt DSE_undefined 0 0 0 DECLARE_DYNINST_LOCK false [] [] false []) (mk_htab [] [] 0 100 0 false DECLARE_TC_LOCK)
    (replicate 33 0) [] false false 0 0 [] ∅.

Lemma runtime_init_establishes_witness :
  exists r', @libdyninstAPI_RT_init demo_start demo_runtime = Ret (tt, r') /\ htab_ok (r_htab r') /\
    ht_max (r_htab r') = 100.
Proof.
  destruct (@runtime_init_establishes demo_start demo_runtime) as (r' & E & _ & _ & _ & OK & _ & Hm & _);
    [reflexivity|reflexivity|split; vm_compute; discriminate|reflexivity|reflexivity|].
  exists r'. split; [exact E|]. split; [exact OK|exact Hm].
Defined.

Lemma trap_handler_protected_witness :
  exists r' hs, @DYNINSTBaseInit demo_start demo_runtime = Ret (tt, r') /\
    forM [OpSignal 5 0; OpSigaction 11 (Some 12); OpSigaction 5 (Some 77)] (@run_sig demo_start) (r_handlers r') = Ret (tt, hs) /\
    hs !! SIGTRAP = Some 4711.
Proof.
  destruct (@DYNINSTBaseInit demo_start demo_runtime) as [[[] r']|] eqn:E; [|exfalso; revert E; vm_compute; discriminate].
  destruct (@trap_handler_protected demo_start demo_runtime r' [OpSignal 5 0; OpSigaction 11 (Some 12); OpSigaction 5 (Some 77)] eq_refl E)
    as (hs & E2 & H). exists r', hs. split; [reflexivity|]. split; [exact E2|exact H].
Defined.

Definition demo_sockets : Sockets := {|
  sk_static := false; sk_pw_name := Some "user"; sk_tmpdir := "/tmp"; sk_pid := 12;
  sk_socket := fun fds => fresh fds; sk_connect := fun _ => 0;
  sk_write := fun k => match k with O => WErr EINTR | _ => WBytes 40 end |}.

Lemma async_socket_owned_witness :
  exists a a', forM [OpConnect 7; OpWrite 5 40; OpDisconnect; OpConnect 7] (fun op => @run_async demo_sockets op ;; mret tt)
      (mk_async (-1) false "" {[0; 1; 2]} 0) = Ret (tt, a) /\ socket_owned {[0; 1; 2]} a /\
    @DYNINSTwriteEvent demo_sockets 5 40 a = Ret (0, a').
Proof.
  destruct (forM _ _ _) as [[[] a]|] eqn:E; [|exfalso; revert E; vm_compute; discriminate].
  destruct (@async_socket_owned demo_sockets {[0; 1; 2]} [OpConnect 7; OpWrite 5 40; OpDisconnect; OpConnect 7] "" 0 a)
    as (HI & _ & HW).
  - intros fds _. apply fin_sets.is_fresh.
  - reflexivity.
  - exact E.
  - assert (as_socket a <> -1 /\ as_writes a = 2%nat) as [Hs Hw].
    { revert E. vm_compute. intros [= <-]. split; [discriminate|reflexivity]. }
    destruct (HW Hs 0%nat 5%nat 40 (WBytes 40)) as (a' & E'); [lia|rewrite Hw; reflexivity|discriminate|lia|].
    exists a, a'. split; [reflexivity|]. split; [exact HI|exact E'].
Defined.
