(* ===== verification/InfHeap.v ===== *)
(** * The heap Dyninst keeps inside a mutatee

    Memory in the mutatee is handed out from a list of free blocks (addressSpace.C,
    infHeap.h, infHeap.C).  A running process gets new segments by calling
    DYNINSTos_malloc in it (dynProcess.C); a binary that is being rewritten extends
    its own image and tracks its blocks in a tree of address ranges (BinHeap).
    Blocks are values: every block is owned by one list, and is copied where the
    source copies it.  There is no memory emulator, as in lprofile. *)
From stdpp Require Import base gmap list sorting.
From S2P Require Import Prelude.

Module infHeap.

Inductive heapStatus : Type := HEAPfree | HEAPallocated.

(** The heap types are bits of a mask. *)
Definition textHeap : Z := 0x01.
Definition dataHeap : Z := 0x02.
Definition uncopiedHeap : Z := 0x04.
Definition anyHeap : Z := 0x7.
Definition lowmemHeap : Z := 0x1000.

Record heapItem : Type := mk_item {
  hi_addr : Z;
  hi_length : Z;        (* unsigned *)
  hi_type : Z;
  hi_dynamic : bool;
  hi_status : heapStatus;
  hi_buffer : Z
}.

(** The constructor, whose length is an int. *)
Definition new_heapItem (a n t : Z) (d : bool) (s : heapStatus) : heapItem := mk_item a (u32 n) t d s NULL.

Definition with_extent (h : heapItem) (a n : Z) : heapItem :=
  mk_item a n (hi_type h) (hi_dynamic h) (hi_status h) (hi_buffer h).
Definition with_length (h : heapItem) (n : Z) : heapItem := with_extent h (hi_addr h) n.
Definition with_status (h : heapItem) (s : heapStatus) : heapItem :=
  mk_item (hi_addr h) (hi_length h) (hi_type h) (hi_dynamic h) s (hi_buffer h).

Record disabledItem : Type := mk_disabled { di_block : heapItem; di_points : list (list Z) }.

Record inferiorHeap : Type := mk_infheap {
  heapActive : gmap Z heapItem;
  heapFree : list heapItem;
  disabledList : list disabledItem;
  disabledListTotalMem : Z;
  totalFreeMemAvailable : Z;
  freed : Z;
  bufferPool : list heapItem
}.

(** The constructor, the copy made on fork and the clearing on exec. *)
Definition inferiorHeap_new : inferiorHeap := mk_infheap ∅ [] [] 0 0 0 [].
Definition inferiorHeap_copy (src : inferiorHeap) : inferiorHeap :=
  mk_infheap (heapActive src) (heapFree src) (disabledList src) (disabledListTotalMem src)
    (totalFreeMemAvailable src) 0 (bufferPool src).
Definition inferiorHeap_clear (s : inferiorHeap) : inferiorHeap := mk_infheap ∅ [] [] 0 0 0 [].

(** The part of an address space that the methods below use. *)
Record addressSpace : Type := mk_space { heap_ : inferiorHeap; heapInitialized_ : bool }.

Definition set_heap (f : inferiorHeap -> inferiorHeap) : M addressSpace unit :=
  modify (fun s => mk_space (f (heap_ s)) (heapInitialized_ s)).
Definition set_active (f : gmap Z heapItem -> gmap Z heapItem) : M addressSpace unit := set_heap (fun h =>
  mk_infheap (f (heapActive h)) (heapFree h) (disabledList h) (disabledListTotalMem h) (totalFreeMemAvailable h) (freed h) (bufferPool h)).
Definition set_free (l : list heapItem) : M addressSpace unit := set_heap (fun h =>
  mk_infheap (heapActive h) l (disabledList h) (disabledListTotalMem h) (totalFreeMemAvailable h) (freed h) (bufferPool h)).
Definition add_total (d : Z) : M addressSpace unit := set_heap (fun h =>
  mk_infheap (heapActive h) (heapFree h) (disabledList h) (disabledListTotalMem h) (s32 (totalFreeMemAvailable h + d)) (freed h) (bufferPool h)).
Definition add_freed (d : Z) : M addressSpace unit := set_heap (fun h =>
  mk_infheap (heapActive h) (heapFree h) (disabledList h) (disabledListTotalMem h) (totalFreeMemAvailable h) (s32 (freed h + d)) (bufferPool h)).
Definition push_pool (b : heapItem) : M addressSpace unit := set_heap (fun h =>
  mk_infheap (heapActive h) (heapFree h) (disabledList h) (disabledListTotalMem h) (totalFreeMemAvailable h) (freed h) (bufferPool h ++ [b])).

Definition heapItemLessByAddr (a b : heapItem) : bool := hi_addr a <? hi_addr b.

(** [std::sort] with this comparison; blocks of one heap have different addresses. *)
Definition addr_le (a b : heapItem) : Prop := heapItemLessByAddr b a = false.
#[export] Instance addr_le_dec a b : Decision (addr_le a b).
Proof. unfold addr_le. solve_decision. Defined.
Definition sort_items (l : list heapItem) : list heapItem := merge_sort addr_le l.

(** ** Compaction *)

(** A block that ends where the next one of its type begins is absorbed by it and
    left with length 0; also the number of absorbed blocks. *)
Fixpoint absorb (h1 : heapItem) (l : list heapItem) : M addressSpace (list heapItem * nat) :=
  match l with
  | [] => mret ([h1], 0%nat)
  | h2 :: l' =>
      assertM (negb (hi_length h1 =? 0)) ;;
      assertM (u64 (hi_addr h1 + hi_length h1) <=? hi_addr h2) ;;
      if (u64 (hi_addr h1 + hi_length h1) =? hi_addr h2) && (hi_type h1 =? hi_type h2) then
        r ← absorb (with_extent h2 (hi_addr h1) (u32 (hi_length h1 + hi_length h2))) l' ;
        mret (with_length h1 0 :: fst r, S (snd r))
      else
        r ← absorb h2 l' ;
        mret (h1 :: fst r, snd r)
  end.

Definition nonempty_item (h : heapItem) : Prop := hi_length h <> 0.

Definition inferiorFreeCompact : M addressSpace unit :=
  l ← gets (fun s => heapFree (heap_ s)) ;
  match sort_items l with
  | [] => set_free []
  | h1 :: rest =>
      r ← absorb h1 rest ;
      if (0 <? snd r)%nat then
        let cleanList := filter nonempty_item (fst r) in
        assertM (length cleanList =? length l - snd r)%nat ;;
        set_free cleanList
      else set_free (fst r)
  end.

(** ** Allocation *)

Definition fits (h : heapItem) (size type lo hi : Z) : bool :=
  (lo <=? hi_addr h) && (u64 (hi_addr h + size - 1) <=? hi) && (size <=? hi_length h) &&
  negb (Z.land (hi_type h) type =? 0).

(** The loop of [findFreeIndex]: the best index so far with its block. *)
Fixpoint best_loop (l : list heapItem) (i : nat) (best : option (nat * heapItem)) (size type lo hi : Z)
    : option (nat * heapItem) :=
  match l with
  | [] => best
  | h :: l' =>
      let best :=
        if fits h size type lo hi then
          let best := match best with None => Some (i, h) | _ => best end in
          match best with
          | Some (_, b) => if hi_length h <? hi_length b then Some (i, h) else best
          | None => None
          end
        else best in
      best_loop l' (S i) best size type lo hi
  end.

Definition findFreeIndex (size type lo hi : Z) : M addressSpace Z :=
  l ← gets (fun s => heapFree (heap_ s)) ;
  mret match best_loop l 0 None size type lo hi with None => -1 | Some (i, _) => Z.of_nat i end.

Definition addHeap (h : heapItem) : M addressSpace unit :=
  push_pool h ;;
  let h2 := with_status h HEAPfree in
  l ← gets (fun s => heapFree (heap_ s)) ;
  set_free (sort_items (l ++ [h2])) ;;
  add_total (hi_length h2).

Definition initializeHeap : M addressSpace unit := modify (fun s =>
  mk_space (mk_infheap ∅ [] [] 0 0 0 (bufferPool (heap_ s))) true).

Definition isInferiorAllocated (block : Z) : M addressSpace bool :=
  gets (fun s => bool_decide (is_Some (heapActive (heap_ s) !! block))).

Definition inferiorMallocInternal (size lo hi type : Z) : M addressSpace Z :=
  freeIndex ← findFreeIndex size type lo hi ;
  if freeIndex =? -1 then mret 0 else
  l ← gets (fun s => heapFree (heap_ s)) ;
  match l !! Z.to_nat freeIndex with
  | None => fail FBounds
  | Some h =>
      (if negb (hi_length h =? size) then
         let rem := with_extent h (u64 (hi_addr h + size)) (u32 (hi_length h - size)) in
         set_free (<[Z.to_nat freeIndex := rem]> l)
       else
         match last l with
         | None => fail FBounds
         | Some b => set_free (take (length l - 1) (<[Z.to_nat freeIndex := b]> l))
         end) ;;
      l ← gets (fun s => heapFree (heap_ s)) ;
      set_free (sort_items l) ;;
      let h' := with_status (with_length h size) HEAPallocated in
      set_active <[hi_addr h' := h']> ;;
      add_total (- size) ;;
      assertM (negb (hi_addr h' =? 0)) ;;
      mret (hi_addr h')
  end.

Definition inferiorFreeInternal (block : Z) : M addressSpace unit :=
  m ← gets (fun s => heapActive (heap_ s)) ;
  match m !! block with
  | None => mret tt
  | Some h =>
      set_active (delete block) ;;
      let h := with_status h HEAPfree in
      l ← gets (fun s => heapFree (heap_ s)) ;
      set_free (sort_items (l ++ [h])) ;;
      add_total (hi_length h) ;;
      add_freed (hi_length h)
  end.

(** To the word of the process. *)
Definition inferiorMallocAlign (width size : Z) : Z :=
  let alignment := u32 (width - 1) in
  Z.land (u32 (size + alignment)) (u32 (Z.lnot alignment)).

(** ** Resizing *)

(** The first free block at an address: the loops of the two functions below. *)
Fixpoint find_at (l : list heapItem) (i : nat) (a : Z) : option (nat * heapItem) :=
  match l with
  | [] => None
  | h :: l' => if hi_addr h =? a then Some (i, h) else find_at l' (S i) a
  end.

(** [h] is the block of [heapActive] at address [key]. *)
Definition inferiorShrinkBlock (key : Z) (h : heapItem) (block newSize : Z) : M addressSpace bool :=
  let freeStart := u64 (block + newSize) in
  let succAddr := u64 (hi_addr h + hi_length h) in
  let shrink := s32 (hi_length h - newSize) in
  assertM (0 <? shrink) ;;
  set_active <[key := with_length h newSize]> ;;
  l ← gets (fun s => heapFree (heap_ s)) ;
  (match find_at l 0 succAddr with
   | Some (i, succ) =>
       set_free (<[i := with_extent succ (u64 (hi_addr succ - shrink)) (u32 (hi_length succ + shrink))]> l)
   | None =>
       set_free (sort_items (l ++ [new_heapItem freeStart shrink (hi_type h) (hi_dynamic h) HEAPfree]))
   end) ;;
  add_total shrink ;;
  add_freed shrink ;;
  mret true.

Definition inferiorExpandBlock (h : heapItem) (newSize : Z) : M addressSpace bool :=
  let succAddr := u64 (hi_addr h + hi_length h) in
  let expand := s32 (newSize - hi_length h) in
  assertM (0 <? expand) ;;
  l ← gets (fun s => heapFree (heap_ s)) ;
  match find_at l 0 succAddr with
  | None => mret false
  | Some (i, succ) =>
      if hi_length succ <? u32 expand then mret false else
      let succ' := with_extent succ (u64 (succAddr + expand)) (u32 (hi_length succ - expand)) in
      let l' := <[i := succ']> l in
      (if hi_length succ' =? 0 then
         let cleanList := filter nonempty_item l' in
         (* the first end - 1 elements are overwritten, the last one is dropped *)
         if (length l' - 1 <=? length cleanList)%nat then set_free (take (length l' - 1) cleanList) else fail FBounds
       else set_free l') ;;
      add_total (- expand) ;;
      mret true
  end.

Definition inferiorReallocInternal (width block newSize : Z) : M addressSpace bool :=
  let newSize := inferiorMallocAlign width newSize in
  m ← gets (fun s => heapActive (heap_ s)) ;
  match m !! block with
  | None => mret false
  | Some h =>
      if hi_length h =? newSize then mret true
      else if newSize <? hi_length h then inferiorShrinkBlock block h block newSize
      else inferiorExpandBlock h newSize
  end.

(** ** A running process *)

Definition HEAP_DYN_BUF_SIZE : Z := 0x100000.
Definition ADDRESS_LO : Z := 0.
Definition ADDRESS_HI : Z := UINT64_MAX.

(** Address bounds of new segments (arch-x86.h). *)
Definition region_lo (x : Z) : Z := 0.
Definition region_hi (x : Z) : Z := 0xf0000000.
Definition region_lo_64 (x : Z) : Z := Z.land x 0xffffffff80000000.
Definition region_hi_64 (x : Z) : Z := Z.lor x 0x7fffffff.

Definition inferiorMallocConstraints (width near lo hi : Z) : Z * Z :=
  if near =? 0 then (lo, hi)
  else if width =? 8 then (region_lo_64 near, region_hi_64 near)
  else (region_lo near, region_hi near).

Definition getDynamicHeapType : Z := anyHeap.

(** A call of DYNINSTos_malloc in the mutatee: size, bounds, and what it returned. *)
Record rpc : Type := mk_rpc { rpc_size : Z; rpc_lo : Z; rpc_hi : Z; rpc_result : Z }.

(** What the mutatee answers after the calls made so far; [None]: the call could
    not be posted. *)
Class Mutatee : Type := { os_malloc : list rpc -> Z -> Z -> Z -> option Z }.

Record pcProcess : Type := mk_process {
  pp_space : addressSpace;
  pp_width : Z;                (* getAddressWidth *)
  pp_ready : bool;             (* bootstrapState_ > bs_readyToLoadRTLib *)
  pp_rpcs : list rpc;
  pp_RT_heaps : list heapItem  (* dyninstRT_heaps_ *)
}.

#[export] Instance process_space : Embed pcProcess addressSpace := {
  eget := pp_space;
  eput a s := mk_process a (pp_width s) (pp_ready s) (pp_rpcs s) (pp_RT_heaps s)
}.
#[export] Instance process_space_laws : EmbedLaws pcProcess addressSpace.
Proof. split; [by intros []|done]. Qed.

(** [heapDescriptor] and the static heaps of an object, which [getInfHeapList]
    finds by their names. *)
Record heapDescriptor : Type := mk_heapd { hd_addr : Z; hd_size : Z; hd_type : Z }.

Definition skipHeap (d : heapDescriptor) : bool := false.

Definition add_static_heap (is_rtlib : bool) (d : heapDescriptor) : M pcProcess unit :=
  if skipHeap d then mret tt else
  let h := new_heapItem (hd_addr d) (hd_size d) (hd_type d) false HEAPfree in
  lift (addHeap h) ;;
  if is_rtlib then modify (fun s => mk_process (pp_space s) (pp_width s) (pp_ready s) (pp_rpcs s) (pp_RT_heaps s ++ [h]))
  else mret tt.

Definition addInferiorHeap (infHeaps : list heapDescriptor) (is_rtlib : bool) : M pcProcess unit :=
  forM infHeaps (add_static_heap is_rtlib).

Definition alignUp (val align : Z) : M pcProcess Z :=
  assertM (0 <=? val) ;; assertM (0 <=? align) ;;
  if negb (Z.rem val align =? 0) then mret (s32 (s32 (Z.quot val align + 1) * align)) else mret val.

Section Process.
Context `{Mutatee}.

Definition postIRPC (size lo hi : Z) : M pcProcess (option Z) := fun s =>
  match os_malloc (pp_rpcs s) size lo hi with
  | None => Ret (None, s)
  | Some r => Ret (Some r, mk_process (pp_space s) (pp_width s) (pp_ready s) (mk_rpc size lo hi r :: pp_rpcs s) (pp_RT_heaps s))
  end.

Definition inferiorMallocDynamic (size lo hi : Z) : M pcProcess bool :=
  size ← alignUp (s32 size) 4 ;
  r ← postIRPC (u64 size) lo hi ;
  match r with
  | None => mret false
  | Some result =>
      if s32 result =? 0 then mret false
      else if s32 result =? -1 then mret false
      else
        lift (addHeap (new_heapItem result size getDynamicHeapType true HEAPfree)) ;;
        mret true
  end.

(** One attempt: what the [switch] does before the allocation is tried, with the
    bounds and the error flag after it. *)
Definition attempt (ntry : nat) (size lo hi : Z) (err : bool) : M pcProcess (option (Z * Z * bool)) :=
  match ntry with
  | 0 => mret (Some (lo, hi, err))
  | 1 => lift inferiorFreeCompact ;; mret (Some (lo, hi, err))
  | 2 => inferiorMallocDynamic HEAP_DYN_BUF_SIZE lo hi ;; mret (Some (lo, hi, err))
  | 3 => inferiorMallocDynamic size lo hi ;; mret (Some (lo, hi, err))
  | 4 => mret (Some (ADDRESS_LO, ADDRESS_HI, true))
  | 5 => inferiorMallocDynamic HEAP_DYN_BUF_SIZE lo hi ;; mret (Some (lo, hi, err))
  | 6 => inferiorMallocDynamic size lo hi ;; mret (Some (lo, hi, err))
  | 7 => lift inferiorFreeCompact ;; mret (Some (lo, hi, err))
  | _ => mret None
  end%nat.

(** The loop over the attempts, with [left] of them left. *)
Fixpoint malloc_tries (left ntry : nat) (size type lo hi : Z) (err : bool) : M pcProcess (Z * bool) :=
  match left with
  | O => fail FFuel
  | S left' =>
      r ← attempt ntry size lo hi err ;
      match r with
      | None => mret (0, true)
      | Some (lo, hi, err) =>
          ret ← lift (inferiorMallocInternal size lo hi type) ;
          if negb (ret =? 0) then mret (ret, err)
          else malloc_tries left' (S ntry) size type lo hi err
      end
  end.

(** The address, and what is stored through [err]. *)
Definition inferiorMalloc (size type near : Z) : M pcProcess (Z * option bool) :=
  ready ← gets pp_ready ;
  if negb ready then mret (0, None) else
  if size <=? 0 then mret (0, Some true) else
  width ← gets pp_width ;
  let size := inferiorMallocAlign width size in
  let '(lo, hi) := inferiorMallocConstraints width near ADDRESS_LO ADDRESS_HI in
  r ← malloc_tries 9 0 size type lo hi false ;
  mret (fst r, Some (snd r)).

Definition inferiorFree (item : Z) : M pcProcess unit := lift (inferiorFreeInternal item).

Definition inferiorRealloc (item newSize : Z) : M pcProcess bool :=
  ready ← gets pp_ready ;
  if negb ready then mret true else
  width ← gets pp_width ;
  lift (inferiorReallocInternal width item newSize).

End Process.

End infHeap.
