(* ===== verification/InfHeapOk.v ===== *)
(** * The mutatee's heap hands out every byte at most once

    The bytes of a heap are counted block by block: [owners l x] is the number of
    blocks of [l] that contain address [x].  A heap is well formed when no address
    has two owners; allocation, release and compaction keep the owners of every
    address as they are. *)
From stdpp Require Import base gmap list sorting.
From S2P Require Import Prelude InfHeap.
Import infHeap.

(** ** Sums over blocks *)

Definition end_of (h : heapItem) : Z := hi_addr h + hi_length h.
Definition owns (x : Z) (h : heapItem) : Z := if decide (hi_addr h <= x < end_of h) then 1 else 0.
Abbreviation owners l x := (zsum (owns x) l).
Abbreviation bytes l := (zsum hi_length l).

Lemma owns_range x h : 0 <= owns x h <= 1.
Proof. unfold owns. case_decide; lia. Qed.
Lemma owners_nonneg l x : 0 <= owners l x.
Proof. apply zsum_nonneg. intros h _. apply owns_range. Qed.
Lemma owns_in x h : hi_addr h <= x < end_of h -> owns x h = 1.
Proof. unfold owns. by case_decide. Qed.
Lemma owns_out x h : x < hi_addr h \/ end_of h <= x -> owns x h = 0.
Proof. unfold owns. case_decide; lia. Qed.
Lemma owns_extent x h a n : owns x (with_extent h a n) = if decide (a <= x < a + n) then 1 else 0.
Proof. done. Qed.

(** Compares owners by where the address lies. *)
Ltac own_solve := unfold owns, end_of, with_status, with_length, with_extent in *; simpl in *; repeat case_decide; lia.

(** ** Well-formed heaps *)

Record item_ok (st : heapStatus) (h : heapItem) : Prop := {
  io_addr : 0 < hi_addr h;
  io_length : 0 < hi_length h;
  io_end : end_of h < 2 ^ 64;
  io_status : hi_status h = st
}.

Definition free_of (s : addressSpace) : list heapItem := heapFree (heap_ s).
Definition active_of (s : addressSpace) : gmap Z heapItem := heapActive (heap_ s).
Definition items_of (m : gmap Z heapItem) : list heapItem := (map_to_list m).*2.
Definition blocks (s : addressSpace) : list heapItem := free_of s ++ items_of (active_of s).

Record heap_ok (s : addressSpace) : Prop := {
  ho_free : Forall (item_ok HEAPfree) (free_of s);
  ho_active : forall a h, active_of s !! a = Some h -> hi_addr h = a /\ item_ok HEAPallocated h;
  ho_once : forall x, owners (blocks s) x <= 1;
  ho_bytes : bytes (blocks s) < 2 ^ 31;
  ho_sorted : StronglySorted addr_le (free_of s)
}.

(** The count of free bytes is right. *)
Definition accounted (s : addressSpace) : Prop := totalFreeMemAvailable (heap_ s) = bytes (free_of s).

Lemma addr_le_iff a b : addr_le a b <-> hi_addr a <= hi_addr b.
Proof. unfold addr_le, heapItemLessByAddr. rewrite Z.ltb_ge. done. Qed.
#[export] Instance addr_le_trans : Transitive addr_le.
Proof. intros a b c. rewrite !addr_le_iff. lia. Qed.
#[export] Instance addr_le_total : Total addr_le.
Proof. intros a b. rewrite !addr_le_iff. lia. Qed.

Lemma sort_items_perm l : sort_items l ≡ₚ l.
Proof. apply merge_sort_Permutation. Qed.
Lemma sort_items_sorted l : StronglySorted addr_le (sort_items l).
Proof. apply StronglySorted_merge_sort; apply _. Qed.

Lemma items_of_insert m a h : m !! a = None -> items_of (<[a := h]> m) ≡ₚ h :: items_of m.
Proof. intros Hm. unfold items_of. by rewrite (map_to_list_insert m a h Hm). Qed.
Lemma items_of_delete m a h : m !! a = Some h -> items_of m ≡ₚ h :: items_of (delete a m).
Proof. intros Hm. unfold items_of. by rewrite <- (map_to_list_delete m a h Hm). Qed.
Lemma items_of_replace m a h h' : m !! a = Some h -> items_of (<[a := h']> m) ≡ₚ h' :: items_of (delete a m).
Proof.
  intros Hm. rewrite <- insert_delete_eq. apply items_of_insert. apply lookup_delete_eq.
Qed.
Lemma elem_of_items m h : h ∈ items_of m <-> exists a, m !! a = Some h.
Proof.
  unfold items_of. rewrite list_elem_of_fmap. split.
  - intros ([a h'] & -> & Hin). apply elem_of_map_to_list in Hin. eauto.
  - intros [a Ha]. exists (a, h). split; [done|]. by apply elem_of_map_to_list.
Qed.

(** Two blocks of a heap do not overlap. *)
Definition apart_items (h1 h2 : heapItem) : Prop := end_of h1 <= hi_addr h2 \/ end_of h2 <= hi_addr h1.

Lemma once_apart l h1 h2 rest :
  (forall x, owners l x <= 1) -> l ≡ₚ h1 :: h2 :: rest -> 0 < hi_length h1 -> 0 < hi_length h2 -> apart_items h1 h2.
Proof.
  intros Ho HP H1 H2. unfold apart_items. destruct (decide (end_of h1 <= hi_addr h2)); [by left|].
  destruct (decide (end_of h2 <= hi_addr h1)); [by right|]. exfalso.
  specialize (Ho (Z.max (hi_addr h1) (hi_addr h2))). rewrite HP, !zsum_cons in Ho.
  rewrite !owns_in in Ho by (unfold end_of in *; lia). pose proof (owners_nonneg rest (Z.max (hi_addr h1) (hi_addr h2))). lia.
Qed.

Lemma item_ok_pos st l : Forall (item_ok st) l -> 0 <= bytes l.
Proof. intros HF. apply zsum_nonneg. intros h Hh. rewrite Forall_forall in HF. destruct (HF h Hh). lia. Qed.

Lemma active_items_ok s : heap_ok s -> Forall (item_ok HEAPallocated) (items_of (active_of s)).
Proof. intros HO. apply Forall_forall. intros h [a Ha]%elem_of_items. by destruct (ho_active s HO a h Ha). Qed.

Lemma heap_bytes s : heap_ok s -> 0 <= bytes (free_of s) /\ 0 <= bytes (items_of (active_of s)) /\
  bytes (free_of s) + bytes (items_of (active_of s)) < 2 ^ 31.
Proof.
  intros HO. pose proof (ho_bytes s HO) as Hb. unfold blocks in Hb. rewrite zsum_app in Hb.
  split_and!; [eapply item_ok_pos, ho_free, HO|eapply item_ok_pos, active_items_ok, HO|done].
Qed.

Lemma bytes_elem st l h : Forall (item_ok st) l -> h ∈ l -> hi_length h <= bytes l.
Proof.
  intros HF Hh. destruct (list_elem_of_split l h Hh) as (l1 & l2 & ->). rewrite zsum_app, zsum_cons.
  apply Forall_app in HF as [H1 H2]. apply Forall_cons in H2 as [_ H2].
  pose proof (item_ok_pos _ _ H1). pose proof (item_ok_pos _ _ H2). lia.
Qed.

(** A block handed out has an address no live block has. *)
Lemma free_not_active s h : heap_ok s -> h ∈ free_of s -> active_of s !! hi_addr h = None.
Proof.
  intros HO Hh. destruct (active_of s !! hi_addr h) as [h'|] eqn:E; [|done]. exfalso.
  destruct (ho_active s HO _ _ E) as [Ea HI]. destruct (proj1 (Forall_forall _ _) (ho_free s HO) h Hh).
  pose proof (ho_once s HO (hi_addr h)) as H1. unfold blocks in H1. rewrite zsum_app in H1.
  destruct (list_elem_of_split _ _ Hh) as (l1 & l2 & El). rewrite El, (items_of_delete _ _ _ E), zsum_app, !zsum_cons in H1.
  rewrite !owns_in in H1 by (destruct HI; unfold end_of in *; lia).
  pose proof (owners_nonneg l1 (hi_addr h)). pose proof (owners_nonneg l2 (hi_addr h)).
  pose proof (owners_nonneg (items_of (delete (hi_addr h) (active_of s))) (hi_addr h)). lia.
Qed.

(** The state with another heap. *)
Definition put_heap (s : addressSpace) (m : gmap Z heapItem) (l : list heapItem) (t f : Z) : addressSpace :=
  mk_space (mk_infheap m l (disabledList (heap_ s)) (disabledListTotalMem (heap_ s)) t f (bufferPool (heap_ s)))
    (heapInitialized_ s).

(** Nothing is lost and nothing is added. *)
Definition conserved (s s' : addressSpace) : Prop :=
  (forall x, owners (blocks s') x = owners (blocks s) x) /\ bytes (blocks s') = bytes (blocks s).

Lemma conserved_refl s : conserved s s.
Proof. done. Qed.
Lemma conserved_trans s1 s2 s3 : conserved s1 s2 -> conserved s2 s3 -> conserved s1 s3.
Proof. intros [A1 A2] [B1 B2]. split; [intros x; by rewrite B1|congruence]. Qed.

(** The count after [d] free bytes more. *)
Lemma accounted_add s s' d :
  heap_ok s' -> totalFreeMemAvailable (heap_ s') = s32 (totalFreeMemAvailable (heap_ s) + d) ->
  bytes (free_of s') = bytes (free_of s) + d -> accounted s -> accounted s'.
Proof.
  unfold accounted. intros HO -> Hb ->. rewrite <- Hb. pose proof (heap_bytes s' HO) as (B1 & B2 & B3). apply s32_id. lia.
Qed.

(** ** The best fit *)

Lemma best_loop_spec size type lo hi l : forall i best,
  match best_loop l i best size type lo hi with
  | None => best = None /\ forall h, h ∈ l -> fits h size type lo hi = false
  | Some (j, h) =>
      ((exists k, l !! k = Some h /\ j = (i + k)%nat /\ fits h size type lo hi = true) \/ best = Some (j, h)) /\
      (forall h', h' ∈ l -> fits h' size type lo hi = true -> hi_length h <= hi_length h') /\
      (forall j' h', best = Some (j', h') -> hi_length h <= hi_length h')
  end.
Proof.
  induction l as [|h0 l IH]; intros i best; cbn [best_loop].
  { destruct best as [[j h]|]; [|split; [done|]; intros h Hh; by apply elem_of_nil in Hh].
    split_and!; [by right|intros h' Hh'; by apply elem_of_nil in Hh'|]. intros j' h' [= -> ->]. lia. }
  set (best' := if fits h0 size type lo hi then _ else best). specialize (IH (S i) best').
  assert (best' = best \/ best' = Some (i, h0) /\ fits h0 size type lo hi = true) as Hb.
  { unfold best'. destruct (fits h0 _ _ _ _); [|by left]. destruct best as [[j b]|]; [|rewrite Z.ltb_irrefl; by right].
    destruct (_ <? _); [by right|by left]. }
  assert (forall j b, best' = Some (j, b) -> (fits h0 size type lo hi = true -> hi_length b <= hi_length h0) /\
    forall j' b', best = Some (j', b') -> hi_length b <= hi_length b') as Hle.
  { intros j b. unfold best'. destruct (fits h0 _ _ _ _).
    - destruct best as [[j1 b1]|].
      + destruct (Z.ltb_spec (hi_length h0) (hi_length b1)); intros [= <- <-]; split; intros; simplify_eq; lia.
      + rewrite Z.ltb_irrefl. intros [= <- <-]. split; [lia|done].
    - intros ->. split; [done|]. intros j' b' [= -> ->]. lia. }
  assert (fits h0 size type lo hi = true -> best' <> None) as Hn.
  { unfold best'. intros ->. destruct best as [[j1 b1]|]; [destruct (_ <? _); done|by rewrite Z.ltb_irrefl]. }
  destruct (best_loop l (S i) best' size type lo hi) as [[j h]|].
  - destruct IH as (H1 & H2 & H3). split_and!.
    + destruct H1 as [(k & Hk & -> & Hf)|H1]; [left; exists (S k); split_and!; [done|lia|done]|].
      destruct Hb as [Hb|[Hb Hf]]; [right; congruence|]. left. exists 0%nat. rewrite Hb in H1. injection H1 as <- <-. split_and!; [done|lia|done].
    + intros h' [->|Hh']%elem_of_cons Hf; [|auto]. destruct best' as [[jb b]|] eqn:Eb; [|by destruct (Hn Hf)].
      specialize (H3 _ _ eq_refl). destruct (Hle _ _ eq_refl) as [Hle1 _]. specialize (Hle1 Hf). lia.
    + intros j' h' Hbest. destruct best' as [[jb b]|] eqn:Eb; [|destruct Hb as [<-|[? _]]; congruence].
      specialize (H3 _ _ eq_refl). destruct (Hle _ _ eq_refl) as [_ Hle2]. specialize (Hle2 _ _ Hbest). lia.
  - destruct IH as (H1 & H2). split; [destruct Hb as [Hb|[Hb _]]; congruence|].
    intros h [->|Hh]%elem_of_cons; [|auto]. destruct (fits h0 size type lo hi) eqn:Ef; [|done]. by destruct (Hn eq_refl).
Qed.

(** A free block that an allocation takes. *)
Definition best_fit (s : addressSpace) (size type lo hi : Z) (h : heapItem) : Prop :=
  h ∈ free_of s /\ fits h size type lo hi = true /\
  forall h', h' ∈ free_of s -> fits h' size type lo hi = true -> hi_length h <= hi_length h'.

Lemma findFreeIndex_run s size type lo hi :
  (findFreeIndex size type lo hi s = Ret (-1, s) /\ forall h, h ∈ free_of s -> fits h size type lo hi = false) \/
  (exists i h, findFreeIndex size type lo hi s = Ret (Z.of_nat i, s) /\ free_of s !! i = Some h /\ best_fit s size type lo hi h).
Proof.
  unfold findFreeIndex, gets, mbind, M_bind, mret, M_ret. pose proof (best_loop_spec size type lo hi (free_of s) 0 None) as HB.
  fold (free_of s). destruct (best_loop _ _ _ _ _ _ _) as [[j h]|].
  - right. destruct HB as ([(k & Hk & -> & Hf)|?] & H2 & _); [|done]. exists k, h. split_and!; [done|done|].
    split_and!; [by eapply list_elem_of_lookup_2|done|done].
  - left. by destruct HB.
Qed.

Lemma fits_bounds st h size type lo hi :
  item_ok st h -> 0 < size -> fits h size type lo hi = true ->
  lo <= hi_addr h /\ hi_addr h + size - 1 <= hi /\ size <= hi_length h /\ Z.land (hi_type h) type <> 0.
Proof.
  intros [H1 H2 H3 H4] Hs. unfold fits. rewrite !andb_true_iff, negb_true_iff, !Z.leb_le, Z.eqb_neq. intros (((A & B) & C) & D).
  unfold end_of in *. rewrite u64_id in B by lia. auto.
Qed.

Lemma swap_remove {A} (l1 l2 : list A) x b :
  last (l1 ++ x :: l2) = Some b ->
  take (length (l1 ++ x :: l2) - 1) (<[length l1 := b]> (l1 ++ x :: l2)) ≡ₚ l1 ++ l2.
Proof.
  intros Hl. rewrite insert_app_r_alt, Nat.sub_diag by lia. simpl. rewrite length_app. simpl.
  destruct l2 as [|y l2] using rev_ind; simpl.
  - replace (length l1 + 1 - 1)%nat with (length l1) by lia. by rewrite take_app_length, app_nil_r.
  - clear IHl2. rewrite last_app, last_cons, last_snoc in Hl. injection Hl as <-. rewrite length_app. simpl.
    replace (length l1 + S (length l2 + 1) - 1)%nat with (length (l1 ++ y :: l2)) by (rewrite length_app; simpl; lia).
    replace (l1 ++ y :: l2 ++ [y]) with ((l1 ++ y :: l2) ++ [y]) by (by rewrite <- app_assoc).
    rewrite take_app_length. solve_Permutation.
Qed.

(** ** Allocation *)

(** What is left of the block [h] in the free list. *)
Definition remainder (h : heapItem) (size : Z) : list heapItem :=
  if hi_length h =? size then [] else [with_extent h (hi_addr h + size) (hi_length h - size)].

(** The heap after [size] bytes of the free block [h] were handed out. *)
Record allocated (s : addressSpace) (h : heapItem) (size : Z) (s' : addressSpace) : Prop := {
  al_ok : heap_ok s';
  al_same : conserved s s';
  al_active : active_of s' = <[hi_addr h := with_status (with_length h size) HEAPallocated]> (active_of s);
  al_fresh : active_of s !! hi_addr h = None;
  al_free : exists l1 l2, free_of s = l1 ++ h :: l2 /\ free_of s' ≡ₚ l1 ++ remainder h size ++ l2;
  al_total : accounted s -> accounted s';
  al_pool : bufferPool (heap_ s') = bufferPool (heap_ s)
}.

Lemma allocated_intro s h size l1 l2 l :
  heap_ok s -> free_of s = l1 ++ h :: l2 -> 0 < size <= hi_length h -> l ≡ₚ l1 ++ remainder h size ++ l2 -> StronglySorted addr_le l ->
  allocated s h size (put_heap s (<[hi_addr h := with_status (with_length h size) HEAPallocated]> (active_of s)) l
    (s32 (totalFreeMemAvailable (heap_ s) - size)) (freed (heap_ s))).
Proof.
  intros HO El Hsz HP Hs. set (h' := with_status _ _). assert (h ∈ free_of s) as Hin by (rewrite El; set_solver).
  pose proof (free_not_active s h HO Hin) as Hna. pose proof (proj1 (Forall_forall _ _) (ho_free s HO) h Hin) as [I1 I2 I3 I4].
  assert (forall x, owners (remainder h size) x + owns x h' = owns x h) as Hown.
  { intros x. unfold remainder. destruct (Z.eqb_spec (hi_length h) size); rewrite ?zsum_cons; unfold zsum; simpl; own_solve. }
  assert (bytes (remainder h size) + hi_length h' = hi_length h) as Hlen.
  { unfold remainder, zsum. destruct (Z.eqb_spec (hi_length h) size); simpl; lia. }
  set (s' := put_heap _ _ _ _ _).
  assert (conserved s s') as HC.
  { split; [intros x|]; unfold s', blocks, active_of, free_of, put_heap; simpl; fold (free_of s) (active_of s);
      rewrite !zsum_app, items_of_insert, HP, El, !zsum_app, !zsum_cons by done; [specialize (Hown x)|]; lia. }
  assert (heap_ok s') as HO'; [split|split; try done; [by exists l1, l2|apply (accounted_add s s' (- size)); try done]].
  - unfold s', free_of, put_heap. simpl. rewrite HP. pose proof (ho_free s HO) as HF. rewrite El in HF.
    apply Forall_app in HF as [F1 F2]. apply Forall_cons in F2 as [_ F2]. apply Forall_app. split; [done|].
    apply Forall_app. split; [|done]. unfold remainder. destruct (Z.eqb_spec (hi_length h) size); [constructor|].
    repeat constructor; unfold end_of in *; simpl; try done; lia.
  - intros a b. unfold s', active_of, put_heap. simpl. rewrite lookup_insert. case_decide as Ea.
    + intros [= <-]. split; [done|]. unfold h'. split; unfold end_of in *; simpl; try done; lia.
    + apply (ho_active s HO).
  - intros x. rewrite (proj1 HC x). apply (ho_once s HO).
  - rewrite (proj2 HC). apply (ho_bytes s HO).
  - done.
  - unfold s', free_of, put_heap. simpl. fold (free_of s). rewrite HP, El, !zsum_app, !zsum_cons. unfold h' in Hlen. simpl in Hlen. lia.
Qed.

Lemma inferiorMallocInternal_run s size lo hi type :
  heap_ok s -> 0 < size ->
  (inferiorMallocInternal size lo hi type s = Ret (0, s) /\ forall h, h ∈ free_of s -> fits h size type lo hi = false) \/
  (exists h s', inferiorMallocInternal size lo hi type s = Ret (hi_addr h, s') /\ best_fit s size type lo hi h /\ allocated s h size s').
Proof.
  intros HO Hsz. unfold inferiorMallocInternal.
  destruct (findFreeIndex_run s size type lo hi) as [[E Hno]|(i & h & E & Hi & HB)]; rewrite (bind_ret _ _ _ _ _ E).
  { left. by split. }
  right. rewrite (proj2 (Z.eqb_neq _ _)) by lia. exists h. pose proof HB as (Hin & Hf & _).
  pose proof (proj1 (Forall_forall _ _) (ho_free s HO) h Hin) as HI. pose proof HI as [I1 I2 I3 I4].
  destruct (fits_bounds _ _ _ _ _ _ HI Hsz Hf) as (_ & _ & Hle & _).
  pose proof (bytes_elem _ _ _ (ho_free s HO) Hin) as Hb. pose proof (heap_bytes s HO) as (B1 & B2 & B3).
  destruct (list_elem_of_split_length _ _ _ Hi) as (l1 & l2 & El & ->).
  rewrite bind_gets. fold (free_of s). rewrite Nat2Z.id, Hi.
  assert (exists l, l ≡ₚ l1 ++ remainder h size ++ l2 /\
    (if negb (hi_length h =? size) then
       set_free (<[length l1 := with_extent h (u64 (hi_addr h + size)) (u32 (hi_length h - size))]> (free_of s))
     else match last (free_of s) with
          | None => fail FBounds
          | Some b => set_free (take (length (free_of s) - 1) (<[length l1 := b]> (free_of s)))
          end) s = Ret (tt, put_heap s (active_of s) l (totalFreeMemAvailable (heap_ s)) (freed (heap_ s)))) as (l & HP & EW).
  { unfold remainder. destruct (Z.eqb_spec (hi_length h) size) as [Ee|Ee]; cbn [negb].
    - destruct (last (free_of s)) as [b|] eqn:Elast; [|apply last_None in Elast; rewrite El in Elast; by destruct l1].
      eexists. split; [|reflexivity]. rewrite El in Elast |- *. by apply swap_remove.
    - eexists. split; [|reflexivity]. rewrite El, insert_app_r_alt, Nat.sub_diag by lia. simpl.
      unfold end_of in *. by rewrite u64_id, u32_id by lia. }
  rewrite (bind_ret _ _ _ _ _ EW). eexists. split; [|split; [exact HB|apply (allocated_intro s h size l1 l2 (sort_items l))]];
    [|done|done|lia|by rewrite sort_items_perm|apply sort_items_sorted].
  unfold put_heap, set_free, set_heap, set_active, add_total, modify, assertM, gets, mbind, M_bind, mret, M_ret. simpl.
  by rewrite (proj2 (Z.eqb_neq (hi_addr h) 0)) by lia.
Qed.

(** ** Release *)

Record released (s : addressSpace) (block : Z) (h : heapItem) (s' : addressSpace) : Prop := {
  re_ok : heap_ok s';
  re_same : conserved s s';
  re_active : active_of s' = delete block (active_of s);
  re_free : free_of s' ≡ₚ with_status h HEAPfree :: free_of s;
  re_total : accounted s -> accounted s';
  re_pool : bufferPool (heap_ s') = bufferPool (heap_ s)
}.

Lemma inferiorFreeInternal_run s block :
  heap_ok s ->
  match active_of s !! block with
  | None => inferiorFreeInternal block s = Ret (tt, s)
  | Some h => exists s', inferiorFreeInternal block s = Ret (tt, s') /\ released s block h s'
  end.
Proof.
  intros HO. unfold inferiorFreeInternal. rewrite bind_gets. fold (active_of s).
  destruct (active_of s !! block) as [h|] eqn:Eh; [|done]. destruct (ho_active s HO _ _ Eh) as [Ea [I1 I2 I3 I4]].
  pose proof (heap_bytes s HO) as (B1 & B2 & B3). rewrite (items_of_delete _ _ _ Eh), zsum_cons in B2, B3.
  pose proof (item_ok_pos HEAPallocated (items_of (delete block (active_of s)))) as B4.
  assert (Forall (item_ok HEAPallocated) (items_of (delete block (active_of s)))) as HF.
  { apply Forall_forall. intros b [a Hb]%elem_of_items. apply lookup_delete_Some in Hb as [_ Hb]. by destruct (ho_active s HO _ _ Hb). }
  specialize (B4 HF). set (l := sort_items (free_of s ++ [with_status h HEAPfree])).
  set (s' := put_heap s (delete block (active_of s)) l (s32 (totalFreeMemAvailable (heap_ s) + hi_length h)) (s32 (freed (heap_ s) + hi_length h))).
  assert (l ≡ₚ with_status h HEAPfree :: free_of s) as HP by (unfold l; rewrite sort_items_perm; solve_Permutation).
  assert (conserved s s') as HC.
  { split; [intros x|]; unfold s', blocks, free_of, active_of, put_heap; simpl; fold (active_of s) (free_of s);
      rewrite !zsum_app, HP, zsum_cons, (items_of_delete _ _ _ Eh), zsum_cons; [|simpl; lia].
    change (owns x (with_status h HEAPfree)) with (owns x h). lia. }
  assert (heap_ok s') as HO'; [split|exists s'; split; [done|]; split; try done; apply (accounted_add s s' (hi_length h)); try done].
  - unfold s', free_of, put_heap. simpl. rewrite HP. constructor; [by split|apply (ho_free s HO)].
  - intros a b. unfold s', active_of, put_heap. simpl. intros [_ Hb]%lookup_delete_Some. by apply (ho_active s HO).
  - intros x. rewrite (proj1 HC x). apply (ho_once s HO).
  - rewrite (proj2 HC). apply (ho_bytes s HO).
  - apply sort_items_sorted.
  - unfold s', free_of, put_heap. simpl. fold (free_of s). rewrite HP, zsum_cons. simpl. lia.
Qed.

(** ** Resizing *)

Lemma find_at_spec l a : forall i,
  match find_at l i a with
  | Some (j, h) => exists l1 l2, l = l1 ++ h :: l2 /\ j = (i + length l1)%nat /\ hi_addr h = a
  | None => forall h, h ∈ l -> hi_addr h <> a
  end.
Proof.
  induction l as [|h l IH]; intros i; simpl; [intros h Hh; by apply elem_of_nil in Hh|].
  destruct (Z.eqb_spec (hi_addr h) a) as [Ea|Ea]; [by exists [], l; split_and!; [|simpl; lia|]|].
  specialize (IH (S i)). destruct (find_at l (S i) a) as [[j b]|].
  - destruct IH as (l1 & l2 & -> & -> & Hb). exists (h :: l1), l2. simpl. split_and!; [done|lia|done].
  - intros b [->|Hb]%elem_of_cons; auto.
Qed.

(** A block of the active list, and a block of the free list. *)
Lemma active_free_apart s a h f :
  heap_ok s -> active_of s !! a = Some h -> f ∈ free_of s -> apart_items f h.
Proof.
  intros HO Ha Hf. destruct (ho_active s HO _ _ Ha) as [_ [I1 I2 I3 I4]].
  destruct (proj1 (Forall_forall _ _) (ho_free s HO) f Hf). destruct (list_elem_of_split _ _ Hf) as (l1 & l2 & El).
  eapply (once_apart (blocks s)); [apply (ho_once s HO)| |done|done].
  unfold blocks. rewrite El, (items_of_delete _ _ _ Ha). instantiate (1 := l1 ++ l2 ++ items_of (delete a (active_of s))). solve_Permutation.
Qed.

Lemma free_sorted_split s l1 f l2 :
  heap_ok s -> free_of s = l1 ++ f :: l2 ->
  (forall b, b ∈ l1 -> end_of b <= hi_addr f) /\ (forall b, b ∈ l2 -> end_of f <= hi_addr b) /\ StronglySorted addr_le (l1 ++ l2).
Proof.
  intros HO El. pose proof (ho_sorted s HO) as HS. rewrite El in HS.
  assert (forall b rest, l1 ++ l2 ≡ₚ b :: rest -> apart_items b f /\ 0 < hi_length b /\ 0 < hi_length f) as Hap.
  { intros b rest HP. pose proof (ho_free s HO) as HF. rewrite El in HF.
    assert (l1 ++ f :: l2 ≡ₚ b :: f :: rest) as HP2 by (rewrite <- Permutation_middle, HP; solve_Permutation).
    pose proof HF as HF'. rewrite HP2 in HF'. apply Forall_cons in HF' as [[? ? ? ?] HF']. apply Forall_cons in HF' as [[? ? ? ?] _].
    split_and!; try done. apply (once_apart (blocks s) _ _ (rest ++ items_of (active_of s))); [apply (ho_once s HO)| |done|done].
    unfold blocks. rewrite El, HP2. solve_Permutation. }
  apply StronglySorted_app in HS as (S1 & S2 & S3). apply StronglySorted_cons in S3 as [S3 S4]. rewrite Forall_forall in S3.
  split_and!.
  - intros b Hb. destruct (list_elem_of_split _ _ Hb) as (k1 & k2 & ->). destruct (Hap b (k1 ++ k2 ++ l2)) as ([?|?] & ? & ?); [solve_Permutation|done|].
    specialize (S1 b f Hb ltac:(by left)). rewrite addr_le_iff in S1. unfold end_of in *. lia.
  - intros b Hb. destruct (list_elem_of_split _ _ Hb) as (k1 & k2 & ->). destruct (Hap b (l1 ++ k1 ++ k2)) as ([?|?] & ? & ?); [solve_Permutation| |done].
    specialize (S3 b Hb). rewrite addr_le_iff in S3. unfold end_of in *. lia.
  - apply StronglySorted_app. split_and!; [|done|done]. intros x1 x2 H1 H2. apply S1; [done|by right].
Qed.

(** A block put between the others of a sorted list. *)
Lemma sorted_between l1 f l2 :
  StronglySorted addr_le (l1 ++ l2) -> (forall b, b ∈ l1 -> hi_addr b <= hi_addr f) -> (forall b, b ∈ l2 -> hi_addr f <= hi_addr b) ->
  StronglySorted addr_le (l1 ++ f :: l2).
Proof.
  rewrite !StronglySorted_app, StronglySorted_cons, Forall_forall. intros (S1 & S2 & S3) H1 H2. split_and!; try done.
  - intros x1 x2 Hx [->|Hx2]%elem_of_cons; [apply addr_le_iff; auto|auto].
  - intros x Hx. apply addr_le_iff. auto.
Qed.

(** Every item of [l] ends where a block of the heap ended and has its type. *)
Definition from_blocks (s : addressSpace) (l : list heapItem) : Prop :=
  forall g, g ∈ l -> exists g', g' ∈ blocks s /\ hi_type g = hi_type g' /\ end_of g = end_of g'.

(** The heap after the block at [block] was cut to [n] bytes. *)
Record shrunk (s : addressSpace) (block : Z) (h : heapItem) (n : Z) (s' : addressSpace) : Prop := {
  sh_ok : heap_ok s';
  sh_same : conserved s s';
  sh_active : active_of s' = <[block := with_length h n]> (active_of s);
  sh_from : from_blocks s (free_of s');
  sh_owners : forall x, owners (free_of s') x = owners (free_of s) x + if decide (hi_addr h + n <= x < end_of h) then 1 else 0;
  sh_total : accounted s -> accounted s';
  sh_pool : bufferPool (heap_ s') = bufferPool (heap_ s)
}.

Lemma shrunk_intro s block h n l f (d := hi_length h - n) :
  heap_ok s -> active_of s !! block = Some h -> 0 < n < hi_length h ->
  Forall (item_ok HEAPfree) l -> bytes l = bytes (free_of s) + d ->
  (forall x, owners l x = owners (free_of s) x + if decide (hi_addr h + n <= x < end_of h) then 1 else 0) ->
  StronglySorted addr_le l -> from_blocks s l ->
  shrunk s block h n (put_heap s (<[block := with_length h n]> (active_of s)) l (s32 (totalFreeMemAvailable (heap_ s) + d)) f).
Proof.
  intros HO Ha Hn HF Hb Hown HS HFr. destruct (ho_active s HO _ _ Ha) as [Eb [I1 I2 I3 I4]]. set (s' := put_heap _ _ _ _ _).
  assert (from_blocks s (free_of s')) as HFr' by exact HFr.
  assert (forall x, owners (free_of s') x = owners (free_of s) x + if decide (hi_addr h + n <= x < end_of h) then 1 else 0) as Hown' by exact Hown.
  assert (conserved s s') as HC.
  { split; [intros x|]; unfold s', blocks, free_of, active_of, put_heap; simpl; fold (active_of s) (free_of s);
      rewrite !zsum_app, (items_of_replace _ _ _ _ Ha), (items_of_delete _ _ _ Ha), !zsum_cons; [|simpl; lia].
    rewrite Hown. own_solve. }
  assert (heap_ok s') as HO'; [split; try done|split; try done; apply (accounted_add s s' d); done].
  - intros a b. unfold s', active_of, put_heap. simpl. rewrite lookup_insert. case_decide as Ea; [|apply (ho_active s HO)].
    intros [= <-]. subst a. split; [done|]. split; unfold end_of in *; simpl; try done; lia.
  - intros x. rewrite (proj1 HC x). apply (ho_once s HO).
  - rewrite (proj2 HC). apply (ho_bytes s HO).
Qed.

Lemma inferiorShrinkBlock_run s block h n :
  heap_ok s -> active_of s !! block = Some h -> 0 < n < hi_length h ->
  exists s', inferiorShrinkBlock block h block n s = Ret (true, s') /\ shrunk s block h n s'.
Proof.
  intros HO Ha Hn. destruct (ho_active s HO _ _ Ha) as [Eb [I1 I2 I3 I4]]. subst block.
  pose proof (heap_bytes s HO) as (B1 & B2 & B3). pose proof (bytes_elem _ _ h (active_items_ok s HO) ltac:(apply elem_of_items; eauto)) as Hle.
  unfold inferiorShrinkBlock. unfold end_of in I3. rewrite !u64_id, s32_id by lia.
  rewrite (bind_ret _ _ _ tt s) by (unfold assertM; by rewrite (proj2 (Z.ltb_lt 0 (hi_length h - n))) by lia).
  set (s1 := put_heap s (<[hi_addr h := with_length h n]> (active_of s)) (free_of s) (totalFreeMemAvailable (heap_ s)) (freed (heap_ s))).
  rewrite (bind_ret _ _ _ tt s1) by reflexivity. rewrite bind_gets. change (heapFree (heap_ s1)) with (free_of s).
  set (d := hi_length h - n).
  assert (forall l, (set_free l ;; add_total d ;; add_freed d ;; mret true) s1 =
    Ret (true, put_heap s (<[hi_addr h := with_length h n]> (active_of s)) l (s32 (totalFreeMemAvailable (heap_ s) + d)) (s32 (freed (heap_ s) + d)))) as Hend by done.
  pose proof (find_at_spec (free_of s) (hi_addr h + hi_length h) 0) as HFA.
  destruct (find_at (free_of s) 0 (hi_addr h + hi_length h)) as [[i f]|].
  - destruct HFA as (l1 & l2 & El & -> & Ef). assert (f ∈ free_of s) as Hin by (rewrite El; set_solver).
    pose proof (proj1 (Forall_forall _ _) (ho_free s HO) f Hin) as [F1 F2 F3 F4]. pose proof (bytes_elem _ _ f (ho_free s HO) Hin).
    unfold end_of in F3. rewrite u64_id, u32_id by (unfold d; lia). rewrite Hend. eexists. split; [reflexivity|].
    rewrite El, insert_app_r_alt, Nat.sub_diag by lia. simpl. destruct (free_sorted_split s l1 f l2 HO El) as (G1 & G2 & G3).
    apply shrunk_intro; try done.
    + pose proof (ho_free s HO) as HF. rewrite El in HF. apply Forall_app in HF as [HF1 HF2]. apply Forall_cons in HF2 as [_ HF2].
      apply Forall_app. split; [done|]. constructor; [|done]. split; unfold end_of; simpl; try done; unfold d; lia.
    + rewrite El, !zsum_app, !zsum_cons. simpl. unfold d. lia.
    + intros x. rewrite El, !zsum_app, !zsum_cons. unfold d. own_solve.
    + apply sorted_between; [done| |]; intros b Hb; simpl.
      * destruct (active_free_apart s (hi_addr h) h b HO Ha) as [?|?]; [rewrite El; set_solver| |];
          pose proof (proj1 (Forall_forall _ _) (ho_free s HO) b ltac:(rewrite El; set_solver)) as [? ? ? ?];
          specialize (G1 b Hb); unfold end_of, d in *; lia.
      * specialize (G2 b Hb). unfold end_of, d in *. lia.
    + intros g [Hg|[->|Hg]%elem_of_cons]%elem_of_app; [exists g|exists f|exists g]; (split; [apply elem_of_app; left; rewrite El; set_solver|]); [done| |done].
      split; [done|]. unfold end_of, d. simpl. lia.
  - rewrite Hend. eexists. split; [reflexivity|]. apply shrunk_intro; try done; [| | |apply sort_items_sorted|].
    + rewrite sort_items_perm. apply Forall_app. split; [apply (ho_free s HO)|]. repeat constructor; unfold end_of, d; simpl; try done; try lia;
        rewrite u32_id by lia; lia.
    + rewrite sort_items_perm, zsum_app, zsum_cons. unfold zsum at 2. simpl. rewrite u32_id; unfold d; lia.
    + intros x. rewrite sort_items_perm, zsum_app, zsum_cons. unfold zsum at 2. simpl. unfold d.
      rewrite Z.add_0_r. f_equal. unfold owns, end_of. simpl. rewrite u32_id by lia. repeat case_decide; lia.
    + intros g. rewrite sort_items_perm, elem_of_app, list_elem_of_singleton. intros [Hg| ->]; [exists g; split; [apply elem_of_app; by left|done]|].
      exists h. split; [apply elem_of_app; right; apply elem_of_items; eauto|]. split; [done|]. unfold end_of. simpl. rewrite u32_id by lia. lia.
Qed.

(** The heap after the [d] bytes behind the block [h] were taken off the free
    list.  The block itself keeps its old length, so nobody owns those bytes. *)
Record expanded (s : addressSpace) (h : heapItem) (d : Z) (s' : addressSpace) : Prop := {
  ex_ok : heap_ok s';
  ex_active : active_of s' = active_of s;
  ex_owners : forall x, owners (blocks s') x = owners (blocks s) x - if decide (end_of h <= x < end_of h + d) then 1 else 0;
  ex_bytes : bytes (blocks s') = bytes (blocks s) - d;
  ex_from : from_blocks s (free_of s');
  ex_total : accounted s -> accounted s';
  ex_pool : bufferPool (heap_ s') = bufferPool (heap_ s)
}.

(** The free block behind [h], if it has room. *)
Definition room_behind (s : addressSpace) (h : heapItem) (d : Z) (f : heapItem) : Prop :=
  f ∈ free_of s /\ hi_addr f = end_of h /\ d <= hi_length f.

Definition rest_of (f : heapItem) (d : Z) : list heapItem :=
  if hi_length f =? d then [] else [with_extent f (hi_addr f + d) (hi_length f - d)].

Lemma expanded_intro s h d f l1 l2 :
  heap_ok s -> free_of s = l1 ++ f :: l2 -> hi_addr f = end_of h -> 0 < d <= hi_length f ->
  expanded s h d (put_heap s (active_of s) (l1 ++ rest_of f d ++ l2) (s32 (totalFreeMemAvailable (heap_ s) - d)) (freed (heap_ s))).
Proof.
  intros HO El Hf Hd. assert (f ∈ free_of s) as Hin by (rewrite El; set_solver).
  pose proof (proj1 (Forall_forall _ _) (ho_free s HO) f Hin) as [F1 F2 F3 F4]. unfold end_of in F3.
  destruct (free_sorted_split s l1 f l2 HO El) as (G1 & G2 & G3). set (s' := put_heap _ _ _ _ _).
  assert (bytes (rest_of f d) = hi_length f - d) as Hb.
  { unfold rest_of, zsum. destruct (Z.eqb_spec (hi_length f) d); simpl; lia. }
  assert (forall x, owners (rest_of f d) x = owns x f - if decide (end_of h <= x < end_of h + d) then 1 else 0) as Hown.
  { intros x. rewrite <- Hf. unfold rest_of. destruct (Z.eqb_spec (hi_length f) d); rewrite ?zsum_cons; unfold zsum; simpl; own_solve. }
  assert (forall x, owners (blocks s') x = owners (blocks s) x - if decide (end_of h <= x < end_of h + d) then 1 else 0) as HC.
  { intros x. unfold s', blocks, free_of, active_of, put_heap. simpl. fold (free_of s) (active_of s). rewrite El, !zsum_app, !zsum_cons, Hown. lia. }
  assert (bytes (blocks s') = bytes (blocks s) - d) as HB.
  { unfold s', blocks, free_of, active_of, put_heap. simpl. fold (free_of s) (active_of s). rewrite El, !zsum_app, !zsum_cons, Hb. lia. }
  assert (from_blocks s (free_of s')) as HFr.
  { intros g. unfold s', free_of, put_heap. simpl. intros [Hg|[Hg|Hg]%elem_of_app]%elem_of_app;
      [exists g; split; [apply elem_of_app; left; rewrite El; set_solver|done]| |exists g; split; [apply elem_of_app; left; rewrite El; set_solver|done]].
    exists f. split; [by apply elem_of_app; left|]. unfold rest_of in Hg. destruct (hi_length f =? d); [by apply elem_of_nil in Hg|].
    apply list_elem_of_singleton in Hg as ->. split; [done|]. unfold end_of. simpl. lia. }
  assert (heap_ok s') as HO'; [split; try done|split; try done; apply (accounted_add s s' (- d)); try done].
  - unfold s', free_of, put_heap. simpl. pose proof (ho_free s HO) as HF. rewrite El in HF. apply Forall_app in HF as [HF1 HF2].
    apply Forall_cons in HF2 as [_ HF2]. apply Forall_app. split; [done|]. apply Forall_app. split; [|done].
    unfold rest_of. destruct (Z.eqb_spec (hi_length f) d); [constructor|]. repeat constructor; unfold end_of; simpl; try done; lia.
  - apply (ho_active s HO).
  - intros x. rewrite HC. pose proof (ho_once s HO x). case_decide; lia.
  - rewrite HB. pose proof (ho_bytes s HO). lia.
  - unfold s', free_of, put_heap. simpl. unfold rest_of. destruct (Z.eqb_spec (hi_length f) d); [done|]. simpl.
    apply sorted_between; [done| |]; intros b Hb'; simpl.
    + pose proof (proj1 (Forall_forall _ _) (ho_free s HO) b ltac:(rewrite El; set_solver)) as [? ? ? ?].
      specialize (G1 b Hb'). unfold end_of in *. lia.
    + specialize (G2 b Hb'). unfold end_of in *. lia.
  - unfold s', free_of, put_heap. simpl. fold (free_of s). rewrite El, !zsum_app, zsum_cons, Hb. lia.
Qed.

Lemma filter_nonempty_split l1 f l2 :
  Forall (item_ok HEAPfree) (l1 ++ l2) -> hi_length f = 0 -> filter nonempty_item (l1 ++ f :: l2) = l1 ++ l2.
Proof.
  intros HF Hf. rewrite filter_app, filter_cons_False by (unfold nonempty_item; lia). rewrite <- filter_app.
  apply filter_all. eapply Forall_impl; [exact HF|]. intros b []. unfold nonempty_item. lia.
Qed.

Lemma inferiorExpandBlock_run s block h n :
  heap_ok s -> active_of s !! block = Some h -> hi_length h < n < 2 ^ 31 -> let d := n - hi_length h in
  (exists s' f, inferiorExpandBlock h n s = Ret (true, s') /\ room_behind s h d f /\ expanded s h d s') \/
  (inferiorExpandBlock h n s = Ret (false, s) /\ forall f, ~ room_behind s h d f).
Proof.
  intros HO Ha Hn d. destruct (ho_active s HO _ _ Ha) as [Eb [I1 I2 I3 I4]]. pose proof (heap_bytes s HO) as (B1 & B2 & B3).
  unfold inferiorExpandBlock. unfold end_of in I3. rewrite !u64_id by lia. fold d. rewrite (s32_id d) by (unfold d; lia).
  rewrite (bind_ret _ _ _ tt s) by (unfold assertM; by rewrite (proj2 (Z.ltb_lt 0 d)) by (unfold d; lia)).
  rewrite bind_gets. fold (free_of s). change (hi_addr h + hi_length h) with (end_of h).
  pose proof (find_at_spec (free_of s) (end_of h) 0) as HFA. destruct (find_at (free_of s) 0 (end_of h)) as [[i f]|].
  2:{ right. split; [done|]. intros f (Hin & Hf & _). by apply (HFA f). }
  destruct HFA as (l1 & l2 & El & -> & Ef). assert (f ∈ free_of s) as Hin by (rewrite El; set_solver).
  pose proof (proj1 (Forall_forall _ _) (ho_free s HO) f Hin) as [F1 F2 F3 F4]. pose proof (bytes_elem _ _ f (ho_free s HO) Hin) as Hbf.
  destruct (free_sorted_split s l1 f l2 HO El) as (G1 & G2 & _). rewrite (u32_id d) by (unfold d; lia).
  destruct (Z.ltb_spec (hi_length f) d) as [Hlt|Hge].
  { right. split; [done|]. intros g (Hg & Hga & Hgl). rewrite El in Hg. apply elem_of_app in Hg as [Hg|[->|Hg]%elem_of_cons]; [|lia|].
    - specialize (G1 g Hg). pose proof (proj1 (Forall_forall _ _) (ho_free s HO) g ltac:(rewrite El; set_solver)) as [? ? ? ?]. unfold end_of in *. lia.
    - specialize (G2 g Hg). unfold end_of in *. lia. }
  left. exists (put_heap s (active_of s) (l1 ++ rest_of f d ++ l2) (s32 (totalFreeMemAvailable (heap_ s) - d)) (freed (heap_ s))), f.
  split; [|split; [by split_and!|apply expanded_intro; try done; unfold d; lia]].
  unfold end_of in F3. rewrite u64_id, u32_id by (unfold end_of in *; lia). simpl hi_length.
  rewrite El, insert_app_r_alt, Nat.add_0_l, Nat.sub_diag by lia. simpl.
  set (s1 := put_heap s (active_of s) (l1 ++ rest_of f d ++ l2) (totalFreeMemAvailable (heap_ s)) (freed (heap_ s))).
  erewrite (bind_ret _ _ s tt s1).
  - done.
  - unfold s1, rest_of. destruct (Z.eqb_spec (hi_length f) d) as [Ed|Ed].
    + rewrite (proj2 (Z.eqb_eq (hi_length f - d) 0)) by lia. pose proof (ho_free s HO) as HF. rewrite El in HF.
      apply Forall_app in HF as [HF1 HF2]. apply Forall_cons in HF2 as [_ HF2].
      rewrite filter_nonempty_split; [|by apply Forall_app|simpl; lia].
      replace (length (l1 ++ with_extent f (end_of h + d) (hi_length f - d) :: l2) - 1)%nat with (length (l1 ++ l2))
        by (rewrite !length_app; simpl; lia). rewrite Nat.leb_refl, take_ge by done. done.
    + rewrite (proj2 (Z.eqb_neq (hi_length f - d) 0)) by lia. by rewrite <- Ef.
Qed.

(** ** Compaction *)

(** Blocks in order that do not overlap. *)
Definition chained (l : list heapItem) : Prop := StronglySorted (fun a b => end_of a <= hi_addr b) l.

Definition mergeable (a b : heapItem) : Prop := end_of a = hi_addr b /\ hi_type a = hi_type b.
#[export] Instance mergeable_dec a b : Decision (mergeable a b).
Proof. unfold mergeable. apply _. Defined.

Definition merge_items (a b : heapItem) : heapItem := with_extent b (hi_addr a) (hi_length a + hi_length b).

(** The blocks that are left. *)
Fixpoint coalesce (h1 : heapItem) (l : list heapItem) : list heapItem :=
  match l with
  | [] => [h1]
  | h2 :: l' => if decide (mergeable h1 h2) then coalesce (merge_items h1 h2) l' else h1 :: coalesce h2 l'
  end.

Lemma chained_cons a l : chained (a :: l) <-> (forall b, b ∈ l -> end_of a <= hi_addr b) /\ chained l.
Proof. unfold chained. rewrite StronglySorted_cons, Forall_forall. done. Qed.

Lemma merge_item_ok a b : item_ok HEAPfree a -> item_ok HEAPfree b -> mergeable a b ->
  item_ok HEAPfree (merge_items a b) /\ end_of (merge_items a b) = end_of b.
Proof. intros [] [] [E _]. unfold merge_items, end_of in *. simpl. split; [split; unfold end_of; simpl; try done; lia|lia]. Qed.

Lemma merge_chained a b l : item_ok HEAPfree a -> item_ok HEAPfree b -> mergeable a b -> chained (a :: b :: l) -> chained (merge_items a b :: l).
Proof.
  intros Ha Hb Hm (_ & (H2 & H3)%chained_cons)%chained_cons. apply chained_cons. split; [|done]. intros c Hc.
  rewrite (proj2 (merge_item_ok a b Ha Hb Hm)). auto.
Qed.

Lemma merge_owns a b x : item_ok HEAPfree a -> item_ok HEAPfree b -> mergeable a b -> owns x (merge_items a b) = owns x a + owns x b.
Proof. intros [] [] [E _]. unfold merge_items. own_solve. Qed.

Lemma coalesce_spec h1 l :
  Forall (item_ok HEAPfree) (h1 :: l) -> chained (h1 :: l) ->
  Forall (item_ok HEAPfree) (coalesce h1 l) /\ chained (coalesce h1 l) /\
  (forall x, owners (coalesce h1 l) x = owners (h1 :: l) x) /\ bytes (coalesce h1 l) = bytes (h1 :: l) /\
  (forall b, b ∈ coalesce h1 l -> hi_addr h1 <= hi_addr b).
Proof.
  revert h1. induction l as [|h2 l IH]; intros h1 HF HC; cbn [coalesce].
  { split_and!; try done. intros b ->%list_elem_of_singleton. lia. }
  pose proof HF as (H1 & (H2 & H3)%Forall_cons)%Forall_cons. case_decide as Hm.
  - destruct (IH (merge_items h1 h2)) as (A & B & C & D & E).
    { constructor; [by apply merge_item_ok|done]. }
    { by apply merge_chained. }
    split_and!; try done; [intros x; rewrite C, !zsum_cons, merge_owns by done; lia|rewrite D, !zsum_cons; simpl; lia].
  - pose proof HC as (C1 & C2)%chained_cons. destruct (IH h2) as (A & B & C & D & E); [by constructor|done|].
    split_and!.
    + by constructor.
    + apply chained_cons. split; [|done]. intros b Hb. specialize (E b Hb). specialize (C1 h2 ltac:(by left)). lia.
    + intros x. rewrite zsum_cons, C. done.
    + rewrite zsum_cons, D. done.
    + intros b [->|Hb]%elem_of_cons; [lia|]. specialize (E b Hb). specialize (C1 h2 ltac:(by left)). destruct H1. unfold end_of in *. lia.
Qed.

(** No two neighbours are left that could be merged. *)
Fixpoint separate (l : list heapItem) : Prop :=
  match l with a :: (b :: _) as l' => ~ mergeable a b /\ separate l' | _ => True end.

Lemma coalesce_head h1 l : exists h l', coalesce h1 l = h :: l' /\ hi_addr h = hi_addr h1 /\ hi_type h = hi_type h1.
Proof.
  revert h1. induction l as [|h2 l IH]; intros h1; cbn [coalesce]; [by exists h1, []|]. case_decide as Hm; [|by exists h1, (coalesce h2 l)].
  destruct (IH (merge_items h1 h2)) as (h & l' & E & A & T). exists h, l'. split_and!; [done|done|]. rewrite T. simpl. symmetry. apply Hm.
Qed.

Lemma coalesce_separate h1 l : separate (coalesce h1 l).
Proof.
  revert h1. induction l as [|h2 l IH]; intros h1; cbn [coalesce]; [done|]. case_decide as Hm; [apply IH|]. specialize (IH h2).
  destruct (coalesce_head h2 l) as (h & l' & E & A & T). rewrite E in *. split; [|done]. unfold mergeable in *. by rewrite A, T.
Qed.

Lemma absorb_run s h1 l :
  Forall (item_ok HEAPfree) (h1 :: l) -> chained (h1 :: l) -> bytes (h1 :: l) < 2 ^ 31 ->
  exists zs k, absorb h1 l s = Ret ((zs, k), s) /\ filter nonempty_item zs = coalesce h1 l /\
    (k + length (coalesce h1 l) = S (length l))%nat /\ (k = 0%nat -> zs = coalesce h1 l).
Proof.
  revert h1. induction l as [|h2 l IH]; intros h1 HF HC HB; cbn [absorb coalesce].
  { apply Forall_cons in HF as [[] _]. exists [h1], 0%nat. split_and!; try done. rewrite filter_cons_True; [done|]. unfold nonempty_item. lia. }
  pose proof HF as (H1 & (H2 & H3)%Forall_cons)%Forall_cons. pose proof H1 as [I1 I2 I3 I4]. pose proof H2 as [J1 J2 J3 J4].
  pose proof HC as (C1 & C2)%chained_cons. specialize (C1 h2 ltac:(by left)). pose proof (item_ok_pos _ _ H3). rewrite !zsum_cons in HB.
  rewrite (bind_ret _ _ _ tt s) by (unfold assertM; by rewrite (proj2 (Z.eqb_neq _ _)) by lia).
  change (hi_addr h1 + hi_length h1) with (end_of h1). unfold end_of in I3. rewrite u64_id by (unfold end_of; lia).
  rewrite (bind_ret _ _ _ tt s) by (unfold assertM; by rewrite (proj2 (Z.leb_le _ _)) by lia).
  rewrite u32_id by lia. fold (merge_items h1 h2). case_decide as Hm.
  - rewrite (proj2 (Z.eqb_eq _ _) (proj1 Hm)), (proj2 (Z.eqb_eq _ _) (proj2 Hm)). cbn [andb].
    destruct (IH (merge_items h1 h2)) as (zs & k & E & Hz & Hk & _).
    { constructor; [by apply merge_item_ok|done]. }
    { by apply merge_chained. }
    { rewrite zsum_cons. simpl. lia. }
    rewrite (bind_ret _ _ _ _ _ E). exists (with_length h1 0 :: zs), (S k). split_and!; [done| |simpl in *; lia|done].
    rewrite filter_cons_False; [done|]. unfold nonempty_item. simpl. lia.
  - replace ((end_of h1 =? hi_addr h2) && (hi_type h1 =? hi_type h2)) with false.
    2:{ symmetry. apply andb_false_iff. rewrite !Z.eqb_neq. destruct (decide (end_of h1 = hi_addr h2)); [|by left].
        right. intros ?. apply Hm. by split. }
    destruct (IH h2) as (zs & k & E & Hz & Hk & H0); [by constructor|done|rewrite zsum_cons; lia|].
    rewrite (bind_ret _ _ _ _ _ E). exists (h1 :: zs), k. split_and!; [done| |simpl in *; lia|intros; simpl; by rewrite H0].
    rewrite filter_cons_True; [by rewrite Hz|]. unfold nonempty_item. lia.
Qed.

(** Every block that is left has the type and the end of one that was there. *)
Lemma coalesce_from h1 l h :
  Forall (item_ok HEAPfree) (h1 :: l) -> h ∈ coalesce h1 l -> exists h', h' ∈ h1 :: l /\ hi_type h = hi_type h' /\ end_of h = end_of h'.
Proof.
  revert h1. induction l as [|h2 l IH]; intros h1 HF; cbn [coalesce]; [intros Hh; by exists h|].
  pose proof HF as (H1 & (H2 & H3)%Forall_cons)%Forall_cons. case_decide as Hm.
  - intros (h' & [->|Hh']%elem_of_cons & T & E)%IH; [|exists h'; split; [by do 2 right|done]|constructor; [by apply merge_item_ok|done]].
    exists h2. split; [right; by left|]. rewrite T, E. split; [done|by apply merge_item_ok].
  - intros [->|Hh]%elem_of_cons; [exists h1; split; [by left|done]|]. destruct (IH h2) as (h' & Hh' & T); [by constructor|done|].
    exists h'. split; [by right|done].
Qed.

Record compacted (s s' : addressSpace) : Prop := {
  co_ok : heap_ok s';
  co_same : conserved s s';
  co_active : active_of s' = active_of s;
  co_separate : separate (free_of s');
  co_from : forall h, h ∈ free_of s' -> exists h', h' ∈ free_of s /\ hi_type h = hi_type h' /\ end_of h = end_of h';
  co_total : accounted s -> accounted s';
  co_pool : bufferPool (heap_ s') = bufferPool (heap_ s)
}.

Lemma chained_sorted l : Forall (item_ok HEAPfree) l -> chained l -> StronglySorted addr_le l.
Proof.
  induction l as [|a l IH]; intros HF HC; [constructor|]. apply Forall_cons in HF as [[] HF]. apply chained_cons in HC as [H1 H2].
  apply StronglySorted_cons. split; [|auto]. apply Forall_forall. intros b Hb. rewrite addr_le_iff. specialize (H1 b Hb). unfold end_of in *. lia.
Qed.

Lemma sort_chained s : heap_ok s -> chained (sort_items (free_of s)).
Proof.
  intros HO. assert (forall l rest, sort_items (free_of s) ≡ₚ rest ++ l -> StronglySorted addr_le l -> chained l) as H.
  { induction l as [|a l IH]; intros rest HP HS; [constructor|]. apply StronglySorted_cons in HS as [HS1 HS2]. apply chained_cons. split.
    - intros b Hb. destruct (list_elem_of_split _ _ Hb) as (l1 & l2 & ->).
      assert (free_of s ≡ₚ a :: b :: rest ++ l1 ++ l2) as HP2 by (rewrite <- (sort_items_perm (free_of s)), HP; solve_Permutation).
      pose proof (ho_free s HO) as HF. rewrite HP2 in HF. apply Forall_cons in HF as [[? ? ? ?] HF]. apply Forall_cons in HF as [[? ? ? ?] _].
      destruct (once_apart (blocks s) a b ((rest ++ l1 ++ l2) ++ items_of (active_of s)) (ho_once s HO)) as [?|?]; try done.
      + unfold blocks. rewrite HP2. done.
      + rewrite Forall_forall in HS1. specialize (HS1 b Hb). rewrite addr_le_iff in HS1. unfold end_of in *. lia.
    - apply (IH (rest ++ [a])); [by rewrite <- app_assoc|done]. }
  apply (H _ []); [done|apply sort_items_sorted].
Qed.

Lemma compacted_intro s l :
  heap_ok s -> Forall (item_ok HEAPfree) l -> chained l -> separate l -> (forall x, owners l x = owners (free_of s) x) ->
  bytes l = bytes (free_of s) -> (forall h, h ∈ l -> exists h', h' ∈ free_of s /\ hi_type h = hi_type h' /\ end_of h = end_of h') ->
  compacted s (put_heap s (active_of s) l (totalFreeMemAvailable (heap_ s)) (freed (heap_ s))).
Proof.
  intros HO HF HC HS Hown Hb Hfrom. set (s' := put_heap _ _ _ _ _).
  assert (conserved s s') as Hcs.
  { split; [intros x|]; unfold s', blocks, free_of, active_of, put_heap; simpl; fold (free_of s) (active_of s); rewrite !zsum_app, ?Hown, ?Hb; done. }
  assert (heap_ok s') as HO'; [split; try done|split; try done; unfold accounted, s', free_of; simpl; fold (free_of s); congruence].
  - apply (ho_active s HO).
  - intros x. rewrite (proj1 Hcs x). apply (ho_once s HO).
  - rewrite (proj2 Hcs). apply (ho_bytes s HO).
  - by apply chained_sorted.
Qed.

Lemma inferiorFreeCompact_run s : heap_ok s -> exists s', inferiorFreeCompact s = Ret (tt, s') /\ compacted s s'.
Proof.
  intros HO. unfold inferiorFreeCompact. rewrite bind_gets. fold (free_of s). pose proof (sort_chained s HO) as HC.
  pose proof (sort_items_perm (free_of s)) as HP. pose proof (ho_free s HO) as HF. rewrite <- HP in HF.
  pose proof (heap_bytes s HO) as (B1 & B2 & B3). destruct (sort_items (free_of s)) as [|h1 rest] eqn:Es.
  - eexists. split; [reflexivity|]. apply compacted_intro; try done; [by intros x; rewrite <- HP|by rewrite <- HP|by intros h Hh%elem_of_nil].
  - rewrite <- HP in B3. destruct (absorb_run s h1 rest HF HC ltac:(lia)) as (zs & k & E & Hz & Hk & H0).
    rewrite (bind_ret _ _ _ _ _ E). cbn [fst snd]. destruct (coalesce_spec h1 rest HF HC) as (C1 & C2 & C3 & C4 & _).
    assert (compacted s (put_heap s (active_of s) (coalesce h1 rest) (totalFreeMemAvailable (heap_ s)) (freed (heap_ s)))) as HCo.
    { apply compacted_intro; try done; [apply coalesce_separate|intros x; rewrite C3, HP; done|by rewrite C4, HP|].
      intros h Hh. destruct (coalesce_from h1 rest h HF Hh) as (h' & Hh' & T). exists h'. by rewrite <- HP. }
    eexists. split; [|exact HCo]. destruct (Nat.ltb_spec 0 k).
    + rewrite Hz. rewrite (bind_ret _ _ _ tt s); [done|]. unfold assertM. rewrite <- HP. cbn [length].
      by rewrite (proj2 (Nat.eqb_eq _ _)) by lia.
    + rewrite H0 by lia. done.
Qed.

(** ** New segments *)

Lemma addHeap_run s h :
  heap_ok s -> item_ok HEAPfree h -> (forall x, hi_addr h <= x < end_of h -> owners (blocks s) x = 0) ->
  bytes (blocks s) + hi_length h < 2 ^ 31 ->
  exists s', addHeap h s = Ret (tt, s') /\ heap_ok s' /\ active_of s' = active_of s /\ free_of s' ≡ₚ h :: free_of s /\
    bufferPool (heap_ s') = bufferPool (heap_ s) ++ [h] /\
    (forall x, owners (blocks s') x = owners (blocks s) x + owns x h) /\ bytes (blocks s') = bytes (blocks s) + hi_length h /\
    (accounted s -> accounted s').
Proof.
  intros HO HI Hnew Hb. pose proof HI as [I1 I2 I3 I4]. pose proof (heap_bytes s HO) as (B1 & B2 & B3).
  unfold blocks in Hb. rewrite zsum_app in Hb. assert (with_status h HEAPfree = h) as Eh by (destruct h; simpl in *; by subst).
  exists (mk_space (mk_infheap (active_of s) (sort_items (free_of s ++ [h])) (disabledList (heap_ s)) (disabledListTotalMem (heap_ s))
    (s32 (totalFreeMemAvailable (heap_ s) + hi_length h)) (freed (heap_ s)) (bufferPool (heap_ s) ++ [h])) (heapInitialized_ s)).
  split; [unfold addHeap; cbv zeta; by rewrite Eh|].
  unfold active_of, free_of, blocks. simpl. fold (active_of s) (free_of s).
  assert (sort_items (free_of s ++ [h]) ≡ₚ h :: free_of s) as HP by (rewrite sort_items_perm; solve_Permutation).
  assert (forall x, owners (sort_items (free_of s ++ [h]) ++ items_of (active_of s)) x = owners (free_of s ++ items_of (active_of s)) x + owns x h) as Hown.
  { intros x. rewrite !zsum_app, HP, zsum_cons. lia. }
  assert (bytes (sort_items (free_of s ++ [h]) ++ items_of (active_of s)) = bytes (free_of s ++ items_of (active_of s)) + hi_length h) as Hby.
  { rewrite !zsum_app, HP, zsum_cons. lia. }
  match goal with |- heap_ok ?s1 /\ _ => assert (heap_ok s1) as HO'; [|split_and!; try done; apply (accounted_add s s1 (hi_length h)); try done;
    unfold free_of; simpl; fold (free_of s); rewrite HP, zsum_cons; lia] end.
  split; unfold blocks, active_of, free_of; simpl; fold (free_of s) (active_of s).
  - rewrite HP. constructor; [done|apply (ho_free s HO)].
  - apply (ho_active s HO).
  - intros x. rewrite Hown. pose proof (ho_once s HO x) as Hx. unfold blocks in Hx, Hnew.
    destruct (decide (hi_addr h <= x < end_of h)) as [Hin|Hout]; [rewrite Hnew, owns_in by done; lia|].
    rewrite owns_out by lia. lia.
  - rewrite Hby, zsum_app. lia.
  - apply sort_items_sorted.
Qed.

(** ** Alignment *)

Lemma land_u32 x y : 0 <= x < 2 ^ 32 -> Z.land x (u32 y) = Z.land x y.
Proof.
  intros Hx. unfold uwrap. rewrite <- Z.land_ones by lia. rewrite (Z.land_comm y), Z.land_assoc, Z.land_ones by lia.
  by rewrite Z.mod_small.
Qed.

Lemma align_spec k n : 0 <= k < 8 -> 0 <= n -> n + 2 ^ k <= 2 ^ 32 ->
  let r := inferiorMallocAlign (2 ^ k) n in n <= r < n + 2 ^ k /\ r mod 2 ^ k = 0.
Proof.
  intros Hk Hn Hw. unfold inferiorMallocAlign. assert (0 < 2 ^ k <= 128) as Hp.
  { split; [apply Z.pow_pos_nonneg; lia|]. change 128 with (2 ^ 7). apply Z.pow_le_mono_r; lia. }
  rewrite (u32_id (2 ^ k - 1)) by lia. rewrite (u32_id (n + (2 ^ k - 1))) by lia. rewrite land_u32 by lia.
  rewrite land_lnot_pow2 by lia. pose proof (Z.mod_pos_bound (n + (2 ^ k - 1)) (2 ^ k) ltac:(lia)) as Hm. split; [lia|].
  rewrite Zminus_mod_idemp_r. rewrite Z.sub_diag. apply Z.mod_0_l. lia.
Qed.

(** ** Resizing a block *)

(** What [inferiorReallocInternal] makes of a heap: the block is cut, or the free
    block behind it gives way, or nothing happens. *)
Inductive resized (s : addressSpace) (block n : Z) : bool -> addressSpace -> Prop :=
| rz_missing : active_of s !! block = None -> resized s block n false s
| rz_same h : active_of s !! block = Some h -> hi_length h = n -> resized s block n true s
| rz_shrunk h s' : active_of s !! block = Some h -> n < hi_length h -> shrunk s block h n s' -> resized s block n true s'
| rz_expanded h f s' : active_of s !! block = Some h -> hi_length h < n -> room_behind s h (n - hi_length h) f ->
    expanded s h (n - hi_length h) s' -> resized s block n true s'
| rz_stuck h : active_of s !! block = Some h -> hi_length h < n -> (forall f, ~ room_behind s h (n - hi_length h) f) ->
    resized s block n false s.

Lemma inferiorReallocInternal_run s width block size (n := inferiorMallocAlign width size) :
  heap_ok s -> 0 < n < 2 ^ 31 -> exists b s', inferiorReallocInternal width block size s = Ret (b, s') /\ resized s block n b s'.
Proof.
  intros HO Hn. unfold inferiorReallocInternal. rewrite bind_gets. fold (active_of s) n.
  destruct (active_of s !! block) as [h|] eqn:Eh; [|eexists _, _; split; [done|by apply rz_missing]].
  destruct (Z.eqb_spec (hi_length h) n) as [E|E]; [eexists _, _; split; [done|by eapply rz_same]|].
  destruct (Z.ltb_spec n (hi_length h)).
  - destruct (inferiorShrinkBlock_run s block h n HO Eh ltac:(lia)) as (s' & ER & HS). eexists _, _. split; [exact ER|by eapply rz_shrunk].
  - destruct (inferiorExpandBlock_run s block h n HO Eh ltac:(lia)) as [(s' & f & ER & HR & HX)|[ER HR]];
      eexists _, _; (split; [exact ER|]); [eapply rz_expanded; [done|lia|done|done]|eapply rz_stuck; [done|lia|done]].
Qed.

Lemma resized_ok s block n b s' : heap_ok s -> resized s block n b s' -> heap_ok s' /\ bytes (blocks s') <= bytes (blocks s) /\
  (forall x, owners (blocks s') x <= owners (blocks s) x) /\ (accounted s -> accounted s').
Proof.
  intros HO [| |h s1 _ _ HS|h f s1 _ Hlt HR HX|]; try (split_and!; [done|lia|intros; lia|done]).
  - destruct (sh_same _ _ _ _ _ HS) as [H1 H2]. split_and!; [apply HS|lia| |apply HS]. intros x. rewrite H1. lia.
  - split_and!; [apply HX|rewrite (ex_bytes _ _ _ _ HX); lia| |apply HX]. intros x. rewrite (ex_owners _ _ _ _ HX). case_decide; lia.
Qed.

(** ** Properties of one heap *)

(** Compacting a well-formed heap never fails; it keeps the live blocks and the
    number of owners of every address, so no free byte is lost, and leaves no two
    neighbouring free blocks of one type that touch. *)
Theorem inferiorFreeCompact_correct s :
  heap_ok s -> exists s', inferiorFreeCompact s = Ret (tt, s') /\ heap_ok s' /\ active_of s' = active_of s /\
    (forall x, owners (free_of s') x = owners (free_of s) x) /\ bytes (free_of s') = bytes (free_of s) /\ separate (free_of s').
Proof.
  intros HO. destruct (inferiorFreeCompact_run s HO) as (s' & E & [C1 [C2 C3] C4 C5 C6 C7 C8]). exists s'. unfold blocks in C2, C3.
  split_and!; try done; [intros x; specialize (C2 x)|]; rewrite !zsum_app, C4 in *; lia.
Qed.

(** C40: a block that was grown keeps its old recorded length: when growing a block
    to [size] succeeds, growing it to [size] once more fails, and releasing it
    returns only the bytes it had before. *)
Theorem realloc_growth_forgotten s width block size h s' (n := inferiorMallocAlign width size) :
  heap_ok s -> 0 < n < 2 ^ 31 -> active_of s !! block = Some h -> hi_length h < n ->
  inferiorReallocInternal width block size s = Ret (true, s') ->
  active_of s' !! block = Some h /\ inferiorReallocInternal width block size s' = Ret (false, s') /\
  exists s2, inferiorFreeInternal block s' = Ret (tt, s2) /\ bytes (free_of s2) = bytes (free_of s') + hi_length h.
Proof.
  intros HO Hn Hb Hlt E. destruct (inferiorReallocInternal_run s width block size HO Hn) as (b & s1 & E1 & HR). rewrite E in E1.
  injection E1 as <- <-. fold n in HR. inversion HR as [|h0 H0 H1|h0 s0 H0 H1 HS|h0 f s0 H0 H1 HF HX|]; subst; simplify_eq; [lia|lia|].
  pose proof (ex_ok _ _ _ _ HX) as HO'. pose proof (ex_active _ _ _ _ HX) as Ha. assert (active_of s' !! block = Some h) as Hb' by (by rewrite Ha).
  split; [done|]. split.
  - destruct (inferiorReallocInternal_run s' width block size HO' Hn) as (b & s2 & E2 & HR2). rewrite E2. fold n in HR2.
    inversion HR2 as [|h0 G0 G1|h0 s0 G0 G1 HS|h0 g s0 G0 G1 HG HX2|]; subst; simplify_eq; try done; try lia. exfalso.
    destruct HG as (Hg & Hga & Hgl). pose proof (ex_owners _ _ _ _ HX (end_of h)) as Ho. rewrite decide_True in Ho by lia.
    pose proof (ho_once s HO (end_of h)) as H1'. unfold blocks at 1 in Ho. rewrite zsum_app in Ho.
    destruct (list_elem_of_split _ _ Hg) as (l1 & l2 & El). rewrite El, zsum_app, zsum_cons, owns_in in Ho.
    + pose proof (owners_nonneg l1 (end_of h)). pose proof (owners_nonneg l2 (end_of h)).
      pose proof (owners_nonneg (items_of (active_of s')) (end_of h)). lia.
    + rewrite <- Hga. destruct (proj1 (Forall_forall _ _) (ho_free s' HO') g Hg). unfold end_of in *. lia.
  - pose proof (inferiorFreeInternal_run s' block HO') as HF2. rewrite Hb' in HF2. destruct HF2 as (s2 & E2 & HRel).
    exists s2. split; [done|]. rewrite (re_free _ _ _ _ HRel), zsum_cons. simpl. lia.
Qed.

(** A heap with a live block of 16 bytes and three free blocks, of which two touch. *)
Definition demo_item (a n : Z) (st : heapStatus) : heapItem := mk_item a n anyHeap true st NULL.
Definition demo_space : addressSpace := mk_space (mk_infheap {[4096 := demo_item 4096 16 HEAPallocated]}
  [demo_item 4112 48 HEAPfree; demo_item 4160 32 HEAPfree; demo_item 8192 8 HEAPfree] [] 0 88 0 []) true.

Lemma demo_space_ok : heap_ok demo_space.
Proof.
  assert (items_of (active_of demo_space) = [demo_item 4096 16 HEAPallocated]) as Ei
    by (unfold items_of, active_of; simpl; by rewrite map_to_list_singleton).
  split; unfold blocks; rewrite ?Ei; simpl.
  - repeat constructor.
  - intros a h. unfold active_of. simpl. rewrite lookup_singleton_Some. intros [<- <-]. split; [done|]. by split.
  - intros x. rewrite !zsum_cons, zsum_nil. unfold owns, end_of. simpl. repeat case_decide; lia.
  - rewrite !zsum_cons, zsum_nil. simpl. lia.
  - repeat constructor; apply addr_le_iff; simpl; lia.
Qed.

Lemma inferiorFreeCompact_correct_witness :
  exists s', inferiorFreeCompact demo_space = Ret (tt, s') /\ heap_ok s' /\ active_of s' = active_of demo_space /\
    (forall x, owners (free_of s') x = owners (free_of demo_space) x) /\ bytes (free_of s') = bytes (free_of demo_space) /\ separate (free_of s').
Proof. apply (inferiorFreeCompact_correct demo_space demo_space_ok). Defined.

Lemma realloc_growth_forgotten_witness :
  exists s', inferiorReallocInternal 8 4096 40 demo_space = Ret (true, s') /\ inferiorReallocInternal 8 4096 40 s' = Ret (false, s').
Proof.
  destruct (inferiorReallocInternal 8 4096 40 demo_space) as [[b s']|] eqn:E; [|vm_compute in E; discriminate].
  assert (b = true) as -> by (vm_compute in E; by injection E). exists s'. split; [done|].
  destruct (realloc_growth_forgotten demo_space 8 4096 40 (demo_item 4096 16 HEAPallocated) s' demo_space_ok) as (_ & E2 & _);
    [by vm_compute|done|by vm_compute|done|exact E2].
Defined.
