(* ===== verification/InfHeapProc.v ===== *)
(** * Memory in a running mutatee

    The attempts of PCProcess::inferiorMalloc against any mutatee whose
    DYNINSTos_malloc does not return memory that is already in use.  [static] are
    the addresses of the program's own image, static heaps included. *)
From stdpp Require Import base gmap list sorting.
From S2P Require Import Prelude InfHeap InfHeapOk.
Import infHeap.

(** A call whose result is taken for an address: the low half is looked at. *)
Definition took (c : rpc) : Prop := s32 (rpc_result c) <> 0 /\ s32 (rpc_result c) <> -1.

Definition given (calls : list rpc) (x : Z) : Prop :=
  exists c, c ∈ calls /\ took c /\ rpc_result c <= x < rpc_result c + rpc_size c.

(** What the mutatee promises: new memory. *)
Class Honest (static : Z -> Prop) `{Mutatee} : Prop := {
  honest_new : forall calls size lo hi r, os_malloc calls size lo hi = Some r -> took (mk_rpc size lo hi r) ->
    0 < r /\ r + size < 2 ^ 64 /\ forall x, r <= x < r + size -> ~ static x /\ ~ given calls x
}.

Section Process.
Context (static : Z -> Prop) `{Honest static}.

Abbreviation pblocks p := (blocks (pp_space p)).
Abbreviation pactive p := (active_of (pp_space p)).
Abbreviation pfree p := (free_of (pp_space p)).

Record proc_ok (p : pcProcess) : Prop := {
  po_heap : heap_ok (pp_space p);
  po_owned : forall x, owners (pblocks p) x = 1 -> static x \/ given (pp_rpcs p) x;
  po_total : accounted (pp_space p);
  po_width : pp_width p = 4 \/ pp_width p = 8
}.

(** The bytes the process had: of its image, or given to it earlier. *)
Definition had (p : pcProcess) (x : Z) : Prop := static x \/ given (pp_rpcs p) x.

(** The process may have got at most [n] more bytes, none of them among those it
    had; the live blocks are the same. *)
Record grown (p : pcProcess) (n : Z) (p' : pcProcess) : Prop := {
  gr_ok : proc_ok p';
  gr_active : pactive p' = pactive p;
  gr_bytes : bytes (pblocks p') <= bytes (pblocks p) + n;
  gr_width : pp_width p' = pp_width p;
  gr_ready : pp_ready p' = pp_ready p;
  gr_had : forall x, had p x -> had p' x /\ owners (pblocks p') x = owners (pblocks p) x
}.

Lemma grown_refl p : proc_ok p -> grown p 0 p.
Proof. intros HP. split; try done. lia. Qed.
Lemma grown_trans p1 n p2 m p3 : grown p1 n p2 -> grown p2 m p3 -> grown p1 (n + m) p3.
Proof.
  intros [A1 A2 A3 A4 A5 A6] [B1 B2 B3 B4 B5 B6]. split; [done|congruence|lia|congruence|congruence|].
  intros x Hx. destruct (A6 x Hx) as [Hx2 <-]. auto.
Qed.
Lemma grown_weaken p n m p' : grown p n p' -> n <= m -> grown p m p'.
Proof. intros [] ?. split; try done. lia. Qed.

Lemma lift_run {A} (m : M addressSpace A) (p : pcProcess) a s' :
  m (pp_space p) = Ret (a, s') -> lift m p = Ret (a, eput s' p).
Proof. intros E. unfold lift. simpl. by rewrite E. Qed.

Lemma compact_grown p : proc_ok p -> exists p', lift inferiorFreeCompact p = Ret (tt, p') /\ grown p 0 p'.
Proof.
  intros [HO Hown Ht Hw]. destruct (inferiorFreeCompact_run _ HO) as (s' & E & [C1 [C2 C3] C4 C5 C6 C7 C8]).
  exists (eput s' p). split; [by apply lift_run|]. split; simpl; try done; [|lia].
  split; simpl; auto. intros x. rewrite C2. auto.
Qed.

Lemma alignUp_run n p : 0 <= n -> n mod 4 = 0 -> alignUp n 4 p = Ret (n, p).
Proof.
  intros Hn Hm. unfold alignUp, assertM. rewrite (proj2 (Z.leb_le 0 n)) by lia. unfold mbind, M_bind. simpl.
  rewrite Z.rem_mod_nonneg, Hm by lia. done.
Qed.

(** A new segment of [n] bytes, or none. *)
Lemma inferiorMallocDynamic_run p n lo hi :
  proc_ok p -> 0 < n -> n mod 4 = 0 -> bytes (pblocks p) + n < 2 ^ 31 ->
  exists b p', inferiorMallocDynamic n lo hi p = Ret (b, p') /\ grown p n p'.
Proof.
  intros [HO Hown Ht Hw] Hn Hm Hb. pose proof (heap_bytes _ HO) as (B1 & B2 & B3). unfold blocks in Hb. rewrite zsum_app in Hb.
  unfold inferiorMallocDynamic. rewrite s32_id by lia. rewrite (bind_ret _ _ _ _ _ (alignUp_run n p ltac:(lia) Hm)).
  rewrite u64_id by lia. destruct (os_malloc (pp_rpcs p) n lo hi) as [r|] eqn:Er.
  2:{ exists false, p. split; [unfold postIRPC, mbind, M_bind; by rewrite Er|]. split; try done. lia. }
  set (p1 := mk_process (pp_space p) (pp_width p) (pp_ready p) (mk_rpc n lo hi r :: pp_rpcs p) (pp_RT_heaps p)).
  rewrite (bind_ret _ _ _ (Some r) p1) by (unfold postIRPC; by rewrite Er).
  assert (forall x, given (pp_rpcs p) x -> given (pp_rpcs p1) x) as Hmono.
  { intros x (c & Hc & Htk & Hx). exists c. split; [by right|done]. }
  assert (grown p n p1) as Hfail.
  { split; simpl; try done; [|lia|intros x [Hx|Hx]; (split; [|done]); [by left|right; by apply Hmono]].
    split; simpl; try done. intros x [?|?]%Hown; auto. }
  destruct (Z.eqb_spec (s32 r) 0) as [E0|E0]; [by exists false, p1|].
  destruct (Z.eqb_spec (s32 r) (-1)) as [E1|E1]; [by exists false, p1|].
  destruct (honest_new _ _ _ _ _ Er (conj E0 E1)) as (R1 & R2 & R3).
  unfold new_heapItem. rewrite u32_id by lia. set (h := mk_item r n _ _ _ _).
  destruct (addHeap_run (pp_space p1) h HO) as (s' & EA & A1 & A2 & A3 & A4 & A5 & A6 & A7).
  { split; unfold end_of; simpl; lia || done. }
  { intros x Hx. pose proof (ho_once _ HO x). pose proof (owners_nonneg (pblocks p) x). simpl in Hx. unfold end_of in Hx. simpl in Hx.
    destruct (decide (owners (pblocks p) x = 1)) as [E|E]; [|simpl; lia]. exfalso. destruct (R3 x Hx) as [N1 N2]. destruct (Hown x E); auto. }
  { simpl. unfold blocks. rewrite zsum_app. lia. }
  rewrite (bind_ret _ _ _ _ _ (lift_run _ p1 _ _ EA)). exists true, (eput s' p1). split; [done|].
  split; simpl; try done; [|rewrite A6; simpl; lia|].
  2:{ intros x Hx. split; [destruct Hx as [Hx|Hx]; [by left|right; by apply Hmono]|]. rewrite A5, owns_out; [simpl; lia|].
      destruct (decide (hi_addr h <= x < end_of h)) as [Hin|]; [|lia]. destruct (R3 x Hin) as [N1 N2]. by destruct Hx. }
  split; simpl; auto. intros x. rewrite A5. intros Hx.
  pose proof (owners_nonneg (pblocks p) x). destruct (decide (hi_addr h <= x < end_of h)) as [Hin|Hout].
  - right. exists (mk_rpc n lo hi r). split; [by left|]. split; [done|]. unfold end_of in Hin. simpl in *. lia.
  - rewrite owns_out in Hx by lia. destruct (Hown x ltac:(simpl in *; lia)); auto.
Qed.

(** ** The attempts *)

(** The bytes an attempt may add, and all from one on. *)
Definition cost (ntry : nat) (size : Z) : Z :=
  match ntry with 2%nat | 5%nat => HEAP_DYN_BUF_SIZE | 3%nat | 6%nat => size | _ => 0 end.
Definition costs (ntry : nat) (size : Z) : Z := zsum (fun k => cost k size) (seq ntry (8 - ntry)).

Lemma costs_step ntry size : (ntry <= 7)%nat -> costs ntry size = cost ntry size + costs (S ntry) size.
Proof. intros Hn. unfold costs. replace (8 - ntry)%nat with (S (8 - S ntry)) by lia. done. Qed.
Lemma cost_nonneg ntry size : 0 <= size -> 0 <= cost ntry size.
Proof. intros Hs. unfold cost, HEAP_DYN_BUF_SIZE. repeat case_match; lia. Qed.
Lemma costs_nonneg ntry size : 0 <= size -> 0 <= costs ntry size.
Proof. intros Hs. apply zsum_nonneg. intros k _. by apply cost_nonneg. Qed.

Lemma costs_total size : costs 0 size = 2 * HEAP_DYN_BUF_SIZE + 2 * size.
Proof. unfold costs, zsum, cost. simpl. lia. Qed.

(** The bounds and the error flag an allocation is tried with. *)
Definition bounds_after (ntry : nat) (lo hi : Z) (err : bool) : Z * Z * bool :=
  if (ntry =? 4)%nat then (ADDRESS_LO, ADDRESS_HI, true) else (lo, hi, err).

Lemma attempt_run p ntry size lo hi err :
  proc_ok p -> 0 < size -> size mod 4 = 0 -> bytes (pblocks p) + cost ntry size < 2 ^ 31 -> (ntry <= 7)%nat ->
  exists p', attempt ntry size lo hi err p = Ret (Some (bounds_after ntry lo hi err), p') /\ grown p (cost ntry size) p'.
Proof.
  intros HP Hs Hm Hb Hn. assert (forall n, 0 < n -> n mod 4 = 0 -> bytes (pblocks p) + n < 2 ^ 31 ->
    exists p', (inferiorMallocDynamic n lo hi ;; mret (Some (lo, hi, err))) p = Ret (Some (lo, hi, err), p') /\ grown p n p') as Hdyn.
  { intros n N1 N2 N3. destruct (inferiorMallocDynamic_run p n lo hi HP N1 N2 N3) as (b & p' & E & HG).
    exists p'. split; [by rewrite (bind_ret _ _ _ _ _ E)|done]. }
  assert (exists p', (lift inferiorFreeCompact ;; mret (Some (lo, hi, err))) p = Ret (Some (lo, hi, err), p') /\ grown p 0 p') as Hcom.
  { destruct (compact_grown p HP) as (p' & E & HG). exists p'. split; [by rewrite (bind_ret _ _ _ _ _ E)|done]. }
  destruct ntry as [|[|[|[|[|[|[|[|ntry]]]]]]]]; try (by exists p; split; [|apply grown_refl]); try exact Hcom; try (apply Hdyn; unfold HEAP_DYN_BUF_SIZE; done). lia.
Qed.

(** The outcome of the attempts from [ntry] on. *)
Definition no_fit (p : pcProcess) (size type lo hi : Z) : Prop := forall h, h ∈ pfree p -> fits h size type lo hi = false.

Inductive tried (p : pcProcess) (size type lo hi : Z) (n : Z) : Z * bool -> pcProcess -> Prop :=
| tried_fail p' : grown p n p' -> no_fit p' size type ADDRESS_LO ADDRESS_HI -> tried p size type lo hi n (0, true) p'
| tried_ok p1 h s' lo' hi' err : grown p n p1 -> best_fit (pp_space p1) size type lo' hi' h ->
    allocated (pp_space p1) h size s' -> (err = false -> lo' = lo /\ hi' = hi) ->
    tried p size type lo hi n (hi_addr h, err) (eput s' p1).

Lemma malloc_tries_run size type L H' : 0 < size -> size mod 4 = 0 ->
  forall left ntry lo hi err p, (ntry + left = 9 /\ ntry <= 8)%nat -> proc_ok p -> bytes (pblocks p) + costs ntry size < 2 ^ 31 ->
  (if (ntry <=? 4)%nat then lo = L /\ hi = H' /\ err = false else lo = ADDRESS_LO /\ hi = ADDRESS_HI /\ err = true) ->
  (ntry = 8%nat -> no_fit p size type lo hi) ->
  exists r p', malloc_tries left ntry size type lo hi err p = Ret (r, p') /\ tried p size type L H' (costs ntry size) r p'.
Proof.
  intros Hs Hm. induction left as [|left IH]; intros ntry lo hi err p Hle HP Hb Hph Hno.
  { lia. }
  cbn [malloc_tries]. destruct (decide (ntry = 8%nat)) as [->|Hn].
  { destruct Hph as (-> & -> & ->). exists (0, true), p. split; [done|]. apply tried_fail; [by apply (grown_refl p)|by apply Hno]. }
  assert (ntry <= 7)%nat as Hn' by lia. rewrite (costs_step ntry) in Hb |- * by done.
  pose proof (costs_nonneg (S ntry) size ltac:(lia)) as Hc.
  destruct (attempt_run p ntry size lo hi err HP Hs Hm ltac:(lia) Hn') as (p1 & E & HG). rewrite (bind_ret _ _ _ _ _ E).
  destruct (bounds_after ntry lo hi err) as [[lo' hi'] err'] eqn:Eb.
  assert ((err' = false -> lo' = L /\ hi' = H') /\
    (if (S ntry <=? 4)%nat then lo' = L /\ hi' = H' /\ err' = false else lo' = ADDRESS_LO /\ hi' = ADDRESS_HI /\ err' = true)) as [He Hph'].
  { unfold bounds_after in Eb. destruct (Nat.eqb_spec ntry 4) as [->|N4]; [injection Eb as <- <- <-; done|]. injection Eb as <- <- <-.
    destruct (Nat.leb_spec ntry 4), (Nat.leb_spec (S ntry) 4); try lia; naive_solver. }
  destruct (inferiorMallocInternal_run (pp_space p1) size lo' hi' type (po_heap _ (gr_ok _ _ _ HG)) Hs) as [[EM Hnf]|(h & s' & EM & HB & HA)].
  - rewrite (bind_ret _ _ _ _ _ (lift_run _ p1 _ _ EM)). cbn [Z.eqb negb].
    change (eput (pp_space p1) p1) with (eput (eget p1) p1). rewrite eput_eget.
    destruct (IH (S ntry) lo' hi' err' p1) as (r & p' & ER & HT); [lia|apply HG|pose proof (gr_bytes _ _ _ HG); lia|done|by intros _|].
    exists r, p'. split; [done|]. destruct HT; econstructor; eauto using grown_trans.
  - rewrite (bind_ret _ _ _ _ _ (lift_run _ p1 _ _ EM)).
    pose proof (proj1 (Forall_forall _ _) (ho_free _ (po_heap _ (gr_ok _ _ _ HG))) h (proj1 HB)) as [I1 _ _ _].
    rewrite (proj2 (Z.eqb_neq _ _)) by lia. cbn [negb]. eexists _, _. split; [done|].
    eapply tried_ok; [|exact HB|exact HA|done]. eapply grown_weaken; [exact HG|lia].
Qed.

(** ** Allocation, release and resizing in a process *)

Lemma align_process p size :
  proc_ok p -> 0 < size -> size + 8 <= 2 ^ 32 ->
  let n := inferiorMallocAlign (pp_width p) size in size <= n < size + 8 /\ n mod 4 = 0.
Proof.
  intros HP Hs Hb n. assert (exists k, 2 <= k < 4 /\ pp_width p = 2 ^ k) as (k & Hk & Ew).
  { destruct (po_width _ HP) as [-> | ->]; [exists 2|exists 3]; split; lia || done. }
  assert (2 ^ k <= 8) as Hk8 by (change 8 with (2 ^ 3); apply Z.pow_le_mono_r; lia).
  unfold n. rewrite Ew. destruct (align_spec k size) as [H1 H2]; [lia|lia|lia|].
  split; [lia|].
  apply Z.mod_divide in H2; [|apply Z.pow_nonzero; lia]. apply Z.mod_divide; [lia|]. etransitivity; [|exact H2].
  exists (2 ^ (k - 2)). change 4 with (2 ^ 2). rewrite <- Z.pow_add_r by lia. f_equal. lia.
Qed.

(** The bytes a request may add to the heap. *)
Definition need (size : Z) : Z := 2 * HEAP_DYN_BUF_SIZE + 2 * (size + 8).

Lemma inferiorMalloc_run p size type near (n := inferiorMallocAlign (pp_width p) size)
    (b := inferiorMallocConstraints (pp_width p) near ADDRESS_LO ADDRESS_HI) :
  proc_ok p -> pp_ready p = true -> 0 < size -> bytes (pblocks p) + need size < 2 ^ 31 ->
  exists r err p', inferiorMalloc size type near p = Ret ((r, Some err), p') /\ tried p n type (fst b) (snd b) (need size) (r, err) p'.
Proof.
  intros HP Hr Hs Hb. pose proof (heap_bytes _ (po_heap _ HP)) as (B1 & B2 & B3). unfold blocks in Hb. rewrite zsum_app in Hb.
  unfold need, HEAP_DYN_BUF_SIZE in Hb. destruct (align_process p size HP Hs ltac:(lia)) as [Hn Hm]. fold n in Hn, Hm.
  unfold inferiorMalloc. rewrite !bind_gets, Hr. cbn [negb]. rewrite (proj2 (Z.leb_gt size 0)) by lia. rewrite bind_gets. fold n.
  fold b. destruct b as [lo hi] eqn:Eb.
  destruct (malloc_tries_run n type lo hi ltac:(lia) Hm 9 0 lo hi false p) as ([r err] & p' & E & HT); [lia|done| |done|done|].
  { unfold blocks. rewrite zsum_app, costs_total. unfold HEAP_DYN_BUF_SIZE. lia. }
  rewrite (bind_ret _ _ _ _ _ E). exists r, err, p'. split; [done|].
  assert (costs 0 n <= need size) as Hc by (rewrite costs_total; unfold need; lia).
  inversion HT; subst; econstructor; eauto using grown_weaken.
Qed.

Lemma tried_proc_ok p size type lo hi n r p' : 0 <= n -> tried p size type lo hi n r p' -> proc_ok p' /\
  bytes (pblocks p') <= bytes (pblocks p) + n /\ pp_width p' = pp_width p /\ pp_ready p' = pp_ready p.
Proof.
  intros Hn [p1 [G1 G2 G3 G4 G5 _] _|p1 h s' lo' hi' err [G1 G2 G3 G4 G5 _] HB HA He]; [by split_and!|]. simpl.
  destruct (al_same _ _ _ _ HA) as [C1 C2]. split_and!; [|simpl; lia|done|done]. destruct G1 as [P1 P2 P3 P4].
  split; simpl; [apply HA| |by apply HA|done]. intros x. rewrite C1. auto.
Qed.

(** A request of a client, and what is asked of it. *)
Inductive request : Type :=
| RMalloc (size type near : Z)
| RFree (item : Z)
| RRealloc (item newSize : Z).

Inductive reply : Type := AAddress (r : Z) (err : option bool) | AUnit | AResized (b : bool).

Definition run_request (q : request) : M pcProcess reply :=
  match q with
  | RMalloc size type near => r ← inferiorMalloc size type near ; mret (AAddress (fst r) (snd r))
  | RFree item => inferiorFree item ;; mret AUnit
  | RRealloc item newSize => b ← inferiorRealloc item newSize ; mret (AResized b)
  end.

Fixpoint run_requests (l : list request) : M pcProcess (list reply) :=
  match l with [] => mret [] | q :: l' => a ← run_request q ; rs ← run_requests l' ; mret (a :: rs) end.

Definition request_ok (q : request) : Prop :=
  match q with RMalloc size _ _ => 0 < size | RFree _ => True | RRealloc _ n => 0 < n /\ n + 8 < 2 ^ 31 end.
Definition request_need (q : request) : Z := match q with RMalloc size _ _ => need size | _ => 0 end.

(** Live blocks do not overlap, and are memory the process has. *)
Lemma live_apart p a1 a2 h1 h2 :
  proc_ok p -> pactive p !! a1 = Some h1 -> pactive p !! a2 = Some h2 -> a1 <> a2 -> apart_items h1 h2.
Proof.
  intros [HO _ _ _] H1 H2 Hne. destruct (ho_active _ HO _ _ H1) as [_ [? ? ? ?]]. destruct (ho_active _ HO _ _ H2) as [_ [? ? ? ?]].
  apply (once_apart (pblocks p) h1 h2 (pfree p ++ items_of (delete a2 (delete a1 (pactive p))))); [apply (ho_once _ HO)| |done|done].
  unfold blocks. rewrite (items_of_delete _ _ _ H1), (items_of_delete (delete a1 (pactive p)) a2 h2) by (by rewrite lookup_delete_ne). solve_Permutation.
Qed.

Lemma live_owned p a h x :
  proc_ok p -> pactive p !! a = Some h -> hi_addr h <= x < end_of h -> static x \/ given (pp_rpcs p) x.
Proof.
  intros [HO Hown _ _] Ha Hx. apply Hown. pose proof (ho_once _ HO x) as H1. unfold blocks in *.
  rewrite zsum_app, (items_of_delete _ _ _ Ha), zsum_cons, owns_in in * by done.
  pose proof (owners_nonneg (pfree p) x). pose proof (owners_nonneg (items_of (delete a (pactive p))) x). lia.
Qed.

(** ** What the client holds *)

(** The client's own account, kept from its requests and the answers: the number of
    bytes it was promised at every address it holds.  There is none when an
    answer promises an address that is held already, or resizes one that is not. *)
Definition grant (g : gmap Z Z) (q : request) (a : reply) : option (gmap Z Z) :=
  match q, a with
  | RMalloc size _ _, AAddress r _ =>
      if r =? 0 then Some g else match g !! r with None => Some (<[r := size]> g) | Some _ => None end
  | RFree item, AUnit => Some (delete item g)
  | RRealloc item n, AResized true => match g !! item with Some _ => Some (<[item := n]> g) | None => None end
  | RRealloc _ _, AResized false => Some g
  | _, _ => None
  end.

Fixpoint ledger (g : gmap Z Z) (l : list request) (a : list reply) : option (gmap Z Z) :=
  match l, a with
  | [], [] => Some g
  | q :: l', r :: a' => g' ← grant g q r ; ledger g' l' a'
  | _, _ => None
  end.

(** The byte [x] can be held under the address [a]: no free block and no other
    live block contains it. *)
Definition held (p : pcProcess) (a x : Z) : Prop :=
  owners (pfree p ++ items_of (delete a (pactive p))) x = 0 /\ had p x.

Record ledger_ok (p : pcProcess) (g : gmap Z Z) : Prop := {
  lg_dom : dom g = dom (pactive p);
  lg_held : forall a n x, g !! a = Some n -> a <= x < a + n -> held p a x;
  lg_pos : forall a n, g !! a = Some n -> 0 < n;
  lg_apart : forall a b n m x, g !! a = Some n -> g !! b = Some m -> a <> b -> a <= x < a + n -> ~ b <= x < b + m
}.

Lemma held_owners p a x : held p a x <-> owners (pfree p) x = 0 /\ owners (items_of (delete a (pactive p))) x = 0 /\ had p x.
Proof.
  unfold held. rewrite zsum_app. pose proof (owners_nonneg (pfree p) x). pose proof (owners_nonneg (items_of (delete a (pactive p))) x).
  split; [intros [? ?]; split_and!; lia || done|intros (? & ? & ?); split; [lia|done]].
Qed.

Lemma held_other p a b h x : held p a x -> pactive p !! b = Some h -> b <> a -> owns x h = 0.
Proof.
  rewrite held_owners. intros (_ & Hx & _) Hb Hne. rewrite (items_of_delete _ b h), zsum_cons in Hx by (by rewrite lookup_delete_ne).
  pose proof (owns_range x h). pose proof (owners_nonneg (items_of (delete b (delete a (pactive p)))) x). lia.
Qed.

Lemma held_free p a h x : held p a x -> h ∈ pfree p -> owns x h = 0.
Proof.
  rewrite held_owners. intros (Hx & _) Hh. destruct (list_elem_of_split _ _ Hh) as (l1 & l2 & El). rewrite El, zsum_app, zsum_cons in Hx.
  pose proof (owns_range x h). pose proof (owners_nonneg l1 x). pose proof (owners_nonneg l2 x). lia.
Qed.

Lemma live_held p a h x : proc_ok p -> pactive p !! a = Some h -> hi_addr h <= x < end_of h -> held p a x.
Proof.
  intros HP Ha Hx. apply held_owners. pose proof (ho_once _ (po_heap _ HP) x) as H1. unfold blocks in H1.
  rewrite zsum_app, (items_of_delete _ _ _ Ha), zsum_cons, owns_in in H1 by done.
  pose proof (owners_nonneg (pfree p) x). pose proof (owners_nonneg (items_of (delete a (pactive p))) x).
  split_and!; [lia|lia|]. by apply (live_owned p a h).
Qed.

(** Nobody may take a byte that is held, and new memory is not held. *)
Lemma held_grown p n p' a x : grown p n p' -> held p a x -> held p' a x.
Proof.
  intros [_ G2 _ _ _ G6] (H1 & H2 & H3)%held_owners. destruct (G6 x H3) as [H3' Ho]. apply held_owners. rewrite G2. split_and!; try done.
  unfold blocks in Ho. rewrite !zsum_app, G2 in Ho. lia.
Qed.

Lemma ledger_grown p n p' g : grown p n p' -> ledger_ok p g -> ledger_ok p' g.
Proof. intros HG [L1 L2 L3 L4]. split; [by rewrite (gr_active _ _ _ HG)|eauto using held_grown|done|done]. Qed.

(** One address more, or another number of bytes at one. *)
Lemma ledger_put p p' g a n :
  ledger_ok p g -> dom (pactive p') = {[a]} ∪ dom (pactive p) -> 0 < n ->
  (forall x, a <= x < a + n -> held p' a x) ->
  (forall b x, b <> a -> held p b x -> held p' b x /\ ~ a <= x < a + n) ->
  ledger_ok p' (<[a := n]> g).
Proof.
  intros [L1 L2 L3 L4] Hd Hn Ha Hb. split.
  - rewrite dom_insert_L, Hd. by rewrite L1.
  - intros b m x. rewrite lookup_insert_Some. intros [[<- <-]|[Hne Hm]] Hx; [auto|]. by apply Hb, (L2 b m).
  - intros b m. rewrite lookup_insert_Some. intros [[<- <-]|[Hne Hm]]; eauto.
  - intros b c m k x. rewrite !lookup_insert_Some. intros [[<- <-]|[Hne Hm]] [[<- <-]|[Hne' Hk]] Hbc Hx; try done; [|apply (Hb b)|]; eauto.
    intros Hx'. by destruct (Hb c x (not_eq_sym Hbc) (L2 c k x Hk Hx')).
Qed.

Lemma ledger_allocated p g h n s' size :
  proc_ok p -> proc_ok (eput s' p) -> h ∈ pfree p -> allocated (pp_space p) h n s' -> 0 < size <= n -> n <= hi_length h ->
  ledger_ok p g -> g !! hi_addr h = None /\ ledger_ok (eput s' p) (<[hi_addr h := size]> g).
Proof.
  intros HP HP' Hh [_ [C1 _] A1 A2 A3 _ _] Hs Hl HL. set (h' := with_status _ _) in A1.
  split; [apply not_elem_of_dom; rewrite (lg_dom _ _ HL); by apply not_elem_of_dom|].
  assert (pactive (eput s' p) !! hi_addr h = Some h') as Hh' by (simpl; rewrite A1; by rewrite lookup_insert_eq).
  apply (ledger_put p); [done|simpl; rewrite A1; set_solver|lia| |].
  - intros x Hx. apply (live_held _ _ h'); [done|done|]. unfold end_of. simpl. lia.
  - intros b x Hne HH. pose proof (held_free _ _ _ _ HH Hh) as Ho. split; [|unfold owns, end_of in Ho; case_decide; lia].
    assert (owns x h' = 0) as Ho' by (unfold owns, end_of, h' in *; simpl; repeat case_decide; lia).
    apply held_owners in HH as (H1 & H2 & H3). apply held_owners. split_and!; [| |exact H3]; simpl; rewrite ?A1.
    + specialize (C1 x). unfold blocks in C1. rewrite !zsum_app, A1, items_of_insert, zsum_cons in C1 by done. lia.
    + rewrite delete_insert_ne, items_of_insert, zsum_cons by (by rewrite ?lookup_delete_ne). lia.
Qed.

Lemma ledger_released p g a h s' :
  pactive p !! a = Some h -> released (pp_space p) a h s' -> ledger_ok p g -> ledger_ok (eput s' p) (delete a g).
Proof.
  intros Ha [_ _ R1 R2 _ _] [L1 L2 L3 L4]. split; simpl.
  - rewrite R1, !dom_delete_L. by rewrite L1.
  - intros b n x. rewrite lookup_delete_Some. intros [Hne Hb] Hx. specialize (L2 b n x Hb Hx).
    pose proof (held_other _ _ _ _ _ L2 Ha Hne) as Ho. apply held_owners in L2 as (H1 & H2 & H3). apply held_owners. simpl.
    rewrite R1, R2, zsum_cons. split_and!; [change (owns x (with_status h HEAPfree)) with (owns x h); lia| |exact H3].
    rewrite delete_delete. rewrite (items_of_delete _ a h), zsum_cons in H2 by (by rewrite lookup_delete_ne). lia.
  - intros b n [_ Hb]%lookup_delete_Some. eauto.
  - intros b c n m x [_ Hb]%lookup_delete_Some [_ Hc]%lookup_delete_Some. eauto.
Qed.

Lemma ledger_shrunk p g a h n s' m :
  proc_ok p -> proc_ok (eput s' p) -> pactive p !! a = Some h -> n < hi_length h -> shrunk (pp_space p) a h n s' -> 0 < m <= n ->
  ledger_ok p g -> ledger_ok (eput s' p) (<[a := m]> g).
Proof.
  intros HP HP' Ha Hn [_ _ S1 _ S2 _ _] Hm HL. destruct (ho_active _ (po_heap _ HP) _ _ Ha) as [Ea _].
  apply (ledger_put p); [done|simpl; rewrite S1; set_solver|lia| |].
  - intros x Hx. apply (live_held _ _ (with_length h n)); [done|simpl; rewrite S1; by rewrite lookup_insert_eq|]. unfold end_of. simpl. lia.
  - intros b x Hne HH. assert (owns x h = 0) as Ho by (eapply held_other; eauto). split; [|unfold owns, end_of in Ho; case_decide; lia].
    assert (owns x (with_length h n) = 0) as Ho' by (unfold owns, end_of in *; simpl; repeat case_decide; lia).
    apply held_owners in HH as (H1 & H2 & H3). apply held_owners. simpl. rewrite S1, S2. split_and!; [| |exact H3].
    + rewrite decide_False; [lia|]. clear Ho'. unfold owns, end_of in *. case_decide; lia.
    + assert (delete b (pactive p) !! a = Some h) as Ha' by (by rewrite lookup_delete_ne).
      rewrite delete_insert_ne, (items_of_replace _ a h), zsum_cons by done. rewrite (items_of_delete _ a h Ha'), zsum_cons in H2. lia.
Qed.

Lemma ledger_expanded p g a h d f s' m :
  proc_ok p -> proc_ok (eput s' p) -> pactive p !! a = Some h -> room_behind (pp_space p) h d f -> expanded (pp_space p) h d s' ->
  0 < m <= hi_length h + d -> ledger_ok p g -> ledger_ok (eput s' p) (<[a := m]> g).
Proof.
  intros HP HP' Ha (F1 & F2 & F3) [_ X1 X2 _ _ _ _] Hm HL. destruct (ho_active _ (po_heap _ HP) _ _ Ha) as [Ea _].
  assert (forall x, owners (pfree (eput s' p)) x = owners (pfree p) x - if decide (end_of h <= x < end_of h + d) then 1 else 0) as Hfree.
  { intros x. specialize (X2 x). unfold blocks in X2. rewrite !zsum_app, X1 in X2. simpl. lia. }
  apply (ledger_put p); [done|simpl; rewrite X1; apply elem_of_dom_2 in Ha; set_solver|lia| |].
  - intros x Hx. destruct (decide (x < end_of h)) as [Hlt|Hge]; [apply (live_held _ _ h); [done|simpl; by rewrite X1|lia]|].
    specialize (X2 x). rewrite decide_True in X2 by (unfold end_of in *; lia). pose proof (ho_once _ (po_heap _ HP) x) as H1.
    pose proof (owners_nonneg (blocks s') x) as Hnn. assert (owners (pblocks p) x = 1) as H1' by lia. rewrite H1' in X2. unfold blocks in X2.
    rewrite zsum_app, X1, (items_of_delete _ _ _ Ha), zsum_cons, owns_out in X2 by (unfold end_of in *; lia). apply held_owners. simpl. rewrite X1.
    pose proof (owners_nonneg (free_of s') x). pose proof (owners_nonneg (items_of (delete a (pactive p))) x).
    split_and!; [lia|lia|]. by apply (po_owned _ HP).
  - intros b x Hne HH. pose proof (held_other _ _ _ _ _ HH Ha (not_eq_sym Hne)) as Ho. pose proof (held_free _ _ _ _ HH F1) as Hf.
    pose proof HH as (H1 & H2 & H3)%held_owners. pose proof (owners_nonneg (pfree (eput s' p)) x) as Hnn. specialize (Hfree x).
    split; [apply held_owners; split_and!; [|simpl; rewrite X1; exact H2|exact H3]; case_decide; lia|].
    intros Hx. unfold owns, end_of in *. repeat case_decide; lia.
Qed.

(** A request leaves a heap that agrees with the client's account. *)
Definition answered (p : pcProcess) (q : request) (a : reply) (p' : pcProcess) : Prop :=
  proc_ok p' /\ bytes (pblocks p') <= bytes (pblocks p) + request_need q /\ pp_ready p' = true /\
  forall g, ledger_ok p g -> exists g', grant g q a = Some g' /\ ledger_ok p' g'.

Lemma malloc_answered p size type near :
  proc_ok p -> pp_ready p = true -> 0 < size -> bytes (pblocks p) + need size < 2 ^ 31 ->
  exists r err p', inferiorMalloc size type near p = Ret ((r, err), p') /\ answered p (RMalloc size type near) (AAddress r err) p'.
Proof.
  intros HP Hr Hs Hb. pose proof (heap_bytes _ (po_heap _ HP)) as (B1 & B2 & B3). pose proof Hb as Hb'. unfold blocks in Hb'.
  rewrite zsum_app in Hb'. unfold need, HEAP_DYN_BUF_SIZE in Hb'. destruct (align_process p size HP Hs ltac:(lia)) as [Hn _].
  destruct (inferiorMalloc_run p size type near HP Hr Hs Hb) as (r & err & p' & E & HT). exists r, (Some err), p'. split; [done|].
  assert (0 <= need size) as Hnn by (unfold need, HEAP_DYN_BUF_SIZE; lia).
  destruct (tried_proc_ok _ _ _ _ _ _ _ _ Hnn HT) as (T1 & T2 & T3 & T4). split_and!; [done|done|congruence|]. intros g HL. simpl.
  inversion HT as [p1 HG Hno|p1 h s' lo' hi' err' HG HB HA He]; subst; [exists g; split; [done|by eapply ledger_grown]|].
  pose proof (proj1 (Forall_forall _ _) (ho_free _ (po_heap _ (gr_ok _ _ _ HG))) h (proj1 HB)) as HI.
  destruct (fits_bounds _ h (inferiorMallocAlign (pp_width p) size) type lo' hi' HI ltac:(lia) (proj1 (proj2 HB))) as (_ & _ & F3 & _).
  destruct (ledger_allocated p1 g h _ s' size (gr_ok _ _ _ HG) T1 (proj1 HB) HA) as [Hg HL']; [lia|lia|by eapply ledger_grown|].
  destruct HI as [I1 _ _ _]. rewrite (proj2 (Z.eqb_neq _ _)) by lia. rewrite Hg. by eexists.
Qed.

Lemma free_answered p item : proc_ok p -> pp_ready p = true ->
  exists p', inferiorFree item p = Ret (tt, p') /\ answered p (RFree item) AUnit p'.
Proof.
  intros HP Hr. pose proof (inferiorFreeInternal_run (pp_space p) item (po_heap _ HP)) as HF. pose proof HP as [P1 P2 P3 P4].
  destruct (pactive p !! item) as [h|] eqn:Ei.
  - destruct HF as (s' & E & HR). pose proof HR as [R1 [C1 C2] R3 R4 R5 R6]. exists (eput s' p). split; [by apply lift_run|].
    split_and!; simpl; [|lia|done|]; [split; simpl; auto; intros x; rewrite C1; auto|].
    intros g HL. eexists. split; [done|by eapply ledger_released].
  - exists p. split; [rewrite <- (eput_eget p) at 2; by apply lift_run|]. split_and!; [done|simpl; lia|done|].
    intros g HL. exists g. split; [|done]. simpl. f_equal. apply delete_id, not_elem_of_dom. rewrite (lg_dom _ _ HL). by apply not_elem_of_dom.
Qed.

Lemma resized_ledger p item n m b s' g :
  proc_ok p -> proc_ok (eput s' p) -> resized (pp_space p) item n b s' -> 0 < m <= n -> ledger_ok p g ->
  exists g', grant g (RRealloc item m) (AResized b) = Some g' /\ ledger_ok (eput s' p) g'.
Proof.
  intros HP HP' HZ Hm HL. assert (eput (pp_space p) p = p) as Ep by (change (eput (eget p) p = p); apply eput_eget).
  assert (forall h, pactive p !! item = Some h -> exists k, g !! item = Some k) as Hk.
  { intros h Hh. apply elem_of_dom. rewrite (lg_dom _ _ HL). by apply elem_of_dom_2 in Hh. }
  destruct HZ as [|h Hh Hl|h s' Hh Hl HS|h f s' Hh Hl HF HX|]; cbn [grant]; try (exists g; by rewrite Ep);
    destruct (Hk h Hh) as [k ->]; eexists; (split; [done|]).
  - destruct (ho_active _ (po_heap _ HP) _ _ Hh) as [Ea _]. rewrite Ep.
    apply (ledger_put p); [done|apply elem_of_dom_2 in Hh; set_solver|lia| |].
    + intros x Hx. apply (live_held p _ h); [done|done|unfold end_of; lia].
    + intros b x Hne HH. split; [done|]. pose proof (held_other _ _ _ _ _ HH Hh (not_eq_sym Hne)) as Ho.
      unfold owns, end_of in Ho. case_decide; lia.
  - eapply ledger_shrunk; eauto.
  - eapply ledger_expanded; eauto. lia.
Qed.

Lemma realloc_answered p item n : proc_ok p -> pp_ready p = true -> 0 < n -> n + 8 < 2 ^ 31 ->
  exists b p', inferiorRealloc item n p = Ret (b, p') /\ answered p (RRealloc item n) (AResized b) p'.
Proof.
  intros HP Hr Hn0 Hn1. unfold inferiorRealloc. rewrite bind_gets, Hr. cbn [negb]. rewrite bind_gets.
  destruct (align_process p n HP ltac:(lia) ltac:(lia)) as [Hn _]. pose proof HP as [P1 P2 P3 P4].
  destruct (inferiorReallocInternal_run (pp_space p) (pp_width p) item n P1 ltac:(lia)) as (b & s' & E & HZ).
  destruct (resized_ok _ _ _ _ _ P1 HZ) as (Z1 & Z2 & Z3 & Z4). exists b, (eput s' p). split; [by apply lift_run|].
  assert (proc_ok (eput s' p)) as HP'.
  { split; simpl; auto. intros x Hx. apply P2. specialize (Z3 x). pose proof (ho_once _ P1 x). lia. }
  split_and!; [done|simpl; lia|done|]. intros g HL. eapply resized_ledger; eauto. lia.
Qed.

Lemma run_request_ok p q :
  proc_ok p -> pp_ready p = true -> request_ok q -> bytes (pblocks p) + request_need q < 2 ^ 31 ->
  exists a p', run_request q p = Ret (a, p') /\ answered p q a p'.
Proof.
  intros HP Hr Hq Hb. destruct q as [size type near|item|item n]; unfold run_request; simpl in Hq, Hb |- *.
  - destruct (malloc_answered p size type near HP Hr Hq Hb) as (r & err & p' & E & HA). rewrite (bind_ret _ _ _ _ _ E). by eexists _, p'.
  - destruct (free_answered p item HP Hr) as (p' & E & HA). rewrite (bind_ret _ _ _ _ _ E). by eexists _, p'.
  - destruct (realloc_answered p item n HP Hr) as (b & p' & E & HA); [lia|lia|]. rewrite (bind_ret _ _ _ _ _ E). by eexists _, p'.
Qed.

Lemma run_requests_ok l : forall p g,
  proc_ok p -> pp_ready p = true -> ledger_ok p g -> Forall request_ok l -> bytes (pblocks p) + zsum request_need l < 2 ^ 31 ->
  exists a p' g', run_requests l p = Ret (a, p') /\ proc_ok p' /\ ledger g l a = Some g' /\ ledger_ok p' g'.
Proof.
  induction l as [|q l IH]; intros p g HP Hr HL HF Hb; [by exists [], p, g|]. apply Forall_cons in HF as [Hq HF]. rewrite zsum_cons in Hb.
  assert (0 <= zsum request_need l) as Hnn.
  { apply zsum_nonneg. intros x Hx. rewrite Forall_forall in HF. specialize (HF x Hx). destruct x; simpl in *; unfold need, HEAP_DYN_BUF_SIZE; lia. }
  destruct (run_request_ok p q HP Hr Hq ltac:(lia)) as (a & p1 & E & HP1 & Hb1 & Hr1 & HL1). destruct (HL1 g HL) as (g1 & EG & HG1).
  destruct (IH p1 g1 HP1 Hr1 HG1 HF ltac:(lia)) as (rs & p2 & g2 & E2 & HP2 & EL & HG2). simpl.
  rewrite (bind_ret _ _ _ _ _ E), (bind_ret _ _ _ _ _ E2). exists (a :: rs), p2, g2. split_and!; [done|done| |done].
  simpl. by rewrite EG.
Qed.

(** ** From a new process *)

Definition static_item (d : heapDescriptor) : heapItem := new_heapItem (hd_addr d) (hd_size d) (hd_type d) false HEAPfree.

(** Static heaps that lie in the image and do not overlap. *)
Record descs_ok (ds : list heapDescriptor) : Prop := {
  do_items : Forall (item_ok HEAPfree) (static_item <$> ds);
  do_once : forall x, owners (static_item <$> ds) x <= 1;
  do_static : forall x, owners (static_item <$> ds) x = 1 -> static x
}.

Lemma addInferiorHeap_run ds rt : forall p,
  proc_ok p -> Forall (item_ok HEAPfree) (static_item <$> ds) ->
  (forall x, owners (pblocks p) x + owners (static_item <$> ds) x <= 1) ->
  (forall x, owners (static_item <$> ds) x = 1 -> static x) ->
  bytes (pblocks p) + bytes (static_item <$> ds) < 2 ^ 31 ->
  exists p', addInferiorHeap ds rt p = Ret (tt, p') /\ proc_ok p' /\ bytes (pblocks p') = bytes (pblocks p) + bytes (static_item <$> ds) /\
    pp_ready p' = pp_ready p /\ pactive p' = pactive p.
Proof.
  induction ds as [|d ds IH]; intros p HP HF Hon Hst Hb; csimpl in *.
  { exists p. split_and!; try done. symmetry. apply Z.add_0_r. }
  apply Forall_cons in HF as [HI HF]. rewrite zsum_cons in Hb. pose proof (item_ok_pos _ _ HF) as Hp. pose proof HP as [P1 P2 P3 P4].
  assert (forall x, 0 <= owners (static_item <$> ds) x) as Hn by (intros x; apply owners_nonneg).
  destruct (addHeap_run (pp_space p) (static_item d) P1 HI) as (s' & EA & A1 & A2 & A3 & A4 & A5 & A6 & A7).
  { intros x Hx. specialize (Hon x). rewrite zsum_cons, owns_in in Hon by done. specialize (Hn x).
    pose proof (owners_nonneg (pblocks p) x).
    lia. }
  { lia. }
  set (p1 := if rt then mk_process s' (pp_width p) (pp_ready p) (pp_rpcs p) (pp_RT_heaps p ++ [static_item d]) else eput s' p).
  assert (add_static_heap rt d p = Ret (tt, p1)) as E1.
  { unfold add_static_heap, skipHeap. fold (static_item d). cbv zeta. rewrite (bind_ret _ _ _ _ _ (lift_run _ p _ _ EA)). unfold p1. by destruct rt. }
  assert (pp_space p1 = s' /\ pp_width p1 = pp_width p /\ pp_rpcs p1 = pp_rpcs p /\ pp_ready p1 = pp_ready p) as (S1 & S2 & S3 & S4)
    by (unfold p1; by destruct rt).
  destruct (IH p1) as (p' & E' & HP' & Hb' & Hr' & Ha').
  { split; rewrite ?S1, ?S2, ?S3; auto. intros x. rewrite A5. intros Hx. specialize (Hon x). specialize (Hst x). rewrite zsum_cons in Hon, Hst.
    pose proof (owns_range x (static_item d)). specialize (Hn x). pose proof (owners_nonneg (pblocks p) x).
    destruct (decide (owns x (static_item d) = 1)); [left; apply Hst; lia|]. apply P2. lia. }
  { done. }
  { intros x. rewrite S1, A5. specialize (Hon x). rewrite zsum_cons in Hon. lia. }
  { intros x Hx. apply Hst. rewrite zsum_cons. specialize (Hon x). rewrite zsum_cons in Hon. pose proof (owns_range x (static_item d)).
    pose proof (owners_nonneg (pblocks p) x). lia. }
  { rewrite S1, A6. lia. }
  exists p'. change (addInferiorHeap (d :: ds) rt) with (add_static_heap rt d ;; addInferiorHeap ds rt).
  rewrite (bind_ret _ _ _ _ _ E1). split_and!; [done|done|rewrite Hb', S1, A6, zsum_cons; lia|congruence|rewrite Ha', S1; done].
Qed.

Definition new_process (width : Z) : pcProcess := mk_process (mk_space inferiorHeap_new false) width true [] [].

Lemma new_process_ok width : width = 4 \/ width = 8 -> exists p, lift initializeHeap (new_process width) = Ret (tt, p) /\
  proc_ok p /\ blocks (pp_space p) = [] /\ pactive p = ∅ /\ pp_ready p = true.
Proof.
  intros Hw. eexists. split; [reflexivity|]. split_and!; try done. assert (items_of ∅ = []) as Ei by (unfold items_of; by rewrite map_to_list_empty).
  split; simpl; [|intros x; unfold blocks, active_of; simpl; by rewrite Ei|done|done].
  split; unfold blocks, active_of, free_of; simpl; rewrite ?Ei; try done. constructor.
Qed.

(** A session: the heap is initialised, the static heaps of the runtime library
    are added, and then a client makes requests. *)
Definition session (ds : list heapDescriptor) (l : list request) : M pcProcess (list reply) :=
  lift initializeHeap ;; addInferiorHeap ds true ;; run_requests l.

(** C15: the mutatee's allocator is assumed to return memory that is neither of the image
    nor returned before; the static heaps lie in the image and do not overlap; and
    the static heaps with what the requests may add, two buffers and twice its size per
    allocation, stay below 2 GB.  Whatever a client then asks for - any sequence of
    allocations, releases and resizings of at least one byte - the requests run to the end without a failing assertion, and the answers make
    sense to the client: counting the bytes that were promised, an allocation as
    much as a successful resizing, no address is promised while it is held, the
    ranges that are held at the end do not overlap, and every byte of them is of a
    static heap or of a segment the mutatee allocated.  The addresses held are
    those of the live blocks, which do not overlap either. *)
Theorem inferior_heap_no_overlap width ds l :
  width = 4 \/ width = 8 -> descs_ok ds -> Forall request_ok l -> bytes (static_item <$> ds) + zsum request_need l < 2 ^ 31 ->
  exists a p' g, session ds l (new_process width) = Ret (a, p') /\ ledger ∅ l a = Some g /\ dom g = dom (pactive p') /\
    (forall a1 a2 n1 n2, g !! a1 = Some n1 -> g !! a2 = Some n2 -> a1 <> a2 -> a1 + n1 <= a2 \/ a2 + n2 <= a1) /\
    (forall b n x, g !! b = Some n -> b <= x < b + n -> static x \/ given (pp_rpcs p') x) /\
    (forall a1 a2 h1 h2, pactive p' !! a1 = Some h1 -> pactive p' !! a2 = Some h2 -> a1 <> a2 -> apart_items h1 h2) /\
    (forall a h x, pactive p' !! a = Some h -> hi_addr h = a /\ (hi_addr h <= x < end_of h -> static x \/ given (pp_rpcs p') x)).
Proof.
  intros Hw [D1 D2 D3] HF Hb. destruct (new_process_ok width Hw) as (p & E & HP & Hbl & Hac & Hr).
  assert (0 <= zsum request_need l) as Hnn.
  { apply zsum_nonneg. intros x Hx. rewrite Forall_forall in HF. specialize (HF x Hx). destruct x; simpl in *; unfold need, HEAP_DYN_BUF_SIZE; lia. }
  destruct (addInferiorHeap_run ds true p HP D1) as (p1 & E1 & HP1 & Hb1 & Hr1 & Ha1); try done; rewrite ?Hbl; [by intros x; apply D2|rewrite zsum_nil; lia|].
  assert (ledger_ok p1 ∅) as HL1 by (split; [rewrite Ha1, Hac; set_solver|done..]).
  rewrite Hbl in Hb1. destruct (run_requests_ok l p1 ∅ HP1 ltac:(congruence) HL1 HF) as (a & p2 & g & E2 & HP2 & EL & HL); [rewrite Hb1, zsum_nil; lia|].
  exists a, p2, g. unfold session. rewrite (bind_ret _ _ _ _ _ E), (bind_ret _ _ _ _ _ E1), E2. split_and!; [done|done|apply HL| | | |].
  - intros a1 a2 n1 n2 H1 H2 Hne. pose proof (lg_pos _ _ HL _ _ H1). pose proof (lg_pos _ _ HL _ _ H2).
    pose proof (lg_apart _ _ HL a1 a2 n1 n2 (Z.max a1 a2) H1 H2 Hne). lia.
  - intros b n x Hg Hx. apply (lg_held _ _ HL b n x Hg Hx).
  - intros a1 a2 h1 h2. by apply live_apart.
  - intros b h x Hh. destruct (ho_active _ (po_heap _ HP2) _ _ Hh) as [Ha _]. split; [done|]. by apply (live_owned p2 b).
Qed.

(** C31: an allocation of a running mutatee always returns: either with 0 and the
    error flag, and then no free block is large enough, or with a new live block
    of the requested type and at least the requested size, which lies within the
    bounds around the requested address unless the error flag is set. *)
Theorem inferiorMalloc_correct p size type near (n := inferiorMallocAlign (pp_width p) size)
    (b := inferiorMallocConstraints (pp_width p) near ADDRESS_LO ADDRESS_HI) :
  proc_ok p -> pp_ready p = true -> 0 < size -> bytes (pblocks p) + need size < 2 ^ 31 ->
  exists r err p', inferiorMalloc size type near p = Ret ((r, Some err), p') /\ proc_ok p' /\ size <= n < size + 8 /\
    (r = 0 /\ err = true /\ pactive p' = pactive p /\ no_fit p' n type ADDRESS_LO ADDRESS_HI \/
     exists h, 0 < r /\ pactive p !! r = None /\ pactive p' = <[r := h]> (pactive p) /\ hi_addr h = r /\ hi_length h = n /\
       Z.land (hi_type h) type <> 0 /\ (err = false -> fst b <= r /\ r + n - 1 <= snd b)).
Proof.
  intros HP Hr Hs Hb. pose proof (heap_bytes _ (po_heap _ HP)) as (B1 & B2 & B3). pose proof Hb as Hb'. unfold blocks in Hb'.
  rewrite zsum_app in Hb'. unfold need, HEAP_DYN_BUF_SIZE in Hb'. destruct (align_process p size HP Hs ltac:(lia)) as [Hn _]. fold n in Hn.
  destruct (inferiorMalloc_run p size type near HP Hr Hs Hb) as (r & err & p' & E & HT). exists r, err, p'. fold n b in HT.
  assert (0 <= need size) as Hnn by (unfold need, HEAP_DYN_BUF_SIZE; lia).
  pose proof (tried_proc_ok _ _ _ _ _ _ _ _ Hnn HT) as (T1 & _). split_and!; [done|done|lia|lia|].
  inversion HT as [p1 HG Hno|p1 h s' lo' hi' err' HG HB HA He]; subst; [left; split_and!; try done; apply HG|right].
  destruct HG as [G1 G2 G3 G4 G5 _]. pose proof (proj1 (Forall_forall _ _) (ho_free _ (po_heap _ G1)) h (proj1 HB)) as HI.
  destruct (fits_bounds _ h n type lo' hi' HI ltac:(lia) (proj1 (proj2 HB))) as (F1 & F2 & F3 & F4).
  exists (with_status (with_length h n) HEAPallocated). simpl. rewrite <- G2. split_and!; try done; [apply HI|apply HA|apply HA|..].
  - intros Hf. destruct (He Hf) as [-> ->]. done.
Qed.
End Process.

(** ** A mutatee that allocates upwards *)

Definition top_given (calls : list rpc) : Z := foldr (fun c m => Z.max m (rpc_result c + rpc_size c)) 0x100000 calls.
Definition upward : Mutatee := {|
  os_malloc := fun calls size _ _ =>
    let r := top_given calls in if (0 <? size) && (r + size <? 2 ^ 31) then Some r else Some 0 |}.
Definition low_image (x : Z) : Prop := x < 0x100000.

Lemma top_given_above calls c : c ∈ calls -> rpc_result c + rpc_size c <= top_given calls.
Proof. unfold top_given. induction calls as [|d calls IH]; simpl; [by intros ?%elem_of_nil|]. intros [->|Hc]%elem_of_cons; [lia|]. specialize (IH Hc). lia. Qed.
Lemma top_given_base calls : 0x100000 <= top_given calls.
Proof. unfold top_given. induction calls as [|d calls IH]; simpl; lia. Qed.

#[export] Instance upward_honest : @Honest low_image upward.
Proof.
  split. intros calls size lo hi r. simpl. pose proof (top_given_base calls) as Hb.
  destruct (Z.ltb_spec 0 size), (Z.ltb_spec (top_given calls + size) (2 ^ 31)); simpl; intros [= <-] [Ht _]; try done.
  split_and!; [lia|lia|]. intros x Hx. unfold low_image. split; [lia|]. intros (c & Hc & _ & Hx'). pose proof (top_given_above calls c Hc). lia.
Qed.

Definition demo_desc : heapDescriptor := mk_heapd 0x1000 4096 anyHeap.
Lemma demo_descs_ok : @descs_ok low_image [demo_desc].
Proof.
  split; csimpl.
  - by repeat constructor.
  - intros x. rewrite zsum_cons, zsum_nil. pose proof (owns_range x (static_item demo_desc)). lia.
  - intros x. rewrite zsum_cons, zsum_nil. change (static_item demo_desc) with (mk_item 0x1000 4096 anyHeap false HEAPfree NULL).
    unfold owns, end_of, low_image. simpl. case_decide; lia.
Qed.

(** The block at 0x1000 is cut, grown into the free bytes behind it, and the next
    allocation begins behind what it grew to. *)
Definition demo_requests : list request :=
  [RMalloc 100 anyHeap 0; RMalloc 5000 dataHeap 0x400000; RRealloc 0x1000 32; RRealloc 0x1000 64; RMalloc 8 textHeap 0;
   RFree 0x1000; RMalloc 16 textHeap 0].

Lemma inferior_heap_no_overlap_witness :
  exists a p' g, @session upward [demo_desc] demo_requests (new_process 8) = Ret (a, p') /\ ledger ∅ demo_requests a = Some g /\
    (forall a1 a2 n1 n2, g !! a1 = Some n1 -> g !! a2 = Some n2 -> a1 <> a2 -> a1 + n1 <= a2 \/ a2 + n2 <= a1) /\
    (forall b n x, g !! b = Some n -> b <= x < b + n -> low_image x \/ given (pp_rpcs p') x).
Proof.
  destruct (@inferior_heap_no_overlap low_image upward upward_honest 8 [demo_desc] demo_requests) as (a & p' & g & E & EL & _ & H1 & H2 & _);
    [by right|exact demo_descs_ok|repeat constructor|by vm_compute|].
  exists a, p', g. split_and!; assumption.
Defined.

Lemma demo_process_ok : exists p, lift initializeHeap (new_process 8) = Ret (tt, p) /\ proc_ok low_image p /\ pp_ready p = true /\
  pp_width p = 8 /\ bytes (blocks (pp_space p)) = 0.
Proof.
  destruct (new_process_ok low_image 8 ltac:(by right)) as (p & E & HP & Hb & _ & Hr). exists p. split_and!; try done; [|by rewrite Hb].
  by injection E as <-.
Qed.

Lemma inferiorMalloc_correct_witness :
  exists p r err p', @inferiorMalloc upward 100 anyHeap 0x400000 p = Ret ((r, Some err), p') /\ proc_ok low_image p' /\ 100 <= 104.
Proof.
  destruct demo_process_ok as (p & _ & HP & Hr & Hw & Hb).
  destruct (@inferiorMalloc_correct low_image upward upward_honest p 100 anyHeap 0x400000 HP Hr eq_refl) as (r & err & p' & E & HP' & _).
  { rewrite Hb. reflexivity. }
  exists p, r, err, p'. split; [exact E|]. split; [exact HP'|done].
Defined.

Example demo_answers :
  match @session upward [demo_desc] demo_requests (new_process 8) with Ret (a, _) => a | Fault _ => [] end =
  [AAddress 4096 (Some false); AAddress 0x100000 (Some false); AResized true; AResized true; AAddress 4160 (Some false); AUnit;
   AAddress 4096 (Some false)].
Proof. vm_compute. reflexivity. Qed.
