(* ===== verification/BinHeap.v ===== *)
(** * The memory of a binary that is being rewritten (binaryEdit.C, binaryEdit.h)

    A BinaryEdit extends its image upwards from a high-water mark, and keeps for
    every section and every allocated block a memoryTracker: an object with a local
    buffer, found by address in a tree of ranges (CodeRange).  The objects are at
    addresses of their own; the size the tree's methods see is the one the object
    has at that moment. *)
From stdpp Require Import base gmap list.
From S2P Require Import Prelude CodeRange InfHeap.
Import infHeap.

Module binaryEdit.

(** [memoryTracker]; a byte of the buffer is [None] while it is indeterminate. *)
Record memoryTracker : Type := mk_tracker {
  mt_alloced : bool;
  mt_dirty : bool;
  mt_a : Z;
  mt_s : Z;
  mt_b : list (option Z)
}.

Definition memoryTracker_new (a s : Z) : memoryTracker :=
  mk_tracker false false a s (replicate (Z.to_nat s) None).
Definition memoryTracker_copy (a s : Z) (b : list Z) : memoryTracker :=
  mk_tracker false false a s (Some <$> take (Z.to_nat s) b).

(** [memoryTracker::realloc], with [::realloc] keeping what fits. *)
Definition memoryTracker_realloc (t : memoryTracker) (newsize : Z) : memoryTracker :=
  mk_tracker (mt_alloced t) (mt_dirty t) (mt_a t) newsize
    (take (Z.to_nat newsize) (mt_b t) ++ replicate (Z.to_nat newsize - length (mt_b t)) None).

Record binaryEdit : Type := mk_edit {
  be_space : addressSpace;
  be_width : Z;                          (* getAddressWidth *)
  be_lowWaterMark : Z;
  be_highWaterMark : Z;
  be_memoryTracker : option codeRangeTree.rtree;
  be_objs : gmap Z memoryTracker;        (* the trackers, by their addresses *)
  be_next : Z;                           (* where the next one is allocated *)
  be_dirty : bool
}.

#[export] Instance edit_space : Embed binaryEdit addressSpace := {
  eget := be_space;
  eput a s := mk_edit a (be_width s) (be_lowWaterMark s) (be_highWaterMark s) (be_memoryTracker s) (be_objs s) (be_next s) (be_dirty s)
}.
#[export] Instance edit_space_laws : EmbedLaws binaryEdit addressSpace.
Proof. split; [by intros []|done]. Qed.

Definition set_tracker (t : option codeRangeTree.rtree) (s : binaryEdit) : binaryEdit :=
  mk_edit (be_space s) (be_width s) (be_lowWaterMark s) (be_highWaterMark s) t (be_objs s) (be_next s) (be_dirty s).
Definition set_objs (f : gmap Z memoryTracker -> gmap Z memoryTracker) (s : binaryEdit) : binaryEdit :=
  mk_edit (be_space s) (be_width s) (be_lowWaterMark s) (be_highWaterMark s) (be_memoryTracker s) (f (be_objs s)) (be_next s) (be_dirty s).

(** The virtual methods of the trackers that are alive.  The tree never holds a
    deleted tracker under the invariant of BinHeapOk; calling one is undefined. *)
Definition ranges (objs : gmap Z memoryTracker) : codeRangeTree.RangeOf := {|
  codeRangeTree.get_address v := match objs !! v with Some t => mt_a t | None => 0 end;
  codeRangeTree.get_size v := match objs !! v with Some t => mt_s t | None => 0 end
|}.

(** A method of the tree. *)
Definition on_tree {A} (m : codeRangeTree.RangeOf -> M codeRangeTree.rtree A) : M binaryEdit A := fun s =>
  match be_memoryTracker s with
  | None => Fault FNull
  | Some t =>
      match m (ranges (be_objs s)) t with
      | Ret (a, t') => Ret (a, set_tracker (Some t') s)
      | Fault e => Fault e
      end
  end.

Definition tracker_find (addr : Z) : M binaryEdit (option Z) := on_tree (fun r => @codeRangeTree.find r addr).
Definition tracker_insert (v : Z) : M binaryEdit unit := on_tree (fun r => @codeRangeTree.insert r v).
Definition tracker_remove (addr : Z) : M binaryEdit unit := on_tree (fun _ => codeRangeTree.remove addr).

(** [new memoryTracker], [delete], and an access to a tracker. *)
Definition new_tracker (t : memoryTracker) : M binaryEdit Z := fun s =>
  Ret (be_next s, mk_edit (be_space s) (be_width s) (be_lowWaterMark s) (be_highWaterMark s) (be_memoryTracker s)
    (<[be_next s := t]> (be_objs s)) (be_next s + 1) (be_dirty s)).
Definition delete_tracker (v : Z) : M binaryEdit unit := modify (set_objs (delete v)).
Definition get_tracker (v : Z) : M binaryEdit memoryTracker := fun s =>
  match be_objs s !! v with Some t => Ret (t, s) | None => Fault FBadPtr end.
Definition put_tracker (v : Z) (t : memoryTracker) : M binaryEdit unit := modify (set_objs <[v := t]>).

(** [if (!memoryTracker_) memoryTracker_ = new codeRangeTree();] *)
Definition need_tree : M binaryEdit unit := modify (fun s =>
  match be_memoryTracker s with None => set_tracker (Some (codeRangeTree.codeRangeTree_new 1)) s | Some _ => s end).

Definition markDirty : M binaryEdit unit := modify (fun s =>
  mk_edit (be_space s) (be_width s) (be_lowWaterMark s) (be_highWaterMark s) (be_memoryTracker s) (be_objs s) (be_next s) true).

(** ** Allocation *)

(** The first free block that ends at [a]. *)
Fixpoint find_ending (l : list heapItem) (i : nat) (a : Z) : option (nat * heapItem) :=
  match l with
  | [] => None
  | h :: l' => if u64 (hi_addr h + hi_length h) =? a then Some (i, h) else find_ending l' (S i) a
  end.

Definition inferiorMallocStatic (size : Z) : M binaryEdit bool :=
  newStart ← gets be_highWaterMark ;
  assertM (negb (newStart =? 0)) ;;
  l ← gets (fun s => heapFree (heap_ (be_space s))) ;
  (match find_ending l 0 newStart with
   | Some (i, h) => lift (set_free (<[i := with_length h (u32 (hi_length h + size))]> l))
   | None => lift (addHeap (new_heapItem newStart size anyHeap true HEAPfree))
   end) ;;
  modify (fun s => mk_edit (be_space s) (be_width s) (be_lowWaterMark s) (u64 (be_highWaterMark s + size))
    (be_memoryTracker s) (be_objs s) (be_next s) (be_dirty s)) ;;
  mret true.

Definition track (a size : Z) : M binaryEdit unit :=
  newTracker ← new_tracker (memoryTracker_new a size) ;
  t ← get_tracker newTracker ;
  put_tracker newTracker (mk_tracker true (mt_dirty t) (mt_a t) (mt_s t) (mt_b t)) ;;
  need_tree ;;
  tracker_insert newTracker.

(** The loop over the three attempts. *)
Fixpoint malloc_tries (left ntry : nat) (size : Z) : M binaryEdit Z :=
  match left with
  | O => fail FFuel
  | S left' =>
      go ← (match ntry with
            | 0 => mret true
            | 1 => lift inferiorFreeCompact ;; mret true
            | 2 => inferiorMallocStatic size ;; mret true
            | _ => mret false
            end%nat) ;
      if negb go then mret 0 else
      ret ← lift (inferiorMallocInternal size ADDRESS_LO ADDRESS_HI anyHeap) ;
      if negb (ret =? 0) then track ret size ;; mret ret
      else malloc_tries left' (S ntry) size
  end.

Definition inferiorMalloc (size : Z) : M binaryEdit Z :=
  width ← gets be_width ;
  malloc_tries 4 0 (inferiorMallocAlign width size).

Definition inferiorFree (item : Z) : M binaryEdit unit :=
  lift (inferiorFreeInternal item) ;;
  obj ← tracker_find item ;
  match obj with
  | None => mret tt
  | Some v => delete_tracker v ;; tracker_remove item
  end.

Definition maxAllocedAddr : M binaryEdit Z :=
  lift inferiorFreeCompact ;;
  m ← gets (fun s => heapActive (heap_ (be_space s))) ;
  low ← gets be_lowWaterMark ;
  mret (foldr (fun h hi => Z.max hi (u64 (hi_addr h + hi_length h))) low (map_to_list m).*2).

Definition inferiorRealloc (item newsize : Z) : M binaryEdit bool :=
  width ← gets be_width ;
  result ← lift (inferiorReallocInternal width item newsize) ;
  if negb result then mret false else
  maxAllocedAddr ;;
  obj ← tracker_find item ;
  match obj with
  | None => fail FAssert
  | Some v =>
      tracker_remove item ;;
      t ← get_tracker v ;
      put_tracker v (memoryTracker_realloc t newsize) ;;
      tracker_insert v ;;
      mret true
  end.

(** ** Reading and writing *)

(** [memcpy] out of and into a buffer. *)
Definition copy_out (b : list (option Z)) (off n : Z) : M binaryEdit (list (option Z)) :=
  if (0 <=? off) && (off + n <=? Z.of_nat (length b))
  then mret (take (Z.to_nat n) (drop (Z.to_nat off) b)) else fail FBounds.
Definition copy_in (b : list (option Z)) (off : Z) (data : list Z) : M binaryEdit (list (option Z)) :=
  if (0 <=? off) && (off + Z.of_nat (length data) <=? Z.of_nat (length b))
  then mret (list_inserts (Z.to_nat off) (Some <$> data) b) else fail FBounds.

Definition readTextSpace (addr size : Z) : M binaryEdit (option (list (option Z))) :=
  r ← tracker_find addr ;
  match r with
  | None => mret None
  | Some v =>
      t ← get_tracker v ;
      assertM (mt_a t <=? addr) ;;
      let offset := u64 (addr - mt_a t) in
      assertM (offset <? mt_s t) ;;
      d ← copy_out (mt_b t) offset size ;
      mret (Some d)
  end.

(** The loop of [writeTextSpace]: what is still to be written at [addr]. *)
Fixpoint write_loop (n : nat) (addr : Z) (data : list Z) : M binaryEdit bool :=
  match n with
  | O => fail FFuel
  | S n' =>
      let to_do := Z.of_nat (length data) in
      if to_do =? 0 then mret true else
      r ← tracker_find addr ;
      match r with
      | None => mret false
      | Some v =>
          t ← get_tracker v ;
          let chunk_end := u64 (mt_a t + mt_s t) in
          assertM (mt_a t <=? addr) ;;
          let chunk_size := if u64 (addr + to_do) <=? chunk_end then to_do else u32 (chunk_end - addr) in
          let offset := u64 (addr - mt_a t) in
          assertM (offset <? mt_s t) ;;
          b ← copy_in (mt_b t) offset (take (Z.to_nat chunk_size) data) ;
          put_tracker v (mk_tracker (mt_alloced t) true (mt_a t) (mt_s t) b) ;;
          write_loop n' (u64 (addr + chunk_size)) (drop (Z.to_nat chunk_size) data)
      end
  end.

Definition writeTextSpace (addr : Z) (data : list Z) : M binaryEdit bool :=
  markDirty ;; write_loop (S (length data)) addr data.

(** Text and data are one memory here. *)
Definition readDataSpace (addr amount : Z) : M binaryEdit (option (list (option Z))) := readTextSpace addr amount.
Definition writeDataSpace (addr : Z) (data : list Z) : M binaryEdit bool := writeTextSpace addr data.

(** ** The backing store of the sections *)

(** A region: whether it is bss, its address, size and contents. *)
Record region : Type := mk_region { rg_bss : bool; rg_off : Z; rg_size : Z; rg_data : list Z }.

Definition back_region (r : region) : M binaryEdit unit :=
  if rg_bss r || (rg_size r =? 0) then mret tt else
  if Z.of_nat (length (rg_data r)) <? u32 (rg_size r) then fail FBounds else
  newTracker ← new_tracker (memoryTracker_copy (rg_off r) (u32 (rg_size r)) (rg_data r)) ;
  need_tree ;;
  tracker_insert newTracker.

Definition createMemoryBackingStore (regs : list region) : M binaryEdit bool :=
  forM regs back_region ;; mret true.

End binaryEdit.
