(* ===== verification/BinHeapOk.v ===== *)
(** * The memory of a rewritten binary behaves as memory

    Every live block and every section has a buffer that the tree of ranges finds
    by address; writing changes exactly the addresses written, reading returns what
    was written, and an allocation always succeeds by extending the image. *)
From stdpp Require Import base gmap list sorting.
From S2P Require Import Prelude CodeRange CodeRangeTree CodeRangeMap InfHeap InfHeapOk BinHeap.
Import infHeap binaryEdit.

(** ** Well-formed images *)

Definition bfree (b : binaryEdit) : list heapItem := free_of (be_space b).
Definition bactive (b : binaryEdit) : gmap Z heapItem := active_of (be_space b).
Definition bblocks (b : binaryEdit) : list heapItem := blocks (be_space b).

(** The tracker [o] with start address [k]. *)
Definition tracks (objs : gmap Z memoryTracker) (m : gmap Z Z) (k v : Z) (o : memoryTracker) : Prop :=
  m !! k = Some v /\ objs !! v = Some o.

Record tracker_ok (high k : Z) (o : memoryTracker) : Prop := {
  tk_addr : mt_a o = k;
  tk_pos : 0 < k;
  tk_size : 0 < mt_s o;
  tk_end : k + mt_s o <= high;
  tk_buf : Z.of_nat (length (mt_b o)) = mt_s o
}.

(** The trackers as a whole. *)
Record trackers_ok (high next : Z) (objs : gmap Z memoryTracker) (m : gmap Z Z) : Prop := {
  ts_obj : forall k v, m !! k = Some v -> exists o, objs !! v = Some o /\ tracker_ok high k o;
  ts_next : forall v, is_Some (objs !! v) -> v < next;
  ts_apart : forall k1 v1 o1 k2 v2 o2, tracks objs m k1 v1 o1 -> tracks objs m k2 v2 o2 -> k1 < k2 -> k1 + mt_s o1 <= k2
}.

Record bin_ok (b : binaryEdit) (m : gmap Z Z) : Prop := {
  bo_heap : heap_ok (be_space b);
  bo_type : forall h, h ∈ bblocks b -> hi_type h = anyHeap;
  bo_end : forall h, h ∈ bblocks b -> end_of h <= be_highWaterMark b;
  bo_high : 0 < be_highWaterMark b < 2 ^ 64;
  bo_tree : match be_memoryTracker b with Some t => is_range t m | None => m = ∅ end;
  bo_trackers : trackers_ok (be_highWaterMark b) (be_next b) (be_objs b) m;
  bo_free : forall k v o x, tracks (be_objs b) m k v o -> k <= x < k + mt_s o -> owners (bfree b) x = 0;
  bo_live : forall a h, bactive b !! a = Some h -> exists v o, tracks (be_objs b) m a v o /\ mt_alloced o = true /\ mt_s o < 2 ^ 31 /\
    forall k w p, tracks (be_objs b) m k w p -> k <> a -> k + mt_s p <= a \/ a + hi_length h <= k;
  bo_width : be_width b = 4 \/ be_width b = 8
}.

(** The byte at an address. *)
Definition holds (b : binaryEdit) (m : gmap Z Z) (x : Z) (c : option Z) : Prop :=
  exists k v o, tracks (be_objs b) m k v o /\ k <= x < k + mt_s o /\ mt_b o !! Z.to_nat (x - k) = Some c.

Lemma ranges_disjoint high next objs m : high < 2 ^ 64 -> trackers_ok high next objs m -> @disjoint_ranges (ranges objs) m.
Proof.
  intros Hh [T1 T2 T3]. split; simpl.
  - intros k v Hk. destruct (T1 k v Hk) as (o & Ho & [K1 K2 K3 K4 K5]). rewrite Ho. split_and!; lia.
  - intros k1 v1 k2 v2 H1 H2 Hlt. destruct (T1 _ _ H1) as (o1 & Ho1 & _), (T1 _ _ H2) as (o2 & Ho2 & _). rewrite Ho1.
    by apply (T3 k1 v1 o1 k2 v2 o2).
Qed.

Lemma set_tracker_same b : set_tracker (be_memoryTracker b) b = b.
Proof. by destruct b. Qed.

(** Two trackers that share an address are one. *)
Lemma tracks_unique high next objs m k1 v1 o1 k2 v2 o2 x :
  trackers_ok high next objs m -> tracks objs m k1 v1 o1 -> tracks objs m k2 v2 o2 ->
  k1 <= x < k1 + mt_s o1 -> k2 <= x < k2 + mt_s o2 -> k1 = k2 /\ v1 = v2 /\ o1 = o2.
Proof.
  intros [_ _ T3] H1 H2 X1 X2. destruct (Z.lt_trichotomy k1 k2) as [Hlt|[->|Hgt]].
  - pose proof (T3 _ _ _ _ _ _ H1 H2 Hlt). lia.
  - destruct H1 as [A1 B1], H2 as [A2 B2]. rewrite A1 in A2. injection A2 as ->. rewrite B1 in B2. by injection B2 as ->.
  - pose proof (T3 _ _ _ _ _ _ H2 H1 Hgt). lia.
Qed.

(** Looking an address up. *)
Lemma tracker_find_run b m t addr :
  be_memoryTracker b = Some t -> is_range t m -> be_highWaterMark b < 2 ^ 64 ->
  trackers_ok (be_highWaterMark b) (be_next b) (be_objs b) m ->
  exists r, tracker_find addr b = Ret (r, b) /\
    match r with
    | Some v => exists k o, tracks (be_objs b) m k v o /\ tracker_ok (be_highWaterMark b) k o /\ k <= addr < k + mt_s o
    | None => forall k v o, tracks (be_objs b) m k v o -> ~ (k <= addr < k + mt_s o)
    end.
Proof.
  intros Et HM Hh HT. destruct (@find_range (ranges (be_objs b)) t m addr HM (ranges_disjoint _ _ _ _ Hh HT)) as (r & E & Hr).
  exists r. split.
  - unfold tracker_find, on_tree. rewrite Et, E. by rewrite <- Et, set_tracker_same.
  - pose proof HT as [T1 T2 T3]. destruct r as [v|].
    + destruct (proj1 (Hr v) eq_refl) as [Hk [C1 C2]]. destruct (T1 _ _ Hk) as (o & Ho & HK). pose proof HK as [K1 K2 K3 K4 K5].
      simpl in Hk, C1, C2, HK, K1. rewrite Ho in *. exists (mt_a o), o. split; [done|]. split; [done|]. lia.
    + intros k v o [Hk Ho] Hx. destruct (T1 _ _ Hk) as (o' & Ho' & [K1 K2 K3 K4 K5]). rewrite Ho in Ho'. injection Ho' as <-.
      assert (None = Some v) as ?; [|done]. apply Hr. unfold covers. simpl. rewrite Ho, K1. split_and!; [done|lia|left; lia].
Qed.

(** ** Writing *)

(** Writing changes the contents of trackers only. *)
Definition same_tracker (o o' : memoryTracker) : Prop :=
  mt_a o' = mt_a o /\ mt_s o' = mt_s o /\ mt_alloced o' = mt_alloced o /\ length (mt_b o') = length (mt_b o).
Definition same_shape (objs objs' : gmap Z memoryTracker) : Prop := forall v, option_Forall2 same_tracker (objs !! v) (objs' !! v).

Lemma same_shape_refl objs : same_shape objs objs.
Proof. intros v. destruct (objs !! v); constructor. by split_and!. Qed.
Lemma same_shape_trans o1 o2 o3 : same_shape o1 o2 -> same_shape o2 o3 -> same_shape o1 o3.
Proof.
  intros H1 H2 v. assert (Transitive same_tracker) as Htr.
  { intros x y z (A1 & A2 & A3 & A4) (B1 & B2 & B3 & B4). split_and!; congruence. }
  by transitivity (o2 !! v).
Qed.
Lemma same_shape_insert objs v o o' : objs !! v = Some o -> same_tracker o o' -> same_shape objs (<[v := o']> objs).
Proof.
  intros Ho HS w. rewrite lookup_insert. case_decide as E; [subst; rewrite Ho; by constructor|].
  destruct (objs !! w); constructor. by split_and!.
Qed.
Lemma same_shape_tracks objs objs' m k v o' :
  same_shape objs objs' -> tracks objs' m k v o' -> exists o, tracks objs m k v o /\ same_tracker o o'.
Proof.
  intros HS [Hm Ho]. specialize (HS v). rewrite Ho in HS. inversion HS as [o x Hx E|]; subst. exists o. by split.
Qed.
Lemma same_shape_tracks' objs objs' m k v o :
  same_shape objs objs' -> tracks objs m k v o -> exists o', tracks objs' m k v o' /\ same_tracker o o'.
Proof.
  intros HS [Hm Ho]. specialize (HS v). rewrite Ho in HS. inversion HS as [x o' Hx E E'|]; subst. exists o'. by split.
Qed.

Lemma trackers_ok_shape high next objs objs' m :
  same_shape objs objs' -> trackers_ok high next objs m -> trackers_ok high next objs' m.
Proof.
  intros HS [T1 T2 T3]. split.
  - intros k v Hk. destruct (T1 k v Hk) as (o & Ho & [K1 K2 K3 K4 K5]).
    destruct (same_shape_tracks' _ _ m k v o HS (conj Hk Ho)) as (o' & [_ Ho'] & (A1 & A2 & A3 & A4)). exists o'. split; [done|]. split; lia.
  - intros v [o' Ho']. apply T2. specialize (HS v). rewrite Ho' in HS. inversion HS; subst. eauto.
  - intros k1 v1 o1 k2 v2 o2 H1 H2 Hlt. destruct (same_shape_tracks _ _ _ _ _ _ HS H1) as (p1 & Q1 & (_ & A2 & _)).
    destruct (same_shape_tracks _ _ _ _ _ _ HS H2) as (p2 & Q2 & _). rewrite A2. by apply (T3 _ _ _ _ _ _ Q1 Q2).
Qed.

Lemma bin_ok_shape b m objs' d :
  bin_ok b m -> same_shape (be_objs b) objs' ->
  bin_ok (mk_edit (be_space b) (be_width b) (be_lowWaterMark b) (be_highWaterMark b) (be_memoryTracker b) objs' (be_next b) d) m.
Proof.
  intros [B1 B2 B3 B4 B5 B6 B7 B8 B9] HS. split; simpl; try done.
  - by eapply trackers_ok_shape.
  - intros k v o x Ht Hx. destruct (same_shape_tracks _ _ _ _ _ _ HS Ht) as (p & Q & (_ & A2 & _)). apply (B7 k v p); [done|lia].
  - intros a h Ha. destruct (B8 a h Ha) as (v & o & Ht & Hal & Hs & Hap).
    destruct (same_shape_tracks' _ _ _ _ _ _ HS Ht) as (o' & Ht' & (_ & A2 & A3 & _)). exists v, o'. split_and!; [done|congruence|lia|].
    intros k w p Hp Hne. destruct (same_shape_tracks _ _ _ _ _ _ HS Hp) as (p0 & Hp0 & (_ & C2 & _)). rewrite C2. by apply (Hap k w p0).
Qed.

(** The addresses in use, and the contents after [data] was written at [addr]. *)
Definition mapped (b : binaryEdit) (m : gmap Z Z) (x : Z) : Prop :=
  exists k v o, tracks (be_objs b) m k v o /\ k <= x < k + mt_s o.

Definition written (b : binaryEdit) (m : gmap Z Z) (addr : Z) (data : list Z) (b' : binaryEdit) : Prop :=
  forall x c, holds b' m x c <->
    (if decide (addr <= x < addr + Z.of_nat (length data)) then c = data !! Z.to_nat (x - addr) else holds b m x c).

(** The image after a write: the trackers with other contents. *)
Definition with_objs (b : binaryEdit) (objs : gmap Z memoryTracker) : binaryEdit :=
  mk_edit (be_space b) (be_width b) (be_lowWaterMark b) (be_highWaterMark b) (be_memoryTracker b) objs (be_next b) (be_dirty b).

Definition fill_tracker (o : memoryTracker) (off : nat) (d : list Z) : memoryTracker :=
  mk_tracker (mt_alloced o) true (mt_a o) (mt_s o) (list_inserts off (Some <$> d) (mt_b o)).

Lemma fill_same o off d : same_tracker o (fill_tracker o off d).
Proof. split_and!; try done. simpl. by rewrite length_inserts. Qed.

Lemma chunk_written b m k v o addr d :
  trackers_ok (be_highWaterMark b) (be_next b) (be_objs b) m -> tracks (be_objs b) m k v o -> tracker_ok (be_highWaterMark b) k o ->
  k <= addr -> addr + Z.of_nat (length d) <= k + mt_s o ->
  written b m addr d (with_objs b (<[v := fill_tracker o (Z.to_nat (addr - k)) d]> (be_objs b))).
Proof.
  intros HT Ht [K1 K2 K3 K4 K5] Hk He x c. set (o' := fill_tracker _ _ _). unfold holds, with_objs. simpl. pose proof Ht as [Hm Ho].
  assert (forall k2 v2 o2, tracks (<[v := o']> (be_objs b)) m k2 v2 o2 ->
    (k2 = k /\ v2 = v /\ o2 = o') \/ (k2 <> k /\ tracks (be_objs b) m k2 v2 o2)) as Hcase.
  { intros k2 v2 o2 [Hm2 Ho2]. destruct (ts_obj _ _ _ _ HT _ _ Hm2) as (p & Hp & [P1 _ _ _ _]). rewrite lookup_insert in Ho2.
    case_decide as Ev; [|right; split; [|done]; congruence]. left. subst v2. rewrite Ho in Hp. injection Hp as <-. split_and!; congruence. }
  assert (tracks (<[v := o']> (be_objs b)) m k v o') as Hself by (split; [done|by rewrite lookup_insert_eq]).
  assert (forall j, mt_b o' !! j = if decide (Z.to_nat (addr - k) <= j < Z.to_nat (addr - k) + length d)%nat
    then Some <$> d !! (j - Z.to_nat (addr - k))%nat else mt_b o !! j) as Hj.
  { intros j. unfold o', fill_tracker. simpl. case_decide as Hd.
    - rewrite list_lookup_inserts by (rewrite ?length_fmap; lia). by rewrite list_lookup_fmap.
    - destruct (decide (j < Z.to_nat (addr - k))%nat); [by rewrite list_lookup_inserts_lt|].
      rewrite list_lookup_inserts_ge; [done|]. rewrite length_fmap. lia. }
  split.
  - intros (k2 & v2 & o2 & Ht2 & Hx & Hc). destruct (Hcase _ _ _ Ht2) as [(-> & -> & ->)|[Hne Ht2']].
    + rewrite Hj in Hc. case_decide as Hd; case_decide as Hd2; simpl in Hx; try lia.
      * replace (Z.to_nat (x - addr)) with (Z.to_nat (x - k) - Z.to_nat (addr - k))%nat by lia.
        destruct (d !! _) as [z|]; [|done]. by injection Hc as <-.
      * exists k, v, o. split; [done|]. split; [lia|done].
    + case_decide as Hd; [|by exists k2, v2, o2]. exfalso. apply Hne.
      destruct (tracks_unique _ _ _ _ _ _ _ _ _ _ x HT Ht2' Ht Hx) as [-> _]; [lia|done].
  - case_decide as Hd.
    + intros ->. exists k, v, o'. split; [done|]. split; [simpl; lia|]. rewrite Hj, decide_True by lia.
      replace (Z.to_nat (x - k) - Z.to_nat (addr - k))%nat with (Z.to_nat (x - addr)) by lia.
      destruct (lookup_lt_is_Some_2 d (Z.to_nat (x - addr))) as [z ->]; [lia|done].
    + intros (k2 & v2 & o2 & Ht2 & Hx & Hc). destruct (decide (k2 = k)) as [->|Hne].
      * destruct Ht2 as [A B]. rewrite Hm in A. injection A as <-. rewrite Ho in B. injection B as <-. exists k, v, o'.
        split; [done|]. split; [done|]. rewrite Hj, decide_False by lia. done.
      * exists k2, v2, o2. split; [|by split]. destruct Ht2 as [A B]. split; [done|]. rewrite lookup_insert_ne; [done|]. intros ->.
        rewrite Ho in B. injection B as <-. apply Hne. destruct (ts_obj _ _ _ _ HT _ _ A) as (p & Hp & [P1 _ _ _ _]). congruence.
Qed.

Lemma written_app b m addr d1 d2 b1 b2 :
  written b m addr d1 b1 -> written b1 m (addr + Z.of_nat (length d1)) d2 b2 -> written b m addr (d1 ++ d2) b2.
Proof.
  intros H1 H2 x c. rewrite (H2 x c), length_app. case_decide as E2.
  - rewrite decide_True by lia. rewrite lookup_app_r by lia.
    replace (Z.to_nat (x - addr) - length d1)%nat with (Z.to_nat (x - (addr + Z.of_nat (length d1)))) by lia. done.
  - rewrite (H1 x c). case_decide as E1; [|by rewrite decide_False by lia]. rewrite decide_True by lia. by rewrite lookup_app_l by lia.
Qed.

Lemma mapped_shape b objs' m x : same_shape (be_objs b) objs' -> mapped (with_objs b objs') m x <-> mapped b m x.
Proof.
  intros HS. split; intros (k & v & o & Ht & Hx).
  - destruct (same_shape_tracks _ _ _ _ _ _ HS Ht) as (p & Q & (_ & A2 & _)). exists k, v, p. split; [done|lia].
  - destruct (same_shape_tracks' _ _ _ _ _ _ HS Ht) as (p & Q & (_ & A2 & _)). exists k, v, p. split; [done|lia].
Qed.

(** The image as far as reading and writing use it. *)
Record image_ok (b : binaryEdit) (m : gmap Z Z) : Prop := {
  im_tree : exists t, be_memoryTracker b = Some t /\ is_range t m;
  im_high : be_highWaterMark b < 2 ^ 64;
  im_trackers : trackers_ok (be_highWaterMark b) (be_next b) (be_objs b) m
}.

Lemma image_shape b m objs' : image_ok b m -> same_shape (be_objs b) objs' -> image_ok (with_objs b objs') m.
Proof. intros [I1 I2 I3] HS. split; simpl; try done. by eapply trackers_ok_shape. Qed.

Lemma get_tracker_run b v o : be_objs b !! v = Some o -> get_tracker v b = Ret (o, b).
Proof. intros E. unfold get_tracker. by rewrite E. Qed.

Lemma copy_in_run b buf off d :
  0 <= off -> off + Z.of_nat (length d) <= Z.of_nat (length buf) ->
  copy_in buf off d b = Ret (list_inserts (Z.to_nat off) (Some <$> d) buf, b).
Proof. intros H1 H2. unfold copy_in. by rewrite (proj2 (Z.leb_le _ _) H1), (proj2 (Z.leb_le _ _) H2). Qed.

(** One round of the loop: the part of [data] that the range of [addr] takes. *)
Lemma write_round n b m addr data :
  image_ok b m -> 0 <= addr -> addr + Z.of_nat (length data) < 2 ^ 64 -> Z.of_nat (length data) < 2 ^ 32 -> data <> [] ->
  (write_loop (S n) addr data b = Ret (false, b) /\ ~ mapped b m addr) \/
  (exists j objs', (0 < j <= length data)%nat /\ same_shape (be_objs b) objs' /\
     write_loop (S n) addr data b = write_loop n (addr + Z.of_nat j) (drop j data) (with_objs b objs') /\
     written b m addr (take j data) (with_objs b objs') /\ forall x, addr <= x < addr + Z.of_nat j -> mapped b m x).
Proof.
  intros HI Ha Hlen H32 Hne. assert (0 < Z.of_nat (length data)) as Hpos by (destruct data; [done|simpl; lia]).
  destruct HI as [(t & Et & HM) Hh HT]. cbn [write_loop].
  rewrite (proj2 (Z.eqb_neq (Z.of_nat (length data)) 0)) by lia.
  destruct (tracker_find_run b m t addr Et HM Hh HT) as (r & E & Hr). rewrite (bind_ret _ _ _ _ _ E). destruct r as [v|].
  2:{ left. split; [done|]. intros (k & v & o & Ht & Hx). by apply (Hr k v o). }
  right. destruct Hr as (k & o & Ht & HK & Hx). pose proof HK as [K1 K2 K3 K4 K5]. pose proof Ht as [Hm Ho].
  rewrite (bind_ret _ _ _ _ _ (get_tracker_run _ _ _ Ho)). rewrite K1, (u64_id (k + mt_s o)), (u64_id (addr + Z.of_nat (length data))), (u64_id (addr - k)) by lia.
  rewrite (bind_ret _ _ _ tt b) by (unfold assertM; by rewrite (proj2 (Z.leb_le k addr)) by lia).
  set (cs := if addr + Z.of_nat (length data) <=? k + mt_s o then _ else _).
  assert (0 < cs <= Z.of_nat (length data) /\ addr + cs <= k + mt_s o) as [Hcs Hce].
  { unfold cs. destruct (Z.leb_spec (addr + Z.of_nat (length data)) (k + mt_s o)); [lia|]. rewrite u32_id by lia. lia. }
  clearbody cs. rewrite (bind_ret _ _ _ tt b) by (unfold assertM; by rewrite (proj2 (Z.ltb_lt (addr - k) (mt_s o))) by lia).
  assert (length (take (Z.to_nat cs) data) = Z.to_nat cs) as Hl by (rewrite length_take; lia).
  rewrite (bind_ret _ _ _ _ _ (copy_in_run b (mt_b o) (addr - k) (take (Z.to_nat cs) data) ltac:(lia) ltac:(rewrite Hl; lia))).
  exists (Z.to_nat cs), (<[v := fill_tracker o (Z.to_nat (addr - k)) (take (Z.to_nat cs) data)]> (be_objs b)).
  split; [lia|]. split; [by eapply same_shape_insert, fill_same|]. split; [|split].
  - rewrite u64_id by lia. rewrite Z2Nat.id by lia. unfold fill_tracker. rewrite K1. done.
  - apply chunk_written; try done; lia.
  - intros x Hx'. exists k, v, o. split; [done|lia].
Qed.

(** The loop writes the longest prefix of [data] whose addresses are in use. *)
Lemma write_loop_run n : forall b m addr data,
  image_ok b m -> 0 <= addr -> addr + Z.of_nat (length data) < 2 ^ 64 -> Z.of_nat (length data) < 2 ^ 32 -> (length data < n)%nat ->
  exists j objs', (j <= length data)%nat /\ write_loop n addr data b = Ret (bool_decide (j = length data), with_objs b objs') /\
    same_shape (be_objs b) objs' /\ written b m addr (take j data) (with_objs b objs') /\
    (forall x, addr <= x < addr + Z.of_nat j -> mapped b m x) /\ ((j < length data)%nat -> ~ mapped b m (addr + Z.of_nat j)).
Proof.
  induction n as [|n IH]; intros b m addr data HI Ha Hlen H32 Hn; [lia|]. destruct (decide (data = [])) as [->|Hne].
  { exists 0%nat, (be_objs b). split_and!; [done|by destruct b|apply same_shape_refl| |lia|simpl; lia].
    intros x c. rewrite decide_False by (simpl; lia). by destruct b. }
  destruct (write_round n b m addr data HI Ha Hlen H32 Hne) as [[E Hnm]|(i & objs1 & Hi & HS & E & HW & Hmap)]; rewrite E.
  { exists 0%nat, (be_objs b). split_and!; [lia| |apply same_shape_refl| |lia|by rewrite Z.add_0_r].
    - rewrite bool_decide_false by (destruct data; done). by destruct b.
    - intros x c. rewrite decide_False by (simpl; lia). by destruct b. }
  destruct (IH (with_objs b objs1) m (addr + Z.of_nat i) (drop i data)) as (j & objs2 & Hj & E2 & HS2 & HW2 & Hm2 & Hn2);
    rewrite ?length_drop in *; [by apply image_shape|lia|lia|lia|lia|].
  exists (i + j)%nat, objs2. rewrite E2. split_and!; [lia| |by eapply same_shape_trans| | |].
  - do 2 f_equal. apply bool_decide_ext. lia.
  - rewrite <- (take_take_drop data i j). eapply written_app; [exact HW|]. rewrite length_take. by replace (i `min` length data)%nat with i by lia.
  - intros x Hx. destruct (decide (x < addr + Z.of_nat i)); [apply Hmap; lia|]. apply (mapped_shape b objs1 m _ HS), Hm2. lia.
  - intros Hlt Hx. apply Hn2; [lia|]. apply (mapped_shape b objs1 m _ HS). by replace (addr + Z.of_nat i + Z.of_nat j) with (addr + Z.of_nat (i + j)) by lia.
Qed.

(** ** Reading *)

Lemma readTextSpace_run b m k v o addr n :
  image_ok b m -> tracks (be_objs b) m k v o -> k <= addr < k + mt_s o -> 0 <= n -> addr + n <= k + mt_s o ->
  readTextSpace addr n b = Ret (Some (take (Z.to_nat n) (drop (Z.to_nat (addr - k)) (mt_b o))), b).
Proof.
  intros [(t & Et & HM) Hh HT] Ht Hx Hn He. unfold readTextSpace.
  destruct (tracker_find_run b m t addr Et HM Hh HT) as (r & E & Hr). rewrite (bind_ret _ _ _ _ _ E).
  destruct r as [w|]; [|exfalso; by apply (Hr k v o)]. destruct Hr as (k2 & o2 & Ht2 & HK & Hx2).
  destruct (tracks_unique _ _ _ _ _ _ _ _ _ _ addr HT Ht2 Ht Hx2 Hx) as (-> & -> & ->). pose proof Ht as [_ Ho]. destruct HK as [K1 K2 K3 K4 K5].
  rewrite (bind_ret _ _ _ _ _ (get_tracker_run _ _ _ Ho)), K1, u64_id by lia.
  rewrite (bind_ret _ _ _ tt b) by (unfold assertM; by rewrite (proj2 (Z.leb_le k addr)) by lia).
  rewrite (bind_ret _ _ _ tt b) by (unfold assertM; by rewrite (proj2 (Z.ltb_lt (addr - k) (mt_s o))) by lia).
  rewrite (bind_ret _ _ _ (take (Z.to_nat n) (drop (Z.to_nat (addr - k)) (mt_b o))) b); [done|]. unfold copy_out.
  by rewrite (proj2 (Z.leb_le _ _)), (proj2 (Z.leb_le _ _)) by lia.
Qed.

Lemma holds_list b m k v o addr (d : list Z) :
  trackers_ok (be_highWaterMark b) (be_next b) (be_objs b) m -> tracks (be_objs b) m k v o -> k <= addr -> addr + Z.of_nat (length d) <= k + mt_s o ->
  (forall x c, addr <= x < addr + Z.of_nat (length d) -> holds b m x c -> c = d !! Z.to_nat (x - addr)) ->
  take (length d) (drop (Z.to_nat (addr - k)) (mt_b o)) = Some <$> d.
Proof.
  intros HT Ht Hk He Hh. destruct (ts_obj _ _ _ _ HT k v (proj1 Ht)) as (o' & Ho' & [K1 K2 K3 K4 K5]).
  rewrite (proj2 Ht) in Ho'. injection Ho' as <-. apply list_eq. intros i. rewrite list_lookup_fmap. destruct (decide (i < length d)%nat) as [Hi|Hi].
  - rewrite lookup_take_lt, lookup_drop by done. destruct (lookup_lt_is_Some_2 (mt_b o) (Z.to_nat (addr - k) + i)) as [c Hc]; [lia|].
    rewrite Hc. assert (c = d !! i) as ->.
    { replace i with (Z.to_nat (addr + Z.of_nat i - addr)) by lia. apply Hh; [lia|]. exists k, v, o. split; [done|]. split; [lia|].
      replace (Z.to_nat (addr + Z.of_nat i - k)) with (Z.to_nat (addr - k) + i)%nat by lia. done. }
    by destruct (lookup_lt_is_Some_2 d i Hi) as [z ->].
  - rewrite lookup_take_ge by lia. by rewrite lookup_ge_None_2 by lia.
Qed.

(** ** Allocation *)

(** Changing the heap under the trackers. *)
Lemma bin_ok_space b m s' high' :
  bin_ok b m -> heap_ok s' -> (forall h, h ∈ blocks s' -> hi_type h = anyHeap /\ end_of h <= high') ->
  active_of s' = bactive b -> be_highWaterMark b <= high' < 2 ^ 64 ->
  (forall x, x < be_highWaterMark b -> owners (free_of s') x = owners (bfree b) x) ->
  bin_ok (mk_edit s' (be_width b) (be_lowWaterMark b) high' (be_memoryTracker b) (be_objs b) (be_next b) (be_dirty b)) m.
Proof.
  intros [B1 B2 B3 B4 B5 B6 B7 B8 B9] HO HB Ha Hh Hf. split; simpl; try done.
  - intros h Hh'. by apply HB.
  - intros h Hh'. by apply HB.
  - lia.
  - destruct B6 as [T1 T2 T3]. split; try done. intros k v Hk. destruct (T1 k v Hk) as (o & Ho & []). exists o. split; [done|]. split; try done. lia.
  - intros k v o x Ht Hx. unfold bfree. simpl. rewrite Hf; [by apply (B7 k v o)|].
    destruct (ts_obj _ _ _ _ B6 k v (proj1 Ht)) as (o' & Ho' & [K1 K2 K3 K4 K5]). rewrite (proj2 Ht) in Ho'. injection Ho' as <-. lia.
  - intros a h. unfold bactive. simpl. rewrite Ha. apply B8.
Qed.

Lemma lift_edit {A} (m : M addressSpace A) (b : binaryEdit) a s' : m (be_space b) = Ret (a, s') -> lift m b = Ret (a, eput s' b).
Proof. intros E. unfold lift. simpl. by rewrite E. Qed.

Lemma elem_blocks s h : h ∈ blocks s <-> h ∈ free_of s \/ exists a, active_of s !! a = Some h.
Proof. unfold blocks. by rewrite elem_of_app, elem_of_items. Qed.

Lemma compact_edit b m : bin_ok b m -> exists s', lift inferiorFreeCompact b = Ret (tt, eput s' b) /\ bin_ok (eput s' b) m /\
  active_of s' = bactive b /\ bytes (blocks s') = bytes (bblocks b).
Proof.
  intros HB. pose proof (bo_heap _ _ HB) as HO. destruct (inferiorFreeCompact_run _ HO) as (s' & E & [C1 [C2 C3] C4 C5 C6 C7 C8]).
  exists s'. split; [by apply lift_edit|]. split; [|done]. apply bin_ok_space; try done.
  - intros h [Hh|[a Ha]]%elem_blocks.
    + destruct (C6 h Hh) as (h' & Hh' & -> & ->). assert (h' ∈ bblocks b) by (apply elem_blocks; by left).
      split; [by apply (bo_type _ _ HB)|by apply (bo_end _ _ HB)].
    + rewrite C4 in Ha. assert (h ∈ bblocks b) by (apply elem_blocks; right; eauto). split; [by apply (bo_type _ _ HB)|by apply (bo_end _ _ HB)].
  - destruct (bo_high _ _ HB). lia.
  - intros x _. specialize (C2 x). unfold blocks in C2. rewrite !zsum_app, C4 in C2. unfold bfree. lia.
Qed.

Lemma find_ending_spec l a : forall i,
  Forall (item_ok HEAPfree) l ->
  match find_ending l i a with
  | Some (j, h) => exists l1 l2, l = l1 ++ h :: l2 /\ j = (i + length l1)%nat /\ end_of h = a
  | None => forall h, h ∈ l -> end_of h <> a
  end.
Proof.
  induction l as [|h l IH]; intros i HF; simpl; [intros h Hh; by apply elem_of_nil in Hh|].
  apply Forall_cons in HF as [[I1 I2 I3 I4] HF]. change (hi_addr h + hi_length h) with (end_of h). rewrite u64_id by (unfold end_of in *; lia).
  destruct (Z.eqb_spec (end_of h) a) as [Ea|Ea]; [by exists [], l; split_and!; [|simpl; lia|]|].
  specialize (IH (S i) HF). destruct (find_ending l (S i) a) as [[j g]|].
  - destruct IH as (l1 & l2 & -> & -> & Hg). exists (h :: l1), l2. simpl. split_and!; [done|lia|done].
  - intros g [->|Hg]%elem_of_cons; auto.
Qed.

(** A heap whose last free block grows to the new end of the image. *)
Lemma grow_last s l1 h l2 size :
  heap_ok s -> free_of s = l1 ++ h :: l2 -> 0 < size -> bytes (blocks s) + size < 2 ^ 31 -> end_of h + size < 2 ^ 64 ->
  (forall g, g ∈ blocks s -> end_of g <= end_of h) ->
  let s' := put_heap s (active_of s) (l1 ++ with_length h (hi_length h + size) :: l2) (totalFreeMemAvailable (heap_ s)) (freed (heap_ s)) in
  heap_ok s' /\ (forall x, owners (free_of s') x = owners (free_of s) x + if decide (end_of h <= x < end_of h + size) then 1 else 0) /\
  bytes (blocks s') = bytes (blocks s) + size.
Proof.
  intros HO El Hs Hb He Htop s'. assert (h ∈ free_of s) as Hin by (rewrite El; set_solver).
  pose proof (proj1 (Forall_forall _ _) (ho_free s HO) h Hin) as [I1 I2 I3 I4].
  assert (forall x, owners (free_of s') x = owners (free_of s) x + if decide (end_of h <= x < end_of h + size) then 1 else 0) as Hown.
  { intros x. unfold s', free_of at 1, put_heap. simpl. rewrite El, !zsum_app, !zsum_cons.
    assert (owns x (with_length h (hi_length h + size)) = owns x h + if decide (end_of h <= x < end_of h + size) then 1 else 0) by own_solve. lia. }
  assert (bytes (blocks s') = bytes (blocks s) + size) as Hby.
  { unfold s', blocks, free_of, active_of, put_heap. simpl. fold (free_of s) (active_of s). rewrite El, !zsum_app, !zsum_cons. simpl. lia. }
  assert (forall x, end_of h <= x -> owners (blocks s) x = 0) as Hzero.
  { intros x Hx. assert (forall l, (forall g, g ∈ l -> end_of g <= end_of h) -> owners l x = 0) as Hl; [|by apply Hl].
    induction l as [|g l IH]; intros Hl; [done|]. rewrite zsum_cons, owns_out; [apply IH; intros; apply Hl; by right|].
    specialize (Hl g ltac:(by left)). lia. }
  split; [|by split]. split.
  - unfold s', free_of, put_heap. simpl. pose proof (ho_free s HO) as HF. rewrite El in HF. apply Forall_app in HF as [F1 F2].
    apply Forall_cons in F2 as [_ F2]. apply Forall_app. split; [done|]. constructor; [|done]. split; unfold end_of in *; simpl; try done; lia.
  - apply (ho_active s HO).
  - intros x. unfold blocks. rewrite zsum_app, Hown. change (active_of s') with (active_of s). pose proof (ho_once s HO x) as H1.
    specialize (Hzero x). unfold blocks in H1, Hzero. rewrite zsum_app in H1, Hzero. case_decide as Hd; [|lia]. specialize (Hzero ltac:(lia)).
    pose proof (owners_nonneg (free_of s) x). pose proof (owners_nonneg (items_of (active_of s)) x). lia.
  - rewrite Hby. done.
  - unfold s', free_of, put_heap. simpl. destruct (free_sorted_split s l1 h l2 HO El) as (G1 & G2 & G3). apply sorted_between; [done| |]; simpl.
    + intros g Hg. specialize (G1 g Hg). pose proof (proj1 (Forall_forall _ _) (ho_free s HO) g ltac:(rewrite El; set_solver)) as [? ? ? ?].
      unfold end_of in *. lia.
    + intros g Hg. specialize (G2 g Hg). unfold end_of in *. lia.
Qed.

Lemma owners_above l x a : (forall g, g ∈ l -> end_of g <= a) -> a <= x -> owners l x = 0.
Proof.
  intros Hl Hx. induction l as [|g l IH]; [done|]. rewrite zsum_cons, owns_out; [apply IH; intros; apply Hl; by right|].
  specialize (Hl g ltac:(by left)). lia.
Qed.

(** The image with a heap and a new end. *)
Definition extend (b : binaryEdit) (s' : addressSpace) (high' : Z) : binaryEdit :=
  mk_edit s' (be_width b) (be_lowWaterMark b) high' (be_memoryTracker b) (be_objs b) (be_next b) (be_dirty b).

(** The image grows by [size] bytes, which one free block can hand out. *)
Lemma inferiorMallocStatic_run b m size :
  bin_ok b m -> 0 < size -> bytes (bblocks b) + size < 2 ^ 31 -> be_highWaterMark b + size < 2 ^ 64 ->
  exists s', inferiorMallocStatic size b = Ret (true, extend b s' (be_highWaterMark b + size)) /\
    bin_ok (extend b s' (be_highWaterMark b + size)) m /\ active_of s' = bactive b /\ bytes (blocks s') = bytes (bblocks b) + size /\
    exists h, h ∈ free_of s' /\ size <= hi_length h.
Proof.
  intros HB Hs Hb Hh. pose proof (bo_heap _ _ HB) as HO. pose proof (bo_high _ _ HB) as Hhi. unfold inferiorMallocStatic. rewrite bind_gets.
  rewrite (bind_ret _ _ _ tt b) by (unfold assertM; by rewrite (proj2 (Z.eqb_neq _ 0)) by lia). rewrite bind_gets. fold (free_of (be_space b)).
  pose proof (find_ending_spec (free_of (be_space b)) (be_highWaterMark b) 0 (ho_free _ HO)) as HF.
  pose proof (heap_bytes _ HO) as (B1 & B2 & B3). assert (bytes (bblocks b) = bytes (free_of (be_space b)) + bytes (items_of (bactive b))) as Hbb
    by (unfold bblocks, blocks; by rewrite zsum_app). unfold bactive in Hbb.
  assert (forall s', heap_ok s' -> active_of s' = bactive b -> (forall g, g ∈ free_of s' -> hi_type g = anyHeap /\ end_of g <= be_highWaterMark b + size) ->
    (forall x, x < be_highWaterMark b -> owners (free_of s') x = owners (bfree b) x) -> bin_ok (extend b s' (be_highWaterMark b + size)) m) as Hok.
  { intros s' HO' Ha Hg Hx. apply bin_ok_space; try done; [|lia]. intros g [Hgf|[a Hga]]%elem_blocks; [auto|]. rewrite Ha in Hga.
    assert (g ∈ bblocks b) as Hgb by (apply elem_blocks; right; eauto). split; [by apply (bo_type _ _ HB)|]. pose proof (bo_end _ _ HB g Hgb). lia. }
  assert (forall g, g ∈ free_of (be_space b) -> hi_type g = anyHeap /\ end_of g <= be_highWaterMark b) as Hfr.
  { intros g Hg. assert (g ∈ bblocks b) as Hgb by (apply elem_blocks; by left). split; [by apply (bo_type _ _ HB)|by apply (bo_end _ _ HB)]. }
  destruct (find_ending (free_of (be_space b)) 0 (be_highWaterMark b)) as [[i h]|].
  - destruct HF as (l1 & l2 & El & -> & He). assert (h ∈ free_of (be_space b)) as Hin by (rewrite El; set_solver).
    pose proof (proj1 (Forall_forall _ _) (ho_free _ HO) h Hin) as [I1 I2 I3 I4]. pose proof (bytes_elem _ _ h (ho_free _ HO) Hin) as Hlen.
    rewrite u32_id by lia. rewrite El, insert_app_r_alt, Nat.add_0_l, Nat.sub_diag by lia. simpl.
    destruct (grow_last (be_space b) l1 h l2 size HO El Hs Hb ltac:(lia)) as (G1 & G2 & G3); [intros g Hg; rewrite He; by apply (bo_end _ _ HB)|].
    set (s' := put_heap _ _ _ _ _) in *. exists s'. split; [|split; [|split; [done|split; [done|]]]].
    + rewrite (bind_ret _ _ _ tt (eput s' b)) by done. unfold modify, mbind, M_bind, mret, M_ret. unfold extend. simpl. by rewrite u64_id by lia.
    + apply Hok; try done.
      * intros g Hg. unfold s', free_of in Hg. simpl in Hg. rewrite elem_of_app, elem_of_cons in Hg. destruct Hg as [Hg|[->|Hg]].
        -- destruct (Hfr g ltac:(rewrite El; set_solver)). split; [done|lia].
        -- simpl. split; [by apply Hfr|]. unfold end_of in *. simpl. lia.
        -- destruct (Hfr g ltac:(rewrite El; set_solver)). split; [done|lia].
      * intros x Hx. rewrite G2, decide_False by lia. unfold bfree. lia.
    + exists (with_length h (hi_length h + size)). split; [unfold s', free_of; simpl; set_solver|simpl; lia].
  - unfold new_heapItem. rewrite u32_id by lia. set (h := mk_item _ _ _ _ _ _).
    destruct (addHeap_run (be_space b) h HO) as (s' & EA & A1 & A2 & A3 & A4 & A5 & A6 & A7).
    { split; unfold end_of; simpl; lia || done. }
    { intros x Hx. apply (owners_above _ x (be_highWaterMark b)); [|unfold h, end_of in Hx; simpl in Hx; lia]. intros g Hg. by apply (bo_end _ _ HB). }
    { simpl. unfold bblocks in Hb. lia. }
    exists s'. split; [|split; [|split; [done|split; [done|]]]].
    + rewrite (bind_ret _ _ _ _ _ (lift_edit _ b _ _ EA)). unfold modify, mbind, M_bind, mret, M_ret. unfold extend. simpl. by rewrite u64_id by lia.
    + apply Hok; try done.
      * intros g. rewrite A3. intros [->|Hg]%elem_of_cons; [split; [done|unfold h, end_of; simpl; lia]|]. destruct (Hfr g Hg). split; [done|lia].
      * intros x Hx. rewrite A3, zsum_cons, owns_out; [done|]. left. simpl. lia.
    + exists h. split; [rewrite A3; by left|simpl; lia].
Qed.

(** The image after a block of [n] bytes at [a] was handed out: the new tracker
    has the next address, and its contents are indeterminate. *)
Record got (b : binaryEdit) (m : gmap Z Z) (a n : Z) (b' : binaryEdit) : Prop := {
  gt_ok : bin_ok b' (<[a := be_next b]> m);
  gt_pos : 0 < a;
  gt_new : bactive b !! a = None /\ m !! a = None;
  gt_active : exists h, bactive b' = <[a := h]> (bactive b) /\ hi_addr h = a /\ hi_length h = n;
  gt_objs : be_objs b' = <[be_next b := mk_tracker true false a n (replicate (Z.to_nat n) None)]> (be_objs b);
  gt_high : be_highWaterMark b' = be_highWaterMark b /\ be_width b' = be_width b;
  gt_bytes : bytes (bblocks b') = bytes (bblocks b)
}.

Lemma allocated_blocks s h n s' g :
  allocated s h n s' -> h ∈ free_of s -> g ∈ items_of (active_of s') -> g = with_status (with_length h n) HEAPallocated \/ g ∈ items_of (active_of s).
Proof.
  intros HA Hin. rewrite (al_active _ _ _ _ HA), !elem_of_items. intros [a Ha]. rewrite lookup_insert in Ha. case_decide; [left; congruence|right; eauto].
Qed.

(** The free blocks of the heap after an allocation lie in free blocks before. *)
Definition inside_free (s s' : addressSpace) : Prop :=
  forall g, g ∈ free_of s' -> exists g', g' ∈ free_of s /\ hi_type g = hi_type g' /\ end_of g = end_of g'.

(** The object [v] enters the tree, which is created when it is missing. *)
Lemma need_insert_run b m v o :
  match be_memoryTracker b with Some t => is_range t m | None => m = ∅ end -> be_objs b !! v = Some o ->
  exists t2, is_range t2 (<[mt_a o := v]> m) /\ (need_tree ;; tracker_insert v) b = Ret (tt, set_tracker (Some t2) b).
Proof.
  intros HM Ho. set (t1 := match be_memoryTracker b with Some t => t | None => codeRangeTree.codeRangeTree_new 1 end).
  assert (is_range t1 m) as HM1.
  { unfold t1. destruct (be_memoryTracker b) as [t|]; [done|]. subst m. by apply codeRangeTree_new_range. }
  destruct (@insert_range (ranges (be_objs b)) t1 m v HM1) as (t2 & EI & HM2). simpl in HM2. rewrite Ho in HM2.
  exists t2. split; [exact HM2|]. unfold need_tree, tracker_insert, on_tree, modify, mbind, M_bind, set_tracker. simpl.
  unfold t1 in EI. destruct (be_memoryTracker b) as [t|] eqn:Et; rewrite ?Et; simpl; rewrite EI; reflexivity.
Qed.

Lemma track_run b m a n s' :
  match be_memoryTracker b with Some t => is_range t m | None => m = ∅ end ->
  exists t2, is_range t2 (<[a := be_next b]> m) /\
    track a n (eput s' b) = Ret (tt, mk_edit s' (be_width b) (be_lowWaterMark b) (be_highWaterMark b) (Some t2)
      (<[be_next b := mk_tracker true false a n (replicate (Z.to_nat n) None)]> (be_objs b)) (be_next b + 1) (be_dirty b)).
Proof.
  intros HM. set (v := be_next b). set (o := mk_tracker true false a n (replicate (Z.to_nat n) None)).
  set (b1 := mk_edit s' (be_width b) (be_lowWaterMark b) (be_highWaterMark b) (be_memoryTracker b) (<[v := o]> (be_objs b)) (be_next b + 1) (be_dirty b)).
  destruct (need_insert_run b1 m v o) as (t2 & HM2 & E); [done|simpl; by rewrite lookup_insert_eq|]. exists t2. split; [exact HM2|]. unfold track.
  rewrite (bind_ret _ _ _ v (mk_edit s' (be_width b) (be_lowWaterMark b) (be_highWaterMark b) (be_memoryTracker b)
    (<[v := memoryTracker_new a n]> (be_objs b)) (be_next b + 1) (be_dirty b))) by done.
  erewrite (bind_ret (get_tracker v)) by (apply get_tracker_run; simpl; by rewrite lookup_insert_eq).
  rewrite (bind_ret _ _ _ tt b1) by (unfold put_tracker, modify, set_objs; simpl; by rewrite insert_insert_eq). exact E.
Qed.

(** A free block is apart from every tracker. *)
Lemma free_untracked b m h n k w p :
  bin_ok b m -> h ∈ bfree b -> 0 < n <= hi_length h -> tracks (be_objs b) m k w p -> k + mt_s p <= hi_addr h \/ hi_addr h + n <= k.
Proof.
  intros HB Hin Hn Ht. pose proof HB as [B1 B2 B3 B4 B5 [T1 T2 T3] B7 B8 B9].
  destruct (T1 k w (proj1 Ht)) as (p' & Hp' & [K1 K2 K3 K4 K5]). rewrite (proj2 Ht) in Hp'. injection Hp' as <-.
  destruct (decide (k + mt_s p <= hi_addr h)); [by left|]. destruct (decide (hi_addr h + n <= k)); [by right|]. exfalso.
  set (x := Z.max k (hi_addr h)). pose proof (B7 k w p x Ht ltac:(lia)) as H0.
  destruct (list_elem_of_split _ _ Hin) as (l1 & l2 & El). rewrite El, zsum_app, zsum_cons, owns_in in H0 by (unfold end_of; lia).
  pose proof (owners_nonneg l1 x). pose proof (owners_nonneg l2 x). lia.
Qed.

(** A new tracker beside the others. *)
Section NewTracker.
Context (high v : Z) (objs : gmap Z memoryTracker) (m : gmap Z Z) (a : Z) (o : memoryTracker).
Context (HT : trackers_ok high v objs m) (HK : tracker_ok high a o).
Context (Hap : forall k w p, tracks objs m k w p -> k + mt_s p <= a \/ a + mt_s o <= k).

Lemma new_tracker_fresh : objs !! v = None /\ m !! a = None.
Proof.
  destruct HT as [T1 T2 T3]. split.
  - destruct (objs !! v) eqn:E; [|done]. specialize (T2 v ltac:(eauto)). lia.
  - destruct (m !! a) as [w|] eqn:E; [|done]. exfalso. destruct (T1 _ _ E) as (p & Hp & []). destruct HK. destruct (Hap a w p (conj E Hp)); lia.
Qed.

Lemma tracks_new k w p :
  tracks (<[v := o]> objs) (<[a := v]> m) k w p <-> (k = a /\ w = v /\ p = o) \/ (k <> a /\ tracks objs m k w p).
Proof.
  destruct new_tracker_fresh as [Hv Hm]. unfold tracks. split.
  - intros [Hk Hp]. rewrite lookup_insert in Hk. case_decide as Ek.
    + left. subst. injection Hk as <-. rewrite lookup_insert_eq in Hp. by injection Hp as <-.
    + right. split; [done|]. split; [done|]. rewrite lookup_insert_ne in Hp; [done|]. intros ->.
      destruct (ts_obj _ _ _ _ HT _ _ Hk) as (p' & Hp' & _). congruence.
  - intros [(-> & -> & ->)|(Hne & Hk & Hp)]; [by rewrite !lookup_insert_eq|]. rewrite !lookup_insert_ne; try done; congruence.
Qed.

Lemma trackers_ok_new : trackers_ok high (v + 1) (<[v := o]> objs) (<[a := v]> m).
Proof.
  pose proof HT as [T1 T2 T3]. split.
  - intros k w Hk. assert (exists p, tracks (<[v := o]> objs) (<[a := v]> m) k w p) as [p Hp].
    { rewrite lookup_insert in Hk. case_decide as Ek.
      - injection Hk as <-. subst k. exists o. split; by rewrite lookup_insert_eq.
      - destruct (T1 _ _ Hk) as (p & Hp & _). exists p. apply tracks_new. right. by split. }
    exists p. split; [apply Hp|]. apply tracks_new in Hp as [(-> & -> & ->)|(Hne & [Hk' Hp])]; [done|].
    destruct (T1 _ _ Hk') as (p' & Hp' & HK'). congruence.
  - intros w [p Hp]. rewrite lookup_insert in Hp. case_decide; [lia|]. specialize (T2 w ltac:(eauto)). lia.
  - intros k1 v1 o1 k2 v2 o2 [(-> & -> & ->)|[N1 H1]]%tracks_new [(-> & -> & ->)|[N2 H2]]%tracks_new Hlt; [lia| | |by eapply T3].
    + destruct (Hap _ _ _ H2) as [Hd|Hd]; [|lia]. destruct (T1 _ _ (proj1 H2)) as (p & Hp & []). rewrite (proj2 H2) in Hp. injection Hp as <-. lia.
    + destruct HK. destruct (Hap _ _ _ H1); lia.
Qed.
End NewTracker.

Lemma got_intro b m h n s' t2 :
  bin_ok b m -> h ∈ bfree b -> 0 < n <= hi_length h -> allocated (be_space b) h n s' -> inside_free (be_space b) s' ->
  is_range t2 (<[hi_addr h := be_next b]> m) ->
  got b m (hi_addr h) n (mk_edit s' (be_width b) (be_lowWaterMark b) (be_highWaterMark b) (Some t2)
    (<[be_next b := mk_tracker true false (hi_addr h) n (replicate (Z.to_nat n) None)]> (be_objs b)) (be_next b + 1) (be_dirty b)).
Proof.
  intros HB Hin Hn HA Hfree HM. pose proof HB as [B1 B2 B3 B4 B5 B6 B7 B8 B9]. set (o := mk_tracker _ _ _ _ _).
  pose proof (proj1 (Forall_forall _ _) (ho_free _ B1) h Hin) as [I1 I2 I3 I4].
  assert (h ∈ bblocks b) as Hbl by (apply elem_blocks; by left). pose proof (B3 h Hbl) as He. unfold end_of in He.
  assert (forall k w p, tracks (be_objs b) m k w p -> k + mt_s p <= hi_addr h \/ hi_addr h + mt_s o <= k) as Hap
    by (intros k w p Ht; by apply (free_untracked b m h n k w p)).
  assert (tracker_ok (be_highWaterMark b) (hi_addr h) o) as HK by (unfold o; split; simpl; rewrite ?length_replicate; lia || done).
  pose proof (tracks_new _ _ _ _ _ _ B6 HK Hap) as Hcase. destruct (new_tracker_fresh _ _ _ _ _ _ B6 HK Hap) as [Hv Hm].
  split; simpl; try done; [|split; [apply HA|done]|exists (with_status (with_length h n) HEAPallocated); split; [apply HA|done]|apply HA].
  split; simpl; try done.
  - apply HA.
  - intros g [Hg|Hg]%elem_of_app; [destruct (Hfree g Hg) as (g' & Hg' & -> & _); apply B2, elem_blocks; by left|].
    apply (allocated_blocks _ _ _ _ _ HA Hin) in Hg as [->|Hg]; [exact (B2 h Hbl)|apply B2, elem_of_app; by right].
  - intros g [Hg|Hg]%elem_of_app; [destruct (Hfree g Hg) as (g' & Hg' & _ & ->); apply B3, elem_blocks; by left|].
    apply (allocated_blocks _ _ _ _ _ HA Hin) in Hg as [->|Hg]; [unfold end_of in *; simpl; lia|apply B3, elem_of_app; by right].
  - by apply trackers_ok_new.
  - intros k w p x Ht Hx. unfold bfree. simpl.
    assert (owners (free_of s') x = owners (bfree b) x - owns x (with_status (with_length h n) HEAPallocated)) as Hown.
    { destruct (al_same _ _ _ _ HA) as [C1 _]. specialize (C1 x). unfold blocks in C1. rewrite !zsum_app in C1.
      rewrite (al_active _ _ _ _ HA), (items_of_insert _ _ _ (al_fresh _ _ _ _ HA)), zsum_cons in C1. unfold bfree. lia. }
    rewrite Hown. pose proof (owners_nonneg (free_of s') x). apply Hcase in Ht as [(-> & -> & ->)|[N Ht]].
    + simpl in Hx. rewrite owns_in in * by (unfold end_of; simpl; lia). pose proof (ho_once _ B1 x) as H1. unfold blocks in H1. rewrite zsum_app in H1.
      pose proof (owners_nonneg (items_of (active_of (be_space b))) x). unfold bfree in *. lia.
    + pose proof (B7 k w p x Ht Hx). destruct (Hap _ _ _ Ht); rewrite owns_out by (unfold end_of; simpl in *; lia); lia.
  - intros a g. unfold bactive. simpl. rewrite (al_active _ _ _ _ HA), lookup_insert. case_decide as Ea.
    + intros [= <-]. subst a. exists (be_next b), o. split; [split; by rewrite lookup_insert_eq|]. split; [done|].
      split; [simpl; pose proof (bytes_elem _ _ h (ho_free _ B1) Hin); pose proof (heap_bytes _ B1) as (? & ? & ?); lia|].
      intros k w p [(-> & _)|[_ Hp]]%Hcase Hne; [done|]. simpl. by apply (Hap k w p).
    + intros Hg. destruct (B8 a g Hg) as (w & p & Ht & Hal & Hs & Hap2). exists w, p. split_and!; [apply Hcase; right; by split|done|done|].
      intros k w' p' [(-> & -> & ->)|[_ Hp]]%Hcase Hne; [|by apply (Hap2 k w')]. simpl. destruct (ho_active _ B1 _ _ Hg) as [Eg _].
      destruct (active_free_apart _ a g h B1 Hg Hin) as [Hd|Hd]; unfold end_of in Hd; lia.
Qed.

Lemma allocated_inside s h n s' : 0 < n <= hi_length h -> allocated s h n s' -> inside_free s s'.
Proof.
  intros Hn HA g Hg. destruct (al_free _ _ _ _ HA) as (l1 & l2 & El & HP). rewrite HP, !elem_of_app in Hg. rewrite El.
  destruct Hg as [Hg|[Hg|Hg]]; [exists g; split; [set_solver|done]| |exists g; split; [set_solver|done]].
  unfold remainder in Hg. destruct (Z.eqb_spec (hi_length h) n); [by apply elem_of_nil in Hg|]. apply list_elem_of_singleton in Hg as ->.
  exists h. split; [set_solver|]. split; [done|]. unfold end_of. simpl. lia.
Qed.

(** An attempt finds a block and tracks it, or nothing fits. *)
Lemma try_internal b m n :
  bin_ok b m -> 0 < n < 2 ^ 31 ->
  (lift (inferiorMallocInternal n ADDRESS_LO ADDRESS_HI anyHeap) b = Ret (0, b) /\ forall h, h ∈ bfree b -> hi_length h < n) \/
  (exists a s' b', lift (inferiorMallocInternal n ADDRESS_LO ADDRESS_HI anyHeap) b = Ret (a, eput s' b) /\ a <> 0 /\
     track a n (eput s' b) = Ret (tt, b') /\ got b m a n b').
Proof.
  intros HB Hn. pose proof (bo_heap _ _ HB) as HO. pose proof (bo_trackers _ _ HB) as HT.
  destruct (inferiorMallocInternal_run (be_space b) n ADDRESS_LO ADDRESS_HI anyHeap HO ltac:(lia)) as [[E Hno]|(h & s' & E & HBf & HA)].
  - left. split; [rewrite (lift_edit _ b _ _ E); by destruct b|]. intros h Hh. specialize (Hno h Hh).
    destruct (decide (hi_length h < n)) as [|Hge]; [done|]. exfalso. revert Hno.
    pose proof (proj1 (Forall_forall _ _) (ho_free _ HO) h Hh) as [I1 I2 I3 I4]. unfold end_of in I3.
    assert (hi_type h = anyHeap) as Ety by (apply (bo_type _ _ HB), elem_blocks; by left).
    unfold fits, ADDRESS_LO, ADDRESS_HI, UINT64_MAX. rewrite Ety, u64_id by lia. rewrite !(proj2 (Z.leb_le _ _)) by lia. done.
  - right. destruct HBf as (Hin & Hf & _). pose proof (proj1 (Forall_forall _ _) (ho_free _ HO) h Hin) as HI.
    destruct (fits_bounds _ h n anyHeap _ _ HI ltac:(lia) Hf) as (_ & _ & Hle & _).
    destruct (track_run b m (hi_addr h) n s' (bo_tree _ _ HB)) as (t2 & HM & ET).
    exists (hi_addr h), s'. eexists. split; [by apply lift_edit|]. split; [destruct HI; lia|]. split; [exact ET|].
    apply got_intro; try done; [lia|]. apply (allocated_inside _ h n); [lia|done].
Qed.

(** What the image gained on the way, and then the block. *)
Record grew (b : binaryEdit) (m : gmap Z Z) (n : Z) (b1 : binaryEdit) : Prop := {
  gw_ok : bin_ok b1 m;
  gw_active : bactive b1 = bactive b;
  gw_objs : be_objs b1 = be_objs b /\ be_next b1 = be_next b /\ be_width b1 = be_width b;
  gw_high : be_highWaterMark b <= be_highWaterMark b1 <= be_highWaterMark b + n;
  gw_bytes : bytes (bblocks b1) <= bytes (bblocks b) + n
}.

Lemma edit_malloc_run b m size (n := inferiorMallocAlign (be_width b) size) :
  bin_ok b m -> 0 < size -> bytes (bblocks b) + size + 8 < 2 ^ 31 -> be_highWaterMark b + size + 8 < 2 ^ 64 ->
  exists a b1 b', inferiorMalloc size b = Ret (a, b') /\ size <= n < size + 8 /\ grew b m n b1 /\ got b1 m a n b'.
Proof.
  intros HB Hs Hb Hh. pose proof (heap_bytes _ (bo_heap _ _ HB)) as (H1 & H2 & _). unfold bblocks, blocks in Hb. rewrite zsum_app in Hb.
  assert (size <= n < size + 8) as Hn.
  { assert (exists k, 2 <= k < 4 /\ be_width b = 2 ^ k) as (k & Hk & Ew) by (destruct (bo_width _ _ HB) as [-> | ->]; [exists 2|exists 3]; split; lia || done).
    assert (2 ^ k <= 8) by (change 8 with (2 ^ 3); apply Z.pow_le_mono_r; lia). unfold n. rewrite Ew.
    destruct (align_spec k size ltac:(lia) ltac:(lia) ltac:(lia)). lia. }
  assert (grew b m n b) as G0 by (split; try done; lia).
  unfold inferiorMalloc. rewrite bind_gets. fold n. cbn [malloc_tries]. rewrite bind_mret. cbn [negb].
  assert (forall b1 a s' b' (K : M binaryEdit Z), lift (inferiorMallocInternal n ADDRESS_LO ADDRESS_HI anyHeap) b1 = Ret (a, eput s' b1) -> a <> 0 ->
    track a n (eput s' b1) = Ret (tt, b') ->
    (ret ← lift (inferiorMallocInternal n ADDRESS_LO ADDRESS_HI anyHeap) ; if negb (ret =? 0) then track ret n ;; mret ret else K) b1 = Ret (a, b')) as Hfin.
  { intros b1 a s' b' K E Ha ET. rewrite (bind_ret _ _ _ _ _ E), (proj2 (Z.eqb_neq _ _) Ha). cbn [negb]. by rewrite (bind_ret _ _ _ _ _ ET). }
  destruct (try_internal b m n HB ltac:(lia)) as [[E _]|(a & s' & b' & E & Ha & ET & HG)].
  2:{ exists a, b, b'. split; [by eapply Hfin|done]. }
  rewrite (bind_ret _ _ _ _ _ E). cbn [Z.eqb negb]. rewrite bind_assoc.
  destruct (compact_edit b m HB) as (s1 & EC & HB1 & Ha1 & Hb1). rewrite (bind_ret _ _ _ _ _ EC), bind_mret. cbn [negb].
  assert (grew b m n (eput s1 b)) as G1 by (split; simpl; try done; [simpl; lia|unfold bblocks in *; simpl; lia]).
  destruct (try_internal _ m n HB1 ltac:(lia)) as [[E1 _]|(a & s' & b' & E1 & Ha & ET & HG)].
  2:{ exists a, (eput s1 b), b'. split; [by eapply Hfin|done]. }
  rewrite (bind_ret _ _ _ _ _ E1). cbn [Z.eqb negb]. rewrite bind_assoc.
  destruct (inferiorMallocStatic_run (eput s1 b) m n HB1 ltac:(lia)) as (s2 & ES & HB2 & Ha2 & Hb2 & h & Hh2 & Hl2).
  { unfold bblocks in *. simpl. rewrite Hb1. unfold bblocks, blocks. rewrite zsum_app. lia. }
  { simpl. lia. }
  rewrite (bind_ret _ _ _ _ _ ES), bind_mret. cbn [negb].
  destruct (try_internal _ m n HB2 ltac:(lia)) as [[_ Hno]|(a & s' & b' & E2 & Ha & ET & HG)].
  { exfalso. specialize (Hno h Hh2). lia. }
  exists a, (extend (eput s1 b) s2 (be_highWaterMark (eput s1 b) + n)), b'. split; [by eapply Hfin|]. split; [done|]. split; [|done].
  split; simpl; try done; [rewrite <- Ha1; exact Ha2|lia|unfold bblocks in *; simpl in *; lia].
Qed.

(** ** Release *)

(** The image after the live block at [a] was released: its tracker is gone. *)
Record gave_back (b : binaryEdit) (m : gmap Z Z) (a : Z) (b' : binaryEdit) : Prop := {
  gb_ok : bin_ok b' (delete a m);
  gb_active : bactive b' = delete a (bactive b);
  gb_objs : exists v, m !! a = Some v /\ be_objs b' = delete v (be_objs b);
  gb_high : be_highWaterMark b' = be_highWaterMark b /\ be_width b' = be_width b;
  gb_bytes : bytes (bblocks b') = bytes (bblocks b);
  gb_free : exists h, bactive b !! a = Some h /\ bfree b' ≡ₚ with_status h HEAPfree :: bfree b
}.

Lemma tracks_delete high next objs m a v k w p :
  trackers_ok high next objs m -> m !! a = Some v ->
  tracks (delete v objs) (delete a m) k w p <-> k <> a /\ tracks objs m k w p.
Proof.
  intros [T1 _ _] Ha. unfold tracks. rewrite !lookup_delete_Some. split; [by intros [[? ?] [? ?]]|].
  intros [Hne [Hk Hp]]. split; [by split|]. split; [|done]. intros ->.
  destruct (T1 _ _ Ha) as (o & Ho & [Ea _ _ _ _]), (T1 _ _ Hk) as (o' & Ho' & [Ek _ _ _ _]). congruence.
Qed.

Lemma trackers_ok_delete high next objs m a v :
  trackers_ok high next objs m -> m !! a = Some v -> trackers_ok high next (delete v objs) (delete a m).
Proof.
  intros HT Ha. pose proof HT as [T1 T2 T3]. split.
  - intros k w Hk. apply lookup_delete_Some in Hk as [Hne Hk]. destruct (T1 _ _ Hk) as (o & Ho & HK). exists o. split; [|done].
    by destruct (proj2 (tracks_delete _ _ _ _ _ _ k w o HT Ha) (conj (not_eq_sym Hne) (conj Hk Ho))).
  - intros w [p Hp]. apply lookup_delete_Some in Hp as [_ Hp]. eauto.
  - intros k1 v1 o1 k2 v2 o2 [_ H1]%(tracks_delete _ _ _ _ _ _ _ _ _ HT Ha) [_ H2]%(tracks_delete _ _ _ _ _ _ _ _ _ HT Ha).
    by apply (T3 k1 v1 o1 k2 v2 o2).
Qed.

Lemma inferiorFree_run b m a : bin_ok b m -> is_Some (bactive b !! a) -> exists b', inferiorFree a b = Ret (tt, b') /\ gave_back b m a b'.
Proof.
  intros HB [h Hh]. pose proof HB as [B1 B2 B3 B4 B5 B6 B7 B8 B9]. destruct (B8 a h Hh) as (v & o & Ht & Hal & Hs & Hap).
  pose proof (inferiorFreeInternal_run _ a B1) as HF. unfold bactive in Hh. rewrite Hh in HF. destruct HF as (s' & E & HR).
  destruct (be_memoryTracker b) as [t|] eqn:Et; [|destruct Ht; by subst m].
  destruct (ts_obj _ _ _ _ B6 a v (proj1 Ht)) as (o' & Ho' & [K1 K2 K3 K4 K5]). rewrite (proj2 Ht) in Ho'. injection Ho' as <-.
  destruct (tracker_find_run (extend b s' (be_highWaterMark b)) m t a Et B5 (proj2 B4) B6) as (r & EF & Hr).
  destruct r as [w|]; [|exfalso; apply (Hr a v o Ht); lia]. destruct Hr as (k2 & o2 & Ht2 & _ & Hx2). simpl in Ht2.
  destruct (tracks_unique _ _ _ _ _ _ _ _ _ _ a B6 Ht2 Ht Hx2 ltac:(lia)) as (-> & -> & ->).
  destruct (remove_range t m a B5) as (t2 & ER & HM2).
  eexists. split.
  { unfold inferiorFree. rewrite (bind_ret _ _ _ _ _ (lift_edit _ b _ _ E)), (bind_ret _ _ _ _ _ EF). unfold delete_tracker, modify, tracker_remove, on_tree, mbind, M_bind.
    simpl. rewrite Et, ER. reflexivity. }
  assert (forall g, g ∈ blocks s' -> exists g', g' ∈ bblocks b /\ hi_type g = hi_type g' /\ end_of g = end_of g') as Hbl.
  { intros g [Hg|[c Hc]]%elem_blocks.
    - rewrite (re_free _ _ _ _ HR) in Hg. apply elem_of_cons in Hg as [->|Hg]; [exists h|exists g]; (split; [apply elem_blocks|done]); eauto.
    - rewrite (re_active _ _ _ _ HR) in Hc. apply lookup_delete_Some in Hc as [_ Hc]. exists g. split; [apply elem_blocks; eauto|done]. }
  split; simpl; try done; [|apply HR|exists v; split; [apply Ht|done]|apply HR|exists h; split; [done|apply HR]].
  split; simpl; try done.
  - apply HR.
  - intros g (g' & Hg' & -> & _)%Hbl. by apply B2.
  - intros g (g' & Hg' & _ & ->)%Hbl. by apply B3.
  - apply trackers_ok_delete; [done|apply Ht].
  - intros k w p x [Hne Hp]%(tracks_delete _ _ _ _ _ _ _ _ _ B6 (proj1 Ht)) Hx. pose proof (B7 k w p x Hp Hx) as H0. unfold bfree in *. simpl.
    rewrite (re_free _ _ _ _ HR), zsum_cons, H0, owns_out; [done|]. destruct (ho_active _ B1 _ _ Hh) as [Ea _].
    unfold end_of. simpl. rewrite Ea. destruct (Hap k w p Hp Hne); lia.
  - intros c g. unfold bactive. simpl. rewrite (re_active _ _ _ _ HR), lookup_delete_Some. intros [Hne Hc].
    destruct (B8 c g Hc) as (w & p & Hp & Hpal & Hps & Hap2). exists w, p. split_and!; [|done|done|].
    + apply (tracks_delete _ _ _ _ _ _ _ _ _ B6 (proj1 Ht)). split; [congruence|done].
    + intros k w' p' [_ Hp']%(tracks_delete _ _ _ _ _ _ _ _ _ B6 (proj1 Ht)). by apply (Hap2 k w').
Qed.
