(* ===== verification/BinImage.v ===== *)
(** * A rewritten binary as its clients see it

    A client allocates blocks in the image, reads and writes them through the text
    space, and releases them.  Whatever it does with the blocks it owns, it sees
    separate byte arrays: the heap, the trackers, the tree of ranges and the
    chunked copies of binaryEdit.C implement that specification. *)
From stdpp Require Import base gmap list.
From S2P Require Import Prelude CodeRange CodeRangeTree CodeRangeMap InfHeap InfHeapOk BinHeap BinHeapOk.
Import infHeap binaryEdit.

(** ** Writing, with the flag *)

Definition dirtied (b : binaryEdit) : binaryEdit :=
  mk_edit (be_space b) (be_width b) (be_lowWaterMark b) (be_highWaterMark b) (be_memoryTracker b) (be_objs b) (be_next b) true.

Lemma bin_image b m : bin_ok b m -> is_Some (be_memoryTracker b) -> image_ok b m.
Proof.
  intros [B1 B2 B3 B4 B5 B6 B7 B8 B9] [t Et]. rewrite Et in B5. split; [by exists t|lia|done].
Qed.

Lemma writeTextSpace_run b m addr data :
  bin_ok b m -> is_Some (be_memoryTracker b) -> 0 <= addr -> addr + Z.of_nat (length data) < 2 ^ 64 -> Z.of_nat (length data) < 2 ^ 32 ->
  exists j objs' (b' := with_objs (dirtied b) objs'), (j <= length data)%nat /\
    writeTextSpace addr data b = Ret (bool_decide (j = length data), b') /\ bin_ok b' m /\ same_shape (be_objs b) objs' /\
    written b m addr (take j data) b' /\
    (forall x, addr <= x < addr + Z.of_nat j -> mapped b m x) /\ ((j < length data)%nat -> ~ mapped b m (addr + Z.of_nat j)).
Proof.
  intros HB Ht Ha Hlen H32. assert (image_ok (dirtied b) m) as HI by (destruct (bin_image b m HB Ht); by split).
  destruct (write_loop_run (S (length data)) (dirtied b) m addr data HI Ha Hlen H32 ltac:(lia)) as (j & objs' & Hj & E & HS & HW & Hm & Hn).
  exists j, objs'. split_and!; try done. exact (bin_ok_shape b m objs' true HB HS).
Qed.

(** [b'] is [b] after the longest prefix of the data whose addresses are in use,
    the first [j] bytes, was written and nothing else changed. *)
Definition wrote_prefix (b : binaryEdit) (m : gmap Z Z) (addr : Z) (data : list Z) (j : nat) (b' : binaryEdit) : Prop :=
  (j <= length data)%nat /\ (forall x, addr <= x < addr + Z.of_nat j -> mapped b m x) /\
  ((j < length data)%nat -> ~ mapped b m (addr + Z.of_nat j)) /\
  (forall x c, holds b' m x c <-> if decide (addr <= x < addr + Z.of_nat j) then c = data !! Z.to_nat (x - addr) else holds b m x c).

(** C32: writing into a rewritten binary, for any range of addresses that does not
    wrap: the call returns, marks the binary dirty, writes the longest prefix of the
    data whose addresses are in use, through as many trackers as that takes, changes
    no other byte, and returns true exactly when everything was written. *)
Theorem writeTextSpace_correct b m addr data :
  bin_ok b m -> is_Some (be_memoryTracker b) -> 0 <= addr -> addr + Z.of_nat (length data) < 2 ^ 64 -> Z.of_nat (length data) < 2 ^ 32 ->
  exists j b', writeTextSpace addr data b = Ret (bool_decide (j = length data), b') /\ bin_ok b' m /\ be_dirty b' = true /\
    wrote_prefix b m addr data j b'.
Proof.
  intros HB Ht Ha Hlen H32. destruct (writeTextSpace_run b m addr data HB Ht Ha Hlen H32) as (j & objs' & Hj & E & HB' & HS & HW & Hm & Hn).
  exists j, (with_objs (dirtied b) objs'). unfold wrote_prefix. split_and!; try done. intros x c. rewrite (HW x c), length_take. replace (j `min` length data)%nat with j by lia.
  destruct (decide (addr <= x < addr + Z.of_nat j)) as [Hd|Hd].
  - by rewrite lookup_take_lt by lia.
  - done.
Qed.

(** ** The specification: separate byte arrays *)

Inductive client_op : Type :=
  | CMalloc (size : Z)
  | CFree (i : nat)
  | CWrite (i : nat) (off : Z) (data : list Z)
  | CRead (i : nat) (off n : Z).

Inductive client_reply : Type := CDone | CStored (ok : bool) | CBytes (d : option (list (option Z))).

(** The arrays the client owns, by handle; a released one is [None]. *)
Notation arrays := (list (option (list (option Z)))).

Definition spec_step (width : Z) (st : arrays) (op : client_op) : option (client_reply * arrays) :=
  match op with
  | CMalloc size =>
      if 0 <? size then Some (CDone, st ++ [Some (replicate (Z.to_nat (inferiorMallocAlign width size)) None)]) else None
  | CFree i => match st !! i with Some (Some _) => Some (CDone, <[i := None]> st) | _ => None end
  | CWrite i off data =>
      match st !! i with
      | Some (Some d) =>
          if (0 <=? off) && (off + Z.of_nat (length data) <=? Z.of_nat (length d))
          then Some (CStored true, <[i := Some (list_inserts (Z.to_nat off) (Some <$> data) d)]> st) else None
      | _ => None
      end
  | CRead i off n =>
      match st !! i with
      | Some (Some d) =>
          if (0 <=? off) && (off <? Z.of_nat (length d)) && (0 <=? n) && (off + n <=? Z.of_nat (length d))
          then Some (CBytes (Some (take (Z.to_nat n) (drop (Z.to_nat off) d))), st) else None
      | _ => None
      end
  end.

Fixpoint spec_run (width : Z) (st : arrays) (ops : list client_op) : option (list client_reply * arrays) :=
  match ops with
  | [] => Some ([], st)
  | op :: ops' =>
      '(r, st1) ← spec_step width st op ;
      '(rs, st2) ← spec_run width st1 ops' ;
      Some (r :: rs, st2)
  end.

(** ** The client of the image *)

Definition handle (hs : list Z) (i : nat) : M binaryEdit Z :=
  match hs !! i with Some a => mret a | None => fail FBounds end.

Definition client_step (hs : list Z) (op : client_op) : M binaryEdit (client_reply * list Z) :=
  match op with
  | CMalloc size => a ← inferiorMalloc size ; mret (CDone, hs ++ [a])
  | CFree i => a ← handle hs i ; inferiorFree a ;; mret (CDone, hs)
  | CWrite i off data => a ← handle hs i ; r ← writeTextSpace (a + off) data ; mret (CStored r, hs)
  | CRead i off n => a ← handle hs i ; d ← readTextSpace (a + off) n ; mret (CBytes d, hs)
  end.

Fixpoint client_run (hs : list Z) (ops : list client_op) : M binaryEdit (list client_reply) :=
  match ops with
  | [] => mret []
  | op :: ops' => r ← client_step hs op ; rs ← client_run (snd r) ops' ; mret (fst r :: rs)
  end.

(** What a request can add to the image. *)
Definition client_need (op : client_op) : Z := match op with CMalloc size => size + 8 | _ => 0 end.

(** ** Simulation *)

(** Handle [i] stands for the live block at [a] with contents [d]. *)
Definition block_at (b : binaryEdit) (m : gmap Z Z) (a : Z) (d : list (option Z)) : Prop :=
  is_Some (bactive b !! a) /\ exists v o, tracks (be_objs b) m a v o /\ mt_b o = d.

(** The section at [k], not allocated by a client, with contents [d]. *)
Definition section_at (b : binaryEdit) (m : gmap Z Z) (k : Z) (d : list (option Z)) : Prop :=
  exists v o, tracks (be_objs b) m k v o /\ mt_alloced o = false /\ mt_b o = d.

Section Simulation.
Context (secs : Z -> list (option Z) -> Prop).

Record sim (b : binaryEdit) (m : gmap Z Z) (hs : list Z) (st : arrays) : Prop := {
  sm_ok : bin_ok b m;
  sm_secs : forall k d, secs k d -> section_at b m k d;
  sm_len : length hs = length st;
  sm_block : forall i d, st !! i = Some (Some d) -> exists a, hs !! i = Some a /\ block_at b m a d;
  sm_apart : forall i j d e a, st !! i = Some (Some d) -> st !! j = Some (Some e) -> hs !! i = Some a -> hs !! j = Some a -> i = j
}.

Lemma handle_run hs i a (b : binaryEdit) : hs !! i = Some a -> handle hs i b = Ret (a, b).
Proof. intros E. unfold handle. by rewrite E. Qed.

(** A block keeps its tracker when the image changes elsewhere. *)
Lemma block_at_mono b m b' m' a d :
  block_at b m a d -> is_Some (bactive b' !! a) -> (forall v o, tracks (be_objs b) m a v o -> tracks (be_objs b') m' a v o) -> block_at b' m' a d.
Proof. intros (_ & v & o & Ht & Hd) Ha Hmv. split; [done|]. exists v, o. split; [by apply Hmv|done]. Qed.

Lemma sim_malloc b m hs st size :
  sim b m hs st -> 0 < size -> bytes (bblocks b) + size + 8 < 2 ^ 31 -> be_highWaterMark b + size + 8 < 2 ^ 64 ->
  exists a b' m', inferiorMalloc size b = Ret (a, b') /\
    sim b' m' (hs ++ [a]) (st ++ [Some (replicate (Z.to_nat (inferiorMallocAlign (be_width b) size)) None)]) /\
    bytes (bblocks b') <= bytes (bblocks b) + size + 8 /\ be_highWaterMark b' <= be_highWaterMark b + size + 8 /\ be_width b' = be_width b.
Proof.
  intros [HB Hsc Hl Hbk Hap] Hs Hb Hh. destruct (edit_malloc_run b m size HB Hs Hb Hh) as (a & b1 & b' & E & Hn & HG & HT). set (n := inferiorMallocAlign _ _) in *.
  destruct HG as [G1 G2 (G3 & G3' & G3'') G4 G5], HT as [T1 T2 [T3 T3'] (h & T4 & T4' & T4'') T5 [T6 T6'] T7].
  exists a, b', (<[a := be_next b1]> m). split; [done|]. split; [|split_and!; congruence || lia].
  assert (forall i d c, st !! i = Some (Some d) -> hs !! i = Some c -> c <> a) as Hne.
  { intros i d c Hi Hc ->. destruct (Hbk i d Hi) as (a' & Ha' & [x Hx] & _). rewrite Hc in Ha'. injection Ha' as <-. congruence. }
  split; [done| |rewrite !length_app; simpl; lia| |].
  { intros k d Hk. destruct (Hsc k d Hk) as (v & o & [Hv Ho] & Hd). exists v, o. split; [|done]. split; [rewrite lookup_insert_ne; congruence|].
    rewrite T5, lookup_insert_ne; [by rewrite G3|]. intros <-. rewrite G3' in Ho. pose proof (ts_next _ _ _ _ (bo_trackers _ _ HB) _ (mk_is_Some _ _ Ho)). lia. }
  - intros i d Hi. apply lookup_app_Some in Hi as [Hi|[Hge Hi]].
    + destruct (Hbk i d Hi) as (c & Hc & HC). exists c. split; [by apply lookup_app_l_Some|]. assert (c <> a) as Hca by eauto.
      apply (block_at_mono b m); [done|rewrite T4, lookup_insert_ne by done; rewrite G2; apply HC|].
      intros v o [Hv Ho]. split; [by rewrite lookup_insert_ne|]. rewrite T5, lookup_insert_ne; [by rewrite G3|]. intros <-.
      rewrite G3' in Ho. pose proof (ts_next _ _ _ _ (bo_trackers _ _ HB) _ (mk_is_Some _ _ Ho)). lia.
    + apply list_lookup_singleton_Some in Hi as [Hi <-%(inj Some)]. exists a. split; [rewrite lookup_app_r by lia; by replace (i - length hs)%nat with 0%nat by lia|].
      split; [rewrite T4, lookup_insert_eq; eauto|]. eexists _, _. split; [split; [by rewrite lookup_insert_eq|by rewrite T5, lookup_insert_eq]|done].
  - intros i j d e c Hi Hj Ei Ej.
    assert (forall k f, (st ++ [Some (replicate (Z.to_nat n) None)]) !! k = Some (Some f) -> (hs ++ [a]) !! k = Some c ->
      (k = length hs /\ c = a) \/ (st !! k = Some (Some f) /\ hs !! k = Some c)) as Hcase.
    { intros k f Hk Ek. apply lookup_app_Some in Hk as [Hk|[Hge Hk]].
      - right. split; [done|]. apply lookup_lt_Some in Hk. by rewrite lookup_app_l in Ek by lia.
      - apply list_lookup_singleton_Some in Hk as [Hk _]. left. assert (k = length hs) as -> by lia. rewrite lookup_app_r, Nat.sub_diag in Ek by lia. by injection Ek. }
    destruct (Hcase i d Hi Ei) as [[-> ->]|[Hi' Ei']], (Hcase j e Hj Ej) as [[-> Ej']|[Hj' Ej']]; try done; [|by subst; exfalso; eapply Hne|by eapply Hap].
    exfalso. by eapply Hne.
Qed.

Lemma sim_free b m hs st i d :
  sim b m hs st -> st !! i = Some (Some d) ->
  exists a b' m', hs !! i = Some a /\ inferiorFree a b = Ret (tt, b') /\ sim b' m' hs (<[i := None]> st) /\
    bytes (bblocks b') = bytes (bblocks b) /\ be_highWaterMark b' = be_highWaterMark b /\ be_width b' = be_width b.
Proof.
  intros [HB Hsc Hl Hbk Hap] Hi. destruct (Hbk i d Hi) as (a & Ha & HC).
  destruct (inferiorFree_run b m a HB (proj1 HC)) as (b' & E & [G1 G2 (v & Gv & G3) [G4 G4'] G5 _]).
  exists a, b', (delete a m). split_and!; try done.
  assert (forall j e, <[i := None]> st !! j = Some (Some e) -> j <> i /\ st !! j = Some (Some e)) as Hcase.
  { intros j e. rewrite list_lookup_insert_Some. by intros [(_ & [=] & _)|[? ?]]. }
  split; [done| |by rewrite length_insert| |].
  { intros k e Hk. destruct (Hsc k e Hk) as (w & o & Hw & Hal & He). exists w, o. split; [|done]. rewrite G3.
    apply (tracks_delete _ _ _ _ _ _ _ _ _ (bo_trackers _ _ HB) Gv). split; [|done]. intros ->.
    destruct (proj1 HC) as [h Hh]. destruct (bo_live _ _ HB a h Hh) as (v2 & o2 & Ht2 & Hal2 & _). destruct Hw, Ht2. congruence. }
  - intros j e [Hne Hj]%Hcase. destruct (Hbk j e Hj) as (c & Hc & HCc). exists c. split; [done|].
    assert (c <> a) as Hca by (intros ->; apply Hne; by eapply Hap). apply (block_at_mono b m); [done|rewrite G2, lookup_delete_ne by done; apply HCc|].
    intros w o Hw. rewrite G3. by apply (tracks_delete _ _ _ _ _ _ _ _ _ (bo_trackers _ _ HB) Gv).
  - intros j k e f c [_ Hj]%Hcase [_ Hk]%Hcase. by eapply Hap.
Qed.

(** What a write leaves in a tracker. *)
Lemma written_tracker b m addr data b' a v o o' (k : nat) :
  bin_ok b m -> written b m addr data b' -> same_shape (be_objs b) (be_objs b') ->
  tracks (be_objs b) m a v o -> tracks (be_objs b') m a v o' -> (k < length (mt_b o))%nat ->
  mt_b o' !! k = if decide (addr <= a + Z.of_nat k < addr + Z.of_nat (length data)) then Some (data !! Z.to_nat (a + Z.of_nat k - addr)) else mt_b o !! k.
Proof.
  intros HB HW HS Ht Ht' Hk. pose proof (bo_trackers _ _ HB) as HT. destruct (ts_obj _ _ _ _ HT a v (proj1 Ht)) as (p & Hp & [K1 K2 K3 K4 K5]).
  rewrite (proj2 Ht) in Hp. injection Hp as <-. destruct (same_shape_tracks _ _ _ _ _ _ HS Ht') as (p & Hp & (A1 & A2 & A3 & A4)).
  assert (p = o) as -> by (destruct Ht, Hp; congruence). destruct (lookup_lt_is_Some_2 (mt_b o') k) as [c Hc]; [lia|]. rewrite Hc.
  assert (holds b' m (a + Z.of_nat k) c) as Hh.
  { exists a, v, o'. split; [done|]. split; [lia|]. by replace (Z.to_nat (a + Z.of_nat k - a)) with k by lia. }
  apply HW in Hh. destruct (decide _) as [Hd|Hd]; [by rewrite Hh|]. destruct Hh as (k2 & v2 & o2 & Ht2 & Hx2 & Hc2).
  destruct (tracks_unique _ _ _ _ _ _ _ _ _ _ (a + Z.of_nat k) HT Ht2 Ht Hx2) as (-> & -> & ->); [lia|].
  replace (Z.to_nat (a + Z.of_nat k - a)) with k in Hc2 by lia. by rewrite Hc2.
Qed.

Lemma tracker_len b m k v o : bin_ok b m -> tracks (be_objs b) m k v o -> Z.of_nat (length (mt_b o)) = mt_s o.
Proof.
  intros HB [Hk Ho]. destruct (ts_obj _ _ _ _ (bo_trackers _ _ HB) k v Hk) as (p & Hp & []). congruence.
Qed.

Lemma block_meets b m a v o k w p x :
  bin_ok b m -> tracks (be_objs b) m a v o -> tracks (be_objs b) m k w p ->
  a <= x < a + Z.of_nat (length (mt_b o)) -> k <= x < k + Z.of_nat (length (mt_b p)) -> k = a /\ p = o.
Proof.
  intros HB Ht Hp X1 X2. rewrite (tracker_len b m _ _ _ HB Ht) in X1. rewrite (tracker_len b m _ _ _ HB Hp) in X2.
  by destruct (tracks_unique _ _ _ _ _ _ _ _ _ _ x (bo_trackers _ _ HB) Hp Ht X2 X1) as (? & _ & ?).
Qed.

(** The extent of a block. *)
Lemma block_extent b m a d : bin_ok b m -> block_at b m a d ->
  0 < a /\ a + Z.of_nat (length d) < 2 ^ 64 /\ (forall x, a <= x < a + Z.of_nat (length d) -> mapped b m x) /\ is_Some (be_memoryTracker b) /\ (0 < length d)%nat.
Proof.
  intros HB (_ & v & o & Ht & <-). pose proof HB as [B1 B2 B3 B4 B5 B6 B7 B8 B9]. destruct (ts_obj _ _ _ _ B6 a v (proj1 Ht)) as (p & Hp & [K1 K2 K3 K4 K5]).
  rewrite (proj2 Ht) in Hp. injection Hp as <-. split_and!; try lia.
  - intros x Hx. exists a, v, o. split; [done|lia].
  - destruct (be_memoryTracker b); [eauto|]. subst m. by destruct Ht.
Qed.

Lemma sim_write b m hs st i d off data :
  sim b m hs st -> st !! i = Some (Some d) -> 0 <= off -> off + Z.of_nat (length data) <= Z.of_nat (length d) -> Z.of_nat (length data) < 2 ^ 32 ->
  exists a b', hs !! i = Some a /\ writeTextSpace (a + off) data b = Ret (true, b') /\
    sim b' m hs (<[i := Some (list_inserts (Z.to_nat off) (Some <$> data) d)]> st) /\
    bytes (bblocks b') = bytes (bblocks b) /\ be_highWaterMark b' = be_highWaterMark b /\ be_width b' = be_width b.
Proof.
  intros HSim Hi Ho Hlen H32. pose proof HSim as [HB Hsc Hl Hbk Hap]. destruct (Hbk i d Hi) as (a & Ha & HC).
  destruct (block_extent b m a d HB HC) as (E1 & E2 & E3 & E4 & E5). pose proof HC as (Hact & v & o & Ht & Hd).
  destruct (writeTextSpace_run b m (a + off) data HB E4 ltac:(lia) ltac:(lia) H32) as (j & objs' & Hj & E & HB' & HS & HW & Hm & Hn).
  assert (j = length data) as ->.
  { destruct (decide (j < length data)%nat) as [Hlt|]; [|lia]. exfalso. apply (Hn Hlt), E3. lia. }
  set (b' := with_objs (dirtied b) objs') in *. rewrite firstn_all in HW. rewrite bool_decide_true in E by done.
  exists a, b'. split_and!; try done.
  assert (forall k e, <[i := Some (list_inserts (Z.to_nat off) (Some <$> data) d)]> st !! k = Some (Some e) -> exists e0, st !! k = Some (Some e0) /\
    (k = i /\ e0 = d /\ e = list_inserts (Z.to_nat off) (Some <$> data) d \/ k <> i /\ e0 = e)) as Hwas.
  { intros k e [(<- & [= <-] & _)|[Hne Hk]]%list_lookup_insert_Some; [exists d|exists e]; eauto 7. }
  split; [done| |by rewrite length_insert| |].
  { intros k e Hk. destruct (Hsc k e Hk) as (w & p & Hp & Hal & <-). destruct (same_shape_tracks' _ _ _ _ _ _ HS Hp) as (p' & Hp' & (A1 & A2 & A3 & A4)).
    exists w, p'. split; [done|]. split; [congruence|]. apply list_eq. intros q. destruct (decide (q < length (mt_b p))%nat) as [Hq|Hq]; [|by rewrite !lookup_ge_None_2 by lia].
    rewrite (written_tracker b m (a + off) data b' k w p p' q HB HW HS Hp Hp' Hq), decide_False; [done|]. intros Hr.
    destruct (block_meets b m a v o k w p (k + Z.of_nat q) HB Ht Hp) as [_ ->]; [rewrite Hd; lia|lia|].
    destruct Hact as [h Hh]. destruct (bo_live _ _ HB a h Hh) as (v2 & o2 & Ht2 & Hal2 & _). destruct Ht, Ht2. congruence. }
  - intros k e (e0 & Hk0 & Hcase)%Hwas. destruct (Hbk k e0 Hk0) as (c & Hc & Hact' & w & p & Hp & Hp0). exists c. split; [done|]. split; [exact Hact'|].
    destruct (same_shape_tracks' _ _ _ _ _ _ HS Hp) as (p' & Hp' & (A1 & A2 & A3 & A4)). exists w, p'. split; [done|]. subst e0.
    apply list_eq. intros q. destruct (decide (q < length (mt_b p))%nat) as [Hq|Hq].
    + rewrite (written_tracker b m (a + off) data b' c w p p' q HB HW HS Hp Hp' Hq). destruct Hcase as [(-> & Hpd & ->)|[Hne ->]].
      * rewrite Hpd in *. assert (c = a) as -> by congruence. destruct (decide _) as [Hr|Hr].
        -- rewrite list_lookup_inserts by (rewrite ?length_fmap; lia). rewrite list_lookup_fmap.
           replace (Z.to_nat (a + Z.of_nat q - (a + off))) with (q - Z.to_nat off)%nat by lia.
           by destruct (lookup_lt_is_Some_2 data (q - Z.to_nat off)) as [z ->]; [lia|].
        -- destruct (decide (q < Z.to_nat off)%nat); [by rewrite list_lookup_inserts_lt|]. rewrite list_lookup_inserts_ge; [done|]. rewrite length_fmap. lia.
      * rewrite decide_False; [done|]. intros Hr. apply Hne. apply (Hap k i (mt_b p) d a); [done|done| |done].
        by destruct (block_meets b m a v o c w p (c + Z.of_nat q) HB Ht Hp) as [-> _]; [rewrite Hd; lia|lia|].
    + assert (length e = length (mt_b p)) as Hle by (destruct Hcase as [(_ & <- & ->)|[_ <-]]; [apply length_inserts|done]).
      by rewrite !lookup_ge_None_2 by lia.
  - intros k l e f c (e0 & Hk & _)%Hwas (f0 & Hl0 & _)%Hwas. by apply (Hap k l e0 f0 c).
Qed.

Lemma sim_read b m hs st i d off n :
  sim b m hs st -> st !! i = Some (Some d) -> 0 <= off < Z.of_nat (length d) -> 0 <= n -> off + n <= Z.of_nat (length d) ->
  exists a, hs !! i = Some a /\ readTextSpace (a + off) n b = Ret (Some (take (Z.to_nat n) (drop (Z.to_nat off) d)), b).
Proof.
  intros [HB Hsc Hl Hbk Hap] Hi Ho Hn Hlen. destruct (Hbk i d Hi) as (a & Ha & HC). exists a. split; [done|].
  destruct (block_extent b m a d HB HC) as (E1 & E2 & E3 & E4 & E5). destruct HC as (_ & v & o & Ht & <-).
  pose proof (tracker_len b m _ _ _ HB Ht). rewrite (readTextSpace_run b m a v o) by (try apply bin_image; done || lia).
  by replace (a + off - a) with off by lia.
Qed.

Lemma block_short b m a d : bin_ok b m -> block_at b m a d -> Z.of_nat (length d) < 2 ^ 31.
Proof.
  intros HB ([h Hh] & v & o & Ht & <-). destruct (bo_live _ _ HB a h Hh) as (w & p & Hp & _ & Hs & _). rewrite (tracker_len b m _ _ _ HB Ht).
  by assert (p = o) as -> by (destruct Ht, Hp; congruence).
Qed.

(** One request, with what it adds to the image. *)
Lemma sim_step b m hs st op r st' :
  sim b m hs st -> spec_step (be_width b) st op = Some (r, st') ->
  bytes (bblocks b) + client_need op < 2 ^ 31 -> be_highWaterMark b + client_need op < 2 ^ 64 ->
  exists hs' b' m', client_step hs op b = Ret ((r, hs'), b') /\ sim b' m' hs' st' /\
    bytes (bblocks b') <= bytes (bblocks b) + client_need op /\ be_highWaterMark b' <= be_highWaterMark b + client_need op /\ be_width b' = be_width b.
Proof.
  intros HS Hop Hb Hh. destruct op as [size|i|i off data|i off n]; simpl in *.
  - destruct (Z.ltb_spec 0 size); [|done]. injection Hop as <- <-.
    destruct (sim_malloc b m hs st size HS) as (a & b' & m' & E & HS' & H1 & H2 & H3); [lia..|].
    exists (hs ++ [a]), b', m'. rewrite (bind_ret _ _ _ _ _ E). split_and!; try done; lia.
  - destruct (st !! i) as [[d|]|] eqn:Hi; try done. injection Hop as <- <-.
    destruct (sim_free b m hs st i d HS Hi) as (a & b' & m' & Ha & E & HS' & H1 & H2 & H3).
    exists hs, b', m'. rewrite (bind_ret _ _ _ _ _ (handle_run _ _ _ b Ha)), (bind_ret _ _ _ _ _ E). split_and!; try done; lia.
  - destruct (st !! i) as [[d|]|] eqn:Hi; try done.
    destruct (Z.leb_spec 0 off), (Z.leb_spec (off + Z.of_nat (length data)) (Z.of_nat (length d))); simpl in Hop; try done. injection Hop as <- <-.
    assert (Z.of_nat (length d) < 2 ^ 31) as Hd by (destruct (sm_block _ _ _ _ HS i d Hi) as (a & _ & HC); by apply (block_short b m a d (sm_ok _ _ _ _ HS))).
    destruct (sim_write b m hs st i d off data HS Hi) as (a & b' & Ha & E & HS' & H1 & H2 & H3); [lia..|].
    exists hs, b', m. rewrite (bind_ret _ _ _ _ _ (handle_run _ _ _ b Ha)), (bind_ret _ _ _ _ _ E). split_and!; try done; lia.
  - destruct (st !! i) as [[d|]|] eqn:Hi; try done.
    destruct (Z.leb_spec 0 off), (Z.ltb_spec off (Z.of_nat (length d))), (Z.leb_spec 0 n), (Z.leb_spec (off + n) (Z.of_nat (length d))); simpl in Hop; try done.
    injection Hop as <- <-. destruct (sim_read b m hs st i d off n HS Hi) as (a & Ha & E); [lia..|].
    exists hs, b, m. rewrite (bind_ret _ _ _ _ _ (handle_run _ _ _ b Ha)), (bind_ret _ _ _ _ _ E). split_and!; try done; lia.
Qed.

Lemma client_need_nonneg width st ops rs st' : spec_run width st ops = Some (rs, st') -> 0 <= zsum client_need ops.
Proof.
  revert st rs st'. induction ops as [|op ops IH]; intros st rs st' H; [done|]. rewrite zsum_cons. cbn in H.
  destruct (spec_step width st op) as [[r st1]|] eqn:Es; [|done]. cbn in H. destruct (spec_run width st1 ops) as [[rs1 st2]|] eqn:Er; [|done].
  specialize (IH _ _ _ Er). destruct op as [size| | |]; simpl in *; try lia. by destruct (Z.ltb_spec 0 size); [lia|].
Qed.

Lemma sim_run ops : forall b m hs st rs st',
  sim b m hs st -> spec_run (be_width b) st ops = Some (rs, st') ->
  bytes (bblocks b) + zsum client_need ops < 2 ^ 31 -> be_highWaterMark b + zsum client_need ops < 2 ^ 64 ->
  exists b' m' hs', client_run hs ops b = Ret (rs, b') /\ sim b' m' hs' st'.
Proof.
  induction ops as [|op ops IH]; intros b m hs st rs st' HS Hrun Hb Hh; cbn in Hrun.
  { injection Hrun as <- <-. by exists b, m, hs. }
  destruct (spec_step (be_width b) st op) as [[r st1]|] eqn:Es; [|done]. cbn in Hrun.
  destruct (spec_run (be_width b) st1 ops) as [[rs1 st2]|] eqn:Er; [|done]. injection Hrun as <- <-.
  pose proof (client_need_nonneg _ _ _ _ _ Er). rewrite zsum_cons in Hb, Hh.
  destruct (sim_step b m hs st op r st1 HS Es) as (hs' & b1 & m1 & E & HS1 & H1 & H2 & H3); [lia..|].
  rewrite <- H3 in Er. destruct (IH b1 m1 hs' st1 rs1 st2 HS1 Er) as (b' & m' & hs2 & E' & HB'); [lia..|].
  exists b', m', hs2. cbn [client_run]. rewrite (bind_ret _ _ _ _ _ E). cbn [fst snd]. by rewrite (bind_ret _ _ _ _ _ E').
Qed.

End Simulation.

(** ** The sections of a new image *)

Definition new_image (width high : Z) : binaryEdit := mk_edit (mk_space inferiorHeap_new true) width high high None ∅ 0 false.

Definition backed (r : region) : bool := negb (rg_bss r || (rg_size r =? 0)).
Definition region_ok (high : Z) (r : region) : Prop :=
  backed r = true -> 0 < rg_off r /\ 0 < rg_size r < 2 ^ 32 /\ rg_off r + rg_size r <= high /\ rg_size r <= Z.of_nat (length (rg_data r)).
Definition apart_regions (r1 r2 : region) : Prop :=
  backed r1 = true -> backed r2 = true -> rg_off r1 + rg_size r1 <= rg_off r2 \/ rg_off r2 + rg_size r2 <= rg_off r1.
Definition region_bytes (r : region) : list (option Z) := Some <$> take (Z.to_nat (rg_size r)) (rg_data r).

Lemma new_image_ok width high : width = 4 \/ width = 8 -> 0 < high < 2 ^ 64 -> bin_ok (new_image width high) ∅.
Proof.
  intros Hw Hh. assert (items_of ∅ = []) as Ei by (unfold items_of; by rewrite map_to_list_empty).
  split; unfold bblocks, blocks, bactive, active_of; simpl; rewrite ?Ei; try done.
  - split; unfold blocks, active_of, free_of; simpl; rewrite ?Ei; try done. constructor.
  - intros h Hin. unfold free_of in Hin. simpl in Hin. by apply elem_of_nil in Hin.
  - intros h Hin. unfold free_of in Hin. simpl in Hin. by apply elem_of_nil in Hin.
  - split; [done|by intros v [? ?]|by intros ? ? ? ? ? ? [? ?]].
Qed.

(** The image under construction: no heap block yet, and the trackers are sections. *)
Record building (high : Z) (b : binaryEdit) (m : gmap Z Z) (done : list region) : Prop := {
  bd_ok : bin_ok b m;
  bd_heap : bblocks b = [];
  bd_high : be_highWaterMark b = high;
  bd_secs : forall k v o, tracks (be_objs b) m k v o -> exists r, r ∈ done /\ backed r = true /\ k = rg_off r /\ mt_s o = rg_size r;
  bd_done : forall r, r ∈ done -> backed r = true -> section_at b m (rg_off r) (region_bytes r)
}.

Lemma back_region_run high b m ds r :
  building high b m ds -> region_ok high r -> (forall r', r' ∈ ds -> apart_regions r' r) ->
  exists b' m', back_region r b = Ret (tt, b') /\ building high b' m' (r :: ds) /\ be_width b' = be_width b.
Proof.
  intros [HB Hhp Hhi Hsec Hdn] HR Hap. unfold back_region. destruct (backed r) eqn:Ebk; unfold backed in Ebk.
  2:{ apply negb_false_iff in Ebk. rewrite Ebk. exists b, m. split; [done|]. split; [|done]. split; try done.
      - intros k v o Ht. destruct (Hsec k v o Ht) as (r' & Hin & Hr'). exists r'. split; [by right|done].
      - intros r' [->|Hin]%elem_of_cons Hr'; [|by apply Hdn]. unfold backed in Hr'. by rewrite Ebk in Hr'. }
  destruct (HR Ebk) as (R1 & R2 & R3 & R4). apply negb_true_iff in Ebk as Ebk'. rewrite Ebk', u32_id by lia. rewrite (proj2 (Z.ltb_ge _ _)) by lia.
  set (o := memoryTracker_copy (rg_off r) (rg_size r) (rg_data r)). set (v := be_next b).
  pose proof HB as [B1 B2 B3 B4 B5 B6 B7 B8 B9].
  assert (tracker_ok (be_highWaterMark b) (rg_off r) o) as HK.
  { split; simpl; try done; try lia. rewrite length_fmap, length_take. lia. }
  assert (forall k w p, tracks (be_objs b) m k w p -> k + mt_s p <= rg_off r \/ rg_off r + mt_s o <= k) as Hap'.
  { intros k w p Ht. destruct (Hsec k w p Ht) as (r' & Hin & Hr' & -> & ->). simpl. by apply (Hap r' Hin Hr' Ebk). }
  set (b1 := mk_edit (be_space b) (be_width b) (be_lowWaterMark b) (be_highWaterMark b) (be_memoryTracker b) (<[v := o]> (be_objs b)) (be_next b + 1) (be_dirty b)).
  destruct (need_insert_run b1 m v o) as (t2 & HM2 & EI); [done|simpl; by rewrite lookup_insert_eq|].
  exists (set_tracker (Some t2) b1), (<[rg_off r := v]> m). pose proof (tracks_new _ _ _ _ _ _ B6 HK Hap') as Hcase. split; [exact EI|split; [|done]].
  assert (bfree b = []) as Hf by (unfold bblocks, blocks in Hhp; by apply app_eq_nil in Hhp as [? _]).
  split; simpl; try done.
  - split; simpl; try done.
    + by apply trackers_ok_new.
    + intros k w p x _ _. unfold bfree in *. simpl. by rewrite Hf.
    + intros a h Ha. exfalso. assert (h ∈ bblocks b) as Hin by (apply elem_blocks; right; eauto). rewrite Hhp in Hin. by apply elem_of_nil in Hin.
  - intros k w p [(-> & -> & ->)|[Hne Ht]]%Hcase; [exists r; split_and!; try done; by left|].
    destruct (Hsec k w p Ht) as (r' & Hin & Hr'). exists r'. split; [by right|done].
  - intros r' [->|Hin]%elem_of_cons Hr'.
    + exists v, o. split; [|done]. apply Hcase. by left.
    + destruct (Hdn r' Hin Hr') as (w & p & Ht & Hp). exists w, p. split; [|done]. apply Hcase. right. split; [|done].
      intros Ek. destruct (new_tracker_fresh _ _ _ _ _ _ B6 HK Hap') as [_ Hm]. destruct Ht. congruence.
Qed.

Lemma back_regions_run high regs : forall b m ds,
  building high b m ds -> Forall (region_ok high) regs -> ForallOrdPairs apart_regions regs -> (forall r' r, r' ∈ ds -> r ∈ regs -> apart_regions r' r) ->
  exists b' m', forM regs back_region b = Ret (tt, b') /\ building high b' m' (rev regs ++ ds) /\ be_width b' = be_width b.
Proof.
  induction regs as [|r regs IH]; intros b m ds HD HF HP Hds; [by exists b, m|]. apply Forall_cons in HF as [HR HF].
  inversion HP as [|? ? HP1 HP2]; subst.
  destruct (back_region_run high b m ds r HD HR) as (b1 & m1 & E & HD1 & Hw1); [intros; apply Hds; [done|by left]|].
  destruct (IH b1 m1 (r :: ds) HD1 HF HP2) as (b' & m' & E' & HD' & Hw').
  { intros r1 r2 [->|H1]%elem_of_cons H2; [by apply (proj1 (Forall_forall _ _) HP1)|]. apply Hds; [done|by right]. }
  exists b', m'. simpl. rewrite (bind_ret _ _ _ _ _ E), E', <- app_assoc. split_and!; try done. congruence.
Qed.

Lemma createMemoryBackingStore_run width high regs :
  width = 4 \/ width = 8 -> 0 < high < 2 ^ 64 -> Forall (region_ok high) regs -> ForallOrdPairs apart_regions regs ->
  exists b m, createMemoryBackingStore regs (new_image width high) = Ret (true, b) /\ bin_ok b m /\ bblocks b = [] /\
    be_highWaterMark b = high /\ be_width b = width /\
    (forall r, r ∈ regs -> backed r = true -> section_at b m (rg_off r) (region_bytes r)).
Proof.
  intros Hw Hh HF HP. destruct (back_regions_run high regs (new_image width high) ∅ []) as (b & m & E & [D1 D2 D3 D4 D5] & Hwd); try done.
  - split; try done; [by apply new_image_ok|by intros ? ? ? []|by intros ? ?%elem_of_nil].
  - by intros ? ? ?%elem_of_nil.
  - exists b, m. unfold createMemoryBackingStore. rewrite (bind_ret _ _ _ _ _ E). split_and!; try done.
    intros r Hr. apply D5. rewrite app_nil_r, rev_alt. by apply elem_of_reverse.
Qed.

(** The image is created with its sections, and then a client works on it. *)
Definition edit_session (regs : list region) (ops : list client_op) : M binaryEdit (list client_reply) :=
  createMemoryBackingStore regs ;; client_run [] ops.

(** C14: the memory of a rewritten binary refines separate byte arrays: after the
    sections of the image got their backing store, and for every sequence of
    allocations, releases, reads and writes within the blocks a client owns, the
    calls of the code return exactly what the arrays of the specification return
    (every allocation succeeds, a read gives the bytes written last, blocks do not
    affect each other), however the heap reuses, compacts or extends its memory;
    and at the end every section still reads as it was. *)
Theorem binary_memory_refines_arrays width high regs ops rs st' :
  width = 4 \/ width = 8 -> 0 < high -> Forall (region_ok high) regs -> ForallOrdPairs apart_regions regs ->
  spec_run width [] ops = Some (rs, st') -> zsum client_need ops < 2 ^ 31 -> high + zsum client_need ops < 2 ^ 64 ->
  exists b', edit_session regs ops (new_image width high) = Ret (rs, b') /\
    forall r, r ∈ regs -> backed r = true -> readTextSpace (rg_off r) (rg_size r) b' = Ret (Some (region_bytes r), b').
Proof.
  intros Hw Hh HF HP Hrun Hb He. pose proof (client_need_nonneg _ _ _ _ _ Hrun).
  destruct (createMemoryBackingStore_run width high regs Hw ltac:(lia) HF HP) as (b & m & E & HB & Hbl & Hhi & Hwd & Hsec).
  set (secs k d := exists r, r ∈ regs /\ backed r = true /\ k = rg_off r /\ d = region_bytes r).
  destruct (sim_run secs ops b m [] [] rs st') as (b' & m' & hs & E' & [HB' Hsec' _ _ _]); rewrite ?Hwd, ?Hbl, ?Hhi; try done.
  { split; try done. intros k d (r & Hr & Hk & -> & ->). by apply Hsec. }
  exists b'. unfold edit_session. rewrite (bind_ret _ _ _ _ _ E). split; [done|]. intros r Hr Hk.
  destruct (Hsec' (rg_off r) (region_bytes r)) as (v & o & Ht & Hal & Hd); [by exists r|].
  destruct (proj1 (Forall_forall _ _) HF r Hr Hk) as (R1 & R2 & R3 & R4).
  assert (Z.of_nat (length (mt_b o)) = rg_size r) as Hl by (rewrite Hd; unfold region_bytes; rewrite length_fmap, length_take; lia).
  pose proof (tracker_len b' m' _ _ _ HB' Ht) as Hs.
  assert (is_Some (be_memoryTracker b')) as Hsm by (pose proof (bo_tree _ _ HB') as T; destruct (be_memoryTracker b'); [eauto|subst m'; by destruct Ht]).
  rewrite (readTextSpace_run b' m' (rg_off r) v o) by (try apply bin_image; done || lia). rewrite Z.sub_diag, drop_0.
  rewrite take_ge by lia. by rewrite Hd.
Qed.

(** ** An image of two sections *)

Definition demo_regions : list region :=
  [mk_region false 0x1000 4 [1; 2; 3; 4]; mk_region true 0x2000 64 []; mk_region false 0x1004 4 [5; 6; 7; 8]].
Lemma demo_regions_ok : Forall (region_ok 0x3000) demo_regions /\ ForallOrdPairs apart_regions demo_regions.
Proof.
  split; unfold demo_regions.
  - rewrite !Forall_cons, Forall_nil. unfold region_ok, backed. simpl. split_and!; done || lia.
  - assert (forall r l, Forall (apart_regions r) l -> ForallOrdPairs apart_regions l -> ForallOrdPairs apart_regions (r :: l)) as H by (intros; by constructor).
    repeat apply H; rewrite ?Forall_cons, ?Forall_nil; unfold apart_regions, backed; simpl; split_and?; done || lia || constructor.
Qed.

Definition demo_client : list client_op :=
  [CMalloc 5; CMalloc 16; CWrite 0 2 [10; 11; 12]; CWrite 1 0 [20]; CRead 0 0 8; CFree 0; CMalloc 3; CWrite 2 7 [30]; CRead 1 0 2; CRead 2 6 2].
Definition demo_replies : list client_reply :=
  [CDone; CDone; CStored true; CStored true; CBytes (Some [None; None; Some 10; Some 11; Some 12; None; None; None]); CDone; CDone; CStored true;
   CBytes (Some [Some 20; None]); CBytes (Some [None; Some 30])].

Lemma binary_memory_refines_arrays_witness :
  exists b', edit_session demo_regions demo_client (new_image 8 0x3000) = Ret (demo_replies, b') /\
    forall r, r ∈ demo_regions -> backed r = true -> readTextSpace (rg_off r) (rg_size r) b' = Ret (Some (region_bytes r), b').
Proof.
  refine (binary_memory_refines_arrays 8 0x3000 demo_regions demo_client demo_replies
    [None; Some (Some 20 :: replicate 15 None); Some (replicate 7 None ++ [Some 30])] _ _ _ _ _ _ _);
    [by right|done|apply demo_regions_ok|apply demo_regions_ok|vm_compute; reflexivity|vm_compute; reflexivity|vm_compute; reflexivity].
Defined.

(** A write across the boundary of two sections, and one that leaves the image. *)
Lemma writeTextSpace_correct_witness :
  exists b m, createMemoryBackingStore demo_regions (new_image 8 0x3000) = Ret (true, b) /\ bin_ok b m /\
    exists j b', writeTextSpace 0x1002 [90; 91; 92; 93] b = Ret (bool_decide (j = 4%nat), b') /\ bin_ok b' m /\ be_dirty b' = true /\
      wrote_prefix b m 0x1002 [90; 91; 92; 93] j b'.
Proof.
  destruct (createMemoryBackingStore_run 8 0x3000 demo_regions ltac:(by right) ltac:(lia) (proj1 demo_regions_ok) (proj2 demo_regions_ok))
    as (b & m & E & HB & _ & _ & _ & Hsec).
  assert (is_Some (be_memoryTracker b)) as Ht.
  { destruct (Hsec (mk_region false 0x1000 4 [1; 2; 3; 4]) ltac:(by left) eq_refl) as (v & o & Ht & _).
    pose proof (bo_tree _ _ HB) as T. destruct (be_memoryTracker b); [eauto|]. rewrite T in Ht. by destruct Ht. }
  destruct (writeTextSpace_correct b m 0x1002 [90; 91; 92; 93] HB Ht ltac:(lia) ltac:(simpl; lia) ltac:(simpl; lia)) as (j & b' & E' & HB' & Hd & HW).
  exists b, m. split; [exact E|]. split; [exact HB|]. exists j, b'. by split_and!.
Defined.

Definition outcome_of {A} (m : M binaryEdit A) : option A :=
  match (createMemoryBackingStore demo_regions ;; m) (new_image 8 0x3000) with Ret (a, _) => Some a | Fault _ => None end.

Example write_across_sections :
  outcome_of (r ← writeTextSpace 0x1002 [90; 91; 92; 93] ; d1 ← readTextSpace 0x1000 4 ; d2 ← readTextSpace 0x1004 4 ; mret (r, d1, d2)) =
  Some (true, Some [Some 1; Some 2; Some 90; Some 91], Some [Some 92; Some 93; Some 7; Some 8]).
Proof. vm_compute. reflexivity. Qed.
(** Reading is not cut at the end of a section: the copy runs over the buffer. *)
Example read_across_sections : outcome_of (readTextSpace 0x1002 4) = None.
Proof. vm_compute. reflexivity. Qed.
(** A block of no bytes shares its address with the next one. *)
Example malloc_nothing :
  outcome_of (inferiorMalloc 8 ;; inferiorFree 0x3000 ;; a ← inferiorMalloc 0 ; c ← inferiorMalloc 8 ; mret (a, c)) = Some (0x3000, 0x3000).
Proof. vm_compute. reflexivity. Qed.
(** Releasing an address inside a block deletes the tracker of the block, which
    stays live, and leaves the deleted object (the third one) in the tree. *)
Example free_inside :
  outcome_of (inferiorMalloc 8 ;; inferiorFree 0x3004 ;; l ← on_tree (fun _ => codeRangeTree.elements) ;
    s ← gets (fun s => (bool_decide (is_Some (bactive s !! 0x3000)), bool_decide (is_Some (be_objs s !! 2)))) ; mret (l, s)) =
  Some (Some [0; 1; 2], (true, false)).
Proof. vm_compute. reflexivity. Qed.
