(* ===== verification/BinRealloc.v ===== *)
(** * Resizing a block of a rewritten binary (dyninstAPI/src/binaryEdit.C)

    [inferiorRealloc] of a block as it was allocated: it fails and changes nothing, or
    the block has the new size, be it that the heap cut it, left it as it was or
    gave it bytes of the free block behind it (which the heap forgets). *)
From stdpp Require Import base gmap list.
From S2P Require Import Prelude CodeRange CodeRangeTree CodeRangeMap InfHeap InfHeapOk BinHeap BinHeapOk BinImage.
Import infHeap binaryEdit.

(** ** The heap *)

(** What the heap is after the block [h] at [a] got [n'] bytes: [l] of them are those
    the heap knows of. *)
Record regrown (b : binaryEdit) (a : Z) (h : heapItem) (n' l : Z) (s : addressSpace) : Prop := {
  rg_ok : heap_ok s;
  rg_active : active_of s = <[a := with_length h l]> (bactive b);
  rg_len : 0 < l <= hi_length h;
  rg_from : from_blocks (be_space b) (free_of s);
  rg_fits : n' <= hi_length h \/ exists f, room_behind (be_space b) h (n' - hi_length h) f;
  rg_free : forall x, owners (free_of s) x <= owners (bfree b) x + if decide (a + l <= x < a + hi_length h) then 1 else 0;
  rg_new : forall x, owners (bfree b) x = 0 \/ hi_length h <= x - a -> a <= x < a + n' -> owners (free_of s) x = 0
}.

Lemma with_length_same h : with_length h (hi_length h) = h.
Proof. by destruct h. Qed.

Lemma align_bounds w n : w = 4 \/ w = 8 -> 0 < n < 2 ^ 31 -> n <= inferiorMallocAlign w n < n + w /\ inferiorMallocAlign w n mod w = 0.
Proof.
  intros Hw Hn. destruct Hw as [-> | ->]; [change 4 with (2 ^ 2)|change 8 with (2 ^ 3)]; apply align_spec; lia.
Qed.
Lemma align_fits w n n' : w = 4 \/ w = 8 -> 0 < n' < 2 ^ 31 -> n mod w = 0 -> n' <= n -> inferiorMallocAlign w n' <= n.
Proof.
  intros Hw Hn' Hm Hle. destruct (align_bounds w n' Hw Hn') as [H1 H2]. assert (0 < w) by lia.
  pose proof (Z.div_mod n w ltac:(lia)). pose proof (Z.div_mod (inferiorMallocAlign w n') w ltac:(lia)). rewrite Hm in *. rewrite H2 in *. nia.
Qed.

Lemma realloc_heap b m a h n' (n := hi_length h) :
  bin_ok b m -> bactive b !! a = Some h -> n mod be_width b = 0 -> 0 < n' < 2 ^ 30 ->
  (lift (inferiorReallocInternal (be_width b) a n') b = Ret (false, b) /\ n < n') \/
  exists s l, lift (inferiorReallocInternal (be_width b) a n') b = Ret (true, eput s b) /\ regrown b a h n' l s.
Proof.
  intros HB Hh Hal Hn'. subst n. pose proof (bo_heap _ _ HB) as HO. pose proof (bo_width _ _ HB) as Hw. destruct (ho_active _ HO _ _ Hh) as [Ea [I1 I2 I3 I4]].
  destruct (align_bounds _ n' Hw ltac:(lia)) as [H1 _]. pose proof (align_fits _ (hi_length h) n' Hw ltac:(lia) Hal) as Hfit. set (N := inferiorMallocAlign (be_width b) n') in *.
  destruct (inferiorReallocInternal_run (be_space b) (be_width b) a n' HO) as (r & s & E & HR); [fold N; lia|]. fold N in HR.
  destruct HR as [Hm|g Hg Hl|g s Hg Hl HS|g f s Hg Hl HF HX|g Hg Hl Hno]; unfold bactive in Hh; [congruence|..]; rewrite Hh in Hg; injection Hg as <-.
  - right. exists (be_space b), (hi_length h). split; [by apply lift_edit|]. split; try done; try lia.
    + rewrite with_length_same, insert_id; done.
    + intros g Hg. exists g. split; [apply elem_blocks; by left|done].
    + intros x.  rewrite decide_False by lia. unfold bfree. lia.
    + intros x [Hx|Hx] Hr; [done|lia].
  - right. exists s, N. split; [by apply lift_edit|]. pose proof (sh_owners _ _ _ _ _ HS) as Ho. unfold end_of in Ho. rewrite Ea in Ho. split; try done; try lia; try apply HS.
    + intros x.  rewrite Ho. unfold bfree. lia.
    + intros x [Hx|Hx] Hr; [|lia]. rewrite Ho. unfold bfree in Hx. rewrite Hx, decide_False by lia. done.
  - right. exists s, (hi_length h). split; [by apply lift_edit|]. pose proof (ex_owners _ _ _ _ HX) as Ho. unfold end_of in Ho. rewrite Ea in Ho. split; try done; try lia; try apply HX.
    + rewrite with_length_same, (ex_active _ _ _ _ HX), insert_id; done.
    + right. exists f. destruct HF as (F1 & F2 & F3). split_and!; [done|done|lia].
    + intros x.  rewrite decide_False by lia. specialize (Ho x). unfold blocks in Ho. rewrite !zsum_app, (ex_active _ _ _ _ HX) in Ho. unfold bfree. case_decide; lia.
    + intros x Hx Hr. specialize (Ho x). pose proof (ho_once _ HO x) as H2. pose proof (owners_nonneg (free_of s) x). pose proof (owners_nonneg (items_of (active_of (be_space b))) x).
      unfold blocks in Ho, H2. rewrite !zsum_app in *. rewrite (ex_active _ _ _ _ HX) in Ho. unfold bfree in Hx. case_decide; [lia|]. destruct Hx; [lia|]. lia.
  - left. split; [rewrite (lift_edit _ b _ _ E); by destruct b|]. destruct (decide (n' <= hi_length h)) as [Hd|]; [|lia]. specialize (Hfit Hd). lia.
Qed.

(** ** The trackers *)

Section Resize.
Context (high next : Z) (objs : gmap Z memoryTracker) (m : gmap Z Z) (a v : Z) (o o' : memoryTracker).
Context (HT : trackers_ok high next objs m) (Ht : tracks objs m a v o) (HK : tracker_ok high a o').
Context (Hap : forall k w p, tracks objs m k w p -> k <> a -> k + mt_s p <= a \/ a + mt_s o' <= k).

Lemma tracks_resize k w p : tracks (<[v := o']> objs) m k w p <-> (k = a /\ w = v /\ p = o') \/ (k <> a /\ tracks objs m k w p).
Proof.
  unfold tracks. split.
  - intros [Hk Hp]. destruct (decide (k = a)) as [->|Hne].
    + left. destruct Ht as [Ha _]. assert (w = v) as -> by congruence. rewrite lookup_insert_eq in Hp. by injection Hp as <-.
    + right. split; [done|]. split; [done|]. rewrite lookup_insert_ne in Hp; [done|]. intros <-. apply Hne. destruct Ht as [_ Ho].
      destruct (ts_obj _ _ _ _ HT _ _ Hk) as (p' & Hp' & [K1 _ _ _ _]), (ts_obj _ _ _ _ HT _ _ (proj1 Ht)) as (q & Hq & [K2 _ _ _ _]). congruence.
  - intros [(-> & -> & ->)|[Hne [Hk Hp]]]; [split; [apply Ht|by rewrite lookup_insert_eq]|]. split; [done|]. rewrite lookup_insert_ne; [done|]. intros <-.
    apply Hne. destruct (ts_obj _ _ _ _ HT _ _ Hk) as (p' & Hp' & [K1 _ _ _ _]), (ts_obj _ _ _ _ HT _ _ (proj1 Ht)) as (q & Hq & [K2 _ _ _ _]). congruence.
Qed.

Lemma trackers_ok_resize : trackers_ok high next (<[v := o']> objs) m.
Proof.
  pose proof HT as [T1 T2 T3]. split.
  - intros k w Hk. destruct (decide (k = a)) as [->|Hne].
    + destruct Ht as [Ha _]. assert (w = v) as -> by congruence. exists o'. by rewrite lookup_insert_eq.
    + destruct (T1 _ _ Hk) as (p & Hp & HKp). exists p. split; [|done]. by destruct (proj2 (tracks_resize k w p) (or_intror (conj Hne (conj Hk Hp)))).
  - intros w [p Hp]. rewrite lookup_insert in Hp. case_decide as Ew; [|eauto]. subst w. apply T2. destruct Ht. eauto.
  - intros k1 v1 o1 k2 v2 o2 [(-> & -> & ->)|[N1 H1]]%tracks_resize [(-> & -> & ->)|[N2 H2]]%tracks_resize Hlt; [lia| | |by eapply T3].
    + destruct (Hap _ _ _ H2 N2) as [Hd|Hd]; [|lia]. destruct (T1 _ _ (proj1 H2)) as (p & Hp & []). rewrite (proj2 H2) in Hp. injection Hp as <-. lia.
    + destruct HK. destruct (Hap _ _ _ H1 N1); lia.
Qed.
End Resize.

Section Regrow.
Context (b : binaryEdit) (m : gmap Z Z) (a v : Z) (h : heapItem) (o o' : memoryTracker) (n' l : Z) (s1 s2 : addressSpace) (t2 : codeRangeTree.rtree).
Context (HB : bin_ok b m) (Hh : bactive b !! a = Some h) (Ht : tracks (be_objs b) m a v o) (Hs : mt_s o = hi_length h).
Context (HG : regrown b a h n' l s1) (HC : compacted s1 s2) (Hn' : 0 < n' < 2 ^ 31) (HM : is_range t2 m).
Context (Ea : mt_a o' = a) (Es : mt_s o' = n') (El : Z.of_nat (length (mt_b o')) = n') (Eal : mt_alloced o' = true).

Definition after_realloc : binaryEdit := mk_edit s2 (be_width b) (be_lowWaterMark b) (be_highWaterMark b) (Some t2) (<[v := o']> (be_objs b)) (be_next b) (be_dirty b).

(** The bytes the block gets are nobody else's. *)
Lemma regrown_apart k w p : tracks (be_objs b) m k w p -> k <> a -> k + mt_s p <= a \/ a + n' <= k.
Proof.
  intros Hp Hne. destruct (bo_live _ _ HB a h Hh) as (v1 & o1 & _ & _ & _ & Hap). destruct (Hap k w p Hp Hne) as [?|Hd]; [by left|].
  destruct (rg_fits _ _ _ _ _ _ HG) as [?|(f & F1 & F2 & F3)]; [right; lia|]. destruct (ho_active _ (bo_heap _ _ HB) _ _ Hh) as [Eh _]. unfold end_of in F2. rewrite Eh in F2.
  destruct (decide (n' <= hi_length h)); [right; lia|]. destruct (free_untracked b m f (n' - hi_length h) k w p HB F1 ltac:(lia) Hp); [|right; lia].
  pose proof (ts_obj _ _ _ _ (bo_trackers _ _ HB) k w (proj1 Hp)) as (q & Hq & []). rewrite (proj2 Hp) in Hq. injection Hq as <-. lia.
Qed.
Lemma regrown_end : a + n' <= be_highWaterMark b.
Proof.
  destruct (ho_active _ (bo_heap _ _ HB) _ _ Hh) as [Eh _]. assert (h ∈ bblocks b) as Hin by (apply elem_blocks; eauto). pose proof (bo_end _ _ HB h Hin) as He. unfold end_of in He.
  destruct (rg_fits _ _ _ _ _ _ HG) as [?|(f & F1 & F2 & F3)]; [lia|]. pose proof (bo_end _ _ HB f ltac:(apply elem_blocks; by left)) as Hf. unfold end_of in Hf, F2. lia.
Qed.
Lemma after_tracks k w p : tracks (be_objs after_realloc) m k w p <-> (k = a /\ w = v /\ p = o') \/ (k <> a /\ tracks (be_objs b) m k w p).
Proof.
  apply (tracks_resize (be_highWaterMark b) (be_next b) _ _ _ _ o); [apply (bo_trackers _ _ HB)|done].
Qed.
Lemma after_active : bactive after_realloc = <[a := with_length h l]> (bactive b).
Proof. unfold bactive. simpl. rewrite (co_active _ _ HC). apply HG. Qed.
Lemma after_free x : owners (bfree after_realloc) x = owners (free_of s1) x.
Proof. destruct (co_same _ _ HC) as [C1 _]. specialize (C1 x). unfold blocks in C1. rewrite !zsum_app, (co_active _ _ HC) in C1. unfold bfree. simpl. lia. Qed.
Lemma after_blocks g : g ∈ bblocks after_realloc -> hi_type g = anyHeap /\ end_of g <= be_highWaterMark b.
Proof.
  assert (forall g, g ∈ bblocks b -> hi_type g = anyHeap /\ end_of g <= be_highWaterMark b) as Hold by (intros x Hx; split; [by apply (bo_type _ _ HB)|by apply (bo_end _ _ HB)]).
  intros [Hg|[c Hc]]%elem_blocks.
  - destruct (co_from _ _ HC g Hg) as (g1 & Hg1 & -> & ->). destruct (rg_from _ _ _ _ _ _ HG g1 Hg1) as (g2 & Hg2 & -> & ->). by apply Hold.
  - change (bactive after_realloc !! c = Some g) in Hc. rewrite after_active, lookup_insert in Hc. case_decide as Ec; [|apply Hold, elem_blocks; eauto].
    injection Hc as <-. destruct (Hold h) as [H1 H2]; [apply elem_blocks; eauto|]. split; [done|]. pose proof (rg_len _ _ _ _ _ _ HG). unfold end_of in *. simpl. lia.
Qed.

Lemma after_ok : bin_ok after_realloc m.
Proof.
  pose proof HB as [B1 B2 B3 B4 B5 B6 B7 B8 B9]. destruct (ts_obj _ _ _ _ B6 a v (proj1 Ht)) as (q & Hq & [K1 K2 K3 K4 K5]). rewrite (proj2 Ht) in Hq. injection Hq as <-.
  pose proof regrown_end as Hend. pose proof (rg_len _ _ _ _ _ _ HG) as Hl.
  split; try done.
  - apply HC.
  - intros g Hg. by apply after_blocks.
  - intros g Hg. by apply after_blocks.
  - apply (trackers_ok_resize _ _ _ _ a v o o' B6 Ht); [split; lia|]. rewrite Es. apply regrown_apart.
  - intros k w p x Hp Hx. rewrite after_free. apply after_tracks in Hp as [(-> & -> & ->)|[Hne Hp]].
    + apply (rg_new _ _ _ _ _ _ HG); [|lia]. destruct (decide (x - a < hi_length h)); [left|right; lia]. apply (B7 a v o x Ht). lia.
    + pose proof (rg_free _ _ _ _ _ _ HG x) as Hf. rewrite (B7 k w p x Hp Hx) in Hf. pose proof (owners_nonneg (free_of s1) x).
      destruct (B8 a h Hh) as (_ & _ & _ & _ & _ & Hap). destruct (Hap k w p Hp Hne); rewrite decide_False in Hf by lia; lia.
  - intros c g. rewrite after_active, lookup_insert. case_decide as Ec.
    + intros [= <-]. subst c. exists v, o'. split; [apply after_tracks; by left|]. split; [done|]. split; [lia|].
      intros k w p [(-> & _)|[_ Hp]]%after_tracks Hne; [done|]. simpl. destruct (B8 a h Hh) as (_ & _ & _ & _ & _ & Hap). destruct (Hap k w p Hp Hne); lia.
    + intros Hg. destruct (B8 c g Hg) as (w & p & Hp & Hal & Hps & Hap). exists w, p. split; [apply after_tracks; right; by split|]. split; [done|]. split; [done|].
      intros k w' p' [(-> & -> & ->)|[_ Hp']]%after_tracks Hne; [|by apply (Hap k w')]. rewrite Es. destruct (ho_active _ B1 _ _ Hg) as [Eg [G1 G2 G3 G4]], (ho_active _ B1 _ _ Hh) as [Eh _].
      destruct (Hap a v o Ht ltac:(done)) as [Hd|Hd]; [|right; lia]. left.
      destruct (rg_fits _ _ _ _ _ _ HG) as [?|(f & F1 & F2 & F3)]; [lia|]. unfold end_of in F2. rewrite Eh in F2. destruct (decide (n' <= hi_length h)); [lia|].
      destruct (active_free_apart _ c g f B1 Hg F1) as [Hd2|Hd2]; unfold end_of in Hd2; lia.
Qed.
End Regrow.

(** A block as it was allocated. *)
Record be_own (b : binaryEdit) (m : gmap Z Z) (a n v : Z) (h : heapItem) (o : memoryTracker) : Prop := {
  bw_active : bactive b !! a = Some h;
  bw_tracks : tracks (be_objs b) m a v o;
  bw_length : hi_length h = n;
  bw_size : mt_s o = n;
  bw_align : n mod be_width b = 0
}.

Lemma inferiorRealloc_run b m a n n' v h o : bin_ok b m -> be_own b m a n v h o -> 0 < n' < 2 ^ 30 ->
  (inferiorRealloc a n' b = Ret (false, b) /\ n < n') \/
  exists l s1 s2 t2, let b' := after_realloc b v (memoryTracker_realloc o n') s2 t2 in
    inferiorRealloc a n' b = Ret (true, b') /\ regrown b a h n' l s1 /\ compacted s1 s2 /\ is_range t2 m.
Proof.
  intros HB [W1 W2 W3 W4 W5] Hn'. unfold inferiorRealloc. rewrite bind_gets. rewrite <- W3 in *.
  destruct (realloc_heap b m a h n' HB W1 W5 Hn') as [[E Hlt]|(s1 & l & E & HG)]; rewrite (bind_ret _ _ _ _ _ E); [by left|right]. cbn [negb].
  destruct (inferiorFreeCompact_run s1 (rg_ok _ _ _ _ _ _ HG)) as (s2 & EC & HC). pose proof HB as [B1 B2 B3 B4 B5 B6 B7 B8 B9].
  destruct (be_memoryTracker b) as [t|] eqn:Et; [|destruct W2; by subst m].
  destruct (ts_obj _ _ _ _ B6 a v (proj1 W2)) as (q & Hq & [K1 K2 K3 K4 K5]). rewrite (proj2 W2) in Hq. injection Hq as <-.
  set (b2 := extend b s2 (be_highWaterMark b)).
  assert (exists z, maxAllocedAddr (eput s1 b) = Ret (z, b2)) as [z EM].
  { unfold maxAllocedAddr. eexists. rewrite (bind_ret _ _ _ tt b2); [reflexivity|]. exact (lift_edit inferiorFreeCompact (eput s1 b) tt s2 EC). }
  rewrite (bind_ret _ _ _ _ _ EM). destruct (tracker_find_run b2 m t a Et B5 (proj2 B4) B6) as (r & EF & Hr). rewrite (bind_ret _ _ _ _ _ EF).
  destruct r as [w|]; [|exfalso; apply (Hr a v o W2); lia]. destruct Hr as (k2 & o2 & Ht2 & _ & Hx2). simpl in Ht2.
  destruct (tracks_unique _ _ _ _ _ _ _ _ _ _ a B6 Ht2 W2 Hx2 ltac:(lia)) as (-> & -> & ->).
  destruct (remove_range t m a B5) as (t1 & ER & HM1). set (objs' := <[v := memoryTracker_realloc o n']> (be_objs b)).
  destruct (@insert_range (ranges objs') t1 (delete a m) v HM1) as (t2 & EI & HM2). simpl in HM2. unfold objs' in HM2. rewrite lookup_insert_eq in HM2. simpl in HM2.
  rewrite K1, insert_delete_eq, insert_id in HM2 by apply W2. exists l, s1, s2, t2. split; [|done].
  rewrite (bind_ret _ _ _ tt (set_tracker (Some t1) b2)) by (unfold tracker_remove, on_tree; simpl; by rewrite Et, ER).
  rewrite (bind_ret _ _ _ o (set_tracker (Some t1) b2)) by (unfold get_tracker; simpl; by rewrite (proj2 W2)).
  rewrite (bind_ret _ _ _ tt (set_objs <[v := memoryTracker_realloc o n']> (set_tracker (Some t1) b2))) by reflexivity.
  rewrite (bind_ret _ _ _ tt (after_realloc b v (memoryTracker_realloc o n') s2 t2)); [done|]. unfold tracker_insert, on_tree. simpl. fold objs'. by rewrite EI.
Qed.
