(* ===== verification/TrapMap.v ===== *)
(** * The trap mappings of a mutatee (dyninstAPI/src/addressSpace.C, trapMappings.h)

    Where no jump fits, Dyninst puts a trap instruction and records from which
    address to which the handler in the mutatee has to go.  [trampTrapMappings]
    keeps the mappings and writes them, as a table, into the memory of the mutatee:
    a sorted table with a header for a rewritten binary, and for a running process
    a table that grows by appending and is rebuilt when it is full.

    The address space is an interface: what the mappings use of PCProcess and of
    BinaryEdit are its operations. *)
From stdpp Require Import base gmap list sorting.
From S2P Require Import Prelude RTCommon RTLinux.

Module trampTrapMappings.

(** The virtual methods of AddressSpace that the mappings call; [is_process] is
    the outcome of [dynamic_cast<PCProcess *>]. *)
Class Space (S : Type) : Type := {
  is_process : bool;
  getAddressWidth : S -> Z;
  space_malloc : Z -> M S Z;
  space_free : Z -> M S unit;
  writeDataSpace : Z -> list Z -> M S bool
}.

Definition MIN_TRAP_TABLE_SIZE : Z := 256.
Definition INDEX_INVALID : Z := 2 ^ 32 - 1.

Record tramp_mapping_t : Type := mk_mapping {
  from_addr : Z;
  to_addr : Z;
  written : bool;
  mutatee_side : bool;
  cur_index : Z
}.

(** The variables of one runtime library, by their addresses. *)
Record rt_variables : Type := mk_rtvars {
  rv_used : option Z;
  rv_version : option Z;
  rv_table : option Z;
  rv_sorted : option Z
}.

(** What is recorded in the symbol table of a rewritten binary. *)
Inductive symtab_op : Type := addSysVDynamic (tag val : Z) | addLibraryPrereq.

(** A pointer to a mapping is its key: the elements of the hash map do not move. *)
Record trap_maps (S : Type) : Type := mk_maps {
  tm_mapping : gmap Z tramp_mapping_t;
  tm_updated : gset Z;
  needs_updating : bool;
  tm_as : S;
  tm_vars : rt_variables;            (* trapTableUsed, ..., null while unknown *)
  table_version : Z;
  table_used : Z;
  table_allocated : Z;
  table_mutatee_size : Z;
  current_table : Z;
  table_header : Z;
  blockFlushes : bool;
  tm_symtab : list symtab_op
}.
Arguments mk_maps {S}.
Arguments tm_mapping {S}. Arguments tm_updated {S}. Arguments needs_updating {S}. Arguments tm_as {S}. Arguments tm_vars {S}.
Arguments table_version {S}. Arguments table_used {S}. Arguments table_allocated {S}. Arguments table_mutatee_size {S}.
Arguments current_table {S}. Arguments table_header {S}. Arguments blockFlushes {S}. Arguments tm_symtab {S}.

(** The orders in which the hash map and the set of pointers are walked; [order]
    lists the elements of a set once. *)
Class WalkOrder : Type := { order : gset Z -> list Z; order_perm : forall X, order X ≡ₚ elements X }.

Section Mappings.
Context {S : Type} {space : Space S} {walk : WalkOrder}.
(** The runtime libraries; the four bytes of padding in the header, which are not
    initialised; whether the rewritten binary is statically linked. *)
Context (rtlib : list rt_variables) (padding : list Z) (isStaticBinary : bool).

Notation state := (trap_maps S).

#[export] Instance maps_space : Embed state S := {
  eget := tm_as;
  eput a t := mk_maps (tm_mapping t) (tm_updated t) (needs_updating t) a (tm_vars t) (table_version t) (table_used t)
    (table_allocated t) (table_mutatee_size t) (current_table t) (table_header t) (blockFlushes t) (tm_symtab t)
}.
#[export] Instance maps_space_laws : EmbedLaws state S.
Proof. split; [by intros []|done]. Qed.

Definition set_mapping (f : gmap Z tramp_mapping_t -> gmap Z tramp_mapping_t) : M state unit := modify (fun t =>
  mk_maps (f (tm_mapping t)) (tm_updated t) (needs_updating t) (tm_as t) (tm_vars t) (table_version t) (table_used t)
    (table_allocated t) (table_mutatee_size t) (current_table t) (table_header t) (blockFlushes t) (tm_symtab t)).
Definition set_updated (f : gset Z -> gset Z) : M state unit := modify (fun t =>
  mk_maps (tm_mapping t) (f (tm_updated t)) (needs_updating t) (tm_as t) (tm_vars t) (table_version t) (table_used t)
    (table_allocated t) (table_mutatee_size t) (current_table t) (table_header t) (blockFlushes t) (tm_symtab t)).
Definition set_needs (b : bool) : M state unit := modify (fun t =>
  mk_maps (tm_mapping t) (tm_updated t) b (tm_as t) (tm_vars t) (table_version t) (table_used t)
    (table_allocated t) (table_mutatee_size t) (current_table t) (table_header t) (blockFlushes t) (tm_symtab t)).
Definition set_vars (v : rt_variables) : M state unit := modify (fun t =>
  mk_maps (tm_mapping t) (tm_updated t) (needs_updating t) (tm_as t) v (table_version t) (table_used t)
    (table_allocated t) (table_mutatee_size t) (current_table t) (table_header t) (blockFlushes t) (tm_symtab t)).
Definition set_version (v : Z) : M state unit := modify (fun t =>
  mk_maps (tm_mapping t) (tm_updated t) (needs_updating t) (tm_as t) (tm_vars t) (u64 v) (table_used t)
    (table_allocated t) (table_mutatee_size t) (current_table t) (table_header t) (blockFlushes t) (tm_symtab t)).
Definition set_used (v : Z) : M state unit := modify (fun t =>
  mk_maps (tm_mapping t) (tm_updated t) (needs_updating t) (tm_as t) (tm_vars t) (table_version t) (u64 v)
    (table_allocated t) (table_mutatee_size t) (current_table t) (table_header t) (blockFlushes t) (tm_symtab t)).
Definition set_allocated (v : Z) : M state unit := modify (fun t =>
  mk_maps (tm_mapping t) (tm_updated t) (needs_updating t) (tm_as t) (tm_vars t) (table_version t) (table_used t)
    (u64 v) (table_mutatee_size t) (current_table t) (table_header t) (blockFlushes t) (tm_symtab t)).
Definition set_mutatee_size (v : Z) : M state unit := modify (fun t =>
  mk_maps (tm_mapping t) (tm_updated t) (needs_updating t) (tm_as t) (tm_vars t) (table_version t) (table_used t)
    (table_allocated t) (u64 v) (current_table t) (table_header t) (blockFlushes t) (tm_symtab t)).
Definition set_table (v : Z) : M state unit := modify (fun t =>
  mk_maps (tm_mapping t) (tm_updated t) (needs_updating t) (tm_as t) (tm_vars t) (table_version t) (table_used t)
    (table_allocated t) (table_mutatee_size t) v (table_header t) (blockFlushes t) (tm_symtab t)).
Definition set_table_header (v : Z) : M state unit := modify (fun t =>
  mk_maps (tm_mapping t) (tm_updated t) (needs_updating t) (tm_as t) (tm_vars t) (table_version t) (table_used t)
    (table_allocated t) (table_mutatee_size t) (current_table t) v (blockFlushes t) (tm_symtab t)).
Definition symtab_do (op : symtab_op) : M state unit := modify (fun t =>
  mk_maps (tm_mapping t) (tm_updated t) (needs_updating t) (tm_as t) (tm_vars t) (table_version t) (table_used t)
    (table_allocated t) (table_mutatee_size t) (current_table t) (table_header t) (blockFlushes t) (tm_symtab t ++ [op])).

Definition shouldBlockFlushes (b : bool) : M state unit := modify (fun t =>
  mk_maps (tm_mapping t) (tm_updated t) (needs_updating t) (tm_as t) (tm_vars t) (table_version t) (table_used t)
    (table_allocated t) (table_mutatee_size t) (current_table t) (table_header t) b (tm_symtab t)).

Definition no_variables : rt_variables := mk_rtvars None None None None.

Definition trampTrapMappings_new (a : S) : state :=
  mk_maps ∅ ∅ false a no_variables 0 0 0 0 0 0 false [].

(** On fork: the child takes the parent's mappings and table. *)
Definition copyTrapMappings (parent : state) : M state unit := modify (fun t =>
  mk_maps (tm_mapping parent) (tm_updated t) (needs_updating parent) (tm_as t) no_variables (table_version parent) (table_used parent)
    (table_allocated parent) (table_mutatee_size parent) (current_table parent) (table_header t) (blockFlushes t) (tm_symtab t)).

Definition clearTrapMappings : M state unit := modify (fun t =>
  mk_maps ∅ (tm_updated t) false (tm_as t) no_variables 0 0 0 0 0 (table_header t) (blockFlushes t) (tm_symtab t)).

(** On x86 the trap is reported one byte behind its address. *)
Definition addTrapMapping (from to : Z) (write_to_mutatee : bool) : M state unit :=
  let from := u64 (from + 1) in
  m ← gets tm_mapping ;
  let existing_trap := m !! from in
  let index := match existing_trap with Some e => cur_index e | None => INDEX_INVALID end in
  set_mapping <[from := mk_mapping from to false write_to_mutatee index]> ;;
  set_updated (fun X => {[from]} ∪ X) ;;
  (if write_to_mutatee && negb (bool_decide (is_Some existing_trap))
   then n ← gets table_mutatee_size ; set_mutatee_size (n + 1) else mret tt) ;;
  set_needs true.

Definition definesTrapMapping (from : Z) : M state bool := gets (fun t => bool_decide (is_Some (tm_mapping t !! from))).
Definition getTrapMapping (from : Z) : M state Z :=
  gets (fun t => match tm_mapping t !! from with Some m => to_addr m | None => 0 end).
Definition needsUpdating : M state bool := gets needs_updating.
Definition maps_empty : M state bool := gets (fun t => bool_decide (tm_mapping t = ∅)).

(** ** Words in the memory of the mutatee *)

(** The [n] low bytes of [v], the lowest first. *)
Fixpoint le_bytes (n : nat) (v : Z) : list Z :=
  match n with O => [] | Datatypes.S n' => v mod 256 :: le_bytes n' (v / 256) end.

(** A mutatee word in a buffer; 32-bit mutatees of a 64-bit mutator are supported. *)
Definition writeToBuffer (val addr_width : Z) : M state (list Z) :=
  if negb (addr_width =? 8) then assertM (addr_width =? 4) ;; mret (le_bytes 4 (u32 val))
  else mret (le_bytes 8 val).

Definition writeTrampVariable (var val : Z) : M state unit :=
  aw ← gets (fun t => getAddressWidth (tm_as t)) ;
  buffer ← writeToBuffer val aw ;
  result ← lift (writeDataSpace var buffer) ;
  assertM result.

(** ** Writing the table *)

Definition get_mapping (k : Z) : M state tramp_mapping_t := fun t =>
  match tm_mapping t !! k with Some m => Ret (m, t) | None => Fault FBadPtr end.
Definition put_mapping (k : Z) (m : tramp_mapping_t) : M state unit := set_mapping <[k := m]>.

Definition with_written (m : tramp_mapping_t) : tramp_mapping_t :=
  mk_mapping (from_addr m) (to_addr m) true (mutatee_side m) (cur_index m).
Definition with_index (m : tramp_mapping_t) (i : Z) : tramp_mapping_t :=
  mk_mapping (from_addr m) (to_addr m) (written m) (mutatee_side m) (u32 i).

(** The mappings to add and to update, as far as they are known. *)
Definition arrange_mapping (k : Z) (should_sort : bool) (v : list Z * list Z) : M state (list Z * list Z) :=
  m ← get_mapping k ;
  if negb (mutatee_side m) || (written m && negb should_sort) then mret v else
  put_mapping k (with_written m) ;;
  if should_sort || (cur_index m =? INDEX_INVALID) then mret (v.1 ++ [k], v.2)
  else mret (v.1, v.2 ++ [k]).

Fixpoint arrange_all (l : list Z) (should_sort : bool) (v : list Z * list Z) : M state (list Z * list Z) :=
  match l with
  | [] => mret v
  | k :: l' => v' ← arrange_mapping k should_sort v ; arrange_all l' should_sort v'
  end.

Definition mapping_le (a b : Z * tramp_mapping_t) : Prop := from_addr a.2 <= from_addr b.2.
#[export] Instance mapping_le_dec a b : Decision (mapping_le a b).
Proof. unfold mapping_le. apply _. Defined.

(** The mappings behind the pointers, and the pointers in the order of
    [mapping_sort]. *)
Fixpoint get_all (l : list Z) : M state (list (Z * tramp_mapping_t)) :=
  match l with [] => mret [] | k :: l' => m ← get_mapping k ; ms ← get_all l' ; mret ((k, m) :: ms) end.
Definition sort_mappings (l : list Z) : M state (list Z) :=
  ms ← get_all l ; mret (merge_sort mapping_le ms).*1.

Fixpoint assign_indices (l : list Z) (i : Z) : M state unit :=
  match l with
  | [] => mret tt
  | k :: l' => m ← get_mapping k ; put_mapping k (with_index m i) ;; assign_indices l' (i + 1)
  end.

Definition TRAP_HEADER_SIZE : Z := 32.
(** A new [trap_mapping_header]. *)
Definition header_bytes (num_entries : Z) : list Z :=
  le_bytes 4 TRAP_HEADER_SIG ++ le_bytes 4 (u32 num_entries) ++ le_bytes 4 (u32 (-1)) ++ padding ++ le_bytes 8 0 ++ le_bytes 8 0.

Definition allocateTable : M state unit :=
  aw ← gets (fun t => getAddressWidth (tm_as t)) ;
  let entry_size := aw * 2 in
  size ← gets table_mutatee_size ;
  if is_process then
    allocated ← gets table_allocated ;
    if allocated <? size then
      table ← gets current_table ;
      (if negb (table =? 0) then lift (space_free table) else mret tt) ;;
      set_allocated (size * 3 / 2) ;;
      allocated ← gets table_allocated ;
      (if allocated <? MIN_TRAP_TABLE_SIZE then set_allocated MIN_TRAP_TABLE_SIZE else mret tt) ;;
      allocated ← gets table_allocated ;
      table ← lift (space_malloc (u32 (allocated * entry_size))) ;
      set_table table ;;
      assertM (negb (table =? 0))
    else mret tt
  else
    table ← gets current_table ;
    assertM (table =? 0) ;;
    set_allocated size ;;
    header ← lift (space_malloc (u32 (size * entry_size + TRAP_HEADER_SIZE))) ;
    set_table_header header ;;
    result ← lift (writeDataSpace header (header_bytes size)) ;
    assertM result ;;
    set_table (u64 (header + TRAP_HEADER_SIZE)) ;;
    if negb isStaticBinary then
      symtab_do (addSysVDynamic DT_DYNINST header) ;; symtab_do addLibraryPrereq ;;
      symtab_do (addSysVDynamic DT_DYNINST header) ;; symtab_do addLibraryPrereq
    else mret tt.

(** The new entries, in a buffer. *)
Fixpoint entries_buffer (l : list Z) (aw : Z) : M state (list Z) :=
  match l with
  | [] => mret []
  | k :: l' =>
      m ← get_mapping k ;
      b1 ← writeToBuffer (from_addr m) aw ;
      b2 ← writeToBuffer (to_addr m) aw ;
      rest ← entries_buffer l' aw ;
      mret (b1 ++ b2 ++ rest)
  end.

Definition write_update (k : Z) : M state unit :=
  aw ← gets (fun t => getAddressWidth (tm_as t)) ;
  table ← gets current_table ;
  m ← get_mapping k ;
  b ← writeToBuffer (to_addr m) aw ;
  result ← lift (writeDataSpace (u64 (table + u32 (cur_index m * (u32 (aw * 2))) + aw)) b) ;
  assertM result.

(** The first library that has a variable gives it. *)
Definition first_of (cur new : option Z) : option Z := match cur with Some a => Some a | None => new end.
Definition lookup_variables (v : rt_variables) (libs : list rt_variables) : rt_variables :=
  foldl (fun v l => mk_rtvars (first_of (rv_used v) (rv_used l)) (first_of (rv_version v) (rv_version l))
                              (first_of (rv_table v) (rv_table l)) (first_of (rv_sorted v) (rv_sorted l))) v libs.

Definition variable (o : option Z) : M state Z := match o with Some a => mret a | None => fail FAssert end.

Definition write_variables (should_sort : bool) : M state unit :=
  vars ← gets tm_vars ;
  (match rv_table vars with
   | None =>
       let v := lookup_variables vars rtlib in
       set_vars v ;;
       variable (rv_used v) ;; variable (rv_version v) ;; variable (rv_table v) ;; variable (rv_sorted v) ;; mret tt
   | Some _ => mret tt
   end) ;;
  vars ← gets tm_vars ;
  used ← gets table_used ; p ← variable (rv_used vars) ; writeTrampVariable p used ;;
  version ← gets table_version ; set_version (version + 1) ;;
  version ← gets table_version ; p ← variable (rv_version vars) ; writeTrampVariable p version ;;
  table ← gets current_table ; p ← variable (rv_table vars) ; writeTrampVariable p table ;;
  p ← variable (rv_sorted vars) ; writeTrampVariable p (if should_sort then 1 else 0).

(** Which mappings go where: the pointers to add, in the order of the table, and
    those to update. *)
Definition plan_flush (should_sort : bool) : M state (list Z * list Z) :=
  (if should_sort then set_used 0 else mret tt) ;;
  keys ← gets (fun t => order (if should_sort then dom (tm_mapping t) else tm_updated t)) ;
  v ← arrange_all keys should_sort ([], []) ;
  set_updated (fun _ => ∅) ;;
  used ← gets table_used ; size ← gets table_mutatee_size ;
  assertM (u64 (Z.of_nat (length v.1) + used) =? size) ;;
  forM v.1 (fun k => m ← get_mapping k ; put_mapping k (with_written m)) ;;
  adds ← (if should_sort then sort_mappings v.1 else mret v.1) ;
  assign_indices adds used ;;
  mret (adds, v.2).

(** The size of a write is an unsigned int. *)
Definition write_entries (adds : list Z) : M state unit :=
  if Z.of_nat (length adds) =? 0 then mret tt else
  aw ← gets (fun t => getAddressWidth (tm_as t)) ;
  buffer ← entries_buffer adds aw ;
  assertM (Z.of_nat (length buffer) =? Z.of_nat (length adds) * (aw * 2)) ;;
  table ← gets current_table ; used ← gets table_used ;
  result ← lift (writeDataSpace (u64 (table + used * (aw * 2))) (take (Z.to_nat (u32 (Z.of_nat (length buffer)))) buffer)) ;
  assertM result ;;
  set_used (used + Z.of_nat (length adds)).

Definition write_updates (should_sort : bool) (upds : list Z) : M state unit :=
  if Z.of_nat (length upds) =? 0 then mret tt else
  assertM (negb should_sort) ;; forM upds write_update.

Definition flush : M state unit :=
  needs ← gets needs_updating ; block ← gets blockFlushes ;
  if negb needs || block then mret tt else
  size ← gets table_mutatee_size ; allocated ← gets table_allocated ;
  let should_sort := negb is_process || (allocated <? size) in
  v ← plan_flush should_sort ;
  allocateTable ;;
  write_entries v.1 ;;
  write_updates should_sort v.2 ;;
  (if is_process then write_variables should_sort else mret tt) ;;
  set_needs false.

End Mappings.
End trampTrapMappings.
