(* ===== verification/TrapMapOk.v ===== *)
(** * The trap mappings and the plan of a flush

    The invariant that ties the mappings to their counters and to the entries of the
    table, and what adding does to it; then the first half of a flush, which decides
    which mappings go to which index.  TrapFlush shows what reaches the memory. *)
From stdpp Require Import base gmap list sorting.
From S2P Require Import Prelude RTCommon RTLinux TrapMap.
Import trampTrapMappings.

(** ** The mappings *)

Definition with_map {S} (mp : gmap Z tramp_mapping_t) (t : trap_maps S) : trap_maps S :=
  mk_maps mp (tm_updated t) (needs_updating t) (tm_as t) (tm_vars t) (table_version t) (table_used t)
    (table_allocated t) (table_mutatee_size t) (current_table t) (table_header t) (blockFlushes t) (tm_symtab t).

(** The mappings that belong into the mutatee. *)
Definition in_mutatee (mp : gmap Z tramp_mapping_t) (k : Z) : Prop := exists m, mp !! k = Some m /\ mutatee_side m = true.

(** [l] are the keys in the table, in its order. *)
Record maps_ok {S} (t : trap_maps S) (l : list Z) : Prop := {
  mo_from : forall k m, tm_mapping t !! k = Some m -> from_addr m = k;
  mo_keys : exists L, NoDup L /\ (forall k, k ∈ L <-> in_mutatee (tm_mapping t) k) /\ table_mutatee_size t = Z.of_nat (length L);
  mo_small : table_mutatee_size t < 2 ^ 31;
  mo_used : table_used t = Z.of_nat (length l);
  mo_nodup : NoDup l;
  mo_index : forall i k, l !! i = Some k -> exists m, tm_mapping t !! k = Some m /\ mutatee_side m = true /\ cur_index m = Z.of_nat i;
  mo_new : forall k m, tm_mapping t !! k = Some m -> k ∉ l -> cur_index m = INDEX_INVALID /\ written m = false;
  mo_pending : forall k m, tm_mapping t !! k = Some m -> mutatee_side m = true -> written m = false -> k ∈ tm_updated t;
  mo_updated : forall k, k ∈ tm_updated t -> is_Some (tm_mapping t !! k)
}.

Lemma maps_ok_new {S} (a : S) : maps_ok (trampTrapMappings_new a) [].
Proof.
  split; simpl; try done.
  - exists []. split; [constructor|]. split; [|done]. intros k. split; [by intros ?%elem_of_nil|]. intros (m & Hm & _). done.
  - constructor.
Qed.

(** ** Adding *)

Lemma mutatee_keys_add mp L k m :
  NoDup L -> (forall x, x ∈ L <-> in_mutatee mp x) -> mutatee_side m = true ->
  (forall m0, mp !! k = Some m0 -> mutatee_side m0 = true) ->
  exists L', NoDup L' /\ (forall x, x ∈ L' <-> in_mutatee (<[k := m]> mp) x) /\
    length L' = (length L + if decide (is_Some (mp !! k)) then 0 else 1)%nat.
Proof.
  intros Hnd HL Hs Hold. assert (forall x, in_mutatee (<[k := m]> mp) x <-> x = k \/ in_mutatee mp x) as Hin.
  { intros x. unfold in_mutatee. destruct (decide (x = k)) as [->|Hne]; [rewrite lookup_insert_eq; naive_solver|].
    rewrite lookup_insert_ne by done. naive_solver. }
  case_decide as E.
  - exists L. split; [done|]. split; [|lia]. intros x. rewrite Hin, HL. split; [by right|]. intros [->|?]; [|done].
    destruct E as [m0 E]. exists m0. split; [done|by apply Hold].
  - exists (k :: L). split; [|split; [|simpl; lia]].
    + constructor; [|done]. rewrite HL. intros (m0 & E' & _). eauto.
    + intros x. rewrite Hin, elem_of_cons, HL. done.
Qed.

Lemma mutatee_keys_other mp L k m :
  NoDup L -> (forall x, x ∈ L <-> in_mutatee mp x) -> mutatee_side m = false ->
  (forall m0, mp !! k = Some m0 -> mutatee_side m0 = false) -> forall x, x ∈ L <-> in_mutatee (<[k := m]> mp) x.
Proof.
  intros Hnd HL Hs Hold x. rewrite HL. unfold in_mutatee. destruct (decide (x = k)) as [->|Hne]; [|by rewrite lookup_insert_ne].
  rewrite lookup_insert_eq. split; [intros (m0 & E & E'); rewrite (Hold _ E) in E'; done|]. intros (m0 & [= <-] & E'). congruence.
Qed.

(** What adding does to the state: nothing else changes. *)
Definition new_mapping (mp : gmap Z tramp_mapping_t) (k to : Z) (side : bool) : tramp_mapping_t :=
  mk_mapping k to false side (match mp !! k with Some m => cur_index m | None => INDEX_INVALID end).
Definition added {S} (t : trap_maps S) (k to : Z) (side : bool) : trap_maps S :=
  mk_maps (<[k := new_mapping (tm_mapping t) k to side]> (tm_mapping t))
    ({[k]} ∪ tm_updated t) true (tm_as t) (tm_vars t) (table_version t) (table_used t) (table_allocated t)
    (table_mutatee_size t + if side && negb (bool_decide (is_Some (tm_mapping t !! k))) then 1 else 0)
    (current_table t) (table_header t) (blockFlushes t) (tm_symtab t).

Lemma addTrapMapping_run {S} (t : trap_maps S) l from to side :
  maps_ok t l -> table_mutatee_size t + 1 < 2 ^ 31 -> 0 <= from -> from + 1 < 2 ^ 64 ->
  (forall m, tm_mapping t !! (from + 1) = Some m -> mutatee_side m = side) ->
  addTrapMapping from to side t = Ret (tt, added t (from + 1) to side) /\ maps_ok (added t (from + 1) to side) l.
Proof.
  intros [M1 (L & L1 & L2 & L3) M3 M4 M5 M6 M7 M8 M9] Hsz Hf Hf2 Hside. set (k := from + 1) in *. split.
  - unfold addTrapMapping. rewrite u64_id by lia. fold k. rewrite bind_gets. unfold added.
    destruct side, (bool_decide (is_Some (tm_mapping t !! k))) eqn:E; unfold set_mapping, set_updated, set_needs, set_mutatee_size, modify, mbind, M_bind, gets, mret, M_ret; simpl;
      rewrite ?Z.add_0_r, ?u64_id by lia; done.
  - set (mp := <[k := new_mapping (tm_mapping t) k to side]> (tm_mapping t)).
    assert (forall x m, mp !! x = Some m -> (x = k /\ from_addr m = k /\ written m = false /\ mutatee_side m = side /\
      cur_index m = match tm_mapping t !! k with Some m => cur_index m | None => INDEX_INVALID end) \/ (x <> k /\ tm_mapping t !! x = Some m)) as Hcase.
    { intros x m. unfold mp. rewrite lookup_insert. case_decide; [intros [= <-]; left; by subst|right; by split]. }
    split; simpl; fold mp; try done.
    + intros x m Hm. destruct (Hcase x m Hm) as [(-> & ? & _)|[_ Hx]]; [done|by apply M1].
    + destruct side; simpl.
      * destruct (mutatee_keys_add (tm_mapping t) L k (new_mapping (tm_mapping t) k to true) L1 L2 eq_refl) as (L' & N1 & N2 & N3); [intros m0 Hm0; by apply Hside|].
        exists L'. split_and!; try done. rewrite N3, L3. case_decide as E; [rewrite bool_decide_true by done|rewrite bool_decide_false by done]; simpl; lia.
      * exists L. split_and!; [done| |lia]. by apply mutatee_keys_other.
    + destruct (side && _); lia.
    + intros i x Hx. destruct (M6 i x Hx) as (m & Hm & Hs & Hi). unfold mp. destruct (decide (x = k)) as [->|Hne]; [|rewrite lookup_insert_ne by done; eauto].
      rewrite lookup_insert_eq. eexists. split; [done|]. unfold new_mapping. simpl. rewrite Hm. split; [by rewrite <- (Hside _ Hm)|done].
    + intros x m Hm Hx. destruct (Hcase x m Hm) as [(-> & _ & Hw & _ & Hi)|[_ Hx']]; [|by apply (M7 x m)]. split; [|done]. rewrite Hi.
      destruct (tm_mapping t !! k) as [m0|] eqn:E; [|done]. by apply (M7 k).
    + intros x m Hm Hs Hw. destruct (Hcase x m Hm) as [(-> & _)|[_ Hx']]; [set_solver|]. apply elem_of_union_r. by eapply M8.
    + intros x Hx. unfold mp. rewrite lookup_insert. case_decide; [eauto|]. apply M9. set_solver.
Qed.

(** ** Planning a flush *)

Definition picks (should_sort : bool) (m : tramp_mapping_t) : bool := mutatee_side m && (negb (written m) || should_sort).
Definition mark (should_sort : bool) (m : tramp_mapping_t) : tramp_mapping_t := if picks should_sort m then with_written m else m.
Definition to_add (should_sort : bool) (m : tramp_mapping_t) : bool := picks should_sort m && (should_sort || (cur_index m =? INDEX_INVALID)).
Definition to_update (should_sort : bool) (m : tramp_mapping_t) : bool := picks should_sort m && negb (should_sort || (cur_index m =? INDEX_INVALID)).

Definition selects (p : tramp_mapping_t -> bool) (mp : gmap Z tramp_mapping_t) (l : list Z) (k : Z) : Prop :=
  k ∈ l /\ exists m, mp !! k = Some m /\ p m = true.

Section Plan.
Context {S : Type} {space : Space S} {walk : WalkOrder}.

Lemma get_mapping_run (t : trap_maps S) k m : tm_mapping t !! k = Some m -> get_mapping k t = Ret (m, t).
Proof. intros E. unfold get_mapping. by rewrite E. Qed.

Lemma selects_cons p mp k l m x : mp !! k = Some m -> k ∉ l ->
  selects p mp (k :: l) x <-> (x = k /\ p m = true) \/ selects p mp l x.
Proof. intros Hk Hl. unfold selects. rewrite elem_of_cons. naive_solver. Qed.

Lemma selects_insert p mp k l m x : k ∉ l -> selects p (<[k := m]> mp) l x <-> selects p mp l x.
Proof.
  intros Hl. unfold selects. split; intros [Hx (m0 & Hm0 & Hp)]; (split; [done|]); exists m0; (split; [|done]).
  - rewrite lookup_insert_ne in Hm0; [done|]. by intros ->.
  - rewrite lookup_insert_ne; [done|]. by intros ->.
Qed.

Lemma arrange_run ss (t : trap_maps S) k m v : tm_mapping t !! k = Some m ->
  arrange_mapping k ss v t = Ret ((v.1 ++ (if to_add ss m then [k] else []), v.2 ++ (if to_update ss m then [k] else [])),
    with_map (<[k := mark ss m]> (tm_mapping t)) t).
Proof.
  intros Hm. unfold arrange_mapping. rewrite (bind_ret _ _ _ _ _ (get_mapping_run t k m Hm)). destruct v as [a u].
  unfold mark, to_add, to_update, picks. destruct (mutatee_side m) eqn:Es, (written m) eqn:Ew, ss; simpl;
    unfold put_mapping, set_mapping, modify, mbind, M_bind, mret, M_ret, with_map; simpl; rewrite ?app_nil_r, ?insert_id by done;
    try (by destruct t); destruct (cur_index m =? INDEX_INVALID); simpl; by rewrite ?app_nil_r.
Qed.

Lemma arrange_all_run ss l : forall (t : trap_maps S) a u, NoDup l -> (forall k, k ∈ l -> is_Some (tm_mapping t !! k)) ->
  exists A U mp, arrange_all l ss (a, u) t = Ret ((a ++ A, u ++ U), with_map mp t) /\ NoDup A /\
    (forall k, k ∈ A <-> selects (to_add ss) (tm_mapping t) l k) /\ (forall k, k ∈ U <-> selects (to_update ss) (tm_mapping t) l k) /\
    forall k, mp !! k = if decide (k ∈ l) then mark ss <$> tm_mapping t !! k else tm_mapping t !! k.
Proof.
  induction l as [|k l IH]; intros t a u Hnd Hin.
  { exists [], [], (tm_mapping t). rewrite !app_nil_r. split_and!; [by destruct t|constructor|..].
    - intros k. split; [by intros ?%elem_of_nil|]. intros [?%elem_of_nil _]. done.
    - intros k. split; [by intros ?%elem_of_nil|]. intros [?%elem_of_nil _]. done.
    - intros k. rewrite decide_False; [done|]. by intros ?%elem_of_nil. }
  apply NoDup_cons in Hnd as [Hk Hnd]. destruct (Hin k ltac:(by left)) as [m Hm]. cbn [arrange_all].
  rewrite (bind_ret _ _ _ _ _ (arrange_run ss t k m (a, u) Hm)). cbn [fst snd].
  set (t1 := with_map _ t). destruct (IH t1 (a ++ if to_add ss m then [k] else []) (u ++ if to_update ss m then [k] else []) Hnd) as (A & U & mp & E & N & HA & HU & Hmp).
  { intros x Hx. unfold t1. simpl. rewrite lookup_insert. case_decide; [eauto|]. apply Hin. by right. }
  rewrite E, <- !app_assoc. unfold t1 in HA, HU, Hmp. simpl in HA, HU, Hmp. setoid_rewrite (selects_insert _ _ k l) in HA; [|done].
  setoid_rewrite (selects_insert _ _ k l) in HU; [|done].
  eexists _, _, mp. split; [reflexivity|]. split_and!.
  - destruct (to_add ss m); [|done]. simpl. constructor; [|done]. rewrite HA. by intros [? _].
  - intros x. rewrite elem_of_app, (selects_cons _ _ k l m x Hm Hk), HA. destruct (to_add ss m); rewrite ?list_elem_of_singleton, ?elem_of_nil; naive_solver.
  - intros x. rewrite elem_of_app, (selects_cons _ _ k l m x Hm Hk), HU. destruct (to_update ss m); rewrite ?list_elem_of_singleton, ?elem_of_nil; naive_solver.
  - intros x. rewrite Hmp, lookup_insert. destruct (decide (k = x)) as [<-|Hne].
    + rewrite decide_False by done. rewrite decide_True by (by left). by rewrite Hm.
    + destruct (decide (x ∈ l)) as [Hx|Hx]; [rewrite decide_True by (by right); done|]. rewrite decide_False; [done|]. set_solver.
Qed.

(** Marking what is marked already. *)
Lemma mark_written_run l : forall (t : trap_maps S), (forall k, k ∈ l -> exists m, tm_mapping t !! k = Some m /\ written m = true) ->
  forM l (fun k => m ← get_mapping k ; put_mapping k (with_written m)) t = Ret (tt, t).
Proof.
  induction l as [|k l IH]; intros t Hl; [done|]. cbn [forM]. destruct (Hl k ltac:(by left)) as (m & Hm & Hw).
  rewrite (bind_ret _ _ _ tt t); [apply IH; intros; apply Hl; by right|]. rewrite (bind_ret _ _ _ _ _ (get_mapping_run t k m Hm)).
  assert (with_written m = m) as -> by (destruct m; simpl in *; by subst).
  unfold put_mapping, set_mapping, modify. rewrite insert_id by done. by destruct t.
Qed.

Lemma get_all_run l : forall (t : trap_maps S), (forall k, k ∈ l -> is_Some (tm_mapping t !! k)) ->
  exists ms, get_all l t = Ret (ms, t) /\ ms.*1 = l /\ forall k m, (k, m) ∈ ms -> tm_mapping t !! k = Some m.
Proof.
  induction l as [|k l IH]; intros t Hl; [exists []; split_and!; try done; by intros ? ? ?%elem_of_nil|].
  destruct (Hl k ltac:(by left)) as [m Hm]. destruct (IH t) as (ms & E & H1 & H2); [intros; apply Hl; by right|].
  exists ((k, m) :: ms). cbn [get_all]. rewrite (bind_ret _ _ _ _ _ (get_mapping_run t k m Hm)), (bind_ret _ _ _ _ _ E). split_and!; [done|csimpl; by rewrite H1|].
  intros x y [[= -> ->]|Hx]%elem_of_cons; [done|by apply H2].
Qed.

#[local] Instance mapping_le_trans : Transitive mapping_le.
Proof. intros x y z. unfold mapping_le. lia. Qed.
#[local] Instance mapping_le_total : Total mapping_le.
Proof. intros x y. unfold mapping_le. lia. Qed.

Lemma sort_mappings_run l (t : trap_maps S) :
  (forall k, k ∈ l -> is_Some (tm_mapping t !! k)) -> (forall k m, tm_mapping t !! k = Some m -> from_addr m = k) -> NoDup l ->
  exists l', sort_mappings l t = Ret (l', t) /\ l' ≡ₚ l /\ StronglySorted Z.lt l'.
Proof.
  intros Hl Hfrom Hnd. destruct (get_all_run l t Hl) as (ms & E & H1 & H2). exists (merge_sort mapping_le ms).*1. unfold sort_mappings.
  rewrite (bind_ret _ _ _ _ _ E). split; [done|].
  assert (merge_sort mapping_le ms ≡ₚ ms) as HP by apply merge_sort_Permutation.
  assert ((merge_sort mapping_le ms).*1 ≡ₚ l) as HP' by (by rewrite HP, H1). split; [done|].
  assert (NoDup (merge_sort mapping_le ms).*1) as HN by (by rewrite HP').
  assert (StronglySorted mapping_le (merge_sort mapping_le ms)) as HS by (apply StronglySorted_merge_sort; apply _).
  assert (forall k m, (k, m) ∈ merge_sort mapping_le ms -> from_addr m = k) as Hk by (intros k m Hin; rewrite HP in Hin; eauto).
  clear E H1 H2 HP HP'. revert HN HS Hk. generalize (merge_sort mapping_le ms) as xs. induction xs as [|[k m] xs IH]; intros HN HS Hk; [constructor|].
  simpl in *. apply NoDup_cons in HN as [HN1 HN2]. apply StronglySorted_inv in HS as [HS1 HS2]. constructor; [apply IH; try done; intros; apply Hk; by right|].
  apply Forall_forall. intros y ([y' m'] & -> & Hy)%list_elem_of_fmap. simpl. rewrite Forall_forall in HS2. specialize (HS2 _ Hy). unfold mapping_le in HS2. simpl in HS2.
  rewrite (Hk k m), (Hk y' m') in HS2 by (set_solver). assert (y' <> k); [|lia]. intros ->. apply HN1. apply list_elem_of_fmap. by exists (k, m').
Qed.

Lemma assign_indices_run l : forall (t : trap_maps S) (i : nat), (forall k, k ∈ l -> is_Some (tm_mapping t !! k)) -> NoDup l ->
  Z.of_nat (i + length l) < 2 ^ 32 ->
  exists mp, assign_indices l (Z.of_nat i) t = Ret (tt, with_map mp t) /\
    (forall j k, l !! j = Some k -> mp !! k = (fun m => with_index m (Z.of_nat (i + j))) <$> tm_mapping t !! k) /\
    (forall k, k ∉ l -> mp !! k = tm_mapping t !! k).
Proof.
  induction l as [|k l IH]; intros t i Hl Hnd Hi; [exists (tm_mapping t); split_and!; [by destruct t|done|done]|].
  apply NoDup_cons in Hnd as [Hk Hnd]. destruct (Hl k ltac:(by left)) as [m Hm]. cbn [assign_indices].
  rewrite (bind_ret _ _ _ _ _ (get_mapping_run t k m Hm)). set (t1 := with_map (<[k := with_index m (Z.of_nat i)]> (tm_mapping t)) t).
  rewrite (bind_ret _ _ _ tt t1) by done. destruct (IH t1 (Datatypes.S i)) as (mp & E & H1 & H2).
  { intros x Hx. unfold t1. simpl. rewrite lookup_insert. case_decide; [eauto|]. apply Hl. by right. }
  { done. }
  { simpl in Hi. lia. }
  replace (Z.of_nat i + 1) with (Z.of_nat (Datatypes.S i)) by lia. rewrite E. exists mp. split; [done|]. split.
  - intros [|j] x; simpl.
    + intros [= <-]. rewrite H2 by done. simpl. rewrite lookup_insert_eq, Hm. simpl. by rewrite Nat.add_0_r.
    + intros Hx. rewrite (H1 j x Hx). simpl. rewrite lookup_insert_ne by (intros ->; apply Hk; by eapply list_elem_of_lookup_2).
      by replace (i + Datatypes.S j)%nat with (Datatypes.S (i + j)) by lia.
  - intros x [Hx1 Hx2]%not_elem_of_cons. rewrite H2 by done. simpl. by rewrite lookup_insert_ne.
Qed.

(** The outcome of planning: [base] stays in the table, [adds] follows. *)
Definition planned (t : trap_maps S) (mp : gmap Z tramp_mapping_t) (used : Z) : trap_maps S :=
  mk_maps mp ∅ (needs_updating t) (tm_as t) (tm_vars t) (table_version t) used
    (table_allocated t) (table_mutatee_size t) (current_table t) (table_header t) (blockFlushes t) (tm_symtab t).

Definition same_mapping (m m' : tramp_mapping_t) : Prop :=
  from_addr m' = from_addr m /\ to_addr m' = to_addr m /\ mutatee_side m' = mutatee_side m.

Record flush_plan (mp0 : gmap Z tramp_mapping_t) (base adds upds : list Z) (mp : gmap Z tramp_mapping_t) : Prop := {
  fp_nodup : NoDup (base ++ adds);
  fp_in : forall k, k ∈ base ++ adds <-> in_mutatee mp0 k;
  fp_upds : forall k, k ∈ upds -> k ∈ base;
  fp_old : forall k m, k ∈ base -> mp0 !! k = Some m -> written m = true \/ k ∈ upds;
  fp_same : forall k, option_Forall2 same_mapping (mp0 !! k) (mp !! k);
  fp_written : forall k m, mp !! k = Some m -> mutatee_side m = true -> written m = true;
  fp_other : forall k m, mp !! k = Some m -> mutatee_side m = false -> mp0 !! k = Some m;
  fp_index : forall i k m, (base ++ adds) !! i = Some k -> mp !! k = Some m -> cur_index m = Z.of_nat i
}.

Lemma flush_plan_same mp0 base adds upds mp k m0 : flush_plan mp0 base adds upds mp -> mp0 !! k = Some m0 ->
  exists m, mp !! k = Some m /\ same_mapping m0 m.
Proof. intros HP Hm0. pose proof (fp_same _ _ _ _ _ HP k) as HS. rewrite Hm0 in HS. inversion HS as [? m1 HSm E1 E2|]; subst. by exists m1. Qed.
Lemma flush_plan_back mp0 base adds upds mp k m : flush_plan mp0 base adds upds mp -> mp !! k = Some m ->
  exists m0, mp0 !! k = Some m0 /\ same_mapping m0 m.
Proof. intros HP Hm. pose proof (fp_same _ _ _ _ _ HP k) as HS. rewrite Hm in HS. inversion HS as [m1 ? HSm E1 E2|]; subst. by exists m1. Qed.

(** What stays in the table when it is not rebuilt. *)
Definition kept_keys (should_sort : bool) (l : list Z) : list Z := if should_sort then [] else l.

(** The keys that are walked, and which of them are added. *)
Lemma walk_keys (ss : bool) (t : trap_maps S) l (keys := order (if ss then dom (tm_mapping t) : gset Z else tm_updated t)) : maps_ok t l ->
  NoDup keys /\ (forall k, k ∈ keys -> is_Some (tm_mapping t !! k)) /\
  (forall k, in_mutatee (tm_mapping t) k <-> k ∈ kept_keys ss l \/ selects (to_add ss) (tm_mapping t) keys k) /\
  (forall k, k ∈ kept_keys ss l -> ~ selects (to_add ss) (tm_mapping t) keys k).
Proof.
  intros [M1 M2 M3 M4 M5 M6 M7 M8 M9]. unfold keys.
  assert (forall X k, k ∈ order X <-> k ∈ X) as Hord by (intros X k; rewrite (order_perm X); apply elem_of_elements).
  assert (forall X, NoDup (order X)) as Hnd by (intros X; rewrite (order_perm X); apply NoDup_elements).
  split; [done|]. destruct ss.
  - split_and!.
    + intros k. rewrite Hord. by rewrite elem_of_dom.
    + intros k. unfold selects. rewrite Hord, elem_of_dom. split.
      * intros (m & Hm & Hs). right. split; [eauto|]. exists m. split; [done|]. unfold to_add, picks. by rewrite Hs, orb_true_r.
      * intros [?%elem_of_nil|[_ (m & Hm & Hp)]]; [done|]. exists m. split; [done|]. unfold to_add, picks in Hp. by destruct (mutatee_side m).
    + by intros k ?%elem_of_nil.
  - split_and!.
    + intros k. rewrite Hord. apply M9.
    + intros k. unfold selects. rewrite Hord. split.
      * intros (m & Hm & Hs). destruct (decide (k ∈ l)) as [|Hl]; [by left|]. right. destruct (M7 k m Hm Hl) as [Hi Hw].
        split; [by apply (M8 k m)|]. exists m. split; [done|]. unfold to_add, picks. by rewrite Hs, Hw, Hi.
      * intros [Hl|[_ (m & Hm & Hp)]].
        -- apply list_elem_of_lookup in Hl as [i Hi]. destruct (M6 i k Hi) as (m & Hm & Hs & _). by exists m.
        -- exists m. split; [done|]. unfold to_add, picks in Hp. by destruct (mutatee_side m).
    + intros k Hl [_ (m & Hm & Hp)]. apply list_elem_of_lookup in Hl as [i Hi]. destruct (M6 i k Hi) as (m' & Hm' & _ & Hidx).
      assert (m' = m) as -> by congruence. unfold to_add in Hp. destruct (picks false m); [|done]. simpl in Hp. zbool.
      apply lookup_lt_Some in Hi. destruct M2 as (L & L1 & L2 & L3). assert (length l <= length L)%nat.
      { apply submseteq_length, NoDup_submseteq; [done|]. intros x [j Hj]%list_elem_of_lookup. apply L2. destruct (M6 j x Hj) as (mx & ? & ? & _). by exists mx. }
      simpl in Hi. unfold INDEX_INVALID in Hp. lia.
Qed.

Lemma plan_outcome (ss : bool) (t : trap_maps S) l U (mp1 : gmap Z tramp_mapping_t) adds mp
    (base := kept_keys ss l) (keys := order (if ss then dom (tm_mapping t) : gset Z else tm_updated t)) :
  maps_ok t l -> Z.of_nat (length (base ++ adds)) < 2 ^ 31 -> NoDup (base ++ adds) -> (forall k, k ∈ base ++ adds <-> in_mutatee (tm_mapping t) k) ->
  (forall k, k ∈ U <-> selects (to_update ss) (tm_mapping t) keys k) ->
  (forall k m', mp1 !! k = Some m' -> (exists m, k ∈ keys /\ tm_mapping t !! k = Some m /\ m' = mark ss m) \/ (k ∉ keys /\ tm_mapping t !! k = Some m')) ->
  (forall k, mp1 !! k = None <-> tm_mapping t !! k = None) ->
  (forall j k, adds !! j = Some k -> mp !! k = (fun m => with_index m (Z.of_nat (length base + j))) <$> mp1 !! k) ->
  (forall k, k ∉ adds -> mp !! k = mp1 !! k) ->
  flush_plan (tm_mapping t) base adds U mp.
Proof.
  intros HO Hsz HN Hin HU Hm1 Hd1 H1 H2. pose proof HO as [M1 M2 M3 M4 M5 M6 M7 M8 M9]. rewrite length_app in Hsz.
  assert (forall X k, k ∈ order X <-> k ∈ X) as Hord by (intros X k; rewrite (order_perm X); apply elem_of_elements).
  assert (forall k m', mp !! k = Some m' -> exists m1, mp1 !! k = Some m1 /\ from_addr m' = from_addr m1 /\ to_addr m' = to_addr m1 /\
    mutatee_side m' = mutatee_side m1 /\ written m' = written m1 /\ (k ∉ adds -> m' = m1)) as Hmp.
  { intros k m' Hm'. destruct (decide (k ∈ adds)) as [Hk|Hk]; [|rewrite H2 in Hm' by done; exists m'; by split_and!].
    apply list_elem_of_lookup in Hk as Hj. destruct Hj as [j Hj]. rewrite (H1 j k Hj) in Hm'. apply fmap_Some in Hm' as (m1 & Hm' & ->). exists m1. by split_and!. }
  assert (forall k m1, mp1 !! k = Some m1 -> exists m, tm_mapping t !! k = Some m /\ same_mapping m m1 /\ cur_index m1 = cur_index m /\
    (mutatee_side m1 = false -> m1 = m) /\ (mutatee_side m1 = true -> written m1 = true)) as Hold.
  { intros k m1 [(m & Hk & Hm & ->)|[Hk Hm]]%Hm1.
    - exists m. unfold mark, picks. destruct (mutatee_side m) eqn:Es, (written m) eqn:Ew, ss; simpl; rewrite ?Es, ?Ew; split_and!; done.
    - exists m1. split_and!; try done. intros Hs. destruct (written m1) eqn:Ew; [done|]. exfalso. apply Hk. unfold keys. rewrite Hord.
      destruct ss; [by apply elem_of_dom|by eapply M8]. }
  split; try done.
  - intros k [_ (m & Hm & Hp)]%HU. unfold to_update in Hp. apply andb_true_iff in Hp as [_ Hp]. destruct ss; [done|]. simpl in Hp. apply negb_true_iff, Z.eqb_neq in Hp.
    unfold base. simpl. destruct (decide (k ∈ l)) as [|Hl]; [done|]. destruct (M7 k m Hm Hl) as [E _]. congruence.
  - intros k m Hk Hm. unfold base, kept_keys in Hk. destruct ss; [by apply elem_of_nil in Hk|]. destruct (written m) eqn:Ew; [by left|]. right.
    apply list_elem_of_lookup in Hk as [i Hi]. destruct (M6 i k Hi) as (m' & Hm' & Hs & Hidx). assert (m' = m) as -> by congruence.
    apply HU. split; [unfold keys; rewrite Hord; by eapply M8|]. exists m. split; [done|]. unfold to_update, picks. rewrite Hs, Ew. simpl.
    apply lookup_lt_Some in Hi. unfold base in Hsz. simpl in Hsz. apply negb_true_iff, Z.eqb_neq. unfold INDEX_INVALID. lia.
  - intros k. destruct (tm_mapping t !! k) as [m|] eqn:Hm.
    + assert (is_Some (mp !! k)) as [m' Hm'].
      { assert (is_Some (mp1 !! k)) as [m1 E1] by (apply not_eq_None_Some; rewrite Hd1; congruence). destruct (decide (k ∈ adds)) as [Hk|Hk]; [|rewrite H2 by done; eauto].
        apply list_elem_of_lookup in Hk as [j Hj]. rewrite (H1 j k Hj), E1. eauto. }
      rewrite Hm'. constructor. destruct (Hmp k m' Hm') as (m1 & E1 & ? & ? & ? & _). destruct (Hold k m1 E1) as (m0 & E0 & (? & ? & ?) & _).
      assert (m0 = m) as -> by congruence. split_and!; congruence.
    + destruct (mp !! k) as [m'|] eqn:Hm'; [|constructor]. destruct (Hmp k m' Hm') as (m1 & E1 & _). by rewrite (proj2 (Hd1 k) Hm) in E1.
  - intros k m' Hm' Hs. destruct (Hmp k m' Hm') as (m1 & E1 & _ & _ & Es & -> & _). destruct (Hold k m1 E1) as (m0 & E0 & _ & _ & _ & Hw). apply Hw. congruence.
  - intros k m' Hm' Hs. destruct (Hmp k m' Hm') as (m1 & E1 & _ & _ & Es & _ & Hna). destruct (Hold k m1 E1) as (m0 & E0 & Hsame & _ & Hf & _).
    assert (k ∉ adds) as Hna'.
    { intros Hk. destruct (proj1 (Hin k) ltac:(apply elem_of_app; by right)) as (m & Hm & Hs'). assert (m = m0) as -> by congruence. destruct Hsame as (_ & _ & ?). congruence. }
    pose proof (Hna Hna'). pose proof (Hf ltac:(congruence)). congruence.
  - intros i k m' Hi Hm'. apply lookup_app_Some in Hi as [Hi|[Hge Hi]].
    + assert (k ∉ adds) as Hk by (apply NoDup_app in HN as (_ & HN & _); apply HN; by eapply list_elem_of_lookup_2).
      destruct (Hmp k m' Hm') as (m1 & E1 & _ & _ & _ & _ & Hna). rewrite (Hna Hk). destruct (Hold k m1 E1) as (m0 & E0 & _ & -> & _).
      unfold base, kept_keys in Hi. destruct ss; [done|]. destruct (M6 i k Hi) as (m & Hm & _ & <-). congruence.
    + rewrite (H1 _ k Hi) in Hm'. apply fmap_Some in Hm' as (m1 & E1 & ->). simpl. apply lookup_lt_Some in Hi. rewrite u32_id by lia. f_equal. lia.
Qed.

Lemma plan_flush_run (ss : bool) (t : trap_maps S) l (base := kept_keys ss l) : maps_ok t l ->
  exists adds upds mp, plan_flush ss t = Ret ((adds, upds), planned t mp (Z.of_nat (length base))) /\
    flush_plan (tm_mapping t) base adds upds mp /\ Z.of_nat (length (base ++ adds)) = table_mutatee_size t /\
    (ss = true -> upds = [] /\ StronglySorted Z.lt adds).
Proof.
  intros HO. pose proof HO as [M1 (L & L1 & L2 & L3) M3 M4 M5 M6 M7 M8 M9]. destruct (walk_keys ss t l HO) as (K1 & K2 & K3 & K4).
  set (keys := order _) in *. set (t0 := mk_maps (tm_mapping t) (tm_updated t) (needs_updating t) (tm_as t) (tm_vars t) (table_version t)
    (Z.of_nat (length base)) (table_allocated t) (table_mutatee_size t) (current_table t) (table_header t) (blockFlushes t) (tm_symtab t)).
  destruct (arrange_all_run ss keys t0 [] [] K1 K2) as (A & U & mp1 & EA & NA & HA & HU & Hmp1). simpl in EA, HA, HU, Hmp1.
  assert (NoDup (base ++ A)) as HN.
  { apply NoDup_app. split_and!; [by unfold base, kept_keys; destruct ss; [constructor|]| |done]. intros k Hk Hk'. apply (K4 k Hk). by apply HA. }
  assert (forall k, k ∈ base ++ A <-> in_mutatee (tm_mapping t) k) as Hin by (intros k; rewrite elem_of_app, HA, K3; done).
  assert (Z.of_nat (length (base ++ A)) = table_mutatee_size t) as Hlen.
  { rewrite L3. f_equal. apply Permutation_length, NoDup_Permutation; [done|done|]. intros k. by rewrite Hin, L2. }
  assert (forall k, k ∈ A -> exists m, mp1 !! k = Some m /\ written m = true) as HAw.
  { intros k [Hk (m & Hm & Hp)]%HA. rewrite Hmp1, decide_True, Hm by done. eexists. split; [done|]. unfold to_add in Hp. unfold mark. destruct (picks ss m); [done|done]. }
  set (t1 := planned t mp1 (Z.of_nat (length base))).
  assert (forall k m', mp1 !! k = Some m' -> exists m, tm_mapping t !! k = Some m /\ same_mapping m m' /\ cur_index m' = cur_index m /\
    (k ∈ keys -> m' = mark ss m) /\ (k ∉ keys -> m' = m)) as Hold.
  { intros k m'. rewrite Hmp1. destruct (decide (k ∈ keys)) as [Hk|Hk]; intros Hm'.
    - apply fmap_Some in Hm' as (m & Hm & ->). exists m. split; [done|]. split; [|done || split_and!; try done; unfold mark; by destruct (picks ss m)].
      unfold mark. by destruct (picks ss m).
    - exists m'. by split_and!. }
  assert (exists adds, (if ss then sort_mappings A else mret A) t1 = Ret (adds, t1) /\ adds ≡ₚ A /\ (ss = true -> StronglySorted Z.lt adds)) as (adds & ES & HP & Hss).
  { destruct ss; [|by exists A]. destruct (sort_mappings_run A t1) as (adds & E & HP & Hs); [| |done|by exists adds].
    - intros k Hk. destruct (HAw k Hk) as (m & Hm & _). eauto.
    - intros k m' (m & Hm & (Hf & _) & _)%Hold. rewrite Hf. by apply M1. }
  assert (NoDup adds /\ NoDup (base ++ adds) /\ Z.of_nat (length (base ++ adds)) = table_mutatee_size t /\ (forall k, k ∈ base ++ adds <-> in_mutatee (tm_mapping t) k))
    as (HN1 & HN2 & Hlen2 & Hin2).
  { split_and!; [by rewrite HP|by rewrite HP|by rewrite HP|]. intros k. by rewrite HP. }
  destruct (assign_indices_run adds t1 (length base)) as (mp & EI & H1 & H2); [intros k Hk; rewrite HP in Hk; destruct (HAw k Hk) as (m & Hm & _); eauto|done|rewrite <- length_app; lia|].
  exists adds, U, mp. split; [|split; [|split; [done|]]].
  - unfold plan_flush. rewrite (bind_ret _ _ _ tt t0) by (unfold t0, base, kept_keys; destruct ss; [done|]; rewrite <- M4; by destruct t).
    rewrite bind_gets. simpl tm_mapping. simpl tm_updated. fold keys. rewrite (bind_ret _ _ _ _ _ EA). cbn [fst snd app].
    rewrite (bind_ret _ _ _ tt t1) by done. rewrite !bind_gets. simpl table_used. simpl table_mutatee_size.
    rewrite (bind_ret _ _ _ tt t1) by (unfold assertM; rewrite <- Hlen, length_app, u64_id by (rewrite length_app in Hlen; lia); by rewrite (proj2 (Z.eqb_eq _ _)) by lia).
    rewrite (bind_ret _ _ _ tt t1) by (apply mark_written_run; exact HAw). rewrite (bind_ret _ _ _ _ _ ES), (bind_ret _ _ _ _ _ EI). done.
  - apply (plan_outcome ss t l U mp1 adds mp); try done; fold base; [lia| |].
    + intros k m'. rewrite Hmp1. destruct (decide (k ∈ keys)); [intros (m & Hm & ->)%fmap_Some; eauto|by right].
    + intros k. rewrite Hmp1. destruct (decide _); [apply fmap_None|done].
  - intros ->. split; [|by apply Hss]. destruct U as [|k U]; [done|]. destruct (proj1 (HU k) ltac:(by left)) as (_ & m & _ & Hp).
    unfold to_update in Hp. simpl in Hp. by rewrite andb_false_r in Hp.
Qed.

(** The mappings after a flush. *)
Lemma maps_ok_flushed ss (t t' : trap_maps S) l adds upds (L := kept_keys ss l ++ adds) :
  maps_ok t l -> flush_plan (tm_mapping t) (kept_keys ss l) adds upds (tm_mapping t') -> tm_updated t' = ∅ ->
  table_used t' = Z.of_nat (length L) -> table_mutatee_size t' = table_mutatee_size t -> maps_ok t' L.
Proof.
  intros [M1 (X & X1 & X2 & X3) M3 M4 M5 M6 M7 M8 M9] HP HU Hused Hsz. split; try done.
  - intros k m Hm. destruct (flush_plan_back _ _ _ _ _ k m HP Hm) as (m0 & Hm0 & (-> & _)). by apply M1.
  - exists X. split_and!; [done| |congruence]. intros k. rewrite X2. split.
    + intros (m0 & Hm0 & Hs). destruct (flush_plan_same _ _ _ _ _ k m0 HP Hm0) as (m & Hm & (_ & _ & Es)). exists m. split; [done|congruence].
    + intros (m & Hm & Hs). destruct (flush_plan_back _ _ _ _ _ k m HP Hm) as (m0 & Hm0 & (_ & _ & Es)). exists m0. split; [done|congruence].
  - lia.
  - apply HP.
  - intros i k Hk. assert (in_mutatee (tm_mapping t) k) as (m0 & Hm0 & Hs) by (apply (fp_in _ _ _ _ _ HP); by eapply list_elem_of_lookup_2).
    destruct (flush_plan_same _ _ _ _ _ k m0 HP Hm0) as (m & Hm & (_ & _ & Es)). exists m. split_and!; [done|congruence|]. by eapply (fp_index _ _ _ _ _ HP).
  - intros k m Hm Hk. destruct (flush_plan_back _ _ _ _ _ k m HP Hm) as (m0 & Hm0 & (_ & _ & Es)).
    assert (mutatee_side m = false) as Hs.
    { destruct (mutatee_side m) eqn:E; [|done]. exfalso. apply Hk, (fp_in _ _ _ _ _ HP). exists m0. split; [done|congruence]. }
    pose proof (fp_other _ _ _ _ _ HP k m Hm Hs) as Hold. apply (M7 k m Hold). intros [i Hi]%list_elem_of_lookup. destruct (M6 i k Hi) as (m1 & Hm1 & Hs1 & _). congruence.
  - intros k m Hm Hs Hw. rewrite (fp_written _ _ _ _ _ HP k m Hm Hs) in Hw. done.
  - rewrite HU. intros k Hk. set_solver.
Qed.
End Plan.
