(* ===== verification/TrapFlush.v ===== *)
(** * Flushing the trap mappings into the mutatee

    The laws of an address space, and what [flush] leaves in the memory behind it:
    the table, and for a process the variables of the runtime library that describe
    it, as the handler in the mutatee reads them. *)
From stdpp Require Import base gmap list sorting.
From S2P Require Import Prelude RTCommon RTLinux TrapMap TrapMapOk.
Import trampTrapMappings.

(** ** What an address space promises

    [sp_heap s a n]: a live block of the heap with room for [n] bytes starts at [a];
    [sp_data s a n]: [n] bytes of data of a library are at [a];
    [sp_byte s x c]: the byte at [x] is [c]; [sp_room s n]: [n] bytes can be allocated. *)
Class SpaceLaws (S : Type) {space : Space S} : Type := {
  sp_ok : S -> Prop;
  sp_heap : S -> Z -> Z -> Prop;
  sp_data : S -> Z -> Z -> Prop;
  sp_byte : S -> Z -> Z -> Prop;
  sp_room : S -> Z -> Prop;
  sp_width : forall s, sp_ok s -> getAddressWidth s = 4 \/ getAddressWidth s = 8;
  sp_pos : forall s a n, sp_ok s -> sp_heap s a n \/ sp_data s a n -> 0 < a /\ 0 < n /\ a + n < 2 ^ (8 * getAddressWidth s);
  sp_write_law : forall s a n off d,
    sp_ok s -> sp_heap s a n \/ sp_data s a n -> 0 <= off -> off + Z.of_nat (length d) <= n -> Z.of_nat (length d) < 2 ^ 32 ->
    exists s', writeDataSpace (a + off) d s = Ret (true, s') /\ sp_ok s' /\ getAddressWidth s' = getAddressWidth s /\
      (forall b k, sp_heap s b k -> sp_heap s' b k) /\ (forall b k, sp_data s b k -> sp_data s' b k) /\
      (forall x c, sp_byte s' x c <->
         if decide (a + off <= x < a + off + Z.of_nat (length d)) then d !! Z.to_nat (x - (a + off)) = Some c else sp_byte s x c);
  sp_malloc_law : forall s n,
    sp_ok s -> 0 < n -> sp_room s n ->
    exists a s', space_malloc n s = Ret (a, s') /\ sp_ok s' /\ getAddressWidth s' = getAddressWidth s /\ sp_heap s' a n /\
      (forall b k, sp_heap s b k -> sp_heap s' b k) /\ (forall b k, sp_data s b k -> sp_data s' b k) /\
      (forall b k, sp_heap s b k \/ sp_data s b k -> (b + k <= a \/ a + n <= b) /\ forall x c, b <= x < b + k -> sp_byte s x c -> sp_byte s' x c);
  sp_free_law : forall s a n,
    sp_ok s -> sp_heap s a n ->
    exists s', space_free a s = Ret (tt, s') /\ sp_ok s' /\ getAddressWidth s' = getAddressWidth s /\
      (forall b k, sp_data s b k -> sp_data s' b k) /\ (forall k, sp_room s k -> sp_room s' k)
}.

(** The number of bytes of a word. *)
Lemma le_bytes_length n v : length (le_bytes n v) = n.
Proof. revert v. induction n as [|n IH]; intros v; [done|]. simpl. by rewrite IH. Qed.

(** Words of either width are addresses of the mutator. *)
Lemma word_bound w : w = 4 \/ w = 8 -> 2 ^ 32 <= 2 ^ (8 * w) <= 2 ^ 64.
Proof. intros [-> | ->]; split; by vm_compute. Qed.

Section Flush.
Context {S : Type} {space : Space S} {laws : SpaceLaws S} {walk : WalkOrder}.
Context (rtlib : list rt_variables) (padding : list Z) (isStaticBinary : bool).

Definition sp_region (s : S) (a n : Z) : Prop := sp_heap s a n \/ sp_data s a n.

(** ** Bytes in the mutatee *)

Definition bytes_at (s : S) (a : Z) (d : list Z) : Prop := forall i c, d !! i = Some c -> sp_byte s (a + Z.of_nat i) c.
Definition word_at (s : S) (a w v : Z) : Prop := bytes_at s a (le_bytes (Z.to_nat w) v).

Lemma bytes_at_app s a d1 d2 : bytes_at s a (d1 ++ d2) <-> bytes_at s a d1 /\ bytes_at s (a + Z.of_nat (length d1)) d2.
Proof.
  unfold bytes_at. split.
  - intros H. split; intros i c Hi; [apply H; by apply lookup_app_l_Some|].
    specialize (H (length d1 + i)%nat c). rewrite lookup_app_r in H by lia. replace (length d1 + i - length d1)%nat with i in H by lia.
    specialize (H Hi). by replace (a + Z.of_nat (length d1) + Z.of_nat i) with (a + Z.of_nat (length d1 + i)) by lia.
  - intros [H1 H2] i c [Hi|[Hge Hi]]%lookup_app_Some; [by apply H1|]. specialize (H2 _ _ Hi).
    by replace (a + Z.of_nat i) with (a + Z.of_nat (length d1) + Z.of_nat (i - length d1)) by lia.
Qed.

(** The effect of a write: [d] is at [a], and every other byte is as before. *)
Definition wrote (s : S) (a : Z) (d : list Z) (s' : S) : Prop :=
  sp_ok s' /\ getAddressWidth s' = getAddressWidth s /\
  (forall b k, sp_heap s b k -> sp_heap s' b k) /\ (forall b k, sp_data s b k -> sp_data s' b k) /\
  forall x c, sp_byte s' x c <-> if decide (a <= x < a + Z.of_nat (length d)) then d !! Z.to_nat (x - a) = Some c else sp_byte s x c.

Lemma wrote_here s a d s' : wrote s a d s' -> bytes_at s' a d.
Proof.
  intros (_ & _ & _ & _ & H) i c Hi. apply H. pose proof (lookup_lt_Some _ _ _ Hi). rewrite decide_True by lia.
  by replace (Z.to_nat (a + Z.of_nat i - a)) with i by lia.
Qed.
Lemma wrote_apart s a d s' b e :
  wrote s a d s' -> bytes_at s b e -> b + Z.of_nat (length e) <= a \/ a + Z.of_nat (length d) <= b -> bytes_at s' b e.
Proof.
  intros (_ & _ & _ & _ & H) Hb Hd i c Hi. apply H. pose proof (lookup_lt_Some _ _ _ Hi). rewrite decide_False by lia. by apply Hb.
Qed.

(** ** Entries of the table *)

Definition entry_bytes (w : Z) (e : trapMapping_t) : list Z := le_bytes (Z.to_nat w) (tr_source e) ++ le_bytes (Z.to_nat w) (tr_target e).
Definition entry_at (s : S) (a w : Z) (e : trapMapping_t) : Prop := word_at s a w (tr_source e) /\ word_at s (a + w) w (tr_target e).
Definition entries_at (s : S) (a w : Z) (es : list trapMapping_t) : Prop :=
  forall i e, es !! i = Some e -> entry_at s (a + Z.of_nat i * (w * 2)) w e.

Lemma entry_bytes_length w e : 0 <= w -> Z.of_nat (length (entry_bytes w e)) = w * 2.
Proof. intros Hw. unfold entry_bytes. rewrite length_app, !le_bytes_length. lia. Qed.
Lemma entry_bytes_at s a w e : 0 <= w -> bytes_at s a (entry_bytes w e) <-> entry_at s a w e.
Proof. intros Hw. unfold entry_bytes, entry_at, word_at. rewrite bytes_at_app, le_bytes_length. by rewrite Z2Nat.id by lia. Qed.

Lemma table_bytes_length w es : 0 <= w -> Z.of_nat (length (mjoin (entry_bytes w <$> es))) = Z.of_nat (length es) * (w * 2).
Proof.
  intros Hw. induction es as [|e es IH]; [done|]. csimpl. rewrite length_app, Nat2Z.inj_add, IH, entry_bytes_length by done. simpl length. nia.
Qed.
Lemma table_bytes_at s w es : forall a, 0 <= w -> bytes_at s a (mjoin (entry_bytes w <$> es)) -> entries_at s a w es.
Proof.
  induction es as [|e es IH]; intros a Hw Hb i x Hi; [done|]. csimpl in Hb. apply bytes_at_app in Hb as [H1 H2].
  rewrite entry_bytes_length in H2 by done. destruct i as [|i]; simpl in Hi.
  - injection Hi as <-. apply entry_bytes_at; [done|]. by replace (a + Z.of_nat 0 * (w * 2)) with a by lia.
  - specialize (IH _ Hw H2 i x Hi). by replace (a + Z.of_nat (Datatypes.S i) * (w * 2)) with (a + w * 2 + Z.of_nat i * (w * 2)) by lia.
Qed.

Lemma entries_at_app s a w es1 es2 :
  entries_at s a w es1 -> entries_at s (a + Z.of_nat (length es1) * (w * 2)) w es2 -> entries_at s a w (es1 ++ es2).
Proof.
  intros H1 H2 i e [Hi|[Hge Hi]]%lookup_app_Some; [by apply H1|]. specialize (H2 _ _ Hi).
  by replace (a + Z.of_nat i * (w * 2)) with (a + Z.of_nat (length es1) * (w * 2) + Z.of_nat (i - length es1) * (w * 2)) by (rewrite Nat2Z.inj_sub by done; ring).
Qed.

(** A write beside the table leaves it. *)
Lemma entries_apart s x d s' a w es :
  0 <= w -> wrote s x d s' -> entries_at s a w es ->
  a + Z.of_nat (length es) * (w * 2) <= x \/ x + Z.of_nat (length d) <= a -> entries_at s' a w es.
Proof.
  intros Hw HW Hes Hd i e Hi. pose proof (lookup_lt_Some _ _ _ Hi). apply entry_bytes_at; [done|]. eapply wrote_apart; [exact HW|by apply entry_bytes_at, Hes|].
  rewrite entry_bytes_length by done. nia.
Qed.

(** A new target for entry [i]. *)
Lemma entries_update s a w es i e v s' :
  0 <= w -> entries_at s a w es -> es !! i = Some e -> wrote s (a + Z.of_nat i * (w * 2) + w) (le_bytes (Z.to_nat w) v) s' ->
  entries_at s' a w (<[i := mk_trap (tr_source e) v]> es).
Proof.
  intros Hw Hes Hi HW j x Hj. apply list_lookup_insert_Some in Hj as [(<- & <- & _)|[Hne Hj]].
  - split; simpl; [|exact (wrote_here _ _ _ _ HW)]. eapply wrote_apart; [exact HW|by apply Hes|]. rewrite !le_bytes_length. lia.
  - apply entry_bytes_at; [done|]. eapply wrote_apart; [exact HW|by apply entry_bytes_at, Hes|]. rewrite entry_bytes_length, le_bytes_length by done. nia.
Qed.

(** ** Single writes *)

Definition fits_word (w v : Z) : Prop := 0 <= v < 2 ^ (8 * w).

(** The state with another address space and number of entries. *)
Definition at_space (t : trap_maps S) (s : S) (used : Z) : trap_maps S :=
  mk_maps (tm_mapping t) (tm_updated t) (needs_updating t) s (tm_vars t) (table_version t) used
    (table_allocated t) (table_mutatee_size t) (current_table t) (table_header t) (blockFlushes t) (tm_symtab t).

Lemma at_space_id (t : trap_maps S) : at_space t (tm_as t) (table_used t) = t.
Proof. by destruct t. Qed.

Definition evolves (s s' : S) : Prop :=
  sp_ok s' /\ getAddressWidth s' = getAddressWidth s /\
  (forall b k, sp_heap s b k -> sp_heap s' b k) /\ (forall b k, sp_data s b k -> sp_data s' b k).

Lemma evolves_refl s : sp_ok s -> evolves s s.
Proof. by intros. Qed.
Lemma evolves_trans s1 s2 s3 : evolves s1 s2 -> evolves s2 s3 -> evolves s1 s3.
Proof. intros (_ & A2 & A3 & A4) (B1 & B2 & B3 & B4). split_and!; [done|congruence|auto|auto]. Qed.
Lemma wrote_evolves s a d s' : wrote s a d s' -> evolves s s'.
Proof. intros (A1 & A2 & A3 & A4 & _). by split_and!. Qed.
Lemma evolves_region s s' a n : evolves s s' -> sp_region s a n -> sp_region s' a n.
Proof. intros (_ & _ & A3 & A4) [H|H]; [left|right]; auto. Qed.

Lemma wrote_nothing s a : sp_ok s -> wrote s a [] s.
Proof. intros H. split_and!; try done. intros x c. rewrite decide_False by (simpl; lia). done. Qed.

Lemma writeToBuffer_run (t : trap_maps S) w v : w = 4 \/ w = 8 -> fits_word w v -> writeToBuffer v w t = Ret (le_bytes (Z.to_nat w) v, t).
Proof. intros [-> | ->] Hv; unfold writeToBuffer; simpl; [|done]. unfold mbind, M_bind, mret, M_ret. by rewrite u32_id by exact Hv. Qed.

Lemma write_run (t : trap_maps S) a n off d :
  sp_ok (tm_as t) -> sp_region (tm_as t) a n -> 0 <= off -> off + Z.of_nat (length d) <= n -> Z.of_nat (length d) < 2 ^ 32 ->
  exists s', lift (writeDataSpace (a + off) d) t = Ret (true, at_space t s' (table_used t)) /\ wrote (tm_as t) (a + off) d s'.
Proof.
  intros HO HR Ho Hl H32. destruct (sp_write_law (tm_as t) a n off d HO HR Ho Hl H32) as (s' & E & A1 & A2 & A3 & A4 & A5).
  exists s'. split; [|by split_and!]. unfold lift. simpl. by rewrite E.
Qed.

Lemma writeTrampVariable_run (t : trap_maps S) w a v :
  sp_ok (tm_as t) -> getAddressWidth (tm_as t) = w -> sp_region (tm_as t) a w -> fits_word w v ->
  exists s', writeTrampVariable a v t = Ret (tt, at_space t s' (table_used t)) /\ wrote (tm_as t) a (le_bytes (Z.to_nat w) v) s'.
Proof.
  intros HO Hw HR Hv. pose proof (sp_width _ HO) as Hw2. rewrite Hw in Hw2. unfold writeTrampVariable. rewrite bind_gets, Hw.
  rewrite (bind_ret _ _ _ _ _ (writeToBuffer_run t w v Hw2 Hv)).
  destruct (write_run t a w 0 (le_bytes (Z.to_nat w) v) HO HR) as (s' & E & HW); rewrite ?le_bytes_length; try lia. rewrite Z.add_0_r in E, HW.
  exists s'. by rewrite (bind_ret _ _ _ _ _ E).
Qed.

(** ** The entries *)

Definition entry_of (mp : gmap Z tramp_mapping_t) (k : Z) : trapMapping_t :=
  match mp !! k with Some m => mk_trap (from_addr m) (to_addr m) | None => mk_trap k 0 end.

Definition mappings_fit (w : Z) (mp : gmap Z tramp_mapping_t) : Prop :=
  forall k m, mp !! k = Some m -> from_addr m = k /\ fits_word w k /\ fits_word w (to_addr m).

Lemma entries_buffer_run w adds (t : trap_maps S) :
  w = 4 \/ w = 8 -> mappings_fit w (tm_mapping t) -> (forall k, k ∈ adds -> is_Some (tm_mapping t !! k)) ->
  entries_buffer adds w t = Ret (mjoin (entry_bytes w <$> (entry_of (tm_mapping t) <$> adds)), t).
Proof.
  intros Hw HF. induction adds as [|k adds IH]; intros Hin; [done|]. cbn [entries_buffer].
  destruct (Hin k ltac:(by left)) as [m Hm]. destruct (HF k m Hm) as (F1 & F2 & F3). rewrite (bind_ret _ _ _ _ _ (get_mapping_run t k m Hm)).
  rewrite F1, (bind_ret _ _ _ _ _ (writeToBuffer_run t w k Hw F2)), (bind_ret _ _ _ _ _ (writeToBuffer_run t w (to_addr m) Hw F3)).
  rewrite (bind_ret _ _ _ _ _ (IH (fun x Hx => Hin x (list_elem_of_further _ _ _ Hx)))). csimpl.
  assert (entry_of (tm_mapping t) k = mk_trap k (to_addr m)) as -> by (unfold entry_of; by rewrite Hm, F1).
  unfold entry_bytes at 2. simpl. by rewrite <- app_assoc.
Qed.

(** The table is [d0] bytes into a region of [n] bytes at [r]. *)
Lemma write_entries_run w adds es (t : trap_maps S) r d0 n :
  sp_ok (tm_as t) -> getAddressWidth (tm_as t) = w -> mappings_fit w (tm_mapping t) -> (forall k, k ∈ adds -> is_Some (tm_mapping t !! k)) ->
  table_used t = Z.of_nat (length es) -> entries_at (tm_as t) (current_table t) w es -> current_table t = r + d0 -> 0 <= d0 ->
  (adds <> [] -> sp_region (tm_as t) r n) -> d0 + Z.of_nat (length es + length adds) * (w * 2) <= n < 2 ^ 32 ->
  exists s', write_entries adds t = Ret (tt, at_space t s' (Z.of_nat (length es + length adds))) /\
    wrote (tm_as t) (current_table t + Z.of_nat (length es) * (w * 2)) (mjoin (entry_bytes w <$> (entry_of (tm_mapping t) <$> adds))) s' /\
    entries_at s' (current_table t) w (es ++ (entry_of (tm_mapping t) <$> adds)).
Proof.
  intros HO Hw HF Hin Hu Hes Htab Hd0 HR Hn. pose proof (sp_width _ HO) as Hw2. rewrite Hw in Hw2. unfold write_entries. destruct (decide (adds = [])) as [->|Hne].
  { exists (tm_as t). simpl. rewrite Nat.add_0_r, <- Hu, at_space_id, app_nil_r. split_and!; try done. by apply wrote_nothing. }
  assert (0 < Z.of_nat (length adds)) as Hpos by (destruct adds; [done|simpl; lia]). rewrite (proj2 (Z.eqb_neq _ 0)) by lia. rewrite bind_gets, Hw.
  rewrite (bind_ret _ _ _ _ _ (entries_buffer_run w adds t Hw2 HF Hin)). set (es2 := entry_of (tm_mapping t) <$> adds).
  assert (length es2 = length adds) as Hl2 by apply length_fmap. pose proof (table_bytes_length w es2 ltac:(lia)) as Hlen. rewrite Hl2 in Hlen.
  rewrite (bind_ret _ _ _ tt t) by (unfold assertM; by rewrite Hlen, Z.eqb_refl). rewrite !bind_gets, Hu.
  destruct (sp_pos _ _ _ HO (HR Hne)) as (P1 & P2 & P3). rewrite Hw in P3. pose proof (word_bound w Hw2) as HW64.
  rewrite u64_id by nia. rewrite Hlen, u32_id, take_ge by nia.
  destruct (write_run t r n (d0 + Z.of_nat (length es) * (w * 2)) (mjoin (entry_bytes w <$> es2)) HO (HR Hne)) as (s' & E & HW); [nia|nia|nia|].
  rewrite Z.add_assoc, <- Htab in E, HW.
  exists s'. rewrite (bind_ret _ _ _ _ _ E). split_and!.
  - rewrite (bind_ret _ _ _ tt (at_space t s' (table_used t))) by done. unfold set_used, modify, at_space. simpl. rewrite u64_id by nia. by rewrite <- Nat2Z.inj_add.
  - done.
  - apply entries_at_app; [eapply entries_apart; [|exact HW|exact Hes|]; lia|]. apply table_bytes_at; [lia|]. by eapply wrote_here.
Qed.

(** An entry with the target its mapping has now. *)
Definition settled (mp : gmap Z tramp_mapping_t) (e : trapMapping_t) : Prop :=
  exists m, mp !! tr_source e = Some m /\ tr_target e = to_addr m.

Lemma write_update_run w es (t : trap_maps S) n k m i :
  sp_ok (tm_as t) -> getAddressWidth (tm_as t) = w -> mappings_fit w (tm_mapping t) -> tm_mapping t !! k = Some m ->
  cur_index m = Z.of_nat i -> (tr_source <$> es) !! i = Some k -> entries_at (tm_as t) (current_table t) w es ->
  sp_region (tm_as t) (current_table t) n -> Z.of_nat (length es) * (w * 2) <= n < 2 ^ 32 ->
  exists s', write_update k t = Ret (tt, at_space t s' (table_used t)) /\ evolves (tm_as t) s' /\
    entries_at s' (current_table t) w (<[i := mk_trap k (to_addr m)]> es).
Proof.
  intros HO Hw HF Hm Hi Hk Hes HR Hn. pose proof (sp_width _ HO) as Hw2. rewrite Hw in Hw2. apply list_lookup_fmap_Some in Hk as (e & -> & He).
  pose proof (lookup_lt_Some _ _ _ He). destruct (HF _ m Hm) as (F1 & F2 & F3). destruct (sp_pos _ _ _ HO HR) as (P1 & P2 & P3). rewrite Hw in P3. pose proof (word_bound w Hw2) as HW64.
  unfold write_update. rewrite !bind_gets, Hw, (bind_ret _ _ _ _ _ (get_mapping_run t _ m Hm)), (bind_ret _ _ _ _ _ (writeToBuffer_run t w _ Hw2 F3)).
  assert (Z.of_nat i * (w * 2) + w * 2 <= n) as Hfit by nia. rewrite Hi, (u32_id (w * 2)), (u32_id (Z.of_nat i * (w * 2))), u64_id by lia.
  destruct (write_run t (current_table t) n (Z.of_nat i * (w * 2) + w) (le_bytes (Z.to_nat w) (to_addr m)) HO HR) as (s' & E & HW); rewrite ?le_bytes_length; try lia.
  rewrite Z.add_assoc in E, HW. exists s'. rewrite (bind_ret _ _ _ _ _ E). split_and!; [done|by eapply wrote_evolves|].
  apply (entries_update (tm_as t) _ w es i e); [lia|done..].
Qed.

Lemma write_updates_run w n upds : forall es (t : trap_maps S),
  sp_ok (tm_as t) -> getAddressWidth (tm_as t) = w -> mappings_fit w (tm_mapping t) ->
  entries_at (tm_as t) (current_table t) w es -> NoDup (tr_source <$> es) ->
  (forall i k m, (tr_source <$> es) !! i = Some k -> tm_mapping t !! k = Some m -> cur_index m = Z.of_nat i) ->
  (forall k, k ∈ (tr_source <$> es) -> is_Some (tm_mapping t !! k)) ->
  (forall k, k ∈ upds -> k ∈ (tr_source <$> es)) -> (forall e, e ∈ es -> settled (tm_mapping t) e \/ tr_source e ∈ upds) ->
  (upds <> [] -> sp_region (tm_as t) (current_table t) n) -> Z.of_nat (length es) * (w * 2) <= n < 2 ^ 32 ->
  exists s' es', forM upds write_update t = Ret (tt, at_space t s' (table_used t)) /\ evolves (tm_as t) s' /\
    entries_at s' (current_table t) w es' /\ tr_source <$> es' = tr_source <$> es /\ forall e, e ∈ es' -> settled (tm_mapping t) e.
Proof.
  induction upds as [|k upds IH]; intros es t HO Hw HF Hes Hnd Hidx Hin Hup Hset HR Hn.
  { exists (tm_as t), es. rewrite at_space_id. split_and!; try done. intros e He. destruct (Hset e He) as [?|?%elem_of_nil]; done. }
  destruct (list_elem_of_lookup_1 _ _ (Hup k ltac:(by left))) as [i Hi]. destruct (Hin k (Hup k ltac:(by left))) as [m Hm].
  destruct (write_update_run w es t n k m i) as (s1 & E1 & HV & Hes1); try done; [by eapply Hidx|by apply HR|].
  set (es1 := <[i := mk_trap k (to_addr m)]> es) in *. assert (tr_source <$> es1 = tr_source <$> es) as Hsrc.
  { unfold es1. rewrite list_fmap_insert. by apply list_insert_id. }
  assert (length es1 = length es) as Hl1 by apply length_insert.
  destruct (IH es1 (at_space t s1 (table_used t))) as (s2 & es2 & E2 & HV2 & Hes2 & Hsrc2 & Hset2); rewrite ?Hsrc, ?Hl1; simpl; try done.
  - apply HV.
  - rewrite (proj1 (proj2 HV)). done.
  - intros x Hx. apply Hup. by right.
  - intros e He. unfold es1 in He. apply list_elem_of_lookup in He as [j Hj]. apply list_lookup_insert_Some in Hj as [(<- & <- & _)|[Hne Hj]].
    + left. exists m. done.
    + destruct (Hset e) as [?|[Hek|?]%elem_of_cons]; [by eapply list_elem_of_lookup_2|by left| |by right]. exfalso. apply Hne.
      eapply NoDup_lookup; [exact Hnd|exact Hi|]. rewrite list_lookup_fmap, Hj. simpl. by rewrite Hek.
  - intros _. eapply evolves_region; [exact HV|]. by apply HR.
  - exists s2, es2. cbn [forM]. rewrite (bind_ret _ _ _ _ _ E1), E2. split_and!; try done; [by eapply evolves_trans|congruence].
Qed.

(** ** A process *)

(** The variables of the runtime library. *)
Section Process.
Context (a_used a_version a_table a_sorted : Z).
Context (Hlook : lookup_variables no_variables rtlib = mk_rtvars (Some a_used) (Some a_version) (Some a_table) (Some a_sorted)).
Context (Hproc : is_process = true).

Definition rt_vars : rt_variables := mk_rtvars (Some a_used) (Some a_version) (Some a_table) (Some a_sorted).
Definition rt_addrs : list Z := [a_used; a_version; a_table; a_sorted].
Definition apart_words (w a b : Z) : Prop := a + w <= b \/ b + w <= a.

Record vars_placed (s : S) (w : Z) : Prop := {
  vp_data : forall a, a ∈ rt_addrs -> sp_data s a w;
  vp_apart : forall i j a b, (i < j)%nat -> rt_addrs !! i = Some a -> rt_addrs !! j = Some b -> apart_words w a b
}.
Definition vars_beside (w table n : Z) : Prop := forall a, a ∈ rt_addrs -> a + w <= table \/ table + n <= a.

(** What the handler in the mutatee can read: the variables describe the table. *)
Definition runtime_sees (s : S) (w : Z) (T : trap_state) : Prop :=
  exists p, word_at s a_used w (tt_used T) /\ word_at s a_version w (tt_version T) /\ word_at s a_table w p /\
    word_at s a_sorted w (if tt_sorted T then 1 else 0) /\ entries_at s p w (tt_table T).

Lemma word_apart s x v s' b u w :
  w = 4 \/ w = 8 -> wrote s x (le_bytes (Z.to_nat w) v) s' -> word_at s b w u -> apart_words w b x -> word_at s' b w u.
Proof. intros Hw HW Hb Ha. eapply wrote_apart; [exact HW|exact Hb|]. rewrite !le_bytes_length. unfold apart_words in Ha. lia. Qed.

Lemma vars_placed_evolves s s' w : evolves s s' -> vars_placed s w -> vars_placed s' w.
Proof. intros (_ & _ & _ & HD) [V1 V2]. split; [|done]. intros a Ha. by apply HD, V1. Qed.

(** The state after the variables were written. *)
Definition described (t : trap_maps S) (s : S) : trap_maps S :=
  mk_maps (tm_mapping t) (tm_updated t) (needs_updating t) s rt_vars (table_version t + 1) (table_used t)
    (table_allocated t) (table_mutatee_size t) (current_table t) (table_header t) (blockFlushes t) (tm_symtab t).

Lemma write_variables_run ss (t : trap_maps S) w es n :
  sp_ok (tm_as t) -> getAddressWidth (tm_as t) = w -> tm_vars t = no_variables \/ tm_vars t = rt_vars -> vars_placed (tm_as t) w ->
  entries_at (tm_as t) (current_table t) w es -> Z.of_nat (length es) * (w * 2) <= n -> vars_beside w (current_table t) n ->
  fits_word w (table_used t) -> 0 <= table_version t -> fits_word w (table_version t + 1) -> fits_word w (current_table t) ->
  exists s', write_variables rtlib ss t = Ret (tt, described t s') /\ evolves (tm_as t) s' /\
    runtime_sees s' w (mk_traps (table_used t) (table_version t + 1) es ss) /\ entries_at s' (current_table t) w es.
Proof.
  intros HO Hw Hv HP Hes Hn Hb Fu Hv0 Fv Ft. pose proof (sp_width _ HO) as Hw2. rewrite Hw in Hw2. pose proof (word_bound w Hw2) as HW64.
  set (t0 := mk_maps (tm_mapping t) (tm_updated t) (needs_updating t) (tm_as t) rt_vars (table_version t) (table_used t)
    (table_allocated t) (table_mutatee_size t) (current_table t) (table_header t) (blockFlushes t) (tm_symtab t)).
  unfold write_variables. rewrite bind_gets.
  rewrite (bind_ret _ _ _ tt t0); [|destruct Hv as [Hv|Hv]; rewrite Hv; cbn [rv_table no_variables rt_vars]; [rewrite Hlook; done|]; unfold t0; rewrite <- Hv; by destruct t].
  rewrite !bind_gets. cbn [tm_vars t0 rt_vars rv_used rv_version rv_table rv_sorted variable]. rewrite bind_mret.
  assert (forall s1 x v s2, wrote s1 x (le_bytes (Z.to_nat w) v) s2 -> x ∈ rt_addrs -> entries_at s1 (current_table t) w es -> entries_at s2 (current_table t) w es) as Hkeep.
  { intros s1 x v s2 HW Hx HE. eapply entries_apart; [|exact HW|exact HE|]; [lia|]. rewrite le_bytes_length. specialize (Hb x Hx). lia. }
  assert (forall (u : trap_maps S) x v, evolves (tm_as t) (tm_as u) -> x ∈ rt_addrs -> fits_word w v ->
    exists s2, writeTrampVariable x v u = Ret (tt, at_space u s2 (table_used u)) /\ wrote (tm_as u) x (le_bytes (Z.to_nat w) v) s2 /\ evolves (tm_as t) s2) as Hput.
  { intros u x v HV Hx Hf. destruct (writeTrampVariable_run u w x v) as (s2 & E2 & HW2);
      [apply HV|destruct HV as (_ & -> & _); done|right; by apply (vars_placed_evolves _ _ _ HV HP)|done|].
    exists s2. split_and!; try done. eapply evolves_trans; [exact HV|by eapply wrote_evolves]. }
  destruct HP as [_ HPA]. assert (apart_words w a_used a_version /\ apart_words w a_used a_table /\ apart_words w a_used a_sorted /\
    apart_words w a_version a_table /\ apart_words w a_version a_sorted /\ apart_words w a_table a_sorted) as (P12 & P13 & P14 & P23 & P24 & P34).
  { split_and!; [apply (HPA 0 1)%nat|apply (HPA 0 2)%nat|apply (HPA 0 3)%nat|apply (HPA 1 2)%nat|apply (HPA 1 3)%nat|apply (HPA 2 3)%nat]; done || lia. }
  destruct (Hput t0 a_used (table_used t)) as (s1 & E1 & W1 & V1); [by apply evolves_refl|by left|done|]. rewrite (bind_ret _ _ _ _ _ E1).
  rewrite bind_gets. set (t1 := mk_maps (tm_mapping t) (tm_updated t) (needs_updating t) s1 rt_vars (table_version t + 1) (table_used t)
    (table_allocated t) (table_mutatee_size t) (current_table t) (table_header t) (blockFlushes t) (tm_symtab t)).
  rewrite (bind_ret _ _ _ tt t1) by (unfold set_version, modify, t1; simpl; rewrite u64_id by (unfold fits_word in Fv; lia); done).
  rewrite bind_gets, bind_mret. destruct (Hput t1 a_version (table_version t + 1)) as (s2 & E2 & W2 & V2); [done|by right; left|done|].
  simpl table_version. rewrite (bind_ret _ _ _ _ _ E2), bind_gets, bind_mret.
  destruct (Hput (at_space t1 s2 (table_used t1)) a_table (current_table t)) as (s3 & E3 & W3 & V3); [done|by do 2 right; left|done|].
  simpl current_table. rewrite (bind_ret _ _ _ _ _ E3), bind_mret.
  destruct (Hput (at_space (at_space t1 s2 (table_used t1)) s3 (table_used t1)) a_sorted (if ss then 1 else 0)) as (s4 & E4 & W4 & V4);
    [done|by do 3 right; left|unfold fits_word; destruct ss; lia|].
  exists s4. simpl in W1, W2, W3, W4.
  assert (entries_at s4 (current_table t) w es) as HE4.
  { eapply Hkeep; [exact W4|by do 3 right; left|]. eapply Hkeep; [exact W3|by do 2 right; left|]. eapply Hkeep; [exact W2|by right; left|].
    eapply Hkeep; [exact W1|by left|done]. }
  split_and!; [etransitivity; [exact E4|done]|done| |done]. exists (current_table t). simpl. split_and!; [..|done].
  - eapply word_apart; [done|exact W4| |done]. eapply word_apart; [done|exact W3| |done]. eapply word_apart; [done|exact W2| |done]. by eapply wrote_here.
  - eapply word_apart; [done|exact W4| |done]. eapply word_apart; [done|exact W3| |done]. by eapply wrote_here.
  - eapply word_apart; [done|exact W4| |done]. by eapply wrote_here.
  - by eapply wrote_here.
Qed.
(** The table is large enough already, or a new one is allocated. *)
Definition new_size (size : Z) : Z := Z.max (size * 3 / 2) MIN_TRAP_TABLE_SIZE.
Definition with_table (t : trap_maps S) (s : S) (table allocated : Z) : trap_maps S :=
  mk_maps (tm_mapping t) (tm_updated t) (needs_updating t) s (tm_vars t) (table_version t) (table_used t)
    allocated (table_mutatee_size t) table (table_header t) (blockFlushes t) (tm_symtab t).

Lemma allocateTable_fits (t : trap_maps S) :
  table_mutatee_size t <= table_allocated t -> allocateTable padding isStaticBinary t = Ret (tt, t).
Proof. intros H. unfold allocateTable. rewrite !bind_gets, Hproc, bind_gets. by rewrite (proj2 (Z.ltb_ge _ _)) by lia. Qed.

Lemma allocateTable_grows (t : trap_maps S) w (n := new_size (table_mutatee_size t) * (w * 2)) :
  sp_ok (tm_as t) -> getAddressWidth (tm_as t) = w -> 0 <= table_allocated t < table_mutatee_size t -> table_mutatee_size t < 2 ^ 31 ->
  current_table t = 0 \/ (exists k, sp_heap (tm_as t) (current_table t) k) -> sp_room (tm_as t) n -> n < 2 ^ 32 ->
  exists s' a, allocateTable padding isStaticBinary t = Ret (tt, with_table t s' a (new_size (table_mutatee_size t))) /\
    sp_ok s' /\ getAddressWidth s' = w /\ sp_heap s' a n /\ a <> 0 /\
    forall b k, sp_data (tm_as t) b k -> sp_data s' b k /\ (b + k <= a \/ a + n <= b).
Proof.
  intros HO Hw Hsz H31 Htab Hroom Hn. pose proof (sp_width _ HO) as Hw2. rewrite Hw in Hw2. unfold allocateTable.
  rewrite !bind_gets, Hproc, bind_gets, (proj2 (Z.ltb_lt _ _)) by lia. rewrite bind_gets.
  assert (exists s1, (if negb (current_table t =? 0) then lift (space_free (current_table t)) else mret tt) t = Ret (tt, at_space t s1 (table_used t)) /\
    sp_ok s1 /\ getAddressWidth s1 = w /\ (forall b k, sp_data (tm_as t) b k -> sp_data s1 b k) /\ sp_room s1 n) as (s1 & E1 & A1 & A2 & A3 & A4).
  { destruct Htab as [-> | (k & Hk)].
    - exists (tm_as t). rewrite at_space_id. by split_and!.
    - destruct (sp_pos _ _ _ HO (or_introl Hk)) as (P1 & _). rewrite (proj2 (Z.eqb_neq _ _)) by lia.
      destruct (sp_free_law _ _ _ HO Hk) as (s1 & E & B1 & B2 & B3 & B4). exists s1. split_and!; try done; [|congruence|auto]. unfold lift. simpl. by rewrite E. }
  rewrite (bind_ret _ _ _ _ _ E1). set (t1 := with_table t s1 (current_table t) (new_size (table_mutatee_size t))).
  assert (0 <= table_mutatee_size t * 3 / 2 < 2 ^ 33) as Hq by (split; [apply Z.div_pos; lia|apply Z.div_lt_upper_bound; lia]).
  assert (256 <= new_size (table_mutatee_size t) < 2 ^ 33) as Hns by (unfold new_size, MIN_TRAP_TABLE_SIZE; lia).
  assert (forall (K : unit -> M (trap_maps S) unit), (set_allocated (table_mutatee_size t * 3 / 2) ;; allocated ← gets table_allocated ;
    (if allocated <? MIN_TRAP_TABLE_SIZE then set_allocated MIN_TRAP_TABLE_SIZE else mret tt) ≫= K) (at_space t s1 (table_used t)) = K tt t1) as Hset.
  { intros K. unfold set_allocated, modify, gets, mbind, M_bind. simpl. unfold t1, with_table, new_size. rewrite (u64_id (table_mutatee_size t * 3 / 2)) by lia.
    destruct (Z.ltb_spec (table_mutatee_size t * 3 / 2) MIN_TRAP_TABLE_SIZE); simpl; unfold MIN_TRAP_TABLE_SIZE in *; do 2 f_equal; rewrite ?u64_id; lia. }
  rewrite (Hset (fun _ => _)). clear Hset. rewrite bind_gets. simpl table_allocated. rewrite Hw. fold n. rewrite u32_id by (unfold n in *; nia).
  destruct (sp_malloc_law s1 n A1 ltac:(unfold n; nia) A4) as (a & s2 & E2 & B1 & B2 & B3 & B4 & B5 & B6).
  destruct (sp_pos _ _ _ B1 (or_introl B3)) as (P1 & _).
  rewrite (bind_ret _ _ _ a (with_table t s2 (current_table t) (new_size (table_mutatee_size t)))) by (unfold lift; simpl; by rewrite E2).
  exists s2, a. split_and!; [|done|congruence|done|lia|].
  - unfold set_table, modify, mbind, M_bind, assertM. simpl. by rewrite (proj2 (Z.eqb_neq a 0)) by lia.
  - intros b k Hb. split; [auto|]. apply B6. right. auto.
Qed.
(** The mappings of a process: [es] is what the table in the mutatee holds. *)
Record trap_inv (t : trap_maps S) (es : list trapMapping_t) (w := getAddressWidth (tm_as t)) : Prop := {
  ti_maps : maps_ok t (tr_source <$> es);
  ti_space : sp_ok (tm_as t);
  ti_fit : mappings_fit w (tm_mapping t);
  ti_alloc : 0 <= table_allocated t /\ table_allocated t * (w * 2) < 2 ^ 32 /\ Z.of_nat (length es) <= table_allocated t;
  ti_table : (current_table t = 0 /\ table_allocated t = 0) \/ sp_heap (tm_as t) (current_table t) (table_allocated t * (w * 2));
  ti_entries : entries_at (tm_as t) (current_table t) w es;
  ti_settled : forall e m, e ∈ es -> tm_mapping t !! tr_source e = Some m -> written m = true -> tr_target e = to_addr m;
  ti_vars : tm_vars t = no_variables \/ tm_vars t = rt_vars;
  ti_placed : vars_placed (tm_as t) w;
  ti_beside : vars_beside w (current_table t) (table_allocated t * (w * 2));
  ti_version : 0 <= table_version t
}.

(** The last part of a flush, once the table has its place: [es] are the entries
    that stay. *)
Lemma flush_tail ss (t : trap_maps S) mp0 es adds upds (w := getAddressWidth (tm_as t)) (n := table_allocated t * (w * 2)) :
  sp_ok (tm_as t) -> mappings_fit w (tm_mapping t) -> flush_plan mp0 (tr_source <$> es) adds upds (tm_mapping t) ->
  table_used t = Z.of_nat (length es) -> Z.of_nat (length es + length adds) <= table_allocated t -> n < 2 ^ 32 ->
  (adds <> [] \/ upds <> [] -> sp_heap (tm_as t) (current_table t) n) -> (upds <> [] -> ss = false) ->
  entries_at (tm_as t) (current_table t) w es -> (forall e, e ∈ es -> settled (tm_mapping t) e \/ tr_source e ∈ upds) ->
  tm_vars t = no_variables \/ tm_vars t = rt_vars -> vars_placed (tm_as t) w -> vars_beside w (current_table t) n ->
  0 <= table_version t -> table_version t + 1 < 2 ^ 32 -> fits_word w (current_table t) ->
  exists s' es', (write_entries adds ;; write_updates ss upds ;; (if is_process then write_variables rtlib ss else mret tt) ;; set_needs false) t =
      Ret (tt, mk_maps (tm_mapping t) (tm_updated t) false s' rt_vars (table_version t + 1) (Z.of_nat (length es')) (table_allocated t)
        (table_mutatee_size t) (current_table t) (table_header t) (blockFlushes t) (tm_symtab t)) /\
    evolves (tm_as t) s' /\ tr_source <$> es' = (tr_source <$> es) ++ adds /\ (forall e, e ∈ es' -> settled (tm_mapping t) e) /\
    entries_at s' (current_table t) w es' /\ runtime_sees s' w (mk_traps (Z.of_nat (length es')) (table_version t + 1) es' ss).
Proof.
  intros HO HF HP Hu Hcap Hn Htab Hup Hes Hset Hv HVP Hb Hv0 Hv1 Hft. pose proof (sp_width _ HO) as Hw2. fold w in Hw2. pose proof (word_bound w Hw2) as HW64.
  assert (forall k, k ∈ (tr_source <$> es) ++ adds -> exists m, tm_mapping t !! k = Some m /\ from_addr m = k) as Hin.
  { intros k (m0 & Hm0 & _)%(fp_in _ _ _ _ _ HP). destruct (flush_plan_same _ _ _ _ _ k m0 HP Hm0) as (m & Hm & _).
    exists m. split; [done|]. by apply HF. }
  destruct (write_entries_run w adds es t (current_table t) 0 n) as (s1 & E1 & V1%wrote_evolves & Hes1); try done; [|lia| |nia|].
  { intros k Hk. destruct (Hin k) as (m & Hm & _); [apply elem_of_app; by right|eauto]. }
  { intros Hne. left. apply Htab. by left. }
  set (es1 := es ++ (entry_of (tm_mapping t) <$> adds)) in *. set (t1 := at_space t s1 (Z.of_nat (length es + length adds))).
  assert (tr_source <$> es1 = (tr_source <$> es) ++ adds) as Hsrc.
  { unfold es1. rewrite fmap_app. f_equal. rewrite <- list_fmap_compose. transitivity (id <$> adds); [|apply list_fmap_id].
    apply list_fmap_ext. intros i k Hk%list_elem_of_lookup_2. unfold entry_of. simpl. by destruct (Hin k) as (m & -> & Ef); [apply elem_of_app; by right|]. }
  assert (length es1 = length es + length adds)%nat as Hl1 by (unfold es1; by rewrite length_app, length_fmap).
  destruct (write_updates_run w n upds es1 t1) as (s2 & es2 & E2 & V2 & Hes2 & Hsrc2 & Hset2); rewrite ?Hsrc, ?Hl1; simpl; try done; try apply V1; try apply HP.
  { intros k Hk. destruct (Hin k Hk) as (m & Hm & _). eauto. }
  { intros k Hk. apply elem_of_app. left. by apply (fp_upds _ _ _ _ _ HP). }
  { intros e [He|He]%elem_of_app; [by apply Hset|]. left. apply list_elem_of_fmap in He as (k & -> & Hk). destruct (Hin k) as (m & Hm & Ef); [apply elem_of_app; by right|].
    unfold entry_of. rewrite Hm. exists m. simpl. by rewrite Ef. }
  { intros Hne. left. apply V1, Htab. by right. }
  { nia. }
  assert (length es2 = length es + length adds)%nat as Hl2 by (rewrite <- Hl1, <- (length_fmap tr_source es1), <- Hsrc2; by rewrite length_fmap).
  pose proof (evolves_trans _ _ _ V1 V2) as V12. destruct V12 as (A1 & A2 & A3 & A4).
  destruct (write_variables_run ss (at_space t1 s2 (table_used t1)) w es2 n) as (s3 & E3 & V3 & Hsee & Hes3); simpl; try done.
  { eapply vars_placed_evolves; [|exact HVP]. by split_and!. }
  { rewrite Hl2. nia. }
  { unfold fits_word. lia. }
  { unfold fits_word. lia. }
  exists s3, es2. split; [|split_and!].
  - rewrite (bind_ret _ _ _ _ _ E1). rewrite (bind_ret _ _ _ tt (at_space t1 s2 (table_used t1))).
    2:{ unfold write_updates. destruct upds as [|k upds]; [exact E2|]. rewrite (Hup ltac:(done)). exact E2. }
    rewrite Hproc, (bind_ret _ _ _ _ _ E3), Hl2. done.
  - eapply evolves_trans; [|exact V3]. by split_and!.
  - congruence.
  - done.
  - done.
  - simpl in Hsee. by rewrite Hl2.
Qed.
(** The table grows only into room that there is. *)
Definition grow_room (t : trap_maps S) : Prop :=
  table_allocated t < table_mutatee_size t ->
  let n := new_size (table_mutatee_size t) * (getAddressWidth (tm_as t) * 2) in sp_room (tm_as t) n /\ n < 2 ^ 32.

Lemma mappings_fit_plan w mp0 base adds upds mp : flush_plan mp0 base adds upds mp -> mappings_fit w mp0 -> mappings_fit w mp.
Proof. intros HP HF k m Hm. destruct (flush_plan_back _ _ _ _ _ k m HP Hm) as (m0 & Hm0 & (-> & -> & _)). by apply HF. Qed.

(** What [allocateTable] leaves for a table of the entries kept and the new ones. *)
Definition table_ready (w size : Z) (es : list trapMapping_t) (s : S) (table allocated : Z) : Prop :=
  sp_ok s /\ getAddressWidth s = w /\ 0 <= allocated /\ allocated * (w * 2) < 2 ^ 32 /\ size <= allocated /\
  ((table = 0 /\ allocated = 0) \/ sp_heap s table (allocated * (w * 2))) /\
  entries_at s table w es /\ vars_placed s w /\ vars_beside w table (allocated * (w * 2)).

Lemma allocateTable_ready (t : trap_maps S) es mp used (w := getAddressWidth (tm_as t)) (ss := table_allocated t <? table_mutatee_size t) :
  trap_inv t es -> grow_room t ->
  exists s2 a2 al2, allocateTable padding isStaticBinary (planned t mp used) = Ret (tt, with_table (planned t mp used) s2 a2 al2) /\
    table_ready w (table_mutatee_size t) (if ss then [] else es) s2 a2 al2.
Proof.
  intros HI Hroom. pose proof HI as [I1 I2 I3 (I4 & I4' & I4'') I5 I6 I7 I8 I9 I10 I11]. fold w in I3, I4', I5, I6, I9, I10.
  pose proof (sp_width _ I2) as Hw2. fold w in Hw2. pose proof (word_bound w Hw2) as HW64. unfold ss, table_ready.
  destruct (Z.ltb_spec (table_allocated t) (table_mutatee_size t)) as [Hlt|Hge].
  - destruct (Hroom Hlt) as [R1 R2]. fold w in R1, R2. destruct (allocateTable_grows (planned t mp used) w) as (s2 & a2 & E & A1 & A2 & A3 & A4 & A5); simpl; try done; try lia.
    { apply (mo_small _ _ I1). }
    { destruct I5 as [[-> _]|Hh]; [by left|right; eauto]. }
    exists s2, a2, (new_size (table_mutatee_size t)). simpl in E, A3. split_and!; try done; [unfold new_size, MIN_TRAP_TABLE_SIZE; lia| |by right| |].
    + unfold new_size. assert (table_mutatee_size t <= table_mutatee_size t * 3 / 2) by (apply Z.div_le_lower_bound; lia). lia.
    + split; [|apply I9]. intros a Ha. by apply (proj1 (A5 a w (vp_data _ _ I9 a Ha))).
    + intros a Ha. by apply (proj2 (A5 a w (vp_data _ _ I9 a Ha))).
  - exists (tm_as t), (current_table t), (table_allocated t). split_and!; try done. rewrite allocateTable_fits by (simpl; lia). done.
Qed.

Lemma flush_process_run (t : trap_maps S) es (w := getAddressWidth (tm_as t)) (ss := table_allocated t <? table_mutatee_size t) :
  trap_inv t es -> needs_updating t = true -> blockFlushes t = false -> table_version t + 1 < 2 ^ 32 -> grow_room t ->
  exists t' es', flush rtlib padding isStaticBinary t = Ret (tt, t') /\ trap_inv t' es' /\ needs_updating t' = false /\
    (forall k, option_Forall2 same_mapping (tm_mapping t !! k) (tm_mapping t' !! k)) /\ getAddressWidth (tm_as t') = w /\
    runtime_sees (tm_as t') w (mk_traps (Z.of_nat (length es')) (table_version t + 1) es' ss) /\
    Z.of_nat (length es') = table_mutatee_size t /\ (ss = true -> StronglySorted Z.lt (tr_source <$> es')) /\
    (forall k, k ∈ tr_source <$> es' <-> in_mutatee (tm_mapping t) k) /\ (forall e, e ∈ es' -> settled (tm_mapping t') e).
Proof.
  intros HI Hne Hbl Hver Hroom. pose proof HI as [I1 I2 I3 (I4 & I4' & I4'') I5 I6 I7 I8 I9 I10 I11]. fold w in I3, I4', I5, I6, I9, I10.
  pose proof (sp_width _ I2) as Hw2. fold w in Hw2. pose proof (word_bound w Hw2) as HW64.
  destruct (plan_flush_run ss t (tr_source <$> es) I1) as (adds & upds & mp & EP & HP & Hlen & Hsort).
  set (t1 := planned t mp (Z.of_nat (length (kept_keys ss (tr_source <$> es))))) in *. set (es0 := if ss then [] else es).
  assert (kept_keys ss (tr_source <$> es) = tr_source <$> es0) as Hk0 by (unfold es0, kept_keys; by destruct ss). rewrite Hk0 in *.
  assert (Z.of_nat (length es0 + length adds) = table_mutatee_size t) as Hl0 by (rewrite <- Hlen, length_app, length_fmap; done).
  destruct (allocateTable_ready t es mp (table_used t1) HI Hroom)
    as (s2 & a2 & al2 & EA & O2 & W2 & G1 & G2 & G3 & G4 & G5 & G6 & G7). fold w in W2, G2, G4, G5, G6, G7. fold es0 in G5. change (planned t mp (table_used t1)) with t1 in EA.
  set (t2 := with_table t1 s2 a2 al2) in *. assert (mappings_fit w mp) as HF by (by eapply mappings_fit_plan).
  destruct (flush_tail ss t2 (tm_mapping t) es0 adds upds) as (s3 & es3 & ET & V3 & Hsrc & Hset & Hes3 & Hsee); simpl; rewrite ?W2; try done; try lia.
  { by rewrite Hk0, length_fmap. }
  { intros Hnn. destruct G4 as [[-> ->]|Hh]; [|done]. exfalso. assert (length es0 = 0 /\ length adds = 0)%nat as [Z1 Z2] by lia. apply nil_length_inv in Z1, Z2.
    destruct Hnn as [Hnn|Hnn]; [done|]. destruct upds as [|k upds]; [done|]. pose proof (fp_upds _ _ _ _ _ HP k ltac:(by left)) as Hk. rewrite Z1 in Hk. by apply elem_of_nil in Hk. }
  { intros Hnn. destruct ss; [|done]. by destruct Hsort as [-> _]. }
  { unfold es0. destruct ss; [by intros e ?%elem_of_nil|]. intros e He. assert (tr_source e ∈ tr_source <$> es) as Hse by (apply list_elem_of_fmap; eauto).
    destruct (proj1 (fp_in _ _ _ _ _ HP (tr_source e)) ltac:(apply elem_of_app; left; exact Hse)) as (m0 & Hm0 & _).
    destruct (fp_old _ _ _ _ _ HP _ m0 Hse Hm0) as [Hw|Hw]; [|by right]. left.
    destruct (flush_plan_same _ _ _ _ _ _ m0 HP Hm0) as (m & Hm & (_ & Et & _)). exists m. split; [done|]. rewrite Et. by eapply I7. }
  { destruct G4 as [[-> _]|Hh]; [unfold fits_word; lia|]. destruct (sp_pos _ _ _ O2 (or_introl Hh)). unfold fits_word. rewrite W2 in *. lia. }
  rewrite <- Hk0 in *. assert (length es3 = length (kept_keys ss (tr_source <$> es) ++ adds)) as Hl3 by (rewrite <- Hsrc; by rewrite length_fmap).
  destruct V3 as (V1 & V2 & V3 & V4). simpl in V2, V3, V4. rewrite W2 in V2. set (t3 := mk_maps _ _ _ _ _ _ _ _ _ _ _ _ _) in ET.
  exists t3, es3. assert (getAddressWidth (tm_as t3) = w) as Hw3 by (simpl; congruence). split; [|split]; [| |split_and!]; try done.
  - unfold flush. rewrite !bind_gets, Hne, Hbl. cbn [negb orb]. rewrite !bind_gets, Hproc. cbn [negb orb]. fold ss.
    rewrite (bind_ret _ _ _ _ _ EP). cbn [fst snd]. rewrite Hproc in ET. by rewrite (bind_ret _ _ _ _ _ EA), ET.
  - split; rewrite ?Hw3; simpl; try done; try lia.
    + rewrite Hsrc. eapply (maps_ok_flushed ss t); [done|exact HP|done|simpl; by rewrite Hl3|done].
    + destruct G4 as [?|?]; [by left|right; auto].
    + simpl in Hes3. by rewrite W2 in Hes3.
    + intros e m He Hm _. destruct (Hset e He) as (m' & Hm' & ->). simpl in Hm'. congruence.
    + by right.
    + eapply vars_placed_evolves; [|exact G6]. by split_and!; [|congruence|..].
  - apply HP.
  - simpl in Hsee. by rewrite W2 in Hsee.
  - rewrite Hl3. lia.
  - intros Hs. rewrite Hsrc, Hs. simpl. by apply Hsort.
  - intros k. rewrite Hsrc. apply HP.
Qed.
End Process.

(** ** A rewritten binary *)

Section Static.
Context (Hproc : is_process = false) (Hpad : length padding = 4%nat).

Lemma header_bytes_length num : length (header_bytes padding num) = 32%nat.
Proof. unfold header_bytes. rewrite !length_app, !le_bytes_length, Hpad. done. Qed.

(** What is entered into the symbol table. *)
Definition header_symbols (a : Z) : list symtab_op :=
  if isStaticBinary then [] else [addSysVDynamic DT_DYNINST a; addLibraryPrereq; addSysVDynamic DT_DYNINST a; addLibraryPrereq].

Lemma allocateTable_static (t : trap_maps S) (w := getAddressWidth (tm_as t)) (n := table_mutatee_size t * (w * 2) + TRAP_HEADER_SIZE) :
  sp_ok (tm_as t) -> current_table t = 0 -> 0 <= table_mutatee_size t < 2 ^ 31 -> sp_room (tm_as t) n -> n < 2 ^ 32 ->
  exists s' a, allocateTable padding isStaticBinary t = Ret (tt, mk_maps (tm_mapping t) (tm_updated t) (needs_updating t) s' (tm_vars t) (table_version t)
      (table_used t) (table_mutatee_size t) (table_mutatee_size t) (a + TRAP_HEADER_SIZE) a (blockFlushes t) (tm_symtab t ++ header_symbols a)) /\
    sp_ok s' /\ getAddressWidth s' = w /\ sp_heap s' a n /\ bytes_at s' a (header_bytes padding (table_mutatee_size t)).
Proof.
  intros HO Htab Hsz Hroom Hn. pose proof (sp_width _ HO) as Hw2. fold w in Hw2. pose proof (word_bound w Hw2) as HW64. unfold allocateTable.
  rewrite !bind_gets, Hproc, bind_gets, Htab. fold w. rewrite (bind_ret _ _ _ tt t) by done.
  set (t1 := with_table t (tm_as t) 0 (table_mutatee_size t)).
  rewrite (bind_ret _ _ _ tt t1) by (unfold set_allocated, modify, t1, with_table; rewrite u64_id by lia; by rewrite Htab).
  fold n. unfold TRAP_HEADER_SIZE in *. rewrite u32_id by (unfold n in *; nia).
  destruct (sp_malloc_law (tm_as t) n HO ltac:(unfold n; nia) Hroom) as (a & s1 & E1 & A1 & A2 & A3 & _).
  destruct (sp_pos _ _ _ A1 (or_introl A3)) as (P1 & P2 & P3). rewrite A2 in P3. fold w in P3.
  rewrite (bind_ret _ _ _ a (with_table t s1 0 (table_mutatee_size t))) by (unfold lift; simpl; by rewrite E1).
  set (t2 := mk_maps (tm_mapping t) (tm_updated t) (needs_updating t) s1 (tm_vars t) (table_version t)
      (table_used t) (table_mutatee_size t) (table_mutatee_size t) 0 a (blockFlushes t) (tm_symtab t)).
  rewrite (bind_ret _ _ _ tt t2) by done.
  destruct (write_run t2 a n 0 (header_bytes padding (table_mutatee_size t)) A1 (or_introl A3)) as (s2 & E2 & HW); rewrite ?header_bytes_length; try (unfold n; nia).
  rewrite Z.add_0_r in E2, HW. rewrite (bind_ret _ _ _ _ _ E2), (bind_ret _ _ _ tt (at_space t2 s2 (table_used t2))) by done.
  exists s2, a. split_and!.
  - unfold set_table, modify, mbind, M_bind. simpl. rewrite u64_id by (unfold n in *; lia). unfold header_symbols. destruct isStaticBinary; simpl.
    + by rewrite app_nil_r.
    + unfold symtab_do, modify. simpl. by rewrite <- !app_assoc.
  - apply HW.
  - destruct HW as (_ & HWw & _). rewrite HWw. exact A2.
  - by apply HW.
  - by eapply wrote_here.
Qed.

Lemma flush_static_run (t : trap_maps S) l (w := getAddressWidth (tm_as t)) (size := table_mutatee_size t) :
  maps_ok t l -> sp_ok (tm_as t) -> mappings_fit w (tm_mapping t) -> current_table t = 0 -> needs_updating t = true -> blockFlushes t = false ->
  sp_room (tm_as t) (size * (w * 2) + TRAP_HEADER_SIZE) -> size * (w * 2) + TRAP_HEADER_SIZE < 2 ^ 32 ->
  exists t' es a, flush rtlib padding isStaticBinary t = Ret (tt, t') /\ sp_ok (tm_as t') /\ table_header t' = a /\ 0 < a /\
    tm_symtab t' = tm_symtab t ++ header_symbols a /\
    bytes_at (tm_as t') a (header_bytes padding size) /\ entries_at (tm_as t') (a + TRAP_HEADER_SIZE) w es /\ Z.of_nat (length es) = size /\
    StronglySorted Z.lt (tr_source <$> es) /\ (forall k, k ∈ tr_source <$> es <-> in_mutatee (tm_mapping t) k) /\ (forall e, e ∈ es -> settled (tm_mapping t) e).
Proof.
  intros HO HS HF Htab Hne Hbl Hroom Hn. pose proof (sp_width _ HS) as Hw2. fold w in Hw2. pose proof (word_bound w Hw2) as HW64.
  destruct (plan_flush_run true t l HO) as (adds & upds & mp & EP & HP & Hlen & Hsort). destruct (Hsort eq_refl) as [-> Hss]. simpl in EP, HP, Hlen.
  pose proof (mo_small _ _ HO) as Hsm. fold size in Hsm, Hlen. set (t1 := planned t mp 0) in *.
  destruct (allocateTable_static t1) as (s2 & a & EA & A1 & A2 & A3 & A4); try done; [simpl; fold size; lia|]. simpl in EA, A2, A3, A4. fold w in A2. fold size in EA, A3, A4.
  set (t2 := mk_maps _ _ _ _ _ _ _ _ _ _ _ _ _) in EA. destruct (sp_pos _ _ _ A1 (or_introl A3)) as (P1 & P2 & P3).
  assert (mappings_fit w mp) as HF' by (by eapply mappings_fit_plan).
  assert (forall k, k ∈ adds -> exists m0 m, tm_mapping t !! k = Some m0 /\ mp !! k = Some m /\ from_addr m = k /\ to_addr m = to_addr m0) as Hin.
  { intros k (m0 & Hm0 & _)%(fp_in _ _ _ _ _ HP). destruct (flush_plan_same _ _ _ _ _ k m0 HP Hm0) as (m & Hm & (_ & Et & _)).
    exists m0, m. split_and!; try done. by apply (HF' k m). }
  destruct (write_entries_run w adds [] t2 a TRAP_HEADER_SIZE (size * (w * 2) + TRAP_HEADER_SIZE)) as (s3 & EW & HW & Hes); try done.
  { intros k Hk. destruct (Hin k Hk) as (m0 & m & _ & Hm & _). simpl. eauto. }
  { intros _. left. exact A3. }
  { simpl. unfold TRAP_HEADER_SIZE in *. nia. }
  simpl in EW, HW, Hes. set (es := entry_of mp <$> adds) in *. assert (tr_source <$> es = adds) as Hsrc.
  { unfold es. rewrite <- list_fmap_compose. transitivity (id <$> adds); [|apply list_fmap_id]. apply list_fmap_ext. intros i k Hk%list_elem_of_lookup_2.
    unfold entry_of. simpl. by destruct (Hin k Hk) as (m0 & m & _ & -> & Ef & _). }
  assert (length es = length adds) as Hle by apply length_fmap.
  eexists _, es, a. split_and!.
  - unfold flush. rewrite !bind_gets, Hne, Hbl. cbn [negb orb]. rewrite !bind_gets, Hproc. cbn [negb orb].
    rewrite (bind_ret _ _ _ _ _ EP). cbn [fst snd]. rewrite (bind_ret _ _ _ _ _ EA), (bind_ret _ _ _ _ _ EW). reflexivity.
  - apply HW.
  - done.
  - done.
  - done.
  - simpl. eapply wrote_apart; [exact HW|exact A4|]. left. rewrite header_bytes_length. unfold TRAP_HEADER_SIZE. lia.
  - exact Hes.
  - lia.
  - by rewrite Hsrc.
  - intros k. rewrite Hsrc. apply HP.
  - intros e (k & -> & Hk)%list_elem_of_fmap. destruct (Hin k Hk) as (m0 & m & Hm0 & Hm & Ef & Et). unfold entry_of. rewrite Hm. exists m0. simpl. by rewrite Ef.
Qed.
End Static.
End Flush.
