(* ===== verification/TrapProc.v ===== *)
(** * Traps of a running process, from the mutator to the handler

    The mutator adds trap mappings and flushes them; the handler in the mutatee
    (RTCommon) then translates every trap as the mutator's own map does. *)
From stdpp Require Import base gmap list sorting.
From S2P Require Import Prelude RTCommon RTLinux TrapMap TrapMapOk TrapFlush.
Import trampTrapMappings.

(** ** Adding a batch *)

Section Batch.
Context {S : Type} {space : Space S} {laws : SpaceLaws S} {walk : WalkOrder}.
Context (rtlib : list rt_variables) (padding : list Z) (isStaticBinary : bool).
Context (a_used a_version a_table a_sorted : Z).
Notation inv := (trap_inv a_used a_version a_table a_sorted).

(** Every call in the sources asks for the mapping to be written to the mutatee. *)
Definition add_all (l : list (Z * Z)) : M (trap_maps S) unit := forM l (fun p => addTrapMapping p.1 p.2 true).

Definition all_mutatee (mp : gmap Z tramp_mapping_t) : Prop := forall k m, mp !! k = Some m -> mutatee_side m = true.
Definition trap_fits (w : Z) (p : Z * Z) : Prop := 0 <= p.1 /\ fits_word w (p.1 + 1) /\ fits_word w p.2.

(** The targets by trap address. *)
Definition targets (t : trap_maps S) : gmap Z Z := to_addr <$> tm_mapping t.
Definition add_targets (m : gmap Z Z) (l : list (Z * Z)) : gmap Z Z := foldl (fun m p => <[p.1 + 1 := p.2]> m) m l.

Lemma added_inv (t : trap_maps S) es from to :
  inv t es -> all_mutatee (tm_mapping t) -> trap_fits (getAddressWidth (tm_as t)) (from, to) -> table_mutatee_size t + 1 < 2 ^ 31 ->
  addTrapMapping from to true t = Ret (tt, added t (from + 1) to true) /\ inv (added t (from + 1) to true) es.
Proof.
  intros HI HA (F1 & F2 & F3) Hsz. pose proof HI as [I1 I2 I3 I4 I5 I6 I7 I8 I9 I10 I11]. simpl in F1, F2, F3.
  pose proof (word_bound _ (sp_width _ I2)). unfold fits_word in F2.
  destruct (addTrapMapping_run t _ from to true I1 Hsz F1 ltac:(lia)) as [E HM]; [intros m Hm; by apply (HA _ m Hm)|]. split; [done|].
  split; try done.
  - intros k m. simpl. rewrite lookup_insert. case_decide as Ek; [|apply I3]. intros [= <-]. subst k. done.
  - intros e m He. simpl. rewrite lookup_insert. case_decide as Ek; [by intros [= <-]|by apply I7].
Qed.

Lemma added_size (t : trap_maps S) k to : table_mutatee_size t <= table_mutatee_size (added t k to true) <= table_mutatee_size t + 1.
Proof. simpl. destruct (bool_decide _); simpl; lia. Qed.
Lemma added_sides (t : trap_maps S) k to : all_mutatee (tm_mapping t) -> all_mutatee (tm_mapping (added t k to true)).
Proof. intros HA x m. simpl. rewrite lookup_insert. case_decide; [by intros [= <-]|apply HA]. Qed.

(** A batch keeps what every single addition keeps. *)
Lemma add_all_run (P : trap_maps S -> Prop) l :
  (forall t from to, P t -> all_mutatee (tm_mapping t) -> trap_fits (getAddressWidth (tm_as t)) (from, to) -> table_mutatee_size t + 1 < 2 ^ 31 ->
     addTrapMapping from to true t = Ret (tt, added t (from + 1) to true) /\ P (added t (from + 1) to true)) ->
  forall t : trap_maps S, P t -> all_mutatee (tm_mapping t) -> Forall (trap_fits (getAddressWidth (tm_as t))) l -> table_mutatee_size t + Z.of_nat (length l) < 2 ^ 31 ->
  exists t', add_all l t = Ret (tt, t') /\ P t' /\ all_mutatee (tm_mapping t') /\ targets t' = add_targets (targets t) l /\
    (l <> [] -> needs_updating t' = true) /\ tm_as t' = tm_as t /\ table_allocated t' = table_allocated t /\ table_version t' = table_version t /\
    current_table t' = current_table t /\ tm_symtab t' = tm_symtab t /\
    blockFlushes t' = blockFlushes t /\ table_mutatee_size t <= table_mutatee_size t' <= table_mutatee_size t + Z.of_nat (length l).
Proof.
  intros HP. induction l as [|[from to] l IH]; intros t HI HA HF Hsz; [exists t; split_and!; try done; lia|]. apply Forall_cons in HF as [F1 F2]. simpl in Hsz.
  destruct (HP t from to HI HA F1 ltac:(lia)) as (E & HI1). pose proof (added_size t (from + 1) to) as Hs1.
  destruct (IH (added t (from + 1) to true) HI1 (added_sides t _ to HA) F2 ltac:(lia)) as (t' & E' & HI' & HA' & HT & Hne & B1 & B2 & B3 & B4 & B5 & B6 & B7).
  exists t'. split_and!; try done; try lia.
  - unfold add_all in *. cbn [forM]. rewrite (bind_ret _ _ _ _ _ E). exact E'.
  - rewrite HT. unfold targets. simpl. by rewrite fmap_insert.
  - intros _. destruct l; [|by apply Hne]. injection E' as <-. done.
  - simpl length. lia.
Qed.

Lemma add_targets_head m from to l : is_Some (add_targets m ((from, to) :: l) !! (from + 1)).
Proof.
  simpl. assert (is_Some (<[from + 1 := to]> m !! (from + 1))) as H by (rewrite lookup_insert_eq; eauto). revert H. generalize (<[from + 1 := to]> m) as m'.
  induction l as [|p l IH]; intros m' Hm; [done|]. simpl. apply IH. rewrite lookup_insert. case_decide; eauto.
Qed.

Lemma seen_sorted (es : list trapMapping_t) : StronglySorted Z.lt (tr_source <$> es) -> traps_sorted es.
Proof.
  induction es as [|e es IH]; intros HS i j a b Hij Ha Hb; [done|]. csimpl in HS. apply StronglySorted_inv in HS as [HS1 HS2].
  destruct j as [|j]; [lia|]. destruct i as [|i]; simpl in Ha, Hb; [|apply (IH HS1 i j); [lia|done|done]].
  injection Ha as <-. rewrite Forall_fmap, Forall_forall in HS2. apply HS2. by eapply list_elem_of_lookup_2.
Qed.

(** C12: a trap of a running process goes where the mutator wants it to go.  The
    mutator adds any batch of trap mappings, new ones or new targets for old ones,
    and flushes: the flush succeeds while the mutatee has memory, rebuilding the
    table or appending to it and updating it; and then the handler in the mutatee,
    reading the table and the variables from its own memory, translates every
    address exactly as the mutator's map does, and 0 for an address without a trap. *)
Theorem process_traps_translated (t : trap_maps S) es l (w := getAddressWidth (tm_as t)) :
  lookup_variables no_variables rtlib = mk_rtvars (Some a_used) (Some a_version) (Some a_table) (Some a_sorted) -> is_process = true ->
  inv t es -> all_mutatee (tm_mapping t) -> blockFlushes t = false -> l <> [] -> Forall (trap_fits w) l ->
  table_mutatee_size t + Z.of_nat (length l) < 2 ^ 31 -> table_version t + 1 < 2 ^ 32 ->
  (forall k, table_allocated t < k <= table_mutatee_size t + Z.of_nat (length l) -> sp_room (tm_as t) (new_size k * (w * 2)) /\ new_size k * (w * 2) < 2 ^ 32) ->
  exists t' es' T, (add_all l ;; flush rtlib padding isStaticBinary) t = Ret (tt, t') /\ inv t' es' /\ all_mutatee (tm_mapping t') /\
    targets t' = add_targets (targets t) l /\ runtime_sees a_used a_version a_table a_sorted (tm_as t') w T /\
    forall source n rounds i, (length (tt_table T) + 2 <= n)%nat -> (1 <= rounds)%nat ->
      exists v i', getTrapMapping source t' = Ret (v, t') /\ dyninstTrapTranslate (fun _ => T) rounds n source i = Ret (v, i').
Proof.
  intros Hlook Hproc HI HA Hbl Hne HF Hsz Hver Hroom.
  destruct (add_all_run (fun t => inv t es) l (fun t from to => added_inv t es from to) t HI HA HF Hsz) as (t1 & E1 & HI1 & HA1 & HT1 & Hn1 & B1 & B2 & B3 & _ & _ & B4 & B5).
  assert (grow_room t1) as HR by (intros Hlt; rewrite B1; apply Hroom; lia).
  destruct (flush_process_run rtlib padding isStaticBinary _ _ _ _ Hlook Hproc t1 es HI1 (Hn1 Hne)) as (t2 & es2 & E2 & HI2 & _ & Hsame & Hw2 & Hsee & Hlen & Hss & Hin & Hset);
    [congruence|lia|done|].
  rewrite B1 in Hsee. exists t2, es2. eexists. split; [by rewrite (bind_ret _ _ _ _ _ E1)|]. split; [done|].
  assert (forall k m2, tm_mapping t2 !! k = Some m2 -> exists m1, tm_mapping t1 !! k = Some m1 /\ same_mapping m1 m2) as Hback.
  { intros k m2 Hm2. pose proof (Hsame k) as HS. rewrite Hm2 in HS. inversion HS as [m1 ? HSm X1 X2|]; subst. by exists m1. }
  assert (targets t2 = targets t1) as HT2.
  { unfold targets. apply map_eq. intros k. rewrite !lookup_fmap. destruct (Hsame k) as [m1 m2 (_ & Et & _)|]; [|done]. simpl. by rewrite Et. }
  split; [intros k m2 (m1 & Hm1 & (_ & _ & ->))%Hback; by apply (HA1 k)|]. split; [congruence|]. split; [exact Hsee|].
  intros source n rounds i Hn Hr. simpl in Hn.
  assert (0 < length es2)%nat as Hpos.
  { destruct l as [|[from to] l]; [done|]. assert (is_Some (targets t1 !! (from + 1))) as [v Hv] by (rewrite HT1; apply add_targets_head).
    unfold targets in Hv. rewrite lookup_fmap in Hv. apply fmap_Some in Hv as (m & Hm & _).
    assert (from + 1 ∈ tr_source <$> es2) as Hk by (apply Hin; exists m; split; [done|by apply (HA1 _ m Hm)]). destruct es2; [by apply elem_of_nil in Hk|simpl; lia]. }
  destruct (translate_quiet_run (mk_traps (Z.of_nat (length es2)) (table_version t1 + 1) es2 (table_allocated t1 <? table_mutatee_size t1)) source
    (fun _ => mk_traps (Z.of_nat (length es2)) (table_version t1 + 1) es2 (table_allocated t1 <? table_mutatee_size t1)) i n rounds) as (v & i' & E & Hv); simpl; try done; try lia.
  { pose proof (ti_version _ _ _ _ _ _ HI1). lia. }
  { intros Hs. by apply seen_sorted, Hss. }
  exists v, i'. split; [|done]. unfold getTrapMapping, gets. do 2 f_equal. simpl in Hv. destruct Hv as [(e & He & <- & <-)|[-> Hno]].
  - destruct (Hset e He) as (m & -> & ->). done.
  - destruct (tm_mapping t2 !! source) as [m2|] eqn:Hm2; [|done]. exfalso. destruct (Hback source m2 Hm2) as (m1 & Hm1 & _).
    assert (source ∈ tr_source <$> es2) as (e & -> & He)%list_elem_of_fmap by (apply Hin; exists m1; split; [done|by apply (HA1 _ m1 Hm1)]). by apply (Hno e He).
Qed.
End Batch.
