(* ===== verification/TrapProcess.v ===== *)
(** * The traps of a process with its inferior heap

    PCProcess over the inferior heap (InfHeap) keeps the laws that the trap mappings
    rely on.  The memory of the mutatee is behind the debugger's interface; here it
    is a map of bytes that takes every write. *)
From stdpp Require Import base gmap list sorting.
From S2P Require Import Prelude InfHeap InfHeapOk InfHeapProc RTCommon RTLinux TrapMap TrapMapOk TrapFlush TrapProc.
Import infHeap trampTrapMappings.

Record mutatee_state : Type := mk_mutatee { ms_proc : pcProcess; ms_mem : gmap Z Z }.

Fixpoint write_bytes (m : gmap Z Z) (a : Z) (d : list Z) : gmap Z Z :=
  match d with [] => m | c :: d' => <[a := c]> (write_bytes m (a + 1) d') end.

Lemma write_bytes_lookup d : forall m a x,
  write_bytes m a d !! x = if decide (a <= x < a + Z.of_nat (length d)) then d !! Z.to_nat (x - a) else m !! x.
Proof.
  induction d as [|c d IH]; intros m a x; simpl; [by rewrite decide_False by lia|]. rewrite lookup_insert. case_decide as E.
  - subst x. rewrite decide_True by lia. by rewrite Z.sub_diag.
  - rewrite IH. destruct (decide (a + 1 <= x < a + 1 + Z.of_nat (length d))) as [H|H].
    + rewrite decide_True by lia. replace (Z.to_nat (x - a)) with (S (Z.to_nat (x - (a + 1)))) by lia. done.
    + by rewrite decide_False by lia.
Qed.

Section Process.
Context (static : Z -> Prop) `{Honest static}.

Definition on_proc {A} (m : M pcProcess A) : M mutatee_state A := fun s =>
  match m (ms_proc s) with Ret (a, p) => Ret (a, mk_mutatee p (ms_mem s)) | Fault e => Fault e end.

Instance process_space : Space mutatee_state := {
  is_process := true;
  getAddressWidth s := pp_width (ms_proc s);
  space_malloc n := r ← on_proc (inferiorMalloc n anyHeap 0) ; mret (fst r);
  space_free a := on_proc (inferiorFree a);
  writeDataSpace a d := fun s => Ret (true, mk_mutatee (ms_proc s) (write_bytes (ms_mem s) a d))
}.

Abbreviation spc s := (pp_space (ms_proc s)).

Definition ms_ok (s : mutatee_state) : Prop :=
  proc_ok static (ms_proc s) /\ pp_ready (ms_proc s) = true /\ pp_width (ms_proc s) = 8.
Definition ms_heap (s : mutatee_state) (a n : Z) : Prop :=
  exists h, active_of (spc s) !! a = Some h /\ 0 < n <= hi_length h.
(** Data of the image, outside its static heaps. *)
Definition ms_data (s : mutatee_state) (a n : Z) : Prop :=
  0 < a /\ 0 < n /\ a + n < 2 ^ 64 /\ forall x, a <= x < a + n -> owners (blocks (spc s)) x = 0.
Definition ms_room (s : mutatee_state) (n : Z) : Prop :=
  bytes (blocks (spc s)) + n + 8 < 2 ^ 31 /\
  exists h, h ∈ free_of (spc s) /\ fits h (inferiorMallocAlign 8 n) anyHeap ADDRESS_LO ADDRESS_HI = true.

(** With a free block that fits, the first attempt succeeds. *)
Lemma malloc_first p n : proc_ok static p -> pp_ready p = true -> pp_width p = 8 -> 0 < n -> n + 8 < 2 ^ 31 ->
  (exists h, h ∈ free_of (pp_space p) /\ fits h (inferiorMallocAlign 8 n) anyHeap ADDRESS_LO ADDRESS_HI = true) ->
  exists h s', inferiorMalloc n anyHeap 0 p = Ret ((hi_addr h, Some false), eput s' p) /\
    h ∈ free_of (pp_space p) /\ n <= inferiorMallocAlign 8 n <= hi_length h /\
    allocated (pp_space p) h (inferiorMallocAlign 8 n) s'.
Proof.
  intros HP Hr Hw Hn Hb (h0 & Hh0 & Hf0). destruct (align_process static p n HP Hn ltac:(lia)) as [Hal _]. rewrite Hw in Hal.
  unfold inferiorMalloc. rewrite !bind_gets, Hr. cbn [negb]. rewrite (proj2 (Z.leb_gt n 0)) by lia. rewrite bind_gets, Hw.
  change (inferiorMallocConstraints 8 0 ADDRESS_LO ADDRESS_HI) with (ADDRESS_LO, ADDRESS_HI).
  set (k := inferiorMallocAlign 8 n) in *.
  destruct (inferiorMallocInternal_run (pp_space p) k ADDRESS_LO ADDRESS_HI anyHeap (po_heap _ _ HP) ltac:(lia))
    as [[_ Hno]|(h & s' & E & HB & HA)]; [by rewrite (Hno h0 Hh0) in Hf0|].
  pose proof (proj1 (Forall_forall _ _) (ho_free _ (po_heap _ _ HP)) h (proj1 HB)) as HI.
  destruct (fits_bounds _ h k anyHeap _ _ HI ltac:(lia) (proj1 (proj2 HB))) as (_ & _ & F3 & _).
  assert (forall left, malloc_tries (S left) 0 k anyHeap ADDRESS_LO ADDRESS_HI false p = Ret ((hi_addr h, false), eput s' p)) as E0.
  { intros left. cbn [malloc_tries]. rewrite (bind_ret _ _ _ (Some (ADDRESS_LO, ADDRESS_HI, false)) p) by done.
    rewrite (bind_ret _ _ _ _ _ (lift_run _ p _ _ E)). rewrite (proj2 (Z.eqb_neq _ _)) by (destruct HI; lia). done. }
  exists h, s'. split_and!; [|apply HB|lia|lia|done]. by rewrite (bind_ret _ _ _ _ _ (E0 8%nat)).
Qed.

Lemma proc_ok_allocated p h k s' : proc_ok static p -> allocated (pp_space p) h k s' -> proc_ok static (eput s' p).
Proof.
  intros [P1 P2 P3 P4] HA. destruct (al_same _ _ _ _ HA) as [C1 C2]. split; simpl; [apply HA| |by apply HA|done].
  intros x. rewrite C1. apply P2.
Qed.

(** Two live blocks, and a live block and the data of the image, do not meet. *)
Lemma heap_disjoint s a n b k : ms_ok s -> ms_heap s a n -> ms_heap s b k -> a <> b -> b + k <= a \/ a + n <= b.
Proof.
  intros (HP & _) (h & Hh & Hn) (g & Hg & Hk) Hne. destruct (ho_active _ (po_heap _ _ HP) _ _ Hh) as [Ea _], (ho_active _ (po_heap _ _ HP) _ _ Hg) as [Eb _].
  pose proof (live_apart static _ _ _ _ _ HP Hh Hg Hne) as HA. unfold apart_items, end_of in HA. lia.
Qed.
Lemma data_disjoint s a n b k : ms_ok s -> ms_heap s a n -> ms_data s b k -> b + k <= a \/ a + n <= b.
Proof.
  intros (HP & _) (h & Hh & Hn) (B1 & B2 & B3 & B4). destruct (ho_active _ (po_heap _ _ HP) _ _ Hh) as [Ea _].
  destruct (decide (b + k <= a)); [by left|]. destruct (decide (a + n <= b)); [by right|]. exfalso. set (x := Z.max a b).
  specialize (B4 x ltac:(lia)). unfold blocks in B4. rewrite zsum_app, (items_of_delete _ _ _ Hh), zsum_cons, owns_in in B4 by (unfold end_of; lia).
  pose proof (owners_nonneg (free_of (spc s)) x). pose proof (owners_nonneg (items_of (delete a (active_of (spc s)))) x). lia.
Qed.

#[refine] Instance process_laws : SpaceLaws mutatee_state := {
  sp_ok := ms_ok; sp_heap := ms_heap; sp_data := ms_data; sp_byte s x c := ms_mem s !! x = Some c; sp_room := ms_room
}.
Proof.
  - intros s (HP & _ & Hw). simpl. by right.
  - intros s a n (HP & _ & Hw) [(h & Hh & Hn)|(B1 & B2 & B3 & _)]; simpl; rewrite Hw; [|by split_and!].
    destruct (ho_active _ (po_heap _ _ HP) _ _ Hh) as [Ea [I1 I2 I3 I4]]. unfold end_of in I3. split_and!; lia.
  - intros s a n off d HO HR Ho Hl H32. eexists. split; [reflexivity|]. split_and!; try done. intros x c. simpl. rewrite write_bytes_lookup. by destruct (decide _).
  - intros s n (HP & Hr & Hw) Hn (Hb & Hfit). pose proof (heap_bytes _ (po_heap _ _ HP)) as (N1 & N2 & _). unfold blocks in Hb. rewrite zsum_app in Hb.
    destruct (malloc_first (ms_proc s) n HP Hr Hw Hn ltac:(lia) Hfit) as (h & s' & E & Hin & Hk & HA).
    pose proof (proc_ok_allocated _ _ _ _ HP HA) as HP'. destruct (al_same _ _ _ _ HA) as [C1 C2].
    set (q := mk_mutatee (eput s' (ms_proc s)) (ms_mem s)). assert (ms_ok q) as HQ by (by split_and!).
    assert (ms_heap q (hi_addr h) n) as HN by (exists (with_status (with_length h (inferiorMallocAlign 8 n)) HEAPallocated); simpl; rewrite (al_active _ _ _ _ HA), lookup_insert_eq; split; [done|simpl; lia]).
    assert (forall b k, ms_heap s b k -> b <> hi_addr h /\ ms_heap q b k) as HK.
    { intros b k (g & Hg & Hgk). assert (b <> hi_addr h) by (intros ->; rewrite (al_fresh _ _ _ _ HA) in Hg; done). split; [done|].
      exists g. split; [simpl; rewrite (al_active _ _ _ _ HA); by rewrite lookup_insert_ne|done]. }
    assert (forall b k, ms_data s b k -> ms_data q b k) as HD.
    { intros b k (B1 & B2 & B3 & B4). split_and!; try done. intros x Hx. simpl. rewrite C1. by apply B4. }
    exists (hi_addr h), q. split_and!; try done.
    + simpl. unfold on_proc, mbind, M_bind. by rewrite E.
    + intros b k Hg. by apply HK.
    + intros b k [Hg|Hg]; (split; [|done]).
      * destruct (HK b k Hg). eapply heap_disjoint; eauto.
      * eapply data_disjoint; eauto.
  - intros s a n (HP & Hr & Hw) (h & Hh & Hn). pose proof (inferiorFreeInternal_run (spc s) a (po_heap _ _ HP)) as HF. rewrite Hh in HF.
    destruct HF as (s' & E & [R1 [C1 C2] R3 R4 R5 R6]). exists (mk_mutatee (eput s' (ms_proc s)) (ms_mem s)). split_and!; try done.
    + simpl. unfold on_proc, inferiorFree. by rewrite (lift_run _ (ms_proc s) _ _ E).
    + split; [|done]. destruct HP as [P1 P2 P3 P4]. split; simpl; auto. intros x. rewrite C1. auto.
    + intros b k (B1 & B2 & B3 & B4). split_and!; try done. intros x Hx. simpl. rewrite C1. by apply B4.
    + intros k (K1 & g & Hg & Hf). split; [simpl; by rewrite C2|]. exists g. split; [simpl; rewrite R4; by right|done].
Defined.
End Process.

(** ** A process with one static heap *)

#[local] Existing Instance upward.
#[local] Existing Instance process_space.
#[local] Existing Instance process_laws.
#[export] Instance elements_order : WalkOrder := {| order := elements; order_perm X := Permutation_refl _ |}.

Definition demo_heap : heapItem := mk_item 0x10000 0x4000 anyHeap false HEAPfree NULL.
Definition demo_proc : pcProcess :=
  mk_process (mk_space (mk_infheap ∅ [demo_heap] [] 0 0x4000 0 [demo_heap]) true) 8 true [] [].
Definition demo_state : mutatee_state := mk_mutatee demo_proc ∅.
Definition demo_rtlib : list rt_variables :=
  [mk_rtvars None None None None; mk_rtvars (Some 0x8000) (Some 0x8008) (Some 0x8010) (Some 0x8018)].

Lemma demo_blocks : blocks (pp_space demo_proc) = [demo_heap].
Proof. unfold blocks, active_of, free_of, items_of. simpl. by rewrite map_to_list_empty. Qed.
Lemma demo_owners x : owners (blocks (pp_space demo_proc)) x = owns x demo_heap.
Proof. rewrite demo_blocks, zsum_cons, zsum_nil. lia. Qed.

Lemma demo_proc_ok : proc_ok low_image demo_proc.
Proof.
  assert (item_ok HEAPfree demo_heap) as HI by (by split).
  split; [split| | |by right].
  - by constructor.
  - done.
  - intros x. rewrite demo_owners. apply owns_range.
  - rewrite demo_blocks. by vm_compute.
  - repeat constructor.
  - intros x. rewrite demo_owners. unfold owns, end_of, low_image. simpl. case_decide; lia.
  - done.
Qed.

Lemma demo_inv : @trap_inv mutatee_state _ (process_laws low_image) 0x8000 0x8008 0x8010 0x8018 (trampTrapMappings_new demo_state) [].
Proof.
  split; simpl; try done; try lia; try (by left).
  - apply maps_ok_new.
  - split; [exact demo_proc_ok|done].
  - split.
    + intros a Ha. unfold rt_addrs in Ha. rewrite !elem_of_cons, elem_of_nil in Ha. split_and!; simpl; try lia. intros x Hx.
      change (owners (blocks (pp_space demo_proc)) x = 0). rewrite demo_owners, owns_out; [done|]. simpl. lia.
    + intros [|[|[|[|i]]]] [|[|[|[|j]]]] a b Hij Ha Hb; simpl in *; simplify_eq; try lia; unfold apart_words; lia.
  - intros a Ha. unfold rt_addrs in Ha. rewrite !elem_of_cons, elem_of_nil in Ha. lia.
Qed.

Lemma process_traps_translated_witness :
  exists t' es' T, (add_all [(0x4000, 0x5000); (0x3000, 0x5100)] ;; flush demo_rtlib [0; 0; 0; 0] false) (trampTrapMappings_new demo_state) = Ret (tt, t') /\
    @trap_inv mutatee_state _ (process_laws low_image) 0x8000 0x8008 0x8010 0x8018 t' es' /\ all_mutatee (tm_mapping t') /\
    targets t' = add_targets ∅ [(0x4000, 0x5000); (0x3000, 0x5100)] /\
    @runtime_sees mutatee_state _ (process_laws low_image) 0x8000 0x8008 0x8010 0x8018 (tm_as t') 8 T /\
    forall source n rounds i, (length (tt_table T) + 2 <= n)%nat -> (1 <= rounds)%nat ->
      exists v i', getTrapMapping source t' = Ret (v, t') /\ dyninstTrapTranslate (fun _ => T) rounds n source i = Ret (v, i').
Proof.
  apply (@process_traps_translated mutatee_state _ (process_laws low_image) _ demo_rtlib [0; 0; 0; 0] false 0x8000 0x8008 0x8010 0x8018
    (trampTrapMappings_new demo_state) [] [(0x4000, 0x5000); (0x3000, 0x5100)]); try done.
  - exact demo_inv.
  - rewrite !Forall_cons, Forall_nil. unfold trap_fits, fits_word. simpl. split_and!; done || lia.
  - simpl. intros k Hk. assert (new_size k * (8 * 2) = 4096) as ->.
    { unfold new_size, MIN_TRAP_TABLE_SIZE. assert (k = 1 \/ k = 2) as [-> | ->] by lia; done. }
    split; [|done]. split; [change (bytes (blocks (pp_space demo_proc)) + 4096 + 8 < 2 ^ 31); rewrite demo_blocks; by vm_compute|].
    exists demo_heap. split; [by left|done].
Defined.

(** ** What the mappings do not survive *)

Definition flush_outcome (m : M (trap_maps mutatee_state) unit) : res unit :=
  match m (trampTrapMappings_new demo_state) with Ret _ => Ret tt | Fault e => Fault e end.
Abbreviation demo_flush := (flush demo_rtlib [0; 0; 0; 0] false).

(** A trap that was kept in the mutator and is then to be written to the mutatee is
    not counted, and the flush fails its assertion. *)
Example side_change_not_counted :
  flush_outcome (addTrapMapping 0x4000 0x5000 false ;; addTrapMapping 0x4000 0x5000 true ;; addTrapMapping 0x3000 0x5100 true ;; demo_flush) = Fault FAssert.
Proof. vm_compute. reflexivity. Qed.

(** On fork the pending updates are not copied with the mappings: a child that is
    forked between adding a trap and flushing it fails the same assertion. *)
Example pending_lost_on_fork :
  flush_outcome (addTrapMapping 0x4000 0x5000 true ;; demo_flush ;; addTrapMapping 0x3000 0x5100 true ;;
    parent ← gets id ; modify (fun t => trampTrapMappings_new (tm_as t)) ;; copyTrapMappings parent ;; demo_flush) = Fault FAssert /\
  flush_outcome (addTrapMapping 0x4000 0x5000 true ;; demo_flush ;; addTrapMapping 0x3000 0x5100 true ;; demo_flush) = Ret tt.
Proof. vm_compute. done. Qed.
