(* ===== verification/TrapStatic.v ===== *)
(** * The traps of a rewritten binary

    BinaryEdit over the backing store of the image keeps the laws of an address
    space; its one flush leaves in the image a header and a sorted table, which the
    runtime library (RTLinux) finds and uses when the rewritten program runs. *)
From stdpp Require Import base gmap list sorting.
From S2P Require Import Prelude CodeRange CodeRangeTree CodeRangeMap InfHeap InfHeapOk BinHeap BinHeapOk BinImage RTLock RTCommon RTLinux TrapMap TrapMapOk TrapFlush TrapProc TrapProcess.
Import trampTrapMappings.

(** ** The image as an address space *)

Lemma is_range_unique s m1 m2 : is_range s m1 -> is_range s m2 -> m1 = m2.
Proof.
  intros H1 H2. apply map_eq. intros k. destruct (find_internal_range s m1 k H1) as (p1 & E1 & C1), (find_internal_range s m2 k H2) as (p2 & E2 & C2).
  rewrite E1 in E2. injection E2 as <-. destruct (m1 !! k) as [v1|], (m2 !! k) as [v2|]; try done; [|by destruct C1|by destruct C2].
  destruct C1 as [_ C1], C2 as [_ C2]. congruence.
Qed.

Lemma bin_ok_unique b m1 m2 : bin_ok b m1 -> bin_ok b m2 -> m1 = m2.
Proof.
  intros H1 H2. pose proof (bo_tree _ _ H1) as T1. pose proof (bo_tree _ _ H2) as T2. destruct (binaryEdit.be_memoryTracker b); [by eapply is_range_unique|congruence].
Qed.

Instance binary_space : Space binaryEdit.binaryEdit := {
  is_process := false;
  getAddressWidth := binaryEdit.be_width;
  space_malloc := binaryEdit.inferiorMalloc;
  space_free := binaryEdit.inferiorFree;
  writeDataSpace := binaryEdit.writeDataSpace
}.

Import binaryEdit.

Definition be_ok (b : binaryEdit) : Prop := (exists m, bin_ok b m) /\ be_highWaterMark b < 2 ^ (8 * be_width b).
(** Part of an allocated block. *)
Definition be_heap (b : binaryEdit) (a n : Z) : Prop := is_Some (bactive b !! a) /\ exists m v o, bin_ok b m /\ tracks (be_objs b) m a v o /\ 0 < n <= mt_s o.
(** Part of a section. *)
Definition be_data (b : binaryEdit) (a n : Z) : Prop := exists m k v o, bin_ok b m /\ tracks (be_objs b) m k v o /\ mt_alloced o = false /\
  0 < n /\ k <= a /\ a + n <= k + mt_s o.
Definition be_byte (b : binaryEdit) (x c : Z) : Prop := exists m, bin_ok b m /\ holds b m x (Some c).
Definition be_room (b : binaryEdit) (n : Z) : Prop := bytes (bblocks b) + n + 8 < 2 ^ 31 /\ be_highWaterMark b + n + 8 < 2 ^ (8 * be_width b).

(** Either kind of memory lies in one tracker. *)
Lemma region_tracked b m a n : bin_ok b m -> be_heap b a n \/ be_data b a n ->
  exists k v o, tracks (be_objs b) m k v o /\ tracker_ok (be_highWaterMark b) k o /\ 0 < n /\ k <= a /\ a + n <= k + mt_s o /\
    (mt_alloced o = true -> k = a /\ be_heap b a n).
Proof.
  intros HB HR. assert (exists k v o, tracks (be_objs b) m k v o /\ 0 < n /\ k <= a /\ a + n <= k + mt_s o /\ (mt_alloced o = true -> k = a /\ be_heap b a n)) as (k & v & o & Ht & Hn & Hk & He & Ha).
  { destruct HR as [HH|(m' & k & v & o & HB' & Ht & Hal & Hn & Hk & He)].
    - pose proof HH as (_ & m' & v & o & HB' & Ht & Hn). rewrite (bin_ok_unique b m' m HB' HB) in Ht. exists a, v, o. split_and!; try done; lia.
    - rewrite (bin_ok_unique b m' m HB' HB) in Ht. exists k, v, o. split_and!; try done. congruence. }
  destruct (ts_obj _ _ _ _ (bo_trackers _ _ HB) k v (proj1 Ht)) as (o' & Ho' & HK). rewrite (proj2 Ht) in Ho'. injection Ho' as <-. exists k, v, o. by split_and!.
Qed.

Lemma be_byte_holds b m x c : bin_ok b m -> be_byte b x c <-> holds b m x (Some c).
Proof. intros HB. split; [intros (m' & HB' & Hh); by rewrite (bin_ok_unique b m m' HB HB')|]. intros Hh. by exists m. Qed.

Lemma binary_write b a n off d : be_ok b -> be_heap b a n \/ be_data b a n -> 0 <= off -> off + Z.of_nat (length d) <= n -> Z.of_nat (length d) < 2 ^ 32 ->
  exists b', writeDataSpace (a + off) d b = Ret (true, b') /\ be_ok b' /\ be_width b' = be_width b /\
    (forall c k, be_heap b c k -> be_heap b' c k) /\ (forall c k, be_data b c k -> be_data b' c k) /\
    (forall x c, be_byte b' x c <-> if decide (a + off <= x < a + off + Z.of_nat (length d)) then d !! Z.to_nat (x - (a + off)) = Some c else be_byte b x c).
Proof.
  intros [[m HB] Hhi] HR Ho Hl H32. destruct (region_tracked b m a n HB HR) as (k & v & o & Ht & [K1 K2 K3 K4 K5] & Hn & Hk & He & _).
  assert (is_Some (be_memoryTracker b)) as Hsm by (pose proof (bo_tree _ _ HB) as T; destruct (be_memoryTracker b); [eauto|subst m; by destruct Ht]).
  pose proof (bo_high _ _ HB) as Hh.
  destruct (writeTextSpace_run b m (a + off) d HB Hsm ltac:(lia) ltac:(lia) H32) as (j & objs' & Hj & E & HB' & HS & HW & Hm & Hnm).
  assert (j = length d) as ->.
  { destruct (decide (j < length d)%nat) as [Hlt|]; [|lia]. exfalso. apply (Hnm Hlt). exists k, v, o. split; [done|lia]. }
  rewrite firstn_all in HW. rewrite bool_decide_true in E by done. eexists. split; [exact E|]. split_and!; try done.
  - split; [by exists m|done].
  - intros c l (Hact & m' & v' & o' & HB2 & Ht' & Hr). rewrite (bin_ok_unique b m' m HB2 HB) in Ht'.
    destruct (same_shape_tracks' _ _ _ _ _ _ HS Ht') as (o2 & Ht2 & (_ & S2 & _)). split; [done|]. exists m, v', o2. split_and!; try done; lia.
  - intros c l (m' & k' & v' & o' & HB2 & Ht' & Hal & Hr). rewrite (bin_ok_unique b m' m HB2 HB) in Ht'.
    destruct (same_shape_tracks' _ _ _ _ _ _ HS Ht') as (o2 & Ht2 & (_ & S2 & S3 & _)). exists m, k', v', o2. split_and!; try done; [congruence|lia|lia|lia].
  - intros x c. etransitivity; [exact (be_byte_holds _ m x c HB')|]. etransitivity; [exact (HW x (Some c))|].
    destruct (decide _); [split; congruence|]. symmetry. exact (be_byte_holds b m x c HB).
Qed.

(** A region and a tracker with another key do not meet. *)
Lemma region_apart b m a n k v o c l : bin_ok b m -> tracks (be_objs b) m k v o -> k <= a -> a + n <= k + mt_s o -> 0 < n -> 0 < l ->
  forall k2 v2 o2, tracks (be_objs b) m k2 v2 o2 -> k2 <= c -> c + l <= k2 + mt_s o2 -> k2 <> k -> c + l <= a \/ a + n <= c.
Proof.
  intros HB Ht Hk He Hn Hl k2 v2 o2 Ht2 Hk2 He2 Hne. destruct (decide (c + l <= a)); [by left|]. destruct (decide (a + n <= c)); [by right|]. exfalso. apply Hne.
  by destruct (tracks_unique _ _ _ _ _ _ _ _ _ _ (Z.max a c) (bo_trackers _ _ HB) Ht2 Ht) as (? & _); [lia|lia|].
Qed.

Lemma binary_malloc b n : be_ok b -> 0 < n -> be_room b n ->
  exists a b', inferiorMalloc n b = Ret (a, b') /\ be_ok b' /\ be_width b' = be_width b /\ be_heap b' a n /\
    (forall c k, be_heap b c k -> be_heap b' c k) /\ (forall c k, be_data b c k -> be_data b' c k) /\
    (forall c k, be_heap b c k \/ be_data b c k -> (c + k <= a \/ a + n <= c) /\ forall x y, c <= x < c + k -> be_byte b x y -> be_byte b' x y).
Proof.
  intros [[m HB] Hhi] Hn [Hb Hh]. assert (2 ^ (8 * be_width b) <= 2 ^ 64) as H64 by (by destruct (word_bound _ (bo_width _ _ HB))).
  destruct (edit_malloc_run b m n HB Hn Hb ltac:(lia)) as (a & b1 & b' & E & Hal & HG & HT). set (n' := infHeap.inferiorMallocAlign (be_width b) n) in *.
  destruct HG as [G1 G2 (G3 & G3' & G3'') G4 G5], HT as [T1 T2 [T3 T3'] (h & T4 & T4' & T4'') T5 [T6 T6'] T7]. rewrite G3 in T5.
  assert (forall k v o, tracks (be_objs b) m k v o -> k <> a /\ tracks (be_objs b') (<[a := be_next b1]> m) k v o) as Hold.
  { intros k v o [Hk Ho]. assert (k <> a) by congruence. split; [done|]. split; [by rewrite lookup_insert_ne|]. rewrite T5, lookup_insert_ne; [done|].
    intros <-. rewrite G3' in Ho. pose proof (ts_next _ _ _ _ (bo_trackers _ _ HB) _ (mk_is_Some _ _ Ho)). lia. }
  assert (tracks (be_objs b') (<[a := be_next b1]> m) a (be_next b1) (mk_tracker true false a n' (replicate (Z.to_nat n') None))) as Hnew
    by (split; [by rewrite lookup_insert_eq|by rewrite T5, lookup_insert_eq]).
  exists a, b'. split; [done|]. split_and!; [split; [eauto|rewrite T6, T6', G3''; lia]|congruence| | | |].
  - split; [exists h; by rewrite T4, lookup_insert_eq|]. exists (<[a := be_next b1]> m). do 2 eexists. split; [exact T1|]. split; [exact Hnew|]. simpl. lia.
  - intros c k ([g Hg] & m' & v' & o' & HB2 & Ht' & Hk). rewrite (bin_ok_unique b m' m HB2 HB) in Ht'. destruct (Hold _ _ _ Ht') as [Hne Ht2].
    split; [exists g; by rewrite T4, G2, lookup_insert_ne by done|]. by exists (<[a := be_next b1]> m), v', o'.
  - intros c k (m' & k' & v' & o' & HB2 & Ht' & Hr). rewrite (bin_ok_unique b m' m HB2 HB) in Ht'. exists (<[a := be_next b1]> m), k', v', o'.
    split; [done|]. split; [by apply Hold|done].
  - intros c k HR. destruct (region_tracked b m c k HB HR) as (k0 & v0 & o0 & Ht0 & _ & Hk & Hk0 & He0 & _). destruct (Hold _ _ _ Ht0) as [Hne Ht0']. split.
    + eapply (region_apart b' _ a n a); [exact T1|exact Hnew|lia|simpl; lia|lia|lia|exact Ht0'|done|done|done].
    + intros x y Hx Hy. apply (be_byte_holds b m x y HB) in Hy as (k1 & v1 & o1 & Ht1 & Hx1 & Hy1). apply (be_byte_holds b' _ x y T1).
      exists k1, v1, o1. split; [by apply Hold|done].
Qed.

Lemma binary_free b a n : be_ok b -> be_heap b a n ->
  exists b', inferiorFree a b = Ret (tt, b') /\ be_ok b' /\ be_width b' = be_width b /\
    (forall c k, be_data b c k -> be_data b' c k) /\ (forall k, be_room b k -> be_room b' k).
Proof.
  intros [[m HB] Hhi] ([h Hh] & _). destruct (inferiorFree_run b m a HB ltac:(eauto)) as (b' & E & [G1 G2 (v & Gv & G3) [G4 G4'] G5 _]).
  exists b'. split_and!; try done.
  - split; [eauto|]. congruence.
  - intros c k (m' & k' & v' & o' & HB2 & Ht' & Hal & Hr). rewrite (bin_ok_unique b m' m HB2 HB) in Ht'. exists (delete a m), k', v', o'. split_and!; try done; try apply Hr.
    rewrite G3. apply (tracks_delete _ _ _ _ _ _ _ _ _ (bo_trackers _ _ HB) Gv). split; [|done]. intros ->.
    destruct (bo_live _ _ HB a h Hh) as (w & o & Ht & Hal2 & _). destruct Ht, Ht'. congruence.
  - intros k [K1 K2]. split; [by rewrite G5|by rewrite G4, G4'].
Qed.

#[refine] Instance binary_laws : SpaceLaws binaryEdit := {
  sp_ok := be_ok; sp_heap := be_heap; sp_data := be_data; sp_byte := be_byte; sp_room := be_room
}.
Proof.
  - intros b [[m HB] _]. apply (bo_width _ _ HB).
  - intros b a n [[m HB] Hhi] HR. destruct (region_tracked b m a n HB HR) as (k & v & o & _ & [K1 K2 K3 K4 K5] & Hn & Hk & He & _). simpl. lia.
  - exact binary_write.
  - exact binary_malloc.
  - exact binary_free.
Defined.

(** ** From the rewriter to the rewritten program *)

#[local] Instance link_map_eq_dec : EqDecision link_map.
Proof. solve_decision. Defined.

Section Rewriting.
Context {walk : WalkOrder} (padding : list Z).

(** A session of the rewriter: flushes are blocked until the binary is written. *)
Definition rewrite_session (l : list (Z * Z)) : M (trap_maps binaryEdit) unit :=
  shouldBlockFlushes true ;; add_all l ;; flush [] padding false ;; shouldBlockFlushes false ;; flush [] padding false.

(** The bytes of a header and its table in the image. *)
Definition header_in (b : binaryEdit) (a w : Z) (h : trap_mapping_header) : Prop :=
  exists pad, length pad = 4%nat /\
    bytes_at b a (le_bytes 4 (h_signature h) ++ le_bytes 4 (u32 (h_num_entries h)) ++ le_bytes 4 (u32 (h_pos h)) ++ pad ++
      le_bytes 8 (h_low_entry h) ++ le_bytes 8 (h_high_entry h)) /\
    entries_at b (a + TRAP_HEADER_SIZE) w (h_traps h).

Definition static_inv (t : trap_maps binaryEdit) : Prop := maps_ok t [] /\ mappings_fit (getAddressWidth (tm_as t)) (tm_mapping t) /\ be_ok (tm_as t).

Lemma added_static t from to :
  static_inv t -> all_mutatee (tm_mapping t) -> trap_fits (getAddressWidth (tm_as t)) (from, to) -> table_mutatee_size t + 1 < 2 ^ 31 ->
  addTrapMapping from to true t = Ret (tt, added t (from + 1) to true) /\ static_inv (added t (from + 1) to true).
Proof.
  intros (HM & HF & HO) HA (F1 & F2 & F3) Hsz. simpl in F1, F2, F3. pose proof (word_bound _ (sp_width _ HO)). unfold fits_word in F2.
  destruct (addTrapMapping_run t [] from to true HM Hsz F1 ltac:(simpl in *; lia)) as [E HM']; [intros m Hm; by apply (HA _ m Hm)|]. split; [done|]. split_and!; try done.
  intros k m. simpl. rewrite lookup_insert. case_decide as Ek; [|apply HF]. intros [= <-]. subst k. done.
Qed.

Lemma add_targets_from m l k v : add_targets m l !! k = Some v -> m !! k = Some v \/ exists p, p ∈ l /\ k = p.1 + 1 /\ v = p.2.
Proof.
  revert m. induction l as [|p l IH]; intros m H; [by left|]. simpl in H. destruct (IH _ H) as [Hm|(q & Hq & ?)]; [|right; exists q; split; [by right|done]].
  rewrite lookup_insert in Hm. case_decide as E; [|by left]. right. exists p. split; [by left|]. injection Hm as <-. by subst.
Qed.

(** What the session leaves: a header and its table, announced in the dynamic section. *)
Lemma rewrite_session_run b l :
  length padding = 4%nat -> be_ok b -> be_width b = 8 -> l <> [] -> Forall (trap_fits 8) l ->
  be_room b (Z.of_nat (length l) * 16 + 32) -> Z.of_nat (length l) * 16 + 32 < 2 ^ 31 ->
  exists t' h, rewrite_session l (trampTrapMappings_new b) = Ret (tt, t') /\ be_ok (tm_as t') /\ header_in (tm_as t') (table_header t') 8 h /\
    tm_symtab t' = header_symbols false (table_header t') /\ 0 < table_header t' /\ h_signature h = TRAP_HEADER_SIG /\ h_pos h = -1 /\ h_low_entry h = 0 /\ h_high_entry h = 0 /\
    h_num_entries h = Z.of_nat (length (h_traps h)) /\ (length (h_traps h) <= length l)%nat /\ h_traps h <> [] /\ StronglySorted Z.lt (tr_source <$> h_traps h) /\
    (forall k v, mk_trap k v ∈ h_traps h <-> add_targets ∅ l !! k = Some v) /\
    (forall e, e ∈ h_traps h -> 0 < tr_source e < 2 ^ 64 /\ 0 <= tr_target e < 2 ^ 64).
Proof.
  intros Hpad HO Hw Hne HF [R1 R2] Hsz. set (t0 := mk_maps ∅ ∅ false b no_variables 0 0 0 0 0 0 true [] : trap_maps binaryEdit).
  assert (static_inv t0) as H0 by (destruct (maps_ok_new b); by split_and!).
  destruct (add_all_run static_inv l added_static t0 H0) as (t1 & E1 & (HM1 & HF1 & HO1) & HA1 & HT1 & Hn1 & B1 & _ & _ & B2 & B3 & B4 & B5); try done; [simpl; by rewrite Hw|simpl; lia|].
  simpl in B1, B2, B3, B4, B5. set (t2 := mk_maps (tm_mapping t1) (tm_updated t1) (needs_updating t1) (tm_as t1) (tm_vars t1) (table_version t1) (table_used t1)
    (table_allocated t1) (table_mutatee_size t1) (current_table t1) (table_header t1) false (tm_symtab t1)).
  assert (maps_ok t2 []) as HM2 by (by destruct HM1; split).
  assert (getAddressWidth (tm_as t2) = 8) as Hw2 by (simpl; by rewrite B1).
  destruct (@flush_static_run binaryEdit binary_space binary_laws walk [] padding false eq_refl Hpad t2 [] HM2 HO1 HF1 B2 (Hn1 Hne) eq_refl) as (t' & es & a & E2 & O' & <- & Ha & Hsy & Hh & Hes & Hlen & Hss & Hin & Hset); rewrite ?Hw2.
  { simpl. rewrite B1. unfold be_room, TRAP_HEADER_SIZE in *. split; lia. }
  { simpl. unfold TRAP_HEADER_SIZE. lia. }
  rewrite Hw2 in Hes. simpl in Hh, Hlen, Hsy, Hset, Hin.
  assert (forall k v, mk_trap k v ∈ es <-> add_targets ∅ l !! k = Some v) as Hiff.
  { intros k v. assert (add_targets ∅ l = targets t1) as -> by (rewrite HT1; unfold targets; simpl; by rewrite fmap_empty).
    unfold targets. rewrite lookup_fmap. split.
    - intros He. destruct (Hset _ He) as (m & Hm & Ev). simpl in Hm, Ev. by rewrite Hm, Ev.
    - intros (m & Hm & ->)%fmap_Some. assert (k ∈ tr_source <$> es) as ([k' v'] & -> & He)%list_elem_of_fmap by (apply Hin; exists m; split; [done|by apply (HA1 k)]).
      destruct (Hset _ He) as (m' & Hm' & Ev). simpl in *. by assert (v' = to_addr m) as <- by congruence. }
  exists t', (mk_header TRAP_HEADER_SIG (Z.of_nat (length es)) (-1) 0 0 es). simpl. split_and!; try done.
  - unfold rewrite_session. rewrite (bind_ret _ _ _ tt t0) by done. rewrite (bind_ret _ _ _ _ _ E1).
    rewrite (bind_ret _ _ _ tt t1) by (unfold flush; rewrite !bind_gets, B4; by rewrite orb_true_r). by rewrite (bind_ret _ _ _ tt t2) by done.
  - exists padding. split; [done|]. simpl. rewrite Hlen. split; [exact Hh|exact Hes].
  - by rewrite Hsy, B3.
  - lia.
  - destruct l as [|[from to] l]; [done|]. destruct (add_targets_head ∅ from to l) as [v Hv]. apply Hiff in Hv. by intros ->; apply elem_of_nil in Hv.
  - intros [k v] He. apply Hiff in He. destruct (add_targets_from _ _ _ _ He) as [?|(q & Hq & -> & ->)]; [done|]. simpl.
    destruct (proj1 (Forall_forall _ _) HF q Hq) as (F1 & F2 & F3). unfold fits_word in F2, F3. simpl in F2, F3. lia.
Qed.

(** The loaded header, at the load address of the library: with the contents it has in
    the image, or as an earlier trap left it, with a place in the registry and its
    traps moved.  Its addresses do not wrap there. *)
Record loaded (b : binaryEdit) (a : Z) (s : registry) (lib : link_map) (p : Z) (h : trap_mapping_header) : Prop := {
  ld_header : lib_header lib = Some p /\ p = u64 (a + l_addr lib) /\ p <> NULL;
  ld_image : header_in b a 8 h;
  ld_bytes : exists g, rg_headers s !! p = Some g /\ (g = h \/ placed s p g /\ h_signature g = h_signature h /\
    h_num_entries g = Z.of_nat (length (h_traps g)) /\ h_traps g = map (moved_trap (l_addr lib)) (h_traps h));
  ld_base : 0 <= l_addr lib;
  ld_wrap : forall e, e ∈ h_traps h -> tr_source e + l_addr lib < 2 ^ 64
}.

(** Either way the library is fit for the handler. *)
Lemma loaded_lib b a s lib p h : loaded b a s lib p h -> h_pos h = -1 -> h_low_entry h = 0 -> h_high_entry h = 0 -> h_signature h = TRAP_HEADER_SIG ->
  h_num_entries h = Z.of_nat (length (h_traps h)) -> (forall e, e ∈ h_traps h -> 0 < tr_source e) ->
  lib_ok s lib /\ exists g, rg_headers s !! p = Some g /\ traps_of (l_addr lib) g = map (moved_trap (l_addr lib)) (h_traps h) /\ length (h_traps g) = length (h_traps h) /\ h_signature g = TRAP_HEADER_SIG.
Proof.
  intros [(L1 & _ & Hp) _ (g & Hg & HC) L3 L4] P1 P2 P3 P4 P5 P6. split.
  - destruct (l_ld lib) as [dyn|] eqn:Ed; [|by unfold lib_header in L1; rewrite Ed in L1]. split.
    + intros dyn' Ed'. rewrite Ed in Ed'. injection Ed' as <-. unfold lib_header in L1. rewrite Ed in L1. destruct (find_dynamic dyn) as [d|]; [by exists d|done].
    + intros q Hq. rewrite L1 in Hq. injection Hq as <-. split; [done|]. exists g. split; [done|]. destruct HC as [->|(HP & Hs & Hn & _)]; [|split_and!; [congruence|done|by right]].
      split_and!; try done. left. split_and!; try done. intros e He. specialize (P6 e He). specialize (L4 e He). rewrite u64_id by lia. lia.
  - exists g. split; [done|]. destruct HC as [->|((Hr & _) & Hs & _ & Ht)].
    + split_and!; try done. unfold traps_of. by rewrite P1.
    + split_and!; [|by rewrite Ht, length_map|congruence]. unfold traps_of. by rewrite (proj2 (Z.eqb_neq _ _)) by lia.
Qed.

Lemma moved_sorted base (es : list trapMapping_t) :
  0 <= base -> (forall e, e ∈ es -> 0 < tr_source e /\ tr_source e + base < 2 ^ 64) -> traps_sorted es -> traps_sorted (map (moved_trap base) es).
Proof.
  intros Hb Hw HS i j x y Hij Hx Hy. apply list_lookup_fmap_Some in Hx as (e & -> & He), Hy as (f & -> & Hf). unfold moved_trap. simpl.
  destruct (Hw e (list_elem_of_lookup_2 _ _ _ He)), (Hw f (list_elem_of_lookup_2 _ _ _ Hf)). pose proof (HS i j e f Hij He Hf). rewrite !u64_id by lia. lia.
Qed.

(** C11: the traps of a rewritten binary go where the rewriter wants them to go.  A
    session of the rewriter with any traps writes into the image a header and a
    table and enters them into the dynamic section.  Let a program load the image,
    at any address and among any other rewritten libraries that have traps, as many
    as the registry has places for.  Whenever some threads then pass some of the
    addresses of the session, one after the other and as often as they like, the
    handler sends each trap to the target the rewriter gave it last, address and
    target moved by the load address, provided no other library has traps on both
    sides of a trapping address.  Afterwards the header is loaded as before and the
    registry and all libraries are fit for the next traps, with these libraries
    or others. *)
Theorem rewritten_traps_dispatched b l :
  length padding = 4%nat -> be_ok b -> be_width b = 8 -> l <> [] -> Forall (trap_fits 8) l ->
  be_room b (Z.of_nat (length l) * 16 + 32) -> Z.of_nat (length l) * 16 + 32 < 2 ^ 31 ->
  exists t' h, rewrite_session l (trampTrapMappings_new b) = Ret (tt, t') /\ header_in (tm_as t') (table_header t') 8 h /\
    addSysVDynamic DT_DYNINST (table_header t') ∈ tm_symtab t' /\ h_pos h = -1 /\
    (forall k v, mk_trap k v ∈ h_traps h <-> add_targets ∅ l !! k = Some v) /\
    forall r_map s dynamic t rounds n lib p hits,
      loaded (tm_as t') (table_header t') s lib p h ->
      reg_ok s -> (forall x, x ∈ r_map -> x <> lib -> lib_ok s x) -> NoDup (omap lib_header r_map) ->
      (fresh_libs s (omap lib_header r_map) <= free_places (rg_last s))%nat -> lk_mutex (rg_lock s) = 0 -> lib ∈ r_map ->
      (length l + 2 <= n)%nat -> (1 <= rounds)%nat ->
      Forall (fun x => x.1 <> lk_tid (rg_lock s) /\ x.1 <> DYNINST_INITIAL_LOCK_PID /\ add_targets ∅ l !! (x.2.1 + 1) = Some x.2.2 /\
        apart s r_map p (x.2.1 + 1 + l_addr lib)) hits ->
      exists s', trap_all r_map dynamic t rounds n (map (fun x => (x.1, x.2.1 + 1 + l_addr lib)) hits) s = Ret (map (fun x => u64 (x.2.2 + l_addr lib)) hits, s') /\
        lk_mutex (rg_lock s') = 0 /\ reg_ok s' /\ (forall x, x ∈ r_map -> lib_ok s' x) /\ loaded (tm_as t') (table_header t') s' lib p h.
Proof.
  intros Hpad HO Hw Hne HF HR Hsz.
  destruct (rewrite_session_run b l Hpad HO Hw Hne HF HR Hsz) as (t' & h & E & O' & Hin & Hsy & Hpos & H1 & H2 & H3 & H4 & H5 & H6 & H7 & H8 & H9 & H10).
  exists t', h. split; [done|]. split; [done|]. split; [rewrite Hsy; by left|]. split; [done|]. split; [done|].
  intros r_map s dynamic t rounds n lib p hits HL Hreg Hlibs Hnd Hcap Hfree Hlib Hn Hr Hhits. pose proof HL as [(L1 & L1' & Hp) _ _ L3 L4]. set (base := l_addr lib) in *.
  destruct (loaded_lib _ _ _ _ _ _ HL H2 H3 H4 H1 H5) as [Hok (g & Hg & Htr & Hlg & Hsig)]; [intros e He; by apply H10|]. fold base in Htr.
  assert (forall e, e ∈ h_traps h -> 0 < tr_source e /\ tr_source e + base < 2 ^ 64) as Hrange by (intros e He; split; [by apply H10|by apply L4]).
  set (es := map (fun x : Z * (Z * Z) => (x.1, moved_trap base (mk_trap (x.2.1 + 1) x.2.2))) hits).
  assert (forall x, x ∈ hits -> tr_source (moved_trap base (mk_trap (x.2.1 + 1) x.2.2)) = x.2.1 + 1 + base /\ mk_trap (x.2.1 + 1) x.2.2 ∈ h_traps h) as Hsrc.
  { intros x Hx. destruct (proj1 (Forall_forall _ _) Hhits x Hx) as (_ & _ & Hto & _). apply H9 in Hto. split; [|done]. destruct (Hrange _ Hto). unfold moved_trap. simpl in *. rewrite u64_id by lia. done. }
  destruct (trap_all_run r_map dynamic t rounds n lib p es s g) as (s' & E' & HR'); try done; fold base; rewrite ?Htr, ?Hlg; try done; try lia.
  - intros x Hx. destruct (decide (x = lib)) as [->|Hxl]; [done|by apply Hlibs].
  - unfold es. apply Forall_map. apply (Forall_impl _ _ _ Hhits). intros x (? & ? & _). by split.
  - unfold es. apply Forall_map, Forall_forall. intros x Hx. destruct (Hsrc x Hx) as [Es Hm], (proj1 (Forall_forall _ _) Hhits x Hx) as (_ & _ & _ & Hap). cbn [snd]. rewrite Es.
    destruct (Hrange _ Hm) as [Hz _]. simpl in Hz. split_and!; [apply list_elem_of_fmap; by eexists|lia|done].
  - apply moved_sorted; [done|done|by apply seen_sorted].
  - exists s'. split.
    + unfold es in E'. rewrite !map_map in E'. rewrite (map_ext_in _ (fun x : Z * (Z * Z) => (x.1, x.2.1 + 1 + base))) in E'; [exact E'|].
      intros x Hx%list_elem_of_In. simpl. f_equal. apply (Hsrc x Hx).
    + destruct HR' as [[Hes ->]|(Hlk & Hreg' & Hok' & g' & Hg' & HP' & Ht' & Hn' & Hs')].
      * split_and!; try done. intros x Hx. destruct (decide (x = lib)) as [->|Hxl]; [done|by apply Hlibs].
      * split_and!; try done; [by rewrite Hlk|]. split; try done. exists g'. split; [done|]. right. fold base in Ht'. split_and!; try done; [congruence|]. by rewrite Ht', Htr.
Qed.
End Rewriting.

(** ** A rewritten program with two traps *)

Lemma demo_image_ok : be_ok (new_image 8 0x3000).
Proof. split; [exists ∅; apply new_image_ok; [by right|lia]|by vm_compute]. Qed.

Definition demo_traps_list : list (Z * Z) := [(0x1000, 0x3100); (0x1010, 0x3200); (0x1000, 0x3300)].
Definition demo_load (a : Z) : link_map := mk_link 0x400000 (Some [(DT_DYNINST, a); (DT_NULL, 0)]).
Definition demo_loaded (a : Z) (h : trap_mapping_header) : registry :=
  mk_registry (replicate 512 0) (replicate 17 0) (replicate 17 0) {[u64 (a + 0x400000) := h]} (mk_lock 0 0).

Lemma demo_header_place :
  match rewrite_session [0; 0; 0; 0] demo_traps_list (trampTrapMappings_new (new_image 8 0x3000)) with Ret (_, t) => table_header t | Fault _ => 0 end = 0x3000.
Proof. vm_compute. reflexivity. Qed.

Lemma rewritten_traps_dispatched_witness :
  exists t' h s', rewrite_session [0; 0; 0; 0] demo_traps_list (trampTrapMappings_new (new_image 8 0x3000)) = Ret (tt, t') /\
    header_in (tm_as t') 0x3000 8 h /\
    trap_all [demo_load 0x3000] (fun _ => demo_traps) 0 1 5 [(7, 0x401001); (8, 0x401011); (7, 0x401001)] (demo_loaded 0x3000 h) = Ret ([0x403300; 0x403200; 0x403300], s').
Proof.
  destruct (rewritten_traps_dispatched [0; 0; 0; 0] (new_image 8 0x3000) demo_traps_list) as (t' & h & E & Hh & Hs & Hp & Hiff & Hrun).
  { reflexivity. }
  { exact demo_image_ok. }
  { reflexivity. }
  { discriminate. }
  { unfold demo_traps_list. rewrite !Forall_cons, Forall_nil. unfold trap_fits, fits_word. simpl. split_and!; exact I || lia. }
  { split; vm_compute; reflexivity. }
  { reflexivity. }
  pose proof demo_header_place as Ha. rewrite E in Ha. rewrite Ha in Hh, Hrun. exists t', h.
  enough (exists s', trap_all [demo_load 0x3000] (fun _ => demo_traps) 0 1 5 [(7, 0x401001); (8, 0x401011); (7, 0x401001)] (demo_loaded 0x3000 h) = Ret ([0x403300; 0x403200; 0x403300], s')) as [s' E'].
  { exists s'. split; [exact E|]. split; [exact Hh|]. exact E'. }
  clear E Ha Hs.
  assert (forall e, e ∈ h_traps h -> exists p, p ∈ demo_traps_list /\ tr_source e = p.1 + 1) as Hsrc.
  { intros [k v] He. apply Hiff in He. destruct (add_targets_from _ _ _ _ He) as [Hx|(p & Hin & -> & _)]; [by rewrite lookup_empty in Hx|]. exists p. split; [exact Hin|reflexivity]. }
  assert (mk_trap 0x1001 0x3300 ∈ h_traps h) as H1 by (apply Hiff; vm_compute; reflexivity).
  assert (lib_header (demo_load 0x3000) = Some 0x403000) as Hlib by (vm_compute; reflexivity).
  assert (omap lib_header [demo_load 0x3000] = [0x403000]) as Hom by (vm_compute; reflexivity).
  assert (forall addr, apart (demo_loaded 0x3000 h) [demo_load 0x3000] 0x403000 addr) as Hap.
  { intros addr x q g Hx Hq Hg. apply list_elem_of_singleton in Hx as ->. rewrite Hlib in Hq. injection Hq as <-.
    change (rg_headers (demo_loaded 0x3000 h)) with ({[u64 (0x3000 + 0x400000) := h]} : gmap Z trap_mapping_header) in Hg.
    change 0x403000 with (u64 (0x3000 + 0x400000)) in Hg. rewrite lookup_singleton_eq in Hg. injection Hg as <-.
    split; [|done]. unfold traps_of. rewrite Hp. simpl. destruct (h_traps h); [by apply elem_of_nil in H1|done]. }
  destruct (Hrun [demo_load 0x3000] (demo_loaded 0x3000 h) (fun _ => demo_traps) 0%nat 1%nat 5%nat (demo_load 0x3000) 0x403000
    [(7, (0x1000, 0x3300)); (8, (0x1010, 0x3200)); (7, (0x1000, 0x3300))]) as (s' & E' & _).
  - split; [split; [exact Hlib|split; [reflexivity|done]]|exact Hh| |simpl; lia|].
    + exists h. split; [change 0x403000 with (u64 (0x3000 + 0x400000)); apply lookup_singleton_eq|by left].
    + intros e He. destruct (Hsrc e He) as (p & Hin & ->). unfold demo_traps_list in Hin. rewrite !elem_of_cons, elem_of_nil in Hin.
      destruct Hin as [->|[->|[->|[]]]]; simpl; lia.
  - split; [exact demo_mask_ok|exact demo_mask_ok|reflexivity].
  - intros x Hx Hne. apply list_elem_of_singleton in Hx. done.
  - rewrite Hom. apply NoDup_singleton.
  - rewrite Hom. unfold fresh_libs, is_fresh. simpl. change 0x403000 with (u64 (0x3000 + 0x400000)). rewrite lookup_singleton_eq, Hp. simpl. vm_compute. lia.
  - reflexivity.
  - by left.
  - simpl. lia.
  - lia.
  - rewrite !Forall_cons, Forall_nil. split_and!; try apply Hap; vm_compute; try done; reflexivity.
  - exists s'. exact E'.
Defined.
