(* ===== verification/CodeGen.v ===== *)
(** * The buffer code is generated into, and the x86 code generator
    (dyninstAPI/src/codegen.C, codegen.h, codegen-x86.C)

    A codeGen owns a buffer of bytes with an index into it.  Code is stored
    through pointers into the buffer (GET_PTR, SET_PTR), up to [codeGenPadding]
    bytes behind [size_], and [update] then enlarges the buffer.  A pointer is an
    offset here; storing past the end of the allocation is a fault.  Allocation
    succeeds, as the assertions of the source demand.  What the class keeps for
    snippets (register spaces, points, functions) is left out, and so are the lists
    of late patches, which the code that is moved does not use. *)
From stdpp Require Import base list.
From S2P Require Import Prelude.

Module codegen.

Definition codeGenPadding : Z := 128.
Definition codeGenMinAlloc : Z := 4 * 1024.
Definition CODE_GEN_OFFSET_SIZE : Z := 1.

(** A byte is [None] while it is indeterminate. *)
Record codeGen : Type := mk_gen {
  buffer_ : option (list (option Z));
  offset_ : Z;
  size_ : Z;
  max_ : Z;
  allocated_ : bool;
  addr_ : Z;
  isPadded_ : bool;
  aWidth : Z          (* addrSpace()->getAddressWidth() *)
}.

Definition NO_ADDR : Z := UINT64_MAX.    (* (Address) -1 *)

Definition codeGen_new (width : Z) : codeGen := mk_gen None 0 0 0 false NO_ADDR true width.
Definition codeGen_sized (size width : Z) : codeGen :=
  mk_gen (Some (replicate (Z.to_nat (u32 (size + codeGenPadding))) (Some 0))) 0 size (u32 (size + codeGenPadding)) true NO_ADDR true width.

Definition set_buffer (b : option (list (option Z))) : M codeGen unit := modify (fun g =>
  mk_gen b (offset_ g) (size_ g) (max_ g) (allocated_ g) (addr_ g) (isPadded_ g) (aWidth g)).
Definition set_offset (o : Z) : M codeGen unit := modify (fun g =>
  mk_gen (buffer_ g) o (size_ g) (max_ g) (allocated_ g) (addr_ g) (isPadded_ g) (aWidth g)).
Definition set_size (s m : Z) : M codeGen unit := modify (fun g =>
  mk_gen (buffer_ g) (offset_ g) s m (allocated_ g) (addr_ g) (isPadded_ g) (aWidth g)).
Definition set_flags (a p : bool) : M codeGen unit := modify (fun g =>
  mk_gen (buffer_ g) (offset_ g) (size_ g) (max_ g) a (addr_ g) p (aWidth g)).
Definition setAddr (a : Z) : M codeGen unit := modify (fun g =>
  mk_gen (buffer_ g) (offset_ g) (size_ g) (max_ g) (allocated_ g) a (isPadded_ g) (aWidth g)).

(** Of the template, the width of its address space. *)
Definition applyTemplate (c : codeGen) : M codeGen unit := modify (fun g =>
  mk_gen (buffer_ g) (offset_ g) (size_ g) (max_ g) (allocated_ g) (addr_ g) (isPadded_ g) (aWidth c)).

Definition used (g : codeGen) : Z := u32 (offset_ g * CODE_GEN_OFFSET_SIZE).
Definition startAddr (g : codeGen) : Z := addr_ g.
Definition currAddr (g : codeGen) : Z :=
  if addr_ g =? NO_ADDR then NO_ADDR else u64 (offset_ g * CODE_GEN_OFFSET_SIZE + addr_ g).
Definition getIndex (g : codeGen) : Z := offset_ g.
Definition getDisplacement (from to : Z) : Z := (to - from) * CODE_GEN_OFFSET_SIZE.

Definition have_buffer : M codeGen unit := b ← gets buffer_ ; assertM (bool_decide (is_Some b)).

Definition invalidate : M codeGen unit :=
  set_buffer None ;; set_size 0 0 ;; set_offset 0 ;; set_flags false false.

Definition allocate (size : Z) : M codeGen unit :=
  b ← gets buffer_ ;
  old ← gets size_ ;
  (if bool_decide (is_Some b) && (old <? size) then set_buffer None else mret tt) ;;
  set_size size (u32 (size + codeGenPadding)) ;;
  b ← gets buffer_ ;
  m ← gets max_ ;
  p ← gets isPadded_ ;
  (match b with
   | None => set_buffer (Some (replicate (Z.to_nat m) None)) ;; set_flags true true
   | Some _ => set_flags true p
   end) ;;
  set_offset 0.

(** [::realloc] keeps what fits and leaves the rest indeterminate. *)
Definition realloc (newSize : Z) : M codeGen unit :=
  s ← gets size_ ;
  if newSize <=? s then mret tt else
  let increment := u32 (newSize - s) in
  let increment := if increment <? codeGenMinAlloc then codeGenMinAlloc else increment in
  m ← gets max_ ;
  set_size (u32 (s + increment)) (u32 (m + increment)) ;;
  m ← gets max_ ;
  b ← gets buffer_ ;
  set_buffer (Some (resize (Z.to_nat m) None (default [] b))).

(** Storing bytes through a pointer into the buffer. *)
Definition store (at_ : Z) (bs : list Z) : M codeGen unit :=
  b ← gets buffer_ ;
  match b with
  | None => fail FNull
  | Some l =>
      if at_ + Z.of_nat (length bs) <=? Z.of_nat (length l)
      then set_buffer (Some (take (Z.to_nat at_) l ++ (Some <$> bs) ++ drop (Z.to_nat at_ + length bs) l))
      else fail FBounds
  end.

Definition setIndex (index : Z) : M codeGen unit :=
  set_offset index ;;
  g ← get ;
  (if size_ g <=? used g then
     assertM (negb (codeGenPadding <? u32 (used g - size_ g))) ;; realloc (used g)
   else mret tt) ;;
  g ← get ;
  assertM (used g <=? size_ g).

Definition moveIndex (disp : Z) : M codeGen unit :=
  i ← gets getIndex ;
  setIndex (u32 (s32 (s32 i + disp))).

(** [ptr] as its distance from the start of the buffer. *)
Definition update (ptr : Z) : M codeGen unit :=
  have_buffer ;;
  set_offset (u32 ptr) ;;
  g ← get ;
  (if size_ g <=? used g then
     assertM (negb (codeGenPadding <=? u32 (used g - size_ g))) ;; realloc (u32 (2 * used g))
   else mret tt) ;;
  g ← get ;
  assertM (used g <=? size_ g).

(** GET_PTR, stores through the pointer, SET_PTR. *)
Definition emit (bs : list Z) : M codeGen unit :=
  have_buffer ;;
  o ← gets offset_ ;
  store o bs ;;
  update (o + Z.of_nat (length bs)).

(** [copy] of a vector; the version for a pointer and a size is the same. *)
Definition copy (buf : list Z) : M codeGen unit :=
  if bool_decide (buf = []) then mret tt else
  have_buffer ;;
  g ← get ;
  realloc (u32 (used g + Z.of_nat (length buf))) ;;
  o ← gets offset_ ;
  store o buf ;;
  moveIndex (Z.of_nat (length buf)).

Definition copy_at (buf : list Z) (index : Z) : M codeGen unit :=
  if bool_decide (buf = []) then mret tt else
  current ← gets getIndex ;
  setIndex index ;;
  copy buf ;;
  setIndex current.

(** ** Instructions *)

Definition NOP : Z := 0x90.

(** An instruction of the program: its bytes, and the flags of its type. *)
Record instruction : Type := mk_insn { i_ptr : list Z; i_type : Z }.

Definition is_disp8 (disp : Z) : bool := (-128 <=? disp) && (disp <? 127).
Definition is_disp32 (disp : Z) : bool := (disp <=? 2 ^ 31 - 1) && (- 2 ^ 31 <=? disp).
Definition is_addr32 (addr : Z) : bool := addr <? UINT32_MAX.

Definition CALL_REL32_SZ : Z := 5.
Definition CALL_ABS32_SZ : Z := 11.
Definition JUMP_ABS64_SZ : Z := 17.
Definition CALL_ABS64_SZ : Z := JUMP_ABS64_SZ + JUMP_ABS64_SZ - 1.

Fixpoint generateNOOP (size : nat) : M codeGen unit :=
  match size with
  | O => mret tt
  | S n => emit [NOP] ;; generateNOOP n
  end.

(** [generate] copies a decoded instruction; those below have one and two bytes. *)
Definition generate_insn (bs : list Z) : M codeGen unit :=
  have_buffer ;;
  o ← gets offset_ ;
  store o bs ;;
  moveIndex (Z.of_nat (length bs)).
Definition generateTrap : M codeGen unit := generate_insn [0xCC].
Definition generateIllegal : M codeGen unit := generate_insn [0x0f; 0x0b].

Inductive fill_t : Type := cgNOP | cgTrap | cgIllegal.

(** The loop that fills with traps or illegal instructions. *)
Fixpoint fill_loop (n : nat) (one : M codeGen unit) (curUsed fillSize : Z) : M codeGen unit :=
  match n with
  | O => fail FFuel
  | S n' =>
      g ← get ;
      if u32 (used g - curUsed) <? fillSize then one ;; fill_loop n' one curUsed fillSize else mret tt
  end.
Definition fill (fillSize : Z) (fillType : fill_t) : M codeGen unit :=
  match fillType with
  | cgNOP => generateNOOP (Z.to_nat fillSize)
  | cgTrap | cgIllegal =>
      curUsed ← gets used ;
      fill_loop (S (Z.to_nat fillSize)) (match fillType with cgTrap => generateTrap | _ => generateIllegal end) curUsed fillSize ;;
      g ← get ;
      assertM (u32 (used g - curUsed) =? fillSize)
  end.

Definition generateBranch_disp (disp32 : Z) : M codeGen unit :=
  assertM (if 0 <=? disp32 then u32 disp32 <? 2 ^ 31 else u32 (- disp32) <? 2 ^ 31) ;;
  emit (0xE9 :: le_enc 4 (u32 (disp32 - 5))).

(** Four pushes of 16 bits each, the highest first. *)
Definition push16 (val i : Z) : list Z :=
  0x66 :: 0x68 :: le_enc 2 (Z.land (Z.shiftr val (16 * i)) 0xffff).
Definition generatePush64 (val : Z) : M codeGen unit :=
  emit (push16 val 3 ++ push16 val 2 ++ push16 val 1 ++ push16 val 0).
Definition emitPushImm (imm : Z) : M codeGen unit := emit (0x68 :: le_enc 4 (u32 imm)).

Definition generateBranch64 (to : Z) : M codeGen unit := generatePush64 to ;; emit [0xC3].
Definition generateBranch32 (to : Z) : M codeGen unit := emitPushImm to ;; emit [0xC3].

Definition generateBranch (fromAddr toAddr : Z) : M codeGen unit :=
  let disp := s64 (toAddr - (fromAddr + 2)) in
  if is_disp8 disp then emit [0xEB; u8 disp] else
  let disp := s64 (toAddr - fromAddr) in
  w ← gets aWidth ;
  if is_disp32 disp || (w =? 4) then generateBranch_disp (s32 disp)
  else if w =? 8 then generateBranch64 toAddr
  else generateBranch32 toAddr.

Definition generateCall (from target : Z) : M codeGen unit :=
  let disp := s64 (target - (from + CALL_REL32_SZ)) in
  if is_disp32 disp then emit (0xE8 :: le_enc 4 (u32 disp)) else
  w ← gets aWidth ;
  if w =? 8 then generatePush64 (u64 (from + CALL_ABS64_SZ)) ;; generateBranch64 target
  else emitPushImm (from + CALL_ABS32_SZ) ;; generateBranch32 target.

(** ** Instructions of the program at another address *)

Definition PREFIX_INST : Z := 20.
Definition PREFIX_SEG : Z := 21.
Definition PREFIX_OPR : Z := 22.
Definition PREFIX_ADDR : Z := 23.
Definition PREFIX_REX : Z := 24.
Definition PREFIX_OPCODE : Z := 25.
Definition count_prefixes (insnType : Z) : nat :=
  length (filter (fun b => Z.testbit insnType b = true)
    [PREFIX_OPR; PREFIX_SEG; PREFIX_OPCODE; PREFIX_REX; PREFIX_INST; PREFIX_ADDR]).

(** The functions below take what is left of the instruction and return the new
    bytes and what is left after them. *)
Definition next_byte {S} (orig : list Z) : M S (Z * list Z) :=
  match orig with [] => fail FBounds | b :: r => mret (b, r) end.

Fixpoint copy_prefixes {S} (n : nat) (orig : list Z) : M S (list Z * list Z) :=
  match n with
  | O => mret ([], orig)
  | Datatypes.S n' =>
      r ← next_byte orig ;
      r' ← copy_prefixes n' r.2 ;
      mret (r.1 :: r'.1, r'.2)
  end.

Fixpoint copy_prefixes_nosize {S} (n : nat) (orig : list Z) : M S (list Z * list Z) :=
  match n with
  | O => mret ([], orig)
  | Datatypes.S n' =>
      r ← next_byte orig ;
      r' ← copy_prefixes_nosize n' r.2 ;
      if (r.1 =? 0x66) || (r.1 =? 0x67) then mret r' else mret (r.1 :: r'.1, r'.2)
  end.

Fixpoint nosegments_loop {S} (orig : list Z) (nWithDups n : nat) : M S (list Z * list Z) :=
  match orig with
  | [] => fail FBounds
  | b :: r =>
      if (0x64 <=? b) && (b <=? 0x67) then nosegments_loop r (Datatypes.S nWithDups) n
      else if (n <=? nWithDups)%nat then mret ([], orig)
      else r' ← nosegments_loop r (Datatypes.S nWithDups) n ; mret (b :: r'.1, r'.2)
  end.
Definition copy_prefixes_nosize_or_segments {S} (n : nat) (orig : list Z) : M S (list Z * list Z) :=
  match n with O => mret ([], orig) | _ => nosegments_loop orig 0 n end.

Definition skip_0f (orig : list Z) : list Z :=
  match orig with b :: r => if b =? 0x0f then r else orig | [] => [] end.

(** The last test of the source holds for every opcode. *)
Definition convert_to_rel8 {S} (orig : list Z) : M S (list Z * list Z) :=
  r ← next_byte (skip_0f orig) ;
  let '(b, r) := r in
  if (0x70 <=? b) && (b <? 0x80) then mret ([b], r)
  else if (0x80 <=? b) && (b <? 0x90) then mret ([b - 0x10], r)
  else if (0xE0 <=? b) || (b <=? 0xE3) then mret ([b], r)
  else fail FAssert.
Definition convert_to_rel32 {S} (orig : list Z) : M S (list Z * list Z) :=
  r ← next_byte (skip_0f orig) ;
  let '(b, r) := r in
  if (0x70 <=? b) && (b <? 0x80) then mret ([0x0f; b + 0x10], r)
  else if (0x80 <=? b) && (b <? 0x90) then mret ([0x0f; b], r)
  else fail FAssert.

Definition modifyJump (targetAddr : Z) (insn : instruction) : M codeGen bool :=
  from ← gets currAddr ;
  r ← copy_prefixes (count_prefixes (i_type insn)) (i_ptr insn) ;
  let '(new, _) := r in
  emit new ;;
  generateBranch (u64 (from + Z.of_nat (length new))) targetAddr ;;
  mret true.

Definition modifyJcc (targetAddr : Z) (insn : instruction) : M codeGen bool :=
  from ← gets currAddr ;
  start ← gets getIndex ;
  r ← copy_prefixes_nosize_or_segments (count_prefixes (i_type insn)) (i_ptr insn) ;
  let '(new, orig) := r in
  let from := u64 (from + Z.of_nat (length new)) in
  let disp := s64 (targetAddr - (from + 2)) in
  if is_disp8 disp then
    r ← convert_to_rel8 orig ;
    emit (new ++ r.1 ++ [u8 disp]) ;; mret true
  else
  b ← next_byte orig ;
  let disp := s64 (targetAddr - (from + 6)) in
  if ((b.1 <? 0xE0) || (0xE3 <? b.1)) && is_disp32 disp then
    r ← convert_to_rel32 orig ;
    emit (new ++ r.1 ++ le_enc 4 (u32 disp)) ;; mret true
  else
  r ← convert_to_rel8 orig ;
  emit (new ++ r.1 ++ [2; 0xEB]) ;;
  jump_to_c_offset_index ← gets getIndex ;
  moveIndex 1 ;;
  jump_from_index ← gets getIndex ;
  generateBranch (u64 (from + jump_from_index - start)) targetAddr ;;
  done_ ← gets getIndex ;
  setIndex jump_to_c_offset_index ;;
  emit [u8 (getDisplacement jump_from_index done_)] ;;
  setIndex done_ ;;
  mret true.

Definition modifyCall (targetAddr : Z) (insn : instruction) : M codeGen bool :=
  cur ← gets getIndex ;
  r ← copy_prefixes_nosize (count_prefixes (i_type insn)) (i_ptr insn) ;
  emit r.1 ;;
  here ← gets currAddr ;
  (if is_disp32 (s64 (targetAddr - (here + CALL_REL32_SZ))) then generateCall here targetAddr
   else setIndex cur ;; here ← gets currAddr ; generateCall here targetAddr) ;;
  mret true.

Definition emitPushReg64 (src : Z) : M codeGen unit := emit [0x50 + src].
Definition emitPopReg64 (dest : Z) : M codeGen unit := emit [0x58 + dest].
Definition emitMovImmToReg64 (dest imm : Z) : M codeGen unit := emit [0x48] ;; emit (0xB8 + dest :: le_enc 8 imm).

(** An escape byte of the opcode, and a second one behind it. *)
Definition copy_escapes {S} (orig : list Z) : M S (list Z * list Z) :=
  r ← next_byte orig ;
  if r.1 =? 0x0F then
    r2 ← next_byte r.2 ;
    if (r2.1 =? 0x38) || (r2.1 =? 0x3A) then mret ([r.1; r2.1], r2.2) else mret ([r.1], r.2)
  else mret ([], orig).

Definition modifyData (targetAddr : Z) (insn : instruction) : M codeGen bool :=
  from ← gets currAddr ;
  let insnSz := Z.of_nat (length (i_ptr insn)) in
  let newDisp := s64 (targetAddr - from) in
  p ← copy_prefixes (count_prefixes (i_type insn)) (i_ptr insn) ;
  e ← copy_escapes p.2 ;
  o ← next_byte e.2 ;                       (* the opcode *)
  mr ← next_byte o.2 ;                      (* ModRM *)
  let head := p.1 ++ e.1 ++ [o.1] in
  let tail := drop 4 mr.2 in
  if negb (is_disp32 (newDisp + insnSz)) && negb (is_addr32 targetAddr) then
    let pointer_reg := if negb (Z.land mr.1 0x38 =? 0) then 0 else 3 in
    emitPushReg64 pointer_reg ;;
    emitMovImmToReg64 pointer_reg targetAddr ;;
    emit (head ++ [u8 (Z.land mr.1 0xf8 + pointer_reg)] ++ tail) ;;
    emitPopReg64 pointer_reg ;;
    mret true
  else if is_disp32 (newDisp + insnSz) then
    emit (head ++ [mr.1] ++ le_enc 4 (u32 (newDisp - insnSz)) ++ tail) ;; mret true
  else
    emit (head ++ [u8 (Z.land mr.1 0xf8 + 4); 0x25] ++ le_enc 4 (u32 targetAddr) ++ tail) ;; mret true.

End codegen.
