(* ===== verification/CodeTracker.v ===== *)
(** * Which original instruction moved code came from
      (dyninstAPI/src/Relocation/CodeTracker.C, CodeTracker.h, common/src/IntervalTree.h)

    A TrackerElement says of a stretch of moved code which original instruction,
    instrumentation or padding it is.  The CodeTracker collects them in the order
    of the code, merging neighbours, and builds from them the maps between the
    addresses of moved and of original code. *)
From stdpp Require Import base gmap list.
From S2P Require Import Prelude.

Module codeTracker.

(** Setting a key of a map that is kept in the order of its keys. *)
Fixpoint map_set {A : Type} (k : Z) (v : A) (l : list (Z * A)) : list (Z * A) :=
  match l with
  | [] => [(k, v)]
  | (k', v') :: l' => if k <? k' then (k, v) :: l else if k =? k' then (k, v) :: l' else (k', v') :: map_set k v l'
  end.

(** ** Interval trees *)

Section IntervalTree.
Context {V : Type}.

(** From a lower bound to an upper bound and a value. *)
Abbreviation tree := (list (Z * (Z * V))).

Definition insert (lb ub : Z) (v : V) (t : tree) : tree := map_set lb (ub, v) t.
Definition erase (lb : Z) (t : tree) : tree := filter (fun x => x.1 <> lb) t.

(** The entry with the greatest lower bound that is not above the key. *)
Fixpoint lower (key : Z) (t : tree) : option (Z * (Z * V)) :=
  match t with
  | [] => None
  | x :: t' => if x.1 <=? key then match lower key t' with Some y => Some y | None => Some x end else None
  end.
Definition precessor (key : Z) (t : tree) : option (Z * (Z * V)) :=
  match lower key t with
  | Some (l, (u, v)) => if u <=? key then None else Some (l, (u, v))
  | None => None
  end.
Definition find (key : Z) (t : tree) : option V :=
  match precessor key t with
  | Some (l, (u, v)) => if key <? l then None else if u <=? key then None else Some v
  | None => None
  end.
Definition lowest (t : tree) : Z := match t with [] => 0 | x :: _ => x.1 end.
Definition highest (t : tree) : Z := match last t with None => 0 | Some x => x.2.1 end.
End IntervalTree.

(** ** Trackers *)

(** A block and a function as their identity and their address. *)
Record block_instance : Type := mk_block { b_id : Z; b_start : Z }.
Record func_instance : Type := mk_func { f_id : Z; f_addr : Z }.
#[export] Instance block_instance_eq_dec : EqDecision block_instance.
Proof. solve_decision. Defined.
#[export] Instance func_instance_eq_dec : EqDecision func_instance.
Proof. solve_decision. Defined.

Inductive type_t : Type := original | emulated | instrumentation | padding.
#[export] Instance type_t_eq_dec : EqDecision type_t.
Proof. solve_decision. Defined.

(** The classes of trackers, with the fields of their own: of instrumentation the
    base tramp and its point, of padding its size. *)
Inductive tracker_kind : Type :=
| OriginalTracker
| EmulatorTracker
| InstTracker (baseT point : Z)
| PaddingTracker (pad : Z).

Record TrackerElement : Type := mk_te {
  te_kind : tracker_kind;
  te_orig : Z;
  te_reloc : Z;
  te_size : Z;
  te_block : block_instance;
  te_func : option func_instance
}.

Definition new_tracker (k : tracker_kind) (orig : Z) (b : block_instance) (f : option func_instance) : TrackerElement := mk_te k orig 0 0 b f.

Definition type (e : TrackerElement) : type_t :=
  match te_kind e with OriginalTracker => original | EmulatorTracker => emulated | InstTracker _ _ => instrumentation | PaddingTracker _ => padding end.
Definition mergeable (e : TrackerElement) : bool :=
  match te_kind e with OriginalTracker | EmulatorTracker => true | InstTracker _ _ | PaddingTracker _ => false end.
Definition setReloc (a : Z) (e : TrackerElement) : TrackerElement := mk_te (te_kind e) (te_orig e) a (te_size e) (te_block e) (te_func e).
Definition setSize (n : Z) (e : TrackerElement) : TrackerElement := mk_te (te_kind e) (te_orig e) (te_reloc e) n (te_block e) (te_func e).

(** The virtual [relocToOrig] and [origToReloc] of the elements. *)
Definition elem_relocToOrig (e : TrackerElement) (reloc : Z) : res Z :=
  if (te_reloc e <=? reloc) && (reloc <? u64 (te_reloc e + te_size e)) then
    Ret (match te_kind e with OriginalTracker => u64 (reloc - te_reloc e + te_orig e) | _ => te_orig e end)
  else Fault FAssert.
Definition elem_origToReloc (e : TrackerElement) (orig : Z) : res Z :=
  match te_kind e with
  | OriginalTracker =>
      if (te_orig e <=? orig) && (orig <? u64 (te_orig e + te_size e)) then Ret (u64 (orig - te_orig e + te_reloc e)) else Fault FAssert
  | _ => if orig =? te_orig e then Ret (te_reloc e) else Fault FAssert
  end.

(** ** The tracker of all moved code *)

Record RelocatedElements : Type := mk_re { re_instruction : Z; re_instrumentation : gmap Z Z; re_pad : Z }.
Definition no_elements : RelocatedElements := mk_re 0 ∅ 0.

(** The forward map goes from the start of a block, the address of a function (0 for
    none) and an original address. *)
Record CodeTracker : Type := mk_ct {
  origToReloc_ : gmap (Z * Z * Z) RelocatedElements;
  relocToOrig_ : list (Z * (Z * TrackerElement));
  trackers_ : list TrackerElement
}.
Definition CodeTracker_new : CodeTracker := mk_ct ∅ [] [].

Definition merges (previous e : TrackerElement) : bool :=
  mergeable previous && mergeable e && bool_decide (type previous = type e) && (te_orig e =? u64 (te_orig previous + te_size previous)) &&
  bool_decide (te_block e = te_block previous) && bool_decide (te_func e = te_func previous).

Definition add_to (e : TrackerElement) (l : list TrackerElement) : list TrackerElement :=
  match last l with
  | Some previous =>
      if merges previous e then take (pred (length l)) l ++ [setSize (u32 (te_size previous + te_size e)) previous] else l ++ [e]
  | None => l ++ [e]
  end.
Definition addTracker (e : TrackerElement) : M CodeTracker unit := modify (fun t => mk_ct (origToReloc_ t) (relocToOrig_ t) (add_to e (trackers_ t))).

Definition forward_key (e : TrackerElement) : Z * Z * Z :=
  (b_start (te_block e), match te_func e with Some f => f_addr f | None => 0 end, te_orig e).
Definition forward_entry (e : TrackerElement) (r : RelocatedElements) : RelocatedElements :=
  match te_kind e with
  | InstTracker _ point => mk_re (re_instruction r) (<[point := te_reloc e]> (re_instrumentation r)) (re_pad r)
  | PaddingTracker _ => mk_re (re_instruction r) (re_instrumentation r) (te_reloc e)
  | _ => mk_re (te_reloc e) (re_instrumentation r) (re_pad r)
  end.
Definition index_one (t : CodeTracker) (e : TrackerElement) : CodeTracker :=
  mk_ct (<[forward_key e := forward_entry e (default no_elements (origToReloc_ t !! forward_key e))]> (origToReloc_ t))
    (insert (te_reloc e) (u64 (te_reloc e + te_size e)) e (relocToOrig_ t)) (trackers_ t).
Definition createIndices : M CodeTracker unit := modify (fun t => foldl index_one t (trackers_ t)).

Record RelocInfo : Type := mk_ri { ri_orig : Z; ri_reloc : Z; ri_block : option block_instance; ri_func : option func_instance; ri_bt : Z; ri_pad : Z }.
Definition RelocInfo_new : RelocInfo := mk_ri 0 0 None None 0 0.

Definition origToReloc (origAddr : Z) (block : block_instance) (func : option func_instance) (t : CodeTracker) : option RelocatedElements :=
  origToReloc_ t !! (b_start block, match func with Some f => f_addr f | None => 0 end, origAddr).

(** The base tramp and the padding of the caller's record are kept otherwise. *)
Definition relocToOrig (relocAddr : Z) (ri : RelocInfo) (t : CodeTracker) : res (bool * RelocInfo) :=
  match find relocAddr (relocToOrig_ t) with
  | None => Ret (false, ri)
  | Some e =>
      match elem_relocToOrig e relocAddr with
      | Fault x => Fault x
      | Ret o =>
          Ret (true, mk_ri o relocAddr (Some (te_block e)) (te_func e)
            (match te_kind e with InstTracker bt _ => bt | _ => ri_bt ri end) (match te_kind e with PaddingTracker p => p | _ => ri_pad ri end))
      end
  end.

Definition findByReloc (addr : Z) (t : CodeTracker) : option TrackerElement := find addr (relocToOrig_ t).

End codeTracker.
