(* ===== verification/CodeBuffer.v ===== *)
(** * Laying out moved code (dyninstAPI/src/Relocation/CodeBuffer.C, CodeBuffer.h)

    Code that is moved is a sequence of bytes that do not depend on their address
    and of patches that do.  [CodeBuffer] keeps it as elements, each with an
    optional label at its start, such bytes, and an optional patch at its end, and
    generates it again and again until neither the size of an element nor the
    address of a label changes.  A patch is an interface: applying it generates
    code at the current index, for which it may ask for the predicted addresses of
    labels. *)
From stdpp Require Import base gmap list.
From S2P Require Import Prelude CodeGen CodeTracker.
Import codegen codeTracker.

Module codeBuffer.

Inductive label_t : Type := Invalid | Absolute | Relative | Estimate.
#[export] Instance label_t_eq_dec : EqDecision label_t.
Proof. solve_decision. Defined.

Record Label : Type := mk_label { lb_type : label_t; lb_id : Z; lb_iteration : Z; lb_addr : Z }.
Definition INVALID : Z := UINT_MAX.
Definition no_label : Label := mk_label Invalid 0 0 0.
Definition Label_new (t : label_t) (id a : Z) : Label := mk_label t id 0 a.
Definition valid (l : Label) : bool := negb (bool_decide (lb_type l = Invalid)).

(** A tracker may be missing; their map is kept in the order of the offsets. *)
Abbreviation tracker_map := (list (Z * option TrackerElement)).
Record BufferElement {P : Type} : Type := mk_elem {
  el_addr : Z;
  el_size : Z;
  el_buffer : list Z;
  el_patch : option P;
  el_labelID : Z;
  el_trackers : tracker_map
}.
Arguments BufferElement : clear implicits.
Arguments mk_elem {P}.

Record CodeBuffer {P : Type} : Type := mk_buf {
  buffers_ : list (BufferElement P);
  cb_size : Z;
  gen_ : codeGen;
  curIteration_ : Z;
  labels_ : list Label;
  curLabelID_ : Z;
  shift_ : Z;
  generated_ : bool
}.
Arguments CodeBuffer : clear implicits.
Arguments mk_buf {P}.

(** [struct Patch]. *)
Class Patch (P : Type) : Type := {
  apply : P -> M (CodeBuffer P) bool;
  estimate : P -> Z
}.

Section Buffer.
Context {P : Type}.
Abbreviation elem := (BufferElement P).
Abbreviation state := (CodeBuffer P).

#[export] Instance buf_gen : Embed state codeGen := {
  eget := gen_;
  eput g s := mk_buf (buffers_ s) (cb_size s) g (curIteration_ s) (labels_ s) (curLabelID_ s) (shift_ s) (generated_ s)
}.
#[export] Instance buf_gen_laws : EmbedLaws state codeGen.
Proof. split; [by intros []|done]. Qed.

Definition set_buffers (l : list elem) : M state unit := modify (fun s =>
  mk_buf l (cb_size s) (gen_ s) (curIteration_ s) (labels_ s) (curLabelID_ s) (shift_ s) (generated_ s)).
Definition set_cb_size (n : Z) : M state unit := modify (fun s =>
  mk_buf (buffers_ s) n (gen_ s) (curIteration_ s) (labels_ s) (curLabelID_ s) (shift_ s) (generated_ s)).
Definition set_iteration (n : Z) : M state unit := modify (fun s =>
  mk_buf (buffers_ s) (cb_size s) (gen_ s) n (labels_ s) (curLabelID_ s) (shift_ s) (generated_ s)).
Definition set_labels (l : list Label) : M state unit := modify (fun s =>
  mk_buf (buffers_ s) (cb_size s) (gen_ s) (curIteration_ s) l (curLabelID_ s) (shift_ s) (generated_ s)).
Definition set_curLabelID (n : Z) : M state unit := modify (fun s =>
  mk_buf (buffers_ s) (cb_size s) (gen_ s) (curIteration_ s) (labels_ s) n (shift_ s) (generated_ s)).
Definition set_shift (n : Z) : M state unit := modify (fun s =>
  mk_buf (buffers_ s) (cb_size s) (gen_ s) (curIteration_ s) (labels_ s) (curLabelID_ s) n (generated_ s)).
Definition set_generated (b : bool) : M state unit := modify (fun s =>
  mk_buf (buffers_ s) (cb_size s) (gen_ s) (curIteration_ s) (labels_ s) (curLabelID_ s) (shift_ s) b).

(** ** Elements *)

Definition elem_new : elem := mk_elem 0 0 [] None INVALID [].

Definition elem_addTracker (tracker : option TrackerElement) (e : elem) : elem :=
  mk_elem (el_addr e) (el_size e) (el_buffer e) (el_patch e) (el_labelID e)
    (map_set (Z.of_nat (length (el_buffer e))) tracker (el_trackers e)).
Definition elem_addPIC (buf : list Z) (tracker : option TrackerElement) (e : elem) : elem :=
  let e := elem_addTracker tracker e in
  mk_elem (el_addr e) (el_size e) (el_buffer e ++ buf) (el_patch e) (el_labelID e) (el_trackers e).
Definition setPatch (p : P) (tracker : option TrackerElement) (e : elem) : res elem :=
  let e := elem_addTracker tracker e in
  match el_patch e with
  | Some _ => Fault FAssert
  | None => Ret (mk_elem (el_addr e) (el_size e) (el_buffer e) (Some p) (el_labelID e) (el_trackers e))
  end.
Definition setLabelID (id : Z) (e : elem) : res elem :=
  if el_labelID e =? INVALID then Ret (mk_elem (el_addr e) (el_size e) (el_buffer e) (el_patch e) id (el_trackers e))
  else Fault FAssert.
Definition full (e : elem) : bool := match el_patch e with Some _ => true | None => false end.
Definition elem_empty (e : elem) : bool :=
  match el_patch e with
  | Some _ => false
  | None => if negb (el_labelID e =? INVALID) then false else bool_decide (el_buffer e = [])
  end.

(** The last element, changed in place. *)
Definition on_last (f : elem -> res elem) : M state unit :=
  l ← gets buffers_ ;
  match last l with
  | None => fail FBadPtr
  | Some e =>
      match f e with
      | Fault x => fail x
      | Ret e' => set_buffers (take (pred (length l)) l ++ [e'])
      end
  end.

(** ** Building *)

Definition CodeBuffer_new (width : Z) : state := mk_buf [] 0 (codeGen_new width) 0 [] 1 0 false.

(** [labels_.resize]. *)
Definition resize_labels (n : Z) (l : list Label) : list Label := resize (Z.to_nat n) no_label l.

Definition initialize (templ : codeGen) (numBlocks : Z) : M state unit :=
  lift (applyTemplate templ) ;;
  l ← gets labels_ ;
  set_labels (resize_labels (u32 (numBlocks + 2)) l).

(** Storing a label, in a vector that is enlarged first. *)
Definition put_label (id : Z) (lb : Label) : M state unit :=
  l ← gets labels_ ;
  let l := if Z.of_nat (length l) <=? id then resize_labels (id + 1) l else l in
  set_labels (<[Z.to_nat id := lb]> l).

Definition getLabel : M state Z :=
  id ← gets curLabelID_ ;
  set_curLabelID (s32 (id + 1)) ;;
  let id := u32 id in
  l ← gets buffers_ ;
  (match last l with
   | Some e => if elem_empty e then mret tt else set_buffers (l ++ [elem_new])
   | None => set_buffers (l ++ [elem_new])
   end) ;;
  on_last (setLabelID id) ;;
  n ← gets cb_size ;
  put_label id (Label_new Relative id n) ;;
  mret id.

Definition defineLabel (addr : Z) : M state Z :=
  id ← gets curLabelID_ ;
  set_curLabelID (s32 (id + 1)) ;;
  let id := u32 id in
  put_label id (Label_new Absolute id addr) ;;
  mret id.

(** Makes sure that the last element takes more code. *)
Definition current : M state unit :=
  l ← gets buffers_ ;
  match last l with
  | Some e => if full e then set_buffers (l ++ [elem_new]) else mret tt
  | None => set_buffers (l ++ [elem_new])
  end.

Definition addPIC (buf : list Z) (tracker : option TrackerElement) : M state unit :=
  current ;;
  on_last (fun e => Ret (elem_addPIC buf tracker e)) ;;
  n ← gets cb_size ;
  set_cb_size (u32 (n + Z.of_nat (length buf))).

Definition addPatch `{Patch P} (p : P) (tracker : option TrackerElement) : M state unit :=
  current ;;
  on_last (setPatch p tracker) ;;
  n ← gets cb_size ;
  set_cb_size (u32 (n + estimate p)).

(** ** Labels *)

(** Returns whether the label has moved. *)
Definition updateLabel (id offset : Z) : M state bool :=
  if id =? INVALID then mret false else
  l ← gets labels_ ;
  assertM (id <? Z.of_nat (length l)) ;;
  assertM (0 <? id) ;;
  match l !! Z.to_nat id with
  | None => fail FBounds
  | Some lb =>
      if negb (valid lb) then mret false else
      set_labels (<[Z.to_nat id := mk_label Estimate (lb_id lb) (lb_iteration lb + 1) offset]> l) ;;
      mret (negb (lb_addr lb =? offset))
  end.

Definition predictedAddr (id : Z) : M state Z :=
  l ← gets labels_ ;
  assertM (id <? Z.of_nat (length l)) ;;
  assertM (0 <? id) ;;
  match l !! Z.to_nat id with
  | None => fail FBounds
  | Some lb =>
      start ← gets (fun s => startAddr (gen_ s)) ;
      match lb_type lb with
      | Absolute => mret (lb_addr lb)
      | Relative =>
          assertM (negb (start =? 0)) ;; assertM (negb (start =? NO_ADDR)) ;;
          mret (u64 (lb_addr lb + start))
      | Estimate =>
          assertM (negb (start =? 0)) ;; assertM (negb (start =? NO_ADDR)) ;;
          let ret := u64 (lb_addr lb + start) in
          cur ← gets curIteration_ ;
          sh ← gets shift_ ;
          mret (if lb_iteration lb <? cur then u64 (ret + sh) else ret)
      | Invalid => fail FAssert
      end
  end.

Definition getLabelAddr (id : Z) : M state Z :=
  b ← gets generated_ ;
  assertM b ;;
  set_shift 0 ;;
  predictedAddr id.

(** ** Generation *)
Context `{Patch P}.

Definition put_elem (i : nat) (e : elem) : M state unit := l ← gets buffers_ ; set_buffers (<[i := e]> l).

(** [BufferElement::generate] of element [i]: whether it succeeded, and whether
    everything has to be generated again. *)
Definition elem_generate (i : nat) (e : elem) : M state (bool * bool) :=
  start ← gets (fun s => getIndex (gen_ s)) ;
  a ← gets (fun s => currAddr (gen_ s)) ;
  base ← gets (fun s => startAddr (gen_ s)) ;
  let e := mk_elem a (el_size e) (el_buffer e) (el_patch e) (el_labelID e) (el_trackers e) in
  put_elem i e ;;
  moved ← updateLabel (el_labelID e) (u64 (a - base)) ;
  lift (copy (el_buffer e)) ;;
  ok ← (match el_patch e with Some p => apply p | None => mret true end) ;
  if negb ok then mret (false, moved) else
  fin ← gets (fun s => getIndex (gen_ s)) ;
  let newSize := u32 (getDisplacement start fin) in
  if el_size e <? newSize then
    sh ← gets shift_ ;
    set_shift (s32 (sh + s32 (u32 (newSize - el_size e)))) ;;
    put_elem i (mk_elem a newSize (el_buffer e) (el_patch e) (el_labelID e) (el_trackers e)) ;;
    mret (true, true)
  else
    lift (fill (u32 (el_size e - newSize)) cgNOP) ;;
    mret (true, moved).

(** The loop over the [n] elements from number [i]. *)
Fixpoint generate_elems (n i : nat) (doOver : bool) : M state (bool * bool) :=
  match n with
  | O => mret (true, doOver)
  | S n' =>
      l ← gets buffers_ ;
      match l !! i with
      | None => fail FBadPtr
      | Some e =>
          r ← elem_generate i e ;
          if negb r.1 then mret (false, doOver) else generate_elems n' (S i) (doOver || r.2)
      end
  end.

Definition generate_once : M state (bool * bool) :=
  it ← gets curIteration_ ;
  set_iteration (it + 1) ;;
  set_shift 0 ;;
  lift invalidate ;;
  n ← gets cb_size ;
  lift (allocate n) ;;
  l ← gets buffers_ ;
  generate_elems (length l) 0 false.

Fixpoint generate_loop (rounds : nat) : M state bool :=
  match rounds with
  | O => fail FFuel
  | S n =>
      r ← generate_once ;
      if negb r.1 then mret false else if (r.2 : bool) then generate_loop n else mret true
  end.

Definition generate (rounds : nat) (baseAddr : Z) : M state bool :=
  set_generated false ;;
  lift (setAddr baseAddr) ;;
  ok ← generate_loop rounds ;
  if negb ok then mret false else
  set_shift 0 ;;
  n ← gets (fun s => used (gen_ s)) ;
  set_cb_size n ;;
  set_generated true ;;
  mret true.

(** [BufferElement::extractTrackers], for the trackers from some offset on. *)
Fixpoint extract_trackers (l : tracker_map) (addr sz : Z) : M CodeTracker unit :=
  match l with
  | [] => mret tt
  | (off, t) :: l' =>
      (match t with
       | None => mret tt
       | Some e =>
           let size := u32 (match l' with (next, _) :: _ => next - off | [] => sz - off end) in
           if size =? 0 then mret tt else codeTracker.addTracker (setSize size (setReloc (u64 (off + addr)) e))
       end) ;;
      extract_trackers l' addr sz
  end.
Fixpoint extractTrackers (l : list elem) : M CodeTracker bool :=
  match l with
  | [] => mret true
  | e :: l' => extract_trackers (el_trackers e) (el_addr e) (el_size e) ;; extractTrackers l'
  end.

Definition size (s : state) : Z := cb_size s.
Definition ptr (s : state) : option (list (option Z)) := buffer_ (gen_ s).

End Buffer.
End codeBuffer.
