(* ===== verification/CodeGenOk.v ===== *)
(** * What the code generator generates

    [holds] says which bytes a codeGen has generated so far; [emits] that a piece
    of code appends bytes and changes nothing else that matters.  The branch
    generators are compared with the processor's meaning of the bytes they emit,
    which [jump_of] gives. *)
From stdpp Require Import base list.
From S2P Require Import Prelude CodeGen.
Import codegen.

(** ** Appending to the buffer *)

(** The bytes before the index are [bs]; one that was skipped may be
    indeterminate.  The buffer never grows beyond [cap]. *)
Record holds (cap : Z) (g : codeGen) (bs : list (option Z)) : Prop := {
  ho_buf : exists buf, buffer_ g = Some buf /\ Z.of_nat (length buf) = max_ g /\ take (length bs) buf = bs;
  ho_max : max_ g = size_ g + codeGenPadding;
  ho_offset : offset_ g = Z.of_nat (length bs);
  ho_size : Z.of_nat (length bs) <= size_ g <= cap
}.

Definition same_place (g g' : codeGen) : Prop := addr_ g' = addr_ g /\ aWidth g' = aWidth g.
Lemma same_place_refl g : same_place g g.
Proof. done. Qed.
Lemma same_place_trans g1 g2 g3 : same_place g1 g2 -> same_place g2 g3 -> same_place g1 g3.
Proof. intros [] []. split; congruence. Qed.
#[export] Hint Resolve same_place_refl : lprofile.

(** The room that [k] bytes and [n] more need. *)
Definition roomy (cap : Z) (k : nat) (n : Z) : Prop := 2 * (Z.of_nat k + n) + 8192 <= cap.

Definition emits {A} (cap : Z) (m : M codeGen A) (g : codeGen) (bs : list (option Z)) (a : A) (xs : list (option Z)) : Prop :=
  exists g', m g = Ret (a, g') /\ holds cap g' (bs ++ xs) /\ same_place g g'.

(** Arithmetic with the constants of the buffer. *)
Ltac cg := unfold roomy, codeGenPadding, codeGenMinAlloc in *; lia.

Section Appending.
Context (cap : Z) (Hcap : cap + codeGenPadding < 2 ^ 31).

Lemma emits_bind {A B} (m : M codeGen A) (k : A -> M codeGen B) g bs a xs b ys :
  emits cap m g bs a xs ->
  (forall g', holds cap g' (bs ++ xs) -> same_place g g' -> emits cap (k a) g' (bs ++ xs) b ys) ->
  emits cap (m ≫= k) g bs b (xs ++ ys).
Proof.
  intros (g1 & E1 & H1 & S1) Hk. destruct (Hk g1 H1 S1) as (g2 & E2 & H2 & S2).
  exists g2. rewrite (bind_ret _ _ _ _ _ E1), app_assoc. split_and!; [done|done|]. by eapply same_place_trans.
Qed.
Lemma emits_nothing {A} (a : A) g bs : holds cap g bs -> emits cap (mret a) g bs a [].
Proof. intros Hh. exists g. rewrite app_nil_r. by split_and!; [..|apply same_place_refl]. Qed.
(** What follows appends nothing. *)
Lemma emits_ret {A B} (m : M codeGen A) (b : B) g bs a xs : emits cap m g bs a xs -> emits cap (m ;; mret b) g bs b xs.
Proof. intros (g' & E & Hh). exists g'. by rewrite (bind_ret _ _ _ _ _ E). Qed.
Lemma emits_gets {A B} (f : codeGen -> A) (k : A -> M codeGen B) g bs b xs :
  emits cap (k (f g)) g bs b xs -> emits cap (gets f ≫= k) g bs b xs.
Proof. done. Qed.

Lemma used_offset g n : offset_ g = n -> 0 <= n < 2 ^ 32 -> used g = n.
Proof. intros <- Hn. unfold used, CODE_GEN_OFFSET_SIZE. rewrite Z.mul_1_r. by apply u32_id. Qed.
Lemma used_holds g bs : holds cap g bs -> used g = Z.of_nat (length bs).
Proof. intros [_ _ Ho Hs]. apply used_offset; [done|]. unfold codeGenPadding in *. lia. Qed.

(** [g'] is [g] with the buffer [buf], possibly enlarged to have [n] bytes before
    the padding. *)
Record enlarged (g : codeGen) (buf : list (option Z)) (n : Z) (g' : codeGen) : Prop := {
  en_buf : exists ext, buffer_ g' = Some (buf ++ ext) /\ Z.of_nat (length (buf ++ ext)) = max_ g';
  en_max : max_ g' = size_ g' + codeGenPadding;
  en_size : n <= size_ g' <= cap;
  en_offset : offset_ g' = offset_ g;
  en_place : same_place g g'
}.

Lemma enlarged_same g buf n :
  buffer_ g = Some buf -> Z.of_nat (length buf) = max_ g -> max_ g = size_ g + codeGenPadding -> n <= size_ g <= cap ->
  enlarged g buf n g.
Proof. intros Eb El Em Hs. split; try done. exists []. by rewrite app_nil_r. Qed.

Lemma realloc_run g buf n :
  buffer_ g = Some buf -> Z.of_nat (length buf) = max_ g -> max_ g = size_ g + codeGenPadding -> 0 <= size_ g <= cap -> n <= cap ->
  (size_ g < n -> size_ g + codeGenMinAlloc <= cap) -> exists g', realloc n g = Ret (tt, g') /\ enlarged g buf n g'.
Proof.
  unfold codeGenPadding, codeGenMinAlloc in *. intros Eb El Em Hs Hn Hgrow. unfold realloc. rewrite bind_gets.
  destruct (n <=? size_ g) eqn:Ec; zbool.
  { exists g. split; [done|]. apply enlarged_same; done || lia. }
  specialize (Hgrow Ec). rewrite (u32_id (n - size_ g)) by lia.
  set (inc := if n - size_ g <? codeGenMinAlloc then codeGenMinAlloc else n - size_ g).
  assert (n - size_ g <= inc /\ 0 <= inc /\ size_ g + inc <= cap) as (Hi1 & Hi0 & Hi2)
    by (unfold inc, codeGenMinAlloc; destruct (n - size_ g <? 4 * 1024) eqn:Ei; zbool; lia).
  rewrite bind_gets. unfold set_size. rewrite (bind_ret _ _ _ tt _ eq_refl), !bind_gets. simpl. rewrite !u32_id by lia.
  rewrite Eb. simpl. eexists. split; [reflexivity|]. split; simpl; try done; try cg.
  exists (replicate (Z.to_nat inc) None). split; [|rewrite length_app, length_replicate; lia].
  rewrite resize_ge by lia. do 3 f_equal. lia.
Qed.

(** The buffer after [xs] was stored behind the first [n] bytes. *)
Definition patched (buf : list (option Z)) (n : nat) (xs : list Z) : list (option Z) :=
  take n buf ++ (Some <$> xs) ++ drop (n + length xs) buf.
Lemma patched_length buf n xs : (n + length xs <= length buf)%nat -> length (patched buf n xs) = length buf.
Proof. intros Hl. unfold patched. rewrite !length_app, length_take, length_fmap, length_drop. lia. Qed.
Lemma patched_take buf bs xs :
  (length bs + length xs <= length buf)%nat -> take (length bs) buf = bs ->
  take (length (bs ++ (Some <$> xs))) (patched buf (length bs) xs) = bs ++ (Some <$> xs).
Proof. intros Hl Ht. unfold patched. by rewrite app_assoc, Ht, take_app_length. Qed.

Definition with_buffer (g : codeGen) (buf : list (option Z)) (o : Z) : codeGen :=
  mk_gen (Some buf) o (size_ g) (max_ g) (allocated_ g) (addr_ g) (isPadded_ g) (aWidth g).

Lemma store_run g buf at_ xs :
  buffer_ g = Some buf -> 0 <= at_ -> at_ + Z.of_nat (length xs) <= Z.of_nat (length buf) ->
  store at_ xs g = Ret (tt, with_buffer g (patched buf (Z.to_nat at_) xs) (offset_ g)).
Proof. intros Eb Ha Hl. unfold store. rewrite bind_gets, Eb. by rewrite (proj2 (Z.leb_le _ _) Hl). Qed.

Lemma have_buffer_run g buf : buffer_ g = Some buf -> have_buffer g = Ret (tt, g).
Proof. intros Eb. unfold have_buffer. by rewrite bind_gets, Eb. Qed.

(** Moving the index of a buffer of which enough is allocated. *)
Lemma setIndex_run g buf i :
  buffer_ g = Some buf -> Z.of_nat (length buf) = max_ g -> max_ g = size_ g + codeGenPadding -> 0 <= size_ g <= cap ->
  0 <= i <= max_ g -> i + codeGenMinAlloc <= cap ->
  exists g', setIndex i g = Ret (tt, g') /\ enlarged (with_buffer g buf i) buf i g'.
Proof.
  unfold codeGenMinAlloc, codeGenPadding in *. intros Eb El Em Hs Hi Hc. unfold setIndex, set_offset.
  rewrite (bind_ret _ _ _ tt _ eq_refl). unfold get at 1. rewrite (bind_ret _ _ _ _ _ eq_refl). rewrite Eb. fold (with_buffer g buf i).
  rewrite (used_offset (with_buffer g buf i) i) by (done || lia). cbn [size_ with_buffer].
  assert (exists g', (if size_ g <=? i then assertM (negb (codeGenPadding <? u32 (i - size_ g))) ;; realloc i else mret tt) (with_buffer g buf i) = Ret (tt, g') /\
    enlarged (with_buffer g buf i) buf i g') as (g' & E & HE).
  { destruct (size_ g <=? i) eqn:Ec; zbool.
    - rewrite u32_id by lia. unfold assertM, codeGenPadding. rewrite (proj2 (Z.ltb_ge 128 (i - size_ g))) by lia.
      rewrite (bind_ret _ _ _ tt (with_buffer g buf i)) by reflexivity. unfold codeGenPadding in *.
      apply realloc_run; simpl; (done || cg).
    - eexists. split; [reflexivity|]. apply enlarged_same; simpl; (done || cg). }
  rewrite (bind_ret _ _ _ _ _ E). unfold get. rewrite (bind_ret _ _ _ _ _ eq_refl). exists g'. split; [|done].
  pose proof HE as [_ _ Hn Ho _]. unfold assertM. rewrite (used_offset g' i) by (done || lia). by rewrite (proj2 (Z.leb_le _ _)) by lia.
Qed.

Lemma update_run g buf i :
  buffer_ g = Some buf -> Z.of_nat (length buf) = max_ g -> max_ g = size_ g + codeGenPadding -> 0 <= size_ g <= cap ->
  0 <= i < max_ g -> 2 * i + codeGenMinAlloc <= cap ->
  exists g', update i g = Ret (tt, g') /\ enlarged (with_buffer g buf i) buf i g'.
Proof.
  unfold codeGenMinAlloc, codeGenPadding in *. intros Eb El Em Hs Hi Hc. unfold update, set_offset.
  rewrite (bind_ret _ _ _ _ _ (have_buffer_run g buf Eb)), (bind_ret _ _ _ tt _ eq_refl). unfold get at 1.
  rewrite (bind_ret _ _ _ _ _ eq_refl). rewrite (u32_id i), Eb by lia. fold (with_buffer g buf i).
  rewrite (used_offset (with_buffer g buf i) i) by (done || lia). cbn [size_ with_buffer].
  assert (exists g', (if size_ g <=? i then assertM (negb (codeGenPadding <=? u32 (i - size_ g))) ;; realloc (u32 (2 * i)) else mret tt) (with_buffer g buf i) = Ret (tt, g') /\
    enlarged (with_buffer g buf i) buf i g') as (g' & E & HE).
  { destruct (size_ g <=? i) eqn:Ec; zbool.
    - rewrite (u32_id (i - size_ g)), (u32_id (2 * i)) by lia. unfold assertM, codeGenPadding. rewrite (proj2 (Z.leb_gt 128 (i - size_ g))) by lia.
      rewrite (bind_ret _ _ _ tt (with_buffer g buf i)) by reflexivity.
      destruct (realloc_run (with_buffer g buf i) buf (2 * i)) as (g' & E & [H1 H2 H3 H4 H5]); simpl; try done; try cg.
      exists g'. split; [done|]. split; try done. lia.
    - eexists. split; [reflexivity|]. apply enlarged_same; simpl; (done || cg). }
  rewrite (bind_ret _ _ _ _ _ E). unfold get. rewrite (bind_ret _ _ _ _ _ eq_refl). exists g'. split; [|done].
  pose proof HE as [_ _ Hn Ho _]. unfold assertM. rewrite (used_offset g' i) by (done || lia). by rewrite (proj2 (Z.leb_le _ _)) by lia.
Qed.

(** After the index moved behind what was stored there. *)
Lemma enlarged_holds g bs xs buf g' (n := Z.of_nat (length (bs ++ (Some <$> xs)))) :
  take (length bs) buf = bs -> (length bs + length xs <= length buf)%nat ->
  enlarged (with_buffer g (patched buf (length bs) xs) n) (patched buf (length bs) xs) n g' ->
  holds cap g' (bs ++ (Some <$> xs)) /\ same_place g g'.
Proof.
  intros Ht Hl [(ext & Eb & El) Em Hs Ho Hp]. split; [|done]. split; try done. eexists. split_and!; [exact Eb|done|].
  rewrite take_app_le; [by apply patched_take|]. rewrite patched_length, length_app, length_fmap by done. lia.
Qed.

Lemma emit_run g bs xs :
  holds cap g bs -> Z.of_nat (length xs) < codeGenPadding -> roomy cap (length bs) (Z.of_nat (length xs)) -> emits cap (emit xs) g bs tt (Some <$> xs).
Proof.
  intros HH Hx Hr. pose proof HH as [(buf & Eb & El & Ht) Em Ho [Hs1 Hs2]]. unfold roomy, codeGenPadding in *.
  unfold emits, emit. rewrite (bind_ret _ _ _ _ _ (have_buffer_run g buf Eb)), bind_gets.
  rewrite (bind_ret _ _ _ _ _ (store_run g buf (offset_ g) xs Eb ltac:(lia) ltac:(lia))). rewrite Ho, Nat2Z.id.
  destruct (update_run (with_buffer g (patched buf (length bs) xs) (Z.of_nat (length bs))) (patched buf (length bs) xs)
    (Z.of_nat (length (bs ++ (Some <$> xs))))) as (g' & E & HE);
    simpl; rewrite ?length_app, ?length_fmap, ?patched_length by lia; try done; try cg.
  rewrite length_app, length_fmap, Nat2Z.inj_add in E. exists g'. split; [done|]. apply (enlarged_holds g bs xs buf); [done|lia|].
  destruct HE. split; done.
Qed.

(** [memcpy] behind the index and a move of the index. *)
Lemma store_move_run g bs xs buf :
  buffer_ g = Some buf -> Z.of_nat (length buf) = max_ g -> take (length bs) buf = bs -> max_ g = size_ g + codeGenPadding ->
  offset_ g = Z.of_nat (length bs) -> Z.of_nat (length bs) <= size_ g <= cap ->
  Z.of_nat (length bs) + Z.of_nat (length xs) <= max_ g -> roomy cap (length bs) (Z.of_nat (length xs)) ->
  emits cap (store (Z.of_nat (length bs)) xs ;; moveIndex (Z.of_nat (length xs))) g bs tt (Some <$> xs).
Proof.
  intros Eb El Ht Em Ho [Hs1 Hs2] Hf Hr. unfold roomy, codeGenPadding in *. unfold emits.
  rewrite (bind_ret _ _ _ _ _ (store_run g buf (Z.of_nat (length bs)) xs Eb ltac:(lia) ltac:(lia))), Nat2Z.id, Ho.
  unfold moveIndex. rewrite bind_gets. unfold getIndex. cbn [offset_ with_buffer].
  rewrite (s32_id (Z.of_nat (length bs))), s32_id, u32_id by lia.
  destruct (setIndex_run (with_buffer g (patched buf (length bs) xs) (Z.of_nat (length bs))) (patched buf (length bs) xs)
    (Z.of_nat (length (bs ++ (Some <$> xs))))) as (g' & E & HE);
    simpl; rewrite ?length_app, ?length_fmap, ?patched_length by lia; try done; try cg.
  rewrite length_app, length_fmap, Nat2Z.inj_add in E. exists g'. split; [done|]. apply (enlarged_holds g bs xs buf); [done|lia|].
  destruct HE. split; done.
Qed.

Lemma gen_copy_run g bs xs :
  holds cap g bs -> roomy cap (length bs) (Z.of_nat (length xs)) -> emits cap (copy xs) g bs tt (Some <$> xs).
Proof.
  intros HH Hr. unfold copy. case_bool_decide as Hx; [subst; by apply emits_nothing|].
  pose proof HH as [(buf & Eb & El & Ht) Em Ho [Hs1 Hs2]]. unfold emits.
  rewrite (bind_ret _ _ _ _ _ (have_buffer_run g buf Eb)). unfold get at 1. rewrite (bind_ret _ _ _ _ _ eq_refl).
  rewrite (used_holds g bs HH). unfold roomy, codeGenPadding in *. rewrite u32_id by lia.
  destruct (realloc_run g buf (Z.of_nat (length bs) + Z.of_nat (length xs))) as (g1 & E1 & [(ext & Eb1 & El1) Em1 Hs3 Ho1 Hp1]);
    try done; try cg.
  rewrite (bind_ret _ _ _ _ _ E1), bind_gets, Ho1, Ho. unfold codeGenPadding in *.
  destruct (store_move_run g1 bs xs (buf ++ ext)) as (g' & E & HH' & Hp'); try done; try cg.
  { rewrite take_app_le by lia. done. }
  exists g'. split_and!; [exact E|done|]. by eapply same_place_trans.
Qed.

Lemma generate_insn_run g bs xs :
  holds cap g bs -> Z.of_nat (length xs) < codeGenPadding -> roomy cap (length bs) (Z.of_nat (length xs)) ->
  emits cap (generate_insn xs) g bs tt (Some <$> xs).
Proof.
  intros HH Hx Hr. pose proof HH as [(buf & Eb & El & Ht) Em Ho [Hs1 Hs2]]. unfold emits, generate_insn.
  rewrite (bind_ret _ _ _ _ _ (have_buffer_run g buf Eb)), bind_gets, Ho. apply (store_move_run g bs xs buf); try done. lia.
Qed.

Lemma generateNOOP_run n g bs :
  holds cap g bs -> roomy cap (length bs) (Z.of_nat n) -> emits cap (generateNOOP n) g bs tt (Some <$> replicate n NOP).
Proof.
  revert g bs. induction n as [|n IH]; intros g bs HH Hr; simpl; [by apply emits_nothing|]. unfold roomy in *.
  apply (emits_bind _ _ g bs tt [Some NOP]).
  - apply (emit_run g bs [NOP]); [done|done|unfold roomy; simpl; lia].
  - intros g' HH' _. apply IH; [done|]. rewrite length_app. simpl. lia.
Qed.

(** A new buffer. *)
Definition emptied (g : codeGen) : codeGen := mk_gen None 0 0 0 false (addr_ g) false (aWidth g).
Definition fresh (g : codeGen) (n : Z) : codeGen :=
  mk_gen (Some (replicate (Z.to_nat (n + codeGenPadding)) None)) 0 n (n + codeGenPadding) true (addr_ g) true (aWidth g).
Lemma invalidate_run g : invalidate g = Ret (tt, emptied g).
Proof. done. Qed.
Lemma allocate_run g n : 0 <= n <= cap -> allocate n (emptied g) = Ret (tt, fresh g n).
Proof.
  intros Hn. unfold allocate. rewrite !bind_gets. cbn [buffer_ emptied bool_decide]. rewrite bool_decide_eq_false_2 by (by intros [? [=]]). cbn [andb].
  rewrite bind_mret. unfold set_size. rewrite (bind_ret _ _ _ tt _ eq_refl), !bind_gets. cbn [buffer_ max_ emptied]. rewrite u32_id by cg. done.
Qed.
Lemma fresh_holds g n : 0 <= n <= cap -> holds cap (fresh g n) [].
Proof. intros Hn. split; simpl; try done; try lia. eexists. split_and!; [done| |done]. rewrite length_replicate. cg. Qed.

(** Going back to a byte that was skipped. *)
Lemma poke_run g bs x b ys :
  holds cap g (bs ++ x :: ys) -> roomy cap (length bs) (Z.of_nat (length ys) + 1) ->
  exists g', (setIndex (Z.of_nat (length bs)) ;; emit [b] ;; setIndex (Z.of_nat (length bs) + 1 + Z.of_nat (length ys))) g = Ret (tt, g') /\
    holds cap g' (bs ++ Some b :: ys) /\ same_place g g'.
Proof.
  intros [(buf & Eb & El & Ht) Em Ho [Hs1 Hs2]] Hr. rewrite length_app in Ho, Hs1, Ht. simpl in Ho, Hs1, Ht.
  unfold roomy, codeGenPadding in *.
  destruct (setIndex_run g buf (Z.of_nat (length bs))) as (g1 & E1 & HE1); try done; try cg.
  rewrite (bind_ret _ _ _ _ _ E1). pose proof HE1 as [(ext & Eb1 & El1) Em1 Hs3 Ho1 Hp1]. unfold codeGenPadding in *. cbn [offset_ with_buffer] in Ho1.
  assert (exists zs, buf ++ ext = bs ++ x :: ys ++ zs) as (zs & Ebuf).
  { exists (drop (length bs + S (length ys)) buf ++ ext). rewrite <- (take_drop (length bs + S (length ys)) buf) at 1. rewrite Ht, <- !app_assoc. done. }
  rewrite Ebuf in Eb1, El1. clear E1 HE1 Ebuf Eb El Ht Hs1 Hs2 Ho Em.
  set (buf1 := bs ++ x :: ys ++ zs) in *. assert (patched buf1 (length bs) [b] = bs ++ Some b :: ys ++ zs) as Ep.
  { unfold patched, buf1. rewrite take_app_length. f_equal. simpl. f_equal. rewrite Nat.add_comm. simpl.
    change (x :: ys ++ zs) with ([x] ++ ys ++ zs). rewrite app_assoc. rewrite drop_app_length'; [done|]. rewrite length_app. simpl. lia. }
  assert (length buf1 = length (bs ++ Some b :: ys ++ zs)) as Elen by (unfold buf1; by rewrite !length_app).
  assert (length buf1 = length bs + S (length ys + length zs))%nat as Elen2 by (unfold buf1; rewrite length_app; simpl; by rewrite length_app).
  unfold emit. rewrite bind_assoc, (bind_ret _ _ _ _ _ (have_buffer_run g1 buf1 Eb1)), bind_assoc, bind_gets, Ho1.
  rewrite bind_assoc, (bind_ret _ _ _ _ _ (store_run g1 buf1 (Z.of_nat (length bs)) [b] Eb1 ltac:(lia) ltac:(simpl; lia))), Nat2Z.id, Ep.
  destruct (update_run (with_buffer g1 (bs ++ Some b :: ys ++ zs) (offset_ g1)) (bs ++ Some b :: ys ++ zs) (Z.of_nat (length bs) + 1)) as (g2 & E2 & HE2);
    simpl; try done; try cg.
  change (Z.of_nat (length [b])) with 1. rewrite (bind_ret _ _ _ _ _ E2).
  destruct HE2 as [(ext2 & Eb2 & El2) Em2 Hs4 Ho2 Hp2]. unfold codeGenPadding in *. cbn [offset_ with_buffer] in Ho2.
  destruct (setIndex_run g2 ((bs ++ Some b :: ys ++ zs) ++ ext2) (Z.of_nat (length bs) + 1 + Z.of_nat (length ys))) as (g3 & E3 & HE3);
    try done; try cg.
  { rewrite length_app in El2. lia. }
  destruct HE3 as [(ext3 & Eb3 & El3) Em3 Hs5 Ho3 Hp3]. exists g3. split; [done|]. split; [|eapply same_place_trans; [|exact Hp3]; by eapply same_place_trans].
  split; try done; rewrite ?length_app; simpl; [|simpl in Ho3; lia|lia]. eexists. split_and!; [exact Eb3|done|].
  rewrite <- !app_assoc. simpl. rewrite <- !app_assoc.
  change (bs ++ Some b :: ys ++ zs ++ ext2 ++ ext3) with (bs ++ (Some b :: ys) ++ zs ++ ext2 ++ ext3). rewrite app_assoc.
  apply take_app_length'. rewrite length_app. simpl. lia.
Qed.
End Appending.

(** ** Branches *)

(** What the processor makes of the code of an unconditional jump at [addr]: a short
    or a near jump, or four pushes of 16 bits and a return. *)
Definition popped (bs : list Z) : option Z :=
  match bs with
  | [p3; q3; a3; b3; p2; q2; a2; b2; p1; q1; a1; b1; p0; q0; a0; b0; ret] =>
      if forallb (Z.eqb 0x66) [p3; p2; p1; p0] && forallb (Z.eqb 0x68) [q3; q2; q1; q0] && (ret =? 0xC3)
      then Some (le_dec [a0; b0; a1; b1; a2; b2; a3; b3]) else None
  | _ => None
  end.
Definition jump_of (addr : Z) (bs : list Z) : option Z :=
  match bs with
  | [op; d] => if op =? 0xEB then Some (u64 (addr + 2 + swrap 8 d)) else None
  | op :: ([_; _; _; _] as d) => if op =? 0xE9 then Some (u64 (addr + 5 + s32 (le_dec d))) else None
  | _ => popped bs
  end.

(** The bytes of [generateBranch]. *)
Definition branch_bytes (w fromAddr toAddr : Z) : list Z :=
  let disp := s64 (toAddr - (fromAddr + 2)) in
  if is_disp8 disp then [0xEB; u8 disp] else
  let disp := s64 (toAddr - fromAddr) in
  if is_disp32 disp || (w =? 4) then 0xE9 :: le_enc 4 (u32 (s32 disp - 5))
  else if w =? 8 then (push16 toAddr 3 ++ push16 toAddr 2 ++ push16 toAddr 1 ++ push16 toAddr 0) ++ [0xC3]
  else (0x68 :: le_enc 4 (u32 toAddr)) ++ [0xC3].

(** Five distances just inside 32 bits for which the displacement does not fit. *)
Definition at_limit (fromAddr toAddr : Z) : bool :=
  (- 2 ^ 31 <=? s64 (toAddr - fromAddr)) && (s64 (toAddr - fromAddr) <? - 2 ^ 31 + 5).

Lemma branch_bytes_length w from to : (length (branch_bytes w from to) <= 17)%nat.
Proof. unfold branch_bytes. repeat case_match; simpl; lia. Qed.

Lemma swrap_uwrap w x : 1 <= w -> swrap w (uwrap w x) = swrap w x.
Proof. intros Hw. unfold swrap, uwrap. by rewrite Zplus_mod_idemp_l. Qed.
Lemma u64_s64 x y : u64 (x + s64 y) = u64 (x + y).
Proof.
  unfold swrap, uwrap. change (2 ^ (64 - 1)) with (2 ^ 63). rewrite Z.add_sub_assoc, Zminus_mod, Z.add_mod_idemp_r by done.
  rewrite <- Zminus_mod. f_equal. lia.
Qed.

Lemma is_disp8_range d : is_disp8 d = true -> -128 <= d < 127.
Proof. unfold is_disp8. intros H. zbool. lia. Qed.
Lemma is_disp32_range d : is_disp32 d = true -> - 2 ^ 31 <= d < 2 ^ 31.
Proof. unfold is_disp32. intros H. zbool. lia. Qed.

Lemma push16_word val i : 0 <= val < 2 ^ 64 -> 0 <= i ->
  exists a b, push16 val i = [0x66; 0x68; a; b] /\ a + 256 * b = (val / 2 ^ (16 * i)) mod 2 ^ 16.
Proof.
  intros Hv Hi. unfold push16. rewrite Z.shiftr_div_pow2 by lia. change 0xffff with (Z.ones 16). rewrite Z.land_ones by lia.
  set (x := (val / 2 ^ (16 * i)) mod 2 ^ 16). assert (0 <= x < 2 ^ 16) by (apply Z.mod_pos_bound; lia).
  eexists _, _. split; [reflexivity|]. pose proof (Z.div_mod x 256 ltac:(lia)).
  assert (x / 256 < 256) by (apply Z.div_lt_upper_bound; lia). assert (0 <= x / 256) by (apply Z.div_pos; lia).
  rewrite (Z.mod_small (x / 256)) by lia. lia.
Qed.

Lemma words_64 val : 0 <= val < 2 ^ 64 ->
  val = (val / 2 ^ 0) mod 2 ^ 16 + 2 ^ 16 * ((val / 2 ^ 16) mod 2 ^ 16) + 2 ^ 32 * ((val / 2 ^ 32) mod 2 ^ 16) + 2 ^ 48 * ((val / 2 ^ 48) mod 2 ^ 16).
Proof.
  intros Hv. change (2 ^ 0) with 1. rewrite Z.div_1_r.
  change (2 ^ 48) with (2 ^ 32 * 2 ^ 16). change (2 ^ 32) with (2 ^ 16 * 2 ^ 16).
  rewrite <- !Z.div_div by lia. set (B := 2 ^ 16) in *.
  pose proof (Z.div_mod val B ltac:(lia)). pose proof (Z.div_mod (val / B) B ltac:(lia)). pose proof (Z.div_mod (val / B / B) B ltac:(lia)).
  assert (0 <= val / B / B / B < B) by (rewrite !Z.div_div by lia; split; [apply Z.div_pos; lia|apply Z.div_lt_upper_bound; unfold B; lia]).
  rewrite (Z.mod_small (val / B / B / B) B) by done. nia.
Qed.

Lemma popped_push64 to : 0 <= to < 2 ^ 64 ->
  popped ((push16 to 3 ++ push16 to 2 ++ push16 to 1 ++ push16 to 0) ++ [0xC3]) = Some to.
Proof.
  intros Ht. destruct (push16_word to 0 Ht ltac:(lia)) as (a0 & b0 & -> & E0). destruct (push16_word to 1 Ht ltac:(lia)) as (a1 & b1 & -> & E1).
  destruct (push16_word to 2 Ht ltac:(lia)) as (a2 & b2 & -> & E2). destruct (push16_word to 3 Ht ltac:(lia)) as (a3 & b3 & -> & E3).
  change (16 * 0) with 0 in E0. change (16 * 1) with 16 in E1. change (16 * 2) with 32 in E2. change (16 * 3) with 48 in E3.
  cbn [popped app forallb Z.eqb Pos.eqb andb le_dec]. f_equal. pose proof (words_64 to Ht) as Ew. rewrite <- E0, <- E1, <- E2, <- E3 in Ew. lia.
Qed.

(** A generated jump goes where it should. *)
Lemma branch_bytes_jump from to :
  0 <= to < 2 ^ 64 -> at_limit from to = false -> jump_of from (branch_bytes 8 from to) = Some to.
Proof.
  intros Ht Hlim. unfold branch_bytes. destruct (is_disp8 _) eqn:E8.
  { apply is_disp8_range in E8. unfold jump_of. cbn [Z.eqb Pos.eqb]. rewrite swrap_uwrap, swrap_id by (unfold srange; simpl; lia).
    rewrite u64_s64. f_equal. replace (from + 2 + (to - (from + 2))) with to by lia. by apply u64_id. }
  destruct (is_disp32 _) eqn:E32; cbn [orb].
  - apply is_disp32_range in E32. unfold at_limit in Hlim. rewrite (proj2 (Z.leb_le _ _)) in Hlim by lia. zbool. simpl in Hlim. zbool.
    rewrite s32_id by lia. set (d := s64 (to - from)) in *. unfold jump_of.
    assert (s32 (le_dec (le_enc 4 (u32 (d - 5)))) = d - 5) as Ed.
    { rewrite le_dec_enc by exact (uwrap_range 32 (d - 5) ltac:(lia)). rewrite swrap_uwrap by lia. apply s32_id. lia. }
    cbn [le_enc] in Ed |- *. rewrite Ed. cbn [Z.eqb Pos.eqb]. f_equal. replace (from + 5 + (d - 5)) with (from + d) by lia.
    unfold d. rewrite u64_s64. replace (from + (to - from)) with to by lia. by apply u64_id.
  - change (8 =? 4) with false. change (8 =? 8) with true. cbv iota. rewrite <- (popped_push64 to Ht). by destruct Ht.
Qed.
