(* ===== verification/CodeBufferOk.v ===== *)
(** * Generation reaches a layout in which every patch is right

    A patch of which only the address and the addresses of some labels matter, and
    whose code has a bounded size, has the [PatchLaws].  The loop of [generate] then
    ends: in every round but the last a size grows, or the labels become those of
    sizes that did not change.  In the last round nothing moved, so what every
    patch generated is its code for the final addresses. *)
From stdpp Require Import base gmap list.
From S2P Require Import Prelude CodeGen CodeGenOk CodeTracker CodeBuffer.
Import codegen codeTracker codeBuffer.

Section Views.
Context {P : Type}.

(** The address [predictedAddr] gives, and the offset a label has now. *)
Definition pred_addr (s : CodeBuffer P) (id : Z) : Z :=
  match labels_ s !! Z.to_nat id with
  | None => 0
  | Some lb =>
      let start := startAddr (gen_ s) in
      match lb_type lb with
      | Absolute => lb_addr lb
      | Relative => u64 (lb_addr lb + start)
      | Estimate =>
          if lb_iteration lb <? curIteration_ s then u64 (u64 (lb_addr lb + start) + shift_ s) else u64 (lb_addr lb + start)
      | Invalid => 0
      end
  end.
Definition lab (s : CodeBuffer P) (id : Z) : Z :=
  match labels_ s !! Z.to_nat id with Some lb => lb_addr lb | None => 0 end.

(** What applying a patch leaves: other code, and perhaps a new absolute label. *)
Definition applied (s : CodeBuffer P) (g : codeGen) (ls : list Label) (n : Z) : CodeBuffer P :=
  mk_buf (buffers_ s) (cb_size s) g (curIteration_ s) ls n (shift_ s) (generated_ s).
Record labels_kept (ls : list Label) (n : Z) (ls' : list Label) (n' : Z) : Prop := {
  lk_next : n <= n' <= n + 1;
  lk_old : forall i lb, (i < Z.to_nat n)%nat -> ls !! i = Some lb -> ls' !! i = Some lb
}.

Lemma put_label_run (s : CodeBuffer P) id lb :
  0 <= id ->
  exists ls, put_label id lb s = Ret (tt, mk_buf (buffers_ s) (cb_size s) (gen_ s) (curIteration_ s) ls (curLabelID_ s) (shift_ s) (generated_ s)) /\
    ls !! Z.to_nat id = Some lb /\ (forall i x, i <> Z.to_nat id -> labels_ s !! i = Some x -> ls !! i = Some x).
Proof.
  intros Hid. unfold put_label. rewrite bind_gets. set (ls := if _ <=? _ then _ else _).
  assert ((Z.to_nat id < length ls)%nat /\ forall i x, labels_ s !! i = Some x -> ls !! i = Some x) as [Hl Hk].
  { unfold ls, resize_labels. destruct (_ <=? _) eqn:E; zbool; [|split; [lia|done]]. rewrite length_resize. split; [lia|].
    intros i x Ex. pose proof (lookup_lt_Some _ _ _ Ex). by rewrite lookup_resize by lia. }
  eexists. split_and!; [reflexivity|by apply list_lookup_insert_eq|]. intros i x Hi Ex. rewrite list_lookup_insert_ne by done. by apply Hk.
Qed.
End Views.

Class PatchLaws (P : Type) `{Patch P} : Type := {
  code : P -> Z -> (Z -> Z) -> list Z;
  bound : P -> Z;
  deps : P -> list Z;
  placeable : P -> Z -> Z -> Prop;
  estimate_range : forall p, 0 <= estimate p <= bound p;
  code_bound : forall p a f, Z.of_nat (length (code p a f)) <= bound p;
  code_deps : forall p a f f', (forall id, id ∈ deps p -> f id = f' id) -> code p a f = code p a f';
  apply_run : forall cap p s bs lo hi,
    cap + codeGenPadding < 2 ^ 31 -> holds cap (gen_ s) bs -> aWidth (gen_ s) = 8 -> roomy cap (length bs) (bound p) ->
    0 < lo -> hi < 2 ^ 63 -> lo <= currAddr (gen_ s) -> currAddr (gen_ s) + bound p <= hi -> placeable p lo hi ->
    (forall id, id ∈ deps p -> predictedAddr id s = Ret (pred_addr s id, s) /\ lo <= pred_addr s id <= hi) ->
    0 < curLabelID_ s < 2 ^ 31 - 1 ->
    exists g' ls n', apply p s = Ret (true, applied s g' ls n') /\ holds cap g' (bs ++ (Some <$> code p (currAddr (gen_ s)) (pred_addr s))) /\
      same_place (gen_ s) g' /\ labels_kept (labels_ s) (curLabelID_ s) ls n'
}.

Section Generation.
Context {P : Type} `{PatchLaws P}.
Abbreviation elem := (BufferElement P).
Abbreviation state := (CodeBuffer P).

Definition patch_bound (o : option P) : Z := match o with Some p => bound p | None => 0 end.
Definition cap_of (e : elem) : Z := Z.of_nat (length (el_buffer e)) + patch_bound (el_patch e).
Definition labelled (e : elem) : Prop := el_labelID e <> INVALID.
Definition label_ids (l : list elem) : list Z := filter (fun id => id <> INVALID) (el_labelID <$> l).

(** The code of an element at [a], and that of a list of elements with its padding. *)
Definition patch_code (o : option P) (a : Z) (f : Z -> Z) : list Z := match o with Some p => code p a f | None => [] end.
Definition piece (e : elem) (a : Z) (f : Z -> Z) : list Z :=
  el_buffer e ++ patch_code (el_patch e) (a + Z.of_nat (length (el_buffer e))) f.
Definition padded (e : elem) (a : Z) (f : Z -> Z) : list Z :=
  piece e a f ++ replicate (Z.to_nat (el_size e - Z.of_nat (length (piece e a f)))) NOP.
Fixpoint pieces (l : list elem) (a : Z) (f : Z -> Z) : list Z :=
  match l with [] => [] | e :: l' => padded e a f ++ pieces l' (a + el_size e) f end.

Definition off (l : list elem) (i : nat) : Z := zsum el_size (take i l).

Lemma patch_bound_nonneg o : 0 <= patch_bound o.
Proof. destruct o as [p|]; simpl; [|lia]. pose proof (code_bound p 0 (fun _ => 0)). lia. Qed.
Lemma cap_of_nonneg e : 0 <= cap_of e.
Proof. unfold cap_of. pose proof (patch_bound_nonneg (el_patch e)). lia. Qed.
Lemma piece_length e a f : Z.of_nat (length (piece e a f)) <= cap_of e.
Proof.
  unfold piece, cap_of. rewrite length_app. destruct (el_patch e) as [p|]; simpl; [|lia].
  pose proof (code_bound p (a + Z.of_nat (length (el_buffer e))) f). lia.
Qed.
Lemma padded_length e a f :
  Z.of_nat (length (piece e a f)) <= el_size e -> Z.of_nat (length (padded e a f)) = el_size e.
Proof. intros Hl. unfold padded. rewrite length_app, length_replicate. lia. Qed.

(** ** The invariant of generation *)

Context (N base : Z) (cap : Z).
Context (Hcap : cap + codeGenPadding < 2 ^ 31) (HN0 : 0 <= N) (HN : 2 * N + 8192 <= cap) (Hbase : 0 < base) (Htop : base + 2 * N < 2 ^ 63).

Record label_ok (s : state) (id : Z) : Prop := {
  lo_id : 0 < id < curLabelID_ s;
  lo_label : exists lb, labels_ s !! Z.to_nat id = Some lb /\ (lb_type lb = Relative \/ lb_type lb = Estimate) /\ 0 <= lb_addr lb <= N
}.

Definition distinct (l : list elem) : Prop :=
  forall i j e e', l !! i = Some e -> l !! j = Some e' -> labelled e -> el_labelID e = el_labelID e' -> i = j.

Definition patch_ok (ids : list Z) (o : option P) : Prop :=
  match o with Some p => (forall id, id ∈ deps p -> id ∈ ids) /\ placeable p base (base + 2 * N) | None => True end.

Record gen_inv (s : state) : Prop := {
  gi_start : startAddr (gen_ s) = base;
  gi_width : aWidth (gen_ s) = 8;
  gi_elems : Forall (fun e => 0 <= el_size e <= cap_of e /\ patch_ok (label_ids (buffers_ s)) (el_patch e)) (buffers_ s);
  gi_labels : forall id, id ∈ label_ids (buffers_ s) -> label_ok s id;
  gi_nodup : distinct (buffers_ s);
  gi_total : zsum cap_of (buffers_ s) <= N;
  gi_next : 0 < curLabelID_ s
}.

Lemma cap_small : cap < 2 ^ 31 - 128.
Proof. unfold codeGenPadding in Hcap. lia. Qed.
Lemma base_not_none : base <> NO_ADDR.
Proof. unfold NO_ADDR, UINT64_MAX. lia. Qed.

(** What a label is predicted to be, once its offset and the shift are known. *)
Lemma pred_addr_cases s id (HO : label_ok s id) :
  startAddr (gen_ s) = base -> 0 <= shift_ s <= N -> predictedAddr id s = Ret (pred_addr s id, s) /\
    base <= pred_addr s id <= base + 2 * N /\ (shift_ s = 0 -> pred_addr s id = base + lab s id).
Proof.
  intros Hst Hsh. destruct HO as [Hid (lb & Elb & Hty & Hra)]. unfold predictedAddr, pred_addr, lab. rewrite bind_gets, Elb.
  pose proof (lookup_lt_Some _ _ _ Elb) as Hlt.
  unfold assertM. rewrite (proj2 (Z.ltb_lt id _)), (proj2 (Z.ltb_lt 0 id)) by lia. rewrite !(bind_ret _ _ s tt s) by reflexivity.
  rewrite Hst. rewrite bind_gets, Hst. assert (base =? 0 = false) as Eb0 by (apply Z.eqb_neq; lia).
  assert (base =? NO_ADDR = false) as Eb1 by (apply Z.eqb_neq, base_not_none).
  destruct Hty as [-> | ->]; rewrite Eb0, Eb1; simpl; rewrite !(bind_ret _ _ s tt s) by reflexivity; rewrite ?bind_gets.
  - rewrite u64_id by lia. split_and!; [done|lia|lia|lia].
  - rewrite (u64_id (lb_addr lb + base)) by lia. destruct (lb_iteration lb <? curIteration_ s); rewrite ?u64_id by lia; split_and!; done || lia.
Qed.

(** ** One element *)

(** The label of an element set to an offset. *)
Definition with_label (s : state) (id o : Z) : state :=
  match labels_ s !! Z.to_nat id with
  | Some lb => mk_buf (buffers_ s) (cb_size s) (gen_ s) (curIteration_ s)
      (<[Z.to_nat id := mk_label Estimate (lb_id lb) (lb_iteration lb + 1) o]> (labels_ s)) (curLabelID_ s) (shift_ s) (generated_ s)
  | None => s
  end.
Definition moves (s : state) (e : elem) (o : Z) : bool := bool_decide (labelled e) && negb (lab s (el_labelID e) =? o).
Definition relabel (s : state) (e : elem) (o : Z) : state := if bool_decide (labelled e) then with_label s (el_labelID e) o else s.

Lemma updateLabel_run s e o :
  (labelled e -> label_ok s (el_labelID e)) -> updateLabel (el_labelID e) o s = Ret (moves s e o, relabel s e o).
Proof.
  intros HO. unfold updateLabel, moves, relabel, labelled in *. case_bool_decide as Hl; simpl; [|by rewrite (proj2 (Z.eqb_eq _ INVALID)) by tauto].
  rewrite (proj2 (Z.eqb_neq _ INVALID) Hl). destruct (HO Hl) as [Hid (lb & Elb & Hty & _)]. rewrite bind_gets.
  pose proof (lookup_lt_Some _ _ _ Elb). unfold assertM. rewrite (proj2 (Z.ltb_lt (el_labelID e) _)), (proj2 (Z.ltb_lt 0 _)) by lia.
  rewrite !(bind_ret _ _ s tt s) by reflexivity. rewrite Elb. unfold valid, lab, with_label. rewrite Elb.
  by rewrite bool_decide_eq_false_2 by (by destruct Hty as [-> | ->]).
Qed.

Lemma relabel_frame s e o :
  buffers_ (relabel s e o) = buffers_ s /\ cb_size (relabel s e o) = cb_size s /\ gen_ (relabel s e o) = gen_ s /\
  curIteration_ (relabel s e o) = curIteration_ s /\ curLabelID_ (relabel s e o) = curLabelID_ s /\ shift_ (relabel s e o) = shift_ s /\
  generated_ (relabel s e o) = generated_ s.
Proof. unfold relabel, with_label. repeat case_match; by split_and!. Qed.

Lemma label_ok_pos s id : label_ok s id -> 0 < id.
Proof. intros [? _]. lia. Qed.
Lemma lab_relabel s e o id :
  (labelled e -> label_ok s (el_labelID e)) -> label_ok s id ->
  lab (relabel s e o) id = if decide (labelled e /\ id = el_labelID e) then o else lab s id.
Proof.
  intros HO Hid. pose proof (label_ok_pos s id Hid). unfold relabel. case_bool_decide as Hl; [|case_decide; tauto].
  pose proof (label_ok_pos _ _ (HO Hl)). destruct (HO Hl) as [_ (lb & Elb & _)]. unfold with_label, lab. rewrite Elb. simpl. case_decide as Hd.
  - destruct Hd as [_ ->]. rewrite list_lookup_insert_eq; [done|]. by eapply lookup_lt_Some.
  - rewrite list_lookup_insert_ne; [done|]. intros Ei. apply Hd. split; [done|]. lia.
Qed.
Lemma label_ok_relabel s e o id :
  (labelled e -> label_ok s (el_labelID e)) -> 0 <= o <= N -> label_ok s id -> label_ok (relabel s e o) id.
Proof.
  intros HO Hr Hid. pose proof (label_ok_pos s id Hid). unfold relabel. case_bool_decide as Hl; [|done].
  pose proof (label_ok_pos _ _ (HO Hl)). destruct (HO Hl) as [_ (lb & Elb & _)]. destruct Hid as [Hi (lb' & Elb' & Hty & Ha)].
  unfold with_label. rewrite Elb. split; [done|]. simpl. destruct (decide (id = el_labelID e)) as [->|Hne].
  - rewrite list_lookup_insert_eq by (by eapply lookup_lt_Some). eexists. split_and!; [done|by right|simpl; lia..].
  - rewrite list_lookup_insert_ne by lia. eauto.
Qed.

Lemma label_ok_kept s s' id :
  labels_kept (labels_ s) (curLabelID_ s) (labels_ s') (curLabelID_ s') -> label_ok s id -> label_ok s' id /\ lab s' id = lab s id.
Proof.
  intros [Hn Hold] [Hid (lb & Elb & Hty & Hr)]. pose proof (Hold (Z.to_nat id) lb ltac:(lia) Elb) as E.
  split; [split; [lia|eauto]|]. unfold lab. by rewrite E, Elb.
Qed.
Lemma label_ok_same s s' id : labels_ s' = labels_ s -> curLabelID_ s' = curLabelID_ s -> label_ok s id -> label_ok s' id.
Proof. intros E1 E2. apply label_ok_kept. rewrite E1, E2. split; [lia|done]. Qed.

Definition resized (e : elem) (a n : Z) : elem := mk_elem a n (el_buffer e) (el_patch e) (el_labelID e) (el_trackers e).

Definition with_elem (s : state) (i : nat) (e : elem) : state :=
  mk_buf (<[i := e]> (buffers_ s)) (cb_size s) (gen_ s) (curIteration_ s) (labels_ s) (curLabelID_ s) (shift_ s) (generated_ s).

(** The state after element [i] was generated at [a] with the size [n]. *)
Definition generated_at (s : state) (i : nat) (e : elem) (a n : Z) (g : codeGen) (ls : list Label) (k : Z) : state :=
  mk_buf (<[i := resized e a n]> (buffers_ s)) (cb_size s) g (curIteration_ s) ls k (shift_ s + (n - el_size e)) (generated_ s).

Lemma currAddr_run g bs : holds cap g bs -> addr_ g = base -> Z.of_nat (length bs) <= N -> currAddr g = base + Z.of_nat (length bs).
Proof.
  intros [_ _ Ho _] Ea Hl. unfold currAddr, CODE_GEN_OFFSET_SIZE. rewrite Ea, (proj2 (Z.eqb_neq _ _) base_not_none), Ho, Z.mul_1_r.
  rewrite u64_id by lia. lia.
Qed.

Lemma applied_same (s : state) : applied s (gen_ s) (labels_ s) (curLabelID_ s) = s.
Proof. by destruct s. Qed.
Lemma labels_kept_refl ls n : labels_kept ls n ls n.
Proof. split; [lia|done]. Qed.

Lemma patch_run o ids s bs :
  patch_ok ids o -> (forall id, id ∈ ids -> label_ok s id) -> startAddr (gen_ s) = base -> aWidth (gen_ s) = 8 -> holds cap (gen_ s) bs ->
  Z.of_nat (length bs) + patch_bound o <= N -> 0 <= shift_ s <= N -> 0 < curLabelID_ s < 2 ^ 31 - 1 ->
  exists g' ls n', (match o with Some p => apply p | None => mret true end) s = Ret (true, applied s g' ls n') /\
    holds cap g' (bs ++ (Some <$> patch_code o (base + Z.of_nat (length bs)) (pred_addr s))) /\
    same_place (gen_ s) g' /\ labels_kept (labels_ s) (curLabelID_ s) ls n'.
Proof.
  intros Hp Hids Hst Hw HH Hl Hsh Hc. destruct o as [p|]; simpl in *.
  2:{ exists (gen_ s), (labels_ s), (curLabelID_ s). rewrite applied_same, app_nil_r. split_and!; try done. apply labels_kept_refl. }
  destruct Hp as [Hd Hpl]. pose proof (code_bound p 0 (fun _ => 0)) as Hb.
  rewrite <- (currAddr_run (gen_ s) bs HH Hst ltac:(lia)).
  apply (apply_run cap p s bs base (base + 2 * N)); try done; try lia.
  - unfold roomy. lia.
  - rewrite (currAddr_run (gen_ s) bs HH Hst) by lia. lia.
  - rewrite (currAddr_run (gen_ s) bs HH Hst) by lia. lia.
  - intros id Hid. destruct (pred_addr_cases s id (Hids id (Hd id Hid)) Hst Hsh) as (? & ? & _). done.
Qed.

Lemma piece_ext e a f f' :
  (forall p id, el_patch e = Some p -> id ∈ deps p -> f id = f' id) -> piece e a f = piece e a f'.
Proof. intros Hf. unfold piece. f_equal. destruct (el_patch e) as [p|]; simpl; [|done]. apply code_deps. intros id Hid. by apply (Hf p). Qed.

Lemma elem_run s i e bs (o := Z.of_nat (length bs)) (s1 := relabel s e o) (pc := piece e (base + o) (pred_addr s1))
    (n := Z.max (el_size e) (Z.of_nat (length pc))) :
  gen_inv s -> buffers_ s !! i = Some e -> holds cap (gen_ s) bs -> o + cap_of e <= N ->
  0 <= shift_ s -> shift_ s + cap_of e <= N -> curLabelID_ s < 2 ^ 31 - 1 ->
  exists g ls k, elem_generate i e s = Ret ((true, moves s e o || (el_size e <? Z.of_nat (length pc))), generated_at s i e (base + o) n g ls k) /\
    holds cap g (bs ++ (Some <$> padded (resized e (base + o) n) (base + o) (pred_addr s1))) /\ same_place (gen_ s) g /\
    labels_kept (labels_ s1) (curLabelID_ s) ls k.
Proof.
  intros HI Ei HH Hl Hs0 Hs1 Hc. pose proof cap_small as Hcs. pose proof HI as [I1 I2 I3 I4 I5 I6 I7].
  assert (e ∈ buffers_ s) as Hin by (by eapply list_elem_of_lookup_2). rewrite Forall_forall in I3. destruct (I3 e Hin) as [Hsz Hpo].
  assert (labelled e -> label_ok s (el_labelID e)) as HO.
  { intros Hle. apply I4. unfold label_ids. apply list_elem_of_filter. split; [done|]. apply list_elem_of_fmap. eauto. }
  pose proof (cap_of_nonneg e) as Hce. pose proof (piece_length e (base + o) (pred_addr s1)) as Hpl. fold pc in Hpl.
  pose proof (currAddr_run (gen_ s) bs HH I1 ltac:(lia)) as Ea. fold o in Ea. pose proof (ho_offset _ _ _ HH) as Eo. fold o in Eo.
  unfold elem_generate. rewrite !bind_gets, Ea, I1. unfold getIndex. rewrite Eo. cbv zeta. cbn [el_addr el_size el_buffer el_patch el_labelID el_trackers].
  set (sE := with_elem s i (resized e (base + o) (el_size e))). rewrite (bind_ret _ _ s tt sE) by reflexivity.
  replace (u64 (base + o - base)) with o by (rewrite u64_id; lia).
  rewrite (bind_ret _ _ _ _ _ (updateLabel_run sE e o (fun H => label_ok_same s sE _ eq_refl eq_refl (HO H)))). change (moves sE e o) with (moves s e o).
  destruct (relabel_frame sE e o) as (F1 & F2 & F3 & F4 & F5 & F6 & F7). set (s1' := relabel sE e o) in *.
  assert (labels_ s1' = labels_ s1) as F8.
  { unfold s1', s1, relabel, with_label. case_bool_decide; [|done]. simpl. by destruct (labels_ s !! _). }
  destruct (gen_copy_run cap Hcap (gen_ s1') bs (el_buffer e)) as (g1 & E1 & HH1 & [P1a P1b]).
  { by rewrite F3. } { unfold roomy, cap_of in *. pose proof (patch_bound_nonneg (el_patch e)). lia. }
  rewrite F3 in P1a, P1b. simpl in P1a, P1b.
  set (s2 := eput g1 s1'). rewrite (bind_ret _ _ _ tt s2) by (unfold lift; simpl; by rewrite E1).
  destruct (patch_run (el_patch e) (label_ids (buffers_ s)) s2 (bs ++ (Some <$> el_buffer e))) as (g2 & ls & k & E2 & HH2 & [P2a P2b] & HK).
  { done. }
  { intros id Hid. apply (label_ok_same (relabel s e o)); [done|by rewrite (proj1 (proj2 (proj2 (proj2 (proj2 (relabel_frame s e o))))))|].
    apply label_ok_relabel; [done|lia|by apply I4]. }
  { unfold startAddr. simpl. by rewrite P1a. } { simpl. by rewrite P1b. } { done. }
  { rewrite length_app, length_fmap. unfold cap_of in *. lia. } { simpl. rewrite F6. simpl. lia. } { simpl. rewrite F5. simpl. lia. }
  rewrite (bind_ret _ _ _ _ _ E2). cbn [negb]. rewrite bind_gets. simpl in P2a, P2b.
  assert (forall id, pred_addr s2 id = pred_addr s1 id) as Epred.
  { intros id. unfold pred_addr, startAddr. simpl. rewrite F8, F4, F6, P1a. simpl.
    destruct (relabel_frame s e o) as (_ & _ & G3 & G4 & _ & G6 & _). fold s1 in G3, G4, G6. by rewrite G3, G4, G6. }
  assert (el_buffer e ++ patch_code (el_patch e) (base + Z.of_nat (length (bs ++ (Some <$> el_buffer e)))) (pred_addr s2) = pc) as Epc.
  { unfold pc. rewrite <- (piece_ext e (base + o) (pred_addr s2)) by auto. unfold piece. do 2 f_equal. rewrite length_app, length_fmap. lia. }
  rewrite <- app_assoc, <- fmap_app, Epc in HH2. pose proof (ho_offset _ _ _ HH2) as Eo2. rewrite length_app, length_fmap in Eo2.
  assert (u32 (getDisplacement o (offset_ g2)) = Z.of_nat (length pc)) as Esz.
  { unfold getDisplacement, CODE_GEN_OFFSET_SIZE. rewrite Eo2, u32_id by lia. lia. }
  cbn [gen_ applied]. rewrite Esz.
  assert (same_place (gen_ s) g2) as HP by (split; congruence).
  assert (labels_kept (labels_ s1) (curLabelID_ s) ls k) as HK' by (simpl in HK; by rewrite F5, F8 in HK).
  unfold padded. change (piece (resized e (base + o) n) (base + o) (pred_addr s1)) with pc. cbn [el_size resized].
  destruct (el_size e <? Z.of_nat (length pc)) eqn:Eg; zbool; rewrite ?orb_true_r, ?orb_false_r.
  - assert (n = Z.of_nat (length pc)) as En by (unfold n; lia). rewrite En. exists g2, ls, k. split; [|rewrite Z.sub_diag; simpl; by rewrite app_nil_r].
    rewrite bind_gets. change (shift_ (applied s2 g2 ls k)) with (shift_ s1'). rewrite F6. change (shift_ sE) with (shift_ s).
    rewrite (u32_id (Z.of_nat (length pc) - el_size e)), (s32_id (Z.of_nat (length pc) - el_size e)), s32_id by lia.
    unfold set_shift, put_elem, set_buffers, generated_at, applied. simpl. rewrite F1, F2, F4, F7.
    unfold mbind, M_bind, gets, modify. simpl. rewrite list_insert_insert_eq.
    done.
  - rewrite (u32_id (el_size e - Z.of_nat (length pc))) by lia. unfold fill. 
    destruct (generateNOOP_run cap Hcap (Z.to_nat (el_size e - Z.of_nat (length pc))) g2 (bs ++ (Some <$> pc)) HH2) as (g3 & E3 & HH3 & P3).
    { unfold roomy. rewrite length_app, length_fmap. lia. }
    rewrite (bind_ret _ _ _ tt (applied s2 g3 ls k)) by (unfold lift; simpl; by rewrite E3).
    assert (n = el_size e) as En by (unfold n; lia). rewrite En. exists g3, ls, k. split_and!; [|by rewrite fmap_app, app_assoc|by eapply same_place_trans|done].
    unfold generated_at, applied. simpl. rewrite F1, F2, F4, F6, F7. simpl. rewrite Z.sub_diag, Z.add_0_r. done.
Qed.

(** ** One round *)

Lemma elem_label_ids l id : id ∈ label_ids l <-> exists e, e ∈ l /\ labelled e /\ el_labelID e = id.
Proof.
  unfold label_ids, labelled. rewrite list_elem_of_filter, list_elem_of_fmap. split; [intros (? & e & -> & ?); eauto|intros (e & ? & ? & <-); eauto].
Qed.
Lemma zsum_fmap {A} (f : A -> Z) l l' : f <$> l = f <$> l' -> zsum f l = zsum f l'.
Proof.
  revert l'. induction l as [|x l IH]; intros [|y l'] E; try done. injection E as E1 E2. rewrite !zsum_cons, E1. f_equal. by apply IH.
Qed.
Lemma fmap_insert_same {A B} (f : A -> B) (l : list A) i x y : l !! i = Some x -> f y = f x -> f <$> <[i := y]> l = f <$> l.
Proof. intros E Ef. rewrite list_fmap_insert, Ef. apply list_insert_id. by rewrite list_lookup_fmap, E. Qed.
Lemma label_ids_insert l i e a n : l !! i = Some e -> label_ids (<[i := resized e a n]> l) = label_ids l.
Proof. intros E. unfold label_ids. by rewrite (fmap_insert_same _ _ _ e). Qed.
Lemma cap_insert l i e a n : l !! i = Some e -> zsum cap_of (<[i := resized e a n]> l) = zsum cap_of l.
Proof. intros E. apply zsum_fmap. by apply (fmap_insert_same _ _ _ e). Qed.

Lemma zsum_take_S {A} (f : A -> Z) l i x : l !! i = Some x -> zsum f (take (S i) l) = zsum f (take i l) + f x.
Proof. intros E. rewrite (take_S_r _ _ _ E), zsum_app, zsum_cons, zsum_nil. lia. Qed.
Lemma zsum_take_le {A} (f : A -> Z) l i : (forall x, 0 <= f x) -> zsum f (take i l) <= zsum f l.
Proof. intros Hf. rewrite <- (take_drop i l) at 2. rewrite zsum_app. pose proof (zsum_nonneg f (drop i l) ltac:(auto)). lia. Qed.
Lemma off_insert_le l i j e1 : (j <= i)%nat -> off (<[i := e1]> l) j = off l j.
Proof. intros Hj. unfold off. by rewrite take_insert_ge. Qed.
Lemma off_insert_S l i e e1 : l !! i = Some e -> off (<[i := e1]> l) (S i) = off l i + el_size e1.
Proof.
  intros E. unfold off. rewrite (zsum_take_S _ _ _ e1); [by rewrite take_insert_ge|]. apply list_lookup_insert_eq. by eapply lookup_lt_Some.
Qed.
Lemma off_sizes l l' j : el_size <$> l = el_size <$> l' -> off l j = off l' j.
Proof. intros E. unfold off. apply zsum_fmap. by rewrite !fmap_take, E. Qed.

(** What the elements from number [i] on leave, with the code [ys] behind [bs]. *)
Record passed (i n : nat) (s s' : state) (r : bool) (bs : list (option Z)) (ys : list Z) : Prop := {
  pa_inv : gen_inv s';
  pa_len : length (buffers_ s') = length (buffers_ s);
  pa_skel : forall j e', buffers_ s' !! j = Some e' -> exists e a m, buffers_ s !! j = Some e /\ e' = resized e a m /\ el_size e <= m;
  pa_done : forall j, (j < i)%nat -> buffers_ s' !! j = buffers_ s !! j;
  pa_holds : holds cap (gen_ s') (bs ++ (Some <$> ys));
  pa_total : Z.of_nat (length bs + length ys) = zsum el_size (buffers_ s');
  pa_next : curLabelID_ s <= curLabelID_ s' <= curLabelID_ s + Z.of_nat n;
  pa_rest : curIteration_ s' = curIteration_ s /\ cb_size s' = cb_size s /\ generated_ s' = generated_ s;
  pa_addr : forall j e', (i <= j)%nat -> buffers_ s' !! j = Some e' ->
    el_addr e' = base + off (buffers_ s') j /\ (labelled e' -> lab s' (el_labelID e') = off (buffers_ s') j);
  pa_old : forall j e, (j < i)%nat -> buffers_ s !! j = Some e -> labelled e -> lab s' (el_labelID e) = lab s (el_labelID e);
  pa_quiet : r = false -> shift_ s = 0 -> shift_ s' = 0 /\ (forall id, id ∈ label_ids (buffers_ s) -> lab s' id = lab s id) /\
    el_size <$> buffers_ s' = el_size <$> buffers_ s /\
    ys = pieces (drop i (buffers_ s)) (base + Z.of_nat (length bs)) (fun id => base + lab s id);
  pa_settled : el_size <$> buffers_ s' = el_size <$> buffers_ s ->
    (forall j e, (i <= j)%nat -> buffers_ s !! j = Some e -> labelled e -> lab s (el_labelID e) = off (buffers_ s) j) -> r = false
}.

(** The facts about the state after one element that the round needs. *)
Lemma after_elem s i e (o n : Z) g ls k (s1 := generated_at s i e (base + o) n g ls k) :
  gen_inv s -> buffers_ s !! i = Some e -> 0 <= o <= N -> el_size e <= n <= cap_of e -> same_place (gen_ s) g ->
  labels_kept (labels_ (relabel s e o)) (curLabelID_ s) ls k ->
  gen_inv s1 /\ forall id, id ∈ label_ids (buffers_ s) -> lab s1 id = if decide (labelled e /\ id = el_labelID e) then o else lab s id.
Proof.
  intros HI Ei Ho Hn [Hp1 Hp2] HK. pose proof HI as [I1 I2 I3 I4 I5 I6 I7].
  assert (labelled e -> label_ok s (el_labelID e)) as HO.
  { intros Hle. apply I4, elem_label_ids. exists e. split; [by eapply list_elem_of_lookup_2|done]. }
  assert (forall id, id ∈ label_ids (buffers_ s) -> label_ok s1 id /\ lab s1 id = lab (relabel s e o) id) as HL.
  { intros id Hid. apply (label_ok_kept (relabel s e o) s1); [|by apply label_ok_relabel; auto].
    destruct (relabel_frame s e o) as (_ & _ & _ & _ & -> & _). exact HK. }
  split; [|intros id Hid; rewrite (proj2 (HL id Hid)); by apply lab_relabel; auto].
  split; simpl; rewrite ?(label_ids_insert _ _ e), ?(cap_insert _ _ e) by done; try done.
  - unfold startAddr in *. simpl. congruence.
  - congruence.
  - apply Forall_insert; [done|]. pose proof (proj1 (Forall_lookup _ _) I3 i e Ei) as [? ?]. split; [simpl; change (cap_of (resized e (base + o) n)) with (cap_of e); lia|done].
  - intros id Hid. by apply HL.
  - intros j1 j2 e1 e2 E1 E2 Hl1 Eid.
    assert (forall j x, <[i := resized e (base + o) n]> (buffers_ s) !! j = Some x -> exists y, buffers_ s !! j = Some y /\ el_labelID y = el_labelID x) as Hsk.
    { intros j x Ex. destruct (decide (j = i)) as [->|Hne].
      - rewrite list_lookup_insert_eq in Ex by (by eapply lookup_lt_Some). injection Ex as <-. eauto.
      - rewrite list_lookup_insert_ne in Ex by done. eauto. }
    destruct (Hsk _ _ E1) as (y1 & Ey1 & L1). destruct (Hsk _ _ E2) as (y2 & Ey2 & L2). apply (I5 j1 j2 y1 y2); try done; [unfold labelled in *|]; congruence.
  - destruct HK. lia.
Qed.

Lemma passed_nil i s bs :
  gen_inv s -> i = length (buffers_ s) -> holds cap (gen_ s) bs -> Z.of_nat (length bs) = off (buffers_ s) i -> passed i 0 s s false bs [].
Proof.
  intros HI Hi HH Hl. split; try done.
  - intros j e' Ej. exists e', (el_addr e'), (el_size e'). by destruct e'.
  - simpl. by rewrite app_nil_r.
  - rewrite Nat.add_0_r, Hl. unfold off. by rewrite take_ge by lia.
  - lia.
  - intros j e' Hj Ej. apply lookup_lt_Some in Ej. lia.
  - intros _ Hs. split_and!; try done. by rewrite drop_ge by lia.
Qed.

Lemma pieces_ext l a f f' :
  (forall e p id, e ∈ l -> el_patch e = Some p -> id ∈ deps p -> f id = f' id) -> pieces l a f = pieces l a f'.
Proof.
  revert a. induction l as [|e l IH]; intros a Hf; simpl; [done|]. unfold padded.
  rewrite (piece_ext e a f f') by (intros p id Hp Hid; apply (Hf e p); [by left|done|done]). f_equal. apply IH. intros e' p id He. apply Hf. by right.
Qed.
Lemma patch_deps s e p id : gen_inv s -> e ∈ buffers_ s -> el_patch e = Some p -> id ∈ deps p -> id ∈ label_ids (buffers_ s).
Proof.
  intros HI He Hp Hid. pose proof (proj1 (Forall_forall _ _) (gi_elems _ HI) e He) as [_ Hpo]. rewrite Hp in Hpo. by apply Hpo.
Qed.

(** Element [i] first, and then the others. *)
Section Cons.
Context (i n : nat) (s : state) (e : elem) (bs : list (option Z)) (g : codeGen) (ls : list Label) (k : Z).
Let o := Z.of_nat (length bs).
Let f := pred_addr (relabel s e o).
Let pc := piece e (base + o) f.
Let m := Z.max (el_size e) (Z.of_nat (length pc)).
Let e1 := resized e (base + o) m.
Let s1 := generated_at s i e (base + o) m g ls k.
Context (r : bool) (s' : state) (ys : list Z).
Context (HI : gen_inv s) (Ei : buffers_ s !! i = Some e) (Ho : 0 <= o <= N) (Eo : o = off (buffers_ s) i) (Hp : same_place (gen_ s) g).
Context (HK : labels_kept (labels_ (relabel s e o)) (curLabelID_ s) ls k).
Context (HP : passed (S i) n s1 s' r (bs ++ (Some <$> padded e1 (base + o) f)) ys).

Local Lemma cons_grown : el_size e <= m <= cap_of e.
Proof.
  pose proof (proj1 (Forall_lookup _ _) (gi_elems _ HI) i e Ei) as [Hsz _]. pose proof (piece_length e (base + o) f) as Hpl. fold pc in Hpl. unfold m. lia.
Qed.
Local Lemma cons_padded : length (padded e1 (base + o) f) = Z.to_nat m.
Proof.
  pose proof cons_grown. apply Nat2Z.inj. rewrite padded_length by (simpl; change (piece e1 (base + o) f) with pc; unfold m; lia). simpl. lia.
Qed.
Local Lemma cons_here : buffers_ s1 !! i = Some e1.
Proof. pose proof (lookup_lt_Some _ _ _ Ei). by apply list_lookup_insert_eq. Qed.
Local Lemma cons_there j : j <> i -> buffers_ s1 !! j = buffers_ s !! j.
Proof. intros Hj. apply list_lookup_insert_ne. done. Qed.
Local Lemma cons_own : labelled e -> el_labelID e ∈ label_ids (buffers_ s).
Proof. intros Hle. apply elem_label_ids. exists e. split; [by eapply list_elem_of_lookup_2|done]. Qed.
Local Lemma cons_label id : id ∈ label_ids (buffers_ s) -> lab s1 id = if decide (labelled e /\ id = el_labelID e) then o else lab s id.
Proof. apply (after_elem s i e o m g ls k HI Ei Ho cons_grown Hp HK). Qed.
Local Lemma cons_other j x : buffers_ s !! j = Some x -> labelled x -> j <> i -> lab s1 (el_labelID x) = lab s (el_labelID x).
Proof.
  intros Ex Hx Hne. rewrite cons_label by (apply elem_label_ids; exists x; split; [by eapply list_elem_of_lookup_2|done]).
  destruct (decide _) as [[_ Hd]|Hd]; [|reflexivity]. by destruct (Hne (gi_nodup _ HI j i x e Ex Ei Hx Hd)).
Qed.

(** Nothing moved: the labels had their addresses before, and the element was generated for them. *)
Local Lemma cons_still id : moves s e o = false -> id ∈ label_ids (buffers_ s) -> lab s1 id = lab s id.
Proof.
  intros Hmv Hid. rewrite cons_label by done. destruct (decide _) as [[Hle ->]|Hd]; [|reflexivity]. unfold moves in Hmv.
  rewrite bool_decide_eq_true_2 in Hmv by done. simpl in Hmv. apply negb_false_iff, Z.eqb_eq in Hmv. done.
Qed.
Local Lemma cons_predicted x p id :
  moves s e o = false -> shift_ s = 0 -> x ∈ buffers_ s -> el_patch x = Some p -> id ∈ deps p -> f id = base + lab s id.
Proof.
  intros Hmv Hs Hx Hp' Hid. pose proof (patch_deps s x p id HI Hx Hp' Hid) as Hid'. pose proof (gi_labels _ HI id Hid') as Hlok.
  assert (labelled e -> label_ok s (el_labelID e)) as HO by (intros Hle; apply (gi_labels _ HI), cons_own, Hle).
  destruct (relabel_frame s e o) as (_ & _ & G3 & _ & _ & G6 & _).
  destruct (pred_addr_cases (relabel s e o) id) as (_ & _ & Hpr); [by apply label_ok_relabel; auto|rewrite G3; apply HI|rewrite G6; lia|].
  unfold f. rewrite Hpr by (by rewrite G6). f_equal. rewrite <- (cons_still id Hmv Hid'), (cons_label id Hid'). by apply lab_relabel.
Qed.
Local Lemma cons_quiet : moves s e o = false -> Z.of_nat (length pc) <= el_size e -> r = false -> shift_ s = 0 ->
  shift_ s' = 0 /\ (forall id, id ∈ label_ids (buffers_ s) -> lab s' id = lab s id) /\ el_size <$> buffers_ s' = el_size <$> buffers_ s /\
  padded e1 (base + o) f ++ ys = pieces (drop i (buffers_ s)) (base + o) (fun id => base + lab s id).
Proof.
  intros Hmv Hgr Hr Hs. assert (m = el_size e) as Em by (unfold m; lia).
  assert (shift_ s1 = 0) as Hs1 by (unfold s1; simpl; lia). destruct (pa_quiet _ _ _ _ _ _ _ HP Hr Hs1) as (R1 & R2 & R3 & R4).
  pose proof (fun id => cons_still id Hmv) as HLs. split_and!; [done| | |].
  - intros id Hid. rewrite R2; [by apply HLs|]. unfold s1. simpl. by rewrite (label_ids_insert _ _ e).
  - rewrite R3. apply (fmap_insert_same _ _ _ e); [done|]. simpl. done.
  - rewrite (drop_S _ _ _ Ei). simpl. rewrite R4. f_equal.
    + unfold padded. change (el_size e1) with m. rewrite Em. change (piece e1 (base + o) f) with (piece e (base + o) f).
      rewrite (piece_ext e (base + o) f (fun id => base + lab s id)); [done|]. intros p id. apply cons_predicted; [done..|]. by eapply list_elem_of_lookup_2.
    + rewrite length_app, length_fmap, cons_padded. replace (base + Z.of_nat (length bs + Z.to_nat m)) with (base + o + el_size e) by lia.
      unfold s1 at 1. simpl. rewrite drop_insert_lt by lia. apply pieces_ext. intros x p id Hx Hp' Hid. f_equal. apply HLs.
      apply (patch_deps s x p); try done. by eapply (subseteq_drop (S i)).
Qed.

Local Lemma cons_settled : el_size <$> buffers_ s' = el_size <$> buffers_ s ->
  (forall j x, (i <= j)%nat -> buffers_ s !! j = Some x -> labelled x -> lab s (el_labelID x) = off (buffers_ s) j) ->
  (moves s e o || (el_size e <? Z.of_nat (length pc))) || r = false.
Proof.
  intros Hsz' Hset. assert (m = el_size e) as Em.
  { assert (buffers_ s' !! i = Some e1) as Ei' by (rewrite (pa_done _ _ _ _ _ _ _ HP) by lia; apply cons_here).
    assert (Some (el_size e1) = Some (el_size e)) as [= Hx]; [|done].
    by rewrite <- (list_lookup_fmap_Some_2 el_size _ _ _ Ei'), Hsz', (list_lookup_fmap_Some_2 el_size _ _ _ Ei). }
  assert (el_size <$> buffers_ s1 = el_size <$> buffers_ s) as Es1 by (apply (fmap_insert_same _ _ _ e); done).
  rewrite (pa_settled _ _ _ _ _ _ _ HP); [|by rewrite Es1|].
  - rewrite orb_false_r. apply orb_false_intro; [|apply Z.ltb_ge; unfold m in Em; lia]. unfold moves. case_bool_decide as Hle; [|done]. simpl.
    apply negb_false_iff, Z.eqb_eq. rewrite Eo. by apply Hset.
  - intros j x Hj Ex Hx. rewrite cons_there in Ex by lia. rewrite (cons_other j x) by (done || lia). rewrite (off_sizes _ _ j Es1). apply Hset; done || lia.
Qed.

Lemma passed_cons : passed i (S n) s s' ((moves s e o || (el_size e <? Z.of_nat (length pc))) || r) bs (padded e1 (base + o) f ++ ys).
Proof.
  pose proof HP as [Q1 Q2 Q3 Q4 Q5 Q6 Q7 Q8 Q9 Q10 _ _]. pose proof cons_grown as Hm. split; try done.
  - by rewrite Q2; apply length_insert.
  - intros j e' Ej. destruct (Q3 j e' Ej) as (x & a & m' & Ex & -> & Hm'). destruct (decide (j = i)) as [->|Hne].
    + rewrite cons_here in Ex. injection Ex as <-. exists e, a, m'. split_and!; [done|done|]. simpl in Hm'. lia.
    + rewrite cons_there in Ex by done. by exists x, a, m'.
  - intros j Hj. rewrite Q4 by lia. apply cons_there. lia.
  - rewrite fmap_app, app_assoc. done.
  - rewrite <- Q6, !length_app, length_fmap. lia.
  - destruct HK as [Hk _]. change (curLabelID_ s1) with k in Q7. lia.
  - intros j e' Hj Ej. destruct (decide (j = i)) as [->|Hne]; [|apply Q9; [lia|done]].
    rewrite Q4 in Ej by lia. rewrite cons_here in Ej. injection Ej as <-.
    assert (off (buffers_ s') i = o) as ->.
    { unfold off. rewrite Eo. replace (take i (buffers_ s')) with (take i (buffers_ s)); [done|]. apply list_eq. intros j.
      destruct (decide (j < i)%nat); [|by rewrite !lookup_take_ge by lia]. rewrite !lookup_take_lt by lia. rewrite Q4 by lia. symmetry. apply cons_there. lia. }
    split; [done|]. intros Hle. rewrite (Q10 i e1) by (done || lia || apply cons_here). change (el_labelID e1) with (el_labelID e).
    rewrite cons_label by (by apply cons_own). by rewrite decide_True.
  - intros j x Hj Ex Hx. rewrite (Q10 j x) by (rewrite ?cons_there; done || lia). apply (cons_other j); done || lia.
  - intros Hr Hs. apply orb_false_elim in Hr as [Hr1 Hr2]. apply orb_false_elim in Hr1 as [Hmv Hgr]. zbool. by apply cons_quiet.
  - apply cons_settled.
Qed.
End Cons.

Lemma sizes_bounded (l : list elem) : (forall e, e ∈ l -> 0 <= el_size e <= cap_of e) -> 0 <= zsum el_size l /\ zsum el_size l <= zsum cap_of l.
Proof.
  induction l as [|e l IH]; intros Hl; [done|]. rewrite !zsum_cons. destruct IH as [? ?]; [intros x Hx; apply Hl; by right|].
  pose proof (Hl e ltac:(by left)). lia.
Qed.
Lemma generate_elems_run n : forall i d s bs,
  gen_inv s -> (i + n = length (buffers_ s))%nat -> holds cap (gen_ s) bs -> Z.of_nat (length bs) = off (buffers_ s) i ->
  0 <= shift_ s <= zsum cap_of (take i (buffers_ s)) -> curLabelID_ s + Z.of_nat n < 2 ^ 31 ->
  exists r s' ys, generate_elems n i d s = Ret ((true, d || r), s') /\ passed i n s s' r bs ys.
Proof.
  induction n as [|n IH]; intros i d s bs HI Hi HH Hl Hsh Hc.
  { exists false, s, []. rewrite orb_false_r. split; [done|]. apply passed_nil; done || lia. }
  destruct (lookup_lt_is_Some_2 (buffers_ s) i) as [e Ei]; [lia|]. set (o := Z.of_nat (length bs)) in *.
  pose proof (proj1 (Forall_lookup _ _) (gi_elems _ HI) i e Ei) as [Hsz _].
  pose proof (zsum_take_S cap_of _ _ _ Ei) as HcS. pose proof (zsum_take_le cap_of (buffers_ s) (S i) cap_of_nonneg) as Hcle.
  pose proof (gi_total _ HI) as Htot. pose proof (cap_of_nonneg e).
  assert (off (buffers_ s) i <= zsum cap_of (take i (buffers_ s)) /\ 0 <= off (buffers_ s) i) as [Hoff Hoff0].
  { destruct (sizes_bounded (take i (buffers_ s))) as [Ho1 Ho2]; [|done]. intros x Hx. by apply (proj1 (Forall_forall _ _) (gi_elems _ HI)), (subseteq_take i). }
  destruct (elem_run s i e bs HI Ei HH) as (g & ls & k & E & HH1 & Hp & HK); fold o; try lia. fold o in E, HH1, HK.
  set (f := pred_addr (relabel s e o)) in *. set (pc := piece e (base + o) f) in *. set (m := Z.max (el_size e) (Z.of_nat (length pc))) in *.
  set (s1 := generated_at s i e (base + o) m g ls k) in *. set (r1 := moves s e o || (el_size e <? Z.of_nat (length pc))) in *.
  pose proof (piece_length e (base + o) f) as Hpl. fold pc in Hpl.
  destruct (after_elem s i e o m g ls k HI Ei ltac:(lia) ltac:(unfold m; lia) Hp HK) as [HI1 _]. fold s1 in HI1.
  destruct (IH (S i) (d || r1) s1 (bs ++ (Some <$> padded (resized e (base + o) m) (base + o) f))) as (r & s' & ys & E' & HP); try done.
  - simpl. rewrite length_insert. lia.
  - rewrite length_app, length_fmap, Nat2Z.inj_add, padded_length by (simpl; change (piece (resized e (base + o) m) (base + o) f) with pc; unfold m; lia).
    simpl. rewrite (off_insert_S _ _ e) by done. simpl. lia.
  - simpl. rewrite (zsum_take_S _ _ _ (resized e (base + o) m)) by (apply list_lookup_insert_eq; by eapply lookup_lt_Some).
    rewrite take_insert_ge by lia. change (cap_of (resized e (base + o) m)) with (cap_of e). unfold m. lia.
  - simpl. destruct HK. lia.
  - exists (r1 || r), s', (padded (resized e (base + o) m) (base + o) f ++ ys). split.
    + cbn [generate_elems]. rewrite bind_gets, Ei, (bind_ret _ _ _ _ _ E). cbn [negb fst snd]. by rewrite orb_assoc.
    + apply (passed_cons i n s e bs g ls k); done || lia.
Qed.

(** ** All rounds *)

Lemma gen_inv_fields s s' :
  startAddr (gen_ s') = base -> aWidth (gen_ s') = 8 -> buffers_ s' = buffers_ s -> labels_ s' = labels_ s -> curLabelID_ s' = curLabelID_ s ->
  gen_inv s -> gen_inv s'.
Proof.
  intros E1 E2 E3 E4 E5 [I1 I2 I3 I4 I5 I6 I7]. split; rewrite ?E3, ?E5; try done. intros id Hid. apply (label_ok_same s); auto.
Qed.

Definition rounds_state (s : state) (g : codeGen) : state :=
  mk_buf (buffers_ s) (cb_size s) g (curIteration_ s + 1) (labels_ s) (curLabelID_ s) 0 (generated_ s).

Lemma generate_once_run s :
  gen_inv s -> 0 <= cb_size s <= cap -> curLabelID_ s + Z.of_nat (length (buffers_ s)) < 2 ^ 31 ->
  exists r s' ys g, generate_once s = Ret ((true, r), s') /\ passed 0 (length (buffers_ s)) (rounds_state s g) s' r [] ys.
Proof.
  intros HI Hsz Hc. pose proof cap_small as Hcs. pose proof HI as [I1 I2 _ _ _ _ _].
  set (g := fresh (gen_ s) (cb_size s)). pose proof (fresh_holds cap (gen_ s) (cb_size s) Hsz) as HH. fold g in HH.
  destruct (generate_elems_run (length (buffers_ s)) 0 false (rounds_state s g) []) as (r & s' & ys & E & HP);
    [by apply (gen_inv_fields s)|done|done|done|..].
  { split; done. } { simpl. lia. }
  exists r, s', ys, g. split; [|done]. unfold generate_once. rewrite bind_gets.
  set (sa := mk_buf (buffers_ s) (cb_size s) (gen_ s) (curIteration_ s + 1) (labels_ s) (curLabelID_ s) (shift_ s) (generated_ s)).
  rewrite (bind_ret _ _ s tt sa), (bind_ret _ _ sa tt (rounds_state s (gen_ s))) by reflexivity.
  rewrite (bind_ret _ _ _ tt (rounds_state s (emptied (gen_ s)))), bind_gets by reflexivity.
  rewrite (bind_ret _ _ _ tt (rounds_state s g)), bind_gets; [exact E|].
  unfold lift. cbn [eget buf_gen gen_ rounds_state cb_size]. rewrite (allocate_run cap Hcap) by done. done.
Qed.

(** The elements keep what they are, but for their addresses and sizes. *)
Definition skeleton (e : elem) : list Z * option P * Z * tracker_map := (el_buffer e, el_patch e, el_labelID e, el_trackers e).
Lemma passed_skeleton i n s s' r bs ys : passed i n s s' r bs ys -> skeleton <$> buffers_ s' = skeleton <$> buffers_ s.
Proof.
  intros HP. apply list_eq. intros j. rewrite !list_lookup_fmap. destruct (buffers_ s' !! j) as [e'|] eqn:Ej.
  - destruct (pa_skel _ _ _ _ _ _ _ HP j e' Ej) as (e & a & m & -> & -> & _). done.
  - apply lookup_ge_None in Ej. rewrite (pa_len _ _ _ _ _ _ _ HP) in Ej. by rewrite (proj2 (lookup_ge_None _ _) Ej).
Qed.
Lemma skeleton_caps (l l' : list elem) : skeleton <$> l = skeleton <$> l' -> cap_of <$> l = cap_of <$> l'.
Proof.
  revert l'. induction l as [|e l IH]; intros [|e' l'] E; try done. injection E as E1 E2 E3 E4 E5. simpl. f_equal; [unfold cap_of; congruence|by apply IH].
Qed.
Lemma skeleton_ids (l l' : list elem) : skeleton <$> l = skeleton <$> l' -> label_ids l = label_ids l'.
Proof.
  intros E. unfold label_ids. f_equal. revert l' E. induction l as [|e l IH]; intros [|e' l'] E; try done. injection E as E1 E2 E3 E4 E5. simpl. f_equal; [done|by apply IH].
Qed.
Lemma pieces_skeleton (l l' : list elem) a f : skeleton <$> l = skeleton <$> l' -> el_size <$> l = el_size <$> l' -> pieces l a f = pieces l' a f.
Proof.
  revert l' a. induction l as [|e l IH]; intros [|e' l'] a E E'; try done. injection E as E1 E2 E3 E4 E5. injection E' as F1 F2.
  simpl. unfold padded, piece. rewrite E1, E2, F1. f_equal. by apply IH.
Qed.

Definition settled (s : state) : Prop :=
  forall j e, buffers_ s !! j = Some e -> labelled e -> lab s (el_labelID e) = off (buffers_ s) j.
Definition slack (s : state) : Z := zsum cap_of (buffers_ s) - zsum el_size (buffers_ s).

(** The state and the code of the last round. *)
Record final (s s' : state) (ys : list Z) : Prop := {
  fi_inv : gen_inv s';
  fi_skel : skeleton <$> buffers_ s' = skeleton <$> buffers_ s;
  fi_holds : holds cap (gen_ s') (Some <$> ys);
  fi_code : ys = pieces (buffers_ s') base (fun id => base + lab s' id);
  fi_total : Z.of_nat (length ys) = zsum el_size (buffers_ s');
  fi_settled : settled s';
  fi_addr : forall j e, buffers_ s' !! j = Some e -> el_addr e = base + off (buffers_ s') j;
  fi_shift : shift_ s' = 0
}.

Lemma passed_final s g s' ys : passed 0 (length (buffers_ s)) (rounds_state s g) s' false [] ys -> final s s' ys.
Proof.
  intros HP. pose proof HP as [Q1 Q2 Q3 Q4 Q5 Q6 Q7 Q8 Q9 Q10 Q11 Q12]. destruct (Q11 eq_refl eq_refl) as (R1 & R2 & R3 & R4).
  pose proof (passed_skeleton _ _ _ _ _ _ _ HP) as Hsk. simpl in Hsk, R3, R4, Q6. split; try done.
  - rewrite R4. simpl. rewrite Z.add_0_r. rewrite (pieces_skeleton (buffers_ s) (buffers_ s')) by done. apply pieces_ext.
    intros e p id He Hp Hid. f_equal. symmetry. apply R2. simpl. rewrite <- (skeleton_ids (buffers_ s') (buffers_ s)) by done. by eapply patch_deps.
  - intros j e Ej. by apply (Q9 j e ltac:(lia) Ej).
  - intros j e Ej. by apply (Q9 j e ltac:(lia) Ej).
Qed.

(** Sizes only grow; when none does, they are the same. *)
Lemma sizes_grow (l l' : list elem) :
  length l = length l' -> (forall j e e', l !! j = Some e -> l' !! j = Some e' -> el_size e <= el_size e') ->
  zsum el_size l <= zsum el_size l' /\ (zsum el_size l' <= zsum el_size l -> el_size <$> l' = el_size <$> l).
Proof.
  revert l'. induction l as [|e l IH]; intros [|e' l'] Hl Hj; try done. rewrite !zsum_cons.
  destruct (IH l') as [H1 H2]; [by injection Hl|by intros j; apply (Hj (S j))|]. pose proof (Hj 0%nat e e' eq_refl eq_refl).
  split; [lia|]. intros Hle. simpl. f_equal; [lia|]. apply H2. lia.
Qed.
Lemma passed_sizes i n s s' r bs ys :
  passed i n s s' r bs ys -> zsum el_size (buffers_ s) <= zsum el_size (buffers_ s') /\
    (zsum el_size (buffers_ s') <= zsum el_size (buffers_ s) -> el_size <$> buffers_ s' = el_size <$> buffers_ s).
Proof.
  intros HP. apply sizes_grow; [by rewrite (pa_len _ _ _ _ _ _ _ HP)|]. intros j e e' Ej Ej'.
  destruct (pa_skel _ _ _ _ _ _ _ HP j e' Ej') as (x & a & m & Ex & -> & Hm). simpl. congruence.
Qed.

(** How many labels the rounds from [s] to [s'] may have defined. *)
Definition labels_used (s s' : state) (c : Z) : Prop :=
  slack s' <= slack s /\ curLabelID_ s <= curLabelID_ s' <= curLabelID_ s + (2 * (slack s - slack s') + c) * Z.of_nat (length (buffers_ s)).
Lemma passed_used n s g s1 r ys (s0 := rounds_state s g) : passed 0 n s0 s1 r [] ys -> n = length (buffers_ s) ->
  slack s1 = slack s - (zsum el_size (buffers_ s1) - zsum el_size (buffers_ s)) /\ length (buffers_ s1) = length (buffers_ s) /\
  curLabelID_ s <= curLabelID_ s1 <= curLabelID_ s + Z.of_nat (length (buffers_ s)) /\ 0 <= slack s1.
Proof.
  intros HP ->. pose proof (passed_skeleton _ _ _ _ _ _ _ HP) as Hsk. pose proof (pa_next _ _ _ _ _ _ _ HP) as Hnx. simpl in Hsk, Hnx.
  assert (zsum cap_of (buffers_ s1) = zsum cap_of (buffers_ s)) as Ecap by (apply zsum_fmap; by apply skeleton_caps).
  destruct (sizes_bounded (buffers_ s1)) as [_ Hb]; [intros e He; by apply (proj1 (Forall_forall _ _) (gi_elems _ (pa_inv _ _ _ _ _ _ _ HP)))|].
  split_and!; try lia; [unfold slack; lia|apply HP|unfold slack; lia].
Qed.
Lemma labels_used_step s s1 s' c c' d : labels_used s1 s' c -> slack s1 = slack s - d -> length (buffers_ s1) = length (buffers_ s) ->
  curLabelID_ s <= curLabelID_ s1 <= curLabelID_ s + Z.of_nat (length (buffers_ s)) -> 0 <= d -> c + 1 <= 2 * d + c' -> labels_used s s' c'.
Proof. intros [U1 U2] Es El Hc Hd Hcc. rewrite El in U2. split; [lia|nia]. Qed.

(** In [k] rounds or fewer, while the labels that patches define fit an int. *)
Lemma generate_loop_run (k : nat) : forall s rounds,
  gen_inv s -> 0 <= cb_size s <= cap -> 2 * slack s < Z.of_nat k \/ (settled s /\ 2 * slack s <= Z.of_nat k) ->
  curLabelID_ s + (Z.of_nat k + 1) * Z.of_nat (length (buffers_ s)) < 2 ^ 31 -> (k < rounds)%nat ->
  exists s' ys, generate_loop rounds s = Ret (true, s') /\ final s s' ys /\ labels_used s s' 2 /\ (settled s -> labels_used s s' 1).
Proof.
  induction k as [k IH] using lt_wf_ind. intros s rounds HI Hsz Hm Hc Hr. destruct rounds as [|rounds]; [lia|].
  destruct (generate_once_run s HI Hsz) as (r & s1 & ys & g & E & HP); [nia|]. cbn [generate_loop]. rewrite (bind_ret _ _ _ _ _ E). cbn [negb fst snd].
  pose proof (passed_sizes _ _ _ _ _ _ _ HP) as [Hge Hsame]. pose proof (passed_skeleton _ _ _ _ _ _ _ HP) as Hsk. simpl in Hge, Hsame, Hsk.
  destruct (passed_used _ _ _ _ _ _ HP eq_refl) as (Esl & Eln & Hnx & Hsl0).
  destruct r; [|exists s1, ys; split; [done|]; split; [by apply (passed_final s g)|]; split; [|intros _]; (split; [lia|nia])].
  destruct (Z.le_gt_cases (zsum el_size (buffers_ s1)) (zsum el_size (buffers_ s))) as [Hno|Hgrew].
  - (* no size grew: the labels are now settled *)
    assert (~ settled s) as Hns.
    { intros Hst. specialize (pa_settled _ _ _ _ _ _ _ HP (Hsame Hno)). intros Hf. enough (true = false) by done. apply Hf. intros j e _ Ej Hl. by apply Hst. }
    destruct Hm as [Hm|[? _]]; [|done]. destruct k as [|k]; [lia|].
    assert (settled s1) as Hst1 by (intros j e Ej; by apply (pa_addr _ _ _ _ _ _ _ HP j e ltac:(lia) Ej)).
    destruct (IH k ltac:(lia) s1 rounds) as (s' & ys' & E' & HF & _ & HU); [apply HP|by rewrite (proj1 (proj2 (pa_rest _ _ _ _ _ _ _ HP)))| |rewrite Eln; nia|lia|].
    + right. split; [done|lia].
    + exists s', ys'. split; [done|]. split; [destruct HF; split; try done; by rewrite fi_skel0|]. split; [|done]. apply (labels_used_step s s1 s' 1 2 0); auto; lia.
  - destruct k as [|k]; [exfalso; destruct Hm as [Hm|[_ Hm]]; lia|].
    destruct (IH k ltac:(lia) s1 rounds) as (s' & ys' & E' & HF & HU & _); [apply HP|by rewrite (proj1 (proj2 (pa_rest _ _ _ _ _ _ _ HP)))| |rewrite Eln; nia|lia|].
    + left. destruct Hm as [Hm|[_ Hm]]; lia.
    + exists s', ys'. split; [done|]. split; [destruct HF; split; try done; by rewrite fi_skel0|].
      split; [|intros _]; (eapply (labels_used_step s s1 s' 2); [exact HU|exact Esl|done|done|lia|lia]).
Qed.
End Generation.
