(* ===== verification/CodeLayout.v ===== *)
(** * From the pieces a client adds to the code in memory

    A client of a CodeBuffer adds labels, bytes and patches; [laid] is what it may
    expect: the pieces lie one behind the other, with padding only behind patches,
    every label has the address where it was put, and every patch is its code for
    those addresses.  CodeBufferOk is about the elements of the buffer; here they
    are related to what was added. *)
From stdpp Require Import base gmap list.
From S2P Require Import Prelude CodeGen CodeGenOk CodeTracker CodeBuffer CodeBufferOk.
Import codegen codeTracker codeBuffer.

Inductive item (P : Type) : Type :=
| ILabel
| IPIC (bs : list Z) (tracker : option TrackerElement)
| IPatch (p : P) (tracker : option TrackerElement).
Arguments ILabel {P}.
Arguments IPIC {P} bs tracker.
Arguments IPatch {P} p tracker.

(** The numbers of new labels are returned. *)
Definition add_item {P} `{Patch P} (it : item P) : M (CodeBuffer P) (list Z) :=
  match it with
  | ILabel => id ← getLabel ; mret [id]
  | IPIC bs t => addPIC bs t ;; mret []
  | IPatch p t => addPatch p t ;; mret []
  end.

(** Code of a known tracker: the tracker, its address and its size. *)
Definition span : Type := option TrackerElement * Z * Z.
Definition add_span (t : option TrackerElement) (a n : Z) (sp : list span) : list span := if n =? 0 then sp else (t, a, n) :: sp.

Section Spec.
Context {P : Type} `{PatchLaws P}.

(** The items from address [a] on, the next label having number [n]. *)
Inductive laid (f : Z -> Z) : list (item P) -> Z -> Z -> list Z -> list span -> Prop :=
| laid_nil n a : laid f [] n a [] []
| laid_label l n a bs sp : f n = a -> laid f l (n + 1) a bs sp -> laid f (ILabel :: l) n a bs sp
| laid_pic xs t l n a bs sp :
    laid f l n (a + Z.of_nat (length xs)) bs sp ->
    laid f (IPIC xs t :: l) n a (xs ++ bs) (add_span t a (Z.of_nat (length xs)) sp)
| laid_patch p t k l n a bs sp :
    Z.of_nat (length (code p a f) + k) <= bound p -> laid f l n (a + Z.of_nat (length (code p a f) + k)) bs sp ->
    laid f (IPatch p t :: l) n a (code p a f ++ replicate k NOP ++ bs) (add_span t a (Z.of_nat (length (code p a f) + k)) sp).

Definition is_label (it : item P) : Z := match it with ILabel => 1 | _ => 0 end.
Abbreviation labels l := (zsum is_label l).
Definition item_cap (it : item P) : Z := match it with ILabel => 0 | IPIC bs _ => Z.of_nat (length bs) | IPatch p _ => bound p end.
Definition item_estimate (it : item P) : Z := match it with ILabel => 0 | IPIC bs _ => Z.of_nat (length bs) | IPatch p _ => estimate p end.

Lemma add_span_app t a n sp sp' : add_span t a n sp ++ sp' = add_span t a n (sp ++ sp').
Proof. unfold add_span. by case_match. Qed.

Lemma laid_at f l n n' a a' bs sp : laid f l n a bs sp -> n = n' -> a = a' -> laid f l n' a' bs sp.
Proof. by intros ? -> ->. Qed.

Lemma laid_app f l1 l2 n a bs1 sp1 bs2 sp2 :
  laid f l1 n a bs1 sp1 -> laid f l2 (n + labels l1) (a + Z.of_nat (length bs1)) bs2 sp2 ->
  laid f (l1 ++ l2) n a (bs1 ++ bs2) (sp1 ++ sp2).
Proof.
  intros H1. revert l2 bs2 sp2. induction H1 as [n a|l n a bs sp Hf H1 IH|xs t l n a bs sp H1 IH|p t k l n a bs sp Hk H1 IH]; intros l2 bs2 sp2 H2.
  - simpl in *. by rewrite zsum_nil, !Z.add_0_r in H2.
  - apply laid_label; [done|]. apply IH. eapply laid_at; [exact H2|rewrite zsum_cons; simpl; lia|done].
  - simpl. rewrite <- app_assoc, add_span_app. apply laid_pic, IH. eapply laid_at; [exact H2|rewrite zsum_cons; simpl; lia|rewrite length_app; lia].
  - simpl. rewrite <- !app_assoc, add_span_app. apply laid_patch; [done|]. apply IH.
    eapply laid_at; [exact H2|rewrite zsum_cons; simpl; lia|rewrite !length_app, length_replicate; lia].
Qed.

(** ** The spans of an element *)

Definition first_off (l : tracker_map) (d : Z) : Z := match l with (o, _) :: _ => o | [] => d end.
Fixpoint spans_of (l : tracker_map) (a fin : Z) : list span :=
  match l with
  | [] => []
  | (o, t) :: l' => add_span t (a + o) (first_off l' fin - o) (spans_of l' a fin)
  end.

(** Strictly increasing offsets up to [k]. *)
Fixpoint offsets (l : tracker_map) (from k : Z) : Prop :=
  match l with [] => True | (o, _) :: l' => from <= o <= k /\ offsets l' (o + 1) k end.

Lemma offsets_weaken l from from' k k' : from' <= from -> k <= k' -> offsets l from k -> offsets l from' k'.
Proof. revert from from'. induction l as [|[o t] l IH]; simpl; [done|]. intros from from' Hf Hk [? ?]. split; [lia|]. by apply (IH (o + 1)). Qed.

Lemma map_set_spans l k t a fin from :
  offsets l from k -> from <= k -> spans_of (map_set k t l) a fin = spans_of l a k ++ add_span t (a + k) (fin - k) [] /\
    offsets (map_set k t l) from k /\ forall d, first_off (map_set k t l) d = first_off l k.
Proof.
  revert from. induction l as [|[o t'] l IH]; intros from Hl Hk; simpl; [by split_and!; [..|lia|lia| |]|]. destruct Hl as [Ho Hl].
  rewrite (proj2 (Z.ltb_ge k o)) by lia. destruct (k =? o) eqn:Ek; zbool.
  - subst o. destruct l as [|[o2 t2] l]; [|simpl in Hl; lia]. unfold add_span. simpl. rewrite Z.sub_diag. by split_and!; [..|lia|lia| |].
  - destruct (IH (o + 1)) as (E1 & E2 & E3); [done|lia|]. simpl. rewrite E1, E3, add_span_app. by split_and!; [..|lia|lia| |].
Qed.

(** ** Elements and items *)

Definition elem_laid (f : Z -> Z) (e : BufferElement P) (a : Z) (bs : list Z) (sp : list span) : Prop :=
  (labelled e -> f (el_labelID e) = a) /\
  (exists k, bs = piece e a f ++ replicate k NOP /\ (el_patch e = None -> k = 0%nat)) /\ Z.of_nat (length bs) <= cap_of e /\
  sp = spans_of (el_trackers e) a (Z.of_nat (length bs)).
Fixpoint elems_laid (f : Z -> Z) (l : list (BufferElement P)) (a : Z) (bs : list Z) (sp : list span) : Prop :=
  match l with
  | [] => bs = [] /\ sp = []
  | e :: l' => exists b1 s1 b2 s2, elem_laid f e a b1 s1 /\ elems_laid f l' (a + Z.of_nat (length b1)) b2 s2 /\ bs = b1 ++ b2 /\ sp = s1 ++ s2
  end.

Lemma elems_laid_app f l1 l2 a bs sp :
  elems_laid f (l1 ++ l2) a bs sp <->
  exists b1 s1 b2 s2, elems_laid f l1 a b1 s1 /\ elems_laid f l2 (a + Z.of_nat (length b1)) b2 s2 /\ bs = b1 ++ b2 /\ sp = s1 ++ s2.
Proof.
  revert a bs sp. induction l1 as [|e l1 IH]; intros a bs sp; simpl.
  { split; [intros Hl; exists [], [], bs, sp; simpl; by rewrite Z.add_0_r|]. intros (b1 & s1 & b2 & s2 & [-> ->] & Hl & -> & ->). simpl in *. by rewrite Z.add_0_r in Hl. }
  split.
  - intros (b1 & s1 & b2 & s2 & He & Hl & -> & ->). apply IH in Hl as (b3 & s3 & b4 & s4 & H3 & H4 & -> & ->).
    exists (b1 ++ b3), (s1 ++ s3), b4, s4. rewrite length_app, Nat2Z.inj_add, Z.add_assoc, !app_assoc. split_and!; try done. by exists b1, s1, b3, s3.
  - intros (b1 & s1 & b2 & s2 & (b3 & s3 & b4 & s4 & H3 & H4 & -> & ->) & H2 & -> & ->).
    exists b3, s3, (b4 ++ b2), (s4 ++ s2). rewrite !app_assoc. split_and!; try done. apply IH. rewrite length_app, Nat2Z.inj_add, Z.add_assoc in H2. by exists b4, s4, b2, s2.
Qed.
Lemma elems_laid_one f e a bs sp : elems_laid f [e] a bs sp <-> elem_laid f e a bs sp.
Proof.
  simpl. split; [intros (? & ? & ? & ? & H1 & [-> ->] & -> & ->); by rewrite !app_nil_r|]. intros He. exists bs, sp, [], []. by rewrite !app_nil_r.
Qed.
Lemma elems_laid_skeleton f l l' a bs sp : skeleton <$> l = skeleton <$> l' -> elems_laid f l a bs sp -> elems_laid f l' a bs sp.
Proof.
  revert l' a bs sp. induction l as [|e l IH]; intros [|e' l'] a bs sp E; try done. injection E as E1 E2 E3 E4 E5. simpl.
  intros (b1 & s1 & b2 & s2 & (Q1 & Q2 & Q3 & Q4) & Hl & -> & ->). exists b1, s1, b2, s2. split_and!; [|by apply IH|done..].
  unfold elem_laid, labelled, piece, cap_of in *. by rewrite <- E1, <- E2, <- E3, <- E4.
Qed.

(** Replacing the last element, and what that adds. *)
Definition grows (it : item P) (n : Z) (e e' : BufferElement P) : Prop :=
  forall f a bs sp, elem_laid f e' a bs sp -> exists b1 s1 b2 s2, elem_laid f e a b1 s1 /\
    laid f [it] n (a + Z.of_nat (length b1)) b2 s2 /\ bs = b1 ++ b2 /\ sp = s1 ++ s2.

Lemma grows_laid it items pre e e' :
  grows it (1 + labels items) e e' ->
  (forall f a bs sp, elems_laid f (pre ++ [e]) a bs sp -> laid f items 1 a bs sp) ->
  forall f a bs sp, elems_laid f (pre ++ [e']) a bs sp -> laid f (items ++ [it]) 1 a bs sp.
Proof.
  intros Hg Hl f a bs sp Hx. apply elems_laid_app in Hx as (b1 & s1 & b2 & s2 & H1 & H2 & -> & ->). apply elems_laid_one in H2.
  destruct (Hg _ _ _ _ H2) as (b3 & s3 & b4 & s4 & H3 & H4 & -> & ->). rewrite !app_assoc. apply laid_app.
  - apply Hl, elems_laid_app. exists b1, s1, b3, s3. by rewrite elems_laid_one.
  - by rewrite length_app, Nat2Z.inj_add, Z.add_assoc.
Qed.

Lemma elem_new_laid f a bs sp : elem_laid f elem_new a bs sp -> bs = [] /\ sp = [].
Proof. intros (_ & (k & -> & Hk) & _ & ->). rewrite (Hk eq_refl). done. Qed.

Definition tracked (e : BufferElement P) : Prop := offsets (el_trackers e) 0 (Z.of_nat (length (el_buffer e))).

Lemma elem_addTracker_spans t e a n :
  tracked e -> spans_of (el_trackers (elem_addTracker t e)) a n =
    spans_of (el_trackers e) a (Z.of_nat (length (el_buffer e))) ++ add_span t (a + Z.of_nat (length (el_buffer e))) (n - Z.of_nat (length (el_buffer e))) [].
Proof. intros Ht. by destruct (map_set_spans _ _ t a n 0 Ht ltac:(lia)) as (E & _ & _). Qed.
Lemma elem_addTracker_tracked t e : tracked e -> tracked (elem_addTracker t e).
Proof. intros Ht. by destruct (map_set_spans _ _ t 0 0 0 Ht ltac:(lia)) as (_ & ? & _). Qed.

Lemma no_patch_laid f e a bs sp : el_patch e = None ->
  elem_laid f e a bs sp <-> (labelled e -> f (el_labelID e) = a) /\ bs = el_buffer e /\ sp = spans_of (el_trackers e) a (Z.of_nat (length (el_buffer e))).
Proof.
  intros Ep. unfold elem_laid, piece. rewrite Ep. simpl. rewrite app_nil_r. split.
  - intros (Q1 & (k & -> & Hk) & _ & ->). rewrite (Hk eq_refl), app_nil_r. done.
  - intros (Q1 & -> & ->). split_and!; [done| |unfold cap_of; rewrite Ep; simpl; lia|done]. exists 0%nat. by rewrite app_nil_r.
Qed.

Lemma grows_label n e : n <> INVALID -> elem_empty e = true ->
  grows ILabel n e (mk_elem (el_addr e) (el_size e) (el_buffer e) (el_patch e) n (el_trackers e)).
Proof.
  intros Hn. unfold elem_empty. destruct (el_patch e) eqn:Ep; [done|]. destruct (el_labelID e =? INVALID) eqn:El; simpl; [|done]. intros Eb%bool_decide_eq_true. zbool.
  intros f a bs sp (Q1 & -> & ->)%no_patch_laid; [|done]. simpl in *.
  exists [], (spans_of (el_trackers e) a 0), [], []. rewrite Eb, Z.add_0_r, !app_nil_r. split_and!; [|by apply laid_label, laid_nil; auto|done..].
  apply no_patch_laid; [done|]. rewrite Eb. split_and!; [|done..]. unfold labelled. by intros ?.
Qed.

Lemma grows_pic n xs t e : el_patch e = None -> tracked e -> grows (IPIC xs t) n e (elem_addPIC xs t e).
Proof.
  intros Ep Ht f a bs sp (Q1 & -> & ->)%no_patch_laid; [|done]. exists (el_buffer e), (spans_of (el_trackers e) a (Z.of_nat (length (el_buffer e)))), (xs ++ []), (add_span t (a + Z.of_nat (length (el_buffer e))) (Z.of_nat (length xs)) []).
  split_and!; [by apply no_patch_laid|by apply laid_pic, laid_nil|by rewrite app_nil_r|].
  simpl. rewrite (elem_addTracker_spans t e) by done. do 2 f_equal. rewrite length_app. lia.
Qed.

Lemma grows_patch n p t e : el_patch e = None -> tracked e ->
  grows (IPatch p t) n e (mk_elem (el_addr e) (el_size e) (el_buffer e) (Some p) (el_labelID e) (el_trackers (elem_addTracker t e))).
Proof.
  intros Ep Ht f a bs sp (Q1 & (k & -> & _) & Hcap & ->). unfold cap_of, piece in Hcap. simpl in Hcap. rewrite !length_app, length_replicate in Hcap. set (b := Z.of_nat (length (el_buffer e))). unfold piece. simpl. fold b.
  exists (el_buffer e), (spans_of (el_trackers e) a b), (code p (a + b) f ++ replicate k NOP ++ []), (add_span t (a + b) (Z.of_nat (length (code p (a + b) f) + k)) []).
  split_and!; [by apply no_patch_laid|apply laid_patch; [fold b in Hcap; lia|apply laid_nil]|by rewrite app_nil_r, app_assoc|].
  rewrite (elem_addTracker_spans t e) by done. fold b. do 2 f_equal. rewrite !length_app, length_replicate. lia.
Qed.
End Spec.
