(* ===== verification/CodeBuild.v ===== *)
(** * Building a buffer and generating it

    The state while items are added, [built], and the theorem on the whole life of a
    buffer: it is initialized, any items are added, and it is generated at an
    address. *)
From stdpp Require Import base gmap list.
From S2P Require Import Prelude CodeGen CodeGenOk CodeTracker CodeBuffer CodeBufferOk CodeLayout.
Import codegen codeTracker codeBuffer.

Section Build.
Context {P : Type} `{PatchLaws P}.
Abbreviation elem := (BufferElement P).
Abbreviation state := (CodeBuffer P).
Abbreviation labels l := (zsum is_label l).

(** Adding items; the numbers of the labels are returned. *)
Fixpoint add_items (l : list (item P)) : M state (list Z) :=
  match l with
  | [] => mret []
  | it :: l' => ids ← add_item it ; ids' ← add_items l' ; mret (ids ++ ids')
  end.

Record elems_built (items : list (item P)) (l : list elem) : Prop := {
  eb_laid : forall f a bs sp, elems_laid f l a bs sp -> laid f items 1 a bs sp;
  eb_elems : Forall (fun e => el_size e = 0 /\ tracked e) l;
  eb_ids : label_ids l = seqZ 1 (labels items);
  eb_cap : zsum cap_of l = zsum item_cap items;
  eb_patches : forall e p, e ∈ l -> el_patch e = Some p -> exists t, IPatch p t ∈ items
}.

Record built (items : list (item P)) (s : state) : Prop := {
  bu_elems : elems_built items (buffers_ s);
  bu_count : (length (buffers_ s) <= length items)%nat;
  bu_next : curLabelID_ s = 1 + labels items;
  bu_labels : forall id, 0 < id <= labels items -> exists lb, labels_ s !! Z.to_nat id = Some lb /\ lb_type lb = Relative /\ 0 <= lb_addr lb <= cb_size s;
  bu_size : cb_size s = zsum item_estimate items;
  bu_width : aWidth (gen_ s) = 8
}.

(** ** One item more *)

Lemma is_label_nonneg (it : item P) : 0 <= is_label it.
Proof. by destruct it. Qed.
Lemma labels_nonneg (l : list (item P)) : 0 <= labels l.
Proof. apply zsum_nonneg. intros. apply is_label_nonneg. Qed.
Lemma zsum_snoc {A} (f : A -> Z) l x : zsum f (l ++ [x]) = zsum f l + f x.
Proof. rewrite zsum_app, zsum_cons, zsum_nil. lia. Qed.
Lemma label_ids_app (l1 l2 : list elem) : label_ids (l1 ++ l2) = label_ids l1 ++ label_ids l2.
Proof. unfold label_ids. by rewrite fmap_app, filter_app. Qed.

Lemma elems_built_new items l : elems_built items l -> elems_built items (l ++ [elem_new]).
Proof.
  intros [B1 B2 B3 B4 B5]. split.
  - intros f a bs sp (b1 & s1 & b2 & s2 & H1 & H2 & -> & ->)%elems_laid_app. apply elems_laid_one in H2. apply elem_new_laid in H2 as [-> ->].
    rewrite !app_nil_r. by apply B1.
  - apply Forall_app. split; [done|]. by apply Forall_singleton.
  - rewrite label_ids_app. change (label_ids [elem_new]) with (@nil Z). by rewrite app_nil_r.
  - rewrite zsum_snoc. change (cap_of elem_new) with 0. lia.
  - intros e p He. apply elem_of_app in He as [He|He%list_elem_of_singleton]; [by apply B5|]. by subst.
Qed.

Lemma elems_built_last items pre e e' it :
  elems_built items (pre ++ [e]) -> grows it (1 + labels items) e e' -> el_size e' = 0 -> tracked e' -> cap_of e' = cap_of e + item_cap it ->
  label_ids [e'] = label_ids [e] ++ seqZ (1 + labels items) (is_label it) ->
  (forall p, el_patch e' = Some p -> el_patch e = Some p \/ exists t, it = IPatch p t) -> elems_built (items ++ [it]) (pre ++ [e']).
Proof.
  intros [B1 B2 B3 B4 B5] Hg H1 H2 H3 H4 H5. pose proof (labels_nonneg items). pose proof (is_label_nonneg it). split.
  - by apply (grows_laid it items pre e).
  - apply Forall_app in B2 as [B2 _]. apply Forall_app. split; [done|]. by apply Forall_singleton.
  - rewrite label_ids_app in B3 |- *. rewrite H4, app_assoc, B3, zsum_snoc. by rewrite seqZ_app by done.
  - rewrite !zsum_snoc in *. lia.
  - intros x p Hx Ep. apply elem_of_app in Hx as [Hx|Hx%list_elem_of_singleton].
    + destruct (B5 x p) as [t Ht]; [by apply elem_of_app; left|done|]. exists t. apply elem_of_app. by left.
    + subst x. destruct (H5 p Ep) as [E|[t ->]].
      * destruct (B5 e p) as [t Ht]; [apply elem_of_app; right; by apply list_elem_of_singleton|done|]. exists t. apply elem_of_app. by left.
      * exists t. apply elem_of_app. right. by apply list_elem_of_singleton.
Qed.

(** The last element, which takes more, once [current] or [getLabel] has opened it. *)
Definition with_bufs (s : state) (l : list elem) : state :=
  mk_buf l (cb_size s) (gen_ s) (curIteration_ s) (labels_ s) (curLabelID_ s) (shift_ s) (generated_ s).
Definition opened (items : list (item P)) (pre : list elem) (e : elem) : Prop :=
  elems_built items (pre ++ [e]) /\ (length pre <= length items)%nat.

Lemma last_cases items s (m : M state unit) (reuse : elem -> bool) :
  elems_built items (buffers_ s) -> (length (buffers_ s) <= length items)%nat ->
  m s = (match last (buffers_ s) with
         | Some e => if reuse e then mret tt else set_buffers (buffers_ s ++ [elem_new])
         | None => set_buffers (buffers_ s ++ [elem_new])
         end) s ->
  reuse elem_new = true ->
  exists pre e, m s = Ret (tt, with_bufs s (pre ++ [e])) /\ opened items pre e /\ reuse e = true.
Proof.
  intros B1 B2 -> Hn.
  assert (exists pre e, set_buffers (buffers_ s ++ [elem_new]) s = Ret (tt, with_bufs s (pre ++ [e])) /\ opened items pre e /\ reuse e = true) as Hpush.
  { exists (buffers_ s), elem_new. split_and!; [done| |done]. split; [by apply elems_built_new|done]. }
  destruct (last (buffers_ s)) as [e|] eqn:El; [|done]. destruct (reuse e) eqn:Er; [|done].
  apply last_Some in El as [pre El]. rewrite El in B1, B2. exists pre, e. split_and!; [|split; [done|]|done].
  - unfold with_bufs. rewrite <- El. by destruct s.
  - rewrite length_app in B2. lia.
Qed.

Lemma on_last_run s pre e (g : elem -> res elem) e' : g e = Ret e' -> on_last g (with_bufs s (pre ++ [e])) = Ret (tt, with_bufs s (pre ++ [e'])).
Proof.
  intros E. unfold on_last. rewrite bind_gets. cbn [buffers_ with_bufs]. rewrite last_snoc, E, length_app. simpl.
  replace (pred (length pre + 1)) with (length pre) by lia. by rewrite take_app_length.
Qed.

Lemma elem_empty_new : elem_empty (P := P) elem_new = true.
Proof. done. Qed.

Lemma item_estimate_range (it : item P) : 0 <= item_estimate it <= item_cap it.
Proof. destruct it as [|bs t|p t]; simpl; [lia..|]. apply estimate_range. Qed.
Lemma estimate_le_cap (l : list (item P)) : 0 <= zsum item_estimate l <= zsum item_cap l.
Proof.
  induction l as [|it l IH]; [done|]. rewrite !zsum_cons. pose proof (item_estimate_range it). lia.
Qed.

Lemma add_label_run items s :
  built items s -> labels items < 2 ^ 31 - 3 ->
  exists s', add_item ILabel s = Ret ([1 + labels items], s') /\ built (items ++ [ILabel]) s'.
Proof.
  intros [B1 B2 B3 B4 B5 B6] Hl. pose proof (labels_nonneg items) as Hl0. unfold add_item, getLabel. rewrite bind_assoc, bind_gets, B3.
  set (n := 1 + labels items) in *. set (sa := mk_buf (buffers_ s) (cb_size s) (gen_ s) (curIteration_ s) (labels_ s) (n + 1) (shift_ s) (generated_ s)).
  rewrite bind_assoc, (bind_ret _ _ s tt sa) by (unfold set_curLabelID, modify; by rewrite s32_id by lia). cbv zeta. rewrite bind_assoc, bind_gets, (u32_id n) by lia.
  destruct (last_cases items sa (match last (buffers_ sa) with Some e => if elem_empty e then mret tt else set_buffers (buffers_ sa ++ [elem_new]) | None => set_buffers (buffers_ sa ++ [elem_new]) end) elem_empty B1 B2 eq_refl elem_empty_new)
    as (pre & e & E & [Hb Hc] & Hem).
  rewrite bind_assoc, (bind_ret _ _ _ _ _ E). assert (n <> INVALID) as Hn by (unfold INVALID, UINT_MAX; lia).
  set (e' := mk_elem (el_addr e) (el_size e) (el_buffer e) (el_patch e) n (el_trackers e)).
  assert (el_labelID e = INVALID) as El by (unfold elem_empty in Hem; destruct (el_patch e), (el_labelID e =? INVALID) eqn:?; zbool; done).
  rewrite bind_assoc, (bind_ret _ _ _ _ _ (on_last_run sa pre e (setLabelID n) e' ltac:(unfold setLabelID; by rewrite El, Z.eqb_refl))), bind_assoc, bind_gets.
  destruct (put_label_run (with_bufs sa (pre ++ [e'])) n (Label_new Relative n (cb_size s))) as (ls & E2 & Hn2 & Hold); [lia|].
  cbn [cb_size with_bufs sa]. rewrite bind_assoc, (bind_ret _ _ _ _ _ E2). eexists. split; [reflexivity|].
  pose proof (estimate_le_cap items) as He. pose proof (eb_elems _ _ Hb) as [_ [Hz Ht]%Forall_singleton]%Forall_app.
  split; simpl; rewrite ?zsum_snoc; simpl; try lia; try done.
  - apply (elems_built_last items pre e); [done|by apply grows_label|done|done| | |by left].
    + change (cap_of e') with (cap_of e). simpl. lia.
    + unfold label_ids. simpl. rewrite El. rewrite filter_cons_True, filter_cons_False by (done || tauto). done.
  - rewrite !length_app. simpl. lia.
  - intros id Hid. destruct (decide (id = n)) as [->|Hne]; [eexists; split_and!; [exact Hn2|done|simpl; lia..]|].
    destruct (B4 id) as (lb & Elb & Ht' & Ha); [lia|]. exists lb. split_and!; [|done|lia..]. apply Hold; [lia|done].
Qed.

(** An element with a new end. *)
Record extends (it : item P) (n : Z) (e e' : elem) : Prop := {
  ex_size : el_size e' = el_size e;
  ex_label : el_labelID e' = el_labelID e;
  ex_cap : cap_of e' = cap_of e + item_cap it;
  ex_tracked : tracked e -> tracked e';
  ex_grows : tracked e -> grows it n e e';
  ex_patch : forall p, el_patch e' = Some p -> el_patch e = Some p \/ exists t, it = IPatch p t
}.

Lemma add_code_run items it s (g : elem -> res elem) :
  built items s -> is_label it = 0 -> zsum item_cap items + item_cap it < 2 ^ 31 ->
  (forall e, el_patch e = None -> exists e', g e = Ret e' /\ extends it (1 + labels items) e e') ->
  exists s', (current ;; on_last g ;; n ← gets cb_size ; set_cb_size (u32 (n + item_estimate it))) s = Ret (tt, s') /\ built (items ++ [it]) s'.
Proof.
  intros [B1 B2 B3 B4 B5 B6] Hl Hcap Hg. pose proof (estimate_le_cap items) as He. pose proof (item_estimate_range it) as He'.
  destruct (last_cases items s current (fun e => negb (full e)) B1 B2) as (pre & e & E & [Hb Hc] & Hf); [|done|].
  { unfold current. rewrite bind_gets. destruct (last (buffers_ s)) as [e|]; [|done]. by destruct (full e). }
  rewrite (bind_ret _ _ _ _ _ E). destruct (Hg e) as (e' & Eg & [X1 X2 X3 X4 X5 X6]); [unfold full in Hf; by destruct (el_patch e)|].
  rewrite (bind_ret _ _ _ _ _ (on_last_run s pre e g e' Eg)), bind_gets. eexists. split; [reflexivity|].
  pose proof (eb_elems _ _ Hb) as [_ [Hz Ht]%Forall_singleton]%Forall_app.
  split; simpl; rewrite ?zsum_snoc, ?Hl, ?Z.add_0_r; try done.
  - apply (elems_built_last items pre e); auto; [congruence|]. rewrite Hl, app_nil_r. unfold label_ids. simpl. by rewrite X2.
  - rewrite !length_app. simpl. lia.
  - rewrite u32_id by lia. intros id Hid. destruct (B4 id Hid) as (lb & Elb & Ht' & Ha). exists lb. split_and!; done || lia.
  - rewrite u32_id; lia.
Qed.

Lemma extends_pic n xs t e : el_patch e = None -> extends (IPIC xs t) n e (elem_addPIC xs t e).
Proof.
  intros Ep. split; try done.
  - unfold cap_of. simpl. rewrite length_app. lia.
  - intros Ht. pose proof (elem_addTracker_tracked t e Ht) as Ht'. unfold tracked in *. simpl. eapply offsets_weaken; [done| |exact Ht']. simpl. rewrite length_app. lia.
  - intros Ht. by apply grows_pic.
  - by left.
Qed.
Lemma extends_patch n p t e : el_patch e = None ->
  extends (IPatch p t) n e (mk_elem (el_addr e) (el_size e) (el_buffer e) (Some p) (el_labelID e) (el_trackers (elem_addTracker t e))).
Proof.
  intros Ep. split; try done.
  - unfold cap_of. rewrite Ep. simpl. lia.
  - apply elem_addTracker_tracked.
  - intros Ht. by apply grows_patch.
  - intros p' [= ->]. right. by exists t.
Qed.

Lemma add_item_run items it s :
  built items s -> zsum item_cap items + item_cap it < 2 ^ 31 -> labels items < 2 ^ 31 - 3 ->
  exists s', add_item it s = Ret (seqZ (1 + labels items) (is_label it), s') /\ built (items ++ [it]) s'.
Proof.
  intros HB Hcap Hl. destruct it as [|xs t|p t].
  - by apply add_label_run.
  - destruct (add_code_run items (IPIC xs t) s (fun e => Ret (elem_addPIC xs t e)) HB eq_refl Hcap) as (s' & E & HB').
    { intros e Ep. eexists. split; [done|]. by apply extends_pic. }
    exists s'. split; [|done]. simpl. by rewrite (bind_ret _ _ _ _ _ E).
  - destruct (add_code_run items (IPatch p t) s (setPatch p t) HB eq_refl Hcap) as (s' & E & HB').
    { intros e Ep. unfold setPatch. simpl. rewrite Ep. eexists. split; [done|]. by apply extends_patch. }
    exists s'. split; [|done]. simpl. by rewrite (bind_ret _ _ _ _ _ E).
Qed.

Lemma item_cap_nonneg (l : list (item P)) : 0 <= zsum item_cap l.
Proof. pose proof (estimate_le_cap l). lia. Qed.
Lemma add_items_run l : forall items s,
  built items s -> zsum item_cap (items ++ l) < 2 ^ 31 -> labels (items ++ l) < 2 ^ 31 - 3 ->
  exists s', add_items l s = Ret (seqZ (1 + labels items) (labels l), s') /\ built (items ++ l) s'.
Proof.
  induction l as [|it l IH]; intros items s HB Hcap Hl; simpl.
  { exists s. by rewrite app_nil_r. }
  replace (items ++ it :: l) with ((items ++ [it]) ++ l) in * by (by rewrite <- app_assoc).
  pose proof (item_cap_nonneg l). pose proof (labels_nonneg l). pose proof (is_label_nonneg it). rewrite zsum_app, zsum_snoc in Hcap, Hl.
  destruct (add_item_run items it s HB) as (s1 & E1 & HB1); [lia|lia|]. rewrite (bind_ret _ _ _ _ _ E1).
  destruct (IH (items ++ [it]) s1 HB1) as (s2 & E2 & HB2); [rewrite zsum_app, zsum_snoc; lia..|]. rewrite (bind_ret _ _ _ _ _ E2).
  exists s2. split; [|done]. rewrite zsum_cons, zsum_snoc, seqZ_app, Z.add_assoc by done. done.
Qed.

(** ** Generation *)

Fixpoint elem_spans (l : list elem) (a : Z) : list span :=
  match l with
  | [] => []
  | e :: l' => spans_of (el_trackers e) a (el_size e) ++ elem_spans l' (a + el_size e)
  end.

Lemma padded_size (e : elem) a f : el_size e <= Z.of_nat (length (padded e a f)).
Proof. unfold padded. rewrite length_app, length_replicate. lia. Qed.
Lemma pieces_size f (l : list elem) : forall a, zsum el_size l <= Z.of_nat (length (pieces l a f)).
Proof.
  induction l as [|e l IH]; intros a; [done|]. simpl. rewrite zsum_cons, length_app. pose proof (padded_size e a f). specialize (IH (a + el_size e)). lia.
Qed.

Lemma pieces_laid f (l : list elem) : forall a,
  (forall e, e ∈ l -> 0 <= el_size e <= cap_of e) -> (forall j e, l !! j = Some e -> labelled e -> f (el_labelID e) = a + off l j) ->
  Z.of_nat (length (pieces l a f)) = zsum el_size l -> elems_laid f l a (pieces l a f) (elem_spans l a).
Proof.
  induction l as [|e l IH]; intros a Hs Hf Hl; [done|]. simpl in *. rewrite zsum_cons, length_app in Hl.
  pose proof (padded_size e a f). pose proof (pieces_size f l (a + el_size e)). assert (Z.of_nat (length (padded e a f)) = el_size e) as Ep by lia.
  exists (padded e a f), (spans_of (el_trackers e) a (el_size e)), (pieces l (a + el_size e) f), (elem_spans l (a + el_size e)). rewrite Ep. split_and!; try done.
  - split_and!; [|exists (Z.to_nat (el_size e - Z.of_nat (length (piece e a f)))); split; [done|]| |by rewrite Ep].
    + intros He. rewrite (Hf 0%nat e eq_refl He). unfold off. simpl. rewrite zsum_nil. lia.
    + intros Hn. destruct (Hs e) as [_ Hc]; [by left|]. unfold piece, cap_of in *. rewrite Hn in *. simpl in *. rewrite app_nil_r. lia.
    + rewrite Ep. apply Hs. by left.
  - apply IH; [intros x Hx; apply Hs; by right| |lia]. intros j x Hj Hx. rewrite (Hf (S j) x Hj Hx). unfold off. simpl. rewrite zsum_cons. lia.
Qed.

Lemma pieces_fit f (l : list elem) e : forall a,
  Z.of_nat (length (pieces l a f)) = zsum el_size l -> e ∈ l -> Z.of_nat (length (el_buffer e)) <= el_size e.
Proof.
  induction l as [|x l IH]; intros a Hl He; [by apply elem_of_nil in He|]. simpl in *. rewrite zsum_cons, length_app in Hl.
  pose proof (padded_size x a f). pose proof (pieces_size f l (a + el_size x)). apply elem_of_cons in He as [->|He]; [|apply (IH (a + el_size x)); [lia|done]].
  assert (Z.of_nat (length (padded x a f)) = el_size x) as Ep by lia. unfold padded, piece in Ep. rewrite !length_app in Ep. lia.
Qed.

Lemma distinct_nodup (l : list elem) : NoDup (label_ids l) -> distinct l.
Proof.
  unfold label_ids. induction l as [|e l IH]; intros Hn i j x y Ei Ej Hx Exy; [done|]. simpl in Hn.
  assert (NoDup (label_ids l) /\ (labelled e -> el_labelID e ∉ label_ids l)) as [Hl He].
  { destruct (decide (el_labelID e <> INVALID)) as [Hd|Hd].
    - rewrite filter_cons_True in Hn by done. apply NoDup_cons in Hn as [? ?]. done.
    - rewrite filter_cons_False in Hn by done. done. }
  assert (forall k z, l !! k = Some z -> labelled z -> el_labelID z ∈ label_ids l) as Hin.
  { intros k z Ek Hz. apply elem_label_ids. exists z. split; [by eapply list_elem_of_lookup_2|done]. }
  unfold labelled in *. destruct i as [|i], j as [|j]; simpl in *; [done|injection Ei as <-|injection Ej as <-|].
  - destruct (He Hx). rewrite Exy. apply (Hin j); [done|by rewrite <- Exy].
  - destruct He as []; [by rewrite <- Exy|]. rewrite <- Exy. by apply (Hin i).
  - f_equal. by apply (IH Hl i j x y).
Qed.

(** The room all items may need, and what is asked of them. *)
Abbreviation total items := (zsum item_cap items).
Record buildable (items : list (item P)) (base : Z) : Prop := {
  ba_base : 0 < base;
  ba_top : base + 2 * total items + 64 < 2 ^ 63;
  ba_total : 2 * total items + 8192 + codeGenPadding < 2 ^ 31;
  ba_labels : 1 + labels items + (2 * total items + 2) * Z.of_nat (length items) < 2 ^ 31;
  ba_patches : forall p t, IPatch p t ∈ items -> (forall id, id ∈ deps p -> 0 < id <= labels items) /\ placeable p base (base + 2 * total items)
}.

(** The buffer before and after generations: all items are there, with some sizes and
    some offsets of the labels. *)
Record standing (items : list (item P)) (s : state) : Prop := {
  sd_laid : forall f a bs sp, elems_laid f (buffers_ s) a bs sp -> laid f items 1 a bs sp;
  sd_elems : Forall (fun e => 0 <= el_size e <= cap_of e /\ tracked e) (buffers_ s);
  sd_ids : label_ids (buffers_ s) = seqZ 1 (labels items);
  sd_cap : zsum cap_of (buffers_ s) = total items;
  sd_patches : forall e p, e ∈ buffers_ s -> el_patch e = Some p -> exists t, IPatch p t ∈ items;
  sd_count : (length (buffers_ s) <= length items)%nat;
  sd_next : 1 + labels items <= curLabelID_ s;
  sd_labels : forall id, 0 < id <= labels items -> exists lb, labels_ s !! Z.to_nat id = Some lb /\ (lb_type lb = Relative \/ lb_type lb = Estimate) /\ 0 <= lb_addr lb <= total items;
  sd_size : 0 <= cb_size s <= total items;
  sd_width : aWidth (gen_ s) = 8
}.

Lemma built_standing items s : built items s -> standing items s.
Proof.
  intros [[C1 C2 C3 C4 C5] B2 B3 B4 B5 B6]. pose proof (estimate_le_cap items). split; try done; try lia.
  - apply Forall_forall. intros e He. rewrite Forall_forall in C2. destruct (C2 e He) as [-> Ht]. pose proof (cap_of_nonneg e). split; [lia|done].
  - intros id Hid. destruct (B4 id Hid) as (lb & Elb & Ht & Ha). exists lb. split_and!; [done|by left|lia..].
Qed.

Lemma standing_inv items s base :
  buildable items base -> standing items s -> startAddr (gen_ s) = base -> gen_inv (total items) base s.
Proof.
  intros [A1 A2 A3 A4 A5] [C1 C2 C3 C4 C5 B2 B3 B4 B5 B6] Hs. pose proof (labels_nonneg items) as Hl. split; try done; try lia.
  - apply Forall_forall. intros e Hin. rewrite Forall_forall in C2. destruct (C2 e Hin) as [Hsz _]. split; [done|].
    unfold patch_ok. destruct (el_patch e) as [p|] eqn:Ep; [|done]. destruct (C5 e p Hin Ep) as [t Ht]. destruct (A5 p t Ht) as [D1 D2]. split; [|done].
    intros id Hid. rewrite C3. apply elem_of_seqZ. specialize (D1 id Hid). lia.
  - intros id Hid. rewrite C3 in Hid. apply elem_of_seqZ in Hid. destruct (B4 id) as (lb & Elb & Ht & Ha); [lia|].
    split; [lia|]. exists lb. split_and!; [done|done|lia..].
  - apply distinct_nodup. rewrite C3. apply NoDup_seqZ.
Qed.

(** The code in memory. *)
Record laid_out (items : list (item P)) (base : Z) (s : state) (f : Z -> Z) (bs : list Z) : Prop := {
  la_laid : laid f items 1 base bs (elem_spans (buffers_ s) base);
  la_ptr : exists rest, ptr s = Some ((Some <$> bs) ++ rest);
  la_size : size s = Z.of_nat (length bs);
  la_total : Z.of_nat (length bs) <= total items;
  la_sum : zsum el_size (buffers_ s) = Z.of_nat (length bs);
  la_labels : forall id, 0 < id <= labels items -> getLabelAddr id s = Ret (f id, s);
  la_elems : forall j e, buffers_ s !! j = Some e -> el_addr e = base + off (buffers_ s) j /\ tracked e /\ Z.of_nat (length (el_buffer e)) <= el_size e
}.

Definition placed (s : state) (base : Z) : state :=
  mk_buf (buffers_ s) (cb_size s)
    (mk_gen (buffer_ (gen_ s)) (offset_ (gen_ s)) (size_ (gen_ s)) (max_ (gen_ s)) (allocated_ (gen_ s)) base (isPadded_ (gen_ s)) (aWidth (gen_ s)))
    (curIteration_ s) (labels_ s) (curLabelID_ s) (shift_ s) false.

Lemma slack_built items s : built items s -> slack s = total items.
Proof.
  intros [[_ C2 _ C4 _] _ _ _ _ _]. unfold slack. rewrite C4. enough (zsum el_size (buffers_ s) = 0) by lia.
  clear C4. induction C2 as [|e l [He _] Hl IH]; [done|]. rewrite zsum_cons. lia.
Qed.
Lemma standing_slack items s : standing items s -> 0 <= slack s <= total items.
Proof.
  intros HS. unfold slack. rewrite (sd_cap _ _ HS). destruct (sizes_bounded (buffers_ s)) as [? ?]; [|rewrite (sd_cap _ _ HS) in *; lia].
  intros e He. by apply (proj1 (Forall_forall _ _) (sd_elems _ _ HS)).
Qed.

Definition completed (s : state) (n : Z) : state :=
  mk_buf (buffers_ s) n (gen_ s) (curIteration_ s) (labels_ s) (curLabelID_ s) 0 true.

Lemma skeleton_elem (l l' : list elem) j e : skeleton <$> l' = skeleton <$> l -> l' !! j = Some e -> exists e0, l !! j = Some e0 /\ skeleton e = skeleton e0.
Proof.
  intros F2 Ej. pose proof (f_equal (fun x => x !! j) F2) as Es. simpl in Es. rewrite !list_lookup_fmap, Ej in Es.
  destruct (l !! j) as [e0|] eqn:Ej0; [|done]. injection Es as E1 E2 E3 E4. exists e0. split; [done|]. unfold skeleton. congruence.
Qed.

Lemma final_tracked items base s s' ys cap j e : standing items s -> final (total items) base cap s s' ys -> buffers_ s' !! j = Some e -> tracked e.
Proof.
  intros HS HF Ej. destruct (skeleton_elem _ _ j e (fi_skel _ _ _ _ _ _ HF) Ej) as (e0 & Ej0 & Es). injection Es as E1 E2 E3 E4.
  destruct (proj1 (Forall_lookup _ _) (sd_elems _ _ HS) j e0 Ej0) as [_ Ht]. unfold tracked in *. by rewrite E1, E4.
Qed.

Lemma final_standing items base s s' ys cap : standing items s -> final (total items) base cap s s' ys -> 1 + labels items <= curLabelID_ s' ->
  standing items (completed s' (Z.of_nat (length ys))).
Proof.
  intros HS HF Hnext. pose proof HS as [C1 C2 C3 C4 C5 B2 B3 B4 B5 B6]. pose proof HF as [F1 F2 F3 F4 F5 F6 F7 F8]. pose proof F1 as [I1 I2 I3 I4 I5 I6 I7].
  assert (zsum cap_of (buffers_ s') = total items) as Ecap by (rewrite <- C4; apply zsum_fmap; by apply skeleton_caps).
  split; simpl; try done.
  - intros f a bs sp Hl. apply C1. by apply (elems_laid_skeleton _ (buffers_ s')).
  - apply Forall_lookup. intros j e Ej. split; [|by apply (final_tracked items base s s' ys cap j)]. by apply (proj1 (Forall_lookup _ _) I3 j e Ej).
  - by rewrite (skeleton_ids _ (buffers_ s)).
  - intros e p He Ep. apply list_elem_of_lookup in He as [j Ej]. destruct (skeleton_elem _ _ j e F2 Ej) as (e0 & Ej0 & [= E1 E2 E3 E4]).
    apply (C5 e0); [by eapply list_elem_of_lookup_2|congruence].
  - apply (f_equal length) in F2. rewrite !length_fmap in F2. by rewrite F2.
  - intros id Hid. destruct (I4 id) as [_ Hlab]; [rewrite (skeleton_ids _ (buffers_ s)), C3 by done; apply elem_of_seqZ; lia|]. done.
  - rewrite F5. destruct (sizes_bounded (buffers_ s')) as [? ?]; [intros e He; by apply (proj1 (Forall_forall _ _) I3)|]. lia.
Qed.

Lemma final_laid_out items base s s' ys (n := total items) :
  buildable items base -> standing items s -> final n base (2 * n + 8192) s s' ys ->
  laid_out items base (completed s' (Z.of_nat (length ys))) (fun id => base + lab s' id) ys.
Proof.
  intros HA HB HF. pose proof HF as [F1 F2 F3 F4 F5 F6 F7 F8]. pose proof HA as [A1 A2 A3 A4 A5]. pose proof HB as [C1 C2 C3 C4 C5 B2 B3 B4 B5 B6].
  pose proof F1 as [I1 I2 I3 I4 I5 I6 I7]. rewrite Forall_forall in I3. pose proof (item_cap_nonneg items) as Hn0. split.
  - apply C1, (elems_laid_skeleton _ (buffers_ s')); [done|]. simpl. rewrite F4 at 1. apply pieces_laid; [intros e He; by apply I3| |congruence].
    intros j e Ej He. by rewrite (F6 j e Ej He).
  - destruct (ho_buf _ _ _ F3) as (buf & Eb & _ & Et). rewrite length_fmap in Et. exists (drop (length ys) buf).
    unfold ptr. simpl. rewrite Eb. f_equal. rewrite <- Et at 1. by rewrite take_drop.
  - done.
  - rewrite F5. destruct (sizes_bounded (buffers_ s')) as [_ Hs]; [intros e He; by apply I3|]. lia.
  - done.
  - intros id Hid. assert (label_ok n (completed s' (Z.of_nat (length ys))) id) as HO.
    { apply (label_ok_same n s'); [done..|]. apply I4. rewrite (skeleton_ids _ (buffers_ s)), C3 by done. apply elem_of_seqZ. lia. }
    assert (0 <= n) by (unfold n; lia).
    destruct (pred_addr_cases n base ltac:(lia) A1 ltac:(unfold n; lia) _ _ HO) as (E & _ & Ev); [done|simpl; lia|].
    unfold getLabelAddr. rewrite bind_gets. simpl. unfold assertM. rewrite (bind_ret _ _ _ tt (completed s' (Z.of_nat (length ys)))) by done.
    rewrite (bind_ret _ _ _ tt (completed s' (Z.of_nat (length ys)))) by done. rewrite E, Ev by done. done.
  - intros j e Ej. split_and!; [by apply F7|by apply (final_tracked items base s s' ys _ j e HB HF)|].
    apply (pieces_fit (fun id => base + lab s' id) (buffers_ s') e base); [congruence|]. by eapply list_elem_of_lookup_2.
Qed.

(** A generation, be it the first one or another one for another address. *)
Lemma regenerate_run items base s rounds (len := Z.of_nat (length items)) :
  buildable items base -> standing items s -> 2 * total items + 1 < Z.of_nat rounds -> curLabelID_ s + (2 * slack s + 2) * len < 2 ^ 31 ->
  exists s' f bs, generate rounds base s = Ret (true, s') /\ laid_out items base s' f bs /\ standing items s' /\
    slack s' <= slack s /\ curLabelID_ s' <= curLabelID_ s + (2 * (slack s - slack s') + 2) * len.
Proof.
  intros HA HB Hr Hc. pose proof HA as [A1 A2 A3 A4 A5]. pose proof (item_cap_nonneg items) as Hn0. pose proof (standing_slack items s HB) as Hsl.
  assert (standing items (placed s base)) as HB' by (destruct HB; by split). pose proof (sd_count _ _ HB) as Hcnt.
  destruct (generate_loop_run (total items) base (2 * total items + 8192) A3 Hn0 (Z.le_refl _) A1 ltac:(lia) (Z.to_nat (2 * slack s + 1)) (placed s base) rounds) as (s' & ys & E & HF & [U1 U2] & _).
  - by apply standing_inv.
  - pose proof (sd_size _ _ HB'). lia.
  - left. change (slack (placed s base)) with (slack s). lia.
  - change (curLabelID_ (placed s base)) with (curLabelID_ s). change (buffers_ (placed s base)) with (buffers_ s). nia.
  - lia.
  - change (slack (placed s base)) with (slack s) in *. change (curLabelID_ (placed s base)) with (curLabelID_ s) in *. change (buffers_ (placed s base)) with (buffers_ s) in *.
    exists (completed s' (Z.of_nat (length ys))), (fun id => base + lab s' id), ys. split_and!; [|by apply (final_laid_out items base (placed s base))| |done|].
    + unfold generate. rewrite (bind_ret _ _ s tt (mk_buf (buffers_ s) (cb_size s) (gen_ s) (curIteration_ s) (labels_ s) (curLabelID_ s) (shift_ s) false)) by reflexivity.
      rewrite (bind_ret _ _ _ tt (placed s base)) by reflexivity. rewrite (bind_ret _ _ _ _ _ E). cbn [negb].
      rewrite (bind_ret _ _ _ tt (mk_buf (buffers_ s') (cb_size s') (gen_ s') (curIteration_ s') (labels_ s') (curLabelID_ s') 0 (generated_ s'))) by reflexivity.
      rewrite bind_gets. cbn [gen_]. pose proof (fi_holds _ _ _ _ _ _ HF) as Hh.
      rewrite (used_holds (2 * total items + 8192) A3 (gen_ s') _ Hh), length_fmap. done.
    + apply (final_standing items base (placed s base) s' ys (2 * total items + 8192)); [done|done|]. pose proof (sd_next _ _ HB). lia.
    + change (slack (completed s' (Z.of_nat (length ys)))) with (slack s'). simpl. nia.
Qed.

Lemma generate_run items base s rounds :
  buildable items base -> built items s -> 2 * total items + 1 < Z.of_nat rounds ->
  exists s' f bs, generate rounds base s = Ret (true, s') /\ laid_out items base s' f bs.
Proof.
  intros HA HB Hr. destruct (regenerate_run items base s rounds HA (built_standing _ _ HB) Hr) as (s' & f & bs & E & HL & _); [|by exists s', f, bs].
  rewrite (slack_built items), (bu_next _ _ HB) by done. pose proof (ba_labels _ _ HA). lia.
Qed.

(** A buffer from its construction to its code. *)
Definition assemble (width : Z) (templ : codeGen) (numBlocks : Z) (items : list (item P)) (rounds : nat) (base : Z) : res (list Z * bool * state) :=
  (initialize templ numBlocks ;; ids ← add_items items ; ok ← generate rounds base ; mret (ids, ok)) (CodeBuffer_new width).

Lemma filled_run (width : Z) (templ : codeGen) (numBlocks : Z) (items : list (item P)) :
  aWidth templ = 8 -> total items < 2 ^ 31 -> labels items < 2 ^ 31 - 3 ->
  exists s0 s, initialize templ numBlocks (CodeBuffer_new width) = Ret (tt, s0) /\ add_items items s0 = Ret (seqZ 1 (labels items), s) /\ built items s.
Proof.
  intros Hw Ht Hl.
  set (s0 := mk_buf [] 0 (mk_gen None 0 0 0 false NO_ADDR true (aWidth templ)) 0 (resize_labels (u32 (numBlocks + 2)) []) 1 0 false : state).
  assert (built [] s0) as HB0.
  { split; try done; [|simpl; rewrite zsum_nil; lia]. split; try done; [|by intros ? ? ?%elem_of_nil]. intros f a bs sp [-> ->]. apply laid_nil. }
  destruct (add_items_run items [] s0 HB0) as (s1 & E1 & HB1); [simpl; lia|simpl; lia|]. exists s0, s1. split; [done|]. rewrite zsum_nil in E1. done.
Qed.
Lemma buildable_small items base : buildable items base -> total items < 2 ^ 31 /\ labels items < 2 ^ 31 - 3.
Proof.
  intros [A1 A2 A3 A4 A5]. pose proof (item_cap_nonneg items). pose proof (labels_nonneg items). split; [unfold codeGenPadding in *; lia|].
  destruct items as [|it l]; [done|]. assert (0 < (2 * total (it :: l) + 2) * Z.of_nat (length (it :: l))) by (simpl; nia). simpl in *. lia.
Qed.

Lemma assemble_run (width : Z) (templ : codeGen) (numBlocks : Z) (items : list (item P)) (rounds : nat) (base : Z) :
  aWidth templ = 8 -> buildable items base -> 2 * total items + 1 < Z.of_nat rounds ->
  exists s f bs, assemble width templ numBlocks items rounds base = Ret (seqZ 1 (labels items), true, s) /\ laid_out items base s f bs.
Proof.
  intros Hw HA Hr. destruct (buildable_small items base HA) as [H1 H2]. destruct (filled_run width templ numBlocks items Hw H1 H2) as (s0 & s1 & E0 & E1 & HB1).
  unfold assemble. rewrite (bind_ret _ _ _ _ _ E0), (bind_ret _ _ _ _ _ E1). destruct (generate_run items base s1 rounds HA HB1 Hr) as (s2 & f & bs & E2 & HL).
  rewrite (bind_ret _ _ _ _ _ E2). by exists s2, f, bs.
Qed.
End Build.

(** C19: a buffer to which any labels, bytes and patches were added, patches whose code
    depends on nothing but its address and the addresses of labels, is generated:
    after at most [2 * total + 2] rounds nothing moves any more, and then all pieces
    lie behind each other from the given address, every patch being its code for the
    final addresses of the labels it refers to, padded behind if it has shrunk.  The
    labels have the numbers [getLabel] returned, and [getLabelAddr] gives their
    addresses. *)
Theorem generate_settles {P : Type} `{PatchLaws P} (width : Z) (templ : codeGen) (numBlocks : Z) (items : list (item P)) (rounds : nat) (base : Z) :
  aWidth templ = 8 -> buildable items base -> 2 * zsum item_cap items + 1 < Z.of_nat rounds ->
  exists s f bs sp rest, assemble width templ numBlocks items rounds base = Ret (seqZ 1 (zsum is_label items), true, s) /\
    laid f items 1 base bs sp /\ ptr s = Some ((Some <$> bs) ++ rest) /\ size s = Z.of_nat (length bs) /\
    forall id, 0 < id <= zsum is_label items -> getLabelAddr id s = Ret (f id, s).
Proof.
  intros Hw HA Hr. destruct (assemble_run width templ numBlocks items rounds base Hw HA Hr) as (s & f & bs & E & [L1 [rest L2] L3 L4 L5 L6 L7]).
  by exists s, f, bs, (elem_spans (buffers_ s) base), rest.
Qed.
