(* ===== verification/RelocPatch.v ===== *)
(** * Control flow of moved code (dyninstAPI/src/Relocation/Widgets/CFWidget.C, CFWidget-x86.C, RelDataWidget.C,
      CFG/RelocTarget.C)

    A jump, a call, a conditional jump or an operand relative to the instruction
    pointer has to be generated anew at every address: CFPatch does so, from the
    original instruction if there is one, for a target that is moved itself or is
    known by its address.  RelDataPatch is for an operand in memory, and PaddingPatch
    leaves room behind a call.

    The targets are those in the address space of the moved code, for which
    [CFPatch::isPLT] is false. *)
From stdpp Require Import base list.
From S2P Require Import Prelude CodeGen CodeBuffer.
Import codegen codeBuffer.

Module relocation.

(** [TargetInt]: a block that is moved, by the label it has, a block that is not, by
    its start, or an address. *)
Inductive target : Type :=
| RelocBlockTarget (label : Z)
| BlockTarget (start : Z)
| AddrTarget (t : Z).

Inductive cf_type : Type := Jump | JCC | Call | Data.

Record CFPatch : Type := mk_cf { cf_kind : cf_type; orig_insn : option instruction; cf_target : target }.

(** [pd_defensive]: whether the mode of the object of the block is defensive. *)
Record PaddingPatch : Type := mk_pad { pd_size : N; pd_noop : bool; pd_defensive : bool }.

Record RelDataPatch : Type := mk_rel { rd_insn : instruction; rd_target : Z }.

Inductive patch : Type := PCF (p : CFPatch) | PPadding (p : PaddingPatch) | PRelData (p : RelDataPatch).

(** [TargetInt::label]. *)
Definition label (t : target) : M (CodeBuffer patch) Z :=
  match t with
  | RelocBlockTarget l => mret l
  | BlockTarget a | AddrTarget a => id ← defineLabel a ; mret (s32 id)
  end.

(** The switches of [CFPatch::apply] over the type, with and without an original
    instruction. *)
Definition cf_generate (ty : cf_type) (insn : option instruction) (to : Z) : M codeGen bool :=
  match insn with
  | Some i =>
      match ty with
      | Jump => modifyJump to i
      | JCC => modifyJcc to i
      | Call => modifyCall to i
      | Data => modifyData to i
      end
  | None =>
      match ty with
      | Jump => from ← gets currAddr ; generateBranch from to ;; mret true
      | Call => from ← gets currAddr ; generateCall from to ;; mret true
      | JCC | Data => fail FAssert
      end
  end.

Definition cf_apply (p : CFPatch) : M (CodeBuffer patch) bool :=
  targetLabel ← label (cf_target p) ;
  to ← predictedAddr (u32 targetLabel) ;
  lift (cf_generate (cf_kind p) (orig_insn p) to).

Definition cf_estimate (p : CFPatch) : Z :=
  match orig_insn p with Some i => Z.of_nat (length (i_ptr i)) | None => 0 end.

Definition padding_apply (p : PaddingPatch) : M (CodeBuffer patch) bool :=
  if negb (pd_defensive p) then mret true else
  let size := Z.of_N (pd_size p) in
  lift (if pd_noop p then fill size cgNOP
        else if size mod 2 =? 0 then fill size cgIllegal
        else fill size cgTrap) ;;
  mret true.

Definition reldata_apply (p : RelDataPatch) : M (CodeBuffer patch) bool := lift (modifyData (rd_target p) (rd_insn p)).

#[export] Instance patch_ops : Patch patch := {
  apply p := match p with PCF c => cf_apply c | PPadding c => padding_apply c | PRelData c => reldata_apply c end;
  estimate p := match p with PCF c => cf_estimate c | PPadding c => Z.of_N (pd_size c) | PRelData c => Z.of_nat (length (i_ptr (rd_insn c))) end
}.

End relocation.
