(* ===== verification/CodeInsnOk.v ===== *)
(** * The bytes of generated and of moved instructions

    [branch_bytes] of CodeGenOk, [call_bytes] and the bytes of the four [modify]
    functions, and that the generators emit exactly those. *)
From stdpp Require Import base list.
From S2P Require Import Prelude CodeGen CodeGenOk.
Import codegen.

(** ** Functions that only read the instruction *)

Definition value {A} (m : M unit A) : option A := match m tt with Ret (r, _) => Some r | Fault _ => None end.
Definition stateless {A} (m : forall S, M S A) : Prop :=
  forall S (s : S), m S s = match m unit tt with Ret (r, _) => Ret (r, s) | Fault x => Fault x end.

Lemma stateless_value {A} (m : forall S, M S A) a S (s : S) : stateless m -> value (m unit) = Some a -> m S s = Ret (a, s).
Proof. intros Hm. rewrite Hm. unfold value. destruct (m unit tt) as [[r ?]|]; [by intros [= ->]|done]. Qed.
Lemma stateless_bind {A B} (m : forall S, M S A) (k : A -> forall S, M S B) :
  stateless m -> (forall a, stateless (k a)) -> stateless (fun S => m S ≫= fun a => k a S).
Proof.
  intros Hm Hk S s. unfold mbind, M_bind. rewrite Hm. destruct (m unit tt) as [[r []]|] eqn:E; [|done]. simpl. rewrite (Hk r S s). done.
Qed.
Lemma stateless_ret {A} (a : A) : stateless (fun S => mret a : M S A).
Proof. done. Qed.
Lemma stateless_fail {A} (x : fault) : stateless (fun S => fail x : M S A).
Proof. done. Qed.
#[export] Hint Resolve stateless_ret stateless_fail : lprofile.

Lemma next_byte_stateless l : stateless (fun S => @next_byte S l).
Proof. by destruct l. Qed.
#[export] Hint Resolve next_byte_stateless : lprofile.
Ltac stateless := repeat first [assumption | apply next_byte_stateless | apply stateless_ret | apply stateless_fail | apply stateless_bind; [|intros ?] | case_match].

Lemma copy_prefixes_stateless n : forall l, stateless (fun S => @copy_prefixes S n l).
Proof. induction n as [|n IH]; intros l; simpl; [done|]. stateless. apply IH. Qed.
Lemma copy_prefixes_nosize_stateless n : forall l, stateless (fun S => @copy_prefixes_nosize S n l).
Proof. induction n as [|n IH]; intros l; simpl; [done|]. stateless. apply IH. Qed.
Lemma nosegments_loop_stateless l : forall k n, stateless (fun S => @nosegments_loop S l k n).
Proof. induction l as [|b l IH]; intros k n; simpl; [done|]. stateless; apply IH. Qed.
Lemma nosize_or_segments_stateless n l : stateless (fun S => @copy_prefixes_nosize_or_segments S n l).
Proof. destruct n; [done|]. apply nosegments_loop_stateless. Qed.
Lemma convert_to_rel8_stateless l : stateless (fun S => @convert_to_rel8 S l).
Proof. unfold convert_to_rel8. stateless. Qed.
Lemma convert_to_rel32_stateless l : stateless (fun S => @convert_to_rel32 S l).
Proof. unfold convert_to_rel32. stateless. Qed.
Lemma copy_escapes_stateless l : stateless (fun S => @copy_escapes S l).
Proof. unfold copy_escapes. stateless. Qed.

(** ** The bytes *)

Definition push64_bytes (val : Z) : list Z := push16 val 3 ++ push16 val 2 ++ push16 val 1 ++ push16 val 0.
Definition call_bytes (from to : Z) : list Z :=
  let disp := s64 (to - (from + CALL_REL32_SZ)) in
  if is_disp32 disp then 0xE8 :: le_enc 4 (u32 disp) else push64_bytes (u64 (from + CALL_ABS64_SZ)) ++ push64_bytes to ++ [0xC3].

Definition moved_jump (i : instruction) (a to : Z) : option (list Z) :=
  '(new, _) ← value (copy_prefixes (count_prefixes (i_type i)) (i_ptr i)) ;
  Some (new ++ branch_bytes 8 (u64 (a + Z.of_nat (length new))) to).

Definition moved_call (i : instruction) (a to : Z) : option (list Z) :=
  '(new, _) ← value (copy_prefixes_nosize (count_prefixes (i_type i)) (i_ptr i)) ;
  let here := a + Z.of_nat (length new) in
  Some (if is_disp32 (s64 (to - (here + CALL_REL32_SZ))) then new ++ call_bytes here to else call_bytes a to).

Definition moved_jcc (i : instruction) (a to : Z) : option (list Z) :=
  '(new, orig) ← value (copy_prefixes_nosize_or_segments (count_prefixes (i_type i)) (i_ptr i)) ;
  let from := u64 (a + Z.of_nat (length new)) in
  let disp := s64 (to - (from + 2)) in
  if is_disp8 disp then '(op, _) ← value (convert_to_rel8 orig) ; Some (new ++ op ++ [u8 disp]) else
  '(b, _) ← value (next_byte orig) ;
  let disp := s64 (to - (from + 6)) in
  if ((b <? 0xE0) || (0xE3 <? b)) && is_disp32 disp then '(op, _) ← value (convert_to_rel32 orig) ; Some (new ++ op ++ le_enc 4 (u32 disp)) else
  '(op, _) ← value (convert_to_rel8 orig) ;
  let short := new ++ op ++ [2; 0xEB] in
  let jump := branch_bytes 8 (u64 (from + Z.of_nat (length short + 1))) to in
  Some (short ++ u8 (Z.of_nat (length jump)) :: jump).

Definition moved_data (i : instruction) (a to : Z) : option (list Z) :=
  let insnSz := Z.of_nat (length (i_ptr i)) in
  let newDisp := s64 (to - a) in
  p ← value (copy_prefixes (count_prefixes (i_type i)) (i_ptr i)) ;
  e ← value (copy_escapes p.2) ;
  o ← value (next_byte e.2) ;
  mr ← value (next_byte o.2) ;
  let head := p.1 ++ e.1 ++ [o.1] in
  let tail := drop 4 mr.2 in
  Some (if negb (is_disp32 (newDisp + insnSz)) && negb (is_addr32 to) then
          let reg := if negb (Z.land mr.1 0x38 =? 0) then 0 else 3 in
          [0x50 + reg] ++ ([0x48] ++ 0xB8 + reg :: le_enc 8 to) ++ (head ++ [u8 (Z.land mr.1 0xf8 + reg)] ++ tail) ++ [0x58 + reg]
        else if is_disp32 (newDisp + insnSz) then head ++ [mr.1] ++ le_enc 4 (u32 (newDisp - insnSz)) ++ tail
        else head ++ [u8 (Z.land mr.1 0xf8 + 4); 0x25] ++ le_enc 4 (u32 to) ++ tail).

(** ** Their lengths *)

(** What a function took from the instruction is not longer than it. *)
Definition splits (l : list Z) (o : option (list Z * list Z)) : Prop :=
  match o with Some (new, rest) => (length new + length rest <= length l)%nat | None => True end.

Lemma value_bind {A B} (m : M unit A) (k : A -> M unit B) : value (m ≫= k) = value m ≫= fun a => value (k a).
Proof. unfold value, mbind, M_bind. simpl. destruct (m tt) as [[r []]|]; done. Qed.
Lemma copy_prefixes_splits n : forall l, splits l (value (copy_prefixes n l)).
Proof.
  induction n as [|n IH]; intros l; simpl; [done|]. rewrite value_bind. destruct l as [|b l]; [done|]. simpl. rewrite value_bind.
  specialize (IH l). destruct (value (copy_prefixes n l)) as [[new rest]|]; [|done]. simpl in *. lia.
Qed.
Lemma copy_prefixes_nosize_splits n : forall l, splits l (value (copy_prefixes_nosize n l)).
Proof.
  induction n as [|n IH]; intros l; simpl; [done|]. rewrite value_bind. destruct l as [|b l]; [done|]. simpl. rewrite value_bind.
  specialize (IH l). destruct (value (copy_prefixes_nosize n l)) as [[new rest]|]; [|done]. simpl in *. case_match; simpl in *; lia.
Qed.
Lemma nosegments_splits l : forall k n, splits l (value (nosegments_loop l k n)).
Proof.
  induction l as [|b l IH]; intros k n; simpl; [done|]. case_match.
  - specialize (IH (S k) n). destruct (value (nosegments_loop l (S k) n)) as [[new rest]|]; [|done]. simpl in *. lia.
  - case_match; [simpl; lia|]. rewrite value_bind. specialize (IH (S k) n). destruct (value (nosegments_loop l (S k) n)) as [[new rest]|]; [|done]. simpl in *. lia.
Qed.
Lemma nosize_or_segments_splits n l : splits l (value (copy_prefixes_nosize_or_segments n l)).
Proof. destruct n; [simpl; lia|]. apply nosegments_splits. Qed.
Lemma copy_escapes_splits l : splits l (value (copy_escapes l)).
Proof.
  unfold copy_escapes. rewrite value_bind. destruct l as [|b [|c l]]; simpl; [done|..]; repeat (first [case_match | rewrite value_bind]; simpl; try done; try lia).
Qed.
Lemma rel8_length l op r : value (convert_to_rel8 l) = Some (op, r) -> length op = 1%nat.
Proof.
  unfold convert_to_rel8. rewrite value_bind. destruct (value (next_byte (skip_0f l))) as [[b r']|]; [|done]. simpl.
  repeat case_match; try done; by intros [= <- _].
Qed.
Lemma rel32_length l op r : value (convert_to_rel32 l) = Some (op, r) -> length op = 2%nat.
Proof.
  unfold convert_to_rel32. rewrite value_bind. destruct (value (next_byte (skip_0f l))) as [[b r']|]; [|done]. simpl.
  repeat case_match; try done; by intros [= <- _].
Qed.

(** ** The generators emit them *)

Lemma bind_then2 {S A B} (m1 : M S unit) (m2 : M S unit) (m3 : M S A) s s' (k : M S B) :
  (m1 ;; m2 ;; m3) s = Ret s' -> (m1 ;; m2 ;; m3 ;; k) s = (fun r => k r.2) s'.
Proof.
  unfold mbind, M_bind. destruct (m1 s) as [[[] s1]|]; [|done]. destruct (m2 s1) as [[[] s2]|]; [|done]. intros ->. by destruct s'.
Qed.

Section Emits.
Context (cap : Z) (Hcap : cap + codeGenPadding < 2 ^ 31).

Lemma emits_pure {A B} (m : forall S, M S A) (k : A -> M codeGen B) a g bs b xs :
  stateless m -> value (m unit) = Some a -> emits cap (k a) g bs b xs -> emits cap (m codeGen ≫= k) g bs b xs.
Proof. intros Hm Hv Hk. destruct Hk as (g' & E & Hh). exists g'. split; [|done]. by rewrite (bind_ret _ _ _ _ _ (stateless_value m a codeGen g Hm Hv)). Qed.
Lemma emits_then {A B} (m : M codeGen A) (k : A -> M codeGen B) g bs a b xs ys :
  emits cap m g bs a (Some <$> xs) ->
  (forall g', holds cap g' (bs ++ (Some <$> xs)) -> same_place g g' -> emits cap (k a) g' (bs ++ (Some <$> xs)) b (Some <$> ys)) ->
  emits cap (m ≫= k) g bs b (Some <$> (xs ++ ys)).
Proof. rewrite fmap_app. apply emits_bind. Qed.

Lemma length_push16 v i : length (push16 v i) = 4%nat.
Proof. done. Qed.
Lemma length_push64 v : length (push64_bytes v) = 16%nat.
Proof. done. Qed.

Lemma generateBranch64_run g bs to :
  holds cap g bs -> roomy cap (length bs) 17 -> emits cap (generateBranch64 to) g bs tt (Some <$> (push64_bytes to ++ [0xC3])).
Proof.
  intros HH Hr. apply (emits_then _ _ g bs tt tt).
  - apply emit_run; [done..|]. change (Z.of_nat _) with 16. cg.
  - intros g' HH' _. apply emit_run; [done..|]. rewrite length_app, length_fmap, length_push64. simpl. cg.
Qed.

Lemma generateBranch_disp_run g bs d :
  holds cap g bs -> - 2 ^ 31 < d < 2 ^ 31 -> roomy cap (length bs) 5 -> emits cap (generateBranch_disp d) g bs tt (Some <$> (0xE9 :: le_enc 4 (u32 (d - 5)))).
Proof.
  intros HH Hd Hr. unfold generateBranch_disp, assertM.
  assert ((if 0 <=? d then u32 d <? 2 ^ 31 else u32 (- d) <? 2 ^ 31) = true) as -> by (destruct (0 <=? d) eqn:E; zbool; rewrite u32_id by lia; apply Z.ltb_lt; lia).
  destruct (emit_run cap Hcap g bs (0xE9 :: le_enc 4 (u32 (d - 5)))) as (g' & E & HH'); [done..|]. exists g'. by rewrite (bind_ret _ _ _ tt g) by done.
Qed.

Lemma generateBranch_run g bs from to :
  holds cap g bs -> aWidth g = 8 -> at_limit from to = false -> roomy cap (length bs) 17 ->
  emits cap (generateBranch from to) g bs tt (Some <$> branch_bytes 8 from to).
Proof.
  intros HH Hw Hl Hr. unfold generateBranch, branch_bytes. case_match; [apply emit_run; [done..|simpl; cg]|]. apply emits_gets. rewrite Hw.
  destruct (is_disp32 _) eqn:E; simpl; [|by apply generateBranch64_run].
  apply is_disp32_range in E. unfold at_limit in Hl. apply andb_false_iff in Hl as [Hl|Hl]; zbool; [lia|].
  apply generateBranch_disp_run; [done|rewrite s32_id; lia|cg].
Qed.

Lemma call_bytes_length from to : (length (call_bytes from to) <= 33)%nat.
Proof. unfold call_bytes. case_match; simpl; lia. Qed.
Lemma generateCall_run g bs from to :
  holds cap g bs -> aWidth g = 8 -> roomy cap (length bs) 33 -> emits cap (generateCall from to) g bs tt (Some <$> call_bytes from to).
Proof.
  intros HH Hw Hr. unfold generateCall, call_bytes. case_match; [apply emit_run; [done..|simpl; cg]|]. apply emits_gets. rewrite Hw. simpl (8 =? 8).
  apply (emits_then _ _ g bs tt tt).
  - apply emit_run; [done..|]. change (Z.of_nat _) with 16. cg.
  - intros g' HH' _. apply generateBranch64_run; [done|]. rewrite length_app, length_fmap, length_push64. cg.
Qed.

(** The address moves with what is emitted. *)
Lemma currAddr_after g bs g' xs :
  holds cap g bs -> holds cap g' (bs ++ (Some <$> xs)) -> same_place g g' -> currAddr g + Z.of_nat (length xs) < 2 ^ 63 ->
  currAddr g' = currAddr g + Z.of_nat (length xs).
Proof.
  intros [_ _ Ho _] [_ _ Ho' _] [Ha _] Hl. unfold currAddr, CODE_GEN_OFFSET_SIZE in *. rewrite Ha. destruct (addr_ g =? NO_ADDR) eqn:E; [unfold NO_ADDR, UINT64_MAX in Hl; lia|].
  rewrite Ho, Ho', length_app, length_fmap in *. unfold uwrap in *. rewrite !Z.mul_1_r in *.
  replace (Z.of_nat (length bs + length xs) + addr_ g) with (Z.of_nat (length bs) + addr_ g + Z.of_nat (length xs)) by lia.
  rewrite <- Z.add_mod_idemp_l by lia. apply Z.mod_small. pose proof (Z.mod_pos_bound (Z.of_nat (length bs) + addr_ g) (2 ^ 64) ltac:(lia)). lia.
Qed.

(** Back to an earlier index. *)
Lemma rewind_run g bs xs :
  holds cap g (bs ++ xs) -> roomy cap (length bs) (Z.of_nat (length xs)) -> emits cap (setIndex (Z.of_nat (length bs))) g bs tt [].
Proof.
  intros [(buf & Eb & El & Et) Em Ho [Hs1 Hs2]] Hr. rewrite length_app in *. unfold roomy, codeGenPadding in *.
  destruct (setIndex_run cap Hcap g buf (Z.of_nat (length bs))) as (g' & E & [(ext & Eb' & El') Em' Hs' Ho' Hp']); try done; try cg.
  exists g'. rewrite app_nil_r. split_and!; [done| |done]. split; try done. exists (buf ++ ext). split_and!; [done..|].
  assert (take (length bs) buf = bs) as Et2 by (rewrite <- (take_app_length bs xs) at 2; rewrite <- Et, take_take; f_equal; lia).
  rewrite take_app_le; [done|]. lia.
Qed.

Lemma getIndex_holds g bs : holds cap g bs -> getIndex g = Z.of_nat (length bs).
Proof. by intros [_ _ Ho _]. Qed.

(** Past a byte that is stored later. *)
Lemma skip_run g bs : holds cap g bs -> roomy cap (length bs) 1 -> exists x, emits cap (moveIndex 1) g bs tt [x].
Proof.
  intros [(buf & Eb & El & Et) Em Ho [Hs1 Hs2]] Hr. unfold roomy, codeGenPadding in *. unfold moveIndex.
  destruct (lookup_lt_is_Some_2 buf (length bs)) as [x Ex]; [lia|]. exists x. apply emits_gets. unfold getIndex. rewrite Ho, (s32_id (Z.of_nat (length bs))), s32_id, u32_id by lia.
  destruct (setIndex_run cap Hcap g buf (Z.of_nat (length bs) + 1)) as (g' & E & [(ext & Eb' & El') Em' Hs' Ho' Hp']); try done; try cg.
  exists g'. split_and!; [done| |done]. split; rewrite ?length_app; simpl in *; try lia. exists (buf ++ ext). split_and!; [done..|].
  rewrite take_app_le by lia. replace (length bs + 1)%nat with (S (length bs)) by lia. by rewrite (take_S_r _ _ _ Ex), Et.
Qed.

Definition placed_at (g : codeGen) (a : Z) : Prop := aWidth g = 8 /\ currAddr g = a /\ 0 <= a.

Lemma modifyJump_run g bs a to i xs :
  holds cap g bs -> placed_at g a -> roomy cap (length bs) 40 -> (length (i_ptr i) <= 15)%nat -> moved_jump i a to = Some xs ->
  (forall k, 0 <= k <= 15 -> at_limit (u64 (a + k)) to = false) -> emits cap (modifyJump to i) g bs true (Some <$> xs).
Proof.
  intros HH (Hw & Ha & _) Hr Hi Hx Hl. unfold moved_jump in Hx. pose proof (copy_prefixes_splits (count_prefixes (i_type i)) (i_ptr i)) as Hs.
  destruct (value _) as [[new rest]|] eqn:Ev; [|done]. injection Hx as <-. simpl in Hs. unfold modifyJump. apply emits_gets. rewrite Ha.
  apply (emits_pure (fun S => copy_prefixes (S := S) (count_prefixes (i_type i)) (i_ptr i)) _ _ _ _ _ _ (copy_prefixes_stateless _ _) Ev).
  apply (emits_then _ _ g bs tt true).
  - apply emit_run; [done|done|unfold codeGenPadding; lia|cg].
  - intros g' HH' [_ Hw']. apply emits_ret with tt. apply generateBranch_run; [done|congruence|apply Hl; lia|rewrite length_app, length_fmap; cg].
Qed.

Lemma modifyCall_run g bs a to i xs :
  holds cap g bs -> placed_at g a -> a + 40 < 2 ^ 63 -> roomy cap (length bs) 60 -> (length (i_ptr i) <= 15)%nat -> moved_call i a to = Some xs ->
  emits cap (modifyCall to i) g bs true (Some <$> xs).
Proof.
  intros HH (Hw & Ha & Ha0) Ha1 Hr Hi Hx. unfold moved_call in Hx. pose proof (copy_prefixes_nosize_splits (count_prefixes (i_type i)) (i_ptr i)) as Hs.
  destruct (value _) as [[new rest]|] eqn:Ev; [|done]. simpl in Hs, Hx. injection Hx as <-. unfold modifyCall. apply emits_gets. unfold getIndex at 1. rewrite (ho_offset _ _ _ HH).
  apply (emits_pure (fun S => copy_prefixes_nosize (S := S) (count_prefixes (i_type i)) (i_ptr i)) _ _ _ _ _ _ (copy_prefixes_nosize_stateless _ _) Ev).
  destruct (emit_run cap Hcap g bs new HH) as (g1 & E1 & HH1 & P1); [unfold codeGenPadding; lia|cg|]. unfold emits. simpl. rewrite (bind_ret _ _ _ _ _ E1), bind_gets.
  rewrite (currAddr_after g bs g1 new) by (done || lia). rewrite Ha. pose proof P1 as [_ Hw1]. destruct (is_disp32 _).
  - destruct (generateCall_run g1 (bs ++ (Some <$> new)) (a + Z.of_nat (length new)) to) as (g2 & E2 & HH2 & P2); [done|congruence|rewrite length_app, length_fmap; cg|].
    exists g2. rewrite (bind_ret _ _ _ _ _ E2), fmap_app, app_assoc. split_and!; [done|done|]. by eapply same_place_trans.
  - destruct (rewind_run g1 bs (Some <$> new) HH1) as (g2 & E2 & HH2 & P2); [rewrite length_fmap; cg|]. rewrite app_nil_r in HH2. pose proof (same_place_trans _ _ _ P1 P2) as P3.
    pose proof P3 as [_ Hw3]. destruct (generateCall_run g2 bs a to) as (g3 & E3 & HH3 & P4); [done|congruence|cg|].
    assert (currAddr g2 = a) as Ea.
    { rewrite (currAddr_after g bs g2 []); simpl; rewrite ?app_nil_r; (done || lia). }
    exists g3. rewrite bind_assoc, (bind_ret _ _ _ _ _ E2), bind_assoc, bind_gets, Ea, (bind_ret _ _ _ _ _ E3). split_and!; [done|done|]. by eapply same_place_trans.
Qed.

(** The jump around a jump: a short conditional jump to a jump, and one past it. *)
Lemma around_run g bs short from to start :
  holds cap g bs -> aWidth g = 8 -> roomy cap (length bs) 60 -> (length short <= 20)%nat ->
  at_limit (u64 (from + Z.of_nat (length bs + length short + 1) - start)) to = false ->
  let jump := branch_bytes 8 (u64 (from + Z.of_nat (length bs + length short + 1) - start)) to in
  emits cap (emit short ;;
    jump_to_c_offset_index ← gets getIndex ;
    moveIndex 1 ;;
    jump_from_index ← gets getIndex ;
    generateBranch (u64 (from + jump_from_index - start)) to ;;
    done_ ← gets getIndex ;
    setIndex jump_to_c_offset_index ;;
    emit [u8 (getDisplacement jump_from_index done_)] ;;
    setIndex done_ ;;
    mret true) g bs true (Some <$> (short ++ u8 (Z.of_nat (length jump)) :: jump)).
Proof.
  intros HH Hw Hr Hs Hl jump. pose proof (branch_bytes_length 8 (u64 (from + Z.of_nat (length bs + length short + 1) - start)) to) as Hj. fold jump in Hj.
  destruct (emit_run cap Hcap g bs short HH) as (g1 & E1 & HH1 & P1); [unfold codeGenPadding; lia|cg|]. unfold emits.
  rewrite (bind_ret _ _ _ _ _ E1), bind_gets. rewrite (getIndex_holds _ _ HH1). set (bs1 := bs ++ (Some <$> short)) in *.
  assert (length bs1 = length bs + length short)%nat as Elen by (unfold bs1; by rewrite length_app, length_fmap).
  destruct (skip_run g1 bs1 HH1) as (x & g2 & E2 & HH2 & P2); [rewrite Elen; cg|]. rewrite (bind_ret _ _ _ _ _ E2), bind_gets. rewrite (getIndex_holds _ _ HH2). replace (length (bs1 ++ [x])) with (length bs + length short + 1)%nat by (rewrite length_app; simpl; lia).
  pose proof (same_place_trans _ _ _ P1 P2) as P12. pose proof P12 as [_ Hw2].
  destruct (generateBranch_run g2 (bs1 ++ [x]) (u64 (from + Z.of_nat (length bs + length short + 1) - start)) to) as (g3 & E3 & HH3 & P3);
    [done|congruence|done|rewrite length_app; simpl; cg|]. fold jump in HH3.
  rewrite (bind_ret _ _ _ _ _ E3), bind_gets. rewrite (getIndex_holds _ _ HH3). rewrite <- app_assoc in HH3. simpl in HH3.
  replace (getDisplacement _ _) with (Z.of_nat (length jump)) by (unfold getDisplacement, CODE_GEN_OFFSET_SIZE; rewrite !length_app, length_fmap; simpl; lia).
  destruct (poke_run cap Hcap g3 bs1 x (u8 (Z.of_nat (length jump))) (Some <$> jump) HH3) as (g4 & E4 & HH4 & P4); [rewrite length_fmap; cg|].
  replace (Z.of_nat (length ((bs1 ++ [x]) ++ (Some <$> jump)))) with (Z.of_nat (length bs1) + 1 + Z.of_nat (length (Some <$> jump))) by (rewrite !length_app; simpl; lia).
  exists g4. split_and!.
  - by rewrite (bind_then2 _ _ _ g3 _ _ E4).
  - rewrite fmap_app. simpl. by rewrite app_assoc.
  - eapply same_place_trans; [exact P12|]. by eapply same_place_trans.
Qed.

Lemma modifyJcc_run g bs a to i xs :
  holds cap g bs -> placed_at g a -> a + 60 < 2 ^ 63 -> roomy cap (length bs) 60 -> (length (i_ptr i) <= 15)%nat -> moved_jcc i a to = Some xs ->
  (forall k, 0 <= k <= 60 -> at_limit (u64 (a + k)) to = false) -> emits cap (modifyJcc to i) g bs true (Some <$> xs).
Proof.
  intros HH (Hw & Ha & Ha0) Ha1 Hr Hi Hx Hl. unfold moved_jcc in Hx. pose proof (nosize_or_segments_splits (count_prefixes (i_type i)) (i_ptr i)) as Hs.
  destruct (value _) as [[new orig]|] eqn:Ev; [|done]. simpl in Hs, Hx. unfold modifyJcc. apply emits_gets, emits_gets. rewrite Ha, (getIndex_holds _ _ HH).
  apply (emits_pure (fun S => copy_prefixes_nosize_or_segments (S := S) (count_prefixes (i_type i)) (i_ptr i)) _ _ _ _ _ _ (nosize_or_segments_stateless _ _) Ev).
  cbv zeta in Hx |- *. set (from := u64 (a + Z.of_nat (length new))) in *.
  destruct (is_disp8 _).
  { destruct (value (convert_to_rel8 orig)) as [[op r]|] eqn:Eo; [|done]. injection Hx as <-. pose proof (rel8_length _ _ _ Eo) as Ho.
    apply (emits_pure (fun S => convert_to_rel8 (S := S) orig) _ _ _ _ _ _ (convert_to_rel8_stateless _) Eo). apply emits_ret with tt.
    apply emit_run; [done|done|..]; rewrite !length_app, Ho; simpl; cg. }
  destruct (value (next_byte orig)) as [[b r]|] eqn:En; [|done]. simpl in Hx.
  apply (emits_pure (fun S => next_byte (S := S) orig) _ _ _ _ _ _ (next_byte_stateless _) En). simpl (fst _).
  destruct (_ && _).
  { destruct (value (convert_to_rel32 orig)) as [[op r2]|] eqn:Eo; [|done]. injection Hx as <-. pose proof (rel32_length _ _ _ Eo) as Ho.
    apply (emits_pure (fun S => convert_to_rel32 (S := S) orig) _ _ _ _ _ _ (convert_to_rel32_stateless _) Eo). apply emits_ret with tt.
    apply emit_run; [done|done|..]; rewrite !length_app, Ho; simpl; cg. }
  destruct (value (convert_to_rel8 orig)) as [[op r2]|] eqn:Eo; [|done]. injection Hx as <-. pose proof (rel8_length _ _ _ Eo) as Ho.
  apply (emits_pure (fun S => convert_to_rel8 (S := S) orig) _ _ _ _ _ _ (convert_to_rel8_stateless _) Eo). simpl (fst _).
  set (short := new ++ op ++ [2; 0xEB]). assert (length short = length new + 3)%nat as Els by (unfold short; rewrite !length_app, Ho; done).
  pose proof (around_run g bs short from to (Z.of_nat (length bs)) HH Hw Hr) as Hrun. cbv zeta in Hrun.
  replace (from + Z.of_nat (length bs + length short + 1) - Z.of_nat (length bs)) with (from + Z.of_nat (length short + 1)) in Hrun by lia.
  apply Hrun; [lia|]. unfold from. rewrite (u64_id (a + _)) by lia. rewrite <- Z.add_assoc. apply Hl. lia.
Qed.

Lemma moved_data_parts i a to xs :
  moved_data i a to = Some xs -> exists p e o mr, value (copy_prefixes (count_prefixes (i_type i)) (i_ptr i)) = Some p /\ value (copy_escapes p.2) = Some e /\
    value (next_byte e.2) = Some o /\ value (next_byte o.2) = Some mr /\ (length (p.1 ++ e.1 ++ [o.1]) + 1 + length (drop 4 mr.2) <= length (i_ptr i))%nat.
Proof.
  unfold moved_data. pose proof (copy_prefixes_splits (count_prefixes (i_type i)) (i_ptr i)) as Hp. destruct (value (copy_prefixes _ _)) as [[p1 p2]|]; [|done]. simpl in *.
  pose proof (copy_escapes_splits p2) as He. destruct (value (copy_escapes p2)) as [[e1 e2]|] eqn:Ee; [|done]. simpl in *.
  destruct e2 as [|o e2]; [done|]. simpl. destruct e2 as [|mr e2]; [done|]. simpl. intros _. exists (p1, p2), (e1, o :: mr :: e2), (o, mr :: e2), (mr, e2).
  simpl in *. split_and!; [done..|]. rewrite !length_app, length_drop. simpl. lia.
Qed.

Lemma modifyData_run g bs a to i xs :
  holds cap g bs -> placed_at g a -> roomy cap (length bs) 60 -> (length (i_ptr i) <= 15)%nat -> moved_data i a to = Some xs ->
  emits cap (modifyData to i) g bs true (Some <$> xs).
Proof.
  intros HH (Hw & Ha & Ha0) Hr Hi Hx. destruct (moved_data_parts i a to xs Hx) as (p & e & o & mr & Ep & Ee & Eo & Em & Hlen). unfold moved_data in Hx.
  rewrite Ep in Hx. cbn [mbind option_bind] in Hx. rewrite Ee in Hx. cbn [mbind option_bind] in Hx. rewrite Eo in Hx. cbn [mbind option_bind] in Hx. rewrite Em in Hx. cbn [mbind option_bind] in Hx. apply (inj Some) in Hx. subst xs. cbv zeta.
  unfold modifyData. apply emits_gets. rewrite Ha.
  apply (emits_pure (fun S => copy_prefixes (S := S) (count_prefixes (i_type i)) (i_ptr i)) _ _ _ _ _ _ (copy_prefixes_stateless _ _) Ep).
  apply (emits_pure (fun S => copy_escapes (S := S) p.2) _ _ _ _ _ _ (copy_escapes_stateless _) Ee).
  apply (emits_pure (fun S => next_byte (S := S) e.2) _ _ _ _ _ _ (next_byte_stateless _) Eo).
  apply (emits_pure (fun S => next_byte (S := S) o.2) _ _ _ _ _ _ (next_byte_stateless _) Em).
  set (head := p.1 ++ e.1 ++ [o.1]) in *. set (tail := drop 4 mr.2) in *. destruct (_ && _); [|destruct (is_disp32 _)].
  - set (reg := if negb _ then 0 else 3). apply (emits_then _ _ g bs tt true); [by apply emit_run; [..|simpl; cg]|]. intros g1 HH1 _.
    apply (emits_then _ _ g1 _ tt true).
    { apply (emits_then _ _ g1 _ tt tt); [by apply emit_run; [..|rewrite length_app; simpl; cg]|]. intros g2 HH2 _. by apply emit_run; [..|rewrite !length_app; simpl; cg]. }
    intros g2 HH2 _. apply (emits_then _ _ g2 _ tt true); [apply emit_run; [done|done|..]; rewrite ?length_app, ?length_fmap in *; simpl; rewrite ?length_app in *; simpl in *; cg|].
    intros g3 HH3 _. apply emits_ret with tt. apply emit_run; [done|done|done|]. rewrite ?length_app, ?length_fmap in *; simpl; rewrite ?length_app in *; simpl in *; cg.
  - apply emits_ret with tt. apply emit_run; [done|done|..]; rewrite !length_app, ?length_le_enc in *; simpl in *; cg.
  - apply emits_ret with tt. apply emit_run; [done|done|..]; rewrite !length_app, ?length_le_enc in *; simpl in *; cg.
Qed.
End Emits.
