(* ===== verification/RelocPatchOk.v ===== *)
(** * The patches of moved code obey the laws of patches

    What CFPatch and PaddingPatch generate, as functions of the address and of the
    addresses of the labels, and that [apply] generates it. *)
From stdpp Require Import base gmap list.
From S2P Require Import Prelude CodeGen CodeGenOk CodeBuffer CodeBufferOk CodeInsnOk RelocPatch.
Import codegen codeBuffer relocation.

(** ** Filling *)

Section Fill.
Context (cap : Z) (Hcap : cap + codeGenPadding < 2 ^ 31).

Lemma fill_loop_run (xs : list Z) (m k n : nat) one g bs start :
  (0 < length xs <= 2)%nat -> (forall g bs, holds cap g bs -> roomy cap (length bs) 2 -> emits cap one g bs tt (Some <$> xs)) ->
  holds cap g bs -> Z.of_nat (length bs) = start + Z.of_nat (k * length xs) -> 0 <= start -> roomy cap (length bs) (Z.of_nat (m * length xs) + 2) -> (m < n)%nat ->
  emits cap (fill_loop n one start (Z.of_nat ((k + m) * length xs))) g bs tt (Some <$> concat (replicate m xs)).
Proof.
  intros Hx Hone. revert n k g bs. induction m as [|m IH]; intros n k g bs HH Hu Hs Hr Hn; (destruct n as [|n]; [lia|]); cbn [fill_loop].
  - exists g. unfold get. rewrite (bind_ret _ _ _ _ _ eq_refl), (used_holds cap Hcap g bs HH), Hu.
    replace (start + Z.of_nat (k * length xs) - start) with (Z.of_nat (k * length xs)) by lia. rewrite u32_id by (unfold roomy, codeGenPadding in *; lia).
    rewrite (proj2 (Z.ltb_ge _ _)) by lia. simpl. by rewrite app_nil_r.
  - unfold emits, get. rewrite (bind_ret _ _ _ _ _ eq_refl), (used_holds cap Hcap g bs HH), Hu.
    replace (start + Z.of_nat (k * length xs) - start) with (Z.of_nat (k * length xs)) by lia. rewrite u32_id by (unfold roomy, codeGenPadding in *; lia).
    rewrite (proj2 (Z.ltb_lt _ _)) by nia. replace (k + S m)%nat with (S k + m)%nat by lia.
    cbn [replicate concat]. apply (emits_then cap one _ g bs tt tt); [apply Hone; [done|]; unfold roomy in *; lia|].
    intros g' HH' _. apply IH; [done|rewrite length_app, length_fmap; nia|done|unfold roomy in *; rewrite length_app, length_fmap; nia|lia].
Qed.

Lemma length_concat_replicate {A} (xs : list A) m : length (concat (replicate m xs)) = (m * length xs)%nat.
Proof. induction m as [|m IH]; simpl; [done|]. rewrite length_app, IH. lia. Qed.

Lemma fill_insn_run (xs : list Z) (m : nat) one ty g bs :
  (0 < length xs <= 2)%nat -> (forall g bs, holds cap g bs -> roomy cap (length bs) 2 -> emits cap one g bs tt (Some <$> xs)) ->
  (ty = cgTrap /\ one = generateTrap \/ ty = cgIllegal /\ one = generateIllegal) ->
  holds cap g bs -> roomy cap (length bs) (Z.of_nat (m * length xs) + 2) ->
  emits cap (fill (Z.of_nat (m * length xs)) ty) g bs tt (Some <$> concat (replicate m xs)).
Proof.
  intros Hx Hone Hty HH Hr.
  pose proof (fill_loop_run xs m 0 (S (Z.to_nat (Z.of_nat (m * length xs)))) one g bs (Z.of_nat (length bs)) Hx Hone HH ltac:(lia) ltac:(lia) Hr ltac:(nia)) as (g' & E & HH' & P').
  assert (emits cap (curUsed ← gets used ; fill_loop (S (Z.to_nat (Z.of_nat (m * length xs)))) one curUsed (Z.of_nat (m * length xs)) ;; g ← get ;
    assertM (u32 (used g - curUsed) =? Z.of_nat (m * length xs))) g bs tt (Some <$> concat (replicate m xs))) as Hgoal.
  { exists g'. split; [|done]. rewrite bind_gets, (used_holds cap Hcap g bs HH). rewrite Nat.add_0_l in E. rewrite (bind_ret _ _ _ _ _ E). unfold get.
    rewrite (bind_ret _ _ _ _ _ eq_refl), (used_holds cap Hcap g' _ HH'), length_app, length_fmap, length_concat_replicate.
    replace (Z.of_nat (length bs + m * length xs) - Z.of_nat (length bs)) with (Z.of_nat (m * length xs)) by lia.
    rewrite u32_id by (unfold roomy, codeGenPadding in *; lia). unfold assertM. by rewrite Z.eqb_refl. }
  destruct Hty as [[-> ->] | [-> ->]]; exact Hgoal.
Qed.
End Fill.

(** ** What the patches generate *)

Definition cf_code (ty : cf_type) (insn : option instruction) (a to : Z) : option (list Z) :=
  match insn with
  | Some i => match ty with Jump => moved_jump i a to | JCC => moved_jcc i a to | Call => moved_call i a to | Data => moved_data i a to end
  | None => match ty with Jump => Some (branch_bytes 8 a to) | Call => Some (call_bytes a to) | JCC | Data => None end
  end.
Definition target_addr (t : target) (f : Z -> Z) : Z :=
  match t with RelocBlockTarget l => f l | BlockTarget a | AddrTarget a => a end.
Definition pad_code (p : PaddingPatch) : list Z :=
  if negb (pd_defensive p) then [] else
  if pd_noop p then replicate (N.to_nat (pd_size p)) NOP
  else if Z.of_N (pd_size p) mod 2 =? 0 then concat (replicate (N.to_nat (pd_size p) / 2) [0x0f; 0x0b])
  else concat (replicate (N.to_nat (pd_size p)) [0xCC]).
Definition patch_bytes (p : patch) (a : Z) (f : Z -> Z) : list Z :=
  match p with PCF c => default [] (cf_code (cf_kind c) (orig_insn c) a (target_addr (cf_target c) f)) | PPadding c => pad_code c | PRelData c => default [] (moved_data (rd_insn c) a (rd_target c)) end.

Definition insn_len (insn : option instruction) : nat := match insn with Some i => length (i_ptr i) | None => 0 end.
Definition patch_max (p : patch) : Z :=
  match p with PCF c => Z.of_nat (insn_len (orig_insn c)) + 60 | PPadding c => Z.of_N (pd_size c) + 2 | PRelData c => Z.of_nat (length (i_ptr (rd_insn c))) + 60 end.
Definition patch_deps (p : patch) : list Z :=
  match p with PCF (mk_cf _ _ (RelocBlockTarget l)) => [l] | _ => [] end.

(** Instructions the generators can take apart. *)
Definition insn_ok (ty : cf_type) (insn : option instruction) : bool :=
  match insn with
  | None => match ty with Jump | Call => true | JCC | Data => false end
  | Some i =>
      (length (i_ptr i) <=? 15)%nat &&
      match ty with
      | Jump => bool_decide (is_Some (value (copy_prefixes (count_prefixes (i_type i)) (i_ptr i))))
      | Call => bool_decide (is_Some (value (copy_prefixes_nosize (count_prefixes (i_type i)) (i_ptr i))))
      | Data => bool_decide (is_Some (moved_data i 0 0))
      | JCC =>
          match value (copy_prefixes_nosize_or_segments (count_prefixes (i_type i)) (i_ptr i)) with
          | Some (_, b :: r) =>
              bool_decide (is_Some (value (convert_to_rel8 (b :: r)))) &&
              ((0xE0 <=? b) && (b <=? 0xE3) || bool_decide (is_Some (value (convert_to_rel32 (b :: r)))))
          | _ => false
          end
      end
  end.

(** Targets at no distance where a 32 bit displacement just fails to fit. *)
Definition reachable (t : target) (lo hi : Z) : Prop :=
  match t with
  | RelocBlockTarget l => 0 < l < 2 ^ 31 /\ hi - lo + 128 < 2 ^ 31
  | BlockTarget a | AddrTarget a => 0 <= a < 2 ^ 63 /\ (hi + 128 < a + 2 ^ 31 \/ a + 2 ^ 31 + 128 < lo)
  end.
Definition patch_placeable (p : patch) (lo hi : Z) : Prop :=
  match p with PCF c => insn_ok (cf_kind c) (orig_insn c) = true /\ reachable (cf_target c) lo hi | PPadding _ => True | PRelData c => insn_ok Data (Some (rd_insn c)) = true end.

Lemma moved_jump_length i a to xs : moved_jump i a to = Some xs -> (length xs <= length (i_ptr i) + 17)%nat.
Proof.
  unfold moved_jump. pose proof (copy_prefixes_splits (count_prefixes (i_type i)) (i_ptr i)) as Hs. destruct (value _) as [[new rest]|]; [|done]. simpl in *.
  intros [= <-]. rewrite length_app. pose proof (branch_bytes_length 8 (u64 (a + Z.of_nat (length new))) to). lia.
Qed.
Lemma moved_call_length i a to xs : moved_call i a to = Some xs -> (length xs <= length (i_ptr i) + 33)%nat.
Proof.
  unfold moved_call. pose proof (copy_prefixes_nosize_splits (count_prefixes (i_type i)) (i_ptr i)) as Hs. destruct (value _) as [[new rest]|]; [|done]. simpl in *.
  intros [= <-]. pose proof (call_bytes_length (a + Z.of_nat (length new)) to). pose proof (call_bytes_length a to). case_match; rewrite ?length_app; lia.
Qed.
Lemma moved_jcc_length i a to xs : moved_jcc i a to = Some xs -> (length xs <= length (i_ptr i) + 30)%nat.
Proof.
  unfold moved_jcc. pose proof (nosize_or_segments_splits (count_prefixes (i_type i)) (i_ptr i)) as Hs. destruct (value _) as [[new orig]|]; [|done]. simpl in *.
  destruct (is_disp8 _).
  { destruct (value (convert_to_rel8 orig)) as [[op r]|] eqn:Eo; [|done]. apply rel8_length in Eo. intros [= <-]. rewrite !length_app, Eo. simpl. lia. }
  destruct (value (next_byte orig)) as [[b r]|]; [|done]. simpl. destruct (_ && _).
  { destruct (value (convert_to_rel32 orig)) as [[op r2]|] eqn:Eo; [|done]. apply rel32_length in Eo. intros [= <-]. rewrite !length_app, Eo. simpl. lia. }
  destruct (value (convert_to_rel8 orig)) as [[op r2]|] eqn:Eo; [|done]. apply rel8_length in Eo. intros [= <-]. rewrite !length_app. simpl. rewrite Eo.
  match goal with |- context [branch_bytes 8 ?x to] => pose proof (branch_bytes_length 8 x to) end. lia.
Qed.
Lemma moved_data_length i a to xs : moved_data i a to = Some xs -> (length xs <= length (i_ptr i) + 30)%nat.
Proof.
  intros Hx. destruct (moved_data_parts i a to xs Hx) as (p & e & o & mr & Ep & Ee & Eo & Em & Hlen). unfold moved_data in Hx.
  rewrite Ep in Hx. cbn [mbind option_bind] in Hx. rewrite Ee in Hx. cbn [mbind option_bind] in Hx. rewrite Eo in Hx. cbn [mbind option_bind] in Hx.
  rewrite Em in Hx. cbn [mbind option_bind] in Hx. apply (inj Some) in Hx. subst xs. cbv zeta.
  repeat case_match; rewrite ?length_app in *; simpl in *; rewrite ?length_app in *; simpl in *; lia.
Qed.

Lemma patch_bytes_max p a f : Z.of_nat (length (patch_bytes p a f)) <= patch_max p.
Proof.
  destruct p as [[ty insn t]|[n noop def]|[i t]]; simpl.
  - destruct (cf_code ty insn a (target_addr t f)) as [xs|] eqn:E; simpl; [|lia]. unfold cf_code in E. destruct insn as [i|]; simpl.
    + destruct ty; [apply moved_jump_length in E|apply moved_jcc_length in E|apply moved_call_length in E|apply moved_data_length in E]; lia.
    + destruct ty; try done; injection E as <-; [pose proof (branch_bytes_length 8 a (target_addr t f))|pose proof (call_bytes_length a (target_addr t f))]; lia.
  - unfold pad_code. cbn [pd_size pd_noop pd_defensive]. destruct def; cbn [negb]; [|simpl; lia]. destruct noop; [rewrite length_replicate; lia|].
    case_match; rewrite length_concat_replicate; cbn [length]; [|lia]. pose proof (Nat.Div0.mul_div_le (N.to_nat n) 2). lia.
  - destruct (moved_data i a t) as [xs|] eqn:E; simpl; [|lia]. apply moved_data_length in E. lia.
Qed.

Lemma patch_bytes_deps p a f f' : (forall id, id ∈ patch_deps p -> f id = f' id) -> patch_bytes p a f = patch_bytes p a f'.
Proof.
  destruct p as [[ty insn t]|c|c]; simpl; [|done..]. intros Hf. do 2 f_equal. destruct t as [l| |]; simpl; [|done..]. apply Hf. by left.
Qed.

Lemma insn_ok_code ty insn a to : insn_ok ty insn = true -> is_Some (cf_code ty insn a to) /\ (insn_len insn <= 15)%nat.
Proof.
  destruct insn as [i|]; simpl; [|destruct ty; simpl; try done; intros _; (split; [by eexists|lia])]. intros [Hl%Nat.leb_le Hk]%andb_prop. split; [|done]. destruct ty.
  - apply bool_decide_eq_true in Hk as [[new r] E]. unfold moved_jump. rewrite E. simpl. by eexists.
  - unfold moved_jcc. destruct (value _) as [[new [|b r]]|]; [done| |done]. apply andb_prop in Hk as [H8 H32]. apply bool_decide_eq_true in H8 as [[o8 r8] E8]. cbn [mbind option_bind]. cbv zeta.
    rewrite E8. cbn [mbind option_bind]. destruct (is_disp8 _); [by eexists|]. change (value (next_byte (b :: r))) with (Some (b, r)). cbn [mbind option_bind].
    destruct (((b <? 0xE0) || (0xE3 <? b)) && _) eqn:Ec; [|by eexists]. apply andb_prop in Ec as [Ec _]. apply orb_prop in H32 as [H32|H32]; [zbool; apply orb_prop in Ec as [Ec|Ec]; zbool; lia|].
    apply bool_decide_eq_true in H32 as [[o32 r32] E32]. rewrite E32. cbn [mbind option_bind]. by eexists.
  - apply bool_decide_eq_true in Hk as [[new r] E]. unfold moved_call. rewrite E. simpl. by eexists.
  - apply bool_decide_eq_true in Hk as [xs E]. apply moved_data_parts in E as (p & e & o & mr & Ep & Ee & Eo & Em & _). unfold moved_data.
    rewrite Ep. cbn [mbind option_bind]. rewrite Ee. cbn [mbind option_bind]. rewrite Eo. cbn [mbind option_bind]. rewrite Em. cbn [mbind option_bind]. by eexists.
Qed.

(** ** [apply] generates it *)

Section Apply.
Context (cap : Z) (Hcap : cap + codeGenPadding < 2 ^ 31).

Lemma at_limit_far from to : 0 <= from < 2 ^ 63 -> 0 <= to < 2 ^ 63 -> to - from < - 2 ^ 31 \/ - 2 ^ 31 + 5 <= to - from -> at_limit from to = false.
Proof.
  intros Hf Ht Hd. unfold at_limit. rewrite swrap_id by (unfold srange; simpl; lia). apply andb_false_iff.
  destruct Hd; [left; apply Z.leb_gt; lia|right; apply Z.ltb_ge; lia].
Qed.
Lemma reachable_far t lo hi a k f :
  reachable t lo hi -> 0 < lo -> hi < 2 ^ 63 -> (forall l, t = RelocBlockTarget l -> lo <= f l <= hi) -> lo <= a <= hi -> a + k < 2 ^ 63 -> 0 <= k <= 60 ->
  at_limit (u64 (a + k)) (target_addr t f) = false.
Proof.
  intros Ht Hlo Hhi Hf [Ha1 Ha2] Ha' Hk. rewrite u64_id by lia. destruct t as [l|x|x]; simpl in *; [specialize (Hf l eq_refl)|..]; apply at_limit_far; lia.
Qed.

Lemma cf_generate_run ty insn g bs a to :
  holds cap g bs -> placed_at g a -> a + 60 < 2 ^ 63 -> roomy cap (length bs) 60 -> insn_ok ty insn = true ->
  (forall k, 0 <= k <= 60 -> at_limit (u64 (a + k)) to = false) ->
  emits cap (cf_generate ty insn to) g bs true (Some <$> default [] (cf_code ty insn a to)).
Proof.
  intros HH HA Ha Hr Hok Hl. destruct (insn_ok_code ty insn a to Hok) as [[xs E] Hlen]. rewrite E. simpl. unfold cf_code in E. destruct HA as (Hw & Ea & Ha0).
  destruct insn as [i|]; simpl in *.
  - destruct ty; [apply (modifyJump_run cap Hcap g bs a)|apply (modifyJcc_run cap Hcap g bs a)|apply (modifyCall_run cap Hcap g bs a)|apply (modifyData_run cap Hcap g bs a)];
      try done; try cg. intros k Hk. apply Hl. lia.
  - destruct ty; try done; injection E as <-; apply emits_gets; rewrite Ea; apply emits_ret with tt.
    + specialize (Hl 0 ltac:(lia)). rewrite Z.add_0_r, u64_id in Hl by lia. apply generateBranch_run; [done..|cg].
    + apply generateCall_run; [done..|cg].
Qed.

Lemma generateTrap_run g bs : holds cap g bs -> roomy cap (length bs) 2 -> emits cap generateTrap g bs tt (Some <$> [0xCC]).
Proof. intros HH Hr. apply generate_insn_run; [done..|simpl; cg]. Qed.
Lemma generateIllegal_run g bs : holds cap g bs -> roomy cap (length bs) 2 -> emits cap generateIllegal g bs tt (Some <$> [0x0f; 0x0b]).
Proof. intros HH Hr. apply generate_insn_run; [done..|simpl; cg]. Qed.

Lemma pad_fill_run p g bs (size := Z.of_N (pd_size p)) :
  pd_defensive p = true -> holds cap g bs -> roomy cap (length bs) (size + 2) ->
  emits cap (if pd_noop p then fill size cgNOP else if size mod 2 =? 0 then fill size cgIllegal else fill size cgTrap) g bs tt (Some <$> pad_code p).
Proof.
  intros Hd HH Hr. unfold pad_code. rewrite Hd. cbn [negb]. fold size. assert (size = Z.of_nat (N.to_nat (pd_size p))) as Es by (unfold size; lia). rewrite Es in Hr. destruct (pd_noop p).
  - rewrite Es. unfold fill. rewrite Nat2Z.id. apply generateNOOP_run; [done..|cg].
  - destruct (size mod 2 =? 0) eqn:Em; zbool.
    + assert (N.to_nat (pd_size p) = N.to_nat (pd_size p) / 2 * 2)%nat as En.
      { assert (Z.of_nat (N.to_nat (pd_size p)) mod 2 = 0) as Hm by (by rewrite <- Es).
        assert (N.to_nat (pd_size p) mod 2 = 0)%nat as Hm2 by (apply Nat2Z.inj; by rewrite Nat2Z.inj_mod). pose proof (Nat.div_mod_eq (N.to_nat (pd_size p)) 2). lia. }
      rewrite Es, En at 1. apply (fill_insn_run cap Hcap [0x0f; 0x0b] _ generateIllegal); [simpl; lia|apply generateIllegal_run|by right|done|].
      simpl (length [_; _]). rewrite <- En. done.
    + rewrite Es at 1. replace (N.to_nat (pd_size p)) with (N.to_nat (pd_size p) * 1)%nat at 1 by lia.
      apply (fill_insn_run cap Hcap [0xCC] _ generateTrap); [simpl; lia|apply generateTrap_run|by left|done|]. simpl (length [_]). by rewrite Nat.mul_1_r.
Qed.

Lemma padding_run p (s : CodeBuffer patch) bs :
  holds cap (gen_ s) bs -> roomy cap (length bs) (Z.of_N (pd_size p) + 2) ->
  exists g', padding_apply p s = Ret (true, eput g' s) /\ holds cap g' (bs ++ (Some <$> pad_code p)) /\ same_place (gen_ s) g'.
Proof.
  intros HH Hr. unfold padding_apply. destruct (pd_defensive p) eqn:Ed; cbn [negb].
  - destruct (pad_fill_run p (gen_ s) bs Ed HH Hr) as (g' & E & HH' & P'). exists g'. split; [|done]. cbv zeta. rewrite (bind_ret _ _ s tt (eput g' s)); [done|]. unfold lift. cbn [eget buf_gen]. by rewrite E.
  - exists (gen_ s). unfold pad_code. rewrite Ed. simpl. rewrite app_nil_r. by destruct s.
Qed.

(** A target's address, after a label may have been defined for it. *)
Lemma target_run t (s : CodeBuffer patch) :
  (forall l, t = RelocBlockTarget l -> 0 < l < 2 ^ 31 /\ predictedAddr l s = Ret (pred_addr s l, s)) -> 0 < curLabelID_ s < 2 ^ 31 - 1 ->
  exists ls n, (l ← label t ; predictedAddr (u32 l)) s = Ret (target_addr t (pred_addr s), applied s (gen_ s) ls n) /\ labels_kept (labels_ s) (curLabelID_ s) ls n.
Proof.
  intros Hp Hc. assert (forall a, exists ls n, (l ← (id ← defineLabel a ; mret (s32 id)) ; predictedAddr (u32 l)) s = Ret (a, applied s (gen_ s) ls n) /\ labels_kept (labels_ s) (curLabelID_ s) ls n) as Hdef.
  { intros a. set (n := curLabelID_ s) in *. set (sa := applied s (gen_ s) (labels_ s) (n + 1)).
    destruct (put_label_run sa n (Label_new Absolute n a)) as (ls & E & Hn & Hold); [lia|]. exists ls, (n + 1). split.
    - unfold defineLabel. rewrite !bind_assoc, bind_gets. fold n. rewrite bind_assoc, (bind_ret _ _ s tt sa) by (unfold set_curLabelID, modify; by rewrite s32_id by lia).
      cbv zeta. rewrite u32_id by lia. rewrite bind_assoc, (bind_ret _ _ _ _ _ E), !bind_mret, s32_id, u32_id by lia.
      unfold predictedAddr. rewrite bind_gets. cbn [labels_]. pose proof (lookup_lt_Some _ _ _ Hn). unfold assertM. rewrite (proj2 (Z.ltb_lt n _)), (proj2 (Z.ltb_lt 0 n)) by lia.
      unfold mbind, M_bind. cbn [labels_]. rewrite Hn. done.
    - split; [lia|]. intros i lb Hi Ei. apply Hold; [lia|done]. }
  destruct t as [l|a|a]; [|apply Hdef..]. destruct (Hp l eq_refl) as [Hl E]. exists (labels_ s), (curLabelID_ s). split; [|apply labels_kept_refl].
  simpl. rewrite bind_mret, u32_id, E by lia. by rewrite applied_same.
Qed.
End Apply.

Lemma patch_estimate p : 0 <= estimate p <= patch_max p.
Proof. destruct p as [[ty insn t]|c|c]; simpl; [|lia..]. unfold cf_estimate. simpl. destruct insn; simpl; lia. Qed.

Lemma patch_apply_run cap p (s : CodeBuffer patch) bs lo hi :
  cap + codeGenPadding < 2 ^ 31 -> holds cap (gen_ s) bs -> aWidth (gen_ s) = 8 -> roomy cap (length bs) (patch_max p) ->
  0 < lo -> hi < 2 ^ 63 -> lo <= currAddr (gen_ s) -> currAddr (gen_ s) + patch_max p <= hi -> patch_placeable p lo hi ->
  (forall id, id ∈ patch_deps p -> predictedAddr id s = Ret (pred_addr s id, s) /\ lo <= pred_addr s id <= hi) ->
  0 < curLabelID_ s < 2 ^ 31 - 1 ->
  exists g' ls n', apply p s = Ret (true, applied s g' ls n') /\ holds cap g' (bs ++ (Some <$> patch_bytes p (currAddr (gen_ s)) (pred_addr s))) /\
    same_place (gen_ s) g' /\ labels_kept (labels_ s) (curLabelID_ s) ls n'.
Proof.
  intros Hcap HH Hw Hr Hlo Hhi Ha Ha' Hp Hd Hc. destruct p as [[ty insn t]|c|[i t]]; simpl in *.
  - destruct Hp as [Hok Hre]. assert (forall l, t = RelocBlockTarget l -> 0 < l < 2 ^ 31 /\ predictedAddr l s = Ret (pred_addr s l, s) /\ lo <= pred_addr s l <= hi) as Ht.
    { intros l ->. split; [apply Hre|]. apply Hd. by left. }
    destruct (target_run t s) as (ls & n & E & HK); [intros l Hl; split; apply (Ht l Hl)|done|].
    destruct (cf_generate_run cap Hcap ty insn (gen_ s) bs (currAddr (gen_ s)) (target_addr t (pred_addr s))) as (g' & E' & HH' & P').
    { done. } { split_and!; [done|done|lia]. } { lia. } { cg. } { done. }
    { intros k Hk. apply (reachable_far t lo hi); try done; try lia. intros l Hl. apply (Ht l Hl). }
    exists g', ls, n. split_and!; [|done|done|done]. unfold cf_apply. simpl. rewrite <- bind_assoc, (bind_ret _ _ _ _ _ E). unfold lift. simpl. by rewrite E'.
  - destruct (padding_run cap Hcap c s bs HH Hr) as (g' & E & HH' & P'). exists g', (labels_ s), (curLabelID_ s). split_and!; [done|done|done|apply labels_kept_refl].
  - destruct (insn_ok_code Data (Some i) (currAddr (gen_ s)) t Hp) as [[xs E] Hlen]. simpl in E, Hlen.
    destruct (modifyData_run cap Hcap (gen_ s) bs (currAddr (gen_ s)) t i xs HH) as (g' & E' & HH' & P'); [split_and!; (done || lia)|cg|done|done|].
    exists g', (labels_ s), (curLabelID_ s). rewrite E. split_and!; [|done|done|apply labels_kept_refl]. unfold reldata_apply, lift. simpl. by rewrite E'.
Qed.

#[export] Instance patch_laws : PatchLaws patch := {
  code := patch_bytes;
  bound := patch_max;
  deps := patch_deps;
  placeable := patch_placeable;
  estimate_range := patch_estimate;
  code_bound := patch_bytes_max;
  code_deps := patch_bytes_deps;
  apply_run := patch_apply_run
}.
