(* ===== verification/CodeTrackerOk.v ===== *)
(** * Moved code is traced back to where it came from

    Trackers that follow each other without a gap still do so after neighbours were
    merged, and an address of moved code finds the original address its own tracker
    gave it: merging original instructions keeps their distances.  Two emulated
    instructions must not be merged, which [clash] tells. *)
From stdpp Require Import base gmap list.
From S2P Require Import Prelude CodeTracker.
Import codeTracker.

Definition te_at (e : TrackerElement) (k : Z) : Prop := te_reloc e <= k < te_reloc e + te_size e.
Definition te_info (e : TrackerElement) (k : Z) : Z :=
  match te_kind e with OriginalTracker => te_orig e + (k - te_reloc e) | _ => te_orig e end.
(** What [relocToOrig] tells a caller whose record was [ri]. *)
Definition info_of (e : TrackerElement) (k : Z) (ri : RelocInfo) : RelocInfo :=
  mk_ri (te_info e k) k (Some (te_block e)) (te_func e)
    (match te_kind e with InstTracker bt _ => bt | _ => ri_bt ri end) (match te_kind e with PaddingTracker p => p | _ => ri_pad ri end).

Fixpoint tiles (a : Z) (l : list TrackerElement) (b : Z) : Prop :=
  match l with [] => a = b | e :: l' => te_reloc e = a /\ 0 < te_size e /\ tiles (a + te_size e) l' b end.
Definition in_range (e : TrackerElement) : Prop := 0 <= te_orig e /\ te_orig e + te_size e < 2 ^ 63.

(** Two emulated instructions that would be taken for one. *)
Definition clash (e1 e2 : TrackerElement) : bool := merges e1 e2 && bool_decide (type e1 = emulated).
Fixpoint unmerged (l : list TrackerElement) : bool :=
  match l with
  | e1 :: ((e2 :: _) as l') => negb (clash e1 e2) && unmerged l'
  | _ => true
  end.

Lemma tiles_app a l1 l2 b : tiles a (l1 ++ l2) b <-> exists m, tiles a l1 m /\ tiles m l2 b.
Proof.
  revert a. induction l1 as [|e l1 IH]; intros a; simpl; [split; [by exists a|by intros (m & -> & ?)]|]. rewrite IH. naive_solver.
Qed.
Lemma tiles_le a l b : tiles a l b -> a <= b.
Proof. revert a. induction l as [|e l IH]; intros a; simpl; [lia|]. intros (_ & ? & Ht). apply IH in Ht. lia. Qed.
Lemma tiles_in a l b e : tiles a l b -> e ∈ l -> a <= te_reloc e /\ te_reloc e + te_size e <= b /\ 0 < te_size e.
Proof.
  revert a. induction l as [|x l IH]; intros a Ht He; [by apply elem_of_nil in He|]. simpl in Ht. destruct Ht as (Ea & Hs & Ht).
  apply elem_of_cons in He as [->|He]; [apply tiles_le in Ht; lia|]. destruct (IH _ Ht He). lia.
Qed.

(** ** Merging *)

Lemma merges_parts p e : merges p e = true ->
  type p = type e /\ (type p = original \/ type p = emulated) /\ te_orig e = u64 (te_orig p + te_size p) /\ te_block e = te_block p /\ te_func e = te_func p.
Proof.
  unfold merges. intros [[[[[H1 H2]%andb_prop H3]%andb_prop H4]%andb_prop H5]%andb_prop H6]%andb_prop.
  apply bool_decide_eq_true in H3, H5, H6. apply Z.eqb_eq in H4. split_and!; try done. unfold mergeable, type in *. destruct (te_kind p); eauto; done.
Qed.
Lemma type_kind e : type e = original -> te_kind e = OriginalTracker.
Proof. unfold type. by destruct (te_kind e). Qed.

(** The element that holds an address after [e] was added tells the same of it. *)
Definition told (l l' : list TrackerElement) : Prop :=
  forall e k, e ∈ l -> te_at e k -> exists e', e' ∈ l' /\ te_at e' k /\ forall ri, info_of e' k ri = info_of e k ri.
Lemma told_refl l l' : l ⊆ l' -> told l l'.
Proof. intros Hs e k He Hk. exists e. split; [by apply Hs|done]. Qed.
Lemma told_trans l1 l2 l3 : told l1 l2 -> told l2 l3 -> told l1 l3.
Proof.
  intros H1 H2 e k He Hk. destruct (H1 e k He Hk) as (e1 & He1 & Hk1 & E1). destruct (H2 e1 k He1 Hk1) as (e2 & He2 & Hk2 & E2).
  exists e2. split_and!; [done|done|]. intros ri. by rewrite E2.
Qed.

Lemma add_to_run l e a b :
  tiles a l b -> te_reloc e = b -> 0 < te_size e -> in_range e -> Forall in_range l -> b + te_size e - a < 2 ^ 32 ->
  (forall p, last l = Some p -> clash p e = false) ->
  tiles a (add_to e l) (b + te_size e) /\ Forall in_range (add_to e l) /\ told (l ++ [e]) (add_to e l) /\
    exists q, last (add_to e l) = Some q /\ (q = e \/ type q = original).
Proof.
  intros Ht Er Hs He Hl Hb Hc. unfold add_to. destruct (last l) as [p|] eqn:El.
  2:{ apply last_None in El as ->. simpl in *. split_and!; [lia..|by constructor|by apply told_refl|by exists e; split; [|left]]. }
  specialize (Hc p eq_refl). apply last_Some in El as [pre ->]. destruct (merges p e) eqn:Em.
  2:{ split_and!; [apply tiles_app; exists b; simpl; split_and!; (done || lia)|apply Forall_app; split; [done|by constructor]|by apply told_refl|].
      exists e. split; [by rewrite last_snoc|by left]. }
  destruct (merges_parts p e Em) as (H1 & H2 & H3 & H4 & H5). unfold clash in Hc. rewrite Em in Hc. simpl in Hc. apply bool_decide_eq_false in Hc.
  destruct H2 as [H2|H2]; [|done]. rewrite length_app. simpl. replace (pred (length pre + 1)) with (length pre) by lia. rewrite take_app_length.
  apply tiles_app in Ht as (m & Hpre & Hp). simpl in Hp. destruct Hp as (Ep & Hsp & Emb). pose proof (tiles_le _ _ _ Hpre) as Hle.
  apply Forall_app in Hl as [Hlp Rp]. rewrite Forall_singleton in Rp. unfold in_range in Rp. rewrite (u64_id (te_orig p + te_size p)) in H3 by lia.
  rewrite u32_id by lia. set (q := setSize (te_size p + te_size e) p).
  assert (in_range q) as Hq by (destruct He; split; simpl; lia).
  split_and!.
  - apply tiles_app. exists m. split; [done|]. simpl. lia.
  - apply Forall_app. split; [done|by constructor].
  - assert (forall k x, x = p \/ x = e -> te_at x k -> te_at q k /\ forall ri, info_of q k ri = info_of x k ri) as Hx.
    { intros k x Hx Hk. unfold te_at in *. simpl. pose proof (type_kind p H2) as Kp. assert (te_kind e = OriginalTracker) as Ke by (apply type_kind; congruence).
      split; [destruct Hx; subst x; lia|]. intros ri. unfold info_of, te_info. simpl. destruct Hx as [-> | ->]; [done|]. rewrite Kp, Ke, H4, H5. f_equal. lia. }
    intros x k Hx' Hk. rewrite <- app_assoc in Hx'. apply elem_of_app in Hx' as [Hx'|Hx'].
    + exists x. split; [apply elem_of_app; by left|done].
    + exists q. split; [apply elem_of_app; right; by left|]. apply (Hx k x); [|done]. set_solver.
  - exists q. split; [by rewrite last_snoc|right; done].
Qed.

Lemma addTracker_all_run es : forall l a b c,
  tiles a l b -> tiles b es c -> Forall in_range l -> Forall in_range es -> c - a < 2 ^ 32 -> unmerged es = true ->
  (forall p e, last l = Some p -> head es = Some e -> clash p e = false) ->
  let l' := foldl (fun l e => add_to e l) l es in tiles a l' c /\ Forall in_range l' /\ told (l ++ es) l'.
Proof.
  induction es as [|e es IH]; intros l a b c Hl Hes Rl Res Hc Hu Hlast; simpl.
  { simpl in Hes. subst c. rewrite app_nil_r. split_and!; [done|done|by apply told_refl]. }
  simpl in Hes. destruct Hes as (Er & Hs & Hes). inversion_clear Res as [|x y Re Res']. pose proof (tiles_le _ _ _ Hes).
  destruct (add_to_run l e a b) as (T1 & R1 & I1 & q & Eq & Hq); [done..|lia|intros p Hp; by apply Hlast|].
  destruct (IH (add_to e l) a (b + te_size e) c) as (T2 & R2 & I2); try done.
  { destruct es; [done|]. simpl in Hu. by apply andb_prop in Hu as [_ ?]. }
  { intros p e' Ep Ee. rewrite Eq in Ep. injection Ep as <-. destruct es as [|e2 es]; [done|]. injection Ee as <-. destruct Hq as [-> | Hq].
    - simpl in Hu. apply andb_prop in Hu as [Hu _]. by apply negb_true_iff in Hu.
    - unfold clash. rewrite Hq, andb_false_iff. right. by apply bool_decide_eq_false. }
  split_and!; [done|done|]. replace (l ++ e :: es) with ((l ++ [e]) ++ es) by (by rewrite <- app_assoc). intros x k Hx Hk.
  apply elem_of_app in Hx as [Hx|Hx].
  - destruct (I1 x k Hx Hk) as (x1 & Hx1 & Hk1 & E1). destruct (I2 x1 k) as (x2 & Hx2 & Hk2 & E2); [apply elem_of_app; by left|done|].
    exists x2. split_and!; [done|done|]. intros ri. by rewrite E2.
  - apply I2; [apply elem_of_app; by right|done].
Qed.

(** ** Looking up *)

Definition entry (e : TrackerElement) : Z * (Z * TrackerElement) := (te_reloc e, (te_reloc e + te_size e, e)).

Lemma map_set_in {A} k (v : A) m x : x ∈ map_set k v m -> x = (k, v) \/ x ∈ m.
Proof.
  induction m as [|[k' v'] m IH]; simpl; [set_solver|]. repeat case_match; [set_solver..|]. intros Hx. apply elem_of_cons in Hx as [->|Hx]; [set_solver|]. destruct (IH Hx); set_solver.
Qed.
Lemma map_set_last {A} k (v : A) l : Forall (fun x => x.1 < k) l -> map_set k v l = l ++ [(k, v)].
Proof.
  induction 1 as [|[k' v'] l Hk Hl IH]; simpl; [done|]. simpl in Hk. rewrite (proj2 (Z.ltb_ge k k')), (proj2 (Z.eqb_neq k k')) by lia. by rewrite IH.
Qed.

Lemma index_tree l : forall t a b, tiles a l b -> b < 2 ^ 64 -> 0 <= a -> Forall (fun x => x.1 < a) (relocToOrig_ t) ->
  relocToOrig_ (foldl index_one t l) = relocToOrig_ t ++ (entry <$> l).
Proof.
  induction l as [|e l IH]; intros t a b Ht Hb Ha Hl; simpl; [by rewrite app_nil_r|]. simpl in Ht. destruct Ht as (Er & Hs & Ht). pose proof (tiles_le _ _ _ Ht).
  assert (insert (te_reloc e) (u64 (te_reloc e + te_size e)) e (relocToOrig_ t) = relocToOrig_ t ++ [entry e]) as Ei.
  { unfold insert. rewrite u64_id by lia. apply map_set_last. by rewrite Er. }
  rewrite (IH _ (a + te_size e) b); try done; try lia.
  - unfold index_one at 1. simpl. rewrite Ei, <- app_assoc. done.
  - unfold index_one. simpl. rewrite Ei. apply Forall_app. split; [|apply Forall_singleton; simpl; lia]. eapply Forall_impl; [exact Hl|]. simpl. lia.
Qed.

Lemma lower_none l a b k : tiles a l b -> k < a -> lower k (entry <$> l) = None.
Proof. destruct l as [|e l]; simpl; [done|]. intros (-> & _ & _) Hk. by rewrite (proj2 (Z.leb_gt _ _)). Qed.
Lemma lower_some l a b e k : tiles a l b -> e ∈ l -> te_at e k -> lower k (entry <$> l) = Some (entry e).
Proof.
  revert a. induction l as [|x l IH]; intros a Ht He Hk; [by apply elem_of_nil in He|]. simpl in Ht. destruct Ht as (Ex & Hs & Ht). rewrite fmap_cons. cbn [lower entry fst]. unfold te_at in Hk.
  apply elem_of_cons in He as [->|He].
  - rewrite (proj2 (Z.leb_le _ _)) by lia. by rewrite (lower_none l (a + te_size x) b k) by (done || lia).
  - destruct (tiles_in _ _ _ e Ht He) as (? & _ & _). rewrite (proj2 (Z.leb_le _ _)) by lia. by rewrite (IH _ Ht He).
Qed.
Lemma lower_member l k x : lower k (entry <$> l) = Some x -> exists e, e ∈ l /\ x = entry e.
Proof.
  induction l as [|e l IH]; [done|]. rewrite fmap_cons. cbn [lower]. case_match; [|done]. destruct (lower k (entry <$> l)) as [y|]; intros E; injection E as <-.
  - destruct (IH eq_refl) as (e' & He' & ->). exists e'. split; [by right|done].
  - exists e. split; [by left|done].
Qed.

Lemma find_some l a b e k : tiles a l b -> e ∈ l -> te_at e k -> find k (entry <$> l) = Some e.
Proof.
  intros Ht He Hk. unfold find, precessor. rewrite (lower_some l a b e k) by done. unfold entry. unfold te_at in Hk.
  assert (te_reloc e + te_size e <=? k = false) as E by (apply Z.leb_gt; lia). rewrite E, (proj2 (Z.ltb_ge _ _)) by lia. by rewrite E.
Qed.
Lemma find_none l a b k : tiles a l b -> k < a \/ b <= k -> find k (entry <$> l) = None.
Proof.
  intros Ht [Hk|Hk]; unfold find, precessor.
  - by rewrite (lower_none l a b).
  - destruct (lower k (entry <$> l)) as [x|] eqn:E; [|done]. destruct (lower_member l k x E) as (e & He & ->). unfold entry.
    destruct (tiles_in a l b e Ht He) as (_ & ? & _). by rewrite (proj2 (Z.leb_le _ _)) by lia.
Qed.

(** ** The whole life of a tracker *)

Definition track (es : list TrackerElement) : CodeTracker := foldl index_one (mk_ct ∅ [] (foldl (fun l e => add_to e l) [] es)) (foldl (fun l e => add_to e l) [] es).

Lemma elem_relocToOrig_run e k a b : a <= te_reloc e -> te_reloc e + te_size e <= b -> 0 <= a -> b < 2 ^ 63 -> in_range e -> te_at e k -> elem_relocToOrig e k = Ret (te_info e k).
Proof.
  intros Ha Hb Ha0 Hb0 [R1 R2] Hk. unfold elem_relocToOrig, te_info. unfold te_at in Hk. rewrite u64_id by lia.
  rewrite (proj2 (Z.leb_le _ _)), (proj2 (Z.ltb_lt _ _)) by lia. simpl. destruct (te_kind e); [|done..]. rewrite u64_id by lia. f_equal. lia.
Qed.

Lemma tracked_run es a b :
  tiles a es b -> 0 <= a -> b < 2 ^ 63 -> b - a < 2 ^ 32 -> Forall in_range es -> unmerged es = true ->
  (forall e k ri, e ∈ es -> te_at e k -> relocToOrig k ri (track es) = Ret (true, info_of e k ri)) /\
  (forall k ri, k < a \/ b <= k -> relocToOrig k ri (track es) = Ret (false, ri)).
Proof.
  intros Ht Ha Hb Hd Hr Hu. destruct (addTracker_all_run es [] a a b) as (T & R & I); try done. set (l := foldl (fun l e => add_to e l) [] es) in *.
  assert (relocToOrig_ (track es) = entry <$> l) as Et by (unfold track; fold l; apply (index_tree l (mk_ct ∅ [] l) a b); (done || lia)).
  unfold relocToOrig. rewrite Et. split.
  - intros e k ri He Hk. destruct (I e k He Hk) as (e' & He' & Hk' & Hi). rewrite (find_some l a b e' k) by done. destruct (tiles_in a l b e' T He') as (B1 & B2 & _).
    rewrite (elem_relocToOrig_run e' k a b) by (try done; by apply (proj1 (Forall_forall _ _) R)). by rewrite <- (Hi ri).
  - intros k ri Hk. by rewrite (find_none l a b k).
Qed.
