(* ===== verification/CodeTrace.v ===== *)
(** * Tracing generated code

    The spans of the layout, the trackers [extractTrackers] makes of them, and the
    theorem that joins the layout of a buffer with the tracker of its code. *)
From stdpp Require Import base gmap list.
From S2P Require Import Prelude CodeGen CodeGenOk CodeTracker CodeBuffer CodeBufferOk CodeLayout CodeBuild CodeTrackerOk.
Import codegen codeTracker codeBuffer.

Definition tracker_of (sp : span) : option TrackerElement :=
  let '(t, a, n) := sp in e ← t ; Some (setSize n (setReloc a e)).
Definition trackers_of (sp : list span) : list TrackerElement := omap tracker_of sp.
Definition collect (t : CodeTracker) (es : list TrackerElement) : CodeTracker :=
  mk_ct (origToReloc_ t) (relocToOrig_ t) (foldl (fun l e => add_to e l) (trackers_ t) es).
Lemma collect_app t l1 l2 : collect (collect t l1) l2 = collect t (l1 ++ l2).
Proof. unfold collect. simpl. by rewrite foldl_app. Qed.

Lemma extract_trackers_run l addr sz from k t :
  offsets l from k -> 0 <= from -> k <= sz < 2 ^ 31 -> 0 <= addr -> addr + sz < 2 ^ 63 ->
  extract_trackers l addr sz t = Ret (tt, collect t (trackers_of (spans_of l addr sz))).
Proof.
  revert from t. induction l as [|[o x] l IH]; intros from t Ho Hf Hk Ha Hb; simpl; [by destruct t|]. destruct Ho as [Ho Hl].
  set (n := first_off l sz - o). assert (0 <= n <= sz) as Hn.
  { unfold n. destruct l as [|[o' x'] l]; simpl in *; lia. }
  assert ((match l with [] => sz - o | (next, _) :: _ => next - o end) = n) as -> by (unfold n; destruct l as [|[]]; done).
  set (t1 := if n =? 0 then t else collect t (trackers_of [(x, addr + o, n)])).
  rewrite (bind_ret _ _ t tt t1).
  - rewrite (IH (o + 1) t1) by (done || lia). do 2 f_equal. unfold t1, add_span. destruct (n =? 0); [done|]. unfold trackers_of. by rewrite collect_app, <- omap_app.
  - unfold t1, trackers_of. rewrite u32_id by lia. destruct x as [e|]; simpl; destruct (n =? 0); try done; [|by destruct t].
    unfold codeTracker.addTracker, modify, collect. simpl. rewrite u64_id by lia. by rewrite (Z.add_comm o addr).
Qed.

Section Trace.
Context {P : Type} `{PatchLaws P}.
Abbreviation labels l := (zsum is_label l).
Abbreviation total items := (zsum item_cap items).

Lemma extractTrackers_run (l : list (BufferElement P)) t a :
  (forall j e, l !! j = Some e -> el_addr e = a + off l j /\ tracked e /\ Z.of_nat (length (el_buffer e)) <= el_size e) ->
  0 <= a -> a + zsum el_size l < 2 ^ 63 -> zsum el_size l < 2 ^ 31 ->
  extractTrackers l t = Ret (true, collect t (trackers_of (elem_spans l a))).
Proof.
  revert t a. induction l as [|e l IH]; intros t a He Ha Hs Hs'; simpl; [by destruct t|]. rewrite zsum_cons in *.
  destruct (He 0%nat e eq_refl) as (Ea & Ht & Hb). unfold off in Ea. simpl in Ea. rewrite zsum_nil, Z.add_0_r in Ea.
  assert (0 <= zsum el_size l) as Hz.
  { apply zsum_nonneg. intros x Hx. apply list_elem_of_lookup_1 in Hx as [j Hj]. destruct (He (S j) x Hj) as (_ & _ & ?). lia. }
  rewrite (bind_ret _ _ _ _ _ (extract_trackers_run (el_trackers e) (el_addr e) (el_size e) 0 (Z.of_nat (length (el_buffer e))) t Ht ltac:(lia) ltac:(lia) ltac:(lia) ltac:(lia))).
  rewrite (IH _ (a + el_size e)); [|intros j x Hj; destruct (He (S j) x Hj) as (E & ? & ?); unfold off in *; simpl in E; rewrite zsum_cons in E; split_and!; (done || lia)|lia..].
  rewrite collect_app, Ea. unfold trackers_of. by rewrite omap_app.
Qed.

(** ** The spans follow each other *)

Fixpoint follow (a : Z) (sp : list span) (b : Z) : Prop :=
  match sp with [] => a = b | (_, a', n) :: sp' => a' = a /\ 0 < n /\ follow (a + n) sp' b end.
Lemma add_span_follow t a n sp b : 0 <= n -> follow (a + n) sp b -> follow a (add_span t a n sp) b.
Proof. intros Hn Hf. unfold add_span. destruct (n =? 0) eqn:E; zbool; [by rewrite E, Z.add_0_r in Hf|]. simpl. split_and!; [done|lia|done]. Qed.
Lemma laid_follow f (items : list (item P)) n a bs sp : laid f items n a bs sp -> follow a sp (a + Z.of_nat (length bs)).
Proof.
  induction 1 as [n a|l n a bs sp Hf H1 IH|xs t l n a bs sp H1 IH|p t k l n a bs sp Hk H1 IH]; simpl.
  - lia.
  - done.
  - apply add_span_follow; [lia|]. rewrite length_app. by replace (a + Z.of_nat (length xs + length bs)) with (a + Z.of_nat (length xs) + Z.of_nat (length bs)) by lia.
  - apply add_span_follow; [lia|]. rewrite !length_app, length_replicate.
    by replace (a + Z.of_nat (length (code p a f) + (k + length bs))) with (a + Z.of_nat (length (code p a f) + k) + Z.of_nat (length bs)) by lia.
Qed.

(** Every piece of code has a tracker. *)
Definition has_tracker (it : item P) : Prop := match it with ILabel => True | IPIC _ t | IPatch _ t => is_Some t end.
Lemma laid_trackers f (items : list (item P)) n a bs sp : laid f items n a bs sp -> Forall has_tracker items -> Forall (fun x => is_Some x.1.1) sp.
Proof.
  induction 1 as [n a|l n a bs sp Hf H1 IH|xs t l n a bs sp H1 IH|p t k l n a bs sp Hk H1 IH]; intros Ht; [done| | |]; inversion_clear Ht as [|x y Hx Hl].
  - by apply IH.
  - unfold add_span. case_match; [by apply IH|]. constructor; [done|by apply IH].
  - unfold add_span. case_match; [by apply IH|]. constructor; [done|by apply IH].
Qed.
Lemma follow_tiles a sp b : follow a sp b -> Forall (fun x => is_Some x.1.1) sp -> tiles a (trackers_of sp) b.
Proof.
  revert a. induction sp as [|[[t a'] n] sp IH]; intros a Hf Ht; [done|]. inversion_clear Ht as [|x y Hx Hl]. destruct Hx as [e Ee]. simpl in Ee. subst t. simpl in Hf. destruct Hf as (-> & Hn & Hf).
  simpl. split_and!; [done|done|]. by apply IH.
Qed.

(** Two pieces of emulated code whose trackers could be merged, and none such. *)
Definition tracker_in (it : item P) : option TrackerElement := match it with ILabel => None | IPIC _ t | IPatch _ t => t end.
Definition confusable (it1 it2 : item P) : bool :=
  match tracker_in it1, tracker_in it2 with
  | Some e1, Some e2 =>
      bool_decide (type e1 = emulated) && bool_decide (type e2 = emulated) && bool_decide (te_block e2 = te_block e1) && bool_decide (te_func e2 = te_func e1) &&
      (te_orig e1 <? te_orig e2) && (te_orig e2 <=? te_orig e1 + item_cap it1)
  | _, _ => false
  end.
Fixpoint apart (l : list (item P)) : bool :=
  match l with [] => true | it :: l' => forallb (fun it2 => negb (confusable it it2)) l' && apart l' end.
Definition orig_ok (it : item P) : Prop :=
  match tracker_in it with Some e => 0 <= te_orig e /\ te_orig e + item_cap it < 2 ^ 63 | None => True end.

Lemma laid_span_item f (l : list (item P)) n a bs sp t a' m :
  laid f l n a bs sp -> (t, a', m) ∈ sp -> exists it, it ∈ l /\ tracker_in it = t /\ 0 < m <= item_cap it.
Proof.
  induction 1 as [n a|l n a bs sp Hf H1 IH|xs x l n a bs sp H1 IH|p x k l n a bs sp Hk H1 IH]; intros Hin; [by apply elem_of_nil in Hin| | |].
  - destruct (IH Hin) as (it & ? & ? & ?). exists it. split; [by right|done].
  - unfold add_span in Hin. destruct (_ =? 0) eqn:E; zbool; [|apply elem_of_cons in Hin as [Hin|Hin]; [injection Hin as -> -> ->|]].
    2:{ exists (IPIC xs x). split_and!; [by left|done|lia|cbn [item_cap]; lia]. }
    all: destruct (IH Hin) as (it & ? & ? & ?); exists it; (split; [by right|done]).
  - unfold add_span in Hin. destruct (_ =? 0) eqn:E; zbool; [|apply elem_of_cons in Hin as [Hin|Hin]; [injection Hin as -> -> ->|]].
    2:{ exists (IPatch p x). split_and!; [by left|done|lia|cbn [item_cap]; lia]. }
    all: destruct (IH Hin) as (it & ? & ? & ?); exists it; (split; [by right|done]).
Qed.

Lemma span_unmerged f (it : item P) (l : list (item P)) n a bs sp a0 m :
  laid f l n a bs sp -> forallb (fun it2 => negb (confusable it it2)) l = true -> orig_ok it -> 0 <= m <= item_cap it ->
  unmerged (trackers_of sp) = true -> Forall in_range (trackers_of sp) ->
  unmerged (trackers_of (add_span (tracker_in it) a0 m sp)) = true /\ Forall in_range (trackers_of (add_span (tracker_in it) a0 m sp)).
Proof.
  intros Hl Hap Ho Hm Hu Hr. unfold add_span. destruct (m =? 0) eqn:Em; zbool; [done|]. unfold orig_ok in Ho. destruct (tracker_in it) as [e|] eqn:Et; [|done].
  change (trackers_of ((Some e, a0, m) :: sp)) with (setSize m (setReloc a0 e) :: trackers_of sp). split; [|constructor; [split; simpl; lia|done]].
  destruct (trackers_of sp) as [|e2 es] eqn:Es; [done|]. change (negb (clash (setSize m (setReloc a0 e)) e2) && unmerged (e2 :: es) = true). rewrite Hu, andb_true_r. apply negb_true_iff.
  assert (e2 ∈ trackers_of sp) as Hin by (rewrite Es; by left). unfold trackers_of in Hin. apply list_elem_of_omap in Hin as ([[t2 a2] m2] & Hin & E2).
  destruct t2 as [x|]; [|done]. injection E2 as <-. destruct (laid_span_item f l n a bs sp (Some x) a2 m2 Hl Hin) as (it2 & Hit2 & Et2 & _).
  rewrite forallb_forall in Hap. specialize (Hap it2 ltac:(by apply list_elem_of_In)). apply negb_true_iff in Hap. unfold confusable in Hap. rewrite Et, Et2 in Hap.
  destruct (clash _ _) eqn:Ec; [|done]. exfalso. unfold clash in Ec. apply andb_prop in Ec as [Ec1 Ec2%bool_decide_eq_true]. destruct (merges_parts _ _ Ec1) as (P1 & _ & P3 & P4 & P5).
  change (type (setSize m (setReloc a0 e))) with (type e) in *. change (type (setSize m2 (setReloc a2 x))) with (type x) in *. cbn [te_orig te_size te_block te_func setSize setReloc] in P3, P4, P5.
  rewrite u64_id in P3 by lia. rewrite !bool_decide_eq_true_2 in Hap by congruence. rewrite (proj2 (Z.ltb_lt _ _)), (proj2 (Z.leb_le _ _)) in Hap by lia. done.
Qed.

Lemma laid_unmerged f (l : list (item P)) n a bs sp :
  laid f l n a bs sp -> apart l = true -> Forall orig_ok l -> unmerged (trackers_of sp) = true /\ Forall in_range (trackers_of sp).
Proof.
  induction 1 as [n a|l n a bs sp Hf H1 IH|xs x l n a bs sp H1 IH|p x k l n a bs sp Hk H1 IH]; intros Hap Ho; [done| | |];
    inversion_clear Ho as [|? ? Hx Hl]; cbn [apart] in Hap; apply andb_prop in Hap as [Hap1 Hap2]; destruct (IH Hap2 Hl) as [Hu Hr]; [done|..].
  - apply (span_unmerged f (IPIC xs x) l n _ _ _ a _ H1 Hap1 Hx); [simpl; lia|done|done].
  - apply (span_unmerged f (IPatch p x) l n _ _ _ a _ H1 Hap1 Hx); [simpl; lia|done|done].
Qed.

(** [CodeMover::finalize] and [createIndices]. *)
Definition trace (s : CodeBuffer P) : res CodeTracker :=
  match (extractTrackers (buffers_ s) ;; createIndices) CodeTracker_new with Ret (_, t) => Ret t | Fault x => Fault x end.

Lemma trace_run items base s f bs (sp := elem_spans (buffers_ s) base) :
  laid_out items base s f bs -> 0 < base -> base + 2 * total items < 2 ^ 63 -> total items < 2 ^ 31 ->
  trace s = Ret (track (trackers_of sp)).
Proof.
  intros [L1 L2 L3 L4 L5 L6 L7] Hb Ht Hi. unfold trace.
  rewrite (bind_ret _ _ _ _ _ (extractTrackers_run (buffers_ s) CodeTracker_new base L7 ltac:(lia) ltac:(lia) ltac:(lia))). done.
Qed.

End Trace.

(** C20: of generated code every address leads back: once the trackers of a buffer were
    handed over and indexed, [relocToOrig] at any address of the code of a piece gives
    the original address, the block and the function that the piece was added with
    (for an original instruction, the same byte of it), however the trackers were
    merged, and nothing for addresses outside the code.  No two pieces of emulated
    code may look like one ([apart]). *)
Theorem moved_code_is_traced {P : Type} `{PatchLaws P} (width : Z) (templ : codeGen) (numBlocks : Z) (items : list (item P)) (rounds : nat) (base : Z) :
  aWidth templ = 8 -> buildable items base -> 2 * zsum item_cap items + 1 < Z.of_nat rounds -> Forall has_tracker items -> Forall orig_ok items -> apart items = true ->
  exists s f bs sp t, assemble width templ numBlocks items rounds base = Ret (seqZ 1 (zsum is_label items), true, s) /\
    laid f items 1 base bs sp /\ trace s = Ret t /\
    (forall e a n k ri, (Some e, a, n) ∈ sp -> a <= k < a + n -> relocToOrig k ri t = Ret (true, info_of (setSize n (setReloc a e)) k ri)) /\
    (forall k ri, k < base \/ base + Z.of_nat (length bs) <= k -> relocToOrig k ri t = Ret (false, ri)).
Proof.
  intros Hw HA Hr Htr Ho Hap. destruct (assemble_run width templ numBlocks items rounds base Hw HA Hr) as (s & f & bs & E & HL).
  pose proof HA as [A1 A2 A3 A4 A5]. pose proof HL as [L1 L2 L3 L4 L5 L6 L7]. pose proof (item_cap_nonneg items) as H0i. unfold codeGenPadding in *.
  destruct (laid_unmerged f items 1 base bs _ L1 Hap Ho) as [Hun Hir].
  pose proof (follow_tiles _ _ _ (laid_follow f items 1 base bs _ L1) (laid_trackers f items 1 base bs _ L1 Htr)) as Ht.
  destruct (tracked_run _ _ _ Ht ltac:(lia) ltac:(lia) ltac:(lia) Hir Hun) as [T1 T2].
  exists s, f, bs, (elem_spans (buffers_ s) base), (track (trackers_of (elem_spans (buffers_ s) base))). split_and!; [done|done|by apply (trace_run items base s f bs); (done || lia)| |done].
  intros e a n k ri He Hk. apply T1; [|done]. unfold trackers_of. apply list_elem_of_omap. exists (Some e, a, n). done.
Qed.
