(* ===== verification/RelocFlow.v ===== *)
(** * Where moved instructions go

    The processor's meaning of the bytes of conditional jumps and calls, as
    [jump_of] gives that of jumps, and that moved instructions go where the
    originals went, on the same condition. *)
From stdpp Require Import base list.
From S2P Require Import Prelude CodeGen CodeGenOk CodeInsnOk.
Import codegen.

(** The condition of a short conditional jump: a number for those of the flags, the
    opcode for those of the counter. *)
Definition cond8 (op : Z) : option Z :=
  if (0x70 <=? op) && (op <? 0x80) then Some (op - 0x70) else if (0xE0 <=? op) && (op <=? 0xE3) then Some op else None.

(** Of code at [a] that is a conditional jump: its condition, where it goes and where
    it goes on.  The last form jumps over a short jump to a jump. *)
Definition cond_of (a : Z) (bs : list Z) : option (Z * Z * Z) :=
  match bs with
  | [op; d] => c ← cond8 op ; Some (c, u64 (a + 2 + swrap 8 d), u64 (a + 2))
  | op :: op2 :: op3 :: op4 :: rest =>
      if op =? 0x0f then
        if (0x80 <=? op2) && (op2 <? 0x90) && (length rest =? 2)%nat then Some (op2 - 0x80, u64 (a + 6 + s32 (le_dec (op3 :: op4 :: rest))), u64 (a + 6)) else None
      else if (op2 =? 2) && (op3 =? 0xEB) then
        c ← cond8 op ; t ← jump_of (u64 (a + 4)) rest ; Some (c, t, u64 (a + 4 + swrap 8 op4))
      else None
  | _ => None
  end.

(** A call: where it goes and where it returns to. *)
Definition call_of (a : Z) (bs : list Z) : option (Z * Z) :=
  match bs with
  | op :: ([_; _; _; _] as d) => if op =? 0xE8 then Some (u64 (a + 5 + s32 (le_dec d)), u64 (a + 5)) else None
  | _ => r ← popped (take 16 bs ++ [0xC3]) ; t ← popped (drop 16 bs) ; Some (t, r)
  end.

(** The condition of an original instruction, behind its prefixes. *)
Definition orig_cond (orig : list Z) : option Z :=
  match skip_0f orig with
  | op :: _ => if (0x80 <=? op) && (op <? 0x90) then Some (op - 0x80) else cond8 op
  | [] => None
  end.

Lemma disp8_target a to k : is_disp8 (s64 (to - (a + k))) = true -> 0 <= to < 2 ^ 64 -> u64 (a + k + swrap 8 (u8 (s64 (to - (a + k))))) = to.
Proof.
  intros E8 Ht. apply is_disp8_range in E8. rewrite swrap_uwrap, swrap_id by (unfold srange; simpl; lia).
  rewrite u64_s64. replace (a + k + (to - (a + k))) with to by lia. by apply u64_id.
Qed.
Lemma disp32_target a to k : is_disp32 (s64 (to - (a + k))) = true -> 0 <= to < 2 ^ 64 -> u64 (a + k + s32 (le_dec (le_enc 4 (u32 (s64 (to - (a + k))))))) = to.
Proof.
  intros E32 Ht. apply is_disp32_range in E32. rewrite le_dec_enc by exact (uwrap_range 32 _ ltac:(lia)). rewrite swrap_uwrap, s32_id by lia.
  rewrite u64_s64. replace (a + k + (to - (a + k))) with to by lia. by apply u64_id.
Qed.

(** ** Calls *)

Lemma call_bytes_call a to :
  0 <= to < 2 ^ 64 -> 0 <= a -> a + 33 < 2 ^ 64 -> call_of a (call_bytes a to) = Some (to, a + Z.of_nat (length (call_bytes a to))).
Proof.
  intros Ht Ha Ha'. unfold call_bytes. change CALL_REL32_SZ with 5. destruct (is_disp32 _) eqn:E.
  - pose proof (disp32_target a to 5 E Ht) as Et. cbn [le_enc] in Et |- *. unfold call_of. cbn [Z.eqb Pos.eqb]. rewrite Et. simpl. rewrite u64_id by lia. done.
  - change CALL_ABS64_SZ with 33. rewrite u64_id by lia.
    assert (call_of a (push64_bytes (a + 33) ++ push64_bytes to ++ [0xC3]) =
      (r ← popped (push64_bytes (a + 33) ++ [0xC3]) ; t ← popped (push64_bytes to ++ [0xC3]) ; Some (t, r))) as -> by reflexivity.
    unfold push64_bytes. rewrite (popped_push64 (a + 33)), (popped_push64 to) by lia. done.
Qed.

(** ** Conditional jumps *)

Lemma rel8_cond orig op r c : value (convert_to_rel8 orig) = Some (op, r) -> orig_cond orig = Some c -> exists b, op = [b] /\ cond8 b = Some c /\ b <> 0x0f.
Proof.
  unfold convert_to_rel8, orig_cond. rewrite value_bind. destruct (skip_0f orig) as [|b l]; [done|]. simpl. unfold cond8.
  destruct ((0x70 <=? b) && (b <? 0x80)) eqn:E1; zbool.
  - simpl. intros [= <- <-]. rewrite (proj2 (Z.leb_gt 0x80 b)) by lia. simpl. intros [= <-]. exists b. split_and!; [done| |lia].
    by rewrite (proj2 (Z.leb_le 0x70 b)), (proj2 (Z.ltb_lt b 0x80)) by lia.
  - destruct ((0x80 <=? b) && (b <? 0x90)) eqn:E2; zbool.
    + simpl. intros [= <- <-] [= <-]. exists (b - 0x10). split_and!; [done| |lia]. rewrite (proj2 (Z.leb_le 0x70 _)), (proj2 (Z.ltb_lt _ 0x80)) by lia. simpl. f_equal. lia.
    + intros Hop Hc. destruct ((0xE0 <=? b) && (b <=? 0xE3)) eqn:E3; [|done]. zbool. injection Hc as <-. exists b.
      destruct ((0xE0 <=? b) || (b <=? 0xE3)) eqn:E4; [|done]. injection Hop as <- <-. split_and!; [done| |lia].
      rewrite (proj2 (Z.leb_le 0xE0 b)), (proj2 (Z.leb_le b 0xE3)) by lia. by rewrite (proj2 (Z.ltb_ge b 0x80)), andb_false_r by lia.
Qed.
Lemma rel32_cond orig op r c : value (convert_to_rel32 orig) = Some (op, r) -> orig_cond orig = Some c -> exists b, op = [0x0f; b] /\ 0x80 <= b < 0x90 /\ b - 0x80 = c.
Proof.
  unfold convert_to_rel32, orig_cond. rewrite value_bind. destruct (skip_0f orig) as [|b l]; [done|]. simpl. unfold cond8.
  destruct ((0x70 <=? b) && (b <? 0x80)) eqn:E1; zbool.
  - simpl. intros [= <- <-]. rewrite (proj2 (Z.leb_gt 0x80 b)) by lia. simpl. intros [= <-]. exists (b + 0x10). split_and!; [done|lia..].
  - destruct ((0x80 <=? b) && (b <? 0x90)) eqn:E2; zbool; [|done]. simpl. intros [= <- <-] [= <-]. exists b. split_and!; done || lia.
Qed.

Lemma moved_jcc_flow i a to xs orig c :
  value (copy_prefixes_nosize_or_segments (count_prefixes (i_type i)) (i_ptr i)) = Some ([], orig) -> orig_cond orig = Some c ->
  moved_jcc i a to = Some xs -> 0 <= to < 2 ^ 64 -> 0 <= a -> a + 60 < 2 ^ 63 -> at_limit (u64 (a + 4)) to = false ->
  cond_of a xs = Some (c, to, a + Z.of_nat (length xs)).
Proof.
  intros Ev Hc Hx Ht Ha Ha' Hl. unfold moved_jcc in Hx. rewrite Ev in Hx. cbn [mbind option_bind] in Hx. simpl (length []) in Hx. cbv zeta in Hx. rewrite !Z.add_0_r, (u64_id a) in Hx by lia.
  destruct (is_disp8 _) eqn:E8.
  { destruct (value (convert_to_rel8 orig)) as [[op r]|] eqn:Eo; [|done]. injection Hx as <-. destruct (rel8_cond _ _ _ _ Eo Hc) as (b & -> & Hb & _).
    simpl. rewrite Hb. simpl. rewrite (disp8_target a to 2 E8 Ht), u64_id by lia. done. }
  destruct (value (next_byte orig)) as [[b0 r0]|]; [|done]. cbn [mbind option_bind] in Hx. destruct (_ && _) eqn:E32.
  { apply andb_prop in E32 as [_ E32]. destruct (value (convert_to_rel32 orig)) as [[op r]|] eqn:Eo; [|done]. injection Hx as <-.
    destruct (rel32_cond _ _ _ _ Eo Hc) as (b & -> & Hb & <-). pose proof (disp32_target a to 6 E32 Ht) as Et. cbn [le_enc app] in Et |- *.
    unfold cond_of. simpl (length _). cbn [Z.eqb Pos.eqb Nat.eqb]. rewrite (proj2 (Z.leb_le 0x80 b)), (proj2 (Z.ltb_lt b 0x90)) by lia. cbn [andb]. rewrite Et, u64_id by lia. done. }
  destruct (value (convert_to_rel8 orig)) as [[op r]|] eqn:Eo; [|done]. destruct (rel8_cond _ _ _ _ Eo Hc) as (b & -> & Hb & Hn). injection Hx as <-.
  simpl (length _). change (Z.of_nat 4) with 4. set (jump := branch_bytes 8 (u64 (a + 4)) to).
  pose proof (branch_bytes_length 8 (u64 (a + 4)) to) as Hj. fold jump in Hj.
  unfold cond_of. cbn [app]. assert ((b =? 0x0f) = false) as -> by (by apply Z.eqb_neq). cbn [Z.eqb Pos.eqb andb]. rewrite Hb. cbn [mbind option_bind].
  rewrite (branch_bytes_jump (u64 (a + 4)) to Ht Hl : jump_of (u64 (a + 4)) jump = _). cbn [mbind option_bind]. do 2 f_equal. rewrite swrap_uwrap, swrap_id by (unfold srange; simpl; lia).
  rewrite u64_id by lia. simpl. lia.
Qed.

(** ** The reach of a jump *)

(** Code that is appended to a buffer and, at [a], jumps to [to]. *)
Definition jumps (cap : Z) (m : M codeGen unit) (g : codeGen) (bs : list (option Z)) (a to : Z) : Prop :=
  exists j, emits cap m g bs tt (Some <$> j) /\ jump_of a j = Some to.

Lemma holds_inj cap g bs bs' : holds cap g bs -> holds cap g bs' -> bs = bs'.
Proof.
  intros [(b1 & E1 & _ & T1) _ O1 _] [(b2 & E2 & _ & T2) _ O2 _]. assert (length bs = length bs') as El by lia. rewrite <- T1, <- T2, El. congruence.
Qed.
Lemma emits_inj cap (m : M codeGen unit) g bs xs ys : emits cap m g bs tt (Some <$> xs) -> emits cap m g bs tt (Some <$> ys) -> xs = ys.
Proof.
  intros (g1 & E1 & H1 & _) (g2 & E2 & H2 & _). assert (g2 = g1) as -> by congruence. pose proof (holds_inj _ _ _ _ H1 H2) as E. apply app_inv_head in E. by apply (inj (fmap Some)) in E.
Qed.

(** The displacement of a jump over a distance just within 32 bits wraps around. *)
Lemma wrapped_target from to :
  0 <= from < 2 ^ 63 -> 0 <= to < 2 ^ 63 -> - 2 ^ 31 < to - from < - 2 ^ 31 + 5 -> jump_of from (0xE9 :: le_enc 4 (u32 (to - from - 5))) = Some (to + 2 ^ 32).
Proof.
  intros Hf Ht Hd. unfold jump_of. assert (s32 (le_dec (le_enc 4 (u32 (to - from - 5)))) = to - from - 5 + 2 ^ 32) as Ed.
  { rewrite le_dec_enc by exact (uwrap_range 32 _ ltac:(lia)). rewrite swrap_uwrap by lia. unfold swrap. change (2 ^ (32 - 1)) with (2 ^ 31).
    replace (to - from - 5 + 2 ^ 31) with (to - from - 5 + 2 ^ 31 + 2 ^ 32 + -1 * 2 ^ 32) by lia. rewrite Z.mod_add, Z.mod_small by lia. lia. }
  cbn [le_enc] in Ed |- *. rewrite Ed. cbn [Z.eqb Pos.eqb]. rewrite u64_id by lia. f_equal. lia.
Qed.

Lemma generateBranch_near from to g :
  at_limit from to = true -> 0 <= from < 2 ^ 63 -> 0 <= to < 2 ^ 63 -> generateBranch from to g = generateBranch_disp (to - from) g.
Proof.
  unfold at_limit. intros [H1 H2]%andb_prop Hf Ht. zbool. rewrite swrap_id in H1, H2 by (unfold srange; simpl; lia). unfold generateBranch, is_disp8, is_disp32.
  rewrite !swrap_id by (unfold srange; simpl; lia). rewrite (proj2 (Z.leb_gt (-128) _)) by lia. cbn [andb]. rewrite bind_gets.
  rewrite (proj2 (Z.leb_le (to - from) _)), (proj2 (Z.leb_le _ (to - from))) by lia. done.
Qed.

(** C21: a jump generated at an address goes where it should, by a displacement of 8 or of
    32 bits or by pushing the target and returning to it, except over the five
    lowest distances that are taken to fit 32 bits: those are stopped by an assertion
    or miss the target by 4 GB. *)
Theorem generated_jump_reaches (cap : Z) (g : codeGen) (bs : list (option Z)) (from to : Z) :
  cap + codeGenPadding < 2 ^ 31 -> holds cap g bs -> aWidth g = 8 -> roomy cap (length bs) 17 -> 0 <= from < 2 ^ 63 -> 0 <= to < 2 ^ 63 ->
  jumps cap (generateBranch from to) g bs from to <-> at_limit from to = false.
Proof.
  intros Hcap HH Hw Hr Hf Ht. split.
  - intros (j & Hj & Ej). destruct (at_limit from to) eqn:El; [exfalso|done]. pose proof (generateBranch_near from to g El Hf Ht) as En.
    unfold at_limit in El. apply andb_prop in El as [H1 H2]. zbool. rewrite swrap_id in H1, H2 by (unfold srange; simpl; lia).
    destruct (decide (to - from = - 2 ^ 31)) as [Ed|Hd].
    + destruct Hj as (g' & E & _). rewrite En, Ed in E. done.
    + destruct (generateBranch_disp_run cap Hcap g bs (to - from) HH ltac:(lia) ltac:(cg)) as (g' & E & HH' & P').
      assert (j = 0xE9 :: le_enc 4 (u32 (to - from - 5))) as Ejj by (apply (emits_inj cap (generateBranch from to) g bs); [done|]; exists g'; by rewrite En).
      rewrite Ejj, wrapped_target in Ej by lia. injection Ej as Ej. lia.
  - intros El. exists (branch_bytes 8 from to). split; [by apply generateBranch_run|]. apply branch_bytes_jump; [lia|done].
Qed.

Lemma generated_jump_reaches_witness :
  (jumps 0x10000 (generateBranch 0x400000 0x401000) (fresh (codeGen_new 8) 0x100) [] 0x400000 0x401000 <-> at_limit 0x400000 0x401000 = false) /\
  (jumps 0x10000 (generateBranch 0x80400003 0x400005) (fresh (codeGen_new 8) 0x100) [] 0x80400003 0x400005 <-> at_limit 0x80400003 0x400005 = false).
Proof.
  split; apply generated_jump_reaches; first [apply (fresh_holds 0x10000); lia | done | unfold roomy; simpl; lia | lia].
Defined.
