(* ===== verification/RelocBlock.v ===== *)
(** * Blocks of moved code (dyninstAPI/src/Relocation/CFG/RelocBlock.C, Widgets/CFWidget.C,
      CFWidget-x86.C, InsnWidget.C, RelDataWidget.C, CodeMover.C)

    A moved block is a list of widgets that ends with its control flow.  CodeMover
    decides for each block which of its jumps it needs, by the block that follows,
    and lets its widgets add their code to the buffer; then the buffer is generated.

    Blocks are known by their positions in the list of the graph.  A label of a block
    is read when a patch is applied, that is, after all blocks were added; the
    functions take the labels as [lbl].  Left out are the widgets of
    instrumentation and of memory emulation. *)
From stdpp Require Import base gmap list.
From S2P Require Import Prelude CodeGen CodeTracker CodeBuffer RelocPatch.
Import codegen codeTracker codeBuffer relocation.

Module relocBlock.

Inductive edge_type : Type := CALL | COND_TAKEN | COND_NOT_TAKEN | INDIRECT | DIRECT | FALLTHROUGH | CATCH | CALL_FT | RET | NOEDGE.
#[export] Instance edge_type_eq_dec : EqDecision edge_type.
Proof. solve_decision. Defined.

(** The target of an edge: a moved block, a block that is not moved, an address. *)
Inductive trg : Type := TReloc (i : nat) | TBlock (b : block_instance) | TAddr (a : Z).
Record RelocEdge : Type := mk_edge { ed_type : edge_type; ed_trg : trg }.

(** A target in the map of destinations, and whether it needs a jump. *)
Record dest : Type := mk_dest { d_trg : trg; d_necessary : bool }.

(** What the decoder tells of an instruction: the number of its prefixes, the size of
    its opcode and the place of its ModRM byte. *)
Record ia32_locations : Type := mk_loc { num_prefixes : Z; opcode_size : Z; modrm_position : Z }.

Record CFWidget : Type := mk_cfw {
  isCall_ : bool;
  isConditional_ : bool;
  isIndirect_ : bool;
  gap_ : N;
  insn_ : option instruction;
  insn_loc : ia32_locations;
  cf_addr : Z;
  origTarget_ : Z;
  destMap_ : list (Z * dest)
}.

Inductive widget : Type :=
| InsnWidget (bs : list Z) (addr : Z)
| RelDataWidget (insn : instruction) (addr target : Z).

(** The elements but the last, which is the control flow; [rb_last] is the address of
    the last instruction of the block, [rb_defensive] whether the mode of its object
    is defensive. *)
Record RelocBlock : Type := mk_rb {
  rb_origAddr : Z;
  rb_block : block_instance;
  rb_func : option func_instance;
  rb_last : Z;
  rb_defensive : bool;
  rb_elements : list widget;
  rb_cf : CFWidget;
  rb_outs : list RelocEdge;
  rb_label : Z
}.

Definition Fallthrough : Z := 1.
Definition Taken : Z := 2.
Definition REL_D_DATA : Z := 2 ^ 18.

Definition set_dests (m : list (Z * dest)) (w : CFWidget) : CFWidget :=
  mk_cfw (isCall_ w) (isConditional_ w) (isIndirect_ w) (gap_ w) (insn_ w) (insn_loc w) (cf_addr w) (origTarget_ w) m.
Definition set_cf (w : CFWidget) (b : RelocBlock) : RelocBlock :=
  mk_rb (rb_origAddr b) (rb_block b) (rb_func b) (rb_last b) (rb_defensive b) (rb_elements b) w (rb_outs b) (rb_label b).
Definition set_label (l : Z) (b : RelocBlock) : RelocBlock :=
  mk_rb (rb_origAddr b) (rb_block b) (rb_func b) (rb_last b) (rb_defensive b) (rb_elements b) (rb_cf b) (rb_outs b) l.

Section Blocks.
Context (blocks : list RelocBlock) (lbl : nat -> Z).

Definition find_dest (k : Z) (m : list (Z * dest)) : option dest := snd <$> head (filter (fun x => x.1 = k) m).

Definition trg_origAddr (t : trg) : Z :=
  match t with
  | TReloc i => match blocks !! i with Some b => rb_origAddr b | None => 0 end
  | TBlock b => b_start b
  | TAddr a => a
  end.
Definition matches (t : trg) (i : nat) : bool := match t with TReloc j => (j =? i)%nat | _ => false end.
Definition resolve (t : trg) : target := match t with TReloc i => RelocBlockTarget (lbl i) | TBlock b => BlockTarget (b_start b) | TAddr a => AddrTarget a end.

(** ** Which jumps are needed *)

Definition isNecessary (i : nat) (b : RelocBlock) (t : trg) (ty : edge_type) : bool :=
  if negb (S i <? length blocks)%nat then true                        (* no next block *)
  else if bool_decide (rb_elements b = []) && (bool_decide (ty = DIRECT) || bool_decide (ty = COND_TAKEN)) then true
  else if bool_decide (ty = CALL) then true
  else if negb (gap_ (rb_cf b) =? 0)%N then true
  else negb (matches t (S i)).

Definition edge_index (e : RelocEdge) : option Z :=
  match ed_type e with
  | CATCH | RET | NOEDGE => None
  | FALLTHROUGH | COND_NOT_TAKEN | CALL_FT => Some Fallthrough
  | DIRECT | COND_TAKEN | CALL => Some Taken
  | INDIRECT => Some (trg_origAddr (ed_trg e))
  end.

(** The destinations after the edges of a list. *)
Fixpoint add_dests (i : nat) (b : RelocBlock) (l : list RelocEdge) (m : list (Z * dest)) : list (Z * dest) :=
  match l with
  | [] => m
  | e :: l' =>
      match edge_index e with
      | Some k => add_dests i b l' (map_set k (mk_dest (ed_trg e) (isNecessary i b (ed_trg e) (ed_type e))) m)
      | None => add_dests i b l' m
      end
  end.
Definition finalizeCF (i : nat) (b : RelocBlock) : RelocBlock :=
  set_cf (set_dests (add_dests i b (rb_outs b) (destMap_ (rb_cf b))) (rb_cf b)) b.

(** ** Trackers of control flow *)

Definition cf_tracker (b : RelocBlock) (w : CFWidget) : M (CodeBuffer patch) TrackerElement :=
  assertM (negb (cf_addr w =? 1)) ;;
  mret (new_tracker EmulatorTracker (cf_addr w) (rb_block b) (rb_func b)).
Definition destTracker (b : RelocBlock) (t : trg) : M (CodeBuffer patch) TrackerElement :=
  match t with
  | TReloc j =>
      match blocks !! j with
      | Some d => mret (new_tracker EmulatorTracker (rb_origAddr d) (rb_block d) (rb_func d))
      | None => fail FBadPtr
      end
  | TBlock d => mret (new_tracker EmulatorTracker (b_start d) d None)
  | TAddr _ => mret (new_tracker EmulatorTracker (rb_last b) (rb_block b) (rb_func b))
  end.
Definition padTracker (b : RelocBlock) (addr : Z) (size : N) : TrackerElement :=
  new_tracker (PaddingTracker (Z.of_N size)) addr (rb_block b) (rb_func b).

(** ** Generating control flow *)

Definition cfw_generateBranch (b : RelocBlock) (to : dest) (insn : option instruction) (fallthrough : bool) : M (CodeBuffer patch) bool :=
  if negb (d_necessary to) then mret true else
  let newPatch := PCF (mk_cf Jump insn (resolve (d_trg to))) in
  t ← (if fallthrough then destTracker b (d_trg to) else cf_tracker b (rb_cf b)) ;
  addPatch newPatch (Some t) ;;
  mret true.

(** There may be no destination. *)
Definition cfw_generateCall (b : RelocBlock) (to : option dest) (insn : option instruction) : M (CodeBuffer patch) bool :=
  match to with
  | None => mret true
  | Some d => t ← cf_tracker b (rb_cf b) ; addPatch (PCF (mk_cf Call insn (resolve (d_trg d)))) (Some t) ;; mret true
  end.
Definition generateConditionalBranch (b : RelocBlock) (to : option dest) (insn : option instruction) : M (CodeBuffer patch) bool :=
  match to with
  | None => fail FAssert
  | Some d => t ← cf_tracker b (rb_cf b) ; addPatch (PCF (mk_cf JCC insn (resolve (d_trg d)))) (Some t) ;; mret true
  end.

(** The bytes of an indirect branch: a call becomes a jump. *)
Definition fix_opcode (loc : ia32_locations) (i : Z) (x : Z) : Z :=
  if (num_prefixes loc <=? i) && (i <? num_prefixes loc + opcode_size loc) && (x =? 0xE8) then 0xE9 else x.
Definition fiddle_mod_rm (loc : ia32_locations) (raw : list Z) : bool :=
  existsb (fun x => x =? 0xFF) (take (Z.to_nat (opcode_size loc)) (drop (Z.to_nat (num_prefixes loc)) raw)).
Definition fix_modrm (loc : ia32_locations) (fiddle : bool) (i : Z) (x : Z) : Z :=
  if (num_prefixes loc + opcode_size loc <=? i) && (i =? modrm_position loc) && fiddle then Z.land (Z.lor x 0x20) (Z.lnot 0x10) else x.
Definition indirect_bytes (loc : ia32_locations) (raw : list Z) : list Z :=
  imap (fun i x => fix_modrm loc (fiddle_mod_rm loc raw) (Z.of_nat i) (fix_opcode loc (Z.of_nat i) x)) raw.
Definition generateIndirect (b : RelocBlock) (w : CFWidget) : M (CodeBuffer patch) bool :=
  match insn_ w with
  | None => fail FNull
  | Some i => t ← cf_tracker b w ; addPIC (indirect_bytes (insn_loc w) (i_ptr i)) (Some t) ;; mret true
  end.
Definition generateIndirectCall (b : RelocBlock) (w : CFWidget) : M (CodeBuffer patch) bool :=
  match insn_ w with
  | None => fail FNull
  | Some i =>
      if negb (Z.land (i_type i) REL_D_DATA =? 0) then
        assertM (negb (origTarget_ w =? 0)) ;;
        t ← cf_tracker b w ;
        addPatch (PCF (mk_cf Data (Some i) (AddrTarget (origTarget_ w)))) (Some t) ;; mret true
      else t ← cf_tracker b w ; addPIC (i_ptr i) (Some t) ;; mret true
  end.

(** [CFWidget::generate], whose cases are those below, and the padding at its end. *)
Definition generate_single (b : RelocBlock) (w : CFWidget) : M (CodeBuffer patch) bool :=
  match find_dest Taken (destMap_ w), find_dest Fallthrough (destMap_ w) with
  | Some d, _ => if d_necessary d then cfw_generateBranch b d (insn_ w) false else mret true
  | None, Some d => if d_necessary d then cfw_generateBranch b d (insn_ w) true else mret true
  | None, None => fail FAssert
  end.
Definition generate_taken_ft (b : RelocBlock) (w : CFWidget) : M (CodeBuffer patch) bool :=
  ok ← (if isCall_ w then assertM (negb (isConditional_ w)) ;; cfw_generateCall b (find_dest Taken (destMap_ w)) (insn_ w)
        else generateConditionalBranch b (find_dest Taken (destMap_ w)) (insn_ w)) ;
  if negb ok then mret false else
  match find_dest Fallthrough (destMap_ w) with
  | Some ft => if d_necessary ft then cfw_generateBranch b ft (insn_ w) true else mret true
  | None => mret true
  end.
Definition generate_indirect (b : RelocBlock) (w : CFWidget) : M (CodeBuffer patch) bool :=
  if isCall_ w then
    ok ← generateIndirectCall b w ;
    if negb ok then mret false else
    match find_dest Fallthrough (destMap_ w) with
    | Some ft => cfw_generateBranch b ft None true
    | None => mret true
    end
  else generateIndirect b w.
Definition generate_gap (b : RelocBlock) (w : CFWidget) : M (CodeBuffer patch) unit :=
  if (gap_ w =? 0)%N then mret tt else addPatch (PPadding (mk_pad (gap_ w) false (rb_defensive b))) (Some (padTracker b (cf_addr w) (gap_ w))).

Definition cfw_generate (b : RelocBlock) : M (CodeBuffer patch) bool :=
  let w := rb_cf b in
  if bool_decide (destMap_ w = []) && negb (isIndirect_ w) then mret true else
  ok ← (if isIndirect_ w then generate_indirect b w
        else if isConditional_ w || isCall_ w then generate_taken_ft b w
        else generate_single b w) ;
  if negb ok then mret false else
  generate_gap b w ;;
  mret true.

(** ** Generating blocks *)

Definition widget_generate (b : RelocBlock) (w : widget) : M (CodeBuffer patch) bool :=
  match w with
  | InsnWidget bs addr => addPIC bs (Some (new_tracker OriginalTracker addr (rb_block b) (rb_func b))) ;; mret true
  | RelDataWidget i addr t => addPatch (PRelData (mk_rel i t)) (Some (new_tracker EmulatorTracker addr (rb_block b) (rb_func b))) ;; mret true
  end.
Fixpoint widgets_generate (b : RelocBlock) (l : list widget) : M (CodeBuffer patch) bool :=
  match l with
  | [] => cfw_generate b
  | w :: l' => ok ← widget_generate b w ; if negb ok then mret false else widgets_generate b l'
  end.

(** The label the block gets, and whether all went well. *)
Definition block_generate (b : RelocBlock) : M (CodeBuffer patch) (Z * bool) :=
  label ← getLabel ;
  ok ← widgets_generate b (rb_elements b) ;
  mret (s32 label, ok).

(** The loop of [CodeMover::initialize] from position [i]: the labels given. *)
Fixpoint initialize_blocks (n i : nat) : M (CodeBuffer patch) (list Z * bool) :=
  match n with
  | O => mret ([], true)
  | S n' =>
      match blocks !! i with
      | None => fail FBadPtr
      | Some b =>
          r ← block_generate (finalizeCF i b) ;
          if negb r.2 then mret ([], false) else
          r' ← initialize_blocks n' (S i) ;
          mret (r.1 :: r'.1, r'.2)
      end
  end.
Definition mover_initialize (templ : codeGen) : M (CodeBuffer patch) (list Z * bool) :=
  codeBuffer.initialize templ (Z.of_nat (length blocks)) ;;
  initialize_blocks (length blocks) 0.

End Blocks.

(** [initialize] and [relocate] of a new CodeMover. *)
Definition move_code (blocks : list RelocBlock) (lbl : nat -> Z) (width : Z) (templ : codeGen) (rounds : nat) (addr : Z) : res (list Z * bool * CodeBuffer patch) :=
  (r ← mover_initialize blocks lbl templ ;
   if negb r.2 then mret (r.1, false) else
   ok ← codeBuffer.generate rounds addr ; mret (r.1, ok)) (CodeBuffer_new width).

End relocBlock.
