(* ===== verification/RelocBlockOk.v ===== *)
(** * Moved blocks keep their control flow

    The blocks of a graph are moved and generated: the code of each block is that of
    its instructions and ends with control flow that goes to the moved blocks and
    the addresses its edges name.  A jump that is left out was to the block that
    follows. *)
From stdpp Require Import base gmap list.
From S2P Require Import Prelude CodeGen CodeGenOk CodeTracker CodeBuffer CodeBufferOk CodeLayout CodeBuild CodeInsnOk RelocPatch RelocPatchOk RelocFlow RelocBlock.
Import codegen codeTracker codeBuffer relocation relocBlock.

(** ** Adding items *)

Definition adds {A} (m : M (CodeBuffer patch) A) (r : list Z -> A) (l : list (item patch)) : Prop :=
  forall s s' ids, add_items l s = Ret (ids, s') -> m s = Ret (r ids, s').

Lemma bind_cong {S A B} (m m' : M S A) (k : A -> M S B) s : m s = m' s -> (m ≫= k) s = (m' ≫= k) s.
Proof. unfold mbind, M_bind. by intros ->. Qed.

Lemma add_items_app (l1 l2 : list (item patch)) s :
  add_items (l1 ++ l2) s = (ids ← add_items l1 ; ids' ← add_items l2 ; mret (ids ++ ids')) s.
Proof.
  revert s. induction l1 as [|it l1 IH]; intros s; cbn [app add_items].
  - rewrite bind_mret. destruct (add_items l2 s) as [[ids s']|x] eqn:E; [by rewrite (bind_ret _ _ _ _ _ E)|by rewrite (bind_fault _ _ _ _ E)].
  - rewrite !bind_assoc. destruct (add_item it s) as [[i s1]|x] eqn:E; [rewrite !(bind_ret _ _ _ _ _ E)|by rewrite !(bind_fault _ _ _ _ E)].
    rewrite !bind_assoc. destruct (add_items l1 s1) as [[i1 s2]|x] eqn:E1.
    + rewrite (bind_ret _ _ _ _ _ E1), bind_mret. rewrite (bind_cong _ _ _ _ (IH s1)), bind_assoc, (bind_ret _ _ _ _ _ E1), bind_assoc.
      destruct (add_items l2 s2) as [[i2 s3]|x] eqn:E2; [rewrite !(bind_ret _ _ _ _ _ E2), bind_mret; by rewrite <- app_assoc|by rewrite !(bind_fault _ _ _ _ E2)].
    + rewrite (bind_fault _ _ _ _ E1). by rewrite (bind_cong _ _ _ _ (IH s1)), bind_assoc, (bind_fault _ _ _ _ E1).
Qed.
Lemma adds_bind {A B} (m : M (CodeBuffer patch) A) (k : A -> M (CodeBuffer patch) B) a r l1 l2 :
  adds m (fun _ => a) l1 -> adds (k a) (fun _ => r) l2 -> adds (m ≫= k) (fun _ => r) (l1 ++ l2).
Proof.
  intros H1 H2 s s' ids E. rewrite add_items_app in E. apply bind_inv in E as (i1 & s1 & E1 & E). apply bind_inv in E as (i2 & s2 & E2 & [= _ <-]).
  rewrite (bind_ret _ _ _ _ _ (H1 _ _ _ E1)). by apply (H2 _ _ i2).
Qed.
Lemma adds_ret {A} (a : A) : adds (mret a) (fun _ => a) [].
Proof. by intros s s' ids [= _ <-]. Qed.
Lemma adds_then {A B} (m : M (CodeBuffer patch) A) (k : A -> M (CodeBuffer patch) B) a r l :
  adds m (fun _ => a) l -> adds (k a) (fun _ => r) [] -> adds (m ≫= k) (fun _ => r) l.
Proof. intros H1 H2. rewrite <- (app_nil_r l). by apply adds_bind with a. Qed.
Lemma adds_after {A B} (m : M (CodeBuffer patch) A) (k : A -> M (CodeBuffer patch) B) a r l :
  adds m (fun _ => a) [] -> adds (k a) (fun _ => r) l -> adds (m ≫= k) (fun _ => r) l.
Proof. intros H1 H2. change l with ([] ++ l). by apply adds_bind with a. Qed.
Lemma adds_patch p t : adds (addPatch p t) (fun _ => tt) [IPatch p t].
Proof.
  intros s s' ids E. simpl in E. apply bind_inv in E as (i & s1 & E1 & E). apply bind_inv in E1 as ([] & s2 & E1 & [= <- <-]).
  rewrite bind_mret in E. by injection E as _ <-.
Qed.
Lemma adds_pic xs t : adds (addPIC xs t) (fun _ => tt) [IPIC xs t].
Proof.
  intros s s' ids E. simpl in E. apply bind_inv in E as (i & s1 & E1 & E). apply bind_inv in E1 as ([] & s2 & E1 & [= <- <-]).
  rewrite bind_mret in E. by injection E as _ <-.
Qed.
Lemma adds_assert b : b = true -> adds (assertM b) (fun _ => tt) [].
Proof. intros -> s s' ids [= _ <-]. done. Qed.

Section Blocks.
Context (blocks : list RelocBlock).

(** Labels are given in the order of the blocks, from 1. *)
Definition lbl (i : nat) : Z := Z.of_nat i + 1.

Abbreviation resolved := (resolve lbl).
Abbreviation labels l := (zsum is_label l).

(** ** The items of a block *)

Definition te_cf (b : RelocBlock) : TrackerElement := new_tracker EmulatorTracker (cf_addr (rb_cf b)) (rb_block b) (rb_func b).
Definition te_dest (b : RelocBlock) (t : trg) : TrackerElement :=
  match t with
  | TReloc j => match blocks !! j with Some d => new_tracker EmulatorTracker (rb_origAddr d) (rb_block d) (rb_func d) | None => te_cf b end
  | TBlock d => new_tracker EmulatorTracker (b_start d) d None
  | TAddr _ => new_tracker EmulatorTracker (rb_last b) (rb_block b) (rb_func b)
  end.

Definition jump_item (b : RelocBlock) (d : dest) (insn : option instruction) (ft : bool) : item patch :=
  IPatch (PCF (mk_cf Jump insn (resolved (d_trg d)))) (Some (if ft then te_dest b (d_trg d) else te_cf b)).
Definition jump_items (b : RelocBlock) (d : dest) (insn : option instruction) (ft : bool) : list (item patch) :=
  if d_necessary d then [jump_item b d insn ft] else [].
Definition ft_items (b : RelocBlock) (insn : option instruction) : list (item patch) :=
  match find_dest Fallthrough (destMap_ (rb_cf b)) with Some ft => jump_items b ft insn true | None => [] end.
Definition single_items (b : RelocBlock) : list (item patch) :=
  match find_dest Taken (destMap_ (rb_cf b)) with Some d => jump_items b d (insn_ (rb_cf b)) false | None => ft_items b (insn_ (rb_cf b)) end.
Definition taken_item (b : RelocBlock) (ty : cf_type) (d : dest) : item patch :=
  IPatch (PCF (mk_cf ty (insn_ (rb_cf b)) (resolved (d_trg d)))) (Some (te_cf b)).
Definition taken_items (b : RelocBlock) : list (item patch) :=
  match find_dest Taken (destMap_ (rb_cf b)) with Some d => [taken_item b (if isCall_ (rb_cf b) then Call else JCC) d] | None => [] end.
Definition indirect_items (b : RelocBlock) : list (item patch) :=
  let w := rb_cf b in
  match insn_ w with
  | None => []
  | Some i =>
      if isCall_ w then
        (if negb (Z.land (i_type i) REL_D_DATA =? 0) then [IPatch (PCF (mk_cf Data (Some i) (AddrTarget (origTarget_ w)))) (Some (te_cf b))]
         else [IPIC (i_ptr i) (Some (te_cf b))]) ++ ft_items b None
      else [IPIC (indirect_bytes (insn_loc w) (i_ptr i)) (Some (te_cf b))]
  end.
Definition gap_items (b : RelocBlock) : list (item patch) :=
  if (gap_ (rb_cf b) =? 0)%N then [] else
  [IPatch (PPadding (mk_pad (gap_ (rb_cf b)) false (rb_defensive b))) (Some (padTracker b (cf_addr (rb_cf b)) (gap_ (rb_cf b))))].
Definition cf_items (b : RelocBlock) : list (item patch) :=
  let w := rb_cf b in
  if bool_decide (destMap_ w = []) && negb (isIndirect_ w) then [] else
  (if isIndirect_ w then indirect_items b else if isConditional_ w || isCall_ w then taken_items b ++ ft_items b (insn_ w) else single_items b) ++ gap_items b.
Definition widget_item (b : RelocBlock) (w : widget) : item patch :=
  match w with
  | InsnWidget bs addr => IPIC bs (Some (new_tracker OriginalTracker addr (rb_block b) (rb_func b)))
  | RelDataWidget i addr t => IPatch (PRelData (mk_rel i t)) (Some (new_tracker EmulatorTracker addr (rb_block b) (rb_func b)))
  end.
Definition block_items (b : RelocBlock) : list (item patch) := ILabel :: (widget_item b <$> rb_elements b) ++ cf_items b.
Fixpoint items_from (n i : nat) : list (item patch) :=
  match n with
  | O => []
  | S n' => match blocks !! i with Some b => block_items (finalizeCF blocks i b) ++ items_from n' (S i) | None => [] end
  end.
Definition all_items : list (item patch) := items_from (length blocks) 0.

(** ** Well-formed blocks, their control flow being finalized *)

Definition trg_ok (t : trg) : bool := match t with TReloc j => (j <? length blocks)%nat | _ => true end.
Definition cf_ok (b : RelocBlock) : bool :=
  let w := rb_cf b in
  negb (cf_addr w =? 1) && forallb (fun x => trg_ok (d_trg x.2)) (destMap_ w) &&
  (if isIndirect_ w then
     match insn_ w with
     | Some i => negb (isCall_ w) || (Z.land (i_type i) REL_D_DATA =? 0) || negb (origTarget_ w =? 0)
     | None => false
     end
   else if isCall_ w then negb (isConditional_ w)
   else if isConditional_ w then bool_decide (is_Some (find_dest Taken (destMap_ w)))
   else bool_decide (is_Some (find_dest Taken (destMap_ w)) \/ is_Some (find_dest Fallthrough (destMap_ w)))).
Definition block_ok (i : nat) (b : RelocBlock) : bool :=
  bool_decide (destMap_ (rb_cf b) = []) && (bool_decide (destMap_ (rb_cf (finalizeCF blocks i b)) = []) && negb (isIndirect_ (rb_cf b)) || cf_ok (finalizeCF blocks i b)).


(** ** The generators add them *)

Lemma find_dest_in k m d : find_dest k m = Some d -> (k, d) ∈ m.
Proof.
  unfold find_dest. intros E. apply fmap_Some in E as ([k' d'] & E & ->). apply head_Some_elem_of, list_elem_of_filter in E as [E1 E2]. simpl in *. by subst.
Qed.

Lemma cf_tracker_adds b : cf_addr (rb_cf b) <> 1 -> adds (cf_tracker b (rb_cf b)) (fun _ => te_cf b) [].
Proof. intros Ha. apply adds_after with tt; [|apply adds_ret]. apply adds_assert. by apply negb_true_iff, Z.eqb_neq. Qed.
Lemma destTracker_adds b t : trg_ok t = true -> adds (destTracker blocks b t) (fun _ => te_dest b t) [].
Proof.
  unfold destTracker, te_dest. destruct t as [j|d|x]; simpl; intros Ht; [|apply adds_ret..]. apply Nat.ltb_lt in Ht.
  destruct (lookup_lt_is_Some_2 blocks j Ht) as [d ->]. apply adds_ret.
Qed.

Section OneBlock.
Context (b : RelocBlock) (Ha : cf_addr (rb_cf b) <> 1) (Hd : forall k d, find_dest k (destMap_ (rb_cf b)) = Some d -> trg_ok (d_trg d) = true).

Lemma branch_adds d insn ft : trg_ok (d_trg d) = true -> adds (cfw_generateBranch blocks lbl b d insn ft) (fun _ => true) (jump_items b d insn ft).
Proof.
  intros Ht. unfold cfw_generateBranch, jump_items. destruct (d_necessary d); simpl; [|apply adds_ret].
  apply adds_after with (if ft then te_dest b (d_trg d) else te_cf b); [destruct ft; [by apply destTracker_adds|by apply cf_tracker_adds]|].
  apply adds_then with tt; [apply adds_patch|apply adds_ret].
Qed.
Lemma branch_adds_if d insn ft : trg_ok (d_trg d) = true ->
  adds (if d_necessary d then cfw_generateBranch blocks lbl b d insn ft else mret true) (fun _ => true) (jump_items b d insn ft).
Proof. intros Ht. destruct (d_necessary d) eqn:E; [by apply branch_adds|]. unfold jump_items. rewrite E. apply adds_ret. Qed.
Lemma ft_adds insn :
  adds (match find_dest Fallthrough (destMap_ (rb_cf b)) with Some ft => if d_necessary ft then cfw_generateBranch blocks lbl b ft insn true else mret true | None => mret true end)
    (fun _ => true) (ft_items b insn).
Proof. unfold ft_items. destruct (find_dest _ _) as [d|] eqn:E; [|apply adds_ret]. apply branch_adds_if. by apply (Hd Fallthrough). Qed.
Lemma cf_patch_adds ty insn t : adds (te ← cf_tracker b (rb_cf b) ; addPatch (PCF (mk_cf ty insn t)) (Some te) ;; mret true) (fun _ => true) [IPatch (PCF (mk_cf ty insn t)) (Some (te_cf b))].
Proof. apply adds_after with (te_cf b); [by apply cf_tracker_adds|]. apply adds_then with tt; [apply adds_patch|apply adds_ret]. Qed.
Lemma cf_pic_adds xs : adds (te ← cf_tracker b (rb_cf b) ; addPIC xs (Some te) ;; mret true) (fun _ => true) [IPIC xs (Some (te_cf b))].
Proof. apply adds_after with (te_cf b); [by apply cf_tracker_adds|]. apply adds_then with tt; [apply adds_pic|apply adds_ret]. Qed.

Lemma single_adds :
  is_Some (find_dest Taken (destMap_ (rb_cf b))) \/ is_Some (find_dest Fallthrough (destMap_ (rb_cf b))) ->
  adds (generate_single blocks lbl b (rb_cf b)) (fun _ => true) (single_items b).
Proof.
  intros Hs. unfold generate_single, single_items, ft_items. destruct (find_dest Taken _) as [d|] eqn:E1; [apply branch_adds_if; by apply (Hd Taken)|].
  destruct (find_dest Fallthrough _) as [d|] eqn:E2; [apply branch_adds_if; by apply (Hd Fallthrough)|]. by destruct Hs as [[? ?]|[? ?]].
Qed.
Lemma taken_ft_adds :
  (if isCall_ (rb_cf b) then isConditional_ (rb_cf b) = false else is_Some (find_dest Taken (destMap_ (rb_cf b)))) ->
  adds (generate_taken_ft blocks lbl b (rb_cf b)) (fun _ => true) (taken_items b ++ ft_items b (insn_ (rb_cf b))).
Proof.
  intros Hs. apply adds_bind with true; [|apply ft_adds]. unfold taken_items. destruct (isCall_ (rb_cf b)).
  - apply adds_after with tt; [apply adds_assert; by rewrite Hs|]. destruct (find_dest Taken _) as [d|] eqn:E; [apply cf_patch_adds|apply adds_ret].
  - destruct Hs as [d E]. rewrite E. apply cf_patch_adds.
Qed.
Lemma indirect_adds i :
  insn_ (rb_cf b) = Some i -> negb (isCall_ (rb_cf b)) || (Z.land (i_type i) REL_D_DATA =? 0) || negb (origTarget_ (rb_cf b) =? 0) = true ->
  adds (generate_indirect blocks lbl b (rb_cf b)) (fun _ => true) (indirect_items b).
Proof.
  intros Ei Hok. unfold generate_indirect, indirect_items, generateIndirect, generateIndirectCall. rewrite Ei. destruct (isCall_ (rb_cf b)); [|apply cf_pic_adds].
  apply adds_bind with true.
  - destruct (Z.land (i_type i) REL_D_DATA =? 0); simpl in *; [apply cf_pic_adds|]. apply adds_after with tt; [by apply adds_assert|apply cf_patch_adds].
  - simpl. unfold ft_items. destruct (find_dest Fallthrough _) as [d|] eqn:E; [|apply adds_ret]. apply branch_adds. by apply (Hd Fallthrough).
Qed.
Lemma gap_adds : adds (generate_gap b (rb_cf b)) (fun _ => tt) (gap_items b).
Proof. unfold generate_gap, gap_items. destruct (gap_ (rb_cf b) =? 0)%N; [apply adds_ret|apply adds_patch]. Qed.
End OneBlock.

Lemma cfw_adds b :
  bool_decide (destMap_ (rb_cf b) = []) && negb (isIndirect_ (rb_cf b)) || cf_ok b = true -> adds (cfw_generate blocks lbl b) (fun _ => true) (cf_items b).
Proof.
  unfold cfw_generate, cf_items. destruct (bool_decide (destMap_ (rb_cf b) = []) && negb (isIndirect_ (rb_cf b))); [intros _; apply adds_ret|].
  cbn [orb]. unfold cf_ok. intros [[Ha%negb_true_iff%Z.eqb_neq Hf]%andb_prop Hk]%andb_prop.
  assert (forall k d, find_dest k (destMap_ (rb_cf b)) = Some d -> trg_ok (d_trg d) = true) as Hd.
  { intros k d E%find_dest_in. rewrite forallb_forall in Hf. apply (Hf (k, d)). by apply list_elem_of_In. }
  apply adds_bind with true; [|apply adds_then with tt; [apply gap_adds|apply adds_ret]].
  destruct (isIndirect_ (rb_cf b)); [destruct (insn_ (rb_cf b)) as [i|] eqn:Ei; [by apply (indirect_adds b Ha Hd i)|done]|].
  destruct (isCall_ (rb_cf b)) eqn:Ec; rewrite ?orb_true_r, ?orb_false_r.
  - apply taken_ft_adds; [done..|]. rewrite Ec. by apply negb_true_iff.
  - destruct (isConditional_ (rb_cf b)).
    + apply taken_ft_adds; [done..|]. rewrite Ec. by apply bool_decide_eq_true in Hk.
    + apply single_adds; [done..|]. by apply bool_decide_eq_true in Hk.
Qed.

Lemma widgets_adds b l : adds (cfw_generate blocks lbl b) (fun _ => true) (cf_items b) -> adds (widgets_generate blocks lbl b l) (fun _ => true) ((widget_item b <$> l) ++ cf_items b).
Proof.
  intros Hc. induction l as [|w l IH]; [done|]. cbn [widgets_generate]. rewrite fmap_cons. change ((widget_item b w :: (widget_item b <$> l)) ++ cf_items b) with ([widget_item b w] ++ (widget_item b <$> l) ++ cf_items b).
  apply adds_bind with true; [|done]. destruct w; (apply adds_then with tt; [|apply adds_ret]); [apply adds_pic|apply adds_patch].
Qed.

Lemma no_labels_ids (l : list (item patch)) s ids s' : labels l = 0 -> add_items l s = Ret (ids, s') -> ids = [].
Proof.
  revert s ids. induction l as [|it l IH]; intros s ids Hl E; [by injection E as <- _|]. rewrite zsum_cons in Hl. pose proof (labels_nonneg l). pose proof (is_label_nonneg it).
  cbn [add_items] in E. apply bind_inv in E as (i1 & s1 & E1 & E). apply bind_inv in E as (i2 & s2 & E2 & [= <- <-]). rewrite (IH s1 i2) by (done || lia).
  destruct it as [|xs t|p t]; simpl in *; [lia|..]; by apply bind_inv in E1 as ([] & s3 & _ & [= <- _]).
Qed.

Lemma labels_zero (l : list (item patch)) : (forall it, it ∈ l -> is_label it = 0) -> labels l = 0.
Proof. induction l as [|it l IH]; intros Hl; [done|]. rewrite zsum_cons, (Hl it), IH; [done|by intros x Hx; apply Hl; right|by left]. Qed.
Lemma labels_cf b : labels (cf_items b) = 0.
Proof.
  apply labels_zero. intros it Hit. unfold cf_items, indirect_items, taken_items, ft_items, single_items, ft_items, jump_items, gap_items in Hit.
  repeat case_match; set_solver.
Qed.
Lemma labels_widgets b l : labels (widget_item b <$> l) = 0.
Proof. apply labels_zero. intros it (w & -> & _)%list_elem_of_fmap. by destruct w. Qed.
Lemma labels_block b : labels (block_items b) = 1.
Proof. unfold block_items. rewrite zsum_cons, zsum_app, labels_cf, labels_widgets. done. Qed.

Lemma block_adds b s s' ids :
  bool_decide (destMap_ (rb_cf b) = []) && negb (isIndirect_ (rb_cf b)) || cf_ok b = true -> add_items (block_items b) s = Ret (ids, s') ->
  exists id, ids = [id] /\ block_generate blocks lbl b s = Ret ((s32 id, true), s').
Proof.
  intros Hok E. unfold block_items in E. cbn [add_items add_item] in E. apply bind_inv in E as (i1 & s1 & E1 & E). apply bind_inv in E1 as (id & s2 & E1 & [= <- <-]).
  apply bind_inv in E as (i2 & s3 & E2 & [= <- <-]). rewrite (no_labels_ids _ _ _ _ ltac:(rewrite zsum_app, labels_widgets, labels_cf; done) E2). exists id. split; [done|].
  unfold block_generate. rewrite (bind_ret _ _ _ _ _ E1). by rewrite (bind_ret _ _ _ _ _ (widgets_adds b (rb_elements b) (cfw_adds b Hok) _ _ _ E2)).
Qed.

Lemma blocks_adds n : forall i, (i + n <= length blocks)%nat -> (forall j b, blocks !! j = Some b -> block_ok j b = true) ->
  adds (initialize_blocks blocks lbl n i) (fun ids => (s32 <$> ids, true)) (items_from n i).
Proof.
  induction n as [|n IH]; intros i Hi Hok s s' ids E; [by injection E as <- <-|]. cbn [initialize_blocks items_from] in *.
  destruct (lookup_lt_is_Some_2 blocks i) as [b Eb]; [lia|]. rewrite Eb in *. rewrite add_items_app in E.
  apply bind_inv in E as (i1 & s1 & E1 & E). apply bind_inv in E as (i2 & s2 & E2 & [= <- <-]).
  pose proof (Hok i b Eb) as Hb. apply andb_prop in Hb as [_ Hb]. destruct (block_adds (finalizeCF blocks i b) s s1 i1 Hb E1) as (id & -> & Eg).
  rewrite (bind_ret _ _ _ _ _ Eg). cbn [negb snd fst]. rewrite (bind_ret _ _ _ _ _ (IH (S i) ltac:(lia) Hok _ _ _ E2)). done.
Qed.

Lemma labels_from n i : (i + n <= length blocks)%nat -> labels (items_from n i) = Z.of_nat n.
Proof.
  revert i. induction n as [|n IH]; intros i Hi; [done|]. cbn [items_from]. destruct (lookup_lt_is_Some_2 blocks i) as [b ->]; [lia|].
  rewrite zsum_app, labels_block, IH by lia. lia.
Qed.
Lemma labels_all : labels all_items = Z.of_nat (length blocks).
Proof. apply labels_from. lia. Qed.

(** What [move_code] does is what [assemble] does with the items. *)
Lemma mover_initialize_run width templ base :
  aWidth templ = 8 -> (forall j b, blocks !! j = Some b -> block_ok j b = true) -> buildable all_items base ->
  exists s, mover_initialize blocks lbl templ (CodeBuffer_new width) = Ret (seqZ 1 (Z.of_nat (length blocks)), true, s) /\ built all_items s.
Proof.
  intros Hw Hok HA. destruct (buildable_small all_items base HA) as [H1 H2]. destruct (filled_run width templ (Z.of_nat (length blocks)) all_items Hw H1 H2) as (s0 & s & E0 & E1 & HB).
  exists s. split; [|done]. unfold mover_initialize. rewrite (bind_ret _ _ _ _ _ E0). rewrite (blocks_adds (length blocks) 0 ltac:(lia) Hok _ _ _ E1).
  rewrite labels_all. do 3 f_equal. apply list_eq. intros j. rewrite list_lookup_fmap. destruct (seqZ 1 (Z.of_nat (length blocks)) !! j) as [x|] eqn:Ex; [|done].
  simpl. f_equal. apply list_elem_of_lookup_2, elem_of_seqZ in Ex. rewrite labels_all in H2. apply s32_id. lia.
Qed.
Lemma move_code_run width templ rounds base :
  aWidth templ = 8 -> (forall j b, blocks !! j = Some b -> block_ok j b = true) -> buildable all_items base -> 2 * zsum item_cap all_items + 1 < Z.of_nat rounds ->
  exists s f bs, move_code blocks lbl width templ rounds base = Ret (seqZ 1 (Z.of_nat (length blocks)), true, s) /\ laid_out all_items base s f bs.
Proof.
  intros Hw Hok HA Hr. destruct (mover_initialize_run width templ base Hw Hok HA) as (s0 & E0 & HB). destruct (generate_run all_items base s0 rounds HA HB Hr) as (s & f & bs & E & HL).
  exists s, f, bs. split; [|done]. unfold move_code. rewrite (bind_ret _ _ _ _ _ E0). cbn [negb fst snd]. by rewrite (bind_ret _ _ _ _ _ E).
Qed.
End Blocks.
