(* ===== verification/RelocMove.v ===== *)
(** * The control flow of moved code

    For every block, what its code is and where it goes, from the layout that
    generation reaches and the meaning of the instructions. *)
From stdpp Require Import base gmap list.
From S2P Require Import Prelude CodeGen CodeGenOk CodeTracker CodeBuffer CodeBufferOk CodeLayout CodeBuild CodeInsnOk RelocPatch RelocPatchOk RelocFlow RelocBlock RelocBlockOk CodeTrackerOk CodeTrace.
Import codegen codeTracker codeBuffer relocation relocBlock.

Abbreviation labels l := (zsum is_label l).

(** ** Parts of a layout *)

Lemma laid_app_inv f (l1 l2 : list (item patch)) n a bs sp :
  laid f (l1 ++ l2) n a bs sp -> exists b1 s1 b2 s2, laid f l1 n a b1 s1 /\ laid f l2 (n + labels l1) (a + Z.of_nat (length b1)) b2 s2 /\ bs = b1 ++ b2 /\ sp = s1 ++ s2.
Proof.
  revert n a bs sp. induction l1 as [|it l1 IH]; intros n a bs sp Hl; simpl in Hl.
  { exists [], [], bs, sp. simpl. rewrite zsum_nil, !Z.add_0_r. split_and!; [constructor|done..]. }
  inversion Hl as [|? ? ? ? ? Hf H1|xs t ? ? ? bs1 sp1 H1|p t k ? ? ? bs1 sp1 Hk H1]; subst; apply IH in H1 as (b1 & s1 & b2 & s2 & H1 & H2 & -> & ->).
  - exists b1, s1, b2, s2. split_and!; [by apply laid_label| |done..]. eapply laid_at; [exact H2|rewrite zsum_cons; simpl; lia|done].
  - exists (xs ++ b1), (add_span t a (Z.of_nat (length xs)) s1), b2, s2. rewrite add_span_app, <- app_assoc. split_and!; [by apply laid_pic| |done..].
    eapply laid_at; [exact H2|rewrite zsum_cons; simpl; lia|rewrite length_app; lia].
  - exists (code p a f ++ replicate k NOP ++ b1), (add_span t a (Z.of_nat (length (code p a f) + k)) s1), b2, s2. rewrite add_span_app, <- !app_assoc.
    split_and!; [by apply laid_patch| |done..]. eapply laid_at; [exact H2|rewrite zsum_cons; simpl; lia|rewrite !length_app, length_replicate; lia].
Qed.

Lemma laid_label_range f (l : list (item patch)) n a bs sp id :
  laid f l n a bs sp -> n <= id < n + labels l -> a <= f id <= a + Z.of_nat (length bs).
Proof.
  induction 1 as [n a|l n a bs sp Hf H1 IH|xs t l n a bs sp H1 IH|p t k l n a bs sp Hk H1 IH]; intros Hi; rewrite ?zsum_nil, ?zsum_cons in Hi; simpl is_label in Hi.
  - lia.
  - destruct (decide (id = n)) as [->|Hn]; [rewrite Hf; lia|]. apply IH. lia.
  - rewrite length_app. specialize (IH ltac:(lia)). lia.
  - rewrite !length_app, length_replicate. specialize (IH ltac:(lia)). lia.
Qed.

(** ** Where code goes *)

Definition prefixes_of (insn : option instruction) : list Z :=
  match insn with Some i => match value (copy_prefixes (count_prefixes (i_type i)) (i_ptr i)) with Some (new, _) => new | None => [] end | None => [] end.

(** Code at [a] goes to [to]: by a jump behind the prefixes of an instruction, or as
    there is none and [to] is what follows. *)
Definition goes (insn : option instruction) (a : Z) (bs : list Z) (to : Z) : Prop :=
  bs = [] /\ to = a \/ exists j rest, bs = prefixes_of insn ++ j ++ rest /\ jump_of (a + Z.of_nat (length (prefixes_of insn))) j = Some to.

(** Code at [a] calls [to] and returns behind itself. *)
Definition calls (a : Z) (bs : list Z) (to : Z) : Prop :=
  exists pre j rest, bs = pre ++ j ++ rest /\ call_of (a + Z.of_nat (length pre)) j = Some (to, a + Z.of_nat (length (pre ++ j))) /\ Forall (fun x => x = NOP) rest.

(** Code at [a] goes to [to] on the condition of an instruction that has no prefixes,
    and on behind itself otherwise. *)
Definition branches (insn : option instruction) (a : Z) (bs : list Z) (to : Z) : Prop :=
  forall i orig c, insn = Some i -> value (copy_prefixes_nosize_or_segments (count_prefixes (i_type i)) (i_ptr i)) = Some ([], orig) -> orig_cond orig = Some c ->
  exists j rest, bs = j ++ rest /\ cond_of a j = Some (c, to, a + Z.of_nat (length j)) /\ Forall (fun x => x = NOP) rest.

Section Flow.
Context (lo hi : Z) (f : Z -> Z) (Hlo : 0 < lo) (Hhi : hi + 64 < 2 ^ 63).

Definition in_reach (t : target) : Prop := reachable t lo hi /\ (forall l, t = RelocBlockTarget l -> lo <= f l <= hi).

Lemma in_reach_addr t : in_reach t -> 0 <= target_addr t f < 2 ^ 63.
Proof. intros [Hr Hf]. destruct t as [l|x|x]; simpl in *; [specialize (Hf l eq_refl); lia|lia..]. Qed.
Lemma in_reach_far t a k : in_reach t -> lo <= a -> a <= hi -> 0 <= k <= 60 -> at_limit (u64 (a + k)) (target_addr t f) = false.
Proof. intros [Hr Hf] Ha Ha' Hk. apply (reachable_far t lo hi); (done || lia). Qed.

Lemma jump_code_goes insn t a xs rest :
  insn_ok Jump insn = true -> in_reach t -> lo <= a -> a <= hi -> xs = default [] (cf_code Jump insn a (target_addr t f)) -> goes insn a (xs ++ rest) (target_addr t f).
Proof.
  intros Hok Ht Ha Ha' ->. pose proof (in_reach_addr t Ht) as Hto. right. destruct (insn_ok_code Jump insn a (target_addr t f) Hok) as [[ys Ey] Hlen]. rewrite Ey. simpl.
  unfold cf_code in Ey. destruct insn as [i|]; simpl in *.
  - unfold moved_jump in Ey. pose proof (copy_prefixes_splits (count_prefixes (i_type i)) (i_ptr i)) as Hs. destruct (value _) as [[new r]|]; [|done]. simpl in *. injection Ey as <-.
    exists (branch_bytes 8 (u64 (a + Z.of_nat (length new))) (target_addr t f)), rest. rewrite <- app_assoc. split; [done|].
    rewrite (u64_id (a + _)) by lia. apply branch_bytes_jump; [lia|]. rewrite <- (u64_id (a + Z.of_nat (length new))) by lia. apply in_reach_far; (done || lia).
  - injection Ey as <-. exists (branch_bytes 8 a (target_addr t f)), rest. split; [done|]. simpl. rewrite Z.add_0_r. apply branch_bytes_jump; [lia|].
    rewrite <- (u64_id a), <- (Z.add_0_r a) by lia. apply in_reach_far; (done || lia).
Qed.

Lemma call_code_calls insn t a xs k :
  insn_ok Call insn = true -> in_reach t -> lo <= a -> a <= hi -> xs = default [] (cf_code Call insn a (target_addr t f)) ->
  calls a (xs ++ replicate k NOP) (target_addr t f).
Proof.
  intros Hok Ht Ha Ha' ->. pose proof (in_reach_addr t Ht) as Hto. destruct (insn_ok_code Call insn a (target_addr t f) Hok) as [[ys Ey] Hlen]. rewrite Ey. simpl.
  assert (forall pre, (length pre <= 15)%nat -> calls a ((pre ++ call_bytes (a + Z.of_nat (length pre)) (target_addr t f)) ++ replicate k NOP) (target_addr t f)) as Hc.
  { intros pre Hp. eexists pre, (call_bytes _ _), (replicate k NOP). split_and!; [by rewrite app_assoc| |by apply Forall_replicate].
    rewrite call_bytes_call by lia. do 2 f_equal. rewrite length_app. lia. }
  unfold cf_code in Ey. destruct insn as [i|]; simpl in *.
  - unfold moved_call in Ey. pose proof (copy_prefixes_nosize_splits (count_prefixes (i_type i)) (i_ptr i)) as Hs. destruct (value _) as [[new r]|]; [|done]. simpl in *.
    injection Ey as <-. destruct (is_disp32 _); [apply Hc; lia|]. specialize (Hc []). simpl in Hc. rewrite Z.add_0_r in Hc. apply Hc. lia.
  - injection Ey as <-. specialize (Hc []). simpl in Hc. rewrite Z.add_0_r in Hc. apply Hc. lia.
Qed.

Lemma jcc_code_branches insn t a xs k :
  insn_ok JCC insn = true -> in_reach t -> lo <= a -> a <= hi -> xs = default [] (cf_code JCC insn a (target_addr t f)) ->
  branches insn a (xs ++ replicate k NOP) (target_addr t f).
Proof.
  intros Hok Ht Ha Ha' -> i orig c -> Ev Hc. pose proof (in_reach_addr t Ht) as Hto. destruct (insn_ok_code JCC (Some i) a (target_addr t f) Hok) as [[ys Ey] Hlen]. rewrite Ey. simpl in *.
  exists ys, (replicate k NOP). split_and!; [done| |by apply Forall_replicate]. apply (moved_jcc_flow i a _ ys orig c); try done; try lia. apply in_reach_far; (done || lia).
Qed.
End Flow.

(** ** Jumps that are left out *)

Section Moved.
Context (blocks : list RelocBlock).

Definition needed (i : nat) (b : RelocBlock) (d : dest) : Prop :=
  d_necessary d = true \/ (d_trg d = TReloc (S i) /\ (S i < length blocks)%nat /\ gap_ (rb_cf b) = 0%N).

Lemma isNecessary_needed i b t ty : needed i b (mk_dest t (isNecessary blocks i b t ty)).
Proof.
  unfold needed. simpl. destruct (isNecessary blocks i b t ty) eqn:E; [by left|right]. unfold isNecessary in E.
  destruct (S i <? length blocks)%nat eqn:E1; [|done]. apply Nat.ltb_lt in E1. cbn [negb] in E. destruct (_ && _); [done|]. destruct (bool_decide _); [done|].
  destruct (gap_ (rb_cf b) =? 0)%N eqn:E2; [|done]. apply N.eqb_eq in E2. cbn [negb] in E. apply negb_false_iff in E. destruct t as [j| |]; [|done..]. apply Nat.eqb_eq in E. by subst.
Qed.
Lemma add_dests_needed i b l m x : (forall x, x ∈ m -> needed i b x.2) -> x ∈ add_dests blocks i b l m -> needed i b x.2.
Proof.
  revert m. induction l as [|e l IH]; intros m Hm Hx; simpl in Hx; [by apply Hm|]. case_match; [|by apply (IH m)].
  eapply IH; [|exact Hx]. intros y Hy. apply map_set_in in Hy as [->|Hy]; [apply isNecessary_needed|by apply Hm].
Qed.
Lemma finalized_needed i b k d : destMap_ (rb_cf b) = [] -> find_dest k (destMap_ (rb_cf (finalizeCF blocks i b))) = Some d -> needed i b d.
Proof. intros Em E%find_dest_in. simpl in E. rewrite Em in E. apply (add_dests_needed i b (rb_outs b) [] (k, d)); [by intros x Hx%elem_of_nil|done]. Qed.

(** ** The control flow of one block *)

(** The edges of a block: those control takes by its last instruction, those to what
    follows, and those of a jump whose target is computed.  The others are not control
    flow of the block. *)
Definition taken_edge (e : RelocEdge) : Prop := ed_type e = DIRECT \/ ed_type e = COND_TAKEN \/ ed_type e = CALL.
Definition falling_edge (e : RelocEdge) : Prop := ed_type e = FALLTHROUGH \/ ed_type e = COND_NOT_TAKEN \/ ed_type e = CALL_FT.
Definition leaving_edge (e : RelocEdge) : Prop := taken_edge e \/ falling_edge e \/ ed_type e = INDIRECT.

(** Of several edges of one kind the last counts. *)
Definition takes (b : RelocBlock) : option trg := ed_trg <$> last (filter taken_edge (rb_outs b)).
Definition falls (b : RelocBlock) : option trg := ed_trg <$> last (filter falling_edge (rb_outs b)).

(** Where the target of an edge is after the move. *)
Definition addr_of (f : Z -> Z) (t : trg) : Z := match t with TReloc j => f (lbl j) | TBlock b => b_start b | TAddr a => a end.

(** The code [ctl] at [a] does what the last instruction [w] of a block does, whose
    edges lead to [taken] and [falls], if it has [edges] at all. *)
Definition flow (f : Z -> Z) (w : CFWidget) (edges : bool) (taken falls : option trg) (a : Z) (ctl : list Z) : Prop :=
  let after insn a' rest := forall t, falls = Some t -> goes insn a' rest (addr_of f t) in
  if negb edges && negb (isIndirect_ w) then ctl = []
  else if isIndirect_ w then
    forall i, insn_ w = Some i ->
    if isCall_ w then exists c rest, ctl = c ++ rest /\ after None (a + Z.of_nat (length c)) rest /\ (Z.land (i_type i) REL_D_DATA = 0 -> c = i_ptr i)
    else exists rest, ctl = indirect_bytes (insn_loc w) (i_ptr i) ++ rest
  else if isConditional_ w || isCall_ w then
    exists c rest, ctl = c ++ rest /\ after (insn_ w) (a + Z.of_nat (length c)) rest /\
      forall t, taken = Some t -> if isCall_ w then calls a c (addr_of f t) else branches (insn_ w) a c (addr_of f t)
  else
    forall t, taken = Some t \/ taken = None /\ falls = Some t -> goes (insn_ w) a ctl (addr_of f t).

(** A block as the parser and the edges make it: its targets are in the graph, a
    conditional jump has an edge it takes, another block has an edge, and no computed
    target is at address 1 or 2. *)
Definition has (P : RelocEdge -> Prop) `{forall e, Decision (P e)} (b : RelocBlock) : bool := bool_decide (Exists P (rb_outs b)).
Definition edges_ok (b : RelocBlock) : bool :=
  let w := rb_cf b in
  bool_decide (destMap_ w = []) &&
  (negb (has leaving_edge b) && negb (isIndirect_ w) ||
   negb (cf_addr w =? 1) &&
   bool_decide (Forall (fun e => leaving_edge e -> trg_ok blocks (ed_trg e) = true) (rb_outs b)) &&
   (if isIndirect_ w then
      match insn_ w with
      | Some i => negb (isCall_ w) || (Z.land (i_type i) REL_D_DATA =? 0) || negb (origTarget_ w =? 0)
      | None => false
      end
    else if isCall_ w then negb (isConditional_ w)
    else if isConditional_ w then has taken_edge b
    else has taken_edge b || has falling_edge b)) &&
  bool_decide (Forall (fun e => ed_type e = INDIRECT -> trg_origAddr blocks (ed_trg e) <> Taken /\ trg_origAddr blocks (ed_trg e) <> Fallthrough) (rb_outs b)).

(** ** The destinations are the edges *)

Lemma find_dest_set k k' d m : find_dest k (map_set k' d m) = if decide (k = k') then Some d else find_dest k m.
Proof.
  unfold find_dest. induction m as [|[k1 d1] m IH]; simpl.
  { rewrite filter_cons. simpl. repeat case_decide; by simplify_eq. }
  destruct (k' <? k1) eqn:E1; [|destruct (k' =? k1) eqn:E2]; zbool; rewrite !filter_cons; simpl; repeat case_decide; simplify_eq; simpl; try done; try lia.
Qed.

Lemma add_dests_find i b k l : forall m, find_dest k (add_dests blocks i b l m) =
  match last (filter (fun e => edge_index blocks e = Some k) l) with
  | Some e => Some (mk_dest (ed_trg e) (isNecessary blocks i b (ed_trg e) (ed_type e)))
  | None => find_dest k m
  end.
Proof.
  induction l as [|e l IH]; intros m; [done|]. cbn [add_dests]. rewrite filter_cons. case_decide as Ee.
  - rewrite Ee, IH, find_dest_set, decide_True, last_cons by done. by destruct (last _).
  - destruct (edge_index blocks e) as [k'|]; rewrite IH; [|done]. destruct (last _); [done|]. rewrite find_dest_set, decide_False; [done|congruence].
Qed.

Lemma filter_same {A} (P Q : A -> Prop) `{forall x, Decision (P x)} `{forall x, Decision (Q x)} l :
  Forall (fun x => P x <-> Q x) l -> filter P l = filter Q l.
Proof. induction 1 as [|x l HPQ _ IH]; [done|]. rewrite !filter_cons. repeat case_decide; tauto || congruence. Qed.

(** The index of an edge says of which kind it is. *)
Lemma index_kind e : (ed_type e = INDIRECT -> trg_origAddr blocks (ed_trg e) <> Taken /\ trg_origAddr blocks (ed_trg e) <> Fallthrough) ->
  (edge_index blocks e = Some Taken <-> taken_edge e) /\ (edge_index blocks e = Some Fallthrough <-> falling_edge e).
Proof.
  unfold edge_index, taken_edge, falling_edge. destruct (ed_type e); intros HI; try (split; split; intros; naive_solver).
Qed.
Lemma index_none e : edge_index blocks e = None <-> ~ leaving_edge e.
Proof. unfold edge_index, leaving_edge, taken_edge, falling_edge. destruct (ed_type e); split; intros; naive_solver. Qed.

Lemma add_dests_nil i b l m : add_dests blocks i b l m = [] <-> m = [] /\ Forall (fun e => ~ leaving_edge e) l.
Proof.
  revert m. induction l as [|e l IH]; intros m; cbn [add_dests]; [rewrite Forall_nil; tauto|]. rewrite Forall_cons, <- index_none.
  destruct (edge_index blocks e) as [k|]; rewrite IH; [|tauto]. split; [|by intros (_ & ? & _)]. intros [Hm _]. exfalso.
  destruct m as [|[k' d'] m]; simpl in Hm; repeat case_match; done.
Qed.

Section Destinations.
Context (i : nat) (b : RelocBlock) (Hok : edges_ok b = true).
Abbreviation dests := (destMap_ (rb_cf (finalizeCF blocks i b))).

Lemma edges_ok_fresh : destMap_ (rb_cf b) = [].
Proof. unfold edges_ok in Hok. rewrite !andb_true_iff, bool_decide_eq_true in Hok. tauto. Qed.
Lemma edges_ok_kinds : Forall (fun e => (edge_index blocks e = Some Taken <-> taken_edge e) /\ (edge_index blocks e = Some Fallthrough <-> falling_edge e)) (rb_outs b).
Proof.
  unfold edges_ok in Hok. rewrite !andb_true_iff, !bool_decide_eq_true in Hok. destruct Hok as [_ HF]. eapply Forall_impl; [exact HF|]. intros e. apply index_kind.
Qed.

Lemma dests_taken : d_trg <$> find_dest Taken dests = takes b.
Proof.
  simpl. rewrite edges_ok_fresh, add_dests_find. unfold takes. rewrite (filter_same _ taken_edge).
  - by destruct (last _).
  - eapply Forall_impl; [exact edges_ok_kinds|]. by intros e [].
Qed.
Lemma dests_falls : d_trg <$> find_dest Fallthrough dests = falls b.
Proof.
  simpl. rewrite edges_ok_fresh, add_dests_find. unfold falls. rewrite (filter_same _ falling_edge).
  - by destruct (last _).
  - eapply Forall_impl; [exact edges_ok_kinds|]. by intros e [].
Qed.
Lemma dests_none : bool_decide (dests = []) = negb (has leaving_edge b).
Proof.
  apply eq_true_iff_eq. unfold has. rewrite negb_true_iff, bool_decide_eq_true, bool_decide_eq_false. simpl. rewrite edges_ok_fresh, add_dests_nil, Forall_Exists_neg. tauto.
Qed.
Lemma has_last (P : RelocEdge -> Prop) `{forall e, Decision (P e)} : is_Some (ed_trg <$> last (filter P (rb_outs b))) <-> has P b = true.
Proof.
  unfold has. rewrite fmap_is_Some, bool_decide_eq_true, last_is_Some, Exists_exists. split.
  - intros Hn. destruct (filter P (rb_outs b)) as [|e l] eqn:E; [done|]. exists e. assert (e ∈ filter P (rb_outs b)) as He by (rewrite E; by left).
    apply list_elem_of_filter in He as [? ?]. done.
  - intros (e & He & Ht) E. assert (e ∈ filter P (rb_outs b)) as Hin by (by apply list_elem_of_filter). rewrite E in Hin. by apply elem_of_nil in Hin.
Qed.
Lemma dests_taken_some : is_Some (find_dest Taken dests) <-> has taken_edge b = true.
Proof. rewrite <- has_last, <- (fmap_is_Some d_trg), dests_taken. done. Qed.
Lemma dests_falls_some : is_Some (find_dest Fallthrough dests) <-> has falling_edge b = true.
Proof. rewrite <- has_last, <- (fmap_is_Some d_trg), dests_falls. done. Qed.

Lemma add_dests_trg l : forall m x, x ∈ add_dests blocks i b l m -> x ∈ m \/ exists e, e ∈ l /\ leaving_edge e /\ d_trg x.2 = ed_trg e.
Proof.
  induction l as [|e l IH]; intros m x Hx; cbn [add_dests] in Hx; [by left|]. destruct (edge_index blocks e) as [k|] eqn:Ek.
  - destruct (IH _ _ Hx) as [Hm|(e' & ? & ?)]; [|right; exists e'; split; [by right|done]]. apply map_set_in in Hm as [->|Hm]; [|by left].
    right. exists e. split_and!; [by left| |done]. destruct (decide (leaving_edge e)) as [|Hn]; [done|]. apply index_none in Hn. congruence.
  - destruct (IH _ _ Hx) as [Hm|(e' & ? & ?)]; [by left|]. right. exists e'. split; [by right|done].
Qed.

Lemma edges_ok_block : block_ok blocks i b = true.
Proof.
  pose proof edges_ok_fresh as Hm. pose proof dests_none as Hn. pose proof dests_taken_some as Ht. pose proof dests_falls_some as Hf. unfold block_ok. rewrite Hm, Hn.
  rewrite bool_decide_eq_true_2 by done. cbn [andb]. unfold edges_ok in Hok. apply andb_prop in Hok as [[_ Hk]%andb_prop _]. apply orb_prop in Hk as [->|Hk]; [done|].
  apply orb_true_iff. right. apply andb_prop in Hk as [[H1 H2]%andb_prop H3]. unfold cf_ok. apply andb_true_intro. split; [apply andb_true_intro; split; [done|]|].
  - apply forallb_forall. intros x Hx%list_elem_of_In. simpl in Hx. rewrite Hm in Hx. apply add_dests_trg in Hx as [Hx%elem_of_nil|(e & He & Hl & ->)]; [done|].
    apply bool_decide_eq_true in H2. rewrite Forall_forall in H2. by apply H2.
  - change (isIndirect_ (rb_cf (finalizeCF blocks i b))) with (isIndirect_ (rb_cf b)). change (insn_ (rb_cf (finalizeCF blocks i b))) with (insn_ (rb_cf b)).
    change (isCall_ (rb_cf (finalizeCF blocks i b))) with (isCall_ (rb_cf b)). change (isConditional_ (rb_cf (finalizeCF blocks i b))) with (isConditional_ (rb_cf b)).
    destruct (isIndirect_ (rb_cf b)); [done|]. destruct (isCall_ (rb_cf b)); [done|]. destruct (isConditional_ (rb_cf b)); apply bool_decide_eq_true; [by apply Ht|].
    apply orb_prop in H3 as [H3|H3]; [left; by apply Ht|right; by apply Hf].
Qed.
End Destinations.

Lemma addr_of_resolve f t : addr_of f t = target_addr (resolve lbl t) f.
Proof. by destruct t. Qed.

Section OneBlock.
Context (lo hi : Z) (f : Z -> Z) (Hlo : 0 < lo) (Hhi : hi + 64 < 2 ^ 63).
Context (i : nat) (b : RelocBlock) (Hm : destMap_ (rb_cf b) = []).
Context (Hf : forall j, (j < length blocks)%nat -> lo <= f (lbl j) <= hi).
Abbreviation fb := (finalizeCF blocks i b).
Context (Hok : bool_decide (destMap_ (rb_cf fb) = []) && negb (isIndirect_ (rb_cf fb)) = false -> cf_ok blocks fb = true).

Lemma item_reach ty insn t :
  trg_ok blocks t = true -> placeable (PCF (mk_cf ty insn (resolve lbl t))) lo hi -> insn_ok ty insn = true /\ in_reach lo hi f (resolve lbl t).
Proof.
  intros Ht [H1 H2]. split; [done|]. split; [done|]. intros l E. destruct t as [j| |]; [|done..]. injection E as <-. apply Hf. by apply Nat.ltb_lt.
Qed.

Lemma jump_gap_goes d insn ft n a bs sp :
  needed i b d -> trg_ok blocks (d_trg d) = true -> (forall p t, IPatch p t ∈ jump_items blocks fb d insn ft -> placeable p lo hi) ->
  lo <= a -> a <= hi -> ((S i < length blocks)%nat -> f (lbl (S i)) = a + Z.of_nat (length bs)) ->
  laid f (jump_items blocks fb d insn ft ++ gap_items fb) n a bs sp -> goes insn a bs (addr_of f (d_trg d)).
Proof.
  intros Hn Ht Hp Ha Ha' Hnext Hl. unfold jump_items in Hp, Hl. destruct (d_necessary d) eqn:En.
  - simpl in Hl. inversion Hl as [| | |p te k l n' a' bs1 sp1 Hkb Hr]; subst. destruct (item_reach Jump insn (d_trg d) Ht) as [Hok' Hre]; [apply (Hp _ _ ltac:(by left))|].
    rewrite addr_of_resolve. apply (jump_code_goes lo hi f Hlo Hhi insn (resolve lbl (d_trg d)) a); done.
  - destruct Hn as [Hn|(Et & Hlt & Hg)]; [congruence|]. unfold gap_items in Hl. simpl in Hl. rewrite Hg in Hl. simpl in Hl. inversion Hl; subst. left. split; [done|].
    rewrite Et. simpl. rewrite Hnext by done. simpl. lia.
Qed.

(** The destinations of the block lie in the graph. *)
Lemma dest_ok k d : cf_ok blocks fb = true -> find_dest k (destMap_ (rb_cf fb)) = Some d -> trg_ok blocks (d_trg d) = true.
Proof.
  unfold cf_ok. intros [[_ Hd]%andb_prop _]%andb_prop E%find_dest_in. rewrite forallb_forall in Hd. apply (Hd (k, d)). by apply list_elem_of_In.
Qed.

Lemma ft_gap_goes insn n a bs sp d :
  cf_ok blocks fb = true -> find_dest Fallthrough (destMap_ (rb_cf fb)) = Some d -> (forall p t, IPatch p t ∈ ft_items blocks fb insn -> placeable p lo hi) ->
  lo <= a -> a <= hi -> ((S i < length blocks)%nat -> f (lbl (S i)) = a + Z.of_nat (length bs)) ->
  laid f (ft_items blocks fb insn ++ gap_items fb) n a bs sp -> goes insn a bs (addr_of f (d_trg d)).
Proof.
  intros Hc E Hp Ha Ha' Hnext Hl. unfold ft_items in *. rewrite E in *. apply (jump_gap_goes d insn true n a bs sp); try done; [by apply (finalized_needed i b Fallthrough)|by apply (dest_ok Fallthrough)].
Qed.

Lemma taken_code d a n bs sp :
  cf_ok blocks fb = true -> find_dest Taken (destMap_ (rb_cf fb)) = Some d -> (forall p t, IPatch p t ∈ taken_items fb -> placeable p lo hi) ->
  lo <= a -> a <= hi -> laid f (taken_items fb) n a bs sp ->
  if isCall_ (rb_cf fb) then calls a bs (addr_of f (d_trg d)) else branches (insn_ (rb_cf fb)) a bs (addr_of f (d_trg d)).
Proof.
  intros Hc E Hp Ha Ha' Hl. unfold taken_items in *. rewrite E in *. pose proof (dest_ok Taken d Hc E) as Ht.
  specialize (Hp _ _ ltac:(by left)). destruct (item_reach _ _ _ Ht Hp) as [Hok' Hre].
  rewrite addr_of_resolve. destruct (isCall_ (rb_cf fb)); inversion Hl as [| | |p te k l n' a' bs1 sp1 Hkb Hr]; subst; inversion Hr; subst; rewrite app_nil_r.
  - by apply (call_code_calls lo hi f Hlo Hhi (insn_ (rb_cf fb)) (resolve lbl (d_trg d)) a _ k).
  - by apply (jcc_code_branches lo hi f Hlo Hhi (insn_ (rb_cf fb)) (resolve lbl (d_trg d)) a _ k).
Qed.

Lemma cf_flow n a bs sp :
  (forall p t, IPatch p t ∈ cf_items blocks fb -> placeable p lo hi) -> lo <= a -> a + Z.of_nat (length bs) <= hi ->
  ((S i < length blocks)%nat -> f (lbl (S i)) = a + Z.of_nat (length bs)) ->
  laid f (cf_items blocks fb) n a bs sp ->
  flow f (rb_cf fb) (negb (bool_decide (destMap_ (rb_cf fb) = []))) (d_trg <$> find_dest Taken (destMap_ (rb_cf fb))) (d_trg <$> find_dest Fallthrough (destMap_ (rb_cf fb))) a bs.
Proof.
  intros Hp Ha Ha' Hnext Hl. unfold flow, cf_items in *. rewrite negb_involutive. destruct (bool_decide _ && negb _); [by inversion Hl|]. specialize (Hok eq_refl).
  destruct (isIndirect_ (rb_cf fb)); [intros j Ej; unfold indirect_items in Hp, Hl; rewrite Ej in Hp, Hl; destruct (isCall_ (rb_cf fb))|destruct (isConditional_ (rb_cf fb) || isCall_ (rb_cf fb))].
  - rewrite <- app_assoc in Hl. apply laid_app_inv in Hl as (c & s1 & rest & s2 & H1 & H2 & -> & _). rewrite length_app in *. exists c, rest. split_and!; [done| |].
    + intros t0 (d & Ed & ->)%fmap_Some. eapply ft_gap_goes; [done|done| | | | |exact H2]; [|lia..]. intros p t Hin. apply (Hp p t). rewrite !elem_of_app. tauto.
    + intros Ez. rewrite Ez in H1. simpl in H1. inversion H1 as [| |xs te l n' a' bs1 sp1 Hr|]; subst. inversion Hr; subst. by rewrite app_nil_r.
  - apply laid_app_inv in Hl as (c & s1 & rest & s2 & H1 & H2 & -> & _). inversion H1 as [| |xs te l n' a' bs1 sp1 Hr|]; subst. inversion Hr; subst. exists rest. by rewrite app_nil_r.
  - rewrite <- app_assoc in Hl. apply laid_app_inv in Hl as (c & s1 & rest & s2 & H1 & H2 & -> & _). rewrite length_app in *. exists c, rest. split_and!; [done| |].
    + intros t0 (d & Ed & ->)%fmap_Some. eapply ft_gap_goes; [done|done| | | | |exact H2]; [|lia..]. intros p t Hin. apply (Hp p t). rewrite !elem_of_app. tauto.
    + intros t0 (d & Ed & ->)%fmap_Some. eapply taken_code; [done|done| | | |exact H1]; [|lia..]. intros p t Hin. apply (Hp p t). rewrite !elem_of_app. tauto.
  - intros t0 Hd. unfold single_items in *. destruct Hd as [(d & E & ->)%fmap_Some|[E1%fmap_None (d & E & ->)%fmap_Some]].
    + rewrite E in *. apply (jump_gap_goes d (insn_ (rb_cf fb)) false n a bs sp); try done; try lia; [by apply (finalized_needed i b Taken)|by apply (dest_ok Taken)|].
      intros p t Hin. apply (Hp p t). rewrite elem_of_app. tauto.
    + rewrite E1 in *. apply (ft_gap_goes (insn_ (rb_cf fb)) n a bs sp d); try done; try lia. intros p t Hin. apply (Hp p t). rewrite elem_of_app. tauto.
Qed.
End OneBlock.

(** ** All blocks *)

Lemma laid_blocks f n : forall i a bs sp j b,
  (i + n = length blocks)%nat -> laid f (items_from blocks n i) (lbl i) a bs sp -> (i <= j)%nat -> blocks !! j = Some b ->
  exists pre bb post sp', bs = pre ++ bb ++ post /\ laid f (block_items blocks (finalizeCF blocks j b)) (lbl j) (a + Z.of_nat (length pre)) bb sp' /\
    ((S j < length blocks)%nat -> f (lbl (S j)) = a + Z.of_nat (length pre) + Z.of_nat (length bb)).
Proof.
  induction n as [|n IH]; intros i a bs sp j b Hi Hl Hij Ej; [apply lookup_lt_Some in Ej; lia|]. cbn [items_from] in Hl.
  destruct (lookup_lt_is_Some_2 blocks i) as [bi Ei]; [lia|]. rewrite Ei in Hl. apply laid_app_inv in Hl as (b1 & s1 & b2 & s2 & H1 & H2 & -> & _).
  rewrite labels_block in H2. replace (lbl i + 1) with (lbl (S i)) in H2 by (unfold lbl; lia).
  destruct (decide (i = j)) as [->|Hne].
  - assert (bi = b) as -> by congruence. exists [], b1, b2, s1. rewrite Z.add_0_r. split_and!; [done|done|]. intros Hlt.
    destruct n as [|n]; [lia|]. cbn [items_from] in H2. destruct (lookup_lt_is_Some_2 blocks (S j)) as [bn En]; [lia|]. rewrite En in H2. unfold block_items in H2. simpl in H2. by inversion H2.
  - destruct (IH (S i) (a + Z.of_nat (length b1)) b2 s2 j b) as (pre & bb & post & sp' & -> & Hb & Hn); [lia|done|lia|done|].
    exists (b1 ++ pre), bb, post, sp'. rewrite length_app, Nat2Z.inj_add, !Z.add_assoc, <- !app_assoc. done.
Qed.

Lemma block_ok_parts i b : block_ok blocks i b = true ->
  destMap_ (rb_cf b) = [] /\ (bool_decide (destMap_ (rb_cf (finalizeCF blocks i b)) = []) && negb (isIndirect_ (rb_cf (finalizeCF blocks i b))) = false -> cf_ok blocks (finalizeCF blocks i b) = true).
Proof.
  unfold block_ok. intros [H1%bool_decide_eq_true H2]%andb_prop. split; [done|]. intros E. change (isIndirect_ (rb_cf (finalizeCF blocks i b))) with (isIndirect_ (rb_cf b)) in E.
  by rewrite E in H2.
Qed.

Lemma items_from_in n : forall i j b it, (i <= j < i + n)%nat -> (i + n <= length blocks)%nat -> blocks !! j = Some b -> it ∈ block_items blocks (finalizeCF blocks j b) -> it ∈ items_from blocks n i.
Proof.
  induction n as [|n IH]; intros i j b it Hj Hi Ej Hit; [lia|]. cbn [items_from]. destruct (lookup_lt_is_Some_2 blocks i) as [bi Ei]; [lia|]. rewrite Ei. apply elem_of_app.
  destruct (decide (i = j)) as [->|Hne]; [left; congruence|right]. apply (IH (S i) j b); done || lia.
Qed.

(** What is known of the code of block [j]: it has the instructions of [b], and then
    control goes along its edges. *)
Definition block_moved (f : Z -> Z) (base : Z) (bs : list Z) (j : nat) (b : RelocBlock) : Prop :=
  exists pre body ctl post sp, bs = pre ++ (body ++ ctl) ++ post /\ f (lbl j) = base + Z.of_nat (length pre) /\
    laid f (widget_item b <$> rb_elements b) (lbl (S j)) (f (lbl j)) body sp /\
    flow f (rb_cf b) (has leaving_edge b) (takes b) (falls b) (f (lbl j) + Z.of_nat (length body)) ctl.

Lemma block_moved_run base s f bs j b :
  (forall j b, blocks !! j = Some b -> edges_ok b = true) -> buildable (all_items blocks) base -> laid_out (all_items blocks) base s f bs ->
  blocks !! j = Some b -> block_moved f base bs j b.
Proof.
  intros Hok HA HL Ej. pose proof HA as [A1 A2 A3 A4 A5]. pose proof HL as [L1 L2 L3 L4 L5 L6 L7]. pose proof (lookup_lt_Some _ _ _ Ej) as Hj. pose proof (item_cap_nonneg (all_items blocks)) as HN.
  destruct (laid_blocks f (length blocks) 0 base bs _ j b ltac:(lia) L1 ltac:(lia) Ej) as (pre & bb & post & sp' & -> & Hb & Hn).
  unfold block_items in Hb. simpl in Hb. inversion Hb as [|l n0 a0 bs0 sp0 Hf0 Hr| |]; subst. apply laid_app_inv in Hr as (body & s1 & ctl & s2 & H1 & H2 & -> & _).
  replace (lbl j + 1) with (lbl (S j)) in * by (unfold lbl; lia). rewrite !length_app in *.
  exists pre, body, ctl, post, s1. rewrite <- Hf0 in *. split_and!; [done|done|done|].
  pose proof (Hok j b Ej) as He. destruct (block_ok_parts j b (edges_ok_block j b He)) as [Hm Hc].
  rewrite <- (dests_taken j b He), <- (dests_falls j b He), <- (negb_involutive (has leaving_edge b)), <- (dests_none j b He).
  eapply (cf_flow base (base + 2 * zsum item_cap (all_items blocks)) f A1 A2 j b Hm); [|exact Hc| | | | |exact H2].
  - intros k Hk. pose proof (laid_label_range f (all_items blocks) 1 base _ _ (lbl k) L1) as Hrange. rewrite labels_all, !length_app in Hrange. unfold lbl in *. lia.
  - intros p t Hin. apply (A5 p t). apply (items_from_in (length blocks) 0 j b); [lia|lia|done|]. unfold block_items. right. apply elem_of_app. by right.
  - lia.
  - lia.
  - intros Hlt. rewrite (Hn Hlt). lia.
Qed.
End Moved.

(** C18: blocks of code with any edges, moved to an address, keep their control flow:
    each block has the label it was promised, at its place are the bytes of its
    instructions, and behind them is code that goes along its edges, be it to a moved
    block or to an address.  A jump goes along the edge of a jump; a call calls along
    the edge of the call and then goes on along the edge of its return; a conditional
    jump that has no prefixes goes along the taken edge on the condition of the
    original and otherwise along the other one; where the last instruction is no jump,
    control goes along the falling edge; an indirect call keeps its bytes and goes on
    along its falling edge (the bytes of one through memory relative to the code are
    left open), an indirect jump keeps them up to the opcode of a call, which becomes that
    of a jump.  A jump that was
    left out as unnecessary was to the block that follows.  The generation ends after at
    most [2 * total + 2] rounds.  Assumed of the blocks ([edges_ok]): no destinations
    yet, targets that are in the graph, a taken edge of a conditional jump, and no
    computed target at the addresses 1 and 2, which are the keys of the other edges; of
    several edges of one kind the last counts.  Assumed of the layout ([buildable]): it
    stays below 2 GB, and no jump is over one of the five distances that cannot be
    made. *)
Theorem moved_code_keeps_control_flow (blocks : list RelocBlock) (width : Z) (templ : codeGen) (rounds : nat) (base : Z) :
  aWidth templ = 8 -> (forall j b, blocks !! j = Some b -> edges_ok blocks b = true) -> buildable (all_items blocks) base ->
  2 * zsum item_cap (all_items blocks) + 1 < Z.of_nat rounds ->
  exists s f bs rest, move_code blocks lbl width templ rounds base = Ret (seqZ 1 (Z.of_nat (length blocks)), true, s) /\
    ptr s = Some ((Some <$> bs) ++ rest) /\ size s = Z.of_nat (length bs) /\
    forall j b, blocks !! j = Some b -> getLabelAddr (lbl j) s = Ret (f (lbl j), s) /\ block_moved f base bs j b.
Proof.
  intros Hw Hok HA Hr. destruct (move_code_run blocks width templ rounds base Hw (fun j b Ej => edges_ok_block blocks j b (Hok j b Ej)) HA Hr) as (s & f & bs & E & HL). pose proof HL as [_ [rest Ep] Es _ _ Hlab _].
  exists s, f, bs, rest. split_and!; [done..|]. intros j b Ej. split; [|by apply (block_moved_run blocks base s f bs j b)].
  apply Hlab. rewrite labels_all. pose proof (lookup_lt_Some _ _ _ Ej). unfold lbl. lia.
Qed.

(** ** An example *)

Module move_example.
Definition blk (n : Z) : block_instance := mk_block n (0x1000 + 16 * n).
Definition widget_of (call cond : bool) (insn : option instruction) (addr : Z) : CFWidget := mk_cfw call cond false 0 insn (mk_loc 0 1 (-1)) addr 0 [].
Definition block_of (n : Z) (ws : list widget) (w : CFWidget) (outs : list RelocEdge) : RelocBlock :=
  mk_rb (0x1000 + 16 * n) (blk n) None (0x1000 + 16 * n) false ws w outs (-1).
(** A conditional jump over a block, a call, and a jump out. *)
Definition graph : list RelocBlock := [
  block_of 0 [InsnWidget [0x31; 0xc0] 0x1000] (widget_of false true (Some (mk_insn [0x74; 0x10] 0)) 0x1002) [mk_edge COND_TAKEN (TReloc 2); mk_edge COND_NOT_TAKEN (TReloc 1)];
  block_of 1 [InsnWidget [0x90] 0x1010] (widget_of true false (Some (mk_insn [0xe8; 0; 0; 0; 0] 0)) 0x1011) [mk_edge CALL (TAddr 0x7f0000001000); mk_edge CALL_FT (TReloc 2)];
  block_of 2 [] (widget_of false false (Some (mk_insn [0xeb; 0x10] 0)) 0x1020) [mk_edge DIRECT (TBlock (blk 7))]
].
Definition templ : codeGen := codeGen_new 8.

Lemma items_patches (items : list (item patch)) lo hi :
  forallb (fun it => match it with IPatch p _ => forallb (fun id => (0 <? id) && (id <=? zsum is_label items)) (patch_deps p) | _ => true end) items = true ->
  Forall (fun it => match it with IPatch p _ => placeable p lo hi | _ => True end) items ->
  forall p t, IPatch p t ∈ items -> (forall id, id ∈ deps p -> 0 < id <= zsum is_label items) /\ placeable p lo hi.
Proof.
  intros H1 H2 p t Hin. rewrite forallb_forall in H1. rewrite Forall_forall in H2. split; [|exact (H2 _ Hin)].
  specialize (H1 (IPatch p t) ltac:(by apply list_elem_of_In)). simpl in H1. intros id Hid. rewrite forallb_forall in H1. specialize (H1 id ltac:(by apply list_elem_of_In)).
  apply andb_prop in H1 as [? ?]. zbool. lia.
Qed.

Lemma graph_buildable : buildable (all_items graph) 0x400000.
Proof.
  split; [vm_compute; reflexivity..|]. apply items_patches; [vm_compute; reflexivity|].
  repeat (apply Forall_cons; split; [try exact I; vm_compute; split_and?; try done; try (intros; discriminate); auto|]). apply Forall_nil. done.
Qed.

Lemma graph_ok j b : graph !! j = Some b -> edges_ok graph b = true.
Proof. destruct j as [|[|[|j]]]; simpl; intros E; [injection E as <-; vm_compute; reflexivity..|done]. Qed.
End move_example.

Lemma generate_settles_witness :
  exists s f bs sp rest, assemble 8 move_example.templ 3 (all_items move_example.graph) 400 0x400000 = Ret ([1; 2; 3], true, s) /\
    laid f (all_items move_example.graph) 1 0x400000 bs sp /\ ptr s = Some ((Some <$> bs) ++ rest) /\ size s = Z.of_nat (length bs) /\
    forall id, 0 < id <= 3 -> getLabelAddr id s = Ret (f id, s).
Proof. apply (generate_settles 8 move_example.templ 3 (all_items move_example.graph) 400 0x400000 eq_refl move_example.graph_buildable). vm_compute. reflexivity. Defined.

Lemma moved_code_is_traced_witness :
  exists s f bs sp t, assemble 8 move_example.templ 3 (all_items move_example.graph) 400 0x400000 = Ret ([1; 2; 3], true, s) /\
    laid f (all_items move_example.graph) 1 0x400000 bs sp /\ trace s = Ret t /\
    (forall e a n k ri, (Some e, a, n) ∈ sp -> a <= k < a + n -> relocToOrig k ri t = Ret (true, info_of (setSize n (setReloc a e)) k ri)) /\
    (forall k ri, k < 0x400000 \/ 0x400000 + Z.of_nat (length bs) <= k -> relocToOrig k ri t = Ret (false, ri)).
Proof.
  apply (moved_code_is_traced 8 move_example.templ 3 (all_items move_example.graph) 400 0x400000 eq_refl move_example.graph_buildable).
  - vm_compute. reflexivity.
  - repeat (apply Forall_cons; split; [vm_compute; eauto|]). apply Forall_nil. done.
  - repeat (apply Forall_cons; split; [vm_compute; split_and?; (done || (intros ?; discriminate) || exact I)|]). apply Forall_nil. done.
  - vm_compute. reflexivity.
Defined.

Lemma moved_code_keeps_control_flow_witness :
  exists s f bs rest, move_code move_example.graph lbl 8 move_example.templ 400 0x400000 = Ret ([1; 2; 3], true, s) /\
    ptr s = Some ((Some <$> bs) ++ rest) /\ size s = Z.of_nat (length bs) /\
    forall j b, move_example.graph !! j = Some b -> getLabelAddr (lbl j) s = Ret (f (lbl j), s) /\ block_moved f 0x400000 bs j b.
Proof.
  apply (moved_code_keeps_control_flow move_example.graph 8 move_example.templ 400 0x400000 eq_refl move_example.graph_ok move_example.graph_buildable).
  vm_compute. reflexivity.
Defined.
