(* ===== verification/Springboard.v ===== *)
(** * Springboards (dyninstAPI/src/Relocation/Springboard.C, Springboard.h, addressSpace.C)

    Control enters moved code through springboards: jumps, or traps where no jump
    fits, that are written over the original code.  [SpringboardMap] holds the
    requests by their priority, [InstalledSpringboards] which ranges of the original
    code may be overwritten, and [SpringboardBuilder] turns requests into code, from
    the highest address to the lowest.  [patchCode] writes it.

    Of an address space its two virtual methods are an interface.  The parser answers
    through a class: the blocks of a function, and what is behind them. *)
From stdpp Require Import base gmap list.
From S2P Require Import Prelude CodeGen CodeTracker.
Import codegen codeTracker.

Module springboard.

Inductive Priority : Type :=
| MIN_PRIORITY | RELOC_MIN_PRIORITY | RelocNotRequired | RelocSuggested | RelocRequired | RelocOffLimits | RELOC_MAX_PRIORITY
| ORIG_MIN_PRIORITY | NotRequired | Suggested | Required | OffLimits | ORIG_MAX_PRIORITY | MAX_PRIORITY.
#[export] Instance Priority_eq_dec : EqDecision Priority.
Proof. solve_decision. Defined.
Definition prio (p : Priority) : Z :=
  match p with
  | MIN_PRIORITY => 0 | RELOC_MIN_PRIORITY => 1 | RelocNotRequired => 2 | RelocSuggested => 3 | RelocRequired => 4 | RelocOffLimits => 5
  | RELOC_MAX_PRIORITY => 6 | ORIG_MIN_PRIORITY => 7 | NotRequired => 8 | Suggested => 9 | Required => 10 | OffLimits => 11
  | ORIG_MAX_PRIORITY => 12 | MAX_PRIORITY => 13
  end.

(** ** Requests *)

Fixpoint map_get {A : Type} (k : Z) (l : list (Z * A)) : option A :=
  match l with [] => None | (k', v) :: l' => if k =? k' then Some v else map_get k l' end.

(** A pointer to a function as a key. *)
Definition func_key (f : option func_instance) : Z := match f with Some f => f_id f | None => 0 end.
Definition Destinations : Type := list (Z * (option func_instance * Z)).

Record SpringboardReq : Type := mk_req {
  rq_from : Z;
  rq_priority : Priority;
  rq_func : option func_instance;
  rq_block : option block_instance;
  rq_destinations : Destinations;
  checkConflicts : bool;
  includeRelocatedCopies : bool;
  fromRelocatedCode : bool;
  useTrap : bool
}.
Definition SpringboardReq_new (from to : Z) (p : Priority) (func : option func_instance) (block : option block_instance)
    (checks copies fromReloc trap : bool) : SpringboardReq :=
  mk_req from p func block (map_set (func_key func) (func, to) []) checks copies fromReloc trap.
Definition SpringboardReq_default : SpringboardReq := mk_req 0 NotRequired None None [] false false false false.

Definition addReq (from to : Z) (p : Priority) (func : option func_instance) (block : option block_instance)
    (checks copies fromReloc trap : bool) (r : SpringboardReq) : res SpringboardReq :=
  if rq_from r =? 0 then
    if bool_decide (rq_destinations r = [])
    then Ret (mk_req from p func block (map_set (func_key func) (func, to) (rq_destinations r)) checks copies fromReloc trap) else Fault FAssert
  else if rq_from r =? from
  then Ret (mk_req (rq_from r) (rq_priority r) (rq_func r) (rq_block r) (map_set (func_key func) (func, to) (rq_destinations r)) (checkConflicts r)
         (includeRelocatedCopies r) (fromRelocatedCode r) (useTrap r))
  else Fault FAssert.

(** The requests of each priority, in the order of their addresses. *)
Definition SpringboardMap : Type := list (Z * list (Z * SpringboardReq)).
Definition at_priority (p : Priority) (m : SpringboardMap) : list (Z * SpringboardReq) := default [] (map_get (prio p) m).
Definition set_req (p : Priority) (from : Z) (r : SpringboardReq) (m : SpringboardMap) : SpringboardMap :=
  map_set (prio p) (map_set from r (at_priority p m)) m.
Definition sb_empty (m : SpringboardMap) : bool := bool_decide (m = []).

Definition addFromOrigCode (from to : Z) (p : Priority) (func : option func_instance) (bbl : block_instance) (m : SpringboardMap) : res SpringboardMap :=
  match addReq from to p func (Some bbl) true true false false (default SpringboardReq_default (map_get from (at_priority p m))) with
  | Ret r => Ret (set_req p from r m)
  | Fault x => Fault x
  end.
Definition addFromRelocatedCode (from to : Z) (p : Priority) (m : SpringboardMap) : res SpringboardMap :=
  if prio p <? prio RELOC_MAX_PRIORITY then Ret (set_req p from (SpringboardReq_new from to p None None true false true false) m) else Fault FAssert.
Definition addRaw (from to : Z) (p : Priority) (func : option func_instance) (bbl : option block_instance) (checks copies fromReloc trap : bool)
    (m : SpringboardMap) : SpringboardMap :=
  set_req p from (SpringboardReq_new from to p func bbl checks copies fromReloc trap) m.

(** ** The ranges that may be overwritten *)

Record SpringboardInfo : Type := mk_info { si_val : Z; si_func : option func_instance; si_priority : Priority }.
Abbreviation ranges := (list (Z * (Z * SpringboardInfo))).

Record InstalledSpringboards : Type := mk_inst {
  nextFuncID_ : Z;
  relocTraps_ : gset Z;
  validRanges_ : ranges;
  paddingRanges_ : ranges;
  overwrittenRelocatedCode_ : ranges
}.
Definition Allocated : Z := 0.
Definition UnallocatedStart : Z := 1.
Definition InstalledSpringboards_new : InstalledSpringboards := mk_inst UnallocatedStart ∅ [] [] [].

(** [find] with the bounds of the range that is found. *)
Definition find_range (key : Z) (t : ranges) : option (Z * Z * SpringboardInfo) :=
  match precessor key t with
  | Some (l, (u, v)) => if key <? l then None else if u <=? key then None else Some (l, u, v)
  | None => None
  end.

Definition set_valid (t : ranges) : M InstalledSpringboards unit := modify (fun s =>
  mk_inst (nextFuncID_ s) (relocTraps_ s) t (paddingRanges_ s) (overwrittenRelocatedCode_ s)).
Definition set_padding (t : ranges) : M InstalledSpringboards unit := modify (fun s =>
  mk_inst (nextFuncID_ s) (relocTraps_ s) (validRanges_ s) t (overwrittenRelocatedCode_ s)).
Definition set_overwritten (t : ranges) : M InstalledSpringboards unit := modify (fun s =>
  mk_inst (nextFuncID_ s) (relocTraps_ s) (validRanges_ s) (paddingRanges_ s) t).
Definition set_traps (X : gset Z) : M InstalledSpringboards unit := modify (fun s =>
  mk_inst (nextFuncID_ s) X (validRanges_ s) (paddingRanges_ s) (overwrittenRelocatedCode_ s)).
Definition set_nextFuncID (n : Z) : M InstalledSpringboards unit := modify (fun s =>
  mk_inst n (relocTraps_ s) (validRanges_ s) (paddingRanges_ s) (overwrittenRelocatedCode_ s)).

(** What the parser knows of a function: its blocks and their ends; for an address the
    blocks that hold it, each as the number of functions that contain it; and the
    extent of its region. *)
Class Parse : Type := {
  func_blocks : func_instance -> list block_instance;
  block_end : block_instance -> Z;
  findBlocks : func_instance -> Z -> list Z;
  region_contains : func_instance -> Z -> bool
}.

Definition isNoneContained (blocks : list Z) : bool := forallb (fun n => negb (0 <? n)) blocks.

Section Parsed.
Context {parse : Parse}.

(** The end of a block that lacks [n] bytes of five, moved over bytes that belong to
    nothing. *)
Fixpoint extend (n : nat) (func : func_instance) (end_ : Z) : Z :=
  match n with
  | O => end_
  | S n' => if isNoneContained (findBlocks func end_) && region_contains func end_ then extend n' func (u64 (end_ + 1)) else end_
  end.

(** One range that overlaps [[start, end)], cut at its ends. *)
Definition split_range (info : SpringboardInfo) (start end_ LB UB : Z) (t : ranges) : ranges :=
  if LB <? start then
    let t := insert LB start info (erase LB t) in
    if UB <=? end_ then insert start UB info t else insert end_ UB info (insert start end_ info t)
  else
    let t := if start <? LB then insert start LB info t else t in
    if end_ <? UB then insert end_ UB info (insert LB end_ info t) else t.
(** The loop over the overlapping ranges: where the rest of the block starts. *)
Fixpoint split_ranges (n : nat) (info : SpringboardInfo) (lookup start end_ : Z) (t : ranges) : res (Z * ranges) :=
  match n with
  | O => Fault FFuel
  | S n' =>
      if negb (lookup <? end_) then Ret (start, t) else
      match find_range lookup t with
      | Some (LB, UB, _) => split_ranges n' info UB UB end_ (split_range info start end_ LB UB t)
      | None => split_ranges n' info (u64 (lookup + 1)) start end_ t
      end
  end.

Definition of_res {S A} (r : res A) : M S A := fun s => match r with Ret a => Ret (a, s) | Fault x => Fault x end.

Definition addBlock (func : func_instance) (bbl : block_instance) : M InstalledSpringboards unit :=
  let start := b_start bbl in
  let size := s32 (block_end bbl - b_start bbl) in
  let end_ := extend (Z.to_nat (5 - size)) func (block_end bbl) in
  id ← gets nextFuncID_ ;
  let info := mk_info id (Some func) MIN_PRIORITY in
  (if block_end bbl <? end_ then p ← gets paddingRanges_ ; set_padding (insert (block_end bbl) end_ info p) else mret tt) ;;
  t ← gets validRanges_ ;
  r ← of_res (split_ranges (S (Z.to_nat (end_ - start))) info start start end_ t) ;
  set_valid (if r.1 <? end_ then insert r.1 end_ info r.2 else r.2).
Definition addFunc (func : func_instance) : M InstalledSpringboards unit :=
  forM (func_blocks func) (addBlock func) ;;
  id ← gets nextFuncID_ ;
  set_nextFuncID (s32 (id + 1)).
End Parsed.

Definition forceTrap (a : Z) (s : InstalledSpringboards) : bool := bool_decide (a ∈ relocTraps_ s).

Definition conflictInRelocated (start end_ : Z) (s : InstalledSpringboards) : bool :=
  existsb (fun i => bool_decide (is_Some (find_range i (overwrittenRelocatedCode_ s)))) (seqZ start (end_ - start)) ||
  ((1 <? u64 (end_ - start)) && bool_decide (start ∈ relocTraps_ s)).

Fixpoint conflict_loop (n : nat) (start end_ : Z) (func : option func_instance) (p : Priority) (t : ranges) (working UB : Z)
    (lastState : option SpringboardInfo) : res bool :=
  match n with
  | O => Fault FFuel
  | S n' =>
      if negb (working <? end_) then Ret (UB <? end_) else
      match find_range working t with
      | None => Ret true
      | Some (LB, UB, state) =>
          if si_val state =? Allocated then
            Ret (if (LB =? start) && (end_ <=? UB) then
                   (prio p <? prio (si_priority state)) || (bool_decide (si_priority state = p) && negb (bool_decide (si_func state = func)))
                 else true)
          else if match lastState with Some last => negb (bool_decide (si_func state = si_func last)) | None => false end then Ret true
          else conflict_loop n' start end_ func p t UB UB (Some state)
      end
  end.
Definition conflict (start end_ : Z) (inRelocated : bool) (func : option func_instance) (p : Priority) (s : InstalledSpringboards) : res bool :=
  if inRelocated then Ret (conflictInRelocated start end_ s)
  else conflict_loop (S (Z.to_nat (end_ - start))) start end_ func p (validRanges_ s) start 0 None.

Definition registerBranchInRelocated (start end_ : Z) (func : option func_instance) (p : Priority) : M InstalledSpringboards unit :=
  t ← gets overwrittenRelocatedCode_ ; set_overwritten (insert start end_ (mk_info 1 func p) t).

(** Removing the ranges between [working] and [end]: the common value, the lowest and
    the highest bound, and the ranges that are left.  A value of -1 is none yet. *)
Fixpoint remove_ranges (n : nat) (end_ working idToUse LB ub : Z) (t : ranges) : res (Z * Z * Z * ranges) :=
  match n with
  | O => Fault FFuel
  | S n' =>
      if negb (working <? end_) then Ret (idToUse, LB, ub, t) else
      match find_range working t with
      | None => Fault FNull
      | Some (lb, ub, state) =>
          if (idToUse =? -1) || (idToUse =? si_val state)
          then remove_ranges n' end_ ub (if idToUse =? -1 then si_val state else idToUse) (if LB =? 0 then lb else LB) ub (erase lb t)
          else Fault FAssert
      end
  end.

Definition uses_padding (start end_ : Z) (s : InstalledSpringboards) : bool :=
  existsb (fun i => bool_decide (is_Some (find_range i (paddingRanges_ s)))) (seqZ start (end_ - start)).

Definition registerBranch (start end_ : Z) (dest : Destinations) (inRelocated : bool) (func : option func_instance) (p : Priority) :
    M InstalledSpringboards unit :=
  s ← get ;
  let trap := u64 (end_ - start) =? 1 in
  (if trap then set_traps ({[start]} ∪ relocTraps_ s) else mret tt) ;;
  (if trap || uses_padding start end_ s
   then X ← gets relocTraps_ ; set_traps (list_to_set (snd <$> (snd <$> dest)) ∪ X) else mret tt) ;;
  if inRelocated then registerBranchInRelocated start end_ func p else
  t ← gets validRanges_ ;
  r ← of_res (remove_ranges (S (Z.to_nat (end_ - start))) end_ start (-1) 0 0 t) ;
  let '(idToUse, LB, UB, t) := r in
  let info := mk_info idToUse func MIN_PRIORITY in
  let t := if LB <? start then insert LB start info t else t in
  let t := insert start end_ (mk_info Allocated func p) t in
  set_valid (if end_ <? UB then insert end_ UB info t else t).

(** ** Building springboards *)

(** The virtual methods of AddressSpace. *)
Class CodeSpace (S : Type) : Type := {
  addTrap : Z -> Z -> codeGen -> M S codeGen;
  writeTextSpace : Z -> list Z -> M S bool
}.

Record AddressSpace (S : Type) : Type := mk_as {
  installedSpringboards_ : InstalledSpringboards;
  relocatedCode_ : list CodeTracker;
  useTraps_ : bool;
  as_width : Z;
  as_space : S
}.
Arguments mk_as {S}.
Arguments installedSpringboards_ {S}. Arguments relocatedCode_ {S}. Arguments useTraps_ {S}. Arguments as_width {S}. Arguments as_space {S}.

(** While a batch is built: the requests, which grow, the code generated so far, and
    the requests that need several jumps. *)
Record build (S : Type) : Type := mk_build {
  bd_as : AddressSpace S;
  bd_input : SpringboardMap;
  bd_springboards : list codeGen;
  multis_ : list SpringboardReq
}.
Arguments mk_build {S}.
Arguments bd_as {S}. Arguments bd_input {S}. Arguments bd_springboards {S}. Arguments multis_ {S}.

Inductive generateResult_t : Type := Failed | MultiNeeded | Succeeded.

Section Builder.
Context {S : Type} `{CodeSpace S}.

#[export] Instance as_installed : Embed (AddressSpace S) InstalledSpringboards := {
  eget := installedSpringboards_;
  eput i a := mk_as i (relocatedCode_ a) (useTraps_ a) (as_width a) (as_space a)
}.
#[export] Instance as_memory : Embed (AddressSpace S) S := {
  eget := as_space;
  eput s a := mk_as (installedSpringboards_ a) (relocatedCode_ a) (useTraps_ a) (as_width a) s
}.
#[export] Instance build_as : Embed (build S) (AddressSpace S) := {
  eget := bd_as;
  eput a b := mk_build a (bd_input b) (bd_springboards b) (multis_ b)
}.
#[export] Instance as_installed_laws : EmbedLaws (AddressSpace S) InstalledSpringboards.
Proof. split; [by intros []|done]. Qed.
#[export] Instance as_memory_laws : EmbedLaws (AddressSpace S) S.
Proof. split; [by intros []|done]. Qed.
#[export] Instance build_as_laws : EmbedLaws (build S) (AddressSpace S).
Proof. split; [by intros []|done]. Qed.

Definition with_installed {A} (m : M InstalledSpringboards A) : M (build S) A := lift (T := AddressSpace S) (lift m).
Definition set_input (m : SpringboardMap) : M (build S) unit := modify (fun b => mk_build (bd_as b) m (bd_springboards b) (multis_ b)).
Definition push_springboard (g : codeGen) : M (build S) unit := modify (fun b => mk_build (bd_as b) (bd_input b) (bd_springboards b ++ [g]) (multis_ b)).
Definition push_multi (r : SpringboardReq) : M (build S) unit := modify (fun b => mk_build (bd_as b) (bd_input b) (bd_springboards b) (multis_ b ++ [r])).

(** The springboard of an address, in a buffer of its own. *)
Definition branch_gen (width from to : Z) : res codeGen :=
  match (invalidate ;; allocate 16 ;; setAddr from ;; codegen.generateBranch from to) (codeGen_new width) with Ret (_, g) => Ret g | Fault x => Fault x end.

(** The order of a map whose keys are pointers. *)
Definition in_order (m : gmap Z Z) : list Z := snd <$> foldr (fun x l => map_set x.1 x.2 l) [] (map_to_list m).
Definition tracker_addrs (orig : Z) (block : block_instance) (func : option func_instance) (getInst : bool) (t : CodeTracker) : res (list Z) :=
  match origToReloc orig block func t with
  | None => Ret []
  | Some reloc =>
      if negb (bool_decide (re_instrumentation reloc = ∅)) && getInst then Ret (in_order (re_instrumentation reloc))
      else if re_instruction reloc =? 0 then Fault FAssert else Ret [re_instruction reloc]
  end.
Fixpoint getRelocAddrs (orig : Z) (block : block_instance) (func : option func_instance) (relocs : list Z) (getInst : bool) (ts : list CodeTracker) :
    res (list Z) :=
  match ts with
  | [] => Ret relocs
  | t :: ts' =>
      match tracker_addrs orig block func getInst t with
      | Ret l => getRelocAddrs orig block func (relocs ++ l) getInst ts'
      | Fault x => Fault x
      end
  end.

Definition reloc_priority (p : Priority) : res Priority :=
  match p with Suggested => Ret RelocSuggested | Required => Ret RelocRequired | _ => Fault FAssert end.

(** One address of moved code that has to be redirected to [addr]. *)
Definition reloc_request (req : SpringboardReq) (trap : bool) (func : option func_instance) (addr a : Z) : M (build S) unit :=
  if a =? addr then mret tt else
  newPriority ← of_res (reloc_priority (rq_priority req)) ;
  i ← gets (fun b : build S => installedSpringboards_ (bd_as b)) ;
  m ← gets bd_input ;
  set_input (addRaw a addr newPriority func (rq_block req) (checkConflicts req) false true (trap || forceTrap a i) m).
(** The loop over the destinations; the list of addresses goes on from one to the next. *)
Fixpoint reloc_dests (req : SpringboardReq) (trap : bool) (bbl : block_instance) (relocAddrs : list Z) (l : Destinations) : M (build S) unit :=
  match l with
  | [] => mret tt
  | (_, (func, addr)) :: l' =>
      ts ← gets (fun b : build S => relocatedCode_ (bd_as b)) ;
      l1 ← of_res (getRelocAddrs (rq_from req) bbl func relocAddrs true ts) ;
      l2 ← of_res (getRelocAddrs (rq_from req) bbl func l1 false ts) ;
      forM (reverse l2) (reloc_request req trap func addr) ;;
      reloc_dests req trap bbl l2 l'
  end.
Definition createRelocSpringboards (req : SpringboardReq) (trap : bool) : M (build S) unit :=
  assertM (negb (fromRelocatedCode req)) ;;
  match rq_block req with
  | None => ts ← gets (fun b : build S => relocatedCode_ (bd_as b)) ; if bool_decide (rq_destinations req = []) || bool_decide (ts = []) then mret tt else fail FNull
  | Some bbl => reloc_dests req trap bbl [] (rq_destinations req)
  end.

Definition sb_conflict (start end_ : Z) (r : SpringboardReq) : M (build S) bool :=
  i ← gets (fun b : build S => installedSpringboards_ (bd_as b)) ;
  of_res (conflict start end_ (fromRelocatedCode r) (rq_func r) (rq_priority r) i).

(** A trap in the place of the branch, if there can be one. *)
Definition try_trap (r : SpringboardReq) (to : Z) (gen : codeGen) : M (build S) (option codeGen) :=
  c ← sb_conflict (rq_from r) (u64 (rq_from r + 1)) r ;
  if (c : bool) then mret None else
  u ← gets (fun b : build S => useTraps_ (bd_as b)) ;
  if negb u then mret None else
  g ← lift (T := AddressSpace S) (lift (addTrap (rq_from r) to gen)) ; mret (Some g).
Definition install (r : SpringboardReq) (usedTrap : bool) (size : Z) (gen : codeGen) : M (build S) generateResult_t :=
  (if includeRelocatedCopies r then createRelocSpringboards r usedTrap else mret tt) ;;
  with_installed (registerBranch (rq_from r) (u64 (rq_from r + size)) (rq_destinations r) (fromRelocatedCode r) (rq_func r) (rq_priority r)) ;;
  push_springboard gen ;;
  mret Succeeded.
Definition generateSpringboard (r : SpringboardReq) : M (build S) generateResult_t :=
  match rq_destinations r with
  | [] => fail FBadPtr                  (* begin() of an empty map *)
  | (_, (_, to)) :: _ =>
      w ← gets (fun b : build S => as_width (bd_as b)) ;
      gen ← of_res (branch_gen w (rq_from r) to) ;
      c ← (if useTrap r then mret true else sb_conflict (rq_from r) (u64 (rq_from r + used gen)) r) ;
      if c : bool then
        t ← try_trap r to gen ;
        match t with None => mret Failed | Some g => install r true 1 g end
      else install r false (used gen) gen
  end.

Fixpoint generate_reqs (p : Priority) (l : list (Z * SpringboardReq)) : M (build S) bool :=
  match l with
  | [] => mret true
  | (_, req) :: l' =>
      r ← generateSpringboard req ;
      match r with
      | Failed => if bool_decide (p = Required) then mret false else generate_reqs p l'
      | MultiNeeded => push_multi req ;; generate_reqs p l'
      | Succeeded => generate_reqs p l'
      end
  end.
Definition generateInt (p : Priority) : M (build S) bool :=
  m ← gets bd_input ;
  generate_reqs p (reverse (at_priority p m)).
Definition sb_generate : M (build S) bool :=
  b ← generateInt Required ; if negb b then mret false else
  b ← generateInt Suggested ; if negb b then mret false else
  b ← generateInt RelocRequired ; if negb b then mret false else
  generateInt RelocSuggested.

(** ** Writing them *)

(** The bytes from [start_ptr()] to [used()], which have been stored. *)
Definition gen_bytes (g : codeGen) : option (list Z) := mapM id (take (Z.to_nat (used g)) (default [] (buffer_ g))).
Definition gen_ptr (g : codeGen) : M (AddressSpace S) (list Z) := match gen_bytes g with Some bs => mret bs | None => fail FBadPtr end.
Fixpoint write_patches (l : list codeGen) : M (AddressSpace S) bool :=
  match l with
  | [] => mret true
  | g :: l' =>
      bs ← gen_ptr g ;
      ok ← lift (writeTextSpace (startAddr g) bs) ;
      if negb ok then mret false else write_patches l'
  end.
Definition patchCode (p : SpringboardMap) : M (AddressSpace S) bool := fun a =>
  match sb_generate (mk_build a p [] []) with
  | Fault x => Fault x
  | Ret (ok, b) => if ok then write_patches (bd_springboards b) (bd_as b) else Ret (false, bd_as b)
  end.

Definition createFunc {parse : Parse} (funcs : list func_instance) : M (AddressSpace S) unit := forM funcs (fun f => lift (addFunc f)).
End Builder.

End springboard.
