(* ===== verification/SpringboardOk.v ===== *)
(** * Where springboards may be put

    The ranges of [InstalledSpringboards] are disjoint and in order.  [conflict] and
    [registerBranch] agree: what has no conflict is covered by free ranges of one
    function, or replaces a springboard that starts at the same place; registering
    then takes exactly these bytes, and no assertion fails. *)
From stdpp Require Import base gmap list.
From S2P Require Import Prelude CodeTracker Springboard.
Import codeTracker springboard.

Abbreviation range_entry := (Z * (Z * SpringboardInfo))%type.
Abbreviation lo e := (e.1).
Abbreviation hi e := (e.2.1).
Abbreviation info e := (e.2.2).

(** ** Ranges *)

(** In order from [a], and not empty. *)
Fixpoint ordered (a : Z) (t : ranges) : Prop := match t with [] => True | e :: t' => a <= lo e < hi e /\ ordered (hi e) t' end.
Definition inside (e : range_entry) (x : Z) : Prop := lo e <= x < hi e.
(** No range meets [[a, b)]. *)
Definition clear (t : ranges) (a b : Z) : Prop := forall e, e ∈ t -> hi e <= a \/ b <= lo e.

Lemma ordered_weaken a b t : a <= b -> ordered b t -> ordered a t.
Proof. destruct t; simpl; [done|]. intros ? [? ?]. split; [lia|done]. Qed.
Lemma ordered_in a t e : ordered a t -> e ∈ t -> a <= lo e < hi e.
Proof.
  revert a. induction t as [|x t IH]; intros a Ho He; [by apply elem_of_nil in He|]. destruct Ho as [Hx Ht]. apply elem_of_cons in He as [->|He]; [done|].
  specialize (IH _ Ht He). lia.
Qed.
Lemma ordered_apart a t e1 e2 : ordered a t -> e1 ∈ t -> e2 ∈ t -> e1 = e2 \/ hi e1 <= lo e2 \/ hi e2 <= lo e1.
Proof.
  revert a. induction t as [|x t IH]; intros a Ho H1 H2; [by apply elem_of_nil in H1|]. destruct Ho as [Hx Ht].
  apply elem_of_cons in H1 as [->|H1], H2 as [->|H2]; [by left|..|by eapply IH].
  - pose proof (ordered_in _ _ _ Ht H2). lia.
  - pose proof (ordered_in _ _ _ Ht H1). lia.
Qed.
Lemma inside_unique a t e1 e2 x : ordered a t -> e1 ∈ t -> e2 ∈ t -> inside e1 x -> inside e2 x -> e1 = e2.
Proof. intros Ho H1 H2 I1 I2. destruct (ordered_apart a t e1 e2 Ho H1 H2) as [?|?]; [done|]. unfold inside in *. lia. Qed.

Lemma lower_below a t k : ordered a t -> k < a -> lower k t = None.
Proof. destruct t as [|e t]; [done|]. simpl. intros [? _] ?. by rewrite (proj2 (Z.leb_gt _ _)) by lia. Qed.
Lemma lower_in k (t : ranges) e : lower k t = Some e -> e ∈ t /\ lo e <= k.
Proof.
  induction t as [|x t IH]; [done|]. simpl. destruct (_ <=? k) eqn:E; [|done]. zbool. destruct (lower k t) as [y|]; intros Ey; injection Ey as <-; [|by split; [left|]].
  destruct (IH eq_refl). split; [by right|done].
Qed.
Lemma lower_inside a t e k : ordered a t -> e ∈ t -> inside e k -> lower k t = Some e.
Proof.
  revert a. induction t as [|x t IH]; intros a Ho He Hk; [by apply elem_of_nil in He|]. destruct Ho as [Hx Ht]. simpl. unfold inside in Hk. apply elem_of_cons in He as [->|He].
  - rewrite (proj2 (Z.leb_le _ _)) by lia. by rewrite (lower_below (hi x)) by (done || lia).
  - pose proof (ordered_in _ _ _ Ht He). rewrite (proj2 (Z.leb_le _ _)) by lia. by rewrite (IH _ Ht He Hk).
Qed.
Lemma find_range_iff a t k l u v : ordered a t -> find_range k t = Some (l, u, v) <-> (l, (u, v)) ∈ t /\ l <= k < u.
Proof.
  intros Ho. unfold find_range, precessor. split.
  - destruct (lower k t) as [[l' [u' v']]|] eqn:E; [|done]. destruct (lower_in _ _ _ E) as [Hin Hk]. simpl in Hk. destruct (u' <=? k) eqn:E1; [done|]. rewrite E1.
    destruct (k <? l') eqn:E2; [done|]. intros Ev. injection Ev as -> -> ->. zbool. split; [done|lia].
  - intros [Hin Hk]. rewrite (lower_inside a t (l, (u, v)) k Ho Hin Hk). assert (u <=? k = false) as E by (apply Z.leb_gt; lia). by rewrite E, (proj2 (Z.ltb_ge k l)), E by lia.
Qed.
Lemma find_range_none a t k : ordered a t -> find_range k t = None <-> clear t k (k + 1).
Proof.
  intros Ho. split.
  - intros E [l [u v]] He. simpl. destruct (decide (l <= k < u)) as [Hk|]; [|lia]. assert (find_range k t = Some (l, u, v)) by (by apply (find_range_iff a)). congruence.
  - intros Hc. destruct (find_range k t) as [[[l u] v]|] eqn:E; [|done]. apply (find_range_iff a) in E as [He Hk]; [|done]. destruct (Hc _ He); simpl in *; lia.
Qed.

(** Inserting where there is room, and removing. *)
Lemma insert_in a t l u v e : ordered a t -> l < u -> clear t l u -> e ∈ insert l u v t <-> e = (l, (u, v)) \/ e ∈ t.
Proof.
  unfold insert. revert a. induction t as [|[l' [u' v']] t IH]; intros a Ho Hlu Hc; simpl; [set_solver|]. destruct Ho as [Hx Ht]. simpl in Hx, Ht.
  destruct (Hc (l', (u', v')) ltac:(by left)) as [Hd|Hd]; simpl in Hd.
  - rewrite (proj2 (Z.ltb_ge l l')), (proj2 (Z.eqb_neq l l')) by lia. rewrite !elem_of_cons, (IH u' Ht Hlu) by (intros x Hx'; apply Hc; by right). tauto.
  - destruct (l <? l') eqn:E; zbool; [|lia]. rewrite !elem_of_cons. tauto.
Qed.
Lemma insert_ordered a t l u v : ordered a t -> a <= l < u -> clear t l u -> ordered a (insert l u v t).
Proof.
  unfold insert. revert a. induction t as [|[l' [u' v']] t IH]; intros a Ho Hlu Hc; [simpl; done|]. destruct Ho as [Hx Ht]. simpl in Hx, Ht. cbn [map_set].
  destruct (Hc (l', (u', v')) ltac:(by left)) as [Hd|Hd]; simpl in Hd.
  - rewrite (proj2 (Z.ltb_ge l l')), (proj2 (Z.eqb_neq l l')) by lia. split; [done|]. apply IH; [done|simpl; lia|]. intros x Hx'. apply Hc. by right.
  - destruct (l <? l') eqn:E; zbool; [|lia]. simpl. split_and!; try done; lia.
Qed.
Lemma erase_in (t : ranges) l e : e ∈ erase l t <-> e ∈ t /\ lo e <> l.
Proof. unfold erase. rewrite list_elem_of_filter. tauto. Qed.
Lemma erase_ordered a t l : ordered a t -> ordered a (erase l t).
Proof.
  unfold erase. revert a. induction t as [|x t IH]; intros a Ho; [done|]. destruct Ho as [Hx Ht]. rewrite filter_cons. case_decide.
  - split; [done|by apply IH].
  - apply (ordered_weaken a (hi x)); [lia|by apply IH].
Qed.
Lemma clear_app (t : ranges) a b c : clear t a b -> clear t b c -> (forall e, e ∈ t -> lo e < hi e) -> clear t a c.
Proof. intros H1 H2 Hn e He. specialize (Hn e He). destruct (H1 e He), (H2 e He); lia. Qed.

(** ** Conflicts *)

(** Every byte of [[a, b)] is in a range of the function that is not allocated. *)
Definition covered (t : ranges) (a b : Z) (f : option func_instance) : Prop :=
  forall x, a <= x < b -> exists e, e ∈ t /\ inside e x /\ si_val (info e) <> Allocated /\ si_func (info e) = f.
(** A springboard at [a] with room for the new one, which may take its place. *)
Definition replaceable (t : ranges) (a b : Z) (f : option func_instance) (p : Priority) : Prop :=
  exists u st, (a, (u, st)) ∈ t /\ si_val st = Allocated /\ b <= u /\ prio (si_priority st) <= prio p /\ (si_priority st = p -> si_func st = f).

Lemma covered_app t a b c f : covered t a b f -> covered t b c f -> covered t a c f.
Proof. intros H1 H2 x Hx. destruct (decide (x < b)); [apply H1; lia|apply H2; lia]. Qed.
Lemma prio_inj p q : prio p = prio q -> p = q.
Proof. by destruct p, q. Qed.

Lemma conflict_loop_run n : forall a start end_ func p t working UB lst,
  ordered a t -> start < end_ -> start <= working -> (Z.to_nat (end_ - working) < n)%nat ->
  (match lst with Some st => UB = working /\ exists e, e ∈ t /\ inside e start /\ si_val (info e) <> Allocated | None => working = start end) ->
  exists c, conflict_loop n start end_ func p t working UB lst = Ret c /\
    (c = false -> lst = None /\ replaceable t start end_ func p \/ exists f, (forall st, lst = Some st -> si_func st = f) /\ covered t working end_ f).
Proof.
  induction n as [|n IH]; intros a start end_ func p t working UB lst Ho Hse Hs Hn Hl; [lia|]. cbn [conflict_loop].
  destruct (working <? end_) eqn:Ew; cbn [negb]; zbool.
  2:{ exists (UB <? end_). split; [done|]. intros _. right. destruct lst as [st|]; [|lia]. exists (si_func st). split; [by intros ? [= ->]|]. intros x Hx. lia. }
  destruct (find_range working t) as [[[l u] st]|] eqn:Ef; [|by exists true].
  apply (find_range_iff a) in Ef as [Hin Hk]; [|done]. destruct (si_val st =? Allocated) eqn:Ea; zbool.
  - eexists. split; [done|]. intros Hc. destruct (l =? start) eqn:E1; [|done]. destruct (end_ <=? u) eqn:E2; [|done]. zbool. simpl in Hc. apply orb_false_elim in Hc as [C1 C2]. zbool. subst l.
    left. split.
    + destruct lst as [st'|]; [|done]. exfalso. destruct Hl as [_ (e & He & Hi & Hv)]. apply Hv. by rewrite (inside_unique a t e (start, (u, st)) start) by (done || (unfold inside; simpl; lia)).
    + exists u, st. split_and!; try done. intros Ep. rewrite bool_decide_eq_true_2 in C2 by done. simpl in C2. apply negb_false_iff in C2. by apply bool_decide_eq_true in C2.
  - destruct (match lst with Some last => _ | None => false end) eqn:El; [by exists true|].
    destruct (IH a start end_ func p t u u (Some st)) as (c & E & Hc); [done|done|lia|lia| |].
    { split; [done|]. destruct lst as [st'|]; [by apply Hl|]. exists (l, (u, st)). unfold inside. simpl. split_and!; (done || lia). }
    exists c. split; [done|]. intros Hcf. right. destruct (Hc Hcf) as [[? _]|(f & Hf & Hcov)]; [done|]. specialize (Hf st eq_refl). exists f. split.
    + intros st' ->. apply negb_false_iff, bool_decide_eq_true in El. congruence.
    + apply (covered_app t working u end_); [|done]. intros x Hx. exists (l, (u, st)). unfold inside. simpl. split_and!; (done || lia).
Qed.

(** One free byte is no conflict. *)
Lemma conflict_byte a t start func p e : ordered a t -> e ∈ t -> inside e start -> si_val (info e) <> Allocated ->
  conflict_loop 2 start (start + 1) func p t start 0 None = Ret false.
Proof.
  intros Ho He Hi Hv. destruct e as [l [u st]]. unfold inside in Hi. simpl in *. rewrite (proj2 (Z.ltb_lt _ _)) by lia. cbn [negb].
  assert (find_range start t = Some (l, u, st)) as -> by (by apply (find_range_iff a)). rewrite (proj2 (Z.eqb_neq _ _)) by done.
  by rewrite (proj2 (Z.ltb_ge u _)) by lia.
Qed.

(** ** Registering *)

Lemma remove_ranges_run n : forall end_ working v id LB ub t,
  ordered 1 t -> 0 < working -> (Z.to_nat (end_ - working) < n)%nat -> v <> -1 -> id = -1 /\ LB = 0 \/ id = v /\ 0 < LB ->
  (forall x, working <= x < end_ -> exists e, e ∈ t /\ inside e x /\ si_val (info e) = v) ->
  exists id' LB' ub' t', remove_ranges n end_ working id LB ub t = Ret (id', LB', ub', t') /\ ordered 1 t' /\
    (forall e, e ∈ t' <-> e ∈ t /\ (working < end_ -> hi e <= working \/ end_ <= lo e)) /\
    (if decide (working < end_) then exists e1 e2, e1 ∈ t /\ inside e1 working /\ e2 ∈ t /\ inside e2 (end_ - 1) /\ id' = v /\ ub' = hi e2 /\ LB' = (if LB =? 0 then lo e1 else LB)
     else id' = id /\ LB' = LB /\ ub' = ub).
Proof.
  induction n as [|n IH]; intros end_ working v id LB ub t Ho Hw Hn Hv Hid Hcov; [lia|]. cbn [remove_ranges].
  destruct (decide (working < end_)) as [Hlt|Hge].
  2:{ rewrite (proj2 (Z.ltb_ge _ _)) by lia. exists id, LB, ub, t. split_and!; try done. intros e. split; [intros He; split; [done|lia]|tauto]. }
  rewrite (proj2 (Z.ltb_lt _ _)) by lia. cbn [negb]. destruct (Hcov working ltac:(lia)) as ([l [u st]] & Hin & Hi & Hval). unfold inside in Hi. simpl in Hi, Hval.
  assert (find_range working t = Some (l, u, st)) as -> by (by apply (find_range_iff 1)). rewrite Hval.
  assert ((id =? -1) || (id =? v) = true) as -> by (destruct Hid as [[-> _]|[-> _]]; [done|rewrite Z.eqb_refl; apply orb_true_r]).
  assert ((if id =? -1 then v else id) = v) as -> by (destruct Hid as [[-> _]|[-> _]]; [done|by rewrite (proj2 (Z.eqb_neq _ _))]).
  pose proof (ordered_in _ _ _ Ho Hin) as Hl. simpl in Hl. set (LB1 := if LB =? 0 then l else LB).
  assert (0 < LB1) as HLB by (unfold LB1; destruct (LB =? 0) eqn:E; zbool; lia).
  assert (forall e, e ∈ t -> lo e <> l <-> e <> (l, (u, st))) as Hne.
  { intros e He. split; [intros H1 ->; done|]. intros H1 H2. destruct (ordered_apart _ _ _ _ Ho He Hin) as [?|H3]; [done|]. pose proof (ordered_in _ _ _ Ho He). simpl in *. lia. }
  destruct (IH end_ u v v LB1 u (erase l t)) as (id' & LB' & ub' & t' & E & Ho' & Hm & Hr); [by apply erase_ordered|lia|lia|done|by right| |].
  { intros x Hx. destruct (Hcov x ltac:(lia)) as (e & He & Hxi & Hve). exists e. split; [|done]. apply erase_in. split; [done|]. apply Hne; [done|]. intros ->. unfold inside in Hxi. simpl in Hxi. lia. }
  exists id', LB', ub', t'. split; [done|]. split; [done|]. split.
  - intros e. rewrite Hm, erase_in. split.
    + intros [[He Hlo] Hc]. split; [done|]. intros _. apply Hne in Hlo; [|done]. destruct (ordered_apart _ _ _ _ Ho He Hin) as [?|Ha]; [done|]. simpl in Ha.
      pose proof (ordered_in _ _ _ Ho He). destruct (decide (u < end_)); [specialize (Hc ltac:(done)); lia|lia].
    + intros [He Hc]. specialize (Hc Hlt). pose proof (ordered_in _ _ _ Ho He). split_and!; [done|apply Hne; [done|]|lia]. intros ->. simpl in Hc. lia.
  - destruct (decide (u < end_)) as [Hu|Hu].
    + destruct Hr as (e1 & e2 & He1 & Hi1 & He2 & Hi2 & -> & -> & ->). apply erase_in in He2 as [He2 _]. exists (l, (u, st)), e2. split_and!; try done.
      rewrite (proj2 (Z.eqb_neq LB1 0)) by lia. done.
    + destruct Hr as (-> & -> & ->). exists (l, (u, st)), (l, (u, st)). split_and!; try done; unfold inside; simpl; lia.
Qed.

(** The ranges agree with the functions the addresses belong to, [own], and with the
    numbers of the functions, [idf]. *)
Record ranges_ok (own : Z -> option func_instance) (idf : option func_instance -> Z) (t : ranges) : Prop := {
  ro_ordered : ordered 1 t;
  ro_entry : forall e, e ∈ t -> hi e < 2 ^ 63 /\
    (si_val (info e) = Allocated \/ si_val (info e) = idf (si_func (info e)) /\ forall x, inside e x -> si_func (info e) = own x)
}.
(** A byte that no springboard takes. *)
Definition unused (t : ranges) (x : Z) : Prop := exists e, e ∈ t /\ inside e x /\ si_val (info e) <> Allocated.

(** What is inserted in the place of the removed ranges. *)
Definition taken (start end_ id LB UB : Z) (func : option func_instance) (p : Priority) (t : ranges) : ranges :=
  let t := if LB <? start then insert LB start (mk_info id func MIN_PRIORITY) t else t in
  let t := insert start end_ (mk_info Allocated func p) t in
  if end_ <? UB then insert end_ UB (mk_info id func MIN_PRIORITY) t else t.

Lemma taken_run start end_ id LB UB func p t : ordered 1 t -> 1 <= LB -> LB <= start < end_ -> end_ <= UB -> clear t LB UB ->
  ordered 1 (taken start end_ id LB UB func p t) /\
  forall e, e ∈ taken start end_ id LB UB func p t <-> e ∈ t \/ e = (start, (end_, mk_info Allocated func p)) \/
    LB < start /\ e = (LB, (start, mk_info id func MIN_PRIORITY)) \/ end_ < UB /\ e = (end_, (UB, mk_info id func MIN_PRIORITY)).
Proof.
  intros Ho H1 H2 H3 Hc. unfold taken. set (i := mk_info id func MIN_PRIORITY). set (j := mk_info Allocated func p).
  set (t1 := if LB <? start then insert LB start i t else t). set (t2 := insert start end_ j t1).
  assert (ordered 1 t1 /\ (forall e, e ∈ t1 <-> e ∈ t \/ LB < start /\ e = (LB, (start, i))) /\ clear t1 start UB) as (O1 & I1 & C1).
  { unfold t1. destruct (LB <? start) eqn:E; zbool.
    - assert (clear t LB start) as Hc1 by (intros e He; destruct (Hc e He); lia).
      split; [by apply insert_ordered; [|lia|]|]. split; [intros e; rewrite (insert_in 1) by (done || lia); tauto|].
      intros e He. apply (insert_in 1) in He as [->|He]; [simpl; lia|destruct (Hc e He); lia|done|lia|done].
    - split; [done|]. split; [intros e; split; [by left|]; intros [?|[? _]]; [done|lia]|]. intros e He. destruct (Hc e He); lia. }
  assert (clear t1 start end_) as C1' by (intros e He; destruct (C1 e He); lia).
  assert (ordered 1 t2 /\ (forall e, e ∈ t2 <-> e ∈ t1 \/ e = (start, (end_, j))) /\ clear t2 end_ UB) as (O2 & I2 & C2).
  { unfold t2. split; [by apply insert_ordered; [|lia|]|]. split; [intros e; rewrite (insert_in 1) by (done || lia); tauto|].
    intros e He. apply (insert_in 1) in He as [->|He]; [simpl; lia|destruct (C1 e He); lia|done|lia|done]. }
  destruct (end_ <? UB) eqn:E; zbool.
  - split; [apply insert_ordered; (done || lia)|]. intros e. rewrite (insert_in 1) by (done || lia). rewrite I2, I1. tauto.
  - split; [done|]. intros e. rewrite I2, I1. split; [tauto|]. intros [?|[?|[?|[? _]]]]; [tauto..|lia].
Qed.

(** The ranges that a springboard replaces have one value. *)
Lemma common_value own idf t start end_ func p :
  ranges_ok own idf t -> (forall f, 1 <= idf f) -> start < end_ -> own start = func ->
  replaceable t start end_ func p \/ (exists f, covered t start end_ f) ->
  exists v, v <> -1 /\ (v = Allocated \/ v = idf func) /\ forall x, start <= x < end_ -> exists e, e ∈ t /\ inside e x /\ si_val (info e) = v /\
    (v <> Allocated -> si_func (info e) = func).
Proof.
  intros [Ho He] Hidf Hse Hown Hc.
  destruct Hc as [(u & st & Hin & Hst & Hu & _)|(f & Hcov)].
  - exists Allocated. split_and!; [done|by left|]. intros x Hx. exists (start, (u, st)). unfold inside. simpl. split_and!; (done || lia).
  - destruct (Hcov start ltac:(lia)) as (e & Hin & Hi & Hv & Hf). destruct (He e Hin) as [_ [?|[Hv' Hfo]]]; [done|]. rewrite (Hfo start Hi), Hown in Hf. subst f.
    exists (idf func). split_and!; [specialize (Hidf func); lia|by right|]. intros x Hx. destruct (Hcov x Hx) as (e' & Hin' & Hi' & Hv1 & Hf'). exists e'.
    destruct (He e' Hin') as [_ [?|[Hv1' _]]]; [done|]. rewrite Hf' in Hv1'. done.
Qed.

Lemma branch_run own idf t start end_ func p :
  ranges_ok own idf t -> (forall f, 1 <= idf f) -> 0 < start -> start < end_ -> own start = func ->
  replaceable t start end_ func p \/ (exists f, covered t start end_ f) ->
  exists id LB UB t', remove_ranges (S (Z.to_nat (end_ - start))) end_ start (-1) 0 0 t = Ret (id, LB, UB, t') /\
    let t2 := taken start end_ id LB UB func p t' in ranges_ok own idf t2 /\ (start, (end_, mk_info Allocated func p)) ∈ t2 /\
    (forall e, e ∈ t -> hi e <= start \/ end_ <= lo e -> e ∈ t2) /\ (forall x, x < start \/ end_ <= x -> unused t x -> unused t2 x) /\
    (forall e x, e ∈ t2 -> inside e x -> exists e', e' ∈ t /\ inside e' x).
Proof.
  intros [Ho He] Hidf Hs Hse Hown Hc.
  destruct (common_value own idf t start end_ func p (Build_ranges_ok _ _ _ Ho He) Hidf Hse Hown Hc) as (v & Hv & Hvc & Hcov).
  destruct (remove_ranges_run (S (Z.to_nat (end_ - start))) end_ start v (-1) 0 0 t) as (id & LB & UB & t' & E & Ho' & Hm & Hr); try done; try lia.
  { intros x Hx. destruct (Hcov x Hx) as (e & ? & ? & ? & _). by exists e. }
  rewrite decide_True in Hr by done. destruct Hr as (e1 & e2 & He1 & Hi1 & He2 & Hi2 & -> & -> & ->). cbn [Z.eqb].
  exists v, (lo e1), (hi e2), t'. split; [done|]. pose proof (ordered_in _ _ _ Ho He1). pose proof (ordered_in _ _ _ Ho He2). unfold inside in Hi1, Hi2.
  assert (clear t' (lo e1) (hi e2)) as Hcl.
  { intros e Hin. apply Hm in Hin as [Hin Hd]. specialize (Hd Hse). pose proof (ordered_in _ _ _ Ho Hin).
    destruct (ordered_apart _ _ _ _ Ho Hin He1) as [->|?], (ordered_apart _ _ _ _ Ho Hin He2) as [->|?]; lia. }
  destruct (taken_run start end_ v (lo e1) (hi e2) func p t') as [Ho2 Hi2']; try done; try lia. set (t2 := taken _ _ _ _ _ _ _ _) in *.
  assert (forall e x, e = e1 \/ e = e2 -> inside e x -> v = Allocated \/ v = idf func /\ func = own x) as Hpiece.
  { intros e x Hee Hx. destruct Hvc as [?|Hvc]; [by left|]. destruct (decide (v = Allocated)); [by left|]. right. split; [done|].
    assert (exists y, start <= y < end_ /\ inside e y) as (y & Hy & Hyi) by (destruct Hee as [-> | ->]; [exists start|exists (end_ - 1)]; (split; [lia|done])).
    destruct (Hcov y Hy) as (e' & Hin' & Hi' & Hv' & Hf'). assert (e ∈ t) as Hin by (destruct Hee; by subst). assert (e' = e) as -> by (by apply (inside_unique 1 t e' e y)).
    destruct (He e Hin) as [_ [?|[_ Hfo]]]; [congruence|]. rewrite <- (Hfo x Hx). symmetry. by apply Hf'. }
  pose proof (proj1 (He e2 He2)). split_and!.
  - split; [done|]. intros e Hin. apply Hi2' in Hin as [Hin|[->|[[Hlt ->]|[Hlt ->]]]].
    + apply Hm in Hin as [Hin _]. by apply He.
    + simpl. split; [lia|by left].
    + simpl. split; [lia|]. destruct Hvc as [->|Hvc]; [by left|]. destruct (decide (v = Allocated)); [by left|right]. split; [done|]. unfold inside. simpl. intros x Hx.
      destruct (Hpiece e1 x) as [?|[_ ?]]; [by left|unfold inside; lia|done|done].
    + simpl. split; [lia|]. destruct Hvc as [->|Hvc]; [by left|]. destruct (decide (v = Allocated)); [by left|right]. split; [done|]. unfold inside. simpl. intros x Hx.
      destruct (Hpiece e2 x) as [?|[_ ?]]; [by right|unfold inside; lia|done|done].
  - apply Hi2'. right. by left.
  - intros e Hin Hd. apply Hi2'. left. by apply Hm.
  - intros x Hx (e & Hin & Hxe & Hve). destruct (decide (hi e <= start \/ end_ <= lo e)) as [Hd|Hd]; [exists e; split_and!; [apply Hi2'; left; by apply Hm|done|done]|].
    assert (si_val (info e) = v) as Hvv.
    { destruct (Hcov (Z.max start (lo e))) as (e' & Hin' & Hi' & Hv' & _); [unfold inside in Hxe; lia|]. rewrite <- Hv'. unfold inside in *. f_equal.
      by rewrite (inside_unique 1 t e e' (Z.max start (lo e))) by (done || (unfold inside; lia)). }
    unfold inside in Hxe. destruct (decide (x < start)).
    + assert (e = e1) as -> by (apply (inside_unique 1 t e e1 start); (done || (unfold inside; lia))). exists (lo e1, (start, mk_info v func MIN_PRIORITY)). unfold inside. simpl.
      split_and!; [apply Hi2'; right; right; left; split; [lia|done]|lia|lia|congruence].
    + assert (e = e2) as -> by (apply (inside_unique 1 t e e2 (end_ - 1)); (done || (unfold inside; lia))). exists (end_, (hi e2, mk_info v func MIN_PRIORITY)). unfold inside. simpl.
      split_and!; [apply Hi2'; right; right; right; split; [lia|done]|lia|lia|congruence].
  - intros e x Hin Hx. apply Hi2' in Hin as [Hin|[->|[[Hlt ->]|[Hlt ->]]]]; unfold inside in Hx; simpl in Hx.
    + apply Hm in Hin as [Hin _]. by exists e.
    + destruct (Hcov x ltac:(lia)) as (e' & ? & ? & _). by exists e'.
    + exists e1. unfold inside. split; [done|lia].
    + exists e2. unfold inside. split; [done|lia].
Qed.

(** ** Moved code that was overwritten *)

Lemma existsb_seqZ (P : Z -> bool) a b : existsb P (seqZ a (b - a)) = false -> forall x, a <= x < b -> P x = false.
Proof.
  intros E x Hx. destruct (P x) eqn:Ex; [|done]. rewrite <- E. symmetry. apply existsb_exists. exists x. split; [|done]. apply list_elem_of_In, elem_of_seqZ. lia.
Qed.
Lemma conflictInRelocated_clear a s start end_ : ordered a (overwrittenRelocatedCode_ s) -> start < end_ -> conflictInRelocated start end_ s = false ->
  clear (overwrittenRelocatedCode_ s) start end_.
Proof.
  intros Ho Hse Hc. unfold conflictInRelocated in Hc. apply orb_false_elim in Hc as [Hc _]. intros e He. pose proof (ordered_in _ _ _ Ho He).
  destruct (decide (hi e <= start \/ end_ <= lo e)) as [?|Hn]; [done|]. pose proof (existsb_seqZ _ _ _ Hc (Z.max start (lo e)) ltac:(lia)) as Hf.
  apply bool_decide_eq_false in Hf. apply eq_None_not_Some, (find_range_none a) in Hf; [|done]. destruct (Hf e He); lia.
Qed.
