(* ===== verification/SpringboardGen.v ===== *)
(** * Springboards lead to moved code

    A batch of requests is turned into springboards that do not overlap; after they
    are written, control that comes to the address of one goes on where its request
    says, by a jump or by a trap.  [CodeSpaceLaws] is what the address space has to
    promise for this. *)
From stdpp Require Import base gmap list.
From S2P Require Import Prelude CodeGen CodeGenOk CodeInsnOk CodeTracker CodeTrackerOk Springboard SpringboardOk.
Import codegen codeTracker springboard.

(** ** What an address space promises

    [cs_text s a n]: [n] bytes at [a] can be written; [cs_byte s x c]: the byte at [x]
    is [c]; [cs_trap s x]: where a trap at [x] leads. *)
Class CodeSpaceLaws (S : Type) {space : CodeSpace S} : Type := {
  cs_ok : S -> Prop;
  cs_text : S -> Z -> Z -> Prop;
  cs_byte : S -> Z -> Z -> Prop;
  cs_trap : S -> Z -> option Z;
  cs_write_law : forall s a d, cs_ok s -> (d <> [] -> cs_text s a (Z.of_nat (length d))) ->
    exists s', writeTextSpace a d s = Ret (true, s') /\ cs_ok s' /\ (forall x n, cs_text s x n -> cs_text s' x n) /\ (forall x, cs_trap s' x = cs_trap s x) /\
      (forall x c, cs_byte s' x c <-> if decide (a <= x < a + Z.of_nat (length d)) then d !! Z.to_nat (x - a) = Some c else cs_byte s x c);
  cs_trap_law : forall s from to g, cs_ok s -> 0 < from < 2 ^ 62 -> 0 <= to < 2 ^ 63 ->
    exists g' s', addTrap from to g s = Ret (g', s') /\ startAddr g' = from /\ gen_bytes g' = Some [0xCC] /\ cs_ok s' /\
      (forall x n, cs_text s x n -> cs_text s' x n) /\ cs_trap s' from = Some to /\ (forall x, 0 < x < 2 ^ 62 -> x <> from -> cs_trap s' x = cs_trap s x) /\
      (forall x c, cs_byte s' x c <-> cs_byte s x c)
}.

(** ** The code of one springboard *)

Lemma mapM_id_Some {A} (l : list A) : mapM id (Some <$> l) = Some l.
Proof. induction l as [|x l IH]; [done|]. rewrite fmap_cons. simpl. by rewrite IH. Qed.
Lemma holds_gen_bytes cap g bs : cap + codeGenPadding < 2 ^ 31 -> holds cap g (Some <$> bs) -> gen_bytes g = Some bs.
Proof.
  intros Hcap HH. unfold gen_bytes. rewrite (used_holds cap Hcap g _ HH). destruct HH as [(buf & -> & _ & Ht) _ _ _]. simpl. rewrite Nat2Z.id, Ht. apply mapM_id_Some.
Qed.

Lemma branch_gen_run from to : at_limit from to = false ->
  exists g, branch_gen 8 from to = Ret g /\ startAddr g = from /\ used g = Z.of_nat (length (branch_bytes 8 from to)) /\ gen_bytes g = Some (branch_bytes 8 from to).
Proof.
  intros Hl. set (cap := 0x10000). assert (cap + codeGenPadding < 2 ^ 31) as Hcap by done. set (g0 := mk_gen None 0 0 0 false from true 8).
  destruct (generateBranch_run cap Hcap (fresh g0 16) [] from to) as (g & E & HH & [Ha _]); [by apply fresh_holds|done|done|done|].
  exists g. unfold branch_gen. rewrite (bind_ret _ _ _ _ _ (invalidate_run _)), (bind_ret _ _ _ _ _ (allocate_run cap Hcap _ 16 ltac:(done))).
  rewrite (bind_ret (setAddr from) _ _ tt (fresh g0 16)), E by reflexivity. split_and!; [done|done|rewrite (used_holds cap Hcap g _ HH); by rewrite app_nil_l, length_fmap|].
  by apply (holds_gen_bytes cap).
Qed.
Lemma branch_bytes_nonempty w from to : (0 < length (branch_bytes w from to))%nat.
Proof. unfold branch_bytes. repeat case_match; simpl; lia. Qed.

(** ** Registering at the level of the whole state *)

Lemma registerBranch_orig own idf i start end_ dest func p :
  ranges_ok own idf (validRanges_ i) -> (forall f, 1 <= idf f) -> 0 < start -> start < end_ -> own start = func ->
  replaceable (validRanges_ i) start end_ func p \/ (exists f, covered (validRanges_ i) start end_ f) ->
  exists i', registerBranch start end_ dest false func p i = Ret (tt, i') /\ overwrittenRelocatedCode_ i' = overwrittenRelocatedCode_ i /\
    ranges_ok own idf (validRanges_ i') /\ (start, (end_, mk_info Allocated func p)) ∈ validRanges_ i' /\
    (forall e, e ∈ validRanges_ i -> hi e <= start \/ end_ <= lo e -> e ∈ validRanges_ i') /\
    (forall x, x < start \/ end_ <= x -> unused (validRanges_ i) x -> unused (validRanges_ i') x) /\
    (forall e x, e ∈ validRanges_ i' -> inside e x -> exists e', e' ∈ validRanges_ i /\ inside e' x).
Proof.
  intros Hok Hidf Hs Hse Hown Hc. destruct (branch_run own idf _ start end_ func p Hok Hidf Hs Hse Hown Hc) as (id & LB & UB & t' & E & Hr).
  unfold registerBranch. unfold get at 1. rewrite (bind_ret _ _ _ i i eq_refl). set (i1 := mk_inst (nextFuncID_ i) (if u64 (end_ - start) =? 1 then {[start]} ∪ relocTraps_ i else relocTraps_ i) (validRanges_ i) (paddingRanges_ i) (overwrittenRelocatedCode_ i)).
  rewrite (bind_ret _ _ _ tt i1) by (destruct (_ =? 1); [done|by destruct i]).
  set (i2 := mk_inst (nextFuncID_ i) (if (u64 (end_ - start) =? 1) || uses_padding start end_ i then list_to_set (snd <$> (snd <$> dest)) ∪ relocTraps_ i1 else relocTraps_ i1) (validRanges_ i) (paddingRanges_ i) (overwrittenRelocatedCode_ i)).
  rewrite (bind_ret _ _ _ tt i2) by (destruct (_ || _); done). cbn iota. rewrite bind_gets. change (validRanges_ i2) with (validRanges_ i).
  unfold of_res. unfold mbind at 1, M_bind at 1. rewrite E. eexists. split; [reflexivity|]. done.
Qed.
Lemma registerBranch_reloc i start end_ dest func p :
  exists i', registerBranch start end_ dest true func p i = Ret (tt, i') /\ validRanges_ i' = validRanges_ i /\
    overwrittenRelocatedCode_ i' = insert start end_ (mk_info 1 func p) (overwrittenRelocatedCode_ i).
Proof.
  unfold registerBranch. unfold get at 1. rewrite (bind_ret _ _ _ i i eq_refl). destruct (u64 (end_ - start) =? 1); simpl; [by eexists|].
  destruct (uses_padding start end_ i); simpl; by eexists.
Qed.

(** ** Maps of requests *)

Lemma map_get_set {A} j k (v : A) l : map_get j (map_set k v l) = if j =? k then Some v else map_get j l.
Proof.
  induction l as [|[k' v'] l IH]; simpl; [done|]. destruct (k <? k') eqn:E1; simpl; [done|]. destruct (k =? k') eqn:E2; simpl.
  - zbool. subst k'. by destruct (j =? k).
  - destruct (j =? k') eqn:E3; [|done]. zbool. subst k'. by rewrite (proj2 (Z.eqb_neq j k)) by done.
Qed.
Lemma at_priority_set p q a r m : at_priority p (set_req q a r m) = if decide (p = q) then map_set a r (at_priority q m) else at_priority p m.
Proof.
  unfold set_req. unfold at_priority at 1. rewrite map_get_set. destruct (prio p =? prio q) eqn:E; zbool.
  - by rewrite decide_True by (by apply prio_inj).
  - rewrite decide_False by congruence. done.
Qed.

(** ** A batch *)

(** A springboard: where it is, where it leads, its code, whether it is in moved code,
    and its priority. *)
Record placed : Type := mk_placed { pl_from : Z; pl_to : Z; pl_code : list Z; pl_reloc : bool; pl_prio : Priority }.
Definition pl_end (p : placed) : Z := pl_from p + Z.of_nat (length (pl_code p)).
Definition apart (p q : placed) : Prop := pl_end p <= pl_from q \/ pl_end q <= pl_from p.
Fixpoint all_apart (l : list placed) : Prop := match l with [] => True | p :: l' => (forall q, q ∈ l' -> apart p q) /\ all_apart l' end.
Lemma all_apart_snoc l p : all_apart l -> (forall q, q ∈ l -> apart q p) -> all_apart (l ++ [p]).
Proof.
  induction l as [|q l IH]; simpl; [intros _ _; split; [by intros ? ?%elem_of_nil|done]|]. intros [H1 H2] Hp. split.
  - intros x [Hx|Hx%list_elem_of_singleton]%elem_of_app; [by apply H1|]. subst x. apply Hp. by left.
  - apply IH; [done|]. intros x Hx. apply Hp. by right.
Qed.

Section Batch.
Context {S : Type} {space : CodeSpace S} {laws : CodeSpaceLaws S}.
(** The function each address belongs to, the numbers of the functions, the original
    code that may be overwritten, what springboards in moved code leave alone, and
    the memory at the start. *)
Context (own : Z -> option func_instance) (idf : option func_instance -> Z) (orig keep : Z -> Prop) (s0 : S).
Context (Hidf : forall f, 1 <= idf f) (Hkeep : forall x, orig x -> keep x).
Context (Htext : forall a n, 0 < n -> (forall x, a <= x < a + n -> orig x) -> cs_text s0 a n).

Abbreviation inst b := (installedSpringboards_ (bd_as b)).
Abbreviation mem b := (as_space (bd_as b)).
Abbreviation valid b := (validRanges_ (inst b)).

(** It goes where it should, given the traps of the memory. *)
Definition lands (s : S) (p : placed) : Prop :=
  jump_of (pl_from p) (pl_code p) = Some (pl_to p) \/ pl_code p = [0xCC] /\ cs_trap s (pl_from p) = Some (pl_to p).
(** Its bytes are known to be taken. *)
Definition registered (i : InstalledSpringboards) (p : placed) : Prop :=
  if pl_reloc p then (exists st, (pl_from p, (pl_end p, st)) ∈ overwrittenRelocatedCode_ i) /\ forall x, pl_from p <= x < pl_end p -> ~ keep x
  else exists f, (pl_from p, (pl_end p, mk_info Allocated f (pl_prio p))) ∈ validRanges_ i.

Record placed_ok (b : build S) (p : placed) : Prop := {
  po_lands : lands (mem b) p;
  po_registered : registered (inst b) p;
  po_size : (0 < length (pl_code p) <= 17)%nat;
  po_from : 0 < pl_from p < 2 ^ 62;
  po_text : cs_text s0 (pl_from p) (Z.of_nat (length (pl_code p)))
}.
Record batch (b : build S) (ps : list placed) : Prop := {
  ba_valid : ranges_ok own idf (valid b);
  ba_orig : forall e x, e ∈ valid b -> inside e x -> orig x;
  ba_over : ordered 1 (overwrittenRelocatedCode_ (inst b));
  ba_mem : cs_ok (mem b);
  ba_text : forall a n, cs_text s0 a n -> cs_text (mem b) a n;
  ba_width : as_width (bd_as b) = 8;
  ba_gens : Forall2 (fun g p => startAddr g = pl_from p /\ gen_bytes g = Some (pl_code p)) (bd_springboards b) ps;
  ba_placed : Forall (placed_ok b) ps;
  ba_apart : all_apart ps;
  ba_bytes : forall x c, cs_byte (mem b) x c <-> cs_byte s0 x c
}.

(** A new springboard keeps away from the ones that are registered. *)
Lemma fresh_apart b ps a n reloc func p :
  batch b ps -> 0 < n -> (forall q, q ∈ ps -> pl_reloc q = false -> prio p <= prio (pl_prio q) /\ (pl_prio q = p -> pl_from q <> a)) ->
  (if reloc : bool then clear (overwrittenRelocatedCode_ (inst b)) a (a + n) /\ (forall x, a <= x < a + n -> ~ keep x)
   else replaceable (valid b) a (a + n) func p \/ exists f, covered (valid b) a (a + n) f) ->
  forall q, q ∈ ps -> pl_end q <= a \/ a + n <= pl_from q.
Proof.
  intros HB Hn Hpr Hc q Hq. pose proof (proj1 (Forall_forall _ _) (ba_placed _ _ HB) q Hq) as [_ Hr Hl _ _]. unfold registered in Hr.
  assert (pl_from q < pl_end q) as Hqe by (unfold pl_end; lia). destruct (ba_valid _ _ HB) as [Ho _].
  destruct (decide (pl_end q <= a \/ a + n <= pl_from q)) as [?|Hov]; [done|exfalso]. destruct (pl_reloc q) eqn:Eq, reloc.
  - destruct Hr as [(st & Hin) _], Hc as [Hc _]. specialize (Hc _ Hin). simpl in Hc. lia.
  - destruct Hr as [_ Hno]. apply (Hno (Z.max a (pl_from q))); [lia|]. apply Hkeep.
    destruct Hc as [(u & st & Hin & _ & Hu & _)|(f & Hcov)].
    + apply (ba_orig _ _ HB _ _ Hin). unfold inside. simpl. lia.
    + destruct (Hcov (Z.max a (pl_from q)) ltac:(lia)) as (e & Hin & Hi & _). by apply (ba_orig _ _ HB e).
  - destruct Hr as (f & Hin), Hc as [_ Hno]. apply (Hno (Z.max a (pl_from q))); [lia|]. apply Hkeep. apply (ba_orig _ _ HB _ _ Hin). unfold inside. simpl. lia.
  - destruct Hr as (f & Hin). destruct (Hpr q Hq Eq) as [H1 H2]. destruct Hc as [(u & st & Hin' & Hst & Hu & Hp & Hf)|(f' & Hcov)].
    + destruct (ordered_apart _ _ _ _ Ho Hin Hin') as [[= E1 E2 E3]|Hd]; [|simpl in Hd; lia]. subst st. simpl in Hp. apply H2; [apply prio_inj; lia|done].
    + destruct (Hcov (Z.max a (pl_from q)) ltac:(lia)) as (e & Hin' & Hi & Hv & _). apply Hv.
      by rewrite (inside_unique _ _ _ (pl_from q, (pl_end q, mk_info Allocated f (pl_prio q))) _ Ho Hin' Hin Hi) by (unfold inside; simpl; lia).
Qed.

(** Where a springboard may be put. *)
Definition placeable_at (b : build S) (a n : Z) (reloc : bool) (func : option func_instance) (p : Priority) : Prop :=
  if reloc then clear (overwrittenRelocatedCode_ (inst b)) a (a + n) /\ (forall x, a <= x < a + n -> ~ keep x) /\ cs_text s0 a n
  else own a = func /\ (replaceable (valid b) a (a + n) func p \/ exists f, covered (valid b) a (a + n) f).
(** Nothing of the batch is at the address with the same priority, or has a lower one. *)
Definition new_at (ps : list placed) (a : Z) (p : Priority) : Prop :=
  forall q, q ∈ ps -> pl_reloc q = false -> prio p <= prio (pl_prio q) /\ (pl_prio q = p -> pl_from q <> a).
Definition same_rest (b b' : build S) : Prop := useTraps_ (bd_as b') = useTraps_ (bd_as b) /\ relocatedCode_ (bd_as b') = relocatedCode_ (bd_as b).

Lemma put_run b ps a c g to reloc func p dests (n := Z.of_nat (length c)) (pl := mk_placed a to c reloc p) :
  batch b ps -> new_at ps a p -> placeable_at b a n reloc func p -> 0 < a < 2 ^ 62 -> (0 < length c <= 17)%nat ->
  startAddr g = a -> gen_bytes g = Some c -> lands (mem b) pl ->
  exists b', (with_installed (registerBranch a (u64 (a + n)) dests reloc func p) ;; push_springboard g ;; mret Succeeded) b = Ret (Succeeded, b') /\
    batch b' (ps ++ [pl]) /\ bd_input b' = bd_input b /\ same_rest b b' /\
    (forall x, reloc = true \/ x < a \/ a + n <= x -> unused (valid b) x -> unused (valid b') x).
Proof.
  intros HB Hnew Hpl Ha Hc Hg Hgb Hland. pose proof HB as [B1 B2 B3 B4 B5 B6 B7 B8 B9 B10].
  assert (forall q, q ∈ ps -> pl_end q <= a \/ a + n <= pl_from q) as Hap.
  { apply (fresh_apart b ps a n reloc func p HB ltac:(lia) Hnew). destruct reloc; [by destruct Hpl as (? & ? & _)|by destruct Hpl]. }
  rewrite u64_id by lia.
  assert (exists i', registerBranch a (a + n) dests reloc func p (inst b) = Ret (tt, i') /\ ranges_ok own idf (validRanges_ i') /\ ordered 1 (overwrittenRelocatedCode_ i') /\
    (forall e x, e ∈ validRanges_ i' -> inside e x -> orig x) /\ Forall (registered i') ps /\ registered i' pl /\ cs_text s0 a n /\
    (forall x, reloc = true \/ x < a \/ a + n <= x -> unused (valid b) x -> unused (validRanges_ i') x)) as (i' & E & R1 & R2 & R3 & R4 & R5 & R6 & R7).
  { rewrite Forall_forall in B8. destruct reloc.
    - destruct Hpl as (P1 & P2 & P3). destruct (registerBranch_reloc (inst b) a (a + n) dests func p) as (i' & E & Ev & Eo). exists i'. rewrite Ev, Eo.
      split_and!; try done; [apply insert_ordered; (done || lia)|..].
      + apply Forall_forall. intros q Hq. pose proof (po_registered _ _ (B8 q Hq)) as Hr. unfold registered in *. rewrite Ev, Eo. destruct (pl_reloc q); [|done].
        destruct Hr as [(st & Hin) Hno]. split; [|done]. exists st. apply (insert_in 1); [done|lia|done|by right].
      + unfold registered. simpl. split; [|done]. eexists. rewrite Eo. apply (insert_in 1); [done|lia|done|by left].
    - destruct Hpl as [P1 P2]. destruct (registerBranch_orig own idf (inst b) a (a + n) dests func p B1 Hidf ltac:(lia) ltac:(lia) P1 P2) as (i' & E & Eo & K1 & K2 & K3 & K4 & K5).
      assert (forall e x, e ∈ validRanges_ i' -> inside e x -> orig x) as Hor by (intros e x He Hx; destruct (K5 e x He Hx) as (e' & He' & Hx'); by apply (B2 e')).
      exists i'. rewrite Eo. split_and!; try done.
      + apply Forall_forall. intros q Hq. pose proof (po_registered _ _ (B8 q Hq)) as Hr. unfold registered in *. rewrite Eo. destruct (pl_reloc q); [done|].
        destruct Hr as (f & Hin). exists f. apply K3; [done|]. simpl. by apply Hap.
      + unfold registered. simpl. by exists func.
      + apply Htext; [lia|]. intros x Hx. apply (Hor _ _ K2). unfold inside. simpl. lia.
      + intros x [?|Hx]; [done|]. by apply K4. }
  set (a' := mk_as i' (relocatedCode_ (bd_as b)) (useTraps_ (bd_as b)) (as_width (bd_as b)) (as_space (bd_as b))).
  rewrite (bind_ret _ _ _ tt (mk_build a' (bd_input b) (bd_springboards b) (multis_ b))) by (unfold with_installed, lift; simpl; by rewrite E).
  eexists. split; [reflexivity|]. split_and!; try done. split; try done.
  - simpl. by apply Forall2_app; [|constructor].
  - apply Forall_app. split; [|constructor; [|constructor]; split; try done; simpl; lia].
    rewrite Forall_forall in B8, R4. apply Forall_forall. intros q Hq. destruct (B8 q Hq) as [Q1 Q2 Q3 Q4 Q5]. split; try done. by apply R4.
  - apply all_apart_snoc; [done|]. intros q Hq. by apply Hap.
Qed.

(** ** Requests *)

Definition good_to (from to : Z) : Prop := 0 < from < 2 ^ 62 /\ 0 <= to < 2 ^ 63 /\ at_limit from to = false.
(** An address of moved code that can be redirected. *)
Definition copy_ok (a to : Z) : Prop := good_to a to /\ (forall x, a <= x < a + 17 -> ~ keep x) /\ forall n, 0 < n <= 17 -> cs_text s0 a n.
Definition leads (r : SpringboardReq) (to : Z) : Prop := exists k f rest, rq_destinations r = (k, (f, to)) :: rest.

Record reloc_req_ok (p : Priority) (kr : Z * SpringboardReq) : Prop := {
  rr_key : kr.1 = rq_from kr.2;
  rr_prio : rq_priority kr.2 = p;
  rr_reloc : fromRelocatedCode kr.2 = true;
  rr_copies : includeRelocatedCopies kr.2 = false;
  rr_dest : exists to, leads kr.2 to /\ copy_ok (rq_from kr.2) to
}.
(** A request from original code; the trackers know no copy of it, or copies that can be
    redirected. *)
Record orig_req_ok (ts : list CodeTracker) (p : Priority) (kr : Z * SpringboardReq) : Prop := {
  oq_key : kr.1 = rq_from kr.2;
  oq_prio : rq_priority kr.2 = p;
  oq_orig : fromRelocatedCode kr.2 = false;
  oq_own : own (rq_from kr.2) = rq_func kr.2;
  oq_dest : exists to, leads kr.2 to /\ good_to (rq_from kr.2) to;
  oq_copies : exists bbl, rq_block kr.2 = Some bbl /\ forall t d c, t ∈ ts -> d ∈ rq_destinations kr.2 ->
    exists l, tracker_addrs (rq_from kr.2) bbl d.2.1 c t = Ret l /\ forall a d', a ∈ l -> d' ∈ rq_destinations kr.2 -> a = d'.2.2 \/ copy_ok a d'.2.2
}.

(** More requests for moved code. *)
Definition grown (m m' : SpringboardMap) : Prop :=
  (forall p, p = Required \/ p = Suggested -> at_priority p m' = at_priority p m) /\
  (forall p, p = RelocRequired \/ p = RelocSuggested -> Forall (reloc_req_ok p) (at_priority p m) -> Forall (reloc_req_ok p) (at_priority p m')).
Lemma requests_refl m : grown m m.
Proof. by split. Qed.
Lemma requests_trans m1 m2 m3 : grown m1 m2 -> grown m2 m3 -> grown m1 m3.
Proof. intros [A1 A2] [B1 B2]. split; [intros p Hp; by rewrite B1, A1|]. intros p Hp H1. by apply B2, A2. Qed.
Definition with_input (b : build S) (m : SpringboardMap) : build S := mk_build (bd_as b) m (bd_springboards b) (multis_ b).

Lemma reloc_request_run req trap func addr a b :
  rq_priority req = Required \/ rq_priority req = Suggested -> a = addr \/ copy_ok a addr ->
  exists m', reloc_request req trap func addr a b = Ret (tt, with_input b m') /\ grown (bd_input b) m'.
Proof.
  intros Hp Ha. unfold reloc_request. destruct (a =? addr) eqn:E; zbool; [exists (bd_input b); split; [by destruct b|apply requests_refl]|]. destruct Ha as [?|Ha]; [done|].
  set (q := if bool_decide (rq_priority req = Required) then RelocRequired else RelocSuggested).
  assert (q = RelocRequired \/ q = RelocSuggested) as Hq by (unfold q; case_bool_decide; auto).
  rewrite (bind_ret _ _ _ q b) by (unfold q; destruct Hp as [-> | ->]; done). rewrite !bind_gets. eexists. split; [reflexivity|]. unfold addRaw. split.
  - intros p Hp'. rewrite at_priority_set, decide_False; [done|]. destruct Hq as [-> | ->], Hp' as [-> | ->]; done.
  - intros p Hp' Hf. rewrite at_priority_set. case_decide as Heq; [subst p|done]. apply Forall_forall. intros kr Hin. apply map_set_in in Hin as [->|Hin].
    + split; try done. exists addr. split; [by do 3 eexists|done].
    + by apply (proj1 (Forall_forall _ _) Hf).
Qed.
Lemma reloc_requests_run req trap func addr l : forall b,
  rq_priority req = Required \/ rq_priority req = Suggested -> (forall a, a ∈ l -> a = addr \/ copy_ok a addr) ->
  exists m', forM l (reloc_request req trap func addr) b = Ret (tt, with_input b m') /\ grown (bd_input b) m'.
Proof.
  induction l as [|a l IH]; intros b Hp Hl; [exists (bd_input b); split; [by destruct b|apply requests_refl]|]. cbn [forM].
  destruct (reloc_request_run req trap func addr a b Hp) as (m1 & E1 & G1); [apply Hl; by left|]. rewrite (bind_ret _ _ _ _ _ E1).
  destruct (IH (with_input b m1) Hp) as (m2 & E2 & G2); [intros x Hx; apply Hl; by right|]. exists m2. split; [done|]. by eapply requests_trans.
Qed.

Lemma getRelocAddrs_run (Q : Z -> Prop) orig_ bbl func c ts : forall relocs,
  (forall t, t ∈ ts -> exists l, tracker_addrs orig_ bbl func c t = Ret l /\ forall a, a ∈ l -> Q a) -> (forall a, a ∈ relocs -> Q a) ->
  exists l, getRelocAddrs orig_ bbl func relocs c ts = Ret l /\ forall a, a ∈ l -> Q a.
Proof.
  induction ts as [|t ts IH]; intros relocs Ht Hr; [by exists relocs|]. cbn [getRelocAddrs]. destruct (Ht t ltac:(by left)) as (l & -> & Hl). apply IH.
  - intros t' Ht'. apply Ht. by right.
  - intros a [?|?]%elem_of_app; auto.
Qed.

Lemma createReloc_run r p trap b : (p = Required \/ p = Suggested) -> orig_req_ok (relocatedCode_ (bd_as b)) p (rq_from r, r) ->
  exists m', createRelocSpringboards r trap b = Ret (tt, with_input b m') /\ grown (bd_input b) m'.
Proof.
  intros Hp [_ Q2 Q3 _ _ (bbl & Q6 & Q7)]. simpl in *. unfold createRelocSpringboards. rewrite Q3, Q6. cbn [negb]. rewrite (bind_ret _ _ _ tt b eq_refl).
  set (Q := fun a => forall d', d' ∈ rq_destinations r -> a = d'.2.2 \/ copy_ok a d'.2.2).
  enough (forall l relocs b', relocatedCode_ (bd_as b') = relocatedCode_ (bd_as b) -> l ⊆ rq_destinations r -> (forall a, a ∈ relocs -> Q a) ->
    exists m', reloc_dests r trap bbl relocs l b' = Ret (tt, with_input b' m') /\ grown (bd_input b') m') as HE by (apply (HE _ [] b); [done|done|by intros a ?%elem_of_nil]).
  induction l as [|[k [f to]] l IH]; intros relocs b' Et Hl Hq; [exists (bd_input b'); split; [by destruct b'|apply requests_refl]|]. cbn [reloc_dests].
  rewrite bind_gets, Et. assert ((k, (f, to)) ∈ rq_destinations r) as Hd by (apply Hl; by left).
  assert (forall c t, t ∈ relocatedCode_ (bd_as b) -> exists x, tracker_addrs (rq_from r) bbl f c t = Ret x /\ forall a, a ∈ x -> Q a) as Ht.
  { intros c t Hin. destruct (Q7 t _ c Hin Hd) as (x & E & Hx). exists x. split; [done|]. intros a Ha d' Hd'. by apply Hx. }
  destruct (getRelocAddrs_run Q (rq_from r) bbl f true _ relocs (Ht true) Hq) as (l1 & E1 & H1).
  destruct (getRelocAddrs_run Q (rq_from r) bbl f false _ l1 (Ht false) H1) as (l2 & E2 & H2).
  rewrite (bind_ret _ _ _ l1 b') by (unfold of_res; by rewrite E1). rewrite (bind_ret _ _ _ l2 b') by (unfold of_res; by rewrite E2).
  destruct (reloc_requests_run r trap f to (reverse l2) b') as (m1 & E3 & G1).
  { by rewrite Q2. } { intros a Ha. apply (H2 a (proj1 (elem_of_reverse _ _) Ha) (k, (f, to)) Hd). }
  rewrite (bind_ret _ _ _ _ _ E3). destruct (IH l2 (with_input b' m1)) as (m2 & E4 & G2); [done| |done|].
  { intros d Hin. apply Hl. by right. }
  exists m2. split; [done|]. by eapply requests_trans.
Qed.

(** ** One request *)

Definition req_ok (ts : list CodeTracker) (p : Priority) (r : SpringboardReq) : Prop :=
  (p = Required \/ p = Suggested) /\ orig_req_ok ts p (rq_from r, r) \/ reloc_req_ok p (rq_from r, r).
Lemma req_ok_prio ts p r : req_ok ts p r -> rq_priority r = p.
Proof. intros [[_ []]|[]]; done. Qed.
Lemma req_ok_leads ts p r : req_ok ts p r -> exists to, leads r to /\ good_to (rq_from r) to.
Proof. intros [[_ []]|[]]; simpl in *; [done|]. naive_solver (unfold copy_ok in *; naive_solver). Qed.

Lemma batch_input b m ps : batch b ps -> batch (with_input b m) ps.
Proof. intros [B1 B2 B3 B4 B5 B6 B7 B8 B9 B10]. split; try done. eapply Forall_impl; [exact B8|]. intros q [Q1 Q2 Q3 Q4 Q5]. by split. Qed.

Lemma sb_conflict_run ts p r n b ps : batch b ps -> req_ok ts p r -> 0 < n <= 17 ->
  exists c, sb_conflict (rq_from r) (u64 (rq_from r + n)) r b = Ret (c, b) /\
    (c = false -> placeable_at b (rq_from r) n (fromRelocatedCode r) (rq_func r) p) /\
    (fromRelocatedCode r = false -> n = 1 -> unused (valid b) (rq_from r) -> c = false).
Proof.
  intros HB Hr Hn. pose proof HB as [B1 B2 B3 _ _ _ _ _ _ _]. pose proof (req_ok_prio _ _ _ Hr) as Ep. destruct (req_ok_leads _ _ _ Hr) as (to & _ & (Hf & _)).
  unfold sb_conflict. rewrite bind_gets. unfold conflict, of_res. rewrite u64_id by lia. unfold placeable_at. destruct (fromRelocatedCode r) eqn:Er.
  - eexists. split; [done|]. split; [|done]. intros Hc. destruct Hr as [[_ [_ _ ? _ _ _]]|[_ _ _ _ (to' & _ & _ & Hno & Htx)]]; [simpl in *; congruence|]. simpl in *.
    split; [|split; [intros x Hx; apply Hno; lia|by apply Htx]]. apply (conflictInRelocated_clear 1); (done || lia).
  - destruct (conflict_loop_run (Datatypes.S (Z.to_nat (rq_from r + n - rq_from r))) 1 (rq_from r) (rq_from r + n) (rq_func r) (rq_priority r) (valid b) (rq_from r) 0 None)
      as (c & E & Hc); [apply B1|lia|lia|lia|done|]. rewrite E. exists c. split; [done|]. split.
    + intros Hcf. split; [destruct Hr as [[_ []]|[]]; simpl in *; congruence|]. rewrite <- Ep. destruct (Hc Hcf) as [[_ ?]|(f & _ & ?)]; [by left|right; by exists f].
    + intros _ -> (e & He & Hi & Hv). replace (rq_from r + 1 - rq_from r) with 1 in E by lia.
      rewrite (conflict_byte 1 _ _ _ _ e) in E; [congruence|apply B1|done..].
Qed.

Lemma install_run ts p r to g c trap b ps (n := Z.of_nat (length c)) :
  batch b ps -> req_ok ts p r -> relocatedCode_ (bd_as b) = ts -> leads r to -> new_at ps (rq_from r) p ->
  placeable_at b (rq_from r) n (fromRelocatedCode r) (rq_func r) p -> (0 < length c <= 17)%nat ->
  startAddr g = rq_from r -> gen_bytes g = Some c -> lands (mem b) (mk_placed (rq_from r) to c (fromRelocatedCode r) p) ->
  exists b', install r trap n g b = Ret (Succeeded, b') /\ batch b' (ps ++ [mk_placed (rq_from r) to c (fromRelocatedCode r) p]) /\
    grown (bd_input b) (bd_input b') /\ same_rest b b' /\
    (forall x, fromRelocatedCode r = true \/ x < rq_from r -> unused (valid b) x -> unused (valid b') x).
Proof.
  intros HB Hr Ets Hto Hnew Hpl Hc Hg Hgb Hl. destruct (req_ok_leads _ _ _ Hr) as (to' & Hto' & (Hf & _)). unfold install.
  assert (exists m', (if includeRelocatedCopies r then createRelocSpringboards r trap else mret tt) b = Ret (tt, with_input b m') /\ grown (bd_input b) m') as (m' & E & G).
  { destruct Hr as [[Hp Hr]|[_ _ _ Hr _]].
    - destruct (includeRelocatedCopies r); [apply (createReloc_run r p); [done|by rewrite Ets]|]. exists (bd_input b). split; [by destruct b|apply requests_refl].
    - simpl in Hr. rewrite Hr. exists (bd_input b). split; [by destruct b|apply requests_refl]. }
  rewrite (bind_ret _ _ _ _ _ E). rewrite (req_ok_prio _ _ _ Hr).
  destruct (put_run (with_input b m') ps (rq_from r) c g to (fromRelocatedCode r) (rq_func r) p (rq_destinations r)) as (b' & E' & HB' & Ei & Hs & Hu);
    try done; [by apply batch_input|]. exists b'. split; [exact E'|]. split_and!; [done|by rewrite Ei|done|]. intros x Hx. apply Hu. tauto.
Qed.

(** A trap for an address where there is no springboard of the batch. *)
Lemma batch_trap b ps from to g : batch b ps -> (forall q, q ∈ ps -> pl_from q <> from) -> 0 < from < 2 ^ 62 -> 0 <= to < 2 ^ 63 ->
  exists g' b', lift (T := AddressSpace S) (lift (addTrap from to g)) b = Ret (g', b') /\ batch b' ps /\ startAddr g' = from /\ gen_bytes g' = Some [0xCC] /\
    cs_trap (mem b') from = Some to /\ bd_input b' = bd_input b /\ same_rest b b' /\ inst b' = inst b.
Proof.
  intros [B1 B2 B3 B4 B5 B6 B7 B8 B9 B10] Hne Hf Ht. destruct (cs_trap_law (mem b) from to g B4 Hf Ht) as (g' & s' & E & Es & Eg & Hok & Htx & Htr & Hoth & Hby).
  exists g'. eexists. split; [unfold lift; simpl; rewrite E; reflexivity|]. split_and!; try done. split; simpl; try done; [intros a n Ha; apply Htx; by apply B5| |intros x c; by rewrite Hby].
  apply Forall_forall. intros q Hq. destruct (proj1 (Forall_forall _ _) B8 q Hq) as [Q1 Q2 Q3 Q4 Q5]. split; try done. simpl. destruct Q1 as [Q1|[Q1 Q1']]; [by left|right].
  split; [done|]. rewrite Hoth by (done || by apply Hne). done.
Qed.

Lemma generateSpringboard_run ts p r to b ps :
  batch b ps -> req_ok ts p r -> relocatedCode_ (bd_as b) = ts -> leads r to -> new_at ps (rq_from r) p ->
  exists res b', generateSpringboard r b = Ret (res, b') /\
    (res = Failed /\ b' = b /\ (fromRelocatedCode r = false -> useTraps_ (bd_as b) = true -> ~ unused (valid b) (rq_from r)) \/
     res = Succeeded /\ exists c, batch b' (ps ++ [mk_placed (rq_from r) to c (fromRelocatedCode r) p]) /\ grown (bd_input b) (bd_input b') /\ same_rest b b' /\
       (forall x, fromRelocatedCode r = true \/ x < rq_from r -> unused (valid b) x -> unused (valid b') x)).
Proof.
  intros HB Hr Ets (k & f & rest & Ed) Hnew. destruct (req_ok_leads _ _ _ Hr) as (to' & (k' & f' & rest' & Ed') & Hf & Ht & Hlim).
  assert (to' = to) as -> by congruence. unfold generateSpringboard. rewrite Ed, bind_gets, (ba_width _ _ HB).
  destruct (branch_gen_run (rq_from r) to Hlim) as (g & Eg & Hg1 & Hg2 & Hg3). rewrite (bind_ret _ _ _ g b) by (unfold of_res; by rewrite Eg).
  set (c := branch_bytes 8 (rq_from r) to) in *. pose proof (branch_bytes_length 8 (rq_from r) to) as Hl1. pose proof (branch_bytes_nonempty 8 (rq_from r) to) as Hl0. fold c in Hl0, Hl1.
  rewrite Hg2. destruct (sb_conflict_run ts p r (Z.of_nat (length c)) b ps HB Hr ltac:(lia)) as (c1 & E1 & Hc1 & _).
  assert (leads r to) as Hld by (by do 3 eexists).
  destruct (useTrap r || c1) eqn:Ec.
  - rewrite (bind_ret _ _ _ true b) by (destruct (useTrap r); [done|]; simpl in Ec; by subst c1). unfold try_trap.
    destruct (sb_conflict_run ts p r 1 b ps HB Hr ltac:(lia)) as (c2 & E2 & Hc2 & Hu2). unfold mbind at 1, M_bind at 1. unfold mbind at 1, M_bind at 1. rewrite E2.
    destruct c2.
    { exists Failed, b. split; [done|]. left. split_and!; try done. intros Ho _ Hun. specialize (Hu2 Ho eq_refl Hun). done. }
    rewrite bind_gets. destruct (useTraps_ (bd_as b)) eqn:Eu; [|by exists Failed, b; split; [|left]]. cbn [negb].
    pose proof (fresh_apart b ps (rq_from r) 1 (fromRelocatedCode r) (rq_func r) p HB ltac:(lia) Hnew) as Hap.
    destruct (batch_trap b ps (rq_from r) to g HB) as (g' & b1 & E3 & HB1 & Hs1 & Hb1 & Ht1 & Hi1 & Hr1 & Hin1); [|done|done|].
    { intros q Hq Heq. assert (pl_end q <= rq_from r \/ rq_from r + 1 <= pl_from q) as Hx.
      { apply Hap; [|done]. specialize (Hc2 eq_refl). unfold placeable_at in Hc2. destruct (fromRelocatedCode r); [by destruct Hc2 as (? & ? & _)|by destruct Hc2]. }
      pose proof (po_size _ _ (proj1 (Forall_forall _ _) (ba_placed _ _ HB) q Hq)). unfold pl_end in Hx. lia. }
    rewrite (bind_ret _ _ _ _ _ E3). cbn iota. unfold mret, M_ret.
    destruct (install_run ts p r to g' [0xCC] true b1 ps) as (b' & E4 & HB' & G' & Hs' & Hu'); try done; [destruct Hr1 as [_ ->]; done| |simpl; lia|by right|].
    { unfold placeable_at in *. rewrite Hin1. by apply Hc2. }
    exists Succeeded, b'. split; [exact E4|]. right. split; [done|]. exists [0xCC]. split_and!; [done|by rewrite <- Hi1| |].
    + destruct Hr1, Hs'. split; congruence.
    + intros x Hx. rewrite <- Hin1. by apply Hu'.
  - apply orb_false_elim in Ec as [Eu ->]. rewrite Eu. rewrite (bind_ret _ _ _ _ _ E1).
    destruct (install_run ts p r to g c false b ps) as (b' & E4 & HB' & G' & Hs' & Hu'); try done; [by apply Hc1|left; simpl; apply branch_bytes_jump; [lia|done]|].
    exists Succeeded, b'. split; [exact E4|]. right. split; [done|]. by exists c.
Qed.

(** ** All requests *)

(** From the highest address down. *)
Fixpoint descending (l : list (Z * SpringboardReq)) : Prop := match l with [] => True | kr :: l' => (forall kr', kr' ∈ l' -> kr'.1 < kr.1) /\ descending l' end.
Definition done_for (ps : list placed) (kr : Z * SpringboardReq) : Prop :=
  exists q to, q ∈ ps /\ leads kr.2 to /\ pl_from q = rq_from kr.2 /\ pl_to q = to.

(** It is the springboard of a request. *)
Definition asked (l : list (Z * SpringboardReq)) (q : placed) : Prop :=
  exists kr, kr ∈ l /\ leads kr.2 (pl_to q) /\ pl_from q = rq_from kr.2 /\ pl_reloc q = fromRelocatedCode kr.2.

(** The springboards before those of priority [p]: nothing has a lower priority. *)
Definition above (p : Priority) (ps : list placed) : Prop := forall q, q ∈ ps -> pl_reloc q = false -> prio p <= prio (pl_prio q).

Lemma generate_reqs_run ts p l : forall b ps,
  batch b ps -> (forall kr, kr ∈ l -> kr.1 = rq_from kr.2 /\ req_ok ts p kr.2) -> relocatedCode_ (bd_as b) = ts ->
  descending l \/ p = RelocRequired \/ p = RelocSuggested -> (forall kr, kr ∈ l -> new_at ps (rq_from kr.2) p) -> above p ps ->
  exists ok b' ps', generate_reqs p l b = Ret (ok, b') /\ batch b' (ps ++ ps') /\ above p (ps ++ ps') /\
    (p <> Required -> ok = true) /\ (ok = true -> p = Required -> forall kr, kr ∈ l -> done_for ps' kr) /\
    (useTraps_ (bd_as b) = true -> (p = Required -> forall kr, kr ∈ l -> fromRelocatedCode kr.2 = false /\ unused (valid b) (rq_from kr.2)) -> ok = true) /\
    grown (bd_input b) (bd_input b') /\ same_rest b b' /\ (forall q, q ∈ ps' -> asked l q).
Proof.
  induction l as [|kr l IH]; intros b ps HB Hl Ets Hd Hnew Hab.
  { exists true, b, []. rewrite app_nil_r. split_and!; try done; [by intros _ _ kr ?%elem_of_nil|by intros q ?%elem_of_nil]. }
  destruct (Hl kr ltac:(by left)) as [Hk Hr]. destruct (req_ok_leads _ _ _ Hr) as (to & Hto & _). destruct kr as [k r]. simpl in Hk, Hr, Hto. subst k. cbn [generate_reqs].
  destruct (generateSpringboard_run ts p r to b ps HB Hr Ets Hto) as (res & b1 & E & Hres); [by apply (Hnew (rq_from r, r)); left|]. rewrite (bind_ret _ _ _ _ _ E).
  assert (descending l \/ p = RelocRequired \/ p = RelocSuggested) as Hd' by (destruct Hd as [[_ ?]|?]; [by left|by right]).
  assert (forall kr, kr ∈ l -> kr.1 = rq_from kr.2 /\ req_ok ts p kr.2) as Hl' by (intros kr Hkr; apply Hl; by right).
  assert (forall kr, kr ∈ l -> new_at ps (rq_from kr.2) p) as Hnew' by (intros kr Hkr; apply Hnew; by right).
  destruct Hres as [(-> & -> & Hfail)|(-> & c & HB1 & G1 & S1 & Hu1)].
  - case_bool_decide as Hp.
    + exists false, b, []. rewrite app_nil_r. split_and!; try done; [|by intros q ?%elem_of_nil]. intros Hut Hun. destruct (Hun Hp (rq_from r, r) ltac:(by left)) as [H1 H2]. by apply Hfail in H2.
    + destruct (IH b ps HB Hl' Ets Hd' Hnew' Hab) as (ok & b' & ps' & E' & HB' & Hab' & R1 & R2 & R3 & R4 & R5 & R6). exists ok, b', ps'. split_and!; try done.
      * intros _ _. by apply R1.
      * intros q Hq. destruct (R6 q Hq) as (kr & Hkr & ?). exists kr. split; [by right|done].
  - set (pl := mk_placed (rq_from r) to c (fromRelocatedCode r) p) in *. destruct S1 as [S1 S2].
    assert (above p (ps ++ [pl])) as Hab1 by (intros q [Hq|Hq%list_elem_of_singleton]%elem_of_app Hqr; [by apply Hab|subst q; simpl; lia]).
    destruct (IH b1 (ps ++ [pl]) HB1 Hl' ltac:(congruence) Hd') as (ok & b' & ps' & E' & HB' & Hab' & R1 & R2 & R3 & R4 & R5 & R6); [|done|].
    { intros kr Hkr q [Hq|Hq%list_elem_of_singleton]%elem_of_app Hqr; [by apply (Hnew' kr)|]. subst q. simpl in *. split; [lia|]. intros _. destruct Hd as [[Hd _]|Hd].
      - specialize (Hd kr Hkr). simpl in Hd. rewrite (proj1 (Hl' kr Hkr)) in Hd. lia.
      - exfalso. destruct Hr as [[Hp _]|[_ _ Hr _ _]]; [destruct Hd, Hp; congruence|simpl in Hr; congruence]. }
    exists ok, b', (pl :: ps'). rewrite <- app_assoc in HB', Hab'. split_and!; try done.
    + intros Hok Hp kr [->|Hkr]%elem_of_cons; [exists pl, to; split; [by left|done]|]. destruct (R2 Hok Hp kr Hkr) as (q & to' & Hq & ?). exists q, to'. split; [by right|done].
    + intros Hut Hun. apply R3; [congruence|]. intros Hp kr Hkr. destruct (Hun Hp kr ltac:(by right)) as [H1 H2]. split; [done|]. apply Hu1; [|done]. right.
      destruct Hd as [[Hd _]|Hd]; [|destruct Hd; congruence]. specialize (Hd kr Hkr). simpl in Hd. rewrite (proj1 (Hl' kr Hkr)) in Hd. done.
    + by eapply requests_trans.
    + destruct R5. split; congruence.
    + intros q [->|Hq]%elem_of_cons; [exists (rq_from r, r); split; [by left|done]|]. destruct (R6 q Hq) as (kr & Hkr & ?). exists kr. split; [by right|done].
Qed.

(** The requests a client may ask for. *)
Record input_ok (ts : list CodeTracker) (m : SpringboardMap) : Prop := {
  io_orig : forall p, p = Required \/ p = Suggested -> Forall (orig_req_ok ts p) (at_priority p m) /\ descending (reverse (at_priority p m));
  io_reloc : forall p, p = RelocRequired \/ p = RelocSuggested -> Forall (reloc_req_ok p) (at_priority p m)
}.
Lemma input_ok_grown ts m m' : input_ok ts m -> grown m m' -> input_ok ts m'.
Proof. intros [I1 I2] [G1 G2]. split; [intros p Hp; rewrite (G1 p Hp); by apply I1|]. intros p Hp. by apply G2, I2. Qed.

Lemma generateInt_run ts p b ps :
  p = Required \/ p = Suggested \/ p = RelocRequired \/ p = RelocSuggested -> batch b ps -> input_ok ts (bd_input b) -> relocatedCode_ (bd_as b) = ts ->
  (forall q, q ∈ ps -> pl_reloc q = false -> prio p < prio (pl_prio q)) ->
  exists ok b' ps', generateInt p b = Ret (ok, b') /\ batch b' (ps ++ ps') /\ above p (ps ++ ps') /\ input_ok ts (bd_input b') /\ same_rest b b' /\
    (p <> Required -> ok = true) /\ (ok = true -> p = Required -> forall kr, kr ∈ at_priority p (bd_input b) -> done_for ps' kr) /\
    (useTraps_ (bd_as b) = true -> (p = Required -> forall kr, kr ∈ at_priority p (bd_input b) -> unused (valid b) (rq_from kr.2)) -> ok = true) /\
    (forall q, q ∈ ps' -> asked (at_priority p (bd_input b)) q) /\
    (forall p', p' = Required \/ p' = Suggested -> at_priority p' (bd_input b') = at_priority p' (bd_input b)).
Proof.
  intros Hp HB HI Ets Hab. unfold generateInt. rewrite bind_gets. set (l := at_priority p (bd_input b)).
  assert (forall kr, kr ∈ l -> kr.1 = rq_from kr.2 /\ req_ok ts p kr.2 /\ (p = Required -> fromRelocatedCode kr.2 = false)) as Hl.
  { intros [k r] Hin. destruct HI as [I1 I2]. destruct Hp as [Hp|[Hp|Hp]]; subst; [..|pose proof (proj1 (Forall_forall _ _) (I2 p Hp) _ Hin) as Hr];
      [pose proof (proj1 (Forall_forall _ _) (proj1 (I1 Required (or_introl eq_refl))) _ Hin) as Hr|pose proof (proj1 (Forall_forall _ _) (proj1 (I1 Suggested (or_intror eq_refl))) _ Hin) as Hr|];
      destruct (Hr) as [Hk _ Ho]; simpl in *; subst k; (split; [done|]); unfold req_ok; try tauto.
    split; [by right|]. intros ->. by destruct Hp. }
  destruct (generate_reqs_run ts p (reverse l) b ps HB) as (ok & b' & ps' & E & HB' & Hab' & R1 & R2 & R3 & R4 & R5 & R6); try done.
  - intros kr Hkr. rewrite elem_of_reverse in Hkr. destruct (Hl kr Hkr) as (? & ? & _). done.
  - destruct Hp as [->|[->|Hp]]; [left; apply HI; by left|left; apply HI; by right|by right].
  - intros kr _ q Hq Hqr. specialize (Hab q Hq Hqr). split; [lia|]. intros Heq. rewrite Heq in Hab. lia.
  - intros q Hq Hqr. specialize (Hab q Hq Hqr). lia.
  - exists ok, b', ps'. split_and!; try done.
    + by eapply input_ok_grown.
    + intros Hok Hpr kr Hkr. apply (R2 Hok Hpr). by rewrite elem_of_reverse.
    + intros Hut Hun. apply (R3 Hut). intros Hpr kr Hkr. rewrite elem_of_reverse in Hkr. split; [by apply Hl|by apply Hun].
    + intros q Hq. destruct (R6 q Hq) as (kr & Hkr & ?). rewrite elem_of_reverse in Hkr. by exists kr.
    + apply R4.
Qed.

(** The requests of the original code. *)
Definition wanted (m : SpringboardMap) : list (Z * SpringboardReq) := at_priority Required m ++ at_priority Suggested m.
Lemma asked_wanted ts p m q : input_ok ts m -> p = Required \/ p = Suggested \/ p = RelocRequired \/ p = RelocSuggested ->
  asked (at_priority p m) q -> pl_reloc q = false -> asked (wanted m) q.
Proof.
  intros HI Hp (kr & Hkr & Hk) Hq. destruct Hp as [->|[->|Hp]]; [exists kr; split; [apply elem_of_app; by left|done]|exists kr; split; [apply elem_of_app; by right|done]|].
  pose proof (rr_reloc _ _ (proj1 (Forall_forall _ _) (io_reloc _ _ HI p Hp) kr Hkr)). destruct Hk as (_ & _ & Hk). congruence.
Qed.

(** After the requests down to priority [p] of those in [m]. *)
Record phase (ts : list CodeTracker) (m : SpringboardMap) (traps : bool) (p : Priority) (b : build S) (ps : list placed) : Prop := {
  ph_batch : batch b ps;
  ph_above : above p ps;
  ph_input : input_ok ts (bd_input b);
  ph_trackers : relocatedCode_ (bd_as b) = ts;
  ph_traps : useTraps_ (bd_as b) = traps;
  ph_wanted : wanted (bd_input b) = wanted m;
  ph_asked : forall q, q ∈ ps -> pl_reloc q = false -> asked (wanted m) q
}.
Lemma phase_run ts m traps p p' b ps : phase ts m traps p b ps -> prio p' < prio p -> p' = Suggested \/ p' = RelocRequired \/ p' = RelocSuggested ->
  exists b' ps', generateInt p' b = Ret (true, b') /\ phase ts m traps p' b' (ps ++ ps').
Proof.
  intros [P1 P2 P3 P4 P5 P6 P7] Hlt Hp'. assert (p' = Required \/ p' = Suggested \/ p' = RelocRequired \/ p' = RelocSuggested) as Hp by tauto.
  destruct (generateInt_run ts p' b ps Hp P1 P3 P4) as (ok & b' & ps' & E & HB & HA & HI & [S1 S2] & HO & _ & _ & HK & HW).
  { intros q Hq Hr. specialize (P2 q Hq Hr). lia. }
  rewrite HO in E by (by intros ->; destruct Hp' as [?|[?|?]]). exists b', ps'. split; [done|]. split; try done; [congruence|congruence|unfold wanted in *; rewrite <- P6, !HW by tauto; done|].
  intros q [Hq|Hq]%elem_of_app Hr; [by apply P7|]. rewrite <- P6. by apply (asked_wanted ts p'); [..|apply HK|].
Qed.

Lemma sb_generate_run ts b (m := bd_input b) : batch b [] -> input_ok ts m -> relocatedCode_ (bd_as b) = ts ->
  exists ok b' ps, sb_generate b = Ret (ok, b') /\ batch b' ps /\ (ok = true -> forall kr, kr ∈ at_priority Required m -> done_for ps kr) /\
    (useTraps_ (bd_as b) = true -> (forall kr, kr ∈ at_priority Required m -> unused (valid b) (rq_from kr.2)) -> ok = true) /\
    (forall q, q ∈ ps -> pl_reloc q = false -> asked (wanted m) q) /\ relocatedCode_ (bd_as b') = ts.
Proof.
  intros HB HI Ets. unfold sb_generate.
  destruct (generateInt_run ts Required b []) as (ok1 & b1 & ps1 & E1 & HB1 & A1 & HI1 & [S1 T1] & _ & D1 & U1 & K1 & W1); try done; [by left|by intros q ?%elem_of_nil|].
  rewrite (bind_ret _ _ _ _ _ E1). simpl app in *. pose proof (fun q Hq => asked_wanted ts Required m q HI (or_introl eq_refl) (K1 q Hq)) as K1'.
  destruct ok1; cbn [negb]; [|exists false, b1, ps1; split_and!; try done; [by intros Hut Hun; apply (U1 Hut); intros _|congruence]]. clear U1.
  assert (phase ts m (useTraps_ (bd_as b)) Required b1 ps1) as P1 by (split; try done; [congruence|unfold wanted; by rewrite !W1 by tauto]).
  destruct (phase_run _ _ _ _ Suggested _ _ P1) as (b2 & ps2 & E2 & P2); [done|tauto|]. rewrite (bind_ret _ _ _ _ _ E2). cbn [negb].
  destruct (phase_run _ _ _ _ RelocRequired _ _ P2) as (b3 & ps3 & E3 & P3); [done|tauto|]. rewrite (bind_ret _ _ _ _ _ E3). cbn [negb].
  destruct (phase_run _ _ _ _ RelocSuggested _ _ P3) as (b4 & ps4 & E4 & P4); [done|tauto|]. exists true, b4, (((ps1 ++ ps2) ++ ps3) ++ ps4).
  split_and!; [done|apply P4| |done|apply P4|apply P4]. intros _ kr Hkr. destruct (D1 eq_refl eq_refl kr Hkr) as (q & to & Hq & Hto). exists q, to. split; [|done]. set_solver.
Qed.

(** ** Writing the springboards *)

Definition code_at (s : S) (a : Z) (d : list Z) : Prop := forall i c, d !! i = Some c -> cs_byte s (a + Z.of_nat i) c.
(** Control that comes to [from] goes on at [to]. *)
Definition arrives (s : S) (from to : Z) : Prop :=
  (exists j, jump_of from j = Some to /\ code_at s from j) \/ code_at s from [0xCC] /\ cs_trap s from = Some to.
Definition within (q : placed) (x : Z) : Prop := pl_from q <= x < pl_end q.

Definition with_mem (s : S) (a : AddressSpace S) : AddressSpace S := mk_as (installedSpringboards_ a) (relocatedCode_ a) (useTraps_ a) (as_width a) s.
Lemma write_patches_run gs : forall ps a,
  Forall2 (fun g p => startAddr g = pl_from p /\ gen_bytes g = Some (pl_code p)) gs ps -> all_apart ps -> cs_ok (as_space a) ->
  (forall p, p ∈ ps -> pl_code p <> [] /\ cs_text (as_space a) (pl_from p) (Z.of_nat (length (pl_code p)))) ->
  exists s', write_patches gs a = Ret (true, with_mem s' a) /\ cs_ok s' /\ (forall x, cs_trap s' x = cs_trap (as_space a) x) /\
    (forall x n, cs_text (as_space a) x n -> cs_text s' x n) /\
    (forall p, p ∈ ps -> code_at s' (pl_from p) (pl_code p)) /\ (forall x c, (forall p, p ∈ ps -> ~ within p x) -> cs_byte s' x c <-> cs_byte (as_space a) x c).
Proof.
  induction gs as [|g gs IH]; intros ps a HF Hap Hok Hps.
  { apply Forall2_nil_inv_l in HF as ->. exists (as_space a). split; [by destruct a|]. split_and!; try done. by intros p ?%elem_of_nil. }
  apply Forall2_cons_inv_l in HF as (p & ps1 & [Hs Hb] & HF & ->). destruct Hap as [Hp Hap]. destruct (Hps p ltac:(by left)) as [Hne Htx]. cbn [write_patches].
  unfold gen_ptr. rewrite Hb, (bind_ret _ _ _ (pl_code p) a eq_refl). rewrite Hs. destruct (cs_write_law (as_space a) (pl_from p) (pl_code p) Hok (fun _ => Htx)) as (s1 & E1 & Hok1 & Htx1 & Htr1 & Hby1).
  rewrite (bind_ret _ _ _ true (with_mem s1 a)) by (unfold lift; simpl; by rewrite E1). cbn [negb].
  destruct (IH ps1 (with_mem s1 a) HF Hap Hok1) as (s2 & E2 & Hok2 & Htr2 & Htx2 & Hc2 & Hr2); [intros q Hq; destruct (Hps q ltac:(by right)); split; [done|by apply Htx1]|]. simpl in Htr2, Htx2, Hr2.
  exists s2. split; [done|]. split_and!; [done|intros x; by rewrite Htr2|intros x n Hx; by apply Htx2, Htx1| |].
  - intros q [->|Hq]%elem_of_cons; [|by apply Hc2]. intros i c Hi. pose proof (lookup_lt_Some _ _ _ Hi). apply Hr2.
    + intros q' Hq' Hw. destruct (Hp q' Hq') as [Hd|Hd]; unfold within, pl_end in *; lia.
    + apply Hby1. rewrite decide_True by lia. by replace (Z.to_nat (pl_from p + Z.of_nat i - pl_from p)) with i by lia.
  - intros x c Hx. rewrite Hr2 by (intros q Hq; apply Hx; by right). rewrite Hby1, decide_False; [done|]. apply (Hx p). by left.
Qed.
End Batch.

(** ** The whole batch *)

(** An address space whose ranges are those of code that can be written. *)
Record ready {S} {space : CodeSpace S} {laws : CodeSpaceLaws S} (own : Z -> option func_instance) (idf : option func_instance -> Z) (orig keep : Z -> Prop)
    (a : AddressSpace S) : Prop := {
  rd_ids : forall f, 1 <= idf f;
  rd_keep : forall x, orig x -> keep x;
  rd_ranges : ranges_ok own idf (validRanges_ (installedSpringboards_ a));
  rd_orig : forall e x, e ∈ validRanges_ (installedSpringboards_ a) -> inside e x -> orig x;
  rd_over : ordered 1 (overwrittenRelocatedCode_ (installedSpringboards_ a));
  rd_mem : cs_ok (as_space a);
  rd_text : forall x n, 0 < n -> (forall y, x <= y < x + n -> orig y) -> cs_text (as_space a) x n;
  rd_width : as_width a = 8
}.

Section Patch.
Context {S : Type} {space : CodeSpace S} {laws : CodeSpaceLaws S}.
Context (own : Z -> option func_instance) (idf : option func_instance -> Z) (orig keep : Z -> Prop).

Definition all_written (m : SpringboardMap) (s s' : S) : Prop :=
  exists ps, (forall q, q ∈ ps -> arrives s' (pl_from q) (pl_to q)) /\ (forall kr, kr ∈ at_priority Required m -> done_for ps kr) /\
    (forall q, q ∈ ps -> pl_reloc q = false -> asked (wanted m) q) /\ all_apart ps /\
    (forall x c, (forall q, q ∈ ps -> ~ within q x) -> cs_byte s' x c <-> cs_byte s x c) /\
    (forall q x, q ∈ ps -> within q x -> if pl_reloc q then ~ keep x else orig x).

Lemma patchCode_run a m : ready own idf orig keep a -> input_ok own keep (as_space a) (relocatedCode_ a) m ->
  exists ok a', patchCode m a = Ret (ok, a') /\ ready own idf orig keep a' /\
    (useTraps_ a = true -> (forall kr, kr ∈ at_priority Required m -> unused (validRanges_ (installedSpringboards_ a)) (rq_from kr.2)) -> ok = true) /\
    (forall x n, cs_text (as_space a) x n -> cs_text (as_space a') x n) /\ relocatedCode_ a' = relocatedCode_ a /\
    (if ok : bool then all_written m (as_space a) (as_space a') else forall x c, cs_byte (as_space a') x c <-> cs_byte (as_space a) x c).
Proof.
  intros [R1 R0 R2 R3 R4 R5 R6 R7] HI. set (b := mk_build a m [] []).
  assert (batch own idf orig keep (as_space a) b []) as HB by (by split; try done; constructor).
  destruct (sb_generate_run own idf orig keep (as_space a) R1 R0 R6 (relocatedCode_ a) b HB HI eq_refl) as (ok & b' & ps & E & HB' & HD & HL & HA & HT).
  unfold patchCode. fold b. rewrite E. pose proof HB' as [B1 B2 B3 B4 B5 B6 B7 B8 B9 B10].
  assert (ready own idf orig keep (bd_as b')) as HR' by (split; try done; intros x n Hn Hx; apply B5; by apply R6).
  destruct ok; [|by exists false, (bd_as b')].
  destruct (write_patches_run (bd_springboards b') ps (bd_as b') B7 B9 B4) as (s' & E' & Hok & Htr & Htx & Hc & Hr).
  { intros q Hq. destruct (proj1 (Forall_forall _ _) B8 q Hq) as [_ _ Q3 _ Q5]. split; [by intros Hn; rewrite Hn in Q3; simpl in Q3; lia|by apply B5]. }
  exists true, (with_mem s' (bd_as b')). split; [done|]. split_and!; try done.
  - destruct HR' as [K1 K0 K2 K3 K4 K5 K6 K7]. split; try done. intros x n Hn Hx. simpl. by apply Htx, K6.
  - intros x n Hx. by apply Htx, B5.
  - exists ps. split_and!; try done.
    + intros q Hq. destruct (proj1 (Forall_forall _ _) B8 q Hq) as [[Q1|[Q1 Q1']] _ _ _ _]; [left; exists (pl_code q); split; [done|by apply Hc]|].
      right. rewrite <- Q1. split; [by apply Hc|]. simpl. by rewrite Htr.
    + by apply HD.
    + intros x c Hx. simpl. rewrite (Hr x c Hx). apply B10.
    + intros q x Hq Hx. destruct (proj1 (Forall_forall _ _) B8 q Hq) as [_ Q2 _ _ _]. unfold registered in Q2. destruct (pl_reloc q); [by apply Q2|].
      destruct Q2 as [st Hin]. by apply (B2 _ _ Hin).
Qed.

(** C17: A batch of springboards for moved code is installed or refused as a whole.  No
    assertion about the ranges fails; when traps may be used and the required
    addresses are in free ranges, the batch is installed.  Then from the address of
    every required request control goes to where the request leads, by the bytes of
    a jump or by a trap; every springboard in the original code is one that was asked
    for and lies in the ranges; springboards do not overlap, and no other byte changes.  A refused batch
    changes no byte.  The ranges stay consistent for the next batch. *)
Theorem springboards_lead (a : AddressSpace S) (m : SpringboardMap) :
  ready own idf orig keep a -> input_ok own keep (as_space a) (relocatedCode_ a) m ->
  exists ok a', patchCode m a = Ret (ok, a') /\ ready own idf orig keep a' /\
    (useTraps_ a = true -> (forall kr, kr ∈ at_priority Required m -> unused (validRanges_ (installedSpringboards_ a)) (rq_from kr.2)) -> ok = true) /\
    (if ok : bool then all_written m (as_space a) (as_space a') else forall x c, cs_byte (as_space a') x c <-> cs_byte (as_space a) x c).
Proof. intros HR HI. destruct (patchCode_run a m HR HI) as (ok & a' & E & H1 & H2 & _ & _ & H3). by exists ok, a'. Qed.
End Patch.
