(* ===== verification/SpringboardBin.v ===== *)
(** * Springboards of a rewritten binary (dyninstAPI/src/binaryEdit.C)

    BinaryEdit puts a trap instruction into the code of the springboard and the pair of
    addresses into the trap mappings; it writes springboards into the backing store
    of the image.  Both keep the laws of a [CodeSpace]. *)
From stdpp Require Import base gmap list.
From S2P Require Import Prelude CodeGen CodeGenOk CodeRange CodeRangeTree CodeRangeMap InfHeap InfHeapOk BinHeap BinHeapOk BinImage TrapMap TrapMapOk TrapFlush TrapProc TrapProcess TrapStatic Springboard SpringboardGen.
Import codegen springboard trampTrapMappings binaryEdit.

(** The code of a trap, in the buffer of the springboard. *)
Definition trap_gen (from : Z) (gen : codeGen) : res codeGen :=
  match (invalidate ;; allocate 4 ;; setAddr from ;; generateTrap) gen with Ret (_, g) => Ret g | Fault x => Fault x end.

#[export] Instance binary_code : CodeSpace (trap_maps binaryEdit) := {
  addTrap from to gen := g ← of_res (trap_gen from gen) ; addTrapMapping from to true ;; mret g;
  writeTextSpace addr bs := lift (binaryEdit.writeTextSpace addr bs)
}.

Lemma trap_gen_run from g : exists g', trap_gen from g = Ret g' /\ startAddr g' = from /\ gen_bytes g' = Some [0xCC].
Proof.
  set (cap := 0x10000). assert (cap + codeGenPadding < 2 ^ 31) as Hcap by done. set (g0 := mk_gen None 0 0 0 false from true (aWidth g)).
  destruct (generate_insn_run cap Hcap (fresh g0 4) [] [0xCC]) as (g' & E & HH & [Ha _]); [by apply fresh_holds|done|done|].
  exists g'. unfold trap_gen, generateTrap. rewrite (bind_ret _ _ _ _ _ (invalidate_run _)), (bind_ret _ _ _ _ _ (allocate_run cap Hcap _ 4 ltac:(done))).
  rewrite (bind_ret (setAddr from) _ _ tt (fresh g0 4)), E by reflexivity. split_and!; [done|done|]. by apply (holds_gen_bytes cap).
Qed.

Lemma addTrapMapping_maps (t : trap_maps binaryEdit) from to : 0 <= from < 2 ^ 63 ->
  exists t', addTrapMapping from to true t = Ret (tt, t') /\ tm_as t' = tm_as t /\ exists e, to_addr e = to /\ tm_mapping t' = <[from + 1 := e]> (tm_mapping t).
Proof.
  intros Hf. unfold addTrapMapping. rewrite u64_id by lia. rewrite bind_gets. set (e := mk_mapping (from + 1) to false true _).
  destruct (tm_mapping t !! (from + 1)); eexists; (split; [reflexivity|]); (split; [done|]); by exists e.
Qed.

(** A region of the image that holds [[a, a + n)]. *)
Definition image_text (b : binaryEdit) (a n : Z) : Prop := n < 2 ^ 32 /\ exists c k, (be_heap b c k \/ be_data b c k) /\ c <= a /\ a + n <= c + k.

Lemma dirtied_same b : be_ok b -> be_ok (dirtied b) /\ (forall a n, image_text b a n -> image_text (dirtied b) a n) /\ forall x c, be_byte (dirtied b) x c <-> be_byte b x c.
Proof.
  intros [[m HB] Hh]. assert (forall m', bin_ok b m' <-> bin_ok (dirtied b) m') as Hd by (intros m'; split; intros [B1 B2 B3 B4 B5 B6 B7 B8 B9]; by split). split_and!.
  - split; [exists m; by apply Hd|done].
  - intros a n (Hn & c & k & [(HA & m' & v & o & HB' & Hr)|(m' & k' & v & o & HB' & Hr)] & Hc); (split; [done|]); exists c, k; (split; [|done]); [left; split; [done|]; exists m', v, o|right; exists m', k', v, o]; (split; [by apply Hd|done]).
  - intros x c. unfold be_byte. split; intros (m' & HB' & Hx); exists m'; (split; [by apply Hd|done]).
Qed.

#[export] Instance binary_code_laws : CodeSpaceLaws (trap_maps binaryEdit).
Proof.
  refine {| cs_ok t := be_ok (tm_as t); cs_text t := image_text (tm_as t); cs_byte t := be_byte (tm_as t); cs_trap t x := to_addr <$> tm_mapping t !! (x + 1) |}.
  - intros t a d Hok Htx. destruct (decide (d = [])) as [->|Hne].
    { destruct (dirtied_same _ Hok) as (H1 & H2 & H3). eexists. split; [reflexivity|]. simpl. split_and!; try done. intros x c. rewrite decide_False by lia. apply H3. }
    destruct (Htx Hne) as (Hn & c & k & HR & Hc & He). destruct (binary_write (tm_as t) c k (a - c) d Hok HR ltac:(lia) ltac:(lia) Hn) as (b' & E & Hok' & _ & Hh & Hd & Hby).
    replace (c + (a - c)) with a in * by lia. eexists. split; [unfold springboard.writeTextSpace, binary_code, lift; simpl; rewrite (E : binaryEdit.writeTextSpace a d (tm_as t) = _); reflexivity|]. simpl. split_and!; try done.
    intros x n (Hn' & c' & k' & HR' & Hc'). split; [done|]. exists c', k'. split; [|done]. destruct HR'; [left; by apply Hh|right; by apply Hd].
  - intros t from to g Hok Hf Ht. destruct (trap_gen_run from g) as (g' & Eg & Hs & Hb). destruct (addTrapMapping_maps t from to ltac:(lia)) as (t' & E & Ea & e & He & Em).
    exists g', t'. split_and!; try done.
    + unfold addTrap, binary_code. rewrite (bind_ret _ _ _ g' t) by (unfold of_res; by rewrite Eg). by rewrite (bind_ret _ _ _ _ _ E).
    + by rewrite Ea.
    + by rewrite Ea.
    + by rewrite Em, lookup_insert_eq, <- He.
    + intros x _ Hne. by rewrite Em, lookup_insert_ne by lia.
    + intros x c. by rewrite Ea.
Defined.
