(* ===== verification/SpringboardFunc.v ===== *)
(** * The ranges of functions that do not overlap

    Adding functions whose blocks are disjoint to an empty set of ranges makes each
    block, with the padding behind it that belongs to nothing, a range of its own. *)
From stdpp Require Import base gmap list.
From S2P Require Import Prelude CodeTracker Springboard SpringboardOk.
Import codeTracker springboard.

Section Functions.
Context {parse : Parse}.

(** The blocks of some functions, each with its function. *)
Definition blocks_of (fs : list func_instance) : list (func_instance * block_instance) := fs ≫= fun f => pair f <$> func_blocks f.
Definition ext_end (x : func_instance * block_instance) : Z :=
  extend (Z.to_nat (5 - s32 (block_end x.2 - b_start x.2))) x.1 (block_end x.2).

(** The blocks of all functions are disjoint, and the parser knows that their bytes
    belong to them. *)
Record parsed (fs : list func_instance) : Prop := {
  pd_blocks : forall x, x ∈ blocks_of fs -> 0 < b_start x.2 < block_end x.2 /\ block_end x.2 < 2 ^ 61 /\ block_end x.2 - b_start x.2 < 2 ^ 31;
  pd_disjoint : forall i j x y, blocks_of fs !! i = Some x -> blocks_of fs !! j = Some y -> i <> j -> block_end x.2 <= b_start y.2 \/ block_end y.2 <= b_start x.2;
  pd_known : forall x y a, x ∈ blocks_of fs -> y ∈ blocks_of fs -> b_start y.2 <= a < block_end y.2 -> isNoneContained (findBlocks x.1 a) = false;
  pd_funcs : NoDup fs;
  pd_count : Z.of_nat (length fs) < 2 ^ 31 - 1
}.

Lemma extend_run n f e : 0 <= e -> e + Z.of_nat n < 2 ^ 64 ->
  e <= extend n f e <= e + Z.of_nat n /\ forall x, e <= x < extend n f e -> isNoneContained (findBlocks f x) = true.
Proof.
  revert e. induction n as [|n IH]; intros e H0 He; cbn [extend]; [split; [lia|]; intros; lia|].
  destruct (isNoneContained (findBlocks f e) && region_contains f e) eqn:E; [|split; [lia|]; intros; lia]. apply andb_prop in E as [E _].
  rewrite u64_id by lia. destruct (IH (e + 1)) as [H1 H2]; [lia|lia|]. split; [lia|]. intros x Hx. destruct (decide (x = e)) as [->|]; [done|]. apply H2. lia.
Qed.

Lemma ext_end_range fs x : parsed fs -> x ∈ blocks_of fs ->
  block_end x.2 <= ext_end x <= block_end x.2 + 4 /\ forall a, block_end x.2 <= a < ext_end x -> isNoneContained (findBlocks x.1 a) = true.
Proof.
  intros HP Hx. destruct (pd_blocks _ HP x Hx) as (H1 & H2 & H3). unfold ext_end. rewrite s32_id by lia.
  destruct (extend_run (Z.to_nat (5 - (block_end x.2 - b_start x.2))) x.1 (block_end x.2)) as [E1 E2]; [lia|lia|]. split; [lia|done].
Qed.
Lemma ext_disjoint fs i j x y : parsed fs -> blocks_of fs !! i = Some x -> blocks_of fs !! j = Some y -> i <> j -> ext_end x <= b_start y.2 \/ ext_end y <= b_start x.2.
Proof.
  intros HP Ex Ey Hij. pose proof (list_elem_of_lookup_2 _ _ _ Ex) as Hx. pose proof (list_elem_of_lookup_2 _ _ _ Ey) as Hy.
  assert (forall x y, x ∈ blocks_of fs -> y ∈ blocks_of fs -> block_end x.2 <= b_start y.2 -> ext_end x <= b_start y.2) as Hd.
  { intros u v Hu Hv Huv. destruct (ext_end_range fs u HP Hu) as [_ Hf]. destruct (decide (ext_end u <= b_start v.2)) as [?|Hn]; [done|].
    destruct (pd_blocks _ HP v Hv) as (? & _ & _). specialize (Hf (b_start v.2) ltac:(lia)). rewrite (pd_known _ HP u v) in Hf by (done || lia). done. }
  destruct (pd_disjoint _ HP i j x y Ex Ey Hij); [left|right]; by apply Hd.
Qed.

(** ** Adding a block where nothing is *)

Lemma split_ranges_clear n : forall info lookup start end_ t a,
  ordered a t -> clear t start end_ -> start <= lookup -> 0 <= lookup -> end_ < 2 ^ 63 -> (Z.to_nat (end_ - lookup) < n)%nat -> split_ranges n info lookup start end_ t = Ret (start, t).
Proof.
  induction n as [|n IH]; intros info lookup start end_ t a Ho Hc Hl H0 He Hn; [lia|]. cbn [split_ranges]. destruct (lookup <? end_) eqn:E; cbn [negb]; zbool; [|done].
  rewrite (proj2 (find_range_none a t lookup Ho)) by (intros e Hin; destruct (Hc e Hin); lia). rewrite u64_id by lia. apply (IH _ _ _ _ _ a); (done || lia).
Qed.

Definition entry_of (id : Z) (x : func_instance * block_instance) : range_entry := (b_start x.2, (ext_end x, mk_info id (Some x.1) MIN_PRIORITY)).
Definition quiet (s s' : InstalledSpringboards) : Prop := relocTraps_ s' = relocTraps_ s /\ overwrittenRelocatedCode_ s' = overwrittenRelocatedCode_ s.

Lemma addBlock_run fs x s : parsed fs -> x ∈ blocks_of fs -> ordered 1 (validRanges_ s) -> clear (validRanges_ s) (b_start x.2) (ext_end x) ->
  exists s', addBlock x.1 x.2 s = Ret (tt, s') /\ nextFuncID_ s' = nextFuncID_ s /\ quiet s s' /\ ordered 1 (validRanges_ s') /\
    forall e, e ∈ validRanges_ s' <-> e = entry_of (nextFuncID_ s) x \/ e ∈ validRanges_ s.
Proof.
  intros HP Hx Ho Hc. destruct (pd_blocks _ HP x Hx) as (H1 & H2 & H3). destruct (ext_end_range fs x HP Hx) as [H4 _].
  unfold addBlock. fold (ext_end x). rewrite bind_gets. set (i := mk_info (nextFuncID_ s) (Some x.1) MIN_PRIORITY).
  set (s1 := mk_inst (nextFuncID_ s) (relocTraps_ s) (validRanges_ s) (if block_end x.2 <? ext_end x then insert (block_end x.2) (ext_end x) i (paddingRanges_ s) else paddingRanges_ s) (overwrittenRelocatedCode_ s)).
  rewrite (bind_ret _ _ _ tt s1) by (destruct (_ <? _); [done|by destruct s]). rewrite bind_gets. change (validRanges_ s1) with (validRanges_ s).
  rewrite (bind_ret _ _ _ (b_start x.2, validRanges_ s) s1) by (unfold of_res; by rewrite (split_ranges_clear _ _ _ _ _ _ 1) by (done || lia)). cbn [fst snd].
  rewrite (proj2 (Z.ltb_lt _ _)) by lia. eexists. split; [reflexivity|]. split_and!; try done.
  - apply insert_ordered; (done || lia).
  - intros e. simpl. rewrite (insert_in 1) by (done || lia). done.
Qed.

(** What the blocks [l] of functions numbered by [num] have become. *)
Definition filled (num : func_instance -> Z) (l : list (func_instance * block_instance)) (s : InstalledSpringboards) : Prop :=
  ordered 1 (validRanges_ s) /\ forall e, e ∈ validRanges_ s <-> exists x, x ∈ l /\ e = entry_of (num x.1) x.

Lemma addBlocks_run fs num f l : forall pre post s, parsed fs -> blocks_of fs = pre ++ (pair f <$> l) ++ post -> filled num pre s -> nextFuncID_ s = num f ->
  exists s', forM l (addBlock f) s = Ret (tt, s') /\ filled num (pre ++ (pair f <$> l)) s' /\ nextFuncID_ s' = nextFuncID_ s /\ quiet s s'.
Proof.
  induction l as [|b l IH]; intros pre post s HP Eb [Ho Hm] Hn; cbn [forM].
  { exists s. rewrite app_nil_r. split_and!; try done. }
  assert ((f, b) ∈ blocks_of fs) as Hin by (rewrite Eb; set_solver).
  destruct (addBlock_run fs (f, b) s HP Hin Ho) as (s1 & E1 & Hn1 & [Q1 Q2] & Ho1 & Hm1).
  { intros e He. apply Hm in He as (x & Hx & ->). apply list_elem_of_lookup in Hx as [i Hi]. simpl.
    assert (blocks_of fs !! i = Some x) as Ei by (rewrite Eb; by apply lookup_app_l_Some).
    assert (blocks_of fs !! length pre = Some (f, b)) as Ej by (rewrite Eb, lookup_app_r, Nat.sub_diag by lia; done).
    apply (ext_disjoint fs i (length pre) x (f, b) HP Ei Ej). apply lookup_lt_Some in Hi. lia. }
  rewrite (bind_ret _ _ _ _ _ E1). destruct (IH (pre ++ [(f, b)]) post s1) as (s' & E' & HF & Hn' & [Q1' Q2']); [done| | |congruence|].
  { rewrite Eb. simpl. by rewrite <- app_assoc. }
  { split; [done|]. intros e. rewrite Hm1, Hn, Hm. split.
    - intros [->|(x & Hx & ->)]; [exists (f, b); split; [set_solver|done]|exists x; split; [set_solver|done]].
    - intros (x & [Hx|Hx%list_elem_of_singleton]%elem_of_app & ->); [right; by exists x|left; by subst x]. }
  exists s'. split; [done|]. rewrite <- app_assoc in HF. split_and!; [done|congruence|split; congruence].
Qed.

(** The number of a function among those that are added. *)
Fixpoint number (fs : list func_instance) (f : func_instance) : Z := match fs with [] => 1 | g :: fs' => if decide (f = g) then 1 else 1 + number fs' f end.
Lemma number_pos fs f : 1 <= number fs f <= 1 + Z.of_nat (length fs).
Proof. induction fs as [|g fs IH]; simpl; [lia|]. case_decide; lia. Qed.
Lemma number_at pre f post : f ∉ pre -> number (pre ++ f :: post) f = 1 + Z.of_nat (length pre).
Proof.
  induction pre as [|g pre IH]; intros Hn; simpl; [by rewrite decide_True|]. rewrite decide_False by set_solver. rewrite IH by set_solver. lia.
Qed.

Lemma blocks_of_app l1 l2 : blocks_of (l1 ++ l2) = blocks_of l1 ++ blocks_of l2.
Proof. unfold blocks_of. by rewrite bind_app. Qed.

Lemma addFuncs_run fs l : forall pre s, parsed fs -> fs = pre ++ l -> filled (number fs) (blocks_of pre) s -> nextFuncID_ s = 1 + Z.of_nat (length pre) ->
  exists s', forM l (fun f => addFunc f) s = Ret (tt, s') /\ filled (number fs) (blocks_of fs) s' /\ quiet s s'.
Proof.
  induction l as [|f l IH]; intros pre s HP Ef HF Hn; cbn [forM].
  { exists s. rewrite Ef, app_nil_r. rewrite app_nil_r in Ef. subst pre. split_and!; done. }
  assert (f ∉ pre) as Hnp by (pose proof (pd_funcs _ HP) as Hd; rewrite Ef in Hd; apply NoDup_app in Hd as (_ & Hd & _); intros Hin; apply (Hd f Hin); by left).
  assert (length pre < length fs)%nat as Hlt by (rewrite Ef, length_app; simpl; lia). pose proof (pd_count _ HP).
  destruct (addBlocks_run fs (number fs) f (func_blocks f) (blocks_of pre) (blocks_of l) s HP) as (s1 & E1 & HF1 & Hn1 & [Q1 Q2]); [|done| |].
  { rewrite Ef, blocks_of_app. done. }
  { rewrite Hn, Ef. symmetry. by apply number_at. }
  set (s2 := mk_inst (1 + Z.of_nat (length (pre ++ [f]))) (relocTraps_ s1) (validRanges_ s1) (paddingRanges_ s1) (overwrittenRelocatedCode_ s1)).
  rewrite (bind_ret _ _ _ tt s2).
  2:{ unfold addFunc. rewrite (bind_ret _ _ _ _ _ E1), bind_gets, Hn1, Hn. unfold set_nextFuncID, modify, s2. rewrite s32_id by lia. rewrite length_app. simpl. do 3 f_equal. lia. }
  destruct (IH (pre ++ [f]) s2 HP) as (s' & E' & HF' & [Q1' Q2']); [by rewrite <- app_assoc| |done|].
  { destruct HF1 as [Ho1 Hm1]. split; [done|]. rewrite blocks_of_app. unfold blocks_of at 2. simpl. rewrite app_nil_r. done. }
  exists s'. split; [done|]. split; [done|]. split; simpl in *; congruence.
Qed.
End Functions.
