(* ===== verification/Relocate.v ===== *)
(** * Moving functions (dyninstAPI/src/Relocation/CodeMover.C, CFG/RelocBlock.C, CFG/RelocGraph.C, addressSpace.C)

    CodeMover makes a moved block of every block of the functions that are to change,
    links the blocks by the edges of the control flow graph, and decides at which
    original addresses control has to be caught: [PriorityMap].  [sBoardMap] turns
    this into requests once the moved blocks have addresses.  [generateCode] looks for
    memory the code fits in, and [relocateInt] puts code and springboards there.

    The control flow graph and the decoder answer through a class. *)
From stdpp Require Import base gmap list.
From S2P Require Import Prelude CodeGen CodeTracker CodeBuffer RelocPatch RelocBlock Springboard.
Import codegen codeTracker codeBuffer relocation relocBlock springboard.

Module codeMover.

(** An edge of the graph: its ends, whether it has no known target, whether it leaves
    the function. *)
Record edge_instance : Type := mk_ei { ei_type : edge_type; ei_sink : bool; ei_src : block_instance; ei_trg : block_instance; ei_interproc : bool }.

(** [createReloc] decodes a block; [jump_target] is the target its last instruction
    computes, if it is known. *)
Class Cfg {parse : Parse} : Type := {
  isInstrumentable : func_instance -> bool;
  entryBlock : func_instance -> block_instance;
  entryOfFunc : block_instance -> option func_instance;
  wasUserAdded : block_instance -> bool;
  sources : block_instance -> list edge_instance;
  targets : block_instance -> list edge_instance;
  createReloc : block_instance -> func_instance -> option RelocBlock;
  jump_target : CFWidget -> option Z
}.

(** An edge into a moved block: of what kind, from which edge of the graph (whether that
    one leaves its function), and whether it comes from a moved block. *)
Record InEdge : Type := mk_in { in_type : edge_type; in_interproc : option bool; in_moved : bool }.

(** The virtual methods of AddressSpace for memory that holds code. *)
Class CodeAlloc (S : Type) : Type := {
  code_malloc : Z -> Z -> M S Z;
  code_realloc : Z -> Z -> M S bool;
  code_free : Z -> M S unit
}.

Definition PriorityMap : Type := list (block_instance * option func_instance * Priority).
Record CodeMover : Type := mk_cm {
  cm_blocks : list RelocBlock;
  cm_ins : list (nat * InEdge);          (* the edges into each block, in order *)
  priorityMap_ : PriorityMap;
  finalized_ : bool
}.
Definition CodeMover_new : CodeMover := mk_cm [] [] [] false.

(** Keys are compared as pairs of pointers. *)
Definition pm_lt (k k' : block_instance * option func_instance) : bool :=
  (b_id k.1 <? b_id k'.1) || ((b_id k.1 =? b_id k'.1) && (func_key k.2 <? func_key k'.2)).
Fixpoint pm_set (k : block_instance * option func_instance) (p : Priority) (l : PriorityMap) : PriorityMap :=
  match l with
  | [] => [(k, p)]
  | (k', p') :: l' => if pm_lt k k' then (k, p) :: l else if pm_lt k' k then (k', p') :: pm_set k p l' else (k, p) :: l'
  end.

Definition set_blocks (f : list RelocBlock -> list RelocBlock) : M CodeMover unit := modify (fun c => mk_cm (f (cm_blocks c)) (cm_ins c) (priorityMap_ c) (finalized_ c)).
Definition add_in (j : nat) (e : InEdge) : M CodeMover unit := modify (fun c => mk_cm (cm_blocks c) (cm_ins c ++ [(j, e)]) (priorityMap_ c) (finalized_ c)).
Definition set_priority (k : block_instance * option func_instance) (p : Priority) : M CodeMover unit := modify (fun c =>
  mk_cm (cm_blocks c) (cm_ins c) (pm_set k p (priorityMap_ c)) (finalized_ c)).
Definition set_finalized : M CodeMover unit := modify (fun c => mk_cm (cm_blocks c) (cm_ins c) (priorityMap_ c) true).
Definition set_outs (o : list RelocEdge) (b : RelocBlock) : RelocBlock :=
  mk_rb (rb_origAddr b) (rb_block b) (rb_func b) (rb_last b) (rb_defensive b) (rb_elements b) (rb_cf b) o (rb_label b).

(** The block that was added last for a block and a function, by its position. *)
Fixpoint find_block (bbl : block_instance) (func : option func_instance) (i : nat) (l : list RelocBlock) : option nat :=
  match l with
  | [] => None
  | b :: l' =>
      match find_block bbl func (S i) l' with
      | Some j => Some j
      | None => if bool_decide (rb_block b = bbl) && bool_decide (rb_func b = func) then Some i else None
      end
  end.
Definition findSpringboard (bbl : block_instance) (func : option func_instance) (c : CodeMover) : option nat := find_block bbl func 0 (cm_blocks c).

Section Mover.
Context {parse : Parse} {cfg : Cfg}.

(** ** Adding functions *)

Definition addRelocBlock (func : func_instance) (bbl : block_instance) : M CodeMover unit :=
  match createReloc bbl func with
  | None => mret tt
  | Some block =>
      set_blocks (fun l => l ++ [block]) ;;
      if wasUserAdded bbl then mret tt else set_priority (bbl, Some func) Suggested
  end.
Definition add_function (func : func_instance) : M CodeMover unit :=
  if negb (isInstrumentable func) then mret tt else
  forM (func_blocks func) (addRelocBlock func) ;;
  set_priority (entryBlock func, Some func) Required.
Definition addFunctions (funcs : list func_instance) : M CodeMover unit := forM funcs add_function.

(** ** Linking *)

Definition the_block (i : nat) : M CodeMover RelocBlock := l ← gets cm_blocks ; match l !! i with Some b => mret b | None => fail FBadPtr end.
(** [makeEdge] from a moved block, and into one from a block that is not moved. *)
Definition make_out (i : nat) (t : trg) (e : edge_instance) : M CodeMover unit :=
  b ← the_block i ;
  set_blocks (fun l => <[i := set_outs (rb_outs b ++ [mk_edge (ei_type e) t]) b]> l) ;;
  match t with TReloc j => add_in j (mk_in (ei_type e) (Some (ei_interproc e)) true) | _ => mret tt end.
Definition make_in (i : nat) (e : edge_instance) : M CodeMover unit := add_in i (mk_in (ei_type e) (Some (ei_interproc e)) false).

Definition processEdge (out : bool) (i : nat) (e : edge_instance) : M CodeMover unit :=
  match ei_type e with
  | RET | NOEDGE => mret tt
  | ty =>
      b ← the_block i ;
      if ei_sink e then
        assertM out ;;
        match ty with
        | CALL | COND_TAKEN | DIRECT => match jump_target (rb_cf b) with Some a => make_out i (TAddr a) e | None => mret tt end
        | COND_NOT_TAKEN | FALLTHROUGH | CALL_FT => make_out i (TAddr (block_end (rb_block b))) e
        | _ => mret tt
        end
      else
        let block := if out then ei_trg e else ei_src e in
        let f := match ty with CALL => entryOfFunc block | _ => rb_func b end in
        t ← gets (findSpringboard block f) ;
        match t with
        | Some j => if out then make_out i (TReloc j) e else mret tt
        | None => if out then make_out i (TBlock block) e else make_in i e
        end
  end.
Definition linkRelocBlocks (i : nat) : M CodeMover unit :=
  b ← the_block i ;
  forM (sources (rb_block b)) (processEdge false i) ;;
  forM (targets (rb_block b)) (processEdge true i).

(** ** Where control has to be caught *)

Definition ins_of (i : nat) (c : CodeMover) : list InEdge := snd <$> filter (fun x => x.1 = i) (cm_ins c).
(** An edge that makes a springboard necessary: neither a call nor a tail call, and from
    code that is not moved. *)
Definition from_outside (e : InEdge) : bool :=
  match in_type e with
  | CALL => false
  | ty => if bool_decide (in_interproc e = Some true) && (bool_decide (ty = DIRECT) || bool_decide (ty = INDIRECT)) then false else negb (in_moved e)
  end.
Definition determineSpringboards (i : nat) : M CodeMover unit :=
  b ← the_block i ;
  ins ← gets (ins_of i) ;
  if match rb_func b with Some f => bool_decide (entryBlock f = rb_block b) | None => false end then set_priority (rb_block b, rb_func b) Required
  else if existsb (fun e => bool_decide (in_type e = INDIRECT)) ins then set_priority (rb_block b, rb_func b) Required
  else if existsb from_outside ins then set_priority (rb_block b, rb_func b) Required
  else mret tt.

(** A block is judged before the blocks behind it are linked. *)
Definition finalizeRelocBlocks : M CodeMover unit :=
  f ← gets finalized_ ;
  if f : bool then mret tt else
  set_finalized ;;
  l ← gets cm_blocks ;
  forM (seq 0 (length l)) (fun i => linkRelocBlocks i ;; determineSpringboards i).

(** ** Requests *)

(** The loop of [sBoardMap] over the map, once the blocks have the labels [labels]. *)
Fixpoint sboard_reqs (c : CodeMover) (labels : list Z) (l : PriorityMap) (m : SpringboardMap) : M (CodeBuffer patch) SpringboardMap :=
  match l with
  | [] => mret m
  | (bbl, func, p) :: l' =>
      if wasUserAdded bbl then sboard_reqs c labels l' m else
      match findSpringboard bbl func c with
      | None => sboard_reqs c labels l' m
      | Some j =>
          match labels !! j with
          | None => fail FBadPtr
          | Some labelID =>
              to ← getLabelAddr labelID ;
              match addFromOrigCode (b_start bbl) to p func bbl m with
              | Fault x => fail x
              | Ret m' => sboard_reqs c labels l' m'
              end
          end
      end
  end.
Definition sBoardMap (c : CodeMover) (labels : list Z) : M (CodeBuffer patch) SpringboardMap := sboard_reqs c labels (priorityMap_ c) [].

(** ** Into memory *)

Context {S : Type} {space : CodeSpace S} {alloc : CodeAlloc S}.

Definition push_tracker (t : CodeTracker) : M (AddressSpace S) unit := modify (fun a =>
  mk_as (installedSpringboards_ a) (relocatedCode_ a ++ [t]) (useTraps_ a) (as_width a) (as_space a)).
Definition last_tracker (t : CodeTracker) : M (AddressSpace S) unit := modify (fun a =>
  mk_as (installedSpringboards_ a) (take (pred (length (relocatedCode_ a))) (relocatedCode_ a) ++ [t]) (useTraps_ a) (as_width a) (as_space a)).

(** The loop of [generateCode]: memory is allocated for the size the code has had so
    far, until the code that is generated there fits. *)
Fixpoint generate_tries (attempts rounds : nat) (nearTo : Z) (buf : CodeBuffer patch) : M (AddressSpace S) (option Z * CodeBuffer patch) :=
  match attempts with
  | O => fail FFuel
  | Datatypes.S n =>
      let size := if codeBuffer.size buf =? 0 then 1 else codeBuffer.size buf in
      baseAddr ← lift (code_malloc size nearTo) ;
      r ← of_res (codeBuffer.generate rounds baseAddr buf) ;
      if negb r.1 then mret (None, r.2) else
      ok ← lift (code_realloc baseAddr (codeBuffer.size r.2)) ;
      if (ok : bool) then mret (Some baseAddr, r.2) else
      lift (code_free baseAddr) ;;
      generate_tries n rounds nearTo r.2
  end.
Definition generateCode (cm : CodeMover) (nearTo : Z) (attempts rounds : nat) : M (AddressSpace S) (Z * list Z * CodeBuffer patch) :=
  w ← gets as_width ;
  g ← of_res (mover_initialize (cm_blocks cm) (fun j => Z.of_nat j + 1) (codeGen_new w) (CodeBuffer_new w)) ;
  let '(labels, ok, buf) := g in
  if negb ok then mret (0, labels, buf) else
  r ← generate_tries attempts rounds nearTo buf ;
  match r.1 with
  | None => mret (0, labels, r.2)
  | Some baseAddr =>
      t ← of_res (extractTrackers (buffers_ r.2) CodeTracker_new) ;
      last_tracker t.2 ;;
      mret (baseAddr, labels, r.2)
  end.

(** The stored bytes of the generated code. *)
Definition code_bytes (s : CodeBuffer patch) : res (list Z) :=
  match ptr s with
  | None => Fault FNull
  | Some l => match mapM id (take (Z.to_nat (codeBuffer.size s)) l) with Some bs => Ret bs | None => Fault FBadPtr end
  end.

Definition index_code : M (AddressSpace S) unit :=
  ts ← gets relocatedCode_ ;
  match last ts with
  | None => fail FBadPtr
  | Some t => i ← of_res (createIndices t) ; last_tracker i.2
  end.

(** [relocateInt] without transformers. *)
Definition relocateInt (funcs : list func_instance) (nearTo : Z) (attempts rounds : nat) : M (AddressSpace S) bool :=
  if bool_decide (funcs = []) then mret true else
  push_tracker CodeTracker_new ;;
  c ← of_res (addFunctions funcs CodeMover_new) ;
  createFunc funcs ;;
  c ← of_res (finalizeRelocBlocks c.2) ;
  let cm := c.2 in
  g ← generateCode cm nearTo attempts rounds ;
  let '(baseAddr, labels, buf) := g in
  if baseAddr =? 0 then mret false else
  bs ← of_res (code_bytes buf) ;
  ok ← lift (writeTextSpace baseAddr bs) ;
  if negb ok then mret false else
  m ← of_res (sBoardMap cm labels buf) ;
  ok ← patchCode m.1 ;
  if negb ok then mret false else
  index_code ;;
  mret true.
End Mover.

End codeMover.
