(* ===== verification/RelocateGen.v ===== *)
(** * Memory for moved code

    [CodeAllocLaws] is what an address space has to promise about its allocator.  The
    loop of [generateCode] then ends: whenever the code does not fit, its size has
    grown beyond what was allocated, and sizes are bounded. *)
From stdpp Require Import base gmap list.
From S2P Require Import Prelude CodeGen CodeGenOk CodeTracker CodeBuffer CodeBufferOk CodeLayout CodeBuild RelocPatch RelocPatchOk Springboard SpringboardGen Relocate.
Import codegen codeTracker codeBuffer relocation springboard codeMover.

(** ** What an allocator promises *)

Definition apart_from (a n x k : Z) : Prop := x + k <= a \/ a + n <= x.

(** From [s] to [s'], text and bytes stay outside of the block of [n] bytes at [a]. *)
Record frame {S} {space : CodeSpace S} {laws : CodeSpaceLaws S} (s s' : S) (a n : Z) : Prop := {
  fr_ok : cs_ok s';
  fr_trap : forall x, cs_trap s' x = cs_trap s x;
  fr_text : forall x k, 0 < k -> cs_text s x k -> apart_from a n x k -> cs_text s' x k;
  fr_byte : forall x c, cs_text s x 1 -> apart_from a n x 1 -> cs_byte s' x c <-> cs_byte s x c
}.

(** [ca_own s a n]: there is a block of [n] bytes at [a] as it was allocated;
    [ca_room s top n]: there is room for [n] bytes below [top]. *)
Class CodeAllocLaws (S : Type) {space : CodeSpace S} {laws : CodeSpaceLaws S} {alloc : CodeAlloc S} : Type := {
  ca_own : S -> Z -> Z -> Prop;
  ca_room : S -> Z -> Z -> Prop;
  ca_room_less : forall s top n k, ca_room s top k -> n <= k -> ca_room s top n;
  ca_malloc_law : forall s n near top, cs_ok s -> 0 < n -> ca_room s top n ->
    exists a n1 s', code_malloc n near s = Ret (a, s') /\ 0 < a <= top /\ n <= n1 /\ ca_own s' a n1 /\ frame s s' a n1 /\
      (forall x k, 0 < k -> cs_text s x k -> apart_from a n1 x k) /\ (forall k, ca_room s top (k + n + 8) -> ca_room s' top k);
  ca_realloc_law : forall s a n n', cs_ok s -> ca_own s a n -> 0 < n' < 2 ^ 30 ->
    exists ok s', code_realloc a n' s = Ret (ok, s') /\ (n' <= n -> ok = true) /\
      (if ok : bool then frame s s' a n /\ (forall k, 0 < k <= n' -> cs_text s' a k) /\
         (forall x k, 0 < k -> cs_text s x k -> apart_from a n x k -> apart_from a n' x k)
       else s' = s);
  ca_free_law : forall s a n, cs_ok s -> ca_own s a n ->
    exists s', code_free a s = Ret (tt, s') /\ frame s s' a n /\ (forall top k, ca_room s top k -> ca_room s' top k)
}.

Section Tries.
Context {S : Type} {space : CodeSpace S} {laws : CodeSpaceLaws S} {alloc : CodeAlloc S} {alaws : CodeAllocLaws S}.

Lemma frame_trans (s s1 s2 : S) a n b k : frame s s1 a n -> frame s1 s2 b k ->
  (forall x j, 0 < j -> cs_text s x j -> apart_from a n x j) -> (forall x j, 0 < j -> cs_text s x j -> apart_from b k x j) -> forall c m, frame s s2 c m.
Proof.
  intros [F1 F2 F3 F4] [G1 G2 G3 G4] Ha Hb c m. split; [done|intros x; by rewrite G2| |].
  - intros x j Hj Hx _. apply G3; auto.
  - intros x y Hx _. pose proof (Ha x 1 ltac:(lia) Hx). rewrite G4; [apply F4; auto|apply F3; auto; lia|apply Hb; [lia|done]].
Qed.

(** Memory for [n] bytes at [base] that no text had. *)
Record new_place (s s' : S) (base n : Z) : Prop := {
  np_frame : frame s s' base n;
  np_apart : forall x k, 0 < k -> cs_text s x k -> apart_from base n x k;
  np_text : forall k, 0 < k <= n -> cs_text s' base k
}.

(** There are bytes that need no patch. *)
Definition solid (items : list (item patch)) : Prop := exists xs t, IPIC xs t ∈ items /\ xs <> [].
Lemma laid_solid f items : forall n a bs sp, laid f items n a bs sp -> solid items -> bs <> [].
Proof.
  intros n a bs sp HL. induction HL as [|l n a bs sp Hf H1 IH|xs t l n a bs sp H1 IH|p t k l n a bs sp Hk H1 IH]; intros (ys & u & Hin & Hne).
  - by apply elem_of_nil in Hin.
  - apply IH. apply elem_of_cons in Hin as [?|Hin]; [done|]. by exists ys, u.
  - apply elem_of_cons in Hin as [[= <- <-]|Hin]; [by destruct ys|]. destruct xs; [|done]. apply IH. by exists ys, u.
  - apply elem_of_cons in Hin as [?|Hin]; [done|]. intros [_ [_ E]%app_eq_nil]%app_eq_nil. revert E. apply IH. by exists ys, u.
Qed.

Abbreviation total items := (zsum item_cap items).
Definition with_space (s : S) (a : AddressSpace S) : AddressSpace S := mk_as (installedSpringboards_ a) (relocatedCode_ a) (useTraps_ a) (as_width a) s.
Lemma lift_space {A} (m : M S A) (a : AddressSpace S) r s' : m (as_space a) = Ret (r, s') -> lift m a = Ret (r, with_space s' a).
Proof. intros E. unfold lift. simpl. by rewrite E. Qed.

Lemma generate_tries_run (items : list (item patch)) top near rounds (len := Z.of_nat (length items)) :
  (forall base, 0 < base <= top -> buildable items base) -> solid items -> 2 * total items + 1 < Z.of_nat rounds -> total items < 2 ^ 30 ->
  forall attempts buf a (m := total items - size buf + 1),
  standing items buf -> cs_ok (as_space a) -> m <= Z.of_nat attempts -> curLabelID_ buf + (2 * slack buf + 2 * m) * len < 2 ^ 31 ->
  ca_room (as_space a) top (m * (total items + 16)) ->
  exists base f bs buf' s', generate_tries attempts rounds near buf a = Ret ((Some base, buf'), with_space s' a) /\
    0 < base <= top /\ laid_out items base buf' f bs /\ new_place (as_space a) s' base (Z.of_nat (length bs)).
Proof.
  intros Hbase Hsol Hr Ht. induction attempts as [|attempts IH]; intros buf a m HS Hok Hm Hc Hroom; pose proof (sd_size _ _ HS) as Hsz; unfold size in m; [lia|].
  cbn [generate_tries]. set (n := if size buf =? 0 then 1 else size buf). pose proof (item_cap_nonneg items) as Hn0.
  assert (0 < n /\ size buf <= n <= total items + 1) as [Hn Hn'] by (unfold n, size; destruct (cb_size buf =? 0) eqn:E; zbool; lia).
  destruct (ca_malloc_law (as_space a) n near top Hok Hn) as (base & n1 & s1 & E1 & Hb & Hle & Hown & HF1 & Hap1 & Hrm1); [eapply ca_room_less; [exact Hroom|nia]|].
  rewrite (bind_ret _ _ _ _ _ (lift_space _ a _ _ E1)). pose proof (Hbase base Hb) as HA. pose proof (standing_slack _ _ HS) as Hsl.
  destruct (regenerate_run items base buf rounds HA HS Hr ltac:(nia)) as (buf1 & f & bs & E2 & HL & HS1 & Hsl1 & Hc1).
  rewrite (bind_ret _ _ _ _ _ (ltac:(unfold of_res; by rewrite E2) : of_res (codeBuffer.generate rounds base buf) (with_space s1 a) = Ret ((true, buf1), with_space s1 a))). cbn [negb fst snd].
  pose proof (la_size _ _ _ _ _ HL) as Els. pose proof (laid_solid _ _ _ _ _ _ (la_laid _ _ _ _ _ HL) Hsol) as Hne. pose proof (la_total _ _ _ _ _ HL) as Hlt.
  assert (0 < size buf1) as Hpos by (rewrite Els; destruct bs; [done|simpl; lia]).
  destruct (ca_realloc_law s1 base n1 (size buf1) (fr_ok _ _ _ _ HF1) Hown ltac:(lia)) as (ok & s2 & E3 & Hfit & Hres).
  rewrite (bind_ret _ _ _ _ _ (lift_space _ (with_space s1 a) _ _ E3)). destruct ok.
  - destruct Hres as (HF2 & Htx & Hap2). exists base, f, bs, buf1, s2. split_and!; [done|lia|lia|done|]. rewrite <- Els. split.
    + apply (frame_trans (as_space a) s1 s2 base n1 base n1); auto.
    + intros x k Hk Hx. apply Hap2; [done| |by apply Hap1]. apply (fr_text _ _ _ _ HF1); auto.
    + done.
  - subst s2. assert (n1 < size buf1) as Hgrow by (destruct (decide (size buf1 <= n1)) as [Hd|]; [by apply Hfit in Hd|lia]).
    destruct (ca_free_law s1 base n1 (fr_ok _ _ _ _ HF1) Hown) as (s3 & E4 & HF3 & Hrm3).
    change (with_space s1 (with_space s1 a)) with (with_space s1 a). rewrite (bind_ret _ _ _ _ _ (lift_space _ (with_space s1 a) _ _ E4)).
    change (with_space s3 (with_space s1 a)) with (with_space s3 a). unfold size in Hgrow, Hn', Els.
    destruct (IH buf1 (with_space s3 a) HS1 (fr_ok _ _ _ _ HF3)) as (base' & f' & bs' & buf' & s' & E' & Hb' & HL' & [P1 P2 P3]); unfold size; try lia.
    + nia.
    + apply Hrm3, Hrm1. eapply ca_room_less; [exact Hroom|nia].
    + assert (forall x k, 0 < k -> cs_text (as_space a) x k -> cs_text s3 x k) as Htx3.
      { intros x k Hk Hx. pose proof (Hap1 x k Hk Hx). apply (fr_text _ _ _ _ HF3); [done| |done]. by apply (fr_text _ _ _ _ HF1). }
      exists base', f', bs', buf', s'. split_and!; [done|lia|lia|done|]. split; [|intros x k Hk Hx; apply P2; auto|done].
      apply (frame_trans (as_space a) s3 s' base' (Z.of_nat (length bs')) base' (Z.of_nat (length bs'))); auto; [|intros x k Hk Hx; apply P2; auto..].
      apply (frame_trans (as_space a) s1 s3 base n1 base n1); auto.
Qed.
End Tries.
