(* ===== verification/RelocateBin.v ===== *)
(** * Memory for moved code in a rewritten binary

    The allocator of BinaryEdit keeps the [CodeAllocLaws]. *)
From stdpp Require Import base gmap list.
From S2P Require Import Prelude CodeGen CodeRange CodeRangeTree CodeRangeMap InfHeap InfHeapOk BinHeap BinHeapOk BinImage BinRealloc TrapMap TrapMapOk TrapFlush TrapProc TrapProcess TrapStatic CodeTracker CodeBuffer RelocPatch Springboard SpringboardGen SpringboardBin Relocate RelocateGen.
Import springboard codeMover trampTrapMappings binaryEdit.

(** ** Text and bytes that stay *)

Lemma be_byte_tracked b m k v o x c : bin_ok b m -> tracks (be_objs b) m k v o -> k <= x < k + mt_s o ->
  be_byte b x c <-> mt_b o !! Z.to_nat (x - k) = Some (Some c).
Proof.
  intros HB Ht Hx. rewrite (be_byte_holds b m x c HB). split; [|by intros Hc; exists k, v, o].
  intros (k' & v' & o' & Ht' & Hx' & Hc). by destruct (tracks_unique _ _ _ _ _ _ _ _ _ _ x (bo_trackers _ _ HB) Ht' Ht Hx' Hx) as (-> & _ & ->).
Qed.
Lemma text_tracked b m x n : bin_ok b m -> 0 < n -> image_text b x n -> exists k v o, tracks (be_objs b) m k v o /\ k <= x /\ x + n <= k + mt_s o.
Proof.
  intros HB Hn (_ & c & l & HR & Hc & He). destruct (region_tracked b m c l HB HR) as (k & v & o & Ht & _ & _ & Hk & Hk' & _). exists k, v, o. split; [done|lia].
Qed.

(** The trackers other than the one at [a], and the live blocks, are still there. *)
Record others_stay (b : binaryEdit) (m : gmap Z Z) (a : Z) (b' : binaryEdit) (m' : gmap Z Z) : Prop := {
  os_tracks : forall k v o, tracks (be_objs b) m k v o -> k <> a -> tracks (be_objs b') m' k v o;
  os_active : forall c, c <> a -> is_Some (bactive b !! c) -> is_Some (bactive b' !! c)
}.

Lemma frame_image b m a n b' m' : bin_ok b m -> bin_ok b' m' -> (forall v o, tracks (be_objs b) m a v o -> mt_s o <= n) -> others_stay b m a b' m' ->
  (forall x k, 0 < k -> image_text b x k -> apart_from a n x k -> image_text b' x k) /\
  (forall x c, image_text b x 1 -> apart_from a n x 1 -> be_byte b' x c <-> be_byte b x c).
Proof.
  intros HB HB' Ha [S1 S2].
  assert (forall k v o x l, tracks (be_objs b) m k v o -> 0 < l -> apart_from a n x l -> k <= x -> x + l <= k + mt_s o -> k <> a) as Hne.
  { intros k v o x l Ht Hl Hx H1 H2 ->. specialize (Ha v o Ht). unfold apart_from in Hx. lia. }
  split.
  - intros x k Hk (Hlt & c & l & HR & Hc & He) Hx. split; [done|]. exists c, l. split; [|done]. destruct HR as [(Hact & m1 & v & o & HB1 & Ht & Hl)|(m1 & k1 & v & o & HB1 & Ht & Hal & Hl & Hk1 & Hk2)];
      rewrite (bin_ok_unique b m1 m HB1 HB) in Ht.
    + left. assert (c <> a) as Hca by (apply (Hne c v o x k); done || lia). split; [by apply S2|]. exists m', v, o. split_and!; try done; try lia. by apply S1.
    + right. assert (k1 <> a) as Hka by (apply (Hne k1 v o x k); done || lia). exists m', k1, v, o. split_and!; try done. by apply S1.
  - intros x c Hx Hax. destruct (text_tracked b m x 1 HB ltac:(lia) Hx) as (k & v & o & Ht & Hk & He). assert (k <> a) as Hka by (apply (Hne k v o x 1); done || lia).
    rewrite (be_byte_tracked b' m' k v o x c HB' (S1 _ _ _ Ht Hka)) by lia. by rewrite (be_byte_tracked b m k v o x c HB Ht) by lia.
Qed.

(** ** The allocator *)

#[export] Instance binary_alloc : CodeAlloc (trap_maps binaryEdit) := {
  code_malloc n near := lift (binaryEdit.inferiorMalloc n);
  code_realloc a n := lift (binaryEdit.inferiorRealloc a n);
  code_free a := lift (binaryEdit.inferiorFree a)
}.

Definition owned (b : binaryEdit) (a n : Z) : Prop := exists m v h o, bin_ok b m /\ be_own b m a n v h o.
Definition room_below (b : binaryEdit) (top n : Z) : Prop :=
  bytes (bblocks b) + n + 8 < 2 ^ 31 /\ be_highWaterMark b + n + 8 <= top /\ top < 2 ^ (8 * be_width b).

(** In the terms of [frame]. *)
Lemma frame_maps (t : trap_maps binaryEdit) m a n b' m' : bin_ok (tm_as t) m -> bin_ok b' m' -> be_highWaterMark b' < 2 ^ (8 * be_width b') ->
  (forall v o, tracks (be_objs (tm_as t)) m a v o -> mt_s o <= n) -> others_stay (tm_as t) m a b' m' -> frame t (eput b' t) a n.
Proof.
  intros HB HB' Hh Ha HS. destruct (frame_image _ m a n b' m' HB HB' Ha HS) as [F1 F2]. split; try done. split; [by exists m'|done].
Qed.

(** *** Allocation *)

Lemma malloc_stays b m a n b1 b' : grew b m n b1 -> got b1 m a n b' ->
  others_stay b m a b' (<[a := be_next b1]> m) /\ tracks (be_objs b') (<[a := be_next b1]> m) a (be_next b1) (mk_tracker true false a n (replicate (Z.to_nat n) None)).
Proof.
  intros [G1 G2 (G3 & G3' & G3'') G4 G5] [T1 T2 [T3 T3'] (h & T4 & T4' & T4'') T5 [T6 T6'] T7]. split; [|split; [by rewrite lookup_insert_eq|by rewrite T5, lookup_insert_eq]]. split.
  - intros k v o [Hk Ho] Hne. split; [by rewrite lookup_insert_ne|]. rewrite T5, lookup_insert_ne; [by rewrite G3|]. intros <-.
    pose proof (ts_next _ _ _ _ (bo_trackers _ _ G1) (be_next b1)) as Hlt. rewrite G3 in Hlt. specialize (Hlt (mk_is_Some _ _ Ho)). lia.
  - intros c Hc Hx. by rewrite T4, G2, lookup_insert_ne.
Qed.

Lemma malloc_fresh b m a n b1 b' x k : bin_ok b m -> 0 < n -> grew b m n b1 -> got b1 m a n b' -> 0 < k -> image_text b x k -> apart_from a n x k.
Proof.
  intros HB Hn HG HT Hk Hx. destruct (malloc_stays _ _ _ _ _ _ HG HT) as [[S1 _] Hnew]. destruct (text_tracked b m x k HB Hk Hx) as (k0 & v0 & o0 & Ht & H1 & H2).
  assert (k0 <> a) as Hne by (destruct (gt_new _ _ _ _ _ HT), Ht; congruence).
  apply (region_apart b' _ a n a _ _ x k (gt_ok _ _ _ _ _ HT) Hnew ltac:(lia) ltac:(simpl; lia) Hn Hk k0 v0 o0 (S1 _ _ _ Ht Hne) H1 H2 Hne).
Qed.

Lemma malloc_owned b m a n b1 b' : n mod be_width b = 0 -> grew b m n b1 -> got b1 m a n b' -> owned b' a n.
Proof.
  intros Hm HG HT. destruct (malloc_stays _ _ _ _ _ _ HG HT) as [_ Hnew]. destruct (gt_active _ _ _ _ _ HT) as (h & T4 & _ & Hl), (gt_high _ _ _ _ _ HT) as [_ Ew], (gw_objs _ _ _ _ HG) as (_ & _ & Ew').
  exists (<[a := be_next b1]> m). do 3 eexists. split; [apply HT|]. split; [rewrite T4; apply lookup_insert_eq|exact Hnew|done|done|]. by rewrite Ew, Ew'.
Qed.

Lemma maps_malloc (t : trap_maps binaryEdit) n near top : be_ok (tm_as t) -> 0 < n -> room_below (tm_as t) top n ->
  exists a n1 t', code_malloc n near t = Ret (a, t') /\ 0 < a <= top /\ n <= n1 /\ owned (tm_as t') a n1 /\ frame t t' a n1 /\
    (forall x k, 0 < k -> cs_text t x k -> apart_from a n1 x k) /\ (forall k, room_below (tm_as t) top (k + n + 8) -> room_below (tm_as t') top k).
Proof.
  intros [[m HB] Hhi] Hn (R1 & R2 & R3). assert (2 ^ (8 * be_width (tm_as t)) <= 2 ^ 64) as H64 by (by destruct (word_bound _ (bo_width _ _ HB))).
  destruct (edit_malloc_run (tm_as t) m n HB Hn R1 ltac:(lia)) as (a & b1 & b' & E & Hal & HG & HT).
  destruct (heap_bytes _ (bo_heap _ _ HB)) as (Hf & Ha & _). unfold bblocks, blocks in R1. rewrite zsum_app in R1. set (n1 := infHeap.inferiorMallocAlign (be_width (tm_as t)) n) in *.
  exists a, n1, (eput b' t). split; [unfold code_malloc, binary_alloc, lift; simpl; by rewrite E|].
  pose proof (gw_high _ _ _ _ HG) as Hh. destruct (gt_high _ _ _ _ _ HT) as [Eh Ew], (gw_objs _ _ _ _ HG) as (_ & _ & Ew').
  destruct (malloc_stays _ _ _ _ _ _ HG HT) as [HS Hnew]. destruct (ts_obj _ _ _ _ (bo_trackers _ _ (gt_ok _ _ _ _ _ HT)) a _ (proj1 Hnew)) as (p & Hp & [K1 K2 K3 K4 K5]).
  split_and!; [lia|lia|lia| | | |].
  - apply (malloc_owned (tm_as t) m a n1 b1); [|done|done]. apply align_bounds; [apply HB|lia].
  - apply (frame_maps t m a n1 b' _ HB (gt_ok _ _ _ _ _ HT)); [rewrite Eh, Ew, Ew'; lia| |done]. intros v o [Hv _]. destruct (gt_new _ _ _ _ _ HT). congruence.
  - intros x k. by apply (malloc_fresh (tm_as t) m a n1 b1 b'); [|lia| |].
  - intros k (K1' & K2' & K3'). pose proof (gw_bytes _ _ _ _ HG) as Hb. pose proof (gt_bytes _ _ _ _ _ HT) as Hb'. unfold room_below. simpl. rewrite Ew, Ew', Hb', Eh. lia.
Qed.

(** *** Resizing *)

Lemma maps_realloc (t : trap_maps binaryEdit) a n n' : be_ok (tm_as t) -> owned (tm_as t) a n -> 0 < n' < 2 ^ 30 ->
  exists ok t', code_realloc a n' t = Ret (ok, t') /\ (n' <= n -> ok = true) /\
    (if ok : bool then frame t t' a n /\ (forall k, 0 < k <= n' -> cs_text t' a k) /\
       (forall x k, 0 < k -> cs_text t x k -> apart_from a n x k -> apart_from a n' x k)
     else t' = t).
Proof.
  intros [_ Hhi] (m & v & h & o & HB & HO) Hn'. pose proof HO as [W1 W2 W3 W4 W5].
  destruct (inferiorRealloc_run (tm_as t) m a n n' v h o HB HO Hn') as [[E Hlt]|(l & s1 & s2 & t2 & E & HG & HC & HM)].
  { exists false, t. split_and!; [|lia|done]. unfold code_realloc, binary_alloc, lift. simpl. rewrite E. by destruct t. }
  set (o' := memoryTracker_realloc o n') in *. set (b' := after_realloc (tm_as t) v o' s2 t2) in *.
  exists true, (eput b' t). split; [unfold code_realloc, binary_alloc, lift; simpl; by rewrite E|]. split; [done|].
  destruct (ts_obj _ _ _ _ (bo_trackers _ _ HB) a v (proj1 W2)) as (p & Hp & [K1 K2 K3 K4 K5]). rewrite (proj2 W2) in Hp. injection Hp as <-.
  assert (mt_alloced o' = true) as Hal by (destruct (bo_live _ _ HB a h W1) as (v1 & o1 & [V1 V2] & Ha & _), W2; simpl; congruence).
  assert (Z.of_nat (length (mt_b o')) = n') as Hlen by (simpl; rewrite length_app, length_take, length_replicate; lia).
  assert (bin_ok b' m) as HB' by (apply (after_ok (tm_as t) m a v h o o' n' l s1 s2 t2); auto; [congruence|lia]).
  pose proof (fun k w p => after_tracks (tm_as t) m a v o o' s2 t2 HB W2 k w p) as HT.
  split_and!.
  - apply (frame_maps t m a n b' m HB HB'); [done| |].
    + intros w p Hp. destruct W2, Hp. assert (p = o) by congruence. subst p. lia.
    + split; [intros k w p Hp Hne; apply HT; right; by split|]. intros c Hc Hx. unfold b'. rewrite (after_active (tm_as t) a v h o' n' l s1 s2 t2 HG HC). by rewrite lookup_insert_ne.
  - intros k Hk. split; [lia|]. exists a, n'. split; [|lia]. left. split.
    + change (is_Some (bactive b' !! a)). unfold b'. rewrite (after_active (tm_as t) a v h o' n' l s1 s2 t2 HG HC), lookup_insert_eq. eauto.
    + exists m, v, o'. split; [exact HB'|]. split; [apply HT; by left|]. simpl. lia.
  - intros x k Hk Hx Hap. destruct (text_tracked (tm_as t) m x k HB Hk Hx) as (k0 & v0 & o0 & Ht & H1 & H2).
    assert (k0 <> a) as Hne by (intros ->; destruct W2, Ht; assert (o0 = o) by congruence; subst o0; unfold apart_from in Hap; lia).
    destruct (regrown_apart (tm_as t) m a h o n' l s1 HB W1 HG ltac:(lia) k0 v0 o0 Ht Hne); unfold apart_from; lia.
Qed.

(** *** Release *)

Lemma maps_free (t : trap_maps binaryEdit) a n : be_ok (tm_as t) -> owned (tm_as t) a n ->
  exists t', code_free a t = Ret (tt, t') /\ frame t t' a n /\ (forall top k, room_below (tm_as t) top k -> room_below (tm_as t') top k).
Proof.
  intros [_ Hhi] (m & v & h & o & HB & [W1 W2 W3 W4 W5]). destruct (inferiorFree_run (tm_as t) m a HB ltac:(eauto)) as (b' & E & [G1 G2 (w & Gw & G3) [G4 G4'] G5 _]).
  exists (eput b' t). split; [unfold code_free, binary_alloc, lift; simpl; by rewrite E|]. split.
  - apply (frame_maps t m a n b' _ HB G1); [congruence| |].
    + intros w' p Hp. destruct W2, Hp. assert (p = o) by congruence. subst p. lia.
    + split; [intros k u p Hp Hne; rewrite G3; by apply (tracks_delete _ _ _ _ _ _ _ _ _ (bo_trackers _ _ HB) Gw)|]. intros c Hc Hx. by rewrite G2, lookup_delete_ne.
  - intros top k. unfold room_below. simpl. by rewrite G4, G4', G5.
Qed.

#[export, refine] Instance binary_alloc_laws : CodeAllocLaws (trap_maps binaryEdit) := {
  ca_own t := owned (tm_as t);
  ca_room t := room_below (tm_as t);
  ca_room_less := _;
  ca_malloc_law := maps_malloc;
  ca_realloc_law := maps_realloc;
  ca_free_law := maps_free
}.
Proof.
  intros t top n k (R1 & R2 & R3) Hle. unfold room_below. lia.
Defined.
