(* ===== verification/RelocateOk.v ===== *)
(** * What CodeMover asks for

    The moved blocks, the priorities and the requests that CodeMover makes of functions
    that do not overlap. *)
From stdpp Require Import base gmap list.
From S2P Require Import Prelude CodeGen CodeTracker CodeTrackerOk CodeBuffer RelocPatch RelocBlock Springboard SpringboardOk SpringboardGen SpringboardFunc Relocate.
Import codegen codeTracker codeBuffer relocation relocBlock springboard codeMover.

(** ** Maps ordered by pointers *)

Abbreviation pkey := (block_instance * option func_instance)%type.
Definition same_key (k k' : pkey) : Prop := b_id k.1 = b_id k'.1 /\ func_key k.2 = func_key k'.2.
Lemma pm_lt_iff k k' : pm_lt k k' = true <-> b_id k.1 < b_id k'.1 \/ b_id k.1 = b_id k'.1 /\ func_key k.2 < func_key k'.2.
Proof. unfold pm_lt. rewrite orb_true_iff, andb_true_iff, !Z.ltb_lt, Z.eqb_eq. done. Qed.
Lemma pm_not_lt k k' : pm_lt k k' = false -> pm_lt k' k = false -> same_key k k'.
Proof.
  intros H1 H2. unfold same_key. destruct (decide (b_id k.1 < b_id k'.1 \/ b_id k.1 = b_id k'.1 /\ func_key k.2 < func_key k'.2)) as [H|H3]; [apply pm_lt_iff in H; congruence|].
  destruct (decide (b_id k'.1 < b_id k.1 \/ b_id k'.1 = b_id k.1 /\ func_key k'.2 < func_key k.2)) as [H|H4]; [apply pm_lt_iff in H; congruence|]. lia.
Qed.
Fixpoint pm_sorted (l : PriorityMap) : Prop := match l with [] => True | e :: l' => (forall e', e' ∈ l' -> pm_lt e.1 e'.1 = true) /\ pm_sorted l' end.

Lemma pm_set_in k p l e : e ∈ pm_set k p l -> e = (k, p) \/ e ∈ l.
Proof.
  induction l as [|[k' p'] l IH]; simpl; [set_solver|]. destruct (pm_lt k k'); [set_solver|]. destruct (pm_lt k' k); [|set_solver].
  intros [->|Hin]%elem_of_cons; [set_solver|]. destruct (IH Hin); set_solver.
Qed.
Lemma pm_set_self k p l : (k, p) ∈ pm_set k p l.
Proof. induction l as [|[k' p'] l IH]; simpl; [set_solver|]. destruct (pm_lt k k'); [set_solver|]. destruct (pm_lt k' k); set_solver. Qed.
Lemma pm_set_keep k p l e : e ∈ l -> e ∈ pm_set k p l \/ same_key e.1 k.
Proof.
  induction l as [|[k' p'] l IH]; simpl; [set_solver|]. intros He. destruct (pm_lt k k') eqn:E1; [left; set_solver|]. destruct (pm_lt k' k) eqn:E2.
  - apply elem_of_cons in He as [->|He]; [left; by left|]. destruct (IH He); [left; by right|by right].
  - apply elem_of_cons in He as [->|He]; [right; by apply pm_not_lt|left; by right].
Qed.
Lemma pm_set_sorted k p l : pm_sorted l -> pm_sorted (pm_set k p l).
Proof.
  induction l as [|[k' p'] l IH]; [simpl; split; [by intros ? ?%elem_of_nil|done]|]. intros [H1 H2]. simpl. simpl in H1. destruct (pm_lt k k') eqn:E1; [|destruct (pm_lt k' k) eqn:E2].
  - split; [|by split]. intros e [->|He]%elem_of_cons; [done|]. specialize (H1 e He). apply pm_lt_iff in H1, E1. apply pm_lt_iff. simpl in *. lia.
  - split; [|by apply IH]. intros e He. apply pm_set_in in He as [->|He]; [done|by apply H1].
  - destruct (pm_not_lt _ _ E1 E2) as [S1 S2]. split; [|done]. intros e He. specialize (H1 e He). apply pm_lt_iff in H1. apply pm_lt_iff. simpl in *. lia.
Qed.

Section Mover.
Context {parse : Parse} {cfg : Cfg}.

(** What the control flow graph promises for the functions [fs]: identities are those
    of objects, blocks can be decoded and have no edges at first, the entry is one of
    the blocks of a function and is part of the program, and an edge with a source has
    a target. *)
Record cfg_ok (fs : list func_instance) : Prop := {
  co_entry : forall f, f ∈ fs -> entryBlock f ∈ func_blocks f /\ wasUserAdded (entryBlock f) = false;
  co_reloc : forall f b, f ∈ fs -> b ∈ func_blocks f -> exists rb, createReloc b f = Some rb /\ rb_block rb = b /\ rb_func rb = Some f /\ rb_outs rb = [];
  co_blocks : forall x y, x ∈ blocks_of fs -> y ∈ blocks_of fs -> b_id x.2 = b_id y.2 -> x.2 = y.2;
  co_funcs : forall f g, f ∈ fs -> g ∈ fs -> f_id f = f_id g -> f = g;
  co_sources : forall x e, x ∈ blocks_of fs -> e ∈ sources x.2 -> ei_sink e = false
}.

Lemma in_blocks_of fs f b : (f, b) ∈ blocks_of fs <-> f ∈ fs /\ b ∈ func_blocks f.
Proof.
  unfold blocks_of. rewrite list_elem_of_bind. split.
  - intros (g & Hin & Hg). apply list_elem_of_fmap in Hin as (c & [= -> ->] & Hc). done.
  - intros [Hf Hb]. exists f. split; [|done]. apply list_elem_of_fmap. by exists b.
Qed.

(** ** The map of priorities *)

Definition pm_ok (fs : list func_instance) (l : PriorityMap) : Prop :=
  pm_sorted l /\ forall k p, (k, p) ∈ l -> exists f, k.2 = Some f /\ (f, k.1) ∈ blocks_of fs /\ (p = Suggested \/ p = Required).
Lemma pm_ok_set fs k p f l : pm_ok fs l -> k.2 = Some f -> (f, k.1) ∈ blocks_of fs -> p = Suggested \/ p = Required -> pm_ok fs (pm_set k p l).
Proof.
  intros [H1 H2] Hk Hf Hp. split; [by apply pm_set_sorted|]. intros k' p' Hin. apply pm_set_in in Hin as [[= -> ->]|Hin]; [by exists f|by apply H2].
Qed.
Lemma same_key_eq fs k k' f f' : cfg_ok fs -> k.2 = Some f -> k'.2 = Some f' -> (f, k.1) ∈ blocks_of fs -> (f', k'.1) ∈ blocks_of fs -> same_key k k' -> k = k'.
Proof.
  intros HC Hk Hk' Hf Hf' [S1 S2]. destruct k as [b o], k' as [b' o']. simpl in *. subst o o'. pose proof (co_blocks _ HC _ _ Hf Hf' S1) as Hb. simpl in Hb.
  apply in_blocks_of in Hf as [Hf _], Hf' as [Hf' _]. pose proof (co_funcs _ HC _ _ Hf Hf' S2) as Heq. congruence.
Qed.
(** Setting a priority keeps what is required, unless it lowers it. *)
Lemma pm_set_required fs k p f l k0 : cfg_ok fs -> pm_ok fs l -> k.2 = Some f -> (f, k.1) ∈ blocks_of fs -> (k0, Required) ∈ l -> p = Required \/ k0 <> k ->
  (k0, Required) ∈ pm_set k p l.
Proof.
  intros HC [_ Hl] Hk Hf Hin Hp. destruct (pm_set_keep k p l _ Hin) as [?|Hs]; [done|]. destruct (Hl _ _ Hin) as (f0 & Hk0 & Hf0 & _).
  pose proof (same_key_eq fs k0 k f0 f HC Hk0 Hk Hf0 Hf Hs) as ->. destruct Hp as [->|?]; [apply pm_set_self|done].
Qed.

(** ** Adding functions *)

Definition is_block (f : func_instance) (b : block_instance) (rb : RelocBlock) : Prop := rb_block rb = b /\ rb_func rb = Some f.
(** A moved block that was decoded and has no edges yet. *)
Definition decoded (f : func_instance) (b : block_instance) (rb : RelocBlock) : Prop := createReloc b f = Some rb /\ is_block f b rb /\ rb_outs rb = [].

Lemma addRelocBlocks_run fs f l : cfg_ok fs -> f ∈ fs -> forall c, l ⊆ func_blocks f -> pm_ok fs (priorityMap_ c) ->
  exists c' new, forM l (addRelocBlock f) c = Ret (tt, c') /\ cm_blocks c' = cm_blocks c ++ new /\ cm_ins c' = cm_ins c /\ finalized_ c' = finalized_ c /\
    (forall b, b ∈ l -> exists rb, rb ∈ new /\ is_block f b rb) /\ (forall rb, rb ∈ new -> exists b, b ∈ l /\ decoded f b rb) /\ pm_ok fs (priorityMap_ c') /\
    (forall k, (k, Required) ∈ priorityMap_ c -> k.2 <> Some f -> (k, Required) ∈ priorityMap_ c').
Proof.
  intros HC Hf. induction l as [|b l IH]; intros c Hl Hpm; cbn [forM].
  { exists c, []. rewrite app_nil_r. split_and!; try done; by intros ? ?%elem_of_nil. }
  assert (b ∈ func_blocks f) as Hb by (apply Hl; by left). destruct (co_reloc _ HC f b Hf Hb) as (rb & Ec & Eb & Er & Eo).
  assert ((f, b) ∈ blocks_of fs) as Hfb by (by apply in_blocks_of).
  set (c1 := mk_cm (cm_blocks c ++ [rb]) (cm_ins c) (if wasUserAdded b then priorityMap_ c else pm_set (b, Some f) Suggested (priorityMap_ c)) (finalized_ c)).
  rewrite (bind_ret _ _ _ tt c1) by (unfold addRelocBlock; rewrite Ec; unfold c1; by destruct (wasUserAdded b)).
  assert (pm_ok fs (priorityMap_ c1)) as Hpm1 by (unfold c1; simpl; destruct (wasUserAdded b); [done|]; by apply (pm_ok_set fs _ _ f); try done; left).
  destruct (IH c1) as (c' & new & E & H1 & H2 & H3 & H4 & H5 & H6 & H7); [intros x Hx; apply Hl; by right|done|].
  exists c', (rb :: new). split_and!; try done.
  - rewrite H1. simpl. by rewrite <- app_assoc.
  - intros x [->|Hx]%elem_of_cons; [exists rb; split; [by left|done]|]. destruct (H4 x Hx) as (r & ? & ?). exists r. split; [by right|done].
  - intros r [->|Hr]%elem_of_cons; [exists b; split; [by left|done]|]. destruct (H5 r Hr) as (x & ? & ?). exists x. split; [by right|done].
  - intros k Hk Hne. apply H7; [|done]. unfold c1. simpl. destruct (wasUserAdded b); [done|]. apply (pm_set_required fs _ _ f); try done. right. intros ->. done.
Qed.

(** After the functions [pre]. *)
Record added (fs pre : list func_instance) (c : CodeMover) : Prop := {
  ad_pm : pm_ok fs (priorityMap_ c);
  ad_blocks : forall rb, rb ∈ cm_blocks c -> exists f b, (f, b) ∈ blocks_of fs /\ isInstrumentable f = true /\ decoded f b rb;
  ad_open : finalized_ c = false;
  ad_entry : forall f, f ∈ pre -> isInstrumentable f = true -> ((entryBlock f, Some f), Required) ∈ priorityMap_ c;
  ad_all : forall f b, f ∈ pre -> isInstrumentable f = true -> b ∈ func_blocks f -> exists rb, rb ∈ cm_blocks c /\ is_block f b rb
}.

Lemma addFunctions_run fs l : cfg_ok fs -> NoDup fs -> forall pre c, fs = pre ++ l -> added fs pre c -> exists c', forM l add_function c = Ret (tt, c') /\ added fs fs c'.
Proof.
  intros HC Hnd. induction l as [|f l IH]; intros pre c Ef HA; cbn [forM].
  { rewrite app_nil_r in Ef. subst pre. by exists c. }
  assert (f ∈ fs) as Hf by (rewrite Ef; set_solver).
  assert (f ∉ pre) as Hnp by (rewrite Ef in Hnd; apply NoDup_app in Hnd as (_ & Hd & _); intros Hin; apply (Hd f Hin); by left).
  enough (exists c1, add_function f c = Ret (tt, c1) /\ added fs (pre ++ [f]) c1) as (c1 & E1 & H1).
  { rewrite (bind_ret _ _ _ _ _ E1). apply (IH (pre ++ [f])); [|done]. by rewrite <- app_assoc. }
  destruct HA as [A1 A2 A4 A5 A6]. unfold add_function. destruct (isInstrumentable f) eqn:Ei; cbn [negb].
  2:{ exists c. split; [done|]. split; try done; intros g; [|intros b]; intros [Hg|Hg%list_elem_of_singleton]%elem_of_app Hi; [by apply A5|subst g; congruence|by apply A6|subst g; congruence]. }
  destruct (addRelocBlocks_run fs f (func_blocks f) HC Hf c) as (c1 & new & E & H1 & H2 & H3 & H4 & H5 & H6 & H7); [done|done|]. rewrite (bind_ret _ _ _ _ _ E).
  destruct (co_entry _ HC f Hf) as [He _]. assert ((f, entryBlock f) ∈ blocks_of fs) as Hfe by (by apply in_blocks_of).
  eexists. split; [reflexivity|]. split; simpl; try congruence.
  - apply (pm_ok_set fs _ _ f); try done. by right.
  - rewrite H1. intros rb [Hrb|Hrb]%elem_of_app; [by apply A2|]. destruct (H5 rb Hrb) as (b & Hb & Hi). exists f, b. split; [by apply in_blocks_of|done].
  - intros g [Hg|Hg%list_elem_of_singleton]%elem_of_app Hi; [|subst g; apply pm_set_self]. apply (pm_set_required fs _ _ f); try done; [|by left].
    apply H7; [by apply A5|]. simpl. intros [= ->]. done.
  - rewrite H1. intros g b [Hg|Hg%list_elem_of_singleton]%elem_of_app Hi Hb.
    + destruct (A6 g b Hg Hi Hb) as (rb & ? & ?). exists rb. split; [apply elem_of_app; by left|done].
    + subst g. destruct (H4 b Hb) as (rb & ? & ?). exists rb. split; [apply elem_of_app; by right|done].
Qed.

(** ** Finding a block *)

Lemma find_block_some bbl func l : forall i j, find_block bbl func i l = Some j -> exists k b, j = (i + k)%nat /\ l !! k = Some b /\ rb_block b = bbl /\ rb_func b = func.
Proof.
  induction l as [|b l IH]; intros i j; simpl; [done|]. destruct (find_block bbl func (S i) l) as [j'|] eqn:E.
  - intros [= <-]. destruct (IH _ _ E) as (k & b' & -> & Hk & ?). exists (S k), b'. split; [lia|done].
  - destruct (bool_decide _ && bool_decide _) eqn:Eb; [|done]. intros [= <-]. apply andb_prop in Eb as [E1%bool_decide_eq_true E2%bool_decide_eq_true]. exists 0%nat, b. split; [lia|done].
Qed.
Lemma find_block_none bbl func l k b : forall i, find_block bbl func i l = None -> l !! k = Some b -> rb_block b = bbl -> rb_func b = func -> False.
Proof.
  revert k. induction l as [|x l IH]; intros k i; simpl; [done|]. destruct (find_block bbl func (S i) l) as [j'|] eqn:E; [done|]. intros Hf Hk E1 E2. destruct k as [|k]; simpl in Hk.
  - injection Hk as ->. by rewrite !bool_decide_eq_true_2 in Hf by done.
  - by apply (IH k (S i)).
Qed.
(** ** Linking *)

Definition shape (c : CodeMover) : list pkey := (fun b => (rb_block b, rb_func b)) <$> cm_blocks c.

Lemma shape_lookup c c' i b : shape c' = shape c -> cm_blocks c !! i = Some b -> exists b', cm_blocks c' !! i = Some b' /\ rb_block b' = rb_block b /\ rb_func b' = rb_func b.
Proof.
  intros E Eb. assert (shape c' !! i = Some (rb_block b, rb_func b)) as E' by (rewrite E; unfold shape; by rewrite list_lookup_fmap, Eb).
  unfold shape in E'. rewrite list_lookup_fmap in E'. destruct (cm_blocks c' !! i) as [b'|]; [|done]. simpl in E'. injection E' as E1 E2. by exists b'.
Qed.
Lemma shape_set_outs c i b o : cm_blocks c !! i = Some b ->
  (fun b => (rb_block b, rb_func b)) <$> <[i := set_outs o b]> (cm_blocks c) = shape c.
Proof. intros Eb. unfold shape. rewrite list_fmap_insert. apply list_insert_id. by rewrite list_lookup_fmap, Eb. Qed.
Lemma shape_length c c' : shape c' = shape c -> length (cm_blocks c') = length (cm_blocks c).
Proof. intros E. apply (f_equal length) in E. unfold shape in E. by rewrite !length_fmap in E. Qed.

(** Which block is found does not depend on the edges. *)
Lemma find_shape bbl func c c' : shape c' = shape c -> findSpringboard bbl func c' = findSpringboard bbl func c.
Proof.
  unfold findSpringboard, shape. generalize 0%nat. generalize (cm_blocks c'). induction (cm_blocks c) as [|b l IH]; intros [|b' l'] i E; try done.
  cbn [fmap list_fmap] in E. injection E as E1 E2 E3. simpl. by rewrite (IH l' (S i) E3), E1, E2.
Qed.

(** What the edge [e] of the graph becomes: an edge out of the moved block [b], and
    those into moved blocks. *)
Definition out_trg (c : CodeMover) (b : RelocBlock) (e : edge_instance) : option trg :=
  match ei_type e with
  | RET | NOEDGE => None
  | ty =>
      if ei_sink e then
        match ty with
        | CALL | COND_TAKEN | DIRECT => TAddr <$> jump_target (rb_cf b)
        | COND_NOT_TAKEN | FALLTHROUGH | CALL_FT => Some (TAddr (block_end (rb_block b)))
        | _ => None
        end
      else
        match findSpringboard (ei_trg e) (match ty with CALL => entryOfFunc (ei_trg e) | _ => rb_func b end) c with
        | Some j => Some (TReloc j)
        | None => Some (TBlock (ei_trg e))
        end
  end.
Definition out_edges (c : CodeMover) (b : RelocBlock) (l : list edge_instance) : list RelocEdge := omap (fun e => mk_edge (ei_type e) <$> out_trg c b e) l.
Definition out_ins (c : CodeMover) (b : RelocBlock) (e : edge_instance) : list (nat * InEdge) :=
  match out_trg c b e with Some (TReloc j) => [(j, mk_in (ei_type e) (Some (ei_interproc e)) true)] | _ => [] end.
Definition src_ins (c : CodeMover) (i : nat) (b : RelocBlock) (e : edge_instance) : list (nat * InEdge) :=
  match ei_type e with
  | RET | NOEDGE => []
  | ty =>
      match findSpringboard (ei_src e) (match ty with CALL => entryOfFunc (ei_src e) | _ => rb_func b end) c with
      | Some _ => []
      | None => [(i, mk_in ty (Some (ei_interproc e)) false)]
      end
  end.
Definition with_ins (x : list (nat * InEdge)) (c : CodeMover) : CodeMover := mk_cm (cm_blocks c) (cm_ins c ++ x) (priorityMap_ c) (finalized_ c).
Definition with_outs (i : nat) (b : RelocBlock) (o : list RelocEdge) (x : list (nat * InEdge)) (c : CodeMover) : CodeMover :=
  mk_cm (<[i := set_outs (rb_outs b ++ o) b]> (cm_blocks c)) (cm_ins c ++ x) (priorityMap_ c) (finalized_ c).

Lemma with_outs_nil i b c : cm_blocks c !! i = Some b -> with_outs i b [] [] c = c.
Proof. intros Eb. unfold with_outs. rewrite !app_nil_r, list_insert_id; [by destruct c|]. rewrite Eb. by destruct b. Qed.

Lemma the_block_run i b c : cm_blocks c !! i = Some b -> the_block i c = Ret (b, c).
Proof. intros Eb. unfold the_block. rewrite bind_gets, Eb. done. Qed.
Lemma make_out_run i b t e c : cm_blocks c !! i = Some b ->
  make_out i t e c = Ret (tt, with_outs i b [mk_edge (ei_type e) t] match t with TReloc j => [(j, mk_in (ei_type e) (Some (ei_interproc e)) true)] | _ => [] end c).
Proof.
  intros Eb. unfold make_out. rewrite (bind_ret _ _ _ _ _ (the_block_run i b c Eb)). unfold set_blocks, modify.
  rewrite (bind_ret _ _ _ tt (mk_cm (<[i := set_outs (rb_outs b ++ [mk_edge (ei_type e) t]) b]> (cm_blocks c)) (cm_ins c) (priorityMap_ c) (finalized_ c)) eq_refl).
  unfold with_outs. destruct t; [done|by rewrite app_nil_r..].
Qed.

Lemma processEdge_in i b e c : cm_blocks c !! i = Some b -> ei_sink e = false -> processEdge false i e c = Ret (tt, with_ins (src_ins c i b e) c).
Proof.
  intros Eb Es. unfold processEdge, src_ins. assert (with_ins [] c = c) as E0 by (unfold with_ins; rewrite app_nil_r; by destruct c).
  destruct (ei_type e) eqn:Et; try (by rewrite E0); rewrite (bind_ret _ _ _ _ _ (the_block_run i b c Eb)), Es, bind_gets; destruct (findSpringboard _ _ c);
    try (by rewrite E0); unfold make_in; by rewrite Et.
Qed.
Lemma processEdge_out i b e c : cm_blocks c !! i = Some b ->
  processEdge true i e c = Ret (tt, with_outs i b (out_edges c b [e]) (out_ins c b e) c).
Proof.
  intros Eb. unfold processEdge, out_edges, out_ins, out_trg. cbn [omap list_omap]. pose proof (with_outs_nil i b c Eb) as E0.
  destruct (ei_type e) eqn:Et; try (by simpl; rewrite E0); rewrite (bind_ret _ _ _ _ _ (the_block_run i b c Eb)); (destruct (ei_sink e);
    [rewrite (bind_ret (assertM true) _ c tt c eq_refl); try (by simpl; rewrite E0);
       try (destruct (jump_target (rb_cf b)); [|by simpl; rewrite E0]); by rewrite (make_out_run i b _ e c Eb), Et|]);
    rewrite bind_gets; destruct (findSpringboard _ _ c); by rewrite (make_out_run i b _ e c Eb), Et.
Qed.

Lemma out_trg_same c c' b b' e : shape c' = shape c -> rb_cf b' = rb_cf b -> rb_block b' = rb_block b -> rb_func b' = rb_func b -> out_trg c' b' e = out_trg c b e.
Proof. intros Hs E1 E2 E3. unfold out_trg. by rewrite E1, E2, E3, !(find_shape _ _ _ _ Hs). Qed.
Lemma outs_same c c' b b' l : shape c' = shape c -> rb_cf b' = rb_cf b -> rb_block b' = rb_block b -> rb_func b' = rb_func b ->
  out_edges c' b' l = out_edges c b l /\ l ≫= out_ins c' b' = l ≫= out_ins c b.
Proof.
  intros Hs E1 E2 E3. pose proof (fun e => out_trg_same c c' b b' e Hs E1 E2 E3) as HE.
  split; induction l as [|e l IH]; try done; [unfold out_edges in *; csimpl; by rewrite HE, IH|]. csimpl. rewrite IH. f_equal. unfold out_ins. by rewrite HE.
Qed.

Lemma ins_same c c' i b l : shape c' = shape c -> l ≫= src_ins c' i b = l ≫= src_ins c i b.
Proof. intros Hs. induction l as [|e l IH]; [done|]. csimpl. rewrite IH. f_equal. unfold src_ins. by rewrite !(find_shape _ _ _ _ Hs). Qed.

Lemma link_sources i b l : forall c, cm_blocks c !! i = Some b -> (forall e, e ∈ l -> ei_sink e = false) ->
  forM l (processEdge false i) c = Ret (tt, with_ins (l ≫= src_ins c i b) c).
Proof.
  induction l as [|e l IH]; intros c Eb Hs; cbn [forM].
  { unfold with_ins. csimpl. rewrite app_nil_r. by destruct c. }
  rewrite (bind_ret _ _ _ _ _ (processEdge_in i b e c Eb (Hs e ltac:(by left)))). rewrite (IH (with_ins (src_ins c i b e) c) Eb) by (intros x Hx; apply Hs; by right).
  unfold with_ins. csimpl. by rewrite <- app_assoc.
Qed.
Lemma link_targets i l : forall b c, cm_blocks c !! i = Some b ->
  forM l (processEdge true i) c = Ret (tt, with_outs i b (out_edges c b l) (l ≫= out_ins c b) c).
Proof.
  induction l as [|e l IH]; intros b c Eb; cbn [forM]; [csimpl; by rewrite (with_outs_nil i b c Eb)|].
  rewrite (bind_ret _ _ _ _ _ (processEdge_out i b e c Eb)). set (b1 := set_outs (rb_outs b ++ out_edges c b [e]) b). set (c1 := with_outs i b _ _ c).
  assert (cm_blocks c1 !! i = Some b1) as E1 by (apply list_lookup_insert_eq; by apply lookup_lt_Some in Eb).
  assert (shape c1 = shape c) as Hs by (by apply (shape_set_outs c)). rewrite (IH b1 c1 E1). destruct (outs_same c c1 b b1 l Hs) as [-> ->]; [done..|].
  unfold with_outs. simpl. rewrite list_insert_insert_eq, <- !app_assoc. unfold b1, set_outs, out_edges. simpl. do 2 f_equal. f_equal.
  by destruct (mk_edge (ei_type e) <$> out_trg c b e).
Qed.

(** The edges into moved blocks that linking block [i] makes. *)
Definition link_ins (c : CodeMover) (i : nat) (b : RelocBlock) : list (nat * InEdge) :=
  (sources (rb_block b) ≫= src_ins c i b) ++ (targets (rb_block b) ≫= out_ins c b).

(** Block [j] is judged by the edges that are known when it is linked. *)
Definition judged (c0 : CodeMover) (j : nat) (b : RelocBlock) : Prop :=
  (exists f, rb_func b = Some f /\ entryBlock f = rb_block b) \/
  exists i bi x, (i <= j)%nat /\ cm_blocks c0 !! i = Some bi /\ (j, x) ∈ link_ins c0 i bi /\ (in_type x = INDIRECT \/ from_outside x = true).

(** The first [k] blocks are linked and judged. *)
Record linked (fs : list func_instance) (c0 : CodeMover) (k : nat) (c : CodeMover) : Prop := {
  lk_shape : shape c = shape c0;
  lk_pm : pm_ok fs (priorityMap_ c);
  lk_required : forall q, (q, Required) ∈ priorityMap_ c0 -> (q, Required) ∈ priorityMap_ c;
  lk_done : forall j b, (j < k)%nat -> cm_blocks c0 !! j = Some b -> cm_blocks c !! j = Some (set_outs (out_edges c0 b (targets (rb_block b))) b);
  lk_rest : forall j, (k <= j)%nat -> cm_blocks c !! j = cm_blocks c0 !! j;
  lk_ins : forall i b x, (i < k)%nat -> cm_blocks c0 !! i = Some b -> x ∈ link_ins c0 i b -> x ∈ cm_ins c;
  lk_judged : forall j b, (j < k)%nat -> cm_blocks c0 !! j = Some b -> judged c0 j b -> ((rb_block b, rb_func b), Required) ∈ priorityMap_ c
}.

Section Link.
Context (fs : list func_instance) (HC : cfg_ok fs) (c0 : CodeMover).
Context (Hblocks : forall rb, rb ∈ cm_blocks c0 -> exists f b, (f, b) ∈ blocks_of fs /\ isInstrumentable f = true /\ decoded f b rb).

Lemma linkRelocBlocks_run k b c : linked fs c0 k c -> cm_blocks c0 !! k = Some b ->
  linkRelocBlocks k c = Ret (tt, mk_cm (<[k := set_outs (out_edges c0 b (targets (rb_block b))) b]> (cm_blocks c)) (cm_ins c ++ link_ins c0 k b) (priorityMap_ c) (finalized_ c)).
Proof.
  intros HL Eb. destruct (Hblocks b (list_elem_of_lookup_2 _ _ _ Eb)) as (f & x & Hin & _ & _ & [Ex _] & Eo).
  assert (cm_blocks c !! k = Some b) as Ec by (by rewrite (lk_rest _ _ _ _ HL)). pose proof (lk_shape _ _ _ _ HL) as Hs.
  unfold linkRelocBlocks. rewrite (bind_ret _ _ _ _ _ (the_block_run k b c Ec)).
  assert (forall e, e ∈ sources (rb_block b) -> ei_sink e = false) as Hk by (intros e He; rewrite Ex in He; exact (co_sources _ HC _ _ Hin He)).
  rewrite (bind_ret _ _ _ _ _ (link_sources k b _ c Ec Hk)).
  set (c1 := with_ins _ c). rewrite (link_targets k _ b c1 Ec). assert (shape c1 = shape c0) as Hs1 by done. destruct (outs_same c0 c1 b b (targets (rb_block b)) Hs1) as [-> ->]; [done..|].
  unfold with_outs, link_ins. rewrite Eo. simpl. rewrite <- app_assoc. do 5 f_equal. by apply ins_same.
Qed.

Lemma determineSpringboards_run k b c : pm_ok fs (priorityMap_ c) -> cm_blocks c !! k = Some b -> (exists f, rb_func b = Some f /\ (f, rb_block b) ∈ blocks_of fs) ->
  exists p, determineSpringboards k c = Ret (tt, mk_cm (cm_blocks c) (cm_ins c) p (finalized_ c)) /\ pm_ok fs p /\
    (forall q, (q, Required) ∈ priorityMap_ c -> (q, Required) ∈ p) /\
    ((exists f, rb_func b = Some f /\ entryBlock f = rb_block b) \/ (exists x, (k, x) ∈ cm_ins c /\ (in_type x = INDIRECT \/ from_outside x = true)) ->
     ((rb_block b, rb_func b), Required) ∈ p).
Proof.
  intros Hpm Eb (f & Ef & Hin). unfold determineSpringboards. rewrite (bind_ret _ _ _ _ _ (the_block_run k b c Eb)), bind_gets.
  assert (forall x, (k, x) ∈ cm_ins c -> x ∈ ins_of k c) as Hins.
  { intros x Hx. unfold ins_of. apply list_elem_of_fmap. exists (k, x). split; [done|]. by apply list_elem_of_filter. }
  set (p := pm_set (rb_block b, rb_func b) Required (priorityMap_ c)).
  assert (pm_ok fs p /\ (forall q, (q, Required) ∈ priorityMap_ c -> (q, Required) ∈ p) /\ ((rb_block b, rb_func b), Required) ∈ p) as (S1 & S2 & S3).
  { unfold p. split_and!; [apply (pm_ok_set fs _ _ f); try done; by right| |apply pm_set_self]. intros q Hq. apply (pm_set_required fs _ _ f); try done. by left. }
  rewrite Ef. destruct (bool_decide (entryBlock f = rb_block b)) eqn:E1; [exists p; rewrite <- Ef; by split_and!|].
  destruct (existsb (fun e => bool_decide (in_type e = INDIRECT)) (ins_of k c)) eqn:E2; [exists p; rewrite <- Ef; by split_and!|].
  destruct (existsb from_outside (ins_of k c)) eqn:E3; [exists p; rewrite <- Ef; by split_and!|].
  exists (priorityMap_ c). split_and!; [by destruct c|done|done|]. apply bool_decide_eq_false in E1. intros [(f' & [= <-] & He)|(x & Hx%Hins%list_elem_of_In & Hd)]; [done|]. exfalso.
  destruct Hd as [Hd|Hd]; [apply not_true_iff_false in E2; apply E2|apply not_true_iff_false in E3; apply E3]; apply existsb_exists; exists x; (split; [done|]); [by apply bool_decide_eq_true|done].
Qed.

(** One round of [finalizeRelocBlocks]. *)
Lemma link_round k c : linked fs c0 k c -> (k < length (cm_blocks c0))%nat ->
  exists c', (linkRelocBlocks k ;; determineSpringboards k) c = Ret (tt, c') /\ linked fs c0 (S k) c'.
Proof.
  intros HL Hk. pose proof (lookup_lt_is_Some_2 _ _ Hk) as [b Eb]. rewrite (bind_ret _ _ _ _ _ (linkRelocBlocks_run k b c HL Eb)). set (b1 := set_outs _ b). set (c1 := mk_cm _ _ _ _).
  destruct (Hblocks b (list_elem_of_lookup_2 _ _ _ Eb)) as (f & x & Hin & _ & _ & [Ex Ef] & _). pose proof HL as [L1 L2 L3 L4 L5 L6 L7].
  assert (cm_blocks c !! k = Some b) as Ec by (by rewrite L5). assert (cm_blocks c1 !! k = Some b1) as E1 by (apply list_lookup_insert_eq; by apply lookup_lt_Some in Ec).
  destruct (determineSpringboards_run k b1 c1 L2 E1) as (p & -> & P1 & P2 & P3); [exists f; simpl; by rewrite Ex|]. eexists. split; [reflexivity|].
  assert (forall i bi y, (i < S k)%nat -> cm_blocks c0 !! i = Some bi -> y ∈ link_ins c0 i bi -> y ∈ cm_ins c1) as Hins.
  { intros i bi y Hi Ei Hy. simpl. apply elem_of_app. destruct (decide (i = k)) as [->|Hne]; [right; congruence|left]. by apply (L6 i bi); [lia|..]. }
  split; simpl; try done.
  - rewrite <- L1. by apply (shape_set_outs c).
  - intros q Hq. by apply P2, L3.
  - intros j bj Hj Ej. destruct (decide (j = k)) as [->|Hne]; [by simplify_eq|]. rewrite list_lookup_insert_ne by done. apply L4; [lia|done].
  - intros j Hj. rewrite list_lookup_insert_ne by lia. apply L5. lia.
  - intros j bj Hj Ej HJ. destruct (decide (j = k)) as [->|Hne]; [|apply P2, (L7 j bj); [lia|done..]]. simplify_eq. apply P3.
    destruct HJ as [HJ|(i & bi & y & Hi & Ei & Hy & Hd)]; [by left|right]. exists y. split; [|done]. by apply (Hins i bi); [lia|..].
Qed.

Lemma finalizeRelocBlocks_run : pm_ok fs (priorityMap_ c0) -> finalized_ c0 = false -> exists c', finalizeRelocBlocks c0 = Ret (tt, c') /\ linked fs c0 (length (cm_blocks c0)) c'.
Proof.
  intros Hpm Hf. unfold finalizeRelocBlocks. rewrite bind_gets, Hf. unfold set_finalized, modify. rewrite (bind_ret _ _ _ tt (mk_cm (cm_blocks c0) (cm_ins c0) (priorityMap_ c0) true) eq_refl), bind_gets.
  simpl cm_blocks. assert (forall n k c, (k + n)%nat = length (cm_blocks c0) -> linked fs c0 k c ->
    exists c', forM (seq k n) (fun i => linkRelocBlocks i ;; determineSpringboards i) c = Ret (tt, c') /\ linked fs c0 (length (cm_blocks c0)) c') as Hloop.
  { induction n as [|n IH]; intros k c Hk HL; cbn [seq forM]; [exists c; split; [done|]; by replace (length _) with k by lia|].
    destruct (link_round k c HL ltac:(lia)) as (c1 & E1 & HL1). rewrite (bind_ret _ _ _ _ _ E1). apply (IH (S k)); [lia|done]. }
  apply (Hloop _ 0%nat); [done|]. split; simpl; try done; intros; lia.
Qed.
End Link.

(** ** Moved blocks and the graph *)

(** Block [j] is the copy of the block [b] of the function [g]. *)
Definition has_copy (c : CodeMover) (g : func_instance) (b : block_instance) (j : nat) : Prop := exists rb, cm_blocks c !! j = Some rb /\ is_block g b rb.

(** The function whose copy of its target an edge of [g] leads to: of a call the one
    that is called. *)
Definition callee (g : func_instance) (e : edge_instance) : option func_instance := if decide (ei_type e = CALL) then entryOfFunc (ei_trg e) else Some g.
Definition jump_type (t : edge_type) : Prop := t = CALL \/ t = COND_TAKEN \/ t = DIRECT.
Definition next_type (t : edge_type) : Prop := t = COND_NOT_TAKEN \/ t = FALLTHROUGH \/ t = CALL_FT.

(** Where an edge [e] of the block [b] of [g], whose last instruction is [w], leads in
    the moved code: to a copy of its target, to its target if there is no copy, or, if
    the graph has no target, to the address the instruction computes or the end of the
    block. *)
Inductive leads (c : CodeMover) (g : func_instance) (b : block_instance) (w : CFWidget) (e : edge_instance) : trg -> Prop :=
| leads_copy g' j : ei_sink e = false -> callee g e = Some g' -> has_copy c g' (ei_trg e) j -> leads c g b w e (TReloc j)
| leads_block : ei_sink e = false -> (forall g' j, callee g e = Some g' -> ~ has_copy c g' (ei_trg e) j) -> leads c g b w e (TBlock (ei_trg e))
| leads_jump a : ei_sink e = true -> jump_type (ei_type e) -> jump_target w = Some a -> leads c g b w e (TAddr a)
| leads_next : ei_sink e = true -> next_type (ei_type e) -> leads c g b w e (TAddr (block_end b)).

(** The edges that are control flow and whose target is known. *)
Definition followed (w : CFWidget) (e : edge_instance) : Prop :=
  ei_type e <> RET /\ ei_type e <> NOEDGE /\ (ei_sink e = true -> jump_type (ei_type e) /\ is_Some (jump_target w) \/ next_type (ei_type e)).
#[export] Instance followed_dec w e : Decision (followed w e).
Proof. unfold followed, jump_type, next_type. apply _. Defined.

(** The moved block [rb] is the decoded block [b] of [g] with the edges of the graph. *)
Definition mirrors (c : CodeMover) (g : func_instance) (b : block_instance) (rb : RelocBlock) : Prop :=
  exists rb0, createReloc b g = Some rb0 /\ rb = set_outs (rb_outs rb) rb0 /\
    Forall2 (fun e o => ed_type o = ei_type e /\ leads c g b (rb_cf rb0) e (ed_trg o)) (filter (followed (rb_cf rb0)) (targets b)) (rb_outs rb).

(** Control must be caught at the block [b] of [g]: it is the entry; or an edge comes
    from a block that has no copy in [g], by an indirect jump or otherwise neither by a
    call nor by a tail call; or an indirect jump comes from a block of [g] that has its
    copy before that of [b]. *)
Inductive caught (c : CodeMover) (g : func_instance) (b : block_instance) : Prop :=
| caught_entry : entryBlock g = b -> caught c g b
| caught_outside e : e ∈ sources b -> ei_type e <> RET -> ei_type e <> NOEDGE -> ei_type e <> CALL -> (forall j, ~ has_copy c g (ei_src e) j) ->
    ei_type e = INDIRECT \/ ~ (ei_type e = DIRECT /\ ei_interproc e = true) -> caught c g b
| caught_indirect b' i e : has_copy c g b' i -> (forall j, has_copy c g b j -> (i <= j)%nat) -> e ∈ targets b' -> ei_type e = INDIRECT -> ei_sink e = false -> ei_trg e = b ->
    caught c g b.

Section Mirror.
Context (fs : list func_instance) (HC : cfg_ok fs) (c0 c : CodeMover) (HL : linked fs c0 (length (cm_blocks c0)) c).
Context (Hblocks : forall rb, rb ∈ cm_blocks c0 -> exists f b, (f, b) ∈ blocks_of fs /\ isInstrumentable f = true /\ decoded f b rb).

Lemma copy_linked g b j : has_copy c g b j <-> has_copy c0 g b j.
Proof.
  pose proof (lk_shape _ _ _ _ HL) as Hs. unfold has_copy, is_block.
  split; intros (rb & Ej & E1 & E2); [apply (shape_lookup c c0 j rb (eq_sym Hs)) in Ej|apply (shape_lookup c0 c j rb Hs) in Ej]; destruct Ej as (rb' & Ej & E3 & E4); exists rb'; split_and!; congruence.
Qed.
Lemma find_copy b f j : findSpringboard b f c0 = Some j -> exists g, f = Some g /\ has_copy c0 g b j.
Proof.
  intros E. destruct (find_block_some _ _ _ _ _ E) as (k & rb & -> & Ek & E1 & E2). simpl in *. destruct (Hblocks rb (list_elem_of_lookup_2 _ _ _ Ek)) as (g & x & _ & _ & _ & [_ Eg] & _).
  exists g. split; [congruence|]. exists rb. split; [done|]. split; [done|]. congruence.
Qed.
Lemma find_no_copy b g j : findSpringboard b (Some g) c0 = None -> ~ has_copy c0 g b j.
Proof. intros E (rb & Ej & E1 & E2). by apply (find_block_none _ _ _ j rb _ E). Qed.

Lemma found_leads g b w e f : callee g e = f -> ei_sink e = false ->
  exists t, match findSpringboard (ei_trg e) f c0 with Some j => Some (TReloc j) | None => Some (TBlock (ei_trg e)) end = Some t /\ leads c g b w e t.
Proof.
  intros Ef Hs. destruct (findSpringboard (ei_trg e) f c0) as [j|] eqn:Ej; eexists; (split; [done|]).
  - destruct (find_copy _ _ _ Ej) as (g' & -> & Hc). apply (leads_copy _ _ _ _ _ g'); [done|done|]. by apply copy_linked.
  - apply leads_block; [done|]. intros g' j Hg' Hc%copy_linked. rewrite Hg' in Ef. subst f. by apply (find_no_copy _ _ _ Ej) in Hc.
Qed.

Lemma out_trg_leads g b rb0 e : rb_func rb0 = Some g -> rb_block rb0 = b ->
  match out_trg c0 rb0 e with Some t => followed (rb_cf rb0) e /\ leads c g b (rb_cf rb0) e t | None => ~ followed (rb_cf rb0) e end.
Proof.
  intros Eg Eb. unfold out_trg. rewrite Eg, Eb. pose proof (found_leads g b (rb_cf rb0) e (callee g e) eq_refl) as Hf. unfold followed, callee in *.
  clear HL Hblocks Eg Eb. destruct (ei_sink e) eqn:Es.
  - clear Hf. pose proof (leads_jump c g b (rb_cf rb0) e) as HJ. pose proof (leads_next c g b (rb_cf rb0) e Es) as HN. unfold jump_type, next_type in *.
    destruct (ei_type e) eqn:Et; try (split; [split_and!; [done|done|tauto]|]; apply HN; tauto);
      try (destruct (jump_target (rb_cf rb0)) as [a|] eqn:Ea; [split; [split_and!; [done|done|left; split; [tauto|done]]|]; apply HJ; tauto|]);
      intros (N1 & N2 & Hk); try done; destruct (Hk eq_refl) as [[Ht [a Ha]]|Ht]; try done; intuition discriminate.
  - destruct (ei_type e) eqn:Et; try (by intros (N1 & N2 & _)); destruct (Hf eq_refl) as (t & Ef & Hl); simpl in Ef; rewrite Ef; (split; [split_and!; done|done]).
Qed.

Lemma out_edges_mirror g b rb0 l : rb_func rb0 = Some g -> rb_block rb0 = b ->
  Forall2 (fun e o => ed_type o = ei_type e /\ leads c g b (rb_cf rb0) e (ed_trg o)) (filter (followed (rb_cf rb0)) l) (out_edges c0 rb0 l).
Proof.
  intros Eg Eb. induction l as [|e l IH]; [constructor|]. unfold out_edges in *. simpl. rewrite filter_cons. pose proof (out_trg_leads g b rb0 e Eg Eb) as He.
  destruct (out_trg c0 rb0 e) as [t|]; simpl; [destruct He as [Hf He]; rewrite decide_True by done; by constructor|by rewrite decide_False].
Qed.

Lemma linked_mirrors j rb : cm_blocks c !! j = Some rb -> exists g b, (g, b) ∈ blocks_of fs /\ isInstrumentable g = true /\ is_block g b rb /\ mirrors c g b rb.
Proof.
  intros Ej. pose proof (lookup_lt_Some _ _ _ Ej) as Hj. rewrite (shape_length _ _ (lk_shape _ _ _ _ HL)) in Hj. pose proof (lookup_lt_is_Some_2 _ _ Hj) as [rb0 E0].
  rewrite (lk_done _ _ _ _ HL j rb0 Hj E0) in Ej. injection Ej as <-. destruct (Hblocks rb0 (list_elem_of_lookup_2 _ _ _ E0)) as (g & b & Hin & Hi & Hc & [Eb Eg] & _).
  exists g, b. split_and!; [done|done|done|]. exists rb0. split_and!; [done|done|]. rewrite Eb. by apply out_edges_mirror.
Qed.

(** Control is caught where it must be. *)
Lemma link_ins_outside g b j rb e : cm_blocks c0 !! j = Some rb -> is_block g b rb -> e ∈ sources b -> ei_type e <> RET -> ei_type e <> NOEDGE -> ei_type e <> CALL ->
  (forall i, ~ has_copy c0 g (ei_src e) i) -> (j, mk_in (ei_type e) (Some (ei_interproc e)) false) ∈ link_ins c0 j rb.
Proof.
  intros Ej [Eb Eg] He N1 N2 N3 Hno. unfold link_ins. apply elem_of_app. left. apply list_elem_of_bind. exists e. rewrite Eb. split; [|done].
  unfold src_ins. rewrite Eg. destruct (findSpringboard (ei_src e) (Some g) c0) as [i|] eqn:Ei; [destruct (find_copy _ _ _ Ei) as (g' & [= <-] & Hc); by apply Hno in Hc|].
  destruct (ei_type e); try done; rewrite ?Ei; by left.
Qed.
Lemma link_ins_indirect g b' i rb e : cm_blocks c0 !! i = Some rb -> is_block g b' rb -> e ∈ targets b' -> ei_type e = INDIRECT -> ei_sink e = false ->
  forall j, has_copy c0 g (ei_trg e) j -> exists k, has_copy c0 g (ei_trg e) k /\ (k, mk_in INDIRECT (Some (ei_interproc e)) true) ∈ link_ins c0 i rb.
Proof.
  intros Ei [Eb Eg] He Et Es j Hc. destruct (findSpringboard (ei_trg e) (Some g) c0) as [k|] eqn:Ek; [|by apply (find_no_copy _ _ _ Ek) in Hc].
  destruct (find_copy _ _ _ Ek) as (g' & [= <-] & Hk). exists k. split; [done|]. unfold link_ins. apply elem_of_app. right. apply list_elem_of_bind. exists e. rewrite Eb. split; [|done].
  unfold out_ins, out_trg. rewrite Et, Es, Eg, Ek. by left.
Qed.

Lemma judged_required g b j : has_copy c0 g b j -> (forall rb, cm_blocks c0 !! j = Some rb -> judged c0 j rb) -> ((b, Some g), Required) ∈ priorityMap_ c.
Proof.
  intros (rb & Ej & Eb & Eg) HJ. pose proof (lk_judged _ _ _ _ HL j rb (lookup_lt_Some _ _ _ Ej) Ej (HJ rb Ej)) as Hr. by rewrite Eb, Eg in Hr.
Qed.
Lemma caught_required g b j : has_copy c g b j -> caught c g b -> ((b, Some g), Required) ∈ priorityMap_ c.
Proof.
  rewrite copy_linked. intros Hc [He|e He N1 N2 N3 Hno Hk|b' i e Hi Hle He Et Es Eb].
  - apply (judged_required g b j Hc). intros rb Ej. left. destruct Hc as (rb' & Ej' & E1 & E2). assert (rb' = rb) as -> by congruence. exists g. by rewrite E1.
  - apply (judged_required g b j Hc). intros rb Ej. right. destruct Hc as (rb' & Ej' & HB). assert (rb' = rb) as -> by congruence. eexists j, rb, _. split; [done|]. split; [done|].
    split; [apply (link_ins_outside g b j rb e); try done; intros i; rewrite <- copy_linked; apply Hno|]. unfold from_outside. simpl. destruct Hk as [Hk|Hk]; [by left|].
    destruct (decide (ei_type e = INDIRECT)) as [?|Hn]; [by left|right]. destruct (ei_type e) eqn:Et; try done; simpl; rewrite ?andb_false_r; try done.
    destruct (ei_interproc e); [naive_solver|done].
  - apply copy_linked in Hi as (rb' & Ei & HB). subst b. destruct (link_ins_indirect g b' i rb' e Ei HB He Et Es j Hc) as (k & Hk & Hx).
    apply (judged_required g _ k Hk). intros rb Ek. right. eexists i, rb', _. split; [apply Hle, copy_linked, Hk|]. split; [done|]. split; [exact Hx|]. by left.
Qed.
End Mirror.

(** The blocks of the functions have copies, which mirror them, and control is caught
    where it must be. *)
Record reflected (fs : list func_instance) (c : CodeMover) : Prop := {
  rf_all : forall g b, g ∈ fs -> isInstrumentable g = true -> b ∈ func_blocks g -> exists j, has_copy c g b j;
  rf_blocks : forall j rb, cm_blocks c !! j = Some rb -> exists g b, g ∈ fs /\ b ∈ func_blocks g /\ isInstrumentable g = true /\ is_block g b rb /\ mirrors c g b rb
}.

(** Everything up to the layout. *)
Definition prepare (fs : list func_instance) : res CodeMover :=
  match (addFunctions fs ;; finalizeRelocBlocks) CodeMover_new with Ret (_, c) => Ret c | Fault x => Fault x end.

Record prepared (fs : list func_instance) (c : CodeMover) : Prop := {
  pr_pm : pm_ok fs (priorityMap_ c);
  pr_blocks : forall j b, cm_blocks c !! j = Some b -> exists f, rb_func b = Some f /\ (f, rb_block b) ∈ blocks_of fs;
  pr_entry : forall f, f ∈ fs -> isInstrumentable f = true -> ((entryBlock f, Some f), Required) ∈ priorityMap_ c;
  pr_all : forall f b, f ∈ fs -> isInstrumentable f = true -> b ∈ func_blocks f -> exists j, has_copy c f b j;
  pr_caught : forall f b, f ∈ fs -> isInstrumentable f = true -> b ∈ func_blocks f -> caught c f b -> ((b, Some f), Required) ∈ priorityMap_ c
}.

Lemma prepare_run fs : cfg_ok fs -> NoDup fs ->
  exists c0 c, addFunctions fs CodeMover_new = Ret (tt, c0) /\ finalizeRelocBlocks c0 = Ret (tt, c) /\ prepare fs = Ret c /\ prepared fs c /\ reflected fs c.
Proof.
  intros HC Hnd. destruct (addFunctions_run fs fs HC Hnd [] CodeMover_new eq_refl) as (c0 & E0 & [A1 A2 A4 A5 A6]).
  { split; [split; [done|by intros ? ? ?%elem_of_nil]|by intros ? ?%elem_of_nil|done|by intros ? ?%elem_of_nil|by intros ? ? ?%elem_of_nil]. }
  destruct (finalizeRelocBlocks_run fs HC c0 A2 A1 A4) as (c & E & HL). exists c0, c. split_and!; [done|done| | |].
  { unfold prepare. by rewrite (bind_ret _ _ _ _ _ (E0 : addFunctions fs CodeMover_new = _)), E. }
  - assert (forall f b, f ∈ fs -> isInstrumentable f = true -> b ∈ func_blocks f -> exists j, has_copy c f b j) as Hall.
    { intros f b Hf Hi Hb. destruct (A6 f b Hf Hi Hb) as (rb & Hin & HB). apply list_elem_of_lookup in Hin as [j Ej]. exists j. apply (copy_linked fs c0 c HL). by exists rb. }
    split; [apply HL| | |done|].
    + intros j b Eb. destruct (linked_mirrors fs c0 c HL A2 j b Eb) as (f & x & Hin & _ & [E1 E2] & _). exists f. by rewrite E1.
    + intros f Hf Hi. by apply (lk_required _ _ _ _ HL), A5.
    + intros g b Hg Hi Hb Hc. destruct (Hall g b Hg Hi Hb) as [j Hj]. by apply (caught_required fs c0 c HL A2 g b j).
  - split.
    + intros g b Hg Hi Hb. destruct (A6 g b Hg Hi Hb) as (rb & Hin & HB). apply list_elem_of_lookup in Hin as [j Ej]. exists j. apply (copy_linked fs c0 c HL). by exists rb.
    + intros j rb Ej. destruct (linked_mirrors fs c0 c HL A2 j rb Ej) as (g & b & [Hg Hb]%in_blocks_of & Hi & HB & HM). by exists g, b.
Qed.

End Mover.
