(* ===== verification/RelocateMap.v ===== *)
(** * The requests of CodeMover

    [sBoardMap] makes one request of every entry of the priority map whose block was
    moved, at the address of the block and to the address of its label. *)
From stdpp Require Import base gmap list.
From S2P Require Import Prelude CodeGen CodeTracker CodeTrackerOk CodeBuffer RelocPatch RelocBlock RelocBlockOk Springboard SpringboardOk SpringboardGen SpringboardFunc Relocate RelocateOk.
Import codegen codeTracker codeBuffer relocation relocBlock springboard codeMover.

(** ** Maps in order *)

Fixpoint ascending {A} (l : list (Z * A)) : Prop := match l with [] => True | x :: l' => (forall y, y ∈ l' -> x.1 < y.1) /\ ascending l' end.
Lemma map_set_ascending {A} k (v : A) l : ascending l -> ascending (map_set k v l).
Proof.
  induction l as [|[k' v'] l IH]; [simpl; split; [by intros ? ?%elem_of_nil|done]|]. intros [H1 H2]. simpl in *. destruct (k <? k') eqn:E1; [|destruct (k =? k') eqn:E2]; zbool.
  - split; [|by split]. intros y [->|Hy]%elem_of_cons; [done|]. specialize (H1 y Hy). simpl. lia.
  - subst k'. by split.
  - split; [|by apply IH]. intros y Hy. apply map_set_in in Hy as [->|Hy]; [simpl; lia|by apply H1].
Qed.
Lemma map_set_new {A} k (v : A) l x : map_get k l = None -> x ∈ map_set k v l <-> x = (k, v) \/ x ∈ l.
Proof.
  induction l as [|[k' v'] l IH]; simpl; [set_solver|]. destruct (k =? k') eqn:E2; [done|]. intros Hg. destruct (k <? k'); [set_solver|]. rewrite !elem_of_cons, (IH Hg). tauto.
Qed.
Lemma map_get_in {A} k (l : list (Z * A)) v : map_get k l = Some v -> (k, v) ∈ l.
Proof. induction l as [|[k' v'] l IH]; simpl; [done|]. destruct (k =? k') eqn:E; zbool; [intros [= ->]; subst; by left|]. intros Hv. right. by apply IH. Qed.

Lemma descending_snoc l x : descending l -> (forall y, y ∈ l -> x.1 < y.1) -> descending (l ++ [x]).
Proof.
  induction l as [|y l IH]; simpl; [intros _ _; split; [by intros ? ?%elem_of_nil|done]|]. intros [H1 H2] Hx. split.
  - intros z [Hz|Hz%list_elem_of_singleton]%elem_of_app; [by apply H1|]. subst z. apply Hx. by left.
  - apply IH; [done|]. intros z Hz. apply Hx. by right.
Qed.
Lemma ascending_reverse (l : list (Z * SpringboardReq)) : ascending l -> descending (reverse l).
Proof.
  induction l as [|x l IH]; [done|]. intros [H1 H2]. rewrite reverse_cons. apply descending_snoc; [by apply IH|]. intros y Hy. rewrite elem_of_reverse in Hy. by apply H1.
Qed.

(** ** Blocks that start at different addresses *)

Section Requests.
Context {parse : Parse} {cfg : Cfg}.
Context (fs : list func_instance) (HP : parsed fs) (HC : cfg_ok fs) (c : CodeMover) (f : Z -> Z) (s : CodeBuffer patch).
Context (Hlab : forall j, (j < length (cm_blocks c))%nat -> getLabelAddr (lbl j) s = Ret (f (lbl j), s)).

Lemma start_inj x y : x ∈ blocks_of fs -> y ∈ blocks_of fs -> b_start x.2 = b_start y.2 -> x = y.
Proof.
  intros Hx Hy E. pose proof (pd_blocks _ HP x Hx). pose proof (pd_blocks _ HP y Hy). apply list_elem_of_lookup in Hx as [i Hi], Hy as [j Hj].
  destruct (decide (i = j)) as [->|Hne]; [congruence|]. destruct (pd_disjoint _ HP i j x y Hi Hj Hne); lia.
Qed.

(** The request of an entry. *)
Definition req_of (e : block_instance * option func_instance * Priority) : option (Z * SpringboardReq) :=
  let '(bbl, func, p) := e in
  if wasUserAdded bbl then None else
  j ← findSpringboard bbl func c ; Some (b_start bbl, SpringboardReq_new (b_start bbl) (f (lbl j)) p func (Some bbl) true true false false).

Definition map_of (l : PriorityMap) (m : SpringboardMap) : Prop :=
  forall p, ascending (at_priority p m) /\ forall kr, kr ∈ at_priority p m <-> exists e, e ∈ l /\ e.2 = p /\ req_of e = Some kr.

Lemma sboard_reqs_run l : forall pre m, pm_ok fs (pre ++ l) -> map_of pre m -> (forall e, e ∈ l -> 0 < b_start e.1.1) ->
  exists m', sboard_reqs c (seqZ 1 (Z.of_nat (length (cm_blocks c)))) l m s = Ret (m', s) /\ map_of (pre ++ l) m'.
Proof.
  induction l as [|[[bbl func] p] l IH]; intros pre m Hpm Hm Hpos; cbn [sboard_reqs]; [exists m; by rewrite app_nil_r|].
  assert (forall m', map_of (pre ++ [(bbl, func, p)]) m' -> exists m'', sboard_reqs c (seqZ 1 (Z.of_nat (length (cm_blocks c)))) l m' s = Ret (m'', s) /\ map_of (pre ++ (bbl, func, p) :: l) m'') as Hnext.
  { intros m' Hm'. destruct (IH (pre ++ [(bbl, func, p)]) m') as (m'' & E & Hm''); [by rewrite <- app_assoc|done|intros e He; apply Hpos; by right|]. exists m''. split; [done|]. by rewrite <- app_assoc in Hm''. }
  assert (req_of (bbl, func, p) = None -> map_of (pre ++ [(bbl, func, p)]) m) as Hskip.
  { intros En q. destruct (Hm q) as [H1 H2]. split; [done|]. intros kr. rewrite H2. split; [intros (e & He & ?); exists e; split; [set_solver|done]|].
    intros (e & [He|He%list_elem_of_singleton]%elem_of_app & E1 & E2); [by exists e|]. subst e. congruence. }
  destruct (wasUserAdded bbl) eqn:Eu; [apply Hnext, Hskip; simpl; by rewrite Eu|].
  destruct (findSpringboard bbl func c) as [j|] eqn:Ef; [|apply Hnext, Hskip; simpl; by rewrite Eu, Ef].
  destruct (find_block_some _ _ _ _ _ Ef) as (k & b & -> & Ek & _). simpl in Ef. pose proof (lookup_lt_Some _ _ _ Ek) as Hk.
  rewrite lookup_seqZ_lt by lia. replace (1 + Z.of_nat (0 + k)) with (lbl k) by (unfold lbl; lia). rewrite (bind_ret _ _ _ _ _ (Hlab k Hk)).
  set (r := SpringboardReq_new (b_start bbl) (f (lbl k)) p func (Some bbl) true true false false).
  assert (req_of (bbl, func, p) = Some (b_start bbl, r)) as Er by (simpl; by rewrite Eu, Ef).
  assert (map_get (b_start bbl) (at_priority p m) = None) as Hnone.
  { destruct (map_get _ _) as [r0|] eqn:Eg; [|done]. apply map_get_in, (Hm p) in Eg as ([[b' f'] p'] & He & Hp' & Er'). simpl in Hp', Er'. subst p'. destruct (wasUserAdded b'); [done|].
    destruct (findSpringboard b' f' c); [|done]. injection Er' as E1 _. destruct Hpm as [Hs Hl]. 
    destruct (Hl (b', f') p) as (g' & Eg' & Hin' & _); [set_solver|]. destruct (Hl (bbl, func) p) as (g & Eg & Hin & _); [set_solver|]. simpl in *.
    pose proof (start_inj _ _ Hin' Hin E1) as [= -> ->]. rewrite <- Eg in Eg'. subst f'.
    exfalso. clear -Hs He. induction pre as [|e pre IH]; [by apply elem_of_nil in He|]. destruct Hs as [Hs1 Hs2]. apply elem_of_cons in He as [<-|He]; [|by apply IH].
    specialize (Hs1 (bbl, func, p) ltac:(set_solver)). apply pm_lt_iff in Hs1. simpl in Hs1. lia. }
  pose proof (Hpos _ ltac:(by left)) as Hb0. simpl in Hb0.
  assert (addFromOrigCode (b_start bbl) (f (lbl k)) p func bbl m = Ret (set_req p (b_start bbl) r m)) as -> by (unfold addFromOrigCode; by rewrite Hnone).
  apply Hnext. intros q. rewrite at_priority_set. destruct (Hm q) as [H1 H2]. case_decide as Hq.
  - subst q. split; [by apply map_set_ascending|]. intros kr. rewrite (map_set_new _ _ _ _ Hnone), H2. split.
    + intros [->|(e & He & ?)]; [exists (bbl, func, p); split; [set_solver|done]|exists e; split; [set_solver|done]].
    + intros (e & [He|He%list_elem_of_singleton]%elem_of_app & E1 & E2); [right; by exists e|]. subst e. left. congruence.
  - split; [done|]. intros kr. rewrite H2. split; [intros (e & He & ?); exists e; split; [set_solver|done]|].
    intros (e & [He|He%list_elem_of_singleton]%elem_of_app & E1 & E2); [by exists e|]. subst e. simpl in E1. done.
Qed.

Lemma sBoardMap_run : pm_ok fs (priorityMap_ c) ->
  exists m, sBoardMap c (seqZ 1 (Z.of_nat (length (cm_blocks c)))) s = Ret (m, s) /\ map_of (priorityMap_ c) m.
Proof.
  intros Hpm. apply (sboard_reqs_run (priorityMap_ c) [] []); [done| |].
  - intros p. split; [done|]. intros kr. split; [by intros ?%elem_of_nil|]. by intros (e & ?%elem_of_nil & _).
  - intros [[b o] p] He. destruct Hpm as [_ Hl]. destruct (Hl (b, o) p He) as (g & _ & Hin & _). by apply (pd_blocks _ HP) in Hin as [[? _] _].
Qed.
End Requests.
