(* ===== verification/RelocateMem.v ===== *)
(** * Functions run moved

    The theorem that joins the parts: after functions were moved, their moved code is
    in memory, keeps its control flow, and is entered from the original code. *)
From stdpp Require Import base gmap list.
From S2P Require Import Prelude CodeGen CodeGenOk CodeTracker CodeTrackerOk CodeBuffer CodeBufferOk CodeLayout CodeBuild CodeTrace RelocPatch RelocPatchOk RelocBlock RelocBlockOk RelocMove Springboard SpringboardOk SpringboardGen SpringboardFunc Relocate RelocateGen RelocateOk RelocateMap.
Import codegen codeTracker codeBuffer relocation relocBlock springboard codeMover.

(** ** The ranges of the functions *)

Section Ranges.
Context {parse : Parse}.

(** The bytes of the blocks and of the padding behind them. *)
Definition code_of (fs : list func_instance) (x : Z) : Prop := exists y, y ∈ blocks_of fs /\ b_start y.2 <= x < ext_end y.
Definition own_of (t : ranges) (x : Z) : option func_instance := match find_range x t with Some (_, _, st) => si_func st | None => None end.
Definition id_of (fs : list func_instance) (o : option func_instance) : Z := match o with Some f => number fs f | None => 1 end.

Lemma id_of_pos fs o : 1 <= id_of fs o.
Proof. destruct o as [f|]; simpl; [apply number_pos|lia]. Qed.
Lemma own_of_entry a t e x : ordered a t -> e ∈ t -> inside e x -> own_of t x = si_func (info e).
Proof. destruct e as [l [u st]]. intros Ho He Hi. unfold own_of. by rewrite (proj2 (find_range_iff a t x l u st Ho) (conj He Hi)). Qed.

Lemma filled_ranges fs i : parsed fs -> filled (number fs) (blocks_of fs) i ->
  ranges_ok (own_of (validRanges_ i)) (id_of fs) (validRanges_ i) /\ (forall e x, e ∈ validRanges_ i -> inside e x -> code_of fs x) /\
  forall y, y ∈ blocks_of fs -> own_of (validRanges_ i) (b_start y.2) = Some y.1 /\ unused (validRanges_ i) (b_start y.2).
Proof.
  intros HP [Ho Hm]. split_and!.
  - split; [done|]. intros e He. pose proof He as He'. apply Hm in He as (y & Hy & ->). destruct (pd_blocks _ HP y Hy) as (_ & ? & _). destruct (ext_end_range fs y HP Hy) as [? _]. simpl. split; [lia|].
    right. split; [done|]. intros x Hx. by rewrite (own_of_entry 1 _ _ x Ho He' Hx).
  - intros e x He Hx. apply Hm in He as (y & Hy & ->). by exists y.
  - intros y Hy. destruct (pd_blocks _ HP y Hy) as (? & _ & _). destruct (ext_end_range fs y HP Hy) as [? _]. set (e := entry_of (number fs y.1) y).
    assert (e ∈ validRanges_ i) as He by (apply Hm; by exists y). assert (inside e (b_start y.2)) as Hi by (unfold inside; simpl; lia).
    split; [by rewrite (own_of_entry 1 _ e _ Ho He Hi)|]. exists e. split_and!; try done. simpl. pose proof (number_pos fs y.1). unfold Allocated. lia.
Qed.
End Ranges.

Section Move.
Context {parse : Parse} {cfg : Cfg} {S : Type} {space : CodeSpace S} {laws : CodeSpaceLaws S} {alloc : CodeAlloc S} {alaws : CodeAllocLaws S}.

Definition with_inst (i : InstalledSpringboards) (a : AddressSpace S) : AddressSpace S := mk_as i (relocatedCode_ a) (useTraps_ a) (as_width a) (as_space a).
Definition with_trackers (ts : list CodeTracker) (a : AddressSpace S) : AddressSpace S := mk_as (installedSpringboards_ a) ts (useTraps_ a) (as_width a) (as_space a).

Lemma lift_funcs (l : list func_instance) : forall (a : AddressSpace S) i', forM l (fun f => addFunc f) (installedSpringboards_ a) = Ret (tt, i') -> createFunc l a = Ret (tt, with_inst i' a).
Proof.
  induction l as [|f l IH]; intros a i' E; [simpl in E; injection E as <-; by destruct a|]. cbn [forM] in E. apply bind_inv in E as ([] & i1 & E1 & E2).
  unfold createFunc. cbn [forM]. rewrite (bind_ret _ _ _ tt (with_inst i1 a)) by (unfold lift; simpl; by rewrite E1). by rewrite (IH (with_inst i1 a) i' E2 : forM l _ _ = _).
Qed.
Lemma createFunc_run fs (a : AddressSpace S) : parsed fs -> installedSpringboards_ a = InstalledSpringboards_new ->
  exists i, createFunc fs a = Ret (tt, with_inst i a) /\ filled (number fs) (blocks_of fs) i /\ overwrittenRelocatedCode_ i = [].
Proof.
  intros HP Ea. destruct (addFuncs_run fs fs [] InstalledSpringboards_new HP eq_refl) as (i & E & HF & [_ Q]).
  { split; [done|]. intros e. split; [by intros ?%elem_of_nil|]. by intros (x & ?%elem_of_nil & _). }
  { done. }
  exists i. split; [|done]. apply lift_funcs. by rewrite Ea.
Qed.

(** ** The requests are good *)

Context (fs : list func_instance) (HP : parsed fs) (HC : cfg_ok fs).

Lemma requests_ok c f ts own keep (s : S) base top m :
  prepared fs c -> map_of c f (priorityMap_ c) m -> 0 < base -> top < 2 ^ 63 -> (forall j, (j < length (cm_blocks c))%nat -> base <= f (lbl j) <= top) ->
  (forall x to, code_of fs x -> base <= to <= top -> at_limit x to = false) -> (forall y, y ∈ blocks_of fs -> own (b_start y.2) = Some y.1) ->
  (forall t y func, t ∈ ts -> y ∈ blocks_of fs -> origToReloc (b_start y.2) y.2 func t = None) -> input_ok own keep s ts m.
Proof.
  intros [P1 P2 P3 P4 P5] Hm Hb Ht Hf Hlow Hown Hts. destruct P1 as [_ Hpm]. split.
  - intros p Hp. destruct (Hm p) as [Ha Hin]. split; [|by apply ascending_reverse]. apply Forall_forall. intros kr Hkr. apply Hin in Hkr as ([[b o] p'] & He & Ep & Er). simpl in Ep, Er. subst p'.
    destruct (wasUserAdded b); [done|]. destruct (findSpringboard b o c) as [j|] eqn:Ej; [|done]. injection Er as <-. destruct (Hpm (b, o) p He) as (g & Eg & Hg & _). simpl in Eg. subst o.
    destruct (find_block_some _ _ _ _ _ Ej) as (k & rb & -> & Ek & _). specialize (Hf k (lookup_lt_Some _ _ _ Ek)). simpl in *.
    destruct (pd_blocks _ HP _ Hg) as (Hs & He' & _). simpl in Hs, He'. destruct (ext_end_range fs _ HP Hg) as [Hx _]. simpl in Hx.
    assert (code_of fs (b_start b)) as Hcode by (exists (g, b); split; [done|simpl; lia]).
    split; simpl; try done; [exact (Hown _ Hg)| |].
    + exists (f (lbl k)). split; [by do 3 eexists|]. split_and!; try lia. by apply Hlow.
    + exists b. split; [done|]. intros t d q Hin' Hd. exists []. split; [|by intros ? ? ?%elem_of_nil]. pose proof (Hts t (g, b) d.2.1 Hin' Hg) as Hno. simpl in Hno. unfold tracker_addrs. by rewrite Hno.
  - intros p Hp. destruct (Hm p) as [_ Hin]. apply Forall_forall. intros kr Hkr. apply Hin in Hkr as ([k p'] & He & Ep & _). simpl in Ep. subst p'. destruct (Hpm k p He) as (_ & _ & _ & Hp').
    destruct Hp as [-> | ->], Hp' as [?|?]; done.
Qed.

(** ** Moving *)

(** The address space before: nothing installed, nothing known of the blocks; the code
    of the functions can be written, there is room for the moved code below [top], and
    a jump from the code to there is none of the few that cannot be made. *)
Record movable (a : AddressSpace S) (top total : Z) : Prop := {
  mv_fresh : installedSpringboards_ a = InstalledSpringboards_new;
  mv_traps : useTraps_ a = true;
  mv_width : as_width a = 8;
  mv_mem : cs_ok (as_space a);
  mv_copies : forall t y func, t ∈ relocatedCode_ a -> y ∈ blocks_of fs -> origToReloc (b_start y.2) y.2 func t = None;
  mv_text : forall x n, 0 < n -> (forall y, x <= y < x + n -> code_of fs y) -> cs_text (as_space a) x n;
  mv_room : ca_room (as_space a) top ((total + 1) * (total + 16));
  mv_reach : forall x to, code_of fs x -> 0 < to <= top + total -> at_limit x to = false
}.
Abbreviation total c := (zsum item_cap (all_items (cm_blocks c))).
(** The moved blocks can be generated wherever memory may be. *)
Record layable (c : CodeMover) (attempts rounds : nat) (top : Z) : Prop := {
  ly_blocks : forall j b, cm_blocks c !! j = Some b -> edges_ok (cm_blocks c) b = true;
  ly_items : forall base, 0 < base <= top -> buildable (all_items (cm_blocks c)) base;
  ly_solid : solid (all_items (cm_blocks c));
  ly_rounds : 2 * total c + 1 < Z.of_nat rounds;
  ly_attempts : total c + 1 <= Z.of_nat attempts;
  ly_labels : 1 + zsum is_label (all_items (cm_blocks c)) + (4 * total c + 2) * Z.of_nat (length (all_items (cm_blocks c))) < 2 ^ 31;
  ly_top : 0 < top
}.

(** Control that comes to the entry of a function goes to its moved copy. *)
Definition enters (c : CodeMover) (f : Z -> Z) (s : S) (g : func_instance) (b : block_instance) : Prop :=
  exists j rb, cm_blocks c !! j = Some rb /\ is_block g b rb /\ arrives s (b_start b) (f (lbl j)).

Lemma code_bytes_run (s : CodeBuffer patch) bs rest : ptr s = Some ((Some <$> bs) ++ rest) -> codeBuffer.size s = Z.of_nat (length bs) -> code_bytes s = Ret bs.
Proof.
  intros Ep Es. unfold code_bytes. rewrite Ep, Es, Nat2Z.id, <- (length_fmap Some bs), take_app_length. by rewrite mapM_id_Some.
Qed.

(** Written code that is not touched stays. *)
Lemma code_at_kept (s s' : S) base bs : code_at s base bs -> (forall x c, base <= x < base + Z.of_nat (length bs) -> cs_byte s x c -> cs_byte s' x c) -> code_at s' base bs.
Proof. intros Hc Hk i c Hi. apply Hk; [|by apply Hc]. apply lookup_lt_Some in Hi. lia. Qed.

(** The memory is found, the code is in the buffer, and its trackers are known. *)
Record generated (c : CodeMover) (a a' : AddressSpace S) (top base : Z) (buf : CodeBuffer patch) (f : Z -> Z) (bs : list Z) : Prop := {
  gd_base : 0 < base <= top;
  gd_laid : laid_out (all_items (cm_blocks c)) base buf f bs;
  gd_place : new_place (as_space a) (as_space a') base (Z.of_nat (length bs));
  gd_rest : installedSpringboards_ a' = installedSpringboards_ a /\ useTraps_ a' = useTraps_ a /\ as_width a' = as_width a;
  gd_trackers : exists t, relocatedCode_ a' = take (pred (length (relocatedCode_ a))) (relocatedCode_ a) ++ [t] /\ origToReloc_ t = ∅;
  gd_labels : forall j, (j < length (cm_blocks c))%nat -> base <= f (lbl j) <= base + total c /\ getLabelAddr (lbl j) buf = Ret (f (lbl j), buf)
}.
Lemma generateCode_run a near attempts rounds top c : layable c attempts rounds top -> as_width a = 8 -> cs_ok (as_space a) ->
  ca_room (as_space a) top ((total c + 1) * (total c + 16)) ->
  exists base f bs buf a', generateCode c near attempts rounds a = Ret ((base, seqZ 1 (Z.of_nat (length (cm_blocks c))), buf), a') /\ generated c a a' top base buf f bs.
Proof.
  intros [Y1 Y2 Y3 Y4 Y5 Y6 Y7] Hw Hok Hroom. pose proof (item_cap_nonneg (all_items (cm_blocks c))) as Hn0.
  destruct (mover_initialize_run (cm_blocks c) 8 (codeGen_new 8) top eq_refl (fun j b Ej => edges_ok_block (cm_blocks c) j b (Y1 j b Ej)) (Y2 top ltac:(lia))) as (buf0 & E0 & HB). pose proof (built_standing _ _ HB) as HS.
  pose proof (sd_size _ _ HS) as Hsz. assert (total c < 2 ^ 30) as Ht by (pose proof (ba_total _ _ (Y2 top ltac:(lia))); unfold codeGenPadding in *; lia).
  destruct (generate_tries_run (all_items (cm_blocks c)) top near rounds Y2 Y3 Y4 Ht attempts buf0 a HS Hok) as (base & f & bs & buf & s' & E & Hb & HL & HN).
  { unfold size. lia. } { rewrite (slack_built _ _ HB), (bu_next _ _ HB). unfold size. nia. }
  { eapply ca_room_less; [exact Hroom|]. unfold size. nia. }
  pose proof (ba_top _ _ (Y2 base Hb)) as Htop. pose proof HL as [L1 L2 L3 L4 L5 L6 L7].
  pose proof (extractTrackers_run (buffers_ buf) CodeTracker_new base L7 ltac:(lia) ltac:(lia) ltac:(lia)) as E5. set (t := collect CodeTracker_new _) in E5.
  exists base, f, bs, buf. eexists. split.
  - unfold generateCode. rewrite bind_gets, Hw. rewrite (bind_ret _ _ _ _ a) by (unfold of_res; by rewrite (E0 : mover_initialize _ (fun j => Z.of_nat j + 1) _ _ = _)). cbn [negb].
    rewrite (bind_ret _ _ _ _ _ E). cbn [fst snd]. rewrite (bind_ret _ _ _ (true, t) (with_space s' a)) by (unfold of_res; by rewrite E5). reflexivity.
  - split; try done; [by exists t|]. intros j Hj.
    pose proof (laid_label_range f (all_items (cm_blocks c)) 1 base bs _ (lbl j) L1) as Hr. rewrite labels_all in Hr. split; [unfold lbl in *; lia|].
    apply L6. rewrite labels_all. unfold lbl. lia.
Qed.

Lemma index_code_run (a : AddressSpace S) l t : relocatedCode_ a = l ++ [t] ->
  index_code a = Ret (tt, with_trackers (l ++ [foldl index_one t (trackers_ t)]) a).
Proof.
  intros E. unfold index_code. rewrite bind_gets, E, last_snoc. rewrite (bind_ret _ _ _ (tt, foldl index_one t (trackers_ t)) a eq_refl). cbn [snd].
  unfold last_tracker, modify. rewrite E, length_app, Nat.add_1_r. simpl pred. by rewrite take_app_length.
Qed.

(** What is known once the code is written and the springboards are installed. *)
Definition entered (c : CodeMover) (f : Z -> Z) (s : S) : Prop :=
  forall g b, g ∈ fs -> ((b, Some g), Required) ∈ priorityMap_ c -> wasUserAdded b = false -> (exists j, has_copy c g b j) -> enters c f s g b.

(** The springboards of the batch [m] that was made of [c]. *)
Lemma all_written_entered c f m (s s' : S) keep : map_of c f (priorityMap_ c) m -> all_written (code_of fs) keep m s s' -> entered c f s'.
Proof.
  intros Hm (ps & Q1 & Q2 & _) g b Hg Hreq Hu (j & rb & Ej & Eb & Er). destruct (findSpringboard b (Some g) c) as [k|] eqn:Ek; [|exfalso; by apply (find_block_none _ _ _ j rb _ Ek)].
  destruct (find_block_some _ _ _ _ _ Ek) as (k' & rb' & -> & Ek' & Eb' & Er'). simpl in Ek. exists k', rb'. split; [done|]. split; [done|].
  destruct (Hm Required) as [_ Hin]. destruct (Q2 (b_start b, SpringboardReq_new (b_start b) (f (lbl k')) Required (Some g) (Some b) true true false false)) as (q & to & Hq & (k1 & f1 & rest1 & Ed) & Ef1 & Et1).
  { apply Hin. exists (b, Some g, Required). split_and!; try done. simpl. by rewrite Hu, Ek. }
  simpl in Ed, Ef1. injection Ed as _ _ <- _. rewrite <- Ef1, <- Et1. by apply Q1.
Qed.

(** The batch of [c] in the address space [a], in which its code is written. *)
Lemma batch_run a i c f buf base top ts :
  prepared fs c -> filled (number fs) (blocks_of fs) i -> overwrittenRelocatedCode_ i = [] ->
  installedSpringboards_ a = i -> relocatedCode_ a = ts -> useTraps_ a = true -> as_width a = 8 -> cs_ok (as_space a) ->
  (forall x n, 0 < n -> (forall y, x <= y < x + n -> code_of fs y) -> cs_text (as_space a) x n) ->
  0 < base -> top < 2 ^ 63 -> (forall j, (j < length (cm_blocks c))%nat -> base <= f (lbl j) <= top /\ getLabelAddr (lbl j) buf = Ret (f (lbl j), buf)) ->
  (forall x to, code_of fs x -> base <= to <= top -> at_limit x to = false) ->
  (forall t y func, t ∈ ts -> y ∈ blocks_of fs -> origToReloc (b_start y.2) y.2 func t = None) ->
  exists m a', sBoardMap c (seqZ 1 (Z.of_nat (length (cm_blocks c)))) buf = Ret (m, buf) /\ patchCode m a = Ret (true, a') /\ relocatedCode_ a' = ts /\
    entered c f (as_space a') /\ (forall x y, ~ code_of fs x -> cs_byte (as_space a') x y <-> cs_byte (as_space a) x y).
Proof.
  intros HPr HF Eo Ei Ets Hut Hw Hok Htx Hb Ht Hlab Hlim Hts. destruct (filled_ranges fs i HP HF) as (R1 & R2 & R3). set (keep := fun _ : Z => True).
  destruct (sBoardMap_run fs HP HC c f buf (fun j Hj => proj2 (Hlab j Hj)) (pr_pm _ _ HPr)) as (m & E7 & Hm).
  assert (ready (own_of (validRanges_ i)) (id_of fs) (code_of fs) keep a) as HR by (split; rewrite ?Ei; try done; [apply id_of_pos|by rewrite Eo]).
  assert (input_ok (own_of (validRanges_ i)) keep (as_space a) (relocatedCode_ a) m) as HI.
  { rewrite Ets. apply (requests_ok c f _ _ _ _ base top); try done; [intros j Hj; by apply Hlab|by intros y Hy; apply R3]. }
  destruct (patchCode_run _ _ _ _ a m HR HI) as (ok & a5 & E8 & HR5 & Hok5 & _ & Ht5 & Hw5).
  assert (ok = true) as ->.
  { apply Hok5; [done|]. intros kr Hkr. rewrite Ei. destruct (Hm Required) as [_ Hin]. apply Hin in Hkr as ([[b o] p] & He & _ & Er). simpl in Er. destruct (wasUserAdded b); [done|].
    destruct (findSpringboard b o c); [|done]. injection Er as <-. destruct (proj2 (pr_pm _ _ HPr) (b, o) p He) as (g & _ & Hg & _). by apply (R3 (g, b)). }
  exists m, a5. split_and!; [done|done|congruence|by apply (all_written_entered c f m (as_space a) (as_space a5) keep)|].
  destruct Hw5 as (ps & _ & _ & _ & _ & Q5 & Q6). intros x y Hnc. apply Q5. intros q Hq Hwi. specialize (Q6 q x Hq Hwi). by destruct (pl_reloc q).
Qed.

(** The code in the buffer is written to the new place. *)
Lemma place_code a a3 c top base buf f bs : generated c a a3 top base buf f bs -> cs_ok (as_space a) ->
  (forall x n, 0 < n -> (forall y, x <= y < x + n -> code_of fs y) -> cs_text (as_space a) x n) ->
  exists s1, code_bytes buf = Ret bs /\ writeTextSpace base bs (as_space a3) = Ret (true, s1) /\ cs_ok s1 /\ code_at s1 base bs /\
    (forall x n, 0 < n -> (forall y, x <= y < x + n -> code_of fs y) -> cs_text s1 x n) /\
    (forall x, code_of fs x -> ~ base <= x < base + Z.of_nat (length bs)) /\
    (forall x y, cs_text (as_space a) x 1 -> cs_byte s1 x y <-> cs_byte (as_space a) x y).
Proof.
  intros [D1 D2 [N1 N2 N3] D4 D5 D6] Hok Htx. destruct D2 as [_ [rest L2] L3 _ _ _ _].
  destruct (cs_write_law (as_space a3) base bs (fr_ok _ _ _ _ N1)) as (s1 & E & W1 & W2 & W3 & W4); [intros Hnb; apply N3; destruct bs; [done|simpl length in *; lia]|].
  assert (forall x, code_of fs x -> ~ base <= x < base + Z.of_nat (length bs)) as Hd.
  { intros x Hx Hr. destruct (N2 x 1 ltac:(lia)); [|lia|lia]. apply Htx; [lia|]. intros y Hy. by replace y with x by lia. }
  exists s1. split_and!; try done.
  - by apply (code_bytes_run buf bs rest).
  - intros k y Hy. pose proof (lookup_lt_Some _ _ _ Hy). apply W4. rewrite decide_True by lia. by replace (Z.to_nat (base + Z.of_nat k - base)) with k by lia.
  - intros x n Hn Hx. apply W2, (fr_text _ _ _ _ N1); [done|by apply Htx|]. apply N2; [done|]. by apply Htx.
  - intros x y Hx. pose proof (N2 x 1 ltac:(lia) Hx) as Ha. rewrite W4, decide_False by (destruct Ha; lia). by apply (fr_byte _ _ _ _ N1).
Qed.

Lemma relocateInt_run a near attempts rounds top c : fs <> [] -> prepare fs = Ret c -> layable c attempts rounds top -> movable a top (total c) ->
  exists base f bs a', relocateInt fs near attempts rounds a = Ret (true, a') /\ 0 < base <= top /\ code_at (as_space a') base bs /\
    (forall j b, cm_blocks c !! j = Some b -> block_moved f base bs j b) /\ entered c f (as_space a') /\
    (forall x y, cs_text (as_space a) x 1 -> ~ code_of fs x -> cs_byte (as_space a') x y <-> cs_byte (as_space a) x y).
Proof.
  intros Hne Hprep HY [V1 V2 V3 V4 V5 V6 V7 V8]. destruct (prepare_run fs HC (pd_funcs _ HP)) as (c0 & c' & E0 & E1 & E2 & HPr & _). assert (c' = c) as -> by congruence.
  set (a1 := with_trackers (relocatedCode_ a ++ [CodeTracker_new]) a). destruct (createFunc_run fs a1 HP V1) as (i & E3 & HF & Eo). set (a2 := with_inst i a1) in *.
  destruct (generateCode_run a2 near attempts rounds top c HY V3 V4 V7) as (base & f & bs & buf & a3 & E4 & HG). pose proof HG as [D1 D2 D3 (D4 & D4' & D4'') (t & D5 & D5') D6].
  simpl in D5. rewrite length_app, Nat.add_1_r in D5. simpl pred in D5. rewrite take_app_length in D5.
  destruct (place_code a2 a3 c top base buf f bs HG V4 V6) as (s1 & Eb & E5 & K1 & K2 & K3 & K4 & K5). set (a4 := with_space s1 a3).
  pose proof (ba_top _ _ (ly_items _ _ _ _ HY base D1)) as Htop. pose proof (item_cap_nonneg (all_items (cm_blocks c))) as Hn0.
  destruct (batch_run a4 i c f buf base (base + total c) (relocatedCode_ a ++ [t])) as (m & a5 & E6 & E7 & T5 & He & Hr); simpl; try done; try congruence; try lia.
  { by rewrite D4'. } { by rewrite D4''. }
  { intros x to Hx Hto. apply V8; [done|lia]. }
  { intros t' y func [Ht|Ht%list_elem_of_singleton]%elem_of_app Hy; [by apply V5|]. subst t'. unfold origToReloc. rewrite D5'. apply lookup_empty. }
  exists base, f, bs, (with_trackers (relocatedCode_ a ++ [foldl index_one t (trackers_ t)]) a5). split_and!; [|lia|lia| | |exact He|].
  - unfold relocateInt. rewrite bool_decide_eq_false_2 by done. rewrite (bind_ret (push_tracker CodeTracker_new) _ a tt a1 eq_refl).
    rewrite (bind_ret _ _ _ (tt, c0) a1) by (unfold of_res; by rewrite E0). rewrite (bind_ret _ _ _ _ _ E3). cbn [snd]. rewrite (bind_ret _ _ _ (tt, c) a2) by (unfold of_res; by rewrite E1). cbn [snd].
    rewrite (bind_ret _ _ _ _ _ E4). rewrite (proj2 (Z.eqb_neq base 0)) by lia. rewrite (bind_ret _ _ _ bs a3) by (unfold of_res; by rewrite Eb).
    rewrite (bind_ret _ _ _ _ _ (lift_space _ a3 _ _ E5)). cbn [negb]. rewrite (bind_ret _ _ _ (m, buf) a4) by (unfold of_res; by rewrite E6). cbn [fst].
    rewrite (bind_ret _ _ _ _ _ E7). cbn [negb]. rewrite (bind_ret _ _ _ _ _ (index_code_run a5 _ t T5)). reflexivity.
  - apply (code_at_kept s1); [done|]. intros x y Hx. apply Hr. intros Hco. by apply (K4 x Hco).
  - intros j b Ej. apply (block_moved_run (cm_blocks c) base buf f bs j b); [apply HY|by apply (ly_items _ _ _ _ HY)|done|done].
  - intros x y Hx Hnc. rewrite (Hr x y Hnc : cs_byte (as_space _) x y <-> _). by apply K5.
Qed.
End Move.

(** C16: functions are moved as a whole.  Memory is found that the generated code of
    their blocks fits in, the code is written there, and springboards are installed.
    Then every block of the functions that can be instrumented has a copy, which is the decoded block with the
    edges of the control flow graph, each leading to the copy of its target if there
    is one and to its target or its address otherwise; the moved code is in memory;
    every block of it is the code of its instructions and goes where its edges go;
    control that comes to the entry of a function, or to another block at which it
    must be caught by the edges of the graph and that was not added by a user, goes to the moved copy of that block, by
    a jump or by a trap; and no byte of text is changed but in the blocks of the
    functions with the padding behind them.  Control must be caught ([caught]) at an
    entry; at the target of an edge from a block that has no copy in the function, by an
    indirect jump or neither by a call nor by a direct tail call; and at the target of an
    indirect jump from a copy that is not behind its own.  This is [relocateInt] without
    transformers of the graph, defensive padding and adjustment of the program counters
    of threads.  Assumed: nothing is installed in the address space and no copy of the
    blocks is known, the blocks of the functions are disjoint, decoded and known to
    the parser ([parsed], [cfg_ok]), the text can be written, there is room below
    [top], no jump from there is over one of the five distances that cannot be made
    ([movable]), and the blocks can be generated at every place below [top]
    ([layable]). *)
Theorem moved_functions_are_entered {parse : Parse} {cfg : Cfg} {S : Type} {space : CodeSpace S} {laws : CodeSpaceLaws S} {alloc : CodeAlloc S} {alaws : CodeAllocLaws S}
    (fs : list func_instance) (a : AddressSpace S) (near : Z) (attempts rounds : nat) (top : Z) :
  fs <> [] -> parsed fs -> cfg_ok fs -> (forall c, prepare fs = Ret c -> layable c attempts rounds top /\ movable fs a top (zsum item_cap (all_items (cm_blocks c)))) ->
  exists c base f bs a', prepare fs = Ret c /\ relocateInt fs near attempts rounds a = Ret (true, a') /\ reflected fs c /\ code_at (as_space a') base bs /\
    (forall j b, cm_blocks c !! j = Some b -> block_moved f base bs j b) /\
    (forall g, g ∈ fs -> isInstrumentable g = true -> enters c f (as_space a') g (entryBlock g)) /\
    (forall g b, g ∈ fs -> isInstrumentable g = true -> b ∈ func_blocks g -> wasUserAdded b = false -> caught c g b -> enters c f (as_space a') g b) /\
    (forall x y, cs_text (as_space a) x 1 -> ~ code_of fs x -> cs_byte (as_space a') x y <-> cs_byte (as_space a) x y).
Proof.
  intros Hne HP HC Hc. destruct (prepare_run fs HC (pd_funcs _ HP)) as (_ & c & _ & _ & E & HPr & HR). destruct (Hc c E) as [HY HV].
  destruct (relocateInt_run fs HP HC a near attempts rounds top c Hne E HY HV) as (base & f & bs & a' & E' & _ & H1 & H2 & H3 & H4). exists c, base, f, bs, a'. split_and!; try done.
  - intros g Hg Hi. destruct (co_entry _ HC g Hg) as [Hb Hu]. apply H3; [done|by apply (pr_entry _ _ HPr)|done|by apply (pr_all _ _ HPr)].
  - intros g b Hg Hi Hb Hu Hct. apply H3; [done|by apply (pr_caught _ _ HPr)|done|by apply (pr_all _ _ HPr)].
Qed.
