(* ===== verification/RelocateDemo.v ===== *)
(** * A function of a binary, moved

    A function of two blocks in the text section of an image; witnesses that the
    theorems on springboards and on moved functions apply to it. *)
From stdpp Require Import base gmap list.
From S2P Require Import Prelude CodeGen CodeGenOk CodeTracker CodeBuffer CodeBufferOk CodeLayout CodeBuild RelocPatch RelocPatchOk RelocBlock RelocBlockOk RelocMove InfHeap InfHeapOk BinHeap BinHeapOk BinImage TrapMap TrapMapOk TrapFlush TrapProc TrapProcess TrapStatic Springboard SpringboardOk SpringboardGen SpringboardBin SpringboardFunc Relocate RelocateGen RelocateBin RelocateOk RelocateMap RelocateMem.
Import codegen codeTracker codeBuffer relocation relocBlock springboard codeMover trampTrapMappings binaryEdit.

Module demo_function.
Definition fn : func_instance := mk_func 1 0x1000.
Definition b0 : block_instance := mk_block 1 0x1000.
Definition b1 : block_instance := mk_block 2 0x1004.
Definition outside : block_instance := mk_block 7 0x1020.
Definition edge01 : edge_instance := mk_ei FALLTHROUGH false b0 b1 false.
Definition edge1 : edge_instance := mk_ei DIRECT false b1 outside false.
(** A branch to the second block from code that is not moved. *)
Definition edge_in : edge_instance := mk_ei COND_TAKEN false outside b1 false.

#[export] Instance demo_parse : Parse := {
  func_blocks _ := [b0; b1];
  block_end b := if b_id b =? 1 then 0x1004 else 0x1010;
  findBlocks _ a := if (0x1000 <=? a) && (a <? 0x1010) then [1] else [];
  region_contains _ a := (0x1000 <=? a) && (a <? 0x1040)
}.
Definition decoded (b : block_instance) (f : func_instance) : RelocBlock :=
  if b_id b =? 1 then mk_rb 0x1000 b (Some f) 0x1002 false [InsnWidget [0x31; 0xc0] 0x1000; InsnWidget [0x90] 0x1002] (mk_cfw false false false 0 None (mk_loc 0 1 (-1)) 0x1000 0 []) [] (-1)
  else mk_rb 0x1004 b (Some f) 0x1005 false [InsnWidget [0x90] 0x1004] (mk_cfw false false false 0 (Some (mk_insn [0xeb; 0x19] 0)) (mk_loc 0 1 (-1)) 0x1005 0 []) [] (-1).
#[export] Instance demo_cfg : Cfg := {
  isInstrumentable _ := true;
  entryBlock _ := b0;
  entryOfFunc b := if b_id b =? 1 then Some fn else None;
  wasUserAdded _ := false;
  sources b := if b_id b =? 2 then [edge01; edge_in] else [];
  targets b := if b_id b =? 1 then [edge01] else [edge1];
  createReloc b f := Some (decoded b f);
  jump_target _ := None
}.

Definition moved : CodeMover := match prepare [fn] with Ret c => c | Fault _ => CodeMover_new end.
Lemma prepare_moved : prepare [fn] = Ret moved.
Proof. vm_compute. reflexivity. Qed.

Lemma fn_parsed : parsed [fn].
Proof.
  assert (blocks_of [fn] = [(fn, b0); (fn, b1)]) as E by reflexivity. split; rewrite ?E.
  - intros x [->|[->|[]%elem_of_nil]%elem_of_cons]%elem_of_cons; vm_compute; done.
  - intros [|[|i]] [|[|j]] x y Hx Hy Hij; simpl in Hx, Hy; try done; injection Hx as <-; injection Hy as <-; vm_compute; [by left|by right].
  - intros x y a _ [->|[->|[]%elem_of_nil]%elem_of_cons]%elem_of_cons Ha; simpl in *; assert (0x1000 <= a < 0x1010) as Hr by (simpl in Ha; lia);
      by rewrite (proj2 (Z.leb_le _ _)), (proj2 (Z.ltb_lt _ _)) by lia.
  - apply NoDup_singleton.
  - done.
Qed.
Lemma fn_cfg : cfg_ok [fn].
Proof.
  assert (blocks_of [fn] = [(fn, b0); (fn, b1)]) as E by reflexivity. split; rewrite ?E.
  - intros f _. split; [by left|done].
  - intros f b _ _. exists (decoded b f). split; [done|]. unfold decoded. by destruct (b_id b =? 1).
  - intros x y [->|[->|[]%elem_of_nil]%elem_of_cons]%elem_of_cons [->|[->|[]%elem_of_nil]%elem_of_cons]%elem_of_cons; simpl; done.
  - intros f g Hf%list_elem_of_singleton Hg%list_elem_of_singleton _. congruence.
  - intros x e [->|[->|[]%elem_of_nil]%elem_of_cons]%elem_of_cons He; simpl in He; [by apply elem_of_nil in He|].
    by apply elem_of_cons in He as [->|[->|[]%elem_of_nil]%elem_of_cons].
Qed.
Lemma fn_ends : ext_end (fn, b0) = 0x1004 /\ ext_end (fn, b1) = 0x1010.
Proof. vm_compute. done. Qed.
Lemma fn_code x : code_of [fn] x <-> 0x1000 <= x < 0x1010.
Proof.
  assert (blocks_of [fn] = [(fn, b0); (fn, b1)]) as E by reflexivity. destruct fn_ends as [E0 E1]. unfold code_of. rewrite E. split.
  - intros (y & [->|[->|[]%elem_of_nil]%elem_of_cons]%elem_of_cons & Hy); rewrite ?E0, ?E1 in Hy; simpl in Hy; lia.
  - intros Hx. destruct (decide (x < 0x1004)); [exists (fn, b0); rewrite E0|exists (fn, b1); rewrite E1]; (split; [set_solver|]); simpl; lia.
Qed.

(** Below [limit], the only jump of the moved code has its target in reach. *)
Definition limit : Z := 0x100000.
Lemma moved_total : zsum item_cap (all_items (cm_blocks moved)) = 66.
Proof. vm_compute. reflexivity. Qed.
Lemma moved_patches lo hi : hi <= limit + 200 -> Forall (fun it => match it with IPatch p _ => placeable p lo hi | _ => True end) (all_items (cm_blocks moved)).
Proof.
  intros Hhi. unfold limit in Hhi. let x := eval vm_compute in (all_items (cm_blocks moved)) in change (all_items (cm_blocks moved)) with x.
  repeat (apply Forall_cons; split; [try exact I|]); [|by apply Forall_nil]. split; [vm_compute; reflexivity|]. split; [lia|]. left. lia.
Qed.
Lemma moved_buildable base : 0 < base <= limit -> buildable (all_items (cm_blocks moved)) base.
Proof.
  intros Hb. unfold limit in Hb. split; rewrite ?moved_total; try lia; [vm_compute; reflexivity..|].
  apply move_example.items_patches; [vm_compute; reflexivity|]. apply moved_patches. unfold limit. lia.
Qed.
Lemma moved_solid : solid (all_items (cm_blocks moved)).
Proof.
  let x := eval vm_compute in (all_items (cm_blocks moved)) in change (all_items (cm_blocks moved)) with x. do 2 eexists. split; [right; left|done].
Qed.
Lemma moved_layable : layable moved 100 400 limit.
Proof.
  split; rewrite ?moved_total; [|exact moved_buildable|exact moved_solid|vm_compute; reflexivity|lia|vm_compute; reflexivity|done].
  intros j b Ej. destruct j as [|[|j]]; vm_compute in Ej; [injection Ej as <-; vm_compute; reflexivity..|done].
Qed.

(** The binary: its text section. *)
Definition text_section : region := mk_region false 0x1000 0x40 (replicate 64 0x90).
Lemma text_section_ok : Forall (region_ok 0x3000) [text_section] /\ ForallOrdPairs apart_regions [text_section].
Proof.
  split; [|repeat constructor]. rewrite Forall_cons, Forall_nil. split; [|done]. intros _. simpl. lia.
Qed.
Definition opened : option binaryEdit :=
  match createMemoryBackingStore [text_section] (new_image 8 0x3000) with Ret r => Some r.2 | Fault _ => None end.

(** What the binary is good for. *)
Record binary_for_fn (b : binaryEdit) : Prop := {
  bf_ok : be_ok b;
  bf_room : room_below b limit 0x2000;
  bf_text : be_data b 0x1000 0x40
}.
Lemma opened_binary : exists b, opened = Some b /\ binary_for_fn b.
Proof.
  destruct text_section_ok as [H1 H2]. destruct (createMemoryBackingStore_run 8 0x3000 [text_section] ltac:(by right) ltac:(lia) H1 H2) as (b & m & E & HB & Hbl & Hhi & Hw & Hs).
  destruct (Hs text_section ltac:(by left) eq_refl) as (v & o & Ht & Hal & Hd). pose proof (tracker_len b m _ _ _ HB Ht) as Hl. rewrite Hd in Hl.
  exists b. split; [unfold opened; by rewrite E|]. split.
  - split; [by exists m|by rewrite Hhi, Hw].
  - unfold room_below. by rewrite Hbl, Hhi, Hw.
  - exists m, 0x1000, v, o. split_and!; try done. change (Z.of_nat (length (region_bytes text_section))) with 0x40 in Hl. lia.
Qed.

Definition space_of (b : binaryEdit) : AddressSpace (trap_maps binaryEdit) := mk_as InstalledSpringboards_new [] true 8 (trampTrapMappings_new b).

Lemma fn_text b x n : binary_for_fn b -> 0 < n -> (forall y, x <= y < x + n -> code_of [fn] y) -> cs_text (trampTrapMappings_new b) x n.
Proof.
  intros [_ _ Ht] Hn Hx. pose proof (proj1 (fn_code _) (Hx x ltac:(lia))). pose proof (proj1 (fn_code _) (Hx (x + n - 1) ltac:(lia))).
  split; [lia|]. exists 0x1000, 0x40. split; [by right|lia].
Qed.
Lemma fn_movable b : binary_for_fn b -> movable [fn] (space_of b) limit (zsum item_cap (all_items (cm_blocks moved))).
Proof.
  intros HB. split; rewrite ?moved_total; try done.
  - apply HB.
  - by intros t y func ?%elem_of_nil.
  - intros x n. by apply fn_text.
  - eapply ca_room_less; [exact (bf_room _ HB)|lia].
  - intros x to Hx%fn_code Hto. unfold limit in Hto. unfold at_limit. rewrite (swrap_id 64) by (unfold srange; simpl; lia). apply andb_false_intro2, Z.ltb_ge. lia.
Qed.
End demo_function.
Import demo_function.

Lemma moved_functions_are_entered_witness :
  exists b base f bs a', opened = Some b /\ relocateInt [fn] 0x1000 100 400 (space_of b) = Ret (true, a') /\ code_at (as_space a') base bs /\
    enters moved f (as_space a') fn b0 /\ enters moved f (as_space a') fn b1.
Proof.
  destruct opened_binary as (b & Eb & HB).
  destruct (moved_functions_are_entered [fn] (space_of b) 0x1000 100 400 limit) as (c & base & f & bs & a' & Ec & E & _ & H1 & _ & H2 & H3 & _).
  { discriminate. }
  { exact fn_parsed. }
  { exact fn_cfg. }
  { intros c Ec. rewrite prepare_moved in Ec. injection Ec as <-. split; [exact moved_layable|by apply fn_movable]. }
  rewrite prepare_moved in Ec. injection Ec as <-. exists b, base, f, bs, a'. split; [exact Eb|]. split; [exact E|]. split; [exact H1|].
  split; [apply (H2 fn); [by left|reflexivity]|]. apply (H3 fn); [by left|reflexivity|right; left|reflexivity|].
  apply (caught_outside _ _ _ edge_in); [right; left|discriminate..| |right; intros [? _]; discriminate].
  intros j (rb & Ej & Er & _). destruct j as [|[|j]]; vm_compute in Ej; [injection Ej as <-; discriminate Er..|discriminate].
Defined.

(** A request for the entry, after the blocks of the function are known. *)
Definition entry_request : SpringboardMap :=
  match addFromOrigCode 0x1000 0x3000 Required (Some fn) b0 [] with Ret m => m | Fault _ => [] end.
Definition entry_req : SpringboardReq := SpringboardReq_new 0x1000 0x3000 Required (Some fn) (Some b0) true true false false.
Lemma entry_request_at p : at_priority p entry_request = match p with Required => [(0x1000, entry_req)] | _ => [] end.
Proof. by destruct p. Qed.

Lemma entry_request_ok own keep (s : trap_maps binaryEdit) : own 0x1000 = Some fn -> input_ok own keep s [] entry_request.
Proof.
  intros Ho. split; intros p Hp; rewrite entry_request_at.
  - destruct p; try (by split; [apply Forall_nil|]). split; [|split; [by intros y ?%elem_of_nil|done]]. apply Forall_cons. split; [|by apply Forall_nil]. split; try done.
    + exists 0x3000. split; [by do 3 eexists|]. split; [simpl; lia|]. split; [lia|]. by vm_compute.
    + exists b0. split; [done|]. by intros t d c ?%elem_of_nil.
  - destruct p; try (by apply Forall_nil). by destruct Hp.
Qed.

Lemma springboards_lead_witness :
  exists b a1 a', opened = Some b /\ createFunc [fn] (space_of b) = Ret (tt, a1) /\ patchCode entry_request a1 = Ret (true, a') /\ arrives (as_space a') 0x1000 0x3000.
Proof.
  destruct opened_binary as (b & Eb & HB). destruct (createFunc_run [fn] (space_of b) fn_parsed eq_refl) as (i & Ei & HF & Eo).
  destruct (filled_ranges [fn] i fn_parsed HF) as (R1 & R2 & R3). destruct (R3 (fn, b0) ltac:(by left)) as [Hown Hun].
  destruct (springboards_lead (own_of (validRanges_ i)) (id_of [fn]) (code_of [fn]) (fun _ => True) (with_inst i (space_of b)) entry_request) as (ok & a' & E & _ & Hok & Hw).
  { split; [apply id_of_pos|auto|exact R1|exact R2|simpl; rewrite Eo; exact I|apply HB|intros x n Hn Hx; exact (fn_text b x n HB Hn Hx)|reflexivity]. }
  { by apply entry_request_ok. }
  assert (ok = true) as -> by (apply Hok; [reflexivity|]; intros kr Hkr; rewrite entry_request_at in Hkr; apply list_elem_of_singleton in Hkr as ->; exact Hun).
  exists b, (with_inst i (space_of b)), a'. split; [exact Eb|]. split; [exact Ei|]. split; [exact E|].
  destruct Hw as (ps & Q1 & Q2 & _). destruct (Q2 (0x1000, entry_req)) as (q & to & Hq & (k & g & rest & Ed) & Ef & Et); [rewrite entry_request_at; by left|].
  injection Ed as _ _ <- _. rewrite <- Et. change 0x1000 with (rq_from (0x1000, entry_req).2). rewrite <- Ef. exact (Q1 q Hq).
Defined.

(** ** Behaviour beyond the theorems *)

(** A function that is added again after a springboard was put across the end of its
    first block: the bytes of the springboard count as free, and a longer one in its
    place is no conflict but fails an assertion. *)
Definition added_twice : M InstalledSpringboards unit :=
  addFunc fn ;; registerBranch 0x1000 0x1005 [] false (Some fn) Required ;; addFunc fn.
Example added_again :
  match added_twice InstalledSpringboards_new with
  | Ret (_, i) => validRanges_ i = [(0x1000, (0x1004, mk_info 2 (Some fn) MIN_PRIORITY)); (0x1004, (0x1005, mk_info 2 (Some fn) MIN_PRIORITY)); (0x1005, (0x1010, mk_info 1 (Some fn) MIN_PRIORITY))] /\
      conflict 0x1000 0x100E false (Some fn) Required i = Ret false /\ registerBranch 0x1000 0x100E [] false (Some fn) Required i = Fault FAssert
  | Fault _ => False
  end.
Proof. vm_compute. done. Qed.

(** An edge of an indirect jump makes its target required, unless it comes from a block
    that is linked after the target was judged. *)
Definition block_at (n : Z) : block_instance := mk_block n (0x1000 + 8 * n).
Definition jumps_to (from to : Z) : edge_instance := mk_ei INDIRECT false (block_at from) (block_at to) false.
Definition three_blocks : Parse := {| func_blocks _ := [block_at 0; block_at 1; block_at 2]; block_end b := b_start b + 8; findBlocks _ _ := []; region_contains _ _ := false |}.
Definition jumping (e : edge_instance) : Cfg (parse := three_blocks) := {|
  isInstrumentable _ := true; entryBlock _ := block_at 0; entryOfFunc _ := None; wasUserAdded _ := false;
  sources b := if decide (b = ei_trg e) then [e] else []; targets b := if decide (b = ei_src e) then [e] else [];
  createReloc b f := Some (mk_rb (b_start b) b (Some f) (b_start b) false [] (mk_cfw false false true 0 None (mk_loc 0 1 (-1)) (b_start b) 0 []) [] (-1));
  jump_target _ := None |}.
Definition priority_of (n : Z) (r : res CodeMover) : option Priority :=
  match r with Ret c => snd <$> List.find (fun x => bool_decide (x.1.1 = block_at n)) (priorityMap_ c) | Fault _ => None end.
Example indirect_edge_seen : priority_of 2 (prepare (parse := three_blocks) (cfg := jumping (jumps_to 1 2)) [fn]) = Some Required.
Proof. vm_compute. reflexivity. Qed.
Example indirect_edge_missed : priority_of 1 (prepare (parse := three_blocks) (cfg := jumping (jumps_to 2 1)) [fn]) = Some Suggested.
Proof. vm_compute. reflexivity. Qed.

(** A block of two functions that were both moved before: the old copy for the first is
    redirected to the new copy for the second. *)
Definition gn : func_instance := mk_func 2 0x0f00.
Definition old_copies : CodeTracker :=
  foldl index_one CodeTracker_new [mk_te OriginalTracker 0x1000 0x2000 4 b0 (Some fn); mk_te OriginalTracker 0x1000 0x2100 4 b0 (Some gn)].
Definition both_functions : res SpringboardMap :=
  match addFromOrigCode 0x1000 0x3000 Required (Some fn) b0 [] with Ret m => addFromOrigCode 0x1000 0x4000 Required (Some gn) b0 m | Fault x => Fault x end.
Definition redirected (m : SpringboardMap) : option (list (Z * list Z)) :=
  match map_get 0x1000 (at_priority Required m) with
  | None => None
  | Some r =>
      match createRelocSpringboards r false (mk_build (mk_as InstalledSpringboards_new [old_copies] true 8 tt) m [] []) with
      | Ret (_, b) => Some ((fun x => (x.1, snd <$> (snd <$> rq_destinations x.2))) <$> at_priority RelocRequired (bd_input b))
      | Fault _ => None
      end
  end.
Example copies_mixed : match both_functions with Ret m => redirected m | Fault _ => None end = Some [(0x2000, [0x4000]); (0x2100, [0x4000])].
Proof. vm_compute. reflexivity. Qed.
